(* ===== verification/_CoqProject ===== *)
-Q . S2P
Prelude.v
Bytes.v
Hlc.v
WaitGraph.v
LockManager.v
LockWakeup.v
TxManager.v
TxIsolation.v
TxnRecord.v
Intents.v
TwoPhase.v
RaftLog.v
RaftNode.v
RaftReplication.v
PageBytes.v
HeapPage.v
FreeSpaceMap.v
PoolPage.v
ClockSweep.v
BufferPool.v
PoolRefinement.v
BTreePage.v
PageProg.v
DiskBTree.v
BTreeMaintenance.v
BTreeState.v
BTreeShape.v
BTreeRead.v
BTreeInsert.v
BTreeRepair.v
BTreeDelete.v
BTreeBuild.v
BTreeSpec.v
BTreeExample.v
PoolProg.v
BTreePool.v
Checksum.v
Disk.v
FileStore.v
FileCrash.v
FileTree.v
FileExample.v
BinaryIo.v
BigNumeric.v
WalTypes.v
WalValue.v
WalCodec.v
WalExample.v
WalEntry.v
WalSegment.v
WalLog.v
WalReplay.v
WalRecovery.v
WalFailure.v
WalRetention.v
WalHistory.v
IndexRedo.v
RedoNodes.v
IndexLog.v
LogRedo.v
LogChains.v
LogBatch.v
LogExample.v
