(* ===== verification/Prelude.v ===== *)
(** * AionDB: a verification library for the transactional and storage core

    AionDB is a SQL and graph database written in Rust (41 crates under
    [src/crates/]).  This library models the parts on which its guarantees rest, each
    as executable definitions that follow the source function by function, and proves
    what they promise.

    ** The parts and how they interact

    - Transactions on one node ([aiondb-tx]).  A session begins a transaction at the
      transaction manager, which hands out ids, snapshots and commit timestamps and
      validates read and write sets before a commit; explicit locks are taken from the
      sharded lock manager, which searches a wait-for graph before a thread sleeps.
    - Transactions across nodes ([aiondb-tx]).  A coordinator keeps a record per
      transaction in a registry, asks participants to prepare, takes the commit
      timestamp from a hybrid logical clock and broadcasts the outcome.  Uncommitted
      writes are intents in a registry of their own.
    - Consensus ([aiondb-ha]).  Raft nodes with a log and a voted-for/term file on disk
      elect leaders and replicate entries.
    - Storage ([aiondb-buffer-pool]).  Rows are tuples on slotted heap pages; a free
      space map finds a page with room; pages are cached in a buffer pool that evicts
      by clock sweep and writes dirty pages back to a page store, in memory or in files
      with checksums and a journal.  Ordered indexes are B+trees whose pages live in such
      a pool.
    - The write-ahead log ([aiondb-wal]).  Every change is a record; the writer gives it
      an LSN, encodes it with a checksum and appends it to the current segment file, which
      it closes when it is full.  After a crash the writer scans the segments, cuts a torn
      tail off and continues; readers replay the entries for recovery and replication.
    - Index pages in the log ([aiondb-storage-engine]).  A commit compares the changed
      pages of each index with its data file and logs the differences, as changes of the
      B+tree where it recognises them; recovery applies the records to the data files
      before it opens the indexes.

    ** Files

    - [Prelude] (this file): machine integers with the overflow behaviour of each Rust
      method, [Result] and [DbError] ([aiondb-core]), byte strings and their order, a
      sorted view of maps, the tactics and the hint databases.
    - [Hlc] ([hlc.rs]): [now], [peek] and [update] of one clock, and several clocks
      exchanging timestamps.
    - [WaitGraph], [LockManager] ([lock_manager.rs]): [LockState::reachable], then the
      lock table: [blockers], [grant], [acquire] (one function per loop iteration),
      [acquire_nowait], [release_txn] and the shards; a transition system with
      sleeping threads.  [LockWakeup]: the condition variable of a shard, with a release and
      its notification as separate steps.
    - [TxManager], [TxIsolation] ([lifecycle.rs]): [InMemoryTransactionManager] with
      every operation; then histories of concurrent transactions.
    - [TxnRecord] ([distributed_record.rs]), [Intents] ([intent_registry.rs]),
      [TwoPhase] ([two_phase_commit.rs]): the record state machine, the intent registry
      and the coordinator's [execute] over both the registry and the clock.
    - [RaftLog] ([raft/log.rs], [raft/state.rs]), [RaftNode] ([raft/node.rs],
      [raft/rpc.rs]), [RaftReplication]: the files with failing writes and crashes, the
      node's handlers, and exchanges between nodes.
    - [PageBytes]: fields of a page as byte ranges.  [HeapPage] ([heap_page.rs]),
      [FreeSpaceMap] ([free_space_map.rs]).
    - [PoolPage] ([page.rs]), [ClockSweep] ([eviction.rs]), [BufferPool] ([pool.rs]),
      [PoolRefinement]: the pool over the [PageStore] interface, with the in-memory
      store of the source as an instance.
    - [BTreePage], [DiskBTree] ([disk_btree.rs]), [BTreeMaintenance]
      ([disk_btree_maintenance.rs]): the pages of the fixed-width B+tree byte for byte, then
      every operation as a program over pages ([PageProg]: fetch, modify, create, reset,
      flush, sync).  [BTreeState] relates the pages of a relation to a metapage, a free list
      and a set of nodes, with a small separation logic for programs; [BTreeShape] has the
      trees those nodes form and their contexts; [BTreeRead], [BTreeInsert], [BTreeRepair],
      [BTreeDelete] and [BTreeBuild] prove the operations; [BTreeSpec] states what a client
      sees and [BTreeExample] has runs in which a deletion goes wrong.
    - [PoolProg], [BTreePool]: the same programs run on the buffer pool, and the tree, the
      pool and the page store together.
    - [Disk]: a directory of files that can crash.  [FileStore] ([disk.rs]): the file-backed
      page store with its journal, its checksums and its cache of handles, an instance of
      [PageStore].  [FileCrash], [FileTree]: crashes inside a page write, after a bulk load and
      below a B+tree.  [FileExample]: runs in which files or pages are lost.
    - [Bytes], [Checksum] ([aiondb-core/checksum.rs]), [BigNumeric] ([numeric/]):
      little-endian integers, CRC32C and FNV-1a, decimal text of large numbers.
    - [BinaryIo] ([codec/binary_io.rs]), [WalTypes] ([record.rs], [value.rs],
      [descriptors.rs]), [WalValue], [WalCodec] ([codec.rs], [codec/catalog.rs]): the
      record types and their encoding, one definition per function and per group of match
      arms.  [WalEntry] ([codec.rs], [lsn.rs]): framing, compression and checksums.
      [WalExample]: an instance of the external types, to evaluate witnesses on.
    - [WalSegment] ([segment.rs]), [WalLog] ([writer.rs], [reader.rs]): segment headers,
      then [WalWriter] and [WalReader] over a directory of files.  [WalReplay],
      [WalRecovery], [WalFailure], [WalRetention]: their invariants, what a full disk changes
      and the removal of segments.  [WalHistory]: the theorems about histories of appends and
      flushes that may fail, removals, crashes and reopenings.
    - [IndexRedo] ([engine/recovery/mod.rs]): the functions that apply a page record to the
      index files, one per record, and their dispatch; [RedoNodes] has what they do to the
      nodes the pages hold.  [IndexLog] ([engine/mod.rs], [engine/paged_wal_ops.rs]): the
      comparison of pages, one detection per structural change, and
      [build_disk_index_page_records].  [LogRedo], [LogChains], [LogBatch]: what is logged is
      redone, for changes of several pages, for root changes and chains of collapses, and for
      a commit as a whole.  [LogExample]: commits whose redo goes wrong, or never begins.

    ** How the code is represented

    A struct is a [Record], an enum an [Inductive], a [HashMap] or [BTreeMap] a [gmap]
    (a [BTreeMap] iterates through [sort_keys]), a [Vec] a list, an integer a [Z] with
    its width written into the operations.  A method that holds one mutex throughout is
    one function on the state; where the source lets go of a lock inside an operation
    the pieces are separate functions and a step relation interleaves them.  Errors are
    values of [Result]; a panic is [None], and so is, in [IndexLog], a loop that never ends.  Wall clocks, deadlines, disk outcomes,
    remote participants and the page store below the pool are inputs or type classes with
    laws; the file-backed store is an instance.  Its directory keeps, for each file, the
    contents now and those a crash may bring back since the last [fsync], with writes cut
    off anywhere; an operation returns the directories it passes through, so that a theorem
    can stop it at any of them.  Inputs or classes are also
    the libraries the log uses: the calendar and clock types of the [time] crate and the
    JSON values of [serde_json] ([ExternalTypes], [ExternalLaws]), LZ4 and zstd
    ([Compression], [CompressionLaws]).

    ** What the theorems show

    - Clocks: timestamps strictly increase and respect happened-before.
    - Locks: no two conflicting grants coexist; the wait-for graph stays acyclic, its
      search is sound, complete and terminating; a sleeping request is blocked by some
      grant or a notification is due, as long as no upgrade drops a conflict; releasing a
      transaction leaves nothing behind; exactly which upgrades keep their exclusion.
    - Isolation: first committer wins on tuples and relations; the serialization graph
      of serializable transactions is acyclic; snapshots and the garbage-collection
      horizon are those specified.
    - Distributed commit: records only move forward and terminal states are final;
      every participant gets the same decision whatever the interleaving, when none is
      listed twice; retries are bounded; at most one transaction holds an intent on a key, and resolving it is
      the same as a scan of the primary index.
    - Raft: at most one leader per term across crashes and failed writes; the commit
      rule; what one AppendEntries exchange does to a log, that it terminates and
      catches a follower up; log files round-trip.
    - Storage: the heap page refines a table of slots (insertion, deletion, compaction;
      no live tuple moves or changes), the free space map never overstates, the sweep
      finds a victim if there is one, and the buffer pool is a transparent cache whose
      flush makes every write durable, except for pages of a relation whose reset failed:
      their last writes may be lost ([failed_reset_loses_write]).
    - Files: the store in files is a page store with the same laws; a page write that a crash
      interrupts leaves the old or the new page, also when the restart after it is interrupted
      in turn, unless a torn journal has the checksum of a record ([journal_forged]); a bulk load is durable after its final sync when all handles fit the cache; a
      B+tree that was flushed is the same map after a crash, in a store that syncs each write.
    - B+tree: every sequence of insertions, deletions, lookups and scans gives the results
      of a finite map, for created and for bulk-loaded trees, on plain pages and on a pool
      of two or more frames over any reliable store, and across a flush and a restart.  A
      deletion may return an error after it removed its key; with at most two levels it
      does not.
    - Log: an entry of any record type, LSN and compression decodes to itself; a torn
      entry and one with up to four corrupted bytes are refused; decoding arbitrary bytes
      never panics and yields well-formed entries only.  The log refines a list of records
      through appends, batches, rotations, flushes, removals, crashes and reopenings, with
      appends and flushes that fail where the failure leaves no trace ([harmless]); a crash
      loses only a suffix that had not reached the file; one that cuts a segment header short
      closes the log, for good from eight bytes on; removing old segments does not change what is
      read from the cutoff on, unless a closed segment is empty.
    - Redo of index pages: a patch gives the new page byte for byte; splits, redistributions,
      merges and collapses that are recognised are redone to the same nodes, and so are all the
      pages of a commit whose records have one page each; building the records ends, unless
      the data file has a cycle of single children.  This is for one commit since the
      pages on disk were written; for several the examples show that it fails.

    Some lemmas show the opposite: concrete runs in which the code does not do what it
    documents.  They are named in their files next to the theorem they qualify.

    ** Bounds and fuel

    Searches and loops that are not structural recursions use either the bound of the
    source itself (the clock sweep's [cap * (MAX_USAGE_COUNT + 1)], the attempt limits
    of two-phase commit, the length of the log) or fuel computed from the state (the
    wait-graph search visits each node once; a scan or a reader of the log has one step
    per byte and per segment, and every entry takes at least 17 bytes; nested values have
    the depth limit of the codec; a loop over a B+tree visits a page at most once, and there
    are fewer pages in the tree than operations before it).  Each has a theorem that the
    bound is enough.  Counters keep their 64-bit width; where a theorem needs that a counter
    has not been exhausted, that is a hypothesis.  B+tree theorems take page capacities that
    fit a page (the default is 510 entries) and at most 2^31 operations, fewer where the page
    numbers of the store do not suffice for them ([room_for]), so that heights and page numbers
    stay in range.  A file of the store has at most 2^50 pages, so that offsets fit 63 bits.
    The two loops down a chain of single children have no bound in the source; their model
    takes a step per page, and what has not ended by then never ends
    ([removed_chain_endless], [collapsed_chain_endless]).

    ** What is not modelled

    The Rust memory model and the insides of mutexes and condition variables (a
    critical section is atomic); logging, metrics and [Display]; network transports and
    timers; JSON encoding of the Raft files; errors of the operating system other than those
    the source injects, and several threads in the file-backed store at once; the B+tree with
    variable-width keys; several threads using one B+tree, between whose operations the
    source has no latches; [fsync], archiving, HMAC files and replication slots of the log;
    the tables, snapshots and checkpoints of the storage engine and the replay of
    transactions into them, which follows the redo of index pages; the arithmetic of numeric
    values; the SQL front end, planner, executor, catalog, graph and vector crates and the
    server, which sit above the parts modelled here. *)

From stdpp Require Export base gmap strings list fin_maps sorting relations.
From Stdlib Require Export ZArith Lia.

#[global] Open Scope Z_scope.

(** ** Machine integers

    Unsigned Rust integers are modelled by [Z] together with the range they
    inhabit; every arithmetic operation of the source is written with the
    overflow behaviour of the method it calls. *)

Definition u64_max : Z := 2 ^ 64 - 1.
Definition u32_max : Z := 2 ^ 32 - 1.

Definition in_u64 (x : Z) : Prop := 0 <= x <= u64_max.
Definition in_u32 (x : Z) : Prop := 0 <= x <= u32_max.

(** [a.saturating_add(b)] at a width whose greatest value is [mx]. *)
Definition saturating_add (mx a b : Z) : Z := Z.min mx (a + b).

(** [a.saturating_sub(b)] on unsigned integers. *)
Definition saturating_sub (a b : Z) : Z := Z.max 0 (a - b).

(** [a.checked_add(b)]. *)
Definition checked_add (mx a b : Z) : option Z :=
  if a + b <=? mx then Some (a + b) else None.

(** [a.wrapping_mul(b)] on [u64]. *)
Definition wrapping_mul64 (a b : Z) : Z := (a * b) mod 2 ^ 64.

Lemma saturating_add_bound mx a b : saturating_add mx a b <= mx.
Proof. unfold saturating_add. lia. Qed.

Lemma saturating_add_exact mx a b : a + b <= mx -> saturating_add mx a b = a + b.
Proof. unfold saturating_add. lia. Qed.

Lemma checked_add_Some mx a b c :
  checked_add mx a b = Some c <-> c = a + b /\ a + b <= mx.
Proof. unfold checked_add. destruct (Z.leb_spec (a + b) mx); naive_solver lia. Qed.

Lemma checked_add_None mx a b : checked_add mx a b = None <-> mx < a + b.
Proof. unfold checked_add. destruct (Z.leb_spec (a + b) mx); naive_solver lia. Qed.

(** ** Errors

    [DbError] keeps the variant of the error report and its SQLSTATE; the
    human-readable message is not modelled. *)

Inductive SqlState : Type :=
| DeadlockDetected
| LockNotAvailable
| SerializationFailure
| FeatureNotSupported
| InternalError.

Inductive DbError : Type :=
| Transaction (s : SqlState)
| Internal.

#[global] Instance SqlState_eq_dec : EqDecision SqlState.
Proof. solve_decision. Defined.

#[global] Instance DbError_eq_dec : EqDecision DbError.
Proof. solve_decision. Defined.

(** [Result<A, E>] of the source. *)
Inductive Result (E A : Type) : Type :=
| Ok (a : A)
| Err (e : E).
Arguments Ok {E A} a.
Arguments Err {E A} e.

#[global] Instance Result_eq_dec {E A} `{EqDecision E, EqDecision A} : EqDecision (Result E A).
Proof. solve_decision. Defined.

Abbreviation DbResult := (Result DbError).

Definition is_ok {E A} (r : Result E A) : bool :=
  match r with Ok _ => true | Err _ => false end.

(** [Option::ok_or]. *)
Definition ok_or {E A} (o : option A) (e : E) : Result E A :=
  match o with Some a => Ok a | None => Err e end.

Declare Scope result_scope.
Delimit Scope result_scope with result.

(** [let? x := e in k] is the [?] operator of the source. *)
Notation "'let?' x ':=' e 'in' k" :=
  (match e with Ok x => k | Err err => Err err end)
  (at level 10, x pattern, e at level 100, k at level 200)
  : result_scope.

(** ** Total orders

    [#[derive(Ord)]] compares field by field.  [RustOrd] is the comparison
    function and [RustOrdLaws] what the clients of an ordered key rely on. *)

Class RustOrd (A : Type) := cmp : A -> A -> comparison.

Class RustOrdLaws (A : Type) `{RustOrd A} : Prop := {
  cmp_eq : forall a b : A, cmp a b = Eq <-> a = b;
  cmp_flip : forall a b : A, cmp b a = CompOpp (cmp a b);
  cmp_trans : forall a b c : A, cmp a b = Lt -> cmp b c = Lt -> cmp a c = Lt
}.

Definition ord_lt {A} `{RustOrd A} (a b : A) : Prop := cmp a b = Lt.
Definition ord_le {A} `{RustOrd A} (a b : A) : Prop := cmp a b <> Gt.
Definition ord_ltb {A} `{RustOrd A} (a b : A) : bool :=
  match cmp a b with Lt => true | _ => false end.
Definition ord_max {A} `{RustOrd A} (a b : A) : A :=
  match cmp a b with Gt => a | _ => b end.

#[global] Instance ord_lt_dec {A} `{RustOrd A} : RelDecision (ord_lt (A := A)).
Proof. intros a b. unfold ord_lt. destruct (cmp a b); [right|left|right]; congruence. Defined.

#[global] Instance ord_le_dec {A} `{RustOrd A} : RelDecision (ord_le (A := A)).
Proof. intros a b. unfold ord_le. destruct (cmp a b); [left|left|right]; congruence. Defined.

Section OrdLaws.
Context {A : Type} `{RustOrdLaws A}.
Implicit Types a b c : A.

Lemma cmp_refl a : cmp a a = Eq.
Proof. by apply cmp_eq. Qed.

Lemma ord_lt_irrefl a : ~ ord_lt a a.
Proof. unfold ord_lt. rewrite cmp_refl. congruence. Qed.

Lemma ord_lt_trans a b c : ord_lt a b -> ord_lt b c -> ord_lt a c.
Proof. apply cmp_trans. Qed.

Lemma ord_lt_le a b : ord_lt a b -> ord_le a b.
Proof. unfold ord_lt, ord_le. congruence. Qed.

Lemma ord_le_cases a b : ord_le a b <-> ord_lt a b \/ a = b.
Proof.
  unfold ord_le, ord_lt. rewrite <- (cmp_eq a b).
  destruct (cmp a b); naive_solver.
Qed.

Lemma ord_not_lt a b : ~ ord_lt a b <-> ord_le b a.
Proof.
  unfold ord_lt, ord_le. rewrite (cmp_flip a b).
  destruct (cmp a b); simpl; naive_solver.
Qed.

Lemma ord_le_refl a : ord_le a a.
Proof. apply ord_le_cases. by right. Qed.

Lemma ord_lt_le_trans a b c : ord_lt a b -> ord_le b c -> ord_lt a c.
Proof. intros ? [?| ->]%ord_le_cases; eauto using ord_lt_trans. Qed.

Lemma ord_le_lt_trans a b c : ord_le a b -> ord_lt b c -> ord_lt a c.
Proof. intros [?| ->]%ord_le_cases ?; eauto using ord_lt_trans. Qed.

Lemma ord_le_trans a b c : ord_le a b -> ord_le b c -> ord_le a c.
Proof.
  intros [?| ->]%ord_le_cases Hbc; [|done].
  eauto using ord_lt_le, ord_lt_le_trans.
Qed.

Lemma ord_le_antisym a b : ord_le a b -> ord_le b a -> a = b.
Proof.
  intros [Hab| ->]%ord_le_cases Hba; [|done].
  by apply ord_not_lt in Hba.
Qed.

Lemma ord_total a b : ord_le a b \/ ord_le b a.
Proof.
  unfold ord_le. rewrite (cmp_flip a b). destruct (cmp a b); simpl; naive_solver.
Qed.

Lemma ord_ltb_spec a b : reflect (ord_lt a b) (ord_ltb a b).
Proof. unfold ord_ltb, ord_lt. destruct (cmp a b); constructor; congruence. Qed.

Lemma ord_max_ub_l a b : ord_le a (ord_max a b).
Proof.
  unfold ord_max. destruct (cmp a b) eqn:E; try apply ord_le_refl;
    unfold ord_le; congruence.
Qed.

Lemma ord_max_ub_r a b : ord_le b (ord_max a b).
Proof.
  unfold ord_max. destruct (cmp a b) eqn:E; try apply ord_le_refl.
  unfold ord_le. rewrite cmp_flip, E. simpl. congruence.
Qed.

Lemma ord_max_lub a b c : ord_le a c -> ord_le b c -> ord_le (ord_max a b) c.
Proof. unfold ord_max. destruct (cmp a b); auto. Qed.

#[export] Instance ord_le_Total : Total (ord_le (A := A)).
Proof. intros a b. apply ord_total. Qed.

#[export] Instance ord_le_Transitive : Transitive (ord_le (A := A)).
Proof. intros a b c. apply ord_le_trans. Qed.

#[export] Instance ord_lt_Transitive : Transitive (ord_lt (A := A)).
Proof. intros a b c. apply ord_lt_trans. Qed.

End OrdLaws.

#[global] Instance Z_ord : RustOrd Z := Z.compare.

#[global] Instance Z_ord_laws : RustOrdLaws Z.
Proof.
  split; unfold cmp, Z_ord.
  - apply Z.compare_eq_iff.
  - intros. apply Z.compare_antisym.
  - intros a b c. rewrite !Z.compare_lt_iff. lia.
Qed.

(** Lexicographic comparison of pairs. *)
#[global] Instance prod_ord {A B} `{RustOrd A} `{RustOrd B} : RustOrd (A * B) :=
  fun x y => match cmp x.1 y.1 with Eq => cmp x.2 y.2 | c => c end.

#[global] Instance prod_ord_laws {A B} `{RustOrdLaws A} `{RustOrdLaws B} :
  RustOrdLaws (A * B).
Proof.
  split; unfold cmp, prod_ord.
  - intros [a1 b1] [a2 b2]; simpl. pose proof (cmp_eq a1 a2) as HA.
    pose proof (cmp_eq b1 b2) as HB. destruct (cmp a1 a2), (cmp b1 b2); naive_solver.
  - intros [a1 b1] [a2 b2]; simpl. rewrite (cmp_flip a1 a2), (cmp_flip b1 b2).
    by destruct (cmp a1 a2).
  - intros [a1 b1] [a2 b2] [a3 b3]; simpl.
    destruct (cmp a1 a2) eqn:E1; [apply cmp_eq in E1; subst a2| |discriminate].
    + destruct (cmp a1 a3); eauto using cmp_trans.
    + intros _. destruct (cmp a2 a3) eqn:E2; [apply cmp_eq in E2; subst a3| |discriminate].
      * by rewrite E1.
      * by rewrite (cmp_trans _ _ _ E1 E2).
Qed.

(** Lexicographic comparison of slices. *)
Fixpoint list_cmp {A} `{RustOrd A} (l k : list A) : comparison :=
  match l, k with
  | [], [] => Eq
  | [], _ :: _ => Lt
  | _ :: _, [] => Gt
  | a :: l', b :: k' => match cmp a b with Eq => list_cmp l' k' | c => c end
  end.

#[global] Instance list_ord {A} `{RustOrd A} : RustOrd (list A) := list_cmp.

#[global] Instance list_ord_laws {A} `{RustOrdLaws A} : RustOrdLaws (list A).
Proof.
  split; unfold cmp, list_ord.
  - induction a as [|a l IH]; intros [|b k]; simpl; try naive_solver.
    pose proof (cmp_eq a b). specialize (IH k). destruct (cmp a b); naive_solver.
  - induction a as [|a l IH]; intros [|b k]; simpl; try done.
    rewrite (cmp_flip a b), IH. by destruct (cmp a b).
  - induction a as [|a l IH]; intros [|b k] [|c m]; simpl; try done.
    destruct (cmp a b) eqn:E1; [apply cmp_eq in E1; subst b| |done].
    + destruct (cmp a c); eauto.
    + intros _. destruct (cmp b c) eqn:E2; [apply cmp_eq in E2; subst c| |done].
      * by rewrite E1.
      * by rewrite (cmp_trans _ _ _ E1 E2).
Qed.

(** An order carried over an injection, as [derive(Ord)] does for a struct. *)
Lemma inj_ord_laws {A B} `{RustOrdLaws B} (f : A -> B) (HA : RustOrd A) :
  (forall a b, cmp a b = cmp (f a) (f b)) ->
  (forall a b, f a = f b -> a = b) -> RustOrdLaws A.
Proof.
  intros Hcmp Hinj. split; intros; rewrite !Hcmp in *.
  - rewrite cmp_eq. split; [apply Hinj|by intros ->].
  - apply cmp_flip.
  - eauto using cmp_trans.
Qed.

(** ** Ordered iteration

    A [BTreeMap] is modelled by a [gmap]; iterating over its keys is sorting
    them. *)

Definition sort_keys {A} `{RustOrd A} (l : list A) : list A := merge_sort ord_le l.

Section SortKeys.
Context {A : Type} `{RustOrdLaws A}.

Lemma sort_keys_perm (l : list A) : sort_keys l ≡ₚ l.
Proof. apply merge_sort_Permutation. Qed.

Lemma elem_of_sort_keys (l : list A) x : x ∈ sort_keys l <-> x ∈ l.
Proof. by rewrite sort_keys_perm. Qed.

Lemma sort_keys_sorted (l : list A) : StronglySorted ord_le (sort_keys l).
Proof. unfold sort_keys. apply StronglySorted_merge_sort; apply _. Qed.

End SortKeys.

(** ** Proof automation *)

Create HintDb aion discriminated.

#[export] Hint Resolve ord_lt_le ord_le_refl ord_lt_trans ord_lt_le_trans
  ord_le_lt_trans ord_le_trans ord_max_ub_l ord_max_ub_r : aion.

(** Turn the boolean comparisons of executable definitions into propositions. *)
Ltac bool_prop :=
  repeat match goal with
  | H : (_ && _)%bool = true |- _ => apply andb_true_iff in H as [? ?]
  | H : (_ || _)%bool = false |- _ => apply orb_false_iff in H as [? ?]
  | H : negb _ = true |- _ => apply negb_true_iff in H
  | H : negb _ = false |- _ => apply negb_false_iff in H
  | H : (_ <=? _)%Z = true |- _ => apply Z.leb_le in H
  | H : (_ <=? _)%Z = false |- _ => apply Z.leb_gt in H
  | H : (_ <? _)%Z = true |- _ => apply Z.ltb_lt in H
  | H : (_ <? _)%Z = false |- _ => apply Z.ltb_ge in H
  | H : (_ =? _)%Z = true |- _ => apply Z.eqb_eq in H
  | H : (_ =? _)%Z = false |- _ => apply Z.eqb_neq in H
  | H : bool_decide _ = true |- _ => apply bool_decide_eq_true in H
  | H : bool_decide _ = false |- _ => apply bool_decide_eq_false in H
  end.

(** Case analysis on the innermost scrutinee of the goal or of a hypothesis. *)
Ltac case_one :=
  match goal with
  | |- context [match ?e with _ => _ end] =>
      lazymatch e with context [match _ with _ => _ end] => fail | _ => destruct e eqn:? end
  | H : context [match ?e with _ => _ end] |- _ =>
      lazymatch e with context [match _ with _ => _ end] => fail | _ => destruct e eqn:? end
  end.

Ltac case_all := repeat (case_one; simplify_eq/=); bool_prop.

(** ** Lists *)

Lemma StronglySorted_snoc {A} (R : A -> A -> Prop) l x :
  StronglySorted R l -> Forall (fun y => R y x) l -> StronglySorted R (l ++ [x]).
Proof.
  induction 1 as [|y l Hl IH Hy]; intros Hx; simpl.
  - by repeat constructor.
  - inversion Hx; subst. constructor; [auto|].
    apply Forall_app. auto.
Qed.

Lemma StronglySorted_lookup {A} (R : A -> A -> Prop) l i j x y :
  StronglySorted R l -> (i < j)%nat -> l !! i = Some x -> l !! j = Some y -> R x y.
Proof.
  intros Hs. revert i j. induction Hs as [|z l Hl IH Hz]; intros i j Hij Hi Hj; [done|].
  destruct j as [|j]; [lia|]. destruct i as [|i]; simplify_eq/=.
  - rewrite Forall_forall in Hz. apply Hz. by eapply list_elem_of_lookup_2.
  - eapply (IH i j); eauto with lia.
Qed.

Lemma lookup_snoc_Some {A} (l : list A) x i y :
  (l ++ [x]) !! i = Some y <-> l !! i = Some y \/ i = length l /\ x = y.
Proof.
  rewrite lookup_app_Some, list_lookup_singleton_Some. split.
  - intros [?|[? [? ?]]]; [by left|right; split; [lia|done]].
  - intros [?|[-> ?]]; [by left|right; split; [done|split; [lia|done]]].
Qed.

Lemma StronglySorted_weaken {A} (R S : A -> A -> Prop) l :
  (forall x y, R x y -> S x y) -> StronglySorted R l -> StronglySorted S l.
Proof.
  intros HRS. induction 1 as [|x l Hl IH Hx]; constructor; [done|].
  eapply Forall_impl; [exact Hx|]. simpl. auto.
Qed.

Lemma sort_keys_Z_sorted (l : list Z) : StronglySorted Z.le (sort_keys l).
Proof.
  eapply StronglySorted_weaken; [|apply sort_keys_sorted].
  intros a b. unfold ord_le, cmp, Z_ord. by rewrite Z.compare_gt_iff, Z.nlt_ge.
Qed.

(** Sorting by a projection whose values are distinct gives a strictly increasing
    list. *)
Lemma sorted_by_strict {A B} `{RustOrdLaws B} (f : A -> B) (l : list A) :
  NoDup (map f l) -> StronglySorted (fun x y => ord_le (f x) (f y)) l ->
  StronglySorted ord_lt (map f l).
Proof.
  intros Hnd Hs. induction Hs as [|x l Hl IH Hx]; simpl in *; [constructor|].
  apply NoDup_cons in Hnd as [Hf Hnd]. constructor; [auto|].
  apply Forall_forall. intros b Hb. pose proof Hb as (y & -> & Hy)%list_elem_of_fmap.
  rewrite Forall_forall in Hx. specialize (Hx y Hy).
  apply ord_le_cases in Hx as [?|E]; [done|]. by rewrite E in Hf.
Qed.

Lemma sort_by_sorted {A B} `{RustOrdLaws B} (f : A -> B) (l : list A) :
  StronglySorted (fun x y => ord_le (f x) (f y))
    (merge_sort (fun x y => ord_le (f x) (f y)) l).
Proof.
  apply StronglySorted_merge_sort.
  - intros x y z. apply ord_le_trans.
  - intros x y. apply ord_total.
Qed.

Lemma sort_by_strict {A B} `{RustOrdLaws B} (f : A -> B) (l : list A) :
  NoDup (map f l) ->
  StronglySorted ord_lt (map f (merge_sort (fun x y => ord_le (f x) (f y)) l)).
Proof.
  intros Hnd. apply sorted_by_strict; [|apply sort_by_sorted].
  eapply NoDup_Permutation_proper; [|exact Hnd]. apply Permutation_map, merge_sort_Permutation.
Qed.

Lemma sort_keys_strict {A} `{RustOrdLaws A} (l : list A) :
  NoDup l -> StronglySorted ord_lt (sort_keys l).
Proof.
  intros Hnd. rewrite <- (map_id (sort_keys l)). apply sorted_by_strict; [|apply sort_keys_sorted].
  rewrite map_id. by rewrite sort_keys_perm.
Qed.

Lemma StronglySorted_filter {A} (R : A -> A -> Prop) (P : A -> Prop) `{!forall x, Decision (P x)} l :
  StronglySorted R l -> StronglySorted R (filter P l).
Proof.
  induction 1 as [|x l Hl IH Hx]; [constructor|]. rewrite filter_cons. case_decide; [|done].
  constructor; [done|]. apply Forall_forall. intros y [_ Hy]%list_elem_of_filter.
  rewrite Forall_forall in Hx. auto.
Qed.

(** The order on pairs with equal first components. *)
Lemma ord_lt_pair_same {A B} `{RustOrdLaws A} `{RustOrdLaws B} (a : A) (b c : B) :
  ord_lt (a, b) (a, c) <-> ord_lt b c.
Proof. unfold ord_lt, cmp at 1, prod_ord. simpl. by rewrite cmp_refl. Qed.

Lemma ord_le_pair_same {A B} `{RustOrdLaws A} `{RustOrdLaws B} (a : A) (b c : B) :
  ord_le (a, b) (a, c) <-> ord_le b c.
Proof. unfold ord_le, cmp at 1, prod_ord. simpl. by rewrite cmp_refl. Qed.

Lemma ord_le_pair_fst {A B} `{RustOrdLaws A} `{RustOrdLaws B} (x y : A * B) :
  ord_le x y -> ord_le x.1 y.1.
Proof. unfold ord_le, cmp at 1, prod_ord. by destruct (cmp x.1 y.1). Qed.

(** Two majorities of the same set share a member. *)
Lemma majorities_intersect (S Q1 Q2 : gset Z) :
  Q1 ⊆ S -> Q2 ⊆ S ->
  Z.of_nat (size S) / 2 + 1 <= Z.of_nat (size Q1) ->
  Z.of_nat (size S) / 2 + 1 <= Z.of_nat (size Q2) -> exists x, x ∈ Q1 /\ x ∈ Q2.
Proof.
  intros H1 H2 Hs1 Hs2. destruct (decide (Q1 ∩ Q2 = ∅)) as [E|E].
  - assert (Hd : Q1 ## Q2) by set_solver.
    assert (Hle : (size (Q1 ∪ Q2) <= size S)%nat) by (apply subseteq_size; set_solver).
    rewrite (size_union _ _ Hd) in Hle.
    pose proof (Z.div_mod (Z.of_nat (size S)) 2). pose proof (Z.mod_pos_bound (Z.of_nat (size S)) 2).
    lia.
  - apply set_choose_L in E as [x Hx]. exists x. set_solver.
Qed.

Lemma filter_all {A} (P : A -> Prop) `{!forall x, Decision (P x)} l : Forall P l -> filter P l = l.
Proof.
  induction 1 as [|x l Hx Hl IH]; [done|]. rewrite filter_cons, decide_True by done. by rewrite IH.
Qed.

Lemma filter_none {A} (P : A -> Prop) `{!forall x, Decision (P x)} l :
  Forall (fun x => ~ P x) l -> filter P l = [].
Proof.
  induction 1 as [|x l Hx Hl IH]; [done|]. by rewrite filter_cons, decide_False by done.
Qed.
