(* ===== verification/Bytes.v ===== *)
(** * Bytes and little-endian integers

    Byte strings are lists of [Z]; [byte] is the range of an element.  [le_bytes] and
    [le_value] are [to_le_bytes] and [from_le_bytes] at the width of the caller; a
    signed integer is written as its two's complement and read back with [to_signed]. *)

From S2P Require Import Prelude.

Definition byte (b : Z) : Prop := 0 <= b < 256.

Fixpoint le_bytes (n : nat) (v : Z) : list Z :=
  match n with O => [] | S n' => v mod 256 :: le_bytes n' (v / 256) end.

Fixpoint le_value (bs : list Z) : Z :=
  match bs with [] => 0 | b :: bs' => b + 256 * le_value bs' end.

(** The [w]-bit two's complement number with the bits of [v]. *)
Definition to_signed (w : Z) (v : Z) : Z := if v <? 2 ^ (w - 1) then v else v - 2 ^ w.

Definition in_signed (w : Z) (v : Z) : Prop := - 2 ^ (w - 1) <= v < 2 ^ (w - 1).
Definition in_unsigned (w : Z) (v : Z) : Prop := 0 <= v < 2 ^ w.

#[global] Instance byte_dec b : Decision (byte b).
Proof. unfold byte. apply _. Defined.

#[global] Instance in_signed_dec w v : Decision (in_signed w v).
Proof. unfold in_signed. apply _. Defined.

#[global] Instance in_unsigned_dec w v : Decision (in_unsigned w v).
Proof. unfold in_unsigned. apply _. Defined.

Lemma length_le_bytes n v : length (le_bytes n v) = n.
Proof. revert v. induction n as [|n IH]; intros v; simpl; [done|]. by rewrite IH. Qed.

Lemma le_value_mod n v : le_value (le_bytes n v) = v mod 256 ^ Z.of_nat n.
Proof.
  revert v. induction n as [|n IH]; intros v; [by rewrite Z.mod_1_r|]. cbn [le_bytes le_value].
  rewrite IH, Nat2Z.inj_succ, Z.pow_succ_r, Z.rem_mul_r by lia. lia.
Qed.

Lemma le_value_bytes n v : 0 <= v < 256 ^ Z.of_nat n -> le_value (le_bytes n v) = v.
Proof. intros Hv. rewrite le_value_mod. by apply Z.mod_small. Qed.

Lemma le_bytes_byte n v : Forall byte (le_bytes n v).
Proof.
  revert v. induction n as [|n IH]; intros v; constructor; [|apply IH].
  apply Z.mod_pos_bound. lia.
Qed.

Lemma le_value_bound bs : Forall byte bs -> 0 <= le_value bs < 256 ^ Z.of_nat (length bs).
Proof.
  induction 1 as [|b bs Hb Hbs IH]; [simpl; lia|]. cbn [le_value length].
  rewrite Nat2Z.inj_succ, Z.pow_succ_r by lia. unfold byte in Hb. lia.
Qed.

Lemma le_bytes_value bs : Forall byte bs -> le_bytes (length bs) (le_value bs) = bs.
Proof.
  induction 1 as [|b bs Hb Hbs IH]; [done|]. cbn [le_value length le_bytes]. unfold byte in Hb. f_equal.
  - rewrite Z.mul_comm, Z_mod_plus_full. by apply Z.mod_small.
  - rewrite Z.mul_comm, Z.div_add, Z.div_small, Z.add_0_l by lia. exact IH.
Qed.

Lemma le_value_inj bs cs :
  Forall byte bs -> Forall byte cs -> length bs = length cs -> le_value bs = le_value cs -> bs = cs.
Proof.
  intros Hb Hc Hl Hv. rewrite <- (le_bytes_value bs), <- (le_bytes_value cs) by done. by rewrite Hl, Hv.
Qed.

Lemma to_signed_mod w v : 0 < w -> in_signed w v -> to_signed w (v mod 2 ^ w) = v.
Proof.
  unfold in_signed, to_signed. intros Hw Hv.
  assert (Hp : 2 ^ w = 2 * 2 ^ (w - 1)) by (rewrite <- Z.pow_succ_r by lia; f_equal; lia).
  destruct (Z.le_gt_cases 0 v).
  - rewrite Z.mod_small by lia. destruct (Z.ltb_spec v (2 ^ (w - 1))); lia.
  - rewrite <- (Z.mod_unique v (2 ^ w) (-1) (v + 2 ^ w)); [|left; lia|lia].
    destruct (Z.ltb_spec (v + 2 ^ w) (2 ^ (w - 1))); lia.
Qed.

Lemma to_signed_range w v : 0 < w -> in_unsigned w v -> in_signed w (to_signed w v).
Proof.
  unfold in_signed, in_unsigned, to_signed. intros Hw Hv.
  assert (Hp : 2 ^ w = 2 * 2 ^ (w - 1)) by (rewrite <- Z.pow_succ_r by lia; f_equal; lia).
  destruct (Z.ltb_spec v (2 ^ (w - 1))); lia.
Qed.
