(* ===== verification/Hlc.v ===== *)
(** * The hybrid logical clock ([crates/aiondb-tx/src/hlc.rs])

    One [HybridLogicalClock] is a record holding the last issued timestamp and
    the largest offset accepted from a peer.  The mutex around the state makes
    [now] and [update] atomic, so each is one function from the clock and the
    wall-clock reading it takes to the new clock.  The wall clock itself is an
    input: nothing is assumed about it, it may stall or go backwards.

    The second half runs several clocks that exchange timestamps and relates
    the order of the issued timestamps to the happened-before order. *)

From S2P Require Import Prelude.

(** ** Timestamps *)

Record HlcTimestamp := mkHlc { wall_time_us : Z; logical : Z }.

Definition ZERO : HlcTimestamp := mkHlc 0 0.

#[global] Instance HlcTimestamp_eq_dec : EqDecision HlcTimestamp.
Proof. solve_decision. Defined.

#[global] Instance HlcTimestamp_countable : Countable HlcTimestamp.
Proof.
  refine (inj_countable' (fun t => (wall_time_us t, logical t))
            (fun p => mkHlc p.1 p.2) _).
  by intros [].
Defined.

(** [derive(Ord)]: wall time first, then the logical counter. *)
#[global] Instance HlcTimestamp_ord : RustOrd HlcTimestamp := fun a b =>
  cmp (wall_time_us a, logical a) (wall_time_us b, logical b).

#[global] Instance HlcTimestamp_ord_laws : RustOrdLaws HlcTimestamp.
Proof.
  apply (inj_ord_laws (fun t => (wall_time_us t, logical t)) _); [done|].
  intros [] []; simpl; congruence.
Qed.

Definition in_range (t : HlcTimestamp) : Prop :=
  in_u64 (wall_time_us t) /\ in_u32 (logical t).

(** [HlcTimestamp::next]: bump the logical counter, saturating at [u32::MAX]. *)
Definition next (t : HlcTimestamp) : HlcTimestamp :=
  mkHlc (wall_time_us t) (saturating_add u32_max (logical t) 1).

(** ** The clock *)

Inductive HlcError : Type :=
| OffsetTooLarge (peer_wall_time_us local_wall_time_us max_offset_us : Z).

Record HybridLogicalClock := mkClock {
  state : HlcTimestamp;
  max_offset_us : Z
}.

Definition with_clock (max_offset : Z) : HybridLogicalClock :=
  mkClock ZERO (if max_offset <=? u64_max then max_offset else u64_max).

Definition peek (c : HybridLogicalClock) : HlcTimestamp := state c.

Definition set_state (c : HybridLogicalClock) (t : HlcTimestamp) : HybridLogicalClock :=
  mkClock t (max_offset_us c).

(** [now], with [wall] the value [clock.now_us()] returned. *)
Definition now (wall : Z) (c : HybridLogicalClock) : HlcTimestamp * HybridLogicalClock :=
  let t := if wall_time_us (state c) <? wall then mkHlc wall 0 else next (state c) in
  (t, set_state c t).

(** The timestamp [update] computes once the peer is accepted. *)
Definition merged (wall : Z) (prev peer : HlcTimestamp) : HlcTimestamp :=
  let max_wall := Z.max (Z.max wall (wall_time_us prev)) (wall_time_us peer) in
  if (max_wall =? wall_time_us prev) && (max_wall =? wall_time_us peer) then
    mkHlc max_wall (saturating_add u32_max (Z.max (logical prev) (logical peer)) 1)
  else if max_wall =? wall_time_us prev then
    mkHlc max_wall (saturating_add u32_max (logical prev) 1)
  else if max_wall =? wall_time_us peer then
    mkHlc max_wall (saturating_add u32_max (logical peer) 1)
  else mkHlc max_wall 0.

Definition update (wall : Z) (peer : HlcTimestamp) (c : HybridLogicalClock) :
    Result HlcError HlcTimestamp * HybridLogicalClock :=
  if saturating_add u64_max wall (max_offset_us c) <? wall_time_us peer then
    (Err (OffsetTooLarge (wall_time_us peer) wall (max_offset_us c)), c)
  else
    let t := merged wall (state c) peer in
    (Ok t, set_state c t).

(** ** Order facts *)

Lemma hlc_lt_iff a b :
  ord_lt a b <->
  wall_time_us a < wall_time_us b \/
  wall_time_us a = wall_time_us b /\ logical a < logical b.
Proof.
  unfold ord_lt, cmp at 1, HlcTimestamp_ord, cmp, prod_ord, cmp, Z_ord; simpl.
  destruct (Z.compare_spec (wall_time_us a) (wall_time_us b)) as [E|E|E];
    rewrite ?Z.compare_lt_iff; split; try done; lia.
Qed.

Lemma hlc_le_iff a b :
  ord_le a b <->
  wall_time_us a < wall_time_us b \/
  wall_time_us a = wall_time_us b /\ logical a <= logical b.
Proof.
  rewrite <- ord_not_lt, hlc_lt_iff. lia.
Qed.

(** [merged] dominates both of its inputs as long as their counters have room. *)
Lemma merged_gt wall prev peer :
  logical prev < u32_max -> logical peer < u32_max ->
  ord_lt prev (merged wall prev peer) /\ ord_lt peer (merged wall prev peer).
Proof.
  intros Hp Hq. unfold merged, saturating_add. rewrite !hlc_lt_iff.
  repeat case_match; bool_prop; simpl; lia.
Qed.

Lemma merged_ge wall prev peer :
  in_u32 (logical prev) -> in_u32 (logical peer) ->
  ord_le prev (merged wall prev peer) /\ ord_le peer (merged wall prev peer).
Proof.
  intros Hp Hq. unfold merged, saturating_add, in_u32 in *. rewrite !hlc_le_iff.
  repeat case_match; bool_prop; simpl; lia.
Qed.

Lemma merged_logical wall prev peer b :
  0 <= b -> logical prev <= b -> logical peer <= b ->
  logical (merged wall prev peer) <= b + 1.
Proof.
  intros. unfold merged, saturating_add. repeat case_match; simpl; lia.
Qed.

Lemma merged_in_range wall prev peer :
  in_u64 wall -> in_range prev -> in_range peer -> in_range (merged wall prev peer).
Proof.
  unfold in_range, in_u64, in_u32, merged, saturating_add, u64_max, u32_max.
  intros. repeat case_match; simpl; lia.
Qed.

Lemma now_gt wall c :
  logical (state c) < u32_max -> ord_lt (state c) (fst (now wall c)).
Proof.
  intros. unfold now, next, saturating_add; simpl. rewrite hlc_lt_iff.
  case_match; bool_prop; simpl; lia.
Qed.

Lemma now_logical wall c b :
  0 <= b -> logical (state c) <= b -> logical (fst (now wall c)) <= b + 1.
Proof.
  intros. unfold now, next, saturating_add; simpl. case_match; simpl; lia.
Qed.

(** ** Theorems about one clock *)

(** [now] and [update] keep the clock inside [u64 x u32] and never move it
    backwards, whatever the wall clock reads and whether or not the peer is
    accepted. *)
Theorem hlc_monotone wall peer c :
  in_u64 wall -> in_range peer -> in_range (state c) ->
  (in_range (state (snd (now wall c))) /\ ord_le (state c) (state (snd (now wall c)))) /\
  (in_range (state (snd (update wall peer c))) /\
   ord_le (state c) (state (snd (update wall peer c)))).
Proof.
  intros Hw Hp Hc. split.
  - unfold now, next, saturating_add, in_range, in_u64, in_u32, u64_max, u32_max in *; simpl.
    rewrite hlc_le_iff. case_match; bool_prop; simpl; lia.
  - unfold update. case_one; simpl.
    + split; [done|apply ord_le_refl].
    + split; [by apply merged_in_range|].
      apply merged_ge; [apply Hc|apply Hp].
Qed.

Lemma hlc_monotone_witness :
  ord_le (mkHlc 7 3) (state (snd (update 5 (mkHlc 9 4) (mkClock (mkHlc 7 3) 10)))).
Proof.
  apply (hlc_monotone 5 (mkHlc 9 4) (mkClock (mkHlc 7 3) 10));
    unfold in_range, in_u64, in_u32, u64_max, u32_max; simpl; lia.
Defined.

(** [update] refuses a peer exactly when its wall time exceeds the local
    reading by more than the offset bound, and then leaves the clock as it was;
    otherwise the timestamp it returns is the new state, is at or past the local
    wall clock, and strictly follows both the previous state and the peer
    provided their counters are below [u32::MAX]. *)
Theorem update_spec wall peer c :
  match update wall peer c with
  | (Err (OffsetTooLarge p w m), c') =>
      c' = c /\ p = wall_time_us peer /\ w = wall /\ m = max_offset_us c /\
      saturating_add u64_max wall (max_offset_us c) < wall_time_us peer
  | (Ok t, c') =>
      wall_time_us peer <= saturating_add u64_max wall (max_offset_us c) /\
      state c' = t /\ max_offset_us c' = max_offset_us c /\ wall <= wall_time_us t /\
      (logical (state c) < u32_max -> logical peer < u32_max ->
       ord_lt (state c) t /\ ord_lt peer t)
  end.
Proof.
  unfold update. case_one; bool_prop; [done|]. simpl.
  repeat split; try done; try by apply merged_gt.
  unfold merged. repeat case_match; simpl; lia.
Qed.

(** The logical counter saturates: once it is at [u32::MAX] and the wall clock
    has not advanced, [now] returns the timestamp it returned before. *)
Lemma now_saturates w wall off :
  wall <= w ->
  now wall (mkClock (mkHlc w u32_max) off) =
    (mkHlc w u32_max, mkClock (mkHlc w u32_max) off).
Proof.
  intros. unfold now, next, saturating_add, set_state; simpl.
  case_match; bool_prop; [lia|].
  by replace (u32_max `min` (u32_max + 1)) with u32_max by lia.
Qed.

(** The strict-growth guarantee of [now] holds exactly below saturation:
    the result strictly follows the state unless the counter is at [u32::MAX]
    and the wall clock has not passed the state, and in that case it repeats
    the last timestamp. *)
Theorem now_strict_iff wall c :
  in_range (state c) ->
  ord_lt (state c) (fst (now wall c)) <->
  ~ (logical (state c) = u32_max /\ wall <= wall_time_us (state c)).
Proof.
  intros [_ Hl]. destruct c as [[w l] off]; unfold in_u32 in Hl; simpl in Hl. split.
  - intros Hlt [El Hw]; simpl in El, Hw; subst l. rewrite now_saturates in Hlt by done.
    by apply ord_lt_irrefl in Hlt.
  - intros Hn; simpl in Hn. destruct (Z.eq_dec l u32_max) as [->|]; [|apply now_gt; simpl; lia].
    unfold now; simpl. rewrite (proj2 (Z.ltb_lt w wall)) by lia.
    apply hlc_lt_iff; simpl; lia.
Qed.

Lemma now_strict_iff_witness :
  fst (now 3 (mkClock (mkHlc 5 u32_max) 0)) = mkHlc 5 u32_max /\
  ~ ord_lt (mkHlc 5 u32_max) (fst (now 3 (mkClock (mkHlc 5 u32_max) 0))).
Proof.
  split; [vm_compute; reflexivity|]. intros H. apply (now_strict_iff 3 (mkClock (mkHlc 5 u32_max) 0)) in H.
  - apply H. simpl. lia.
  - unfold in_range, in_u64, in_u32, u64_max, u32_max; simpl; lia.
Defined.

(** ** Several clocks exchanging timestamps

    An event is a local tick of one node or the receipt, by one node, of the
    timestamp some earlier event issued.  [run] executes a script of events
    against a map of clocks and records the timestamp each accepted event
    produced; a refused [update] records [None]. *)

Inductive event : Type :=
| Tick (node : nat) (wall : Z)
| Receive (node : nat) (wall : Z) (from : nat).

Definition event_node (e : event) : nat :=
  match e with Tick n _ | Receive n _ _ => n end.

Definition clocks := nat -> HybridLogicalClock.

Definition set_clock (cs : clocks) (n : nat) (c : HybridLogicalClock) : clocks :=
  fun m => if decide (m = n) then c else cs m.

Definition run_event (cs : clocks) (issued : list (option HlcTimestamp)) (e : event) :
    clocks * option HlcTimestamp :=
  match e with
  | Tick n wall =>
      let '(t, c) := now wall (cs n) in (set_clock cs n c, Some t)
  | Receive n wall from =>
      match issued !! from with
      | Some (Some peer) =>
          match update wall peer (cs n) with
          | (Ok t, c) => (set_clock cs n c, Some t)
          | (Err _, c) => (set_clock cs n c, None)
          end
      | _ => (cs, None)
      end
  end.

Fixpoint run (cs : clocks) (issued : list (option HlcTimestamp)) (es : list event) :
    clocks * list (option HlcTimestamp) :=
  match es with
  | [] => (cs, issued)
  | e :: es' =>
      let '(cs', t) := run_event cs issued e in run cs' (issued ++ [t]) es'
  end.

(** Direct causal precedence between two positions of a script: same node, or
    the later one receives the earlier one's timestamp. *)
Definition precedes (es : list event) (i j : nat) : Prop :=
  (i < j)%nat /\ exists ei ej, es !! i = Some ei /\ es !! j = Some ej /\
  (event_node ei = event_node ej \/ exists n w, ej = Receive n w i).

(** Happened-before is generated by precedence between accepted events. *)
Definition accepted (issued : list (option HlcTimestamp)) (i : nat) : Prop :=
  exists t, issued !! i = Some (Some t).

Definition happened_before (es : list event) (issued : list (option HlcTimestamp)) :
    nat -> nat -> Prop :=
  tc (fun i j => precedes es i j /\ accepted issued i /\ accepted issued j).

(** The state of a run after [length issued] events of the script [es]: counters
    have not outgrown the number of events, each node's clock has reached every
    timestamp that node issued, and direct precedence is respected so far. *)
Record run_inv (es : list event) (cs : clocks) (issued : list (option HlcTimestamp)) : Prop := {
  ri_clock : forall n, logical (state (cs n)) <= Z.of_nat (length issued);
  ri_issued : forall i t, issued !! i = Some (Some t) ->
    logical t <= Z.of_nat (length issued);
  ri_node : forall i e t, es !! i = Some e -> issued !! i = Some (Some t) ->
    ord_le t (state (cs (event_node e)));
  ri_prec : forall i j ti tj, precedes es i j ->
    issued !! i = Some (Some ti) -> issued !! j = Some (Some tj) -> ord_lt ti tj
}.

Lemma run_event_spec cs issued e :
  match run_event cs issued e with
  | (cs', ot) =>
    (forall m, m <> event_node e -> cs' m = cs m) /\
    match ot with
    | None => cs' (event_node e) = cs (event_node e)
    | Some t =>
        state (cs' (event_node e)) = t /\
        (exists peer, match e with Receive _ _ from => issued !! from = Some (Some peer) | _ => True end /\
           t = match e with
               | Tick n w => fst (now w (cs n))
               | Receive n w _ => merged w (state (cs n)) peer
               end)
    end
  end.
Proof.
  destruct e as [n w|n w from]; simpl; unfold set_clock.
  - split; [intros; by rewrite decide_False|]. rewrite decide_True by done.
    split; [done|]. by exists ZERO.
  - destruct (issued !! from) as [[peer|]|] eqn:E; [|done|done].
    unfold update. case_one; simpl.
    + split; [intros; by rewrite decide_False|]. by rewrite decide_True.
    + split; [intros; by rewrite decide_False|]. rewrite decide_True by done.
      split; [done|]. by exists peer.
Qed.

(** A single accepted event moves its node's clock strictly past everything that
    precedes it. *)
Lemma run_event_gt es cs issued e cs' t :
  run_inv es cs issued -> Z.of_nat (length issued) < u32_max ->
  es !! length issued = Some e -> run_event cs issued e = (cs', Some t) ->
  logical t <= Z.of_nat (length issued) + 1 /\
  ord_lt (state (cs (event_node e))) t /\
  (forall n w from peer, e = Receive n w from ->
     issued !! from = Some (Some peer) -> ord_lt peer t).
Proof.
  intros Hinv Hlen _ Hrun. pose proof (run_event_spec cs issued e) as Hs.
  rewrite Hrun in Hs. destruct Hs as (_ & _ & peer & Hpeer & ->).
  pose proof (ri_clock _ _ _ Hinv (event_node e)) as Hc.
  destruct e as [n w|n w from]; simpl in *.
  - split; [apply now_logical; lia|]. split; [apply now_gt; lia|]. done.
  - pose proof (ri_issued _ _ _ Hinv _ _ Hpeer) as Hl.
    split; [apply merged_logical; lia|].
    destruct (merged_gt w (state (cs n)) peer) as [Hg1 Hg2]; [lia|lia|].
    split; [done|]. intros ???? [= <- <- <-] ?. by simplify_eq.
Qed.

Lemma run_event_inv es cs issued e cs' ot :
  run_inv es cs issued -> Z.of_nat (length issued) < u32_max ->
  es !! length issued = Some e -> run_event cs issued e = (cs', ot) ->
  run_inv es cs' (issued ++ [ot]).
Proof.
  intros Hinv Hlen He Hrun. pose proof (run_event_spec cs issued e) as Hs.
  rewrite Hrun in Hs. destruct Hs as [Hother Hself].
  assert (Hmono : forall m, ord_le (state (cs m)) (state (cs' m)) /\
                            logical (state (cs' m)) <= Z.of_nat (length issued) + 1).
  { intros m. pose proof (ri_clock _ _ _ Hinv m).
    destruct (decide (m = event_node e)) as [->|Hne];
      [|rewrite (Hother m Hne); split; [apply ord_le_refl|lia]].
    destruct ot as [t|]; [|rewrite Hself; split; [apply ord_le_refl|lia]].
    destruct (run_event_gt _ _ _ _ _ _ Hinv Hlen He Hrun) as (Hl & Hg & _).
    destruct Hself as [-> _]. auto with aion. }
  split; rewrite ?length_app; simpl.
  - intros n. destruct (Hmono n). lia.
  - intros i t [Hi|[-> ->]]%lookup_snoc_Some.
    + pose proof (ri_issued _ _ _ Hinv _ _ Hi). lia.
    + destruct (run_event_gt _ _ _ _ _ _ Hinv Hlen He Hrun). lia.
  - intros i ei t Hei [Hi|[-> ->]]%lookup_snoc_Some.
    + eapply ord_le_trans; [by eapply (ri_node _ _ _ Hinv)|apply Hmono].
    + rewrite He in Hei; simplify_eq. destruct Hself as [-> _]. apply ord_le_refl.
  - intros i j ti tj Hp Hi Hj. pose proof Hp as (Hij & ei & ej & Hei & Hej & Hcause).
    apply lookup_snoc_Some in Hj as [Hj|[-> ->]];
      [apply lookup_lt_Some in Hj as Hjlt|];
      (apply lookup_snoc_Some in Hi as [Hi|[-> ?]]; [|lia]).
    + by eapply (ri_prec _ _ _ Hinv).
    + rewrite He in Hej; simplify_eq.
      destruct (run_event_gt _ _ _ _ _ _ Hinv Hlen He Hrun) as (_ & Hg & Hr).
      destruct Hcause as [Heq|(n & w & ->)]; [|by eapply Hr].
      eapply ord_le_lt_trans; [|exact Hg]. rewrite <- Heq. by eapply (ri_node _ _ _ Hinv).
Qed.

Lemma run_preserves_inv es rest cs issued :
  run_inv es cs issued -> drop (length issued) es = rest ->
  Z.of_nat (length es) <= u32_max ->
  let '(cs', issued') := run cs issued rest in run_inv es cs' issued'.
Proof.
  revert cs issued. induction rest as [|e rest IH]; intros cs issued Hinv Hd Hlen; [done|].
  assert (He : es !! length issued = Some e).
  { rewrite <- (Nat.add_0_r (length issued)), <- lookup_drop, Hd. done. }
  simpl. destruct (run_event cs issued e) as [cs' ot] eqn:Hrun. apply IH; [| |done].
  - eapply run_event_inv; eauto. apply lookup_lt_Some in He. lia.
  - rewrite length_app, <- drop_drop, Hd. done.
Qed.

(** [C26] Causality.  In any script of at most [u32::MAX] events over clocks that
    start at zero, with arbitrary wall-clock readings and arbitrary offset
    bounds, an event that happened before another carries a strictly smaller
    timestamp. *)
Theorem causality (offsets : nat -> Z) es i j ti tj :
  Z.of_nat (length es) <= u32_max ->
  let issued := snd (run (fun n => mkClock ZERO (offsets n)) [] es) in
  happened_before es issued i j ->
  issued !! i = Some (Some ti) -> issued !! j = Some (Some tj) -> ord_lt ti tj.
Proof.
  intros Hlen issued Hhb. subst issued.
  pose proof (run_preserves_inv es es (fun n => mkClock ZERO (offsets n)) []) as Hr.
  destruct (run _ [] es) as [cs issued]; simpl in *.
  assert (Hinv : run_inv es cs issued).
  { apply Hr; [|done|done]. split; simpl; intros; try done; lia. }
  revert ti tj. induction Hhb as [i j (Hp & _)|i k j (Hp & _ & [tk Hk]) Hkj IH];
    intros ti tj Hi Hj.
  - by eapply (ri_prec _ _ _ Hinv).
  - eapply ord_lt_trans; [by eapply (ri_prec _ _ _ Hinv)|by apply IH].
Qed.

(** Node 0's wall clock is far ahead; node 1 hears from it and then ticks with a
    clock that reads zero. *)
Definition causality_script : list event :=
  [Tick 0 100; Receive 1 5 0; Tick 1 0].

Lemma causality_witness :
  ord_lt (mkHlc 100 0) (mkHlc 100 2).
Proof.
  apply (causality (fun _ => 500) causality_script 0 2);
    [vm_compute; congruence| |reflexivity|reflexivity].
  eapply (tc_l _ _ 1%nat); [|apply tc_once]; (split; [|split; eexists; vm_compute; reflexivity]).
  - split; [lia|]. do 2 eexists. split; [done|]. split; [done|]. right. by do 2 eexists.
  - split; [lia|]. do 2 eexists. split; [done|]. split; [done|]. by left.
Defined.
