(* ===== verification/WaitGraph.v ===== *)
(** * Reachability over a wait-for graph

    The depth-first search that [LockState::reachable]
    ([crates/aiondb-tx/src/lock_manager.rs]) runs over its
    [HashMap<TxnId, HashSet<TxnId>>], with its explicit stack and visited set,
    and the proof that it terminates and decides graph reachability. *)

From S2P Require Import Prelude.

Section WaitGraph.
Context {K : Type} `{Countable K}.
Implicit Types (adj : gmap K (gset K)) (visited : gset K) (stack : list K).

Definition successors adj (v : K) : gset K := default ∅ (adj !! v).

(** The edge relation of the graph. *)
Definition edge adj (v w : K) : Prop := w ∈ successors adj v.

Definition acyclic adj : Prop := forall v, ~ tc (edge adj) v v.

(** The [while let Some(current) = stack.pop()] loop; the head of the list is the
    top of the stack.  [HashSet] iteration order is unspecified: [elements] is
    one such order. *)
Fixpoint reachable_loop (fuel : nat) adj (target : K) visited stack : bool :=
  match fuel with
  | O => false
  | S fuel' =>
      match stack with
      | [] => false
      | current :: rest =>
          if decide (current = target) then true
          else if decide (current ∈ visited) then
            reachable_loop fuel' adj target visited rest
          else
            reachable_loop fuel' adj target ({[current]} ∪ visited)
              (match adj !! current with
               | Some nxt => reverse (elements nxt) ++ rest
               | None => rest
               end)
      end
  end.

(** Edges that leave vertices the search has not expanded yet. *)
Definition pending adj visited : nat :=
  sum_list_with (fun kv => if decide (kv.1 ∈ visited) then 0%nat else size kv.2)
    (map_to_list adj).

(** One iteration per vertex ever pushed, plus the final empty pop. *)
Definition dfs_fuel adj : nat := S (S (pending adj ∅)).

Definition reachable adj (start target : K) : bool :=
  reachable_loop (dfs_fuel adj) adj target ∅ [start].

(** ** The fuel is enough *)

Lemma pending_list_skip (l : list (K * gset K)) visited v :
  v ∉ l.*1 ->
  sum_list_with (fun kv => if decide (kv.1 ∈ {[v]} ∪ visited) then 0%nat else size kv.2) l =
  sum_list_with (fun kv => if decide (kv.1 ∈ visited) then 0%nat else size kv.2) l.
Proof.
  induction l as [|[k s] l IH]; intros Hv; [done|]; csimpl in *.
  rewrite not_elem_of_cons in Hv. destruct Hv as [Hk Hv]. rewrite (IH Hv).
  repeat case_decide; set_solver.
Qed.

Lemma pending_list_take (l : list (K * gset K)) visited v s :
  NoDup l.*1 -> (v, s) ∈ l -> v ∉ visited ->
  (sum_list_with (fun kv => if decide (kv.1 ∈ {[v]} ∪ visited) then 0 else size kv.2) l
    + size s =
   sum_list_with (fun kv => if decide (kv.1 ∈ visited) then 0 else size kv.2) l)%nat.
Proof.
  induction l as [|[k t] l IH]; intros Hnd Hin Hv; csimpl in *; [by apply elem_of_nil in Hin|].
  apply NoDup_cons in Hnd as [Hk Hnd]. apply elem_of_cons in Hin as [[= <- <-]|Hin].
  - rewrite pending_list_skip by done. repeat case_decide; set_solver by lia.
  - rewrite <- (IH Hnd Hin Hv). assert (k <> v).
    { intros ->. apply Hk. by apply (list_elem_of_fmap_2 fst) in Hin. }
    repeat case_decide; set_solver by lia.
Qed.

Lemma pending_expand adj visited v s :
  adj !! v = Some s -> v ∉ visited ->
  (pending adj ({[v]} ∪ visited) + size s = pending adj visited)%nat.
Proof.
  intros Hv Hn. apply pending_list_take; [apply NoDup_fst_map_to_list| |done].
  by apply elem_of_map_to_list.
Qed.

Lemma pending_no_edges adj visited v :
  adj !! v = None -> pending adj ({[v]} ∪ visited) = pending adj visited.
Proof.
  intros Hv. apply pending_list_skip. intros ([k s] & -> & Hin)%list_elem_of_fmap.
  apply elem_of_map_to_list in Hin. simpl in Hv. congruence.
Qed.

(** ** Correctness *)

(** What a [false] answer certifies: a set closed under edges that misses the
    target. *)
Definition search_inv adj target start visited stack : Prop :=
  (forall v, v ∈ stack -> rtc (edge adj) start v) /\
  (forall v, v ∈ visited -> rtc (edge adj) start v /\ v <> target) /\
  (forall v w, v ∈ visited -> edge adj v w -> w ∈ visited \/ w ∈ stack) /\
  (start ∈ visited \/ start ∈ stack).

Lemma closed_set_not_reaching adj target start visited :
  search_inv adj target start visited [] -> ~ rtc (edge adj) start target.
Proof.
  intros (_ & Hv & Hc & [Hs|Hs]) Hr; [|by apply elem_of_nil in Hs].
  assert (Hin : target ∈ visited); [|by destruct (Hv _ Hin)].
  clear Hv. induction Hr as [v|v w u Hvw Hwu IH]; [done|].
  apply IH. destruct (Hc _ _ Hs Hvw) as [?|Hn]; [done|by apply elem_of_nil in Hn].
Qed.

Lemma search_inv_expand adj target start visited current rest :
  search_inv adj target start visited (current :: rest) ->
  current <> target -> current ∉ visited ->
  search_inv adj target start ({[current]} ∪ visited)
    (match adj !! current with
     | Some nxt => reverse (elements nxt) ++ rest
     | None => rest
     end).
Proof.
  intros (Hs & Hv & Hc & Hst) Hne Hnv.
  assert (Hcur : rtc (edge adj) start current) by (apply Hs; set_solver).
  assert (Hpush : forall w, w ∈ match adj !! current with
     | Some nxt => reverse (elements nxt) ++ rest | None => rest end <->
     edge adj current w \/ w ∈ rest).
  { intros w. unfold edge, successors. destruct (adj !! current); simpl; [|set_solver].
    by rewrite elem_of_app, elem_of_reverse, elem_of_elements. }
  repeat split.
  - intros w [He|Hr]%Hpush; [|apply Hs; set_solver].
    by eapply rtc_r.
  - apply elem_of_union in H0 as [->%elem_of_singleton|?]; [done|by apply Hv].
  - apply elem_of_union in H0 as [->%elem_of_singleton|?]; [done|by apply Hv].
  - intros v w [->%elem_of_singleton|Hvis]%elem_of_union He.
    + right. apply Hpush. by left.
    + rewrite Hpush, elem_of_union. destruct (Hc _ _ Hvis He) as [?|[->|?]%elem_of_cons];
        set_solver.
  - rewrite Hpush. set_solver.
Qed.

Lemma search_inv_skip adj target start visited current rest :
  search_inv adj target start visited (current :: rest) ->
  current ∈ visited -> search_inv adj target start visited rest.
Proof.
  intros (Hs & Hv & Hc & Hst) Hcv. repeat split.
  - intros v Hin. apply Hs. set_solver.
  - by apply Hv.
  - by apply Hv.
  - intros v w Hvis He. destruct (Hc _ _ Hvis He) as [?|[->|?]%elem_of_cons]; auto.
  - destruct Hst as [?|[->|?]%elem_of_cons]; auto.
Qed.

Lemma reachable_loop_correct fuel adj target start visited stack :
  search_inv adj target start visited stack ->
  (length stack + pending adj visited < fuel)%nat ->
  reachable_loop fuel adj target visited stack = true <-> rtc (edge adj) start target.
Proof.
  revert visited stack. induction fuel as [|fuel IH]; intros visited stack Hinv Hf; [lia|].
  destruct stack as [|current rest]; simpl.
  - split; [done|]. intros Hr. by apply closed_set_not_reaching in Hinv.
  - case_decide as Heq; [subst|].
    { split; [|done]. intros _. destruct Hinv as [Hs _]. apply Hs. left. }
    case_decide as Hvis.
    + apply IH; [by eapply search_inv_skip|]. simpl in Hf. lia.
    + apply IH; [by apply search_inv_expand|]. simpl in Hf.
      destruct (adj !! current) as [s|] eqn:E.
      * pose proof (pending_expand _ _ _ _ E Hvis).
        rewrite length_app, length_reverse. unfold size, set_size in *; simpl in *. lia.
      * rewrite (pending_no_edges _ _ _ E). lia.
Qed.

Lemma reachable_correct adj start target :
  reachable adj start target = true <-> rtc (edge adj) start target.
Proof.
  apply reachable_loop_correct.
  - repeat split; set_solver.
  - simpl. unfold dfs_fuel. lia.
Qed.

(** ** Acyclicity under the updates the lock table makes *)

Lemma acyclic_subgraph adj adj' :
  (forall v w, edge adj' v w -> edge adj v w) -> acyclic adj -> acyclic adj'.
Proof. intros Hsub Hac v Hc. apply (Hac v). by apply (tc_congruence id (R := edge adj')). Qed.

Lemma edge_delete adj u v w : edge (delete u adj) v w <-> v <> u /\ edge adj v w.
Proof.
  unfold edge, successors. rewrite lookup_delete. case_decide; set_solver.
Qed.

Lemma edge_insert adj u s v w :
  edge (<[u := s]> adj) v w <-> (v = u /\ w ∈ s) \/ (v <> u /\ edge adj v w).
Proof.
  unfold edge, successors. rewrite lookup_insert. case_decide; set_solver.
Qed.

(** A walk in the graph after [insert u s] either avoids the edges of [u], or goes
    through [u]. *)
Lemma insert_walk_split adj u s v w :
  tc (edge (<[u := s]> adj)) v w ->
  tc (edge adj) v w \/
  (rtc (edge (<[u := s]> adj)) v u /\ tc (edge (<[u := s]> adj)) u w).
Proof.
  induction 1 as [v w Hvw|v x w Hvx Hxw IH].
  - destruct (decide (v = u)) as [->|Hne]; [right|left].
    + split; [done|by apply tc_once].
    + apply tc_once. apply edge_insert in Hvw. naive_solver.
  - destruct (decide (v = u)) as [->|Hne]; [right|].
    + split; [done|by eapply tc_l].
    + destruct IH as [IH|[IH1 IH2]]; [left|right].
      * eapply tc_l; [|exact IH]. apply edge_insert in Hvx. naive_solver.
      * split; [by eapply rtc_l|done].
Qed.

Lemma acyclic_insert adj u s :
  acyclic adj -> (forall b, b ∈ s -> ~ rtc (edge (<[u := s]> adj)) b u) ->
  acyclic (<[u := s]> adj).
Proof.
  intros Hac Hs v Hc. apply insert_walk_split in Hc as [Hc|[H1 H2]]; [by apply (Hac v)|].
  assert (Hu : tc (edge (<[u := s]> adj)) u u) by (eapply tc_rtc_r; eauto).
  inversion Hu as [? ? He|? b ? He Hr]; subst; apply edge_insert in He as [[_ Hb]|[? _]];
    try done; apply (Hs _ Hb).
  - done.
  - by apply tc_rtc.
Qed.

End WaitGraph.
