(* ===== verification/LockManager.v ===== *)
(** * The lock manager ([crates/aiondb-tx/src/lock_manager.rs])

    [LockState] is one shard of the lock table: the grants per target, the modes
    held per transaction, the wait-for edges and the number of parked waiters per
    target.  The shard mutex is held across one iteration of the [acquire] loop
    and across every other operation, and is released only while a thread sleeps
    on the condition variable, so an operation is a function on [LockState] and
    [acquire] is one function per loop iteration ([acquire_iter]).  The section
    on interleavings runs these functions as the steps of a transition system
    with sleeping threads.  Deadlines are an input: whether the wait has expired
    is a boolean of the step. *)

From S2P Require Import Prelude WaitGraph.

Inductive LockMode : Type :=
| AccessShare
| PredicateRead
| RowExclusive
| AccessExclusive
| KeyShare
| Update.

#[global] Instance LockMode_eq_dec : EqDecision LockMode.
Proof. solve_decision. Defined.

(** Table and tuple identifiers are [u64] newtypes. *)
Inductive LockTarget : Type :=
| Table (table_id : Z)
| Tuple (table_id tuple_id : Z).

#[global] Instance LockTarget_eq_dec : EqDecision LockTarget.
Proof. solve_decision. Defined.

#[global] Instance LockTarget_countable : Countable LockTarget.
Proof.
  refine (inj_countable'
    (fun t => match t with Table r => inl r | Tuple r t => inr (r, t) end)
    (fun s => match s with inl r => Table r | inr (r, t) => Tuple r t end) _).
  by intros [].
Defined.

Record LockGrant := mkGrant { g_txn : Z; g_mode : LockMode }.

#[global] Instance LockGrant_eq_dec : EqDecision LockGrant.
Proof. solve_decision. Defined.

Record LockState := mkLockState {
  grants : gmap LockTarget (list LockGrant);
  held_by_txn : gmap Z (gmap LockTarget LockMode);
  wait_for : gmap Z (gset Z);
  waiters_per_target : gmap LockTarget Z
}.

Definition empty_lock_state : LockState := mkLockState ∅ ∅ ∅ ∅.

(** ** Modes *)

Definition lock_mode_rank (m : LockMode) : Z :=
  match m with
  | AccessShare => 0
  | PredicateRead => 1
  | KeyShare => 2
  | RowExclusive => 3
  | Update => 4
  | AccessExclusive => 5
  end.

Definition strongest_lock_mode (current requested : LockMode) : LockMode :=
  if lock_mode_rank requested <=? lock_mode_rank current then current else requested.

Definition lock_modes_compatible (left right : LockMode) : bool :=
  match left, right with
  | AccessExclusive, _
  | _, AccessExclusive
  | Update, Update
  | Update, KeyShare
  | KeyShare, Update
  | PredicateRead, RowExclusive
  | PredicateRead, Update
  | RowExclusive, PredicateRead
  | Update, PredicateRead => false
  | _, _ => true
  end.

Definition is_write_table_lock_mode (m : LockMode) : bool :=
  match m with RowExclusive | Update | AccessExclusive => true | _ => false end.

(** ** Operations on one shard *)

Definition held_mode (st : LockState) (txn : Z) (target : LockTarget) : option LockMode :=
  match held_by_txn st !! txn with
  | Some targets => targets !! target
  | None => None
  end.

Definition blockers (st : LockState) (txn : Z) (target : LockTarget) (mode : LockMode) :
    gset Z :=
  list_to_set (map g_txn
    (filter (fun g => g_txn g <> txn /\ lock_modes_compatible (g_mode g) mode = false)
      (default [] (grants st !! target)))).

(** [grants.iter_mut().find(..)] then overwrite the mode, else push. *)
Fixpoint set_grant (txn : Z) (mode : LockMode) (gs : list LockGrant) : list LockGrant :=
  match gs with
  | [] => [mkGrant txn mode]
  | g :: gs' =>
      if decide (g_txn g = txn) then mkGrant (g_txn g) mode :: gs'
      else g :: set_grant txn mode gs'
  end.

Definition grant (st : LockState) (txn : Z) (target : LockTarget) (mode : LockMode) :
    LockState :=
  mkLockState
    (<[target := set_grant txn mode (default [] (grants st !! target))]> (grants st))
    (<[txn := <[target := mode]> (default ∅ (held_by_txn st !! txn))]> (held_by_txn st))
    (delete txn (wait_for st))
    (waiters_per_target st).

(** Drop the grants of [txn] on one target, and the target itself when no grant
    is left. *)
Definition release_target (txn : Z) (gs : gmap LockTarget (list LockGrant))
    (target : LockTarget) : gmap LockTarget (list LockGrant) :=
  match gs !! target with
  | Some l =>
      match filter (fun g => g_txn g <> txn) l with
      | [] => delete target gs
      | l' => <[target := l']> gs
      end
  | None => gs
  end.

(** [LockState::release_txn]. *)
Definition release_state (st : LockState) (txn : Z) : LockState :=
  let gs :=
    match held_by_txn st !! txn with
    | Some held => fold_left (release_target txn) (map_to_list held).*1 (grants st)
    | None => grants st
    end in
  mkLockState gs (delete txn (held_by_txn st))
    ((fun s => s ∖ {[txn]}) <$> delete txn (wait_for st))
    (waiters_per_target st).

Definition would_deadlock (st : LockState) (waiting_txn : Z) (bs : gset Z) : bool :=
  existsb (fun b => reachable (wait_for st) b waiting_txn) (elements bs).

Definition clear_wait (st : LockState) (txn : Z) : LockState :=
  mkLockState (grants st) (held_by_txn st) (delete txn (wait_for st)) (waiters_per_target st).

Definition set_wait (st : LockState) (txn : Z) (bs : gset Z) : LockState :=
  mkLockState (grants st) (held_by_txn st) (<[txn := bs]> (wait_for st)) (waiters_per_target st).

Definition decrement_waiter (st : LockState) (target : LockTarget) : LockState :=
  match waiters_per_target st !! target with
  | Some count =>
      let count' := saturating_sub count 1 in
      mkLockState (grants st) (held_by_txn st) (wait_for st)
        (if count' =? 0 then delete target (waiters_per_target st)
         else <[target := count']> (waiters_per_target st))
  | None => st
  end.

(** [*entry(target).or_insert(0) += 1] on a [u32]. *)
Definition increment_waiter (st : LockState) (target : LockTarget) : LockState :=
  mkLockState (grants st) (held_by_txn st) (wait_for st)
    (<[target := (default 0 (waiters_per_target st !! target) + 1) mod 2 ^ 32]>
       (waiters_per_target st)).

Definition unpark (parked : bool) (st : LockState) (target : LockTarget) : LockState :=
  if parked then decrement_waiter st target else st.

(** ** [acquire] *)

Definition effective_mode (held : option LockMode) (requested : LockMode) : LockMode :=
  match held with Some h => strongest_lock_mode h requested | None => requested end.

Inductive Acquire : Type :=
| Acquired (st : LockState)
| Refused (e : DbError) (st : LockState)
| Parked (st : LockState).

(** One iteration of the [loop] in [acquire].  [parked] says whether this call
    already counts as a waiter, [expired] what [lock_wait_deadline_expired]
    returned; [Parked] is the state the shard is in while the thread sleeps. *)
Definition acquire_iter (expired parked : bool) (txn : Z) (target : LockTarget)
    (requested : LockMode) (st : LockState) : Acquire :=
  let held := held_mode st txn target in
  let eff := effective_mode held requested in
  if decide (held = Some eff) then Acquired (unpark parked (clear_wait st txn) target)
  else
    let bs := blockers st txn target eff in
    if decide (bs = ∅) then Acquired (unpark parked (grant st txn target eff) target)
    else
      let st1 := set_wait st txn bs in
      if would_deadlock st1 txn bs then
        Refused (Transaction DeadlockDetected) (unpark parked (clear_wait st1 txn) target)
      else if expired then
        Refused (Transaction LockNotAvailable) (unpark parked (clear_wait st1 txn) target)
      else Parked (if parked then st1 else increment_waiter st1 target).

(** [acquire_nowait]; [try_acquire_table_lock_nowait] repeats the same body. *)
Definition acquire_nowait (txn : Z) (target : LockTarget) (requested : LockMode)
    (st : LockState) : DbResult unit * LockState :=
  let held := held_mode st txn target in
  let eff := effective_mode held requested in
  if decide (held = Some eff) then (Ok tt, clear_wait st txn)
  else if decide (blockers st txn target eff = ∅) then (Ok tt, grant st txn target eff)
  else (Err (Transaction LockNotAvailable), clear_wait st txn).

(** ** The sharded manager *)

Definition SHARDS : nat := 16.

(** [target_shard_idx] on a 64-bit [usize], where the [u64 -> usize] conversion
    cannot fail. *)
Definition target_table (target : LockTarget) : Z :=
  match target with Table r | Tuple r _ => r end.

Definition target_shard_idx (target : LockTarget) : nat :=
  Z.to_nat (Z.land (wrapping_mul64 (target_table target) 0x9E3779B97F4A7C15)
                   (Z.of_nat SHARDS - 1)).

Record WaitGraphLockManager := mkManager {
  shards : list LockState;
  lock_timeout : Z;
  txn_timeout_overrides : gmap Z Z
}.

Definition default_manager : WaitGraphLockManager :=
  mkManager (replicate SHARDS empty_lock_state) 1000 ∅.

Definition set_shards (m : WaitGraphLockManager) (ss : list LockState) : WaitGraphLockManager :=
  mkManager ss (lock_timeout m) (txn_timeout_overrides m).

Definition set_overrides (m : WaitGraphLockManager) (o : gmap Z Z) : WaitGraphLockManager :=
  mkManager (shards m) (lock_timeout m) o.

Definition effective_lock_timeout (m : WaitGraphLockManager) (txn : Z) : Z :=
  default (lock_timeout m) (txn_timeout_overrides m !! txn).

Definition shard_for (m : WaitGraphLockManager) (target : LockTarget) : LockState :=
  default empty_lock_state (shards m !! target_shard_idx target).

Definition put_shard (m : WaitGraphLockManager) (target : LockTarget) (st : LockState) :
    WaitGraphLockManager :=
  set_shards m (<[target_shard_idx target := st]> (shards m)).

(** The flag that [release_txn] reads before it releases. *)
Definition had_waiters (st : LockState) : bool :=
  negb (bool_decide (waiters_per_target st = ∅)).

(** What [release_txn] does to one shard under its mutex, and whether it calls
    [notify_all] afterwards. *)
Definition release_shard (txn : Z) (st : LockState) : bool * LockState :=
  (had_waiters st, release_state st txn).

(** [release_txn]: every shard in turn, then the timeout override; with the shards
    that are notified. *)
Definition release_txn (m : WaitGraphLockManager) (txn : Z) :
    list bool * WaitGraphLockManager :=
  let released := map (release_shard txn) (shards m) in
  (map fst released,
   set_overrides (set_shards m (map snd released)) (delete txn (txn_timeout_overrides m))).

Definition set_txn_lock_timeout (m : WaitGraphLockManager) (txn timeout : Z) :=
  set_overrides m (<[txn := timeout]> (txn_timeout_overrides m)).

Definition clear_txn_lock_timeout (m : WaitGraphLockManager) (txn : Z) :=
  set_overrides m (delete txn (txn_timeout_overrides m)).

Definition manager_acquire_nowait (m : WaitGraphLockManager) (txn : Z) (target : LockTarget)
    (mode : LockMode) : DbResult unit * WaitGraphLockManager :=
  let '(r, st) := acquire_nowait txn target mode (shard_for m target) in
  (r, put_shard m target st).

Definition table_write_lock_holders (m : WaitGraphLockManager) (table_id : Z) : list Z :=
  sort_keys (elements (list_to_set (C := gset Z) (map g_txn
    (filter (fun g => is_write_table_lock_mode (g_mode g) = true)
      (default [] (grants (shard_for m (Table table_id)) !! Table table_id)))))).

Definition is_write_lock (target : LockTarget) (mode : LockMode) : bool :=
  match target with
  | Tuple _ _ => match mode with Update | AccessExclusive => true | _ => false end
  | Table _ => is_write_table_lock_mode mode
  end.

Definition txn_holds_write_locks (m : WaitGraphLockManager) (txn : Z) : bool :=
  existsb (fun st =>
    match held_by_txn st !! txn with
    | Some held => existsb (fun kv => is_write_lock kv.1 kv.2) (map_to_list held)
    | None => false
    end) (shards m).

Definition txn_holds_lock (m : WaitGraphLockManager) (txn : Z) (target : LockTarget)
    (mode : LockMode) : bool :=
  bool_decide (held_mode (shard_for m target) txn target = Some mode).

(** ** Facts about grants *)

Lemma compatible_sym a b : lock_modes_compatible a b = lock_modes_compatible b a.
Proof. by destruct a, b. Qed.

Lemma elem_of_blockers st txn target mode b :
  b ∈ blockers st txn target mode <->
  b <> txn /\ exists g, g ∈ default [] (grants st !! target) /\ g_txn g = b /\
    lock_modes_compatible (g_mode g) mode = false.
Proof.
  unfold blockers. rewrite elem_of_list_to_set, list_elem_of_fmap. split.
  - intros (g & -> & [[? ?] ?]%list_elem_of_filter). eauto.
  - intros (? & g & ? & <- & ?). exists g. rewrite list_elem_of_filter. eauto.
Qed.

Lemma elem_of_set_grant txn mode gs g :
  NoDup (map g_txn gs) ->
  g ∈ set_grant txn mode gs <-> g = mkGrant txn mode \/ (g ∈ gs /\ g_txn g <> txn).
Proof.
  induction gs as [|h gs IH]; simpl; intros Hnd; [set_solver|].
  apply NoDup_cons in Hnd as [Hh Hnd]. case_decide as E.
  - subst txn. rewrite !elem_of_cons. split; [|naive_solver].
    intros [->|Hg]; [by left|]. right. split; [by right|].
    intros Eg. apply Hh. rewrite <- Eg. by apply list_elem_of_fmap_2.
  - rewrite !elem_of_cons, (IH Hnd). naive_solver.
Qed.

Lemma set_grant_txns txn mode gs :
  map g_txn (set_grant txn mode gs) =
  if decide (txn ∈ map g_txn gs) then map g_txn gs else map g_txn gs ++ [txn].
Proof.
  induction gs as [|h gs IH]; [done|]; cbn [set_grant map].
  destruct (decide (g_txn h = txn)) as [E|E]; cbn [map g_txn].
  - by rewrite decide_True by (rewrite E; left).
  - rewrite IH. assert (txn ∈ g_txn h :: map g_txn gs <-> txn ∈ map g_txn gs) as Hiff.
    { rewrite elem_of_cons. naive_solver. }
    destruct (decide (txn ∈ map g_txn gs)) as [Hin|Hin];
      [rewrite decide_True by by apply Hiff|rewrite decide_False by by rewrite Hiff]; done.
Qed.

Lemma set_grant_nodup txn mode gs :
  NoDup (map g_txn gs) -> NoDup (map g_txn (set_grant txn mode gs)).
Proof.
  intros. rewrite set_grant_txns. case_decide; [done|].
  apply NoDup_app. split; [done|]. split; [set_solver|apply NoDup_singleton].
Qed.

Lemma release_target_lookup txn gs target t :
  release_target txn gs target !! t =
  if decide (t = target) then
    match gs !! t with
    | Some l => match filter (fun g => g_txn g <> txn) l with [] => None | l' => Some l' end
    | None => None
    end
  else gs !! t.
Proof.
  unfold release_target. case_decide as E; [subst t|].
  - destruct (gs !! target) as [l|] eqn:El; [|done].
    destruct (filter _ l); by simplify_map_eq.
  - destruct (gs !! target) as [l|] eqn:El; [|done].
    destruct (filter _ l); by simplify_map_eq.
Qed.

Lemma release_fold_lookup txn ts gs t :
  fold_left (release_target txn) ts gs !! t =
  if decide (t ∈ ts) then
    match gs !! t with
    | Some l => match filter (fun g => g_txn g <> txn) l with [] => None | l' => Some l' end
    | None => None
    end
  else gs !! t.
Proof.
  revert gs. induction ts as [|u ts IH]; intros gs; [done|]; cbn [fold_left].
  rewrite IH, !release_target_lookup.
  assert (Hiff : t ∈ u :: ts <-> t = u \/ t ∈ ts) by apply elem_of_cons.
  destruct (decide (t ∈ ts)) as [Hin|Hin].
  - rewrite (decide_True (P := t ∈ u :: ts)) by (apply Hiff; by right).
    case_decide; [|done]. destruct (gs !! t) as [l|]; [|done].
    destruct (filter _ l) as [|g l'] eqn:Ef; [done|].
    replace (filter (fun h => g_txn h <> txn) (g :: l')) with (g :: l'); [done|].
    rewrite <- Ef. symmetry. apply list_filter_filter_l. naive_solver.
  - case_decide as E.
    + rewrite decide_True by (apply Hiff; by left). done.
    + rewrite decide_False by naive_solver. done.
Qed.

(** ** The invariant of a shard *)

Definition granted (st : LockState) (target : LockTarget) (txn : Z) (mode : LockMode) : Prop :=
  mkGrant txn mode ∈ default [] (grants st !! target).

Record lock_inv (st : LockState) : Prop := {
  li_agree : forall txn target mode,
    held_mode st txn target = Some mode <-> granted st target txn mode;
  li_nodup : forall target gs, grants st !! target = Some gs ->
    NoDup (map g_txn gs) /\ gs <> [];
  li_compatible : forall target t1 t2 m1 m2,
    granted st target t1 m1 -> granted st target t2 m2 -> t1 <> t2 ->
    lock_modes_compatible m1 m2 = true;
  li_acyclic : acyclic (wait_for st)
}.

Lemma li_nodup_default st target :
  lock_inv st -> NoDup (map g_txn (default [] (grants st !! target))).
Proof.
  intros Hinv. destruct (grants st !! target) eqn:E; simpl; [|constructor].
  by apply (li_nodup _ Hinv) in E as [? _].
Qed.

Lemma empty_lock_inv : lock_inv empty_lock_state.
Proof.
  split; unfold held_mode, granted; simpl; intros.
  - rewrite !lookup_empty. simpl. set_solver.
  - by rewrite lookup_empty in *.
  - rewrite lookup_empty in *. set_solver.
  - intros v Hc. apply tc_ind_r with (P := fun _ => False) in Hc; [done|..];
      intros; unfold edge, successors in *; rewrite lookup_empty in *; set_solver.
Qed.

(** Operations that touch only the wait-for graph and the waiter counts. *)
Lemma same_grants_inv st st' :
  grants st' = grants st -> held_by_txn st' = held_by_txn st ->
  acyclic (wait_for st') -> lock_inv st -> lock_inv st'.
Proof.
  intros Hg Hh Hac [H1 H2 H3 H4].
  split; unfold held_mode, granted in *; rewrite ?Hg, ?Hh; done.
Qed.

Lemma clear_wait_inv st txn : lock_inv st -> lock_inv (clear_wait st txn).
Proof.
  intros Hinv. apply (same_grants_inv st); [done|done| |exact Hinv].
  eapply acyclic_subgraph; [|apply Hinv]. simpl. intros v w He.
  by apply edge_delete in He as [_ ?].
Qed.

Lemma unpark_grants parked st target : grants (unpark parked st target) = grants st.
Proof. unfold unpark, decrement_waiter. by repeat case_match. Qed.

Lemma unpark_held parked st target : held_by_txn (unpark parked st target) = held_by_txn st.
Proof. unfold unpark, decrement_waiter. by repeat case_match. Qed.

Lemma unpark_wait parked st target : wait_for (unpark parked st target) = wait_for st.
Proof. unfold unpark, decrement_waiter. by repeat case_match. Qed.

Lemma unpark_inv parked st target : lock_inv st -> lock_inv (unpark parked st target).
Proof.
  intros Hinv. apply (same_grants_inv st); [apply unpark_grants|apply unpark_held| |exact Hinv].
  rewrite unpark_wait. apply Hinv.
Qed.

Lemma increment_waiter_inv st target : lock_inv st -> lock_inv (increment_waiter st target).
Proof. intros Hinv. apply (same_grants_inv st); [done|done|apply Hinv|exact Hinv]. Qed.

Lemma grant_granted st txn target mode u t m :
  lock_inv st ->
  granted (grant st txn target mode) t u m <->
  (t = target /\ u = txn /\ m = mode) \/
  ((t <> target \/ u <> txn) /\ granted st t u m).
Proof.
  intros Hinv. unfold granted, grant; simpl. rewrite lookup_insert.
  case_decide as E; [subst t; simpl|naive_solver].
  rewrite elem_of_set_grant by by apply li_nodup_default. naive_solver.
Qed.

Lemma grant_held st txn target mode u t :
  held_mode (grant st txn target mode) u t =
  if decide (u = txn /\ t = target) then Some mode else held_mode st u t.
Proof.
  unfold held_mode, grant; simpl. rewrite lookup_insert. case_decide as E; [subst u|].
  - rewrite lookup_insert. repeat case_decide; try naive_solver.
    destruct (held_by_txn st !! txn); simpl; [done|by rewrite lookup_empty].
  - rewrite (decide_False (P := u = txn /\ t = target)) by naive_solver. done.
Qed.

Lemma grant_inv st txn target mode :
  lock_inv st -> blockers st txn target mode = ∅ -> lock_inv (grant st txn target mode).
Proof.
  intros Hinv Hb.
  assert (Hnb : forall u m, granted st target u m -> u <> txn ->
                lock_modes_compatible m mode = true).
  { intros u m Hg Hu. destruct (lock_modes_compatible m mode) eqn:E; [done|].
    assert (u ∈ blockers st txn target mode); [|set_solver].
    apply elem_of_blockers. split; [done|]. by exists (mkGrant u m). }
  split.
  - intros u t m. rewrite grant_held, grant_granted by done.
    case_decide as E; [naive_solver|]. rewrite (li_agree _ Hinv).
    split; [|intros [?|[_ ?]]; [naive_solver|done]]. intros Hg. right. split; [|done].
    destruct (decide (t = target)); [right|left]; naive_solver.
  - intros t gs. simpl. rewrite lookup_insert. case_decide as E.
    + intros [= <-]. split; [by apply set_grant_nodup, li_nodup_default|].
      intros En. pose proof (set_grant_txns txn mode (default [] (grants st !! target))) as Ht.
      rewrite En in Ht. simpl in Ht. case_decide as Hin; [rewrite <- Ht in Hin; by apply not_elem_of_nil in Hin|].
      by destruct (map g_txn _).
    + apply (li_nodup _ Hinv).
  - intros t u1 u2 m1 m2. rewrite !grant_granted by done.
    intros [(-> & -> & ->)|[_ H1]] [(? & -> & ->)|[_ H2]] Hne; simplify_eq.
    + rewrite compatible_sym. by apply (Hnb u2).
    + by apply (Hnb u1).
    + by eapply (li_compatible _ Hinv).
  - eapply acyclic_subgraph; [|apply Hinv]. simpl. intros v w He.
    by apply edge_delete in He as [_ ?].
Qed.

(** Releasing a transaction removes exactly its grants. *)
Lemma release_granted st txn t u m :
  lock_inv st -> granted (release_state st txn) t u m <-> granted st t u m /\ u <> txn.
Proof.
  intros Hinv.
  assert (Hfilter : forall l, mkGrant u m ∈ default []
      (match filter (fun g => g_txn g <> txn) l with [] => None | l' => Some l' end) <->
      mkGrant u m ∈ l /\ u <> txn).
  { intros l. assert (Hl : mkGrant u m ∈ filter (fun g => g_txn g <> txn) l <->
      mkGrant u m ∈ l /\ u <> txn) by (rewrite list_elem_of_filter; naive_solver).
    rewrite <- Hl. by destruct (filter _ l). }
  assert (Hnone : forall t, held_mode st txn t = None -> granted st t u m -> u <> txn).
  { intros t' Hn Hg ->. apply (li_agree _ Hinv) in Hg. congruence. }
  unfold granted, release_state in *; simpl.
  destruct (held_by_txn st !! txn) as [held|] eqn:Eh.
  - rewrite release_fold_lookup. case_decide as Hin.
    + destruct (grants st !! t) as [l|]; simpl; [apply Hfilter|set_solver].
    + split; [|naive_solver]. intros Hg. split; [done|]. apply (Hnone t); [|done].
      unfold held_mode. rewrite Eh. apply eq_None_not_Some. intros [m' Hm'].
      apply Hin. apply list_elem_of_fmap. exists (t, m'). by rewrite elem_of_map_to_list.
  - split; [|naive_solver]. intros Hg. split; [done|]. apply (Hnone t); [|done].
    unfold held_mode. by rewrite Eh.
Qed.

Lemma release_held st txn u t :
  held_mode (release_state st txn) u t = if decide (u = txn) then None else held_mode st u t.
Proof.
  unfold held_mode, release_state; simpl. rewrite lookup_delete.
  repeat case_decide; naive_solver.
Qed.

Lemma release_nodup st txn t gs :
  lock_inv st -> grants (release_state st txn) !! t = Some gs ->
  NoDup (map g_txn gs) /\ gs <> [].
Proof.
  intros Hinv. unfold release_state; simpl.
  destruct (held_by_txn st !! txn) as [held|]; [|apply (li_nodup _ Hinv)].
  rewrite release_fold_lookup. case_decide; [|apply (li_nodup _ Hinv)].
  destruct (grants st !! t) as [l|] eqn:El; [|done].
  apply (li_nodup _ Hinv) in El as [Hnd _].
  destruct (filter _ l) as [|g l'] eqn:Ef; [done|]. intros [= <-]. split; [|done].
  rewrite <- Ef. eapply sublist_NoDup; [exact Hnd|].
  apply fmap_sublist, sublist_filter.
Qed.

Lemma release_edge st txn v w :
  edge (wait_for (release_state st txn)) v w -> edge (wait_for st) v w /\ v <> txn /\ w <> txn.
Proof.
  unfold edge, successors; simpl. rewrite lookup_fmap, lookup_delete.
  case_decide; simpl; [set_solver|].
  destruct (wait_for st !! v); simpl; set_solver.
Qed.

Lemma release_inv st txn : lock_inv st -> lock_inv (release_state st txn).
Proof.
  intros Hinv. split.
  - intros u t m. rewrite release_held, release_granted by done.
    case_decide; [naive_solver|]. rewrite (li_agree _ Hinv). naive_solver.
  - intros t gs. by apply release_nodup.
  - intros t t1 t2 m1 m2. rewrite !release_granted by done.
    intros [H1 _] [H2 _] Hne. exact (li_compatible _ Hinv _ _ _ _ _ H1 H2 Hne).
  - eapply acyclic_subgraph; [|apply Hinv]. intros v w He. by apply release_edge in He as [? _].
Qed.

Lemma would_deadlock_true st txn bs :
  would_deadlock st txn bs = true <->
  exists b, b ∈ bs /\ rtc (edge (wait_for st)) b txn.
Proof.
  unfold would_deadlock. rewrite existsb_exists. split.
  - intros (b & Hin & Hr). exists b. rewrite <- list_elem_of_In, elem_of_elements in Hin.
    by apply reachable_correct in Hr.
  - intros (b & Hin & Hr). exists b. rewrite <- list_elem_of_In, elem_of_elements.
    by rewrite reachable_correct.
Qed.

Lemma set_wait_inv st txn bs :
  lock_inv st -> would_deadlock (set_wait st txn bs) txn bs = false ->
  lock_inv (set_wait st txn bs).
Proof.
  intros Hinv Hd. apply (same_grants_inv st); [done|done| |exact Hinv]. simpl.
  apply acyclic_insert; [apply Hinv|]. intros b Hb Hr.
  assert (would_deadlock (set_wait st txn bs) txn bs = true); [|congruence].
  apply would_deadlock_true. eauto.
Qed.

Lemma clear_set_wait_inv st txn bs : lock_inv st -> lock_inv (clear_wait (set_wait st txn bs) txn).
Proof.
  intros Hinv. apply (same_grants_inv st); [done|done| |exact Hinv]. simpl.
  rewrite delete_insert_eq. eapply acyclic_subgraph; [|apply Hinv].
  intros v w He. by apply edge_delete in He as [_ ?].
Qed.

Definition acquire_state (a : Acquire) : LockState :=
  match a with Acquired st | Refused _ st | Parked st => st end.

#[export] Hint Resolve clear_wait_inv unpark_inv grant_inv release_inv set_wait_inv
  clear_set_wait_inv increment_waiter_inv empty_lock_inv : aion.

Lemma acquire_iter_inv expired parked txn target mode st :
  lock_inv st -> lock_inv (acquire_state (acquire_iter expired parked txn target mode st)).
Proof.
  intros Hinv. unfold acquire_iter.
  repeat (case_one; simpl); auto with aion.
Qed.

Lemma acquire_nowait_inv txn target mode st :
  lock_inv st -> lock_inv (snd (acquire_nowait txn target mode st)).
Proof.
  intros Hinv. unfold acquire_nowait. repeat (case_one; simpl); auto with aion.
Qed.

(** ** What one iteration of [acquire] does *)

Lemma unpark_held_mode parked st target u t :
  held_mode (unpark parked st target) u t = held_mode st u t.
Proof. unfold held_mode. by rewrite unpark_held. Qed.

(** Holding the effective mode already excludes blockers. *)
Lemma held_no_blockers st txn target mode :
  lock_inv st -> held_mode st txn target = Some mode -> blockers st txn target mode = ∅.
Proof.
  intros Hinv Hh. apply set_eq. intros b. split; [|set_solver].
  rewrite elem_of_blockers. intros (Hne & [t m] & Hg & <- & Hc); simpl in *.
  apply (li_agree _ Hinv) in Hh. by rewrite (li_compatible _ Hinv _ _ _ _ _ Hg Hh Hne) in Hc.
Qed.

(** Every branch of an [acquire] iteration.  A lock is granted exactly when no
    other transaction holds a conflicting mode, in the stronger of the held and
    requested modes and without changing anybody else's locks; otherwise the
    call either reports a deadlock (exactly when some blocker already waits,
    directly or transitively, for the requester), or a timeout, in both cases
    leaving no lock and no wait edge behind, or parks with its wait edges equal
    to its current blockers. *)
Theorem acquire_iter_spec expired parked txn target mode st :
  lock_inv st ->
  let eff := effective_mode (held_mode st txn target) mode in
  let bs := blockers st txn target eff in
  match acquire_iter expired parked txn target mode st with
  | Acquired st' =>
      bs = ∅ /\ wait_for st' !! txn = None /\
      forall u t, held_mode st' u t =
        if decide (u = txn /\ t = target) then Some eff else held_mode st u t
  | Refused e st' =>
      bs <> ∅ /\ wait_for st' !! txn = None /\
      (forall u t, held_mode st' u t = held_mode st u t) /\
      (e = Transaction DeadlockDetected /\
         (exists b, b ∈ bs /\ rtc (edge (<[txn := bs]> (wait_for st))) b txn) \/
       e = Transaction LockNotAvailable /\ expired = true /\
         forall b, b ∈ bs -> ~ rtc (edge (<[txn := bs]> (wait_for st))) b txn)
  | Parked st' =>
      bs <> ∅ /\ expired = false /\ wait_for st' = <[txn := bs]> (wait_for st) /\
      (forall u t, held_mode st' u t = held_mode st u t) /\
      forall b, b ∈ bs -> ~ rtc (edge (<[txn := bs]> (wait_for st))) b txn
  end.
Proof.
  intros Hinv eff bs. unfold acquire_iter. fold eff.
  destruct (decide (held_mode st txn target = Some eff)) as [Hh|Hh].
  { split; [by apply held_no_blockers|]. rewrite unpark_wait. simpl.
    split; [apply lookup_delete_eq|]. intros u t. rewrite unpark_held_mode.
    case_decide as E; [destruct E as [-> ->]|]; done. }
  fold bs. destruct (decide (bs = ∅)) as [Hb|Hb].
  { rewrite unpark_wait. simpl. split; [done|]. split; [apply lookup_delete_eq|].
    intros u t. by rewrite unpark_held_mode, grant_held. }
  pose proof (would_deadlock_true (set_wait st txn bs) txn bs) as Hd.
  destruct (would_deadlock _ txn bs).
  { rewrite unpark_wait. simpl. split; [done|]. split; [apply lookup_delete_eq|].
    split; [intros; by rewrite unpark_held_mode|]. left. split; [done|]. by apply Hd. }
  assert (Hno : forall b, b ∈ bs -> ~ rtc (edge (<[txn := bs]> (wait_for st))) b txn).
  { intros b Hin Hr. assert (false = true); [|done]. apply Hd. eauto. }
  destruct expired.
  - rewrite unpark_wait. simpl. split; [done|]. split; [apply lookup_delete_eq|].
    split; [intros; by rewrite unpark_held_mode|]. by right.
  - by destruct parked.
Qed.

Lemma acquire_iter_spec_witness :
  match acquire_iter false false 1 (Table 7) Update empty_lock_state with
  | Acquired st' => held_mode st' 1 (Table 7) = Some Update
  | _ => False
  end.
Proof.
  pose proof (acquire_iter_spec false false 1 (Table 7) Update empty_lock_state
                empty_lock_inv) as H.
  destruct (acquire_iter false false 1 (Table 7) Update empty_lock_state) eqn:E;
    [|vm_compute in E; discriminate..].
  destruct H as (_ & _ & H). by rewrite H.
Defined.

(** ** Interleavings

    A shard together with the threads asleep in its condition variable.  A
    sleeper may wake at any time (notification, timeout or spurious wakeup) and
    then runs one more iteration. *)

Record Waiter := mkWaiter { w_txn : Z; w_target : LockTarget; w_mode : LockMode }.

Record ShardSystem := mkSystem { shard : LockState; sleepers : list Waiter }.

Definition settle (a : Acquire) (asleep awake : list Waiter) : ShardSystem :=
  match a with
  | Parked st => mkSystem st asleep
  | Acquired st | Refused _ st => mkSystem st awake
  end.

Inductive shard_step : ShardSystem -> ShardSystem -> Prop :=
| step_call st sl expired txn target mode :
    Z.of_nat (length sl) < u32_max ->
    shard_step (mkSystem st sl)
      (settle (acquire_iter expired false txn target mode st)
        (mkWaiter txn target mode :: sl) sl)
| step_wake st pre w post expired :
    shard_step (mkSystem st (pre ++ w :: post))
      (settle (acquire_iter expired true (w_txn w) (w_target w) (w_mode w) st)
        (pre ++ w :: post) (pre ++ post))
| step_nowait st sl txn target mode :
    shard_step (mkSystem st sl) (mkSystem (snd (acquire_nowait txn target mode st)) sl)
| step_release st sl txn :
    shard_step (mkSystem st sl) (mkSystem (release_state st txn) sl).

Definition initial_system : ShardSystem := mkSystem empty_lock_state [].

Definition waiting_on (target : LockTarget) (sl : list Waiter) : Z :=
  Z.of_nat (length (filter (fun w => w_target w = target) sl)).

(** The waiter counts are the sleeping threads per target. *)
Definition counts_inv (st : LockState) (sl : list Waiter) : Prop :=
  forall target, waiters_per_target st !! target =
    if waiting_on target sl =? 0 then None else Some (waiting_on target sl).

Lemma waiting_on_cons w sl target :
  waiting_on target (w :: sl) =
  (if decide (w_target w = target) then 1 else 0) + waiting_on target sl.
Proof. unfold waiting_on. rewrite filter_cons. case_decide; simpl; lia. Qed.

Lemma waiting_on_app sl1 sl2 target :
  waiting_on target (sl1 ++ sl2) = waiting_on target sl1 + waiting_on target sl2.
Proof. unfold waiting_on. rewrite filter_app, length_app. lia. Qed.

Lemma waiting_on_bounds sl target : 0 <= waiting_on target sl <= Z.of_nat (length sl).
Proof. unfold waiting_on. pose proof (length_filter (fun w => w_target w = target) sl). lia. Qed.

Lemma increment_counts st sl txn target mode :
  Z.of_nat (length sl) < u32_max -> counts_inv st sl ->
  counts_inv (increment_waiter st target) (mkWaiter txn target mode :: sl).
Proof.
  intros Hlen Hc t. simpl. rewrite lookup_insert, waiting_on_cons; simpl.
  pose proof (waiting_on_bounds sl t). case_decide as E; [subst t|by rewrite Hc].
  rewrite Hc. assert (Hd : default 0 (if waiting_on target sl =? 0 then None
    else Some (waiting_on target sl)) = waiting_on target sl).
  { destruct (Z.eqb_spec (waiting_on target sl) 0); simpl; lia. }
  rewrite Hd, Z.mod_small by (unfold u32_max in *; lia).
  rewrite (proj2 (Z.eqb_neq _ _)) by lia. f_equal. lia.
Qed.

Lemma decrement_counts st pre w post :
  counts_inv st (pre ++ w :: post) ->
  counts_inv (decrement_waiter st (w_target w)) (pre ++ post).
Proof.
  intros Hc t. pose proof (waiting_on_bounds pre t). pose proof (waiting_on_bounds post t).
  unfold decrement_waiter. pose proof (Hc (w_target w)) as Hw.
  specialize (Hc t). rewrite waiting_on_app, waiting_on_cons in Hc, Hw.
  rewrite waiting_on_app. rewrite decide_True in Hw by done.
  pose proof (waiting_on_bounds pre (w_target w)).
  pose proof (waiting_on_bounds post (w_target w)).
  rewrite (proj2 (Z.eqb_neq _ _)) in Hw by lia. rewrite Hw.
  unfold saturating_sub. simpl. destruct (decide (w_target w = t)) as [<-|Hne].
  - repeat (match goal with |- context [?a =? ?b] => destruct (Z.eqb_spec a b) end);
      simplify_map_eq; try lia; try done. f_equal. lia.
  - replace (0 + waiting_on t post) with (waiting_on t post) in Hc by lia.
    repeat case_match; simplify_map_eq; done.
Qed.

Lemma settle_cases a asleep awake :
  settle a asleep awake = mkSystem (acquire_state a)
    (match a with Parked _ => asleep | _ => awake end).
Proof. by destruct a. Qed.

Lemma counts_same st st' sl :
  waiters_per_target st' = waiters_per_target st -> counts_inv st sl -> counts_inv st' sl.
Proof. intros E Hc t. by rewrite E. Qed.

(** A call that sleeps is counted, a call that leaves is not. *)
Lemma acquire_call_counts expired txn target mode st sl :
  Z.of_nat (length sl) < u32_max -> counts_inv st sl ->
  let a := acquire_iter expired false txn target mode st in
  counts_inv (acquire_state a)
    (match a with Parked _ => mkWaiter txn target mode :: sl | _ => sl end).
Proof.
  intros Hlen Hc. unfold acquire_iter. repeat (case_one; simpl); try by apply (counts_same st).
  by apply increment_counts.
Qed.

Lemma acquire_wake_counts expired pre w post st :
  counts_inv st (pre ++ w :: post) ->
  let a := acquire_iter expired true (w_txn w) (w_target w) (w_mode w) st in
  counts_inv (acquire_state a)
    (match a with Parked _ => pre ++ w :: post | _ => pre ++ post end).
Proof.
  intros Hc. unfold acquire_iter. repeat (case_one; simpl);
    try (apply decrement_counts); by apply (counts_same st).
Qed.

Definition system_inv (s : ShardSystem) : Prop :=
  lock_inv (shard s) /\ counts_inv (shard s) (sleepers s).

Lemma shard_step_inv s s' : shard_step s s' -> system_inv s -> system_inv s'.
Proof.
  destruct 1 as [st sl expired txn target mode Hlen|st pre w post expired|st sl txn target mode
    |st sl txn]; intros [Hl Hc]; simpl in *; rewrite ?settle_cases; split; simpl.
  - by apply acquire_iter_inv.
  - by apply acquire_call_counts.
  - by apply acquire_iter_inv.
  - by apply acquire_wake_counts.
  - by apply acquire_nowait_inv.
  - unfold acquire_nowait. repeat (case_one; simpl); by apply (counts_same st).
  - by apply release_inv.
  - by apply (counts_same st).
Qed.

Lemma reachable_system_inv s : rtc shard_step initial_system s -> system_inv s.
Proof.
  intros Hr. assert (system_inv initial_system) as Hi.
  { split; [apply empty_lock_inv|]. intros t. simpl. by rewrite lookup_empty. }
  induction Hr; eauto using shard_step_inv.
Qed.

(** ** Theorems *)

(** [C1] Mutual exclusion.  In every state a shard can reach, under any interleaving
    of blocking and non-blocking acquires, wakeups, timeouts and releases, two
    different transactions holding a lock on the same target hold compatible
    modes, and the per-target grant lists agree with the per-transaction index. *)
Theorem lock_table_safety s target t1 t2 m1 m2 :
  rtc shard_step initial_system s ->
  (held_mode (shard s) t1 target = Some m1 <-> granted (shard s) target t1 m1) /\
  (held_mode (shard s) t1 target = Some m1 -> held_mode (shard s) t2 target = Some m2 ->
   t1 <> t2 -> lock_modes_compatible m1 m2 = true).
Proof.
  intros Hr. destruct (reachable_system_inv _ Hr) as [Hinv _].
  split; [apply Hinv|]. rewrite !(li_agree _ Hinv). apply (li_compatible _ Hinv).
Qed.

(** [C18] The wait-for graph of a shard never contains a cycle: a request that would
    close one is refused before it parks, however wakeups and releases
    interleave. *)
Theorem wait_graph_acyclic s txn :
  rtc shard_step initial_system s -> ~ tc (edge (wait_for (shard s))) txn txn.
Proof. intros Hr. destruct (reachable_system_inv _ Hr) as [Hinv _]. apply Hinv. Qed.

(** Transaction 1 takes a table lock, transaction 2 asks for a conflicting one and
    goes to sleep. *)
Definition contended_system : ShardSystem :=
  settle (acquire_iter false false 2 (Table 7) Update
            (acquire_state (acquire_iter false false 1 (Table 7) AccessExclusive
               empty_lock_state)))
    [mkWaiter 2 (Table 7) Update] [].

Lemma contended_reachable : rtc shard_step initial_system contended_system.
Proof.
  eapply rtc_l; [|apply rtc_once].
  - apply (step_call empty_lock_state [] false 1 (Table 7) AccessExclusive).
    unfold u32_max; simpl; lia.
  - apply (step_call _ [] false 2 (Table 7) Update). unfold u32_max; simpl; lia.
Defined.

Lemma lock_table_safety_witness :
  held_mode (shard contended_system) 1 (Table 7) = Some AccessExclusive.
Proof.
  apply (lock_table_safety contended_system (Table 7) 1 2 AccessExclusive Update
           contended_reachable). vm_compute. set_solver.
Defined.

Lemma wait_graph_acyclic_witness :
  wait_for (shard contended_system) <> ∅ /\ ~ tc (edge (wait_for (shard contended_system))) 2 2.
Proof.
  split; [vm_compute; discriminate|].
  apply (wait_graph_acyclic contended_system 2 contended_reachable).
Defined.

(** The deadlock search terminates and decides reachability: with the fuel
    derived from the number of wait edges, [reachable] answers [true] exactly
    when a chain of wait-for edges leads from [start] to [target]. *)
Theorem deadlock_search_correct (st : LockState) (start target : Z) :
  reachable (wait_for st) start target = true <-> rtc (edge (wait_for st)) start target.
Proof. apply reachable_correct. Qed.

Lemma shard_idx_in_range target : (target_shard_idx target < SHARDS)%nat.
Proof.
  unfold target_shard_idx, SHARDS. change (Z.of_nat 16 - 1) with (Z.ones 4).
  rewrite Z.land_ones by lia.
  pose proof (Z.mod_pos_bound (wrapping_mul64 (target_table target) 0x9E3779B97F4A7C15) (2 ^ 4)).
  lia.
Qed.

Lemma shard_for_put m target st t :
  length (shards m) = SHARDS ->
  shard_for (put_shard m target st) t =
  if decide (target_shard_idx t = target_shard_idx target) then st else shard_for m t.
Proof.
  intros Hl. unfold shard_for, put_shard, set_shards; simpl. case_decide as E.
  - rewrite E, list_lookup_insert_eq; [done|]. rewrite Hl. apply shard_idx_in_range.
  - by rewrite list_lookup_insert_ne.
Qed.

Lemma shard_for_release m txn t :
  exists st', shard_for (snd (release_txn m txn)) t = st' /\
  (st' = release_state (shard_for m t) txn \/ st' = empty_lock_state /\ shard_for m t = st').
Proof.
  eexists; split; [done|]. unfold shard_for; simpl. rewrite map_map, list_lookup_fmap.
  destruct (shards m !! target_shard_idx t); simpl; auto.
Qed.

(** Releasing a transaction is complete and local: afterwards it holds no lock
    on any target of any shard, reports no write lock, has no timeout override,
    waits for nobody and is waited for by nobody, while every other
    transaction holds exactly what it held. *)
Theorem release_txn_complete m txn u target :
  let m' := snd (release_txn m txn) in
  held_mode (shard_for m' target) txn target = None /\
  txn_holds_write_locks m' txn = false /\
  txn_timeout_overrides m' !! txn = None /\
  ~ edge (wait_for (shard_for m' target)) txn u /\
  ~ edge (wait_for (shard_for m' target)) u txn /\
  (u <> txn -> held_mode (shard_for m' target) u target = held_mode (shard_for m target) u target).
Proof.
  intros m'. subst m'.
  assert (Hno : forall v w, edge (wait_for empty_lock_state) v w -> False).
  { unfold edge, successors. intros v w. simpl. rewrite lookup_empty. set_solver. }
  destruct (shard_for_release m txn target) as (st' & -> & Hst).
  split; [|split; [|split; [apply lookup_delete_eq|]]].
  - destruct Hst as [-> |[-> _]]; [by rewrite release_held, decide_True|done].
  - unfold txn_holds_write_locks; simpl. apply not_true_is_false.
    rewrite existsb_exists. intros (st & Hin & Hh).
    rewrite map_map in Hin. apply list_elem_of_In, list_elem_of_fmap in Hin as (st0 & -> & _).
    simpl in Hh. by rewrite lookup_delete_eq in Hh.
  - destruct Hst as [-> |[-> Heq]].
    + split; [|split]; try (intros He; by apply release_edge in He as (_ & ? & ?)).
      intros Hne. by rewrite release_held, decide_False.
    + rewrite Heq. naive_solver.
Qed.

(** Non-blocking acquisition through the sharded manager: on success the
    transaction holds the stronger of its held and requested modes on the
    target, on refusal nothing changes hands, and no other transaction or
    target is affected either way. *)
Theorem manager_nowait_spec m txn target mode u t :
  length (shards m) = SHARDS -> lock_inv (shard_for m target) ->
  let eff := effective_mode (held_mode (shard_for m target) txn target) mode in
  let '(r, m') := manager_acquire_nowait m txn target mode in
  (r = Ok tt <-> blockers (shard_for m target) txn target eff = ∅) /\
  (r <> Ok tt -> r = Err (Transaction LockNotAvailable)) /\
  held_mode (shard_for m' t) u t =
    (if decide (u = txn /\ t = target /\ r = Ok tt) then Some eff
     else held_mode (shard_for m t) u t).
Proof.
  intros Hlen Hinv eff. unfold manager_acquire_nowait, acquire_nowait. fold eff.
  destruct (decide (held_mode (shard_for m target) txn target = Some eff)) as [Hh|Hh].
  - split; [split; [by intros _; apply held_no_blockers|done]|]. split; [done|].
    rewrite shard_for_put by done. case_decide as E1; case_decide as E2; try naive_solver.
    all: unfold shard_for in *; simpl; rewrite ?E1; naive_solver.
  - destruct (decide (blockers (shard_for m target) txn target eff = ∅)) as [Hb|Hb].
    + split; [done|]. split; [done|]. rewrite shard_for_put by done.
      case_decide as E1; [rewrite grant_held|];
        repeat case_decide; try naive_solver;
        unfold shard_for in *; simpl; rewrite ?E1; naive_solver.
    + split; [split; [congruence|done]|]. split; [done|]. rewrite shard_for_put by done.
      rewrite (decide_False (P := u = txn /\ _)) by naive_solver.
      case_decide as E1; [|done]. unfold shard_for; simpl. by rewrite E1.
Qed.

Lemma manager_nowait_spec_witness :
  held_mode (shard_for (snd (manager_acquire_nowait default_manager 1 (Tuple 3 9) Update))
               (Tuple 3 9)) 1 (Tuple 3 9) = Some Update.
Proof.
  pose proof (manager_nowait_spec default_manager 1 (Tuple 3 9) Update 1 (Tuple 3 9)) as H.
  simpl in H.
  destruct (manager_acquire_nowait default_manager 1 (Tuple 3 9) Update) as [r m'] eqn:E.
  assert (Hr : r = Ok tt) by (vm_compute in E; congruence).
  destruct H as (_ & _ & H); [done|apply empty_lock_inv|].
  rewrite decide_True in H by done. exact H.
Defined.

(** A mode [a] stands in for [b] when everything that conflicts with [b] also
    conflicts with [a]. *)
Definition covers (a b : LockMode) : Prop :=
  forall x, lock_modes_compatible x b = false -> lock_modes_compatible x a = false.

(** The pairs for which keeping only the higher-ranked mode forgets a conflict. *)
Definition upgrade_gap (a b : LockMode) : bool :=
  match a, b with
  | PredicateRead, (KeyShare | RowExclusive | Update)
  | (KeyShare | RowExclusive | Update), PredicateRead
  | KeyShare, RowExclusive
  | RowExclusive, KeyShare => true
  | _, _ => false
  end.

(** Upgrades keep the stronger mode by rank.  The result protects everything
    both modes protected exactly outside the pairs listed by [upgrade_gap]; on
    those pairs a conflict of the weaker mode is lost. *)
Theorem upgrade_covers_iff held requested :
  (covers (strongest_lock_mode held requested) held /\
   covers (strongest_lock_mode held requested) requested) <->
  upgrade_gap held requested = false.
Proof.
  assert (Hall : forall P : LockMode -> Prop, (forall x, P x) <->
    P AccessShare /\ P PredicateRead /\ P RowExclusive /\ P AccessExclusive /\
    P KeyShare /\ P Update).
  { intros P. split; [by intros|]. intros ?; intros []; tauto. }
  unfold covers. rewrite !Hall.
  destruct held, requested; cbv; intuition congruence.
Qed.

(** A transaction that holds a predicate-read lock and then writes the same table
    no longer keeps concurrent writers out, although it did before. *)
Lemma predicate_lock_lost :
  let m0 := default_manager in
  let m1 := snd (manager_acquire_nowait m0 1 (Table 7) PredicateRead) in
  let m2 := snd (manager_acquire_nowait m1 1 (Table 7) RowExclusive) in
  fst (manager_acquire_nowait m1 2 (Table 7) RowExclusive) = Err (Transaction LockNotAvailable) /\
  fst (manager_acquire_nowait m1 1 (Table 7) RowExclusive) = Ok tt /\
  fst (manager_acquire_nowait m2 2 (Table 7) RowExclusive) = Ok tt.
Proof. vm_compute. done. Qed.
