(* ===== verification/LockWakeup.v ===== *)
(** * Wakeups of the lock manager ([crates/aiondb-tx/src/lock_manager.rs])

    [LockManager.v] lets a sleeping thread wake at any time.  Here each sleeper carries
    whether [notify_all] has reached it since it went to sleep, and [release_txn] is the
    two steps of the source: the release under the shard's mutex, with the decision
    whether to notify, and the notification after the mutex is dropped.  Wakeups by
    timeout or spurious ones are still possible at any time, but no sleeper depends on
    them. *)

From S2P Require Import Prelude WaitGraph LockManager.

#[global] Instance Waiter_eq_dec : EqDecision Waiter.
Proof. solve_decision. Defined.

(** The sleepers of a shard, with their notifications, and the calls of [notify_all] that
    are still to come. *)
Record NotifySystem := mkNotify {
  n_shard : LockState;
  n_sleepers : list (Waiter * bool);
  n_pending : nat
}.

Definition threads (s : NotifySystem) : list Waiter := map fst (n_sleepers s).

(** The transaction has a thread asleep. *)
Definition asleep (txn : Z) (sl : list (Waiter * bool)) : bool :=
  existsb (fun x => w_txn (fst x) =? txn) sl.

(** Granting the request forgets no conflict of the mode held so far. *)
Definition keeps_conflicts (st : LockState) (txn : Z) (target : LockTarget) (mode : LockMode) : bool :=
  match held_mode st txn target with Some h => negb (upgrade_gap h mode) | None => true end.

(** A transaction makes one request at a time: while a thread of it sleeps, it sends no
    other.  A release may come at any time, and for any transaction. *)
Inductive notify_step : NotifySystem -> NotifySystem -> Prop :=
| notify_call st sl n expired txn target mode :
    Z.of_nat (length sl) < u32_max -> asleep txn sl = false -> keeps_conflicts st txn target mode = true ->
    notify_step (mkNotify st sl n)
      (match acquire_iter expired false txn target mode st with
       | Parked st' => mkNotify st' ((mkWaiter txn target mode, false) :: sl) n
       | Acquired st' | Refused _ st' => mkNotify st' sl n
       end)
| notify_wake st pre w notified post n expired :
    notify_step (mkNotify st (pre ++ (w, notified) :: post) n)
      (match acquire_iter expired true (w_txn w) (w_target w) (w_mode w) st with
       | Parked st' => mkNotify st' (pre ++ (w, false) :: post) n
       | Acquired st' | Refused _ st' => mkNotify st' (pre ++ post) n
       end)
| notify_nowait st sl n txn target mode :
    asleep txn sl = false -> keeps_conflicts st txn target mode = true ->
    notify_step (mkNotify st sl n) (mkNotify (snd (acquire_nowait txn target mode st)) sl n)
| notify_release st sl n txn notify st' :
    release_shard txn st = (notify, st') ->
    notify_step (mkNotify st sl n) (mkNotify st' sl (if notify then S n else n))
| notify_all st sl n :
    notify_step (mkNotify st sl (S n)) (mkNotify st (map (fun x => (fst x, true)) sl) n).

Definition initial_notify : NotifySystem := mkNotify empty_lock_state [] 0.

(** ** It is the system of [LockManager.v] *)

Definition erase (s : NotifySystem) : ShardSystem := mkSystem (n_shard s) (threads s).

Lemma erase_step s s' : notify_step s s' -> rtc shard_step (erase s) (erase s').
Proof.
  destruct 1 as [st sl n expired txn target mode Hl _ _|st pre w b post n expired|st sl n txn target mode _ _
    |st sl n txn notify st' Hr|st sl n]; unfold erase, threads; cbn [n_shard n_sleepers].
  - pose proof (step_call st (map fst sl) expired txn target mode ltac:(by rewrite length_map)) as Hs.
    destruct (acquire_iter _ _ _ _ _ _); by apply rtc_once.
  - pose proof (step_wake st (map fst pre) w (map fst post) expired) as Hs. rewrite map_app. cbn [map fst].
    destruct (acquire_iter _ _ _ _ _ _); cbn [n_shard n_sleepers]; rewrite map_app; by apply rtc_once.
  - apply rtc_once, step_nowait.
  - injection Hr as _ <-. apply rtc_once, step_release.
  - rewrite map_map. apply rtc_refl.
Qed.

Lemma erase_reachable s : rtc notify_step initial_notify s -> rtc shard_step initial_system (erase s).
Proof.
  intros Hr. change initial_system with (erase initial_notify). induction Hr as [|x y z Hxy _ IH]; [apply rtc_refl|].
  etransitivity; [by apply erase_step|done].
Qed.

(** ** Who is blocked stays blocked *)

Definition blocked (st : LockState) (w : Waiter) : Prop :=
  blockers st (w_txn w) (w_target w) (effective_mode (held_mode st (w_txn w) (w_target w)) (w_mode w)) <> ∅.

Lemma blocked_same st st' w :
  grants st' = grants st -> held_by_txn st' = held_by_txn st -> blocked st w -> blocked st' w.
Proof. intros Hg Hh. unfold blocked, blockers, held_mode. by rewrite Hg, Hh. Qed.

(** Another transaction gets a lock, and keeps the conflicts it had. *)
Lemma blocked_grant st w txn target mode :
  lock_inv st -> w_txn w <> txn -> keeps_conflicts st txn target mode = true ->
  blocked st w -> blocked (grant st txn target (effective_mode (held_mode st txn target) mode)) w.
Proof.
  intros Hi Hne Hk. unfold blocked. rewrite grant_held, decide_False by naive_solver.
  set (eff := effective_mode (held_mode st (w_txn w) (w_target w)) (w_mode w)).
  intros [b Hb]%set_choose_L Hb'. assert (Hin : b ∈ (∅ : gset Z)); [rewrite <- Hb'|set_solver].
  rewrite elem_of_blockers in *. destruct Hb as (Hbw & [u m] & Hg & <- & Hc). cbn [g_txn g_mode] in *.
  split; [done|]. destruct (decide (u = txn /\ w_target w = target)) as [[-> <-]|Hother].
  - exists (mkGrant txn (effective_mode (held_mode st txn (w_target w)) mode)).
    split; [by apply (grant_granted st); auto|]. split; [done|]. cbn [g_mode].
    apply (li_agree _ Hi) in Hg. unfold keeps_conflicts in Hk. rewrite Hg in *. cbn [effective_mode].
    apply negb_true_iff, upgrade_covers_iff in Hk as [Hk _]. rewrite compatible_sym. apply Hk. by rewrite compatible_sym.
  - exists (mkGrant u m). split; [|done]. apply (grant_granted st); [done|]. right. split; [|done].
    destruct (decide (w_target w = target)); [right|left]; naive_solver.
Qed.

Lemma blocked_acquired expired parked txn target mode st w :
  lock_inv st -> w_txn w <> txn -> keeps_conflicts st txn target mode = true -> blocked st w ->
  blocked (acquire_state (acquire_iter expired parked txn target mode st)) w.
Proof.
  intros Hi Hne Hk Hb. unfold acquire_iter.
  destruct (decide (_ = Some _)); [by apply (blocked_same st); cbn [acquire_state]; rewrite ?unpark_grants, ?unpark_held|].
  destruct (decide (_ = ∅)).
  { apply (blocked_same (grant st txn target (effective_mode (held_mode st txn target) mode)));
      cbn [acquire_state]; [apply unpark_grants|apply unpark_held|by apply blocked_grant]. }
  destruct (would_deadlock _ _ _), expired, parked; cbn [acquire_state];
    apply (blocked_same st); rewrite ?unpark_grants, ?unpark_held; done.
Qed.

Lemma blocked_nowait txn target mode st w :
  lock_inv st -> w_txn w <> txn -> keeps_conflicts st txn target mode = true -> blocked st w ->
  blocked (snd (acquire_nowait txn target mode st)) w.
Proof.
  intros Hi Hne Hk Hb. unfold acquire_nowait. destruct (decide (_ = Some _)); [done|].
  destruct (decide (_ = ∅)); [by apply blocked_grant|done].
Qed.

(** A thread that goes back to sleep is blocked. *)
Lemma blocked_parked expired parked txn target mode st st' :
  lock_inv st -> acquire_iter expired parked txn target mode st = Parked st' -> blocked st' (mkWaiter txn target mode).
Proof.
  intros Hi Hp. pose proof (acquire_iter_spec expired parked txn target mode st Hi) as Hs. rewrite Hp in Hs.
  destruct Hs as (Hb & _). unfold acquire_iter in Hp.
  assert (Hg : grants st' = grants st /\ held_by_txn st' = held_by_txn st)
    by (repeat (case_decide || case_match); by simplify_eq).
  by apply (blocked_same st); [apply Hg|apply Hg|].
Qed.

Lemma asleep_other txn sl x : asleep txn sl = false -> x ∈ sl -> w_txn (fst x) <> txn.
Proof.
  intros Ha Hx E. assert (asleep txn sl = true); [|congruence]. apply existsb_exists. exists x.
  split; [by apply list_elem_of_In|by apply Z.eqb_eq].
Qed.

(** A transaction sleeps at most once, and its request stays one that keeps conflicts; who
    has not been notified is blocked, unless a notification is under way. *)
Record wakeup_inv (s : NotifySystem) : Prop := {
  wi_once : NoDup (map w_txn (threads s));
  wi_keeps : forall w, w ∈ threads s -> keeps_conflicts (n_shard s) (w_txn w) (w_target w) (w_mode w) = true;
  wi_blocked : n_pending s = 0%nat -> forall w, (w, false) ∈ n_sleepers s -> blocked (n_shard s) w
}.

(** The state after a step of [txn]: nothing changes for the transactions asleep. *)
Record undisturbed (txn : Z) (st st' : LockState) : Prop := {
  un_held u t : u <> txn -> held_mode st' u t = held_mode st u t;
  un_blocked w : w_txn w <> txn -> blocked st w -> blocked st' w
}.

Lemma undisturbed_acquire expired parked txn target mode st :
  lock_inv st -> keeps_conflicts st txn target mode = true ->
  undisturbed txn st (acquire_state (acquire_iter expired parked txn target mode st)).
Proof.
  intros Hi Hk. split; [|intros w Hne; by apply blocked_acquired].
  intros u t Hne. pose proof (acquire_iter_spec expired parked txn target mode st Hi) as Hs.
  destruct (acquire_iter _ _ _ _ _ _); cbn [acquire_state].
  - destruct Hs as (_ & _ & Hs). rewrite Hs, decide_False; naive_solver.
  - apply Hs.
  - apply Hs.
Qed.

Lemma undisturbed_nowait txn target mode st :
  lock_inv st -> keeps_conflicts st txn target mode = true ->
  undisturbed txn st (snd (acquire_nowait txn target mode st)).
Proof.
  intros Hi Hk. split; [|intros w Hne; by apply blocked_nowait].
  intros u t Hne. unfold acquire_nowait. destruct (decide (_ = Some _)); [done|]. destruct (decide (_ = ∅)); [|done].
  cbn [snd]. rewrite grant_held, decide_False; naive_solver.
Qed.

Lemma undisturbed_inv txn st st' sl n :
  undisturbed txn st st' -> Forall (fun x => w_txn (fst x) <> txn) sl ->
  wakeup_inv (mkNotify st sl n) -> wakeup_inv (mkNotify st' sl n).
Proof.
  intros [Hh Hb] Hsl [H1 H2 H3]. rewrite Forall_forall in Hsl. split; unfold threads in *; cbn [n_shard n_sleepers n_pending] in *.
  - done.
  - intros w Hin. specialize (H2 w Hin). apply list_elem_of_fmap in Hin as (x & -> & Hx). unfold keeps_conflicts in *.
    rewrite Hh by by apply Hsl. done.
  - intros Hn w Hin. apply Hb; [by apply (Hsl (w, false))|by apply H3].
Qed.

(** One sleeper more. *)
Lemma wakeup_push st w pre post n :
  wakeup_inv (mkNotify st (pre ++ post) n) -> Forall (fun x => w_txn (fst x) <> w_txn w) (pre ++ post) ->
  keeps_conflicts st (w_txn w) (w_target w) (w_mode w) = true -> blocked st w ->
  wakeup_inv (mkNotify st (pre ++ (w, false) :: post) n).
Proof.
  intros [H1 H2 H3] Hsl Hk Hb. split; unfold threads in *; cbn [n_shard n_sleepers n_pending] in *; rewrite !map_app in *; cbn [map fst] in *.
  - eapply NoDup_Permutation_proper; [symmetry; apply Permutation_middle|]. constructor; [|done].
    intros Hin. rewrite <- !map_app in Hin. apply list_elem_of_fmap in Hin as (v & E & Hin).
    apply list_elem_of_fmap in Hin as (x & -> & Hx). rewrite Forall_forall in Hsl. by apply (Hsl x Hx).
  - intros v. rewrite elem_of_app, elem_of_cons. intros Hv. destruct (decide (v = w)) as [->|Hne]; [done|].
    apply H2. rewrite elem_of_app. naive_solver.
  - intros Hn v. rewrite elem_of_app, elem_of_cons. intros Hv. destruct (decide (v = w)) as [->|Hne]; [done|].
    apply H3; [done|]. rewrite elem_of_app. naive_solver.
Qed.

(** One sleeper less. *)
Lemma wakeup_pop st w b pre post n :
  wakeup_inv (mkNotify st (pre ++ (w, b) :: post) n) ->
  wakeup_inv (mkNotify st (pre ++ post) n) /\ Forall (fun x => w_txn (fst x) <> w_txn w) (pre ++ post) /\
  keeps_conflicts st (w_txn w) (w_target w) (w_mode w) = true.
Proof.
  intros [H1 H2 H3]. unfold threads in *; cbn [n_shard n_sleepers n_pending] in *. rewrite !map_app in *. cbn [map fst] in *.
  assert (Hp : NoDup (w_txn w :: map w_txn (map fst (pre ++ post)))).
  { rewrite !map_app. eapply NoDup_Permutation_proper; [|exact H1]. apply Permutation_middle. }
  apply NoDup_cons in Hp as [Hnot Hnd]. split_and!.
  - split; unfold threads; cbn [n_shard n_sleepers n_pending]; [done| |].
    + intros v Hv. apply H2. rewrite map_app in Hv. set_solver.
    + intros Hn v Hv. apply H3; [done|]. set_solver.
  - apply Forall_forall. intros x Hx E. apply Hnot. rewrite <- E. by do 2 apply list_elem_of_fmap_2.
  - apply H2. set_solver.
Qed.

Lemma no_waiters st sl : counts_inv st sl -> had_waiters st = true <-> sl <> [].
Proof.
  intros Hc. unfold had_waiters. rewrite negb_true_iff, bool_decide_eq_false. split.
  - intros Hne Hs. apply Hne. apply map_eq. intros t. by rewrite (Hc t), Hs, lookup_empty.
  - intros Hs He. destruct sl as [|w sl]; [done|].
    specialize (Hc (w_target w)). rewrite He, lookup_empty, waiting_on_cons in Hc.
    rewrite decide_True in Hc by done. pose proof (waiting_on_bounds sl (w_target w)).
    by rewrite (proj2 (Z.eqb_neq _ _)) in Hc by lia.
Qed.

Lemma asleep_others txn sl : asleep txn sl = false -> Forall (fun x => w_txn (fst x) <> txn) sl.
Proof. intros Ha. apply Forall_forall. intros x. by apply asleep_other. Qed.

(** A release either notifies or finds nobody asleep. *)
Lemma wakeup_release st sl n txn :
  counts_inv st (map fst sl) -> wakeup_inv (mkNotify st sl n) ->
  wakeup_inv (mkNotify (release_state st txn) sl (if had_waiters st then S n else n)).
Proof.
  intros Hc [H1 H2 H3]. split; unfold threads in *; cbn [n_shard n_sleepers n_pending] in *; [done| |].
  - intros w Hw. specialize (H2 w Hw). unfold keeps_conflicts in *. rewrite release_held. by case_decide.
  - destruct (had_waiters st) eqn:E; [done|]. intros _ w Hin.
    assert (Hsl : map fst sl <> []) by (by destruct sl; [apply elem_of_nil in Hin|]).
    apply (no_waiters _ _ Hc) in Hsl. congruence.
Qed.

Lemma wakeup_step s s' : notify_step s s' -> system_inv (erase s) -> wakeup_inv s -> wakeup_inv s'.
Proof.
  intros Hstep [Hi Hc] Hw.
  destruct Hstep as [st sl n expired txn target mode Hl Ha Hk|st pre w b post n expired|st sl n txn target mode Ha Hk
    |st sl n txn notify st' Hr|st sl n]; unfold erase, threads in *; cbn [n_shard n_sleepers n_pending shard sleepers] in *.
  - apply asleep_others in Ha. pose proof (undisturbed_acquire expired false txn target mode st Hi Hk) as Hu.
    pose proof (undisturbed_inv _ _ _ _ _ Hu Ha Hw) as Hw'.
    destruct (acquire_iter expired false txn target mode st) as [st'|e st'|st'] eqn:E; cbn [acquire_state] in *; [done..|].
    apply (wakeup_push st' (mkWaiter txn target mode) [] sl); [done|done| |by eapply blocked_parked].
    unfold keeps_conflicts in *. cbn [w_txn w_target w_mode].
    pose proof (acquire_iter_spec expired false txn target mode st Hi) as Hs. rewrite E in Hs.
    destruct Hs as (_ & _ & _ & Hs & _). by rewrite Hs.
  - destruct (wakeup_pop _ _ _ _ _ _ Hw) as (Hw0 & Ha & Hk).
    pose proof (undisturbed_acquire expired true (w_txn w) (w_target w) (w_mode w) st Hi Hk) as Hu.
    pose proof (undisturbed_inv _ _ _ _ _ Hu Ha Hw0) as Hw'.
    destruct (acquire_iter _ _ _ _ _ _) as [st'|e st'|st'] eqn:E; cbn [acquire_state] in *; [done..|].
    apply wakeup_push; [done|done| |destruct w; by eapply blocked_parked].
    unfold keeps_conflicts in *. pose proof (acquire_iter_spec expired true (w_txn w) (w_target w) (w_mode w) st Hi) as Hs.
    rewrite E in Hs. destruct Hs as (_ & _ & _ & Hs & _). by rewrite Hs.
  - apply asleep_others in Ha. by apply (undisturbed_inv txn st); [apply undisturbed_nowait|done|].
  - injection Hr as <- <-. by apply wakeup_release.
  - assert (E : map fst (map (fun x => (fst x, true)) sl) = map fst sl) by by rewrite map_map.
    destruct Hw as [H1 H2 _]. split; unfold threads in *; cbn [n_shard n_sleepers n_pending] in *; rewrite ?E; [done..|].
    intros _ w ([v b] & [= _] & _)%list_elem_of_fmap.
Qed.

Lemma wakeup_reachable s : rtc notify_step initial_notify s -> wakeup_inv s.
Proof.
  intros Hr. apply (rtc_ind_r (fun s => rtc notify_step initial_notify s /\ wakeup_inv s) initial_notify) in Hr; [apply Hr| |].
  - split; [apply rtc_refl|]. split; [constructor|intros w Hin|intros _ w Hin]; by apply elem_of_nil in Hin.
  - intros x y _ Hxy [Hx Hw]. split; [by eapply rtc_r|].
    eapply wakeup_step; [done| |done]. by apply reachable_system_inv, erase_reachable.
Qed.

(** [C19] No lost wakeup.  In every state a shard can reach, when transactions make one request
    at a time and no upgrade forgets a conflict: [release_txn] notifies the shard exactly
    when a thread is asleep in it, because the counts it consults are the numbers of
    sleepers per target; and once the pending notifications have been delivered, every
    sleeper that none has reached since it went to sleep is still blocked by a conflicting
    lock.  So no sleeper that could have its lock depends on its timeout. *)
Theorem no_lost_wakeup s m i txn target :
  rtc notify_step initial_notify s -> shards m !! i = Some (n_shard s) ->
  (fst (release_txn m txn) !! i = Some true <-> n_sleepers s <> []) /\
  default 0 (waiters_per_target (n_shard s) !! target) = waiting_on target (threads s) /\
  (n_pending s = 0%nat -> forall w, (w, false) ∈ n_sleepers s -> blocked (n_shard s) w).
Proof.
  intros Hr Hm. pose proof (wi_blocked _ (wakeup_reachable s Hr)) as Hw.
  destruct (reachable_system_inv _ (erase_reachable s Hr)) as [_ Hc]. split_and!; [| |exact Hw].
  - unfold release_txn. cbn [fst]. rewrite map_map, list_lookup_fmap, Hm. cbn [fmap option_fmap option_map release_shard fst].
    rewrite (inj_iff Some), (no_waiters _ _ Hc). unfold erase, threads. cbn [sleepers]. by destruct (n_sleepers s).
  - specialize (Hc target). unfold erase in Hc. cbn [shard sleepers] in Hc. rewrite Hc.
    pose proof (waiting_on_bounds (threads s) target). destruct (Z.eqb_spec (waiting_on target (threads s)) 0); cbn; lia.
Qed.

(** Transaction 1 holds a table lock and transaction 2 sleeps on it; transaction 3 is
    released, the notification is under way and then delivered, and transaction 2 looks
    and goes back to sleep. *)
Definition sleeping_system : NotifySystem :=
  mkNotify (shard contended_system) [(mkWaiter 2 (Table 7) Update, false)] 0.

Lemma sleeping_reachable : rtc notify_step initial_notify sleeping_system.
Proof.
  eapply rtc_l; [apply (notify_call _ [] 0 false 1 (Table 7) AccessExclusive); [unfold u32_max; simpl; lia|done|done]|].
  eapply rtc_l; [apply (notify_call _ [] 0 false 2 (Table 7) Update); [unfold u32_max; simpl; lia|done|done]|].
  eapply rtc_l; [by apply (notify_release _ _ _ 3)|].
  eapply rtc_l; [apply (notify_all _ _ 0)|].
  eapply rtc_l; [apply (notify_wake _ [] (mkWaiter 2 (Table 7) Update) true [] 0 false)|].
  vm_compute. apply rtc_refl.
Qed.

Definition sleeping_manager : WaitGraphLockManager := mkManager [n_shard sleeping_system] 1000 ∅.

Lemma no_lost_wakeup_witness :
  fst (release_txn sleeping_manager 1) !! 0%nat = Some true /\
  blocked (n_shard sleeping_system) (mkWaiter 2 (Table 7) Update).
Proof.
  destruct (no_lost_wakeup sleeping_system sleeping_manager 0 1 (Table 7) sleeping_reachable eq_refl) as (Hn & _ & Hb).
  split; [by apply Hn|]. apply (Hb eq_refl). by left.
Defined.

(** An upgrade that forgets a conflict strands a sleeper.  Transaction 1 holds a predicate
    lock on a table, transaction 2 sleeps until it can write; transaction 1 then takes a
    write lock of its own, which replaces the predicate lock.  Nothing blocks transaction
    2 any more, and nothing wakes it. *)
Definition reading : LockState := acquire_state (acquire_iter false false 1 (Table 7) PredicateRead empty_lock_state).
Definition queued : LockState := acquire_state (acquire_iter false false 2 (Table 7) RowExclusive reading).
Definition upgraded : LockState := acquire_state (acquire_iter false false 1 (Table 7) RowExclusive queued).

Theorem upgrade_strands_sleeper :
  acquire_iter false false 2 (Table 7) RowExclusive reading = Parked queued /\
  acquire_iter false false 1 (Table 7) RowExclusive queued = Acquired upgraded /\
  ~ blocked upgraded (mkWaiter 2 (Table 7) RowExclusive).
Proof. split_and!; [vm_compute; reflexivity..|]. intros Hb. apply Hb. vm_compute. reflexivity. Qed.
