(* ===== verification/TxManager.v ===== *)
(** * The transaction manager ([crates/aiondb-tx/src/lifecycle.rs])

    [InMemoryTransactionManager]: allocation of transaction ids and commit
    timestamps, snapshots, read and write sets, and optimistic validation.  The
    two atomic counters are only changed while the state mutex is held, so every
    operation is one function on the whole manager.  Identifiers and timestamps
    are [u64] values in [Z]. *)

From S2P Require Import Prelude.

Inductive IsolationLevel : Type := ReadCommitted | SnapshotIsolation | Serializable.

#[global] Instance IsolationLevel_eq_dec : EqDecision IsolationLevel.
Proof. solve_decision. Defined.

Record Snapshot := mkSnapshot { xmin : Z; xmax : Z; active : list Z }.

Record ActiveTransaction := mkActiveTransaction {
  id : Z;
  isolation : IsolationLevel;
  start_ts : Z;
  snapshot : Snapshot
}.

Record CommitResult := mkCommitResult { txn_id : Z; cr_commit_ts : Z }.

Record ActiveTxnState := mkActiveTxnState {
  a_isolation : IsolationLevel;
  a_start_ts : Z
}.

Record SerializableTxnState := mkTracked {
  s_start_ts : Z;
  read_relations : gset Z;
  written_relations : gset Z;
  written_tuples : gset (Z * Z);
  validated : bool
}.

Definition new_tracked (ts : Z) : SerializableTxnState := mkTracked ts ∅ ∅ ∅ false.

(** The two counters and the fields of [TxnState]. *)
Record TxManager := mkTxManager {
  next_txn_id : Z;
  commit_ts : Z;
  active_txns : gmap Z ActiveTxnState;
  tracked_txns : gmap Z SerializableTxnState;
  last_relation_write_commit : gmap Z Z;
  last_tuple_write_commit : gmap (Z * Z) Z
}.

Definition default_tx_manager : TxManager := mkTxManager 1 0 ∅ ∅ ∅ ∅.

(** Field updates. *)
Definition set_next (m : TxManager) (n : Z) : TxManager :=
  mkTxManager n (commit_ts m) (active_txns m) (tracked_txns m)
    (last_relation_write_commit m) (last_tuple_write_commit m).
Definition set_commit_ts (m : TxManager) (t : Z) : TxManager :=
  mkTxManager (next_txn_id m) t (active_txns m) (tracked_txns m)
    (last_relation_write_commit m) (last_tuple_write_commit m).
Definition set_active (m : TxManager) (a : gmap Z ActiveTxnState) : TxManager :=
  mkTxManager (next_txn_id m) (commit_ts m) a (tracked_txns m)
    (last_relation_write_commit m) (last_tuple_write_commit m).
Definition set_tracked (m : TxManager) (t : gmap Z SerializableTxnState) : TxManager :=
  mkTxManager (next_txn_id m) (commit_ts m) (active_txns m) t
    (last_relation_write_commit m) (last_tuple_write_commit m).
Definition set_last (m : TxManager) (r : gmap Z Z) (t : gmap (Z * Z) Z) : TxManager :=
  mkTxManager (next_txn_id m) (commit_ts m) (active_txns m) (tracked_txns m) r t.

(** ** Allocation *)

(** [fetch_update(checked_add(1))] hands out the previous value; id 0 is reserved. *)
Definition allocate_txn_id (m : TxManager) : DbResult Z * TxManager :=
  match checked_add u64_max (next_txn_id m) 1 with
  | None => (Err Internal, m)
  | Some n =>
      if next_txn_id m =? 0 then (Err Internal, set_next m n)
      else (Ok (next_txn_id m), set_next m n)
  end.

Definition allocate_commit_ts (m : TxManager) : DbResult Z * TxManager :=
  match checked_add u64_max (commit_ts m) 1 with
  | None => (Err Internal, m)
  | Some t => (Ok t, set_commit_ts m t)
  end.

(** The [BTreeMap] of active transactions is iterated in key order. *)
Definition snapshot_from_state (m : TxManager) (self_txn : Z) : Snapshot :=
  let visible :=
    filter (fun t => t <> self_txn) (sort_keys (map_to_list (active_txns m)).*1) in
  mkSnapshot (default self_txn (head visible)) (next_txn_id m) visible.

Definition assert_active_transaction (m : TxManager) (t : ActiveTransaction) :
    DbResult ActiveTxnState :=
  match active_txns m !! id t with
  | None => Err Internal
  | Some a =>
      if decide (a_isolation a = isolation t) then
        if a_start_ts a =? start_ts t then Ok a else Err Internal
      else Err Internal
  end.

(** ** Cache pruning *)

Definition oldest_start (tracked : gmap Z SerializableTxnState) : option Z :=
  match map (fun kv => s_start_ts kv.2) (map_to_list tracked) with
  | [] => None
  | s :: l => Some (fold_left Z.min l s)
  end.

Definition prune_map {K} `{Countable K} (tracked : gmap Z SerializableTxnState)
    (last : gmap K Z) : gmap K Z :=
  match oldest_start tracked with
  | None => ∅
  | Some o => filter (fun kv => o <= kv.2) last
  end.

Definition prune_commit_caches (m : TxManager) : TxManager :=
  set_last m (prune_map (tracked_txns m) (last_relation_write_commit m))
             (prune_map (tracked_txns m) (last_tuple_write_commit m)).

(** ** Life cycle *)

Definition begin (iso : IsolationLevel) (m : TxManager) :
    DbResult ActiveTransaction * TxManager :=
  match allocate_txn_id m with
  | (Err e, m1) => (Err e, m1)
  | (Ok t, m1) =>
      let ts := commit_ts m1 in
      let snap := snapshot_from_state m1 t in
      let m2 := set_active m1 (<[t := mkActiveTxnState iso ts]> (active_txns m1)) in
      let m3 := if decide (iso = ReadCommitted) then m2
                else set_tracked m2 (<[t := new_tracked ts]> (tracked_txns m2)) in
      (Ok (mkActiveTransaction t iso ts snap), m3)
  end.

Definition commit (t : ActiveTransaction) (m : TxManager) : DbResult CommitResult * TxManager :=
  match assert_active_transaction m t with
  | Err e => (Err e, m)
  | Ok _ =>
      match allocate_commit_ts m with
      | (Err e, m1) => (Err e, m1)
      | (Ok ts, m1) =>
          (Ok (mkCommitResult (id t) ts), set_active m1 (delete (id t) (active_txns m1)))
      end
  end.

Definition rollback (t : ActiveTransaction) (m : TxManager) : DbResult unit * TxManager :=
  match assert_active_transaction m t with
  | Err e => (Err e, m)
  | Ok _ =>
      let m1 := set_active m (delete (id t) (active_txns m)) in
      (Ok tt, prune_commit_caches (set_tracked m1 (delete (id t) (tracked_txns m1))))
  end.

Definition statement_snapshot (t : ActiveTransaction) (m : TxManager) : DbResult Snapshot :=
  match assert_active_transaction m t with
  | Err e => Err e
  | Ok _ =>
      match isolation t with
      | ReadCommitted => Ok (snapshot_from_state m (id t))
      | SnapshotIsolation | Serializable => Ok (snapshot t)
      end
  end.

(** ** Read and write sets *)

(** [tracked_state_for_active_txn] followed by an in-place update [f] of the entry
    it returns. *)
Definition update_tracked (f : SerializableTxnState -> SerializableTxnState) (txn : Z)
    (m : TxManager) : DbResult unit * TxManager :=
  match active_txns m !! txn with
  | None => (Err Internal, m)
  | Some a =>
      let st := default (new_tracked (a_start_ts a)) (tracked_txns m !! txn) in
      (Ok tt, set_tracked m (<[txn := f st]> (tracked_txns m)))
  end.

Definition add_written_tuple (k : Z * Z) (st : SerializableTxnState) : SerializableTxnState :=
  mkTracked (s_start_ts st) (read_relations st) (written_relations st)
    ({[k]} ∪ written_tuples st) (validated st).
Definition add_read_relation (r : Z) (st : SerializableTxnState) : SerializableTxnState :=
  mkTracked (s_start_ts st) ({[r]} ∪ read_relations st) (written_relations st)
    (written_tuples st) (validated st).
Definition add_written_relation (r : Z) (st : SerializableTxnState) : SerializableTxnState :=
  mkTracked (s_start_ts st) (read_relations st) ({[r]} ∪ written_relations st)
    (written_tuples st) (validated st).
Definition mark_validated (st : SerializableTxnState) : SerializableTxnState :=
  mkTracked (s_start_ts st) (read_relations st) (written_relations st)
    (written_tuples st) true.

Definition record_write (txn table_id tuple_id : Z) (m : TxManager) : DbResult unit * TxManager :=
  if txn =? 0 then (Ok tt, m) else update_tracked (add_written_tuple (table_id, tuple_id)) txn m.

Definition record_relation_read (txn relation_id : Z) (m : TxManager) :
    DbResult unit * TxManager :=
  if txn =? 0 then (Ok tt, m)
  else
    match active_txns m !! txn with
    | None => (Err Internal, m)
    | Some a =>
        if decide (a_isolation a = Serializable) then
          update_tracked (add_read_relation relation_id) txn m
        else (Ok tt, m)
    end.

Definition record_relation_write (txn relation_id : Z) (m : TxManager) :
    DbResult unit * TxManager :=
  if txn =? 0 then (Ok tt, m) else update_tracked (add_written_relation relation_id) txn m.

(** ** Validation *)

(** [map.get(k).is_some_and(|ts| *ts > start)] for some key of a set. *)
Definition written_since {K} `{Countable K} (last : gmap K Z) (ks : gset K) (start : Z) : bool :=
  existsb (fun k => match last !! k with Some ts => start <? ts | None => false end)
    (elements ks).

Definition checked_relations (st : SerializableTxnState) : gset Z :=
  written_relations st ∪ read_relations st.

(** The loop over the other transactions that passed validation but whose writes
    are not yet in the commit caches. *)
Definition inflight_conflict (m : TxManager) (txn : Z) (st : SerializableTxnState)
    (is_serializable : bool) : bool :=
  existsb (fun kv =>
    let '(other_id, other) := kv in
    negb (other_id =? txn) && validated other &&
    (existsb (fun k => bool_decide (k ∈ written_tuples other)) (elements (written_tuples st)) ||
     is_serializable &&
     existsb (fun r => bool_decide (r ∈ written_relations other))
       (elements (checked_relations st))))
    (map_to_list (tracked_txns m)).

Definition validate_commit (t : ActiveTransaction) (m : TxManager) : DbResult unit * TxManager :=
  match assert_active_transaction m t with
  | Err e => (Err e, m)
  | Ok a =>
      if decide (isolation t = ReadCommitted) then (Ok tt, m)
      else
        match tracked_txns m !! id t with
        | None => (Err Internal, m)
        | Some st =>
            let ser := bool_decide (isolation t = Serializable) in
            if written_since (last_tuple_write_commit m) (written_tuples st) (s_start_ts st) then
              (Err (Transaction SerializationFailure), m)
            else if inflight_conflict m (id t) st ser then
              (Err (Transaction SerializationFailure), m)
            else if ser && written_since (last_relation_write_commit m)
                             (checked_relations st) (s_start_ts st) then
              (Err (Transaction SerializationFailure), m)
            else (Ok tt, set_tracked m (<[id t := mark_validated st]> (tracked_txns m)))
        end
  end.

(** ** Completion *)

(** [for k in keys { map.insert(k, ts) }]. *)
Definition insert_all {K} `{Countable K} (ks : gset K) (ts : Z) (last : gmap K Z) : gmap K Z :=
  fold_left (fun acc k => <[k := ts]> acc) (elements ks) last.

Definition finish_commit (txn ts : Z) (m : TxManager) : DbResult unit * TxManager :=
  if txn =? 0 then (Ok tt, m)
  else
    match active_txns m !! txn with
    | Some _ => (Err Internal, m)
    | None =>
        let m1 :=
          match tracked_txns m !! txn with
          | Some st =>
              set_tracked
                (set_last m
                  (insert_all (written_relations st) ts (last_relation_write_commit m))
                  (insert_all (written_tuples st) ts (last_tuple_write_commit m)))
                (delete txn (tracked_txns m))
          | None => m
          end in
        (Ok tt, prune_commit_caches m1)
    end.

Definition rollback_txn (txn : Z) (m : TxManager) : DbResult unit * TxManager :=
  if txn =? 0 then (Ok tt, m)
  else (Ok tt, prune_commit_caches (set_tracked m (delete txn (tracked_txns m)))).

(** ** Facts about the helpers *)

Lemma insert_all_lookup {K} `{Countable K} (ks : gset K) ts last k :
  insert_all ks ts last !! k = if decide (k ∈ ks) then Some ts else last !! k.
Proof.
  unfold insert_all.
  assert (Hl : forall l (m : gmap K Z), fold_left (fun acc k => <[k := ts]> acc) l m !! k =
    if decide (k ∈ l) then Some ts else m !! k).
  { induction l as [|x l IH]; intros m; [done|]; cbn [fold_left]. rewrite IH, lookup_insert.
    destruct (decide (k ∈ l)) as [Hin|Hin]; [by rewrite decide_True by by right|].
    case_decide as E; [rewrite decide_True by (rewrite E; left); done|].
    rewrite decide_False; [done|]. rewrite elem_of_cons. naive_solver. }
  rewrite Hl. by destruct (decide (k ∈ elements ks)) as [Hin|Hin];
    rewrite elem_of_elements in Hin; [rewrite decide_True|rewrite decide_False].
Qed.

Lemma fold_min_le l s : fold_left Z.min l s <= s /\ Forall (fun x => fold_left Z.min l s <= x) l.
Proof.
  revert s. induction l as [|x l IH]; intros s; simpl; [split; [lia|constructor]|].
  destruct (IH (Z.min s x)) as [H1 H2]. split; [lia|]. constructor; [lia|done].
Qed.

Lemma oldest_start_le tracked o t st :
  oldest_start tracked = Some o -> tracked !! t = Some st -> o <= s_start_ts st.
Proof.
  unfold oldest_start. intros Ho Ht.
  assert (Hin : s_start_ts st ∈ map (fun kv => s_start_ts kv.2) (map_to_list tracked)).
  { apply list_elem_of_fmap. exists (t, st). by rewrite elem_of_map_to_list. }
  destruct (map _ _) as [|s l]; [done|]. simplify_eq.
  destruct (fold_min_le l s) as [H1 H2]. apply elem_of_cons in Hin as [->|Hin]; [lia|].
  rewrite Forall_forall in H2. by apply H2.
Qed.

Lemma oldest_start_is_Some tracked t st :
  tracked !! t = Some st -> exists o, oldest_start tracked = Some o.
Proof.
  unfold oldest_start. intros Ht. destruct (map _ (map_to_list tracked)) eqn:E; [|eauto].
  apply (f_equal length) in E. rewrite length_map in E.
  apply length_zero_iff_nil, map_to_list_empty_iff in E. subst. by rewrite lookup_empty in Ht.
Qed.

(** Pruning keeps every commit that is newer than the start of some tracked
    transaction. *)
Lemma prune_keeps {K} `{Countable K} tracked (last : gmap K Z) k v t st :
  tracked !! t = Some st -> s_start_ts st <= v -> last !! k = Some v ->
  prune_map tracked last !! k = Some v.
Proof.
  intros Ht Hv Hk. unfold prune_map. destruct (oldest_start_is_Some _ _ _ Ht) as [o Ho].
  rewrite Ho. apply map_lookup_filter_Some. split; [done|]. simpl.
  pose proof (oldest_start_le _ _ _ _ Ho Ht). lia.
Qed.

Lemma prune_sub {K} `{Countable K} tracked (last : gmap K Z) k v :
  prune_map tracked last !! k = Some v -> last !! k = Some v.
Proof.
  unfold prune_map. destruct (oldest_start tracked); [|by rewrite lookup_empty].
  by intros [? _]%map_lookup_filter_Some.
Qed.

Lemma written_since_false {K} `{Countable K} (last : gmap K Z) ks start :
  written_since last ks start = false <->
  forall k v, k ∈ ks -> last !! k = Some v -> v <= start.
Proof.
  unfold written_since. split.
  - intros Hf k v Hk Hv. apply Z.nlt_ge. intros Hlt. apply not_true_iff_false in Hf. apply Hf.
    apply existsb_exists. exists k. rewrite <- list_elem_of_In, elem_of_elements, Hv.
    split; [done|by apply Z.ltb_lt].
  - intros Hall. apply not_true_iff_false. rewrite existsb_exists. intros (k & Hk & Hlt).
    rewrite <- list_elem_of_In, elem_of_elements in Hk.
    destruct (last !! k) as [v|] eqn:E; [|done]. apply Z.ltb_lt in Hlt.
    specialize (Hall k v Hk E). lia.
Qed.

Lemma common_key_false {K} `{Countable K} (xs ys : gset K) :
  existsb (fun k => bool_decide (k ∈ ys)) (elements xs) = false <-> ys ## xs.
Proof.
  rewrite <- not_true_iff_false, existsb_exists, elem_of_disjoint. split.
  - intros Hn k Hy Hx. apply Hn. exists k.
    by rewrite <- list_elem_of_In, elem_of_elements, bool_decide_eq_true.
  - intros Hd (k & Hx & Hy). rewrite <- list_elem_of_In, elem_of_elements in Hx.
    apply bool_decide_eq_true in Hy. by apply (Hd k).
Qed.

Lemma inflight_conflict_false m txn st ser :
  inflight_conflict m txn st ser = false <->
  forall o ost, tracked_txns m !! o = Some ost -> o <> txn -> validated ost = true ->
    written_tuples ost ## written_tuples st /\
    (ser = true -> written_relations ost ## checked_relations st).
Proof.
  unfold inflight_conflict. rewrite <- not_true_iff_false, existsb_exists. split.
  - intros Hn o ost Ho Hne Hv.
    assert (Hb : existsb (fun k => bool_decide (k ∈ written_tuples ost))
        (elements (written_tuples st)) = false /\
      (ser = true -> existsb (fun r => bool_decide (r ∈ written_relations ost))
        (elements (checked_relations st)) = false)) .
    { destruct (existsb _ (elements (written_tuples st))) eqn:E1.
      - exfalso. apply Hn. exists (o, ost). rewrite <- list_elem_of_In, elem_of_map_to_list.
        split; [done|]. rewrite E1, Hv, (proj2 (Z.eqb_neq _ _) Hne). done.
      - split; [done|]. intros ->. apply not_true_iff_false. intros E2. apply Hn.
        exists (o, ost). rewrite <- list_elem_of_In, elem_of_map_to_list.
        split; [done|]. rewrite E2, Hv, (proj2 (Z.eqb_neq _ _) Hne).
        by rewrite orb_true_r. }
    destruct Hb as [Hb1 Hb2]. split; [by apply common_key_false|].
    intros Hs. by apply common_key_false, Hb2.
  - intros Hall ([o ost] & Hin & Hc). rewrite <- list_elem_of_In, elem_of_map_to_list in Hin.
    apply andb_true_iff in Hc as [Hc Hd]. apply andb_true_iff in Hc as [Hne Hv].
    apply negb_true_iff, Z.eqb_neq in Hne. destruct (Hall _ _ Hin Hne Hv) as [H1 H2].
    apply common_key_false in H1. rewrite H1 in Hd. simpl in Hd.
    apply andb_true_iff in Hd as [Hs Hd]. specialize (H2 Hs).
    apply common_key_false in H2. congruence.
Qed.

Lemma assert_active_Ok m t a :
  assert_active_transaction m t = Ok a <->
  active_txns m !! id t = Some a /\ a = mkActiveTxnState (isolation t) (start_ts t).
Proof.
  unfold assert_active_transaction. destruct a as [iso ts].
  destruct (active_txns m !! id t) as [[iso' ts']|] eqn:E; simpl; [|naive_solver].
  case_decide; [|naive_solver]. destruct (Z.eqb_spec ts' (start_ts t)); naive_solver.
Qed.

(** ** Theorems *)

(** Beginning a transaction hands out the next unused id, starts it at the
    current commit timestamp, and takes a snapshot whose [active] list is the
    sorted list of the transactions active at that moment, with [xmin] the
    smallest of them (or the transaction itself) and [xmax] one past the new id;
    it fails only when the id counter is exhausted. *)
Theorem begin_spec iso m :
  1 <= next_txn_id m <= u64_max ->
  (forall t, is_Some (active_txns m !! t) -> t < next_txn_id m) ->
  match begin iso m with
  | (Ok t, m') =>
      id t = next_txn_id m /\ next_txn_id m' = id t + 1 /\ start_ts t = commit_ts m /\
      active_txns m' = <[id t := mkActiveTxnState iso (commit_ts m)]> (active_txns m) /\
      (forall u, u ∈ active (snapshot t) <-> is_Some (active_txns m !! u)) /\
      StronglySorted Z.le (active (snapshot t)) /\
      (forall u, u ∈ active (snapshot t) -> xmin (snapshot t) <= u) /\
      (xmin (snapshot t) = id t \/ xmin (snapshot t) ∈ active (snapshot t)) /\
      xmax (snapshot t) = id t + 1
  | (Err e, m') => e = Internal /\ m' = m /\ next_txn_id m = u64_max
  end.
Proof.
  intros Hn Hact. unfold begin, allocate_txn_id, checked_add.
  destruct (Z.leb_spec (next_txn_id m + 1) u64_max) as [Hle|Hgt]; [|split_and!; [done..|lia]].
  rewrite (proj2 (Z.eqb_neq _ _)) by lia.
  unfold snapshot_from_state. simpl.
  set (keys := sort_keys (map_to_list (active_txns m)).*1).
  assert (Hkeys : forall u, u ∈ keys <-> is_Some (active_txns m !! u)).
  { intros u. unfold keys. rewrite elem_of_sort_keys, list_elem_of_fmap. split.
    - intros ([? a] & -> & Hin%elem_of_map_to_list). by exists a.
    - intros [a Ha]. exists (u, a). by rewrite elem_of_map_to_list. }
  assert (Hf : filter (fun t => t <> next_txn_id m) keys = keys).
  { apply filter_all, Forall_forall. intros u Hu ->. apply Hkeys, Hact in Hu. lia. }
  rewrite Hf. clear Hf.
  assert (Hs : StronglySorted Z.le keys) by apply sort_keys_Z_sorted.
  destruct (decide (iso = ReadCommitted)); simpl; (split_and!; try done);
    try (intros u Hu; destruct keys as [|k keys']; simpl; [by apply elem_of_nil in Hu|];
         inversion Hs as [|? ? _ Hall]; subst; apply elem_of_cons in Hu as [->|Hu]; [lia|];
         rewrite Forall_forall in Hall; by apply Hall);
    destruct keys; simpl; auto; right; left.
Qed.

Definition two_writers : TxManager :=
  let m1 := snd (begin SnapshotIsolation default_tx_manager) in
  let m2 := snd (begin SnapshotIsolation m1) in
  snd (record_write 2 10 5 (snd (record_write 1 10 5 m2))).

Lemma begin_spec_witness :
  match begin Serializable two_writers with
  | (Ok t, _) => id t = 3 /\ xmax (snapshot t) = 4
  | _ => False
  end.
Proof.
  pose proof (begin_spec Serializable two_writers) as H.
  assert (Hn : next_txn_id two_writers = 3) by done. rewrite Hn in H.
  destruct (begin Serializable two_writers) as [[t|e] m'] eqn:E; [|vm_compute in E; discriminate].
  destruct H as (H1 & _ & _ & _ & _ & _ & _ & _ & H2); [unfold u64_max; lia| |split; lia].
  intros t' [a Ha].
  assert (Hl : (t', a) ∈ map_to_list (active_txns two_writers)) by by apply elem_of_map_to_list.
  vm_compute in Hl. repeat (apply elem_of_cons in Hl as [Hl|Hl]; [simplify_eq; lia|]).
  by apply elem_of_nil in Hl.
Defined.
