(* ===== verification/TxIsolation.v ===== *)
(** * What optimistic validation guarantees

    The transaction manager run as a transition system: transactions begin, read,
    write, validate, commit, finish and roll back in any interleaving, each
    following the calling protocol of the engine (no writes after validation,
    [finish_commit] with the timestamp [commit] returned, clean-up after a
    rollback).  Two ghost fields record the run: the order in which transactions
    passed validation, and what every committed transaction had read and written.

    Conflicts are looked at on two levels, tuples and relations.  [ConflictLevel]
    is the interface both share: which keys a transaction writes, which it has
    checked at validation, and the cache of last commits per key.  The safety
    argument is made once against the interface. *)

From S2P Require Import Prelude TxManager.

Class ConflictLevel (K : Type) `{Countable K} := {
  participates : IsolationLevel -> bool;
  writes : SerializableTxnState -> gset K;
  checks : SerializableTxnState -> gset K;
  last_writes : TxManager -> gmap K Z
}.

Class ConflictLevelLaws (K : Type) `{ConflictLevel K} : Prop := {
  participates_rc : participates ReadCommitted = false;
  participates_ser : participates Serializable = true;
  writes_checked : forall st, writes st ⊆ checks st;
  checks_new : forall ts, checks (new_tracked ts) = ∅;
  writes_validated : forall st, writes (mark_validated st) = writes st;
  checks_validated : forall st, checks (mark_validated st) = checks st;
  last_frame : forall m m',
    last_tuple_write_commit m' = last_tuple_write_commit m ->
    last_relation_write_commit m' = last_relation_write_commit m ->
    last_writes m' = last_writes m;
  last_prune : forall m,
    last_writes (prune_commit_caches m) = prune_map (tracked_txns m) (last_writes m);
  last_record : forall m st ts,
    last_writes (set_last m
      (insert_all (written_relations st) ts (last_relation_write_commit m))
      (insert_all (written_tuples st) ts (last_tuple_write_commit m))) =
    insert_all (writes st) ts (last_writes m);
  validated_clean : forall t m m' st,
    validate_commit t m = (Ok tt, m') -> participates (isolation t) = true ->
    tracked_txns m !! id t = Some st ->
    (forall k v, k ∈ checks st -> last_writes m !! k = Some v -> v <= s_start_ts st) /\
    (forall o ost, tracked_txns m !! o = Some ost -> o <> id t -> validated ost = true ->
       writes ost ## checks st)
}.

(** ** The transition system *)

Record Committed := mkCommitted {
  c_id : Z;
  c_state : SerializableTxnState;
  c_ts : Z;
  c_seq : Z  (** its place in the validation order *)
}.

(** The validation order: a sequence number per transaction. *)
Notation Order := (gmap Z Z).

Record TxSystem := mkTxSystem { mgr : TxManager; order : Order; history : list Committed }.

Definition initial_tx_system : TxSystem := mkTxSystem default_tx_manager ∅ [].

(** The first time a transaction is found validated it takes the next number. *)
Definition note_validation (m : TxManager) (o : Order) (txn : Z) : Order :=
  match tracked_txns m !! txn, o !! txn with
  | Some st, None => if validated st then <[txn := Z.of_nat (size o)]> o else o
  | _, _ => o
  end.

Definition not_validated (m : TxManager) (txn : Z) : Prop :=
  forall st, tracked_txns m !! txn = Some st -> validated st = false.

Section Protocol.
Context {K : Type} `{ConflictLevel K}.

Inductive tx_step : TxSystem -> TxSystem -> Prop :=
| ts_begin m o h iso t m' :
    begin iso m = (Ok t, m') -> tx_step (mkTxSystem m o h) (mkTxSystem m' o h)
| ts_read m o h txn r res m' :
    not_validated m txn -> record_relation_read txn r m = (res, m') ->
    tx_step (mkTxSystem m o h) (mkTxSystem m' o h)
| ts_write_tuple m o h txn a table tuple res m' :
    active_txns m !! txn = Some a -> participates (a_isolation a) = true ->
    not_validated m txn -> record_write txn table tuple m = (res, m') ->
    tx_step (mkTxSystem m o h) (mkTxSystem m' o h)
| ts_write_relation m o h txn a r res m' :
    active_txns m !! txn = Some a -> participates (a_isolation a) = true ->
    not_validated m txn -> record_relation_write txn r m = (res, m') ->
    tx_step (mkTxSystem m o h) (mkTxSystem m' o h)
| ts_validate m o h t res m' :
    validate_commit t m = (res, m') ->
    tx_step (mkTxSystem m o h) (mkTxSystem m' (note_validation m' o (id t)) h)
| ts_commit m o h t st c q m' :
    participates (isolation t) = true -> tracked_txns m !! id t = Some st ->
    validated st = true -> o !! id t = Some q -> commit t m = (Ok c, m') ->
    tx_step (mkTxSystem m o h)
      (mkTxSystem m' o (mkCommitted (id t) st (cr_commit_ts c) q :: h))
| ts_commit_other m o h t c m' :
    participates (isolation t) = false -> commit t m = (Ok c, m') ->
    tx_step (mkTxSystem m o h) (mkTxSystem m' o h)
| ts_finish m o h txn ts res m' :
    (forall st, tracked_txns m !! txn = Some st -> writes st <> ∅ ->
       exists q, mkCommitted txn st ts q ∈ h) ->
    finish_commit txn ts m = (res, m') -> tx_step (mkTxSystem m o h) (mkTxSystem m' o h)
| ts_rollback m o h t res m' :
    rollback t m = (res, m') -> tx_step (mkTxSystem m o h) (mkTxSystem m' o h)
| ts_rollback_txn m o h txn res m' :
    active_txns m !! txn = None -> txn ∉ map c_id h ->
    rollback_txn txn m = (res, m') -> tx_step (mkTxSystem m o h) (mkTxSystem m' o h).

Definition finished (m : TxManager) (c : Committed) : Prop := tracked_txns m !! c_id c = None.

(** What [c1] wrote is no surprise to [c2]: either [c2] never looked at it, or
    [c1] had committed when [c2] started. *)
Definition respects (s1 : SerializableTxnState) (ts1 : Z) (s2 : SerializableTxnState) : Prop :=
  writes s1 ## checks s2 \/ ts1 <= s_start_ts s2.

Record iso_inv (m : TxManager) (o : Order) (h : list Committed) : Prop := {
  ii_active_id : forall t a, active_txns m !! t = Some a -> t < next_txn_id m;
  ii_tracked_id : forall t st, tracked_txns m !! t = Some st -> t < next_txn_id m;
  ii_order_id : forall t q, o !! t = Some q -> t < next_txn_id m;
  ii_start : forall t st, tracked_txns m !! t = Some st -> s_start_ts st <= commit_ts m;
  ii_hist_ts : forall c, c ∈ h -> s_start_ts (c_state c) <= commit_ts m /\ c_ts c <= commit_ts m;
  ii_active_hist : forall t a c, active_txns m !! t = Some a -> c ∈ h -> c_id c <> t;
  ii_active_tracked : forall t a, active_txns m !! t = Some a ->
    participates (a_isolation a) = true -> is_Some (tracked_txns m !! t);
  ii_unique : NoDup (map c_id h);
  ii_hist_state : forall c st, c ∈ h -> tracked_txns m !! c_id c = Some st ->
    st = c_state c /\ validated st = true;
  ii_seq_bound : forall t q, o !! t = Some q -> q < Z.of_nat (size o);
  ii_seq_inj : forall t1 t2 q, o !! t1 = Some q -> o !! t2 = Some q -> t1 = t2;
  ii_seq_validated : forall t st, tracked_txns m !! t = Some st ->
    validated st = true <-> is_Some (o !! t);
  ii_seq_hist : forall c, c ∈ h -> o !! c_id c = Some (c_seq c);
  ii_inflight : forall t1 t2 s1 s2 q1 q2,
    tracked_txns m !! t1 = Some s1 -> tracked_txns m !! t2 = Some s2 ->
    o !! t1 = Some q1 -> o !! t2 = Some q2 -> q1 < q2 -> writes s1 ## checks s2;
  ii_pending : forall t st q c, tracked_txns m !! t = Some st -> o !! t = Some q ->
    c ∈ h -> c_id c <> t ->
    (c_seq c < q -> respects (c_state c) (c_ts c) st) /\
    (q < c_seq c -> writes st ## checks (c_state c)) /\
    (c_ts c <= s_start_ts st -> c_seq c < q);
  ii_history : forall c1 c2, c1 ∈ h -> c2 ∈ h -> c_id c1 <> c_id c2 ->
    (c_seq c1 < c_seq c2 -> respects (c_state c1) (c_ts c1) (c_state c2)) /\
    (c_ts c1 <= s_start_ts (c_state c2) -> c_seq c1 < c_seq c2);
  ii_cache : forall c k t st, c ∈ h -> finished m c -> k ∈ writes (c_state c) ->
    tracked_txns m !! t = Some st -> s_start_ts st < c_ts c ->
    exists v, last_writes m !! k = Some v /\ c_ts c <= v;
  ii_order : forall c1 c2 k, c1 ∈ h -> c2 ∈ h -> finished m c1 -> ~ finished m c2 ->
    k ∈ writes (c_state c1) -> k ∈ writes (c_state c2) -> c_ts c1 < c_ts c2;
  ii_idle : forall t a st, active_txns m !! t = Some a -> tracked_txns m !! t = Some st ->
    participates (a_isolation a) = false -> checks st = ∅
}.

(** ** Preservation *)

Context {HL : ConflictLevelLaws K}.

Lemma hist_unique h c1 c2 :
  NoDup (map c_id h) -> c1 ∈ h -> c2 ∈ h -> c_id c1 = c_id c2 -> c1 = c2.
Proof.
  induction h as [|c h IH]; simpl; intros Hnd H1 H2 E; [by apply elem_of_nil in H1|].
  apply NoDup_cons in Hnd as [Hc Hnd].
  apply elem_of_cons in H1 as [->|H1], H2 as [->|H2]; auto; exfalso; apply Hc.
  - rewrite E. by apply list_elem_of_fmap_2.
  - rewrite <- E. by apply list_elem_of_fmap_2.
Qed.

(** Two validated transactions in flight never wrote the same key. *)
Lemma inflight_writes m o h t1 t2 s1 s2 k :
  iso_inv m o h -> t1 <> t2 -> tracked_txns m !! t1 = Some s1 -> tracked_txns m !! t2 = Some s2 ->
  validated s1 = true -> validated s2 = true -> k ∈ writes s1 -> k ∈ writes s2 -> False.
Proof.
  intros [] Hne Ht1 Ht2 Hv1 Hv2 Hk1 Hk2.
  apply (ii_seq_validated0 _ _ Ht1) in Hv1 as [q1 Hq1].
  apply (ii_seq_validated0 _ _ Ht2) in Hv2 as [q2 Hq2].
  pose proof (writes_checked s1 k Hk1). pose proof (writes_checked s2 k Hk2).
  destruct (Z.lt_trichotomy q1 q2) as [Hlt|[->|Hlt]].
  - pose proof (ii_inflight0 t1 t2 s1 s2 q1 q2 Ht1 Ht2 Hq1 Hq2 Hlt). set_solver.
  - by apply Hne, (ii_seq_inj0 t1 t2 q2).
  - pose proof (ii_inflight0 t2 t1 s2 s1 q2 q1 Ht2 Ht1 Hq2 Hq1 Hlt). set_solver.
Qed.

Lemma insert_all_empty (last : gmap K Z) ts : insert_all ∅ ts last = last.
Proof. apply map_eq. intros k. rewrite insert_all_lookup. by rewrite decide_False by set_solver. Qed.

(** The tracked transactions and the caches stay as they are. *)
Lemma inv_active m m' o h :
  iso_inv m o h -> tracked_txns m' = tracked_txns m -> commit_ts m <= commit_ts m' ->
  last_writes m' = last_writes m -> next_txn_id m <= next_txn_id m' ->
  (forall u a, active_txns m' !! u = Some a -> active_txns m !! u = Some a \/
     (u < next_txn_id m' /\ next_txn_id m <= u /\ participates (a_isolation a) = false)) ->
  iso_inv m' o h.
Proof.
  intros Hinv Ht Hc Hl Hn Ha. pose proof Hinv as [].
  split; unfold finished; rewrite ?Ht, ?Hl; try done.
  - intros t a [?|?]%Ha; [|lia]. assert (t < next_txn_id m) by eauto. lia.
  - intros t st Hst. assert (t < next_txn_id m) by eauto. lia.
  - intros t q Hq. assert (t < next_txn_id m) by eauto. lia.
  - intros t st Hst. assert (s_start_ts st <= commit_ts m) by eauto. lia.
  - intros c Hin. pose proof (ii_hist_ts0 _ Hin). lia.
  - intros t a c [?|(? & ? & _)]%Ha Hin; [eauto|].
    pose proof (ii_order_id0 _ _ (ii_seq_hist0 _ Hin)). lia.
  - intros t a [?|(_ & _ & ?)]%Ha Hp; [eauto|congruence].
  - intros t a st [?|(_ & ? & _)]%Ha Hst Hp; [eauto|].
    assert (t < next_txn_id m) by eauto. lia.
Qed.

(** One tracked entry is created or rewritten before its transaction validates. *)
Lemma inv_unvalidated m m' o h t st' :
  iso_inv m o h -> tracked_txns m' = <[t := st']> (tracked_txns m) ->
  commit_ts m' = commit_ts m -> last_writes m' = last_writes m ->
  next_txn_id m <= next_txn_id m' -> t < next_txn_id m' ->
  (forall u a, active_txns m' !! u = Some a -> active_txns m !! u = Some a \/ u = t) ->
  o !! t = None ->
  (forall a, active_txns m' !! t = Some a -> participates (a_isolation a) = false ->
     checks st' = ∅) ->
  validated st' = false ->
  (s_start_ts st' = commit_ts m \/
   exists st, tracked_txns m !! t = Some st /\ s_start_ts st' = s_start_ts st) ->
  iso_inv m' o h.
Proof.
  intros [] Ht Hc Hl Hn Htn Ha Ho Hw Hv Hs.
  assert (Hh : forall c, c ∈ h -> c_id c <> t).
  { intros c Hin <-. by rewrite (ii_seq_hist0 _ Hin) in Ho. }
  assert (Hst : forall u st, tracked_txns m' !! u = Some st ->
    u <> t /\ tracked_txns m !! u = Some st \/ u = t /\ st = st').
  { intros u st. rewrite Ht, lookup_insert. case_decide; naive_solver. }
  assert (Hfin : forall c, c ∈ h -> finished m' c <-> finished m c).
  { intros c Hin. unfold finished. rewrite Ht, lookup_insert_ne; [done|].
    intros E. by apply (Hh c). }
  assert (Hstart : s_start_ts st' <= commit_ts m).
  { destruct Hs as [->|(st & Hst' & ->)]; [lia|eauto]. }
  split; rewrite ?Hc, ?Hl; try done.
  - intros u a [?| ->]%Ha; [|done]. assert (u < next_txn_id m) by eauto. lia.
  - intros u st [[_ ?]|[-> _]]%Hst; [|done]. assert (u < next_txn_id m) by eauto. lia.
  - intros u q Hq. assert (u < next_txn_id m) by eauto. lia.
  - intros u st [[_ ?]|[-> ->]]%Hst; eauto.
  - intros u a c [?| ->]%Ha Hin; eauto.
  - intros u a Hu Hp. rewrite Ht, lookup_insert. case_decide; [eauto|].
    destruct (Ha _ _ Hu); [eauto|congruence].
  - intros c st Hin [[_ ?]|[E _]]%Hst; [eauto|by apply Hh in E].
  - intros u st [[_ ?]|[-> ->]]%Hst; [eauto|]. rewrite Hv, Ho. split; [done|by intros []].
  - intros t1 t2 s1 s2 q1 q2 [[_ ?]|[-> ->]]%Hst [[_ ?]|[-> ->]]%Hst; eauto; congruence.
  - intros u st q c [[_ ?]|[-> ->]]%Hst; eauto; congruence.
  - intros c k u st Hin Hf Hk [[_ ?]|[-> ->]]%Hst Hlt.
    + eapply ii_cache0; eauto. by apply Hfin.
    + destruct Hs as [E|(st & Hst' & E)].
      * pose proof (ii_hist_ts0 _ Hin). lia.
      * eapply ii_cache0; eauto; [by apply Hfin|lia].
  - intros c1 c2 k Hc1 Hc2. rewrite !Hfin by done. eauto.
  - intros u a st Hu [[Hne ?]|[-> ->]]%Hst Hp; [|eauto].
    destruct (Ha _ _ Hu); [eauto|congruence].
Qed.

(** One tracked entry disappears: a rollback, or a finished commit whose writes
    [ws] enter the cache. *)
Lemma inv_remove m m' o h t ws ts :
  iso_inv m o h -> tracked_txns m' = delete t (tracked_txns m) ->
  commit_ts m' = commit_ts m -> next_txn_id m' = next_txn_id m ->
  last_writes m' = prune_map (tracked_txns m') (insert_all ws ts (last_writes m)) ->
  (forall u a, active_txns m' !! u = Some a -> active_txns m !! u = Some a /\ u <> t) ->
  (forall st c, tracked_txns m !! t = Some st -> c ∈ h -> c_id c = t -> ws = writes st) ->
  (ws <> ∅ -> exists st q, tracked_txns m !! t = Some st /\ mkCommitted t st ts q ∈ h) ->
  iso_inv m' o h.
Proof.
  intros Hinv Ht Hc Hn Hl Ha Hws Hts. pose proof Hinv as [].
  assert (Hst : forall u st, tracked_txns m' !! u = Some st ->
    u <> t /\ tracked_txns m !! u = Some st).
  { intros u st. rewrite Ht, lookup_delete. case_decide; naive_solver. }
  assert (Hfin : forall c, c ∈ h -> finished m' c -> finished m c \/
    (exists st, c_id c = t /\ tracked_txns m !! t = Some st /\ st = c_state c /\
       validated st = true /\ ws = writes st)).
  { intros c Hin. unfold finished. rewrite Ht, lookup_delete. case_decide as E; [symmetry in E|auto].
    intros _. rewrite E. destruct (tracked_txns m !! t) as [st|] eqn:Est; [right|by left].
    subst t. destruct (ii_hist_state0 _ _ Hin Est). exists st. eauto 10. }
  split; rewrite ?Hc, ?Hn; try done.
  - intros u a [? _]%Ha. eauto.
  - intros u st [_ ?]%Hst. eauto.
  - intros u st [_ ?]%Hst. eauto.
  - intros u a c [? _]%Ha. eauto.
  - intros u a [Hu ?]%Ha Hp. rewrite Ht, lookup_delete_ne by done. eauto.
  - intros c st Hin [_ ?]%Hst. eauto.
  - intros u st [_ ?]%Hst. eauto.
  - intros t1 t2 s1 s2 q1 q2 [_ ?]%Hst [_ ?]%Hst. eauto.
  - intros u st q c [_ ?]%Hst. eauto.
  - intros c k u st Hin Hf Hk Hu Hlt.
    assert (Hv : exists v, insert_all ws ts (last_writes m) !! k = Some v /\ c_ts c <= v).
    { rewrite insert_all_lookup. destruct (decide (k ∈ ws)) as [Hkw|Hkw].
      - exists ts. split; [done|]. destruct Hts as (st1 & q1 & Hst1 & Hc1); [set_solver|].
        assert (Hw1 : ws = writes st1) by (eapply Hws; eauto).
        destruct (Hfin _ Hin Hf) as [Hfc|(st2 & E & Hst2 & -> & _ & _)].
        + assert (c_ts c < ts); [|lia].
          apply (ii_order0 c (mkCommitted t st1 ts q1) k); simpl; eauto; [|set_solver].
          unfold finished; simpl. congruence.
        + assert (c = mkCommitted t st1 ts q1) as -> by (eapply hist_unique; eauto). simpl. lia.
      - destruct (Hfin _ Hin Hf) as [Hfc|(st2 & E & Hst2 & -> & _ & ->)]; [|done].
        apply Hst in Hu as [_ Hu]. eauto. }
    destruct Hv as (v & Hv & Hle). exists v. split; [|done]. rewrite Hl.
    eapply prune_keeps; eauto. lia.
  - intros c1 c2 k Hc1 Hc2 Hf1 Hf2 Hk1 Hk2.
    assert (Hf2' : ~ finished m c2).
    { intros Hf. apply Hf2. unfold finished in *. by rewrite Ht, lookup_delete_None; right. }
    destruct (Hfin _ Hc1 Hf1) as [Hf|(s1 & E1 & Hs1 & -> & Hv1 & _)]; [eauto|exfalso].
    destruct (tracked_txns m !! c_id c2) as [s2|] eqn:Es2; [|done].
    destruct (ii_hist_state0 _ _ Hc2 Es2) as [-> Hv2].
    eapply (inflight_writes m o h t (c_id c2)); eauto.
    intros E. apply Hf2. unfold finished. rewrite Ht, E. apply lookup_delete_eq.
  - intros u a st [? _]%Ha [_ ?]%Hst. eauto.
Qed.

(** What a successful validation says about the keys it checked; a transaction
    outside this level's protocol has checked none. *)
Lemma validation_checks m o h t m' st :
  iso_inv m o h -> validate_commit t m = (Ok tt, m') ->
  active_txns m !! id t = Some (mkActiveTxnState (isolation t) (start_ts t)) ->
  tracked_txns m !! id t = Some st ->
  (forall k v, k ∈ checks st -> last_writes m !! k = Some v -> v <= s_start_ts st) /\
  (forall u ost, tracked_txns m !! u = Some ost -> u <> id t -> validated ost = true ->
     writes ost ## checks st).
Proof.
  intros Hinv Hval Hact Hst. destruct (participates (isolation t)) eqn:Hp.
  - by eapply (validated_clean t m).
  - rewrite (ii_idle _ _ _ Hinv _ _ _ Hact Hst Hp). split; [|set_solver].
    intros k v Hk. by apply not_elem_of_empty in Hk.
Qed.

Lemma validation_respects m o h t m' st c :
  iso_inv m o h -> validate_commit t m = (Ok tt, m') ->
  active_txns m !! id t = Some (mkActiveTxnState (isolation t) (start_ts t)) ->
  tracked_txns m !! id t = Some st -> c ∈ h -> respects (c_state c) (c_ts c) st.
Proof.
  intros Hinv Hval Hact Hst Hin.
  destruct (validation_checks _ _ _ _ _ _ Hinv Hval Hact Hst) as [Hclean Hc].
  pose proof Hinv as []. destruct (tracked_txns m !! c_id c) as [sc|] eqn:Esc.
  { left. destruct (ii_hist_state0 _ _ Hin Esc) as [-> Hvc]. eauto. }
  destruct (decide (c_ts c <= s_start_ts st)) as [|Hgt]; [by right|left].
  apply elem_of_disjoint. intros k Hk Hck.
  destruct (ii_cache0 c k (id t) st) as (v & Hv1 & Hv2); eauto; [lia|].
  specialize (Hclean k v Hck Hv1). lia.
Qed.

(** A transaction passes validation for the first time: it goes last in the order. *)
Lemma inv_validate m m' o h t st :
  iso_inv m o h -> validate_commit t m = (Ok tt, m') ->
  active_txns m !! id t = Some (mkActiveTxnState (isolation t) (start_ts t)) ->
  tracked_txns m !! id t = Some st -> o !! id t = None ->
  m' = set_tracked m (<[id t := mark_validated st]> (tracked_txns m)) ->
  iso_inv m' (<[id t := Z.of_nat (size o)]> o) h.
Proof.
  intros Hinv Hval Hact Hst Ho ->. pose proof Hinv as [].
  set (m' := set_tracked _ _). set (n := Z.of_nat (size o)).
  destruct (validation_checks _ _ _ _ _ _ Hinv Hval Hact Hst) as [_ Hc].
  assert (Hlook : forall u s', tracked_txns m' !! u = Some s' ->
    u <> id t /\ tracked_txns m !! u = Some s' \/ u = id t /\ s' = mark_validated st).
  { intros u s'. unfold m'; simpl. rewrite lookup_insert. case_decide; naive_solver. }
  assert (Hq : forall u q, <[id t := n]> o !! u = Some q ->
    u <> id t /\ o !! u = Some q /\ q < n \/ u = id t /\ q = n).
  { intros u q. rewrite lookup_insert. case_decide; [naive_solver|]. intros Hu.
    left. split_and!; [naive_solver|done|by eapply ii_seq_bound0]. }
  assert (Hfin : forall c, finished m' c <-> finished m c).
  { intros c. unfold finished, m'; simpl. rewrite lookup_insert. case_decide as E; [|done].
    rewrite <- E, Hst. naive_solver. }
  assert (Hh : forall c, c ∈ h -> c_id c <> id t) by (intros c Hin; eauto).
  assert (Hl : last_writes m' = last_writes m) by by apply last_frame.
  assert (Hsz : Z.of_nat (size (<[id t := n]> o)) = n + 1).
  { rewrite map_size_insert_None by done. unfold n. lia. }
  split; try rewrite Hsz; try done.
  - intros u s' [[_ ?]|[-> _]]%Hlook; eauto.
  - intros u q [(_ & ? & _)|[-> _]]%Hq; eauto.
  - intros u s' [[_ ?]|[-> ->]]%Hlook; simpl; eauto.
  - intros u a Hu Hp. unfold m'; simpl. rewrite lookup_insert. case_decide; eauto.
  - intros c s' Hin [[_ ?]|[E ->]]%Hlook; [eauto|]. by apply Hh in E.
  - intros u q [(_ & _ & ?)|[-> ->]]%Hq; lia.
  - intros t1 t2 q [(? & ? & ?)|[-> ?]]%Hq [(? & ? & ?)|[-> ?]]%Hq; eauto; lia.
  - intros u s' [[? ?]|[-> ->]]%Hlook; [rewrite lookup_insert_ne by done; eauto|].
    rewrite lookup_insert_eq. split; eauto.
  - intros c Hin. rewrite lookup_insert_ne; [eauto|]. intros E. by apply (Hh c).
  - intros t1 t2 s1 s2 q1 q2 [[? Ht1]|[-> ->]]%Hlook [[? ?]|[-> ->]]%Hlook
      [(? & Ho1 & ?)|[? ?]]%Hq [(? & ? & ?)|[? ?]]%Hq Hlt; try lia; try congruence; eauto.
    rewrite checks_validated. apply (Hc t1); [done..|]. apply (ii_seq_validated0 _ _ Ht1). by rewrite Ho1.
  - intros u s' q c [[? ?]|[-> ->]]%Hlook [(? & ? & ?)|[? ->]]%Hq Hin Hne; try congruence; eauto.
    pose proof (ii_seq_bound0 _ _ (ii_seq_hist0 _ Hin)) as Hb.
    split_and!; intros Hlt; [|unfold n in *; lia..]. unfold respects. rewrite checks_validated. simpl.
    by eapply (validation_respects m).
  - intros c k u s' Hin Hf Hk Hu Hlt. rewrite Hl. apply Hfin in Hf.
    apply Hlook in Hu as [[_ ?]|[-> ->]]; [eauto|]. eapply (ii_cache0 c k (id t) st); eauto.
  - intros c1 c2 k. rewrite !Hfin. eauto.
  - intros u a s' Hu [[_ ?]|[-> ->]]%Hlook Hp; [eauto|]. rewrite checks_validated. eauto.
Qed.

Lemma commit_Ok t m c m' :
  commit t m = (Ok c, m') ->
  active_txns m !! id t = Some (mkActiveTxnState (isolation t) (start_ts t)) /\
  cr_commit_ts c = commit_ts m + 1 /\
  m' = set_active (set_commit_ts m (commit_ts m + 1)) (delete (id t) (active_txns m)).
Proof.
  unfold commit, allocate_commit_ts.
  destruct (assert_active_transaction m t) as [a|] eqn:Ea; [|done].
  destruct (checked_add u64_max (commit_ts m) 1) as [n|] eqn:Ec; [|done].
  apply checked_add_Some in Ec as [-> _]. apply assert_active_Ok in Ea as [Ea ->].
  intros [= <- <-]. done.
Qed.

Lemma inv_commit m o h t st ts q :
  iso_inv m o h -> active_txns m !! id t = Some (mkActiveTxnState (isolation t) (start_ts t)) ->
  tracked_txns m !! id t = Some st -> validated st = true -> o !! id t = Some q ->
  ts = commit_ts m + 1 ->
  iso_inv (set_active (set_commit_ts m ts) (delete (id t) (active_txns m))) o
    (mkCommitted (id t) st ts q :: h).
Proof.
  intros [] Hact Hst Hv Hq ->. set (m' := set_active _ _).
  assert (Hl : last_writes m' = last_writes m) by by apply last_frame.
  assert (Ha : forall u a, active_txns m' !! u = Some a -> active_txns m !! u = Some a /\ u <> id t).
  { intros u a. unfold m'; simpl. rewrite lookup_delete. case_decide; naive_solver. }
  assert (Hnf : ~ finished m' (mkCommitted (id t) st (commit_ts m + 1) q)).
  { unfold finished; simpl. congruence. }
  pose proof (ii_start0 _ _ Hst) as Hstart.
  split; simpl; try setoid_rewrite elem_of_cons; try done.
  - intros u a [? _]%Ha. eauto.
  - intros u s' ?. assert (s_start_ts s' <= commit_ts m) by eauto. lia.
  - intros c [->|Hin]; simpl; [lia|]. pose proof (ii_hist_ts0 _ Hin). lia.
  - intros u a c [? ?]%Ha [->|?]; simpl; eauto.
  - intros u a [? _]%Ha. eauto.
  - apply NoDup_cons. split; [|done].
    intros (c & E & Hin)%list_elem_of_fmap. by destruct (ii_active_hist0 _ _ _ Hact Hin).
  - intros c s' [->|?]; simpl; [naive_solver|eauto].
  - intros c [->|?]; simpl; eauto.
  - intros u s' q' c Hu Hq' [->|?] Hne; simpl in *; [|eauto].
    pose proof (ii_start0 _ _ Hu).
    split_and!; intros ?; [left; eapply (ii_inflight0 (id t) u); eauto
      |eapply (ii_inflight0 u (id t)); eauto|lia].
  - intros c1 c2 [->|Hc1] [->|Hc2] Hne; simpl in *; [done|..|by eauto].
    + destruct (ii_pending0 (id t) st q c2) as (_ & ? & _); eauto.
      pose proof (ii_hist_ts0 _ Hc2). split; [left; eauto|lia].
    + destruct (ii_pending0 (id t) st q c1) as (? & _ & ?); eauto.
  - intros c k u s' [->|Hin] Hf Hk Hu Hlt; [done|]. rewrite Hl. eauto.
  - intros c1 c2 k [->|Hc1] [->|Hc2] Hf1 Hf2; simpl; [done|done| |eauto].
    intros _ _. pose proof (ii_hist_ts0 _ Hc1). lia.
  - intros u a s' [? _]%Ha. eauto.
Qed.

Lemma update_tracked_inv f txn m o h a m' res :
  iso_inv m o h -> active_txns m !! txn = Some a -> participates (a_isolation a) = true ->
  not_validated m txn ->
  (forall st, validated (f st) = validated st /\ s_start_ts (f st) = s_start_ts st) ->
  update_tracked f txn m = (res, m') -> iso_inv m' o h.
Proof.
  intros Hinv Ha Hp Hnv Hf. unfold update_tracked. rewrite Ha. intros [= <- <-].
  destruct (ii_active_tracked _ _ _ Hinv _ _ Ha Hp) as [st Hst]. rewrite Hst. simpl.
  eapply (inv_unvalidated m); eauto; simpl; try done.
  - by apply last_frame.
  - by eapply (ii_active_id _ _ _ Hinv).
  - apply eq_None_not_Some. rewrite <- (ii_seq_validated _ _ _ Hinv _ _ Hst), (Hnv _ Hst). done.
  - congruence.
  - rewrite (proj1 (Hf st)). by apply Hnv.
  - right. exists st. split; [done|]. apply Hf.
Qed.

Lemma begin_inv iso m o h t m' : iso_inv m o h -> begin iso m = (Ok t, m') -> iso_inv m' o h.
Proof.
  intros Hinv. unfold begin, allocate_txn_id.
  destruct (checked_add u64_max (next_txn_id m) 1) as [n|] eqn:Ec; [|done].
  apply checked_add_Some in Ec as [-> _]. destruct (next_txn_id m =? 0); [done|].
  simpl. intros [= _ <-].
  assert (Ha : forall u (a : ActiveTxnState),
    <[next_txn_id m := mkActiveTxnState iso (commit_ts m)]> (active_txns m) !! u = Some a ->
    active_txns m !! u = Some a \/ u = next_txn_id m /\ a = mkActiveTxnState iso (commit_ts m)).
  { intros u a. rewrite lookup_insert. case_decide; naive_solver. }
  case_decide as Hiso.
  - eapply (inv_active m); eauto; simpl; try done; [by apply last_frame|lia|].
    intros u a [?|[-> ->]]%Ha; [by left|right]. simpl. subst iso.
    rewrite participates_rc. split_and!; [lia|lia|done].
  - eapply (inv_unvalidated m _ _ _ (next_txn_id m)); eauto; simpl; try done;
      [by apply last_frame|lia|lia|..].
    + intros u a [?|[-> _]]%Ha; auto.
    + destruct (o !! next_txn_id m) eqn:E; [|done].
      pose proof (ii_order_id _ _ _ Hinv _ _ E). lia.
    + intros. apply checks_new.
Qed.

Lemma validate_inv t m o h res m' :
  iso_inv m o h -> validate_commit t m = (res, m') ->
  iso_inv m' (note_validation m' o (id t)) h.
Proof.
  intros Hinv Hop. pose proof Hop as Hop'.
  assert (Hsame : m' = m -> iso_inv m' (note_validation m' o (id t)) h).
  { intros ->. unfold note_validation. destruct (tracked_txns m !! id t) as [st|] eqn:Est; [|done].
    destruct (o !! id t) eqn:Eo; [done|]. destruct (validated st) eqn:Ev; [|done].
    apply (ii_seq_validated _ _ _ Hinv _ _ Est) in Ev as [? ?]. congruence. }
  unfold validate_commit in Hop.
  destruct (assert_active_transaction m t) as [a|] eqn:Ea; [|apply Hsame; by simplify_eq].
  apply assert_active_Ok in Ea as [Ea ->].
  case_decide as Hrc; [apply Hsame; by simplify_eq|].
  destruct (tracked_txns m !! id t) as [st|] eqn:Est; [|apply Hsame; by simplify_eq].
  repeat (case_match; [apply Hsame; by simplify_eq|]). simplify_eq.
  destruct (o !! id t) as [q|] eqn:Eo.
  - apply Hsame. assert (Hv : validated st = true).
    { apply (ii_seq_validated _ _ _ Hinv _ _ Est). by rewrite Eo. }
    assert (Hst : mark_validated st = st) by (destruct st; simpl in *; by subst).
    rewrite Hst, insert_id by done. by destruct m.
  - unfold note_validation at 1. simpl. rewrite lookup_insert_eq, Eo. by eapply inv_validate.
Qed.

Lemma finish_inv m o h txn ts res m' :
  iso_inv m o h ->
  (forall st, tracked_txns m !! txn = Some st -> writes st <> ∅ ->
     exists q, mkCommitted txn st ts q ∈ h) ->
  finish_commit txn ts m = (res, m') -> iso_inv m' o h.
Proof.
  intros Hinv Hg. unfold finish_commit. case_match; [by intros [= _ <-]|].
  destruct (active_txns m !! txn) eqn:Ea; [by intros [= _ <-]|].
  assert (Hact : forall u a, active_txns m !! u = Some a -> active_txns m !! u = Some a /\ u <> txn).
  { intros u a Hu. split; [done|]. congruence. }
  intros [= _ <-]. destruct (tracked_txns m !! txn) as [st|] eqn:Est.
  - eapply (inv_remove m _ o h txn (writes st) ts); eauto; simpl.
    + rewrite last_prune. simpl. f_equal. erewrite <- last_record. by apply last_frame.
    + intros st' c Hst'. congruence.
    + intros Hw. destruct (Hg st) as [q ?]; eauto.
  - eapply (inv_remove m _ o h txn ∅ ts); eauto; simpl.
    + by rewrite delete_id.
    + by rewrite last_prune, insert_all_empty.
    + congruence.
    + done.
Qed.

Lemma rollback_inv m o h txn m' :
  iso_inv m o h -> (forall c, c ∈ h -> c_id c <> txn) ->
  m' = prune_commit_caches (set_tracked (set_active m (delete txn (active_txns m)))
         (delete txn (tracked_txns m))) -> iso_inv m' o h.
Proof.
  intros Hinv Hh ->. eapply (inv_remove m _ o h txn ∅ 0); eauto; simpl.
  - rewrite last_prune, insert_all_empty. simpl. f_equal. by apply last_frame.
  - intros u a. rewrite lookup_delete. case_decide; naive_solver.
  - intros st c _ Hin E. by apply Hh in E.
  - done.
Qed.

Definition sys_inv (s : TxSystem) : Prop := iso_inv (mgr s) (order s) (history s).

Lemma tx_step_inv s s' : tx_step s s' -> sys_inv s -> sys_inv s'.
Proof.
  destruct 1 as [m o h iso t m' Hop|m o h txn r res m' Hnv Hop
    |m o h txn a tab tup res m' Ha Hp Hnv Hop|m o h txn a r res m' Ha Hp Hnv Hop
    |m o h t res m' Hop|m o h t st c q m' Hp Hst Hv Hq Hop
    |m o h t c m' Hp Hop|m o h txn ts res m' Hg Hop|m o h t res m' Hop|m o h txn res m' Ha Hh Hop];
    unfold sys_inv; simpl; intros Hinv.
  - by eapply begin_inv.
  - unfold record_relation_read in Hop. case_match; [by simplify_eq|].
    destruct (active_txns m !! txn) as [a|] eqn:Ha; [|by simplify_eq].
    case_decide as Hs; [|by simplify_eq].
    eapply (update_tracked_inv (add_read_relation r)); eauto.
    rewrite Hs. apply participates_ser.
  - unfold record_write in Hop. case_match; [by simplify_eq|].
    by eapply (update_tracked_inv (add_written_tuple (tab, tup))).
  - unfold record_relation_write in Hop. case_match; [by simplify_eq|].
    by eapply (update_tracked_inv (add_written_relation r)).
  - by eapply validate_inv.
  - apply commit_Ok in Hop as (Hact & Hts & ->). rewrite <- Hts. by apply inv_commit.
  - apply commit_Ok in Hop as (Hact & Hts & ->).
    eapply (inv_active m); eauto; simpl; [lia|by apply last_frame|lia|].
    intros u a. rewrite lookup_delete. case_decide; naive_solver.
  - by eapply finish_inv.
  - unfold rollback in Hop. destruct (assert_active_transaction m t) as [a|] eqn:Ea; [|by simplify_eq].
    apply assert_active_Ok in Ea as [Ea _]. simplify_eq.
    eapply (rollback_inv m); eauto. intros c Hin. by eapply (ii_active_hist _ _ _ Hinv).
  - unfold rollback_txn in Hop. case_match; [by simplify_eq|]. simplify_eq.
    apply (rollback_inv m o h txn); [done| |].
    + intros c Hin E. apply Hh. rewrite <- E. by apply list_elem_of_fmap_2.
    + by rewrite (delete_id (active_txns m)).
Qed.

Lemma initial_inv : sys_inv initial_tx_system.
Proof.
  split; simpl; try (intros *; rewrite ?lookup_empty; done); try (by intros * ?%elem_of_nil).
  constructor.
Qed.

Lemma reachable_inv s : rtc tx_step initial_tx_system s -> sys_inv s.
Proof.
  intros Hr. assert (Hi := initial_inv). induction Hr as [|s1 s2 s3 Hs _ IH]; [done|].
  by eapply IH, tx_step_inv.
Qed.

(** [c1] must come before [c2] in any equivalent serial order: [c2] looked at a key
    that [c1] had committed before [c2] started, or [c1] looked at a key that [c2]
    wrote and had not committed when [c1] started. *)
Definition depends (h : list Committed) (c1 c2 : Committed) : Prop :=
  c1 ∈ h /\ c2 ∈ h /\ c_id c1 <> c_id c2 /\
  ((c_ts c1 <= s_start_ts (c_state c2) /\
     exists k, k ∈ writes (c_state c1) /\ k ∈ checks (c_state c2)) \/
   (s_start_ts (c_state c1) < c_ts c2 /\
     exists k, k ∈ checks (c_state c1) /\ k ∈ writes (c_state c2))).

Lemma depends_seq s c1 c2 : sys_inv s -> depends (history s) c1 c2 -> c_seq c1 < c_seq c2.
Proof.
  intros [] (Hc1 & Hc2 & Hne & [[Hle _]|(Hlt & k & Hk1 & Hk2)]).
  - by apply (ii_history0 c1 c2).
  - destruct (Z.lt_trichotomy (c_seq c1) (c_seq c2)) as [?|[E|Hgt]]; [done|..]; exfalso.
    + apply Hne, (ii_seq_inj0 _ _ (c_seq c1)); [auto|]. rewrite E. auto.
    + destruct (ii_history0 c2 c1) as [Hh _]; auto. destruct (Hh Hgt); [set_solver|lia].
Qed.

Lemma depends_acyclic s c : sys_inv s -> ~ tc (depends (history s)) c c.
Proof.
  intros Hinv Hc. assert (Hlt : forall a b, tc (depends (history s)) a b -> c_seq a < c_seq b).
  { induction 1 as [a b Hab|a b d Hab _ IH]; pose proof (depends_seq _ _ _ Hinv Hab); lia. }
  specialize (Hlt _ _ Hc). lia.
Qed.

End Protocol.

(** ** The two levels *)

(** Tuples: every transaction above read committed is checked against the tuples it
    wrote. *)
#[global] Instance tuple_level : ConflictLevel (Z * Z) := {
  participates iso := bool_decide (iso <> ReadCommitted);
  writes := written_tuples;
  checks := written_tuples;
  last_writes := last_tuple_write_commit
}.

(** Relations: serializable transactions are checked against what they read and wrote. *)
#[global] Instance relation_level : ConflictLevel Z := {
  participates iso := bool_decide (iso = Serializable);
  writes := written_relations;
  checks := checked_relations;
  last_writes := last_relation_write_commit
}.

Lemma validate_commit_Ok t m m' st :
  validate_commit t m = (Ok tt, m') -> isolation t <> ReadCommitted ->
  tracked_txns m !! id t = Some st ->
  written_since (last_tuple_write_commit m) (written_tuples st) (s_start_ts st) = false /\
  inflight_conflict m (id t) st (bool_decide (isolation t = Serializable)) = false /\
  bool_decide (isolation t = Serializable) &&
    written_since (last_relation_write_commit m) (checked_relations st) (s_start_ts st) = false.
Proof.
  unfold validate_commit. intros Hv Hiso Hst.
  destruct (assert_active_transaction m t); [|done]. rewrite decide_False, Hst in Hv by done.
  by repeat (case_match; [done|]).
Qed.

#[global] Instance tuple_level_laws : ConflictLevelLaws (Z * Z).
Proof.
  split; try done.
  - intros t m m' st Hv Hp%bool_decide_eq_true Hst.
    destruct (validate_commit_Ok _ _ _ _ Hv Hp Hst) as (H1 & H2 & _).
    rewrite written_since_false in H1. rewrite inflight_conflict_false in H2.
    split; [done|]. intros o ost Ho Hne Hval. by apply (H2 o).
Qed.

#[global] Instance relation_level_laws : ConflictLevelLaws Z.
Proof.
  split; try done.
  - intros st. simpl. unfold checked_relations. set_solver.
  - intros t m m' st Hv Hs%bool_decide_eq_true Hst.
    destruct (validate_commit_Ok t m m' st Hv) as (_ & H2 & H3); [by rewrite Hs|done|].
    rewrite bool_decide_eq_true_2 in H2, H3 by done. simpl in H3.
    rewrite written_since_false in H3. rewrite inflight_conflict_false in H2.
    split; [done|]. intros o ost Ho Hne Hval. by apply (H2 o).
Qed.

(** ** Theorems *)

(** [C17] First committer wins.  In every interleaving of snapshot-isolation and
    serializable transactions, two committed transactions that wrote the same tuple
    did not overlap: one had committed when the other started.  No update is lost,
    although validation, commit and the recording of a commit's writes are separate
    operations that other transactions can run between. *)
Theorem first_committer_wins s c1 c2 k :
  rtc (tx_step (K := Z * Z)) initial_tx_system s ->
  c1 ∈ history s -> c2 ∈ history s -> c_id c1 <> c_id c2 ->
  k ∈ written_tuples (c_state c1) -> k ∈ written_tuples (c_state c2) ->
  c_ts c1 <= s_start_ts (c_state c2) \/ c_ts c2 <= s_start_ts (c_state c1).
Proof.
  intros Hr Hc1 Hc2 Hne Hk1 Hk2. apply reachable_inv in Hr.
  destruct (decide (c_ts c1 <= s_start_ts (c_state c2))) as [|Hn1]; [by left|right].
  apply Z.nlt_ge. intros Hn2. apply (depends_acyclic s c1 Hr).
  eapply tc_l, tc_once; [split_and!; [exact Hc1|exact Hc2|done|]|split_and!; [done..|]];
    right; (split; [lia|]); by exists k.
Qed.

(** [C2] Serializability.  When all writers run at the serializable level, the
    dependencies between committed transactions never form a cycle, so running them
    one after the other in the order they passed validation gives every transaction
    the relations it saw: no write skew and no longer anomaly of that kind. *)
Theorem serializable_acyclic s c :
  rtc (tx_step (K := Z)) initial_tx_system s -> ~ tc (depends (K := Z) (history s)) c c.
Proof. intros Hr. by apply depends_acyclic, reachable_inv. Qed.

Ltac tx_guard :=
  first
    [ intros st Hst; vm_compute in Hst; simplify_eq; try done; eexists; left
    | vm_compute; reflexivity ].

Definition ser_handle (t ts : Z) : ActiveTransaction :=
  mkActiveTransaction t Serializable ts (mkSnapshot t (t + 1) []).

(** A run in which transaction 2 starts after 1 committed its update of tuple
    [(10, 5)] and then updates the tuple again. *)
Definition serial_state (start : Z) : SerializableTxnState :=
  mkTracked start ∅ ∅ {[(10, 5)]} true.

Lemma first_committer_wins_witness :
  exists s, rtc (tx_step (K := Z * Z)) initial_tx_system s /\
    history s = [mkCommitted 2 (serial_state 1) 2 1; mkCommitted 1 (serial_state 0) 1 0] /\
    (1 <= s_start_ts (serial_state 1) \/ 2 <= s_start_ts (serial_state 0)).
Proof.
  assert (Hrun : exists s, rtc (tx_step (K := Z * Z)) initial_tx_system s /\
    history s = [mkCommitted 2 (serial_state 1) 2 1; mkCommitted 1 (serial_state 0) 1 0]).
  { eexists. split.
    - eapply rtc_l; [eapply (ts_begin _ _ _ Serializable); tx_guard|].
      eapply rtc_l; [eapply (ts_write_tuple _ _ _ 1 _ 10 5); tx_guard|].
      eapply rtc_l; [eapply (ts_validate _ _ _ (ser_handle 1 0)); tx_guard|].
      eapply rtc_l; [eapply (ts_commit _ _ _ (ser_handle 1 0)); tx_guard|].
      eapply rtc_l; [eapply (ts_finish _ _ _ 1 1); tx_guard|].
      eapply rtc_l; [eapply (ts_begin _ _ _ Serializable); tx_guard|].
      eapply rtc_l; [eapply (ts_write_tuple _ _ _ 2 _ 10 5); tx_guard|].
      eapply rtc_l; [eapply (ts_validate _ _ _ (ser_handle 2 1)); tx_guard|].
      eapply rtc_l; [eapply (ts_commit _ _ _ (ser_handle 2 1)); tx_guard|].
      apply rtc_refl.
    - vm_compute. reflexivity. }
  destruct Hrun as (s & Hr & Hh). exists s. split; [done|]. split; [done|].
  apply (first_committer_wins s (mkCommitted 1 (serial_state 0) 1 0)
           (mkCommitted 2 (serial_state 1) 2 1) (10, 5)); rewrite ?Hh.
  - done.
  - right. left.
  - left.
  - done.
  - vm_compute. reflexivity.
  - vm_compute. reflexivity.
Defined.

(** Write skew: 1 reads relation 7 and writes 8, 2 reads 8 and writes 7.  Both
    start at 0; the first to validate commits, and its history is acyclic. *)
Lemma serializable_acyclic_witness :
  exists s, length (history s) = 1%nat /\
    fst (validate_commit (ser_handle 2 0) (mgr s)) = Err (Transaction SerializationFailure) /\
    forall c, ~ tc (depends (K := Z) (history s)) c c.
Proof.
  assert (Hrun : exists s, rtc (tx_step (K := Z)) initial_tx_system s /\
    length (history s) = 1%nat /\
    fst (validate_commit (ser_handle 2 0) (mgr s)) = Err (Transaction SerializationFailure)).
  { eexists. split.
    - eapply rtc_l; [eapply (ts_begin _ _ _ Serializable); tx_guard|].
      eapply rtc_l; [eapply (ts_begin _ _ _ Serializable); tx_guard|].
      eapply rtc_l; [eapply (ts_read _ _ _ 1 7); tx_guard|].
      eapply rtc_l; [eapply (ts_write_relation _ _ _ 1 _ 8); tx_guard|].
      eapply rtc_l; [eapply (ts_read _ _ _ 2 8); tx_guard|].
      eapply rtc_l; [eapply (ts_write_relation _ _ _ 2 _ 7); tx_guard|].
      eapply rtc_l; [eapply (ts_validate _ _ _ (ser_handle 1 0)); tx_guard|].
      eapply rtc_l; [eapply (ts_commit _ _ _ (ser_handle 1 0)); tx_guard|].
      apply rtc_refl.
    - split; vm_compute; reflexivity. }
  destruct Hrun as (s & Hr & Hl & Hv). exists s. split; [done|]. split; [done|].
  intros c. by apply serializable_acyclic.
Defined.

(** A commit that finishes late overwrites a newer timestamp in the cache.  Two
    read-committed transactions write relation 7; 1 commits at 1, serializable
    transaction 2 starts at 1 and reads the relation, 3 commits at 2.  When 3
    finishes before 1, the cache says 1 and transaction 2 validates; when they
    finish in commit order it is refused. *)
Definition late_finish (first second : Z) : DbResult unit :=
  let m1 := snd (record_relation_write 1 7 (snd (begin ReadCommitted default_tx_manager))) in
  let m2 := snd (commit (mkActiveTransaction 1 ReadCommitted 0 (mkSnapshot 1 2 [])) m1) in
  let m3 := snd (record_relation_read 2 7 (snd (begin Serializable m2))) in
  let m4 := snd (record_relation_write 3 7 (snd (begin ReadCommitted m3))) in
  let m5 := snd (commit (mkActiveTransaction 3 ReadCommitted 1 (mkSnapshot 2 4 [2])) m4) in
  let ts t := if t =? 1 then 1 else 2 in
  let m6 := snd (finish_commit first (ts first) m5) in
  fst (validate_commit (ser_handle 2 1) (snd (finish_commit second (ts second) m6))).

Lemma late_finish_hides_commit :
  late_finish 1 3 = Err (Transaction SerializationFailure) /\ late_finish 3 1 = Ok tt.
Proof. vm_compute. done. Qed.
