(* ===== verification/TxnRecord.v ===== *)
(** * Distributed transaction records ([crates/aiondb-tx/src/distributed_record.rs])

    The registry of transaction records and its state machine
    Pending -> Staging -> Committed | Aborted.  The map sits behind one mutex that
    every method holds for its whole body, so each method is one function on the
    registry. *)

From S2P Require Import Prelude Hlc.

Record DistributedTxnId := mkTxnId { coordinator : Z; txn_start_ts : HlcTimestamp; seq : Z }.

#[global] Instance DistributedTxnId_eq_dec : EqDecision DistributedTxnId.
Proof. solve_decision. Defined.

#[global] Instance DistributedTxnId_countable : Countable DistributedTxnId.
Proof.
  refine (inj_countable' (fun t => (coordinator t, txn_start_ts t, seq t))
            (fun p => mkTxnId p.1.1 p.1.2 p.2) _).
  by intros [].
Defined.

#[global] Instance DistributedTxnId_ord : RustOrd DistributedTxnId := fun a b =>
  cmp (coordinator a, (txn_start_ts a, seq a)) (coordinator b, (txn_start_ts b, seq b)).

#[global] Instance DistributedTxnId_ord_laws : RustOrdLaws DistributedTxnId.
Proof.
  apply (inj_ord_laws (fun t => (coordinator t, (txn_start_ts t, seq t))) _); [done|].
  intros [] []; simpl; congruence.
Qed.

Inductive DistributedTxnStatus : Type := Pending | Staging | Committed | Aborted.

#[global] Instance DistributedTxnStatus_eq_dec : EqDecision DistributedTxnStatus.
Proof. solve_decision. Defined.

Definition is_final (s : DistributedTxnStatus) : bool :=
  match s with Committed | Aborted => true | Pending | Staging => false end.

Record KeySpan := mkKeySpan { start_key : list Z; end_key : list Z }.

#[global] Instance KeySpan_eq_dec : EqDecision KeySpan.
Proof. solve_decision. Defined.

Record DistributedTxnRecord := mkRecord {
  rec_id : DistributedTxnId;
  status : DistributedTxnStatus;
  last_heartbeat : HlcTimestamp;
  rec_commit_ts : HlcTimestamp;
  write_spans : list KeySpan;
  read_spans : list KeySpan;
  priority : Z
}.

Definition new_record (i : DistributedTxnId) (now : HlcTimestamp) (prio : Z) :
    DistributedTxnRecord :=
  mkRecord i Pending now ZERO [] [] prio.

Inductive TxnTransitionError : Type :=
| Unknown
| InvalidTransition (from to : DistributedTxnStatus).

Record DistributedTxnRegistry := mkRegistry {
  records : gmap DistributedTxnId DistributedTxnRecord;
  expiration_us : Z
}.

(** [Duration::as_micros] is a [u128]; [expiration] is its value. *)
Definition with_expiration (expiration : Z) : DistributedTxnRegistry :=
  mkRegistry ∅ (if expiration <=? u64_max then expiration else u64_max).

(** ** Field updates *)

Definition put (g : DistributedTxnRegistry) (i : DistributedTxnId) (r : DistributedTxnRecord) :
    DistributedTxnRegistry :=
  mkRegistry (<[i := r]> (records g)) (expiration_us g).

Definition set_status (r : DistributedTxnRecord) (s : DistributedTxnStatus) :
    DistributedTxnRecord :=
  mkRecord (rec_id r) s (last_heartbeat r) (rec_commit_ts r) (write_spans r) (read_spans r)
    (priority r).
Definition set_heartbeat (r : DistributedTxnRecord) (t : HlcTimestamp) : DistributedTxnRecord :=
  mkRecord (rec_id r) (status r) t (rec_commit_ts r) (write_spans r) (read_spans r) (priority r).
Definition set_committed (r : DistributedTxnRecord) (t : HlcTimestamp) : DistributedTxnRecord :=
  mkRecord (rec_id r) Committed (last_heartbeat r) t (write_spans r) (read_spans r) (priority r).
Definition set_write_spans (r : DistributedTxnRecord) (s : list KeySpan) : DistributedTxnRecord :=
  mkRecord (rec_id r) (status r) (last_heartbeat r) (rec_commit_ts r) s (read_spans r)
    (priority r).
Definition set_read_spans (r : DistributedTxnRecord) (s : list KeySpan) : DistributedTxnRecord :=
  mkRecord (rec_id r) (status r) (last_heartbeat r) (rec_commit_ts r) (write_spans r) s
    (priority r).

(** ** Operations *)

Abbreviation Transition := (Result TxnTransitionError).

Definition register (i : DistributedTxnId) (now : HlcTimestamp) (prio : Z)
    (g : DistributedTxnRegistry) : bool * DistributedTxnRegistry :=
  match records g !! i with
  | Some _ => (false, g)
  | None => (true, put g i (new_record i now prio))
  end.

Definition get (i : DistributedTxnId) (g : DistributedTxnRegistry) : option DistributedTxnRecord :=
  records g !! i.

(** The common shape of the mutating methods: [get_mut(&id).ok_or(Unknown)?], then an
    in-place update [f] or an error. *)
Definition modify {A} (i : DistributedTxnId)
    (f : DistributedTxnRecord -> Transition (A * DistributedTxnRecord))
    (g : DistributedTxnRegistry) : Transition A * DistributedTxnRegistry :=
  match records g !! i with
  | None => (Err Unknown, g)
  | Some r =>
      match f r with
      | Ok (a, r') => (Ok a, put g i r')
      | Err e => (Err e, g)
      end
  end.

Definition heartbeat (i : DistributedTxnId) (now : HlcTimestamp) :=
  modify i (fun r =>
    let r' := if negb (is_final (status r)) && ord_ltb (last_heartbeat r) now
              then set_heartbeat r now else r in
    Ok (r', r')).

Definition declare_write_spans (i : DistributedTxnId) (spans : list KeySpan) :=
  modify i (fun r =>
    if is_final (status r) then Err (InvalidTransition (status r) (status r))
    else Ok (tt, set_write_spans r spans)).

Definition declare_read_spans (i : DistributedTxnId) (spans : list KeySpan) :=
  modify i (fun r =>
    if is_final (status r) then Err (InvalidTransition (status r) (status r))
    else Ok (tt, set_read_spans r spans)).

Definition stage (i : DistributedTxnId) :=
  modify i (fun r =>
    match status r with
    | Pending | Staging => let r' := set_status r Staging in Ok (r', r')
    | Committed | Aborted => Err (InvalidTransition (status r) Staging)
    end).

Definition commit (i : DistributedTxnId) (ts : HlcTimestamp) :=
  modify i (fun r =>
    match status r with
    | Pending | Staging => let r' := set_committed r ts in Ok (r', r')
    | Committed =>
        if decide (rec_commit_ts r = ts) then Ok (r, r)
        else Err (InvalidTransition (status r) Committed)
    | Aborted => Err (InvalidTransition (status r) Committed)
    end).

Definition abort (i : DistributedTxnId) :=
  modify i (fun r =>
    match status r with
    | Pending | Staging => let r' := set_status r Aborted in Ok (r', r')
    | Aborted => Ok (r, r)
    | Committed => Err (InvalidTransition (status r) Aborted)
    end).

Definition forget (i : DistributedTxnId) (g : DistributedTxnRegistry) :
    Transition DistributedTxnRecord * DistributedTxnRegistry :=
  match records g !! i with
  | None => (Err Unknown, g)
  | Some r =>
      if is_final (status r) then
        (Ok r, mkRegistry (delete i (records g)) (expiration_us g))
      else (Err (InvalidTransition (status r) (status r)), g)
  end.

(** The heartbeat-age test [expired] and [push] share. *)
Definition heartbeat_expired (g : DistributedTxnRegistry) (now : HlcTimestamp)
    (r : DistributedTxnRecord) : bool :=
  expiration_us g <? saturating_sub (wall_time_us now) (wall_time_us (last_heartbeat r)).

(** [sort_by_key(|r| r.id)] over the values of the map. *)
Definition sorted_records (l : list DistributedTxnRecord) : list DistributedTxnRecord :=
  merge_sort (fun a b => ord_le (rec_id a) (rec_id b)) l.

Definition expired (now : HlcTimestamp) (g : DistributedTxnRegistry) : list DistributedTxnRecord :=
  sorted_records
    (filter (fun r => is_final (status r) = false /\ heartbeat_expired g now r = true)
       (map_to_list (records g)).*2).

Definition push (target : DistributedTxnId) (pusher_priority : Z) (now : HlcTimestamp)
    (g : DistributedTxnRegistry) :=
  modify target (fun r =>
    if is_final (status r) then Ok (r, r)
    else
      let r' := if (priority r <? pusher_priority) || heartbeat_expired g now r
                then set_status r Aborted else r in
      Ok (r', r')) g.

Definition snapshot (g : DistributedTxnRegistry) : list DistributedTxnRecord :=
  sorted_records (map_to_list (records g)).*2.

Definition try_register (i : DistributedTxnId) (now : HlcTimestamp) (prio : Z)
    (g : DistributedTxnRegistry) : DbResult unit * DistributedTxnRegistry :=
  match register i now prio g with
  | (true, g') => (Ok tt, g')
  | (false, g') => (Err Internal, g')
  end.

(** ** Runs

    The operations any node may call on the shared registry, in any order. *)

Inductive RecordOp : Type :=
| OpRegister (i : DistributedTxnId) (now : HlcTimestamp) (prio : Z)
| OpHeartbeat (i : DistributedTxnId) (now : HlcTimestamp)
| OpWriteSpans (i : DistributedTxnId) (s : list KeySpan)
| OpReadSpans (i : DistributedTxnId) (s : list KeySpan)
| OpStage (i : DistributedTxnId)
| OpCommit (i : DistributedTxnId) (ts : HlcTimestamp)
| OpAbort (i : DistributedTxnId)
| OpForget (i : DistributedTxnId)
| OpPush (i : DistributedTxnId) (prio : Z) (now : HlcTimestamp).

(** The record status an operation reported, if it reported a record. *)
Definition reported (res : Transition DistributedTxnRecord * DistributedTxnRegistry) :
    option DistributedTxnRecord * DistributedTxnRegistry :=
  (match fst res with Ok r => Some r | Err _ => None end, snd res).

Definition apply_op (op : RecordOp) (g : DistributedTxnRegistry) :
    option DistributedTxnRecord * DistributedTxnRegistry :=
  match op with
  | OpRegister i now p => (None, snd (register i now p g))
  | OpHeartbeat i now => reported (heartbeat i now g)
  | OpWriteSpans i s => (None, snd (declare_write_spans i s g))
  | OpReadSpans i s => (None, snd (declare_read_spans i s g))
  | OpStage i => reported (stage i g)
  | OpCommit i ts => reported (commit i ts g)
  | OpAbort i => reported (abort i g)
  | OpForget i => reported (forget i g)
  | OpPush i p now => reported (push i p now g)
  end.

(** A run, with what each operation reported, oldest first. *)
Fixpoint run_ops (ops : list RecordOp) (g : DistributedTxnRegistry) :
    list (option DistributedTxnRecord) * DistributedTxnRegistry :=
  match ops with
  | [] => ([], g)
  | op :: rest =>
      let '(r, g1) := apply_op op g in
      let '(rs, g2) := run_ops rest g1 in
      (r :: rs, g2)
  end.

(** How one record may change: a final record is frozen, otherwise the status moves
    forward and the heartbeat does not go back. *)
Definition record_le (r r' : DistributedTxnRecord) : Prop :=
  rec_id r' = rec_id r /\ priority r' = priority r /\
  ord_le (last_heartbeat r) (last_heartbeat r') /\
  (is_final (status r) = true -> r' = r) /\
  (status r = Staging -> status r' <> Pending).

Definition registry_wf (g : DistributedTxnRegistry) : Prop :=
  forall i r, records g !! i = Some r ->
    rec_id r = i /\ (status r <> Committed -> rec_commit_ts r = ZERO).

Lemma record_le_refl r : record_le r r.
Proof. split_and!; try done; [apply ord_le_refl|congruence]. Qed.

Lemma record_le_trans r1 r2 r3 : record_le r1 r2 -> record_le r2 r3 -> record_le r1 r3.
Proof.
  intros (A1 & A2 & A3 & A4 & A5) (B1 & B2 & B3 & B4 & B5). split_and!; try congruence.
  - by eapply ord_le_trans.
  - intros Hf. specialize (A4 Hf) as ->. auto.
  - intros Hs. destruct (status r2) eqn:E2; try by auto.
    + by destruct (A5 Hs).
    + rewrite (B4 eq_refl). congruence.
    + rewrite (B4 eq_refl). congruence.
Qed.

#[export] Hint Resolve record_le_refl : aion.

Lemma modify_frame {A} i (f : DistributedTxnRecord -> Transition (A * DistributedTxnRecord)) g j r :
  (forall r a r', f r = Ok (a, r') -> record_le r r') ->
  records g !! j = Some r ->
  exists r', records (snd (modify i f g)) !! j = Some r' /\ record_le r r'.
Proof.
  intros Hf Hj. unfold modify. destruct (records g !! i) as [ri|] eqn:Ei; eauto with aion.
  destruct (f ri) as [[a r']|e] eqn:Ef; eauto with aion. simpl.
  rewrite lookup_insert. case_decide as E; [|eauto with aion].
  exists r'. split; [done|]. apply (Hf _ a). congruence.
Qed.

Ltac record_case :=
  intros [? [] ? ? ? ? ?] ? ? ?; simplify_eq/=; repeat case_match; simplify_eq/=;
  split_and!; simpl; try done; try apply ord_le_refl.

Lemma apply_op_frame op g j r :
  op <> OpForget j -> records g !! j = Some r ->
  exists r', records (snd (apply_op op g)) !! j = Some r' /\ record_le r r'.
Proof.
  intros Hop Hj. destruct op as [i now p|i now|i s|i s|i|i ts|i|i|i p now]; simpl.
  - unfold register. destruct (records g !! i) eqn:Ei; simpl; [eauto with aion|].
    rewrite lookup_insert_ne by congruence. eauto with aion.
  - apply modify_frame; [|done]. record_case.
    all: apply ord_lt_le; by destruct (ord_ltb_spec last_heartbeat0 now).
  - apply modify_frame; [|done]. record_case.
  - apply modify_frame; [|done]. record_case.
  - apply modify_frame; [|done]. record_case.
  - apply modify_frame; [|done]. record_case.
  - apply modify_frame; [|done]. record_case.
  - unfold forget. destruct (records g !! i) as [ri|] eqn:Ei; simpl; [|eauto with aion].
    case_match; simpl; [|eauto with aion]. rewrite lookup_delete_ne by congruence. eauto with aion.
  - apply modify_frame; [|done]. record_case.
Qed.

Lemma run_ops_frame ops g j r :
  OpForget j ∉ ops -> records g !! j = Some r ->
  exists r', records (snd (run_ops ops g)) !! j = Some r' /\ record_le r r'.
Proof.
  revert g r. induction ops as [|op ops IH]; intros g r Hn Hj; simpl; [eauto with aion|].
  apply not_elem_of_cons in Hn as [Hop Hn].
  destruct (apply_op_frame op g j r) as (r1 & H1 & Hle1); [congruence|done|].
  destruct (apply_op op g) as [res g1]. simpl in H1.
  destruct (IH g1 r1 Hn H1) as (r2 & H2 & Hle2).
  destruct (run_ops ops g1) as [rs g2]. simpl in *. exists r2. split; [done|].
  by eapply record_le_trans.
Qed.

Lemma run_ops_app ops1 ops2 g :
  snd (run_ops (ops1 ++ ops2) g) = snd (run_ops ops2 (snd (run_ops ops1 g))).
Proof.
  revert g. induction ops1 as [|op ops1 IH]; intros g; [done|]. simpl.
  destruct (apply_op op g) as [r g1]. specialize (IH g1).
  destruct (run_ops (ops1 ++ ops2) g1), (run_ops ops1 g1). done.
Qed.

(** An operation that reports a record reports the state it leaves behind. *)
Lemma modify_reported i f g r :
  (forall r a r', f r = Ok (a, r') -> a = r') ->
  fst (reported (modify i f g)) = Some r -> records (snd (modify i f g)) !! i = Some r.
Proof.
  unfold modify, reported. intros Hf. destruct (records g !! i) as [ri|]; simpl; [|done].
  destruct (f ri) as [[a r']|e] eqn:Ef; simpl; [|done]. intros [= <-].
  rewrite (Hf _ _ _ Ef). apply lookup_insert_eq.
Qed.

(** The transaction whose record an operation reports. *)
Definition reports_on (op : RecordOp) : option DistributedTxnId :=
  match op with
  | OpHeartbeat i _ | OpStage i | OpCommit i _ | OpAbort i | OpPush i _ _ => Some i
  | _ => None
  end.

Lemma apply_op_reported op i g r :
  reports_on op = Some i -> fst (apply_op op g) = Some r ->
  records (snd (apply_op op g)) !! i = Some r.
Proof.
  destruct op; simpl; intros [= ->]; apply modify_reported;
    intros [? [] ? ? ? ? ?] a r' Hf; simplify_eq/=; repeat case_match; by simplify_eq/=.
Qed.

Lemma run_ops_decision ops g i n op r :
  OpForget i ∉ ops -> ops !! n = Some op -> reports_on op = Some i ->
  fst (run_ops ops g) !! n = Some (Some r) -> is_final (status r) = true ->
  records (snd (run_ops ops g)) !! i = Some r.
Proof.
  revert g n. induction ops as [|op' ops IH]; intros g n Hn Hop Ht Hr Hf; [done|]. simpl in *.
  apply not_elem_of_cons in Hn as [Hne Hn].
  destruct (apply_op op' g) as [res g1] eqn:Ea.
  pose proof (run_ops_frame ops g1 i) as Hframe. pose proof (IH g1) as IH1.
  destruct (run_ops ops g1) as [rs g2]. simpl in *. destruct n as [|n]; simplify_eq/=.
  - destruct (Hframe r Hn) as (r' & Hr' & _ & _ & _ & Hle & _).
    { pose proof (apply_op_reported op i g r Ht) as Hrep. rewrite Ea in Hrep. by apply Hrep. }
    by rewrite <- (Hle Hf).
  - by apply (IH1 n).
Qed.

(** ** Well-formedness *)

Lemma modify_wf {A} i (f : DistributedTxnRecord -> Transition (A * DistributedTxnRecord)) g :
  (forall r a r', f r = Ok (a, r') -> rec_id r' = rec_id r /\
     ((status r <> Committed -> rec_commit_ts r = ZERO) ->
      (status r' <> Committed -> rec_commit_ts r' = ZERO))) ->
  registry_wf g -> registry_wf (snd (modify i f g)).
Proof.
  intros Hf Hwf. unfold modify. destruct (records g !! i) as [ri|] eqn:Ei; [|done].
  destruct (f ri) as [[a r']|e] eqn:Ef; [|done]. intros j r. simpl. rewrite lookup_insert.
  case_decide; [|apply Hwf]. intros [= <-]. destruct (Hwf _ _ Ei) as [H1 H2].
  destruct (Hf _ _ _ Ef) as [-> Hc]. split; [congruence|auto].
Qed.

Ltac record_wf_case :=
  intros [? [] ? ? ? ? ?] ? ? ?; simplify_eq/=; repeat case_match; simplify_eq/=;
  (split; [done|]); simpl; first [done | by auto].

Lemma apply_op_wf op g : registry_wf g -> registry_wf (snd (apply_op op g)).
Proof.
  intros Hwf. destruct op as [i now p|i now|i s|i s|i|i ts|i|i|i p now]; simpl;
    try (apply modify_wf; [record_wf_case|done]).
  - unfold register. destruct (records g !! i) eqn:Ei; [done|]. intros j r. simpl.
    rewrite lookup_insert. case_decide; [|apply Hwf]. intros [= <-]. by subst.
  - unfold forget. destruct (records g !! i) as [ri|] eqn:Ei; [|done]. case_match; [|done].
    intros j r. simpl. rewrite lookup_delete_Some. intros [_ ?]. by apply Hwf.
Qed.

Lemma run_ops_wf ops g : registry_wf g -> registry_wf (snd (run_ops ops g)).
Proof.
  revert g. induction ops as [|op ops IH]; intros g Hwf; [done|]. simpl.
  pose proof (apply_op_wf op g Hwf) as H1. destruct (apply_op op g) as [r g1].
  specialize (IH g1 H1). by destruct (run_ops ops g1).
Qed.

Lemma initial_wf e : registry_wf (with_expiration e).
Proof. intros i r. unfold with_expiration. simpl. by rewrite lookup_empty. Qed.

Lemma elem_of_sorted_records l r : r ∈ sorted_records l <-> r ∈ l.
Proof. unfold sorted_records. by rewrite merge_sort_Permutation. Qed.

Lemma elem_of_records (g : DistributedTxnRegistry) r :
  r ∈ (map_to_list (records g)).*2 <-> exists i, records g !! i = Some r.
Proof.
  rewrite list_elem_of_fmap. split.
  - intros ([i r'] & -> & Hin%elem_of_map_to_list). eauto.
  - intros [i Hi]. exists (i, r). by rewrite elem_of_map_to_list.
Qed.

(** ** Theorems *)

(** [C23] One decision per transaction.  Whatever calls the nodes interleave, as long
    as the record is not forgotten, any two operations that report the transaction
    as final report the same record: it cannot be reported committed and aborted, or
    committed at two timestamps. *)
Theorem single_decision g ops i n1 n2 op1 op2 r1 r2 :
  OpForget i ∉ ops ->
  ops !! n1 = Some op1 -> reports_on op1 = Some i -> fst (run_ops ops g) !! n1 = Some (Some r1) ->
  ops !! n2 = Some op2 -> reports_on op2 = Some i -> fst (run_ops ops g) !! n2 = Some (Some r2) ->
  is_final (status r1) = true -> is_final (status r2) = true ->
  r1 = r2 /\ records (snd (run_ops ops g)) !! i = Some r1.
Proof.
  intros Hn Ho1 Ht1 Hr1 Ho2 Ht2 Hr2 Hf1 Hf2.
  pose proof (run_ops_decision _ _ _ _ _ _ Hn Ho1 Ht1 Hr1 Hf1).
  pose proof (run_ops_decision _ _ _ _ _ _ Hn Ho2 Ht2 Hr2 Hf2). split; congruence.
Qed.

(** Progress of a record.  Over any sequence of operations that does not forget
    it, a record keeps its id and priority, its heartbeat does not go back, a staged
    record does not return to pending, and a final record does not change at all;
    and the registry stays well formed (records are filed under their own id, and
    carry no commit timestamp unless committed). *)
Theorem record_progress g ops i r :
  registry_wf g -> OpForget i ∉ ops -> records g !! i = Some r ->
  registry_wf (snd (run_ops ops g)) /\
  exists r', records (snd (run_ops ops g)) !! i = Some r' /\ record_le r r'.
Proof. intros Hwf Hn Hr. split; [by apply run_ops_wf|by apply run_ops_frame]. Qed.

(** The expiry scan.  [expired] lists, in id order, exactly the live records
    whose heartbeat is older than the expiration interval, and these are records
    that a push of any priority aborts. *)
Theorem expired_spec g now :
  registry_wf g ->
  StronglySorted (fun a b => ord_le (rec_id a) (rec_id b)) (expired now g) /\
  forall r, r ∈ expired now g <->
    records g !! rec_id r = Some r /\ is_final (status r) = false /\
    expiration_us g < saturating_sub (wall_time_us now) (wall_time_us (last_heartbeat r)) /\
    forall p, push (rec_id r) p now g =
      (Ok (set_status r Aborted), put g (rec_id r) (set_status r Aborted)).
Proof.
  intros Hwf. split; [apply (sort_by_sorted rec_id)|]. intros r. unfold expired.
  rewrite elem_of_sorted_records, list_elem_of_filter, elem_of_records. split.
  - intros [[Hf Ha] [i Hi]]. destruct (Hwf _ _ Hi) as [<- _]. split_and!; [done|done| |].
    + by apply Z.ltb_lt.
    + intros p. unfold push, modify. by rewrite Hi, Hf, Ha, orb_true_r.
  - intros (Hi & Hf & Ha & _). split; [|eauto]. split; [done|]. by apply Z.ltb_lt.
Qed.

(** ** Witnesses *)

Definition tx1 : DistributedTxnId := mkTxnId 1 (mkHlc 100 0) 0.

Definition push_race : list RecordOp :=
  [OpRegister tx1 (mkHlc 100 0) 1; OpStage tx1; OpPush tx1 9 (mkHlc 101 0);
   OpCommit tx1 (mkHlc 102 0); OpAbort tx1].

(** A push wins against the coordinator's commit: the commit is refused and the
    later abort reports what the push reported. *)
Lemma single_decision_witness :
  fst (run_ops push_race (with_expiration 5000000)) !! 3%nat = Some None /\
  forall r1 r2, fst (run_ops push_race (with_expiration 5000000)) !! 2%nat = Some (Some r1) ->
    fst (run_ops push_race (with_expiration 5000000)) !! 4%nat = Some (Some r2) -> r1 = r2.
Proof.
  split; [reflexivity|]. intros r1 r2 H1 H2.
  apply (single_decision (with_expiration 5000000) push_race tx1 2 4
    (OpPush tx1 9 (mkHlc 101 0)) (OpAbort tx1)); try done.
  - unfold push_race. rewrite !not_elem_of_cons. split_and!; try done. apply not_elem_of_nil.
  - vm_compute in H1. by simplify_eq.
  - vm_compute in H2. by simplify_eq.
Defined.

Lemma record_progress_witness :
  exists r', records (snd (run_ops [OpHeartbeat tx1 (mkHlc 200 0); OpAbort tx1]
    (snd (register tx1 (mkHlc 100 0) 1 (with_expiration 50))))) !! tx1 = Some r' /\
    record_le (new_record tx1 (mkHlc 100 0) 1) r'.
Proof.
  refine (proj2 (record_progress _ _ _ _ _ _ _)).
  - apply (apply_op_wf (OpRegister tx1 (mkHlc 100 0) 1)), initial_wf.
  - rewrite !not_elem_of_cons. split_and!; try done. apply not_elem_of_nil.
  - reflexivity.
Defined.

Definition stale_registry : DistributedTxnRegistry :=
  snd (register tx1 (mkHlc 100 0) 999 (with_expiration 100)).

Lemma expired_spec_witness :
  expired (mkHlc 1000 0) stale_registry = [new_record tx1 (mkHlc 100 0) 999] /\
  fst (push tx1 0 (mkHlc 1000 0) stale_registry) =
    Ok (set_status (new_record tx1 (mkHlc 100 0) 999) Aborted).
Proof.
  assert (E : expired (mkHlc 1000 0) stale_registry = [new_record tx1 (mkHlc 100 0) 999])
    by (vm_compute; reflexivity).
  split; [done|]. destruct (expired_spec stale_registry (mkHlc 1000 0)) as [_ Hs].
  - apply (apply_op_wf (OpRegister tx1 (mkHlc 100 0) 999)), initial_wf.
  - destruct (proj1 (Hs (new_record tx1 (mkHlc 100 0) 999))) as (_ & _ & _ & Hp).
    + rewrite E. left.
    + change tx1 with (rec_id (new_record tx1 (mkHlc 100 0) 999)) at 1. by rewrite Hp.
Defined.
