(* ===== verification/Intents.v ===== *)
(** * Write intents ([crates/aiondb-tx/src/intent_registry.rs])

    The registry of uncommitted writes: a primary index from (range, key) to the
    intent there, and a reverse index from a transaction to the keys it holds.  Keys
    and values are byte strings; a range id is its [u64].  One mutex covers both
    indexes, so every method is one function on [RegistryInner].

    The specification the methods are proved against is the primary index alone:
    the reverse index is an optimisation, and the theorems show that resolving
    through it does what a scan of the whole primary index would do. *)

From S2P Require Import Prelude Hlc TxnRecord.

Abbreviation EntryKey := (Z * list Z)%type.

Record Intent := mkIntent {
  txn_id : DistributedTxnId;
  key : list Z;
  value : option (list Z);
  sequence : Z;
  written_at : HlcTimestamp
}.

#[global] Instance Intent_eq_dec : EqDecision Intent.
Proof. solve_decision. Defined.

Inductive AddOutcome : Type :=
| Inserted (i : Intent)
| Updated (i : Intent)
| Conflict (existing : Intent).

Inductive IntentConflict : Type :=
| SameTxn (i : Intent)
| OtherTxn (i : Intent).

Record ResolvedIntent := mkResolved {
  res_range : Z;
  res_key : list Z;
  res_value : option (list Z);
  res_sequence : Z;
  res_commit_ts : HlcTimestamp
}.

Record RegistryInner := mkInner {
  by_key : gmap EntryKey Intent;
  by_txn : gmap DistributedTxnId (list EntryKey)
}.

Definition empty_registry : RegistryInner := mkInner ∅ ∅.

(** ** Operations *)

Definition add (range : Z) (k : list Z) (v : option (list Z)) (t : DistributedTxnId)
    (at_ts : HlcTimestamp) (g : RegistryInner) : AddOutcome * RegistryInner :=
  let entry_key := (range, k) in
  match by_key g !! entry_key with
  | Some existing =>
      if decide (txn_id existing = t) then
        let updated :=
          mkIntent (txn_id existing) (key existing) v
            (saturating_add u32_max (sequence existing) 1)
            (ord_max at_ts (written_at existing)) in
        (Updated updated, mkInner (<[entry_key := updated]> (by_key g)) (by_txn g))
      else (Conflict existing, g)
  | None =>
      let intent := mkIntent t k v 1 at_ts in
      (Inserted intent,
       mkInner (<[entry_key := intent]> (by_key g))
         (<[t := default [] (by_txn g !! t) ++ [entry_key]]> (by_txn g)))
  end.

Definition get (range : Z) (k : list Z) (g : RegistryInner) : option Intent :=
  by_key g !! (range, k).

Definition check_conflict (range : Z) (k : list Z) (as_txn : DistributedTxnId)
    (g : RegistryInner) : option IntentConflict :=
  match by_key g !! (range, k) with
  | None => None
  | Some i => Some (if decide (txn_id i = as_txn) then SameTxn i else OtherTxn i)
  end.

(** The loop of both resolutions: remove each key from the primary index, keep the
    intents that were there. *)
Fixpoint remove_keys (keys : list EntryKey) (bk : gmap EntryKey Intent) :
    list (EntryKey * Intent) * gmap EntryKey Intent :=
  match keys with
  | [] => ([], bk)
  | k :: rest =>
      match bk !! k with
      | Some i => let '(out, bk') := remove_keys rest (delete k bk) in ((k, i) :: out, bk')
      | None => remove_keys rest (delete k bk)
      end
  end.

Definition resolved_key (r : ResolvedIntent) : EntryKey := (res_range r, res_key r).

Definition resolved_of (ts : HlcTimestamp) (e : EntryKey * Intent) : ResolvedIntent :=
  mkResolved e.1.1 e.1.2 (value e.2) (sequence e.2) ts.

Definition resolve_committed (t : DistributedTxnId) (commit_ts : HlcTimestamp)
    (g : RegistryInner) : list ResolvedIntent * RegistryInner :=
  match by_txn g !! t with
  | None => ([], g)
  | Some keys =>
      let '(taken, bk) := remove_keys keys (by_key g) in
      (merge_sort (fun a b => ord_le (resolved_key a) (resolved_key b))
         (map (resolved_of commit_ts) taken),
       mkInner bk (delete t (by_txn g)))
  end.

Definition resolve_aborted (t : DistributedTxnId) (g : RegistryInner) :
    list EntryKey * RegistryInner :=
  match by_txn g !! t with
  | None => ([], g)
  | Some keys =>
      let '(taken, bk) := remove_keys keys (by_key g) in
      (sort_keys taken.*1, mkInner bk (delete t (by_txn g)))
  end.

Definition intents_for_txn (t : DistributedTxnId) (g : RegistryInner) : list Intent :=
  match by_txn g !! t with
  | None => []
  | Some keys =>
      merge_sort (fun a b => ord_le (key a, sequence a) (key b, sequence b))
        (omap (fun k => by_key g !! k) keys)
  end.

(** The entries of the [BTreeMap] in key order. *)
Definition sorted_entries (g : RegistryInner) : list EntryKey :=
  sort_keys (map_to_list (by_key g)).*1.

Fixpoint take_while {A} (p : A -> bool) (l : list A) : list A :=
  match l with
  | [] => []
  | x :: l' => if p x then x :: take_while p l' else []
  end.

(** [BTreeMap::range] panics when its lower bound is above its upper bound: [None]. *)
Definition intents_in_range (range : Z) (start_key end_key : list Z) (g : RegistryInner) :
    option (list Intent) :=
  let lower := (range, start_key) in
  let upper := (range, end_key) in
  let from := filter (fun k => ord_le lower k) (sorted_entries g) in
  if decide (end_key = []) then
    Some (omap (fun k => by_key g !! k)
            (take_while (fun k => bool_decide (k.1 = range)) from))
  else if ord_ltb upper lower then None
  else Some (omap (fun k => by_key g !! k) (filter (fun k => ord_lt k upper) from)).

Definition snapshot (g : RegistryInner) : list Intent :=
  omap (fun k => by_key g !! k) (sorted_entries g).

(** ** Invariant

    The two indexes describe the same set of intents. *)

Record index_wf (g : RegistryInner) : Prop := {
  wf_key : forall k i, by_key g !! k = Some i -> key i = k.2;
  wf_indexed : forall k i, by_key g !! k = Some i ->
    exists ks, by_txn g !! txn_id i = Some ks /\ k ∈ ks;
  wf_owned : forall t ks k, by_txn g !! t = Some ks -> k ∈ ks ->
    exists i, by_key g !! k = Some i /\ txn_id i = t;
  wf_nodup : forall t ks, by_txn g !! t = Some ks -> NoDup ks
}.

(** The specification: which intents a transaction holds, by scanning everything. *)
Definition owned (t : DistributedTxnId) (g : RegistryInner) : gmap EntryKey Intent :=
  filter (fun ki => txn_id ki.2 = t) (by_key g).

Definition others (t : DistributedTxnId) (g : RegistryInner) : gmap EntryKey Intent :=
  filter (fun ki => txn_id ki.2 <> t) (by_key g).

Lemma index_wf_empty : index_wf empty_registry.
Proof. split; simpl; intros *; rewrite lookup_empty; done. Qed.

Lemma add_wf range k v t ts g : index_wf g -> index_wf (snd (add range k v t ts g)).
Proof.
  intros []. unfold add. destruct (by_key g !! (range, k)) as [e|] eqn:Ee.
  - case_decide as Ht; [|done]. subst t.
    split; simpl; intros *; rewrite ?lookup_insert; repeat case_decide; subst; eauto.
    + intros [= <-]. simpl. by apply (wf_key0 (range, k)).
    + intros [= <-]. simpl. eauto.
    + intros Hks Hk. destruct (wf_owned0 _ _ _ Hks Hk) as (i & Hi & <-).
      eexists. split; [done|]. simpl. congruence.
  - assert (Hfresh : forall t ks, by_txn g !! t = Some ks -> (range, k) ∉ ks).
    { intros t' ks Hks Hin. destruct (wf_owned0 _ _ _ Hks Hin) as (i & ? & _). congruence. }
    split; simpl.
    + intros k' i. rewrite lookup_insert. case_decide; subst; [|eauto]. by intros [= <-].
    + intros k' i. rewrite lookup_insert. case_decide as Ek; subst.
      * intros [= <-]. simpl. rewrite lookup_insert_eq. eexists. split; [done|].
        apply elem_of_app. right. by left.
      * intros Hk'. destruct (wf_indexed0 _ _ Hk') as (ks & Hks & Hin).
        rewrite lookup_insert. case_decide as Et; [|eauto]. rewrite Et, Hks. simpl.
        eexists. split; [done|]. apply elem_of_app. by left.
    + intros t' ks k'. rewrite lookup_insert. case_decide as Et; subst.
      * intros [= <-] [Hin|Hin]%elem_of_app.
        -- destruct (by_txn g !! t') as [ks|] eqn:Eks; [|by apply elem_of_nil in Hin].
           destruct (wf_owned0 _ _ _ Eks Hin) as (i & Hi & Ht).
           rewrite lookup_insert_ne; [eauto|congruence].
        -- apply list_elem_of_singleton in Hin as ->. rewrite lookup_insert_eq. eauto.
      * intros Hks Hin. destruct (wf_owned0 _ _ _ Hks Hin) as (i & Hi & Ht).
        rewrite lookup_insert_ne; [eauto|congruence].
    + intros t' ks. rewrite lookup_insert. case_decide as Et; subst; [|eauto].
      intros [= <-]. destruct (by_txn g !! t') as [ks|] eqn:Eks; simpl; [|by apply NoDup_singleton].
      apply NoDup_app. split_and!; [eauto| |by apply NoDup_singleton].
      intros k' Hk' ->%list_elem_of_singleton. by apply (Hfresh _ _ Eks).
Qed.

Lemma remove_keys_spec keys bk :
  NoDup keys -> (forall k, k ∈ keys -> is_Some (bk !! k)) ->
  (fst (remove_keys keys bk)).*1 = keys /\
  (forall k i, (k, i) ∈ fst (remove_keys keys bk) -> bk !! k = Some i) /\
  (forall k, snd (remove_keys keys bk) !! k = if decide (k ∈ keys) then None else bk !! k).
Proof.
  revert bk. induction keys as [|k keys IH]; intros bk Hnd Hin; cbn [remove_keys].
  - split_and!; [done|by intros * ?%elem_of_nil|]. intros k. rewrite decide_False; [done|].
    apply not_elem_of_nil.
  - apply NoDup_cons in Hnd as [Hk Hnd].
    destruct (Hin k) as [i Hi]; [left|]. rewrite Hi.
    destruct (IH (delete k bk) Hnd) as (H1 & H2 & H3).
    { intros k' Hk'. rewrite lookup_delete_ne by congruence. apply Hin. by right. }
    destruct (remove_keys keys (delete k bk)) as [out bk'] eqn:E. cbn [fst snd] in *. split_and!.
    + by rewrite <- H1.
    + intros k' i' [[= -> ->]|Hin']%elem_of_cons; [done|].
      apply H2 in Hin'. apply lookup_delete_Some in Hin'. naive_solver.
    + intros k'. rewrite H3, lookup_delete. destruct (decide (k' ∈ keys)) as [Hk'|Hk'].
      * by rewrite decide_True by by right.
      * destruct (decide (k = k')) as [->|Hne]; [rewrite decide_True by left; done|].
        rewrite decide_False; [done|]. rewrite elem_of_cons. naive_solver.
Qed.

(** The reverse index of a transaction names exactly the entries it owns. *)
Lemma indexed_owned g t ks k :
  index_wf g -> by_txn g !! t = Some ks ->
  k ∈ ks <-> exists i, owned t g !! k = Some i.
Proof.
  intros [] Hks. unfold owned. setoid_rewrite map_lookup_filter_Some. simpl. split.
  - intros Hin. destruct (wf_owned0 _ _ _ Hks Hin) as (i & ? & ?). eauto.
  - intros (i & Hi & <-). destruct (wf_indexed0 _ _ Hi) as (ks' & Hks' & Hin). congruence.
Qed.

Lemma unindexed_owned g t : index_wf g -> by_txn g !! t = None -> owned t g = ∅ /\ others t g = by_key g.
Proof.
  intros [] Ht. assert (Hno : forall k i, by_key g !! k = Some i -> txn_id i <> t).
  { intros k i Hi <-. destruct (wf_indexed0 _ _ Hi) as (ks & ? & _). congruence. }
  split.
  - apply map_empty_filter_2. intros k i Hi. simpl. eauto.
  - apply map_filter_id. intros k i Hi. simpl. eauto.
Qed.

Lemma remove_owned g t ks :
  index_wf g -> by_txn g !! t = Some ks ->
  (fst (remove_keys ks (by_key g))).*1 = ks /\
  (forall k i, (k, i) ∈ fst (remove_keys ks (by_key g)) <-> owned t g !! k = Some i) /\
  snd (remove_keys ks (by_key g)) = others t g.
Proof.
  intros Hwf Hks. destruct (remove_keys_spec ks (by_key g)) as (H1 & H2 & H3).
  { by eapply wf_nodup. }
  { intros k Hk. destruct (wf_owned _ Hwf _ _ _ Hks Hk) as (i & ? & _). eauto. }
  split_and!; [done| |].
  - intros k i. split.
    + intros Hin. assert (Hk : k ∈ ks) by (rewrite <- H1; by apply (list_elem_of_fmap_2 fst _ (k, i))).
      apply (indexed_owned g t ks k Hwf Hks) in Hk as [i' Hi']. rewrite Hi'.
      unfold owned in Hi'. apply map_lookup_filter_Some in Hi' as [Hi' _].
      apply H2 in Hin. congruence.
    + intros Ho. assert (Hk : k ∈ ks) by (apply (indexed_owned g t ks k Hwf Hks); eauto).
      rewrite <- H1 in Hk. apply list_elem_of_fmap in Hk as ([k' i'] & -> & Hin).
      pose proof (H2 _ _ Hin). apply map_lookup_filter_Some in Ho as [Ho _]. simpl in *. congruence.
  - apply map_eq. intros k. rewrite H3. unfold others.
    destruct (by_key g !! k) as [i|] eqn:Ek; [|by rewrite map_lookup_filter, Ek; case_decide].
    pose proof (indexed_owned g t ks k Hwf Hks) as Hiff. unfold owned in Hiff.
    setoid_rewrite map_lookup_filter_Some in Hiff. simpl in Hiff.
    rewrite map_lookup_filter, Ek. simpl. case_decide as Hin; case_guard as Hg; try done; exfalso.
    + apply Hg. destruct (proj1 Hiff Hin) as (i' & Hi' & ?). congruence.
    + apply Hin, Hiff. exists i. split; [done|]. by destruct (decide (txn_id i = t)).
Qed.

Lemma remove_wf g t :
  index_wf g -> index_wf (mkInner (others t g) (delete t (by_txn g))).
Proof.
  intros []. unfold others. split; simpl.
  - intros k i [Hi _]%map_lookup_filter_Some. eauto.
  - intros k i [Hi Hne]%map_lookup_filter_Some. simpl in Hne.
    rewrite lookup_delete_ne by done. eauto.
  - intros t' ks k Hd Hin. apply lookup_delete_Some in Hd as [Hne Hks].
    destruct (wf_owned0 _ _ _ Hks Hin) as (i & Hi & Ht). exists i. split; [|done].
    apply map_lookup_filter_Some. split; [done|]. simpl. congruence.
  - intros t' ks [_ Hks]%lookup_delete_Some. eauto.
Qed.

Lemma delete_unindexed g t : index_wf g -> by_txn g !! t = None ->
  g = mkInner (others t g) (delete t (by_txn g)).
Proof.
  intros Hwf Ht. destruct (unindexed_owned g t Hwf Ht) as [_ ->]. rewrite delete_id by done.
  by destruct g.
Qed.

Lemma resolve_committed_state t ts g :
  index_wf g ->
  snd (resolve_committed t ts g) = mkInner (others t g) (delete t (by_txn g)).
Proof.
  intros Hwf. unfold resolve_committed. destruct (by_txn g !! t) as [ks|] eqn:Eks.
  - destruct (remove_owned g t ks Hwf Eks) as (_ & _ & <-). by destruct (remove_keys _ _).
  - by apply delete_unindexed.
Qed.

Lemma resolve_aborted_state t g :
  index_wf g ->
  snd (resolve_aborted t g) = mkInner (others t g) (delete t (by_txn g)).
Proof.
  intros Hwf. unfold resolve_aborted. destruct (by_txn g !! t) as [ks|] eqn:Eks.
  - destruct (remove_owned g t ks Hwf Eks) as (_ & _ & <-). by destruct (remove_keys _ _).
  - by apply delete_unindexed.
Qed.

Lemma resolve_committed_result t ts g :
  index_wf g ->
  StronglySorted ord_lt (map resolved_key (fst (resolve_committed t ts g))) /\
  forall r, r ∈ fst (resolve_committed t ts g) <->
    exists k i, owned t g !! k = Some i /\ r = resolved_of ts (k, i).
Proof.
  intros Hwf. unfold resolve_committed. destruct (by_txn g !! t) as [ks|] eqn:Eks.
  - destruct (remove_owned g t ks Hwf Eks) as (H1 & H2 & _).
    destruct (remove_keys ks (by_key g)) as [taken bk]. simpl in *. split.
    + apply (sort_by_strict resolved_key). rewrite map_map.
      rewrite (map_ext _ fst) by by intros [[] ?].
      change (map fst taken) with taken.*1. rewrite H1. by eapply wf_nodup.
    + intros r. rewrite merge_sort_Permutation, list_elem_of_fmap. split.
      * intros ([k i] & -> & Hin%H2). eauto.
      * intros (k & i & Hki & ->). exists (k, i). by rewrite H2.
  - destruct (unindexed_owned g t Hwf Eks) as [-> _]. simpl. split; [constructor|].
    intros r. split; [by intros ?%elem_of_nil|]. by intros (k & i & Hk & _).
Qed.

Lemma resolve_aborted_result t g :
  index_wf g ->
  StronglySorted ord_lt (fst (resolve_aborted t g)) /\
  forall k, k ∈ fst (resolve_aborted t g) <-> exists i, owned t g !! k = Some i.
Proof.
  intros Hwf. unfold resolve_aborted. destruct (by_txn g !! t) as [ks|] eqn:Eks.
  - destruct (remove_owned g t ks Hwf Eks) as (H1 & H2 & _).
    destruct (remove_keys ks (by_key g)) as [taken bk]. cbn [fst snd] in *. rewrite H1. split.
    + apply sort_keys_strict. by eapply wf_nodup.
    + intros k. rewrite elem_of_sort_keys. by apply indexed_owned.
  - destruct (unindexed_owned g t Hwf Eks) as [-> _]. simpl. split; [constructor|].
    intros k. split; [by intros ?%elem_of_nil|]. by intros (i & Hk).
Qed.

(** ** Runs *)

Inductive IntentOp : Type :=
| OpAdd (range : Z) (k : list Z) (v : option (list Z)) (t : DistributedTxnId) (ts : HlcTimestamp)
| OpResolveCommitted (t : DistributedTxnId) (ts : HlcTimestamp)
| OpResolveAborted (t : DistributedTxnId).

Definition apply_intent (op : IntentOp) (g : RegistryInner) : RegistryInner :=
  match op with
  | OpAdd range k v t ts => snd (add range k v t ts g)
  | OpResolveCommitted t ts => snd (resolve_committed t ts g)
  | OpResolveAborted t => snd (resolve_aborted t g)
  end.

Definition resolves (t : DistributedTxnId) (op : IntentOp) : bool :=
  match op with
  | OpAdd _ _ _ _ _ => false
  | OpResolveCommitted t' _ | OpResolveAborted t' => bool_decide (t = t')
  end.

Definition run_intents (ops : list IntentOp) (g : RegistryInner) : RegistryInner :=
  fold_left (fun acc op => apply_intent op acc) ops g.

Lemma apply_intent_wf op g : index_wf g -> index_wf (apply_intent op g).
Proof.
  intros Hwf. destruct op; simpl; [by apply add_wf| |].
  - rewrite resolve_committed_state by done. by apply remove_wf.
  - rewrite resolve_aborted_state by done. by apply remove_wf.
Qed.

Lemma run_intents_wf ops g : index_wf g -> index_wf (run_intents ops g).
Proof.
  revert g. induction ops as [|op ops IH]; intros g Hwf; [done|]. apply IH, (apply_intent_wf op), Hwf.
Qed.

(** A later version of the same intent. *)
Definition intent_le (i i' : Intent) : Prop :=
  txn_id i' = txn_id i /\ key i' = key i /\ sequence i <= sequence i' /\
  ord_le (written_at i) (written_at i').

Lemma others_lookup g t k i : by_key g !! k = Some i -> txn_id i <> t -> others t g !! k = Some i.
Proof. intros Hi Hne. apply map_lookup_filter_Some. by split. Qed.

Lemma apply_intent_keeps op g k i :
  index_wf g -> by_key g !! k = Some i -> sequence i <= u32_max -> resolves (txn_id i) op = false ->
  exists i', by_key (apply_intent op g) !! k = Some i' /\ intent_le i i' /\ sequence i' <= u32_max.
Proof.
  intros Hwf Hi Hs Hr. assert (Hrefl : intent_le i i) by (split_and!; [done..|lia|apply ord_le_refl]).
  destruct op as [range k' v t ts|t ts|t]; cbn [apply_intent resolves] in *.
  - unfold add. destruct (by_key g !! (range, k')) as [e|] eqn:Ee.
    + case_decide as Ht; [|by eauto]. simpl. rewrite lookup_insert. case_decide as Ek; [|by eauto].
      eexists. split; [done|]. subst k. rewrite Ee in Hi. simplify_eq.
      split_and!; simpl; [|apply saturating_add_bound].
      split_and!; simpl; [done|done| |apply ord_max_ub_r]. unfold saturating_add. lia.
    + simpl. rewrite lookup_insert_ne by congruence. eauto.
  - rewrite resolve_committed_state by done. simpl. bool_prop.
    exists i. rewrite (others_lookup g t k i); [done|done|congruence].
  - rewrite resolve_aborted_state by done. simpl. bool_prop.
    exists i. rewrite (others_lookup g t k i); [done|done|congruence].
Qed.

Lemma run_intents_keeps ops g k i :
  index_wf g -> by_key g !! k = Some i -> sequence i <= u32_max ->
  Forall (fun op => resolves (txn_id i) op = false) ops ->
  exists i', by_key (run_intents ops g) !! k = Some i' /\ intent_le i i'.
Proof.
  intros Hwf Hi Hs Hf. revert g i Hwf Hi Hs Hf.
  induction ops as [|op ops IH]; intros g i Hwf Hi Hs Hf; cbn [run_intents fold_left].
  - exists i. split; [done|]. split_and!; [done..|lia|apply ord_le_refl].
  - inversion Hf as [|? ? Hop Hops]; subst.
    destruct (apply_intent_keeps op g k i) as (i1 & Hi1 & (T1 & K1 & S1 & W1) & Hs1); [done..|].
    destruct (IH (apply_intent op g) i1) as (i2 & Hi2 & (T2 & K2 & S2 & W2));
      [by apply apply_intent_wf|done|done|by rewrite T1|].
    exists i2. split; [done|]. split_and!; [congruence|congruence|lia|by eapply ord_le_trans].
Qed.

(** ** Range scans *)

Lemma take_while_filter {A} (R : A -> A -> Prop) (p : A -> bool) (l : list A) :
  (forall x y, R x y -> p y = true -> p x = true) -> StronglySorted R l ->
  take_while p l = filter (fun x => p x = true) l.
Proof.
  intros Hp. induction 1 as [|x l Hl IH Hx]; [done|]; cbn [take_while]. rewrite filter_cons.
  destruct (p x) eqn:E; simpl; [by rewrite IH|].
  destruct (filter _ l) as [|y l'] eqn:Ef; [done|].
  assert (Hy : y ∈ filter (fun x => p x = true) l) by (rewrite Ef; left).
  apply list_elem_of_filter in Hy as [Hpy Hy]. rewrite Forall_forall in Hx.
  by rewrite (Hp x y (Hx _ Hy) Hpy) in E.
Qed.

Lemma sorted_entries_spec g :
  StronglySorted ord_lt (sorted_entries g) /\
  forall k, k ∈ sorted_entries g <-> is_Some (by_key g !! k).
Proof.
  unfold sorted_entries. split; [apply sort_keys_strict, NoDup_fst_map_to_list|].
  intros k. rewrite elem_of_sort_keys, list_elem_of_fmap. split.
  - intros ([? i] & -> & Hin%elem_of_map_to_list). by exists i.
  - intros [i Hi]. exists (k, i). by rewrite elem_of_map_to_list.
Qed.

Lemma lookup_keys_key g (ks : list EntryKey) :
  index_wf g -> Forall (fun k => is_Some (by_key g !! k)) ks ->
  map key (omap (fun k => by_key g !! k) ks) = ks.*2.
Proof.
  intros Hwf. induction 1 as [|k ks [i Hi] Hks IH]; [done|]; csimpl. rewrite Hi. simpl.
  by rewrite IH, (wf_key _ Hwf _ _ Hi).
Qed.

(** Intents fetched for a sorted list of keys of one range. *)
Lemma lookup_keys_sorted g (ks : list EntryKey) (range : Z) :
  index_wf g -> StronglySorted ord_lt ks ->
  Forall (fun k => is_Some (by_key g !! k) /\ k.1 = range) ks ->
  StronglySorted ord_lt (map key (omap (fun k => by_key g !! k) ks)).
Proof.
  intros Hwf Hs Hf. rewrite lookup_keys_key; [|done|eapply Forall_impl; [exact Hf|naive_solver]].
  induction Hs as [|[r k] ks Hs IH Hk]; csimpl; [constructor|].
  inversion Hf as [|? ? [_ Hr] Hf']; subst. constructor; [by apply IH|].
  apply Forall_forall. intros k' ([r' k''] & -> & Hin)%list_elem_of_fmap.
  rewrite Forall_forall in Hk, Hf'. destruct (Hf' _ Hin) as [_ Hr]. simpl in Hr. subst r'.
  simpl. apply (ord_lt_pair_same r). by apply (Hk (r, k'')).
Qed.

(** The keys both branches of [intents_in_range] select. *)
Definition scan_keys (range : Z) (start_key end_key : list Z) (g : RegistryInner) :
    list EntryKey :=
  filter (fun k => k.1 = range /\ ord_le start_key k.2 /\
                   (end_key = [] \/ ord_lt k.2 end_key)) (sorted_entries g).

Lemma pair_from (range : Z) (start : list Z) (k : EntryKey) :
  ord_le (range, start) k <-> range < k.1 \/ k.1 = range /\ ord_le start k.2.
Proof.
  destruct k as [r k]. simpl. unfold ord_le at 1, cmp, prod_ord, cmp at 1, Z_ord. simpl.
  destruct (Z.compare_spec range r) as [->|Hlt|Hgt].
  - split; [by right|]. by intros [?|[_ ?]]; [lia|].
  - naive_solver lia.
  - split; [done|]. intros [?|[? _]]; lia.
Qed.

Lemma pair_upto (range : Z) (stop : list Z) (k : EntryKey) :
  ord_lt k (range, stop) <-> k.1 < range \/ k.1 = range /\ ord_lt k.2 stop.
Proof.
  destruct k as [r k]. simpl. unfold ord_lt at 1, cmp, prod_ord, cmp at 1, Z_ord. simpl.
  destruct (Z.compare_spec r range) as [->|Hlt|Hgt].
  - split; [by right|]. by intros [?|[_ ?]]; [lia|].
  - naive_solver lia.
  - split; [done|]. intros [?|[? _]]; lia.
Qed.

Lemma intents_in_range_scan (range : Z) (start stop : list Z) g :
  (stop = [] \/ ~ ord_lt stop start) ->
  intents_in_range range start stop g =
    Some (omap (fun k => by_key g !! k) (scan_keys range start stop g)).
Proof.
  intros Hb. destruct (sorted_entries_spec g) as [Hsort _].
  unfold intents_in_range, scan_keys. case_decide as Hstop.
  - subst stop. f_equal. f_equal.
    rewrite (take_while_filter (fun a b => ord_le (range, start) a /\ ord_lt a b)).
    + rewrite list_filter_filter. apply list_filter_iff. intros k.
      rewrite bool_decide_eq_true, pair_from. naive_solver lia.
    + intros x y [Hx Hxy] Hy%bool_decide_eq_true. apply bool_decide_eq_true.
      apply pair_from in Hx. apply ord_lt_le, ord_le_pair_fst in Hxy.
      unfold ord_le, cmp, Z_ord in Hxy. rewrite Z.compare_gt_iff in Hxy. lia.
    + clear Hb. induction Hsort as [|k ks Hs IH Hk]; [constructor|]. rewrite filter_cons.
      case_decide as Hle; [|done]. constructor; [done|]. apply Forall_forall.
      intros y [_ Hy]%list_elem_of_filter. rewrite Forall_forall in Hk. auto.
  - destruct Hb as [?|Hb]; [done|].
    destruct (ord_ltb_spec (range, stop) (range, start)) as [Hl|_].
    + by apply ord_lt_pair_same in Hl.
    + f_equal. f_equal. rewrite list_filter_filter. apply list_filter_iff. intros k.
      rewrite pair_from, pair_upto. naive_solver lia.
Qed.

(** ** Theorems *)

(** [C27] Resolving a transaction.  Through the reverse index, [resolve_committed]
    returns exactly the intents a scan of the primary index finds for the
    transaction, each with its final value and the commit timestamp, in strictly
    increasing (range, key) order; [resolve_aborted] returns their keys in the same
    order; both leave exactly the intents of the other transactions. *)
Theorem resolve_refines t ts g :
  index_wf g ->
  (forall r, r ∈ fst (resolve_committed t ts g) <->
     exists k i, owned t g !! k = Some i /\ r = resolved_of ts (k, i)) /\
  StronglySorted ord_lt (map resolved_key (fst (resolve_committed t ts g))) /\
  (forall k, k ∈ fst (resolve_aborted t g) <-> exists i, owned t g !! k = Some i) /\
  StronglySorted ord_lt (fst (resolve_aborted t g)) /\
  by_key (snd (resolve_committed t ts g)) = others t g /\
  by_key (snd (resolve_aborted t g)) = others t g.
Proof.
  intros Hwf. destruct (resolve_committed_result t ts g Hwf) as [H1 H2].
  destruct (resolve_aborted_result t g Hwf) as [H3 H4].
  by rewrite (resolve_committed_state t ts g Hwf), (resolve_aborted_state t g Hwf).
Qed.

(** [C38] An intent is an exclusive lock.  In any run of the registry from empty, once
    a transaction has an intent on a key, the intent stays there, owned by the same
    transaction and with a sequence number and timestamp that do not go back, until
    that transaction is resolved; every write of the key by another transaction is
    answered with a conflict that names it, and changes nothing. *)
Theorem intent_exclusive before after range k i t v ts :
  let g := run_intents before empty_registry in
  by_key g !! (range, k) = Some i -> sequence i <= u32_max ->
  Forall (fun op => resolves (txn_id i) op = false) after -> t <> txn_id i ->
  exists i', intent_le i i' /\ by_key (run_intents after g) !! (range, k) = Some i' /\
    add range k v t ts (run_intents after g) = (Conflict i', run_intents after g).
Proof.
  intros g Hi Hs Hf Hne. assert (Hwf : index_wf g) by apply run_intents_wf, index_wf_empty.
  destruct (run_intents_keeps after g _ i Hwf Hi Hs Hf) as (i' & Hi' & Hle).
  exists i'. split; [done|]. split; [done|]. unfold add. rewrite Hi', decide_False; [done|].
  destruct Hle as [-> _]. congruence.
Qed.

(** Range scans.  [intents_in_range] panics exactly when a bounded scan has its
    start above its end; otherwise it returns the intents of that range whose key
    lies in [start, end) (in [start, infinity) for an empty end key), each once, in
    strictly increasing key order, whatever other ranges hold. *)
Theorem intents_in_range_spec (range : Z) (start stop : list Z) g :
  index_wf g ->
  (intents_in_range range start stop g = None <-> stop <> [] /\ ord_lt stop start) /\
  forall l, intents_in_range range start stop g = Some l ->
    StronglySorted ord_lt (map key l) /\
    forall i, i ∈ l <-> exists k, by_key g !! (range, k) = Some i /\
      ord_le start k /\ (stop = [] \/ ord_lt k stop).
Proof.
  intros Hwf. destruct (sorted_entries_spec g) as [Hsort Helem].
  destruct (decide (stop = [] \/ ~ ord_lt stop start)) as [Hb|Hb].
  - rewrite intents_in_range_scan by done. split; [split; [done|naive_solver]|].
    intros l [= <-]. split.
    + apply (lookup_keys_sorted g _ range Hwf).
      * by apply StronglySorted_filter.
      * apply Forall_forall. intros k [(? & _) Hk%Helem]%list_elem_of_filter. done.
    + intros i. rewrite list_elem_of_omap. split.
      * intros ([r k] & [(Hr & ? & ?) _]%list_elem_of_filter & Hi). simpl in *. subst r. eauto.
      * intros (k & Hi & ? & ?). exists (range, k). split; [|done].
        apply list_elem_of_filter. split; [done|]. apply Helem. eauto.
  - assert (Hn : stop <> [] /\ ord_lt stop start).
    { split; [naive_solver|]. destruct (decide (ord_lt stop start)); naive_solver. }
    destruct Hn as [Hne Hlt].
    assert (Hnone : intents_in_range range start stop g = None).
    { unfold intents_in_range. rewrite decide_False by done.
      destruct (ord_ltb_spec (range, stop) (range, start)) as [_|Hl]; [done|].
      by rewrite ord_lt_pair_same in Hl. }
    rewrite Hnone. split; [done|by intros].
Qed.


(** ** Witnesses *)

Definition tx2 : DistributedTxnId := mkTxnId 2 (mkHlc 100 0) 0.

Definition two_intents : list IntentOp :=
  [OpAdd 1 [107] (Some [1]) tx1 (mkHlc 100 0); OpAdd 1 [98] None tx1 (mkHlc 101 0);
   OpAdd 2 [107] (Some [9]) tx2 (mkHlc 102 0)].

Definition two_intents_registry : RegistryInner := run_intents two_intents empty_registry.

Lemma resolve_refines_witness :
  fst (resolve_committed tx1 (mkHlc 500 0) two_intents_registry) =
    [mkResolved 1 [98] None 1 (mkHlc 500 0); mkResolved 1 [107] (Some [1]) 1 (mkHlc 500 0)] /\
  by_key (snd (resolve_committed tx1 (mkHlc 500 0) two_intents_registry)) =
    others tx1 two_intents_registry.
Proof.
  split; [vm_compute; reflexivity|].
  apply (resolve_refines tx1 (mkHlc 500 0) two_intents_registry).
  apply run_intents_wf, index_wf_empty.
Defined.

Lemma intent_exclusive_witness :
  exists i', by_key two_intents_registry !! (2, [107]) = Some i' /\
    add 2 [107] None tx1 (mkHlc 200 0) two_intents_registry = (Conflict i', two_intents_registry).
Proof.
  destruct (intent_exclusive two_intents [] 2 [107] (mkIntent tx2 [107] (Some [9]) 1 (mkHlc 102 0))
    tx1 None (mkHlc 200 0)) as (i' & _ & H1 & H2).
  - vm_compute. reflexivity.
  - vm_compute. discriminate.
  - constructor.
  - discriminate.
  - exists i'. split; [exact H1|exact H2].
Defined.

Lemma intents_in_range_spec_witness :
  intents_in_range 1 [122] [97] two_intents_registry = None /\
  option_map (map key) (intents_in_range 1 [97] [122] two_intents_registry) = Some [[98]; [107]].
Proof.
  split; [|vm_compute; reflexivity].
  apply (intents_in_range_spec 1 [122] [97] two_intents_registry).
  - apply run_intents_wf, index_wf_empty.
  - split; [discriminate|reflexivity].
Defined.
