(* ===== verification/TwoPhase.v ===== *)
(** * The two-phase commit coordinator ([crates/aiondb-tx/src/two_phase_commit.rs])

    [TwoPhaseCoordinator::execute] with its prepare, commit and rollback loops, over
    the registry of [TxnRecord] and the clock of [Hlc].

    The participants are trait objects behind a network: they are the parameter
    [TwoPhaseParticipant], whose methods answer, fail or run into the per-attempt
    timeout ([None]) as they please.  The registry and the clock are shared with
    every other task of the process: each remote call, and [others_run] between any
    two local calls, may change them.  Every remote call and sleep is recorded in a
    trace.  What the trace can hold needs no assumption about the other tasks.  What the
    registry holds at the end does ([ParticipantLaws]): they go through the registry's
    methods, and do not commit or forget a transaction they do not coordinate (pushing,
    aborting and heartbeating it is allowed). *)

From S2P Require Import Prelude Hlc TxnRecord.

Inductive NoReason : Type := PrepareTimeout (pid : Z) | Refused (reason : string).

Inductive PrepareVote : Type :=
| Yes (prepared_ts : HlcTimestamp)
| No (reason : NoReason).

Record CoordinatorConfig := mkConfig {
  prepare_timeout : Z;      (** microseconds *)
  commit_retries : nat;
  retry_initial_delay : Z   (** milliseconds *)
}.

Inductive AbortReason : Type :=
| PrepareErrors (pids : list Z)
| VotedNo (pid : Z) (reason : NoReason).

Inductive CommitOutcome : Type :=
| OutcomeCommitted (commit_ts : HlcTimestamp)
| OutcomeAborted (reason : AbortReason).

Inductive Event : Type :=
| EvPrepare (pid : Z) (reply : option (DbResult PrepareVote))
| EvCommit (pid : Z) (ts : HlcTimestamp) (acked : bool)
| EvRollback (pid : Z) (acked : bool)
| EvSleep (delay : Z).

(** What the coordinator shares with the rest of the process; [W] is everything
    outside: participants, network, wall clock, other tasks. *)
Record Shared (W : Type) := mkShared {
  registry : DistributedTxnRegistry;
  clock : HybridLogicalClock;
  world : W
}.
Arguments mkShared {W}.
Arguments registry {W}.
Arguments clock {W}.
Arguments world {W}.

Class TwoPhaseParticipant (W : Type) := {
  prepare : Z -> DistributedTxnId -> list KeySpan -> HlcTimestamp -> Shared W ->
    option (DbResult PrepareVote) * Shared W;
  commit : Z -> DistributedTxnId -> HlcTimestamp -> Shared W -> option (DbResult unit) * Shared W;
  rollback : Z -> DistributedTxnId -> Shared W -> option (DbResult unit) * Shared W;
  others_run : DistributedTxnId -> Shared W -> Shared W;
  wall_clock : W -> Z
}.

(** Operations other tasks may run on the registry during transaction [t]. *)
Definition foreign_op (t : DistributedTxnId) (op : RecordOp) : Prop :=
  op <> OpForget t /\ forall ts, op <> OpCommit t ts.

Definition interferes {W} (t : DistributedTxnId) (s s' : Shared W) : Prop :=
  exists ops, Forall (foreign_op t) ops /\ registry s' = snd (run_ops ops (registry s)).

Class ParticipantLaws (W : Type) `{TwoPhaseParticipant W} : Prop := {
  prepare_quiet : forall p t sp d s, interferes t s (snd (prepare p t sp d s));
  commit_quiet : forall p t ts s, interferes t s (snd (commit p t ts s));
  rollback_quiet : forall p t s, interferes t s (snd (rollback p t s));
  others_quiet : forall t s, interferes t s (others_run t s)
}.

Section Coordinator.
Context {W : Type} `{TwoPhaseParticipant W}.

Record Run := mkRun { shared : Shared W; trace : list Event }.

Definition emit (e : Event) (s : Shared W) (r : Run) : Run := mkRun s (trace r ++ [e]).

(** A local step on the shared state, before which other tasks may have run. *)
Definition local {A} (t : DistributedTxnId) (f : Shared W -> A * Shared W) (r : Run) : A * Run :=
  let '(a, s) := f (others_run t (shared r)) in (a, mkRun s (trace r)).

Definition on_registry {A} (f : DistributedTxnRegistry -> A * DistributedTxnRegistry)
    (s : Shared W) : A * Shared W :=
  let '(a, g) := f (registry s) in (a, mkShared g (clock s) (world s)).

Definition clock_now (s : Shared W) : HlcTimestamp * Shared W :=
  let '(t, c) := now (wall_clock (world s)) (clock s) in (t, mkShared (registry s) c (world s)).

Definition acked (reply : option (DbResult unit)) : bool :=
  match reply with Some (Ok _) => true | _ => false end.

(** ** Phase 1 *)

Definition prepare_one (t : DistributedTxnId) (sp : list KeySpan) (d : HlcTimestamp) (p : Z)
    (r : Run) : DbResult PrepareVote * Run :=
  let '(reply, s) := prepare p t sp d (shared r) in
  (match reply with Some res => res | None => Ok (No (PrepareTimeout p)) end,
   emit (EvPrepare p reply) s r).

(** The loop that awaits the prepare futures and files votes and errors. *)
Fixpoint prepare_all (t : DistributedTxnId) (sp : list KeySpan) (d : HlcTimestamp) (ps : list Z)
    (votes : gmap Z PrepareVote) (errors : list Z) (r : Run) :
    gmap Z PrepareVote * list Z * Run :=
  match ps with
  | [] => (votes, errors, r)
  | p :: rest =>
      match prepare_one t sp d p r with
      | (Ok vote, r1) => prepare_all t sp d rest (<[p := vote]> votes) errors r1
      | (Err _, r1) => prepare_all t sp d rest votes (errors ++ [p]) r1
      end
  end.

Definition voted_no (e : Z * PrepareVote) : option AbortReason :=
  match e with (p, No reason) => Some (VotedNo p reason) | _ => None end.

Definition abort_reason (votes : gmap Z PrepareVote) (errors : list Z) : option AbortReason :=
  match errors with
  | _ :: _ => Some (PrepareErrors errors)
  | [] => head (omap voted_no (map_to_list votes))
  end.

(** ** Phase 2 *)

Definition next_delay (delay : Z) : Z := Z.min (delay * 2) 30000.

(** One participant of [commit_all]; [remaining] is [commit_retries - attempt]. *)
Fixpoint commit_one (remaining : nat) (t : DistributedTxnId) (ts : HlcTimestamp) (delay : Z)
    (p : Z) (r : Run) : bool * Run :=
  let '(reply, s) := commit p t ts (shared r) in
  let r1 := emit (EvCommit p ts (acked reply)) s r in
  if acked reply then (true, r1)
  else
    match remaining with
    | O => (false, r1)
    | S n =>
        commit_one n t ts (next_delay delay) p (emit (EvSleep delay) (others_run t (shared r1)) r1)
    end.

Fixpoint commit_all (cfg : CoordinatorConfig) (t : DistributedTxnId) (ts : HlcTimestamp)
    (ps : list Z) (r : Run) : DbResult unit * Run :=
  match ps with
  | [] => (Ok tt, r)
  | p :: rest =>
      match commit_one (commit_retries cfg) t ts (retry_initial_delay cfg) p r with
      | (true, r1) => commit_all cfg t ts rest r1
      | (false, r1) => (Err Internal, r1)
      end
  end.

(** One participant of [rollback_all]: it gives up silently. *)
Fixpoint rollback_one (remaining : nat) (t : DistributedTxnId) (delay : Z) (p : Z) (r : Run) :
    Run :=
  let '(reply, s) := rollback p t (shared r) in
  let r1 := emit (EvRollback p (acked reply)) s r in
  if acked reply then r1
  else
    match remaining with
    | O => r1
    | S n =>
        rollback_one n t (next_delay delay) p (emit (EvSleep delay) (others_run t (shared r1)) r1)
    end.

Fixpoint rollback_all (cfg : CoordinatorConfig) (t : DistributedTxnId) (ps : list Z) (r : Run) :
    Run :=
  match ps with
  | [] => r
  | p :: rest =>
      rollback_all cfg t rest (rollback_one (commit_retries cfg) t (retry_initial_delay cfg) p r)
  end.

(** ** The protocol *)

(** After the votes: roll back and forget, or stage, commit, broadcast and forget. *)
Definition decide_outcome (cfg : CoordinatorConfig) (t : DistributedTxnId) (ps : list Z)
    (votes : gmap Z PrepareVote) (errors : list Z) (r : Run) : DbResult CommitOutcome * Run :=
  match abort_reason votes errors with
  | Some reason =>
      let r1 := rollback_all cfg t ps r in
      let '(_, r2) := local t (on_registry (abort t)) r1 in
      let '(_, r3) := local t (on_registry (forget t)) r2 in
      (Ok (OutcomeAborted reason), r3)
  | None =>
      match local t (on_registry (stage t)) r with
      | (Err _, r1) => (Err Internal, r1)
      | (Ok _, r1) =>
          let '(commit_ts, r2) := local t clock_now r1 in
          match local t (on_registry (TxnRecord.commit t commit_ts)) r2 with
          | (Err _, r3) => (Err Internal, r3)
          | (Ok _, r3) =>
              match commit_all cfg t commit_ts ps r3 with
              | (Err e, r4) => (Err e, r4)
              | (Ok _, r4) =>
                  let '(_, r5) := local t (on_registry (forget t)) r4 in
                  (Ok (OutcomeCommitted commit_ts), r5)
              end
          end
      end
  end.

(** [execute]; [book] is the set of registered participants. *)
Definition execute (cfg : CoordinatorConfig) (book : gset Z) (t : DistributedTxnId) (prio : Z)
    (participants : list Z) (sp : list KeySpan) (r : Run) : DbResult CommitOutcome * Run :=
  if decide (participants = []) then (Err Internal, r)
  else
    let '(start, r1) := local t clock_now r in
    match local t (on_registry (register t start prio)) r1 with
    | (false, r2) => (Err Internal, r2)
    | (true, r2) =>
        match local t (on_registry (declare_write_spans t sp)) r2 with
        | (Err _, r3) => (Err Internal, r3)
        | (Ok _, r3) =>
            if decide (Forall (fun p => p ∈ book) participants) then
              let micros := if prepare_timeout cfg <=? u64_max then prepare_timeout cfg else 0 in
              let deadline := mkHlc (saturating_add u64_max (wall_time_us start) micros) 0 in
              let '(votes, errors, r4) := prepare_all t sp deadline participants ∅ [] r3 in
              decide_outcome cfg t participants votes errors r4
            else (Err Internal, r3)
        end
    end.

(** ** Interference and traces *)

Lemma interferes_refl t (s : Shared W) : interferes t s s.
Proof. exists []. split; [constructor|done]. Qed.

Lemma interferes_trans t (s1 s2 s3 : Shared W) :
  interferes t s1 s2 -> interferes t s2 s3 -> interferes t s1 s3.
Proof.
  intros (o1 & F1 & E1) (o2 & F2 & E2). exists (o1 ++ o2). split; [by apply Forall_app|].
  by rewrite run_ops_app, E2, E1.
Qed.

Lemma interferes_record t (s s' : Shared W) r :
  interferes t s s' -> records (registry s) !! t = Some r ->
  exists r', records (registry s') !! t = Some r' /\ record_le r r'.
Proof.
  intros (ops & Hf & ->) Hr. apply run_ops_frame; [|done].
  intros Hin. rewrite Forall_forall in Hf. by apply Hf in Hin as [? _].
Qed.

(** A relation that everything outside the coordinator respects during transaction [t]:
    [interferes] when the other tasks keep to [ParticipantLaws], and the one that always
    holds. *)
Record quiet (t : DistributedTxnId) (R : relation (Shared W)) : Prop := {
  quiet_refl s : R s s;
  quiet_trans s1 s2 s3 : R s1 s2 -> R s2 s3 -> R s1 s3;
  quiet_prepare p sp d s : R s (snd (prepare p t sp d s));
  quiet_commit p ts s : R s (snd (commit p t ts s));
  quiet_rollback p s : R s (snd (rollback p t s));
  quiet_others s : R s (others_run t s)
}.

Definition anything : relation (Shared W) := fun _ _ => True.

Lemma anything_quiet t : quiet t anything.
Proof. by split. Qed.

Lemma interferes_quiet `{!ParticipantLaws W} t : quiet t (interferes t).
Proof.
  split; [apply interferes_refl|apply interferes_trans|intros; apply prepare_quiet|intros; apply commit_quiet
    |intros; apply rollback_quiet|intros; apply others_quiet].
Qed.

Section Tracing.
Context (t : DistributedTxnId) (R : relation (Shared W)) (HR : quiet t R).

(** [r'] continues [r] with the events [evs]. *)
Definition advance (evs : list Event) (r r' : Run) : Prop :=
  trace r' = trace r ++ evs /\ R (shared r) (shared r').

Lemma advance_refl r : advance [] r r.
Proof. split; [by rewrite app_nil_r|apply (quiet_refl _ _ HR)]. Qed.

Lemma advance_trans e1 e2 r1 r2 r3 :
  advance e1 r1 r2 -> advance e2 r2 r3 -> advance (e1 ++ e2) r1 r3.
Proof.
  intros [T1 I1] [T2 I2]. split; [by rewrite T2, T1, app_assoc|by eapply (quiet_trans _ _ HR)].
Qed.

Lemma advance_emit e s r : R (shared r) s -> advance [e] r (emit e s r).
Proof. done. Qed.

(** *** Commit broadcast *)

Definition commit_event (p : Z) (ts : HlcTimestamp) (e : Event) : Prop :=
  (exists b, e = EvCommit p ts b) \/ exists d, e = EvSleep d.

Lemma commit_one_spec n ts delay p r b r' :
  commit_one n t ts delay p r = (b, r') ->
  exists evs, advance evs r r' /\ Forall (commit_event p ts) evs /\
    (EvCommit p ts true ∈ evs <-> b = true).
Proof.
  revert delay r. induction n as [|n IH]; intros delay r; cbn [commit_one];
    pose proof (quiet_commit _ _ HR p ts (shared r)) as Hq;
    destruct (commit p t ts (shared r)) as [reply s]; simpl in Hq;
    pose proof (advance_emit (EvCommit p ts (acked reply)) s r Hq) as Ha;
    assert (Hev : commit_event p ts (EvCommit p ts (acked reply))) by (left; eauto);
    destruct (acked reply) eqn:Eack.
  1,3: intros [= <- <-]; eexists; (split; [exact Ha|]); (split; [by constructor|]);
    rewrite list_elem_of_singleton; done.
  - intros [= <- <-]. eexists. split; [exact Ha|]. split; [by constructor|].
    rewrite list_elem_of_singleton. done.
  - intros Hrec. apply IH in Hrec as (evs & Ha' & Hf & Hb).
    pose proof (advance_emit (EvSleep delay) _ (emit (EvCommit p ts false) s r)
      (quiet_others _ _ HR s)) as Hs.
    exists ([EvCommit p ts false] ++ [EvSleep delay] ++ evs). split.
    { eapply advance_trans; [exact Ha|]. eapply advance_trans; [exact Hs|exact Ha']. }
    split; [constructor; [done|]; constructor; [right; eauto|done]|].
    rewrite <- Hb. simpl. rewrite !elem_of_cons. naive_solver.
Qed.

Lemma commit_all_spec cfg ts ps r res r' :
  commit_all cfg t ts ps r = (res, r') ->
  exists evs, advance evs r r' /\
    Forall (fun e => exists p, p ∈ ps /\ commit_event p ts e) evs /\
    match res with
    | Ok _ => forall p, p ∈ ps -> EvCommit p ts true ∈ evs
    | Err e => e = Internal /\ ps <> []
    end.
Proof.
  revert r. induction ps as [|p ps IH]; intros r; cbn [commit_all].
  - intros [= <- <-]. exists []. split; [apply advance_refl|]. split; [constructor|].
    by intros p ?%elem_of_nil.
  - destruct (commit_one _ t ts _ p r) as [b r1] eqn:E1.
    apply commit_one_spec in E1 as (e1 & A1 & F1 & B1).
    assert (F1' : Forall (fun e => exists q, q ∈ p :: ps /\ commit_event q ts e) e1).
    { eapply Forall_impl; [exact F1|]. intros e He. exists p. split; [left|done]. }
    destruct b.
    + intros Hrec. apply IH in Hrec as (e2 & A2 & F2 & B2). exists (e1 ++ e2).
      split; [by eapply advance_trans|]. split.
      * apply Forall_app. split; [done|]. eapply Forall_impl; [exact F2|].
        intros e (q & Hq & He). exists q. split; [by right|done].
      * destruct res as [a|e]; [|naive_solver]. intros q [->|Hq]%elem_of_cons; apply elem_of_app.
        -- left. by apply B1.
        -- right. auto.
    + intros [= <- <-]. eauto 10.
Qed.

(** *** Rollback broadcast *)

Definition rollback_event (e : Event) : Prop :=
  (exists p b, e = EvRollback p b) \/ exists d, e = EvSleep d.

Lemma rollback_one_spec n delay p r :
  exists evs, advance evs r (rollback_one n t delay p r) /\ Forall rollback_event evs /\
    exists b, EvRollback p b ∈ evs.
Proof.
  revert delay r. induction n as [|n IH]; intros delay r; cbn [rollback_one];
    pose proof (quiet_rollback _ _ HR p (shared r)) as Hq;
    destruct (rollback p t (shared r)) as [reply s]; simpl in Hq;
    pose proof (advance_emit (EvRollback p (acked reply)) s r Hq) as Ha;
    assert (Hev : rollback_event (EvRollback p (acked reply))) by (left; eauto);
    destruct (acked reply) eqn:Eack.
  1,2,3: eexists; (split; [exact Ha|]); (split; [by constructor|]);
    eexists; by apply list_elem_of_singleton.
  pose proof (advance_emit (EvSleep delay) _ (emit (EvRollback p false) s r)
    (quiet_others _ _ HR s)) as Hs.
  destruct (IH (next_delay delay) (emit (EvSleep delay) (others_run t s)
    (emit (EvRollback p false) s r))) as (evs & A & F & _).
  exists ([EvRollback p false] ++ [EvSleep delay] ++ evs). split.
  { eapply advance_trans; [exact Ha|]. eapply advance_trans; [exact Hs|exact A]. }
  split; [constructor; [done|]; constructor; [right; eauto|done]|]. exists false. left.
Qed.

Lemma rollback_all_spec cfg ps r :
  exists evs, advance evs r (rollback_all cfg t ps r) /\ Forall rollback_event evs /\
    forall p, p ∈ ps -> exists b, EvRollback p b ∈ evs.
Proof.
  revert r. induction ps as [|p ps IH]; intros r; cbn [rollback_all].
  - exists []. split; [apply advance_refl|]. split; [constructor|]. by intros p ?%elem_of_nil.
  - destruct (rollback_one_spec (commit_retries cfg) (retry_initial_delay cfg) p r)
      as (e1 & A1 & F1 & b & B1).
    destruct (IH (rollback_one (commit_retries cfg) t (retry_initial_delay cfg) p r))
      as (e2 & A2 & F2 & B2).
    exists (e1 ++ e2). split; [by eapply advance_trans|]. split; [by apply Forall_app|].
    intros q [->|Hq]%elem_of_cons; [exists b|destruct (B2 q Hq) as [b' ?]; exists b'];
      apply elem_of_app; auto.
Qed.

(** *** Votes *)

Definition yes_event (e : Event) : Prop := exists p ts, e = EvPrepare p (Some (Ok (Yes ts))).

#[global] Instance yes_event_dec e : Decision (yes_event e).
Proof.
  destruct e as [p [[[ts|]|]|]| | |]; [left; by exists p, ts|right..]; by intros (? & ? & ?).
Defined.

Lemma abort_reason_None votes errors :
  abort_reason votes errors = None <->
  errors = [] /\ forall p v, votes !! p = Some v -> exists ts, v = Yes ts.
Proof.
  unfold abort_reason. destruct errors as [|e errors]; [|naive_solver].
  assert (Hv : forall p v, votes !! p = Some v <-> (p, v) ∈ map_to_list votes).
  { intros. by rewrite elem_of_map_to_list. }
  setoid_rewrite Hv. clear Hv. induction (map_to_list votes) as [|[p v] l IH]; csimpl.
  - split; [|done]. intros _. split; [done|]. by intros p v ?%elem_of_nil.
  - setoid_rewrite elem_of_cons. destruct v as [ts|reason]; simpl.
    + rewrite IH. naive_solver.
    + split; [done|]. intros [_ Hall]. destruct (Hall p (No reason)); [by left|done].
Qed.

Lemma abort_reason_insert votes errors p v :
  votes !! p = None ->
  abort_reason (<[p := v]> votes) errors = None <->
  abort_reason votes errors = None /\ exists ts, v = Yes ts.
Proof.
  intros Hp. rewrite !abort_reason_None. split.
  - intros [-> Hall]. split; [split; [done|]|].
    + intros q v' Hq'. apply (Hall q). rewrite lookup_insert_ne; [done|]. congruence.
    + apply (Hall p). apply lookup_insert_eq.
  - intros [[-> Hall] [ts ->]]. split; [done|]. intros q v'. rewrite lookup_insert.
    case_decide; [naive_solver|eauto].
Qed.

Lemma prepare_all_spec sp d ps votes errors r votes' errors' r' :
  NoDup ps -> (forall p, p ∈ ps -> votes !! p = None) ->
  prepare_all t sp d ps votes errors r = (votes', errors', r') ->
  exists evs, advance evs r r' /\
    Forall (fun e => exists p reply, e = EvPrepare p reply) evs /\
    (forall p, p ∈ ps -> exists reply, EvPrepare p reply ∈ evs) /\
    (abort_reason votes' errors' = None <->
     abort_reason votes errors = None /\ Forall yes_event evs).
Proof.
  revert votes errors r. induction ps as [|p ps IH]; intros votes errors r Hnd Hv;
    cbn [prepare_all].
  - intros [= <- <- <-]. exists []. split; [apply advance_refl|]. split; [constructor|].
    split; [by intros p ?%elem_of_nil|]. split; [by repeat constructor|naive_solver].
  - apply NoDup_cons in Hnd as [Hp Hnd]. unfold prepare_one.
    pose proof (quiet_prepare _ _ HR p sp d (shared r)) as Hq.
    destruct (prepare p t sp d (shared r)) as [reply s]. simpl in Hq.
    pose proof (advance_emit (EvPrepare p reply) s r Hq) as Ha.
    set (r1 := emit (EvPrepare p reply) s r) in *.
    assert (Hgo : forall votes1 errors1,
      (forall q, q ∈ ps -> votes1 !! q = None) ->
      (abort_reason votes1 errors1 = None <->
       abort_reason votes errors = None /\ yes_event (EvPrepare p reply)) ->
      prepare_all t sp d ps votes1 errors1 r1 = (votes', errors', r') ->
      exists evs, advance evs r r' /\
        Forall (fun e => exists p reply, e = EvPrepare p reply) evs /\
        (forall q, q ∈ p :: ps -> exists reply, EvPrepare q reply ∈ evs) /\
        (abort_reason votes' errors' = None <->
         abort_reason votes errors = None /\ Forall yes_event evs)).
    { intros votes1 errors1 Hv1 Hr Hrec.
      apply IH in Hrec as (evs & A & F & P & Q); [|done|done].
      exists ([EvPrepare p reply] ++ evs). split; [by eapply advance_trans|].
      split; [constructor; [eauto|done]|]. split.
      - intros q [->|Hq']%elem_of_cons; [exists reply; left|].
        destruct (P q Hq') as [reply' ?]. exists reply'. by right.
      - rewrite Q, Hr. simpl. rewrite Forall_cons. tauto. }
    assert (Hins : forall v, forall q, q ∈ ps -> (<[p := v]> votes : gmap Z PrepareVote) !! q = None).
    { intros v q Hq'. rewrite lookup_insert_ne by congruence. apply Hv. by right. }
    assert (Hreason : forall v, abort_reason (<[p := v]> votes) errors = None <->
      abort_reason votes errors = None /\ exists ts, v = Yes ts)
      by (intros v; apply abort_reason_insert, Hv; left).
    destruct reply as [[vote|e]|]; apply Hgo; auto.
    + rewrite Hreason. unfold yes_event. naive_solver.
    + intros q Hq'. apply Hv. by right.
    + rewrite !abort_reason_None. unfold yes_event. split; [|naive_solver].
      intros [E _]. by destruct errors.
    + rewrite Hreason. unfold yes_event. naive_solver.
Qed.

End Tracing.

(** *** What a run sends *)

Lemma local_trace {A} t (f : Shared W -> A * Shared W) r : trace (snd (local t f r)) = trace r.
Proof. unfold local. by destruct (f _). Qed.

(** The events of the second phase. *)
Lemma decide_trace cfg t ps votes errors r res r' :
  decide_outcome cfg t ps votes errors r = (res, r') ->
  exists evs, trace r' = trace r ++ evs /\
    match abort_reason votes errors with
    | Some _ => Forall rollback_event evs
    | None => exists ts, Forall (fun e => exists p, p ∈ ps /\ commit_event p ts e) evs
    end.
Proof.
  unfold decide_outcome. destruct (abort_reason votes errors) as [why|].
  - destruct (rollback_all_spec t anything (anything_quiet t) cfg ps r) as (evs & [Ht _] & Hf & _).
    destruct (local t (on_registry (abort t)) _) as [a1 r1] eqn:E1.
    destruct (local t (on_registry (forget t)) r1) as [a2 r2] eqn:E2. intros [= <- <-].
    pose proof (local_trace t (on_registry (abort t)) (rollback_all cfg t ps r)) as T1. rewrite E1 in T1.
    pose proof (local_trace t (on_registry (forget t)) r1) as T2. rewrite E2 in T2. cbn [snd] in *.
    exists evs. by rewrite T2, T1.
  - assert (Hnil : exists ts : HlcTimestamp, Forall (fun e => exists p, p ∈ ps /\ commit_event p ts e) [])
      by (by exists (mkHlc 0 0)).
    pose proof (local_trace t (on_registry (stage t)) r) as T1.
    destruct (local t (on_registry (stage t)) r) as [[?|?] r1]; cbn [snd] in T1;
      [|intros [= <- <-]; exists []; by rewrite T1, app_nil_r].
    pose proof (local_trace t clock_now r1) as T2. destruct (local t clock_now r1) as [ts r2]. cbn [snd] in T2.
    pose proof (local_trace t (on_registry (TxnRecord.commit t ts)) r2) as T3.
    destruct (local t (on_registry (TxnRecord.commit t ts)) r2) as [[?|?] r3]; cbn [snd] in T3;
      [|intros [= <- <-]; exists []; by rewrite T3, T2, T1, app_nil_r].
    destruct (commit_all cfg t ts ps r3) as [res3 r4] eqn:E3.
    apply (commit_all_spec t anything (anything_quiet t)) in E3 as (evs & [Ht _] & Hf & _). rewrite T3, T2, T1 in Ht.
    pose proof (local_trace t (on_registry (forget t)) r4) as T5.
    destruct res3; [|intros [= <- <-]; eauto].
    destruct (local t (on_registry (forget t)) r4) as [? r5]. intros [= <- <-]. cbn [snd] in T5. rewrite T5. eauto.
Qed.

(** Nothing was sent, or the votes and then the second phase they allow. *)
Lemma execute_trace cfg book t prio ps sp r res r' :
  NoDup ps -> execute cfg book t prio ps sp r = (res, r') ->
  trace r' = trace r \/
  exists votes evs, trace r' = trace r ++ votes ++ evs /\
    Forall (fun e => exists p reply, e = EvPrepare p reply) votes /\
    (forall p, p ∈ ps -> exists reply, EvPrepare p reply ∈ votes) /\
    (Forall rollback_event evs \/
     Forall yes_event votes /\ exists ts, Forall (fun e => exists p, p ∈ ps /\ commit_event p ts e) evs).
Proof.
  intros Hnd. unfold execute. case_decide; [intros [= <- <-]; by left|].
  pose proof (local_trace t clock_now r) as T1. destruct (local t clock_now r) as [start r1]. cbn [snd] in T1.
  pose proof (local_trace t (on_registry (register t start prio)) r1) as T2.
  destruct (local t (on_registry (register t start prio)) r1) as [b r2]. cbn [snd] in T2.
  destruct b; [|intros [= <- <-]; left; congruence].
  pose proof (local_trace t (on_registry (declare_write_spans t sp)) r2) as T3.
  destruct (local t (on_registry (declare_write_spans t sp)) r2) as [[?|?] r3]; cbn [snd] in T3;
    [|intros [= <- <-]; left; congruence].
  case_decide; [|intros [= <- <-]; left; congruence].
  set (d := mkHlc _ _). destruct (prepare_all t sp d ps ∅ [] r3) as [[votes errors] r4] eqn:E3.
  apply (prepare_all_spec t anything (anything_quiet t)) in E3 as (pev & [Ht _] & Hf & Hp & Hr); [|done|by intros].
  intros (evs & Htr & Hev)%decide_trace. right. exists pev, evs.
  split; [by rewrite Htr, Ht, T3, T2, T1, <- app_assoc|]. split; [done|]. split; [done|].
  destruct (abort_reason votes errors); [by left|right]. split; [|done]. by apply Hr.
Qed.

(** [C15] Atomic commitment, for a list of participants without duplicates.  Whatever the
    participants answer and whatever other tasks do to the registry and the clock, a run
    that tells some participant to commit has collected a yes vote from every participant,
    sends every commit with one timestamp, and tells no participant to roll back.  With a
    participant listed twice a no vote can be lost ([duplicate_vote_lost]). *)
Theorem two_phase_atomic cfg book t prio ps sp s res r' p ts b :
  NoDup ps -> execute cfg book t prio ps sp (mkRun s []) = (res, r') ->
  EvCommit p ts b ∈ trace r' ->
  p ∈ ps /\
  (forall q, q ∈ ps -> exists pts, EvPrepare q (Some (Ok (Yes pts))) ∈ trace r') /\
  (forall q reply, EvPrepare q reply ∈ trace r' -> exists pts, reply = Some (Ok (Yes pts))) /\
  (forall q ts' b', EvCommit q ts' b' ∈ trace r' -> ts' = ts) /\
  (forall q b', EvRollback q b' ∉ trace r').
Proof.
  intros Hnd He Hc. destruct (execute_trace _ _ _ _ _ _ _ _ _ Hnd He) as [Ht|Hs].
  { rewrite Ht in Hc. by apply elem_of_nil in Hc. }
  destruct Hs as (votes & evs & Ht & Hv & Hall & Hph). simpl in Ht. rewrite Ht in *.
  rewrite Forall_forall in Hv. assert (Hce : EvCommit p ts b ∈ evs).
  { apply elem_of_app in Hc as [Hc|Hc]; [|done]. by destruct (Hv _ Hc) as (? & ? & ?). }
  destruct Hph as [Hf|[Hyes (ts0 & Hf)]]; rewrite Forall_forall in Hf.
  { destruct (Hf _ Hce) as [(? & ? & ?)|[? ?]]; done. }
  rewrite Forall_forall in Hyes.
  destruct (Hf _ Hce) as (p' & Hp & [[? [= <- <- <-]]|[? ?]]); [|done]. split_and!.
  - done.
  - intros q Hq. destruct (Hall q Hq) as [reply Hin]. pose proof (Hyes _ Hin) as (? & pts & [= -> ->]).
    exists pts. apply elem_of_app. by left.
  - intros q reply [Hin|Hin]%elem_of_app.
    + destruct (Hyes _ Hin) as (? & pts & [= _ ->]). eauto.
    + destruct (Hf _ Hin) as (? & _ & [[? ?]|[? ?]]); done.
  - intros q ts' b' [Hin|Hin]%elem_of_app; [by destruct (Hv _ Hin) as (? & ? & ?)|].
    destruct (Hf _ Hin) as (? & _ & [[? [= _ -> _]]|[? ?]]); done.
  - intros q b' [Hin|Hin]%elem_of_app; [by destruct (Hv _ Hin) as (? & ? & ?)|].
    destruct (Hf _ Hin) as (? & _ & [[? ?]|[? ?]]); done.
Qed.

Context {HL : ParticipantLaws W}.

(** *** The decision *)

Definition live (g : DistributedTxnRegistry) (t : DistributedTxnId) : Prop :=
  exists r, records g !! t = Some r /\ status r <> Committed.

Definition committed_at (g : DistributedTxnRegistry) (t : DistributedTxnId) (ts : HlcTimestamp) :
    Prop :=
  exists r, records g !! t = Some r /\ status r = Committed /\ rec_commit_ts r = ts.

Definition aborted_in (g : DistributedTxnRegistry) (t : DistributedTxnId) : Prop :=
  exists r, records g !! t = Some r /\ status r = Aborted.

Lemma apply_op_live op g t : foreign_op t op -> live g t -> live (snd (apply_op op g)) t.
Proof.
  intros [Hf Hc] (r & Hr & Hs). destruct (apply_op_frame op g t r Hf Hr) as (r' & Hr' & _).
  exists r'. split; [done|]. revert Hr'. clear Hf.
  destruct op as [i n p|i n|i sp|i sp|i|i ts|i|i|i p n]; simpl; unfold register, heartbeat,
    declare_write_spans, declare_read_spans, stage, TxnRecord.commit, abort, forget, push, modify;
    destruct (records g !! i) as [[? st ? ? ? ? ?]|] eqn:Ei; simpl; try congruence.
  all: try (destruct (decide (i = t)) as [->|Hne];
    [rewrite Hr in Ei; simplify_eq/=|]).
  all: repeat case_match; simplify_eq/=; rewrite ?lookup_insert, ?lookup_delete;
    repeat case_decide; intros; simplify_eq/=; try done; try congruence.
  all: naive_solver.
Qed.

Lemma interferes_live t (s s' : Shared W) :
  interferes t s s' -> live (registry s) t -> live (registry s') t.
Proof.
  intros (ops & Hf & ->). generalize (registry s). induction Hf as [|op ops Hop _ IH]; [done|].
  intros g Hg. simpl. pose proof (apply_op_live op g t Hop Hg) as Hl.
  destruct (apply_op op g) as [res g1]. simpl in Hl. specialize (IH g1 Hl).
  by destruct (run_ops ops g1).
Qed.

Lemma interferes_committed t ts (s s' : Shared W) :
  interferes t s s' -> committed_at (registry s) t ts -> committed_at (registry s') t ts.
Proof.
  intros Hi (r & Hr & Hs & Hts). destruct (interferes_record _ _ _ _ Hi Hr) as (r' & Hr' & Hle).
  destruct Hle as (_ & _ & _ & Hfin & _). rewrite Hfin in Hr' by by rewrite Hs.
  by exists r.
Qed.

Lemma interferes_aborted t (s s' : Shared W) :
  interferes t s s' -> aborted_in (registry s) t -> aborted_in (registry s') t.
Proof.
  intros Hi (r & Hr & Hs). destruct (interferes_record _ _ _ _ Hi Hr) as (r' & Hr' & Hle).
  destruct Hle as (_ & _ & _ & Hfin & _). rewrite Hfin in Hr' by by rewrite Hs.
  by exists r.
Qed.

(** A registry call sees the registry after other tasks ran. *)
Lemma local_registry {A} t (f : DistributedTxnRegistry -> A * DistributedTxnRegistry) r :
  let g := registry (others_run t (shared r)) in
  local t (on_registry f) r =
    (fst (f g), mkRun (mkShared (snd (f g)) (clock (others_run t (shared r)))
                                (world (others_run t (shared r)))) (trace r)).
Proof. unfold local, on_registry. simpl. by destruct (f _). Qed.

Lemma forget_final g t :
  (exists r, records g !! t = Some r /\ is_final (status r) = true) ->
  records (snd (forget t g)) !! t = None.
Proof. intros (r & Hr & Hf). unfold forget. rewrite Hr, Hf. simpl. apply lookup_delete_eq. Qed.

Lemma abort_live g t : live g t -> aborted_in (snd (abort t g)) t.
Proof.
  intros (r & Hr & Hs). unfold abort, modify, aborted_in. rewrite Hr.
  destruct (status r) eqn:Es; simpl; rewrite ?lookup_insert_eq; eauto; done.
Qed.

Lemma stage_live g t res g' :
  live g t -> stage t g = (res, g') ->
  match res with Ok _ => live g' t | Err _ => aborted_in g' t end.
Proof.
  intros (r & Hr & Hs). unfold stage, modify. rewrite Hr.
  destruct (status r) eqn:Es; try done; intros [= <- <-]; unfold live, aborted_in; simpl;
    rewrite ?lookup_insert_eq; eauto; eexists; (split; [done|]); done.
Qed.

Lemma commit_live g t ts res g' :
  live g t -> TxnRecord.commit t ts g = (res, g') ->
  match res with Ok _ => committed_at g' t ts | Err _ => aborted_in g' t end.
Proof.
  intros (r & Hr & Hs). unfold TxnRecord.commit, modify. rewrite Hr.
  destruct (status r) eqn:Es; try done; intros [= <- <-]; unfold committed_at, aborted_in; simpl;
    rewrite ?lookup_insert_eq; eauto; eexists; (split; [done|]); done.
Qed.

(** The events of the second phase, by outcome. *)
Definition phase_two (cfg : CoordinatorConfig) (t : DistributedTxnId) (ps : list Z)
    (reason : option AbortReason) (res : DbResult CommitOutcome) (evs : list Event)
    (g : DistributedTxnRegistry) : Prop :=
  match res with
  | Ok (OutcomeCommitted ts) =>
      reason = None /\ Forall (fun e => exists p, p ∈ ps /\ commit_event p ts e) evs /\
      (forall p, p ∈ ps -> EvCommit p ts true ∈ evs) /\ records g !! t = None
  | Ok (OutcomeAborted why) =>
      reason = Some why /\ Forall rollback_event evs /\
      (forall p, p ∈ ps -> exists b, EvRollback p b ∈ evs) /\ records g !! t = None
  | Err e =>
      e = Internal /\ reason = None /\
      (evs = [] /\ aborted_in g t \/
       exists ts, Forall (fun e => exists p, p ∈ ps /\ commit_event p ts e) evs /\
         committed_at g t ts)
  end.

Lemma decide_abort_spec cfg t ps votes errors r why :
  live (registry (shared r)) t -> abort_reason votes errors = Some why ->
  exists evs, trace (snd (decide_outcome cfg t ps votes errors r)) = trace r ++ evs /\
    phase_two cfg t ps (Some why) (fst (decide_outcome cfg t ps votes errors r)) evs
      (registry (shared (snd (decide_outcome cfg t ps votes errors r)))).
Proof.
  intros Hl Hwhy. unfold decide_outcome. rewrite Hwhy.
  destruct (rollback_all_spec t (interferes t) (interferes_quiet t) cfg ps r) as (evs & [Ht Hi] & Hf & Hb).
  rewrite !local_registry. simpl. exists evs. split; [done|]. split_and!; [done..|].
  apply forget_final.
  apply (interferes_live _ _ _ Hi), (interferes_live _ _ _ (others_quiet t _)) in Hl.
  pose proof (abort_live _ _ Hl) as Ha. pose proof (interferes_aborted t
    (mkShared (snd (abort t (registry (others_run t (shared (rollback_all cfg t ps r))))))
      (clock (others_run t (shared (rollback_all cfg t ps r))))
      (world (others_run t (shared (rollback_all cfg t ps r))))) _ (others_quiet t _) Ha) as Ha'.
  destruct Ha' as (rec & Hrec & Hs). exists rec. by rewrite Hs.
Qed.

Lemma decide_commit_spec cfg t ps votes errors r res r' :
  live (registry (shared r)) t -> abort_reason votes errors = None ->
  decide_outcome cfg t ps votes errors r = (res, r') ->
  exists evs, trace r' = trace r ++ evs /\
    phase_two cfg t ps None res evs (registry (shared r')).
Proof.
  intros Hl Hnone. unfold decide_outcome. rewrite Hnone, local_registry.
  apply (interferes_live _ _ _ (others_quiet t _)) in Hl.
  destruct (stage t _) as [res1 g1] eqn:E1. apply stage_live in E1; [|done].
  cbn [fst snd]. destruct res1 as [a1|e1].
  2:{ intros [= <- <-]. exists []. simpl. rewrite app_nil_r. naive_solver. }
  unfold local at 1. set (r1 := mkRun _ _). unfold clock_now.
  destruct (now _ _) as [ts c] eqn:Enow.
  apply (interferes_live t (shared r1) _ (others_quiet t _)) in E1. rewrite local_registry.
  set (r2 := mkRun _ _). apply (interferes_live t (shared r2) _ (others_quiet t _)) in E1.
  destruct (TxnRecord.commit t ts _) as [res2 g2] eqn:E2. apply commit_live in E2; [|done].
  cbn [fst snd]. destruct res2 as [a2|e2].
  2:{ intros [= <- <-]. exists []. simpl. rewrite app_nil_r. naive_solver. }
  set (r3 := mkRun _ _). destruct (commit_all cfg t ts ps r3) as [res3 r4] eqn:E3.
  apply (commit_all_spec t (interferes t) (interferes_quiet t)) in E3 as (evs & [Ht Hi] & Hf & Hr).
  apply (interferes_committed t ts _ _ Hi) in E2.
  destruct res3 as [a3|e3].
  - rewrite local_registry. intros [= <- <-]. exists evs. split; [done|]. split_and!; [done..|].
    apply forget_final. apply (interferes_committed t ts _ _ (others_quiet t _)) in E2.
    destruct E2 as (rec & Hrec & Hs & _). exists rec. by rewrite Hs.
  - intros [= <- <-]. exists evs. split; [done|]. destruct Hr as [-> _]. split_and!; [done|done|].
    right. eauto.
Qed.

(** A whole run: nothing was sent, or the votes and then the second phase. *)
Lemma execute_spec cfg book t prio ps sp r res r' :
  NoDup ps -> execute cfg book t prio ps sp r = (res, r') ->
  res = Err Internal /\ trace r' = trace r \/
  exists votes evs reason, trace r' = trace r ++ votes ++ evs /\
    Forall (fun e => exists p reply, e = EvPrepare p reply) votes /\
    (forall p, p ∈ ps -> exists reply, EvPrepare p reply ∈ votes) /\
    (reason = None <-> Forall yes_event votes) /\
    phase_two cfg t ps reason res evs (registry (shared r')).
Proof.
  intros Hnd. unfold execute. case_decide; [intros [= <- <-]; by left|].
  unfold local at 1, clock_now. destruct (now _ _) as [start c]. rewrite local_registry.
  set (r1 := mkRun _ _). destruct (register t start prio _) as [b g1] eqn:E1. cbn [fst snd].
  destruct b; [|intros [= <- <-]; by left]. rewrite local_registry. set (r2 := mkRun _ _).
  assert (Hlive : live (registry (shared r2)) t).
  { unfold register in E1. destruct (records _ !! t); [done|]. injection E1 as <-.
    eexists. split; [apply lookup_insert_eq|done]. }
  apply (interferes_live t (shared r2) _ (others_quiet t _)) in Hlive.
  destruct (declare_write_spans t sp _) as [res1 g2] eqn:E2. cbn [fst snd].
  destruct res1 as [a1|e1]; [|intros [= <- <-]; by left]. set (r3 := mkRun _ _).
  case_decide; [|intros [= <- <-]; by left].
  assert (Hlive3 : live (registry (shared r3)) t).
  { assert (g2 = snd (apply_op (OpWriteSpans t sp) (registry (others_run t (shared r2))))) as Hg2
      by (cbn [apply_op]; by rewrite E2).
    cbn [shared registry r3]. rewrite Hg2. apply apply_op_live; [|done]. by split. }
  set (d := mkHlc _ _). destruct (prepare_all t sp d ps ∅ [] r3) as [[votes errors] r4] eqn:E3.
  apply (prepare_all_spec t (interferes t) (interferes_quiet t)) in E3 as (pev & [Ht Hi] & Hf & Hp & Hr); [|done|by intros].
  apply (interferes_live _ _ _ Hi) in Hlive3. intros Hdec. right.
  assert (Hout : exists evs, trace r' = trace r4 ++ evs /\
    phase_two cfg t ps (abort_reason votes errors) res evs (registry (shared r'))).
  { destruct (abort_reason votes errors) as [why|] eqn:Ewhy.
    - pose proof (decide_abort_spec cfg t ps votes errors r4 why Hlive3 Ewhy) as Hs.
      by rewrite Hdec in Hs.
    - by eapply decide_commit_spec. }
  destruct Hout as (evs & Htr & Hph). exists pev, evs, (abort_reason votes errors).
  split_and!; [by rewrite Htr, Ht, <- app_assoc|done|done| |done].
  rewrite Hr. rewrite abort_reason_None. split; [naive_solver|]. intros Hy.
  split; [|done]. split; [done|]. intros p v. by rewrite lookup_empty.
Qed.

(** *** Number of remote calls *)

Definition is_rpc (e : Event) : bool := match e with EvSleep _ => false | _ => true end.

Definition rpcs (l : list Event) : nat := length (filter (fun e => is_rpc e = true) l).

Lemma rpcs_snoc l e : rpcs (l ++ [e]) = (rpcs l + (if is_rpc e then 1 else 0))%nat.
Proof. unfold rpcs. rewrite filter_app, length_app. by destruct e. Qed.

Lemma commit_one_rpcs n t ts delay p r :
  (rpcs (trace (snd (commit_one n t ts delay p r))) <= rpcs (trace r) + S n)%nat.
Proof.
  revert delay r. induction n as [|n IH]; intros delay r; cbn [commit_one];
    destruct (commit p t ts (shared r)) as [reply s]; case_match; cbn [snd];
    try (simpl; rewrite rpcs_snoc; simpl; lia).
  etransitivity; [apply IH|]. simpl. rewrite !rpcs_snoc. simpl. lia.
Qed.

Lemma commit_all_rpcs cfg t ts ps r :
  (rpcs (trace (snd (commit_all cfg t ts ps r)))
    <= rpcs (trace r) + length ps * S (commit_retries cfg))%nat.
Proof.
  revert r. induction ps as [|p ps IH]; intros r; cbn [commit_all length]; [simpl; lia|].
  pose proof (commit_one_rpcs (commit_retries cfg) t ts (retry_initial_delay cfg) p r) as H1.
  destruct (commit_one _ t ts _ p r) as [[|] r1]; cbn [snd] in *; [|lia].
  specialize (IH r1). lia.
Qed.

Lemma rollback_one_rpcs n t delay p r :
  (rpcs (trace (rollback_one n t delay p r)) <= rpcs (trace r) + S n)%nat.
Proof.
  revert delay r. induction n as [|n IH]; intros delay r; cbn [rollback_one];
    destruct (rollback p t (shared r)) as [reply s]; case_match;
    try (simpl; rewrite rpcs_snoc; simpl; lia).
  etransitivity; [apply IH|]. simpl. rewrite !rpcs_snoc. simpl. lia.
Qed.

Lemma rollback_all_rpcs cfg t ps r :
  (rpcs (trace (rollback_all cfg t ps r))
    <= rpcs (trace r) + length ps * S (commit_retries cfg))%nat.
Proof.
  revert r. induction ps as [|p ps IH]; intros r; cbn [rollback_all length]; [lia|].
  pose proof (rollback_one_rpcs (commit_retries cfg) t (retry_initial_delay cfg) p r).
  etransitivity; [apply IH|]. lia.
Qed.

Lemma prepare_all_rpcs t sp d ps votes errors r :
  rpcs (trace (snd (prepare_all t sp d ps votes errors r))) = (rpcs (trace r) + length ps)%nat.
Proof.
  revert votes errors r. induction ps as [|p ps IH]; intros votes errors r;
    cbn [prepare_all length]; [simpl; lia|].
  unfold prepare_one. destruct (prepare p t sp d (shared r)) as [reply s].
  destruct reply as [[v|e]|]; rewrite IH; simpl; rewrite rpcs_snoc; simpl; lia.
Qed.

Lemma decide_outcome_rpcs cfg t ps votes errors r :
  (rpcs (trace (snd (decide_outcome cfg t ps votes errors r)))
    <= rpcs (trace r) + length ps * S (commit_retries cfg))%nat.
Proof.
  unfold decide_outcome. destruct (abort_reason votes errors).
  - rewrite !local_registry. apply rollback_all_rpcs.
  - rewrite local_registry. destruct (fst (stage t _)); [|simpl; lia].
    unfold local at 1, clock_now. destruct (now _ _) as [ts c]. rewrite local_registry.
    destruct (fst (TxnRecord.commit t ts _)); [|simpl; lia]. set (r3 := mkRun _ _).
    pose proof (commit_all_rpcs cfg t ts ps r3) as Hc.
    destruct (commit_all cfg t ts ps r3) as [[?|?] r4]; [|done]. rewrite local_registry. done.
Qed.

(** ** Theorems *)

(** [C31] What each answer of the coordinator means, for a list of participants without
    duplicates and other tasks that neither forget nor commit the record of the transaction
    ([ParticipantLaws]; they may push, abort, stage or extend it).  Committed: every
    participant has acknowledged the commit, and the record is gone.  Aborted: some
    participant did not vote yes, nobody was told to commit, everybody was told to roll back,
    and the record is gone.  Error: nobody was told to roll back, and either nobody was told
    to commit, or the registry still holds the committed record, with the timestamp of the
    commits sent, so that another node can finish the protocol. *)
Theorem two_phase_outcome cfg book t prio ps sp s res r' :
  NoDup ps -> execute cfg book t prio ps sp (mkRun s []) = (res, r') ->
  match res with
  | Ok (OutcomeCommitted ts) =>
      (forall p, p ∈ ps -> EvCommit p ts true ∈ trace r') /\
      records (registry (shared r')) !! t = None
  | Ok (OutcomeAborted _) =>
      (exists p reply, EvPrepare p reply ∈ trace r' /\ ~ yes_event (EvPrepare p reply)) /\
      (forall p ts b, EvCommit p ts b ∉ trace r') /\
      (forall p, p ∈ ps -> exists b, EvRollback p b ∈ trace r') /\
      records (registry (shared r')) !! t = None
  | Err e =>
      e = Internal /\ (forall p b, EvRollback p b ∉ trace r') /\
      ((forall p ts b, EvCommit p ts b ∉ trace r') \/
       exists ts, committed_at (registry (shared r')) t ts /\
         forall p ts' b, EvCommit p ts' b ∈ trace r' -> ts' = ts)
  end.
Proof.
  intros Hnd He. destruct (execute_spec _ _ _ _ _ _ _ _ _ Hnd He) as [[-> Ht]|Hs].
  { rewrite Ht. split; [done|]. split; [|left]; intros *; apply not_elem_of_nil. }
  destruct Hs as (votes & evs & reason & Ht & Hv & Hall & Hy & Hph). simpl in Ht. rewrite Ht.
  rewrite Forall_forall in Hv.
  assert (Hnc : forall p ts b, EvCommit p ts b ∉ votes) by (intros * Hin; by destruct (Hv _ Hin) as (? & ? & ?)).
  assert (Hnr : forall p b, EvRollback p b ∉ votes) by (intros * Hin; by destruct (Hv _ Hin) as (? & ? & ?)).
  assert (Hcr : forall ts, Forall (fun e => exists p, p ∈ ps /\ commit_event p ts e) evs ->
    forall p b, EvRollback p b ∉ evs).
  { intros ts Hf p b Hin. rewrite Forall_forall in Hf.
    destruct (Hf _ Hin) as (? & _ & [[? ?]|[? ?]]); done. }
  destruct res as [[ts|why]|e]; unfold phase_two in Hph; setoid_rewrite elem_of_app.
  - naive_solver.
  - destruct Hph as (Hr & Hf & Hb & Hrec). rewrite Forall_forall in Hf. split_and!; [| |naive_solver|done].
    + destruct (decide (Forall yes_event votes)) as [Hyes|Hno%not_Forall_Exists];
        [by rewrite (proj2 Hy Hyes) in Hr| |apply _].
      apply Exists_exists in Hno as (e & Hin & Hne). destruct (Hv _ Hin) as (p & reply & ->).
      exists p, reply. split; [by left|done].
    + intros p ts b [Hin|Hin]; [by eapply Hnc|]. destruct (Hf _ Hin) as [(? & ? & ?)|[? ?]]; done.
  - destruct Hph as (-> & _ & [[-> _]|(ts & Hf & Hc)]); (split; [done|]).
    + setoid_rewrite elem_of_nil. naive_solver.
    + split; [naive_solver|]. right. exists ts. split; [done|]. rewrite Forall_forall in Hf.
      intros p ts' b [Hin|Hin]; [by apply Hnc in Hin|].
      destruct (Hf _ Hin) as (? & _ & [[? [= _ -> _]]|[? ?]]); done.
Qed.

(** The protocol ends.  However long participants stay silent, a run makes at
    most [commit_retries + 2] remote calls per participant. *)
Theorem two_phase_bounded cfg book t prio ps sp s :
  (rpcs (trace (snd (execute cfg book t prio ps sp (mkRun s []))))
    <= length ps * (commit_retries cfg + 2))%nat.
Proof.
  assert (H0 : forall s' : Shared W, (rpcs (trace (mkRun s' [])) <= length ps * (commit_retries cfg + 2))%nat)
    by (intros; apply Nat.le_0_l).
  unfold execute. case_decide; [apply H0|]. unfold local at 1, clock_now.
  destruct (now _ _) as [start c]. rewrite local_registry. cbn [fst snd].
  destruct (fst (register t start prio _)); [|apply H0]. rewrite local_registry.
  destruct (fst (declare_write_spans t sp _)); [|apply H0]. case_decide; [|apply H0].
  set (d := mkHlc _ _). set (r3 := mkRun _ _).
  pose proof (prepare_all_rpcs t sp d ps ∅ [] r3) as Hp.
  destruct (prepare_all t sp d ps ∅ [] r3) as [[votes errors] r4]. cbn [snd] in Hp.
  pose proof (decide_outcome_rpcs cfg t ps votes errors r4).
  change (rpcs (trace r3)) with 0%nat in Hp. lia.
Qed.

End Coordinator.

(** ** A concrete environment

    Participants whose prepare replies follow a script, whose commits fail a given
    number of times first, and an optional pusher that aborts the transaction once
    every vote is in. *)

Record Mock := mkMock {
  replies : list (option (DbResult PrepareVote));
  commit_failures : nat;
  pusher : bool
}.

Definition with_world {W} (s : Shared W) (w : W) : Shared W := mkShared (registry s) (clock s) w.

#[local] Instance mock_participants : TwoPhaseParticipant Mock := {
  prepare _ _ _ _ s :=
    let w := world s in
    match replies w with
    | [] => (None, s)
    | x :: rest => (x, with_world s (mkMock rest (commit_failures w) (pusher w)))
    end;
  commit _ _ _ s :=
    let w := world s in
    match commit_failures w with
    | O => (Some (Ok tt), s)
    | S n => (None, with_world s (mkMock (replies w) n (pusher w)))
    end;
  rollback _ _ s := (Some (Ok tt), s);
  others_run t s :=
    match replies (world s), pusher (world s) with
    | [], true => mkShared (snd (abort t (registry s))) (clock s) (world s)
    | _, _ => s
    end;
  wall_clock _ := 1000
}.

#[local] Instance mock_laws : ParticipantLaws Mock.
Proof.
  assert (Hsame : forall t (s s' : Shared Mock), registry s' = registry s -> interferes t s s').
  { intros t s s' E. exists []. split; [constructor|done]. }
  split.
  - intros p t sp d s. apply Hsame. simpl. by destruct (replies (world s)).
  - intros p t ts s. apply Hsame. simpl. by destruct (commit_failures (world s)).
  - intros p t s. by apply Hsame.
  - intros t s. simpl. destruct (replies (world s)); [|by apply Hsame].
    destruct (pusher (world s)); [|by apply Hsame].
    exists [OpAbort t]. split; [by repeat constructor|done].
Qed.

Definition mock_config : CoordinatorConfig := mkConfig 5000000 2 100.

Definition yes_reply : option (DbResult PrepareVote) := Some (Ok (Yes (mkHlc 1500 0))).
Definition no_reply : option (DbResult PrepareVote) := Some (Ok (No (Refused "conflict"))).

Definition mock_shared (w : Mock) : Shared Mock :=
  mkShared (with_expiration 5000000) (with_clock 500000) w.

Definition mock_execute (ps : list Z) (w : Mock) : DbResult CommitOutcome * Run (W := Mock) :=
  execute mock_config {[1; 2]} tx1 1 ps [] (mkRun (mock_shared w) []).

(** Two yes votes; the first commit attempt is lost and retried. *)
Lemma two_phase_atomic_witness :
  EvCommit 1 (mkHlc 1000 1) false ∈ trace (snd (mock_execute [1; 2] (mkMock [yes_reply; yes_reply] 1 false))) /\
  forall q b, EvRollback q b ∉ trace (snd (mock_execute [1; 2] (mkMock [yes_reply; yes_reply] 1 false))).
Proof.
  assert (Hin : EvCommit 1 (mkHlc 1000 1) false ∈
    trace (snd (mock_execute [1; 2] (mkMock [yes_reply; yes_reply] 1 false)))).
  { vm_compute. right. right. left. }
  split; [exact Hin|].
  destruct (mock_execute [1; 2] (mkMock [yes_reply; yes_reply] 1 false)) as [res r'] eqn:E.
  refine (proj2 (proj2 (proj2 (proj2 (two_phase_atomic _ _ _ _ _ _ _ _ _ _ _ _ _ E Hin))))).
  apply (bool_decide_unpack _). vm_compute. exact I.
Defined.

(** One no vote: both participants are rolled back. *)
Lemma two_phase_outcome_witness :
  fst (mock_execute [1; 2] (mkMock [yes_reply; no_reply] 0 false)) =
    Ok (OutcomeAborted (VotedNo 2 (Refused "conflict"))) /\
  exists b, EvRollback 1 b ∈ trace (snd (mock_execute [1; 2] (mkMock [yes_reply; no_reply] 0 false))).
Proof.
  destruct (mock_execute [1; 2] (mkMock [yes_reply; no_reply] 0 false)) as [res r'] eqn:E.
  assert (Hnd : NoDup [1; 2]) by (apply (bool_decide_unpack _); vm_compute; exact I).
  pose proof (two_phase_outcome _ _ _ _ _ _ _ _ _ Hnd E) as Hout.
  assert (Hres : res = Ok (OutcomeAborted (VotedNo 2 (Refused "conflict")))).
  { change res with (fst (res, r')). rewrite <- E. vm_compute. reflexivity. }
  split; [exact Hres|]. rewrite Hres in Hout. destruct Hout as (_ & _ & Hb & _). apply Hb. left.
Defined.

(** A pusher that aborts the record after the votes: [execute] returns an error and
    tells the prepared participants nothing. *)
Lemma pushed_after_votes :
  let '(res, r) := mock_execute [1; 2] (mkMock [yes_reply; yes_reply] 0 true) in
  res = Err Internal /\ trace r = [EvPrepare 1 yes_reply; EvPrepare 2 yes_reply] /\
  aborted_in (registry (shared r)) tx1.
Proof.
  vm_compute. split; [done|]. split; [done|]. eexists. split; reflexivity.
Qed.

(** A participant listed twice: its second vote replaces the first, and a refusal is
    lost. *)
Lemma duplicate_vote_lost :
  let '(res, r) := mock_execute [1; 1] (mkMock [no_reply; yes_reply] 0 false) in
  res = Ok (OutcomeCommitted (mkHlc 1000 1)) /\ EvPrepare 1 no_reply ∈ trace r.
Proof. vm_compute. split; [done|]. left. Qed.

(** A participant may have prepared at a later timestamp than the one it is told to
    commit at. *)
Lemma commit_before_prepared :
  let '(res, r) := mock_execute [1] (mkMock [yes_reply] 0 false) in
  exists ts, res = Ok (OutcomeCommitted ts) /\ ord_lt ts (mkHlc 1500 0).
Proof. vm_compute. eexists. split; reflexivity. Qed.
