(* ===== verification/RaftLog.v ===== *)
(** * Raft log and persistent state
    ([crates/aiondb-ha/src/raft/log.rs], [crates/aiondb-ha/src/raft/state.rs])

    Both are a value in memory and a file.  A write replaces the file atomically
    (temporary file, fsync, rename, fsync of the directory); [IoOutcome] says how far
    it got, so the model covers failed writes and, through [open] and [load], what a
    crash leaves.  The JSON encoding is not modelled: a file holds the value that was
    encoded, and [json_len] gives the length of an encoded entry, which only matters
    for the size limit of [open]. *)

From S2P Require Import Prelude.

Inductive RaftCommand : Type :=
| Noop
| AddNode (node_id : Z) (address : string)
| RemoveNode (node_id : Z)
| AssignShard (table_id shard_id node_id : Z)
| TransferShard (table_id shard_id from_node to_node : Z)
| UpdateConfig (key value : string)
| KvWrite (key : list Z) (value : option (list Z)).

#[global] Instance RaftCommand_eq_dec : EqDecision RaftCommand.
Proof. solve_decision. Defined.

Record RaftEntry := mkEntry { index : Z; term : Z; command : RaftCommand }.

#[global] Instance RaftEntry_eq_dec : EqDecision RaftEntry.
Proof. solve_decision. Defined.

(** How a file replacement ends: done, failed with the old file in place, or failed
    (in the directory fsync) with the new file in place. *)
Inductive IoOutcome : Type := IoOk | IoFailOld | IoFailNew.

(** The file after writing [new] over [old]. *)
Definition write_file {A} (io : IoOutcome) (new old : A) : A :=
  match io with IoFailOld => old | IoOk | IoFailNew => new end.

Definition io_result (io : IoOutcome) : DbResult unit :=
  match io with IoOk => Ok tt | _ => Err Internal end.

Definition next_log_index (i : Z) : DbResult Z := ok_or (checked_add u64_max i 1) Internal.

(** ** The log *)

Record RaftLog := mkLog { entries : list RaftEntry; log_file : list RaftEntry }.

Definition MAX_RAFT_LOG_BYTES : Z := 64 * 1024 * 1024.

(** The per-line checks of [open], after [prev]. *)
Fixpoint load_entries (prev : option RaftEntry) (l : list RaftEntry) : DbResult (list RaftEntry) :=
  match l with
  | [] => Ok []
  | e :: rest =>
      if index e =? 0 then Err Internal
      else
        let check :=
          match prev with
          | None => Ok tt
          | Some p =>
              match next_log_index (index p) with
              | Ok n => if index e =? n then Ok tt else Err Internal
              | Err err => Err err
              end
          end in
        match check with
        | Err err => Err err
        | Ok _ =>
            match load_entries (Some e) rest with
            | Ok l' => Ok (e :: l')
            | Err err => Err err
            end
        end
  end.

Definition file_len (json_len : RaftEntry -> Z) (l : list RaftEntry) : Z :=
  fold_right (fun e acc => json_len e + acc) 0 l.

(** [RaftLog::open]; a missing file is the empty one. *)
Definition open_log (json_len : RaftEntry -> Z) (file : list RaftEntry) : DbResult RaftLog :=
  if MAX_RAFT_LOG_BYTES <? file_len json_len file then Err Internal
  else
    match load_entries None file with
    | Ok l => Ok (mkLog l file)
    | Err e => Err e
    end.

Definition last_index (l : list RaftEntry) : Z :=
  match last l with Some e => index e | None => 0 end.

Definition last_term (l : list RaftEntry) : Z :=
  match last l with Some e => term e | None => 0 end.

Definition get (i : Z) (l : list RaftEntry) : option RaftEntry :=
  if i =? 0 then None
  else
    match l with
    | [] => None
    | first :: _ => if i <? index first then None else l !! Z.to_nat (i - index first)
    end.

Definition term_at (i : Z) (l : list RaftEntry) : Z :=
  match get i l with Some e => term e | None => 0 end.

Definition entries_from (start : Z) (l : list RaftEntry) : list RaftEntry :=
  match l with
  | [] => []
  | first :: _ =>
      if start =? 0 then []
      else if start <? index first then l
      else drop (Z.to_nat (start - index first)) l
  end.

Definition truncate_from (from : Z) (l : list RaftEntry) : list RaftEntry :=
  match l with
  | [] => []
  | first :: _ => if from <? index first then [] else take (Z.to_nat (from - index first)) l
  end.

Definition persist (io : IoOutcome) (g : RaftLog) : DbResult unit * RaftLog :=
  (io_result io, mkLog (entries g) (write_file io (entries g) (log_file g))).

Definition append (io : IoOutcome) (t : Z) (c : RaftCommand) (g : RaftLog) :
    DbResult Z * RaftLog :=
  match next_log_index (last_index (entries g)) with
  | Err e => (Err e, g)
  | Ok i =>
      match persist io (mkLog (entries g ++ [mkEntry i t c]) (log_file g)) with
      | (Ok _, g') => (Ok i, g')
      | (Err e, g') => (Err e, g')
      end
  end.

(** The contiguity check over [entries.windows(2)]. *)
Fixpoint check_windows (l : list RaftEntry) : DbResult unit :=
  match l with
  | a :: ((b :: _) as rest) =>
      match next_log_index (index a) with
      | Err e => Err e
      | Ok n => if index b =? n then check_windows rest else Err Internal
      end
  | _ => Ok tt
  end.

(** The loop that skips duplicates, truncates at a conflict and pushes. *)
Fixpoint append_loop (es : list RaftEntry) (l : list RaftEntry) : list RaftEntry :=
  match es with
  | [] => l
  | e :: rest =>
      match get (index e) l with
      | Some existing =>
          if term existing =? term e then append_loop rest l
          else append_loop rest (truncate_from (index e) l ++ [e])
      | None => append_loop rest (l ++ [e])
      end
  end.

Definition append_entries_checked (io : IoOutcome) (expected_prev : Z) (es : list RaftEntry)
    (g : RaftLog) : DbResult unit * RaftLog :=
  match es with
  | [] => (Ok tt, g)
  | e0 :: _ =>
      match next_log_index expected_prev with
      | Err err => (Err err, g)
      | Ok first =>
          if index e0 =? first then
            match check_windows es with
            | Err err => (Err err, g)
            | Ok _ => persist io (mkLog (append_loop es (entries g)) (log_file g))
            end
          else (Err Internal, g)
      end
  end.

(** ** The persistent state *)

Record PersistentState := mkState {
  current_term : Z;
  voted_for : option Z;
  commit_index : Z
}.

Definition default_state : PersistentState := mkState 0 None 0.

(** [PersistentStateHandle]: the state and its file. *)
Record StateHandle := mkHandle { st : PersistentState; st_file : PersistentState }.

Definition open_state (file : PersistentState) : StateHandle := mkHandle file file.

Definition save (io : IoOutcome) (s : PersistentState) (h : StateHandle) :
    DbResult unit * StateHandle :=
  (io_result io, mkHandle s (write_file io s (st_file h))).

Definition advance_term (io : IoOutcome) (new_term : Z) (h : StateHandle) :
    DbResult bool * StateHandle :=
  if new_term <=? current_term (st h) then (Ok false, h)
  else
    match save io (mkState new_term None (commit_index (st h))) h with
    | (Ok _, h') => (Ok true, h')
    | (Err e, h') => (Err e, h')
    end.

Definition vote_for (io : IoOutcome) (candidate : Z) (h : StateHandle) :
    DbResult unit * StateHandle :=
  save io (mkState (current_term (st h)) (Some candidate) (commit_index (st h))) h.

Definition set_commit_index (io : IoOutcome) (i : Z) (h : StateHandle) :
    DbResult unit * StateHandle :=
  if commit_index (st h) <? i then
    save io (mkState (current_term (st h)) (voted_for (st h)) i) h
  else (Ok tt, h).

(** ** Well-formed logs

    Entry [i] of the list has index [i + 1]. *)

Definition log_from (n : Z) (l : list RaftEntry) : Prop :=
  forall i e, l !! i = Some e -> index e = n + Z.of_nat i.

Abbreviation log_wf := (log_from 1).

Lemma log_from_nil n : log_from n [].
Proof. by intros i e. Qed.

Lemma log_from_cons n e l : log_from n (e :: l) <-> index e = n /\ log_from (n + 1) l.
Proof.
  split.
  - intros Hl. split; [specialize (Hl O e eq_refl); lia|].
    intros i x Hi. specialize (Hl (S i) x Hi). lia.
  - intros [He Hl] [|i] x Hi; simplify_eq/=; [lia|]. rewrite (Hl i x Hi). lia.
Qed.

Lemma log_from_app n l k :
  log_from n (l ++ k) <-> log_from n l /\ log_from (n + Z.of_nat (length l)) k.
Proof.
  revert n. induction l as [|e l IH]; intros n; simpl.
  - replace (n + Z.of_nat 0) with n by lia. split; [|by intros [_ ?]].
    intros Hk. split; [apply log_from_nil|done].
  - rewrite !log_from_cons, IH. replace (n + 1 + Z.of_nat (length l))
      with (n + Z.of_nat (S (length l))) by lia. tauto.
Qed.

Lemma log_from_take n k l : log_from n l -> log_from n (take k l).
Proof. intros Hl i e. rewrite lookup_take_Some. intros [Hi _]. by apply Hl. Qed.

Lemma last_index_wf l : log_wf l -> last_index l = Z.of_nat (length l).
Proof.
  intros Hl. unfold last_index. destruct (last l) as [e|] eqn:E.
  - rewrite last_lookup in E. rewrite (Hl _ _ E). apply lookup_lt_Some in E. lia.
  - apply last_None in E. by subst.
Qed.

Lemma get_wf i l : log_wf l -> 1 <= i -> get i l = l !! Z.to_nat (i - 1).
Proof.
  intros Hl Hi. unfold get. rewrite (proj2 (Z.eqb_neq _ _)) by lia.
  destruct l as [|e l]; [done|]. apply log_from_cons in Hl as [-> _].
  by rewrite (proj2 (Z.ltb_ge _ _)) by lia.
Qed.

Lemma truncate_wf i l : log_wf l -> 1 <= i -> truncate_from i l = take (Z.to_nat (i - 1)) l.
Proof.
  intros Hl Hi. unfold truncate_from. destruct l as [|e l]; [by rewrite take_nil|].
  apply log_from_cons in Hl as [-> _]. by rewrite (proj2 (Z.ltb_ge _ _)) by lia.
Qed.

Lemma entries_from_wf i l : log_wf l -> 1 <= i -> entries_from i l = drop (Z.to_nat (i - 1)) l.
Proof.
  intros Hl Hi. unfold entries_from. destruct l as [|e l]; [by rewrite drop_nil|].
  apply log_from_cons in Hl as [-> _].
  rewrite (proj2 (Z.eqb_neq _ _)) by lia. by rewrite (proj2 (Z.ltb_ge _ _)) by lia.
Qed.

(** The windows check says that the entries are numbered consecutively. *)
Lemma check_windows_Ok e l :
  check_windows (e :: l) = Ok tt -> log_from (index e) (e :: l).
Proof.
  revert e. induction l as [|b l IH]; intros e; cbn [check_windows].
  - intros _. apply log_from_cons. split; [done|apply log_from_nil].
  - unfold next_log_index, ok_or. destruct (checked_add u64_max (index e) 1) as [n|] eqn:Ec; [|done].
    apply checked_add_Some in Ec as [-> _]. destruct (Z.eqb_spec (index b) (index e + 1)) as [E|]; [|done].
    intros Hb. apply log_from_cons. split; [done|]. rewrite <- E. by apply IH.
Qed.

(** ** What the append loop computes *)

(** The rule of the Raft paper on the part of the log after [prev]: keep entries
    while the terms agree, at the first conflict drop the rest and take the leader's. *)
Fixpoint merge_suffix (es suffix : list RaftEntry) : list RaftEntry :=
  match es, suffix with
  | [], _ => suffix
  | _, [] => es
  | e :: es', x :: suffix' =>
      if term x =? term e then x :: merge_suffix es' suffix' else e :: es'
  end.

Lemma append_loop_beyond es l :
  log_wf l -> log_from (Z.of_nat (length l) + 1) es -> append_loop es l = l ++ es.
Proof.
  revert l. induction es as [|e es IH]; intros l Hl He; cbn [append_loop]; [by rewrite app_nil_r|].
  apply log_from_cons in He as [Ei He].
  assert (Hle : 1 <= index e) by lia. rewrite (get_wf (index e) l Hl Hle).
  rewrite lookup_ge_None_2 by lia. rewrite IH.
  - by rewrite <- app_assoc.
  - apply log_from_app. split; [done|]. apply log_from_cons. split; [lia|apply log_from_nil].
  - rewrite length_app. simpl. by replace (Z.of_nat (length l + 1) + 1) with (Z.of_nat (length l) + 1 + 1) by lia.
Qed.

Lemma append_loop_merge es pre suffix :
  log_wf (pre ++ suffix) -> log_from (Z.of_nat (length pre) + 1) es ->
  append_loop es (pre ++ suffix) = pre ++ merge_suffix es suffix.
Proof.
  revert pre suffix. induction es as [|e es IH]; intros pre suffix Hl He.
  - cbn [append_loop merge_suffix]. done.
  - destruct suffix as [|x suffix].
    { rewrite app_nil_r in *. by apply append_loop_beyond. }
    pose proof He as [Ei He']%log_from_cons. cbn [append_loop merge_suffix].
    assert (Hle : 1 <= index e) by lia. rewrite (get_wf (index e) _ Hl Hle).
    rewrite lookup_app_r by lia. replace (Z.to_nat (index e - 1) - length pre)%nat with O by lia.
    cbn [lookup list_lookup]. destruct (Z.eqb_spec (term x) (term e)) as [Et|Et].
    + rewrite cons_middle, app_assoc in *. rewrite IH; [by rewrite <- app_assoc|done|].
      rewrite length_app. simpl.
      by replace (Z.of_nat (length pre + 1) + 1) with (Z.of_nat (length pre) + 1 + 1) by lia.
    + rewrite (truncate_wf (index e) _ Hl Hle), take_app_length' by lia.
      assert (Hpre : log_wf pre) by (by apply log_from_app in Hl as [? _]).
      rewrite append_loop_beyond.
      * by rewrite <- app_assoc.
      * apply log_from_app. split; [done|]. apply log_from_cons. split; [lia|apply log_from_nil].
      * rewrite length_app. simpl.
        by replace (Z.of_nat (length pre + 1) + 1) with (Z.of_nat (length pre) + 1 + 1) by lia.
Qed.

Lemma merge_suffix_from n es suffix :
  log_from n suffix -> log_from n es -> log_from n (merge_suffix es suffix).
Proof.
  revert n suffix. induction es as [|e es IH]; intros n suffix Hs He; [done|].
  destruct suffix as [|x suffix]; [done|]. cbn [merge_suffix].
  case_match; [|done]. apply log_from_cons in Hs as [Hx Hs], He as [Ee He].
  apply log_from_cons. split; [done|]. by apply IH.
Qed.

(** Two logs that agree wherever they have an entry of the same term agree on
    everything before it. *)
Definition log_matching (l k : list RaftEntry) : Prop :=
  forall i a b, l !! i = Some a -> k !! i = Some b -> term a = term b ->
    take (S i) l = take (S i) k.

Lemma merge_suffix_leader pre es suffix :
  log_matching (pre ++ es) (pre ++ suffix) ->
  merge_suffix es suffix = es \/
  merge_suffix es suffix = suffix /\ exists more, suffix = es ++ more.
Proof.
  revert pre suffix. induction es as [|e es IH]; intros pre suffix Hm.
  - right. split; [done|]. by exists suffix.
  - destruct suffix as [|x suffix]; [by left|]. cbn [merge_suffix].
    destruct (Z.eqb_spec (term x) (term e)) as [Et|Et]; [|by left].
    assert (x = e) as ->.
    { assert (Hi : (pre ++ e :: es) !! length pre = Some e) by by rewrite list_lookup_middle.
      assert (Hj : (pre ++ x :: suffix) !! length pre = Some x) by by rewrite list_lookup_middle.
      pose proof (Hm _ _ _ Hi Hj (eq_sym Et)) as Htake.
      apply (f_equal (fun l => l !! length pre)) in Htake.
      rewrite !lookup_take_lt, Hi, Hj in Htake by lia. by simplify_eq. }
    rewrite (cons_middle e pre es), (cons_middle e pre suffix), !app_assoc in Hm.
    destruct (IH _ _ Hm) as [->|(-> & more & ->)]; [by left|right]. split; [done|]. by exists more.
Qed.

(** ** Reopening *)

Lemma load_entries_from prev l n :
  1 <= n -> (forall p, prev = Some p -> index p = n - 1) -> log_from n l ->
  n + Z.of_nat (length l) - 1 <= u64_max -> load_entries prev l = Ok l.
Proof.
  revert prev n. induction l as [|e l IH]; intros prev n Hn Hp Hl Hlen; cbn [load_entries]; [done|].
  apply log_from_cons in Hl as [He Hl]. cbn [length] in Hlen.
  rewrite (proj2 (Z.eqb_neq _ _)) by lia.
  assert (Hrest : load_entries (Some e) l = Ok l).
  { apply (IH _ (n + 1)); [lia| |done|lia]. intros p [= <-]. lia. }
  rewrite Hrest. destruct prev as [p|]; [|done]. unfold next_log_index, ok_or.
  specialize (Hp p eq_refl). assert (Hc : checked_add u64_max (index p) 1 = Some (index e)).
  { apply checked_add_Some. lia. }
  by rewrite Hc, Z.eqb_refl.
Qed.

Lemma open_log_wf json_len l :
  log_wf l -> Z.of_nat (length l) <= u64_max -> file_len json_len l <= MAX_RAFT_LOG_BYTES ->
  open_log json_len l = Ok (mkLog l l).
Proof.
  intros Hl Hlen Hsz. unfold open_log. rewrite (proj2 (Z.ltb_ge _ _)) by lia.
  rewrite (load_entries_from None l 1); [done|lia|done|done|lia].
Qed.

Lemma append_entries_checked_facts io prev es g g' :
  log_wf (entries g) -> 0 <= prev <= Z.of_nat (length (entries g)) -> es <> [] ->
  append_entries_checked io prev es g = (Ok tt, g') ->
  entries g' = take (Z.to_nat prev) (entries g) ++ merge_suffix es (drop (Z.to_nat prev) (entries g)) /\
  log_wf (entries g') /\ log_file g' = entries g'.
Proof.
  intros Hwf Hprev Hne Happ. unfold append_entries_checked in Happ.
  destruct es as [|e0 es]; [done|]. unfold next_log_index, ok_or in Happ.
  destruct (checked_add u64_max prev 1) as [first|] eqn:Ec; [|done].
  apply checked_add_Some in Ec as [-> _].
  destruct (Z.eqb_spec (index e0) (prev + 1)) as [E0|]; [|done].
  destruct (check_windows (e0 :: es)) as [[]|] eqn:Ew; [|done].
  apply check_windows_Ok in Ew. rewrite E0 in Ew.
  set (n := Z.to_nat prev) in *. set (pre := take n (entries g)). set (suf := drop n (entries g)).
  assert (Hsplit : entries g = pre ++ suf) by (symmetry; apply take_drop).
  assert (Hlen : length pre = n) by (unfold pre; rewrite length_take; lia).
  assert (Hloop : append_loop (e0 :: es) (entries g) = pre ++ merge_suffix (e0 :: es) suf).
  { rewrite Hsplit in Hwf |- *. apply append_loop_merge; [done|]. rewrite Hlen.
    by replace (Z.of_nat n + 1) with (prev + 1) by lia. }
  rewrite Hloop in Happ. unfold persist in Happ. cbn [entries log_file] in Happ.
  destruct io; [|discriminate Happ..]. injection Happ as <-. cbn [entries log_file write_file].
  assert (Hwf' : log_wf (pre ++ merge_suffix (e0 :: es) suf)).
  { rewrite Hsplit in Hwf. apply log_from_app in Hwf as [Hpre Hsuf]. apply log_from_app.
    split; [done|]. apply merge_suffix_from; [done|]. rewrite Hlen.
    by replace (1 + Z.of_nat n) with (prev + 1) by lia. }
  done.
Qed.

(** ** Theorems *)

(** Appending the leader's entries.  When the log reaches [prev], a successful
    append leaves the log the Raft paper prescribes: everything up to [prev] stays,
    entries that agree in term are kept, and from the first conflict on the leader's
    entries replace the rest.  The new log is numbered consecutively from 1, is what
    the file holds, and reopens to itself while it fits the size limit. *)
Theorem append_entries_checked_spec io prev es g g' json_len :
  log_wf (entries g) -> 0 <= prev <= Z.of_nat (length (entries g)) -> es <> [] ->
  append_entries_checked io prev es g = (Ok tt, g') ->
  entries g' = take (Z.to_nat prev) (entries g) ++ merge_suffix es (drop (Z.to_nat prev) (entries g)) /\
  log_wf (entries g') /\ log_file g' = entries g' /\
  (Z.of_nat (length (entries g')) <= u64_max ->
   file_len json_len (log_file g') <= MAX_RAFT_LOG_BYTES ->
   open_log json_len (log_file g') = Ok g').
Proof.
  intros Hwf Hprev Hne Happ.
  destruct (append_entries_checked_facts _ _ _ _ _ Hwf Hprev Hne Happ) as (H1 & H2 & H3).
  split_and!; [done..|]. intros Hl Hsz. rewrite H3 in *. rewrite open_log_wf by done.
  destruct g'; simpl in *. by subst.
Qed.

Definition three_entries : RaftLog :=
  let l := [mkEntry 1 1 Noop; mkEntry 2 1 Noop; mkEntry 3 1 Noop] in mkLog l l.

(** A leader of term 2 overwrites entries 2 and 3. *)
Lemma append_entries_checked_spec_witness :
  exists g', append_entries_checked IoOk 1 [mkEntry 2 2 Noop] three_entries = (Ok tt, g') /\
    entries g' = [mkEntry 1 1 Noop; mkEntry 2 2 Noop].
Proof.
  eexists. split; [reflexivity|].
  refine (proj1 (append_entries_checked_spec IoOk 1 [mkEntry 2 2 Noop] three_entries _
    (fun _ => 1) _ _ _ _)); [|vm_compute; split; discriminate|discriminate|reflexivity].
  unfold three_entries. simpl. rewrite !log_from_cons. split_and!; [done..|apply log_from_nil].
Defined.

(** Nothing bounds the log while it is written: a log over the limit is written and
    acknowledged, and can no longer be opened. *)
Lemma oversized_log_not_reopened json_len l :
  MAX_RAFT_LOG_BYTES < file_len json_len l ->
  fst (persist IoOk (mkLog l [])) = Ok tt /\
  open_log json_len (log_file (snd (persist IoOk (mkLog l [])))) = Err Internal.
Proof.
  intros Hl. split; [done|]. unfold open_log. simpl. by rewrite (proj2 (Z.ltb_lt _ _)).
Qed.
