(* ===== verification/RaftNode.v ===== *)
(** * The Raft node ([crates/aiondb-ha/src/raft/node.rs], [rpc.rs])

    One [RaftNode] with all of its handlers.  A handler takes [&mut self] and may stop
    half-way at a [?]: it is a computation in [M], which keeps the node reached so far
    when it fails.  The outcomes of the disk writes to come are the field [io]; an
    empty list means that writes succeed.  [crash] is a restart from the two files. *)

From S2P Require Import Prelude RaftLog.

Inductive RaftRole : Type := Follower | Candidate | Leader.

#[global] Instance RaftRole_eq_dec : EqDecision RaftRole.
Proof. solve_decision. Defined.

Record FollowerProgress := mkProgress { next_index : Z; match_index : Z }.

Record RaftNode := mkNode {
  node_id : Z;
  role : RaftRole;
  state : StateHandle;
  log : RaftLog;
  last_applied : Z;
  followers : gmap Z FollowerProgress;
  cluster_size : Z;
  io : list IoOutcome
}.

Record AppendEntriesRequest := mkAppend {
  req_term : Z;
  leader_id : Z;
  prev_log_index : Z;
  prev_log_term : Z;
  req_entries : list RaftEntry;
  leader_commit : Z
}.

Record AppendEntriesResponse := mkResponse {
  resp_term : Z;
  resp_node : Z;
  success : bool;
  resp_match : Z
}.

(** ** The monad of handlers *)

Definition M (A : Type) : Type := RaftNode -> DbResult A * RaftNode.

#[global] Instance M_ret : MRet M := fun A a n => (Ok a, n).

#[global] Instance M_bind : MBind M := fun A B k m n =>
  match m n with
  | (Ok a, n') => k a n'
  | (Err e, n') => (Err e, n')
  end.

Definition fail {A} (e : DbError) : M A := fun n => (Err e, n).

Definition gets {A} (f : RaftNode -> A) : M A := fun n => (Ok (f n), n).

Definition lift {A} (r : DbResult A) : M A := fun n => (r, n).

Definition set_role (r : RaftRole) : M unit := fun n =>
  (Ok tt, mkNode (node_id n) r (state n) (log n) (last_applied n) (followers n)
            (cluster_size n) (io n)).
Definition set_followers (f : gmap Z FollowerProgress) : M unit := fun n =>
  (Ok tt, mkNode (node_id n) (role n) (state n) (log n) (last_applied n) f
            (cluster_size n) (io n)).

(** Run an operation of the persistent state, or of the log, with the next outcome. *)
Definition on_state {A} (f : IoOutcome -> StateHandle -> DbResult A * StateHandle) : M A := fun n =>
  let '(r, h) := f (default IoOk (head (io n))) (state n) in
  (r, mkNode (node_id n) (role n) h (log n) (last_applied n) (followers n)
        (cluster_size n) (tail (io n))).
Definition on_log {A} (f : IoOutcome -> RaftLog -> DbResult A * RaftLog) : M A := fun n =>
  let '(r, l) := f (default IoOk (head (io n))) (log n) in
  (r, mkNode (node_id n) (role n) (state n) l (last_applied n) (followers n)
        (cluster_size n) (tail (io n))).

(** ** Getters *)

Definition term_of (n : RaftNode) : Z := current_term (st (state n)).
Definition vote_of (n : RaftNode) : option Z := voted_for (st (state n)).
Definition commit_of (n : RaftNode) : Z := commit_index (st (state n)).
Definition log_of (n : RaftNode) : list RaftEntry := entries (log n).

(** [RaftNode::open], from the contents of the two files. *)
Definition open (json_len : RaftEntry -> Z) (self size : Z) (state_file : PersistentState)
    (file : list RaftEntry) (outcomes : list IoOutcome) : DbResult RaftNode :=
  match open_log json_len file with
  | Err e => Err e
  | Ok l =>
      if last_index (entries l) <? commit_index state_file then Err Internal
      else Ok (mkNode self Follower (open_state state_file) l 0 ∅ size outcomes)
  end.

(** ** Commit advancement *)

Definition quorum (size : Z) : Z := size / 2 + 1.

Definition replicated (n : RaftNode) (i : Z) : Z :=
  Z.of_nat (length (filter (fun kv => i <= match_index kv.2) (map_to_list (followers n)))).

(** One iteration of the loop of [try_advance_commit_index]. *)
Definition try_index (i : Z) : M unit := fun n =>
  if negb (term_at i (log_of n) =? term_of n) then (Ok tt, n)
  else if quorum (cluster_size n) <=? replicated n i + 1 then
    on_state (fun o => set_commit_index o i) n
  else (Ok tt, n).

Fixpoint try_indices (idxs : list Z) : M unit :=
  match idxs with
  | [] => mret tt
  | i :: rest => try_index i ;; try_indices rest
  end.

Definition try_advance_commit_index : M unit :=
  current_commit ← gets commit_of;
  last ← gets (fun n => last_index (log_of n));
  if last <=? current_commit then mret tt
  else
    start ← lift (next_log_index current_commit);
    try_indices (seqZ start (last - start + 1)).

(** ** Roles *)

Definition become_follower (new_term : Z) : M unit :=
  on_state (fun o => advance_term o new_term) ;;
  set_role Follower ;;
  set_followers ∅.

Definition become_candidate : M Z :=
  t ← gets term_of;
  new_term ← lift (ok_or (checked_add u64_max t 1) Internal);
  on_state (fun o => advance_term o new_term) ;;
  self ← gets node_id;
  on_state (fun o => vote_for o self) ;;
  set_role Candidate ;;
  mret new_term.

Definition become_leader (peers : list Z) : M unit :=
  last ← gets (fun n => last_index (log_of n));
  next ← lift (next_log_index last);
  set_role Leader ;;
  set_followers (foldl (fun f p => <[p := mkProgress next 0]> f) ∅ peers) ;;
  try_advance_commit_index.

(** ** Votes *)

Definition candidate_log_is_up_to_date (n : RaftNode) (cand_term cand_index : Z) : bool :=
  if negb (cand_term =? last_term (log_of n)) then last_term (log_of n) <? cand_term
  else last_index (log_of n) <=? cand_index.

Definition handle_vote_request (cand_term cand_id cand_index cand_log_term : Z) : M (bool * Z) :=
  t ← gets term_of;
  (if t <? cand_term then become_follower cand_term else mret tt) ;;
  t1 ← gets term_of;
  if cand_term <? t1 then mret (false, t1)
  else
    vote ← gets vote_of;
    if match vote with Some v => negb (v =? cand_id) | None => false end then mret (false, t1)
    else
      ok ← gets (fun n => candidate_log_is_up_to_date n cand_log_term cand_index);
      if negb ok then mret (false, t1)
      else
        on_state (fun o => vote_for o cand_id) ;;
        t2 ← gets term_of;
        mret (true, t2).

(** ** AppendEntries, follower side *)

Definition respond (ok : bool) (n : RaftNode) : AppendEntriesResponse :=
  mkResponse (term_of n) (node_id n) ok (last_index (log_of n)).

Definition log_check (req : AppendEntriesRequest) (n : RaftNode) : bool :=
  if 0 <? prev_log_index req then
    if last_index (log_of n) <? prev_log_index req then false
    else term_at (prev_log_index req) (log_of n) =? prev_log_term req
  else true.

Definition accept_entries (req : AppendEntriesRequest) : M AppendEntriesResponse :=
  (match req_entries req with
   | [] => mret tt
   | es => on_log (fun o => append_entries_checked o (prev_log_index req) es)
   end) ;;
  commit ← gets commit_of;
  (if commit <? leader_commit req then
     last ← gets (fun n => last_index (log_of n));
     on_state (fun o => set_commit_index o (Z.min (leader_commit req) last))
   else mret tt) ;;
  gets (respond true).

Definition handle_append_entries (req : AppendEntriesRequest) : M AppendEntriesResponse :=
  t ← gets term_of;
  r ← gets role;
  (if (t <? req_term req) || ((req_term req =? t) && negb (bool_decide (r = Follower)))
   then become_follower (req_term req) else mret tt) ;;
  t1 ← gets term_of;
  if req_term req <? t1 then gets (respond false)
  else
    ok ← gets (log_check req);
    if negb ok then gets (respond false) else accept_entries req.

(** ** AppendEntries, leader side *)

Definition handle_append_entries_response (resp : AppendEntriesResponse) : M unit :=
  t ← gets term_of;
  if t <? resp_term resp then become_follower (resp_term resp)
  else
    r ← gets role;
    if negb (bool_decide (r = Leader)) then mret tt
    else
      fs ← gets followers;
      match fs !! resp_node resp with
      | None => mret tt
      | Some p =>
          if success resp then
            (if match_index p <? resp_match resp then
               next ← lift (next_log_index (resp_match resp));
               set_followers (<[resp_node resp := mkProgress next (resp_match resp)]> fs)
             else mret tt) ;;
            try_advance_commit_index
          else
            set_followers
              (<[resp_node resp :=
                  mkProgress (Z.max (saturating_sub (next_index p) 1) 1) (match_index p)]> fs)
      end.

(** The request for one follower. *)
Definition request_for (n : RaftNode) (p : FollowerProgress) : AppendEntriesRequest :=
  let prev := saturating_sub (next_index p) 1 in
  mkAppend (term_of n) (node_id n) prev (term_at prev (log_of n))
    (entries_from (next_index p) (log_of n)) (commit_of n).

Definition build_append_entries_requests (n : RaftNode) : list (Z * AppendEntriesRequest) :=
  if bool_decide (role n = Leader) then
    map (fun kv => (kv.1, request_for n kv.2)) (map_to_list (followers n))
  else [].

(** ** Client side *)

Definition propose (c : RaftCommand) : M Z :=
  r ← gets role;
  if negb (bool_decide (r = Leader)) then fail Internal
  else
    t ← gets term_of;
    i ← on_log (fun o => append o t c);
    try_advance_commit_index ;;
    mret i.

Definition unapplied_entries (n : RaftNode) : list RaftEntry :=
  match checked_add u64_max (last_applied n) 1 with
  | None => []
  | Some start =>
      if commit_of n <? start then []
      else filter (fun e => index e <= commit_of n) (entries_from start (log_of n))
  end.

Definition mark_applied (i : Z) (n : RaftNode) : RaftNode :=
  if last_applied n <? i then
    mkNode (node_id n) (role n) (state n) (log n) i (followers n) (cluster_size n) (io n)
  else n.

(** ** Reasoning about handlers

    [triple P m Q E]: from a node satisfying [P], [m] ends in [Q] with its result, or
    fails in [E]. *)

Definition triple {A} (P : RaftNode -> Prop) (m : M A) (Q : A -> RaftNode -> Prop)
    (E : RaftNode -> Prop) : Prop :=
  forall n, P n -> match m n with (Ok a, n') => Q a n' | (Err _, n') => E n' end.

Lemma triple_ret {A} (a : A) Q E : triple (Q a) (mret a) Q E.
Proof. by intros n Hn. Qed.

Lemma triple_bind {A B} P (m : M A) R (k : A -> M B) Q E :
  triple P m R E -> (forall a, triple (R a) (k a) Q E) -> triple P (m ≫= k) Q E.
Proof.
  intros Hm Hk n Hn. specialize (Hm n Hn). unfold mbind, M_bind.
  destruct (m n) as [[a|e] n']; [by apply Hk|done].
Qed.

Lemma triple_gets {A} (f : RaftNode -> A) P E :
  triple P (gets f) (fun a n => P n /\ a = f n) E.
Proof. by intros n Hn. Qed.

Lemma triple_lift {A} (r : DbResult A) (P : RaftNode -> Prop) :
  triple P (lift r) (fun a n => P n /\ r = Ok a) P.
Proof. intros n Hn. by destruct r. Qed.

Lemma triple_weaken {A} P P' (m : M A) Q Q' (E E' : RaftNode -> Prop) :
  triple P m Q E -> (forall n, P' n -> P n) -> (forall a n, Q a n -> Q' a n) ->
  (forall n, E n -> E' n) -> triple P' m Q' E'.
Proof.
  intros Hm HP HQ HE n Hn. specialize (Hm n (HP n Hn)). destruct (m n) as [[a|e] n']; auto.
Qed.

(** An invariant that [m] keeps whether or not it fails. *)
Definition keeps {A} (I : RaftNode -> Prop) (m : M A) : Prop := triple I m (fun _ => I) I.

Lemma keeps_bind {A B} I (m : M A) (k : A -> M B) :
  keeps I m -> (forall a, keeps I (k a)) -> keeps I (m ≫= k).
Proof. apply triple_bind. Qed.

Lemma keeps_ret {A} I (a : A) : keeps I (mret a).
Proof. by intros n Hn. Qed.

Lemma keeps_gets {A} I (f : RaftNode -> A) : keeps I (gets f).
Proof. by intros n Hn. Qed.

Lemma keeps_lift {A} I (r : DbResult A) : keeps I (lift r).
Proof. intros n Hn. by destruct r. Qed.

Lemma keeps_fail {A} I e : keeps I (fail (A := A) e).
Proof. by intros n Hn. Qed.

Lemma keeps_if {A} I (b : bool) (m k : M A) : keeps I m -> keeps I k -> keeps I (if b then m else k).
Proof. by destruct b. Qed.

#[export] Hint Resolve keeps_ret keeps_gets keeps_lift keeps_fail keeps_if keeps_bind : aion.

(** Invariants of the persistent state (value and file) and of the log. *)
Definition on_state_inv (I : StateHandle -> Prop) (n : RaftNode) : Prop := I (state n).
Definition on_log_inv (I : RaftLog -> Prop) (n : RaftNode) : Prop := I (log n).

Lemma keeps_on_state {A} (I : StateHandle -> Prop) (f : IoOutcome -> StateHandle -> DbResult A * StateHandle) :
  (forall o h, I h -> I (snd (f o h))) -> keeps (on_state_inv I) (on_state f).
Proof.
  intros Hf n Hn. unfold on_state. specialize (Hf (default IoOk (head (io n))) (state n) Hn).
  by destruct (f _ (state n)) as [[]].
Qed.

Lemma keeps_state_on_log {A} (I : StateHandle -> Prop) (f : IoOutcome -> RaftLog -> DbResult A * RaftLog) :
  keeps (on_state_inv I) (on_log f).
Proof. intros n Hn. unfold on_log. by destruct (f _ (log n)) as [[]]. Qed.

Lemma keeps_state_role I r : keeps (on_state_inv I) (set_role r).
Proof. by intros n Hn. Qed.

Lemma keeps_state_followers I f : keeps (on_state_inv I) (set_followers f).
Proof. by intros n Hn. Qed.

#[export] Hint Resolve keeps_on_state keeps_state_on_log keeps_state_role keeps_state_followers : aion.

(** ** Votes and terms *)

(** A state that cannot vote in term [t] for anybody but [c]. *)
Definition pledged (s : PersistentState) (t c : Z) : Prop :=
  t < current_term s \/ t = current_term s /\ voted_for s = Some c.

(** Every vote granted so far is pledged in memory and on disk. *)
Definition votes_ok (grants : list (Z * Z)) (h : StateHandle) : Prop :=
  forall t c, (t, c) ∈ grants -> pledged (st h) t c /\ pledged (st_file h) t c.

Lemma save_votes_ok grants io s h :
  votes_ok grants h -> (forall t c, (t, c) ∈ grants -> pledged s t c) ->
  votes_ok grants (snd (save io s h)).
Proof.
  intros Hv Hs t c Hin. destruct (Hv t c Hin). simpl. split; [auto|]. destruct io; simpl; auto.
Qed.

Lemma advance_term_votes_ok grants io t h :
  votes_ok grants h -> votes_ok grants (snd (advance_term io t h)).
Proof.
  intros Hv. unfold advance_term. case_match; [done|]. bool_prop.
  destruct (save io _ h) as [r h'] eqn:E.
  assert (Hv' : votes_ok grants h').
  { change h' with (snd (r, h')). rewrite <- E. apply save_votes_ok; [done|].
    intros t' c Hin. left. destruct (Hv t' c Hin) as [[?|[? _]] _]; simpl; lia. }
  by destruct r.
Qed.

Lemma set_commit_votes_ok grants io i h :
  votes_ok grants h -> votes_ok grants (snd (set_commit_index io i h)).
Proof.
  intros Hv. unfold set_commit_index. case_match; [|done]. apply save_votes_ok; [done|].
  intros t c Hin. by destruct (Hv t c Hin) as [? _].
Qed.

(** Voting for [c] when nothing else was voted in this term keeps every pledge, and
    pledges the new vote once the write has succeeded. *)
Lemma vote_for_votes_ok grants io c h :
  votes_ok grants h -> (voted_for (st h) = None \/ voted_for (st h) = Some c) ->
  votes_ok grants (snd (vote_for io c h)) /\
  (fst (vote_for io c h) = Ok tt ->
   votes_ok ((current_term (st h), c) :: grants) (snd (vote_for io c h))).
Proof.
  intros Hv Hc. assert (Hold : votes_ok grants (snd (vote_for io c h))).
  { apply save_votes_ok; [done|]. intros t c' Hin. destruct (Hv t c' Hin) as [[?|[? E]] _].
    - by left.
    - right. split; [done|]. simpl. destruct Hc; congruence. }
  split; [done|]. intros Hok t c' [[= -> ->]|Hin]%elem_of_cons; [|by apply Hold].
  destruct io; [|done..]. split; by right.
Qed.

Ltac keeps_auto :=
  repeat lazymatch goal with
  | |- keeps _ (mbind _ _) => apply keeps_bind; [|intros ?]
  | |- keeps _ (mret _) => apply keeps_ret
  | |- keeps _ (gets _) => apply keeps_gets
  | |- keeps _ (lift _) => apply keeps_lift
  | |- keeps _ (fail _) => apply keeps_fail
  | |- keeps _ (on_log _) => apply keeps_state_on_log
  | |- keeps _ (set_role _) => apply keeps_state_role
  | |- keeps _ (set_followers _) => apply keeps_state_followers
  | |- keeps _ (if _ then _ else _) => apply keeps_if
  | |- keeps _ (match _ with _ => _ end) => case_match
  end.

Section VoteInvariant.
Context (grants : list (Z * Z)).
Let I := on_state_inv (votes_ok grants).

Lemma advance_term_keeps t : keeps I (on_state (fun o => advance_term o t)).
Proof. apply keeps_on_state. intros o h. apply advance_term_votes_ok. Qed.

Lemma set_commit_keeps i : keeps I (on_state (fun o => set_commit_index o i)).
Proof. apply keeps_on_state. intros o h. apply set_commit_votes_ok. Qed.

Lemma become_follower_keeps t : keeps I (become_follower t).
Proof. unfold become_follower. keeps_auto. apply advance_term_keeps. Qed.

Lemma try_advance_keeps : keeps I try_advance_commit_index.
Proof.
  assert (Hi : forall i, keeps I (try_index i)).
  { intros i n Hn. unfold try_index. destruct (negb _); [done|].
    destruct (_ <=? _); [apply (set_commit_keeps i n Hn)|done]. }
  assert (His : forall l, keeps I (try_indices l)).
  { induction l as [|i l IH]; cbn [try_indices]; keeps_auto; [apply Hi|done]. }
  unfold try_advance_commit_index. keeps_auto. apply His.
Qed.

Lemma become_leader_keeps peers : keeps I (become_leader peers).
Proof. unfold become_leader. keeps_auto. apply try_advance_keeps. Qed.

Lemma handle_append_entries_keeps req : keeps I (handle_append_entries req).
Proof.
  unfold handle_append_entries, accept_entries. keeps_auto;
    first [apply become_follower_keeps | apply set_commit_keeps].
Qed.

Lemma handle_response_keeps resp : keeps I (handle_append_entries_response resp).
Proof.
  unfold handle_append_entries_response. keeps_auto;
    first [apply become_follower_keeps | apply try_advance_keeps].
Qed.

Lemma propose_keeps c : keeps I (propose c).
Proof. unfold propose. keeps_auto. apply try_advance_keeps. Qed.

(** Voting for [c] where nobody else was voted for. *)
Lemma vote_for_triple c :
  triple (fun n => I n /\ (vote_of n = None \/ vote_of n = Some c))
    (on_state (fun o => vote_for o c))
    (fun _ n => on_state_inv (votes_ok ((term_of n, c) :: grants)) n) I.
Proof.
  intros n [Hn Hv]. unfold on_state.
  destruct (vote_for_votes_ok grants (default IoOk (head (io n))) c (state n) Hn Hv) as [H1 H2].
  assert (Ht : current_term (st (snd (vote_for (default IoOk (head (io n))) c (state n)))) =
    current_term (st (state n))) by done.
  destruct (vote_for _ c (state n)) as [[[]|e] h]; [|done].
  unfold on_state_inv, term_of in *. cbn [state]. cbn [fst snd] in *. rewrite Ht. by apply H2.
Qed.

Lemma handle_vote_request_triple ct c ci clt :
  triple I (handle_vote_request ct c ci clt)
    (fun r n => on_state_inv (votes_ok (if r.1 then (r.2, c) :: grants else grants)) n /\
       (r.1 = true -> r.2 = term_of n)) I.
Proof.
  unfold handle_vote_request.
  eapply triple_bind; [apply keeps_gets|intros t].
  eapply triple_bind; [apply keeps_if; [apply become_follower_keeps|apply keeps_ret]|intros ?].
  eapply triple_bind; [apply keeps_gets|intros t1].
  destruct (ct <? t1); [by intros n Hn|].
  eapply triple_bind; [apply triple_gets|intros vote].
  destruct (match vote with Some v => negb (v =? c) | None => false end) eqn:Ev;
    [by intros n [Hn _]|].
  eapply triple_bind; [apply triple_gets|intros ok].
  destruct (negb ok); [by intros n [[Hn _] _]|].
  eapply triple_bind.
  { eapply triple_weaken; [apply vote_for_triple| |by intros ? ? ?|done].
    intros n [[Hn ->] _]. split; [done|]. destruct (vote_of n); [|by left]. bool_prop.
    right. by f_equal. }
  intros _ n Hn. done.
Qed.

Lemma become_candidate_triple self :
  triple (fun n => I n /\ node_id n = self) become_candidate
    (fun t n => on_state_inv (votes_ok ((t, self) :: grants)) n /\ t = term_of n) I.
Proof.
  intros n [Hn Hself]. unfold become_candidate, mbind, M_bind, gets, lift. subst self.
  destruct (checked_add u64_max (term_of n) 1) as [t|] eqn:Ec; [|done].
  apply checked_add_Some in Ec as [-> _]. cbn [ok_or].
  pose proof (advance_term_keeps (term_of n + 1) n Hn) as H1.
  destruct (on_state _ n) as [[b|e] n1] eqn:E1; [|done].
  assert (Hv1 : vote_of n1 = None /\ term_of n1 = term_of n + 1 /\ node_id n1 = node_id n).
  { unfold on_state, advance_term in E1. fold (term_of n) in E1.
    rewrite (proj2 (Z.leb_gt _ _)) in E1 by lia. unfold save in E1.
    destruct (io_result _); by simplify_eq. }
  destruct Hv1 as (Hv1 & Ht1 & Hid1). rewrite Hid1.
  pose proof (vote_for_triple (node_id n) n1 (conj H1 (or_introl Hv1))) as H2.
  destruct (on_state _ n1) as [[u|e] n2] eqn:E2; [|done].
  assert (Ht2 : term_of n2 = term_of n1).
  { unfold on_state, vote_for, save in E2. by destruct (io_result _); simplify_eq. }
  rewrite Ht2, Ht1 in H2. split; [exact H2|]. unfold term_of in *. cbn [state]. congruence.
Qed.

End VoteInvariant.

(** ** Executions of one node

    Any handler with any arguments, in any order, with any outcome of its writes, and
    restarts from the files.  [grants] lists the votes the node has given away: a
    granted vote request, or its own vote when it becomes a candidate. *)

Definition granted (c : Z) (r : DbResult (bool * Z)) (grants : list (Z * Z)) : list (Z * Z) :=
  match r with Ok (true, t) => (t, c) :: grants | _ => grants end.

Inductive node_run (json_len : RaftEntry -> Z) (self : Z) : list (Z * Z) -> RaftNode -> Prop :=
| run_start size outcomes n :
    open json_len self size default_state [] outcomes = Ok n -> node_run json_len self [] n
| run_crash grants n size outcomes n' :
    node_run json_len self grants n ->
    open json_len self size (st_file (state n)) (log_file (log n)) outcomes = Ok n' ->
    node_run json_len self grants n'
| run_vote grants n ct c ci clt res n' :
    node_run json_len self grants n -> handle_vote_request ct c ci clt n = (res, n') ->
    node_run json_len self (granted c res grants) n'
| run_candidate grants n res n' :
    node_run json_len self grants n -> become_candidate n = (res, n') ->
    node_run json_len self
      (match res with Ok t => (t, self) :: grants | Err _ => grants end) n'
| run_leader grants n peers res n' :
    node_run json_len self grants n -> become_leader peers n = (res, n') ->
    node_run json_len self grants n'
| run_follower grants n t res n' :
    node_run json_len self grants n -> become_follower t n = (res, n') ->
    node_run json_len self grants n'
| run_append grants n req res n' :
    node_run json_len self grants n -> handle_append_entries req n = (res, n') ->
    node_run json_len self grants n'
| run_response grants n resp res n' :
    node_run json_len self grants n -> handle_append_entries_response resp n = (res, n') ->
    node_run json_len self grants n'
| run_propose grants n c res n' :
    node_run json_len self grants n -> propose c n = (res, n') ->
    node_run json_len self grants n'
| run_applied grants n i :
    node_run json_len self grants n -> node_run json_len self grants (mark_applied i n).

Lemma open_node json_len self size s file outcomes n :
  open json_len self size s file outcomes = Ok n ->
  node_id n = self /\ state n = open_state s.
Proof.
  unfold open. destruct (open_log json_len file) as [l|]; [|done]. case_match; [done|].
  by intros [= <-].
Qed.

(** No handler changes the node's identity. *)
Lemma node_id_keeps (self : Z) :
  let I n := node_id n = self in
  (forall ct c ci clt, keeps I (handle_vote_request ct c ci clt)) /\ keeps I become_candidate /\
  (forall peers, keeps I (become_leader peers)) /\ (forall t, keeps I (become_follower t)) /\
  (forall req, keeps I (handle_append_entries req)) /\
  (forall resp, keeps I (handle_append_entries_response resp)) /\ (forall c, keeps I (propose c)).
Proof.
  intros I.
  assert (Hs : forall A (f : IoOutcome -> StateHandle -> DbResult A * StateHandle), keeps I (on_state f)).
  { intros A f n Hn. unfold on_state. by destruct (f _ (state n)) as [[]]. }
  assert (Hl : forall A (f : IoOutcome -> RaftLog -> DbResult A * RaftLog), keeps I (on_log f)).
  { intros A f n Hn. unfold on_log. by destruct (f _ (log n)) as [[]]. }
  assert (Hr : forall r, keeps I (set_role r)) by by intros r n Hn.
  assert (Hf : forall f, keeps I (set_followers f)) by by intros f n Hn.
  assert (Hbf : forall t, keeps I (become_follower t)).
  { intros t. unfold become_follower. apply keeps_bind; [apply Hs|intros ?].
    apply keeps_bind; [apply Hr|intros ?]. apply Hf. }
  assert (Hi : forall i, keeps I (try_index i)).
  { intros i n Hn. unfold try_index. destruct (negb _); [done|].
    destruct (_ <=? _); [by apply Hs|done]. }
  assert (His : forall l, keeps I (try_indices l)).
  { induction l as [|i l IH]; cbn [try_indices]; [apply keeps_ret|].
    apply keeps_bind; [apply Hi|by intros ?]. }
  assert (Hta : keeps I try_advance_commit_index).
  { unfold try_advance_commit_index. repeat (apply keeps_bind; [apply keeps_gets|intros ?]).
    apply keeps_if; [apply keeps_ret|]. apply keeps_bind; [apply keeps_lift|intros ?]. apply His. }
  unfold handle_vote_request, become_candidate, become_leader, handle_append_entries,
    accept_entries, handle_append_entries_response, propose.
  split_and!; intros; repeat first
    [ apply Hbf | apply Hta | apply Hs | apply Hl | apply Hr | apply Hf
    | lazymatch goal with
      | |- keeps _ (mbind _ _) => apply keeps_bind; [|intros ?]
      | |- keeps _ (mret _) => apply keeps_ret
      | |- keeps _ (gets _) => apply keeps_gets
      | |- keeps _ (lift _) => apply keeps_lift
      | |- keeps _ (fail _) => apply keeps_fail
      | |- keeps _ (if _ then _ else _) => apply keeps_if
      | |- keeps _ (match _ with _ => _ end) => case_match
      end ].
Qed.

Lemma keeps_run {A} I (m : M A) n r n' : keeps I m -> I n -> m n = (r, n') -> I n'.
Proof. intros Hm Hn E. specialize (Hm n Hn). rewrite E in Hm. by destruct r. Qed.

(** At most one candidate per term. *)
Definition once_per_term (grants : list (Z * Z)) : Prop :=
  forall t c1 c2, (t, c1) ∈ grants -> (t, c2) ∈ grants -> c1 = c2.

Lemma votes_ok_once grants h c :
  votes_ok ((current_term (st h), c) :: grants) h -> once_per_term grants ->
  once_per_term ((current_term (st h), c) :: grants).
Proof.
  intros Hv Ho t c1 c2 H1 H2.
  assert (Hcur : forall c', (current_term (st h), c') ∈ (current_term (st h), c) :: grants ->
    voted_for (st h) = Some c').
  { intros c' Hin. destruct (Hv _ _ Hin) as [[?|[_ ?]] _]; [lia|done]. }
  destruct (decide (t = current_term (st h))) as [->|Hne].
  - apply Hcur in H1, H2. congruence.
  - apply elem_of_cons in H1 as [?|H1]; [congruence|].
    apply elem_of_cons in H2 as [?|H2]; [congruence|]. eauto.
Qed.

Lemma node_run_votes json_len self grants n :
  node_run json_len self grants n ->
  (node_id n = self /\ on_state_inv (votes_ok grants) n) /\ once_per_term grants.
Proof.
  destruct (node_id_keeps self) as (K1 & K2 & K3 & K4 & K5 & K6 & K7).
  induction 1 as [size outs n Ho|grants n size outs n' _ [[IHi IHv] IHo] Ho
    |grants n ct c ci clt res n' _ [[IHi IHv] IHo] Hop|grants n res n' _ [[IHi IHv] IHo] Hop
    |grants n peers res n' _ [[IHi IHv] IHo] Hop|grants n t res n' _ [[IHi IHv] IHo] Hop
    |grants n req res n' _ [[IHi IHv] IHo] Hop|grants n resp res n' _ [[IHi IHv] IHo] Hop
    |grants n c res n' _ [[IHi IHv] IHo] Hop|grants n i _ [[IHi IHv] IHo]].
  - apply open_node in Ho as [Hid _]. split; [|by intros t c1 c2 ?%elem_of_nil].
    split; [done|]. by intros t c ?%elem_of_nil.
  - apply open_node in Ho as [Hid Hs]. split; [|done]. split; [done|]. unfold on_state_inv. rewrite Hs.
    intros t c Hin. destruct (IHv t c Hin) as [_ Hf]. by split.
  - apply Logic.and_assoc. split; [by eapply (keeps_run _ _ _ _ _ (K1 ct c ci clt))|].
    pose proof (handle_vote_request_triple grants ct c ci clt n IHv) as Ht. rewrite Hop in Ht.
    destruct res as [[[] t]|]; [|naive_solver..]. simpl in *. destruct Ht as [Hv Ht].
    split; [done|]. rewrite (Ht eq_refl) in *. by apply votes_ok_once.
  - apply Logic.and_assoc. split; [by eapply (keeps_run _ _ _ _ _ K2)|].
    pose proof (become_candidate_triple grants self n (conj IHv IHi)) as Ht. rewrite Hop in Ht.
    destruct res as [t|]; [|done]. destruct Ht as [Hv ->]. split; [done|]. by apply votes_ok_once.
  - split; [|done]. split; [by eapply (keeps_run _ _ _ _ _ (K3 peers))|].
    by eapply (keeps_run _ _ _ _ _ (become_leader_keeps grants peers)).
  - split; [|done]. split; [by eapply (keeps_run _ _ _ _ _ (K4 t))|].
    by eapply (keeps_run _ _ _ _ _ (become_follower_keeps grants t)).
  - split; [|done]. split; [by eapply (keeps_run _ _ _ _ _ (K5 req))|].
    by eapply (keeps_run _ _ _ _ _ (handle_append_entries_keeps grants req)).
  - split; [|done]. split; [by eapply (keeps_run _ _ _ _ _ (K6 resp))|].
    by eapply (keeps_run _ _ _ _ _ (handle_response_keeps grants resp)).
  - split; [|done]. split; [by eapply (keeps_run _ _ _ _ _ (K7 c))|].
    by eapply (keeps_run _ _ _ _ _ (propose_keeps grants c)).
  - unfold mark_applied. case_match; done.
Qed.


(** ** Theorems on elections *)

(** [C3] Election safety.  Take any cluster whose nodes each run the code above with
    arbitrary messages, write failures and restarts.  If majorities of the members
    have granted term [t] to [c1] and to [c2], then [c1] and [c2] are the same
    candidate. *)
Theorem election_safety json_len (members Q1 Q2 : gset Z) (grants : Z -> list (Z * Z)) t c1 c2 :
  (forall q, q ∈ members -> exists n, node_run json_len q (grants q) n) ->
  Q1 ⊆ members -> quorum (Z.of_nat (size members)) <= Z.of_nat (size Q1) ->
  (forall q, q ∈ Q1 -> (t, c1) ∈ grants q) ->
  Q2 ⊆ members -> quorum (Z.of_nat (size members)) <= Z.of_nat (size Q2) ->
  (forall q, q ∈ Q2 -> (t, c2) ∈ grants q) ->
  c1 = c2.
Proof.
  intros Hrun HQ1 Hs1 Hg1 HQ2 Hs2 Hg2.
  destruct (majorities_intersect members Q1 Q2 HQ1 HQ2 Hs1 Hs2) as (q & Hq1 & Hq2).
  destruct (Hrun q) as [n Hn]; [set_solver|].
  apply node_run_votes in Hn as [_ Ho]. eapply Ho; eauto.
Qed.

(** Stepping down to the candidate's term, when it succeeds. *)
Lemma step_down_Ok ct n a n1 :
  (if term_of n <? ct then become_follower ct else mret tt) n = (Ok a, n1) ->
  term_of n1 = Z.max (term_of n) ct /\ log n1 = log n /\ commit_of n1 = commit_of n /\
  vote_of n1 = (if term_of n <? ct then None else vote_of n) /\ node_id n1 = node_id n /\
  (0 < ct - term_of n -> st_file (state n1) = st (state n1)).
Proof.
  destruct (Z.ltb_spec (term_of n) ct) as [Hlt|Hge].
  - unfold become_follower, mbind, M_bind, on_state, advance_term. fold (term_of n).
    rewrite (proj2 (Z.leb_gt _ _)) by lia. unfold save.
    destruct (default IoOk (head (io n))) eqn:Eo; simpl; [|done..]. intros [= _ <-].
    unfold term_of, vote_of, commit_of in *. simpl. split_and!; try done. lia.
  - unfold mret, M_ret. intros [= _ <-]. split_and!; try done; lia.
Qed.

(** What a vote means.  When [handle_vote_request] answers, it answers with the
    later of the two terms, which it has adopted; it grants the vote exactly when the
    request is not stale, the node has not voted for somebody else in that term, and
    the candidate's log is at least as up to date; and by the time it says yes, term
    and vote are on disk.  The log is not touched. *)
Theorem vote_request_spec ct c ci clt n g t n' :
  handle_vote_request ct c ci clt n = (Ok (g, t), n') ->
  (g = true <->
     term_of n <= ct /\ (term_of n < ct \/ vote_of n = None \/ vote_of n = Some c) /\
     (last_term (log_of n) < clt \/
      last_term (log_of n) = clt /\ last_index (log_of n) <= ci)) /\
  t = Z.max (term_of n) ct /\ term_of n' = t /\ log n' = log n /\
  (g = true -> st_file (state n') = mkState ct (Some c) (commit_of n)).
Proof.
  unfold handle_vote_request. unfold mbind, M_bind at 1, gets at 1.
  destruct ((if term_of n <? ct then become_follower ct else mret tt) n) as [[[]|e] n1] eqn:E1;
    unfold M_bind at 1; rewrite E1; [|done].
  apply step_down_Ok in E1 as (Ht1 & Hl1 & Hc1 & Hv1 & _ & _).
  assert (Hlog : log_of n1 = log_of n) by (unfold log_of; by rewrite Hl1).
  unfold M_bind, gets. destruct (Z.ltb_spec ct (term_of n1)) as [Hst|Hst].
  { intros [= <- <- <-]. split_and!; try done. split; [done|]. lia. }
  assert (Hup : candidate_log_is_up_to_date n1 clt ci = true <->
    last_term (log_of n) < clt \/ last_term (log_of n) = clt /\ last_index (log_of n) <= ci).
  { unfold candidate_log_is_up_to_date. rewrite Hlog.
    destruct (Z.eqb_spec clt (last_term (log_of n))); simpl; [rewrite Z.leb_le|rewrite Z.ltb_lt]; lia. }
  destruct (match vote_of n1 with Some v => negb (v =? c) | None => false end) eqn:Ev.
  { intros [= <- <- <-]. split_and!; try done. split; [done|]. intros (Hle & Hvote & _).
    rewrite Hv1 in Ev. destruct (Z.ltb_spec (term_of n) ct); [done|].
    destruct Hvote as [?|[E|E]]; [lia|..]; rewrite E in Ev; [done|].
    by rewrite Z.eqb_refl in Ev. }
  assert (Hvote : term_of n < ct \/ vote_of n = None \/ vote_of n = Some c).
  { rewrite Hv1 in Ev. destruct (Z.ltb_spec (term_of n) ct); [by left|right].
    destruct (vote_of n) as [v|]; [right|by left]. bool_prop. by f_equal. }
  destruct (candidate_log_is_up_to_date n1 clt ci) eqn:Eu; simpl.
  - unfold on_state, vote_for, save. destruct (default IoOk (head (io n1))); simpl; [|done..].
    intros [= <- <- <-]. unfold term_of at 2 3, log_of. simpl. fold (term_of n1).
    split_and!; try done.
    + split; [|done]. intros _. split_and!; [lia|done|]. by apply Hup.
    + intros _. unfold commit_of in *. rewrite Hc1. f_equal. fold (term_of n1). lia.
  - intros [= <- <- <-]. split_and!; try done. split; [done|]. intros (_ & _ & Hu).
    by apply Hup in Hu.
Qed.

(** ** Commit advancement *)

(** What the loop requires of an index: an entry of the current term, counted on a
    quorum. *)
Definition ready (n : RaftNode) (i : Z) : Prop :=
  term_at i (log_of n) = term_of n /\ quorum (cluster_size n) <= replicated n i + 1.

#[global] Instance ready_dec n i : Decision (ready n i).
Proof. unfold ready. apply _. Defined.

(** The nodes differ in their commit index and pending write outcomes only. *)
Definition same_but_commit (n n' : RaftNode) : Prop :=
  node_id n' = node_id n /\ role n' = role n /\ log n' = log n /\
  last_applied n' = last_applied n /\ followers n' = followers n /\
  cluster_size n' = cluster_size n /\ term_of n' = term_of n /\ vote_of n' = vote_of n.

Lemma same_but_commit_refl n : same_but_commit n n.
Proof. done. Qed.

Lemma same_but_commit_trans n1 n2 n3 :
  same_but_commit n1 n2 -> same_but_commit n2 n3 -> same_but_commit n1 n3.
Proof.
  intros (A1 & A2 & A3 & A4 & A5 & A6 & A7 & A8) (B1 & B2 & B3 & B4 & B5 & B6 & B7 & B8).
  split_and!; congruence.
Qed.

Lemma same_but_commit_ready n n' i : same_but_commit n n' -> ready n' i <-> ready n i.
Proof.
  intros (_ & _ & Hl & _ & Hf & Hc & Ht & _). unfold ready, replicated, log_of.
  by rewrite Hl, Hf, Hc, Ht.
Qed.

Lemma try_index_Ok i n a n' :
  commit_of n < i -> try_index i n = (Ok a, n') ->
  same_but_commit n n' /\
  commit_of n' = (if decide (ready n i) then i else commit_of n) /\
  (commit_of n' <> commit_of n \/ st_file (state n) = st (state n) ->
   st_file (state n') = st (state n')).
Proof.
  intros Hlt. unfold try_index.
  destruct (Z.eqb_spec (term_at i (log_of n)) (term_of n)) as [Et|Et]; simpl.
  - destruct (Z.leb_spec (quorum (cluster_size n)) (replicated n i + 1)) as [Eq|Eq].
    + unfold on_state, set_commit_index. fold (commit_of n).
      rewrite (proj2 (Z.ltb_lt _ _)) by lia. unfold save.
      destruct (default IoOk (head (io n))); simpl; [|done..]. intros [= _ <-].
      rewrite decide_True by done. done.
    + intros [= _ <-]. rewrite decide_False by (unfold ready; lia).
      split; [done|]. split; [done|]. by intros [?|?].
  - intros [= _ <-]. rewrite decide_False by (unfold ready; naive_solver).
    split; [done|]. split; [done|]. by intros [?|?].
Qed.

Lemma try_indices_Ok l n a n' :
  StronglySorted Z.lt l -> Forall (fun i => commit_of n < i) l ->
  try_indices l n = (Ok a, n') ->
  same_but_commit n n' /\
  (commit_of n' = commit_of n \/ commit_of n' ∈ l /\ ready n (commit_of n')) /\
  commit_of n <= commit_of n' /\
  (forall i, i ∈ l -> ready n i -> i <= commit_of n') /\
  (commit_of n' <> commit_of n \/ st_file (state n) = st (state n) ->
   st_file (state n') = st (state n')).
Proof.
  revert n. induction l as [|i l IH]; intros n Hs Hf; cbn [try_indices].
  - intros [= _ <-]. split_and!; try done; [by left|by intros i ?%elem_of_nil|by intros [?|?]].
  - inversion Hs as [|? ? Hs' Hi]; subst. inversion Hf as [|? ? Hci Hf']; subst.
    unfold mbind, M_bind. destruct (try_index i n) as [[b|e] n1] eqn:E1; [|done].
    apply try_index_Ok in E1 as (S1 & C1 & D1); [|done]. intros E2.
    apply IH in E2 as (S2 & C2 & L2 & B2 & D2); [|done|].
    2:{ rewrite C1. case_decide; [|done]. eapply Forall_impl; [exact Hi|]. lia. }
    assert (Hrd : forall j, ready n1 j <-> ready n j) by (intros j; by apply same_but_commit_ready).
    assert (Hsame : commit_of n1 = commit_of n \/ commit_of n1 = i /\ ready n i).
    { rewrite C1. case_decide; [by right|by left]. }
    split_and!; [by eapply same_but_commit_trans|..].
    + rewrite elem_of_cons. rewrite Hrd in C2. destruct C2 as [E|[Hin Hr]]; [|by right; split; [right|]].
      destruct Hsame as [E'|[E' Hr]]; [left; congruence|right]. rewrite E, E'. by split; [left|].
    + destruct Hsame as [E'|[E' _]]; lia.
    + intros j [->|Hj]%elem_of_cons Hr; [|by apply B2; [|apply Hrd]].
      rewrite decide_True in C1 by done. lia.
    + intros Hor. apply D2. destruct (decide (commit_of n1 = commit_of n)) as [E|E].
      * destruct Hor as [Hne|Hd]; [left; congruence|right; auto].
      * right. apply D1. by left.
Qed.

Lemma seqZ_sorted m k : StronglySorted Z.lt (seqZ m k).
Proof.
  unfold seqZ. generalize (Z.to_nat k) as len. generalize 0%nat as s. intros s len. revert s.
  induction len as [|len IH]; intros s; simpl; constructor; [apply IH|].
  apply Forall_forall. intros x (y & -> & Hy)%list_elem_of_fmap. apply elem_of_seq in Hy. lia.
Qed.

(** [C32] The commit rule.  When [try_advance_commit_index] returns, the commit index is
    the largest index past the old one whose entry is of the current term and is
    counted on a quorum, or the old one when there is none; it never goes back, never
    passes the end of the log, and an advanced commit index is on disk.  Nothing else
    of the node changes. *)
Theorem commit_rule n a n' :
  try_advance_commit_index n = (Ok a, n') ->
  same_but_commit n n' /\
  commit_of n <= commit_of n' /\
  (commit_of n' = commit_of n \/
   commit_of n' <= last_index (log_of n) /\ ready n (commit_of n') /\
   st_file (state n') = st (state n')) /\
  (forall i, commit_of n < i <= last_index (log_of n) -> ready n i -> i <= commit_of n').
Proof.
  unfold try_advance_commit_index, mbind, M_bind, gets, lift.
  destruct (Z.leb_spec (last_index (log_of n)) (commit_of n)) as [Hle|Hgt].
  { intros [= _ <-]. split_and!; try done; [by left|lia]. }
  unfold next_log_index, ok_or. destruct (checked_add u64_max (commit_of n) 1) as [start|] eqn:Ec;
    [|done].
  apply checked_add_Some in Ec as [-> _]. intros E.
  apply try_indices_Ok in E as (S & C & L & B & D); [|apply seqZ_sorted|].
  2:{ apply Forall_forall. intros i Hi%elem_of_seqZ. lia. }
  split_and!; [done|done| |].
  - destruct C as [?|[Hin%elem_of_seqZ Hr]]; [by left|right].
    split_and!; [lia|done|]. apply D. left. lia.
  - intros i Hi Hr. apply B; [|done]. apply elem_of_seqZ. lia.
Qed.

(** ** Applying committed entries *)

Lemma unapplied_segment n :
  log_wf (log_of n) -> 0 <= last_applied n ->
  0 <= commit_of n <= Z.of_nat (length (log_of n)) -> Z.of_nat (length (log_of n)) <= u64_max ->
  unapplied_entries n =
    drop (Z.to_nat (last_applied n)) (take (Z.to_nat (commit_of n)) (log_of n)).
Proof.
  intros Hwf Hla Hc Hlen. unfold unapplied_entries.
  destruct (checked_add u64_max (last_applied n) 1) as [start|] eqn:Ec; cycle 1.
  { apply checked_add_None in Ec. by rewrite drop_ge by (rewrite length_take; lia). }
  apply checked_add_Some in Ec as [-> _]. destruct (Z.ltb_spec (commit_of n) (last_applied n + 1)).
  { by rewrite drop_ge by (rewrite length_take; lia). }
  rewrite entries_from_wf by (done || lia).
  replace (Z.to_nat (last_applied n + 1 - 1)) with (Z.to_nat (last_applied n)) by lia.
  set (k := Z.to_nat (last_applied n)). set (c := Z.to_nat (commit_of n)).
  rewrite <- (take_drop c (log_of n)) at 1. rewrite drop_app_le by (rewrite length_take; lia).
  rewrite filter_app. rewrite <- (take_drop c (log_of n)) in Hwf.
  apply log_from_app in Hwf as [Hw1 Hw2]. rewrite length_take_le in Hw2 by lia.
  rewrite filter_all, filter_none, app_nil_r; [done|..].
  - apply Forall_forall. intros e [i Hi]%list_elem_of_lookup. rewrite (Hw2 _ _ Hi). lia.
  - apply Forall_forall. intros e [i Hi]%list_elem_of_lookup. rewrite lookup_drop in Hi.
    pose proof (Hw1 _ _ Hi). apply lookup_lt_Some in Hi. rewrite length_take in Hi. lia.
Qed.

(** Entries are applied once and in order.  [unapplied_entries] is exactly the part
    of the log between [last_applied] and the commit index: marking it applied up to
    the commit index leaves nothing to apply, and what becomes applicable after the
    next commit starts right behind it. *)
Theorem unapplied_entries_spec n :
  log_wf (log_of n) -> 0 <= last_applied n ->
  0 <= commit_of n <= Z.of_nat (length (log_of n)) -> Z.of_nat (length (log_of n)) <= u64_max ->
  unapplied_entries n =
    drop (Z.to_nat (last_applied n)) (take (Z.to_nat (commit_of n)) (log_of n)) /\
  log_from (last_applied n + 1) (unapplied_entries n) /\
  unapplied_entries (mark_applied (commit_of n) n) = [].
Proof.
  intros Hwf Hla Hc Hlen. rewrite (unapplied_segment n) by done. split_and!; [done| |].
  - intros i e Hi. rewrite lookup_drop in Hi. apply lookup_take_Some in Hi as [Hi _].
    rewrite (Hwf _ _ Hi). lia.
  - rewrite unapplied_segment; unfold mark_applied;
      destruct (Z.ltb_spec (last_applied n) (commit_of n)); simpl;
      try done; try lia; rewrite drop_ge; try done; rewrite length_take; unfold commit_of in *;
      simpl; lia.
Qed.

(** ** Witnesses *)

Lemma one_entry_wf e : index e = 1 -> log_wf [e].
Proof. intros He. apply log_from_cons. split; [done|apply log_from_nil]. Qed.

Definition first_node (self : Z) : RaftNode :=
  mkNode self Follower (open_state default_state) (mkLog [] []) 0 ∅ 3 [].

Definition voter : RaftNode := snd (handle_vote_request 1 1 0 0 (first_node 2)).

Definition election_grants (q : Z) : list (Z * Z) :=
  if q =? 1 then [(1, 1)] else if q =? 2 then [(1, 1)] else [].

(** Node 1 stands in term 1 and node 2 votes for it: nobody else can win that term
    with the same two votes. *)
Lemma election_safety_witness :
  Forall (fun v => 1 = v.2) (election_grants 1).
Proof.
  apply Forall_forall. intros [t c2] Hv%list_elem_of_singleton. injection Hv as -> ->. cbn [snd].
  assert (Hq : forall q, q ∈ ({[1; 2]} : gset Z) -> q = 1 \/ q = 2).
  { intros q Hq%elem_of_union. rewrite !elem_of_singleton in Hq. exact Hq. }
  apply (election_safety (fun _ => 100) {[1; 2; 3]} {[1; 2]} {[1; 2]} election_grants 1 1 1).
  - intros q Hmem. apply elem_of_union in Hmem as [Hmem|Hmem]; [destruct (Hq q Hmem) as [->| ->]|].
    + eexists. eapply (run_candidate _ 1 [] (first_node 1) (Ok 1)); [|vm_compute; reflexivity].
      apply (run_start _ 1 3 []). reflexivity.
    + exists voter. apply (run_vote _ 2 [] (first_node 2) 1 1 0 0 (Ok (true, 1)));
        [|vm_compute; reflexivity].
      apply (run_start _ 2 3 []). reflexivity.
    + apply elem_of_singleton in Hmem as ->. exists (first_node 3).
      apply (run_start _ 3 3 []). reflexivity.
  - apply union_subseteq_l.
  - vm_compute. discriminate.
  - intros q Hin. destruct (Hq q Hin) as [->| ->]; left.
  - apply union_subseteq_l.
  - vm_compute. discriminate.
  - intros q Hin. destruct (Hq q Hin) as [->| ->]; left.
Defined.

Lemma vote_request_spec_witness :
  st_file (state voter) = mkState 1 (Some 1) 0.
Proof.
  refine (proj2 (proj2 (proj2 (proj2 (vote_request_spec 1 1 0 0 (first_node 2) true 1 voter _)))) _).
  - vm_compute. reflexivity.
  - reflexivity.
Defined.

(** A leader of three whose single follower report covers entry 1. *)
Definition counted_leader : RaftNode :=
  mkNode 1 Leader (open_state (mkState 1 (Some 1) 0)) (mkLog [mkEntry 1 1 Noop] [mkEntry 1 1 Noop])
    0 {[2 := mkProgress 2 1]} 3 [].

Lemma commit_rule_witness :
  exists n', try_advance_commit_index counted_leader = (Ok tt, n') /\ commit_of n' = 1 /\
    commit_of counted_leader <= commit_of n'.
Proof.
  eexists. split; [vm_compute; reflexivity|]. split; [reflexivity|].
  refine (proj1 (proj2 (commit_rule counted_leader tt _ _))). vm_compute. reflexivity.
Defined.

(** A node that has committed the first entry of its log and not applied it. *)
Definition committed_one : RaftNode := snd (try_advance_commit_index counted_leader).

Lemma unapplied_entries_spec_witness :
  unapplied_entries committed_one = [mkEntry 1 1 Noop] /\
  unapplied_entries (mark_applied 1 committed_one) = [].
Proof.
  split; [vm_compute; reflexivity|].
  refine (proj2 (proj2 (unapplied_entries_spec committed_one _ _ _ _))).
  - apply one_entry_wf. reflexivity.
  - vm_compute. discriminate.
  - vm_compute. split; discriminate.
  - vm_compute. discriminate.
Defined.
