(* ===== verification/RaftReplication.v ===== *)
(** * Raft log replication between two nodes

    Theorems about the messages of [RaftNode] put together: what one AppendEntries
    exchange does to the follower's log, that repeating it catches the follower up,
    in what order entries are applied; and runs that show where the node departs
    from Raft. *)

From S2P Require Import Prelude RaftLog RaftNode.

(** ** One request *)

(** The step-down at the start of [handle_append_entries]. *)
Definition append_step_down (req : AppendEntriesRequest) (n : RaftNode) : DbResult unit * RaftNode :=
  (if (term_of n <? req_term req) || ((req_term req =? term_of n) && negb (bool_decide (role n = Follower)))
   then become_follower (req_term req) else mret tt) n.

Lemma handle_append_entries_unfold req n :
  handle_append_entries req n =
  match append_step_down req n with
  | (Err e, n1) => (Err e, n1)
  | (Ok _, n1) =>
      if req_term req <? term_of n1 then (Ok (respond false n1), n1)
      else if log_check req n1 then accept_entries req n1
      else (Ok (respond false n1), n1)
  end.
Proof.
  unfold handle_append_entries, append_step_down, mbind, M_bind, gets.
  set (m := if _ || _ then become_follower (req_term req) else _).
  destruct (m n) as [[[]|] n1]; [|done].
  case_match; [done|]. by destruct (log_check req n1).
Qed.

(** Stepping down touches the term, the vote and the leader bookkeeping only. *)
Lemma append_step_down_frame req n r n1 :
  append_step_down req n = (r, n1) ->
  log n1 = log n /\ node_id n1 = node_id n /\ commit_of n1 = commit_of n /\
  last_applied n1 = last_applied n /\
  (r = Ok tt -> term_of n1 = Z.max (term_of n) (req_term req)) /\
  (io n = [] -> r = Ok tt /\ io n1 = []).
Proof.
  unfold append_step_down. destruct (_ || _) eqn:E.
  - unfold become_follower, mbind, M_bind, on_state, advance_term. fold (term_of n).
    destruct (Z.leb_spec (req_term req) (term_of n)) as [Hle|Hgt].
    + intros [= <- <-]. split_and!; try done.
      * intros _. unfold term_of in *. simpl. lia.
      * intros Hio. simpl. by rewrite Hio.
    + unfold save. destruct (default IoOk (head (io n))) eqn:Eo; simpl; intros [= <- <-];
        split_and!; try done; try (intros Hio; rewrite Hio in *; done).
      intros _. unfold term_of in *. simpl. lia.
  - unfold mret, M_ret. intros [= <- <-]. apply orb_false_iff in E as [E _]. bool_prop.
    split_and!; try done. intros _. lia.
Qed.

(** The commit update at the end of an accepted request. *)
Lemma follow_commit_Ok req n a n' :
  (if commit_of n <? leader_commit req then
     (gets (fun n => last_index (log_of n)) ≫= fun last =>
      on_state (fun o => set_commit_index o (Z.min (leader_commit req) last)))
   else mret tt) n = (Ok a, n') ->
  same_but_commit n n' /\
  commit_of n' = Z.max (commit_of n) (Z.min (leader_commit req) (last_index (log_of n))).
Proof.
  destruct (Z.ltb_spec (commit_of n) (leader_commit req)) as [Hlt|Hge].
  - unfold mbind, M_bind, gets, on_state, set_commit_index. fold (commit_of n).
    destruct (Z.ltb_spec (commit_of n) (Z.min (leader_commit req) (last_index (log_of n)))) as [Hc|Hc].
    + unfold save. destruct (default IoOk (head (io n))); simpl; [|done..]. intros [= _ <-].
      split; [done|]. unfold commit_of at 1. simpl. lia.
    + intros [= _ <-]. split; [done|]. unfold commit_of in *. simpl. lia.
  - intros [= _ <-]. split; [done|]. lia.
Qed.

Lemma accept_entries_Ok req n resp n' :
  accept_entries req n = (Ok resp, n') ->
  (req_entries req = [] /\ log n' = log n \/
   req_entries req <> [] /\ exists o,
     append_entries_checked o (prev_log_index req) (req_entries req) (log n) = (Ok tt, log n')) /\
  term_of n' = term_of n /\ node_id n' = node_id n /\ last_applied n' = last_applied n /\
  commit_of n' = Z.max (commit_of n) (Z.min (leader_commit req) (last_index (log_of n'))) /\
  resp = respond true n'.
Proof.
  unfold accept_entries. intros Hacc. unfold mbind at 1, M_bind at 1 in Hacc.
  match type of Hacc with context [match ?m n with _ => _ end] =>
    destruct (m n) as [[u|e] n1] eqn:E1 end; [|done].
  assert (H1 : (req_entries req = [] /\ log n1 = log n \/
    req_entries req <> [] /\ exists o,
      append_entries_checked o (prev_log_index req) (req_entries req) (log n) = (Ok tt, log n1)) /\
    term_of n1 = term_of n /\ node_id n1 = node_id n /\ last_applied n1 = last_applied n /\
    commit_of n1 = commit_of n).
  { destruct (req_entries req) as [|e0 es]; [injection E1 as _ <-; by split_and!; [left|..]|].
    unfold on_log in E1. destruct (append_entries_checked _ _ _ (log n)) as [r l] eqn:Ea.
    destruct r as [[]|]; [|done]. injection E1 as _ <-. split_and!; [right|done..].
    split; [done|]. by eexists. }
  destruct H1 as (Hlog & Ht & Hid & Hla & Hc). unfold mbind at 1, M_bind at 1, gets at 1 in Hacc.
  unfold mbind at 1, M_bind at 1 in Hacc.
  match type of Hacc with context [match ?m n1 with _ => _ end] =>
    destruct (m n1) as [[v|e] n2] eqn:E2 end; [|done].
  apply follow_commit_Ok in E2 as [(S1 & S2 & S3 & S4 & S5 & S6 & S7 & S8) C].
  injection Hacc as <- <-. rewrite S3. unfold log_of in *. rewrite S3, C, Hc.
  split_and!; congruence.
Qed.

(** The log part of an accepted request. *)
Lemma accepted_log req n resp n' :
  log_wf (log_of n) -> log_check req n = true -> 0 <= prev_log_index req ->
  accept_entries req n = (Ok resp, n') ->
  log_of n' = take (Z.to_nat (prev_log_index req)) (log_of n) ++
    merge_suffix (req_entries req) (drop (Z.to_nat (prev_log_index req)) (log_of n)) /\
  log_wf (log_of n') /\ prev_log_index req <= Z.of_nat (length (log_of n)).
Proof.
  intros Hwf Hchk Hprev Hacc.
  assert (Hle : prev_log_index req <= Z.of_nat (length (log_of n))).
  { unfold log_check in Hchk. rewrite last_index_wf in Hchk by done.
    destruct (Z.ltb_spec 0 (prev_log_index req)); [|lia]. case_match; [done|]. bool_prop. lia. }
  apply accept_entries_Ok in Hacc as [[[-> Hl]|[Hne [o Hl]]] _]; unfold log_of in *.
  - rewrite Hl. simpl. by rewrite take_drop.
  - destruct (append_entries_checked_facts _ _ _ _ _ Hwf (conj Hprev Hle) Hne Hl) as (? & ? & _).
    done.
Qed.

(** ** One exchange *)

(** [k] extends [l]. *)
Definition extends (k l : list RaftEntry) : Prop := exists more, k = l ++ more.

(** A request to a follower at [next_index]: its fields in terms of the leader's log. *)
Lemma request_for_wf n p :
  log_wf (log_of n) -> 1 <= next_index p ->
  prev_log_index (request_for n p) = next_index p - 1 /\
  req_entries (request_for n p) = drop (Z.to_nat (next_index p - 1)) (log_of n).
Proof.
  intros Hwf Hn. unfold request_for, saturating_sub. simpl.
  rewrite entries_from_wf by done. split; [lia|done].
Qed.

(** Passing the consistency check means agreeing up to the previous index. *)
Lemma log_check_agree leader p f :
  log_wf (log_of leader) -> log_wf (log_of f) ->
  1 <= next_index p <= Z.of_nat (length (log_of leader)) + 1 ->
  log_matching (log_of leader) (log_of f) ->
  log_check (request_for leader p) f = true ->
  take (Z.to_nat (next_index p - 1)) (log_of leader) = take (Z.to_nat (next_index p - 1)) (log_of f).
Proof.
  intros Hl Hf Hn Hm Hchk. destruct (request_for_wf leader p Hl ltac:(lia)) as [Hprev _].
  unfold log_check in Hchk. rewrite Hprev in Hchk.
  destruct (Z.ltb_spec 0 (next_index p - 1)) as [Hpos|Hz].
  2:{ replace (Z.to_nat (next_index p - 1)) with O by lia. done. }
  rewrite last_index_wf in Hchk by done. destruct (Z.ltb_spec (Z.of_nat (length (log_of f))) (next_index p - 1)); [done|].
  apply Z.eqb_eq in Hchk. unfold request_for in Hchk. simpl in Hchk.
  replace (saturating_sub (next_index p) 1) with (next_index p - 1) in Hchk by (unfold saturating_sub; lia).
  unfold term_at in Hchk. rewrite !get_wf in Hchk by (done || lia).
  set (i := Z.to_nat (next_index p - 1 - 1)) in *.
  assert (Hi : Z.to_nat (next_index p - 1) = S i) by lia. rewrite Hi.
  destruct (log_of leader !! i) as [a|] eqn:Ea; [|apply lookup_ge_None in Ea; lia].
  destruct (log_of f !! i) as [b|] eqn:Eb; [|apply lookup_ge_None in Eb; lia].
  by apply (Hm i a b).
Qed.

Lemma handle_append_success req f resp f' :
  handle_append_entries req f = (Ok resp, f') -> success resp = true ->
  exists f1, append_step_down req f = (Ok tt, f1) /\ log_check req f1 = true /\
    term_of f1 = req_term req /\ accept_entries req f1 = (Ok resp, f').
Proof.
  rewrite handle_append_entries_unfold.
  destruct (append_step_down req f) as [[[]|] f1] eqn:E1; [|done].
  pose proof (append_step_down_frame _ _ _ _ E1) as (_ & _ & _ & _ & Ht & _).
  specialize (Ht eq_refl). destruct (Z.ltb_spec (req_term req) (term_of f1)).
  { by intros [= <- <-]. }
  destruct (log_check req f1) eqn:Ec; [|by intros [= <- <-]].
  intros Hacc _. exists f1. split_and!; try done. lia.
Qed.

Lemma log_check_log req f f1 : log f1 = log f -> log_check req f1 = log_check req f.
Proof. intros E. unfold log_check, log_of. by rewrite E. Qed.

Lemma replicated_log leader p f f1 resp f' :
  log_wf (log_of leader) -> log_wf (log_of f) ->
  1 <= next_index p <= Z.of_nat (length (log_of leader)) + 1 ->
  log_matching (log_of leader) (log_of f) -> log f1 = log f ->
  log_check (request_for leader p) f1 = true ->
  accept_entries (request_for leader p) f1 = (Ok resp, f') ->
  log_wf (log_of f') /\
  (log_of f' = log_of leader \/ log_of f' = log_of f /\ extends (log_of f) (log_of leader)).
Proof.
  intros Hl Hf Hn Hm Hlog Hchk Hacc.
  assert (Hlf : log_of f1 = log_of f) by (unfold log_of; by rewrite Hlog).
  pose proof (log_check_agree leader p f Hl Hf Hn Hm) as Hagree.
  rewrite (log_check_log _ _ _ Hlog) in Hchk. specialize (Hagree Hchk).
  destruct (request_for_wf leader p Hl ltac:(lia)) as [Hprev Hes].
  apply accepted_log in Hacc as (Hnew & Hwf' & _);
    [|by rewrite Hlf|by rewrite (log_check_log _ _ _ Hlog)|lia].
  split; [done|]. rewrite Hprev, Hes, Hlf in Hnew.
  set (k := Z.to_nat (next_index p - 1)) in *.
  rewrite <- (take_drop k (log_of leader)) in Hm at 1. rewrite <- (take_drop k (log_of f)) in Hm.
  rewrite <- Hagree in Hm, Hnew.
  destruct (merge_suffix_leader _ _ _ Hm) as [E|(E & more & Hmore)]; rewrite E in Hnew.
  - left. by rewrite Hnew, take_drop.
  - right. split; [rewrite Hnew, Hagree; apply take_drop|]. exists more.
    rewrite <- (take_drop k (log_of f)), Hmore, <- Hagree, app_assoc. by rewrite take_drop.
Qed.

(** ** Theorems on replication *)

(** [C22] Log replication.  A leader's request is built from its log at the follower's
    next index.  When the two logs satisfy the log matching property and the follower
    accepts, its log afterwards is the leader's log, or is unchanged and already
    extends the leader's; it has adopted the leader's term, and its commit index is
    the leader's, cut at the end of its own log, if that is an advance. *)
Theorem replication_step leader p f resp f' :
  log_wf (log_of leader) -> log_wf (log_of f) ->
  1 <= next_index p <= Z.of_nat (length (log_of leader)) + 1 ->
  log_matching (log_of leader) (log_of f) ->
  handle_append_entries (request_for leader p) f = (Ok resp, f') -> success resp = true ->
  log_wf (log_of f') /\
  (log_of f' = log_of leader \/ log_of f' = log_of f /\ extends (log_of f) (log_of leader)) /\
  term_of f' = term_of leader /\
  commit_of f' = Z.max (commit_of f) (Z.min (commit_of leader) (Z.of_nat (length (log_of f')))) /\
  resp_match resp = Z.of_nat (length (log_of f')).
Proof.
  intros Hl Hf Hn Hm Hh Hs. destruct (handle_append_success _ _ _ _ Hh Hs) as (f1 & E1 & Hc & Ht & Hacc).
  apply append_step_down_frame in E1 as (Hlog & Hid & Hcm & _ & _ & _).
  destruct (replicated_log leader p f f1 resp f' Hl Hf Hn Hm Hlog Hc Hacc) as [Hwf' Hr].
  apply accept_entries_Ok in Hacc as (_ & Ht' & _ & _ & Hc' & ->).
  split_and!; [done|done| | |].
  - by rewrite Ht', Ht.
  - rewrite Hc', Hcm, last_index_wf by done. done.
  - simpl. by apply last_index_wf.
Qed.

(** ** Catching up *)

(** One round trip: the leader's request for the follower, its answer, and the
    leader's handling of the answer. *)
Definition exchange (lf : RaftNode * RaftNode) : RaftNode * RaftNode :=
  let '(l, f) := lf in
  match followers l !! node_id f with
  | None => (l, f)
  | Some p =>
      match handle_append_entries (request_for l p) f with
      | (Ok resp, f') => (snd (handle_append_entries_response resp l), f')
      | (Err _, f') => (l, f')
      end
  end.

Lemma check_windows_from n l :
  log_from n l -> n + Z.of_nat (length l) <= u64_max + 1 -> check_windows l = Ok tt.
Proof.
  revert n. induction l as [|a l IH]; intros n Hl Hn; [done|].
  destruct l as [|b l]; [done|]. apply log_from_cons in Hl as [Ha Hl].
  pose proof Hl as [Hb _]%log_from_cons. cbn [check_windows length] in *.
  unfold next_log_index, ok_or.
  assert (Hc : checked_add u64_max (index a) 1 = Some (index b)) by (apply checked_add_Some; lia).
  rewrite Hc, Z.eqb_refl. apply (IH (n + 1) Hl). simpl. lia.
Qed.

(** With working disks, a request that passes the check is accepted. *)
Lemma accept_entries_live leader p f1 :
  log_wf (log_of leader) -> 1 <= next_index p ->
  Z.of_nat (length (log_of leader)) <= u64_max -> io f1 = [] ->
  exists resp f', accept_entries (request_for leader p) f1 = (Ok resp, f') /\ success resp = true /\
    io f' = [].
Proof.
  intros Hl Hn Hlen Hio. destruct (request_for_wf leader p Hl Hn) as [Hprev Hes].
  unfold accept_entries, mbind, M_bind, gets. rewrite Hes, Hprev.
  assert (Hstep : exists f2, match drop (Z.to_nat (next_index p - 1)) (log_of leader) with
     | [] => mret tt
     | e :: es => on_log (fun o => append_entries_checked o (next_index p - 1) (e :: es))
     end f1 = (Ok tt, f2) /\ io f2 = []).
  { destruct (drop _ (log_of leader)) as [|e0 es] eqn:Ed; [by eexists|].
    assert (Hfrom : log_from (next_index p) (e0 :: es)).
    { rewrite <- (take_drop (Z.to_nat (next_index p - 1)) (log_of leader)), Ed in Hl.
      apply log_from_app in Hl as [_ Hl]. rewrite length_take_le in Hl.
      - by replace (next_index p) with (1 + Z.of_nat (Z.to_nat (next_index p - 1))) by lia.
      - apply (f_equal length) in Ed. rewrite length_drop in Ed. simpl in Ed. lia. }
    assert (Hbound : next_index p + Z.of_nat (length (e0 :: es)) <= u64_max + 1).
    { rewrite <- Ed, length_drop. apply (f_equal length) in Ed. rewrite length_drop in Ed.
      simpl in Ed. lia. }
    pose proof Hfrom as [He0 _]%log_from_cons. cbn [length] in Hbound.
    unfold on_log, append_entries_checked, next_log_index, ok_or.
    assert (Hc : checked_add u64_max (next_index p - 1) 1 = Some (next_index p)).
    { apply checked_add_Some. lia. }
    rewrite Hc, He0, Z.eqb_refl, (check_windows_from (next_index p)) by (done || simpl; lia).
    rewrite Hio. simpl. by eexists. }
  destruct Hstep as (f2 & E2 & Hio2). rewrite E2.
  destruct (commit_of f2 <? leader_commit (request_for leader p)); [|by eexists _, _].
  unfold on_state, set_commit_index. rewrite Hio2. simpl.
  destruct (_ <? _); simpl; by eexists _, _.
Qed.

(** The leader's reaction to a refusal. *)
Lemma refused_response l p resp :
  role l = Leader -> followers l !! resp_node resp = Some p -> resp_term resp <= term_of l ->
  success resp = false ->
  let l' := snd (handle_append_entries_response resp l) in
  log l' = log l /\ role l' = Leader /\ term_of l' = term_of l /\
  followers l' !! resp_node resp =
    Some (mkProgress (Z.max (saturating_sub (next_index p) 1) 1) (match_index p)).
Proof.
  intros Hr Hp Ht Hs. unfold handle_append_entries_response, mbind, M_bind, gets.
  rewrite (proj2 (Z.ltb_ge _ _)) by lia. rewrite Hr. cbv beta. simpl. rewrite Hp, Hs. simpl.
  by rewrite lookup_insert_eq.
Qed.

Fixpoint exchanges (k : nat) (lf : RaftNode * RaftNode) : RaftNode * RaftNode :=
  match k with O => lf | S k' => exchanges k' (exchange lf) end.

(** [C20] A follower catches up.  Take a leader, and a follower it tracks, whose logs
    satisfy the log matching property, with the follower not in a later term, and
    disks that work.  After at most [next_index] round trips the follower's log
    contains the leader's whole log. *)
Theorem catch_up l f p :
  role l = Leader -> followers l !! node_id f = Some p ->
  log_wf (log_of l) -> log_wf (log_of f) -> Z.of_nat (length (log_of l)) <= u64_max ->
  1 <= next_index p <= Z.of_nat (length (log_of l)) + 1 ->
  log_matching (log_of l) (log_of f) -> term_of f <= term_of l -> io f = [] ->
  exists k, Z.of_nat k <= next_index p /\
    extends (log_of (snd (exchanges k (l, f)))) (log_of l).
Proof.
  intros Hrole Hp Hl Hf Hlen Hn Hm Ht Hio.
  remember (Z.to_nat (next_index p - 1)) as d eqn:Hd. revert l f p Hrole Hp Hl Hf Hlen Hn Hm Ht Hio Hd.
  induction d as [|d IH]; intros l f p Hrole Hp Hl Hf Hlen Hn Hm Ht Hio Hd.
  all: pose proof (handle_append_entries_unfold (request_for l p) f) as Hun;
    destruct (append_step_down (request_for l p) f) as [r f1] eqn:E1;
    pose proof (append_step_down_frame _ _ _ _ E1) as (Hlog & Hid & _ & _ & Ht1 & Hio1);
    destruct (Hio1 Hio) as [-> Hiof1]; specialize (Ht1 eq_refl); simpl in Ht1;
    cbn [req_term request_for] in Hun; rewrite (proj2 (Z.ltb_ge _ _)) in Hun by lia.
  all: destruct (accept_entries_live l p f1 Hl ltac:(lia) Hlen Hiof1) as (resp & f' & Hacc & Hs & _).
  all: destruct (log_check (request_for l p) f1) eqn:Ec.
  1,3: rewrite Hacc in Hun; exists 1%nat; (split; [lia|]); cbn [exchanges exchange]; rewrite Hp, Hun;
    destruct (replicated_log l p f f1 resp f' Hl Hf Hn Hm Hlog Ec Hacc) as [_ [E|[E Hx]]]; simpl;
    rewrite E; [exists []; by rewrite app_nil_r|done].
  - exfalso. destruct (request_for_wf l p Hl ltac:(lia)) as [Hprev _].
    unfold log_check in Ec. rewrite Hprev in Ec. rewrite (proj2 (Z.ltb_ge _ _)) in Ec by lia. done.
  - set (resp' := respond false f1) in *.
    assert (Hnode : resp_node resp' = node_id f) by (simpl; congruence).
    rewrite <- Hnode in Hp.
    destruct (refused_response l p resp' Hrole Hp ltac:(simpl; lia) eq_refl) as (R1 & R2 & R3 & R4).
    set (l' := snd (handle_append_entries_response resp' l)) in *.
    assert (Hll : log_of l' = log_of l) by (unfold log_of; by rewrite R1).
    assert (Hff : log_of f1 = log_of f) by (unfold log_of; by rewrite Hlog).
    destruct (IH l' f1 (mkProgress (Z.max (saturating_sub (next_index p) 1) 1) (match_index p)))
      as (k & Hk & Hx); rewrite ?Hll, ?Hff, ?R3 in *; unfold saturating_sub in *;
      cbn [next_index]; try done; try lia.
    cbn [next_index] in Hk. exists (S k). split; [lia|]. cbn [exchanges exchange].
    rewrite <- Hnode, Hp, Hun. exact Hx.
Qed.

(** ** Applying *)

(** ** Concrete runs *)

Definition unit_len (_ : RaftEntry) : Z := 100.

Definition fresh_node (self : Z) (outcomes : list IoOutcome) : RaftNode :=
  mkNode self Follower (open_state default_state) (mkLog [] []) 0 ∅ 3 outcomes.

Definition run {A} (m : M A) (n : RaftNode) : RaftNode := snd (m n).

(** Node 2 leads term 1 and replicates one entry to nodes 1 and 3. *)
Definition lead_2 : RaftNode :=
  run (propose Noop) (run (become_leader [1; 3]) (run become_candidate (fresh_node 2 []))).

Definition after_first : RaftNode * RaftNode * RaftNode :=
  let '(b1, a) := exchange (lead_2, fresh_node 1 []) in
  let '(b2, c) := exchange (b1, fresh_node 3 []) in
  (a, b2, c).

(** Node 2 appends a second entry nobody else receives; node 1 is elected in term 2. *)
Definition divided : RaftNode * RaftNode * RaftNode :=
  let '(a, b, c) := after_first in
  let b' := run (propose (RemoveNode 9)) b in
  let a' := run become_candidate a in
  let c' := run (handle_vote_request 2 1 (last_index (log_of a')) (last_term (log_of a'))) c in
  (run (become_leader [2; 3]) a', b', c').

(** One heartbeat to node 2, whose log is longer, then a proposal. *)
Definition overcounted : RaftNode * RaftNode * RaftNode :=
  let '(a, b, c) := divided in
  let '(a', b') := exchange (a, b) in
  (run (propose (RemoveNode 7)) a', b', c).

(** The follower answers a heartbeat with the length of its whole log, so the leader
    takes the follower's stale second entry for its own: it commits an entry that no
    other node has. *)
Lemma stale_suffix_counted :
  let '(a, b, c) := overcounted in
  commit_of a = 2 /\ log_of a !! 1%nat = Some (mkEntry 2 2 (RemoveNode 7)) /\
  log_of b !! 1%nat = Some (mkEntry 2 1 (RemoveNode 9)) /\ log_of c !! 1%nat = None.
Proof. vm_compute. done. Qed.

(** A follower whose log write fails. *)
Definition failed_append : RaftNode :=
  run (handle_append_entries (mkAppend 1 2 0 0 [mkEntry 1 1 Noop] 0)) (fresh_node 1 [IoOk; IoFailOld]).

Definition acknowledged : DbResult AppendEntriesResponse * RaftNode :=
  handle_append_entries (mkAppend 1 2 1 1 [] 1) failed_append.

(** The entry stays in memory, and the next heartbeat acknowledges and commits it: the
    disk holds a commit index past the end of the log, and the node cannot restart. *)
Lemma failed_append_acknowledged :
  log_file (log failed_append) = [] /\
  fst acknowledged = Ok (mkResponse 1 1 true 1) /\
  log_file (log (snd acknowledged)) = [] /\
  commit_index (st_file (state (snd acknowledged))) = 1 /\
  open unit_len 1 3 (st_file (state (snd acknowledged))) (log_file (log (snd acknowledged))) [] =
    Err Internal.
Proof. vm_compute. done. Qed.

(** ** Witnesses *)

Lemma replication_step_witness :
  exists resp f', handle_append_entries (request_for lead_2 (mkProgress 1 0)) (fresh_node 1 []) =
      (Ok resp, f') /\ log_of f' = [mkEntry 1 1 Noop].
Proof.
  eexists _, _. split; [vm_compute; reflexivity|].
  destruct (replication_step lead_2 (mkProgress 1 0) (fresh_node 1 []) (mkResponse 1 1 true 1) _
    ltac:(apply one_entry_wf; reflexivity) ltac:(apply log_from_nil)
    ltac:(vm_compute; split; discriminate) ltac:(intros i a b _ Hb; discriminate Hb)
    ltac:(vm_compute; reflexivity) ltac:(reflexivity)) as (_ & [E|[E _]] & _).
  - rewrite E. vm_compute. reflexivity.
  - vm_compute in E. discriminate E.
Defined.

(** A leader with one entry and a follower it takes to be up to date. *)
Lemma catch_up_witness :
  exists k, Z.of_nat k <= 1 /\
    extends (log_of (snd (exchanges k (lead_2, fresh_node 1 [])))) [mkEntry 1 1 Noop].
Proof.
  apply (catch_up lead_2 (fresh_node 1 []) (mkProgress 1 0)).
  - reflexivity.
  - vm_compute. reflexivity.
  - apply one_entry_wf. reflexivity.
  - apply log_from_nil.
  - vm_compute. discriminate.
  - vm_compute. split; discriminate.
  - intros i a b _ Hb. discriminate Hb.
  - vm_compute. discriminate.
  - reflexivity.
Defined.
