(* ===== verification/PageBytes.v ===== *)
(** * The bytes of a page

    Slices of an 8 KiB page and writes to it, as the heap page and the index pages use
    them: [field] reads a little-endian integer at an offset, [put] copies bytes over
    the page. *)

From S2P Require Import Prelude.
From S2P Require Import Bytes.

Definition PAGE_SIZE : Z := 8192.

Definition zero_page : list Z := replicate (Z.to_nat PAGE_SIZE) 0.

(** [data[off..off + n]]. *)
Definition slice (d : list Z) (off n : Z) : list Z := take (Z.to_nat n) (drop (Z.to_nat off) d).

(** [data[off..off + bs.len()].copy_from_slice(bs)], in range. *)
Definition put (d : list Z) (off : Z) (bs : list Z) : list Z :=
  take (Z.to_nat off) d ++ bs ++ drop (Z.to_nat off + length bs) d.

Definition copy_into (d : list Z) (off : Z) (bs : list Z) : option (list Z) :=
  if off + Z.of_nat (length bs) <=? PAGE_SIZE then Some (put d off bs) else None.

Definition field (d : list Z) (off n : Z) : Z := le_value (slice d off n).

#[global] Arguments slice : simpl never.
#[global] Arguments put : simpl never.
#[global] Arguments PAGE_SIZE : simpl never.

(** ** Byte-level facts *)

Lemma slice_lookup d off n i :
  slice d off n !! i = if decide (i < Z.to_nat n)%nat then d !! (Z.to_nat off + i)%nat else None.
Proof.
  unfold slice. case_decide as Hi.
  - by rewrite lookup_take_lt, lookup_drop.
  - by rewrite lookup_take_ge by lia.
Qed.

Lemma put_lookup d off bs i :
  (Z.to_nat off + length bs <= length d)%nat ->
  put d off bs !! i =
    if decide (Z.to_nat off <= i < Z.to_nat off + length bs)%nat then bs !! (i - Z.to_nat off)%nat
    else d !! i.
Proof.
  intros Hlen. unfold put. case_decide as Hi.
  - rewrite lookup_app_r by (rewrite length_take; lia). rewrite length_take_le by lia.
    by rewrite lookup_app_l by lia.
  - destruct (decide (i < Z.to_nat off)%nat).
    + rewrite lookup_app_l by (rewrite length_take; lia). by rewrite lookup_take_lt.
    + rewrite lookup_app_r by (rewrite length_take; lia). rewrite length_take_le by lia.
      rewrite lookup_app_r by lia. rewrite lookup_drop. f_equal. lia.
Qed.

Lemma length_put d off bs :
  (Z.to_nat off + length bs <= length d)%nat -> length (put d off bs) = length d.
Proof. intros Hlen. unfold put. rewrite !length_app, length_take, length_drop. lia. Qed.

Lemma length_slice d off n :
  (Z.to_nat off + Z.to_nat n <= length d)%nat -> length (slice d off n) = Z.to_nat n.
Proof. intros Hlen. unfold slice. rewrite length_take, length_drop. lia. Qed.

Definition page_len (d : list Z) : Prop := Z.of_nat (length d) = PAGE_SIZE.

Lemma slice_put_same d off bs :
  page_len d -> 0 <= off -> off + Z.of_nat (length bs) <= PAGE_SIZE ->
  slice (put d off bs) off (Z.of_nat (length bs)) = bs.
Proof.
  unfold page_len. intros Hd Ho Hl. apply list_eq. intros i. rewrite slice_lookup.
  case_decide as Hi.
  - rewrite put_lookup, decide_True by lia. f_equal. lia.
  - symmetry. apply lookup_ge_None. lia.
Qed.

Lemma slice_put_other d off bs o n :
  page_len d -> 0 <= off -> 0 <= o -> 0 <= n -> off + Z.of_nat (length bs) <= PAGE_SIZE ->
  o + n <= off \/ off + Z.of_nat (length bs) <= o ->
  slice (put d off bs) o n = slice d o n.
Proof.
  unfold page_len. intros Hd Ho Ho2 Hn Hl Hdis. apply list_eq. intros i. rewrite !slice_lookup.
  case_decide as Hi; [|done]. by rewrite put_lookup, decide_False by lia.
Qed.

Lemma put_page_len d off bs :
  page_len d -> 0 <= off -> off + Z.of_nat (length bs) <= PAGE_SIZE -> page_len (put d off bs).
Proof. unfold page_len. intros Hd Ho Hl. rewrite length_put; lia. Qed.

Lemma field_put_same d off n v :
  page_len d -> 0 <= off -> off + Z.of_nat n <= PAGE_SIZE -> 0 <= v < 256 ^ Z.of_nat n ->
  field (put d off (le_bytes n v)) off (Z.of_nat n) = v.
Proof.
  intros Hd Ho Hl Hv. unfold field.
  rewrite <- (length_le_bytes n v) at 2. rewrite slice_put_same by (rewrite ?length_le_bytes; done).
  by apply le_value_bytes.
Qed.

Lemma field_put_other d off bs o n :
  page_len d -> 0 <= off -> 0 <= o -> 0 <= n -> off + Z.of_nat (length bs) <= PAGE_SIZE ->
  o + n <= off \/ off + Z.of_nat (length bs) <= o -> field (put d off bs) o n = field d o n.
Proof. intros. unfold field. by rewrite slice_put_other. Qed.

Lemma put_bytes d off bs : Forall byte d -> Forall byte bs -> Forall byte (put d off bs).
Proof.
  intros Hd Hb. unfold put. repeat apply Forall_app_2; auto using Forall_take, Forall_drop.
Qed.

Lemma field_bound d off n :
  page_len d -> Forall byte d -> 0 <= off -> 0 <= n -> off + n <= PAGE_SIZE ->
  0 <= field d off n < 256 ^ n.
Proof.
  intros Hlen Hd Ho Hn Hl. unfold field.
  pose proof (le_value_bound (slice d off n)) as H.
  rewrite length_slice, Z2Nat.id in H by (unfold page_len in Hlen; lia).
  apply H. unfold slice. auto using Forall_take, Forall_drop.
Qed.

(** ** Pages

    A value of type [[u8; PAGE_SIZE]]. *)

Definition is_page (d : list Z) : Prop := page_len d /\ Forall byte d.

Definition pageb (d : list Z) : bool :=
  (Z.of_nat (length d) =? PAGE_SIZE) && forallb (fun b => (0 <=? b) && (b <? 256)) d.

Lemma pageb_spec d : pageb d = true <-> is_page d.
Proof.
  unfold pageb, is_page, page_len. rewrite andb_true_iff, Z.eqb_eq, forallb_forall, Forall_forall. unfold byte.
  split; intros [Hl Hb]; (split; [done|]); intros b Hin; [|apply list_elem_of_In in Hin]; specialize (Hb b).
  - apply list_elem_of_In in Hin. specialize (Hb Hin). lia.
  - specialize (Hb Hin). lia.
Qed.

Lemma is_page_len d : is_page d -> page_len d.
Proof. by intros [? _]. Qed.

Lemma zero_page_is : is_page zero_page.
Proof.
  split; [unfold page_len, zero_page; by rewrite length_replicate|]. apply Forall_replicate. unfold byte. lia.
Qed.

Lemma put_is_page d off bs :
  is_page d -> 0 <= off -> off + Z.of_nat (length bs) <= PAGE_SIZE -> Forall byte bs -> is_page (put d off bs).
Proof. intros [Hl Hb] Ho Hn Hbs. split; [by apply put_page_len|by apply put_bytes]. Qed.


