(* ===== verification/HeapPage.v ===== *)
(** * The slotted heap page ([crates/aiondb-buffer-pool/src/heap_page.rs])

    An 8 KiB page: a 32-byte header, an array of 4-byte line pointers growing up
    from it, and tuples growing down from the end.  A page is its list of bytes;
    every accessor of the source is the same little-endian read or write at the same
    offset.  A slice index out of range panics in Rust: mutators return [None] there.
    Widths: offsets and lengths are [usize] values in [Z], line pointers are [u32]
    values packed and unpacked with the masks and shifts of the source.

    The specification is the table of slots: each is unused, dead, or holds a live
    tuple ([slot_of]).  The theorems show that the operations change the table the
    way their names say, and that they never panic on a well-formed page. *)

From S2P Require Import Prelude.
From S2P Require Import Bytes.
From S2P Require Import PageBytes.

Abbreviation Page := (list Z).

Definition PAGE_HEADER_SIZE : Z := 32.
Definition ITEM_ID_SIZE : Z := 4.
Definition MAX_TUPLE_SIZE : Z := PAGE_SIZE - PAGE_HEADER_SIZE - ITEM_ID_SIZE.

Definition HEAP_PAGE_MAGIC : list Z := [65; 73; 79; 78; 72; 80; 48; 49].

Definition ITEM_UNUSED : Z := 0.
Definition ITEM_NORMAL : Z := 1.
Definition ITEM_DEAD : Z := 2.
Definition PAGE_FLAG_NONE : Z := 0.
Definition PAGE_FLAG_FULL : Z := 1.

(** ** Line pointers *)

Definition ItemId_new (offset length flags : Z) : Z :=
  Z.lor (Z.lor (Z.land offset 0x7FFF) (Z.shiftl (Z.land length 0x3FFF) 16))
    (Z.shiftl (Z.land flags 0x03) 30).

Definition item_offset (it : Z) : Z := Z.land it 0x7FFF.
Definition item_length (it : Z) : Z := Z.land (Z.shiftr it 16) 0x3FFF.
Definition item_flags (it : Z) : Z := Z.land (Z.shiftr it 30) 0x03.

Definition is_unused (it : Z) : bool := item_flags it =? ITEM_UNUSED.
Definition is_normal (it : Z) : bool := item_flags it =? ITEM_NORMAL.
Definition is_dead (it : Z) : bool := item_flags it =? ITEM_DEAD.

(** ** Header *)

Definition lower (d : Page) : Z := field d 8 4.
Definition set_lower (d : Page) (v : Z) : Page := put d 8 (le_bytes 4 v).
Definition upper (d : Page) : Z := field d 12 4.
Definition set_upper (d : Page) (v : Z) : Page := put d 12 (le_bytes 4 v).
Definition page_lsn (d : Page) : Z := field d 16 8.
Definition set_page_lsn (d : Page) (v : Z) : Page := put d 16 (le_bytes 8 v).
Definition item_count (d : Page) : Z := field d 24 2.
Definition set_item_count (d : Page) (v : Z) : Page := put d 24 (le_bytes 2 v).
Definition flags (d : Page) : Z := field d 26 2.
Definition set_flags (d : Page) (v : Z) : Page := put d 26 (le_bytes 2 v).

Definition init : Page :=
  let d := put zero_page 0 HEAP_PAGE_MAGIC in
  let d := set_lower d PAGE_HEADER_SIZE in
  let d := set_upper d PAGE_SIZE in
  let d := set_item_count d 0 in
  set_flags d PAGE_FLAG_NONE.

Definition is_initialized (d : Page) : bool := bool_decide (slice d 0 8 = HEAP_PAGE_MAGIC).

Definition free_space (d : Page) : Z := saturating_sub (upper d) (lower d).

Definition can_fit (d : Page) (tuple_size : Z) : bool := tuple_size + ITEM_ID_SIZE <=? free_space d.

(** ** Slots and tuples *)

Definition item_pos (i : Z) : Z := PAGE_HEADER_SIZE + i * ITEM_ID_SIZE.

Definition item_id (d : Page) (i : Z) : option Z :=
  if item_count d <=? i then None
  else if PAGE_SIZE <? item_pos i + ITEM_ID_SIZE then None
  else Some (field d (item_pos i) 4).

Definition set_item_id (d : Page) (i it : Z) : option Page := copy_into d (item_pos i) (le_bytes 4 it).

Definition read_tuple (d : Page) (i : Z) : option (list Z) :=
  match item_id d i with
  | None => None
  | Some it =>
      if negb (is_normal it) then None
      else if PAGE_SIZE <? item_offset it + item_length it then None
      else Some (slice d (item_offset it) (item_length it))
  end.

Definition slots (d : Page) : list Z := seqZ 0 (item_count d).

Definition find_unused_slot (d : Page) : option Z :=
  List.find (fun i => match item_id d i with Some it => is_unused it | None => false end) (slots d).

Definition count_slots (p : Z -> bool) (d : Page) : Z :=
  Z.of_nat (length (List.filter (fun i => match item_id d i with Some it => p it | None => false end)
                      (slots d))).

Definition live_tuple_count (d : Page) : Z := count_slots is_normal d.
Definition dead_tuple_count (d : Page) : Z := count_slots is_dead d.

Definition usize_to_u16 (v : Z) : option Z := if v <=? 65535 then Some v else None.

(** [insert_tuple]: [None] is a panic, [Some (None, _)] a refusal. *)
Definition insert_tuple (d : Page) (bs : list Z) : option (option Z * Page) :=
  let n := Z.of_nat (length bs) in
  if (n =? 0) || (MAX_TUPLE_SIZE <? n) then Some (None, d)
  else
    let reuse := find_unused_slot d in
    let required := match reuse with None => n + ITEM_ID_SIZE | Some _ => n end in
    if free_space d <? required then Some (None, d)
    else
      let new_upper := saturating_sub (upper d) n in
      match copy_into d new_upper bs with
      | None => None
      | Some d1 =>
          let d2 := set_upper d1 new_upper in
          match usize_to_u16 new_upper, usize_to_u16 n with
          | Some o, Some l =>
              let item := ItemId_new o l ITEM_NORMAL in
              match reuse with
              | Some slot =>
                  match set_item_id d2 slot item with
                  | None => None
                  | Some d3 => Some (Some slot, d3)
                  end
              | None =>
                  let slot := item_count d2 in
                  match set_item_id d2 slot item with
                  | None => None
                  | Some d3 =>
                      let d4 := set_item_count d3 (slot + 1) in
                      Some (Some slot, set_lower d4 (PAGE_HEADER_SIZE + (slot + 1) * ITEM_ID_SIZE))
                  end
              end
          | _, _ => Some (None, d2)
          end
      end.

Definition mark_dead (d : Page) (i : Z) : option (bool * Page) :=
  match item_id d i with
  | None => Some (false, d)
  | Some it =>
      if negb (is_normal it) then Some (false, d)
      else
        match set_item_id d i (ItemId_new (item_offset it) (item_length it) ITEM_DEAD) with
        | None => None
        | Some d' => Some (true, d')
        end
  end.

(** ** Compaction *)

Inductive HeapPageCompactError : Type :=
| CorruptedTuple (slot_index offset length : Z)
| UnsupportedItem (slot_index flags : Z).

Abbreviation CompactResult := (Result HeapPageCompactError).

(** The first loop: copies of the live tuples by slot, and the number of dead ones. *)
Fixpoint collect (d : Page) (idx : list Z) : CompactResult (list (option (list Z)) * Z) :=
  match idx with
  | [] => Ok ([], 0)
  | i :: rest =>
      match item_id d i with
      | None => Err (CorruptedTuple i 0 0)
      | Some it =>
          let continue slot dead :=
            match collect d rest with
            | Ok (l, n) => Ok (slot :: l, n + dead)
            | Err e => Err e
            end in
          if is_normal it then
            if PAGE_SIZE <? item_offset it + item_length it
            then Err (CorruptedTuple i (item_offset it) (item_length it))
            else continue (Some (slice d (item_offset it) (item_length it))) 0
          else if is_dead it then continue None 1
          else if negb (is_unused it) then Err (UnsupportedItem i (item_flags it))
          else continue None 0
      end
  end.

(** The second loop, over the slots in descending order. *)
Fixpoint place (low : Z) (l : list (Z * option (list Z))) (up : Z) (d : Page) :
    option (CompactResult (Z * Page)) :=
  match l with
  | [] => Some (Ok (up, d))
  | (_, None) :: rest => place low rest up d
  | (slot, Some bs) :: rest =>
      let n := Z.of_nat (length bs) in
      if up <? n then Some (Err (CorruptedTuple slot 0 n))
      else
        let up' := up - n in
        if up' <? low then Some (Err (CorruptedTuple slot 0 n))
        else
          match copy_into d up' bs with
          | None => None
          | Some d1 =>
              match set_item_id d1 slot
                      (ItemId_new (default 65535 (usize_to_u16 up')) (default 65535 (usize_to_u16 n))
                         ITEM_NORMAL) with
              | None => None
              | Some d2 => place low rest up' d2
              end
          end
  end.

Definition fresh_copy (d : Page) (count low : Z) : Page :=
  let c := set_page_lsn init (page_lsn d) in
  let c := set_flags c (Z.ldiff (flags d) PAGE_FLAG_FULL) in
  let c := set_item_count c count in
  set_lower c low.

Definition compact (d : Page) : option (CompactResult Z * Page) :=
  let count := item_count d in
  if count =? 0 then Some (Ok 0, d)
  else
    match collect d (slots d) with
    | Err e => Some (Err e, d)
    | Ok (live, dead) =>
        if dead =? 0 then Some (Ok 0, d)
        else
          let low := PAGE_HEADER_SIZE + count * ITEM_ID_SIZE in
          match place low (reverse (zip (slots d) live)) PAGE_SIZE (fresh_copy d count low) with
          | None => None
          | Some (Err e) => Some (Err e, d)
          | Some (Ok (up, c)) => Some (Ok dead, set_upper c up)
          end
    end.

#[global] Arguments ItemId_new : simpl never.
#[global] Arguments item_offset : simpl never.
#[global] Arguments item_length : simpl never.
#[global] Arguments item_flags : simpl never.

(** ** Packing and unpacking a line pointer *)

Ltac bit_cases :=
  repeat match goal with
  | |- context [?a <? ?b] => destruct (Z.ltb_spec a b); try lia
  | |- context [?a <=? ?b] => destruct (Z.leb_spec a b); try lia
  end; cbn [andb orb];
  rewrite ?andb_true_r, ?andb_false_r, ?orb_false_r, ?orb_true_r; try done.

Lemma item_bits (o l f n : Z) :
  0 <= n ->
  Z.testbit (ItemId_new o l f) n =
    (Z.testbit o n && (n <? 15)) || (Z.testbit l (n - 16) && (16 <=? n) && (n <? 30))
    || (Z.testbit f (n - 30) && (30 <=? n) && (n <? 32)).
Proof.
  intros Hn. unfold ItemId_new.
  change 0x7FFF with (Z.ones 15). change 0x3FFF with (Z.ones 14). change 0x03 with (Z.ones 2).
  rewrite !Z.lor_spec, !Z.shiftl_spec, !Z.land_spec, !Z.testbit_ones by lia.
  bit_cases.
Qed.

Lemma item_unpack (o l f : Z) :
  item_offset (ItemId_new o l f) = Z.land o 0x7FFF /\
  item_length (ItemId_new o l f) = Z.land l 0x3FFF /\
  item_flags (ItemId_new o l f) = Z.land f 0x03.
Proof.
  unfold item_offset, item_length, item_flags.
  change 0x7FFF with (Z.ones 15). change 0x3FFF with (Z.ones 14). change 0x03 with (Z.ones 2).
  split_and!; apply Z.bits_inj'; intros n Hn;
    rewrite ?Z.land_spec, ?Z.shiftr_spec, item_bits, !Z.testbit_ones by lia;
    rewrite ?Z.add_simpl_r;
    bit_cases.
Qed.

Lemma item_new_range (o l f : Z) : 0 <= ItemId_new o l f < 256 ^ Z.of_nat 4.
Proof.
  change (256 ^ Z.of_nat 4) with (2 ^ 32).
  assert (ItemId_new o l f = ItemId_new o l f mod 2 ^ 32) as ->; [|apply Z.mod_pos_bound; lia].
  rewrite <- Z.land_ones by lia. apply Z.bits_inj'. intros n Hn.
  rewrite Z.land_spec, Z.testbit_ones, item_bits by lia.
  bit_cases.
Qed.

Lemma land_small v k : 0 <= k -> 0 <= v < 2 ^ k -> Z.land v (Z.ones k) = v.
Proof. intros. rewrite Z.land_ones by done. by apply Z.mod_small. Qed.

Lemma item_roundtrip (o l f : Z) :
  0 <= o < 2 ^ 15 -> 0 <= l < 2 ^ 14 -> 0 <= f < 4 ->
  item_offset (ItemId_new o l f) = o /\ item_length (ItemId_new o l f) = l /\
  item_flags (ItemId_new o l f) = f.
Proof.
  intros Ho Hl Hf. destruct (item_unpack o l f) as (-> & -> & ->).
  split_and!; [apply (land_small o 15)|apply (land_small l 14)|apply (land_small f 2)]; lia.
Qed.

Lemma item_parts_bound it :
  0 <= item_offset it < 2 ^ 15 /\ 0 <= item_length it < 2 ^ 14 /\ 0 <= item_flags it < 4.
Proof.
  unfold item_offset, item_length, item_flags.
  change 0x7FFF with (Z.ones 15). change 0x3FFF with (Z.ones 14). change 0x03 with (Z.ones 2).
  rewrite !Z.land_ones by lia. split_and!; apply Z.mod_pos_bound; lia.
Qed.

(** ** The slot table of a page *)

Definition items (d : Page) : list Z :=
  (fun i => field d (item_pos i) 4) <$> slots d.

Definition header (d : Page) : list Z * (Z * Z * Z * Z * Z) :=
  (slice d 0 8, (lower d, upper d, page_lsn d, item_count d, flags d)).

Inductive Slot : Type := Unused | Live (bs : list Z) | Dead | Redirect.

#[global] Instance Slot_eq_dec : EqDecision Slot.
Proof. solve_decision. Defined.

Definition slot_val (d : Page) (it : Z) : Slot :=
  if is_normal it then Live (slice d (item_offset it) (item_length it))
  else if is_dead it then Dead
  else if is_unused it then Unused
  else Redirect.

Definition table (d : Page) : list Slot := slot_val d <$> items d.

(** The bytes of the tuple area a line pointer accounts for. *)
Definition item_size (it : Z) : Z := if is_unused it then 0 else item_length it.

Definition used (its : list Z) : Z := foldr (fun it s => item_size it + s) 0 its.

Definition item_ok (up it : Z) : Prop :=
  item_flags it <= 2 /\
  (is_unused it = false -> up <= item_offset it /\ item_offset it + item_length it <= PAGE_SIZE).

(** The invariant of an initialised page: the line pointer array ends at [lower],
    the tuples lie in [upper .. PAGE_SIZE] and fill it. *)
Record page_wf (d : Page) : Prop := {
  wf_len : page_len d;
  wf_bytes : Forall byte d;
  wf_magic : slice d 0 8 = HEAP_PAGE_MAGIC;
  wf_lower : lower d = item_pos (item_count d);
  wf_order : lower d <= upper d <= PAGE_SIZE;
  wf_items : Forall (item_ok (upper d)) (items d);
  wf_used : used (items d) = PAGE_SIZE - upper d
}.

Ltac consts := unfold item_pos, PAGE_SIZE, PAGE_HEADER_SIZE, ITEM_ID_SIZE, MAX_TUPLE_SIZE in *.

Lemma items_lookup d i :
  items d !! i =
    if decide (Z.of_nat i < item_count d) then Some (field d (item_pos (Z.of_nat i)) 4) else None.
Proof.
  unfold items, slots. rewrite list_lookup_fmap. case_decide as Hi.
  - rewrite lookup_seqZ_lt by lia. simpl. by rewrite Z.add_0_l.
  - by rewrite lookup_seqZ_ge by lia.
Qed.

Lemma length_items d : length (items d) = Z.to_nat (item_count d).
Proof. unfold items, slots. by rewrite length_fmap, length_seqZ. Qed.

(** Writes past the header leave it alone. *)
Lemma header_put d off bs :
  page_len d -> 28 <= off -> off + Z.of_nat (length bs) <= PAGE_SIZE ->
  header (put d off bs) = header d.
Proof.
  intros. unfold header, lower, upper, page_lsn, item_count, flags.
  rewrite slice_put_other, !field_put_other by (consts; done || lia). done.
Qed.

Lemma item_count_header d d' : header d' = header d -> item_count d' = item_count d.
Proof. unfold header. congruence. Qed.

(** Writes in the tuple area leave the line pointers alone. *)
Lemma items_put_tuple d off bs :
  page_len d -> 0 <= item_count d -> item_pos (item_count d) <= off ->
  off + Z.of_nat (length bs) <= PAGE_SIZE -> items (put d off bs) = items d.
Proof.
  intros Hlen Hc Ho Hl. apply list_eq. intros i. rewrite !items_lookup.
  assert (item_count (put d off bs) = item_count d) as ->.
  { apply item_count_header, header_put; consts; done || lia. }
  case_decide; [|done]. f_equal. apply field_put_other; consts; done || lia.
Qed.

Lemma items_put_item d i it :
  page_len d -> 0 <= i -> item_pos i + 4 <= PAGE_SIZE -> 0 <= it < 256 ^ Z.of_nat 4 ->
  items (put d (item_pos i) (le_bytes 4 it)) = <[Z.to_nat i := it]> (items d).
Proof.
  intros Hlen Hi Hp Hit. apply list_eq. intros j. rewrite list_lookup_insert, !items_lookup.
  assert (item_count (put d (item_pos i) (le_bytes 4 it)) = item_count d) as ->.
  { apply item_count_header, header_put; rewrite ?length_le_bytes; consts; done || lia. }
  rewrite length_items.
  destruct (decide (Z.to_nat i = j)) as [<-|Hne].
  - rewrite Z2Nat.id by done.
    case_decide; [rewrite decide_True by lia|by rewrite decide_False by lia].
    f_equal. apply (field_put_same d (item_pos i) 4); consts; done || lia.
  - rewrite (decide_False (P := _ /\ _)) by tauto. case_decide; [|done]. f_equal.
    apply field_put_other; rewrite ?length_le_bytes; consts; done || lia.
Qed.

(** Header writes leave the line pointers alone, unless they move the count. *)
Lemma items_put_header d off bs :
  page_len d -> 0 <= off -> off + Z.of_nat (length bs) <= 32 ->
  item_count (put d off bs) = item_count d -> items (put d off bs) = items d.
Proof.
  intros Hlen Ho Hl Hc. apply list_eq. intros i. rewrite !items_lookup, Hc.
  case_decide; [|done]. f_equal. apply field_put_other; consts; done || lia.
Qed.

(** ** Reading through the table *)

Lemma wf_count d : page_wf d -> 0 <= item_count d /\ item_pos (item_count d) <= PAGE_SIZE.
Proof.
  intros [Hlen Hb _ Hlow Hord _ _]. split; [|lia].
  apply (field_bound d 24 2); consts; done || lia.
Qed.

Lemma item_id_items d i : page_wf d -> 0 <= i -> item_id d i = items d !! Z.to_nat i.
Proof.
  intros Hwf Hi. destruct (wf_count d Hwf). unfold item_id. rewrite items_lookup, Z2Nat.id by done.
  destruct (Z.leb_spec (item_count d) i); [by rewrite decide_False by lia|].
  rewrite decide_True by lia. destruct (Z.ltb_spec PAGE_SIZE (item_pos i + ITEM_ID_SIZE)); [|done].
  consts. lia.
Qed.

Lemma slot_val_unused d it : slot_val d it = Unused <-> is_unused it = true.
Proof.
  unfold slot_val, is_normal, is_dead, is_unused, ITEM_NORMAL, ITEM_DEAD, ITEM_UNUSED.
  split; intros H; repeat case_match; try done; lia.
Qed.

Lemma find_seqZ {A} (P : A -> Prop) `{!forall x, Decision (P x)} (f : Z -> bool) (l : list A) s :
  (forall k x, l !! k = Some x -> f (s + Z.of_nat k) = bool_decide (P x)) ->
  List.find f (seqZ s (Z.of_nat (length l))) =
    (fun p => s + Z.of_nat p.1) <$> list_find P l.
Proof.
  revert s. induction l as [|x l IH]; intros s Hf; [done|].
  rewrite seqZ_cons by (simpl; lia). cbn [List.find list_find].
  replace (f s) with (bool_decide (P x)); cycle 1.
  { rewrite <- (Hf 0%nat x eq_refl). f_equal. lia. }
  case_decide as Hx; [rewrite bool_decide_true by done; simpl; f_equal; lia|].
  rewrite bool_decide_false by done. cbn [length].
  replace (Z.pred (Z.of_nat (S (length l)))) with (Z.of_nat (length l)) by lia.
  rewrite IH.
  - destruct (list_find P l) as [[k y]|]; simpl; [|done]. f_equal. lia.
  - intros k y Hk. rewrite <- (Hf (S k) y Hk). f_equal. lia.
Qed.

Lemma find_unused_slot_table d :
  page_wf d ->
  find_unused_slot d = (fun p => Z.of_nat p.1) <$> list_find (fun s => s = Unused) (table d).
Proof.
  intros Hwf. destruct (wf_count d Hwf). unfold find_unused_slot, slots.
  replace (item_count d) with (Z.of_nat (length (table d))) at 1; cycle 1.
  { unfold table. rewrite length_fmap, length_items. lia. }
  rewrite (find_seqZ (fun s => s = Unused)).
  - by destruct (list_find _ _) as [[k y]|].
  - intros k x. unfold table. rewrite list_lookup_fmap, fmap_Some. intros (it & Hk & ->).
    rewrite Z.add_0_l, item_id_items, Nat2Z.id, Hk by (done || lia).
    destruct (is_unused it) eqn:E; symmetry.
    + apply bool_decide_true. by apply slot_val_unused.
    + apply bool_decide_false. rewrite slot_val_unused. congruence.
Qed.

(** What [read_tuple] sees of the table. *)
Definition spec_read (t : list Slot) (i : Z) : option (list Z) :=
  match t !! Z.to_nat i with Some (Live bs) => Some bs | _ => None end.

Lemma read_tuple_table d i : page_wf d -> 0 <= i -> read_tuple d i = spec_read (table d) i.
Proof.
  intros Hwf Hi. unfold read_tuple, spec_read, table. rewrite item_id_items, list_lookup_fmap by done.
  destruct (items d !! Z.to_nat i) as [it|] eqn:E; [|done].
  cbn [fmap option_fmap option_map]. unfold slot_val.
  destruct (is_normal it) eqn:En; cbn [negb]; [|by destruct (is_dead it), (is_unused it)].
  destruct (Forall_lookup_1 _ _ _ _ (wf_items d Hwf) E) as [_ Hok].
  destruct Hok as [_ Hend].
  { unfold is_normal, is_unused, ITEM_NORMAL, ITEM_UNUSED in *. lia. }
  by destruct (Z.ltb_spec PAGE_SIZE (item_offset it + item_length it)); [lia|].
Qed.

(** A page that agrees on the tuple area above [up] has the same table for line
    pointers into it. *)
Definition same_above (up : Z) (d d' : Page) : Prop :=
  forall o l, up <= o -> 0 <= l -> o + l <= PAGE_SIZE -> slice d' o l = slice d o l.

Lemma same_above_refl up d : same_above up d d.
Proof. done. Qed.

Lemma same_above_put up d d' off bs :
  same_above up d d' -> page_len d' -> 0 <= off -> off + Z.of_nat (length bs) <= up ->
  up <= PAGE_SIZE -> same_above up d (put d' off bs).
Proof.
  intros Hs Hlen Ho Hl Hup o l Ho' Hl' He.
  rewrite slice_put_other by (done || lia). by apply Hs.
Qed.

Lemma table_same up d d' its :
  Forall (item_ok up) its -> same_above up d d' -> slot_val d' <$> its = slot_val d <$> its.
Proof.
  intros Hok Hs. apply list_fmap_ext. intros i it Hi. unfold slot_val.
  destruct (is_normal it) eqn:En; [|done]. f_equal.
  destruct (Forall_lookup_1 _ _ _ _ Hok Hi) as [_ H]. destruct H as [? ?].
  { unfold is_normal, is_unused, ITEM_NORMAL, ITEM_UNUSED in *. lia. }
  apply Hs; [done| |done]. by destruct (item_parts_bound it) as (_ & [? _] & _).
Qed.

(** ** Insertion *)

(** The specification: reuse the first unused slot, or open one at the end. *)
Definition spec_insert (t : list Slot) (free : Z) (bs : list Z) : option (Z * list Slot) :=
  let n := Z.of_nat (length bs) in
  if (n =? 0) || (MAX_TUPLE_SIZE <? n) then None
  else
    match list_find (fun s => s = Unused) t with
    | Some (k, _) => if n <=? free then Some (Z.of_nat k, <[k := Live bs]> t) else None
    | None =>
        if n + ITEM_ID_SIZE <=? free then Some (Z.of_nat (length t), t ++ [Live bs]) else None
    end.

Lemma used_insert its k old it :
  its !! k = Some old -> used (<[k := it]> its) = used its - item_size old + item_size it.
Proof.
  revert k. induction its as [|x its IH]; intros [|k] Hk; simplify_eq/=; [lia|].
  rewrite (IH k Hk). lia.
Qed.

Lemma used_app l l' : used (l ++ l') = used l + used l'.
Proof. induction l as [|x l IH]; simpl; lia. Qed.

(** The page after the tuple bytes are copied and [upper] is moved. *)
Definition alloc (d : Page) (bs : list Z) : Page :=
  let nu := upper d - Z.of_nat (length bs) in set_upper (put d nu bs) nu.

Lemma alloc_facts d bs :
  page_wf d -> Forall byte bs -> lower d + Z.of_nat (length bs) <= upper d ->
  let nu := upper d - Z.of_nat (length bs) in
  let d2 := alloc d bs in
  page_len d2 /\ Forall byte d2 /\ slice d2 0 8 = HEAP_PAGE_MAGIC /\ lower d2 = lower d /\
  upper d2 = nu /\ page_lsn d2 = page_lsn d /\ item_count d2 = item_count d /\
  flags d2 = flags d /\ items d2 = items d /\ same_above (upper d) d d2 /\
  slice d2 nu (Z.of_nat (length bs)) = bs.
Proof.
  intros Hwf Hbs Hfit nu d2. destruct (wf_count d Hwf) as [Hc _].
  destruct Hwf as [Hlen Hb Hm Hlow Hord _ _].
  assert (H1 : page_len (put d nu bs)) by (subst nu; apply put_page_len; consts; done || lia).
  assert (Hh : header (put d nu bs) = header d)
    by (subst nu; apply header_put; consts; done || lia).
  unfold header in Hh. injection Hh as Hm1 Hlow1 Hup1 Hlsn1 Hc1 Hf1.
  assert (H2 : item_count d2 = item_count d).
  { rewrite <- Hc1. apply field_put_other; rewrite ?length_le_bytes; consts; done || lia. }
  split_and!.
  - apply put_page_len; rewrite ?length_le_bytes; consts; done || lia.
  - apply put_bytes; [by apply put_bytes|apply le_bytes_byte].
  - rewrite <- Hm, <- Hm1. apply slice_put_other; rewrite ?length_le_bytes; consts; done || lia.
  - rewrite <- Hlow1. apply field_put_other; rewrite ?length_le_bytes; consts; done || lia.
  - apply (field_put_same _ 12 4); subst nu; consts; done || lia.
  - rewrite <- Hlsn1. apply field_put_other; rewrite ?length_le_bytes; consts; done || lia.
  - done.
  - rewrite <- Hf1. apply field_put_other; rewrite ?length_le_bytes; consts; done || lia.
  - rewrite <- (items_put_tuple d nu bs) by (subst nu; consts; done || lia).
    apply items_put_header; rewrite ?length_le_bytes; [done|lia..|].
    transitivity (item_count d); [exact H2|by symmetry].
  - apply same_above_put; rewrite ?length_le_bytes; [|consts; done || lia..].
    apply same_above_put; [done|subst nu; consts; done || lia..].
  - subst d2. unfold alloc, set_upper. fold nu.
    rewrite slice_put_other by (rewrite ?length_le_bytes; subst nu; consts; done || lia).
    apply slice_put_same; subst nu; consts; done || lia.
Qed.

Lemma item_ok_weaken up up' its : up' <= up -> Forall (item_ok up) its -> Forall (item_ok up') its.
Proof.
  intros Hle Hits. eapply Forall_impl; [exact Hits|]. intros it [Hf Hr]. split; [done|]. intros Hu.
  destruct (Hr Hu). lia.
Qed.

(** A line pointer to a tuple just placed at [o]. *)
Lemma new_item_facts o l :
  0 <= o -> 0 <= l -> o + l <= PAGE_SIZE ->
  let it := ItemId_new o l ITEM_NORMAL in
  item_ok o it /\ item_size it = l /\
  forall d, slot_val d it = Live (slice d o l).
Proof.
  intros Ho Hl He it. unfold ITEM_NORMAL in it.
  destruct (item_roundtrip o l 1) as (Hio & Hil & Hif); [consts; lia..|].
  fold it in Hio, Hil, Hif. unfold item_ok, item_size, slot_val, is_unused, is_normal.
  rewrite Hio, Hil, Hif. split_and!; [lia|lia|done|done].
Qed.

Lemma wf_free_space d : page_wf d -> free_space d = upper d - lower d.
Proof. intros [_ _ _ _ Hord _ _]. unfold free_space, saturating_sub. lia. Qed.

(** What insertion leaves of a page, besides the table. *)
Definition inserted (d d' : Page) (need : Z) : Prop :=
  page_wf d' /\ free_space d' = free_space d - need /\ page_lsn d' = page_lsn d /\
  flags d' = flags d.

(** Opening a slot at the end of the line pointer array. *)
Definition grow (d : Page) (it : Z) : Page :=
  let c := item_count d in
  let d3 := put d (item_pos c) (le_bytes 4 it) in
  set_lower (set_item_count d3 (c + 1)) (PAGE_HEADER_SIZE + (c + 1) * ITEM_ID_SIZE).

Lemma grow_facts d it :
  page_len d -> Forall byte d -> 0 <= item_count d -> item_pos (item_count d + 1) <= PAGE_SIZE ->
  0 <= it < 256 ^ Z.of_nat 4 ->
  let d' := grow d it in
  page_len d' /\ Forall byte d' /\ slice d' 0 8 = slice d 0 8 /\
  lower d' = item_pos (item_count d') /\ upper d' = upper d /\ page_lsn d' = page_lsn d /\
  item_count d' = item_count d + 1 /\ flags d' = flags d /\ items d' = items d ++ [it] /\
  same_above (item_pos (item_count d')) d d'.
Proof.
  intros Hlen Hb Hc Hp Hit d'.
  set (c := item_count d) in *. set (d3 := put d (item_pos c) (le_bytes 4 it)).
  set (d4 := set_item_count d3 (c + 1)).
  assert (H3 : page_len d3) by (apply put_page_len; rewrite ?length_le_bytes; consts; done || lia).
  assert (H4 : page_len d4) by (apply put_page_len; rewrite ?length_le_bytes; consts; done || lia).
  assert (Hh : header d3 = header d)
    by (apply header_put; rewrite ?length_le_bytes; consts; done || lia).
  unfold header in Hh. injection Hh as Hm1 Hlow1 Hup1 Hlsn1 Hc1 Hf1.
  assert (Hcnt : item_count d' = c + 1).
  { unfold item_count. subst d'. unfold grow, set_lower.
    rewrite field_put_other by (rewrite ?length_le_bytes; consts; done || lia).
    apply (field_put_same _ 24 2); consts; done || lia. }
  split_and!; rewrite ?Hcnt.
  - apply put_page_len; rewrite ?length_le_bytes; consts; done || lia.
  - repeat apply put_bytes; auto using le_bytes_byte.
  - rewrite <- Hm1. subst d'. unfold grow, set_lower, set_item_count.
    by rewrite !slice_put_other by (rewrite ?length_le_bytes; consts; done || lia).
  - apply (field_put_same _ 8 4); consts; done || lia.
  - rewrite <- Hup1. unfold upper. subst d'. unfold grow, set_lower, set_item_count.
    by rewrite !field_put_other by (rewrite ?length_le_bytes; consts; done || lia).
  - rewrite <- Hlsn1. unfold page_lsn. subst d'. unfold grow, set_lower, set_item_count.
    by rewrite !field_put_other by (rewrite ?length_le_bytes; consts; done || lia).
  - done.
  - rewrite <- Hf1. unfold flags. subst d'. unfold grow, set_lower, set_item_count.
    by rewrite !field_put_other by (rewrite ?length_le_bytes; consts; done || lia).
  - apply list_eq. intros j. rewrite lookup_app, !items_lookup, length_items, Hcnt. fold c.
    subst d'. unfold grow, set_lower, set_item_count. fold c.
    case_decide as Hj.
    + rewrite !field_put_other by (rewrite ?length_le_bytes; consts; done || lia).
      case_decide as Hj2.
      * rewrite field_put_other by (rewrite ?length_le_bytes; consts; done || lia). done.
      * replace (Z.of_nat j) with c by lia. replace (j - Z.to_nat c)%nat with 0%nat by lia.
        change ([it] !! 0%nat) with (Some it). f_equal.
        apply (field_put_same d (item_pos c) 4); consts; done || lia.
    + rewrite decide_False by lia. symmetry. apply lookup_ge_None. simpl. lia.
  - subst d'. unfold grow, set_lower, set_item_count. fold c.
    repeat apply same_above_put; rewrite ?length_le_bytes; try (consts; done || lia).
Qed.

Section Insert.
Context (d : Page) (bs : list Z) (Hwf : page_wf d) (Hbs : Forall byte bs)
  (Hne : 0 < Z.of_nat (length bs)).

Let n : Z := Z.of_nat (length bs).
Let nu : Z := upper d - n.
Let it : Z := ItemId_new nu n ITEM_NORMAL.

Lemma insert_reuse k old :
  lower d + n <= upper d -> items d !! k = Some old -> is_unused old = true ->
  let d' := put (alloc d bs) (item_pos (Z.of_nat k)) (le_bytes 4 it) in
  inserted d d' n /\ table d' = <[k := Live bs]> (table d).
Proof.
  intros Hfit Hk Hold d'. destruct (wf_count d Hwf) as [Hc Hcp].
  destruct (alloc_facts d bs Hwf Hbs Hfit) as
    (Hlen & Hb & Hm & Hlow & Hup & Hlsn & Hcnt & Hfl & Hits & Hsame & Hnew).
  fold n nu in Hup, Hnew. pose proof (wf_order d Hwf) as Hord. pose proof (wf_lower d Hwf) as Hlw.
  assert (Hkc : Z.of_nat k < item_count d).
  { apply lookup_lt_Some in Hk. rewrite length_items in Hk. lia. }
  destruct (new_item_facts nu n) as (Hok & Hsz & Hsv); [subst nu; consts; lia..|]. fold it in Hok, Hsz, Hsv.
  assert (Hlb : Z.of_nat (length (le_bytes 4 it)) = 4) by (by rewrite length_le_bytes).
  assert (Hh : header d' = header (alloc d bs)) by (apply header_put; consts; done || lia).
  unfold header in Hh. injection Hh as Hm1 Hlow1 Hup1 Hlsn1 Hc1 Hf1.
  assert (Hi : items d' = <[k := it]> (items d)).
  { subst d'. rewrite items_put_item by (apply item_new_range || (consts; done || lia)).
    by rewrite Hits, Nat2Z.id. }
  assert (Hs : same_above nu (alloc d bs) d')
    by (apply same_above_put; [done|subst nu; consts; done || lia..]).
  assert (Hw : page_wf d').
  { split.
    - apply put_page_len; consts; done || lia.
    - apply put_bytes; [done|apply le_bytes_byte].
    - congruence.
    - congruence.
    - subst nu; lia.
    - rewrite Hi, Hup1, Hup. apply Forall_insert; [|done].
      apply (item_ok_weaken (upper d)); [subst nu; lia|apply Hwf].
    - rewrite Hi, Hup1, Hup, (used_insert _ _ _ _ Hk), (wf_used d Hwf), Hsz.
      unfold item_size. rewrite Hold. subst nu. lia. }
  split.
  - split_and!; [done| |congruence..]. rewrite !wf_free_space by done. subst nu; lia.
  - unfold table. rewrite Hi, list_fmap_insert, Hsv. f_equal.
    + f_equal. rewrite <- Hnew. apply Hs; subst nu; lia.
    + apply (table_same (upper d)); [apply Hwf|]. intros o l ? ? ?.
      rewrite <- Hsame by done. apply Hs; subst nu; lia.
Qed.

Lemma insert_append :
  lower d + n + ITEM_ID_SIZE <= upper d ->
  let d' := grow (alloc d bs) it in
  inserted d d' (n + ITEM_ID_SIZE) /\ table d' = table d ++ [Live bs].
Proof.
  intros Hfit d'. destruct (wf_count d Hwf) as [Hc Hcp].
  pose proof (wf_order d Hwf) as Hord. pose proof (wf_lower d Hwf) as Hlw.
  destruct (alloc_facts d bs Hwf Hbs) as
    (Hlen & Hb & Hm & Hlow & Hup & Hlsn & Hcnt & Hfl & Hits & Hsame & Hnew); [consts; lia|].
  fold n nu in Hup, Hnew.
  destruct (grow_facts (alloc d bs) it) as
    (Hlen' & Hb' & Hm' & Hlow' & Hup' & Hlsn' & Hcnt' & Hfl' & Hits' & Hsame');
    [done|done|rewrite ?Hcnt; consts; lia..|apply item_new_range|]. fold d' in Hlen', Hb', Hm', Hlow', Hup',
    Hlsn', Hcnt', Hfl', Hits', Hsame'.
  destruct (new_item_facts nu n) as (Hok & Hsz & Hsv); [subst nu; consts; lia..|]. fold it in Hok, Hsz, Hsv.
  assert (Hs : same_above nu (alloc d bs) d').
  { intros o l ? ? ?. apply Hsame'; [|done..]. rewrite Hcnt', Hcnt. subst nu. consts. lia. }
  assert (Hw : page_wf d').
  { split; try done.
    - congruence.
    - rewrite Hlow', Hup', Hcnt', Hcnt, Hup. subst nu. consts. lia.
    - rewrite Hits', Hits, Hup', Hup. apply Forall_app_2; [|by constructor].
      apply (item_ok_weaken (upper d)); [subst nu; lia|apply Hwf].
    - rewrite Hits', Hits, used_app, (wf_used d Hwf), Hup', Hup. simpl. rewrite Hsz. subst nu. lia. }
  split.
  - split_and!; [done| |congruence..]. rewrite !wf_free_space by done.
    rewrite Hlow', Hup', Hcnt', Hcnt, Hup. subst nu. consts. lia.
  - unfold table. rewrite Hits', fmap_app, Hits. f_equal.
    + apply (table_same (upper d)); [apply Hwf|]. intros o l ? ? ?.
      rewrite <- Hsame by done. apply Hs; subst nu; lia.
    + cbn [fmap list_fmap]. rewrite Hsv. do 2 f_equal. rewrite <- Hnew. apply Hs; subst nu; lia.
Qed.

End Insert.

Lemma copy_into_fits d off bs :
  off + Z.of_nat (length bs) <= PAGE_SIZE -> copy_into d off bs = Some (put d off bs).
Proof. intros H. unfold copy_into. by rewrite (proj2 (Z.leb_le _ _) H). Qed.

Lemma usize_to_u16_small v : v <= PAGE_SIZE -> usize_to_u16 v = Some v.
Proof. unfold usize_to_u16. consts. intros. by rewrite (proj2 (Z.leb_le v 65535)) by lia. Qed.

(** The refinement of one insertion. *)
Lemma insert_tuple_step d bs :
  page_wf d -> Forall byte bs ->
  match spec_insert (table d) (free_space d) bs with
  | None => insert_tuple d bs = Some (None, d)
  | Some (slot, t') =>
      exists d', insert_tuple d bs = Some (Some slot, d') /\ table d' = t' /\
        inserted d d' (Z.of_nat (length bs) +
          if bool_decide (Unused ∈ table d) then 0 else ITEM_ID_SIZE)
  end.
Proof.
  intros Hwf Hbs. unfold spec_insert, insert_tuple. cbv zeta.
  destruct ((Z.of_nat (length bs) =? 0) || (MAX_TUPLE_SIZE <? Z.of_nat (length bs))) eqn:En; [done|].
  apply orb_false_iff in En as [Hn0%Z.eqb_neq Hnm%Z.ltb_ge].
  pose proof (wf_order d Hwf) as Hord. pose proof (wf_lower d Hwf) as Hlw.
  destruct (wf_count d Hwf) as [Hc Hcp].
  rewrite find_unused_slot_table, (wf_free_space d) by done.
  destruct (list_find _ (table d)) as [[k s]|] eqn:Ef; cbn [fmap option_fmap option_map fst].
  - apply list_find_Some in Ef as (Hk & -> & _). rewrite bool_decide_true by (by eapply list_elem_of_lookup_2).
    destruct (Z.leb_spec (Z.of_nat (length bs)) (upper d - lower d)) as [Hfit|Hfit];
      [rewrite (proj2 (Z.ltb_ge _ _) Hfit)|by rewrite (proj2 (Z.ltb_lt _ _) Hfit)].
    unfold table in Hk. rewrite list_lookup_fmap, fmap_Some in Hk. destruct Hk as (old & Hk & Hu).
    symmetry in Hu. apply slot_val_unused in Hu.
    assert (Hkc : Z.of_nat k < item_count d).
    { apply lookup_lt_Some in Hk. rewrite length_items in Hk. lia. }
    replace (saturating_sub (upper d) (Z.of_nat (length bs))) with (upper d - Z.of_nat (length bs))
      by (unfold saturating_sub; consts; lia).
    unfold set_item_id. rewrite copy_into_fits, !usize_to_u16_small by (consts; lia).
    rewrite copy_into_fits by (rewrite length_le_bytes; consts; lia).
    destruct (insert_reuse d bs Hwf Hbs ltac:(lia) k old ltac:(lia) Hk Hu).
    eexists. split; [reflexivity|]. by rewrite Z.add_0_r.
  - apply list_find_None in Ef. rewrite bool_decide_false; cycle 1.
    { intros Hin. by apply (proj1 (Forall_forall _ _) Ef _ Hin). }
    destruct (Z.leb_spec (Z.of_nat (length bs) + ITEM_ID_SIZE) (upper d - lower d)) as [Hfit|Hfit];
      [rewrite (proj2 (Z.ltb_ge _ _) Hfit)|by rewrite (proj2 (Z.ltb_lt _ _) Hfit)].
    replace (saturating_sub (upper d) (Z.of_nat (length bs))) with (upper d - Z.of_nat (length bs))
      by (unfold saturating_sub; consts; lia).
    unfold set_item_id. rewrite copy_into_fits, !usize_to_u16_small by (consts; lia).
    destruct (alloc_facts d bs Hwf Hbs) as (_ & _ & _ & _ & _ & _ & Hcnt & _); [consts; lia|].
    unfold alloc in Hcnt. rewrite copy_into_fits by (rewrite Hcnt, length_le_bytes; consts; lia).
    destruct (insert_append d bs Hwf Hbs ltac:(lia)) as [Hins Htbl]; [consts; lia|].
    eexists. split; [|split; [exact Htbl|exact Hins]]. unfold table.
    rewrite length_fmap, length_items, Hcnt, Z2Nat.id by done.
    unfold grow, alloc. by rewrite Hcnt.
Qed.

(** ** Deletion *)

Definition spec_mark_dead (t : list Slot) (i : Z) : bool * list Slot :=
  match t !! Z.to_nat i with
  | Some (Live _) => (true, <[Z.to_nat i := Dead]> t)
  | _ => (false, t)
  end.

Lemma is_normal_slot d it : is_normal it = true <-> exists bs, slot_val d it = Live bs.
Proof.
  unfold slot_val. split.
  - intros ->. eauto.
  - intros [bs H]. by destruct (is_normal it), (is_dead it), (is_unused it).
Qed.

(** Overwriting a line pointer keeps the rest of the page. *)
Lemma put_item_facts d i it :
  page_wf d -> 0 <= i < item_count d -> 0 <= it < 256 ^ Z.of_nat 4 ->
  let d' := put d (item_pos i) (le_bytes 4 it) in
  set_item_id d i it = Some d' /\ page_len d' /\ Forall byte d' /\ header d' = header d /\
  items d' = <[Z.to_nat i := it]> (items d) /\ same_above (upper d) d d'.
Proof.
  intros Hwf Hi Hit d'. destruct (wf_count d Hwf). pose proof (wf_order d Hwf).
  pose proof (wf_lower d Hwf).
  assert (Hlb : Z.of_nat (length (le_bytes 4 it)) = 4) by (by rewrite length_le_bytes).
  split_and!.
  - apply copy_into_fits. rewrite Hlb. consts. lia.
  - apply put_page_len; [apply Hwf|consts; lia..].
  - apply put_bytes; [apply Hwf|apply le_bytes_byte].
  - apply header_put; [apply Hwf|consts; lia..].
  - apply items_put_item; [apply Hwf|consts; lia..].
  - apply same_above_put; [done|apply Hwf|consts; lia..].
Qed.

Lemma mark_dead_step d i :
  page_wf d -> 0 <= i ->
  exists d', mark_dead d i = Some ((spec_mark_dead (table d) i).1, d') /\
    table d' = (spec_mark_dead (table d) i).2 /\ inserted d d' 0.
Proof.
  intros Hwf Hi. unfold mark_dead, spec_mark_dead. rewrite item_id_items by done.
  assert (Hid : inserted d d 0) by (split_and!; [done|lia|done|done]).
  unfold table. rewrite list_lookup_fmap.
  destruct (items d !! Z.to_nat i) as [it|] eqn:E; cbn [fmap option_fmap option_map]; [|eauto].
  destruct (is_normal it) eqn:En; cbn [negb]; cycle 1.
  { exists d. destruct (slot_val d it) eqn:Es; [done| |done|done].
    rewrite (proj2 (is_normal_slot d it)) in En; [done|eauto]. }
  destruct (proj1 (is_normal_slot d it) En) as [bs ->]. cbn [fst snd].
  assert (Hic : 0 <= i < item_count d).
  { apply lookup_lt_Some in E. rewrite length_items in E. lia. }
  destruct (item_parts_bound it) as (Ho & Hl & _). set (it' := ItemId_new _ _ _).
  destruct (item_roundtrip (item_offset it) (item_length it) 2) as (Ho' & Hl' & Hf'); [done|done|lia|].
  change (ItemId_new (item_offset it) (item_length it) 2) with it' in Ho', Hl', Hf'.
  destruct (put_item_facts d i it' Hwf Hic) as (-> & Hlen & Hb & Hh & Hits & Hs); [apply item_new_range|].
  set (d' := put d _ _) in *. unfold header in Hh. injection Hh as Hm Hlow Hup Hlsn Hc Hf.
  destruct (Forall_lookup_1 _ _ _ _ (wf_items d Hwf) E) as [_ Hrange].
  assert (Hnu : is_unused it = false) by (unfold is_normal, is_unused, ITEM_NORMAL, ITEM_UNUSED in *; lia).
  assert (Hw : page_wf d').
  { split; [done|done| | | | |].
    - rewrite Hm. apply Hwf.
    - rewrite Hlow, Hc. apply Hwf.
    - rewrite Hlow, Hup. apply Hwf.
    - rewrite Hits, Hup. apply Forall_insert; [apply Hwf|]. unfold item_ok.
      rewrite Ho', Hl', Hf'. split; [done|]. intros _. by apply Hrange.
    - rewrite Hits, Hup, (used_insert _ _ _ _ E). unfold item_size. rewrite Hnu, Hl'.
      unfold is_unused at 1. rewrite Hf'. simpl. rewrite (wf_used d Hwf). lia. }
  exists d'. split; [done|]. split.
  - rewrite Hits, list_fmap_insert. f_equal.
    + unfold slot_val, is_normal, is_dead. by rewrite Hf'.
    + by apply (table_same (upper d)); [apply Hwf|].
  - split_and!; [done| |done|done]. rewrite !wf_free_space by done. lia.
Qed.

(** ** Compaction *)

Definition reclaim (s : Slot) : Slot := match s with Dead => Unused | _ => s end.

Definition slot_bytes (s : Slot) : option (list Z) := match s with Live bs => Some bs | _ => None end.

Definition opt_size (o : option (list Z)) : Z :=
  match o with Some bs => Z.of_nat (length bs) | None => 0 end.

Definition live_bytes (t : list Slot) : Z := foldr (fun s n => opt_size (slot_bytes s) + n) 0 t.

Definition dead_count (t : list Slot) : Z := foldr (fun s n => n + if decide (s = Dead) then 1 else 0) 0 t.

Lemma collect_table d up idx its :
  Forall2 (fun i it => item_id d i = Some it) idx its -> Forall (item_ok up) its ->
  let t := slot_val d <$> its in
  collect d idx = Ok (slot_bytes <$> t, dead_count t).
Proof.
  induction 1 as [|i it idx its Hi _ IH]; intros Hok; [done|].
  apply Forall_cons in Hok as [[Hf Hr] Hok]. specialize (IH Hok).
  cbn [collect]. rewrite Hi, IH. rewrite !fmap_cons.
  destruct (item_parts_bound it) as (_ & _ & ?).
  pose proof (eq_refl (slot_val d it)) as Hv. unfold slot_val at 2 in Hv.
  unfold is_normal, is_dead, is_unused, ITEM_NORMAL, ITEM_DEAD, ITEM_UNUSED in *.
  destruct (Z.eqb_spec (item_flags it) 1).
  - destruct Hr as [_ Hr]; [lia|]. by rewrite (proj2 (Z.ltb_ge _ _) Hr), Hv.
  - destruct (Z.eqb_spec (item_flags it) 2); [by rewrite Hv|].
    by destruct (Z.eqb_spec (item_flags it) 0); [rewrite Hv|lia].
Qed.

Lemma live_bytes_used d up its :
  page_len d -> 0 <= up -> Forall (item_ok up) its -> live_bytes (slot_val d <$> its) <= used its.
Proof.
  intros Hlen Hup. induction 1 as [|it its [_ Hr] _ IH]; [done|].
  cbn [fmap list_fmap live_bytes used foldr] in *. fold (live_bytes (slot_val d <$> its)) (used its).
  enough (opt_size (slot_bytes (slot_val d it)) <= item_size it) by (unfold live_bytes, used in *; lia).
  destruct (item_parts_bound it) as (? & ? & _). unfold item_size, slot_val.
  destruct (is_normal it) eqn:En; cycle 1.
  { destruct (is_dead it), (is_unused it); simpl; lia. }
  assert (Hu : is_unused it = false) by (unfold is_normal, is_unused, ITEM_NORMAL, ITEM_UNUSED in *; lia).
  rewrite Hu. destruct (Hr Hu). cbn [slot_bytes opt_size].
  rewrite length_slice by (unfold page_len in Hlen; consts; lia). lia.
Qed.

(** The page under reconstruction: tuples already placed lie in [up .. PAGE_SIZE]. *)
Record building (low up : Z) (d : Page) : Prop := {
  bd_len : page_len d;
  bd_bytes : Forall byte d;
  bd_low : low = item_pos (item_count d);
  bd_count : 0 <= item_count d;
  bd_order : low <= up <= PAGE_SIZE;
  bd_items : Forall (item_ok up) (items d);
  bd_used : used (items d) = PAGE_SIZE - up
}.

Lemma place_one low up d slot old bs :
  building low up d -> 0 <= slot -> Forall byte bs -> low + Z.of_nat (length bs) <= up ->
  items d !! Z.to_nat slot = Some old -> is_unused old = true ->
  let n := Z.of_nat (length bs) in
  let d2 := put (put d (up - n) bs) (item_pos slot) (le_bytes 4 (ItemId_new (up - n) n ITEM_NORMAL)) in
  building low (up - n) d2 /\ header d2 = header d /\
  copy_into d (up - n) bs = Some (put d (up - n) bs) /\
  set_item_id (put d (up - n) bs) slot (ItemId_new (up - n) n ITEM_NORMAL) = Some d2 /\
  table d2 = <[Z.to_nat slot := Live bs]> (table d).
Proof.
  intros [Hlen Hb Hlow Hc Hord Hok Hus] Hslot Hbs Hfit Hk Hold n d2.
  set (it := ItemId_new (up - n) n ITEM_NORMAL) in *. set (d1 := put d (up - n) bs) in *.
  assert (Hsc : slot < item_count d).
  { apply lookup_lt_Some in Hk. rewrite length_items in Hk. lia. }
  assert (Hlb : Z.of_nat (length (le_bytes 4 it)) = 4) by (by rewrite length_le_bytes).
  assert (H1 : page_len d1) by (apply put_page_len; consts; done || lia).
  assert (Hh : header d2 = header d).
  { transitivity (header d1); apply header_put; consts; done || lia. }
  assert (Hi : items d2 = <[Z.to_nat slot := it]> (items d)).
  { subst d2. rewrite items_put_item by (apply item_new_range || (consts; done || lia)).
    subst d1. by rewrite items_put_tuple by (consts; done || lia). }
  destruct (new_item_facts (up - n) n) as (Hok' & Hsz & Hsv); [consts; lia..|].
  fold it in Hok', Hsz, Hsv.
  assert (Hs : same_above (up - n) d1 d2) by (apply same_above_put; consts; done || lia).
  pose proof (item_count_header _ _ Hh) as Hc2.
  split_and!; [split|done|apply copy_into_fits; consts; lia|apply copy_into_fits; consts; lia|].
  - apply put_page_len; consts; done || lia.
  - apply put_bytes; [by apply put_bytes|apply le_bytes_byte].
  - by rewrite Hc2.
  - by rewrite Hc2.
  - lia.
  - rewrite Hi. apply Forall_insert; [|done]. apply (item_ok_weaken up); [lia|done].
  - rewrite Hi, (used_insert _ _ _ _ Hk), Hus, Hsz. unfold item_size. rewrite Hold. lia.
  - unfold table. rewrite Hi, list_fmap_insert, Hsv. f_equal.
    + f_equal. rewrite Hs by (consts; lia). apply slice_put_same; consts; done || lia.
    + apply (table_same up); [done|]. intros o l ? ? ?. rewrite Hs by (consts; lia).
      apply slice_put_other; consts; done || lia.
Qed.

(** The table the second loop builds. *)
Fixpoint place_table (l : list (Z * option (list Z))) (t : list Slot) : list Slot :=
  match l with
  | [] => t
  | (_, None) :: rest => place_table rest t
  | (slot, Some bs) :: rest => place_table rest (<[Z.to_nat slot := Live bs]> t)
  end.

Definition total (l : list (Z * option (list Z))) : Z := foldr (fun p n => opt_size p.2 + n) 0 l.

Lemma total_nonneg l : 0 <= total l.
Proof. induction l as [|[i [bs|]] l IH]; simpl; lia. Qed.

Lemma table_unused_lookup d k :
  table d !! k = Some Unused -> exists old, items d !! k = Some old /\ is_unused old = true.
Proof.
  unfold table. rewrite list_lookup_fmap, fmap_Some. intros (it & Hk & Hu).
  exists it. split; [done|]. symmetry in Hu. by apply slot_val_unused in Hu.
Qed.

Lemma place_step low l up d :
  building low up d -> low + total l <= up ->
  Forall (fun p => 0 <= p.1 /\ Forall byte (default [] p.2) /\ table d !! Z.to_nat p.1 = Some Unused) l ->
  NoDup l.*1 ->
  exists d', place low l up d = Some (Ok (up - total l, d')) /\ building low (up - total l) d' /\
    header d' = header d /\ table d' = place_table l (table d).
Proof.
  revert up d. induction l as [|[slot [bs|]] l IH]; intros up d Hbd Hfit Hl Hnd.
  - exists d. cbn [place total foldr place_table]. by rewrite Z.sub_0_r.
  - apply Forall_cons in Hl as [(Hslot & Hbs & Hu) Hl]. apply NoDup_cons in Hnd as [Hni Hnd].
    cbn [fst snd from_option id] in *. pose proof (total_nonneg l). pose proof (bd_order _ _ _ Hbd).
    cbn [total foldr opt_size snd] in Hfit. fold (total l) in Hfit.
    destruct (table_unused_lookup d _ Hu) as (old & Hk & Hold).
    destruct (place_one low up d slot old bs Hbd Hslot Hbs ltac:(lia) Hk Hold)
      as (Hbd2 & Hh2 & Hcp & Hset & Ht2).
    assert (0 <= low) by (rewrite (bd_low _ _ _ Hbd); pose proof (bd_count _ _ _ Hbd); consts; lia).
    cbn [place]. rewrite (proj2 (Z.ltb_ge up _)), (proj2 (Z.ltb_ge _ low)), Hcp by lia.
    rewrite !usize_to_u16_small by lia. cbn [from_option id]. rewrite Hset.
    destruct (IH _ _ Hbd2) as (d' & Hrun & Hbd' & Hh & Ht); [lia| |done|].
    { apply Forall_forall. intros p Hp. destruct (proj1 (Forall_forall _ _) Hl p Hp) as (? & ? & ?).
      split_and!; [done..|]. rewrite Ht2, list_lookup_insert_ne; [done|]. intros Heq. apply Hni.
      apply list_elem_of_fmap. exists p. split; [lia|done]. }
    exists d'. cbn [total foldr opt_size snd place_table]. fold (total l).
    rewrite Z.sub_add_distr, <- Ht2. split_and!; [done..|congruence|done].
  - apply Forall_cons in Hl as [_ Hl]. apply NoDup_cons in Hnd as [_ Hnd].
    cbn [place total foldr opt_size snd place_table] in *. fold (total l) in *.
    rewrite Z.add_0_l in *. by apply IH.
Qed.

(** A freshly initialised page, with its header moved. *)
Lemma field_zero_page o n : field zero_page o n = 0.
Proof.
  unfold field, zero_page, slice. rewrite drop_replicate, take_replicate.
  induction (Z.to_nat n `min` _)%nat as [|k IH]; simpl; lia.
Qed.

Lemma init_facts : page_len init /\ Forall byte init /\
  header init = (HEAP_PAGE_MAGIC, (PAGE_HEADER_SIZE, PAGE_SIZE, 0, 0, 0)).
Proof.
  split_and!.
  - by vm_compute.
  - unfold init, set_flags, set_item_count, set_upper, set_lower.
    repeat apply put_bytes; try apply le_bytes_byte.
    + apply Forall_replicate. unfold byte. lia.
    + unfold HEAP_PAGE_MAGIC, byte. repeat constructor; lia.
  - by vm_compute.
Qed.

Ltac plen :=
  lazymatch goal with
  | |- page_len (put _ _ _) =>
      apply put_page_len; [plen|rewrite ?length_le_bytes; consts; cbn [length HEAP_PAGE_MAGIC]; lia..]
  | |- _ => first [done|apply init_facts]
  end.

Lemma field_init o : 28 <= o -> o + 4 <= PAGE_SIZE -> field init o 4 = 0.
Proof.
  intros Ho He. rewrite <- (field_zero_page o 4).
  assert (H0 : page_len zero_page) by by vm_compute.
  unfold init, set_flags, set_item_count, set_upper, set_lower. revert H0.
  generalize zero_page as z. intros z H0.
  assert (Hm : Z.of_nat (length HEAP_PAGE_MAGIC) = 8) by done.
  rewrite !field_put_other; first [done|plen|rewrite ?length_le_bytes, ?Hm; consts; lia].
Qed.

Lemma page_flags_cleared f : 0 <= f < 65536 -> 0 <= Z.ldiff f PAGE_FLAG_FULL < 65536.
Proof.
  intros Hf. change PAGE_FLAG_FULL with (Z.ones 1). rewrite Z.ldiff_ones_r by lia.
  rewrite Z.shiftl_mul_pow2, Z.shiftr_div_pow2 by lia.
  pose proof (Z.div_mod f (2 ^ 1)). pose proof (Z.mod_pos_bound f (2 ^ 1)). lia.
Qed.

Section FreshCopy.
Context (d : Page) (count : Z) (Hwf : page_wf d) (Hc : 0 <= count < 65536)
  (Hp : item_pos count <= PAGE_SIZE).

Let c : Page := fresh_copy d count (item_pos count).

Lemma fresh_len : page_len c.
Proof.
  unfold c, fresh_copy, set_lower, set_item_count, set_flags, set_page_lsn.
  plen.
Qed.

Lemma fresh_header :
  slice c 0 8 = HEAP_PAGE_MAGIC /\ lower c = item_pos count /\ upper c = PAGE_SIZE /\
  page_lsn c = page_lsn d /\ item_count c = count /\ flags c = Z.ldiff (flags d) PAGE_FLAG_FULL.
Proof.
  destruct init_facts as (Hlen & _ & _).
  assert (Hm : slice init 0 8 = HEAP_PAGE_MAGIC) by by vm_compute.
  assert (Hup : upper init = PAGE_SIZE) by by vm_compute.
  pose proof (field_bound d 16 8 (wf_len d Hwf) (wf_bytes d Hwf)) as HL.
  pose proof (field_bound d 26 2 (wf_len d Hwf) (wf_bytes d Hwf)) as HF.
  assert (HF' := page_flags_cleared (flags d)).
  unfold c, fresh_copy, set_lower, set_item_count, set_flags, set_page_lsn.
  revert Hlen Hm Hup. generalize init as p0. intros p0 Hlen Hm Hup.
  set (c1 := put p0 16 (le_bytes 8 (page_lsn d))).
  set (c2 := put c1 26 (le_bytes 2 (Z.ldiff (flags d) PAGE_FLAG_FULL))).
  set (c3 := put c2 24 (le_bytes 2 count)).
  assert (H1 : page_len c1) by (apply put_page_len; rewrite ?length_le_bytes; consts; done || lia).
  assert (H2 : page_len c2) by (apply put_page_len; rewrite ?length_le_bytes; consts; done || lia).
  assert (H3 : page_len c3) by (apply put_page_len; rewrite ?length_le_bytes; consts; done || lia).
  split_and!.
  - rewrite slice_put_other by (rewrite ?length_le_bytes; consts; done || lia).
    unfold c3. rewrite slice_put_other by (rewrite ?length_le_bytes; consts; done || lia).
    unfold c2. rewrite slice_put_other by (rewrite ?length_le_bytes; consts; done || lia).
    unfold c1. by rewrite slice_put_other by (rewrite ?length_le_bytes; consts; done || lia).
  - apply (field_put_same _ 8 4); consts; done || lia.
  - unfold upper. rewrite field_put_other by (rewrite ?length_le_bytes; consts; done || lia).
    unfold c3. rewrite field_put_other by (rewrite ?length_le_bytes; consts; done || lia).
    unfold c2. rewrite field_put_other by (rewrite ?length_le_bytes; consts; done || lia).
    unfold c1. by rewrite field_put_other by (rewrite ?length_le_bytes; consts; done || lia).
  - unfold page_lsn at 1. rewrite field_put_other by (rewrite ?length_le_bytes; consts; done || lia).
    unfold c3. rewrite field_put_other by (rewrite ?length_le_bytes; consts; done || lia).
    unfold c2. rewrite field_put_other by (rewrite ?length_le_bytes; consts; done || lia).
    apply (field_put_same _ 16 8); try apply HL; consts; done || lia.
  - unfold item_count. rewrite field_put_other by (rewrite ?length_le_bytes; consts; done || lia).
    apply (field_put_same _ 24 2); consts; done || lia.
  - unfold flags at 1. rewrite field_put_other by (rewrite ?length_le_bytes; consts; done || lia).
    unfold c3. rewrite field_put_other by (rewrite ?length_le_bytes; consts; done || lia).
    apply (field_put_same _ 26 2); [done|consts; lia..|]. apply HF', HF; consts; lia.
Qed.

Lemma fresh_items : items c = replicate (Z.to_nat count) 0.
Proof.
  destruct fresh_header as (_ & _ & _ & _ & Hcnt & _).
  apply list_eq. intros i. rewrite items_lookup, Hcnt.
  destruct (decide (Z.of_nat i < count)) as [Hi|Hi].
  - rewrite lookup_replicate_2 by lia. f_equal.
    unfold c, fresh_copy, set_lower, set_item_count, set_flags, set_page_lsn.
    rewrite !field_put_other; rewrite ?length_le_bytes;
      [apply field_init|..]; first [plen|consts; lia].
  - symmetry. apply lookup_replicate_None. lia.
Qed.

Lemma fresh_building :
  building (item_pos count) PAGE_SIZE c /\ table c = replicate (Z.to_nat count) Unused.
Proof.
  destruct fresh_header as (_ & _ & _ & _ & Hcnt & _).
  split; [split|].
  - apply fresh_len.
  - unfold c, fresh_copy, set_lower, set_item_count, set_flags, set_page_lsn.
    do 4 (apply put_bytes; [|apply le_bytes_byte]). apply init_facts.
  - by rewrite Hcnt.
  - rewrite Hcnt. lia.
  - consts. lia.
  - rewrite fresh_items. apply Forall_replicate. split; [by vm_compute|]. by vm_compute.
  - rewrite fresh_items. rewrite Z.sub_diag. clear. by induction (Z.to_nat count).
  - unfold table. rewrite fresh_items. clear. induction (Z.to_nat count) as [|k IH]; [done|].
    cbn [replicate]. rewrite fmap_cons, IH. f_equal.
Qed.

End FreshCopy.

Definition opt_slot (o : option (list Z)) : Slot :=
  match o with Some bs => Live bs | None => Unused end.

Lemma place_table_rev opts t :
  (length opts <= length t)%nat -> Forall (fun s => s = Unused) (take (length opts) t) ->
  place_table (reverse (zip (seqZ 0 (Z.of_nat (length opts))) opts)) t =
    (opt_slot <$> opts) ++ drop (length opts) t.
Proof.
  revert t. induction opts as [|o opts IH] using rev_ind; intros t Hlen Hu; [done|].
  rewrite length_app in *. cbn [length] in *. rewrite Nat.add_1_r in *.
  rewrite seqZ_S, zip_with_app by (by rewrite length_seqZ, Nat2Z.id). cbn [zip_with].
  rewrite reverse_app, Z.add_0_l. destruct (lookup_lt_is_Some_2 t (length opts)) as [s Hs]; [lia|].
  rewrite (take_S_r t (length opts) s Hs), Forall_app in Hu. destruct Hu as [Hu [-> _]%Forall_cons].
  rewrite fmap_app, <- app_assoc. cbn [reverse rev_append app fmap list_fmap].
  destruct o as [bs|]; cbn [place_table opt_slot].
  - rewrite Nat2Z.id, IH by (rewrite ?length_insert, ?take_insert_ge by lia; done || lia).
    f_equal. rewrite (drop_S _ (Live bs) (length opts)) by (apply list_lookup_insert_eq; lia).
    by rewrite drop_insert_lt by lia.
  - rewrite IH by (done || lia). f_equal. by apply drop_S.
Qed.

Lemma total_app l l' : total (l ++ l') = total l + total l'.
Proof. induction l as [|p l IH]; [done|]. cbn [app total foldr]. fold (total (l ++ l')) (total l). lia. Qed.

Lemma total_reverse l : total (reverse l) = total l.
Proof.
  induction l as [|p l IH]; [done|]. rewrite reverse_cons, total_app, IH.
  cbn [total foldr]. fold (total l). lia.
Qed.

Lemma total_zip idx t :
  length idx = length t -> total (zip idx (slot_bytes <$> t)) = live_bytes t.
Proof.
  revert idx. induction t as [|s t IH]; intros [|i idx] Hl; try done.
  rewrite fmap_cons. cbn [zip_with total live_bytes foldr snd]. f_equal. apply IH. by injection Hl.
Qed.

Lemma slots_items d : page_wf d -> Forall2 (fun i it => item_id d i = Some it) (slots d) (items d).
Proof.
  intros Hwf. unfold items. apply Forall2_fmap_r, Forall_Forall2_diag, Forall_forall.
  intros i Hi. unfold slots in Hi. apply elem_of_seqZ in Hi.
  rewrite item_id_items, items_lookup, Z2Nat.id, decide_True by (done || lia). done.
Qed.

Lemma length_table d : page_wf d -> Z.of_nat (length (table d)) = item_count d.
Proof.
  intros Hwf. destruct (wf_count d Hwf). unfold table. rewrite length_fmap, length_items. lia.
Qed.

Lemma table_bytes d bs : page_wf d -> Live bs ∈ table d -> Forall byte bs.
Proof.
  intros Hwf Hin. apply list_elem_of_fmap in Hin as (it & Hv & _). unfold slot_val in Hv.
  destruct (is_normal it), (is_dead it), (is_unused it); simplify_eq;
    unfold slice; apply Forall_take, Forall_drop, Hwf.
Qed.

(** The last write of the reconstruction. *)
Lemma set_upper_wf low up c :
  building low up c -> slice c 0 8 = HEAP_PAGE_MAGIC -> lower c = low ->
  let d' := set_upper c up in
  page_wf d' /\ table d' = table c /\ page_lsn d' = page_lsn c /\ flags d' = flags c /\
  free_space d' = up - low.
Proof.
  intros [Hlen Hb Hlow Hc Hord Hok Hus] Hm Hl d'.
  assert (Hlb : Z.of_nat (length (le_bytes 4 up)) = 4) by (by rewrite length_le_bytes).
  assert (Hcnt : item_count d' = item_count c) by (apply field_put_other; consts; done || lia).
  assert (Hlow' : lower d' = low)
    by (rewrite <- Hl; apply field_put_other; consts; done || lia).
  assert (Hup : upper d' = up).
  { apply (field_put_same c 12 4); consts; done || lia. }
  assert (Hits : items d' = items c) by (apply items_put_header; consts; done || lia).
  assert (Hw : page_wf d').
  { split.
    - apply put_page_len; consts; done || lia.
    - apply put_bytes; [done|apply le_bytes_byte].
    - rewrite <- Hm. apply slice_put_other; consts; done || lia.
    - congruence.
    - lia.
    - by rewrite Hits, Hup.
    - by rewrite Hits, Hup. }
  split_and!; [done| | | |].
  - unfold table. rewrite Hits. apply (table_same up); [done|].
    apply same_above_put; consts; done || lia.
  - apply field_put_other; consts; done || lia.
  - apply field_put_other; consts; done || lia.
  - rewrite wf_free_space by done. lia.
Qed.

Lemma dead_count_nil t : dead_count t = 0 -> Forall (fun s => s <> Dead) t.
Proof.
  assert (Hnn : forall t, 0 <= dead_count t).
  { clear t. intros t. induction t as [|s t IH]; cbn [dead_count foldr]; [done|].
    fold (dead_count t). case_decide; lia. }
  induction t as [|s t IH]; [constructor|]. cbn [dead_count foldr]. fold (dead_count t). intros H.
  specialize (Hnn t). case_decide; [lia|]. constructor; [done|]. apply IH. lia.
Qed.

Lemma reclaim_id t : dead_count t = 0 -> reclaim <$> t = t.
Proof.
  intros Ht%dead_count_nil. induction Ht as [|s t Hs _ IH]; [done|].
  rewrite fmap_cons, IH. by destruct s.
Qed.

(** Everything the second loop needs to know about its input. *)
Lemma place_input d :
  page_wf d ->
  let l := reverse (zip (slots d) (slot_bytes <$> table d)) in
  total l = live_bytes (table d) /\ NoDup l.*1 /\
  Forall (fun p => 0 <= p.1 /\ Forall byte (default [] p.2) /\
    replicate (Z.to_nat (item_count d)) Unused !! Z.to_nat p.1 = Some Unused) l.
Proof.
  intros Hwf l. pose proof (length_table d Hwf) as Hlt.
  assert (Hl : length (slots d) = length (table d)) by (unfold slots; rewrite length_seqZ; lia).
  split_and!.
  - unfold l. by rewrite total_reverse, total_zip.
  - unfold l. rewrite fmap_reverse, reverse_Permutation, fst_zip by (rewrite length_fmap; lia).
    apply NoDup_seqZ.
  - apply Forall_reverse, Forall_forall. intros [i o] Hin. cbn [fst snd].
    pose proof (elem_of_zip_l _ _ _ _ Hin) as Hi. pose proof (elem_of_zip_r _ _ _ _ Hin) as Ho.
    unfold slots in Hi. apply elem_of_seqZ in Hi. split_and!; [lia| |apply lookup_replicate_2; lia].
    apply list_elem_of_fmap in Ho as (s & -> & Hs). destruct s as [|bs| |]; simpl; try constructor.
    by apply (table_bytes d).
Qed.

Lemma reclaim_opt t :
  Forall (fun s => s <> Redirect) t -> opt_slot <$> (slot_bytes <$> t) = reclaim <$> t.
Proof. induction 1 as [|s t Hs _ IH]; [done|]. rewrite !fmap_cons, IH. by destruct s. Qed.

Lemma table_no_redirect d : page_wf d -> Forall (fun s => s <> Redirect) (table d).
Proof.
  intros Hwf. apply Forall_fmap. eapply Forall_impl; [apply Hwf|]. intros it [Hf _].
  cbn [compose]. unfold slot_val, is_normal, is_dead, is_unused, ITEM_NORMAL, ITEM_DEAD, ITEM_UNUSED.
  destruct (item_parts_bound it) as (_ & _ & ?).
  destruct (Z.eqb_spec (item_flags it) 1), (Z.eqb_spec (item_flags it) 2),
    (Z.eqb_spec (item_flags it) 0); done || lia.
Qed.

Lemma compact_step d :
  page_wf d ->
  exists d', compact d = Some (Ok (dead_count (table d)), d') /\ page_wf d' /\
    table d' = reclaim <$> table d /\ page_lsn d' = page_lsn d /\
    (dead_count (table d) = 0 -> d' = d) /\
    (dead_count (table d) <> 0 ->
       free_space d' = PAGE_SIZE - item_pos (item_count d) - live_bytes (table d) /\
       flags d' = Z.ldiff (flags d) PAGE_FLAG_FULL).
Proof.
  intros Hwf. destruct (wf_count d Hwf) as [Hc Hcp]. unfold compact.
  destruct (Z.eqb_spec (item_count d) 0) as [H0|_].
  { exists d. assert (table d = []) as ->; [|done].
    apply length_zero_iff_nil. pose proof (length_table d Hwf). lia. }
  rewrite (collect_table d (upper d) _ (items d)) by (apply slots_items, Hwf || apply Hwf).
  fold (table d). destruct (Z.eqb_spec (dead_count (table d)) 0) as [H0|Hd].
  { exists d. rewrite H0, reclaim_id by done. done. }
  destruct (place_input d Hwf) as (Htot & Hnd & Hl).
  pose proof (live_bytes_used d (upper d) (items d)) as Hused. fold (table d) in Hused.
  pose proof (wf_order d Hwf) as Hord. pose proof (wf_lower d Hwf). pose proof (wf_used d Hwf).
  destruct (fresh_building d (item_count d) Hwf) as [Hbd Hft]; [consts; lia..|].
  destruct (fresh_header d (item_count d) Hwf) as (Hm & Hlw & _ & Hlsn & _ & Hfl); [consts; lia..|].
  destruct (place_step _ (reverse (zip (slots d) (slot_bytes <$> table d))) _ _ Hbd)
    as (c & Hrun & Hbd' & Hh & Ht); [|by rewrite Hft|done|].
  { rewrite Htot. assert (live_bytes (table d) <= used (items d)) by (apply Hused; [apply Hwf|consts; lia|apply Hwf]).
    lia. }
  change (PAGE_HEADER_SIZE + item_count d * ITEM_ID_SIZE) with (item_pos (item_count d)).
  rewrite Hrun, Htot in *. unfold header in Hh. injection Hh as Hm' Hlw' _ Hlsn' _ Hfl'.
  destruct (set_upper_wf _ _ c Hbd') as (Hw & Htab & HL & HF & Hfree); [congruence..|].
  eexists. split; [reflexivity|]. split_and!; [done| |congruence|done|].
  - rewrite Htab, Ht, Hft. pose proof (length_table d Hwf) as Hlen.
    assert (Hlo : length (slot_bytes <$> table d) = length (table d)) by apply length_fmap.
    unfold slots. rewrite <- Hlen, <- Hlo. rewrite place_table_rev.
    + rewrite drop_ge, app_nil_r by (rewrite length_replicate; lia).
      apply reclaim_opt, table_no_redirect, Hwf.
    + rewrite length_replicate. lia.
    + apply Forall_take, Forall_replicate. done.
  - intros _. split; [lia|congruence].
Qed.

(** ** The operations as one interface *)

Inductive PageOp : Type :=
| OpInsert (bs : list Z)
| OpMarkDead (i : Z)
| OpCompact.

(** Argument types: byte slices and [u16] slot numbers. *)
Definition op_ok (op : PageOp) : Prop :=
  match op with OpInsert bs => Forall byte bs | OpMarkDead i => 0 <= i | OpCompact => True end.

(** The page after an operation; [None] when it panics or compaction reports corruption. *)
Definition run_op (d : Page) (op : PageOp) : option Page :=
  match op with
  | OpInsert bs => snd <$> insert_tuple d bs
  | OpMarkDead i => snd <$> mark_dead d i
  | OpCompact => match compact d with Some (Ok _, d') => Some d' | _ => None end
  end.

Fixpoint run_ops (d : Page) (ops : list PageOp) : option Page :=
  match ops with
  | [] => Some d
  | op :: rest => match run_op d op with Some d' => run_ops d' rest | None => None end
  end.

Lemma init_wf : page_wf init.
Proof.
  destruct init_facts as (Hlen & Hb & _). split; [done|done|by vm_compute..| |by vm_compute].
  assert (items init = []) as -> by (by vm_compute). constructor.
Qed.

(** One operation keeps a live tuple where it is, unless it deletes that slot. *)
Lemma run_op_stable d op i bs :
  page_wf d -> op_ok op -> 0 <= i -> op <> OpMarkDead i -> table d !! Z.to_nat i = Some (Live bs) ->
  exists d', run_op d op = Some d' /\ page_wf d' /\ table d' !! Z.to_nat i = Some (Live bs).
Proof.
  intros Hwf Hop Hi Hne Hlive. destruct op as [bs'|j|]; cbn [run_op op_ok] in *.
  - pose proof (insert_tuple_step d bs' Hwf Hop) as Hstep. unfold spec_insert in Hstep.
    destruct (_ || _); [rewrite Hstep; eauto|].
    destruct (list_find _ _) as [[k s]|] eqn:Ef; destruct (_ <=? _); try (rewrite Hstep; by eauto);
      destruct Hstep as (d' & -> & Ht & Hw & _); exists d'; split_and!; try done; rewrite Ht.
    + apply list_find_Some in Ef as (Hk & -> & _). rewrite list_lookup_insert_ne; [done|]. congruence.
    + by apply lookup_app_l_Some.
  - destruct (mark_dead_step d j Hwf Hop) as (d' & -> & Ht & Hw & _).
    exists d'. split_and!; [done..|]. rewrite Ht. unfold spec_mark_dead.
    destruct (table d !! Z.to_nat j) as [[]|]; try done. cbn [snd].
    rewrite list_lookup_insert_ne; [done|]. intros Heq. apply Hne. f_equal. lia.
  - destruct (compact_step d Hwf) as (d' & -> & Hw & Ht & _). exists d'. split_and!; [done..|].
    by rewrite Ht, list_lookup_fmap, Hlive.
Qed.

Lemma spec_read_live t i bs : spec_read t i = Some bs <-> t !! Z.to_nat i = Some (Live bs).
Proof.
  unfold spec_read. destruct (t !! Z.to_nat i) as [[]|]; split; intros H; by simplify_eq.
Qed.

(** [C28] Insertion refines the slot-table specification on every well-formed page:
    it is refused exactly when the tuple is empty, too large, or does not fit the
    free space (with a line pointer only if no slot is unused), leaving the page as
    it was; otherwise the first unused slot, or a new last one, holds the tuple, all
    other slots are unchanged, exactly the bytes needed are consumed and the page
    stays well formed.  It never panics. *)
Theorem insert_tuple_refines (d : Page) (bs : list Z) :
  page_wf d -> Forall byte bs ->
  match spec_insert (table d) (free_space d) bs with
  | None => insert_tuple d bs = Some (None, d)
  | Some (slot, t') =>
      exists d', insert_tuple d bs = Some (Some slot, d') /\ table d' = t' /\
        read_tuple d' slot = Some bs /\ page_wf d' /\
        free_space d' = free_space d - Z.of_nat (length bs) -
          (if bool_decide (Unused ∈ table d) then 0 else ITEM_ID_SIZE) /\
        page_lsn d' = page_lsn d /\ flags d' = flags d
  end.
Proof.
  intros Hwf Hbs. pose proof (insert_tuple_step d bs Hwf Hbs) as H.
  unfold spec_insert in *. destruct (_ || _); [done|].
  destruct (list_find _ _) as [[k s]|] eqn:Ef; destruct (_ <=? _); try done;
    destruct H as (d' & Hrun & Ht & Hw & Hfree & Hlsn & Hfl); exists d';
    (split_and!; [done..| |done|lia|done|done]); rewrite read_tuple_table, Ht, spec_read_live, Nat2Z.id by (done || lia).
  - apply list_find_Some in Ef as (Hk & _). apply list_lookup_insert_eq. by eapply lookup_lt_Some.
  - apply list_lookup_middle. done.
Qed.

(** [mark_dead] on a well-formed page returns [true] exactly on a slot that
    holds a live tuple, and then changes that slot to dead and nothing else: every
    other slot, the free space, the LSN and the flags are kept.  It never panics. *)
Theorem mark_dead_refines (d : Page) (i : Z) :
  page_wf d -> 0 <= i ->
  exists b d', mark_dead d i = Some (b, d') /\ page_wf d' /\
    b = bool_decide (is_Some (read_tuple d i)) /\
    table d' = (if b then <[Z.to_nat i := Dead]> (table d) else table d) /\
    read_tuple d' i = None /\ (b = false -> d' = d) /\
    free_space d' = free_space d /\ page_lsn d' = page_lsn d /\ flags d' = flags d.
Proof.
  intros Hwf Hi. destruct (mark_dead_step d i Hwf Hi) as (d' & Hrun & Ht & Hw & Hfree & Hlsn & Hfl).
  assert (Hsame : (spec_mark_dead (table d) i).1 = false -> d' = d).
  { intros E. rewrite E in Hrun. unfold mark_dead in Hrun. by repeat case_match; simplify_eq. }
  exists (spec_mark_dead (table d) i).1, d'. rewrite !read_tuple_table, Ht by done.
  unfold spec_mark_dead, spec_read in *.
  destruct (table d !! Z.to_nat i) as [[]|] eqn:E; cbn [fst snd] in *; rewrite ?E.
  2: rewrite list_lookup_insert_eq by (by eapply lookup_lt_Some).
  all: split_and!; try done; try lia; symmetry;
    (apply bool_decide_eq_true; by eauto) || (apply bool_decide_eq_false; by intros [? ?]).
Qed.

(** [C21] Compaction of a well-formed page never fails and never panics.  It reports
    the number of dead slots, turns each of them into an unused slot, keeps every
    live tuple's bytes under its slot number and keeps the page LSN; with no dead
    slot the page is unchanged, and otherwise the free space afterwards is all that
    the header, the line pointers and the live tuples do not need. *)
Theorem compact_refines (d : Page) :
  page_wf d ->
  exists d', compact d = Some (Ok (dead_count (table d)), d') /\ page_wf d' /\
    table d' = reclaim <$> table d /\ page_lsn d' = page_lsn d /\
    (forall i, 0 <= i -> read_tuple d' i = read_tuple d i) /\
    (dead_count (table d) = 0 -> d' = d) /\
    (dead_count (table d) <> 0 ->
       free_space d' = PAGE_SIZE - item_pos (item_count d) - live_bytes (table d) /\
       flags d' = Z.ldiff (flags d) PAGE_FLAG_FULL).
Proof.
  intros Hwf. destruct (compact_step d Hwf) as (d' & Hrun & Hw & Ht & Hlsn & H0 & H1).
  exists d'. split_and!; try done. intros i Hi. rewrite !read_tuple_table, Ht by done.
  unfold spec_read. rewrite list_lookup_fmap. by destruct (table d !! Z.to_nat i) as [[]|].
Qed.

(** [C16] A tuple is stable under its slot number: along any sequence of insertions,
    deletions of other slots and compactions, no operation panics or reports
    corruption, the page stays well formed, and reading the slot returns the bytes it
    returned at the start. *)
Theorem tuple_stable (d : Page) (ops : list PageOp) (i : Z) (bs : list Z) :
  page_wf d -> Forall op_ok ops -> 0 <= i -> read_tuple d i = Some bs -> OpMarkDead i ∉ ops ->
  exists d', run_ops d ops = Some d' /\ page_wf d' /\ read_tuple d' i = Some bs.
Proof.
  intros Hwf Hops Hi Hread. rewrite read_tuple_table, spec_read_live in Hread by done.
  revert d Hwf Hread. induction Hops as [|op ops Hop _ IH]; intros d Hwf Hread Hnot.
  - exists d. rewrite read_tuple_table, spec_read_live by done. done.
  - apply not_elem_of_cons in Hnot as [Hne Hnot].
    destruct (run_op_stable d op i bs) as (d1 & Hrun & Hw & Ht); [done..|congruence|done|].
    cbn [run_ops]. rewrite Hrun. by apply IH.
Qed.

(** ** Concrete pages *)

Lemma run_op_wf d op : page_wf d -> op_ok op -> exists d', run_op d op = Some d' /\ page_wf d'.
Proof.
  intros Hwf Hop. destruct op as [bs|i|]; cbn [run_op op_ok] in *.
  - pose proof (insert_tuple_step d bs Hwf Hop) as H.
    destruct (spec_insert _ _ _) as [[slot t]|]; [|rewrite H; eauto].
    destruct H as (d' & -> & _ & Hw & _). eauto.
  - destruct (mark_dead_step d i Hwf Hop) as (d' & -> & _ & Hw & _). eauto.
  - destruct (compact_step d Hwf) as (d' & -> & Hw & _). eauto.
Qed.

Lemma page_run_wf d ops :
  page_wf d -> Forall op_ok ops -> exists d', run_ops d ops = Some d' /\ page_wf d'.
Proof.
  intros Hwf Hops. revert d Hwf. induction Hops as [|op ops Hop _ IH]; intros d Hwf; [by exists d|].
  destruct (run_op_wf d op Hwf Hop) as (d1 & Hrun & Hw). cbn [run_ops]. rewrite Hrun. by apply IH.
Qed.

(** Two tuples, the first of which has been deleted. *)
Definition two_tuples : list PageOp := [OpInsert [1; 2; 3]; OpInsert [4; 5]; OpMarkDead 0].

Definition sample_page : Page := default init (run_ops init two_tuples).

Lemma sample_page_wf : page_wf sample_page.
Proof.
  destruct (page_run_wf init two_tuples init_wf) as (d & Hrun & Hw).
  - repeat constructor; unfold byte; simpl; lia.
  - unfold sample_page. by rewrite Hrun.
Qed.

Lemma insert_tuple_refines_witness :
  spec_insert (table sample_page) (free_space sample_page) [9; 8; 7; 6] =
    Some (2, [Dead; Live [4; 5]; Live [9; 8; 7; 6]]) /\
  exists d', insert_tuple sample_page [9; 8; 7; 6] = Some (Some 2, d') /\
    read_tuple d' 2 = Some [9; 8; 7; 6] /\ page_wf d'.
Proof.
  assert (Hs : spec_insert (table sample_page) (free_space sample_page) [9; 8; 7; 6] =
    Some (2, [Dead; Live [4; 5]; Live [9; 8; 7; 6]])) by (vm_compute; reflexivity).
  split; [exact Hs|].
  pose proof (insert_tuple_refines sample_page [9; 8; 7; 6] sample_page_wf) as H.
  rewrite Hs in H. destruct H as (d' & Hrun & _ & Hread & Hw & _).
  - repeat constructor; unfold byte; lia.
  - exists d'. split; [exact Hrun|]. split; [exact Hread|exact Hw].
Defined.

Lemma mark_dead_refines_witness :
  exists b d', mark_dead sample_page 1 = Some (b, d') /\ page_wf d' /\
    b = bool_decide (is_Some (read_tuple sample_page 1)) /\ read_tuple d' 1 = None.
Proof.
  destruct (mark_dead_refines sample_page 1 sample_page_wf) as (b & d' & Hrun & Hw & Hb & _ & Hread & _);
    [lia|].
  exists b, d'. split; [exact Hrun|]. split; [exact Hw|]. split; [exact Hb|exact Hread].
Defined.

Lemma compact_refines_witness :
  dead_count (table sample_page) = 1 /\
  exists d', compact sample_page = Some (Ok (dead_count (table sample_page)), d') /\
    table d' = reclaim <$> table sample_page /\ free_space d' = 8192 - 40 - 2.
Proof.
  assert (Hd : dead_count (table sample_page) = 1) by (vm_compute; reflexivity).
  split; [exact Hd|].
  destruct (compact_refines sample_page sample_page_wf) as (d' & Hrun & _ & Ht & _ & _ & _ & Hf).
  exists d'. split; [exact Hrun|]. split; [exact Ht|].
  destruct Hf as [Hf _]; [rewrite Hd; discriminate|]. rewrite Hf. vm_compute. reflexivity.
Defined.

Lemma tuple_stable_witness :
  read_tuple sample_page 1 = Some [4; 5] /\
  exists d', run_ops sample_page [OpCompact; OpInsert [1]; OpMarkDead 0; OpCompact] = Some d' /\
    page_wf d' /\ read_tuple d' 1 = Some [4; 5].
Proof.
  assert (Hr : read_tuple sample_page 1 = Some [4; 5]) by (vm_compute; reflexivity).
  split; [exact Hr|]. apply tuple_stable; [exact sample_page_wf| |lia|exact Hr|].
  - repeat constructor; unfold byte; simpl; lia.
  - clear Hr. rewrite !elem_of_cons, elem_of_nil.
    intros [H|[H|[H|[H|H]]]]; (discriminate H || exact H).
Defined.
