(* ===== verification/FreeSpaceMap.v ===== *)
(** * The free space map ([crates/aiondb-buffer-pool/src/free_space_map.rs])

    One category byte per heap page, in steps of 32 bytes, with a round-robin search.
    The state is [FsmInner] (the map's mutex is held for the whole of each method, so
    a method is one step).  [usize] is 64 bits wide.  The specification is the exact
    map from page numbers to the free space last recorded for them ([recorded]); the
    category array is an approximation of it from below. *)

From S2P Require Import Prelude.

Definition FSM_CAT_STEP : Z := 32.
Definition FSM_CAT_MAX : Z := 255.

(** The largest length a [Vec] can have ([isize::MAX]); growing past it panics. *)
Definition VEC_MAX : Z := 2 ^ 63 - 1.

Definition space_to_cat (free_space : Z) : Z :=
  let cat := free_space / FSM_CAT_STEP in
  if FSM_CAT_MAX <? cat then FSM_CAT_MAX else cat.

Definition cat_to_space (cat : Z) : Z := cat * FSM_CAT_STEP.

Definition div_ceil (a b : Z) : Z := if a mod b =? 0 then a / b else a / b + 1.

Definition needed_cat (tuple_size_with_overhead : Z) : Z :=
  let cat := div_ceil tuple_size_with_overhead FSM_CAT_STEP in
  if FSM_CAT_MAX <? cat then FSM_CAT_MAX else cat.

Record FsmInner : Type := { cats : list Z; search_hint : Z }.

Definition page_count (m : FsmInner) : Z := Z.of_nat (length (cats m)).

Definition new : FsmInner := {| cats := []; search_hint := 0 |}.

Definition with_page_count (n : Z) : FsmInner :=
  {| cats := replicate (Z.to_nat n) 0; search_hint := 0 |}.

(** [resize(idx + 1, 0)] when [idx] is out of range, then the assignment; [None] is
    the panic of a [Vec] that would be too long. *)
Definition record_cat (l : list Z) (idx free_space : Z) : option (list Z) :=
  if Z.of_nat (length l) <=? idx then
    if VEC_MAX <? idx + 1 then None
    else Some (<[Z.to_nat idx := space_to_cat free_space]>
                 (l ++ replicate (Z.to_nat (idx + 1) - length l) 0))
  else Some (<[Z.to_nat idx := space_to_cat free_space]> l).

Definition update (m : FsmInner) (page_number free_space : Z) : option FsmInner :=
  l ← record_cat (cats m) page_number free_space;
  Some {| cats := l; search_hint := search_hint m |}.

Definition cat_at (m : FsmInner) (i : Z) : Z := default 0 (cats m !! Z.to_nat i).

Definition find_page (m : FsmInner) (min_free_space : Z) : option Z * FsmInner :=
  let min_cat := needed_cat min_free_space in
  let len := page_count m in
  if len =? 0 then (None, m)
  else
    let start := search_hint m mod len in
    let fits i := min_cat <=? cat_at m i in
    let found i := (Some i, {| cats := cats m; search_hint := i + 1 |}) in
    match List.find fits (seqZ start (len - start)) with
    | Some i => found i
    | None =>
        match List.find fits (seqZ 0 start) with
        | Some i => found i
        | None => (None, m)
        end
    end.

Definition mark_full (m : FsmInner) (page_number : Z) : option FsmInner := update m page_number 0.

Definition remove (m : FsmInner) (page_number : Z) : FsmInner :=
  if page_number <? page_count m
  then {| cats := <[Z.to_nat page_number := 0]> (cats m); search_hint := search_hint m |}
  else m.

Definition get_free_space (m : FsmInner) (page_number : Z) : Z :=
  if page_number <? page_count m then cat_to_space (cat_at m page_number) else 0.

Definition clear (m : FsmInner) : FsmInner := {| cats := []; search_hint := 0 |}.

Fixpoint rebuild_loop (l : list Z) (entries : list (Z * Z)) : option (list Z) :=
  match entries with
  | [] => Some l
  | (idx, free_space) :: rest => l' ← record_cat l idx free_space; rebuild_loop l' rest
  end.

Definition rebuild (m : FsmInner) (entries : list (Z * Z)) : option FsmInner :=
  l ← rebuild_loop [] entries;
  Some {| cats := l; search_hint := 0 |}.

Definition total_free_space (m : FsmInner) : Z :=
  foldr (fun cat s => cat * FSM_CAT_STEP + s) 0 (cats m).

(** ** Categories *)

Lemma space_to_cat_bounds f : 0 <= f -> 0 <= space_to_cat f <= 255.
Proof.
  intros Hf. unfold space_to_cat, FSM_CAT_STEP, FSM_CAT_MAX.
  pose proof (Z.div_pos f 32). destruct (Z.ltb_spec 255 (f / 32)); lia.
Qed.

(** The request a category answers: rounding down what is stored and up what is
    asked for never promises space that is not there. *)
Lemma category_sound f min : 0 <= f -> 0 <= min <= 8160 -> needed_cat min <= space_to_cat f -> min <= f.
Proof.
  unfold needed_cat, space_to_cat, div_ceil, FSM_CAT_STEP, FSM_CAT_MAX. intros Hf Hm.
  destruct (Z.eqb_spec (min mod 32) 0);
    repeat match goal with |- context [255 <? ?x] => destruct (Z.ltb_spec 255 x) end;
    Z.to_euclidean_division_equations; lia.
Qed.

Lemma category_complete f min : 0 <= min -> min + 31 <= f -> needed_cat min <= space_to_cat f.
Proof.
  unfold needed_cat, space_to_cat, div_ceil, FSM_CAT_STEP, FSM_CAT_MAX. intros Hm Hf.
  destruct (Z.eqb_spec (min mod 32) 0);
    repeat match goal with |- context [255 <? ?x] => destruct (Z.ltb_spec 255 x) end;
    Z.to_euclidean_division_equations; lia.
Qed.

Lemma cat_to_space_sound f : 0 <= f -> cat_to_space (space_to_cat f) <= f < cat_to_space (space_to_cat f) + 32 \/
  (8160 <= f /\ cat_to_space (space_to_cat f) = 8160).
Proof.
  unfold cat_to_space, space_to_cat, FSM_CAT_STEP, FSM_CAT_MAX. intros Hf.
  destruct (Z.ltb_spec 255 (f / 32)); Z.to_euclidean_division_equations; lia.
Qed.

(** ** The search *)

Lemma find_page_some m min p m' :
  0 <= search_hint m -> find_page m min = (Some p, m') ->
  0 <= p < page_count m /\ needed_cat min <= cat_at m p /\
  cats m' = cats m /\ search_hint m' = p + 1.
Proof.
  intros Hh. unfold find_page. destruct (Z.eqb_spec (page_count m) 0) as [|Hne]; [done|].
  pose proof (Z.mod_pos_bound (search_hint m) (page_count m)) as Hb.
  assert (0 < page_count m) by (unfold page_count in *; lia).
  destruct (List.find _ (seqZ (_ mod _) _)) as [i|] eqn:E1; [|destruct (List.find _ (seqZ 0 _)) as [i|] eqn:E2];
    intros [= <- <-].
  - apply List.find_some in E1 as [Hin Hc]. apply list_elem_of_In, elem_of_seqZ in Hin.
    split_and!; [lia..|done|done].
  - apply List.find_some in E2 as [Hin Hc]. apply list_elem_of_In, elem_of_seqZ in Hin.
    split_and!; [lia..|done|done].
Qed.

Lemma find_page_none m min m' p :
  find_page m min = (None, m') -> m' = m /\ (0 <= p < page_count m -> cat_at m p < needed_cat min).
Proof.
  unfold find_page. destruct (Z.eqb_spec (page_count m) 0) as [|Hne].
  { intros [= <-]. split; [done|]. lia. }
  destruct (List.find _ (seqZ (_ mod _) _)) as [i|] eqn:E1; [done|].
  destruct (List.find _ (seqZ 0 _)) as [i|] eqn:E2; [done|].
  intros [= <-]. split; [done|]. intros Hp.
  pose proof (Z.mod_pos_bound (search_hint m) (page_count m)) as Hb.
  apply Z.leb_gt. destruct (decide (p < search_hint m mod page_count m)) as [Hlt|Hge].
  - apply (List.find_none _ _ E2). apply list_elem_of_In, elem_of_seqZ. lia.
  - apply (List.find_none _ _ E1). apply list_elem_of_In, elem_of_seqZ. lia.
Qed.

(** ** The exact map *)

Inductive FsmOp : Type :=
| Update (page_number free_space : Z)
| MarkFull (page_number : Z)
| Remove (page_number : Z)
| FindPage (min_free_space : Z)
| Clear
| Rebuild (entries : list (Z * Z)).

(** Page numbers are [u64] values a [Vec] index can reach, sizes are unsigned. *)
Definition entry_ok (e : Z * Z) : Prop := 0 <= e.1 < VEC_MAX /\ 0 <= e.2.

Definition op_ok (op : FsmOp) : Prop :=
  match op with
  | Update p f => entry_ok (p, f)
  | MarkFull p => entry_ok (p, 0)
  | Remove p => 0 <= p
  | FindPage n => 0 <= n
  | Clear => True
  | Rebuild es => Forall entry_ok es
  end.

Definition run_op (m : FsmInner) (op : FsmOp) : option FsmInner :=
  match op with
  | Update p f => update m p f
  | MarkFull p => mark_full m p
  | Remove p => Some (remove m p)
  | FindPage n => Some (find_page m n).2
  | Clear => Some (clear m)
  | Rebuild es => rebuild m es
  end.

Fixpoint run_ops (m : FsmInner) (ops : list FsmOp) : option FsmInner :=
  match ops with
  | [] => Some m
  | op :: rest => m' ← run_op m op; run_ops m' rest
  end.

Definition spec_op (r : gmap Z Z) (op : FsmOp) : gmap Z Z :=
  match op with
  | Update p f => <[p := f]> r
  | MarkFull p | Remove p => <[p := 0]> r
  | FindPage _ => r
  | Clear => ∅
  | Rebuild es => foldl (fun r e => <[e.1 := e.2]> r) ∅ es
  end.

Definition spec_ops (r : gmap Z Z) (ops : list FsmOp) : gmap Z Z := foldl spec_op r ops.

Definition recorded (r : gmap Z Z) (p : Z) : Z := default 0 (r !! p).

(** Each category is the category of the recorded space. *)
Definition cats_track (l : list Z) (r : gmap Z Z) : Prop :=
  map_Forall (fun p f => 0 <= p /\ 0 <= f) r /\
  forall p, 0 <= p -> default 0 (l !! Z.to_nat p) = space_to_cat (recorded r p).

Definition tracks (m : FsmInner) (r : gmap Z Z) : Prop := cats_track (cats m) r /\ 0 <= search_hint m.

Lemma cats_track_nil : cats_track [] ∅.
Proof. split; [apply map_Forall_empty|]. intros p _. by rewrite lookup_nil. Qed.

Lemma lookup_grown (l : list Z) n k :
  default 0 ((l ++ replicate n 0) !! k) = default 0 (l !! k).
Proof.
  rewrite lookup_app. destruct (l !! k); [done|].
  destruct (decide (k - length l < n)%nat).
  - by rewrite lookup_replicate_2.
  - by rewrite lookup_ge_None_2 by (rewrite length_replicate; lia).
Qed.

Lemma record_cat_track l r idx f :
  cats_track l r -> entry_ok (idx, f) ->
  exists l', record_cat l idx f = Some l' /\ cats_track l' (<[idx := f]> r).
Proof.
  intros [Hr Hl] [Hi Hf]. cbn [fst snd] in *.
  assert (Hr' : map_Forall (fun p f => 0 <= p /\ 0 <= f) (<[idx := f]> r))
    by (apply map_Forall_insert_2; [lia|done]).
  assert (Hset : forall l', (forall k, default 0 (l' !! k) = default 0 (l !! k)) ->
    (Z.to_nat idx < length l')%nat ->
    cats_track (<[Z.to_nat idx := space_to_cat f]> l') (<[idx := f]> r)).
  { intros l' Hsame Hlt. split; [done|]. intros p Hp. unfold recorded.
    destruct (decide (p = idx)) as [->|Hne].
    - by rewrite list_lookup_insert_eq, lookup_insert_eq.
    - rewrite list_lookup_insert_ne, lookup_insert_ne, Hsame by lia. by apply Hl. }
  unfold record_cat. destruct (Z.leb_spec (Z.of_nat (length l)) idx).
  - rewrite (proj2 (Z.ltb_ge VEC_MAX (idx + 1))) by lia. eexists. split; [reflexivity|].
    apply Hset; [intros k; apply lookup_grown|]. rewrite length_app, length_replicate. lia.
  - eexists. split; [reflexivity|]. apply Hset; [done|lia].
Qed.

Lemma rebuild_loop_track es l r :
  Forall entry_ok es -> cats_track l r ->
  exists l', rebuild_loop l es = Some l' /\
    cats_track l' (foldl (fun r e => <[e.1 := e.2]> r) r es).
Proof.
  intros Hes. revert l r. induction Hes as [|[idx f] es He _ IH]; intros l r Hl; [by exists l|].
  destruct (record_cat_track l r idx f Hl He) as (l1 & H1 & Hl1). cbn [rebuild_loop foldl fst snd].
  rewrite H1. by apply IH.
Qed.

Lemma tracks_remove m r p : tracks m r -> 0 <= p -> tracks (remove m p) (<[p := 0]> r).
Proof.
  intros [[Hr Hl] Hh] Hp. unfold remove, tracks, cats_track, page_count.
  assert (Hr' : map_Forall (fun p f => 0 <= p /\ 0 <= f) (<[p := 0]> r))
    by (apply map_Forall_insert_2; [lia|done]).
  destruct (Z.ltb_spec p (Z.of_nat (length (cats m)))); cbn [cats search_hint];
    (split; [split; [done|]|done]); intros q Hq; unfold recorded;
    destruct (decide (q = p)) as [->|Hne].
  - by rewrite list_lookup_insert_eq, lookup_insert_eq by lia.
  - rewrite list_lookup_insert_ne, lookup_insert_ne by lia. by apply Hl.
  - rewrite lookup_insert_eq, lookup_ge_None_2 by lia. done.
  - rewrite lookup_insert_ne by lia. by apply Hl.
Qed.

Lemma run_op_tracks m r op :
  tracks m r -> op_ok op -> exists m', run_op m op = Some m' /\ tracks m' (spec_op r op).
Proof.
  intros [Hl Hh] Hop. destruct op as [p f|p|p|n| |es]; cbn [run_op spec_op op_ok] in *.
  - destruct (record_cat_track _ _ _ _ Hl Hop) as (l' & H' & Hl').
    unfold update. rewrite H'. eexists. by split.
  - destruct (record_cat_track _ _ _ _ Hl Hop) as (l' & H' & Hl').
    unfold mark_full, update. rewrite H'. eexists. by split.
  - eexists. split; [done|]. by apply tracks_remove.
  - eexists. split; [done|]. destruct (find_page m n) as [[p|] m'] eqn:E; cbn [snd].
    + destruct (find_page_some m n p m' Hh E) as (Hp & _ & Hc & Hs). split; [by rewrite Hc|]. lia.
    + by destruct (find_page_none m n m' 0 E) as [-> _].
  - eexists. split; [done|]. by split; [apply cats_track_nil|].
  - destruct (rebuild_loop_track es [] ∅ Hop cats_track_nil) as (l' & H' & Hl').
    unfold rebuild. rewrite H'. eexists. by split.
Qed.

Lemma run_ops_tracks ops m r :
  tracks m r -> Forall op_ok ops -> exists m', run_ops m ops = Some m' /\ tracks m' (spec_ops r ops).
Proof.
  intros Hm Hops. revert m r Hm. induction Hops as [|op ops Hop _ IH]; intros m r Hm; [by exists m|].
  destruct (run_op_tracks m r op Hm Hop) as (m1 & H1 & Hm1). cbn [run_ops spec_ops foldl].
  rewrite H1. by apply IH.
Qed.

Lemma recorded_nonneg m r p : tracks m r -> 0 <= recorded r p.
Proof.
  intros [[Hr _] _]. unfold recorded. destruct (r !! p) as [f|] eqn:E; [|done].
  by destruct (Hr p f E).
Qed.

Lemma tracks_cat_at m r p : tracks m r -> 0 <= p -> cat_at m p = space_to_cat (recorded r p).
Proof. intros [[_ Hl] _] Hp. by apply Hl. Qed.

(** A page with a positive category is in the array. *)
Lemma tracked_in_range m r p :
  tracks m r -> 32 <= recorded r p -> 0 <= p < page_count m.
Proof.
  intros Hm H32. assert (Hp : 0 <= p).
  { destruct Hm as [[Hr _] _]. unfold recorded in H32. destruct (r !! p) as [f|] eqn:E; [|simpl in H32; lia].
    by destruct (Hr p f E). }
  split; [done|]. apply Z.nle_gt. intros Hle.
  pose proof (tracks_cat_at m r p Hm Hp) as Hc. unfold cat_at in Hc.
  rewrite lookup_ge_None_2 in Hc by (unfold page_count in *; lia). simpl in Hc.
  unfold space_to_cat, FSM_CAT_STEP, FSM_CAT_MAX in Hc.
  destruct (Z.ltb_spec 255 (recorded r p / 32)); Z.to_euclidean_division_equations; lia.
Qed.

(** A freshly created map. *)
Definition fresh (m : FsmInner) : Prop := m = new \/ exists n, 0 <= n /\ m = with_page_count n.

Lemma fresh_tracks m : fresh m -> tracks m ∅.
Proof.
  intros [->|(n & Hn & ->)]; (split; [|done]); [apply cats_track_nil|]. cbn [with_page_count cats].
  split; [apply map_Forall_empty|]. intros p _.
  rewrite <- (app_nil_l (replicate _ _)), lookup_grown, lookup_nil. done.
Qed.

(** [C30] The free space map answers from a safe approximation of the exact map of
    recorded free space, after any history of updates, removals, searches, clears and
    rebuilds (none of which panics).  The space it reports for a page is at most what
    was recorded, and short of it by less than one 32-byte step below the 8160-byte
    cap.  A search for up to 8160 bytes only returns a tracked page on which that many
    bytes were recorded, and it does return a page whenever some page has the
    requested bytes plus the rounding slack of 31. *)
Theorem fsm_refines (m0 : FsmInner) (ops : list FsmOp) :
  fresh m0 -> Forall op_ok ops ->
  exists m, run_ops m0 ops = Some m /\
    let r := spec_ops ∅ ops in
    (forall p, 0 <= p ->
       get_free_space m p <= recorded r p /\
       (recorded r p < 8160 -> recorded r p < get_free_space m p + 32)) /\
    (forall min p m', 0 <= min <= 8160 -> find_page m min = (Some p, m') ->
       0 <= p < page_count m /\ min <= recorded r p) /\
    (forall min p, 0 < min -> min + 31 <= recorded r p -> is_Some (find_page m min).1).
Proof.
  intros Hf Hops. destruct (run_ops_tracks ops m0 ∅ (fresh_tracks m0 Hf) Hops) as (m & Hrun & Hm).
  exists m. split; [done|]. set (r := spec_ops ∅ ops) in *. cbv zeta. split_and!.
  - intros p Hp. pose proof (recorded_nonneg m r p Hm) as Hnn.
    pose proof (cat_to_space_sound (recorded r p) Hnn). unfold get_free_space.
    destruct (Z.ltb_spec p (page_count m)).
    + rewrite (tracks_cat_at m r p Hm Hp). lia.
    + split; [done|]. intros _. apply Z.nle_gt. intros Hge.
      pose proof (tracked_in_range m r p Hm). lia.
  - intros min p m' Hmin Hfind. destruct (find_page_some m min p m' (proj2 Hm) Hfind) as (Hp & Hc & _).
    split; [done|]. rewrite (tracks_cat_at m r p Hm) in Hc by lia.
    apply (category_sound (recorded r p)); [by eapply recorded_nonneg|done..].
  - intros min p Hmin Hrec. destruct (find_page m min) as [[q|] m'] eqn:E; [by eexists|]. exfalso.
    destruct (tracked_in_range m r p Hm) as [Hp0 Hp1]; [lia|].
    destruct (find_page_none m min m' p E) as [_ Hno].
    pose proof (category_complete (recorded r p) min). rewrite (tracks_cat_at m r p Hm Hp0) in Hno. lia.
Qed.

Lemma fsm_refines_witness :
  exists m, run_ops new [Update 3 200; Update 1 4000; FindPage 100; MarkFull 3; Remove 7] = Some m /\
    recorded (spec_ops ∅ [Update 3 200; Update 1 4000; FindPage 100; MarkFull 3; Remove 7]) 1 = 4000 /\
    is_Some (find_page m 3969).1.
Proof.
  destruct (fsm_refines new [Update 3 200; Update 1 4000; FindPage 100; MarkFull 3; Remove 7])
    as (m & Hrun & _ & _ & Hfind).
  - left. reflexivity.
  - unfold op_ok, entry_ok, VEC_MAX. repeat constructor; simpl; lia.
  - exists m. split; [exact Hrun|]. split; [vm_compute; reflexivity|].
    apply (Hfind 3969 1); [lia|]. vm_compute. discriminate.
Defined.

(** A request above the 8160-byte cap is answered from the last category: the page
    found may have less than was asked for. *)
Lemma oversized_request_served :
  exists m m', update new 0 8160 = Some m /\ find_page m 8192 = (Some 0, m').
Proof. eexists _, _. split; vm_compute; reflexivity. Qed.
