(* ===== verification/PoolPage.v ===== *)
(** * Buffer pool pages ([crates/aiondb-buffer-pool/src/page.rs])

    The page a frame holds, with its dirty flags and pin count.  Page contents are
    lists of bytes; a new page is 8192 zero bytes. *)

From S2P Require Import Prelude.

Record PageId : Type := mkPageId { relation_id : Z; page_number : Z }.

#[global] Instance PageId_eq_dec : EqDecision PageId.
Proof. solve_decision. Defined.

#[global] Instance PageId_countable : Countable PageId.
Proof.
  apply (inj_countable' (fun p => (relation_id p, page_number p)) (fun '(r, n) => mkPageId r n)).
  by intros [].
Defined.

Record Page : Type := mkPage {
  pid : PageId;
  data : list Z;
  dirty : bool;
  dirty_counted : bool;
  pin_count : Z
}.

(** [[0u8; PAGE_SIZE]]. *)
Definition zeroed : list Z := replicate 8192 0.

Definition new_page_frame (p : PageId) : Page := mkPage p zeroed false false 0.

Definition with_data (p : PageId) (d : list Z) : Page := mkPage p d false false 0.

(** A write through [data_mut], which sets the dirty flag. *)
Definition data_mut (f : Page) (d : list Z) : Page :=
  mkPage (pid f) d true (dirty_counted f) (pin_count f).

Definition mark_clean (f : Page) : Page := mkPage (pid f) (data f) false false (pin_count f).

Definition claim_dirty_transition (f : Page) : bool * Page :=
  if dirty f && negb (dirty_counted f)
  then (true, mkPage (pid f) (data f) (dirty f) true (pin_count f))
  else (false, f).

Definition pin (f : Page) : Page :=
  mkPage (pid f) (data f) (dirty f) (dirty_counted f) (saturating_add u32_max (pin_count f) 1).

Definition unpin (f : Page) : Page :=
  mkPage (pid f) (data f) (dirty f) (dirty_counted f) (saturating_sub (pin_count f) 1).

Definition is_pinned (f : Page) : bool := 0 <? pin_count f.
