(* ===== verification/ClockSweep.v ===== *)
(** * Clock-sweep eviction ([crates/aiondb-buffer-pool/src/eviction.rs])

    The ring of slots with usage counters, and the sweep that chooses a victim.  The
    [is_pinned] callback is an [FnMut]: it is a parameter of the model, a function of
    the number of calls made so far and the slot.  Termination of the sweep is the
    source's own iteration bound, [cap * (MAX_USAGE_COUNT + 1)]; the theorem shows the
    bound is enough to find every victim there is. *)

From S2P Require Import Prelude.
From S2P Require Import PoolPage.

Definition MAX_USAGE_COUNT : Z := 5.

Record ClockEntry : Type := { page_id : option PageId; usage_count : Z }.

Record ClockSweep : Type := { entries : list ClockEntry; hand : Z }.

Definition capacity (c : ClockSweep) : Z := Z.of_nat (length (entries c)).

Definition empty_entry : ClockEntry := {| page_id := None; usage_count := 0 |}.

Definition new (cap : Z) : ClockSweep :=
  {| entries := replicate (Z.to_nat cap) empty_entry; hand := 0 |}.

(** [if let Some(entry) = self.entries.get_mut(slot) { ... }]. *)
Definition on_entry (c : ClockSweep) (slot : Z) (f : ClockEntry -> ClockEntry) : ClockSweep :=
  {| entries := alter f (Z.to_nat slot) (entries c); hand := hand c |}.

Definition access (c : ClockSweep) (slot : Z) : ClockSweep :=
  on_entry c slot (fun e =>
    {| page_id := page_id e;
       usage_count := Z.min (saturating_add 255 (usage_count e) 1) MAX_USAGE_COUNT |}).

Definition insert (c : ClockSweep) (slot : Z) (pid : PageId) : ClockSweep :=
  on_entry c slot (fun e => {| page_id := Some pid; usage_count := 1 |}).

Definition remove (c : ClockSweep) (slot : Z) : ClockSweep :=
  on_entry c slot (fun e => {| page_id := None; usage_count := 0 |}).

Definition page_id_at (c : ClockSweep) (slot : Z) : option PageId :=
  match entries c !! Z.to_nat slot with Some e => page_id e | None => None end.

Definition decremented (e : ClockEntry) : ClockEntry :=
  {| page_id := page_id e; usage_count := usage_count e - 1 |}.

(** The [for _ in 0..max_iterations] loop; [calls] counts the callback's invocations.
    [None] as the outer value is the panic of an index out of range. *)
Fixpoint sweep (n : nat) (is_pinned : nat -> Z -> bool) (calls : nat) (c : ClockSweep) :
    option (option Z * ClockSweep) :=
  match n with
  | O => Some (None, c)
  | S n' =>
      let slot := hand c in
      let c1 := {| entries := entries c; hand := (hand c + 1) mod capacity c |} in
      match entries c !! Z.to_nat slot with
      | None => None
      | Some e =>
          if negb (bool_decide (is_Some (page_id e))) then sweep n' is_pinned calls c1
          else if is_pinned calls slot then sweep n' is_pinned (S calls) c1
          else if usage_count e =? 0 then Some (Some slot, c1)
          else sweep n' is_pinned (S calls) (on_entry c1 slot decremented)
      end
  end.

Definition max_iterations (c : ClockSweep) : Z := capacity c * (MAX_USAGE_COUNT + 1).

Definition find_victim (is_pinned : nat -> Z -> bool) (c : ClockSweep) :
    option (option Z * ClockSweep) :=
  if capacity c =? 0 then Some (None, c)
  else sweep (Z.to_nat (max_iterations c)) is_pinned 0 c.

(** ** Invariant *)

Definition entry_wf (e : ClockEntry) : Prop := 0 <= usage_count e <= MAX_USAGE_COUNT.

(** Counters are clamped and the hand is inside the ring. *)
Definition clock_wf (c : ClockSweep) : Prop :=
  Forall entry_wf (entries c) /\ 0 <= hand c /\ (0 < capacity c -> hand c < capacity c).

Lemma capacity_on_entry c slot f : capacity (on_entry c slot f) = capacity c.
Proof. unfold capacity, on_entry. cbn [entries]. by rewrite length_alter. Qed.

Lemma on_entry_wf c slot f :
  clock_wf c -> (forall e, entry_wf e -> entry_wf (f e)) -> clock_wf (on_entry c slot f).
Proof.
  intros [He Hh] Hf. split; [|by rewrite capacity_on_entry].
  unfold on_entry. cbn [entries]. apply Forall_alter; [done|]. intros e _. apply Hf.
Qed.

Lemma new_wf cap : clock_wf (new cap).
Proof.
  split; [|split; [done|by unfold new; cbn [hand]]]. apply Forall_replicate.
  unfold entry_wf, MAX_USAGE_COUNT. simpl. lia.
Qed.

Inductive clock_op : ClockSweep -> ClockSweep -> Prop :=
| op_access c slot : 0 <= slot -> clock_op c (access c slot)
| op_insert c slot pid : 0 <= slot -> clock_op c (insert c slot pid)
| op_remove c slot : 0 <= slot -> clock_op c (remove c slot)
| op_find_victim c is_pinned r c' : find_victim is_pinned c = Some (r, c') -> clock_op c c'.

(** ** The sweep *)

Definition advance (c : ClockSweep) : ClockSweep :=
  {| entries := entries c; hand := (hand c + 1) mod capacity c |}.

Lemma advance_wf c : clock_wf c -> clock_wf (advance c).
Proof.
  intros (He & Hh & _). split; [done|]. unfold advance, capacity. cbn [hand entries].
  destruct (length (entries c)) as [|k]; [by rewrite Zmod_0_r; lia|].
  pose proof (Z.mod_pos_bound (hand c + 1) (Z.of_nat (S k))). lia.
Qed.

Lemma advance_hand c slot :
  clock_wf c -> 0 <= slot < capacity c ->
  hand (advance c) = if decide (hand c + 1 = capacity c) then 0 else hand c + 1.
Proof.
  intros (_ & Hh & Hlt) Hs. unfold advance. cbn [hand]. case_decide as E.
  - rewrite E. apply Z.mod_same. lia.
  - apply Z.mod_small. lia.
Qed.

(** A page id in a slot never moves during a sweep, and counters only go down. *)
Definition swept (c c' : ClockSweep) : Prop :=
  capacity c' = capacity c /\
  forall k e, entries c !! k = Some e ->
    exists e', entries c' !! k = Some e' /\ page_id e' = page_id e /\ usage_count e' <= usage_count e.

Lemma swept_refl c : swept c c.
Proof. split; [done|]. intros k e He. by exists e. Qed.

Lemma swept_trans c1 c2 c3 : swept c1 c2 -> swept c2 c3 -> swept c1 c3.
Proof.
  intros [Hc1 H1] [Hc2 H2]. split; [congruence|]. intros k e He.
  destruct (H1 k e He) as (e2 & He2 & Hp2 & Hu2). destruct (H2 k e2 He2) as (e3 & He3 & Hp3 & Hu3).
  exists e3. split_and!; [done|congruence|lia].
Qed.

Lemma swept_decrement c slot : swept c (on_entry c slot decremented).
Proof.
  split; [apply capacity_on_entry|]. intros k e He. unfold on_entry. cbn [entries].
  destruct (decide (k = Z.to_nat slot)) as [->|Hne].
  - exists (decremented e). rewrite list_lookup_alter_eq, He. cbn. split_and!; [done..|lia].
  - exists e. by rewrite list_lookup_alter_ne.
Qed.

Lemma decremented_wf e : entry_wf e -> usage_count e <> 0 -> entry_wf (decremented e).
Proof. unfold entry_wf, decremented. cbn. lia. Qed.

(** One turn of the loop, on a well-formed ring. *)
Lemma sweep_S n is_pinned calls c :
  clock_wf c -> 0 < capacity c ->
  exists e, entries c !! Z.to_nat (hand c) = Some e /\
    sweep (S n) is_pinned calls c =
      if negb (bool_decide (is_Some (page_id e))) then sweep n is_pinned calls (advance c)
      else if is_pinned calls (hand c) then sweep n is_pinned (S calls) (advance c)
      else if usage_count e =? 0 then Some (Some (hand c), advance c)
      else sweep n is_pinned (S calls) (on_entry (advance c) (hand c) decremented).
Proof.
  intros (_ & Hh & Hlt) Hcap. destruct (lookup_lt_is_Some_2 (entries c) (Z.to_nat (hand c))) as [e He].
  { unfold capacity in *. lia. }
  exists e. split; [done|]. cbn [sweep]. by rewrite He.
Qed.

Lemma decrement_wf c e :
  clock_wf c -> entries c !! Z.to_nat (hand c) = Some e -> usage_count e <> 0 ->
  clock_wf (on_entry (advance c) (hand c) decremented).
Proof.
  intros Hwf He Hu. destruct (advance_wf c Hwf) as [Hes Hh]. split; [|by rewrite capacity_on_entry].
  unfold on_entry, advance. cbn [entries]. apply Forall_alter; [apply Hwf|].
  intros e' He' Hw'. assert (e' = e) as -> by congruence. by apply decremented_wf.
Qed.

(** Soundness: whatever the callback answers, the sweep returns without a panic, and
    a victim is an occupied slot that the callback just declared unpinned. *)
Lemma sweep_sound n is_pinned calls c :
  clock_wf c -> 0 < capacity c ->
  exists r c', sweep n is_pinned calls c = Some (r, c') /\ clock_wf c' /\ swept c c' /\
    forall slot, r = Some slot -> 0 <= slot < capacity c /\ is_Some (page_id_at c slot) /\
      (exists k, is_pinned k slot = false) /\
      exists e, entries c' !! Z.to_nat slot = Some e /\ usage_count e = 0.
Proof.
  revert calls c. induction n as [|n IH]; intros calls c Hwf Hcap.
  { exists None, c. split_and!; [done|done|apply swept_refl|done]. }
  destruct (sweep_S n is_pinned calls c Hwf Hcap) as (e & He & ->).
  assert (Hrec : forall calls' c1, clock_wf c1 -> swept c c1 ->
    exists r c', sweep n is_pinned calls' c1 = Some (r, c') /\ clock_wf c' /\ swept c c' /\
    forall slot, r = Some slot -> 0 <= slot < capacity c /\ is_Some (page_id_at c slot) /\
      (exists k, is_pinned k slot = false) /\
      exists e, entries c' !! Z.to_nat slot = Some e /\ usage_count e = 0).
  { intros calls' c1 Hwf1 Hsw. destruct (IH calls' c1 Hwf1) as (r & c' & Hrun & Hwf' & Hsw' & Hr);
      [by rewrite (proj1 Hsw)|]. exists r, c'. split_and!; [done|done|by eapply swept_trans|].
    intros slot Hs. destruct (Hr slot Hs) as (Hb & Hpid & Hp & Hz). rewrite (proj1 Hsw) in Hb.
    split_and!; [lia..| |done|done]. unfold page_id_at in *.
    destruct (lookup_lt_is_Some_2 (entries c) (Z.to_nat slot)) as [e0 He0]; [unfold capacity in Hb; lia|].
    destruct (proj2 Hsw _ _ He0) as (e1 & He1 & Hpe & _). rewrite He0. rewrite He1 in Hpid. by rewrite <- Hpe. }
  destruct (negb _) eqn:Eo; [apply Hrec; [by apply advance_wf|apply (swept_refl c)]|].
  destruct (is_pinned calls (hand c)) eqn:Ep; [apply Hrec; [by apply advance_wf|apply (swept_refl c)]|].
  destruct (Z.eqb_spec (usage_count e) 0) as [Hz|Hz].
  - exists (Some (hand c)), (advance c). split_and!; [done|by apply advance_wf|apply (swept_refl c)|].
    intros slot [= <-]. destruct Hwf as (_ & Hh & Hlt). split_and!; [lia|lia| |by eexists|by exists e].
    unfold page_id_at. rewrite He. apply negb_false_iff, bool_decide_eq_true in Eo. done.
  - apply Hrec; [by eapply decrement_wf|]. apply (swept_decrement (advance c)).
Qed.

(** How many slots the hand has to pass to stand on [slot]. *)
Definition distance (c : ClockSweep) (slot : Z) : Z :=
  if decide (hand c <= slot) then slot - hand c else slot + capacity c - hand c.

(** Completeness: an occupied slot that stays unpinned is reached with a zero counter
    after at most [usage] rounds. *)
Lemma sweep_finds n is_pinned calls c slot e :
  clock_wf c -> 0 <= slot < capacity c -> (forall k, is_pinned k slot = false) ->
  entries c !! Z.to_nat slot = Some e -> is_Some (page_id e) ->
  distance c slot + 1 + usage_count e * capacity c <= Z.of_nat n ->
  exists v c', sweep n is_pinned calls c = Some (Some v, c').
Proof.
  intros Hwf Hs Hp. revert calls c e Hwf Hs. induction n as [|n IH]; intros calls c e Hwf Hs He Hocc Hn.
  { pose proof (Forall_lookup_1 _ _ _ _ (proj1 Hwf) He) as [Hu _]. unfold distance in Hn.
    destruct Hwf as (_ & Hh & Hlt). case_decide; nia. }
  destruct (sweep_S n is_pinned calls c Hwf) as (e0 & He0 & ->); [lia|].
  pose proof (advance_hand c slot Hwf Hs) as Hadv.
  pose proof (Forall_lookup_1 _ _ _ _ (proj1 Hwf) He) as [Hu _].
  pose proof Hwf as (_ & Hh & Hlt).
  assert (Hcap : capacity (advance c) = capacity c) by done.
  destruct (decide (hand c = slot)) as [Heq|Hne].
  - assert (e0 = e) as -> by congruence. rewrite bool_decide_true by done. cbn [negb].
    rewrite Heq, Hp. destruct (Z.eqb_spec (usage_count e) 0) as [Hz|Hz]; [by eauto|]. rewrite <- Heq.
    apply (IH _ _ (decremented e)); [by eapply decrement_wf|by rewrite capacity_on_entry| |done|].
    + unfold on_entry, advance. cbn [entries]. rewrite Heq, list_lookup_alter_eq, He. done.
    + rewrite capacity_on_entry, Hcap. unfold distance in *. rewrite capacity_on_entry, Hcap.
      cbn [decremented usage_count hand on_entry] in *. rewrite Hadv.
      repeat case_decide; nia.
  - assert (Hd : distance (advance c) slot = distance c slot - 1).
    { unfold distance. rewrite Hadv, Hcap. repeat case_decide; lia. }
    assert (Hskip : forall calls', exists v c', sweep n is_pinned calls' (advance c) = Some (Some v, c')).
    { intros calls'. apply (IH _ _ e); [by apply advance_wf|done..|]. rewrite Hd, Hcap. lia. }
    destruct (negb _); [apply Hskip|]. destruct (is_pinned calls (hand c)); [apply Hskip|].
    destruct (Z.eqb_spec (usage_count e0) 0) as [Hz|Hz]; [by eauto|].
    apply (IH _ _ e); [by eapply decrement_wf|by rewrite capacity_on_entry| |done|].
    + unfold on_entry. cbn [entries]. rewrite list_lookup_alter_ne; [done|]. lia.
    + assert (Hd' : distance (on_entry (advance c) (hand c) decremented) slot = distance (advance c) slot).
      { unfold distance. by rewrite capacity_on_entry. }
      rewrite Hd', capacity_on_entry, Hd, Hcap. lia.
Qed.

(** ** The policy *)

Lemma clock_op_wf c c' : clock_wf c -> clock_op c c' -> clock_wf c'.
Proof.
  intros Hwf Hop. destruct Hop as [c slot _|c slot pid _|c slot _|c is_pinned r c' Hv].
  - apply on_entry_wf; [done|]. intros e [? ?].
    unfold entry_wf, saturating_add, MAX_USAGE_COUNT in *. cbn. lia.
  - apply on_entry_wf; [done|]. intros e _. unfold entry_wf, MAX_USAGE_COUNT. cbn. lia.
  - apply on_entry_wf; [done|]. intros e _. unfold entry_wf, MAX_USAGE_COUNT. cbn. lia.
  - unfold find_victim in Hv. destruct (Z.eqb_spec (capacity c) 0); [congruence|].
    destruct (sweep_sound (Z.to_nat (max_iterations c)) is_pinned 0 c Hwf) as (r' & c1 & H1 & Hw & _);
      [unfold capacity in *; lia|]. congruence.
Qed.

Lemma clock_reachable_wf cap c : rtc clock_op (new cap) c -> clock_wf c.
Proof.
  intros Hr. assert (Hgen : forall c0, rtc clock_op c0 c -> clock_wf c0 -> clock_wf c).
  { intros c0 Hr0. induction Hr0 as [|x y z Hxy _ IH]; [done|]. intros Hw. by eapply IH, clock_op_wf. }
  by apply (Hgen _ Hr), new_wf.
Qed.

(** One sweep of a well-formed ring. *)
Lemma find_victim_facts (c : ClockSweep) (is_pinned : nat -> Z -> bool) :
  clock_wf c ->
  exists r c', find_victim is_pinned c = Some (r, c') /\ clock_wf c' /\ swept c c' /\
    (forall slot, r = Some slot ->
       0 <= slot < capacity c /\ is_Some (page_id_at c slot) /\
       (exists k, is_pinned k slot = false) /\
       exists e, entries c' !! Z.to_nat slot = Some e /\ usage_count e = 0) /\
    ((forall k k' slot, is_pinned k slot = is_pinned k' slot) ->
       r = None <->
       forall slot, 0 <= slot < capacity c -> is_Some (page_id_at c slot) -> is_pinned 0%nat slot = true).
Proof.
  intros Hwf. unfold find_victim.
  destruct (Z.eqb_spec (capacity c) 0) as [H0|H0].
  { exists None, c. split_and!; [done|done|apply swept_refl|done|]. intros _. split; [|done]. lia. }
  assert (Hcap : 0 < capacity c) by (unfold capacity in *; lia).
  destruct (sweep_sound (Z.to_nat (max_iterations c)) is_pinned 0 c Hwf Hcap)
    as (r & c' & Hrun & Hwf' & Hsw & Hv).
  exists r, c'. split_and!; [done..|]. intros Hstable. split.
  - intros -> slot Hs Hocc. destruct (is_pinned 0%nat slot) eqn:Ep; [done|]. exfalso.
    unfold page_id_at in Hocc. destruct (entries c !! Z.to_nat slot) as [e|] eqn:He; [|by destruct Hocc].
    destruct (sweep_finds (Z.to_nat (max_iterations c)) is_pinned 0 c slot e) as (v & c1 & H1);
      [done..|by intros k; rewrite (Hstable k 0%nat)|done|done| |congruence].
    pose proof (Forall_lookup_1 _ _ _ _ (proj1 Hwf) He) as [Hu1 Hu2]. destruct Hwf as (_ & Hh & Hlt).
    unfold max_iterations, distance, MAX_USAGE_COUNT in *. case_decide; nia.
  - intros Hall. destruct r as [slot|]; [|done]. exfalso.
    destruct (Hv slot eq_refl) as (Hs & Hocc & [k Hk] & _).
    rewrite (Hstable k 0%nat), (Hall slot Hs Hocc) in Hk. done.
Qed.

(** [C29] The clock sweep, on any ring reached from an empty one by accesses,
    insertions, removals and earlier sweeps, and with any answers of the pin
    callback: it returns without a panic, moves no page, never raises a counter, and a
    victim it returns is an occupied slot the callback called unpinned, whose counter
    is zero.  When the pin answers do not change during the sweep, it returns no
    victim exactly if every occupied slot is pinned: the iteration bound of six rounds
    never gives up on an evictable page. *)
Theorem find_victim_spec (cap : Z) (c : ClockSweep) (is_pinned : nat -> Z -> bool) :
  rtc clock_op (new cap) c ->
  exists r c', find_victim is_pinned c = Some (r, c') /\ swept c c' /\
    (forall slot, r = Some slot ->
       0 <= slot < capacity c /\ is_Some (page_id_at c slot) /\
       (exists k, is_pinned k slot = false) /\
       exists e, entries c' !! Z.to_nat slot = Some e /\ usage_count e = 0) /\
    ((forall k k' slot, is_pinned k slot = is_pinned k' slot) ->
       r = None <->
       forall slot, 0 <= slot < capacity c -> is_Some (page_id_at c slot) -> is_pinned 0%nat slot = true).
Proof.
  intros Hr. apply clock_reachable_wf in Hr as Hwf.
  destruct (find_victim_facts c is_pinned Hwf) as (r & c' & Hrun & _ & Hsw & Hv & Hn).
  exists r, c'. split_and!; done.
Qed.

(** Three frames: one pinned, one often used, one empty. *)
Definition sample_clock : ClockSweep :=
  access (access (insert (insert (new 3) 0 {| relation_id := 1; page_number := 7 |})
    1 {| relation_id := 1; page_number := 8 |}) 1) 1.

Lemma find_victim_spec_witness :
  exists r c', find_victim (fun _ slot => slot =? 0) sample_clock = Some (r, c') /\ r <> None.
Proof.
  destruct (find_victim_spec 3 sample_clock (fun _ slot => slot =? 0)) as (r & c' & Hrun & _ & _ & Hn).
  - unfold sample_clock. eapply rtc_l; [apply (op_insert _ 0); lia|].
    eapply rtc_l; [apply (op_insert _ 1); lia|]. eapply rtc_l; [apply (op_access _ 1); lia|].
    eapply rtc_l; [apply (op_access _ 1); lia|]. apply rtc_refl.
  - exists r, c'. split; [exact Hrun|]. intros Hr.
    assert (H1 : (1 =? 0) = true); [|discriminate H1].
    apply (proj1 (Hn (fun _ _ _ => eq_refl)) Hr 1); [vm_compute; split; (discriminate || reflexivity)|].
    vm_compute. eexists. reflexivity.
Defined.
