(* ===== verification/BufferPool.v ===== *)
(** * The buffer pool ([crates/aiondb-buffer-pool/src/pool.rs])

    Frames, page table, free list and eviction ring over a page store.  The store is
    the trait [PageStore]: a class of operations, with the laws the pool relies on as
    a second class ([PageStoreLaws]), which the source's [MemoryPageStore] satisfies.

    Each method runs as one step here: the striped load locks, the frame locks and the
    mutexes of the source are not modelled, except that the two halves of
    [allocate_frame] between which it holds no lock are separate functions
    ([choose_victim], [take_victim]).  [None] is the panic of an index out of range;
    [Again] is the [continue] of a retry loop.  Page guards are the slots their holders
    hold.  The metrics counters are not modelled.

    The specification is a map from page ids to contents ([logical], in
    [PoolRefinement.v]) that only [guard_write], [new_page] and a successful
    [reset_relation] change, each as it promises: every fetch returns the contents in it,
    wherever they are, unless a reset of the relation has failed. *)

From S2P Require Import Prelude.
From S2P Require Import PageBytes.
From S2P Require Import PoolPage.
From S2P Require Import ClockSweep.

(** ** The page store *)

Inductive IoError : Type := NotFound | Unsupported | InvalidData | InvalidInput | OtherIo.

Class PageStore (S : Type) : Type := {
  read_page : S -> PageId -> Result IoError (list Z) * S;
  write_page : S -> PageId -> list Z -> Result IoError unit * S;
  allocate_page : S -> Z -> Result IoError PageId * S;
  store_reset_relation : S -> Z -> Result IoError unit * S;
  store_sync : S -> Result IoError unit * S
}.

(** What the pool relies on.  [contents] is what the store holds for a page, and
    [allocated] which page ids it has handed out; [room] is that the relation's page
    numbers are not exhausted.  A page never written may be read as zeros, and allocating
    it may store them ([stores]).  A failed write leaves that page undefined and the others
    alone. *)
Definition stores (stored logical : option (list Z)) : Prop :=
  stored = logical \/ logical = None /\ stored = Some zeroed.

Class PageStoreLaws (S : Type) `{PageStore S} : Type := {
  contents : S -> PageId -> option (list Z);
  allocated : S -> PageId -> Prop;
  room : S -> Z -> Prop;
  store_wf : S -> Prop;
  read_law s p r s' :
    store_wf s -> read_page s p = (r, s') ->
    store_wf s' /\ (forall q, contents s' q = contents s q) /\ (forall q, allocated s q -> allocated s' q) /\
    (forall d, r = Ok d -> d = default zeroed (contents s p));
  contents_page s p d : store_wf s -> contents s p = Some d -> is_page d;
  write_law s p d r s' :
    store_wf s -> allocated s p -> is_page d -> write_page s p d = (r, s') ->
    store_wf s' /\ (forall q, allocated s' q <-> allocated s q) /\
    (forall q, q <> p -> contents s' q = contents s q) /\ (r = Ok tt -> contents s' p = Some d);
  allocate_law s rel r s' :
    store_wf s -> room s rel -> allocate_page s rel = (r, s') ->
    store_wf s' /\ (forall q, stores (contents s' q) (contents s q)) /\
    (forall q, allocated s q -> allocated s' q) /\
    (forall p, r = Ok p ->
       relation_id p = rel /\ ~ allocated s p /\ allocated s' p /\ contents s p = None);
  reset_law s rel r s' :
    store_wf s -> store_reset_relation s rel = (r, s') ->
    store_wf s' /\
    (forall q, relation_id q <> rel -> contents s' q = contents s q) /\
    (forall q, relation_id q <> rel -> allocated s q -> allocated s' q) /\
    (r = Ok tt -> forall q, relation_id q = rel -> contents s' q = None);
  sync_law s r s' :
    store_wf s -> store_sync s = (r, s') ->
    store_wf s' /\ (forall q, contents s' q = contents s q) /\
    (forall q, allocated s q -> allocated s' q)
}.

(** ** State *)

Inductive BufferPoolError : Type :=
| Io (e : IoError)
| PoolExhausted
| PageNotFound (p : PageId).

Abbreviation PoolResult := (Result BufferPoolError).

(** One turn of a retry loop. *)
Inductive Attempt (A : Type) : Type := Done (r : PoolResult A) | Again.
Arguments Done {_}.
Arguments Again {_}.

Section Pool.
Context {S : Type} `{PageStore S}.

Record BufferPool : Type := mkPool {
  frames : list Page;
  page_table : gmap PageId Z;
  free_list : list Z;
  eviction : ClockSweep;
  store : S;
  dirty_count : Z;
  modified_pages : gmap Z (gset Z)
}.

(** [BufferPool::new]; the head of [free_list] is the top of the stack.  A capacity of
    zero is a panic. *)
Definition new_pool (cap : Z) (s : S) : option BufferPool :=
  if cap <=? 0 then None
  else Some (mkPool (replicate (Z.to_nat cap) (new_page_frame (mkPageId 0 0))) ∅ (seqZ 0 cap)
               (ClockSweep.new cap) s 0 ∅).

Definition set_frame (b : BufferPool) (slot : Z) (f : Page) : BufferPool :=
  mkPool (<[Z.to_nat slot := f]> (frames b)) (page_table b) (free_list b) (eviction b) (store b)
    (dirty_count b) (modified_pages b).

Definition set_table (b : BufferPool) (t : gmap PageId Z) : BufferPool :=
  mkPool (frames b) t (free_list b) (eviction b) (store b) (dirty_count b) (modified_pages b).

Definition set_free (b : BufferPool) (l : list Z) : BufferPool :=
  mkPool (frames b) (page_table b) l (eviction b) (store b) (dirty_count b) (modified_pages b).

Definition set_eviction (b : BufferPool) (c : ClockSweep) : BufferPool :=
  mkPool (frames b) (page_table b) (free_list b) c (store b) (dirty_count b) (modified_pages b).

Definition set_store (b : BufferPool) (s : S) : BufferPool :=
  mkPool (frames b) (page_table b) (free_list b) (eviction b) s (dirty_count b) (modified_pages b).

Definition set_dirty_count (b : BufferPool) (n : Z) : BufferPool :=
  mkPool (frames b) (page_table b) (free_list b) (eviction b) (store b) n (modified_pages b).

Definition set_modified (b : BufferPool) (m : gmap Z (gset Z)) : BufferPool :=
  mkPool (frames b) (page_table b) (free_list b) (eviction b) (store b) (dirty_count b) m.

Definition frame_at (b : BufferPool) (slot : Z) : option Page := frames b !! Z.to_nat slot.

Definition lookup_page (b : BufferPool) (p : PageId) : option Z := page_table b !! p.

Definition increment_dirty_count (b : BufferPool) : BufferPool :=
  set_dirty_count b ((dirty_count b + 1) mod 2 ^ 64).

Definition decrement_dirty_count (b : BufferPool) : BufferPool :=
  set_dirty_count b (if dirty_count b =? 0 then 0 else dirty_count b - 1).

Definition track_modified_page (b : BufferPool) (p : PageId) : BufferPool :=
  set_modified b (<[relation_id p := {[page_number p]} ∪
    default ∅ (modified_pages b !! relation_id p)]> (modified_pages b)).

(** ** Frames *)

Definition try_pin_frame (b : BufferPool) (slot : Z) (expected : PageId) :
    option (option bool * BufferPool) :=
  f ← frame_at b slot;
  if decide (pid f = expected) then
    let b1 := set_frame b slot (pin f) in
    Some (Some (dirty f), set_eviction b1 (ClockSweep.access (eviction b1) slot))
  else Some (None, b).

Definition unpin_frame (b : BufferPool) (slot : Z) : option BufferPool :=
  f ← frame_at b slot;
  Some (set_frame b slot (unpin f)).

(** The free-list half of [allocate_frame]. *)
Definition take_free (b : BufferPool) (slot : Z) (rest : list Z) (pg : Page) :
    option (Attempt Z * BufferPool) :=
  _ ← frame_at b slot;
  let b1 := set_frame (set_free b rest) slot (pin pg) in
  let b2 := set_table b1 (<[pid pg := slot]> (page_table b1)) in
  Some (Done (Ok slot), set_eviction b2 (ClockSweep.insert (eviction b2) slot (pid pg))).

(** The callback reads the frame's pin count; ring and frames have the same length. *)
Definition slot_pinned (b : BufferPool) (_ : nat) (slot : Z) : bool :=
  match frame_at b slot with Some f => is_pinned f | None => true end.

Definition choose_victim (b : BufferPool) : option (option Z * BufferPool) :=
  '(r, c) ← find_victim (slot_pinned b) (eviction b);
  Some (r, set_eviction b c).

(** The rest of the loop body, from taking the victim's frame lock. *)
Definition take_victim (b : BufferPool) (slot : Z) (pg : Page) : option (Attempt Z * BufferPool) :=
  f ← frame_at b slot;
  if is_pinned f then Some (Again, b)
  else
    let '(r, b1) :=
      if dirty f then
        match write_page (store b) (pid f) (data f) with
        | (Err e, s) => (Some e, set_store b s)
        | (Ok _, s) => (None, decrement_dirty_count (set_store b s))
        end
      else (None, b) in
    match r with
    | Some e => Some (Done (Err (Io e)), b1)
    | None =>
        let t := page_table b1 in
        let t1 := if decide (t !! pid f = Some slot) then delete (pid f) t else t in
        let b2 := set_table (set_frame b1 slot (pin pg)) (<[pid pg := slot]> t1) in
        Some (Done (Ok slot), set_eviction b2 (ClockSweep.insert (eviction b2) slot (pid pg)))
    end.

Definition allocate_frame (b : BufferPool) (pg : Page) : option (Attempt Z * BufferPool) :=
  match free_list b with
  | slot :: rest => take_free b slot rest pg
  | [] =>
      '(v, b1) ← choose_victim b;
      match v with
      | None => Some (Done (Err PoolExhausted), b1)
      | Some slot => take_victim b1 slot pg
      end
  end.

(** ** Operations *)

(** The lookup-and-pin both halves of [fetch_page] begin with; the outer [None] is a
    miss. *)
Definition try_hit (b : BufferPool) (p : PageId) : option (option (Attempt Z * BufferPool)) :=
  match lookup_page b p with
  | None => None
  | Some slot =>
      Some ('(r, b1) ← try_pin_frame b slot p;
            Some (match r with Some _ => Done (Ok slot) | None => Again end, b1))
  end.

Definition fetch_page (b : BufferPool) (p : PageId) : option (Attempt Z * BufferPool) :=
  match try_hit b p with
  | Some r => r
  | None =>
      match try_hit b p with
      | Some r => r
      | None =>
          match read_page (store b) p with
          | (Err e, s) => Some (Done (Err (Io e)), set_store b s)
          | (Ok d, s) => allocate_frame (set_store b s) (with_data p d)
          end
      end
  end.

Definition new_page (b : BufferPool) (rel : Z) : option (Attempt Z * BufferPool) :=
  match allocate_page (store b) rel with
  | (Err e, s) => Some (Done (Err (Io e)), set_store b s)
  | (Ok p, s) => allocate_frame (set_store b s) (new_page_frame p)
  end.

(** What [flush_page], [flush_all] and [flush_some] do for one page; the result says
    whether it was written. *)
Definition flush_one (b : BufferPool) (p : PageId) : option (PoolResult bool * BufferPool) :=
  match lookup_page b p with
  | None => Some (Ok false, b)
  | Some slot =>
      f ← frame_at b slot;
      if decide (pid f <> p) then Some (Ok false, b)
      else if negb (dirty f) then Some (Ok false, b)
      else
        match write_page (store b) (pid f) (data f) with
        | (Err e, s) => Some (Err (Io e), set_store b s)
        | (Ok _, s) =>
            Some (Ok true, decrement_dirty_count (set_frame (set_store b s) slot (mark_clean f)))
        end
  end.

Definition flush_page (b : BufferPool) (p : PageId) : option (PoolResult unit * BufferPool) :=
  '(r, b1) ← flush_one b p;
  Some (match r with Ok _ => Ok tt | Err e => Err e end, b1).

Fixpoint flush_loop (full : Z -> bool) (ids : list PageId) (flushed : Z) (b : BufferPool) :
    option (PoolResult Z * BufferPool) :=
  match ids with
  | [] => Some (Ok flushed, b)
  | p :: rest =>
      if full flushed then Some (Ok flushed, b)
      else
        '(r, b1) ← flush_one b p;
        match r with
        | Err e => Some (Err e, b1)
        | Ok written => flush_loop full rest (if (written : bool) then flushed + 1 else flushed) b1
        end
  end.

(** [table.keys()], in an unspecified order. *)
Definition table_keys (b : BufferPool) : list PageId :=
  map fst (map_to_list (page_table b) : list (PageId * Z)).

Definition flush_all (b : BufferPool) : option (PoolResult Z * BufferPool) :=
  flush_loop (fun _ => false) (table_keys b) 0 b.

Definition flush_some (b : BufferPool) (limit : Z) : option (PoolResult Z * BufferPool) :=
  if limit =? 0 then Some (Ok 0, b)
  else flush_loop (fun n => limit <=? n) (table_keys b) 0 b.

Definition sync (b : BufferPool) : PoolResult unit * BufferPool :=
  match store_sync (store b) with
  | (Ok _, s) => (Ok tt, set_store b s)
  | (Err e, s) => (Err (Io e), set_store b s)
  end.

Definition flush_all_and_sync (b : BufferPool) : option (PoolResult Z * BufferPool) :=
  '(r, b1) ← flush_all b;
  match r with
  | Err e => Some (Err e, b1)
  | Ok flushed =>
      let '(r2, b2) := sync b1 in
      Some (match r2 with Ok _ => Ok flushed | Err e => Err e end, b2)
  end.

Definition reset_one (b : BufferPool) (p : PageId) : option (PoolResult unit * BufferPool) :=
  match lookup_page b p with
  | None => Some (Ok tt, b)
  | Some slot =>
      f ← frame_at b slot;
      if decide (pid f <> p) then Some (Ok tt, b)
      else if is_pinned f then Some (Err PoolExhausted, b)
      else
        let b1 := if dirty f then decrement_dirty_count b else b in
        let t := page_table b1 in
        let b2 := set_table b1 (if decide (t !! p = Some slot) then delete p t else t) in
        let b3 := set_eviction b2 (ClockSweep.remove (eviction b2) slot) in
        let b4 := set_free b3 (slot :: free_list b3) in
        Some (Ok tt, set_frame b4 slot (new_page_frame (mkPageId 0 slot)))
  end.

Fixpoint reset_loop (ids : list PageId) (b : BufferPool) : option (PoolResult unit * BufferPool) :=
  match ids with
  | [] => Some (Ok tt, b)
  | p :: rest =>
      '(r, b1) ← reset_one b p;
      match r with Err e => Some (Err e, b1) | Ok _ => reset_loop rest b1 end
  end.

Definition relation_keys (b : BufferPool) (rel : Z) : list PageId :=
  filter (fun p => relation_id p = rel) (table_keys b).

Definition reset_relation (b : BufferPool) (rel : Z) : option (PoolResult unit * BufferPool) :=
  '(r, b1) ← reset_loop (relation_keys b rel) b;
  match r with
  | Err e => Some (Err e, b1)
  | Ok _ =>
      match store_reset_relation (store b1) rel with
      | (Err e, s) => Some (Err (Io e), set_store b1 s)
      | (Ok _, s) =>
          Some (Ok tt, set_modified (set_store b1 s) (delete rel (modified_pages b1)))
      end
  end.

(** ** Modified-page tracking *)

Definition modified_numbers (b : BufferPool) (rel : Z) : list Z :=
  sort_keys (elements (default ∅ (modified_pages b !! rel))).

Definition cached_data (b : BufferPool) (p : PageId) : option (option (list Z)) :=
  match lookup_page b p with
  | None => Some None
  | Some slot => f ← frame_at b slot; Some (if decide (pid f = p) then Some (data f) else None)
  end.

Fixpoint snapshot_loop (rel : Z) (nums : list Z) (b : BufferPool) :
    option (PoolResult (list (PageId * list Z)) * BufferPool) :=
  match nums with
  | [] => Some (Ok [], b)
  | n :: rest =>
      let p := mkPageId rel n in
      c ← cached_data b p;
      let add d b := '(r, b1) ← snapshot_loop rel rest b;
                     Some (match r with Ok l => Ok ((p, d) :: l) | Err e => Err e end, b1) in
      match c with
      | Some d => add d b
      | None =>
          match read_page (store b) p with
          | (Ok d, s) => add d (set_store b s)
          | (Err NotFound, s) => snapshot_loop rel rest (set_store b s)
          | (Err e, s) => Some (Err (Io e), set_store b s)
          end
      end
  end.

Definition snapshot_modified_relation_pages (b : BufferPool) (rel : Z) :
    option (PoolResult (list (PageId * list Z)) * BufferPool) :=
  snapshot_loop rel (modified_numbers b rel) b.

Definition clear_modified_relation_pages (b : BufferPool) (rel : Z) (nums : list Z) : BufferPool :=
  if bool_decide (nums = []) then b
  else
    match modified_pages b !! rel with
    | None => b
    | Some ps =>
        let ps' := ps ∖ list_to_set nums in
        set_modified b (if bool_decide (ps' = ∅) then delete rel (modified_pages b)
                        else <[rel := ps']> (modified_pages b))
    end.

Definition clear_all_modified_pages (b : BufferPool) : BufferPool := set_modified b ∅.

(** ** Guards *)

(** A write through a guard's [write().data_mut()]. *)
Definition guard_write (b : BufferPool) (slot : Z) (d : list Z) : option BufferPool :=
  f ← frame_at b slot;
  Some (set_frame b slot (data_mut f d)).

(** [Drop] of a guard. *)
Definition drop_guard (b : BufferPool) (slot : Z) : option BufferPool :=
  f ← frame_at b slot;
  let '(counted_now, f1) := claim_dirty_transition f in
  let b1 := set_frame b slot f1 in
  let b2 :=
    if dirty f1 then
      let b2 := track_modified_page b1 (pid f1) in
      if counted_now then increment_dirty_count b2 else b2
    else b1 in
  unpin_frame b2 slot.

End Pool.

Arguments BufferPool : clear implicits.

(** ** The in-memory page store *)

Record MemoryPageStore : Type := mkMemory {
  pages : gmap PageId (list Z);
  next_page : gmap Z Z
}.

Definition memory_new : MemoryPageStore := mkMemory ∅ ∅.

Definition memory_read (s : MemoryPageStore) (p : PageId) : Result IoError (list Z) :=
  match pages s !! p with Some d => Ok d | None => Err NotFound end.

Definition memory_write (s : MemoryPageStore) (p : PageId) (d : list Z) :
    Result IoError unit * MemoryPageStore :=
  (Ok tt, mkMemory (<[p := d]> (pages s)) (next_page s)).

Definition next_number (s : MemoryPageStore) (rel : Z) : Z := default 0 (next_page s !! rel).

Definition memory_allocate (s : MemoryPageStore) (rel : Z) : Result IoError PageId * MemoryPageStore :=
  let n := next_number s rel in
  (Ok (mkPageId rel n), mkMemory (pages s) (<[rel := (n + 1) mod 2 ^ 64]> (next_page s))).

Definition memory_reset (s : MemoryPageStore) (rel : Z) : Result IoError unit * MemoryPageStore :=
  (Ok tt, mkMemory (filter (fun kv => relation_id kv.1 <> rel) (pages s)) (<[rel := 0]> (next_page s))).

#[global] Instance memory_store : PageStore MemoryPageStore := {
  read_page s p := (memory_read s p, s);
  write_page := memory_write;
  allocate_page := memory_allocate;
  store_reset_relation := memory_reset;
  store_sync s := (Ok tt, s)
}.

Definition memory_allocated (s : MemoryPageStore) (p : PageId) : Prop :=
  0 <= page_number p < next_number s (relation_id p).

Definition memory_wf (s : MemoryPageStore) : Prop :=
  (forall rel, 0 <= next_number s rel <= u64_max) /\
  forall p d, pages s !! p = Some d -> memory_allocated s p /\ is_page d.

Lemma next_number_insert s rel n rel' :
  next_number (mkMemory (pages s) (<[rel := n]> (next_page s))) rel' =
    if decide (rel' = rel) then n else next_number s rel'.
Proof.
  unfold next_number. cbn [next_page]. rewrite lookup_insert. by repeat case_decide; subst.
Qed.

#[global, refine] Instance memory_laws : PageStoreLaws MemoryPageStore := {
  contents s p := pages s !! p;
  allocated := memory_allocated;
  room s rel := next_number s rel < u64_max;
  store_wf := memory_wf
}.
Proof.
  - intros s p r s' Hw [= <- <-]. split_and!; try done. intros d. unfold memory_read. destruct (pages s !! p); by intros [= <-].
  - intros s p d [_ Hw] Hp. by apply (Hw p).
  - intros s p d r s' [Hn Hw] Ha Hd [= <- <-]. split_and!; [split|..]; try done.
    + intros q d'. cbn [pages]. rewrite lookup_insert_Some. intros [[<- <-]|[_ Hq]]; [done|by apply (Hw q d')].
    + intros q Hq. cbn [pages]. by rewrite lookup_insert_ne.
    + intros _. apply lookup_insert_eq.
  - intros s rel r s' [Hn Hw] Hroom [= <- <-].
    assert (Hmod : (next_number s rel + 1) mod 2 ^ 64 = next_number s rel + 1).
    { apply Z.mod_small. specialize (Hn rel). unfold u64_max in *. lia. }
    assert (Hmono : forall q, memory_allocated s q ->
      memory_allocated (mkMemory (pages s) (<[rel := (next_number s rel + 1) mod 2 ^ 64]> (next_page s))) q).
    { intros q Hq. unfold memory_allocated in *. rewrite next_number_insert, Hmod. case_decide as E; [|done].
      rewrite E in Hq. lia. }
    split_and!; [split|by left|done|].
    + intros rel'. rewrite next_number_insert, Hmod. case_decide; [|done]. specialize (Hn rel). lia.
    + intros q d Hq. destruct (Hw q d Hq). auto.
    + intros p [= <-]. cbn [relation_id].
      assert (Hna : ~ memory_allocated s (mkPageId rel (next_number s rel)))
        by (unfold memory_allocated; cbn [relation_id page_number]; lia).
      split_and!; [done|done| |].
      * unfold memory_allocated. cbn [relation_id page_number].
        rewrite next_number_insert, decide_True, Hmod by done. specialize (Hn rel). lia.
      * cbn [pages]. destruct (pages s !! _) as [d|] eqn:E; [|done]. by apply Hw in E as [? _].
  - intros s rel r s' [Hn Hw] [= <- <-].
    assert (Hnx : forall rel', next_number (snd (memory_reset s rel)) rel' =
      if decide (rel' = rel) then 0 else next_number s rel').
    { intros rel'. unfold next_number, memory_reset. cbn [snd next_page]. rewrite lookup_insert.
      by repeat case_decide; subst. }
    assert (Hal : forall q, relation_id q <> rel -> memory_allocated s q -> memory_allocated (snd (memory_reset s rel)) q).
    { intros q Hq Ha. unfold memory_allocated. by rewrite Hnx, decide_False. }
    split_and!; [split|..].
    + intros rel'. change (mkMemory _ _) with (snd (memory_reset s rel)). rewrite Hnx.
      case_decide; [unfold u64_max; lia|done].
    + intros q d [Hq Hne]%map_lookup_filter_Some. destruct (Hw q d Hq). auto.
    + intros q Hq. cbn [pages]. destruct (pages s !! q) as [d|] eqn:E.
      * by apply map_lookup_filter_Some.
      * apply map_lookup_filter_None. by left.
    + done.
    + intros _ q Hq. cbn [pages]. apply map_lookup_filter_None. right. cbn [fst]. intros d _. tauto.
  - intros s r s' Hw [= <- <-]. done.
Defined.
