(* ===== verification/PoolRefinement.v ===== *)
(** * The buffer pool is a transparent, durable cache

    The pool of [BufferPool], run by clients that hold page guards, against the map of
    page contents it implements.  [pool_inv] is the invariant: page table, free list,
    eviction ring and frames agree, pin counts are the numbers of guards, and each
    page's contents are in its frame or in the store.  [X] is a set of slots between
    owners, so that the stages of an eviction are separate lemmas. *)

From S2P Require Import Prelude.
From S2P Require Import PageBytes.
From S2P Require Import PoolPage.
From S2P Require Import ClockSweep.
From S2P Require Import BufferPool.

Section Refinement.
Context {S : Type} `{PageStoreLaws S}.

Abbreviation Guards := (list (Z * PageId)).
Abbreviation Logical := (PageId -> option (list Z)).

Definition guard_count (gs : Guards) (slot : Z) : Z :=
  Z.of_nat (length (filter (fun g => g.1 = slot) gs)).

(** A frame agrees with the logical contents of its page, and, when clean, with the
    store. *)
Definition frame_ok (f : Page) (stored logical : option (list Z)) : Prop :=
  data f = default zeroed logical /\
  (dirty f = true -> logical = Some (data f)) /\ (dirty f = false -> stores stored logical).

Definition in_range (fr : list Page) (slot : Z) : Prop := 0 <= slot < Z.of_nat (length fr).

Record pool_inv (X : gset Z) (fr : list Page) (tbl : gmap PageId Z) (fl : list Z)
    (ev : ClockSweep) (st : S) (gs : Guards) (L : Logical) : Prop := {
  pi_clock : clock_wf ev;
  pi_cap : capacity ev = Z.of_nat (length fr);
  pi_store : store_wf st;
  pi_table p slot : tbl !! p = Some slot ->
    in_range fr slot /\ slot ∉ X /\ slot ∉ fl /\ allocated st p /\ page_id_at ev slot = Some p /\
    exists f, fr !! Z.to_nat slot = Some f /\ pid f = p /\ frame_ok f (contents st p) (L p);
  pi_uncached p : tbl !! p = None -> stores (contents st p) (L p);
  pi_logical p d : L p = Some d -> is_page d;
  pi_free_nodup : NoDup fl;
  pi_free slot : slot ∈ fl -> in_range fr slot /\ slot ∉ X /\ page_id_at ev slot = None;
  pi_loose slot : slot ∈ X -> in_range fr slot;
  pi_cover slot : in_range fr slot -> slot ∈ X \/ slot ∈ fl \/ exists p, tbl !! p = Some slot;
  pi_guards g : g ∈ gs -> tbl !! g.2 = Some g.1;
  pi_pins slot f : 0 <= slot -> fr !! Z.to_nat slot = Some f -> pin_count f = guard_count gs slot
}.

#[local] Arguments pi_clock {_ _ _ _ _ _ _ _} _.
#[local] Arguments pi_cap {_ _ _ _ _ _ _ _} _.
#[local] Arguments pi_store {_ _ _ _ _ _ _ _} _.
#[local] Arguments pi_free_nodup {_ _ _ _ _ _ _ _} _.
#[local] Arguments pi_table {_ _ _ _ _ _ _ _} _ _ _ _.
#[local] Arguments pi_uncached {_ _ _ _ _ _ _ _} _ _ _.
#[local] Arguments pi_logical {_ _ _ _ _ _ _ _} _ _ _ _.
#[local] Arguments pi_free {_ _ _ _ _ _ _ _} _ _ _.
#[local] Arguments pi_loose {_ _ _ _ _ _ _ _} _ _ _.
#[local] Arguments pi_cover {_ _ _ _ _ _ _ _} _ _ _.
#[local] Arguments pi_guards {_ _ _ _ _ _ _ _} _ _ _.
#[local] Arguments pi_pins {_ _ _ _ _ _ _ _} _ _ _ _ _.

Lemma stores_trans a b c : stores a b -> stores b c -> stores a c.
Proof. unfold stores. naive_solver. Qed.

Lemma stores_default a b : stores a b -> default zeroed a = default zeroed b.
Proof. by intros [->|[-> ->]]. Qed.

(** ** Facts about guards and slots *)

Lemma guard_count_cons g gs slot :
  guard_count (g :: gs) slot = (if decide (g.1 = slot) then 1 else 0) + guard_count gs slot.
Proof. unfold guard_count. rewrite filter_cons. case_decide; cbn [length]; lia. Qed.

Lemma guard_count_app gs gs' slot :
  guard_count (gs ++ gs') slot = guard_count gs slot + guard_count gs' slot.
Proof. unfold guard_count. rewrite filter_app, length_app. lia. Qed.

Lemma guard_count_nonneg gs slot : 0 <= guard_count gs slot <= Z.of_nat (length gs).
Proof. unfold guard_count. pose proof (length_filter (fun g : Z * PageId => g.1 = slot) gs). lia. Qed.

Lemma guard_count_zero gs slot : guard_count gs slot = 0 <-> forall p, (slot, p) ∉ gs.
Proof.
  unfold guard_count. split.
  - intros Hz p Hin. assert (Hf : filter (fun g => g.1 = slot) gs = []) by (apply length_zero_iff_nil; lia).
    assert (Hin' : (slot, p) ∈ filter (fun g => g.1 = slot) gs) by (by apply list_elem_of_filter).
    rewrite Hf in Hin'. by apply elem_of_nil in Hin'.
  - intros Hn. rewrite filter_none; [done|]. apply Forall_forall. intros [s p] Hin Heq.
    cbn [fst] in Heq. subst. by apply (Hn p).
Qed.

Lemma range_frame fr slot : in_range fr slot -> exists f, fr !! Z.to_nat slot = Some f.
Proof. intros Hr. apply lookup_lt_is_Some. unfold in_range in Hr. lia. Qed.

Lemma in_range_insert fr k f slot : in_range (<[k := f]> fr) slot <-> in_range fr slot.
Proof. unfold in_range. by rewrite length_insert. Qed.

Lemma frame_lookup_insert fr slot slot' f :
  in_range fr slot -> 0 <= slot' ->
  <[Z.to_nat slot := f]> fr !! Z.to_nat slot' =
    if decide (slot' = slot) then Some f else fr !! Z.to_nat slot'.
Proof.
  unfold in_range. intros Hr Hs. case_decide as E.
  - subst. rewrite list_lookup_insert_eq; [done|lia].
  - rewrite list_lookup_insert_ne; [done|lia].
Qed.

(** Changes of the ring that move no page. *)
Definition ev_same (ev ev' : ClockSweep) : Prop :=
  clock_wf ev' /\ capacity ev' = capacity ev /\
  forall slot, 0 <= slot -> page_id_at ev' slot = page_id_at ev slot.

Lemma ev_same_refl ev : clock_wf ev -> ev_same ev ev.
Proof. done. Qed.

Lemma page_id_on_entry ev slot slot' g :
  0 <= slot -> 0 <= slot' ->
  page_id_at (on_entry ev slot g) slot' =
    if decide (slot' = slot) then entries ev !! Z.to_nat slot ≫= (fun e => page_id (g e))
    else page_id_at ev slot'.
Proof.
  intros Hs Hs'. unfold page_id_at, on_entry. cbn [entries]. case_decide as E.
  - subst. rewrite list_lookup_alter_eq. by destruct (entries ev !! Z.to_nat slot).
  - rewrite list_lookup_alter_ne; [done|lia].
Qed.

Lemma access_same ev slot : clock_wf ev -> 0 <= slot -> ev_same ev (access ev slot).
Proof.
  intros Hwf Hs. split_and!.
  - apply (clock_op_wf ev); [done|by apply op_access].
  - apply capacity_on_entry.
  - intros slot' Hs'. unfold access. rewrite page_id_on_entry by done. case_decide; [|done].
    subst. unfold page_id_at. by destruct (entries ev !! Z.to_nat slot).
Qed.

Lemma swept_same ev ev' : clock_wf ev' -> swept ev ev' -> ev_same ev ev'.
Proof.
  intros Hwf [Hc Hs]. split_and!; [done..|]. intros slot _. unfold page_id_at.
  destruct (entries ev !! Z.to_nat slot) as [e|] eqn:E.
  - destruct (Hs _ _ E) as (e' & -> & Hp & _). done.
  - rewrite lookup_ge_None in E. rewrite lookup_ge_None_2; [done|]. unfold capacity in Hc. lia.
Qed.

Lemma insert_ring ev slot p :
  clock_wf ev -> 0 <= slot < capacity ev ->
  clock_wf (ClockSweep.insert ev slot p) /\ capacity (ClockSweep.insert ev slot p) = capacity ev /\
  forall slot', 0 <= slot' -> page_id_at (ClockSweep.insert ev slot p) slot' =
    if decide (slot' = slot) then Some p else page_id_at ev slot'.
Proof.
  intros Hwf Hs. split_and!.
  - apply (clock_op_wf ev); [done|apply op_insert; lia].
  - apply capacity_on_entry.
  - intros slot' Hs'. unfold ClockSweep.insert. rewrite page_id_on_entry by lia. case_decide; [|done].
    destruct (lookup_lt_is_Some_2 (entries ev) (Z.to_nat slot)) as [e ->]; [|done].
    unfold capacity in Hs. lia.
Qed.

Lemma remove_ring ev slot :
  clock_wf ev -> 0 <= slot ->
  clock_wf (ClockSweep.remove ev slot) /\ capacity (ClockSweep.remove ev slot) = capacity ev /\
  forall slot', 0 <= slot' -> page_id_at (ClockSweep.remove ev slot) slot' =
    if decide (slot' = slot) then None else page_id_at ev slot'.
Proof.
  intros Hwf Hs. split_and!.
  - apply (clock_op_wf ev); [done|by apply op_remove].
  - apply capacity_on_entry.
  - intros slot' Hs'. unfold ClockSweep.remove. rewrite page_id_on_entry by lia. case_decide; [|done].
    by destruct (entries ev !! Z.to_nat slot).
Qed.

(** ** Stages *)

(** Changing the frame of a cached page: a pin, an unpin, a write or a flush. *)
Lemma inv_frame X fr tbl fl ev st gs L slot p f' ev' st' gs' L' :
  pool_inv X fr tbl fl ev st gs L -> tbl !! p = Some slot -> pid f' = p ->
  ev_same ev ev' ->
  store_wf st' -> (forall q, allocated st q -> allocated st' q) ->
  (forall q, q <> p -> contents st' q = contents st q) -> (forall q, q <> p -> L' q = L q) ->
  (forall d, L' p = Some d -> is_page d) -> frame_ok f' (contents st' p) (L' p) ->
  pin_count f' = guard_count gs' slot ->
  (forall s, s <> slot -> guard_count gs' s = guard_count gs s) ->
  (forall g, g ∈ gs' -> g ∈ gs \/ g = (slot, p)) ->
  pool_inv X (<[Z.to_nat slot := f']> fr) tbl fl ev' st' gs' L'.
Proof.
  intros I Hp Hpid (Hew & Hec & Hei) Hsw Hsa Hsc HL HLp Hok Hpin Hother Hgs.
  destruct (pi_table I p slot Hp) as (Hr & _).
  split; try done.
  - rewrite length_insert, Hec. apply I.
  - intros q s Hq. destruct (pi_table I q s Hq) as (Hrs & HX & Hfl & Hal & Hev & f & Hf & Hpf & Hfo).
    rewrite in_range_insert, Hei by apply Hrs. split_and!; [done..|by apply Hsa|done|].
    rewrite frame_lookup_insert by (done || apply Hrs). case_decide as E.
    + subst s. exists f'. destruct (pi_table I p slot Hp) as (_ & _ & _ & _ & Hev' & _).
      assert (q = p) as -> by congruence. done.
    + exists f. rewrite Hsc, HL by congruence. done.
  - intros q Hq. rewrite Hsc, HL by congruence. by apply (pi_uncached I).
  - intros q d. destruct (decide (q = p)) as [->|Hne]; [apply HLp|]. rewrite HL by done. apply (pi_logical I).
  - apply I.
  - intros s Hs. destruct (pi_free I s Hs) as (Hrs & HX & Hev).
    rewrite in_range_insert, Hei by apply Hrs. done.
  - intros s Hs. rewrite in_range_insert. by apply (pi_loose I).
  - intros s Hs. rewrite in_range_insert in Hs. exact (pi_cover I s Hs).
  - intros g [Hg| ->]%Hgs; [by apply (pi_guards I)|done].
  - intros s f Hs Hf. rewrite frame_lookup_insert in Hf by done. case_decide as E.
    + by simplify_eq.
    + rewrite Hother by done. by apply (pi_pins I).
Qed.

(** Giving up a cached page that nobody holds; its logical contents become those of
    the store. *)
Lemma inv_release X fr tbl fl ev st gs L slot p L' :
  pool_inv X fr tbl fl ev st gs L -> tbl !! p = Some slot -> guard_count gs slot = 0 ->
  (forall q, q <> p -> L' q = L q) -> stores (contents st p) (L' p) ->
  pool_inv ({[slot]} ∪ X) fr (delete p tbl) fl ev st gs L'.
Proof.
  intros I Hp Hg HL HLp. destruct (pi_table I p slot Hp) as (Hr & HX & Hfl & _ & Hev & _).
  split; try apply I.
  - intros q s [Hne Hq]%lookup_delete_Some.
    destruct (pi_table I q s Hq) as (Hrs & HXs & Hfs & Hal & Hevs & Hf).
    assert (s <> slot) by congruence. rewrite HL by congruence.
    split_and!; [done..| |done|done|done|done]. rewrite elem_of_union, elem_of_singleton. tauto.
  - intros q Hq. destruct (decide (q = p)) as [->|Hne]; [done|].
    rewrite lookup_delete_ne in Hq by done. rewrite HL by done. by apply (pi_uncached I).
  - intros q d. destruct (decide (q = p)) as [->|Hne]; [|rewrite HL by done; apply (pi_logical I)].
    intros Hd. destruct HLp as [E|[E _]]; [|congruence]. apply (contents_page st p d (pi_store I)). congruence.
  - intros s Hs. destruct (pi_free I s Hs) as (Hrs & HXs & Hevs).
    split_and!; [done..| |done]. rewrite elem_of_union, elem_of_singleton. intros [->|?]; done.
  - intros s [->%elem_of_singleton|Hs]%elem_of_union; [done|by apply (pi_loose I)].
  - intros s Hs. destruct (pi_cover I s Hs) as [?|[?|[q Hq]]].
    + left. by apply elem_of_union_r.
    + right. by left.
    + destruct (decide (q = p)) as [->|Hne].
      * left. apply elem_of_union_l, elem_of_singleton. congruence.
      * right. right. exists q. by rewrite lookup_delete_ne.
  - intros [s q] Hin. pose proof (pi_guards I _ Hin) as Hq. cbn [fst snd] in *.
    rewrite lookup_delete_ne; [done|]. intros ->. assert (s = slot) as -> by congruence.
    by apply (proj1 (guard_count_zero gs slot) Hg q).
Qed.

(** A page put into a loose slot, pinned by the guard that is handed out. *)
Lemma inv_install X fr tbl fl ev st gs L slot pg :
  pool_inv ({[slot]} ∪ X) fr tbl fl ev st gs L -> slot ∉ X ->
  tbl !! pid pg = None -> allocated st (pid pg) -> pin_count pg = 0 ->
  frame_ok pg (contents st (pid pg)) (L (pid pg)) ->
  pool_inv X (<[Z.to_nat slot := pin pg]> fr) (<[pid pg := slot]> tbl) fl
    (ClockSweep.insert ev slot (pid pg)) st ((slot, pid pg) :: gs) L.
Proof.
  intros I HX Hnew Hal Hpin Hok.
  assert (Hr : in_range fr slot) by (apply (pi_loose I), elem_of_union_l, elem_of_singleton; done).
  assert (Hg0 : guard_count gs slot = 0).
  { apply guard_count_zero. intros q Hin. pose proof (pi_guards I _ Hin) as Hq.
    destruct (pi_table I _ _ Hq) as (_ & Hn & _). cbn [fst] in Hn.
    apply Hn, elem_of_union_l, elem_of_singleton. done. }
  destruct (insert_ring ev slot (pid pg)) as (Hew & Hec & Hei);
    [apply I|rewrite (pi_cap I); apply Hr|].
  assert (Hloose : forall s, s ∉ {[slot]} ∪ X -> s <> slot /\ s ∉ X).
  { intros s Hn. rewrite elem_of_union, elem_of_singleton in Hn. tauto. }
  split; try done.
  - rewrite length_insert, Hec. apply I.
  - apply I.
  - intros q s [[<- <-]|[Hne Hq]]%lookup_insert_Some.
    + rewrite in_range_insert, Hei, decide_True by (done || apply Hr).
      split_and!; [done|done| |done|done|].
      * intros Hf. destruct (pi_free I _ Hf) as (_ & [? _]%Hloose & _). done.
      * exists (pin pg). rewrite frame_lookup_insert, decide_True by (done || apply Hr). done.
    + destruct (pi_table I q s Hq) as (Hrs & [Hns HXs]%Hloose & Hfs & Hals & Hevs & f & Hf & Hpf & Hfo).
      rewrite in_range_insert, Hei, decide_False by (done || apply Hrs). split_and!; [done..|].
      exists f. rewrite frame_lookup_insert, decide_False by (done || apply Hrs). done.
  - intros q [Hq Hne]%lookup_insert_None. by apply (pi_uncached I).
  - apply I.
  - apply I.
  - intros s Hs. destruct (pi_free I s Hs) as (Hrs & [Hns HXs]%Hloose & Hevs).
    rewrite in_range_insert, Hei, decide_False by (done || apply Hrs). done.
  - intros s Hs. rewrite in_range_insert. apply (pi_loose I). by apply elem_of_union_r.
  - intros s Hs. rewrite in_range_insert in Hs.
    destruct (pi_cover I s Hs) as [[->%elem_of_singleton|?]%elem_of_union|[?|[q Hq]]].
    + right. right. exists (pid pg). apply lookup_insert_eq.
    + by left.
    + right. by left.
    + right. right. exists q. rewrite lookup_insert_ne; [done|]. congruence.
  - intros g [->|Hg]%elem_of_cons; [apply lookup_insert_eq|].
    pose proof (pi_guards I _ Hg) as Hq. rewrite lookup_insert_ne; [done|]. congruence.
  - intros s f Hs Hf. rewrite guard_count_cons. cbn [fst]. rewrite frame_lookup_insert in Hf by done.
    destruct (decide (s = slot)) as [->|Hne].
    + rewrite decide_True by done. injection Hf as <-. cbn [pin pin_count]. rewrite Hpin, Hg0.
      unfold saturating_add, u32_max. lia.
    + rewrite decide_False by congruence. rewrite Z.add_0_l. by apply (pi_pins I).
Qed.

(** A loose slot returned to the free list, with an empty frame. *)
Lemma inv_push X fr tbl fl ev st gs L slot f :
  pool_inv ({[slot]} ∪ X) fr tbl fl ev st gs L -> slot ∉ X -> pin_count f = 0 ->
  pool_inv X (<[Z.to_nat slot := f]> fr) tbl (slot :: fl) (ClockSweep.remove ev slot) st gs L.
Proof.
  intros I HX Hpin.
  assert (Hr : in_range fr slot) by (apply (pi_loose I), elem_of_union_l, elem_of_singleton; done).
  assert (Hloose : forall s, s ∉ {[slot]} ∪ X -> s <> slot /\ s ∉ X).
  { intros s Hn. rewrite elem_of_union, elem_of_singleton in Hn. tauto. }
  destruct (remove_ring ev slot (pi_clock I)) as (Hew & Hec & Hei); [apply Hr|].
  split; try done.
  - rewrite length_insert, Hec. apply I.
  - apply I.
  - intros q s Hq. destruct (pi_table I q s Hq) as (Hrs & [Hns HXs]%Hloose & Hfs & Hals & Hevs & g & Hg & Hpg & Hfo).
    rewrite in_range_insert, Hei, decide_False by (done || apply Hrs).
    split_and!; [done|done| |done|done|].
    + rewrite elem_of_cons. tauto.
    + exists g. rewrite frame_lookup_insert, decide_False by (done || apply Hrs). done.
  - apply I.
  - apply I.
  - apply NoDup_cons. split; [|apply I]. intros Hin.
    destruct (pi_free I _ Hin) as (_ & [? _]%Hloose & _). done.
  - intros s [->|Hs]%elem_of_cons.
    + rewrite in_range_insert, Hei, decide_True by (done || apply Hr). done.
    + destruct (pi_free I s Hs) as (Hrs & [Hns HXs]%Hloose & Hevs).
      rewrite in_range_insert, Hei, decide_False by (done || apply Hrs). done.
  - intros s Hs. rewrite in_range_insert. apply (pi_loose I). by apply elem_of_union_r.
  - intros s Hs. rewrite in_range_insert in Hs.
    destruct (pi_cover I s Hs) as [[->%elem_of_singleton|?]%elem_of_union|[?|?]].
    + right. left. left.
    + by left.
    + right. left. by right.
    + right. by right.
  - apply I.
  - intros s g Hs Hg. rewrite frame_lookup_insert in Hg by done. case_decide as E.
    + subst. injection Hg as <-. rewrite Hpin. symmetry. apply guard_count_zero. intros q Hin.
      pose proof (pi_guards I _ Hin) as Hq. destruct (pi_table I _ _ Hq) as (_ & [? _]%Hloose & _). done.
    + by apply (pi_pins I).
Qed.

(** The top of the free list taken out. *)
Lemma inv_pop X fr tbl fl ev st gs L slot :
  pool_inv X fr tbl (slot :: fl) ev st gs L -> pool_inv ({[slot]} ∪ X) fr tbl fl ev st gs L.
Proof.
  intros I. pose proof (pi_free_nodup I) as [Hn Hnd]%NoDup_cons.
  split; try apply I.
  - intros q s Hq. destruct (pi_table I q s Hq) as (Hrs & HXs & Hfs & Hrest).
    apply not_elem_of_cons in Hfs as [Hns Hfs]. split_and!; [done| |done|apply Hrest..].
    rewrite elem_of_union, elem_of_singleton. tauto.
  - done.
  - intros s Hs. destruct (pi_free I s) as (Hrs & HXs & Hevs); [by right|].
    split_and!; [done| |done]. rewrite elem_of_union, elem_of_singleton. intros [->|?]; done.
  - intros s [->%elem_of_singleton|Hs]%elem_of_union; [|by apply (pi_loose I)].
    destruct (pi_free I slot) as (? & _); [left|done].
  - intros s Hs. destruct (pi_cover I s Hs) as [?|[[->|?]%elem_of_cons|?]].
    + left. by apply elem_of_union_r.
    + left. by apply elem_of_union_l, elem_of_singleton.
    + right. by left.
    + right. by right.
Qed.

Lemma inv_ring X fr tbl fl ev st gs L ev' :
  pool_inv X fr tbl fl ev st gs L -> ev_same ev ev' -> pool_inv X fr tbl fl ev' st gs L.
Proof.
  intros I (Hw & Hc & Hi). split; try apply I; [done|rewrite Hc; apply I| |].
  - intros q s Hq. destruct (pi_table I q s Hq) as (Hr & Hrest). rewrite Hi by apply Hr. done.
  - intros s Hs. destruct (pi_free I s Hs) as (Hr & Hrest). rewrite Hi by apply Hr. done.
Qed.

Lemma inv_store X fr tbl fl ev st gs L st' :
  pool_inv X fr tbl fl ev st gs L -> store_wf st' ->
  (forall q, stores (contents st' q) (contents st q)) -> (forall q, allocated st q -> allocated st' q) ->
  pool_inv X fr tbl fl ev st' gs L.
Proof.
  intros I Hw Hc Ha. split; try apply I; [done| |].
  - intros q s Hq. destruct (pi_table I q s Hq) as (? & ? & ? & ? & ? & f & ? & ? & ? & ? & Hs).
    split_and!; try done; [by apply Ha|]. exists f. split_and!; try done. split_and!; try done.
    intros Hd. eapply stores_trans, Hs, Hd. done.
  - intros q Hq. eapply stores_trans; [apply Hc|by apply (pi_uncached I)].
Qed.

(** ** Operations *)

Definition inv (b : BufferPool S) (gs : Guards) (L : Logical) : Prop :=
  pool_inv ∅ (frames b) (page_table b) (free_list b) (eviction b) (store b) gs L.

(** Fewer guards than a pin count can hold. *)
Definition few (gs : Guards) : Prop := Z.of_nat (length gs) < u32_max.

(** A frame written back: the page is clean and its logical contents are stored. *)
Lemma write_back fr tbl fl ev st gs L slot p f r st' :
  pool_inv ∅ fr tbl fl ev st gs L -> tbl !! p = Some slot -> fr !! Z.to_nat slot = Some f ->
  dirty f = true -> write_page st (pid f) (data f) = (r, st') ->
  pid f = p /\ pool_inv ∅ fr tbl fl ev st' gs L /\
  (r = Ok tt -> contents st' p = L p /\
     pool_inv ∅ (<[Z.to_nat slot := mark_clean f]> fr) tbl fl ev st' gs L).
Proof.
  intros I Hp Hf Hd Hw. destruct (pi_table I p slot Hp) as (Hr & HX & Hfl & Hal & Hev & g & Hg & Hpg & Hd1 & Hd2 & Hd3).
  assert (g = f) as -> by congruence. rewrite Hpg in Hw.
  destruct (write_law st p (data f) r st' (pi_store I) Hal (pi_logical I _ _ (Hd2 Hd)) Hw) as (Hsw & Hsa & Hsc & Hok).
  assert (Hsa' : forall q, allocated st q -> allocated st' q) by (intros q; apply Hsa).
  assert (Hpins : pin_count f = guard_count gs slot) by (apply (pi_pins I); [apply Hr|done]).
  split; [done|]. split.
  - rewrite <- (list_insert_id fr (Z.to_nat slot) f Hf).
    apply (inv_frame _ _ _ _ ev st gs L slot p); try done; [by apply ev_same_refl, (pi_clock I)|apply (pi_logical I)| |by left].
    split_and!; [done..|]. congruence.
  - intros ->. specialize (Hok eq_refl). split; [by rewrite Hok, Hd2|].
    apply (inv_frame _ _ _ _ ev st gs L slot p); try done; [by apply ev_same_refl, (pi_clock I)|apply (pi_logical I)| |by left].
    unfold frame_ok, mark_clean. cbn [data dirty]. rewrite Hd2 by done. split_and!; [done..|by left].
Qed.

Ltac pool_cbn :=
  cbn [frames page_table free_list eviction store dirty_count modified_pages set_frame set_table
       set_free set_eviction set_store set_dirty_count set_modified increment_dirty_count
       decrement_dirty_count track_modified_page].

Lemma pin_hit b gs L p slot :
  inv b gs L -> few gs -> lookup_page b p = Some slot ->
  exists d b', try_pin_frame b slot p = Some (Some d, b') /\ inv b' ((slot, p) :: gs) L /\
    exists f, frame_at b' slot = Some f /\ pid f = p /\ data f = default zeroed (L p).
Proof.
  intros I Hfew Hp. destruct (pi_table I p slot Hp) as (Hr & _ & _ & _ & _ & f & Hf & Hpf & Hok).
  unfold try_pin_frame, frame_at. rewrite Hf. cbn [mbind option_bind]. rewrite decide_True by done.
  eexists _, _. split; [reflexivity|]. split.
  - assert (Hpc : pin_count f = guard_count gs slot) by (apply (pi_pins I); [apply Hr|done]).
    apply (inv_frame ∅ (frames b) _ _ (eviction b) (store b) gs L slot p); try done.
    + apply access_same; [apply I|apply Hr].
    + apply I.
    + apply (pi_logical I).
    + rewrite guard_count_cons, decide_True by done. cbn [pin pin_count]. rewrite Hpc.
      pose proof (guard_count_nonneg gs slot). unfold few in Hfew. unfold saturating_add. lia.
    + intros s Hs. by rewrite guard_count_cons, decide_False by done.
    + intros g [->|?]%elem_of_cons; auto.
  - exists (pin f). pool_cbn.
    rewrite frame_lookup_insert, decide_True by (done || apply Hr). split_and!; [done..|apply Hok].
Qed.

(** Every frame is pinned by some guard. *)
Definition all_pinned (b : BufferPool S) (gs : Guards) : Prop :=
  forall slot, in_range (frames b) slot -> 0 < guard_count gs slot.

Lemma victim_spec b gs L :
  inv b gs L -> free_list b = [] ->
  exists r b', choose_victim b = Some (r, b') /\ inv b' gs L /\
    frames b' = frames b /\ page_table b' = page_table b /\ store b' = store b /\ free_list b' = [] /\
    (r = None <-> all_pinned b gs) /\
    forall slot, r = Some slot -> exists p f, page_table b !! p = Some slot /\
      frame_at b slot = Some f /\ guard_count gs slot = 0.
Proof.
  intros I Hfree. unfold choose_victim.
  destruct (find_victim_facts (eviction b) (slot_pinned b) (pi_clock I)) as (r & c & -> & Hw & Hsw & Hv & Hn).
  cbn [mbind option_bind]. eexists _, _. split; [reflexivity|].
  assert (Hpin : forall slot f, 0 <= slot -> frame_at b slot = Some f -> slot_pinned b 0 slot = (0 <? guard_count gs slot)).
  { intros slot f Hs Hf. unfold slot_pinned. rewrite Hf. unfold is_pinned.
    by rewrite (pi_pins I slot f Hs Hf). }
  assert (Hocc : forall slot, in_range (frames b) slot -> exists p, page_table b !! p = Some slot).
  { intros slot Hs. destruct (pi_cover I slot Hs) as [Hx|[Hx|?]]; [by apply elem_of_empty in Hx| |done].
    rewrite Hfree in Hx. by apply elem_of_nil in Hx. }
  split_and!; try done.
  - apply (inv_ring _ _ _ _ (eviction b)); [done|by apply swept_same].
  - rewrite Hn by done. split.
    + intros Hall slot Hs. destruct (Hocc slot Hs) as [p Hp].
      destruct (pi_table I p slot Hp) as (_ & _ & _ & _ & Hev & f & Hf & _).
      specialize (Hall slot). rewrite (pi_cap I), Hev in Hall. specialize (Hall Hs ltac:(eauto)).
      rewrite (Hpin slot f) in Hall by (apply Hs || done). lia.
    + intros Hall slot Hs _. rewrite (pi_cap I) in Hs. destruct (range_frame _ _ Hs) as [f Hf].
      rewrite (Hpin slot f) by (apply Hs || done). specialize (Hall slot Hs). lia.
  - intros slot Hs. destruct (Hv slot Hs) as (Hr & _ & [k Hk] & _). rewrite (pi_cap I) in Hr.
    destruct (Hocc slot Hr) as [p Hp]. destruct (range_frame _ _ Hr) as [f Hf]. exists p, f.
    split_and!; [done..|]. change (slot_pinned b k slot) with (slot_pinned b 0 slot) in Hk.
    rewrite (Hpin slot f) in Hk by (apply Hr || done). pose proof (guard_count_nonneg gs slot). lia.
Qed.

(** The pool after [pg] was put into [slot], with that slot seen as loose. *)
Definition placed (b' : BufferPool S) (gs : Guards) (L : Logical) (pg : Page) (slot : Z) : Prop :=
  exists fr tbl ev, pool_inv ({[slot]} ∪ ∅) fr tbl (free_list b') ev (store b') gs L /\
    frames b' = <[Z.to_nat slot := pin pg]> fr /\ page_table b' = <[pid pg := slot]> tbl /\
    tbl !! pid pg = None /\ eviction b' = ClockSweep.insert ev slot (pid pg).

Lemma take_victim_spec b gs L slot p f pg :
  inv b gs L -> page_table b !! p = Some slot -> frame_at b slot = Some f ->
  guard_count gs slot = 0 -> page_table b !! pid pg = None ->
  exists r b', take_victim b slot pg = Some (Done r, b') /\
    (forall q, allocated (store b) q -> allocated (store b') q) /\
    match r with
    | Ok s => s = slot /\ placed b' gs L pg slot
    | Err e => inv b' gs L /\ exists io, e = Io io
    end.
Proof.
  intros I Hp Hf Hg Hnew.
  destruct (pi_table I p slot Hp) as (Hr & _ & _ & Halp & _ & g & Hgf & Hpf & Hd1 & Hd2 & Hd3).
  assert (g = f) as -> by (unfold frame_at in Hf; congruence).
  assert (Hunp : is_pinned f = false).
  { unfold is_pinned. rewrite (pi_pins I slot f) by (apply Hr || done). lia. }
  assert (Hne : pid pg <> p) by congruence.
  unfold take_victim. rewrite Hf. cbn [mbind option_bind]. rewrite Hunp. unfold placed, inv in *.
  destruct (dirty f) eqn:Ed.
  - destruct (write_page (store b) (pid f) (data f)) as [r st'] eqn:Ew.
    destruct (write_back _ _ _ _ _ _ _ _ _ _ _ _ I Hp Hf Ed Ew) as (_ & I' & Hc). rewrite Hpf in Ew.
    destruct (write_law _ _ _ _ _ (pi_store I) Halp (pi_logical I _ _ (Hd2 eq_refl)) Ew) as (_ & Hsa & _).
    destruct r as [[]|e]; cycle 1.
    { eexists _, _. split; [reflexivity|]. split; [intros q; apply Hsa|]. split; [done|by eexists]. }
    destruct (Hc eq_refl) as [Hcp _]. eexists _, _. split; [reflexivity|]. split; [intros q; apply Hsa|].
    pool_cbn. rewrite Hpf, decide_True by done. split; [done|]. eexists _, _, _. split_and!; [|done..|by rewrite lookup_delete_ne|done].
    apply (inv_release ∅ _ _ _ _ st' gs L); try done. by left.
  - eexists _, _. split; [reflexivity|]. split; [done|]. pool_cbn. rewrite Hpf, decide_True by done. split; [done|].
    eexists _, _, _. split_and!; [|done..|by rewrite lookup_delete_ne|done].
    apply (inv_release ∅ _ _ _ _ (store b) gs L); try done. by apply Hd3.
Qed.

Lemma allocate_frame_placed b gs L pg :
  inv b gs L -> page_table b !! pid pg = None ->
  exists r b', allocate_frame b pg = Some (Done r, b') /\
    (forall q, allocated (store b) q -> allocated (store b') q) /\
    match r with Ok slot => placed b' gs L pg slot | Err e => inv b' gs L end /\
    (r = Err PoolExhausted <-> free_list b = [] /\ all_pinned b gs).
Proof.
  intros I Hnew. unfold allocate_frame. destruct (free_list b) as [|slot rest] eqn:Efree.
  - destruct (victim_spec b gs L I Efree) as (v & b1 & -> & I1 & Hfr & Htb & Hst & Hfree1 & Hn & Hv).
    cbn [mbind option_bind]. destruct v as [slot|].
    + destruct (Hv slot eq_refl) as (p & f & Hp & Hf & Hg).
      destruct (take_victim_spec b1 gs L slot p f pg) as (r & b2 & -> & Ha & Hr); try done.
      * by rewrite Htb.
      * unfold frame_at. by rewrite Hfr.
      * by rewrite Htb.
      * rewrite Hst in Ha. exists r, b2. split; [done|]. split; [done|]. destruct r as [s|e].
        -- destruct Hr as (-> & Hpl). split; [done|]. split; [done|]. by intros [_ ?%Hn].
        -- destruct Hr as [I2 [io ->]]. split; [done|]. split; [done|]. by intros [_ ?%Hn].
    + eexists _, _. split; [reflexivity|]. split; [by rewrite Hst|]. split; [done|]. split; [|done]. intros _.
      split; [done|by apply Hn].
  - assert (Hr : in_range (frames b) slot).
    { unfold inv in I. rewrite Efree in I. destruct (pi_free I slot) as [? _]; [left|done]. }
    destruct (range_frame _ _ Hr) as [f Hf]. unfold take_free, frame_at. rewrite Hf.
    cbn [mbind option_bind]. eexists _, _. split; [reflexivity|]. split; [done|]. split; [|by split; [|intros [? _]]].
    unfold placed, inv in *. rewrite Efree in I. pool_cbn. eexists _, _, _. split_and!; [|done..]. by apply inv_pop.
Qed.

(** A page as [fetch_page] and [new_page] make it: clean, unpinned, not cached. *)
Definition installable (b : BufferPool S) (L : Logical) (pg : Page) : Prop :=
  pin_count pg = 0 /\ dirty pg = false /\ page_table b !! pid pg = None /\
  allocated (store b) (pid pg) /\ data pg = default zeroed (L (pid pg)).

(** What a page request comes to. *)
Definition granted (b : BufferPool S) (gs : Guards) (L : Logical) (p : PageId) (slot : Z) : Prop :=
  inv b ((slot, p) :: gs) L /\
  exists f, frame_at b slot = Some f /\ pid f = p /\ data f = default zeroed (L p).

Lemma allocate_frame_spec b gs L pg :
  inv b gs L -> installable b L pg ->
  exists r b', allocate_frame b pg = Some (Done r, b') /\
    match r with
    | Ok slot => granted b' gs L (pid pg) slot
    | Err e => inv b' gs L
    end /\
    (r = Err PoolExhausted <-> free_list b = [] /\ all_pinned b gs).
Proof.
  intros I (Hpin & Hclean & Hnew & Hal & Hdata).
  destruct (allocate_frame_placed b gs L pg I Hnew) as (r & b' & Hrun & Ha & Hr & Hex). exists r, b'. split; [done|]. split; [|done].
  destruct r as [slot|e]; [|done]. destruct Hr as (fr & tbl & ev & I' & Hfr & Htb & Htn & Hev).
  assert (Hin : in_range fr slot) by (apply (pi_loose I'), elem_of_union_l, elem_of_singleton; done). split.
  - unfold inv. rewrite Hfr, Htb, Hev. apply inv_install; try done; [by apply Ha|].
    split_and!; [done|by rewrite Hclean|]. intros _. by apply (pi_uncached I').
  - exists (pin pg). unfold frame_at. rewrite Hfr. by rewrite frame_lookup_insert, decide_True by (done || apply Hin).
Qed.

Lemma read_inv b gs L p r st : inv b gs L -> read_page (store b) p = (r, st) -> inv (set_store b st) gs L.
Proof.
  intros I Er. destruct (read_law _ _ _ _ (pi_store I) Er) as (Hw & Hc & Ha & _).
  apply (inv_store _ _ _ _ _ (store b)); try done. intros q. by left.
Qed.

Lemma fetch_page_step b gs L p :
  inv b gs L -> few gs -> allocated (store b) p ->
  exists r b', fetch_page b p = Some (Done r, b') /\
    match r with Ok slot => granted b' gs L p slot | Err e => inv b' gs L end /\
    (r = Err PoolExhausted <->
       page_table b !! p = None /\ (exists d, fst (read_page (store b) p) = Ok d) /\
       free_list b = [] /\ all_pinned b gs).
Proof.
  intros I Hfew Hal. unfold fetch_page, try_hit. destruct (lookup_page b p) as [slot|] eqn:El.
  - destruct (pin_hit b gs L p slot I Hfew El) as (d & b1 & -> & I1 & Hf). cbn [mbind option_bind].
    eexists _, _. split; [reflexivity|]. split; [done|]. split; [done|].
    intros [Hno _]. unfold lookup_page in El. congruence.
  - destruct (read_page (store b) p) as [r0 st] eqn:Er. pose proof (read_inv _ _ _ _ _ _ I Er) as I'.
    destruct (read_law _ _ _ _ (pi_store I) Er) as (_ & _ & Ha & Hd).
    destruct r0 as [d|e]; cycle 1.
    { eexists _, _. split; [reflexivity|]. split; [done|]. split; [done|]. intros (_ & [? ?] & _). done. }
    destruct (allocate_frame_spec (set_store b st) gs L (with_data p d)) as (r & b' & -> & Hr & Hex); [done| |].
    { split_and!; try done; [by apply Ha|]. cbn [with_data data pid]. rewrite (Hd d eq_refl).
      by apply stores_default, (pi_uncached I). }
    exists r, b'. split; [done|]. split; [by destruct r|]. rewrite Hex. unfold lookup_page in El.
    split; [intros [? ?]; split_and!; eauto|]. intros (_ & _ & ? & ?). done.
Qed.

Lemma new_page_step b gs L rel :
  inv b gs L -> room (store b) rel ->
  exists r b', new_page b rel = Some (Done r, b') /\
    match r with
    | Ok slot => exists p, relation_id p = rel /\ L p = None /\ page_table b !! p = None /\
        granted b' gs L p slot
    | Err e => inv b' gs L
    end.
Proof.
  intros I Hroom. unfold new_page. destruct (allocate_page (store b) rel) as [[p|e] st] eqn:Ea.
  - destruct (allocate_law _ _ _ _ (pi_store I) Hroom Ea) as (Hw & Hc & Ha & Hp).
    destruct (Hp p eq_refl) as (Hrel & Hna & Hap & Hcp).
    assert (Hnt : page_table b !! p = None).
    { destruct (page_table b !! p) as [slot|] eqn:E; [|done]. exfalso.
      destruct (pi_table I p slot E) as (_ & _ & _ & ? & _). done. }
    assert (HL : L p = None) by (destruct (pi_uncached I p Hnt) as [E|[E _]]; congruence).
    destruct (allocate_frame_spec (set_store b st) gs L (new_page_frame p)) as (r & b' & -> & Hr & _).
    + by apply (inv_store _ _ _ _ _ (store b)).
    + split_and!; try done. cbn [new_page_frame data pid]. by rewrite HL.
    + exists r, b'. split; [done|]. destruct r; [|done]. by exists p.
  - destruct (allocate_law _ _ _ _ (pi_store I) Hroom Ea) as (Hw & Hc & Ha & _).
    eexists _, _. split; [reflexivity|]. by apply (inv_store _ _ _ _ _ (store b)).
Qed.

Definition upd {A} (L : PageId -> A) (p : PageId) (d : A) : PageId -> A :=
  fun q => if decide (q = p) then d else L q.

Lemma upd_ne {A} (L : PageId -> A) p d q : q <> p -> upd L p d q = L q.
Proof. intros. unfold upd. by rewrite decide_False. Qed.

Lemma upd_eq {A} (L : PageId -> A) p d : upd L p d p = d.
Proof. unfold upd. by rewrite decide_True. Qed.

Lemma guard_write_step b gs L slot p d :
  inv b gs L -> (slot, p) ∈ gs -> is_page d ->
  exists b', guard_write b slot d = Some b' /\ inv b' gs (upd L p (Some d)).
Proof.
  intros I Hg Hpd. pose proof (pi_guards I _ Hg) as Hp. cbn [fst snd] in Hp.
  destruct (pi_table I p slot Hp) as (Hr & _ & _ & _ & _ & f & Hf & Hpf & _).
  unfold guard_write, frame_at. rewrite Hf. cbn [mbind option_bind]. eexists. split; [reflexivity|].
  apply (inv_frame ∅ (frames b) _ _ (eviction b) (store b) gs L slot p); try done.
  - by apply ev_same_refl, (pi_clock I).
  - apply I.
  - intros q Hq. by apply upd_ne.
  - rewrite upd_eq. by intros ? [= <-].
  - rewrite upd_eq. by split_and!.
  - cbn [data_mut pin_count]. apply (pi_pins I); [apply Hr|done].
  - by left.
Qed.

Lemma drop_guard_step b gs1 gs2 L slot p :
  inv b (gs1 ++ (slot, p) :: gs2) L ->
  exists b', drop_guard b slot = Some b' /\ inv b' (gs1 ++ gs2) L.
Proof.
  intros I. assert (Hg : (slot, p) ∈ gs1 ++ (slot, p) :: gs2) by (apply elem_of_app; right; left).
  pose proof (pi_guards I _ Hg) as Hp. cbn [fst snd] in Hp.
  destruct (pi_table I p slot Hp) as (Hr & _ & _ & _ & _ & f & Hf & Hpf & Hok).
  assert (Hpc : pin_count f = guard_count (gs1 ++ (slot, p) :: gs2) slot) by (apply (pi_pins I); [apply Hr|done]).
  rewrite guard_count_app, guard_count_cons, decide_True in Hpc by done.
  pose proof (guard_count_nonneg gs1 slot). pose proof (guard_count_nonneg gs2 slot).
  unfold drop_guard, unpin_frame, frame_at. rewrite Hf. cbn [mbind option_bind].
  destruct (claim_dirty_transition f) as [counted f1] eqn:Ec.
  assert (Hf1 : pid f1 = pid f /\ data f1 = data f /\ dirty f1 = dirty f /\ pin_count f1 = pin_count f).
  { unfold claim_dirty_transition in Ec. destruct (_ && _); by simplify_eq. }
  destruct Hf1 as (Hi & Hdt & Hdy & Hpn).
  assert (Hfinal : pool_inv ∅ (<[Z.to_nat slot := unpin f1]> (<[Z.to_nat slot := f1]> (frames b)))
    (page_table b) (free_list b) (eviction b) (store b) (gs1 ++ gs2) L).
  { rewrite list_insert_insert_eq. eapply (inv_frame ∅ (frames b) _ _ (eviction b) (store b) _ L slot p); try done.
    - cbn [unpin pid]. congruence.
    - by apply ev_same_refl, (pi_clock I).
    - apply I.
    - apply (pi_logical I).
    - unfold frame_ok, unpin. cbn [data dirty]. by rewrite Hdt, Hdy.
    - cbn [unpin pin_count]. rewrite Hpn, Hpc, guard_count_app. unfold saturating_sub. lia.
    - intros s Hs. rewrite !guard_count_app, guard_count_cons, decide_False by done. lia.
    - intros g Hin. left. rewrite elem_of_app in *. destruct Hin; [by left|right; by right]. }
  assert (Hlk : <[Z.to_nat slot := f1]> (frames b) !! Z.to_nat slot = Some f1)
    by (rewrite frame_lookup_insert, decide_True by (done || apply Hr); done).
  destruct (dirty f1), counted; cbv zeta; pool_cbn; rewrite Hlk; cbn [mbind option_bind];
    (eexists; split; [reflexivity|]; unfold inv; pool_cbn; exact Hfinal).
Qed.

(** ** Flushing *)

Lemma flush_one_step b gs L p :
  inv b gs L ->
  exists r b', flush_one b p = Some (r, b') /\ inv b' gs L /\ page_table b' = page_table b /\
    (forall q, q <> p -> contents (store b') q = contents (store b) q) /\
    ((exists w, r = Ok w) -> stores (contents (store b') p) (L p)).
Proof.
  intros I. unfold flush_one. destruct (lookup_page b p) as [slot|] eqn:El; cycle 1.
  { eexists _, _. split; [reflexivity|]. split_and!; try done. intros _. by apply (pi_uncached I). }
  unfold lookup_page in El.
  destruct (pi_table I p slot El) as (Hr & _ & _ & Hal & _ & f & Hf & Hpf & Hd1 & Hd2 & Hd3).
  unfold frame_at. rewrite Hf. cbn [mbind option_bind]. rewrite decide_False by tauto.
  destruct (dirty f) eqn:Ed; cbn [negb]; cycle 1.
  { eexists _, _. split; [reflexivity|]. split_and!; try done. intros _. by apply Hd3. }
  destruct (write_page (store b) (pid f) (data f)) as [r st'] eqn:Ew.
  destruct (write_back _ _ _ _ _ _ _ _ _ _ _ _ I El Hf Ed Ew) as (_ & I' & Hok). rewrite Hpf in Ew.
  destruct (write_law _ _ _ _ _ (pi_store I) Hal (pi_logical I _ _ (Hd2 eq_refl)) Ew) as (_ & _ & Hsc & _).
  destruct r as [[]|e].
  - destruct (Hok eq_refl) as [Hc I'']. eexists _, _. split; [reflexivity|]. split_and!; try done. by left.
  - eexists _, _. split; [reflexivity|]. split_and!; try done. by intros [? ?].
Qed.

Lemma flush_loop_step full ids n b gs L :
  inv b gs L ->
  exists r b', flush_loop full ids n b = Some (r, b') /\ inv b' gs L /\ page_table b' = page_table b /\
    ((forall k, full k = false) -> (exists k, r = Ok k) ->
     forall q, q ∈ ids \/ stores (contents (store b) q) (L q) -> stores (contents (store b') q) (L q)).
Proof.
  revert n b. induction ids as [|p ids IH]; intros n b I; cbn [flush_loop].
  { eexists _, _. split; [reflexivity|]. split_and!; try done.
    intros _ _ q [Hq|?]; [by apply elem_of_nil in Hq|done]. }
  destruct (full n) eqn:Ef.
  { eexists _, _. split; [reflexivity|]. split_and!; try done. intros Hno. by rewrite Hno in Ef. }
  destruct (flush_one_step b gs L p I) as (r & b1 & -> & I1 & Ht & Hc & Hok). cbn [mbind option_bind].
  destruct r as [w|e]; cycle 1.
  { eexists _, _. split; [reflexivity|]. split_and!; try done. by intros _ [? ?]. }
  destruct (IH (if (w : bool) then n + 1 else n) b1 I1) as (r & b2 & -> & I2 & Ht2 & Hc2).
  exists r, b2. split_and!; [done|done|congruence|]. intros Hfull Hr q Hq. apply Hc2; [done..|].
  destruct (decide (q = p)) as [->|Hne]; [right; apply Hok; by eexists|].
  destruct Hq as [[?|?]%elem_of_cons|?]; [done|by left|]. right. by rewrite Hc.
Qed.

Lemma elem_of_table_keys (b : BufferPool S) p : p ∈ table_keys b <-> is_Some (page_table b !! p).
Proof.
  unfold table_keys. rewrite list_elem_of_fmap. split.
  - intros ([q s] & -> & Hin%elem_of_map_to_list). by eexists.
  - intros [s Hs]. exists (p, s). by rewrite elem_of_map_to_list.
Qed.

Lemma flush_all_step b gs L :
  inv b gs L ->
  exists r b', flush_all b = Some (r, b') /\ inv b' gs L /\ page_table b' = page_table b /\
    ((exists k, r = Ok k) -> forall q, stores (contents (store b') q) (L q)).
Proof.
  intros I. destruct (flush_loop_step (fun _ => false) (table_keys b) 0 b gs L I)
    as (r & b' & Hrun & I' & Ht & Hc).
  exists r, b'. split_and!; try done. intros Hr q. apply Hc; try done. rewrite elem_of_table_keys.
  destruct (page_table b !! q) as [s|] eqn:E; [left; by eexists|right; by apply (pi_uncached I)].
Qed.

(** ** Resetting a relation *)

(** Proofs follow a reset with the contents the pool would now serve: those of the store
    for pages of the relation that are no longer cached.  No statement about runs uses
    this. *)
Definition relog (st : S) (tbl : gmap PageId Z) (rel : Z) (L : Logical) : Logical :=
  fun q => if decide (relation_id q = rel /\ tbl !! q = None) then contents st q else L q.

Lemma inv_ext X fr tbl fl ev st gs L L' :
  (forall q, L' q = L q) -> pool_inv X fr tbl fl ev st gs L -> pool_inv X fr tbl fl ev st gs L'.
Proof.
  intros HL I. split; try apply I.
  - intros q s Hq. rewrite HL. by apply (pi_table I).
  - intros q Hq. rewrite HL. by apply (pi_uncached I).
  - intros q d. rewrite HL. apply (pi_logical I).
Qed.

Lemma relog_page st tbl rel L p d :
  store_wf st -> (forall q d, L q = Some d -> is_page d) -> relog st tbl rel L p = Some d -> is_page d.
Proof. intros Hw HL. unfold relog. case_decide; [by apply contents_page|apply HL]. Qed.

Lemma relog_start b gs L rel : inv b gs L -> inv b gs (relog (store b) (page_table b) rel L).
Proof.
  intros I. split; try apply I.
  - intros q s Hq. unfold relog. rewrite decide_False by (intros [_ E]; congruence). by apply (pi_table I).
  - intros q Hq. unfold relog. case_decide; [by left|by apply (pi_uncached I)].
  - intros q d. apply relog_page; apply I.
Qed.

Lemma reset_one_step b gs L rel p :
  relation_id p = rel -> inv b gs (relog (store b) (page_table b) rel L) ->
  exists r b', reset_one b p = Some (r, b') /\ store b' = store b /\
    inv b' gs (relog (store b) (page_table b') rel L) /\
    (r = Ok tt -> page_table b' = delete p (page_table b)) /\
    (r = Ok tt \/ r = Err PoolExhausted /\ b' = b).
Proof.
  intros Hrel I. unfold reset_one. destruct (lookup_page b p) as [slot|] eqn:El; cycle 1.
  { eexists _, _. split; [reflexivity|]. unfold lookup_page in El. split_and!; try done; [|by left].
    intros _. by rewrite delete_id. }
  unfold lookup_page in El. destruct (pi_table I p slot El) as (Hr & _ & _ & _ & _ & f & Hf & Hpf & _).
  unfold frame_at. rewrite Hf. cbn [mbind option_bind]. rewrite decide_False by tauto.
  destruct (is_pinned f) eqn:Epin.
  { eexists _, _. split; [reflexivity|]. split_and!; try done. by right. }
  assert (Hg : guard_count gs slot = 0).
  { unfold is_pinned in Epin. rewrite (pi_pins I slot f) in Epin by (apply Hr || done).
    pose proof (guard_count_nonneg gs slot). lia. }
  assert (I' : pool_inv ∅ (<[Z.to_nat slot := new_page_frame (mkPageId 0 slot)]> (frames b))
    (delete p (page_table b)) (slot :: free_list b) (ClockSweep.remove (eviction b) slot) (store b) gs
    (relog (store b) (delete p (page_table b)) rel L)).
  { apply inv_push; [|apply not_elem_of_empty|done].
    apply (inv_release ∅ _ _ _ _ _ _ (relog (store b) (page_table b) rel L)); try done.
    - intros q Hq. unfold relog. by rewrite lookup_delete_ne.
    - unfold relog. rewrite decide_True; [by left|]. split; [done|apply lookup_delete_eq]. }
  eexists _, _. split; [reflexivity|].
  destruct (dirty f); pool_cbn; rewrite decide_True by done; (split_and!; [done|exact I'|done|by left]).
Qed.

Lemma reset_loop_step ids b gs L rel :
  Forall (fun p => relation_id p = rel) ids -> inv b gs (relog (store b) (page_table b) rel L) ->
  exists r b', reset_loop ids b = Some (r, b') /\ store b' = store b /\
    inv b' gs (relog (store b) (page_table b') rel L) /\
    (r = Ok tt -> forall q, page_table b' !! q = if decide (q ∈ ids) then None else page_table b !! q).
Proof.
  intros Hids. revert b. induction Hids as [|p ids Hp _ IH]; intros b I; cbn [reset_loop].
  { eexists _, _. split; [reflexivity|]. split_and!; try done. }
  destruct (reset_one_step b gs L rel p Hp I) as (r & b1 & -> & Hst & I1 & Htb & Hcase).
  cbn [mbind option_bind]. destruct Hcase as [->|[-> ->]]; cycle 1.
  { eexists _, _. split; [reflexivity|]. by split_and!. }
  rewrite <- Hst in I1. destruct (IH b1 I1) as (r & b2 & -> & Hst2 & I2 & Ht2).
  exists r, b2. split_and!; [done|congruence|by rewrite <- Hst|]. intros Hr q.
  rewrite Ht2 by done. rewrite Htb by done. destruct (decide (q = p)) as [->|Hne].
  - rewrite lookup_delete_eq, (decide_True (P := p ∈ p :: ids)) by left. by case_decide.
  - rewrite lookup_delete_ne by done. destruct (decide (q ∈ ids)).
    + by rewrite decide_True by (by right).
    + rewrite decide_False; [done|]. by apply not_elem_of_cons.
Qed.

Lemma reset_relation_step b gs L rel :
  inv b gs L ->
  exists r b', reset_relation b rel = Some (r, b') /\
    inv b' gs (relog (store b') (page_table b') rel L) /\
    (r = Ok tt -> forall q, relation_id q = rel -> relog (store b') (page_table b') rel L q = None).
Proof.
  intros I. unfold reset_relation.
  destruct (reset_loop_step (relation_keys b rel) b gs L rel) as (r & b1 & -> & Hst & I1 & Ht).
  { apply Forall_forall. intros p [? _]%list_elem_of_filter. done. }
  { by apply relog_start. }
  cbn [mbind option_bind]. rewrite <- Hst in I1. destruct r as [[]|e]; cycle 1.
  { eexists _, _. split; [reflexivity|]. by split. }
  assert (Hnone : forall q, relation_id q = rel -> page_table b1 !! q = None).
  { intros q Hq. rewrite Ht by done. case_decide as Hin; [done|].
    destruct (page_table b !! q) as [s|] eqn:E; [|done]. exfalso. apply Hin.
    apply list_elem_of_filter. split; [done|]. apply elem_of_table_keys. by eexists. }
  destruct (store_reset_relation (store b1) rel) as [r st] eqn:Er.
  destruct (reset_law _ _ _ _ (pi_store I1) Er) as (Hw & Hc & Ha & Hok).
  assert (I2 : pool_inv ∅ (frames b1) (page_table b1) (free_list b1) (eviction b1) st gs
    (relog st (page_table b1) rel L)).
  { split; try apply I1; [done| | |by intros q d; apply relog_page; [|apply I]].
    - intros q s Hq. assert (Hne : relation_id q <> rel) by (intros E; by rewrite Hnone in Hq).
      destruct (pi_table I1 q s Hq) as (? & ? & ? & ? & ? & f & ? & ? & Hfo).
      split_and!; try done; [by apply Ha|]. exists f. split_and!; try done.
      unfold relog in *. rewrite decide_False in * by tauto. by rewrite Hc.
    - intros q Hq. unfold relog. case_decide as E; [by left|].
      assert (Hne : relation_id q <> rel) by tauto. rewrite Hc by done.
      pose proof (pi_uncached I1 q Hq) as Hu. unfold relog in Hu. by rewrite decide_False in Hu by tauto. }
  destruct r as [[]|e]; (eexists _, _; split; [reflexivity|]); pool_cbn; split; try done.
  intros _ q Hq. unfold relog. rewrite decide_True by (split; [done|by apply Hnone]). by apply Hok.
Qed.

(** ** Runs *)

(** The pool, the guards that are out, and what clients know: the contents last written to
    each page, [None] for a page that is new or was reset; and the pages whose contents a
    failed reset has left open. *)
Record PoolSys : Type := mkSys { pool : BufferPool S; guards : Guards; logical : Logical; doubt : PageId -> bool }.

Definition guarded (gs : Guards) (q : PageId) : bool := bool_decide (q ∈ gs.*2).

(** Clients call the pool's methods one at a time, write through guards they hold, and
    drop them.  They fetch pages that have been allocated, and hold fewer guards than
    a pin count can count.  The contents and the doubts change as the calls promise: a
    write is what its page holds, a new page is empty, a reset relation has empty pages
    only.  A reset that fails may have dropped pages of the relation, but none that a
    guard holds. *)
Inductive pool_step : PoolSys -> PoolSys -> Prop :=
| step_fetch b gs L D p slot b' :
    few gs -> allocated (store b) p -> fetch_page b p = Some (Done (Ok slot), b') ->
    pool_step (mkSys b gs L D) (mkSys b' ((slot, p) :: gs) L D)
| step_fetch_err b gs L D p e b' :
    few gs -> allocated (store b) p -> fetch_page b p = Some (Done (Err e), b') ->
    pool_step (mkSys b gs L D) (mkSys b' gs L D)
| step_new b gs L D rel slot f b' :
    room (store b) rel -> new_page b rel = Some (Done (Ok slot), b') -> frame_at b' slot = Some f ->
    pool_step (mkSys b gs L D) (mkSys b' ((slot, pid f) :: gs) (upd L (pid f) None) (upd D (pid f) false))
| step_new_err b gs L D rel e b' :
    room (store b) rel -> new_page b rel = Some (Done (Err e), b') ->
    pool_step (mkSys b gs L D) (mkSys b' gs L D)
| step_write b gs L D slot p d b' :
    (slot, p) ∈ gs -> is_page d -> guard_write b slot d = Some b' ->
    pool_step (mkSys b gs L D) (mkSys b' gs (upd L p (Some d)) (upd D p false))
| step_drop b gs1 gs2 L D slot p b' :
    drop_guard b slot = Some b' ->
    pool_step (mkSys b (gs1 ++ (slot, p) :: gs2) L D) (mkSys b' (gs1 ++ gs2) L D)
| step_flush_page b gs L D p r b' :
    flush_page b p = Some (r, b') -> pool_step (mkSys b gs L D) (mkSys b' gs L D)
| step_flush_some b gs L D limit r b' :
    flush_some b limit = Some (r, b') -> pool_step (mkSys b gs L D) (mkSys b' gs L D)
| step_flush_all_and_sync b gs L D r b' :
    flush_all_and_sync b = Some (r, b') -> pool_step (mkSys b gs L D) (mkSys b' gs L D)
| step_reset b gs L D rel b' :
    reset_relation b rel = Some (Ok tt, b') ->
    pool_step (mkSys b gs L D)
      (mkSys b' gs (fun q => if relation_id q =? rel then None else L q) (fun q => if relation_id q =? rel then false else D q))
| step_reset_err b gs L D rel e b' :
    reset_relation b rel = Some (Err e, b') ->
    pool_step (mkSys b gs L D) (mkSys b' gs L (fun q => D q || (relation_id q =? rel) && negb (guarded gs q)))
| step_snapshot b gs L D rel r b' :
    snapshot_modified_relation_pages b rel = Some (r, b') -> pool_step (mkSys b gs L D) (mkSys b' gs L D)
| step_clear_modified b gs L D rel nums :
    pool_step (mkSys b gs L D) (mkSys (clear_modified_relation_pages b rel nums) gs L D)
| step_clear_all b gs L D : pool_step (mkSys b gs L D) (mkSys (clear_all_modified_pages b) gs L D).

(** Where there is no doubt, the pool serves the logical contents. *)
Definition sys_inv (s : PoolSys) : Prop :=
  exists L, inv (pool s) (guards s) L /\ forall q, doubt s q = false -> logical s q = L q.

Lemma sync_step b gs L r b' : inv b gs L -> sync b = (r, b') ->
  inv b' gs L /\ forall q, contents (store b') q = contents (store b) q.
Proof.
  intros I. unfold sync. destruct (store_sync (store b)) as [[[]|e] st] eqn:Es; intros [= <- <-];
    destruct (sync_law _ _ _ (pi_store I) Es) as (Hw & Hc & Ha);
    (split; [apply (inv_store _ _ _ _ _ (store b)); try done; intros q; by left|done]).
Qed.

Lemma snapshot_inv b gs L rel r b' : inv b gs L -> snapshot_modified_relation_pages b rel = Some (r, b') -> inv b' gs L.
Proof.
  unfold snapshot_modified_relation_pages. generalize (modified_numbers b rel) as nums. intros nums I.
  revert b I r. induction nums as [|n nums IH]; intros b I r; cbn [snapshot_loop]; [by intros [= _ <-]|].
  intros (c & _ & Hrun)%bind_Some. destruct c as [d|].
  - apply bind_Some in Hrun as ([r1 b1] & Hl & [= _ <-]). by eapply IH.
  - destruct (read_page (store b) (mkPageId rel n)) as [[d|e] st] eqn:Er; pose proof (read_inv _ _ _ _ _ _ I Er) as I'.
    + apply bind_Some in Hrun as ([r1 b1] & Hl & [= _ <-]). by eapply IH.
    + destruct e; try (by injection Hrun as _ <-). by eapply IH.
Qed.

Lemma clear_modified_inv b gs L rel nums :
  inv b gs L -> inv (clear_modified_relation_pages b rel nums) gs L.
Proof.
  intros I. unfold clear_modified_relation_pages. case_bool_decide; [done|].
  by destruct (modified_pages b !! rel).
Qed.

Lemma flush_all_and_sync_step b gs L :
  inv b gs L ->
  exists r b', flush_all_and_sync b = Some (r, b') /\ inv b' gs L /\
    ((exists k, r = Ok k) -> forall q, stores (contents (store b') q) (L q)).
Proof.
  intros I. unfold flush_all_and_sync.
  destruct (flush_all_step b gs L I) as (r & b1 & -> & I1 & _ & Hc). cbn [mbind option_bind].
  destruct r as [k|e]; [|eexists _, _; split; [reflexivity|]; split; [done|by intros [? ?]]].
  destruct (sync b1) as [r2 b2] eqn:Es. destruct (sync_step b1 gs L r2 b2 I1 Es) as [I2 Hc2].
  eexists _, _. split; [reflexivity|]. split; [done|]. intros _ q. rewrite Hc2. apply Hc. by eexists.
Qed.

(** The contents the pool serves, through the resets. *)
Lemma reset_served b gs L rel r b' :
  inv b gs L -> reset_relation b rel = Some (r, b') ->
  exists L', inv b' gs L' /\ (forall q, relation_id q <> rel \/ guarded gs q = true -> r <> Ok tt \/ relation_id q <> rel -> L' q = L q) /\
    (r = Ok tt -> forall q, relation_id q = rel -> L' q = None).
Proof.
  intros I Hrun. destruct (reset_relation_step b gs L rel I) as (r1 & b1 & Hr & I' & Hnone). simplify_eq.
  eexists. split; [exact I'|]. split; [|done]. intros q Hq _. unfold relog. rewrite decide_False; [done|].
  intros [E Ht]. destruct Hq as [|Hq]; [done|]. unfold guarded in Hq. apply bool_decide_eq_true in Hq.
  apply list_elem_of_fmap in Hq as ([slot q'] & Eq & Hg). cbn [snd] in Eq. subst q'.
  pose proof (pi_guards I' _ Hg) as Hs. cbn [fst snd] in Hs. congruence.
Qed.

Lemma pool_step_inv s s' : pool_step s s' -> sys_inv s -> sys_inv s'.
Proof.
  intros Hstep (M & I & HM). unfold sys_inv.
  destruct Hstep as [b gs L D p slot b' Hfew Hal Hrun|b gs L D p e b' Hfew Hal Hrun|b gs L D rel slot f b' Hroom Hrun Hf
    |b gs L D rel e b' Hroom Hrun|b gs L D slot p d b' Hg Hpd Hrun|b gs1 gs2 L D slot p b' Hrun|b gs L D p r b' Hrun
    |b gs L D limit r b' Hrun|b gs L D r b' Hrun|b gs L D rel b' Hrun|b gs L D rel e b' Hrun|b gs L D rel r b' Hrun
    |b gs L D rel nums|b gs L D];
    cbn [pool guards logical doubt] in *.
  - exists M. split; [|done]. destruct (fetch_page_step b gs M p I Hfew Hal) as (r & b1 & Hr & Hok & _). simplify_eq. apply Hok.
  - exists M. split; [|done]. destruct (fetch_page_step b gs M p I Hfew Hal) as (r & b1 & Hr & Hok & _). by simplify_eq.
  - exists M. destruct (new_page_step b gs M rel I Hroom) as (r & b1 & Hr & Hok). simplify_eq.
    destruct Hok as (p & _ & HMp & _ & I' & f' & Hf' & Hpf & _). assert (f' = f) as -> by congruence. rewrite Hpf.
    split; [done|]. intros q. unfold upd. case_decide as E; [by subst q|apply HM].
  - exists M. split; [|done]. destruct (new_page_step b gs M rel I Hroom) as (r & b1 & Hr & Hok). by simplify_eq.
  - exists (upd M p (Some d)). destruct (guard_write_step b gs M slot p d I Hg Hpd) as (b1 & Hr & I'). simplify_eq.
    split; [done|]. intros q. unfold upd. case_decide; [done|apply HM].
  - exists M. split; [|done]. destruct (drop_guard_step b gs1 gs2 M slot p I) as (b1 & Hr & I'). by simplify_eq.
  - exists M. split; [|done]. unfold flush_page in Hrun. destruct (flush_one_step b gs M p I) as (r1 & b1 & Hr & I' & _).
    rewrite Hr in Hrun. by simplify_eq/=.
  - exists M. split; [|done]. unfold flush_some in Hrun. case_match; [by simplify_eq|].
    destruct (flush_loop_step (fun n => limit <=? n) (table_keys b) 0 b gs M I) as (r1 & b1 & Hr & I' & _).
    by simplify_eq.
  - exists M. split; [|done]. destruct (flush_all_and_sync_step b gs M I) as (r1 & b1 & Hr & I' & _). by simplify_eq.
  - destruct (reset_served b gs M rel (Ok tt) b' I Hrun) as (M' & I' & Hsame & Hnone). exists M'. split; [done|].
    intros q. destruct (Z.eqb_spec (relation_id q) rel) as [E|E]; [intros _; by rewrite Hnone|].
    intros Hd. rewrite Hsame by auto. by apply HM.
  - destruct (reset_served b gs M rel (Err e) b' I Hrun) as (M' & I' & Hsame & _). exists M'. split; [done|].
    intros q [Hd Hq]%orb_false_iff. rewrite Hsame; [by apply HM| |by left].
    apply andb_false_iff in Hq as [Hq|Hq]; [left; lia|right; by apply negb_false_iff].
  - exists M. split; [|done]. by eapply snapshot_inv.
  - exists M. split; [|done]. by apply clear_modified_inv.
  - by exists M.
Qed.

Lemma new_pool_inv cap st b : store_wf st -> new_pool cap st = Some b -> inv b [] (contents st).
Proof.
  unfold new_pool. intros Hw Hn. destruct (Z.leb_spec cap 0); [done|]. injection Hn as <-.
  assert (Hcap : Z.of_nat (length (replicate (Z.to_nat cap) (new_page_frame (mkPageId 0 0)))) = cap)
    by (rewrite length_replicate; lia).
  assert (Hpid : forall slot, page_id_at (ClockSweep.new cap) slot = None).
  { intros slot. unfold page_id_at, ClockSweep.new. cbn [entries].
    destruct (replicate _ _ !! _) as [e|] eqn:E; [|done]. by apply lookup_replicate in E as [-> _]. }
  split; pool_cbn; try done.
  - apply new_wf.
  - unfold capacity, ClockSweep.new. cbn [entries]. by rewrite !length_replicate.
  - intros p _. by left.
  - intros p d. by apply contents_page.
  - apply NoDup_seqZ.
  - intros slot Hs%elem_of_seqZ. unfold in_range. rewrite Hcap. split_and!; [lia..|done|done].
  - unfold in_range. rewrite Hcap. intros slot Hs. right. left. apply elem_of_seqZ. lia.
  - intros g Hg. by apply elem_of_nil in Hg.
  - intros slot f Hs Hf. by apply lookup_replicate in Hf as [-> _].
Qed.

(** A system started on a store. *)
Definition started (cap : Z) (st : S) (s : PoolSys) : Prop :=
  store_wf st /\ guards s = [] /\ (forall q, logical s q = contents st q) /\ (forall q, doubt s q = false) /\
  new_pool cap st = Some (pool s).

Lemma reachable_sys_inv cap st s0 s : started cap st s0 -> rtc pool_step s0 s -> sys_inv s.
Proof.
  intros (Hw & Hg & HL & _ & Hn) Hr. assert (H0' : sys_inv s0).
  { exists (contents st). rewrite Hg. split; [by apply (new_pool_inv cap)|done]. }
  revert H0'. clear Hw Hg HL Hn. induction Hr as [|x y z Hxy _ IH]; [done|].
  intros Hi. by apply IH, (pool_step_inv x).
Qed.

(** [C39] The buffer pool is a transparent cache.  Take any run of fetches, page
    creations, writes through guards, guard drops, flushes, relation resets and I/O
    failures.  A fetch of an allocated page then neither panics nor retries; it
    reports an exhausted pool exactly when the page is not cached, can be read, no frame
    is free and every frame is held by a guard; and when it succeeds, the slot it returns
    holds that page, with the contents last written to it (zeros if it is new or was reset
    since), wherever they were kept in between.  Every guard still out refers to the page
    it was given for, with those contents.  The contents are promised unless a reset of
    the page's relation has failed while no guard held the page, and neither a write nor
    a reset has followed: such a reset loses writes ([failed_reset_loses_write]). *)
Theorem pool_transparent (cap : Z) (st : S) (s0 s : PoolSys) (p : PageId) :
  started cap st s0 -> rtc pool_step s0 s -> few (guards s) -> allocated (store (pool s)) p ->
  (exists r b', fetch_page (pool s) p = Some (Done r, b') /\
     (forall slot, r = Ok slot -> exists f, frame_at b' slot = Some f /\ pid f = p /\
        (doubt s p = false -> data f = default zeroed (logical s p))) /\
     (r = Err PoolExhausted <->
        page_table (pool s) !! p = None /\ (exists d, fst (read_page (store (pool s)) p) = Ok d) /\
        free_list (pool s) = [] /\ all_pinned (pool s) (guards s))) /\
  (forall slot q, (slot, q) ∈ guards s -> exists f, frame_at (pool s) slot = Some f /\
     pid f = q /\ (doubt s q = false -> data f = default zeroed (logical s q)) /\ is_pinned f = true).
Proof.
  intros Hst Hrun Hfew Hal. destruct (reachable_sys_inv cap st s0 s Hst Hrun) as (M & I & HM). split.
  - destruct (fetch_page_step (pool s) (guards s) M p I Hfew Hal) as (r & b' & Hr & Hok & Hex).
    exists r, b'. split_and!; [done| |done]. intros slot ->. destruct Hok as [_ (f & Hf & Hpf & Hd)].
    exists f. split_and!; try done. intros Hq. by rewrite HM.
  - intros slot q Hg. pose proof (pi_guards I _ Hg) as Hq. cbn [fst snd] in Hq.
    destruct (pi_table I q slot Hq) as (Hr & _ & _ & _ & _ & f & Hf & Hpf & Hd & _).
    exists f. split_and!; try done; [intros E; by rewrite HM|]. unfold is_pinned. rewrite (pi_pins I slot f) by (apply Hr || done).
    apply Z.ltb_lt, Z.le_neq. split; [apply guard_count_nonneg|]. intros Hz. symmetry in Hz.
    by apply (proj1 (guard_count_zero _ _) Hz q).
Qed.

(** [C40] Flushing is durable: after any run, when [flush_all_and_sync] succeeds, the
    store holds the contents last written to every page of every relation, whether the
    page was cached, evicted earlier, or never loaded, the pages that a failed reset has
    left open excepted.  The flush is a step of the run that changes neither the contents
    nor the doubts, so that later fetches see what they would have seen. *)
Theorem flush_durable (cap : Z) (st : S) (s0 s : PoolSys) :
  started cap st s0 -> rtc pool_step s0 s ->
  exists r b', flush_all_and_sync (pool s) = Some (r, b') /\
    pool_step s (mkSys b' (guards s) (logical s) (doubt s)) /\
    ((exists k, r = Ok k) -> forall q, doubt s q = false -> stores (contents (store b') q) (logical s q)).
Proof.
  intros Hst Hrun. destruct (reachable_sys_inv cap st s0 s Hst Hrun) as (M & I & HM).
  destruct (flush_all_and_sync_step (pool s) (guards s) M I) as (r & b' & Hr & _ & Hc).
  exists r, b'. split_and!; [done| |].
  - destruct s as [b gs L D]. cbn [pool guards logical doubt] in *. by apply (step_flush_all_and_sync b gs L D r b').
  - intros Hk q Hq. rewrite HM by done. by apply Hc.
Qed.

End Refinement.

Arguments PoolSys : clear implicits.

(** ** Concrete runs over the in-memory store *)

Abbreviation MemPool := (BufferPool MemoryPageStore).

Definition filled (n : Z) : list Z := replicate 8192 n.

Definition no_pool : MemPool := mkPool [] ∅ [] (ClockSweep.new 0) memory_new 0 ∅.

Definition after {A} (r : option (A * MemPool)) : MemPool := match r with Some (_, b) => b | None => no_pool end.

(** One frame: a page is created, written, released, and pushed out by a second one. *)
Definition run0 : MemPool := default no_pool (new_pool 1 memory_new).
Definition run1 : MemPool := after (new_page run0 5).
Definition run2 : MemPool := default no_pool (guard_write run1 0 (filled 7)).
Definition run3 : MemPool := default no_pool (drop_guard run2 0).
Definition run4 : MemPool := after (new_page run3 5).
Definition run5 : MemPool := default no_pool (drop_guard run4 0).

Definition page50 : PageId := mkPageId 5 0.
Definition page51 : PageId := mkPageId 5 1.

Definition start_sys : PoolSys MemoryPageStore := mkSys run0 [] (contents memory_new) (fun _ => false).
Definition evicted_sys : PoolSys MemoryPageStore :=
  mkSys run5 [] (upd (upd (upd (contents memory_new) page50 None) page50 (Some (filled 7))) page51 None)
    (upd (upd (upd (fun _ => false) page50 false) page50 false) page51 false).

Lemma start_started : started 1 memory_new start_sys.
Proof.
  by split_and!.
Qed.

Lemma evicted_reachable : rtc pool_step start_sys evicted_sys.
Proof.
  eapply rtc_l.
  { apply (step_new _ _ _ _ 5 0 (pin (new_page_frame page50)) run1); [done| |].
    - vm_cast_no_check (eq_refl (Some (Done (Ok 0), run1))).
    - vm_cast_no_check (eq_refl (Some (pin (new_page_frame page50)))). }
  eapply rtc_l.
  { apply (step_write _ _ _ _ 0 page50 (filled 7) run2); [left|by apply pageb_spec; vm_compute|]. vm_cast_no_check (eq_refl (Some run2)). }
  eapply rtc_l.
  { apply (step_drop _ [] [] _ _ 0 page50 run3). vm_cast_no_check (eq_refl (Some run3)). }
  eapply rtc_l.
  { apply (step_new _ _ _ _ 5 0 (pin (new_page_frame page51)) run4); [done| |].
    - vm_cast_no_check (eq_refl (Some (Done (Ok 0), run4))).
    - vm_cast_no_check (eq_refl (Some (pin (new_page_frame page51)))). }
  eapply rtc_l.
  { apply (step_drop _ [] [] _ _ 0 page51 run5). vm_cast_no_check (eq_refl (Some run5)). }
  apply rtc_refl.
Qed.

Lemma pool_transparent_witness :
  exists b', fetch_page (pool evicted_sys) page50 = Some (Done (Ok 0), b') /\
    exists f, frame_at b' 0 = Some f /\ pid f = page50 /\ data f = filled 7.
Proof.
  destruct (pool_transparent 1 memory_new start_sys evicted_sys page50) as [(r & b' & Hrun & Hok & _) _].
  - exact start_started.
  - exact evicted_reachable.
  - vm_compute. reflexivity.
  - vm_compute. split; [discriminate|reflexivity].
  - assert (Hr : r = Ok 0).
    { assert (E : match fetch_page (pool evicted_sys) page50 with Some (Done x, _) => x | _ => Err PoolExhausted end = Ok 0)
        by (vm_cast_no_check (eq_refl (Ok (E := BufferPoolError) 0))).
      rewrite Hrun in E. exact E. }
    subst r. exists b'. split; [exact Hrun|]. destruct (Hok 0 eq_refl) as (f & Hf & Hp & Hd). exists f.
    split; [exact Hf|]. split; [exact Hp|]. apply Hd. reflexivity.
Defined.

Lemma flush_durable_witness :
  exists r b', flush_all_and_sync (pool evicted_sys) = Some (r, b') /\ (exists k, r = Ok k) /\
    contents (store b') page50 = Some (filled 7).
Proof.
  destruct (flush_durable 1 memory_new start_sys evicted_sys start_started evicted_reachable)
    as (r & b' & Hrun & _ & Hc).
  exists r, b'. assert (Hk : exists k, r = Ok k).
  { assert (E : match flush_all_and_sync (pool evicted_sys) with Some (x, _) => x | _ => Err PoolExhausted end = Ok 0)
      by (vm_cast_no_check (eq_refl (Ok (E := BufferPoolError) 0))).
    rewrite Hrun in E. exists 0. exact E. }
  split; [exact Hrun|]. split; [exact Hk|].
  destruct (Hc Hk page50 eq_refl) as [E|[E _]]; [rewrite E; reflexivity|discriminate E].
Defined.

(** ** What the pool does not promise *)

(** A flush between a write and the drop of its guard leaves the page out of the
    modified-page registry: it is clean when the guard looks. *)
Lemma flush_before_drop_untracked :
  let b := default no_pool (drop_guard (after (flush_page run2 page50)) 0) in
  pages (store b) !! page50 = Some (filled 7) /\ modified_pages b = ∅ /\
  snapshot_modified_relation_pages b 5 = Some (Ok [], b).
Proof. split_and!; vm_compute; reflexivity. Qed.

(** A reset that fails loses writes.  Page 0 of relation 5 is flushed, written again and
    released; a guard holds page 1.  The reset drops the dirty frame of page 0, meets the
    guard and reports an exhausted pool; a fetch of page 0 then returns the contents of
    the flush, not the last ones written. *)
Definition reset0 : MemPool :=
  let b := after (new_page (default no_pool (new_pool 2 memory_new)) 5) in
  let b := after (flush_page (default no_pool (guard_write b 0 (filled 7))) page50) in
  default no_pool (drop_guard (default no_pool (guard_write b 0 (filled 8))) 0).
Definition reset1 : MemPool := after (new_page reset0 5).
Definition reset2 : MemPool := after (reset_relation reset1 5).

Definition fetched (b : MemPool) (p : PageId) : option (list Z) :=
  match fetch_page b p with Some (Done (Ok slot), b') => data <$> frame_at b' slot | _ => None end.

Theorem failed_reset_loses_write :
  fetched reset1 page50 = Some (filled 8) /\
  reset_relation reset1 5 = Some (Err PoolExhausted, reset2) /\ fetched reset2 page50 = Some (filled 7).
Proof.
  split_and!.
  - vm_cast_no_check (eq_refl (Some (filled 8))).
  - vm_cast_no_check (eq_refl (Some (Err (E := BufferPoolError) (A := unit) PoolExhausted, reset2))).
  - vm_cast_no_check (eq_refl (Some (filled 7))).
Qed.

(** Two pages of relation 6 in a pool of two frames, both released and clean. *)
Definition race0 : MemPool :=
  let b := after (new_page (default no_pool (new_pool 2 memory_new)) 6) in
  let b := after (new_page b 6) in
  default no_pool (drop_guard (default no_pool (drop_guard b 0)) 1).

(** A thread that creates a page of relation 7 has chosen its victim and not yet
    locked the frame, when another thread resets relation 6: the victim's slot goes
    onto the free list, is taken by the first thread all the same, and is handed out a
    second time while the first guard is held. *)
Definition race1 : option Z * MemPool := match choose_victim race0 with Some x => x | None => (None, no_pool) end.
Definition race2 : MemPool := after (reset_relation race1.2 6).
Definition race3 : MemPool :=
  match race1.1 with
  | Some slot => after (take_victim race2 slot (new_page_frame (mkPageId 7 0)))
  | None => no_pool
  end.

Definition race4 : MemPool := after (new_page race3 8).
Definition race5 : MemPool := after (new_page race4 8).

Lemma victim_handed_out_twice :
  race1.1 = Some 0 /\ page_table race3 !! mkPageId 7 0 = Some 0 /\ 0 ∈ free_list race3 /\
  new_page race3 8 = Some (Done (Ok 1), race4) /\ new_page race4 8 = Some (Done (Ok 0), race5) /\
  page_table race5 !! mkPageId 7 0 = Some 0 /\ pid <$> frame_at race5 0 = Some (mkPageId 8 1).
Proof.
  split_and!.
  - vm_cast_no_check (eq_refl (Some 0)).
  - vm_cast_no_check (eq_refl (Some 0)).
  - vm_compute. right. left.
  - vm_cast_no_check (eq_refl (Some (Done (Ok (E := BufferPoolError) 1), race4))).
  - vm_cast_no_check (eq_refl (Some (Done (Ok (E := BufferPoolError) 0), race5))).
  - vm_cast_no_check (eq_refl (Some 0)).
  - vm_cast_no_check (eq_refl (Some (mkPageId 8 1))).
Qed.
