(* ===== verification/BTreePage.v ===== *)
(** * Pages of the disk B+tree ([crates/aiondb-buffer-pool/src/disk_btree.rs])

    The layout of index pages: the metapage, and leaf and internal pages with a 32-byte
    header and 16-byte entries behind it.  Every accessor of the source is the same read
    or write at the same offset; one that runs past the page returns the error [corrupt].
    A writer has type [Update]: it returns its result and the page as it left it, also
    when it fails halfway.

    [page_is] and [meta_is] say what a page holds; the lemmas show that each writer
    produces the page it is meant to. *)

From S2P Require Import Prelude.
From S2P Require Import Bytes.
From S2P Require Import PageBytes.
From S2P Require Import PoolPage.
From S2P Require Import ClockSweep.
From S2P Require Import BufferPool.

Definition META_MAGIC : list Z := [65; 73; 79; 78; 66; 84; 77; 49].
Definition PAGE_MAGIC : list Z := [65; 73; 79; 78; 66; 84; 66; 49].
Definition META_PAGE_NO : Z := 0.
Definition PAGE_HEADER_SIZE : Z := 32.
Definition META_ROOT_OFFSET : Z := 8.
Definition META_HEIGHT_OFFSET : Z := 16.
Definition META_PAGE_COUNT_OFFSET : Z := 20.
Definition META_FREE_LIST_OFFSET : Z := 28.
Definition PAGE_KIND_OFFSET : Z := 8.
Definition PAGE_COUNT_OFFSET : Z := 10.
Definition PAGE_RIGHT_SIBLING_OFFSET : Z := 16.
Definition PAGE_FIRST_CHILD_OFFSET : Z := 24.
Definition LEAF_ENTRY_SIZE : Z := 16.
Definition INTERNAL_ENTRY_SIZE : Z := 16.
Definition NO_PAGE : Z := u64_max.

Inductive PageKind : Type := Leaf | Internal.

#[global] Instance PageKind_eq_dec : EqDecision PageKind.
Proof. solve_decision. Defined.

(** [kind as u8]. *)
Definition kind_byte (k : PageKind) : Z := match k with Leaf => 1 | Internal => 2 end.

(** The error [corrupt] builds; messages are not modelled. *)
Definition corrupt : BufferPoolError := Io InvalidData.

Definition from_byte (raw : Z) : PoolResult PageKind :=
  if raw =? 1 then Ok Leaf else if raw =? 2 then Ok Internal else Err corrupt.

(** ** Reading and writing integers *)

Abbreviation Update := (list Z -> PoolResult unit * list Z).

Declare Scope update_scope.
Delimit Scope update_scope with update.

Definition seq_update (f g : Update) : Update :=
  fun d => match f d with (Ok _, d) => g d | (Err e, d) => (Err e, d) end.
Notation "f ;; g" := (seq_update f g) (at level 100, g at level 200, right associativity) : update_scope.
#[local] Open Scope update_scope.

(** [data.fill(0)]. *)
Definition fill_zero : Update := fun _ => (Ok tt, zero_page).

(** [data[off..][..bs.len()].copy_from_slice(bs)] at an offset in range. *)
Definition copy_at (off : Z) (bs : list Z) : Update := fun d => (Ok tt, put d off bs).

(** An offset that overflows and one past the page are the same error. *)
Definition read_u32 (d : list Z) (off : Z) : PoolResult Z :=
  if off + 4 <=? PAGE_SIZE then Ok (field d off 4) else Err corrupt.

Definition read_u64 (d : list Z) (off : Z) : PoolResult Z :=
  if off + 8 <=? PAGE_SIZE then Ok (field d off 8) else Err corrupt.

Definition write_u32 (off v : Z) : Update :=
  fun d => if off + 4 <=? PAGE_SIZE then (Ok tt, put d off (le_bytes 4 v)) else (Err corrupt, d).

Definition write_u64 (off v : Z) : Update :=
  fun d => if off + 8 <=? PAGE_SIZE then (Ok tt, put d off (le_bytes 8 v)) else (Err corrupt, d).

(** ** Headers *)

Definition read_page_kind (d : list Z) : PoolResult PageKind :=
  if bool_decide (slice d 0 8 = PAGE_MAGIC) then from_byte (field d PAGE_KIND_OFFSET 1) else Err corrupt.

Definition read_count (d : list Z) : Z := field d PAGE_COUNT_OFFSET 2.

Definition write_count (count : Z) : Update :=
  fun d => if count <=? 65535 then (Ok tt, put d PAGE_COUNT_OFFSET (le_bytes 2 count)) else (Err corrupt, d).

Definition or_no_page (r : PoolResult Z) : Z := match r with Ok v => v | Err _ => NO_PAGE end.

Definition read_right_sibling (d : list Z) : Z := or_no_page (read_u64 d PAGE_RIGHT_SIBLING_OFFSET).

(** [let _ = write_u64(..)]. *)
Definition ignore_error (f : Update) : Update := fun d => (Ok tt, snd (f d)).

Definition write_right_sibling (page_no : Z) : Update :=
  ignore_error (write_u64 PAGE_RIGHT_SIBLING_OFFSET page_no).

Definition read_first_child (d : list Z) : Z := or_no_page (read_u64 d PAGE_FIRST_CHILD_OFFSET).

Definition write_first_child (page_no : Z) : Update :=
  ignore_error (write_u64 PAGE_FIRST_CHILD_OFFSET page_no).

(** ** Entries *)

(** The loops over [0..count] and over the entries to write. *)
Fixpoint read_entries (d : list Z) (idxs : list Z) : PoolResult (list (Z * Z)) :=
  match idxs with
  | [] => Ok []
  | idx :: rest =>
      let offset := PAGE_HEADER_SIZE + idx * LEAF_ENTRY_SIZE in
      (let? k := read_u64 d offset in
       let? v := read_u64 d (offset + 8) in
       let? es := read_entries d rest in Ok ((k, v) :: es))%result
  end.

Definition write_internal_entry (idx separator child : Z) : Update :=
  let offset := PAGE_HEADER_SIZE + idx * INTERNAL_ENTRY_SIZE in
  write_u64 offset separator ;; write_u64 (offset + 8) child.

Fixpoint write_entries (idx : Z) (entries : list (Z * Z)) : Update :=
  match entries with
  | [] => fun d => (Ok tt, d)
  | (k, v) :: rest => write_internal_entry idx k v ;; write_entries (idx + 1) rest
  end.

(** [data[PAGE_HEADER_SIZE..].fill(0)]. *)
Definition fill_entries : Update :=
  copy_at PAGE_HEADER_SIZE (replicate (Z.to_nat (PAGE_SIZE - PAGE_HEADER_SIZE)) 0).

Definition read_kind_entries (kind : PageKind) (d : list Z) : PoolResult (list (Z * Z)) :=
  (let? k := read_page_kind d in
   if bool_decide (k <> kind) then Err corrupt else read_entries d (seqZ 0 (read_count d)))%result.

Definition read_leaf_entries (d : list Z) : PoolResult (list (Z * Z)) := read_kind_entries Leaf d.
Definition read_internal_entries (d : list Z) : PoolResult (list (Z * Z)) := read_kind_entries Internal d.

Definition count_of {A} (l : list A) : Z := Z.of_nat (length l).

Definition write_leaf_entries (entries : list (Z * Z)) : Update :=
  fill_entries ;; write_count (count_of entries) ;; write_entries 0 entries.

Definition write_internal_entries (first_child : Z) (entries : list (Z * Z)) : Update :=
  fill_entries ;; write_first_child first_child ;; write_count (count_of entries) ;; write_entries 0 entries.

(** ** Searching *)

(** [entries.binary_search_by_key(&key, ..)] on entries sorted by key: the index of the
    key, or where to insert it. *)
Fixpoint binary_search (entries : list (Z * Z)) (key : Z) : Result nat nat :=
  match entries with
  | [] => Err O
  | (k, _) :: rest =>
      if k <? key then match binary_search rest key with Ok i => Ok (S i) | Err i => Err (S i) end
      else if k =? key then Ok O else Err O
  end.

(** [entries.partition_point(|(separator, _)| *separator <= s)] on sorted entries. *)
Fixpoint partition_point (entries : list (Z * Z)) (s : Z) : nat :=
  match entries with
  | [] => O
  | (k, _) :: rest => if k <=? s then S (partition_point rest s) else O
  end.

Definition leaf_get (d : list Z) (key : Z) : PoolResult (option Z) :=
  (let? entries := read_leaf_entries d in
   Ok (match binary_search entries key with
       | Ok i => snd <$> entries !! i
       | Err _ => None
       end))%result.

(** The loop of [internal_child_for_key_with_slot]. *)
Fixpoint child_loop (entries : list (Z * Z)) (key child : Z) (idx : nat) : Z * nat :=
  match entries with
  | [] => (child, idx)
  | (separator, right_child) :: rest =>
      if key <? separator then (child, idx) else child_loop rest key right_child (S idx)
  end.

Definition internal_child_for_key_with_slot (d : list Z) (key : Z) : PoolResult (Z * nat) :=
  (let? entries := read_internal_entries d in
   Ok (child_loop entries key (read_first_child d) O))%result.

Definition internal_child_for_key (d : list Z) (key : Z) : PoolResult Z :=
  (let? r := internal_child_for_key_with_slot d key in Ok (fst r))%result.

(** What [allocate_initialized_page] and [push_free_page] write. *)
Definition init_page (kind : PageKind) (right : Z) : Update :=
  fill_zero ;; copy_at 0 PAGE_MAGIC ;; copy_at PAGE_KIND_OFFSET [kind_byte kind] ;; write_count 0 ;;
  write_right_sibling right ;; write_first_child NO_PAGE.

(** What [initialize_meta_page] writes. *)
Definition init_meta : Update :=
  fill_zero ;; copy_at 0 META_MAGIC ;; write_u64 META_FREE_LIST_OFFSET NO_PAGE.

(** ** What pages hold *)

(** A leaf: entries and right sibling.  An internal page: first child and entries. *)
Inductive node : Type := NLeaf (es : list (Z * Z)) (right : Z) | NInner (first : Z) (es : list (Z * Z)).

Definition u64_entry (e : Z * Z) : Prop := in_u64 (fst e) /\ in_u64 (snd e).

(** What fits a page: 510 entries behind the header. *)
Definition PAGE_ENTRIES : Z := (PAGE_SIZE - PAGE_HEADER_SIZE) / LEAF_ENTRY_SIZE.

Definition entries_ok (es : list (Z * Z)) : Prop := Forall u64_entry es /\ count_of es <= PAGE_ENTRIES.

Definition node_ok (nd : node) : Prop :=
  match nd with NLeaf es r => entries_ok es /\ in_u64 r | NInner f es => entries_ok es /\ in_u64 f end.

Fixpoint entries_at (d : list Z) (i : Z) (es : list (Z * Z)) : Prop :=
  match es with
  | [] => True
  | (k, v) :: rest =>
      field d (PAGE_HEADER_SIZE + i * LEAF_ENTRY_SIZE) 8 = k /\
      field d (PAGE_HEADER_SIZE + i * LEAF_ENTRY_SIZE + 8) 8 = v /\ entries_at d (i + 1) rest
  end.

Definition holds_entries (d : list Z) (kind : PageKind) (es : list (Z * Z)) : Prop :=
  is_page d /\ slice d 0 8 = PAGE_MAGIC /\ field d PAGE_KIND_OFFSET 1 = kind_byte kind /\
  read_count d = count_of es /\ entries_at d 0 es /\ entries_ok es.

Definition page_is (d : list Z) (nd : node) : Prop :=
  match nd with
  | NLeaf es r => holds_entries d Leaf es /\ field d PAGE_RIGHT_SIBLING_OFFSET 8 = r /\ in_u64 r
  | NInner f es => holds_entries d Internal es /\ field d PAGE_FIRST_CHILD_OFFSET 8 = f /\ in_u64 f
  end.

Definition kind_of (nd : node) : PageKind := match nd with NLeaf _ _ => Leaf | NInner _ _ => Internal end.

Record MetaPage : Type := { meta_root : Z; meta_height : Z; meta_count : Z; meta_head : Z }.

Definition meta_is (d : list Z) (m : MetaPage) : Prop :=
  is_page d /\ slice d 0 8 = META_MAGIC /\ field d META_ROOT_OFFSET 8 = meta_root m /\
  field d META_HEIGHT_OFFSET 4 = meta_height m /\ field d META_PAGE_COUNT_OFFSET 8 = meta_count m /\
  field d META_FREE_LIST_OFFSET 8 = meta_head m.

(** [d'] is [d] as far as the bytes before [x] go. *)
Definition same_below (x : Z) (d d' : list Z) : Prop :=
  forall o n, 0 <= o -> 0 <= n -> o + n <= x -> slice d' o n = slice d o n.

Ltac btree_consts :=
  unfold META_PAGE_NO, PAGE_HEADER_SIZE, META_ROOT_OFFSET, META_HEIGHT_OFFSET, META_PAGE_COUNT_OFFSET,
    META_FREE_LIST_OFFSET, PAGE_KIND_OFFSET, PAGE_COUNT_OFFSET, PAGE_RIGHT_SIBLING_OFFSET,
    PAGE_FIRST_CHILD_OFFSET, LEAF_ENTRY_SIZE, INTERNAL_ENTRY_SIZE, PAGE_SIZE in *.

Lemma PAGE_ENTRIES_eq : PAGE_ENTRIES = 510.
Proof. reflexivity. Qed.

Lemma in_u64_pow v : in_u64 v -> 0 <= v < 256 ^ Z.of_nat 8.
Proof. unfold in_u64, u64_max. change (256 ^ Z.of_nat 8) with (2 ^ 64). lia. Qed.

(** A write in range succeeds; what the rules below need to know of the page after it. *)
Lemma write_u64_spec off v d :
  is_page d -> 0 <= off -> off + 8 <= PAGE_SIZE -> in_u64 v ->
  exists d', write_u64 off v d = (Ok tt, d') /\ is_page d' /\ field d' off 8 = v /\
    (forall o n, 0 <= o -> 0 <= n -> o + n <= off \/ off + 8 <= o -> slice d' o n = slice d o n).
Proof.
  intros Hp Ho Hl Hv. pose proof (is_page_len d Hp) as Hd. exists (put d off (le_bytes 8 v)). unfold write_u64.
  rewrite (proj2 (Z.leb_le _ _)) by done. split_and!; [done| | |].
  - apply put_is_page; rewrite ?length_le_bytes; lia || done || apply le_bytes_byte.
  - apply (field_put_same d off 8 v); try done. by apply in_u64_pow.
  - intros o n Ho' Hn Hdis. apply slice_put_other; rewrite ?length_le_bytes; lia || done.
Qed.

Lemma write_u32_spec off v d :
  is_page d -> 0 <= off -> off + 4 <= PAGE_SIZE -> in_u32 v ->
  exists d', write_u32 off v d = (Ok tt, d') /\ is_page d' /\ field d' off 4 = v /\
    (forall o n, 0 <= o -> 0 <= n -> o + n <= off \/ off + 4 <= o -> slice d' o n = slice d o n).
Proof.
  intros Hp Ho Hl Hv. pose proof (is_page_len d Hp) as Hd. exists (put d off (le_bytes 4 v)). unfold write_u32.
  rewrite (proj2 (Z.leb_le _ _)) by done. split_and!; [done| | |].
  - apply put_is_page; rewrite ?length_le_bytes; lia || done || apply le_bytes_byte.
  - apply (field_put_same d off 4 v); try done. unfold in_u32, u32_max in Hv.
    change (256 ^ Z.of_nat 4) with (2 ^ 32). lia.
  - intros o n Ho' Hn Hdis. apply slice_put_other; rewrite ?length_le_bytes; lia || done.
Qed.

Lemma write_count_spec c d :
  is_page d -> 0 <= c <= PAGE_ENTRIES ->
  exists d', write_count c d = (Ok tt, d') /\ is_page d' /\ read_count d' = c /\
    (forall o n, 0 <= o -> 0 <= n -> o + n <= PAGE_COUNT_OFFSET \/ PAGE_COUNT_OFFSET + 2 <= o ->
       slice d' o n = slice d o n).
Proof.
  rewrite PAGE_ENTRIES_eq. intros Hp Hc. pose proof (is_page_len d Hp) as Hd. exists (put d PAGE_COUNT_OFFSET (le_bytes 2 c)). unfold write_count.
  rewrite (proj2 (Z.leb_le _ _)) by lia. split_and!; [done| | |].
  - apply put_is_page; rewrite ?length_le_bytes; btree_consts; lia || done || apply le_bytes_byte.
  - apply (field_put_same d PAGE_COUNT_OFFSET 2 c); [done|done|done|]. change (256 ^ Z.of_nat 2) with 65536. lia.
  - intros o n Ho' Hn Hdis. apply slice_put_other; rewrite ?length_le_bytes; btree_consts; lia || done.
Qed.

Lemma copy_at_spec off bs d :
  is_page d -> 0 <= off -> off + Z.of_nat (length bs) <= PAGE_SIZE -> Forall byte bs ->
  exists d', copy_at off bs d = (Ok tt, d') /\ is_page d' /\ slice d' off (Z.of_nat (length bs)) = bs /\
    (forall o n, 0 <= o -> 0 <= n -> o + n <= off \/ off + Z.of_nat (length bs) <= o ->
       slice d' o n = slice d o n).
Proof.
  intros Hp Ho Hl Hb. pose proof (is_page_len d Hp) as Hd. exists (put d off bs). unfold copy_at. split_and!; [done| | |].
  - by apply put_is_page.
  - by apply slice_put_same.
  - intros. apply slice_put_other; done || lia.
Qed.

Lemma seq_update_ok (f g : Update) d d1 r :
  f d = (Ok tt, d1) -> g d1 = r -> seq_update f g d = r.
Proof. unfold seq_update. by intros -> ->. Qed.

Lemma ignore_error_ok (f : Update) d d1 : f d = (Ok tt, d1) -> ignore_error f d = (Ok tt, d1).
Proof. unfold ignore_error. by intros ->. Qed.

Lemma entries_at_frame d d' i es :
  0 <= i ->
  (forall o n, PAGE_HEADER_SIZE + i * LEAF_ENTRY_SIZE <= o -> 0 <= n ->
     o + n <= PAGE_HEADER_SIZE + (i + count_of es) * LEAF_ENTRY_SIZE -> slice d' o n = slice d o n) ->
  entries_at d i es -> entries_at d' i es.
Proof.
  unfold count_of. revert i. induction es as [|[k v] es IH]; intros i Hi Hs; [done|]. cbn [entries_at length] in *.
  intros (Hk & Hv & Hr). split_and!.
  - unfold field in *. rewrite Hs; btree_consts; done || lia.
  - unfold field in *. rewrite Hs; btree_consts; done || lia.
  - apply IH; [lia| |done]. intros o n Ho Hn Hl. apply Hs; btree_consts; lia.
Qed.

Lemma write_internal_entry_spec i k v d :
  is_page d -> 0 <= i < PAGE_ENTRIES -> in_u64 k -> in_u64 v ->
  exists d', write_internal_entry i k v d = (Ok tt, d') /\ is_page d' /\ entries_at d' i [(k, v)] /\
    (forall o n, 0 <= o -> 0 <= n ->
       o + n <= PAGE_HEADER_SIZE + i * LEAF_ENTRY_SIZE \/ PAGE_HEADER_SIZE + (i + 1) * LEAF_ENTRY_SIZE <= o ->
       slice d' o n = slice d o n).
Proof.
  rewrite PAGE_ENTRIES_eq. intros Hd Hi Hk Hv. btree_consts.
  destruct (write_u64_spec (32 + i * 16) k d) as (d1 & E1 & L1 & F1 & S1); btree_consts; try lia; try done.
  destruct (write_u64_spec (32 + i * 16 + 8) v d1) as (d2 & E2 & L2 & F2 & S2); btree_consts; try lia; try done.
  exists d2. split_and!; [by eapply seq_update_ok|done| |].
  - cbn [entries_at]. btree_consts. split_and!; [|done|done]. rewrite <- F1. unfold field. rewrite S2; lia || done.
  - intros o n Ho Hn Hdis. rewrite S2, S1; lia || done.
Qed.

Lemma write_entries_spec es : forall i d,
  is_page d -> 0 <= i -> i + count_of es <= PAGE_ENTRIES -> Forall u64_entry es ->
  exists d', write_entries i es d = (Ok tt, d') /\ is_page d' /\ entries_at d' i es /\
    same_below (PAGE_HEADER_SIZE + i * LEAF_ENTRY_SIZE) d d'.
Proof.
  unfold count_of. induction es as [|[k v] es IH]; intros i d Hd Hi Hl Hu; [by exists d|].
  apply Forall_cons in Hu as [[Hk Hv] Hu]. cbn [write_entries length fst snd] in *.
  destruct (write_internal_entry_spec i k v d) as (d1 & E1 & L1 & F1 & S1); try lia; try done.
  destruct (IH (i + 1) d1) as (d2 & E2 & L2 & F2 & S2); try lia; try done.
  exists d2. split_and!; [by eapply seq_update_ok|done| |].
  - cbn [entries_at] in *. unfold same_below in S2. destruct F1 as (Fk & Fv & _). split_and!; [| |done].
    + rewrite <- Fk. unfold field. rewrite S2; btree_consts; lia || done.
    + rewrite <- Fv. unfold field. rewrite S2; btree_consts; lia || done.
  - intros o n Ho Hn Hdis. rewrite S2, S1; btree_consts; lia || done.
Qed.

Lemma read_entries_spec d es : forall i,
  0 <= i -> i + count_of es <= PAGE_ENTRIES -> entries_at d i es ->
  read_entries d (seqZ i (count_of es)) = Ok es.
Proof.
  unfold count_of. induction es as [|[k v] es IH]; intros i Hi Hl; [done|]. cbn [entries_at length] in *.
  intros (Hk & Hv & Hr). rewrite seqZ_cons by lia. cbn [read_entries]. rewrite PAGE_ENTRIES_eq in *.
  replace (Z.pred (Z.of_nat (S (length es)))) with (Z.of_nat (length es)) by lia.
  unfold read_u64. rewrite !(proj2 (Z.leb_le _ _)) by (btree_consts; lia). rewrite Hk, Hv, <- Z.add_1_r.
  by rewrite IH by (lia || done).
Qed.

(** Reading a page that holds a node. *)
Lemma read_page_kind_of d nd : page_is d nd -> read_page_kind d = Ok (kind_of nd).
Proof.
  unfold read_page_kind. destruct nd; intros ((Hd & Hm & Hk & Hr) & Hrest);
    rewrite bool_decide_eq_true_2, Hk by done; done.
Qed.

Lemma read_kind_entries_of d kind es : holds_entries d kind es -> read_kind_entries kind d = Ok es.
Proof.
  intros (Hd & Hm & Hk & Hc & He & Hu & Hl). unfold read_kind_entries, read_page_kind.
  rewrite bool_decide_eq_true_2, Hk by done. rewrite Hc.
  destruct kind; cbn; (rewrite bool_decide_eq_false_2 by (by intros Hn; apply Hn));
    by apply read_entries_spec; [lia| |].
Qed.

Lemma read_leaf_entries_of d es r : page_is d (NLeaf es r) -> read_leaf_entries d = Ok es.
Proof. intros (He & _). by apply read_kind_entries_of. Qed.

Lemma read_internal_entries_of d f es : page_is d (NInner f es) -> read_internal_entries d = Ok es.
Proof. intros (He & _). by apply read_kind_entries_of. Qed.

Lemma read_leaf_entries_inner d f es : page_is d (NInner f es) -> read_leaf_entries d = Err corrupt.
Proof.
  intros He. unfold read_leaf_entries, read_kind_entries. rewrite (read_page_kind_of _ _ He). done.
Qed.

Lemma read_internal_entries_leaf d es r : page_is d (NLeaf es r) -> read_internal_entries d = Err corrupt.
Proof.
  intros He. unfold read_internal_entries, read_kind_entries. rewrite (read_page_kind_of _ _ He). done.
Qed.

Lemma read_right_sibling_of d es r : page_is d (NLeaf es r) -> read_right_sibling d = r.
Proof. by intros (_ & Hr & _). Qed.

Lemma read_first_child_of d f es : page_is d (NInner f es) -> read_first_child d = f.
Proof. by intros (_ & Hr & _). Qed.

Lemma page_is_ok d nd : page_is d nd -> node_ok nd.
Proof. by destruct nd; intros ((_ & _ & _ & _ & _ & ?) & _ & ?). Qed.

Lemma page_is_len d nd : page_is d nd -> is_page d.
Proof. by destruct nd; intros ((? & _) & _). Qed.

(** ** Writing a page *)

Lemma length_fill : length (replicate (Z.to_nat (PAGE_SIZE - PAGE_HEADER_SIZE)) 0) = Z.to_nat 8160.
Proof. by rewrite length_replicate. Qed.

Lemma fill_entries_spec d :
  is_page d -> exists d', fill_entries d = (Ok tt, d') /\ is_page d' /\ same_below PAGE_HEADER_SIZE d d'.
Proof.
  intros Hd.
  destruct (copy_at_spec PAGE_HEADER_SIZE (replicate (Z.to_nat (PAGE_SIZE - PAGE_HEADER_SIZE)) 0) d)
    as (d' & E & L & _ & S); [done|done|rewrite length_fill; btree_consts; lia|by apply Forall_replicate|].
  exists d'. split_and!; [done|done|]. intros o n Ho Hn Hl. apply S; [done|done|]. by left.
Qed.

(** The part of the two entry writers after the header. *)
Lemma write_count_entries_spec es d :
  is_page d -> entries_ok es ->
  exists d', seq_update (write_count (count_of es)) (write_entries 0 es) d = (Ok tt, d') /\ is_page d' /\
    read_count d' = count_of es /\ entries_at d' 0 es /\
    (forall o n, 0 <= o -> 0 <= n -> o + n <= PAGE_HEADER_SIZE ->
       o + n <= PAGE_COUNT_OFFSET \/ PAGE_COUNT_OFFSET + 2 <= o -> slice d' o n = slice d o n).
Proof.
  intros Hd [Hu Hl].
  destruct (write_count_spec (count_of es) d) as (d1 & E1 & L1 & C1 & S1);
    [done|split; [unfold count_of; lia|done]|].
  destruct (write_entries_spec es 0 d1) as (d2 & E2 & L2 & A2 & S2); [done|done|lia|done|].
  exists d2. split_and!; [by eapply seq_update_ok|done| |done|].
  - rewrite <- C1. unfold read_count, field. rewrite S2; btree_consts; lia || done.
  - intros o n Ho Hn Hb Hdis. rewrite S2, S1; btree_consts; lia || done.
Qed.

Lemma write_leaf_entries_is es0 r es d :
  page_is d (NLeaf es0 r) -> entries_ok es ->
  exists d', write_leaf_entries es d = (Ok tt, d') /\ page_is d' (NLeaf es r).
Proof.
  intros ((Hd & Hm & Hk & _) & Hr & Hru) Hes.
  destruct (fill_entries_spec d) as (d1 & E1 & L1 & S1); [done|].
  destruct (write_count_entries_spec es d1) as (d2 & E2 & L2 & C2 & A2 & S2); [done..|].
  exists d2. split; [by eapply seq_update_ok|]. unfold page_is, holds_entries, field in *.
  rewrite !S2, !S1 by (btree_consts; lia). done.
Qed.

Lemma write_right_sibling_is es r r' d :
  page_is d (NLeaf es r) -> in_u64 r' ->
  exists d', write_right_sibling r' d = (Ok tt, d') /\ page_is d' (NLeaf es r').
Proof.
  intros ((Hd & Hm & Hk & Hc & He & Hu) & Hr & Hru) Hr'.
  destruct (write_u64_spec PAGE_RIGHT_SIBLING_OFFSET r' d) as (d1 & E1 & L1 & F1 & S1); [done..|].
  exists d1. split; [by apply ignore_error_ok|]. unfold page_is, holds_entries, read_count, field in *.
  rewrite !S1 by (btree_consts; lia). split_and!; try done.
  apply (entries_at_frame d); [done| |done]. intros. apply S1; btree_consts; lia.
Qed.

Lemma write_first_child_is f f' es d :
  page_is d (NInner f es) -> in_u64 f' ->
  exists d', write_first_child f' d = (Ok tt, d') /\ page_is d' (NInner f' es).
Proof.
  intros ((Hd & Hm & Hk & Hc & He & Hu) & Hr & Hru) Hr'.
  destruct (write_u64_spec PAGE_FIRST_CHILD_OFFSET f' d) as (d1 & E1 & L1 & F1 & S1); [done..|].
  exists d1. split; [by apply ignore_error_ok|]. unfold page_is, holds_entries, read_count, field in *.
  rewrite !S1 by (btree_consts; lia). split_and!; try done.
  apply (entries_at_frame d); [done| |done]. intros. apply S1; btree_consts; lia.
Qed.

Lemma write_leaf_is es0 r0 es r d :
  page_is d (NLeaf es0 r0) -> entries_ok es -> in_u64 r ->
  exists d', seq_update (write_leaf_entries es) (write_right_sibling r) d = (Ok tt, d') /\
    page_is d' (NLeaf es r).
Proof.
  intros Hd Hes Hr. destruct (write_leaf_entries_is _ _ es d Hd Hes) as (d1 & E1 & P1).
  destruct (write_right_sibling_is _ _ r d1 P1 Hr) as (d2 & E2 & P2).
  exists d2. split; [by eapply seq_update_ok|done].
Qed.

Lemma write_internal_entries_is f0 es0 f es d :
  page_is d (NInner f0 es0) -> entries_ok es -> in_u64 f ->
  exists d', write_internal_entries f es d = (Ok tt, d') /\ page_is d' (NInner f es).
Proof.
  intros ((Hd & Hm & Hk & _) & Hr & Hru) Hes Hf.
  destruct (fill_entries_spec d) as (d1 & E1 & L1 & S1); [done|].
  destruct (write_u64_spec PAGE_FIRST_CHILD_OFFSET f d1) as (d2 & E2 & L2 & F2 & S2); [done..|].
  destruct (write_count_entries_spec es d2) as (d3 & E3 & L3 & C3 & A3 & S3); [done..|].
  exists d3. split.
  { eapply seq_update_ok; [done|]. eapply seq_update_ok; [by apply ignore_error_ok|done]. }
  unfold page_is, holds_entries, field in *. rewrite !S3 by (btree_consts; lia).
  rewrite !(S2 0 8), !(S2 PAGE_KIND_OFFSET 1), !S1 by (btree_consts; lia). done.
Qed.

(** The root [insert] writes over a fresh internal page. *)
Lemma write_new_root_is f0 f k v d :
  page_is d (NInner f0 []) -> in_u64 f -> in_u64 k -> in_u64 v ->
  exists d', seq_update (write_count 1) (seq_update (write_first_child f) (write_internal_entry 0 k v)) d
               = (Ok tt, d') /\ page_is d' (NInner f [(k, v)]).
Proof.
  intros ((Hd & Hm & Hk & _) & Hr & Hru) Hf Hk' Hv'.
  destruct (write_count_spec 1 d) as (d1 & E1 & L1 & C1 & S1); [done|by rewrite PAGE_ENTRIES_eq|].
  destruct (write_u64_spec PAGE_FIRST_CHILD_OFFSET f d1) as (d2 & E2 & L2 & F2 & S2); [done..|].
  destruct (write_internal_entry_spec 0 k v d2) as (d3 & E3 & L3 & A3 & S3); [done|by rewrite PAGE_ENTRIES_eq|done..|].
  exists d3. split.
  { eapply seq_update_ok; [done|]. eapply seq_update_ok; [by apply ignore_error_ok|done]. }
  unfold page_is, holds_entries, read_count, entries_ok, field in *.
  rewrite !S3, !(S2 0 8), !(S2 PAGE_KIND_OFFSET 1), !(S2 PAGE_COUNT_OFFSET 2), !S1 by (btree_consts; lia).
  split_and!; try done. by constructor.
Qed.

(** What [init_page] leaves: an empty leaf or an internal page without children. *)
Definition fresh_node (kind : PageKind) (right : Z) : node :=
  match kind with Leaf => NLeaf [] right | Internal => NInner NO_PAGE [] end.

Lemma NO_PAGE_u64 : in_u64 NO_PAGE.
Proof. done. Qed.

Lemma init_page_is kind right d :
  in_u64 right -> exists d', init_page kind right d = (Ok tt, d') /\ page_is d' (fresh_node kind right).
Proof.
  intros Hr. pose proof zero_page_is as L0.
  destruct (copy_at_spec 0 PAGE_MAGIC zero_page) as (d1 & E1 & L1 & F1 & S1); [done..|repeat constructor; done|].
  destruct (copy_at_spec PAGE_KIND_OFFSET [kind_byte kind] d1) as (d2 & E2 & L2 & F2 & S2); [done..|by destruct kind; repeat constructor|].
  destruct (write_count_spec 0 d2) as (d3 & E3 & L3 & C3 & S3); [done|by rewrite PAGE_ENTRIES_eq|].
  destruct (write_u64_spec PAGE_RIGHT_SIBLING_OFFSET right d3) as (d4 & E4 & L4 & F4 & S4); [done..|].
  destruct (write_u64_spec PAGE_FIRST_CHILD_OFFSET NO_PAGE d4) as (d5 & E5 & L5 & F5 & S5); [done..|].
  exists d5. split.
  { eapply seq_update_ok; [done|]. eapply seq_update_ok; [done|]. eapply seq_update_ok; [done|].
    eapply seq_update_ok; [done|]. eapply seq_update_ok; by apply ignore_error_ok. }
  change (Z.of_nat (length PAGE_MAGIC)) with 8 in *. change (Z.of_nat (length [kind_byte kind])) with 1 in *.
  assert (Hh : holds_entries d5 kind []).
  { unfold holds_entries, read_count, entries_ok, field in *. split_and!; try done.
    - by rewrite S5, S4, S3, S2 by (btree_consts; lia).
    - rewrite S5, S4, S3, F2 by (btree_consts; lia). cbn. lia.
    - by rewrite S5, S4 by (btree_consts; lia). }
  destruct kind; [|done]. split_and!; [done| |done]. rewrite <- F4. unfold field. by rewrite S5 by (btree_consts; lia).
Qed.

(** ** Writing the metapage *)

Lemma read_meta d m :
  meta_is d m ->
  read_u64 d META_ROOT_OFFSET = Ok (meta_root m) /\ read_u32 d META_HEIGHT_OFFSET = Ok (meta_height m) /\
  read_u64 d META_PAGE_COUNT_OFFSET = Ok (meta_count m) /\ read_u64 d META_FREE_LIST_OFFSET = Ok (meta_head m).
Proof. intros (_ & _ & <- & <- & <- & <-). done. Qed.

Lemma init_meta_is d :
  exists d', init_meta d = (Ok tt, d') /\
    meta_is d' {| meta_root := 0; meta_height := 0; meta_count := 0; meta_head := NO_PAGE |}.
Proof.
  eexists. split; [reflexivity|]. unfold meta_is. split; [|by vm_compute]. apply pageb_spec. by vm_compute.
Qed.

Lemma set_root_is d m r h :
  meta_is d m -> in_u64 r -> in_u32 h ->
  exists d', seq_update (write_u64 META_ROOT_OFFSET r) (write_u32 META_HEIGHT_OFFSET h) d = (Ok tt, d') /\
    meta_is d' {| meta_root := r; meta_height := h; meta_count := meta_count m; meta_head := meta_head m |}.
Proof.
  intros (Hd & Hm & H1 & H2 & H3 & H4) Hr Hh.
  destruct (write_u64_spec META_ROOT_OFFSET r d) as (d1 & E1 & L1 & F1 & S1); [done..|].
  destruct (write_u32_spec META_HEIGHT_OFFSET h d1) as (d2 & E2 & L2 & F2 & S2); [done..|].
  exists d2. split; [by eapply seq_update_ok|]. unfold meta_is, field in *. cbn [meta_root meta_height meta_count meta_head].
  rewrite !(S2 0 8), !(S2 META_ROOT_OFFSET 8), !(S2 META_PAGE_COUNT_OFFSET 8), !(S2 META_FREE_LIST_OFFSET 8)
    by (btree_consts; lia).
  by rewrite !(S1 0 8), !(S1 META_PAGE_COUNT_OFFSET 8), !(S1 META_FREE_LIST_OFFSET 8) by (btree_consts; lia).
Qed.

Lemma set_page_count_is d m c :
  meta_is d m -> in_u64 c ->
  exists d', write_u64 META_PAGE_COUNT_OFFSET c d = (Ok tt, d') /\
    meta_is d' {| meta_root := meta_root m; meta_height := meta_height m; meta_count := c; meta_head := meta_head m |}.
Proof.
  intros (Hd & Hm & H1 & H2 & H3 & H4) Hc.
  destruct (write_u64_spec META_PAGE_COUNT_OFFSET c d) as (d1 & E1 & L1 & F1 & S1); [done..|].
  exists d1. split; [done|]. unfold meta_is, field in *. cbn [meta_root meta_height meta_count meta_head].
  by rewrite !(S1 0 8), !(S1 META_ROOT_OFFSET 8), !(S1 META_HEIGHT_OFFSET 4), !(S1 META_FREE_LIST_OFFSET 8)
    by (btree_consts; lia).
Qed.

Lemma set_free_list_head_is d m x :
  meta_is d m -> in_u64 x ->
  exists d', write_u64 META_FREE_LIST_OFFSET x d = (Ok tt, d') /\
    meta_is d' {| meta_root := meta_root m; meta_height := meta_height m; meta_count := meta_count m; meta_head := x |}.
Proof.
  intros (Hd & Hm & H1 & H2 & H3 & H4) Hc.
  destruct (write_u64_spec META_FREE_LIST_OFFSET x d) as (d1 & E1 & L1 & F1 & S1); [done..|].
  exists d1. split; [done|]. unfold meta_is, field in *. cbn [meta_root meta_height meta_count meta_head].
  by rewrite !(S1 0 8), !(S1 META_ROOT_OFFSET 8), !(S1 META_HEIGHT_OFFSET 4), !(S1 META_PAGE_COUNT_OFFSET 8)
    by (btree_consts; lia).
Qed.

#[global] Arguments write_leaf_entries : simpl never.
#[global] Arguments write_internal_entries : simpl never.
#[global] Arguments init_page : simpl never.
#[global] Arguments page_is : simpl never.
