(* ===== verification/PageProg.v ===== *)
(** * Programs over the pages of one relation

    The disk B+tree reaches its pages only through the buffer pool: it fetches a page and
    reads it, fetches it and changes its bytes, or takes a new page.  [Prog] is the
    syntax of such programs, with the error of each call passed to the continuation, so
    that [?] is [bind] and a [match] on the result is a continuation of its own.

    [run] gives a program its meaning on a relation that is just a map from page numbers
    to pages; [None] is a panic, a loop that ran out of fuel, or something
    whose outcome depends on the state of the pool or of its store: a page that was created
    but not initialised, pages beyond [PAGE_LIMIT], creating pages or resetting the relation
    with a page in use, and, unless [absent] says what the store does, access to a page that
    does not exist.  [wp] is the weakest precondition of a program for [run], and the rules
    below are its calculus. *)

From S2P Require Import Prelude.
From S2P Require Import Bytes.
From S2P Require Import PageBytes.
From S2P Require Import PoolPage.
From S2P Require Import ClockSweep.
From S2P Require Import BufferPool.
From S2P Require Import BTreePage.

Inductive Prog (A : Type) : Type :=
| Ret (r : PoolResult A)
| Panic
| Fetch (n : Z) (k : PoolResult (list Z) -> Prog A)
| Modify (n : Z) (f : Update) (k : PoolResult (list Z) -> Prog A)
| NewPage (body : Z -> Prog unit) (f : Update) (k : PoolResult Z -> Prog A)
| ResetRelation (k : PoolResult unit -> Prog A)
| FlushAll (k : PoolResult unit -> Prog A)
| Sync (k : PoolResult unit -> Prog A).
Arguments Ret {A} r.
Arguments Panic {A}.
Arguments Fetch {A} n k.
Arguments Modify {A} n f k.
Arguments NewPage {A} body f k.
Arguments ResetRelation {A} k.
Arguments FlushAll {A} k.
Arguments Sync {A} k.

#[global] Instance Prog_ret : MRet Prog := fun A a => Ret (Ok a).

#[global] Instance Prog_bind : MBind Prog := fun A B f =>
  fix go p :=
    match p with
    | Ret (Ok a) => f a
    | Ret (Err e) => Ret (Err e)
    | Panic => Panic
    | Fetch n k => Fetch n (fun r => go (k r))
    | Modify n u k => Modify n u (fun r => go (k r))
    | NewPage body u k => NewPage body u (fun r => go (k r))
    | ResetRelation k => ResetRelation (fun r => go (k r))
    | FlushAll k => FlushAll (fun r => go (k r))
    | Sync k => Sync (fun r => go (k r))
    end.

(** [pool.fetch_page(n)?] and a read of the page. *)
Definition fetch (n : Z) : Prog (list Z) := Fetch n Ret.

(** [pool.fetch_page(n)?] and writes through the guard, which are the page's bytes even
    if a write fails; the result is the page after them. *)
Definition modify (n : Z) (f : Update) : Prog (list Z) := Modify n f Ret.

(** [pool.new_page()?], [body] on its page number while its guard is held, and writes to
    the page. *)
Definition create_page (body : Z -> Prog unit) (f : Update) : Prog Z := NewPage body f Ret.

(** An index that is out of range panics. *)
Definition at_index {A} (o : option A) : Prog A :=
  match o with Some a => mret a | None => Panic end.

(** ** Meaning on a map of pages *)

(** [absent] is what fetching a page that does not exist gives, when that is known: a
    store may not find it, or read zeros and leave such a page in the pool. *)
Record Rel : Type := { pages : gmap Z (list Z); next_page : Z; absent : option (PoolResult (list Z)) }.

Definition set_page (s : Rel) (n : Z) (d : list Z) : Rel :=
  {| pages := <[n := d]> (pages s); next_page := next_page s; absent := absent s |}.

(** The relation after its next page was added. *)
Definition grow (s : Rel) : Rel :=
  {| pages := <[next_page s := zero_page]> (pages s); next_page := next_page s + 1; absent := absent s |}.

Definition no_pages (a : option (PoolResult (list Z))) : Rel := {| pages := ∅; next_page := 0; absent := a |}.

Abbreviation not_found := (Some (Err (Io NotFound))).

(** How many pages a relation can have depends on the store. *)
Class PageLimit : Type := { PAGE_LIMIT : Z; page_limit_le : 2 <= PAGE_LIMIT <= u64_max }.

Section Meaning.
Context {PL : PageLimit}.

(** [held] says that the guard of a new page is held. *)
Fixpoint run_in {A : Type} (held : bool) (p : Prog A) (s : Rel) {struct p} : option (PoolResult A * Rel) :=
  match p with
  | Ret r => Some (r, s)
  | Panic => None
  | Fetch n k =>
      match pages s !! n, absent s with
      | Some d, _ => run_in held (k (Ok d)) s
      | None, Some r => run_in held (k r) s
      | None, None => None
      end
  | Modify n f k =>
      match pages s !! n with
      | Some d =>
          let '(r, d') := f d in
          if pageb d' then
            match r with
            | Ok _ => run_in held (k (Ok d')) (set_page s n d')
            | Err e => run_in held (k (Err e)) (set_page s n d')
            end
          else None
      | None => None
      end
  | NewPage body f k =>
      if held || (PAGE_LIMIT <=? next_page s) then None
      else
        let n := next_page s in
        match run_in true (body n) (grow s) with
        | Some (Ok _, s1) =>
            match pages s1 !! n with
            | Some d =>
                let '(r, d') := f d in
                if pageb d' then
                  match r with
                  | Ok _ => run_in held (k (Ok n)) (set_page s1 n d')
                  | Err e => run_in held (k (Err e)) (set_page s1 n d')
                  end
                else None
            | None => None
            end
        | _ => None
        end
  | ResetRelation k => if held then None else run_in held (k (Ok tt)) (no_pages (absent s))
  | FlushAll k => run_in held (k (Ok tt)) s
  | Sync k => run_in held (k (Ok tt)) s
  end.

End Meaning.

Abbreviation run := (run_in false).

Section Rules.
Context {PL : PageLimit}.

Lemma run_bind {A B : Type} held (p : Prog A) (f : A -> Prog B) s :
  run_in held (p ≫= f) s =
    match run_in held p s with
    | Some (Ok a, s') => run_in held (f a) s'
    | Some (Err e, s') => Some (Err e, s')
    | None => None
    end.
Proof.
  revert s f.
  induction p as [A [a|e]|A|A n k IH|A n u k IH|A body _ u k IH|A k IH|A k IH|A k IH]; intros s f; cbn [run_in mbind Prog_bind];
    try done; try (by apply IH).
  - destruct (pages s !! n) as [d|]; [by apply IH|]. destruct (absent s); [by apply IH|done].
  - destruct (pages s !! n) as [d|]; [|done]. destruct (u d) as [[[]|e] d']; destruct (pageb d'); done || by apply IH.
  - destruct (held || _); [done|]. destruct (run_in true (body (next_page s)) (grow s)) as [[[x|e] s1]|]; [|done|done].
    destruct (pages s1 !! next_page s) as [d|]; [|done].
    destruct (u d) as [[[]|e] d']; destruct (pageb d'); done || by apply IH.
  - destruct held; [done|]. by apply IH.
Qed.

(** ** Weakest preconditions *)

Definition wp {A} (p : Prog A) (s : Rel) (Q : PoolResult A -> Rel -> Prop) : Prop :=
  match run p s with Some (r, s') => Q r s' | None => False end.

Lemma wp_ret {A} (r : PoolResult A) s (Q : _ -> _ -> Prop) : Q r s -> wp (Ret r) s Q.
Proof. done. Qed.

Lemma wp_bind {A B} (p : Prog A) (f : A -> Prog B) s Q :
  wp p s (fun r s' => match r with Ok a => wp (f a) s' Q | Err e => Q (Err e) s' end) -> wp (p ≫= f) s Q.
Proof.
  unfold wp. rewrite run_bind. destruct (run p s) as [[[a|e] s']|]; by intros H.
Qed.

Lemma wp_mono {A} (p : Prog A) s (Q Q' : _ -> _ -> Prop) :
  wp p s Q -> (forall r s', Q r s' -> Q' r s') -> wp p s Q'.
Proof. unfold wp. destruct (run p s) as [[r s']|]; [|done]. auto. Qed.

Lemma wp_fetch n s d (Q : _ -> _ -> Prop) : pages s !! n = Some d -> Q (Ok d) s -> wp (fetch n) s Q.
Proof. unfold wp, fetch. cbn [run_in]. by intros ->. Qed.

Lemma wp_modify n f s d d' (Q : _ -> _ -> Prop) :
  pages s !! n = Some d -> f d = (Ok tt, d') -> is_page d' -> Q (Ok d') (set_page s n d') -> wp (modify n f) s Q.
Proof. unfold wp, modify. cbn [run_in]. by intros -> -> ->%pageb_spec. Qed.

Lemma wp_at_index {A} (o : option A) a s (Q : _ -> _ -> Prop) :
  o = Some a -> Q (Ok a) s -> wp (at_index o) s Q.
Proof. by intros ->. Qed.

Lemma wp_run {A} (p : Prog A) s (Q : _ -> _ -> Prop) :
  wp p s Q <-> exists r s', run p s = Some (r, s') /\ Q r s'.
Proof.
  unfold wp. destruct (run p s) as [[r s']|]; split; try done.
  - intros H. by exists r, s'.
  - by intros (? & ? & [= -> ->] & ?).
  - by intros (? & ? & ? & ?).
Qed.

End Rules.
