(* ===== verification/DiskBTree.v ===== *)
(** * The disk B+tree ([crates/aiondb-buffer-pool/src/disk_btree.rs])

    The tree keeps its root, height, page count and free list on page 0 and its entries
    on leaf pages linked to the right.  Each operation of [DiskBTree] but [delete] (in
    [BTreeMaintenance]) is a program here, page access by page access.  Loops that
    follow page numbers found on pages take [fuel]; running out of it is [Panic].

    Lengths of vectors are below [2^63], so their [saturating_add] is a sum.  A guard is
    dropped as soon as its page has been read or written. *)

From S2P Require Import Prelude.
From S2P Require Import Bytes.
From S2P Require Import PageBytes.
From S2P Require Import PoolPage.
From S2P Require Import ClockSweep.
From S2P Require Import BufferPool.
From S2P Require Import BTreePage.
From S2P Require Import PageProg.

Record DiskBTreeConfig : Type := { leaf_capacity : Z; internal_capacity : Z }.

(** [DiskBTreeConfig::new]; the relation is that of the [Rel]. *)
Definition default_config : DiskBTreeConfig :=
  {| leaf_capacity := (PAGE_SIZE - PAGE_HEADER_SIZE) / LEAF_ENTRY_SIZE;
     internal_capacity := (PAGE_SIZE - PAGE_HEADER_SIZE - 8) / INTERNAL_ENTRY_SIZE |}.

Record DiskBTreeStats : Type := { root_page_of : Z; height_of : Z; page_count_of : Z }.

Record Split : Type := { separator : Z; right_page : Z }.

Record PathFrame : Type := { page_no : Z; child_slot : nat }.

(** [Vec::insert], [Vec::remove] and an assignment to the key of an entry. *)
Definition vec_insert {A} (i : nat) (x : A) (l : list A) : list A := take i l ++ x :: drop i l.

Definition vec_remove {A} (l : list A) (i : nat) : Prog (list A) :=
  _ ← at_index (l !! i); mret (delete i l).

Definition set_key (l : list (Z * Z)) (i : nat) (k : Z) : Prog (list (Z * Z)) :=
  e ← at_index (l !! i); mret (<[i := (k, snd e)]> l).

(** [slice.chunks(n)], [n > 0]. *)
Fixpoint chunks_fuel {A} (fuel : nat) (n : nat) (l : list A) : list (list A) :=
  match fuel, l with
  | _, [] => []
  | O, _ => []
  | S fuel, _ => take n l :: chunks_fuel fuel n (drop n l)
  end.

Definition chunks {A} (n : nat) (l : list A) : list (list A) := chunks_fuel (length l) n l.

(** [u64::saturating_add]. *)
Definition sat_u64 (a b : Z) : Z := saturating_add u64_max a b.

(** ** The metapage *)

Definition root_page : Prog Z := d ← fetch META_PAGE_NO; Ret (read_u64 d META_ROOT_OFFSET).
Definition height : Prog Z := d ← fetch META_PAGE_NO; Ret (read_u32 d META_HEIGHT_OFFSET).
Definition page_count : Prog Z := d ← fetch META_PAGE_NO; Ret (read_u64 d META_PAGE_COUNT_OFFSET).

(** [self.page_count().unwrap_or(0)]. *)
Definition page_count_or_0 : Prog Z :=
  Fetch META_PAGE_NO (fun r => mret match r with
    | Ok d => match read_u64 d META_PAGE_COUNT_OFFSET with Ok c => c | Err _ => 0 end
    | Err _ => 0
    end).

Definition free_list_head : Prog Z :=
  d ← fetch META_PAGE_NO;
  page_no ← Ret (read_u64 d META_FREE_LIST_OFFSET);
  mret (if page_no =? META_PAGE_NO then NO_PAGE else page_no).

Definition set_free_list_head (page_no : Z) : Prog unit :=
  _ ← modify META_PAGE_NO (write_u64 META_FREE_LIST_OFFSET page_no); mret tt.

Definition set_root (root_page height : Z) : Prog unit :=
  _ ← modify META_PAGE_NO (write_u64 META_ROOT_OFFSET root_page ;; write_u32 META_HEIGHT_OFFSET height)%update;
  mret tt.

Definition set_page_count (page_count : Z) : Prog unit :=
  _ ← modify META_PAGE_NO (write_u64 META_PAGE_COUNT_OFFSET page_count); mret tt.

Definition stats : Prog DiskBTreeStats :=
  r ← root_page; h ← height; c ← page_count;
  mret {| root_page_of := r; height_of := h; page_count_of := c |}.

Definition pop_free_page : Prog (option Z) :=
  page_no ← free_list_head;
  if page_no =? NO_PAGE then mret None
  else d ← fetch page_no;
       _ ← set_free_list_head (read_right_sibling d);
       mret (Some page_no).

Definition push_free_page (page_no : Z) : Prog unit :=
  old_head ← free_list_head;
  _ ← modify page_no (init_page Leaf old_head);
  set_free_list_head page_no.

Definition allocate_initialized_page (kind : PageKind) : Prog Z :=
  popped ← pop_free_page;
  match popped with
  | Some page_no => _ ← modify page_no (init_page kind NO_PAGE); mret page_no
  | None =>
      create_page (fun page_no => c ← page_count_or_0; set_page_count (Z.max (sat_u64 page_no 1) c))
        (init_page kind NO_PAGE)
  end.

(** ** Opening *)

Definition initialize_meta_page : Prog unit :=
  _ ← create_page (fun page_no => if negb (page_no =? META_PAGE_NO) then Ret (Err corrupt) else mret tt) init_meta;
  mret tt.

(** Also the body of [bulk_load_sorted] on no entries. *)
Definition initialize_empty : Prog unit :=
  _ ← initialize_meta_page;
  root_no ← allocate_initialized_page Leaf;
  _ ← set_root root_no 1;
  set_page_count (sat_u64 root_no 1).

Definition reset_and_initialize : Prog unit :=
  ResetRelation (fun r => _ ← Ret r; initialize_empty).

Definition open_or_create : Prog unit :=
  Fetch META_PAGE_NO (fun r =>
    match r with
    | Ok d =>
        if bool_decide (slice d 0 8 = META_MAGIC) then mret tt
        else if forallb (fun byte => byte =? 0) d then reset_and_initialize
        else Ret (Err corrupt)
    | Err (Io NotFound) => reset_and_initialize
    | Err e => Ret (Err e)
    end).

Definition flush : Prog unit :=
  FlushAll (fun r => _ ← Ret r; Sync Ret).

(** ** Descents *)

(** The loop of [leaf_for_key_with_path]. *)
Fixpoint leaf_for_key_loop (fuel : nat) (key page : Z) (path : list PathFrame) :
    Prog (Z * list PathFrame) :=
  match fuel with
  | O => Panic
  | S fuel =>
      d ← fetch page;
      kind ← Ret (read_page_kind d);
      match kind with
      | Leaf => mret (page, path)
      | Internal =>
          '(child, slot) ← Ret (internal_child_for_key_with_slot d key);
          leaf_for_key_loop fuel key child (path ++ [{| page_no := page; child_slot := slot |}])
      end
  end.

Definition leaf_for_key_with_path (fuel : nat) (key : Z) : Prog (Z * list PathFrame) :=
  root ← root_page; leaf_for_key_loop fuel key root [].

Definition leaf_for_key (fuel : nat) (key : Z) : Prog Z :=
  '(leaf, _) ← leaf_for_key_with_path fuel key; mret leaf.

Fixpoint get_loop (fuel : nat) (key page : Z) : Prog (option Z) :=
  match fuel with
  | O => Panic
  | S fuel =>
      d ← fetch page;
      kind ← Ret (read_page_kind d);
      match kind with
      | Leaf => Ret (leaf_get d key)
      | Internal => child ← Ret (internal_child_for_key d key); get_loop fuel key child
      end
  end.

Definition get (fuel : nat) (key : Z) : Prog (option Z) :=
  root ← root_page; get_loop fuel key root.

Fixpoint leftmost_loop (fuel : nat) (page : Z) : Prog Z :=
  match fuel with
  | O => Panic
  | S fuel =>
      d ← fetch page;
      kind ← Ret (read_page_kind d);
      match kind with
      | Leaf => mret page
      | Internal =>
          let child := read_first_child d in
          if child =? NO_PAGE then Ret (Err corrupt) else leftmost_loop fuel child
      end
  end.

Definition leftmost_leaf (fuel : nat) : Prog Z := root ← root_page; leftmost_loop fuel root.

Fixpoint rightmost_loop (fuel : nat) (page : Z) : Prog Z :=
  match fuel with
  | O => Panic
  | S fuel =>
      d ← fetch page;
      kind ← Ret (read_page_kind d);
      match kind with
      | Leaf => mret page
      | Internal =>
          entries ← Ret (read_internal_entries d);
          let child := match last entries with Some (_, child) => child | None => read_first_child d end in
          if child =? NO_PAGE then Ret (Err corrupt) else rightmost_loop fuel child
      end
  end.

Definition rightmost_leaf (fuel : nat) : Prog Z := root ← root_page; rightmost_loop fuel root.

(** The entries of a leaf and its right sibling, read together. *)
Definition read_leaf (n : Z) : Prog (list (Z * Z) * Z) :=
  d ← fetch n; entries ← Ret (read_leaf_entries d); mret (entries, read_right_sibling d).

(** ** Range scans *)

Definition below (lower : option Z) (key : Z) : bool :=
  match lower with Some lower => key <? lower | None => false end.
Definition above (upper : option Z) (key : Z) : bool :=
  match upper with Some upper => upper <? key | None => false end.
Definition full (limit : option Z) (out : list (Z * Z)) : bool :=
  match limit with Some limit => limit <=? count_of out | None => false end.

(** The loop over a leaf's entries, which skips entries, stops the scan at one, or adds
    one to the output: the output so far, and whether the scan returns. *)
Fixpoint scan_entries (skip stop : Z -> bool) (limit : option Z) (entries out : list (Z * Z)) :
    bool * list (Z * Z) :=
  match entries with
  | [] => (false, out)
  | (key, value) :: rest =>
      if skip key then scan_entries skip stop limit rest out
      else if stop key then (true, out)
      else
        let out := out ++ [(key, value)] in
        if full limit out then (true, out) else scan_entries skip stop limit rest out
  end.

Definition range_entries (lower upper limit : option Z) : list (Z * Z) -> list (Z * Z) -> bool * list (Z * Z) :=
  scan_entries (below lower) (above upper) limit.

Definition desc_entries (lower upper limit : option Z) : list (Z * Z) -> list (Z * Z) -> bool * list (Z * Z) :=
  scan_entries (above upper) (below lower) limit.

Fixpoint range_loop (fuel : nat) (lower upper limit : option Z) (page : Z) (out : list (Z * Z)) :
    Prog (list (Z * Z)) :=
  match fuel with
  | O => Panic
  | S fuel =>
      '(entries, right_sibling) ← read_leaf page;
      let '(stop, out) := range_entries lower upper limit entries out in
      if stop then mret out
      else if right_sibling =? NO_PAGE then mret out
      else range_loop fuel lower upper limit right_sibling out
  end.

(** The leaf a scan starts from. *)
Definition start_leaf (fuel : nat) (lower : option Z) : Prog Z :=
  match lower with Some key => leaf_for_key fuel key | None => leftmost_leaf fuel end.

Definition range (fuel : nat) (lower upper limit : option Z) : Prog (list (Z * Z)) :=
  if bool_decide (limit = Some 0) then mret []
  else page ← start_leaf fuel lower; range_loop fuel lower upper limit page [].

(** Whether [range_desc] keeps a leaf: its last or its first key is at most [upper]. *)
Definition keeps_leaf (upper : option Z) (entries : list (Z * Z)) : bool :=
  let ok e := match e with Some (key, _) => negb (above upper key) | None => false end in
  ok (last entries) || ok (head entries).

Fixpoint desc_pages_loop (fuel : nat) (upper : option Z) (page : Z) (leaf_pages : list Z) :
    Prog (list Z) :=
  match fuel with
  | O => Panic
  | S fuel =>
      '(entries, right_sibling) ← read_leaf page;
      let leaf_pages := if keeps_leaf upper entries then leaf_pages ++ [page] else leaf_pages in
      if right_sibling =? NO_PAGE then mret leaf_pages
      else desc_pages_loop fuel upper right_sibling leaf_pages
  end.

Fixpoint desc_out_loop (lower upper limit : option Z) (leaf_pages : list Z) (out : list (Z * Z)) :
    Prog (list (Z * Z)) :=
  match leaf_pages with
  | [] => mret out
  | page :: rest =>
      '(entries, _) ← read_leaf page;
      let '(stop, out) := desc_entries lower upper limit (reverse entries) out in
      if stop then mret out else desc_out_loop lower upper limit rest out
  end.

(** The general path of [range_desc]. *)
Definition range_desc_scan (fuel : nat) (lower upper limit : option Z) : Prog (list (Z * Z)) :=
  page ← start_leaf fuel lower;
  leaf_pages ← desc_pages_loop fuel upper page [];
  desc_out_loop lower upper limit (reverse leaf_pages) [].

Definition range_desc (fuel : nat) (lower upper limit : option Z) : Prog (list (Z * Z)) :=
  if bool_decide (limit = Some 0) then mret []
  else match lower, upper, limit with
       | None, None, Some n =>
           page ← rightmost_leaf fuel;
           '(entries, _) ← read_leaf page;
           if n <=? count_of entries then mret (take (Z.to_nat n) (reverse entries))
           else range_desc_scan fuel lower upper limit
       | _, _, _ => range_desc_scan fuel lower upper limit
       end.

(** ** Insertion and bulk loading *)

Section Insertion.
Context (cfg : DiskBTreeConfig).

(** The entries of a leaf with [key] set to [value]. *)
Definition put_entry (entries : list (Z * Z)) (key value : Z) : list (Z * Z) :=
  match binary_search entries key with
  | Ok idx => <[idx := (key, value)]> entries
  | Err idx => vec_insert idx (key, value) entries
  end.

Definition insert_leaf (page : Z) (key value : Z) : Prog (option Split) :=
  '(entries, _) ← read_leaf page;
  let entries := put_entry entries key value in
  if count_of entries <=? leaf_capacity cfg then
    _ ← modify page (write_leaf_entries entries); mret None
  else
    right_page ← allocate_initialized_page Leaf;
    let split_at := (length entries / 2)%nat in
    let right_entries := drop split_at entries in
    let entries := take split_at entries in
    '(separator, _) ← at_index (head right_entries);
    d ← fetch page;
    let old_right := read_right_sibling d in
    _ ← modify page (write_leaf_entries entries ;; write_right_sibling right_page)%update;
    _ ← modify right_page (write_leaf_entries right_entries ;; write_right_sibling old_right)%update;
    mret (Some {| separator := separator; right_page := right_page |}).

(** The first child and the entries of an internal page, read together. *)
Definition read_internal (n : Z) : Prog (Z * list (Z * Z)) :=
  d ← fetch n; entries ← Ret (read_internal_entries d); mret (read_first_child d, entries).

Definition insert_internal_entry (page : Z) (split : Split) : Prog (option Split) :=
  '(first_child, entries) ← read_internal page;
  let idx := partition_point entries (separator split) in
  let entries := vec_insert idx (separator split, DiskBTree.right_page split) entries in
  if count_of entries <=? internal_capacity cfg then
    _ ← modify page (write_internal_entries first_child entries); mret None
  else
    let split_at := (length entries / 2)%nat in
    '(promoted, right_first_child) ← at_index (entries !! split_at);
    let right_entries := drop (S split_at) entries in
    let entries := take (S split_at) entries in
    right_page ← allocate_initialized_page Internal;
    _ ← modify page (write_internal_entries first_child (take split_at entries));
    _ ← modify right_page (write_internal_entries right_first_child right_entries);
    mret (Some {| separator := promoted; right_page := right_page |}).

Fixpoint insert_recursive (fuel : nat) (page key value : Z) : Prog (option Split) :=
  match fuel with
  | O => Panic
  | S fuel =>
      d ← fetch page;
      kind ← Ret (read_page_kind d);
      match kind with
      | Leaf => insert_leaf page key value
      | Internal =>
          d ← fetch page;
          child ← Ret (internal_child_for_key d key);
          child_split ← insert_recursive fuel child key value;
          match child_split with
          | None => mret None
          | Some split => insert_internal_entry page split
          end
      end
  end.

Definition insert (fuel : nat) (key value : Z) : Prog unit :=
  root ← root_page;
  split ← insert_recursive fuel root key value;
  match split with
  | None => mret tt
  | Some split =>
      new_root ← allocate_initialized_page Internal;
      _ ← modify new_root (write_count 1 ;; write_first_child root ;;
                           write_internal_entry 0 (separator split) (right_page split))%update;
      h ← height;
      set_root new_root (saturating_add u32_max h 1)
  end.

(** The loops of [bulk_load_sorted]. *)
Fixpoint bulk_leaves (cs : list (list (Z * Z))) : Prog (list (Z * Z)) :=
  match cs with
  | [] => mret []
  | chunk :: rest =>
      page ← allocate_initialized_page Leaf;
      _ ← modify page (write_leaf_entries chunk);
      '(key, _) ← at_index (head chunk);
      level ← bulk_leaves rest;
      mret ((key, page) :: level)
  end.

Fixpoint bulk_link (level : list (Z * Z)) : Prog unit :=
  match level with
  | (_, page) :: (((_, right_page_no) :: _) as rest) =>
      _ ← modify page (write_right_sibling right_page_no); bulk_link rest
  | _ => mret tt
  end.

Fixpoint bulk_groups (gs : list (list (Z * Z))) : Prog (list (Z * Z)) :=
  match gs with
  | [] => mret []
  | group :: rest =>
      page ← allocate_initialized_page Internal;
      '(key, first_child) ← at_index (head group);
      _ ← modify page (write_internal_entries first_child (tail group));
      level ← bulk_groups rest;
      mret ((key, page) :: level)
  end.

Fixpoint bulk_levels (fuel : nat) (level : list (Z * Z)) (h : Z) : Prog (list (Z * Z) * Z) :=
  match fuel with
  | O => Panic
  | S fuel =>
      if (1 <? length level)%nat then
        next_level ← bulk_groups (chunks (Z.to_nat (Z.max (sat_u64 (internal_capacity cfg) 1) 2)) level);
        bulk_levels fuel next_level (saturating_add u32_max h 1)
      else mret (level, h)
  end.

Definition bulk_load_sorted (fuel : nat) (entries : list (Z * Z)) : Prog unit :=
  ResetRelation (fun r =>
    _ ← Ret r;
    match entries with
    | [] => initialize_empty
    | _ =>
        _ ← initialize_meta_page;
        level ← bulk_leaves (chunks (Z.to_nat (Z.max (leaf_capacity cfg) 1)) entries);
        _ ← bulk_link level;
        '(level, h) ← bulk_levels fuel level 1;
        '(_, root) ← at_index (head level);
        _ ← set_root root h;
        flush
    end).

End Insertion.
