(* ===== verification/BTreeMaintenance.v ===== *)
(** * Deletion from the disk B+tree
    ([crates/aiondb-buffer-pool/src/disk_btree_maintenance.rs], [DiskBTree::delete])

    Removing a key, and the repairs after it: unlinking an empty leaf, merging a leaf or
    an internal page with a sibling or moving entries between them, collapsing pages
    with one child, refreshing separators, and returning the pages no longer used to
    the free list.  A path is the vector of the source, the root first; the recursion of
    [try_redistribute_deepest_internal] is on shorter and shorter paths. *)

From S2P Require Import Prelude.
From S2P Require Import Bytes.
From S2P Require Import PageBytes.
From S2P Require Import PoolPage.
From S2P Require Import ClockSweep.
From S2P Require Import BufferPool.
From S2P Require Import BTreePage.
From S2P Require Import PageProg.
From S2P Require Import DiskBTree.

Definition min_leaf_entries (cfg : DiskBTreeConfig) : Z := (Z.max (leaf_capacity cfg) 2 + 1) / 2.

Definition min_internal_entries (cfg : DiskBTreeConfig) : Z :=
  Z.max 0 ((Z.max (internal_capacity cfg) 2 + 1) / 2 - 1).

(** [&path[..path.len() - 1]]. *)
Definition init_path (path : list PathFrame) : list PathFrame := take (length path - 1) path.

(** ** Reclaiming pages *)

(** The [while] loop: [removed_pages] has no duplicate, so it turns at most once per page. *)
Fixpoint trim_page_count (fuel : nat) (removed_pages : list Z) (c : Z) : Z :=
  match fuel with
  | O => c
  | S fuel =>
      if (0 <? c) && bool_decide (c - 1 ∈ removed_pages) then trim_page_count fuel removed_pages (c - 1) else c
  end.

Fixpoint push_free_pages (c : Z) (removed_pages : list Z) : Prog unit :=
  match removed_pages with
  | [] => mret tt
  | page :: rest =>
      if (page =? META_PAGE_NO) || (c <=? page) then push_free_pages c rest
      else _ ← push_free_page page; push_free_pages c rest
  end.

Definition reclaim_removed_pages (removed_pages : list Z) : Prog unit :=
  let removed_pages := remove_dups (merge_sort Z.le removed_pages) in
  c ← page_count;
  let c := trim_page_count (length removed_pages) removed_pages c in
  _ ← set_page_count c;
  push_free_pages c removed_pages.

(** ** Separators *)

Fixpoint refresh_loop (rev_path : list PathFrame) (new_min : Z) : Prog unit :=
  match rev_path with
  | [] => mret tt
  | frame :: rest =>
      match child_slot frame with
      | O => refresh_loop rest new_min
      | S idx =>
          '(first_child, entries) ← read_internal (page_no frame);
          match entries !! idx with
          | None => mret tt
          | Some (k, child) =>
              if k =? new_min then mret tt
              else _ ← modify (page_no frame)
                         (write_internal_entries first_child (<[idx := (new_min, child)]> entries));
                   mret tt
          end
      end
  end.

Definition refresh_ancestor_separators_after_child_min_change (path : list PathFrame) (new_min : Z) :
    Prog unit :=
  refresh_loop (reverse path) new_min.

Fixpoint subtree_first_key (fuel : nat) (page : Z) : Prog Z :=
  match fuel with
  | O => Panic
  | S fuel =>
      d ← fetch page;
      kind ← Ret (read_page_kind d);
      match kind with
      | Leaf =>
          entries ← Ret (read_leaf_entries d);
          match head entries with Some (key, _) => mret key | None => Ret (Err corrupt) end
      | Internal =>
          let child := read_first_child d in
          if child =? NO_PAGE then Ret (Err corrupt) else subtree_first_key fuel child
      end
  end.

(** ** Collapsing *)

(** The turns [idx, idx - 1, .., 1] of the [for] loop. *)
Fixpoint collapse_path_loop (fuel : nat) (path : list PathFrame) (idx : nat) (removed_pages : list Z) :
    Prog (list Z) :=
  match idx with
  | O => mret removed_pages
  | S pred =>
      frame ← at_index (path !! idx);
      '(first_child, entries) ← read_internal (page_no frame);
      if negb (bool_decide (entries = [])) || (first_child =? NO_PAGE) then mret removed_pages
      else
        parent ← at_index (path !! pred);
        '(parent_first_child, parent_entries) ← read_internal (page_no parent);
        match child_slot parent with
        | O =>
            _ ← modify (page_no parent) (write_internal_entries first_child parent_entries);
            new_min ← subtree_first_key fuel first_child;
            _ ← refresh_ancestor_separators_after_child_min_change (take pred path) new_min;
            collapse_path_loop fuel path pred (removed_pages ++ [page_no frame])
        | S slot =>
            match parent_entries !! slot with
            | None => mret removed_pages
            | Some (k, _) =>
                _ ← modify (page_no parent)
                      (write_internal_entries parent_first_child (<[slot := (k, first_child)]> parent_entries));
                collapse_path_loop fuel path pred (removed_pages ++ [page_no frame])
            end
        end
  end.

Definition collapse_single_child_internal_path (fuel : nat) (path : list PathFrame)
    (removed_pages : list Z) : Prog (list Z) :=
  if (length path <? 2)%nat then mret removed_pages
  else collapse_path_loop fuel path (length path - 1) removed_pages.

Fixpoint collapse_root_single_child_chain (fuel : nat) (removed_pages : list Z) : Prog (list Z) :=
  match fuel with
  | O => Panic
  | S fuel =>
      current_height ← height;
      if current_height <=? 1 then mret removed_pages
      else
        root ← root_page;
        d ← fetch root;
        kind ← Ret (read_page_kind d);
        match kind with
        | Leaf => mret removed_pages
        | Internal =>
            entries ← Ret (read_internal_entries d);
            let first_child := read_first_child d in
            if negb (bool_decide (entries = [])) || (first_child =? NO_PAGE) then mret removed_pages
            else
              _ ← set_root first_child (current_height - 1);
              collapse_root_single_child_chain fuel (removed_pages ++ [root])
        end
  end.

(** The tail every merge and [compact_empty_leaf] end with. *)
Definition collapse_and_reclaim (fuel : nat) (path : list PathFrame) (removed_pages : list Z) : Prog unit :=
  removed_pages ← collapse_single_child_internal_path fuel path removed_pages;
  removed_pages ← collapse_root_single_child_chain fuel removed_pages;
  reclaim_removed_pages removed_pages.

(** ** Internal pages *)

(** The left sibling of the child in [slot > 0]; [None] is the early [Ok(false)]. *)
Definition left_sibling_of (first_child : Z) (entries : list (Z * Z)) (slot : nat) : option Z :=
  match slot with
  | S (S idx) => snd <$> entries !! idx
  | _ => Some first_child
  end.

(** Moves the first child of the right page to the end of the left one until the left
    has [target] entries; the last component is the separator in the parent. *)
Fixpoint rotate_left (target : nat) (cur : list (Z * Z)) (right_first : Z)
    (right_entries : list (Z * Z)) (sep : Z) : list (Z * Z) * Z * list (Z * Z) * Z :=
  match right_entries with
  | (promoted, child) :: rest =>
      if (length cur <? target)%nat then
        rotate_left target (cur ++ [(sep, right_first)]) child rest promoted
      else (cur, right_first, right_entries, sep)
  | [] => (cur, right_first, right_entries, sep)
  end.

(** Moves the last child of the left page to the front of the right one until the left
    has [target] children; the left page, given backwards, must not run out of entries. *)
Fixpoint rotate_right (target : nat) (rev_left : list (Z * Z)) (cur_first : Z)
    (cur : list (Z * Z)) (sep : Z) : PoolResult (list (Z * Z) * Z * list (Z * Z) * Z) :=
  if (target <? length rev_left + 1)%nat then
    match rev_left with
    | [] => Err corrupt
    | (k, child) :: rest => rotate_right target rest child ((sep, cur_first) :: cur) k
    end
  else Ok (reverse rev_left, cur_first, cur, sep).

Section Maintenance.
Context (cfg : DiskBTreeConfig) (fuel : nat).

Section Merge.
(** [try_redistribute_deepest_internal] on the shorter path. *)
Context (deepest : list PathFrame -> Prog bool).

Definition try_merge_internal_with_right_sibling (current parent : PathFrame) (path : list PathFrame) :
    Prog bool :=
  '(parent_first_child, parent_entries) ← read_internal (page_no parent);
  match parent_entries !! child_slot parent with
  | None => mret false
  | Some (parent_separator, right_page_no) =>
      '(current_first_child, current_entries) ← read_internal (page_no current);
      '(right_first_child, right_entries) ← read_internal right_page_no;
      if internal_capacity cfg <? count_of current_entries + 1 + count_of right_entries then mret false
      else
        _ ← modify (page_no current) (write_internal_entries current_first_child
              (current_entries ++ (parent_separator, right_first_child) :: right_entries));
        _ ← modify (page_no parent) (write_internal_entries parent_first_child
              (delete (child_slot parent) parent_entries));
        _ ← deepest (init_path path);
        _ ← collapse_and_reclaim fuel path [right_page_no];
        mret true
  end.

Definition try_merge_internal_with_left_sibling (current parent : PathFrame) (path : list PathFrame) :
    Prog bool :=
  match child_slot parent with
  | O => mret false
  | S idx =>
      '(parent_first_child, parent_entries) ← read_internal (page_no parent);
      match left_sibling_of parent_first_child parent_entries (S idx) with
      | None => mret false
      | Some left_page_no =>
          '(left_first_child, left_entries) ← read_internal left_page_no;
          '(current_first_child, current_entries) ← read_internal (page_no current);
          if internal_capacity cfg <? count_of left_entries + 1 + count_of current_entries then mret false
          else
            '(parent_separator, _) ← at_index (parent_entries !! idx);
            _ ← modify left_page_no (write_internal_entries left_first_child
                  (left_entries ++ (parent_separator, current_first_child) :: current_entries));
            parent_entries ← vec_remove parent_entries idx;
            _ ← modify (page_no parent) (write_internal_entries parent_first_child parent_entries);
            _ ← deepest (init_path path);
            _ ← collapse_and_reclaim fuel path [page_no current];
            mret true
      end
  end.

End Merge.

Definition try_redistribute_internal_with_right_sibling (current parent : PathFrame) : Prog bool :=
  '(parent_first_child, parent_entries) ← read_internal (page_no parent);
  match parent_entries !! child_slot parent with
  | None => mret false
  | Some (parent_separator, right_page_no) =>
      '(current_first_child, current_entries) ← read_internal (page_no current);
      '(right_first_child, right_entries) ← read_internal right_page_no;
      if bool_decide (right_entries = []) then mret false
      else
        let total_children := (length current_entries + 1 + length right_entries + 1)%nat in
        let target_left_entries := (total_children / 2 - 1)%nat in
        if (target_left_entries <=? length current_entries)%nat then mret false
        else
          let '(current_entries, right_first_child, right_entries, sep) :=
            rotate_left target_left_entries current_entries right_first_child right_entries
              parent_separator in
          _ ← modify (page_no current) (write_internal_entries current_first_child current_entries);
          _ ← modify right_page_no (write_internal_entries right_first_child right_entries);
          _ ← modify (page_no parent) (write_internal_entries parent_first_child
                (<[child_slot parent := (sep, right_page_no)]> parent_entries));
          mret true
  end.

Definition try_redistribute_internal_with_left_sibling (current parent : PathFrame) : Prog bool :=
  match child_slot parent with
  | O => mret false
  | S idx =>
      '(parent_first_child, parent_entries) ← read_internal (page_no parent);
      match left_sibling_of parent_first_child parent_entries (S idx) with
      | None => mret false
      | Some left_page_no =>
          '(left_first_child, left_entries) ← read_internal left_page_no;
          '(current_first_child, current_entries) ← read_internal (page_no current);
          if bool_decide (left_entries = []) then mret false
          else
            let total_children := (length left_entries + 1 + length current_entries + 1)%nat in
            let target_left_children := (total_children / 2)%nat in
            if (length left_entries <? target_left_children)%nat then mret false
            else
              '(parent_separator, _) ← at_index (parent_entries !! idx);
              '(left_entries, current_first_child, current_entries, sep) ←
                Ret (rotate_right target_left_children (reverse left_entries) current_first_child
                       current_entries parent_separator);
              _ ← modify left_page_no (write_internal_entries left_first_child left_entries);
              _ ← modify (page_no current) (write_internal_entries current_first_child current_entries);
              parent_entries ← set_key parent_entries idx sep;
              _ ← modify (page_no parent) (write_internal_entries parent_first_child parent_entries);
              mret true
      end
  end.

(** [n] is the length of the path. *)
Fixpoint redistribute_deepest (n : nat) (path : list PathFrame) : Prog bool :=
  match n with
  | S (S _ as n') =>
      current ← at_index (path !! n');
      parent ← at_index (path !! (n' - 1)%nat);
      '(current_first_child, current_entries) ← read_internal (page_no current);
      if (current_first_child =? NO_PAGE) || bool_decide (current_entries = []) then mret false
      else if min_internal_entries cfg <=? count_of current_entries then mret false
      else
        merged ← try_merge_internal_with_right_sibling (redistribute_deepest n') current parent path;
        if merged : bool then mret true else
        merged ← try_merge_internal_with_left_sibling (redistribute_deepest n') current parent path;
        if merged : bool then mret true else
        moved ← try_redistribute_internal_with_right_sibling current parent;
        if moved : bool then mret true else
        try_redistribute_internal_with_left_sibling current parent
  | _ => mret false
  end.

Definition try_redistribute_deepest_internal (path : list PathFrame) : Prog bool :=
  redistribute_deepest (length path) path.

(** ** Leaves *)

Fixpoint previous_leaf_loop (fuel : nat) (target page : Z) (previous : option Z) : Prog (option Z) :=
  match fuel with
  | O => Panic
  | S fuel =>
      if page =? NO_PAGE then mret None
      else if page =? target then mret previous
      else d ← fetch page; previous_leaf_loop fuel target (read_right_sibling d) (Some page)
  end.

Definition find_previous_leaf (target : Z) : Prog (option Z) :=
  page ← leftmost_leaf fuel; previous_leaf_loop fuel target page None.

Definition write_leaf (entries : list (Z * Z)) (right_sibling : Z) : Update :=
  (write_leaf_entries entries ;; write_right_sibling right_sibling)%update.

Definition compact_empty_leaf (leaf right_sibling : Z) (path : list PathFrame) : Prog unit :=
  match last path with
  | None => mret tt
  | Some parent =>
      '(first_child, entries) ← read_internal (page_no parent);
      if (length entries + 1 <=? child_slot parent)%nat then mret tt
      else
        let next_child := snd <$> entries !! child_slot parent in
        previous ← find_previous_leaf leaf;
        _ ← match previous with
            | Some previous => _ ← modify previous (write_right_sibling right_sibling); mret tt
            | None => mret tt
            end;
        match child_slot parent, next_child with
        | O, None => mret tt
        | slot, _ =>
            '(new_first_child, entries) ←
              match slot, next_child with
              | O, Some next_child => entries ← vec_remove entries O; mret (next_child, entries)
              | _, _ => entries ← vec_remove entries (slot - 1); mret (first_child, entries)
              end;
            _ ← modify (page_no parent) (write_internal_entries new_first_child entries);
            _ ← match slot with
                | O =>
                    new_min ← subtree_first_key fuel new_first_child;
                    refresh_ancestor_separators_after_child_min_change (init_path path) new_min
                | S _ => mret tt
                end;
            _ ← try_redistribute_deepest_internal path;
            collapse_and_reclaim fuel path [leaf]
        end
  end.

Definition try_merge_leaf_with_right_sibling (leaf : Z) (leaf_entries : list (Z * Z))
    (right_sibling : Z) (path : list PathFrame) : Prog bool :=
  match last path with
  | None => mret false
  | Some parent =>
      if right_sibling =? NO_PAGE then mret false
      else
        '(first_child, parent_entries) ← read_internal (page_no parent);
        match parent_entries !! child_slot parent with
        | None => mret false
        | Some (_, child) =>
            if negb (child =? right_sibling) then mret false
            else
              '(right_entries, right_right_sibling) ← read_leaf right_sibling;
              if leaf_capacity cfg <? count_of leaf_entries + count_of right_entries then mret false
              else
                _ ← modify leaf (write_leaf (leaf_entries ++ right_entries) right_right_sibling);
                _ ← modify (page_no parent) (write_internal_entries first_child
                      (delete (child_slot parent) parent_entries));
                _ ← try_redistribute_deepest_internal path;
                _ ← collapse_and_reclaim fuel path [right_sibling];
                mret true
        end
  end.

Definition try_merge_leaf_with_left_sibling (leaf : Z) (path : list PathFrame) : Prog bool :=
  match last path with
  | None => mret false
  | Some parent =>
      match child_slot parent with
      | O => mret false
      | S idx =>
          '(first_child, parent_entries) ← read_internal (page_no parent);
          match left_sibling_of first_child parent_entries (S idx) with
          | None => mret false
          | Some left_sibling =>
              '(left_entries, left_right_sibling) ← read_leaf left_sibling;
              if negb (left_right_sibling =? leaf) then mret false
              else
                '(current_entries, current_right_sibling) ← read_leaf leaf;
                if leaf_capacity cfg <? count_of left_entries + count_of current_entries then mret false
                else
                  _ ← modify left_sibling (write_leaf (left_entries ++ current_entries) current_right_sibling);
                  parent_entries ← vec_remove parent_entries idx;
                  _ ← modify (page_no parent) (write_internal_entries first_child parent_entries);
                  _ ← try_redistribute_deepest_internal path;
                  _ ← collapse_and_reclaim fuel path [leaf];
                  mret true
          end
      end
  end.

Definition try_redistribute_leaf_with_right_sibling (leaf : Z) (leaf_entries : list (Z * Z))
    (right_sibling : Z) (path : list PathFrame) : Prog bool :=
  match last path with
  | None => mret false
  | Some parent =>
      if right_sibling =? NO_PAGE then mret false
      else
        '(first_child, parent_entries) ← read_internal (page_no parent);
        match parent_entries !! child_slot parent with
        | None => mret false
        | Some (_, child) =>
            if negb (child =? right_sibling) then mret false
            else
              '(right_entries, right_right_sibling) ← read_leaf right_sibling;
              let total := (length leaf_entries + length right_entries)%nat in
              if Z.of_nat total <=? leaf_capacity cfg then mret false
              else
                let target_left := (total / 2)%nat in
                if (target_left <=? length leaf_entries)%nat || bool_decide (right_entries = []) then mret false
                else
                  (* the [while] loop moves entries to the left until it has [target_left] *)
                  let moved := (target_left - length leaf_entries)%nat in
                  let left_entries := leaf_entries ++ take moved right_entries in
                  let right_entries := drop moved right_entries in
                  match head right_entries with
                  | None => mret false
                  | Some (new_separator, _) =>
                      _ ← modify leaf (write_leaf left_entries right_sibling);
                      _ ← modify right_sibling (write_leaf right_entries right_right_sibling);
                      _ ← modify (page_no parent) (write_internal_entries first_child
                            (<[child_slot parent := (new_separator, child)]> parent_entries));
                      mret true
                  end
        end
  end.

Definition try_redistribute_leaf_with_left_sibling (leaf : Z) (path : list PathFrame) : Prog bool :=
  match last path with
  | None => mret false
  | Some parent =>
      match child_slot parent with
      | O => mret false
      | S idx =>
          '(first_child, parent_entries) ← read_internal (page_no parent);
          match left_sibling_of first_child parent_entries (S idx) with
          | None => mret false
          | Some left_sibling =>
              '(left_entries, left_right_sibling) ← read_leaf left_sibling;
              if negb (left_right_sibling =? leaf) then mret false
              else
                '(current_entries, current_right_sibling) ← read_leaf leaf;
                let total := (length left_entries + length current_entries)%nat in
                if Z.of_nat total <=? leaf_capacity cfg then mret false
                else
                  let target_left := (total / 2)%nat in
                  if (length left_entries <=? target_left)%nat || bool_decide (current_entries = []) then mret false
                  else
                    (* the [while] loop moves the last entries of the left page until
                       [target_left] are left *)
                    let current_entries := drop target_left left_entries ++ current_entries in
                    let left_entries := take target_left left_entries in
                    match head current_entries with
                    | None => mret false
                    | Some (new_separator, _) =>
                        _ ← modify left_sibling (write_leaf left_entries leaf);
                        _ ← modify leaf (write_leaf current_entries current_right_sibling);
                        parent_entries ← set_key parent_entries idx new_separator;
                        _ ← modify (page_no parent) (write_internal_entries first_child parent_entries);
                        mret true
                    end
          end
      end
  end.

(** ** The root *)

Definition collapse_root_leaf_pair_if_possible : Prog bool :=
  h ← height;
  if negb (h =? 2) then mret false
  else
    root ← root_page;
    d ← fetch root;
    kind ← Ret (read_page_kind d);
    if bool_decide (kind <> Internal) then mret false
    else
      entries ← Ret (read_internal_entries d);
      let first_child := read_first_child d in
      match entries with
      | [(_, right_child)] =>
          left ← fetch first_child;
          kind ← Ret (read_page_kind left);
          if bool_decide (kind <> Leaf) then mret false
          else
            left_entries ← Ret (read_leaf_entries left);
            right ← fetch right_child;
            kind ← Ret (read_page_kind right);
            if bool_decide (kind <> Leaf) then mret false
            else
              right_entries ← Ret (read_leaf_entries right);
              if negb (read_right_sibling left =? right_child) then mret false
              else if leaf_capacity cfg <? count_of left_entries + count_of right_entries then mret false
              else
                _ ← modify first_child (write_leaf (left_entries ++ right_entries) (read_right_sibling right));
                _ ← set_root first_child 1;
                _ ← reclaim_removed_pages [right_child; root];
                mret true
      | _ => mret false
      end.

Definition collapse_root_internal_pair_if_possible : Prog bool :=
  h ← height;
  if h <=? 2 then mret false
  else
    root ← root_page;
    d ← fetch root;
    kind ← Ret (read_page_kind d);
    if bool_decide (kind <> Internal) then mret false
    else
      root_entries ← Ret (read_internal_entries d);
      let root_first_child := read_first_child d in
      match root_entries with
      | [(root_separator, right_child)] =>
          left ← fetch root_first_child;
          kind ← Ret (read_page_kind left);
          if bool_decide (kind <> Internal) then mret false
          else
            left_entries ← Ret (read_internal_entries left);
            right ← fetch right_child;
            kind ← Ret (read_page_kind right);
            if bool_decide (kind <> Internal) then mret false
            else
              right_entries ← Ret (read_internal_entries right);
              if internal_capacity cfg <? count_of left_entries + 1 + count_of right_entries then mret false
              else
                _ ← modify root_first_child (write_internal_entries (read_first_child left)
                      (left_entries ++ (root_separator, read_first_child right) :: right_entries));
                _ ← set_root root_first_child (h - 1);
                _ ← reclaim_removed_pages [right_child; root];
                mret true
      | _ => mret false
      end.

Fixpoint collapse_root_pairs_if_possible (turns : nat) : Prog unit :=
  match turns with
  | O => Panic
  | S turns =>
      collapsed ← collapse_root_internal_pair_if_possible;
      if collapsed : bool then collapse_root_pairs_if_possible turns
      else
        collapsed ← collapse_root_leaf_pair_if_possible;
        if collapsed : bool then collapse_root_pairs_if_possible turns else mret tt
  end.

(** ** [delete] *)

(** The repairs of a leaf that lost an entry and still has some. *)
Definition rebalance_leaf (leaf : Z) (entries : list (Z * Z)) (old_first_key : option Z)
    (right_sibling : Z) (path : list PathFrame) : Prog unit :=
  _ ← match fst <$> head entries with
      | Some new_first_key =>
          if bool_decide (Some new_first_key <> old_first_key)
          then refresh_ancestor_separators_after_child_min_change path new_first_key
          else mret tt
      | None => mret tt
      end;
  if min_leaf_entries cfg <=? count_of entries then mret tt
  else
    merged ← try_merge_leaf_with_right_sibling leaf entries right_sibling path;
    if merged : bool then mret tt else
    merged ← try_merge_leaf_with_left_sibling leaf path;
    if merged : bool then mret tt else
    moved ← try_redistribute_leaf_with_right_sibling leaf entries right_sibling path;
    if moved : bool then mret tt else
    _ ← try_redistribute_leaf_with_left_sibling leaf path; mret tt.

Definition delete (key : Z) : Prog bool :=
  '(leaf, path) ← leaf_for_key_with_path fuel key;
  '(entries, _) ← read_leaf leaf;
  let old_first_key := fst <$> head entries in
  match binary_search entries key with
  | Err _ => mret false
  | Ok idx =>
      entries ← vec_remove entries idx;
      d ← modify leaf (write_leaf_entries entries);
      let right_sibling := read_right_sibling d in
      _ ← match entries with
          | [] => compact_empty_leaf leaf right_sibling path
          | _ => rebalance_leaf leaf entries old_first_key right_sibling path
          end;
      _ ← collapse_root_pairs_if_possible fuel;
      mret true
  end.

End Maintenance.
