(* ===== verification/BTreeState.v ===== *)
(** * Reasoning about programs on B+tree pages

    [rep s m L] says that the relation [s] holds the metapage [m] describes, its free
    list, and the cells [L]: disjoint pages and what each holds.  Pages that [L] does
    not list may hold anything.  [hp p m L Q]: from every such relation [p] returns (no
    panic), and leaves one that is described by some [m'] and [L'] with [Q].  A cell
    that a program does not touch stays in [L]; the rules below are for the page
    accesses and for the metapage and free-list operations of [DiskBTree]. *)

From S2P Require Import Prelude.
From S2P Require Import Bytes.
From S2P Require Import PageBytes.
From S2P Require Import PoolPage.
From S2P Require Import ClockSweep.
From S2P Require Import BufferPool.
From S2P Require Import BTreePage.
From S2P Require Import PageProg.
From S2P Require Import DiskBTree.
From S2P Require Import BTreeMaintenance.

Abbreviation cell := (Z * node)%type.

Section State.
Context {PL : PageLimit}.

(** [m_junk] are pages that were given up but still hold what they held: those behind a
    page count that was lowered. *)
Record Meta : Type :=
  { m_root : Z; m_height : Z; m_count : Z; m_free : list Z; m_next : Z; m_junk : list cell }.

Definition head_or (l : list Z) (r : Z) : Z := match l with [] => r | n :: _ => n end.

Definition meta_page (m : Meta) : MetaPage :=
  {| meta_root := m_root m; meta_height := m_height m; meta_count := m_count m;
     meta_head := head_or (m_free m) NO_PAGE |}.

(** A free page is an empty leaf whose right sibling is the next free page. *)
Fixpoint free_cells (l : list Z) : list cell :=
  match l with [] => [] | n :: rest => (n, NLeaf [] (head_or rest NO_PAGE)) :: free_cells rest end.

Definition cell_in (s : Rel) (c : cell) : Prop := exists d, pages s !! fst c = Some d /\ page_is d (snd c).

(** Pages are numbered from 1 below the page count. *)
Definition pages_ok (m : Meta) (L : list cell) : Prop :=
  NoDup (m_free m ++ L.*1) /\ Forall (fun n => 1 <= n < m_count m) (m_free m ++ L.*1) /\
  m_count m <= m_next m <= u64_max.

Definition meta_ok (m : Meta) : Prop := in_u64 (m_root m) /\ in_u32 (m_height m) /\ 0 <= m_count m /\ 1 <= m_next m.

Definition junk_in (s : Rel) (m : Meta) (L : list cell) (c : cell) : Prop :=
  cell_in s c /\ 1 <= fst c < m_next m /\ fst c ∉ m_free m ++ L.*1.

Record rep (s : Rel) (m : Meta) (L : list cell) : Prop := {
  rep_meta : exists d, pages s !! META_PAGE_NO = Some d /\ meta_is d (meta_page m);
  rep_ok : meta_ok m;
  rep_pages : pages_ok m L;
  rep_next : next_page s = m_next m;
  rep_cells : Forall (cell_in s) (free_cells (m_free m) ++ L);
  rep_junk : Forall (junk_in s m L) (m_junk m) }.

Lemma junk_in_sub s s' m m' L L' J :
  Forall (junk_in s m L) J ->
  (forall c, c ∈ J -> fst c ∉ m_free m ++ L.*1 -> cell_in s c -> cell_in s' c /\ fst c ∉ m_free m' ++ L'.*1) ->
  m_next m <= m_next m' -> Forall (junk_in s' m' L') J.
Proof.
  intros HJ Hc Hn. rewrite Forall_forall in *. intros c Hin. destruct (HJ c Hin) as (H1 & H2 & H3).
  destruct (Hc c Hin H3 H1) as [H4 H5]. split_and!; [done|lia|lia|done].
Qed.

Definition hp {A} (p : Prog A) (m : Meta) (L : list cell) (Q : PoolResult A -> Meta -> list cell -> Prop) : Prop :=
  forall s, rep s m L -> wp p s (fun r s' => exists m' L', rep s' m' L' /\ Q r m' L').

Lemma free_cells_fst l : (free_cells l).*1 = l.
Proof. induction l as [|n l IH]; cbn; [done|by f_equal]. Qed.

#[global] Instance pages_ok_proper m : Proper ((≡ₚ) ==> iff) (pages_ok m).
Proof. intros L L' HL. unfold pages_ok. by rewrite HL. Qed.

#[global] Instance rep_proper s m : Proper ((≡ₚ) ==> iff) (rep s m).
Proof. intros L L' HL. split; intros []; 
  (split; [done|done|by rewrite HL + rewrite <- HL|done|by rewrite HL + rewrite <- HL|]);
  (eapply junk_in_sub; [done| |done]); intros c _; by rewrite HL.
Qed.

(** ** Structural rules *)

Lemma hp_ret {A} (r : PoolResult A) m L (Q : _ -> _ -> _ -> Prop) : Q r m L -> hp (Ret r) m L Q.
Proof. intros HQ s Hs. apply wp_ret. by exists m, L. Qed.

Lemma hp_mret {A} (a : A) m L (Q : _ -> _ -> _ -> Prop) : Q (Ok a) m L -> hp (mret a) m L Q.
Proof. apply hp_ret. Qed.

Lemma hp_bind {A B} (p : Prog A) (f : A -> Prog B) m L Q :
  hp p m L (fun r m' L' => match r with Ok a => hp (f a) m' L' Q | Err e => Q (Err e) m' L' end) ->
  hp (p ≫= f) m L Q.
Proof.
  intros Hp s Hs. apply wp_bind. eapply wp_mono; [by apply Hp|]. cbn beta.
  intros [a|e] s' (m' & L' & Hs' & HQ); [by apply HQ|by exists m', L'].
Qed.

Lemma hp_mono {A} (p : Prog A) m L (Q Q' : _ -> _ -> _ -> Prop) :
  hp p m L Q -> (forall r m' L', Q r m' L' -> Q' r m' L') -> hp p m L Q'.
Proof.
  intros Hp HQ s Hs. eapply wp_mono; [by apply Hp|]. cbn beta.
  intros r s' (m' & L' & Hs' & HQ'). exists m', L'. auto.
Qed.

Lemma hp_perm {A} (p : Prog A) m L L' Q : L ≡ₚ L' -> hp p m L' Q -> hp p m L Q.
Proof. intros HL Hp s Hs. apply Hp. by rewrite <- HL. Qed.

(** A cell no longer needed can be forgotten. *)
Lemma rep_drop s m c L : rep s m (c :: L) -> rep s m L.
Proof.
  intros [Hm Hk (Hn & Hb & Hc) Hx Hcs Hj]. split; [done|done| |done| |].
  - rewrite fmap_cons in *. rewrite <- Permutation_middle in Hn, Hb.
    apply NoDup_cons in Hn as [_ Hn]. apply Forall_cons in Hb as [_ Hb]. done.
  - rewrite <- Permutation_middle in Hcs. by apply Forall_cons in Hcs as [_ Hcs].
  - eapply junk_in_sub; [exact Hj| |done]. intros x _. rewrite fmap_cons, !elem_of_app, elem_of_cons. tauto.
Qed.

Lemma hp_drop {A} (p : Prog A) m c L Q : hp p m L Q -> hp p m (c :: L) Q.
Proof. intros Hp s Hs. apply Hp. by eapply rep_drop. Qed.

(** Facts of the state a proof can use at any point. *)
Lemma hp_pages {A} (p : Prog A) m L Q :
  (meta_ok m -> pages_ok m L -> Forall (fun c => node_ok (snd c)) L -> hp p m L Q) -> hp p m L Q.
Proof.
  intros Hp s Hs. apply Hp; [apply Hs|apply Hs| |done].
  pose proof (rep_cells _ _ _ Hs) as Hc. apply Forall_app in Hc as [_ Hc].
  eapply Forall_impl; [exact Hc|]. intros c (d & _ & Hd). by eapply page_is_ok.
Qed.

Lemma hp_at_index {A} (o : option A) a m L (Q : _ -> _ -> _ -> Prop) :
  o = Some a -> Q (Ok a) m L -> hp (at_index o) m L Q.
Proof. intros -> HQ. by apply hp_mret. Qed.

(** ** Cells *)

Lemma hp_fetch n nd m L (Q : _ -> _ -> _ -> Prop) :
  (n, nd) ∈ L -> (forall d, page_is d nd -> Q (Ok d) m L) -> hp (fetch n) m L Q.
Proof.
  intros Hin HQ s Hs. pose proof (rep_cells _ _ _ Hs) as Hc. apply Forall_app in Hc as [_ Hc].
  rewrite Forall_forall in Hc. destruct (Hc _ Hin) as (d & Hl & Hd).
  eapply wp_fetch; [exact Hl|]. exists m, L. auto.
Qed.

Lemma cell_in_set s n d c : fst c <> n -> cell_in s c -> cell_in (set_page s n d) c.
Proof. intros Hne (d' & Hl & Hd'). exists d'. split; [|done]. cbn. by rewrite lookup_insert_ne. Qed.

Lemma cells_in_set s n d (cs : list cell) :
  n ∉ cs.*1 -> Forall (cell_in s) cs -> Forall (cell_in (set_page s n d)) cs.
Proof.
  intros Hn. induction 1 as [|c cs Hc Hcs IH]; [done|]. cbn in Hn. apply not_elem_of_cons in Hn as [Hne Hn].
  constructor; [by apply cell_in_set|by apply IH].
Qed.

Lemma pages_ok_cons m n nd L :
  pages_ok m ((n, nd) :: L) ->
  n ∉ m_free m /\ n ∉ L.*1 /\ 1 <= n < m_count m /\ pages_ok m L.
Proof.
  intros (Hn & Hb & Hc). rewrite fmap_cons in *. cbn [fst] in *. rewrite <- Permutation_middle in Hn, Hb.
  apply NoDup_cons in Hn as [Hni Hn]. apply Forall_cons in Hb as [Hb1 Hb].
  rewrite elem_of_app in Hni. split_and!; [tauto|tauto|lia|lia|done].
Qed.

Lemma pages_ok_replace m n nd nd' L : pages_ok m ((n, nd) :: L) -> pages_ok m ((n, nd') :: L).
Proof. done. Qed.

Lemma rep_modify s m n nd nd' d' L :
  rep s m ((n, nd) :: L) -> page_is d' nd' -> rep (set_page s n d') m ((n, nd') :: L).
Proof.
  intros [(dm & Hm & Hmi) Hk Hp Hx Hcs Hj] Hd'.
  destruct (pages_ok_cons _ _ _ _ Hp) as (Hf & Hl & Hb & _). rewrite <- Permutation_middle in Hcs.
  apply Forall_cons in Hcs as [_ Hcs]. split; [|done|done|done| |].
  - exists dm. split; [|done]. cbn. rewrite lookup_insert_ne; [done|]. unfold META_PAGE_NO. lia.
  - rewrite <- Permutation_middle. constructor.
    + exists d'. split; [|done]. cbn. by rewrite lookup_insert_eq.
    + apply cells_in_set; [|done]. rewrite fmap_app, free_cells_fst. by apply not_elem_of_app.
  - eapply junk_in_sub; [exact Hj| |done]. intros x _. rewrite !fmap_cons, !elem_of_app, !elem_of_cons. cbn [fst].
    intros Hni Hxi. split; [|tauto]. apply cell_in_set; [|done]. intros E. tauto.
Qed.

Lemma hp_modify n nd nd' f m L L' (Q : _ -> _ -> _ -> Prop) :
  L ≡ₚ (n, nd) :: L' ->
  (forall d, page_is d nd -> exists d', f d = (Ok tt, d') /\ page_is d' nd') ->
  (forall d', page_is d' nd' -> Q (Ok d') m ((n, nd') :: L')) ->
  hp (modify n f) m L Q.
Proof.
  intros HL Hf HQ. apply (hp_perm _ _ _ _ _ HL). intros s Hs.
  pose proof (rep_cells _ _ _ Hs) as Hc. rewrite <- Permutation_middle in Hc.
  apply Forall_cons in Hc as [(d & Hd & Hp) _]. destruct (Hf d Hp) as (d' & Hfd & Hp').
  eapply wp_modify; [exact Hd|exact Hfd|by eapply page_is_len|]. exists m, ((n, nd') :: L'). split; [by eapply rep_modify|auto].
Qed.

(** Reads of a whole node. *)
Lemma hp_read_leaf n es r m L (Q : _ -> _ -> _ -> Prop) :
  (n, NLeaf es r) ∈ L -> Q (Ok (es, r)) m L -> hp (read_leaf n) m L Q.
Proof.
  intros Hin HQ. apply hp_bind, (hp_fetch _ _ _ _ _ Hin). intros d Hd.
  apply hp_bind, hp_ret. rewrite (read_leaf_entries_of _ _ _ Hd), (read_right_sibling_of _ _ _ Hd).
  by apply hp_mret.
Qed.

Lemma hp_read_leaf_inner n f es m L (Q : _ -> _ -> _ -> Prop) :
  (n, NInner f es) ∈ L -> Q (Err corrupt) m L -> hp (read_leaf n) m L Q.
Proof.
  intros Hin HQ. apply hp_bind, (hp_fetch _ _ _ _ _ Hin). intros d Hd.
  apply hp_bind, hp_ret. by rewrite (read_leaf_entries_inner _ _ _ Hd).
Qed.

Lemma hp_read_internal n f es m L (Q : _ -> _ -> _ -> Prop) :
  (n, NInner f es) ∈ L -> Q (Ok (f, es)) m L -> hp (read_internal n) m L Q.
Proof.
  intros Hin HQ. apply hp_bind, (hp_fetch _ _ _ _ _ Hin). intros d Hd.
  apply hp_bind, hp_ret. rewrite (read_internal_entries_of _ _ _ Hd), (read_first_child_of _ _ _ Hd).
  by apply hp_mret.
Qed.

Lemma hp_read_internal_leaf n es r m L (Q : _ -> _ -> _ -> Prop) :
  (n, NLeaf es r) ∈ L -> Q (Err corrupt) m L -> hp (read_internal n) m L Q.
Proof.
  intros Hin HQ. apply hp_bind, (hp_fetch _ _ _ _ _ Hin). intros d Hd.
  apply hp_bind, hp_ret. by rewrite (read_internal_entries_leaf _ _ _ Hd).
Qed.

(** Writes of a whole node. *)
Lemma hp_write_leaf_entries n es0 r es m L L' (Q : _ -> _ -> _ -> Prop) :
  L ≡ₚ (n, NLeaf es0 r) :: L' -> entries_ok es ->
  (forall d, page_is d (NLeaf es r) -> Q (Ok d) m ((n, NLeaf es r) :: L')) ->
  hp (modify n (write_leaf_entries es)) m L Q.
Proof. intros HL He HQ. eapply hp_modify; [done|intros d Hd; by eapply write_leaf_entries_is|done]. Qed.

Lemma hp_write_leaf n es0 r0 es r m L L' (Q : _ -> _ -> _ -> Prop) :
  L ≡ₚ (n, NLeaf es0 r0) :: L' -> entries_ok es -> in_u64 r ->
  (forall d, Q (Ok d) m ((n, NLeaf es r) :: L')) ->
  hp (modify n (seq_update (write_leaf_entries es) (write_right_sibling r))) m L Q.
Proof. intros HL He Hr HQ. eapply hp_modify; [done|intros d Hd; by eapply write_leaf_is|done]. Qed.

Lemma hp_write_right_sibling n es r0 r m L L' (Q : _ -> _ -> _ -> Prop) :
  L ≡ₚ (n, NLeaf es r0) :: L' -> in_u64 r ->
  (forall d, Q (Ok d) m ((n, NLeaf es r) :: L')) ->
  hp (modify n (write_right_sibling r)) m L Q.
Proof. intros HL Hr HQ. eapply hp_modify; [done|intros d Hd; by eapply write_right_sibling_is|done]. Qed.

Lemma hp_write_internal n f0 es0 f es m L L' (Q : _ -> _ -> _ -> Prop) :
  L ≡ₚ (n, NInner f0 es0) :: L' -> entries_ok es -> in_u64 f ->
  (forall d, Q (Ok d) m ((n, NInner f es) :: L')) ->
  hp (modify n (write_internal_entries f es)) m L Q.
Proof. intros HL He Hf HQ. eapply hp_modify; [done|intros d Hd; by eapply write_internal_entries_is|done]. Qed.

(** ** The metapage *)

Definition with_root (m : Meta) (r h : Z) : Meta :=
  {| m_root := r; m_height := h; m_count := m_count m; m_free := m_free m; m_next := m_next m;
     m_junk := m_junk m |}.
Definition with_count (m : Meta) (c : Z) : Meta :=
  {| m_root := m_root m; m_height := m_height m; m_count := c; m_free := m_free m; m_next := m_next m;
     m_junk := m_junk m |}.
Definition with_free (m : Meta) (l : list Z) : Meta :=
  {| m_root := m_root m; m_height := m_height m; m_count := m_count m; m_free := l; m_next := m_next m;
     m_junk := m_junk m |}.

Lemma hp_meta m L (Q : _ -> _ -> _ -> Prop) :
  (forall d, meta_is d (meta_page m) -> Q (Ok d) m L) -> hp (fetch META_PAGE_NO) m L Q.
Proof.
  intros HQ s Hs. destruct (rep_meta _ _ _ Hs) as (d & Hl & Hd). eapply wp_fetch; [exact Hl|].
  exists m, L. auto.
Qed.

Lemma hp_root_page m L (Q : _ -> _ -> _ -> Prop) : Q (Ok (m_root m)) m L -> hp root_page m L Q.
Proof.
  intros HQ. apply hp_bind, hp_meta. intros d Hd. apply hp_ret.
  by rewrite (proj1 (read_meta _ _ Hd)).
Qed.

Lemma hp_height m L (Q : _ -> _ -> _ -> Prop) : Q (Ok (m_height m)) m L -> hp height m L Q.
Proof.
  intros HQ. apply hp_bind, hp_meta. intros d Hd. apply hp_ret.
  by rewrite (proj1 (proj2 (read_meta _ _ Hd))).
Qed.

Lemma hp_page_count m L (Q : _ -> _ -> _ -> Prop) : Q (Ok (m_count m)) m L -> hp page_count m L Q.
Proof.
  intros HQ. apply hp_bind, hp_meta. intros d Hd. apply hp_ret.
  by rewrite (proj1 (proj2 (proj2 (read_meta _ _ Hd)))).
Qed.

Lemma hp_page_count_or_0 m L (Q : _ -> _ -> _ -> Prop) :
  Q (Ok (m_count m)) m L -> hp page_count_or_0 m L Q.
Proof.
  intros HQ s Hs. destruct (rep_meta _ _ _ Hs) as (d & Hl & Hd). unfold wp, page_count_or_0. cbn [run_in].
  rewrite Hl. cbn [ok_or]. rewrite (proj1 (proj2 (proj2 (read_meta _ _ Hd)))). by exists m, L.
Qed.

Lemma head_or_ok m L : pages_ok m L -> m_free m <> [] -> 1 <= head_or (m_free m) NO_PAGE < NO_PAGE.
Proof.
  intros (_ & Hb & Hc) Hne. destruct (m_free m) as [|n l]; [done|]. cbn in Hb. apply Forall_cons in Hb as [Hb _].
  cbn. unfold NO_PAGE in *. lia.
Qed.

Lemma head_or_u64 m L : pages_ok m L -> in_u64 (head_or (m_free m) NO_PAGE).
Proof.
  intros Hp. destruct (decide (m_free m = [])) as [->|Hne]; [done|].
  pose proof (head_or_ok _ _ Hp Hne). unfold in_u64, NO_PAGE in *. lia.
Qed.

Lemma hp_free_list_head m L (Q : _ -> _ -> _ -> Prop) :
  Q (Ok (head_or (m_free m) NO_PAGE)) m L -> hp free_list_head m L Q.
Proof.
  intros HQ. apply hp_pages. intros _ Hp _. apply hp_bind, hp_meta. intros d Hd. apply hp_bind, hp_ret.
  rewrite (proj2 (proj2 (proj2 (read_meta _ _ Hd)))). cbn. apply hp_mret.
  destruct (decide (m_free m = [])) as [E|Hne]; [by rewrite E in *|].
  pose proof (head_or_ok _ _ Hp Hne) as Hh. unfold META_PAGE_NO.
  destruct (Z.eqb_spec (head_or (m_free m) NO_PAGE) 0); [lia|done].
Qed.

(** A change of the metapage that keeps the cells. *)
Lemma hp_modify_meta f m m' L L' (Q : _ -> _ -> _ -> Prop) :
  (forall d, meta_is d (meta_page m) -> exists d', f d = (Ok tt, d') /\ meta_is d' (meta_page m')) ->
  meta_ok m' -> m_next m' = m_next m -> m_junk m' = m_junk m -> pages_ok m' L' ->
  free_cells (m_free m') ++ L' ⊆ free_cells (m_free m) ++ L ->
  Q (Ok tt) m' L' -> hp (_ ← modify META_PAGE_NO f; mret tt) m L Q.
Proof.
  intros Hf Hk Hx Hjm Hp Hsub HQ. intros s Hs. destruct (rep_meta _ _ _ Hs) as (d & Hl & Hd).
  destruct (Hf d Hd) as (d' & Hfd & Hd'). apply wp_bind. eapply wp_modify; [exact Hl|exact Hfd|apply Hd'|].
  apply wp_ret. exists m', L'. split; [|done]. split.
  - exists d'. split; [|done]. cbn. by rewrite lookup_insert_eq.
  - done.
  - done.
  - cbn. rewrite Hx. apply Hs.
  - apply cells_in_set.
    + rewrite fmap_app, free_cells_fst. intros Hin. destruct Hp as (_ & Hb & _). rewrite Forall_forall in Hb.
      pose proof (Hb _ Hin). unfold META_PAGE_NO in *. lia.
    + pose proof (rep_cells _ _ _ Hs) as Hc. rewrite Forall_forall in *. intros c Hin. apply Hc. by apply Hsub.
  - rewrite Hjm. pose proof (rep_junk _ _ _ Hs) as Hj. eapply junk_in_sub; [exact Hj| |lia].
    intros c Hin Hni Hc. split.
    + apply cell_in_set; [|done]. rewrite Forall_forall in Hj. destruct (Hj c Hin) as (_ & H1 & _).
      unfold META_PAGE_NO. lia.
    + intros Hin'. apply Hni. rewrite <- (free_cells_fst (m_free m')), <- fmap_app in Hin'.
      rewrite <- (free_cells_fst (m_free m)), <- fmap_app. apply list_elem_of_fmap in Hin' as (x & -> & Hin').
      by apply list_elem_of_fmap_2, Hsub.
Qed.

Lemma hp_set_root r h m L (Q : _ -> _ -> _ -> Prop) :
  in_u64 r -> in_u32 h -> Q (Ok tt) (with_root m r h) L -> hp (set_root r h) m L Q.
Proof.
  intros Hr Hh HQ. apply hp_pages. intros (_ & _ & Hc) Hp _. eapply (hp_modify_meta _ _ (with_root m r h)); try done.
  intros d Hd. by apply (set_root_is _ _ r h Hd).
Qed.

Lemma hp_set_page_count c m L (Q : _ -> _ -> _ -> Prop) :
  0 <= c <= m_next m -> Forall (fun n => n < c) (m_free m ++ L.*1) ->
  Q (Ok tt) (with_count m c) L -> hp (set_page_count c) m L Q.
Proof.
  intros Hc Hlt HQ. apply hp_pages. intros (Hr & Hh & _ & Hx) (Hn & Hb & Hcc) _.
  eapply (hp_modify_meta _ _ (with_count m c)); try done.
  - intros d Hd. apply (set_page_count_is _ _ c Hd). unfold in_u64. lia.
  - split_and!; [done..|cbn; lia|done].
  - split_and!; [done| |cbn; lia|cbn; lia]. rewrite Forall_forall in *. intros n Hin.
    pose proof (Hb _ Hin). pose proof (Hlt _ Hin). cbn in *. lia.
Qed.

Lemma hp_push_free_page n nd m L L' (Q : _ -> _ -> _ -> Prop) :
  L ≡ₚ (n, nd) :: L' -> Q (Ok tt) (with_free m (n :: m_free m)) L' -> hp (push_free_page n) m L Q.
Proof.
  intros HL HQ. apply (hp_perm _ _ _ _ _ HL). apply hp_pages. intros Hk Hp _.
  destruct (pages_ok_cons _ _ _ _ Hp) as (Hf & Hl & Hb & Hp'). pose proof (head_or_u64 _ _ Hp') as Hu.
  apply hp_bind, hp_free_list_head. apply hp_bind.
  eapply (hp_modify _ _ (fresh_node Leaf (head_or (m_free m) NO_PAGE))); [done| |].
  { intros d _. by apply init_page_is. }
  intros d' _. destruct Hp as (Hn & Hbs & Hc). rewrite fmap_cons in Hn, Hbs. cbn [fst] in *.
  rewrite <- Permutation_middle in Hn, Hbs.
  eapply (hp_modify_meta _ _ (with_free m (n :: m_free m))); try done.
  - intros d Hd. apply (set_free_list_head_is _ _ n Hd). unfold in_u64. lia.
  - exact (conj Hn (conj Hbs Hc)).
  - cbn [m_free with_free free_cells]. intros c. rewrite !elem_of_app, !elem_of_cons. tauto.
Qed.

Lemma hp_pop_free_page m L (Q : _ -> _ -> _ -> Prop) :
  match m_free m with
  | [] => Q (Ok None) m L
  | n :: l => Q (Ok (Some n)) (with_free m l) ((n, NLeaf [] (head_or l NO_PAGE)) :: L)
  end -> hp pop_free_page m L Q.
Proof.
  intros HQ. apply hp_pages. intros Hk Hp _. apply hp_bind, hp_free_list_head.
  destruct (m_free m) as [|n l] eqn:E; cbn [head_or] in *; [by rewrite Z.eqb_refl; apply hp_mret|].
  pose proof (head_or_ok _ _ Hp) as Hh. rewrite E in Hh. cbn in Hh. specialize (Hh ltac:(done)).
  rewrite (proj2 (Z.eqb_neq _ _)) by lia. intros s Hs.
  pose proof (rep_cells _ _ _ Hs) as Hc. rewrite E in Hc. cbn [free_cells app] in Hc.
  pose proof Hc as Hc'. apply Forall_cons in Hc' as [(d & Hl & Hd) _].
  apply wp_bind. eapply wp_fetch; [exact Hl|]. rewrite (read_right_sibling_of _ _ _ Hd).
  revert s Hs Hc Hl. assert (Hgoal : hp (_ ← set_free_list_head (head_or l NO_PAGE); mret (Some n)) m L Q).
  { apply hp_bind. destruct Hp as (Hn & Hb & Hcc). rewrite E in Hn, Hb. cbn [app] in *.
    assert (Hp2 : pages_ok (with_free m l) ((n, NLeaf [] (head_or l NO_PAGE)) :: L)).
    { split; [|split; [|exact Hcc]]; cbn [m_free with_free m_count]; rewrite fmap_cons, <- Permutation_middle; done. }
    eapply (hp_modify_meta _ _ (with_free m l) _ ((n, NLeaf [] (head_or l NO_PAGE)) :: L)); try done.
    - intros d0 Hd0. apply (set_free_list_head_is _ _ (head_or l NO_PAGE) Hd0).
      apply (head_or_u64 _ _ Hp2).
    - rewrite E. cbn [m_free with_free free_cells]. intros c. rewrite !elem_of_app, !elem_of_cons. tauto.
    - by apply hp_mret. }
  intros s Hs _ _. by apply Hgoal.
Qed.

(** ** Allocation *)

Lemma rep_fresh s m n d' nd L :
  rep s m L -> n ∉ m_free m ++ L.*1 -> n ∉ (m_junk m).*1 -> 1 <= n < m_count m -> page_is d' nd ->
  rep (set_page s n d') m ((n, nd) :: L).
Proof.
  intros [(dm & Hm & Hmi) Hk (Hn & Hb & Hc) Hx Hcs Hj] Hni Hnj Hn1 Hd'. split; [|done| |done| |].
  - exists dm. split; [|done]. cbn. rewrite lookup_insert_ne; [done|]. unfold META_PAGE_NO. lia.
  - split; [|split; [|done]]; rewrite fmap_cons, <- Permutation_middle; by constructor.
  - rewrite <- Permutation_middle. constructor.
    + exists d'. split; [|done]. cbn. by rewrite lookup_insert_eq.
    + apply cells_in_set; [|done]. by rewrite fmap_app, free_cells_fst.
  - eapply junk_in_sub; [exact Hj| |done]. intros c Hin Hc1 Hc2.
    assert (Hne : fst c <> n) by (intros <-; by apply Hnj, list_elem_of_fmap_2).
    split; [by apply cell_in_set|]. rewrite fmap_cons, elem_of_app, elem_of_cons in *. cbn [fst]. tauto.
Qed.

(** A new page of the relation, counted on the metapage. *)
Lemma rep_new_page kind s m L :
  rep s m L -> m_next m < PAGE_LIMIT ->
  let n := m_next m in
  let m' := {| m_root := m_root m; m_height := m_height m; m_count := n + 1; m_free := m_free m;
               m_next := n + 1; m_junk := m_junk m |} in
  wp (create_page (fun page_no => c ← page_count_or_0; set_page_count (Z.max (sat_u64 page_no 1) c))
        (init_page kind NO_PAGE)) s
    (fun r s' => r = Ok n /\ rep s' m' ((n, fresh_node kind NO_PAGE) :: L) /\ n ∉ m_free m ++ L.*1).
Proof.
  intros Hs Hlim n m'. assert (Hlt : m_next m < u64_max) by (pose proof page_limit_le; lia). pose proof Hs as [(dm & Hm & Hmi) (Hk1 & Hk2 & Hk3 & Hk4) (Hn & Hb & Hc) Hx Hcs Hj].
  assert (Hnm : n ∉ m_free m ++ L.*1).
  { intros Hin. rewrite Forall_forall in Hb. pose proof (Hb _ Hin). unfold n in *. lia. }
  assert (Hnj : n ∉ (m_junk m).*1).
  { intros Hin. apply list_elem_of_fmap in Hin as (c & Hc1 & Hin). rewrite Forall_forall in Hj.
    destruct (Hj c Hin) as (_ & H1 & _). unfold n in *. lia. }
  assert (Hsat : Z.max (sat_u64 n 1) (m_count m) = n + 1) by (unfold sat_u64, saturating_add, n; lia).
  assert (Hne : META_PAGE_NO <> n) by (unfold META_PAGE_NO, n; lia).
  destruct (set_page_count_is dm _ (n + 1) Hmi) as (d' & Hw & Hd'); [unfold in_u64, n; lia|].
  destruct (init_page_is kind NO_PAGE zero_page NO_PAGE_u64) as (d1 & Hf & Hd1).
  unfold wp, create_page. cbn [run_in mbind Prog_bind]. rewrite Hx. fold n.
  rewrite (proj2 (Z.leb_gt _ _)) by done. cbn [orb]. unfold grow. rewrite Hx. fold n. cbn [run_in mbind Prog_bind page_count_or_0 pages].
  rewrite lookup_insert_ne, Hm by done. cbn [mret Prog_ret run_in mbind Prog_bind].
  rewrite (proj1 (proj2 (proj2 (read_meta _ _ Hmi)))). cbn [meta_count meta_page]. rewrite Hsat.
  unfold set_page_count, modify. cbn [run_in mbind Prog_bind mret Prog_ret pages].
  rewrite lookup_insert_ne, Hm, Hw, (proj2 (pageb_spec d') (proj1 Hd')) by done. cbn [run_in mbind Prog_bind mret Prog_ret].
  set (s2 := set_page _ META_PAGE_NO d'). assert (Hs2 : pages s2 !! n = Some zero_page).
  { cbn. by rewrite lookup_insert_ne, lookup_insert_eq. }
  rewrite Hs2, Hf, (proj2 (pageb_spec d1) (page_is_len _ _ Hd1)). cbn [run_in]. split_and!; [done| |done].
  apply rep_fresh; [|done|done|cbn; unfold n; lia|done].
  - unfold s2. split; cbn [pages set_page next_page m_free m_next m_junk m'].
    + exists d'. by rewrite lookup_insert_eq.
    + unfold m'; split_and!; cbn; done || lia.
    + split_and!; cbn; [done| |lia|lia]. eapply Forall_impl; [exact Hb|]. cbn. intros x Hx'. unfold n. lia.
    + done.
    + apply cells_in_set.
      { rewrite fmap_app, free_cells_fst. intros Hin. rewrite Forall_forall in Hb.
        pose proof (Hb _ Hin). unfold META_PAGE_NO in *. lia. }
      apply (cells_in_set s n zero_page); [by rewrite fmap_app, free_cells_fst|done].
    + eapply junk_in_sub; [exact Hj| |cbn; lia]. intros c Hin Hni Hci. split; [|done].
      rewrite Forall_forall in Hj. destruct (Hj c Hin) as (_ & H1 & _).
      apply cell_in_set; [unfold META_PAGE_NO; lia|]. apply (cell_in_set s n zero_page); [unfold n; lia|done].
Qed.

Lemma hp_allocate_free kind m L (Q : _ -> _ -> _ -> Prop) :
  m_next m < PAGE_LIMIT ->
  (forall n m', m_root m' = m_root m -> m_height m' = m_height m ->
     m_next m <= m_next m' <= m_next m + 1 -> m_count m <= m_count m' ->
     m_free m' = tail (m_free m) -> n ∉ L.*1 -> Q (Ok n) m' ((n, fresh_node kind NO_PAGE) :: L)) ->
  hp (allocate_initialized_page kind) m L Q.
Proof.
  intros Hlt HQ. apply hp_pages. intros Hk Hp _. apply hp_bind, hp_pop_free_page.
  destruct (m_free m) as [|n l] eqn:E.
  - intros s Hs. eapply wp_mono; [by apply rep_new_page|]. cbn beta. intros r s' (-> & Hs' & Hni).
    do 2 eexists. split; [exact Hs'|]. destruct Hp as (_ & _ & Hc). apply HQ; cbn; rewrite ?E; try done; try lia. rewrite E in Hni. done.
  - destruct Hp as (Hn & _). rewrite E in Hn. cbn in Hn. apply NoDup_cons in Hn as [Hni _].
    apply hp_bind. eapply (hp_modify _ _ (fresh_node kind NO_PAGE)); [done| |].
    { intros d _. by apply init_page_is. }
    intros d _. apply hp_mret, HQ; cbn; rewrite ?E; try done; try lia. rewrite elem_of_app in Hni. tauto.
Qed.

Lemma hp_allocate kind m L (Q : _ -> _ -> _ -> Prop) :
  m_next m < PAGE_LIMIT ->
  (forall n m', m_root m' = m_root m -> m_height m' = m_height m ->
     m_next m <= m_next m' <= m_next m + 1 -> m_count m <= m_count m' ->
     n ∉ L.*1 -> Q (Ok n) m' ((n, fresh_node kind NO_PAGE) :: L)) ->
  hp (allocate_initialized_page kind) m L Q.
Proof. intros Hlt HQ. apply hp_allocate_free; auto. Qed.

(** ** Reclaiming *)

Lemma hp_drops {A} (p : Prog A) m D L Q : hp p m L Q -> hp p m (D ++ L) Q.
Proof. intros Hp. induction D as [|c D IH]; [done|]. by apply hp_drop. Qed.

Lemma fmap_fst_cons_perm (n : Z) (X : list Z) (R : list cell) :
  n :: X ≡ₚ R.*1 -> exists nd R', R ≡ₚ (n, nd) :: R' /\ X ≡ₚ R'.*1.
Proof.
  intros HX. assert (Hin : n ∈ R.*1) by (rewrite <- HX; left).
  apply list_elem_of_fmap in Hin as ([n' nd] & -> & Hin). apply elem_of_Permutation in Hin as [R' HR].
  exists nd, R'. split; [done|]. rewrite HR in HX. cbn in HX. by apply Permutation_cons_inv in HX.
Qed.

(** The metapage as reclaiming the cells [R] leaves it. *)
Record reclaimed (R : list cell) (m m' : Meta) : Prop := {
  rc_root : m_root m' = m_root m;
  rc_height : m_height m' = m_height m;
  rc_next : m_next m' = m_next m;
  rc_free : m_free m ⊆ m_free m';
  rc_junk : m_junk m ⊆ m_junk m';
  rc_gone : forall c, c ∈ R -> fst c ∈ m_free m' \/ c ∈ m_junk m' }.

Definition with_junk (m : Meta) (J : list cell) : Meta :=
  {| m_root := m_root m; m_height := m_height m; m_count := m_count m; m_free := m_free m; m_next := m_next m;
     m_junk := J |}.

(** A cell that is given up. *)
Lemma hp_junk {A} (p : Prog A) m c L Q : hp p (with_junk m (c :: m_junk m)) L Q -> hp p m (c :: L) Q.
Proof.
  intros Hp s Hs. apply Hp. pose proof Hs as [Hm Hk Hpo Hx Hcs Hj]. destruct c as [n nd].
  destruct (pages_ok_cons _ _ _ _ Hpo) as (Hf & Hl & Hb & Hpo').
  destruct (rep_drop _ _ _ _ Hs) as [_ _ _ _ Hcs' Hj']. destruct Hpo as (_ & _ & Hc).
  split; [done|done|done|done|done|]. constructor.
  - split_and!; cbn; [|lia|lia|by apply not_elem_of_app].
    rewrite <- Permutation_middle in Hcs. by apply Forall_cons in Hcs as [? _].
  - exact Hj'.
Qed.

Lemma hp_junks {A} (p : Prog A) L Q : forall D m,
  hp p (with_junk m (reverse D ++ m_junk m)) L Q -> hp p m (D ++ L) Q.
Proof.
  induction D as [|c D IH]; intros m Hp; [by destruct m|]. cbn [app]. apply hp_junk, IH. cbn [m_junk with_junk].
  by rewrite reverse_cons, <- app_assoc in Hp.
Qed.

Lemma hp_push_free_pages c L' X : forall R m (Q : _ -> _ -> _ -> Prop),
  Forall (fun n => 1 <= n) X -> filter (fun n => n < c) X ≡ₚ R.*1 ->
  (forall l, m_free m ⊆ l -> (forall x, x ∈ X -> x < c -> x ∈ l) -> Q (Ok tt) (with_free m l) L') ->
  hp (push_free_pages c X) m (R ++ L') Q.
Proof.
  induction X as [|x X IH]; intros R m Q Hpos HX HQ; cbn [push_free_pages].
  { symmetry in HX. apply Permutation_nil_r in HX. apply fmap_nil_inv in HX as ->.
    apply hp_mret. specialize (HQ (m_free m) ltac:(done) ltac:(by intros x Hx%elem_of_nil)). by destruct m. }
  apply Forall_cons in Hpos as [Hx Hpos]. unfold META_PAGE_NO. rewrite (proj2 (Z.eqb_neq _ _)) by lia.
  cbn [orb]. destruct (Z.leb_spec c x) as [Hc|Hc].
  { rewrite filter_cons_False in HX by lia. apply IH; [done|done|]. intros l Hl HXl. apply HQ; [done|].
    intros y Hy Hyc. apply elem_of_cons in Hy as [->|Hy]; [lia|by apply HXl]. }
  rewrite filter_cons_True in HX by lia. apply fmap_fst_cons_perm in HX as (nd & R' & HR & HX).
  apply hp_bind. eapply (hp_push_free_page x nd _ _ (R' ++ L')); [by rewrite HR|]. apply IH; [done|done|].
  intros l Hl HXl. apply (HQ l).
  - intros y Hy. apply Hl. by right.
  - intros y Hy Hyc. apply elem_of_cons in Hy as [->|Hy]; [apply Hl; left|by apply HXl].
Qed.

Lemma trim_page_count_spec X : forall fuel c,
  0 <= c -> let c' := trim_page_count fuel X c in
  0 <= c' <= c /\ forall n, c' <= n < c -> n ∈ X.
Proof.
  induction fuel as [|fuel IH]; intros c Hc; cbn [trim_page_count]; [split; [lia|intros; lia]|].
  destruct (Z.ltb_spec 0 c) as [H0|H0]; cbn [andb]; [|split; [lia|intros; lia]].
  case_bool_decide as Hin; [|split; [lia|intros; lia]].
  destruct (IH (c - 1)) as [Hb Hr]; [lia|]. split; [lia|]. intros n Hn.
  destruct (decide (n = c - 1)) as [->|Hne]; [done|]. apply Hr. lia.
Qed.

Lemma remove_dups_perm (X Y : list Z) : NoDup X -> Y ≡ₚ X -> remove_dups Y ≡ₚ X.
Proof.
  intros Hn HY. apply NoDup_Permutation; [apply NoDup_remove_dups|done|].
  intros x. rewrite elem_of_remove_dups. by rewrite HY.
Qed.

Lemma hp_reclaim X R m L L' (Q : _ -> _ -> _ -> Prop) :
  L ≡ₚ R ++ L' -> X ≡ₚ R.*1 -> (forall m', reclaimed R m m' -> Q (Ok tt) m' L') ->
  hp (reclaim_removed_pages X) m L Q.
Proof.
  intros HL HX HQ. apply (hp_perm _ _ _ _ _ HL). clear L HL. apply hp_pages. intros (_ & _ & Hk & _) (Hn & Hb & Hc) _.
  rewrite fmap_app, <- HX in Hn, Hb. unfold reclaim_removed_pages.
  assert (Hxn : NoDup X).
  { apply NoDup_app in Hn as (_ & _ & Hn). by apply NoDup_app in Hn as (? & _). }
  pose proof (remove_dups_perm X _ Hxn (merge_sort_Permutation Z.le X)) as HY.
  generalize dependent (remove_dups (merge_sort Z.le X)). intros Y HY.
  apply hp_bind, hp_page_count. destruct (trim_page_count_spec Y (length Y) (m_count m) Hk) as [Hc' Hin].
  generalize dependent (trim_page_count (length Y) Y (m_count m)). intros c Hc' Hin. cbv zeta.
  assert (HR : R ≡ₚ filter (fun x : cell => ~ fst x < c) R ++ filter (fun x : cell => fst x < c) R).
  { rewrite Permutation_app_comm. symmetry. apply filter_app_complement. }
  eapply hp_perm; [rewrite HR, <- app_assoc; done|]. apply hp_junks. apply hp_bind, hp_set_page_count; [cbn; lia| |].
  - rewrite fmap_app. rewrite Forall_forall in *. intros n. rewrite !elem_of_app. intros Hcase.
    assert (Hlt : n ∈ m_free m ++ X ++ L'.*1 -> n ∉ X -> n < c).
    { intros H1 H2. pose proof (Hb _ H1). destruct (decide (n < c)); [done|]. exfalso. apply H2. rewrite <- HY. apply Hin. lia. }
    apply NoDup_app in Hn as (_ & Hd1 & Hn). apply NoDup_app in Hn as (_ & Hd2 & _).
    destruct Hcase as [H1|[H1|H1]].
    + apply Hlt; [rewrite !elem_of_app; tauto|]. intros H2. apply (Hd1 _ H1). rewrite elem_of_app. tauto.
    + apply list_elem_of_fmap in H1 as (x & -> & H1). by apply list_elem_of_filter in H1 as [? _].
    + apply Hlt; [rewrite !elem_of_app; tauto|]. intros H2. by apply (Hd2 _ H2).
  - apply hp_push_free_pages.
    + rewrite HY. rewrite Forall_forall in *. intros n H1. apply (Hb n). rewrite !elem_of_app. tauto.
    + rewrite HY, HX. clear. induction R as [|[n nd] R IH]; [done|]. rewrite fmap_cons. cbn [fst].
      destruct (decide (n < c)); [rewrite !filter_cons_True by done|rewrite !filter_cons_False by done]; cbn; by rewrite IH.
    + intros l Hl HXl. apply HQ. split; cbn [m_root m_height m_next m_free m_junk with_free with_count with_junk]; try done.
      * intros c' Hc''. rewrite elem_of_app. by right.
      * intros [n nd] Hin'. destruct (decide (n < c)) as [Hlt|Hge].
        { left. apply HXl; [|done]. rewrite HY, HX. by apply (list_elem_of_fmap_2 fst _ _ Hin'). }
        right. rewrite elem_of_app, elem_of_reverse. left. by apply list_elem_of_filter.
Qed.

(** ** Pages given up *)

(** A page on the free list, or one that is junk and has more than one child. *)
Definition dead (m : Meta) (n : Z) : Prop :=
  n ∈ m_free m \/ exists f es, es <> [] /\ (n, NInner f es) ∈ m_junk m.

Lemma free_cells_lookup l n : n ∈ l -> exists r, (n, NLeaf [] r) ∈ free_cells l.
Proof.
  induction l as [|x l IH]; [by intros ?%elem_of_nil|]. cbn [free_cells]. intros [->|Hn]%elem_of_cons.
  - eexists. left.
  - destruct (IH Hn) as [r Hr]. exists r. by right.
Qed.

Lemma hp_read_dead n m L (Q : _ -> _ -> _ -> Prop) :
  dead m n -> Q (Err corrupt) m L -> (forall f es, es <> [] -> Q (Ok (f, es)) m L) -> hp (read_internal n) m L Q.
Proof.
  intros Hd HQ1 HQ2 s Hs.
  assert (Hp : exists d nd, pages s !! n = Some d /\ page_is d nd /\
    match nd with NLeaf _ _ => True | NInner f es => es <> [] end).
  { destruct Hd as [Hn|(f & es & Hne & Hn)].
    - destruct (free_cells_lookup _ _ Hn) as [r Hr]. pose proof (rep_cells _ _ _ Hs) as Hc.
      apply Forall_app in Hc as [Hc _]. rewrite Forall_forall in Hc. destruct (Hc _ Hr) as (d & ? & ?). by exists d, (NLeaf [] r).
    - pose proof (rep_junk _ _ _ Hs) as Hj. rewrite Forall_forall in Hj. destruct (Hj _ Hn) as ((d & ? & ?) & _).
      by exists d, (NInner f es). }
  destruct Hp as (d & nd & Hl & Hpd & Hnd). apply wp_bind. eapply wp_fetch; [exact Hl|]. apply wp_bind, wp_ret.
  destruct nd as [es r|f es].
  - rewrite (read_internal_entries_leaf _ _ _ Hpd). by exists m, L.
  - rewrite (read_internal_entries_of _ _ _ Hpd), (read_first_child_of _ _ _ Hpd). apply wp_ret. exists m, L. auto.
Qed.

(** Cells that a postcondition does not mention are forgotten. *)
Lemma hp_post_drop {A} (p : Prog A) m L (Q Q' : _ -> _ -> _ -> Prop) :
  hp p m L Q' -> (forall r m' L', Q' r m' L' -> exists D L'', L' ≡ₚ D ++ L'' /\ Q r m' L'') -> hp p m L Q.
Proof.
  intros Hp HQ s Hs. eapply wp_mono; [by apply Hp|]. cbn beta. intros r s' (m' & L' & Hs' & HQ').
  destruct (HQ _ _ _ HQ') as (D & L'' & HL & HQ''). exists m', L''. split; [|done]. rewrite HL in Hs'. clear -Hs'.
  induction D as [|c D IH]; [done|]. by apply IH, (rep_drop _ _ c).
Qed.

End State.
