(* ===== verification/BTreeShape.v ===== *)
(** * Trees on pages

    A tree is the page number of each node with the leaf's entries or the children and
    the separators before them; the separator of the first child is not stored on the
    page and can be any number.  [cells] lists what the pages of the tree hold, the
    leaves linked to the right.  [flat] is the in-order sequence of keys and separators,
    a key [k] as [2k + 1] and a separator [s] as [2s]: that it increases says that the
    leaves are sorted and that each separator is above the keys before it and at most the
    keys after it.  Splits, merges and rotations of internal nodes leave [flat] and
    [leaves] as they are.

    A position in a tree is a context, the frames from a subtree to the root; [path_of]
    is the path the source keeps for it. *)

From S2P Require Import Prelude.
From S2P Require Import Bytes.
From S2P Require Import PageBytes.
From S2P Require Import PoolPage.
From S2P Require Import ClockSweep.
From S2P Require Import BufferPool.
From S2P Require Import BTreePage.
From S2P Require Import PageProg.
From S2P Require Import DiskBTree.
From S2P Require Import BTreeState.

Inductive tree : Type := TLeaf (n : Z) (es : list (Z * Z)) | TNode (n : Z) (cs : list (Z * tree)).

Lemma tree_ind' (P : tree -> Prop) :
  (forall n es, P (TLeaf n es)) -> (forall n cs, Forall (fun c => P (snd c)) cs -> P (TNode n cs)) ->
  forall t, P t.
Proof.
  intros Hl Hn. fix IH 1. intros [n es|n cs]; [apply Hl|]. apply Hn.
  induction cs as [|[s t] cs IHcs]; constructor; [apply IH|apply IHcs].
Qed.

Definition page (t : tree) : Z := match t with TLeaf n _ => n | TNode n _ => n end.
Definition is_leaf (t : tree) : bool := match t with TLeaf _ _ => true | TNode _ _ => false end.

Abbreviation children := (list (Z * tree)).

(** ** What a tree holds *)

(** The separators and pages of children, as the page of their parent lists them. *)
Definition kids (cs : children) : list (Z * Z) := (fun c => (fst c, page (snd c))) <$> cs.

Definition node_of_kids (ks : list (Z * Z)) : node :=
  match ks with [] => NInner NO_PAGE [] | (_, f) :: es => NInner f es end.

Fixpoint leaves (t : tree) : list (Z * list (Z * Z)) :=
  match t with
  | TLeaf n es => [(n, es)]
  | TNode _ cs => concat (map (fun c => leaves (snd c)) cs)
  end.

Fixpoint inner (t : tree) : list cell :=
  match t with
  | TLeaf _ _ => []
  | TNode n cs => (n, node_of_kids (kids cs)) :: concat (map (fun c => inner (snd c)) cs)
  end.

Definition key_code (e : Z * Z) : Z := 2 * fst e + 1.

Fixpoint flat (t : tree) : list Z :=
  match t with
  | TLeaf _ es => map key_code es
  | TNode _ cs => tail (concat (map (fun c => 2 * fst c :: flat (snd c)) cs))
  end.

Fixpoint depth (t : tree) : nat :=
  match t with
  | TLeaf _ _ => 1
  | TNode _ cs => S (foldr (fun c => max (depth (snd c))) O cs)
  end.

Definition kids_leaves (cs : children) : list (Z * list (Z * Z)) := concat (map (fun c => leaves (snd c)) cs).
Definition kids_inner (cs : children) : list cell := concat (map (fun c => inner (snd c)) cs).
Definition kids_flat (cs : children) : list Z := concat (map (fun c => 2 * fst c :: flat (snd c)) cs).
Definition kids_depth (cs : children) : nat := foldr (fun c => max (depth (snd c))) O cs.

Definition contents (t : tree) : list (Z * Z) := concat (leaves t).*2.

(** Leaves linked to the right, the last one to [r]. *)
Fixpoint chain (ls : list (Z * list (Z * Z))) (r : Z) : list cell :=
  match ls with
  | [] => []
  | (n, es) :: rest => (n, NLeaf es (head_or rest.*1 r)) :: chain rest r
  end.

Definition cells (t : tree) : list cell := inner t ++ chain (leaves t) NO_PAGE.

(** ** Well-formed trees *)

Section Shape.
Context (cfg : DiskBTreeConfig).

(** The children of a node: some, within the capacity; a leaf is never an only child. *)
Definition kids_shape (cs : children) : Prop :=
  cs <> [] /\ count_of cs <= internal_capacity cfg + 1 /\
  (length cs = 1%nat -> Forall (fun c => is_leaf (snd c) = false) cs).

Inductive shape : tree -> Prop :=
| shape_leaf n es : count_of es <= leaf_capacity cfg -> shape (TLeaf n es)
| shape_node n cs : kids_shape cs -> Forall (fun c => shape (snd c)) cs -> shape (TNode n cs).

(** Only a tree that is a single leaf can have an empty leaf. *)
Definition filled (t : tree) : Prop := is_leaf t = true \/ Forall (fun l => snd l <> []) (leaves t).

Record tree_ok (t : tree) : Prop := {
  ok_shape : shape t;
  ok_sorted : StronglySorted Z.lt (flat t);
  ok_filled : filled t }.

(** The relation holds the tree [t], and nothing else that is in use.  The height on the
    metapage is at least that of the tree. *)
Record btree (m : Meta) (L : list cell) (t : tree) : Prop := {
  bt_cells : L ≡ₚ cells t;
  bt_root : m_root m = page t;
  bt_height : Z.of_nat (depth t) <= m_height m;
  bt_tree : tree_ok t }.

End Shape.

(** ** Lemmas *)

Lemma chain_app ls1 ls2 r : chain (ls1 ++ ls2) r = chain ls1 (head_or ls2.*1 r) ++ chain ls2 r.
Proof.
  induction ls1 as [|[n es] ls1 IH]; [done|]. cbn [app chain]. rewrite IH. f_equal. f_equal. f_equal.
  by destruct ls1.
Qed.

Lemma chain_fst ls r : (chain ls r).*1 = ls.*1.
Proof. induction ls as [|[n es] ls IH]; [done|]. cbn. by rewrite IH. Qed.

Lemma head_or_app l1 l2 r : head_or (l1 ++ l2) r = head_or l1 (head_or l2 r).
Proof. by destruct l1. Qed.

Lemma leaves_node n cs : leaves (TNode n cs) = kids_leaves cs.
Proof. done. Qed.
Lemma inner_node n cs : inner (TNode n cs) = (n, node_of_kids (kids cs)) :: kids_inner cs.
Proof. done. Qed.
Lemma flat_node n cs : flat (TNode n cs) = tail (kids_flat cs).
Proof. done. Qed.
Lemma depth_node n cs : depth (TNode n cs) = S (kids_depth cs).
Proof. done. Qed.

Lemma kids_leaves_app cs1 cs2 : kids_leaves (cs1 ++ cs2) = kids_leaves cs1 ++ kids_leaves cs2.
Proof. unfold kids_leaves. by rewrite map_app, concat_app. Qed.
Lemma kids_inner_app cs1 cs2 : kids_inner (cs1 ++ cs2) = kids_inner cs1 ++ kids_inner cs2.
Proof. unfold kids_inner. by rewrite map_app, concat_app. Qed.
Lemma kids_flat_app cs1 cs2 : kids_flat (cs1 ++ cs2) = kids_flat cs1 ++ kids_flat cs2.
Proof. unfold kids_flat. by rewrite map_app, concat_app. Qed.
Lemma kids_app cs1 cs2 : kids (cs1 ++ cs2) = kids cs1 ++ kids cs2.
Proof. apply fmap_app. Qed.
Lemma kids_depth_app cs1 cs2 : kids_depth (cs1 ++ cs2) = max (kids_depth cs1) (kids_depth cs2).
Proof. induction cs1 as [|c cs1 IH]; [done|]. cbn. unfold kids_depth in *. rewrite IH. lia. Qed.

Lemma kids_leaves_cons s t cs : kids_leaves ((s, t) :: cs) = leaves t ++ kids_leaves cs.
Proof. done. Qed.
Lemma kids_inner_cons s t cs : kids_inner ((s, t) :: cs) = inner t ++ kids_inner cs.
Proof. done. Qed.
Lemma kids_flat_cons s t cs : kids_flat ((s, t) :: cs) = 2 * s :: flat t ++ kids_flat cs.
Proof. done. Qed.
Lemma kids_cons s t cs : kids ((s, t) :: cs) = (s, page t) :: kids cs.
Proof. done. Qed.
Lemma length_kids cs : length (kids cs) = length cs.
Proof. apply length_fmap. Qed.
Lemma kids_depth_cons s t cs : kids_depth ((s, t) :: cs) = max (depth t) (kids_depth cs).
Proof. done. Qed.

Lemma kids_leaves_nil : kids_leaves [] = [].
Proof. done. Qed.
Lemma kids_inner_nil : kids_inner [] = [].
Proof. done. Qed.
Lemma kids_flat_nil : kids_flat [] = [].
Proof. done. Qed.
Lemma kids_nil : kids [] = [].
Proof. done. Qed.
Lemma kids_depth_nil : kids_depth [] = O.
Proof. done. Qed.

Lemma kids_take n cs : kids (take n cs) = take n (kids cs).
Proof. apply fmap_take. Qed.
Lemma kids_drop n cs : kids (drop n cs) = drop n (kids cs).
Proof. apply fmap_drop. Qed.
Lemma kids_delete n cs : kids (delete n cs) = delete n (kids cs).
Proof. apply list_fmap_delete. Qed.

#[export] Hint Rewrite kids_leaves_app kids_inner_app kids_flat_app kids_app kids_leaves_cons
  kids_inner_cons kids_flat_cons kids_cons kids_leaves_nil kids_inner_nil kids_flat_nil kids_nil
  kids_depth_app kids_depth_cons kids_depth_nil : btree.

#[global] Opaque kids_leaves kids_inner kids_flat kids kids_depth.

Lemma tail_app_cons {A} (l1 l2 : list A) x : tail (l1 ++ x :: l2) = tail (l1 ++ [x]) ++ l2.
Proof. by destruct l1; cbn; rewrite <- ?app_assoc. Qed.

Lemma length_tail {A} (l : list A) : length (tail l) = (length l - 1)%nat.
Proof. destruct l; cbn; lia. Qed.
Lemma drop_tail {A} k (l : list A) : drop k (tail l) = drop (S k) l.
Proof. destruct l; [by destruct k|done]. Qed.
Lemma take_tail {A} k (l : list A) : take k (tail l) = tail (take (S k) l).
Proof. destruct l; [by destruct k|done]. Qed.

Lemma depth_pos t : (1 <= depth t)%nat.
Proof. destruct t; cbn; lia. Qed.

Lemma leaves_ne cfg t : shape cfg t -> leaves t <> [].
Proof.
  induction t as [n es|n cs IH] using tree_ind'; [done|]. intros Hs. inversion Hs as [|n' cs' (Hne & _) Hsh]; subst.
  rewrite leaves_node. destruct cs as [|[s t] cs]; [done|]. rewrite kids_leaves_cons.
  apply Forall_cons in IH as [IH _]. apply Forall_cons in Hsh as [Hsh _]. specialize (IH Hsh).
  cbn in *. by destruct (leaves t).
Qed.

(** ** Contexts *)

Record frame : Type := { f_page : Z; f_left : children; f_sep : Z; f_right : children }.

Definition frame_kids (f : frame) (t : tree) : children := f_left f ++ (f_sep f, t) :: f_right f.
Definition plug1 (f : frame) (t : tree) : tree := TNode (f_page f) (frame_kids f t).

Fixpoint plug (C : list frame) (t : tree) : tree :=
  match C with [] => t | f :: C => plug C (plug1 f t) end.

Definition frame_of (f : frame) : PathFrame := {| page_no := f_page f; child_slot := length (f_left f) |}.

Fixpoint path_of (C : list frame) : list PathFrame :=
  match C with [] => [] | f :: C => path_of C ++ [frame_of f] end.

Fixpoint lleaves (C : list frame) : list (Z * list (Z * Z)) :=
  match C with [] => [] | f :: C => lleaves C ++ kids_leaves (f_left f) end.
Fixpoint rleaves (C : list frame) : list (Z * list (Z * Z)) :=
  match C with [] => [] | f :: C => kids_leaves (f_right f) ++ rleaves C end.

Definition lflat1 (f : frame) : list Z := tail (kids_flat (f_left f) ++ [2 * f_sep f]).
Fixpoint lflat (C : list frame) : list Z :=
  match C with [] => [] | f :: C => lflat C ++ lflat1 f end.
Fixpoint rflat (C : list frame) : list Z :=
  match C with [] => [] | f :: C => kids_flat (f_right f) ++ rflat C end.

(** The node of a frame whose subtree is on page [p]. *)
Definition frame_node (f : frame) (p : Z) : node :=
  node_of_kids (kids (f_left f) ++ (f_sep f, p) :: kids (f_right f)).

Fixpoint ctx_inner (C : list frame) (p : Z) : list cell :=
  match C with
  | [] => []
  | f :: C => (f_page f, frame_node f p) :: kids_inner (f_left f) ++ kids_inner (f_right f) ++ ctx_inner C (f_page f)
  end.

Lemma leaves_plug C : forall t, leaves (plug C t) = lleaves C ++ leaves t ++ rleaves C.
Proof.
  induction C as [|f C IH]; intros t; cbn; [by rewrite app_nil_r|]. rewrite IH. unfold plug1, frame_kids.
  rewrite leaves_node, kids_leaves_app, kids_leaves_cons. by rewrite !app_assoc.
Qed.

Lemma flat_frame n f t : flat (TNode n (frame_kids f t)) = lflat1 f ++ flat t ++ kids_flat (f_right f).
Proof.
  unfold frame_kids, lflat1. rewrite flat_node, kids_flat_app, kids_flat_cons.
  by rewrite tail_app_cons.
Qed.

Lemma flat_plug1 f t : flat (plug1 f t) = lflat1 f ++ flat t ++ kids_flat (f_right f).
Proof. apply flat_frame. Qed.

Lemma depth_frame n f t : (depth t < depth (TNode n (frame_kids f t)))%nat.
Proof. unfold frame_kids. rewrite depth_node, kids_depth_app, kids_depth_cons. lia. Qed.

Lemma flat_plug C : forall t, flat (plug C t) = lflat C ++ flat t ++ rflat C.
Proof.
  induction C as [|f C IH]; intros t; cbn; [by rewrite app_nil_r|]. rewrite IH, flat_plug1. by rewrite !app_assoc.
Qed.

Lemma inner_plug C : forall t, inner (plug C t) ≡ₚ inner t ++ ctx_inner C (page t).
Proof.
  induction C as [|f C IH]; intros t; cbn [plug ctx_inner]; [by rewrite app_nil_r|]. rewrite IH. unfold plug1, frame_kids at 1.
  rewrite inner_node, kids_inner_app, kids_inner_cons, kids_app, kids_cons. cbn [page]. fold (frame_node f (page t)).
  solve_Permutation.
Qed.

Lemma contents_plug C t : contents (plug C t) = concat (lleaves C).*2 ++ contents t ++ concat (rleaves C).*2.
Proof. unfold contents. by rewrite leaves_plug, !fmap_app, !concat_app. Qed.

Lemma cells_plug C t :
  cells (plug C t) ≡ₚ
    inner t ++ ctx_inner C (page t) ++ chain (lleaves C ++ leaves t ++ rleaves C) NO_PAGE.
Proof. unfold cells. rewrite inner_plug, leaves_plug. by rewrite <- app_assoc. Qed.

Lemma plug_app C1 C2 t : plug (C1 ++ C2) t = plug C2 (plug C1 t).
Proof. revert t. induction C1 as [|f C1 IH]; intros t; [done|]. cbn. apply IH. Qed.

Lemma length_path_of C : length (path_of C) = length C.
Proof. induction C as [|f C IH]; [done|]. cbn. rewrite length_app, IH. cbn. lia. Qed.
