(* ===== verification/BTreeRead.v ===== *)
(** * Lookups and scans of the disk B+tree

    A descent for a key ends in the leaf whose range the key falls in: everything left of
    it in the tree is below the key, everything right of it above ([focused]).  [get]
    then returns what the tree's sorted contents hold, and the scans, which follow the
    chain of leaves, return the contents within their bounds, up and down. *)

From S2P Require Import Prelude.
From S2P Require Import Bytes.
From S2P Require Import PageBytes.
From S2P Require Import PoolPage.
From S2P Require Import ClockSweep.
From S2P Require Import BufferPool.
From S2P Require Import BTreePage.
From S2P Require Import PageProg.
From S2P Require Import DiskBTree.
From S2P Require Import BTreeMaintenance.
From S2P Require Import BTreeState.
From S2P Require Import BTreeShape.

Section Read.
Context {PL : PageLimit}.

(** ** Contents and keys *)

Definition odd_codes (X : list Z) : list Z := filter (fun x => Z.odd x = true) X.

Lemma odd_codes_app X Y : odd_codes (X ++ Y) = odd_codes X ++ odd_codes Y.
Proof. apply filter_app. Qed.

Lemma odd_codes_sep s X : odd_codes (2 * s :: X) = odd_codes X.
Proof. unfold odd_codes. rewrite filter_cons_False; [done|]. rewrite Z.odd_mul. done. Qed.

Lemma odd_codes_keys es : odd_codes (map key_code es) = map key_code es.
Proof.
  induction es as [|e es IH]; [done|]. cbn [map]. unfold odd_codes in *. rewrite filter_cons_True, IH; [done|].
  unfold key_code. rewrite Z.odd_add, Z.odd_mul. done.
Qed.

Definition leaf_entries (ls : list (Z * list (Z * Z))) : list (Z * Z) := concat ls.*2.

Lemma leaf_entries_app l1 l2 : leaf_entries (l1 ++ l2) = leaf_entries l1 ++ leaf_entries l2.
Proof. unfold leaf_entries. by rewrite fmap_app, concat_app. Qed.

Lemma odd_codes_tail_kids cs : odd_codes (tail (kids_flat cs)) = odd_codes (kids_flat cs).
Proof. destruct cs as [|[s t] cs]; [done|]. rewrite kids_flat_cons. cbn [tail]. by rewrite odd_codes_sep. Qed.

Lemma odd_codes_flat t : odd_codes (flat t) = map key_code (contents t).
Proof.
  induction t as [n es|n cs IH] using tree_ind'.
  { cbn. rewrite odd_codes_keys. unfold contents. cbn. by rewrite app_nil_r. }
  rewrite flat_node, odd_codes_tail_kids. unfold contents. rewrite leaves_node.
  induction IH as [|[s t] cs Ht _ IHcs]; [done|]. cbn [snd] in Ht.
  rewrite kids_flat_cons, odd_codes_sep, odd_codes_app, Ht, IHcs, kids_leaves_cons.
  by rewrite fmap_app, concat_app, map_app.
Qed.

Lemma odd_codes_kids cs : odd_codes (kids_flat cs) = map key_code (leaf_entries (kids_leaves cs)).
Proof.
  rewrite <- odd_codes_tail_kids, <- (flat_node 0), odd_codes_flat. unfold contents. by rewrite leaves_node.
Qed.

Lemma odd_codes_lflat C : odd_codes (lflat C) = map key_code (leaf_entries (lleaves C)).
Proof.
  induction C as [|f C IH]; [done|]. cbn [lflat rflat lleaves rleaves]. rewrite odd_codes_app, IH, leaf_entries_app, map_app. f_equal.
  unfold lflat1. rewrite <- odd_codes_kids.
  transitivity (odd_codes (kids_flat (f_left f) ++ [2 * f_sep f])).
  - destruct (f_left f) as [|[s t] cs]; [symmetry; apply (odd_codes_sep _ [])|]. rewrite kids_flat_cons.
    cbn [tail app]. by rewrite odd_codes_sep.
  - by rewrite odd_codes_app, (odd_codes_sep _ []), app_nil_r.
Qed.

Lemma odd_codes_rflat C : odd_codes (rflat C) = map key_code (leaf_entries (rleaves C)).
Proof.
  induction C as [|f C IH]; [done|]. cbn [lflat rflat lleaves rleaves]. rewrite odd_codes_app, IH, leaf_entries_app, map_app. f_equal.
  apply odd_codes_kids.
Qed.

(** Entries sorted by key. *)
Definition sorted_entries (es : list (Z * Z)) : Prop := StronglySorted Z.lt (map key_code es).

Lemma contents_sorted t : StronglySorted Z.lt (flat t) -> sorted_entries (contents t).
Proof. intros Hs. unfold sorted_entries. rewrite <- odd_codes_flat. by apply StronglySorted_filter. Qed.

Lemma sorted_entries_app A B :
  sorted_entries (A ++ B) <->
  sorted_entries A /\ sorted_entries B /\ forall a b, a ∈ A -> b ∈ B -> fst a < fst b.
Proof.
  unfold sorted_entries. rewrite map_app, StronglySorted_app. split.
  - intros (Hab & Ha & Hb). split_and!; [done|done|]. intros a b Hia Hib.
    assert (Hlt : key_code a < key_code b) by (apply Hab; by apply list_elem_of_fmap_2).
    unfold key_code in Hlt. lia.
  - intros (Ha & Hb & Hab). split_and!; [|done|done]. intros x y Hx Hy.
    apply list_elem_of_fmap in Hx as (a & -> & Hx). apply list_elem_of_fmap in Hy as (b & -> & Hy).
    specialize (Hab _ _ Hx Hy). unfold key_code. lia.
Qed.

Lemma sorted_entries_cons e es :
  sorted_entries (e :: es) <-> sorted_entries es /\ forall b, b ∈ es -> fst e < fst b.
Proof.
  change (e :: es) with ([e] ++ es). rewrite sorted_entries_app. split.
  - intros (_ & Hs & Hl). split; [done|]. intros b Hb. by apply (Hl e b); [left|].
  - intros (Hs & Hl). split_and!; [by repeat constructor|done|]. intros a b Ha Hb.
    apply list_elem_of_singleton in Ha as ->. auto.
Qed.

(** All keys of [es] are below, above [key]. *)
Definition all_below (key : Z) (es : list (Z * Z)) : Prop := forall e, e ∈ es -> fst e < key.
Definition all_above (key : Z) (es : list (Z * Z)) : Prop := forall e, e ∈ es -> key < fst e.

(** ** Focused contexts *)

Definition focused (C : list frame) (key : Z) : Prop :=
  (forall x, x ∈ lflat C -> x < 2 * key + 1) /\ (forall x, x ∈ rflat C -> 2 * key + 1 < x).

Lemma elem_of_odd_codes x X : Z.odd x = true -> x ∈ X -> x ∈ odd_codes X.
Proof. intros Ho Hx. apply list_elem_of_filter. done. Qed.

Lemma focused_below C key : focused C key -> all_below key (leaf_entries (lleaves C)).
Proof.
  intros [Hl _] e He. assert (Hin : key_code e ∈ odd_codes (lflat C)).
  { rewrite odd_codes_lflat. by apply list_elem_of_fmap_2. }
  apply list_elem_of_filter in Hin as [_ Hin]. apply Hl in Hin. unfold key_code in Hin. lia.
Qed.

Lemma focused_above C key : focused C key -> all_above key (leaf_entries (rleaves C)).
Proof.
  intros [_ Hr] e He. assert (Hin : key_code e ∈ odd_codes (rflat C)).
  { rewrite odd_codes_rflat. by apply list_elem_of_fmap_2. }
  apply list_elem_of_filter in Hin as [_ Hin]. apply Hr in Hin. unfold key_code in Hin. lia.
Qed.

(** ** Finding the child *)

Lemma child_loop_spec key cs : forall s0 t0 i,
  exists l s t r, (s0, t0) :: cs = l ++ (s, t) :: r /\
    child_loop (kids cs) key (page t0) i = (page t, i + length l)%nat /\
    (l <> [] -> s <= key) /\ match r with [] => True | (s', _) :: _ => key < s' end.
Proof.
  induction cs as [|[s1 t1] cs IH]; intros s0 t0 i.
  { exists [], s0, t0, []. split_and!; try done. cbn. by rewrite Nat.add_0_r. }
  rewrite kids_cons. cbn [child_loop]. destruct (Z.ltb_spec key s1) as [Hlt|Hge].
  { exists [], s0, t0, ((s1, t1) :: cs). split_and!; try done. by rewrite Nat.add_0_r. }
  destruct (IH s1 t1 (S i)) as (l & s & t & r & Heq & Hloop & Hs & Hr).
  exists ((s0, t0) :: l), s, t, r. split_and!; [cbn; by rewrite Heq|rewrite Hloop; cbn; f_equal; lia| |done].
  intros _. destruct l as [|c l]; [|by apply Hs]. cbn in Heq. congruence.
Qed.

Lemma sorted_last_le X a x : StronglySorted Z.lt (X ++ [a]) -> x ∈ X ++ [a] -> x <= a.
Proof.
  rewrite StronglySorted_app. intros (Hlt & _). rewrite elem_of_app, list_elem_of_singleton. intros [Hx| ->]; [|lia].
  specialize (Hlt x a Hx ltac:(by left)). lia.
Qed.

(** The frame of the child a key belongs to. *)
Lemma focus_child key n cs C :
  cs <> [] -> StronglySorted Z.lt (flat (TNode n cs)) ->
  (forall x, x ∈ lflat C -> x < 2 * key + 1) -> (forall x, x ∈ rflat C -> 2 * key + 1 < x) ->
  exists f t, cs = frame_kids f t /\ f_page f = n /\ focused (f :: C) key /\
    forall d, page_is d (node_of_kids (kids cs)) ->
      internal_child_for_key_with_slot d key = Ok (page t, length (f_left f)).
Proof.
  intros Hne Hs HlC HrC. destruct cs as [|[s0 t0] cs]; [done|].
  destruct (child_loop_spec key cs s0 t0 O) as (l & s & t & r & Heq & Hloop & Hsk & Hr).
  exists {| f_page := n; f_left := l; f_sep := s; f_right := r |}, t. rewrite Heq in *.
  change (TNode n (l ++ (s, t) :: r)) with (plug1 {| f_page := n; f_left := l; f_sep := s; f_right := r |} t) in Hs.
  rewrite flat_plug1 in Hs. cbn [f_left f_right f_sep] in *. rewrite !StronglySorted_app in Hs. destruct Hs as (_ & Hsl & _ & _ & Hsr).
  split_and!; [done|done| |].
  - split; intros x; cbn; rewrite elem_of_app; intros [Hx|Hx]; auto.
    + unfold lflat1 in *. cbn [f_left f_sep] in *. destruct l as [|[s1 t1] l]; [by apply elem_of_nil in Hx|].
      rewrite kids_flat_cons in *. cbn [tail app] in *. pose proof (sorted_last_le _ _ _ Hsl Hx).
      specialize (Hsk ltac:(done)). lia.
    + cbn [f_right] in *. destruct r as [|[s1 t1] r]; [by rewrite kids_flat_nil, elem_of_nil in Hx|]. rewrite kids_flat_cons in *.
      inversion Hsr as [|? ? ? Hall]; subst. apply elem_of_cons in Hx as [->|Hx]; [lia|].
      rewrite Forall_forall in Hall. specialize (Hall _ Hx). lia.
  - intros d Hd. rewrite <- Heq, kids_cons in Hd. cbn [node_of_kids] in Hd.
    unfold internal_child_for_key_with_slot.
    rewrite (read_internal_entries_of _ _ _ Hd), (read_first_child_of _ _ _ Hd). cbn. by rewrite Hloop.
Qed.

(** ** Descents *)

Lemma node_in_cells C n cs : (n, node_of_kids (kids cs)) ∈ cells (plug C (TNode n cs)).
Proof. rewrite cells_plug, inner_node. left. Qed.

Lemma leaf_in_cells C n es : (n, NLeaf es (head_or (rleaves C).*1 NO_PAGE)) ∈ cells (plug C (TLeaf n es)).
Proof.
  rewrite cells_plug, !chain_app, !elem_of_app. right. right. right. left. left.
Qed.

Lemma kids_ne cs : cs <> [] -> exists f es, node_of_kids (kids cs) = NInner f es.
Proof. destruct cs as [|[s t] cs]; [done|]. intros _. rewrite kids_cons. cbn. eauto. Qed.

Lemma subtree_cells C t : (inner t).*1 ++ (leaves t).*1 ⊆ (cells (plug C t)).*1.
Proof.
  intros x. rewrite cells_plug, !chain_app, !fmap_app, !chain_fst, !elem_of_app. tauto.
Qed.

Lemma page_in_subtree cfg C t : shape cfg t -> page t ∈ (cells (plug C t)).*1.
Proof.
  intros Hs. apply subtree_cells. destruct t as [n es|n cs]; cbn; [left|]. rewrite elem_of_cons. by left.
Qed.

Section Descent.
Context (cfg : DiskBTreeConfig) (m : Meta) (L : list cell).

(** Where descents are: at the subtree [t] of the tree. *)
Record at_subtree (C : list frame) (t : tree) : Prop := {
  at_cells : cells (plug C t) ⊆ L;
  at_shape : shape cfg t;
  at_sorted : StronglySorted Z.lt (flat t) }.

Lemma at_child C n cs f t : at_subtree C (TNode n cs) -> cs = frame_kids f t -> f_page f = n -> at_subtree (f :: C) t.
Proof.
  intros [Hc Hsh Hs] -> <-. change (TNode _ _) with (plug1 f t) in *. inversion Hsh as [|? ? _ Hall]; subst.
  rewrite flat_plug1, !StronglySorted_app in Hs. split; [done| |tauto].
  unfold frame_kids in Hall. apply Forall_app in Hall as [_ Hall]. by apply Forall_cons in Hall as [? _].
Qed.

Lemma at_page_ok C t : at_subtree C t -> pages_ok m L -> 1 <= page t < NO_PAGE.
Proof.
  intros [Hc Hsh _] (_ & Hb & Hm). rewrite Forall_forall in Hb.
  assert (Hin : page t ∈ L.*1).
  { pose proof (page_in_subtree _ C _ Hsh) as Hp. apply list_elem_of_fmap in Hp as (c & -> & Hp).
    by apply list_elem_of_fmap_2, Hc. }
  specialize (Hb (page t) ltac:(rewrite elem_of_app; by right)). unfold NO_PAGE. lia.
Qed.

Lemma leaf_for_key_loop_spec key : forall fuel C t (Q : _ -> _ -> _ -> Prop),
  at_subtree C t -> (depth t <= fuel)%nat -> focused C key ->
  (forall C' n es, plug C' (TLeaf n es) = plug C t -> focused C' key -> Q (Ok (n, path_of C')) m L) ->
  hp (leaf_for_key_loop fuel key (page t) (path_of C)) m L Q.
Proof.
  induction fuel as [|fuel IH]; intros C t Q Hat Hd [Hfl Hfr] HQ; [pose proof (depth_pos t); lia|].
  cbn [leaf_for_key_loop]. destruct t as [n es|n cs]; cbn [page]; apply hp_bind.
  - eapply hp_fetch; [apply (at_cells _ _ Hat), leaf_in_cells|]. intros d Hd'.
    apply hp_bind, hp_ret. rewrite (read_page_kind_of _ _ Hd'). apply hp_mret. by eapply HQ.
  - eapply hp_fetch; [apply (at_cells _ _ Hat), node_in_cells|]. intros d Hd'.
    pose proof Hat as [_ Hsh Hso]. inversion Hsh as [|? ? (Hne & _) _]; subst.
    destruct (kids_ne cs Hne) as (f0 & es0 & Hk).
    destruct (focus_child key n cs C Hne Hso Hfl Hfr) as (f & t & Hcs & Hfp & Hf & Hslot).
    apply hp_bind, hp_ret. rewrite (read_page_kind_of _ _ Hd'), Hk. cbn [kind_of].
    apply hp_bind, hp_ret. rewrite (Hslot _ Hd'). cbn beta iota.
    replace (path_of C ++ [{| page_no := n; child_slot := length (f_left f) |}]) with (path_of (f :: C))
      by (cbn; unfold frame_of; by rewrite Hfp).
    apply IH; [by eapply at_child| |done|].
    + subst cs. pose proof (depth_frame n f t). lia.
    + intros C' n' es' Hp. apply (HQ C' n' es'). rewrite Hp. cbn [plug]. unfold plug1. by rewrite Hcs, Hfp.
Qed.

Lemma get_loop_spec key : forall fuel C t (Q : _ -> _ -> _ -> Prop),
  at_subtree C t -> (depth t <= fuel)%nat -> focused C key ->
  (forall C' n es, plug C' (TLeaf n es) = plug C t -> focused C' key ->
     forall d, page_is d (NLeaf es (head_or (rleaves C').*1 NO_PAGE)) -> Q (leaf_get d key) m L) ->
  hp (get_loop fuel key (page t)) m L Q.
Proof.
  induction fuel as [|fuel IH]; intros C t Q Hat Hd [Hfl Hfr] HQ; [pose proof (depth_pos t); lia|].
  cbn [get_loop]. destruct t as [n es|n cs]; cbn [page]; apply hp_bind.
  - eapply hp_fetch; [apply (at_cells _ _ Hat), leaf_in_cells|]. intros d Hd'.
    apply hp_bind, hp_ret. rewrite (read_page_kind_of _ _ Hd'). apply hp_ret. by eapply HQ.
  - eapply hp_fetch; [apply (at_cells _ _ Hat), node_in_cells|]. intros d Hd'.
    pose proof Hat as [_ Hsh Hso]. inversion Hsh as [|? ? (Hne & _) _]; subst.
    destruct (kids_ne cs Hne) as (f0 & es0 & Hk).
    destruct (focus_child key n cs C Hne Hso Hfl Hfr) as (f & t & Hcs & Hfp & Hf & Hslot).
    apply hp_bind, hp_ret. rewrite (read_page_kind_of _ _ Hd'), Hk. cbn [kind_of].
    apply hp_bind, hp_ret. unfold internal_child_for_key. rewrite (Hslot _ Hd'). cbn.
    apply (IH (f :: C)); [by eapply at_child| |done|].
    + subst cs. pose proof (depth_frame n f t). lia.
    + intros C' n' es' Hp. apply (HQ C' n' es'). rewrite Hp. cbn [plug]. unfold plug1. by rewrite Hcs, Hfp.
Qed.

Lemma leftmost_loop_spec : forall fuel C t (Q : _ -> _ -> _ -> Prop),
  at_subtree C t -> (depth t <= fuel)%nat ->
  (forall n es ls, leaves t = (n, es) :: ls -> Q (Ok n) m L) ->
  hp (leftmost_loop fuel (page t)) m L Q.
Proof.
  induction fuel as [|fuel IH]; intros C t Q Hat Hd HQ; [pose proof (depth_pos t); lia|].
  apply hp_pages. intros _ Hpo _. cbn [leftmost_loop]. destruct t as [n es|n cs]; cbn [page]; apply hp_bind.
  - eapply hp_fetch; [apply (at_cells _ _ Hat), leaf_in_cells|]. intros d Hd'.
    apply hp_bind, hp_ret. rewrite (read_page_kind_of _ _ Hd'). apply hp_mret. by eapply HQ.
  - eapply hp_fetch; [apply (at_cells _ _ Hat), node_in_cells|]. intros d Hd'.
    pose proof Hat as [_ Hsh Hso]. inversion Hsh as [|? ? (Hne & _) _]; subst.
    destruct cs as [|[s t] cs]; [done|]. rewrite kids_cons in Hd'. cbn [node_of_kids] in Hd'.
    apply hp_bind, hp_ret. rewrite (read_page_kind_of _ _ Hd'). cbn [kind_of].
    rewrite (read_first_child_of _ _ _ Hd').
    set (f := {| f_page := n; f_left := []; f_sep := s; f_right := cs |}).
    assert (Hat' : at_subtree (f :: C) t) by (by eapply at_child).
    pose proof (at_page_ok _ _ Hat' Hpo) as Hp. cbv zeta. rewrite (proj2 (Z.eqb_neq _ _)) by lia.
    eapply IH; [exact Hat'| |].
    + pose proof (depth_frame n f t) as Hdf. change (frame_kids f t) with ((s, t) :: cs) in Hdf. lia.
    + intros n' es' ls' Hl. eapply HQ. rewrite leaves_node, kids_leaves_cons, Hl. done.
Qed.

Lemma subtree_first_key_spec : forall fuel C t (Q : _ -> _ -> _ -> Prop),
  at_subtree C t -> (depth t <= fuel)%nat -> Forall (fun l => snd l <> []) (leaves t) ->
  (forall k v es, contents t = (k, v) :: es -> Q (Ok k) m L) ->
  hp (subtree_first_key fuel (page t)) m L Q.
Proof.
  induction fuel as [|fuel IH]; intros C t Q Hat Hd Hne HQ; [pose proof (depth_pos t); lia|].
  apply hp_pages. intros _ Hpo _. cbn [subtree_first_key]. destruct t as [n es|n cs]; cbn [page]; apply hp_bind.
  - eapply hp_fetch; [apply (at_cells _ _ Hat), leaf_in_cells|]. intros d Hd'.
    apply hp_bind, hp_ret. rewrite (read_page_kind_of _ _ Hd'). cbn [kind_of].
    apply hp_bind, hp_ret. rewrite (read_leaf_entries_of _ _ _ Hd'). apply Forall_cons in Hne as [Hne _].
    destruct es as [|[k v] es]; [done|]. apply hp_mret. eapply HQ. done.
  - eapply hp_fetch; [apply (at_cells _ _ Hat), node_in_cells|]. intros d Hd'.
    pose proof Hat as [_ Hsh Hso]. inversion Hsh as [|? ? (Hcs & _) _]; subst.
    destruct cs as [|[s t] cs]; [done|]. rewrite kids_cons in Hd'. cbn [node_of_kids] in Hd'.
    apply hp_bind, hp_ret. rewrite (read_page_kind_of _ _ Hd'). cbn [kind_of].
    rewrite (read_first_child_of _ _ _ Hd').
    set (f := {| f_page := n; f_left := []; f_sep := s; f_right := cs |}).
    assert (Hat' : at_subtree (f :: C) t) by (by eapply at_child).
    pose proof (at_page_ok _ _ Hat' Hpo) as Hp. cbv zeta. rewrite (proj2 (Z.eqb_neq _ _)) by lia.
    rewrite leaves_node, kids_leaves_cons in Hne. apply Forall_app in Hne as [Hne _].
    eapply IH; [exact Hat'| |done|].
    + pose proof (depth_frame n f t) as Hdf. change (frame_kids f t) with ((s, t) :: cs) in Hdf. lia.
    + intros k v es Hl. eapply HQ. unfold contents in *. rewrite leaves_node, kids_leaves_cons, fmap_app, concat_app, Hl. done.
Qed.

Lemma rightmost_loop_spec : forall fuel C t (Q : _ -> _ -> _ -> Prop),
  at_subtree C t -> (depth t <= fuel)%nat ->
  (forall n es ls, leaves t = ls ++ [(n, es)] -> Q (Ok n) m L) ->
  hp (rightmost_loop fuel (page t)) m L Q.
Proof.
  induction fuel as [|fuel IH]; intros C t Q Hat Hd HQ; [pose proof (depth_pos t); lia|].
  apply hp_pages. intros _ Hpo _. cbn [rightmost_loop]. destruct t as [n es|n cs]; cbn [page]; apply hp_bind.
  - eapply hp_fetch; [apply (at_cells _ _ Hat), leaf_in_cells|]. intros d Hd'.
    apply hp_bind, hp_ret. rewrite (read_page_kind_of _ _ Hd'). apply hp_mret. by apply (HQ n es []).
  - eapply hp_fetch; [apply (at_cells _ _ Hat), node_in_cells|]. intros d Hd'.
    pose proof Hat as [_ Hsh Hso]. inversion Hsh as [|? ? (Hne & _) _]; subst.
    destruct (kids_ne cs Hne) as (f0 & es0 & Hk). rewrite Hk in Hd'.
    apply hp_bind, hp_ret. rewrite (read_page_kind_of _ _ Hd'). cbn [kind_of].
    apply hp_bind, hp_ret. rewrite (read_internal_entries_of _ _ _ Hd'), (read_first_child_of _ _ _ Hd').
    destruct (exists_last Hne) as (l & [s t] & ->).
    set (f := {| f_page := n; f_left := l; f_sep := s; f_right := [] |}).
    assert (Hat' : at_subtree (f :: C) t) by (by eapply at_child).
    pose proof (at_page_ok _ _ Hat' Hpo) as Hp.
    assert (Hlast : match last es0 with Some (_, child) => child | None => f0 end = page t).
    { rewrite kids_app, kids_cons, kids_nil in Hk. destruct (kids l) as [|[s0 p0] ks]; cbn in Hk; injection Hk as <- <-; [done|].
      by rewrite last_snoc. }
    cbv zeta. rewrite Hlast. rewrite (proj2 (Z.eqb_neq _ _)) by lia. eapply IH; [exact Hat'| |].
    + pose proof (depth_frame n f t) as Hdf. change (frame_kids f t) with (l ++ [(s, t)]) in Hdf. lia.
    + intros n' es' ls' Hl. eapply HQ. rewrite leaves_node, kids_leaves_app, kids_leaves_cons, kids_leaves_nil, Hl, app_nil_r.
      by rewrite app_assoc.
Qed.

End Descent.

(** ** What the operations return *)

(** The value of a key in sorted entries. *)
Definition entry_value (es : list (Z * Z)) (key : Z) : option Z :=
  match binary_search es key with Ok i => snd <$> es !! i | Err _ => None end.

Definition in_range (lower upper : option Z) (e : Z * Z) : Prop :=
  below lower (fst e) = false /\ above upper (fst e) = false.

#[global] Instance in_range_dec lower upper e : Decision (in_range lower upper e).
Proof. unfold in_range. apply _. Defined.

Definition truncate (limit : option Z) (es : list (Z * Z)) : list (Z * Z) :=
  match limit with Some n => take (Z.to_nat n) es | None => es end.

(** The entries with keys in [lower, upper], at most [limit] of them. *)
Definition range_spec (lower upper limit : option Z) (es : list (Z * Z)) : list (Z * Z) :=
  truncate limit (filter (in_range lower upper) es).

Definition range_desc_spec (lower upper limit : option Z) (es : list (Z * Z)) : list (Z * Z) :=
  truncate limit (reverse (filter (in_range lower upper) es)).

(** ** Searching sorted entries *)

Lemma binary_search_app_l A B key :
  all_below key A ->
  binary_search (A ++ B) key =
    match binary_search B key with Ok i => Ok (length A + i)%nat | Err i => Err (length A + i)%nat end.
Proof.
  induction A as [|[k v] A IH]; intros HA; cbn; [by destruct (binary_search B key)|].
  assert (k < key) by (apply (HA (k, v)); left). rewrite (proj2 (Z.ltb_lt _ _)) by done. rewrite IH.
  - by destruct (binary_search B key).
  - intros e He. apply HA. by right.
Qed.

Lemma binary_search_above B key : all_above key B -> binary_search B key = Err O.
Proof.
  destruct B as [|[k v] B]; intros HB; [done|]. cbn. assert (key < k) by (apply (HB (k, v)); left).
  rewrite (proj2 (Z.ltb_ge _ _)), (proj2 (Z.eqb_neq _ _)) by lia. done.
Qed.

Lemma binary_search_app_r A B key :
  all_above key B -> binary_search (A ++ B) key = binary_search A key.
Proof.
  intros HB. induction A as [|[k v] A IH]; cbn; [by apply binary_search_above|]. rewrite IH. done.
Qed.

Lemma binary_search_Ok es key i :
  binary_search es key = Ok i -> exists v A B, es = A ++ (key, v) :: B /\ length A = i /\ all_below key A.
Proof.
  revert i. induction es as [|[k v] es IH]; intros i; [done|]. cbn. destruct (Z.ltb_spec k key) as [Hlt|Hge].
  - destruct (binary_search es key) as [j|j]; [|done]. intros [= <-].
    destruct (IH j eq_refl) as (v' & A & B & -> & <- & HA). exists v', ((k, v) :: A), B. split_and!; [done|done|].
    intros e He. apply elem_of_cons in He as [->|He]; [done|by apply HA].
  - destruct (Z.eqb_spec k key) as [->|]; [|done]. intros [= <-]. exists v, [], es. split_and!; try done.
    intros e He. by apply elem_of_nil in He.
Qed.

Lemma binary_search_Err es key i :
  binary_search es key = Err i -> sorted_entries es ->
  exists A B, es = A ++ B /\ length A = i /\ all_below key A /\ all_above key B.
Proof.
  revert i. induction es as [|[k v] es IH]; intros i.
  { intros [= <-] _. exists [], []. split_and!; try done; intros e He; by apply elem_of_nil in He. }
  cbn. intros Hb Hs. apply sorted_entries_cons in Hs as [Hs Hk]. destruct (Z.ltb_spec k key) as [Hlt|Hge].
  - destruct (binary_search es key) as [j|j]; [done|]. injection Hb as <-.
    destruct (IH j eq_refl Hs) as (A & B & -> & <- & HA & HB). exists ((k, v) :: A), B. split_and!; [done|done| |done].
    intros e He. apply elem_of_cons in He as [->|He]; [done|by apply HA].
  - destruct (Z.eqb_spec k key) as [->|]; [done|]. injection Hb as <-. exists [], ((k, v) :: es).
    split_and!; try done; [intros e He; by apply elem_of_nil in He|].
    intros e He. apply elem_of_cons in He as [->|He]; cbn; [lia|]. specialize (Hk _ He). cbn in Hk. lia.
Qed.

Lemma entry_value_middle A es B key :
  all_below key A -> all_above key B -> entry_value (A ++ es ++ B) key = entry_value es key.
Proof.
  intros HA HB. unfold entry_value. rewrite binary_search_app_l, binary_search_app_r by done.
  destruct (binary_search es key) as [i|i] eqn:E; [|done].
  destruct (binary_search_Ok _ _ _ E) as (v & A' & B' & -> & <- & _).
  rewrite lookup_app_r by lia. rewrite Nat.add_comm, Nat.add_sub. by rewrite lookup_app_l by (rewrite length_app; cbn; lia).
Qed.

(** ** The loops over entries *)

Definition room (limit : option Z) (out : list (Z * Z)) : Prop :=
  match limit with Some n => count_of out < n | None => True end.

Lemma full_room limit out : full limit out = false <-> room limit out.
Proof. destruct limit as [n|]; cbn; [|done]. rewrite Z.leb_gt. done. Qed.

Lemma truncate_room limit out es : room limit out -> truncate limit (out ++ es) = out ++
  match limit with Some n => take (Z.to_nat n - length out) es | None => es end.
Proof.
  destruct limit as [n|]; cbn; [|done]. unfold count_of. intros Hr. rewrite take_app. by rewrite take_ge by lia.
Qed.

Lemma truncate_full limit out es : full limit out = true -> truncate limit (out ++ es) = truncate limit out.
Proof.
  destruct limit as [n|]; cbn; [|done]. rewrite Z.leb_le. unfold count_of. intros Hr. by rewrite take_app_le by lia.
Qed.

Lemma truncate_short limit out : room limit out -> truncate limit out = out.
Proof. destruct limit as [n|]; cbn; [|done]. unfold count_of. intros Hr. by rewrite take_ge by lia. Qed.

Lemma truncate_last limit out e :
  room limit out -> truncate limit (out ++ [e]) = out ++ [e].
Proof.
  destruct limit as [n|]; cbn; [|done]. unfold count_of. intros Hr.
  rewrite take_ge; [done|]. rewrite length_app. cbn. lia.
Qed.

Lemma filter_nothing {A} (P : A -> Prop) `{!forall x, Decision (P x)} l :
  (forall x, x ∈ l -> ~ P x) -> filter P l = [].
Proof.
  induction l as [|x l IH]; intros Hl; [done|]. rewrite filter_cons_False by (apply Hl; left).
  apply IH. intros y Hy. apply Hl. by right.
Qed.

Section Scan.
Context (skip stop : Z -> bool) (limit : option Z).

Definition scanned (e : Z * Z) : Prop := skip (fst e) = false /\ stop (fst e) = false.

#[local] Instance scanned_dec e : Decision (scanned e).
Proof. unfold scanned. apply _. Defined.

Lemma scan_entries_app es1 es2 : forall out,
  scan_entries skip stop limit (es1 ++ es2) out =
    let '(b, out) := scan_entries skip stop limit es1 out in
    if b then (true, out) else scan_entries skip stop limit es2 out.
Proof.
  induction es1 as [|[k v] es1 IH]; intros out; [done|]. cbn.
  destruct (skip k); [apply IH|]. destruct (stop k); [done|]. destruct (full limit (out ++ [(k, v)])); [done|apply IH].
Qed.

(** Nothing is scanned behind an entry that stops. *)
Lemma scan_entries_spec es : forall out,
  room limit out ->
  (forall A e B, es = A ++ e :: B -> stop (fst e) = true -> forall b, b ∈ B -> ~ scanned b) ->
  snd (scan_entries skip stop limit es out) = truncate limit (out ++ filter scanned es).
Proof.
  induction es as [|[k v] es IH]; intros out Hr Hst; cbn [scan_entries].
  { cbn. rewrite app_nil_r. by rewrite truncate_short. }
  assert (Hst' : forall A e B, es = A ++ e :: B -> stop (fst e) = true -> forall b, b ∈ B -> ~ scanned b).
  { intros A e B -> He. by apply (Hst ((k, v) :: A) e B). }
  destruct (skip k) eqn:Hk.
  { rewrite filter_cons_False by (intros [H1 H2]; cbn in H1; congruence). by apply IH. }
  destruct (stop k) eqn:Hs.
  { rewrite filter_cons_False by (intros [H1 H2]; cbn in H2; congruence).
    rewrite filter_nothing by (by apply (Hst [] (k, v) es)). rewrite app_nil_r. cbn. by rewrite truncate_short. }
  rewrite filter_cons_True by done. cbv zeta. destruct (full limit (out ++ [(k, v)])) eqn:Hf; cbn [snd].
  - replace (out ++ (k, v) :: filter scanned es) with ((out ++ [(k, v)]) ++ filter scanned es) by (by rewrite <- app_assoc).
    by rewrite truncate_full, truncate_last.
  - rewrite IH; [by rewrite <- app_assoc|by apply full_room|done].
Qed.

End Scan.

Lemma range_entries_spec lower upper limit es out :
  sorted_entries es -> room limit out ->
  snd (range_entries lower upper limit es out) = truncate limit (out ++ filter (in_range lower upper) es).
Proof.
  intros Hs Hr. unfold range_entries. rewrite scan_entries_spec; [done|done|].
  intros A e B -> He b Hb [_ H2]. apply sorted_entries_app in Hs as (_ & Hs & _). apply sorted_entries_cons in Hs as [_ Hk].
  specialize (Hk _ Hb). destruct upper as [u|]; [|done]. cbn in *. apply Z.ltb_lt in He. apply Z.ltb_ge in H2. lia.
Qed.

Lemma desc_entries_spec lower upper limit es out :
  sorted_entries es -> room limit out ->
  snd (desc_entries lower upper limit (reverse es) out) =
    truncate limit (out ++ reverse (filter (in_range lower upper) es)).
Proof.
  intros Hs Hr. unfold desc_entries. rewrite scan_entries_spec; [|done|].
  - rewrite filter_reverse. do 3 f_equal. apply list_filter_iff. intros e. unfold scanned, in_range. tauto.
  - intros A e B Heq He b Hb [_ H2]. apply (f_equal reverse) in Heq. rewrite reverse_involutive, reverse_app, reverse_cons in Heq.
    rewrite Heq in Hs. rewrite <- app_assoc in Hs. apply sorted_entries_app in Hs as (_ & _ & Hk).
    specialize (Hk b e ltac:(by rewrite elem_of_reverse) ltac:(left)). destruct lower as [l|]; [|done]. cbn in *.
    apply Z.ltb_lt in He. apply Z.ltb_ge in H2. lia.
Qed.

(** ** Scans of the chain *)

Section Chain.
Context (m : Meta) (L : list cell) (ls : list (Z * list (Z * Z))).
Hypothesis Hchain : chain ls NO_PAGE ⊆ L.

Lemma chain_cell ls1 n es ls2 : ls = ls1 ++ (n, es) :: ls2 -> (n, NLeaf es (head_or ls2.*1 NO_PAGE)) ∈ L.
Proof. intros Heq. apply Hchain. rewrite Heq, chain_app, elem_of_app. right. left. Qed.

Lemma chain_page_ok ls1 n es ls2 : ls = ls1 ++ (n, es) :: ls2 -> pages_ok m L -> 1 <= n < NO_PAGE.
Proof.
  intros Heq (_ & Hb & Hm). rewrite Forall_forall in Hb. unfold NO_PAGE.
  specialize (Hb n ltac:(rewrite elem_of_app; right; by apply (list_elem_of_fmap_2 fst _ _ (chain_cell _ _ _ _ Heq)))). lia.
Qed.

Lemma range_loop_spec lower upper limit : forall fuel ls1 n es ls2 out (Q : _ -> _ -> _ -> Prop),
  ls = ls1 ++ (n, es) :: ls2 -> (length ls2 < fuel)%nat ->
  Q (Ok (snd (range_entries lower upper limit (es ++ leaf_entries ls2) out))) m L ->
  hp (range_loop fuel lower upper limit n out) m L Q.
Proof.
  induction fuel as [|fuel IH]; intros ls1 n es ls2 out Q Heq Hf HQ; [lia|]. cbn [range_loop].
  apply hp_pages. intros _ Hpo _. apply hp_bind. eapply hp_read_leaf; [by eapply chain_cell|].
  unfold range_entries in *. rewrite scan_entries_app in HQ.
  destruct (scan_entries (below lower) (above upper) limit es out) as [[] out'] eqn:E; [by apply hp_mret|].
  destruct ls2 as [|[n2 es2] ls2]; [by apply hp_mret|]. cbn [head_or fmap list_fmap fst].
  assert (Heq' : ls = (ls1 ++ [(n, es)]) ++ (n2, es2) :: ls2) by (by rewrite <- app_assoc).
  pose proof (chain_page_ok _ _ _ _ Heq' Hpo). rewrite (proj2 (Z.eqb_neq _ _)) by lia.
  eapply IH; [exact Heq'|cbn in Hf; lia|]. exact HQ.
Qed.

Lemma desc_pages_loop_spec upper : forall fuel ls1 n es ls2 acc (Q : _ -> _ -> _ -> Prop),
  ls = ls1 ++ (n, es) :: ls2 -> (length ls2 < fuel)%nat ->
  Q (Ok (acc ++ (filter (fun l => keeps_leaf upper (snd l) = true) ((n, es) :: ls2)).*1)) m L ->
  hp (desc_pages_loop fuel upper n acc) m L Q.
Proof.
  induction fuel as [|fuel IH]; intros ls1 n es ls2 acc Q Heq Hf HQ; [lia|]. cbn [desc_pages_loop].
  apply hp_pages. intros _ Hpo _. apply hp_bind. eapply hp_read_leaf; [by eapply chain_cell|]. cbv zeta.
  set (acc' := if keeps_leaf upper es then acc ++ [n] else acc).
  assert (HQ' : Q (Ok (acc' ++ (filter (fun l => keeps_leaf upper (snd l) = true) ls2).*1)) m L).
  { unfold acc'. destruct (keeps_leaf upper es) eqn:E.
    - rewrite filter_cons_True in HQ by done. by rewrite <- app_assoc.
    - rewrite filter_cons_False in HQ by (cbn; by rewrite E). done. }
  destruct ls2 as [|[n2 es2] ls2]; [apply hp_mret; cbn in HQ'; by rewrite app_nil_r in HQ'|].
  cbn [head_or fmap list_fmap fst].
  assert (Heq' : ls = (ls1 ++ [(n, es)]) ++ (n2, es2) :: ls2) by (by rewrite <- app_assoc).
  pose proof (chain_page_ok _ _ _ _ Heq' Hpo). rewrite (proj2 (Z.eqb_neq _ _)) by lia.
  eapply IH; [exact Heq'|cbn in Hf; lia|done].
Qed.

Lemma desc_out_loop_spec lower upper limit : forall kept out (Q : _ -> _ -> _ -> Prop),
  (forall l, l ∈ kept -> l ∈ ls) ->
  Q (Ok (snd (desc_entries lower upper limit (concat (reverse <$> kept.*2)) out))) m L ->
  hp (desc_out_loop lower upper limit kept.*1 out) m L Q.
Proof.
  induction kept as [|[n es] kept IH]; intros out Q Hin HQ; [by apply hp_mret|]. cbn [fmap list_fmap fst desc_out_loop].
  destruct (list_elem_of_split ls (n, es)) as (ls1 & ls2 & Heq); [apply Hin; left|].
  apply hp_bind. eapply hp_read_leaf; [by eapply chain_cell|].
  cbn [fmap list_fmap snd concat] in HQ. unfold desc_entries in *. rewrite scan_entries_app in HQ.
  destruct (scan_entries (above upper) (below lower) limit (reverse es) out) as [[] out'] eqn:E; [by apply hp_mret|].
  apply IH; [|done]. intros l Hl. apply Hin. by right.
Qed.

End Chain.

(** ** The operations *)

Section Ops.
Context (cfg : DiskBTreeConfig) (m : Meta) (L : list cell) (T : tree).
Hypothesis HT : btree cfg m L T.

Lemma btree_at : at_subtree cfg L [] T.
Proof.
  destruct HT as [HL _ _ [Hsh Hso _]]. split; [|done|done]. cbn. intros c. by rewrite HL.
Qed.

Lemma btree_chain : chain (leaves T) NO_PAGE ⊆ L.
Proof. destruct HT as [HL _ _ _]. intros c Hc. rewrite HL. unfold cells. rewrite elem_of_app. by right. Qed.

Lemma focused_nil key : focused [] key.
Proof. split; intros x Hx; by apply elem_of_nil in Hx. Qed.

Lemma hp_leaf_for_key_with_path fuel key (Q : _ -> _ -> _ -> Prop) :
  (depth T <= fuel)%nat ->
  (forall C n es, T = plug C (TLeaf n es) -> focused C key -> Q (Ok (n, path_of C)) m L) ->
  hp (leaf_for_key_with_path fuel key) m L Q.
Proof.
  intros Hf HQ. apply hp_bind, hp_root_page. rewrite (bt_root _ _ _ _ HT).
  apply (leaf_for_key_loop_spec cfg m L key fuel [] T); [apply btree_at|done|apply focused_nil|].
  intros C n es Hp Hc. by apply (HQ C n es).
Qed.

Lemma hp_get fuel key (Q : _ -> _ -> _ -> Prop) :
  (depth T <= fuel)%nat -> Q (Ok (entry_value (contents T) key)) m L -> hp (get fuel key) m L Q.
Proof.
  intros Hf HQ. apply hp_bind, hp_root_page. rewrite (bt_root _ _ _ _ HT).
  apply (get_loop_spec cfg m L key fuel [] T); [apply btree_at|done|apply focused_nil|].
  intros C n es Hp Hc d Hd. unfold leaf_get. rewrite (read_leaf_entries_of _ _ _ Hd). cbn [plug] in Hp.
  rewrite <- Hp, contents_plug in HQ. fold (leaf_entries (lleaves C)) (leaf_entries (rleaves C)) in HQ.
  rewrite entry_value_middle in HQ by (by apply focused_below || by apply focused_above).
  unfold contents in HQ. cbn in HQ. by rewrite app_nil_r in HQ.
Qed.

(** The leaf a scan starts from: no entry before it is in range. *)
Lemma hp_start_leaf fuel lower upper (Q : _ -> _ -> _ -> Prop) :
  (depth T <= fuel)%nat ->
  (forall ls1 n es ls2, leaves T = ls1 ++ (n, es) :: ls2 ->
     filter (in_range lower upper) (leaf_entries ls1) = [] -> Q (Ok n) m L) ->
  hp (start_leaf fuel lower) m L Q.
Proof.
  intros Hf HQ. destruct lower as [key|]; cbn [start_leaf].
  - apply hp_bind, hp_leaf_for_key_with_path; [done|]. intros C n es Hp Hc. apply hp_mret.
    apply (HQ (lleaves C) n es (rleaves C)).
    + by rewrite Hp, leaves_plug.
    + apply filter_nothing. intros e He [H1 _]. cbn in H1. apply Z.ltb_ge in H1.
      pose proof (focused_below _ _ Hc _ He). lia.
  - apply hp_bind, hp_root_page. rewrite (bt_root _ _ _ _ HT). eapply leftmost_loop_spec; [apply btree_at|done|].
    intros n es ls Hl. by apply (HQ [] n es ls).
Qed.

Definition limit_ok (limit : option Z) : Prop := match limit with Some n => 0 <= n | None => True end.

Lemma truncate_zero es : truncate (Some 0) es = [].
Proof. done. Qed.

Lemma room_nil limit : limit_ok limit -> limit <> Some 0 -> room limit [].
Proof. destruct limit as [n|]; [|done]. cbn. unfold count_of. cbn. intros Hn Hne. assert (n <> 0) by congruence. lia. Qed.

Lemma tree_sorted : sorted_entries (contents T).
Proof. apply contents_sorted, (ok_sorted _ _ (bt_tree _ _ _ _ HT)). Qed.

Lemma contents_split ls1 n es ls2 :
  leaves T = ls1 ++ (n, es) :: ls2 -> contents T = leaf_entries ls1 ++ es ++ leaf_entries ls2.
Proof. intros Hl. unfold contents, leaf_entries. by rewrite Hl, fmap_app, concat_app. Qed.

Lemma hp_range fuel lower upper limit (Q : _ -> _ -> _ -> Prop) :
  (depth T <= fuel)%nat -> (length (leaves T) <= fuel)%nat -> limit_ok limit ->
  Q (Ok (range_spec lower upper limit (contents T))) m L ->
  hp (range fuel lower upper limit) m L Q.
Proof.
  intros Hf Hf2 Hl HQ. unfold range. case_bool_decide as H0; [subst; by apply hp_mret|].
  apply hp_bind. eapply (hp_start_leaf _ _ upper); [done|]. intros ls1 n es ls2 Hls Hnone.
  eapply (range_loop_spec m L (leaves T) btree_chain); [exact Hls| |].
  { rewrite Hls, length_app in Hf2. cbn in Hf2. lia. }
  pose proof tree_sorted as Hs. rewrite (contents_split _ _ _ _ Hls) in *.
  unfold range_spec in HQ. rewrite filter_app, Hnone in HQ. apply sorted_entries_app in Hs as (_ & Hs & _).
  rewrite range_entries_spec; [done|done|by apply room_nil].
Qed.

Lemma leaf_sorted ls1 n es ls2 : leaves T = ls1 ++ (n, es) :: ls2 -> sorted_entries es.
Proof.
  intros Hls. pose proof tree_sorted as Hs. rewrite (contents_split _ _ _ _ Hls) in Hs.
  by apply sorted_entries_app in Hs as (_ & (? & _)%sorted_entries_app & _).
Qed.

(** A leaf that is not kept has no entry in range. *)
Lemma dropped_leaf lower upper es :
  sorted_entries es -> keeps_leaf upper es = false -> filter (in_range lower upper) es = [].
Proof.
  intros Hs Hk. apply filter_nothing. intros e He [_ H2]. destruct es as [|[k v] es]; [by apply elem_of_nil in He|].
  unfold keeps_leaf in Hk. apply orb_false_iff in Hk as [_ Hk]. cbn in Hk. apply negb_false_iff in Hk.
  apply sorted_entries_cons in Hs as [_ Hs]. destruct upper as [u|]; [|done]. cbn in *. apply Z.ltb_lt in Hk.
  apply Z.ltb_ge in H2. apply elem_of_cons in He as [->|He]; cbn in *; [lia|]. specialize (Hs _ He). lia.
Qed.

Lemma filter_kept lower upper ls :
  (forall l, l ∈ ls -> sorted_entries (snd l)) ->
  filter (in_range lower upper) (leaf_entries (filter (fun l => keeps_leaf upper (snd l) = true) ls)) =
  filter (in_range lower upper) (leaf_entries ls).
Proof.
  induction ls as [|[n es] ls IH]; intros Hs; [done|].
  specialize (IH (fun l Hl => Hs l ltac:(by right))). pose proof (Hs (n, es) ltac:(left)) as Hes. cbn in Hes.
  destruct (keeps_leaf upper es) eqn:E.
  - rewrite filter_cons_True by done. cbn. rewrite !filter_app. f_equal. exact IH.
  - rewrite filter_cons_False by (cbn; by rewrite E). cbn. rewrite filter_app, (dropped_leaf _ _ es) by done. exact IH.
Qed.

Lemma sorted_entries_sublist es es' : es' `sublist_of` es -> sorted_entries es -> sorted_entries es'.
Proof.
  induction 1 as [|e es' es Hsub IH|e es' es Hsub IH]; [done| |].
  - rewrite !sorted_entries_cons. intros [Hs Hk]. split; [by apply IH|]. intros b Hb. apply Hk.
    by eapply elem_of_submseteq, sublist_submseteq.
  - rewrite sorted_entries_cons. intros [Hs _]. by apply IH.
Qed.

Lemma leaf_entries_kept (P : Z * list (Z * Z) -> Prop) `{!forall x, Decision (P x)} ls :
  leaf_entries (filter P ls) `sublist_of` leaf_entries ls.
Proof.
  induction ls as [|l ls IH]; [done|]. destruct (decide (P l)).
  - rewrite filter_cons_True by done. cbn. by apply sublist_app.
  - rewrite filter_cons_False by done. cbn. by apply sublist_inserts_l.
Qed.

Lemma concat_reverse_kept (ls : list (Z * list (Z * Z))) :
  concat (reverse <$> (reverse ls).*2) = reverse (leaf_entries ls).
Proof.
  unfold leaf_entries. induction ls as [|[n es] ls IH]; [done|]. rewrite reverse_cons, !fmap_app, concat_app, IH.
  cbn [fmap list_fmap snd concat]. by rewrite app_nil_r, reverse_app.
Qed.

Lemma hp_range_desc_scan fuel lower upper limit (Q : _ -> _ -> _ -> Prop) :
  (depth T <= fuel)%nat -> (length (leaves T) <= fuel)%nat -> limit_ok limit -> limit <> Some 0 ->
  Q (Ok (range_desc_spec lower upper limit (contents T))) m L ->
  hp (range_desc_scan fuel lower upper limit) m L Q.
Proof.
  intros Hf Hf2 Hl H0 HQ. apply hp_bind. eapply (hp_start_leaf _ _ upper); [done|]. intros ls1 n es ls2 Hls Hnone.
  apply hp_bind. eapply (desc_pages_loop_spec m L (leaves T) btree_chain); [exact Hls| |].
  { rewrite Hls, length_app in Hf2. cbn in Hf2. lia. }
  cbn [app]. rewrite <- fmap_reverse.
  set (kept := filter (fun l => keeps_leaf upper (snd l) = true) ((n, es) :: ls2)).
  eapply (desc_out_loop_spec m L (leaves T) btree_chain).
  { intros l Hin. rewrite elem_of_reverse in Hin. apply list_elem_of_filter in Hin as [_ Hin].
    rewrite Hls, elem_of_app. by right. }
  rewrite concat_reverse_kept.
  assert (Hs2 : sorted_entries (leaf_entries ((n, es) :: ls2))).
  { pose proof tree_sorted as Hs. rewrite (contents_split _ _ _ _ Hls) in Hs. by apply sorted_entries_app in Hs as (_ & ? & _). }
  rewrite desc_entries_spec; [|eapply sorted_entries_sublist; [apply leaf_entries_kept|exact Hs2]|by apply room_nil].
  cbn [app]. unfold kept. rewrite filter_kept.
  - unfold range_desc_spec in HQ. rewrite (contents_split _ _ _ _ Hls), filter_app, Hnone in HQ. exact HQ.
  - intros [n' es'] Hin. apply list_elem_of_split in Hin as (l1 & l2 & Hin). eapply (leaf_sorted (ls1 ++ l1)).
    rewrite Hls, Hin. by rewrite <- app_assoc.
Qed.

Lemma filter_unbounded (es : list (Z * Z)) : filter (in_range None None) es = es.
Proof. induction es as [|e es IH]; [done|]. rewrite filter_cons_True by done. by rewrite IH. Qed.

Lemma hp_range_desc fuel lower upper limit (Q : _ -> _ -> _ -> Prop) :
  (depth T <= fuel)%nat -> (length (leaves T) <= fuel)%nat -> limit_ok limit ->
  Q (Ok (range_desc_spec lower upper limit (contents T))) m L ->
  hp (range_desc fuel lower upper limit) m L Q.
Proof.
  intros Hf Hf2 Hl HQ. unfold range_desc. case_bool_decide as H0; [subst; by apply hp_mret|].
  pose proof (hp_range_desc_scan fuel lower upper limit Q Hf Hf2 Hl H0 HQ) as Hscan.
  destruct lower; [done|]. destruct upper; [done|]. destruct limit as [n|]; [|done].
  apply hp_bind, hp_bind, hp_root_page. rewrite (bt_root _ _ _ _ HT). eapply rightmost_loop_spec; [apply btree_at|done|].
  intros page es ls Hls. apply hp_bind.
  eapply hp_read_leaf; [by apply (chain_cell L (leaves T) btree_chain ls page es [])|].
  destruct (Z.leb_spec n (count_of es)) as [Hn|Hn]; [|done]. apply hp_mret.
  unfold range_desc_spec in HQ. rewrite filter_unbounded, (contents_split _ _ _ _ Hls), app_nil_r, reverse_app in HQ.
  cbn [truncate] in HQ. unfold count_of in Hn. by rewrite take_app_le in HQ by (rewrite length_reverse; lia).
Qed.

End Ops.

End Read.
