(* ===== verification/BTreeInsert.v ===== *)
(** * Insertion into the disk B+tree

    [insert] sets the key in the leaf its descent ends in and splits nodes that became
    too large on the way back.  At a subtree the result is one tree, or two with a
    separator between them ([inserted]); the tree around it is as it was. *)

From S2P Require Import Prelude.
From S2P Require Import Bytes.
From S2P Require Import PageBytes.
From S2P Require Import PoolPage.
From S2P Require Import ClockSweep.
From S2P Require Import BufferPool.
From S2P Require Import BTreePage.
From S2P Require Import PageProg.
From S2P Require Import DiskBTree.
From S2P Require Import BTreeMaintenance.
From S2P Require Import BTreeState.
From S2P Require Import BTreeShape.
From S2P Require Import BTreeRead.

Section Inserting.
Context {PL : PageLimit}.

(** ** Setting a key in sorted entries *)

Lemma put_entry_cases es key value :
  sorted_entries es ->
  exists A B, all_below key A /\ all_above key B /\ put_entry es key value = A ++ (key, value) :: B /\
    (es = A ++ B \/ exists v, es = A ++ (key, v) :: B).
Proof.
  intros Hs. unfold put_entry. destruct (binary_search es key) as [i|i] eqn:E.
  - destruct (binary_search_Ok _ _ _ E) as (v & A & B & -> & <- & HA). exists A, B. split_and!; [done| | |eauto].
    + apply sorted_entries_app in Hs as (_ & Hs & _). apply sorted_entries_cons in Hs as [_ Hk]. exact Hk.
    + rewrite insert_app_r_alt, Nat.sub_diag by lia. done.
  - destruct (binary_search_Err _ _ _ E Hs) as (A & B & -> & <- & HA & HB). exists A, B. split_and!; [done|done| |by left].
    unfold vec_insert. by rewrite take_app_length, drop_app_length.
Qed.

Lemma put_entry_middle A es B key value :
  sorted_entries es -> all_below key A -> all_above key B ->
  put_entry (A ++ es ++ B) key value = A ++ put_entry es key value ++ B.
Proof.
  intros Hs HA HB. unfold put_entry. rewrite binary_search_app_l, binary_search_app_r by done.
  destruct (binary_search es key) as [i|i] eqn:E.
  - destruct (binary_search_Ok _ _ _ E) as (v & A' & B' & -> & <- & _).
    rewrite insert_app_r_alt by lia. rewrite Nat.add_comm, Nat.add_sub. f_equal.
    rewrite !insert_app_l by (rewrite length_app; cbn; lia). done.
  - destruct (binary_search_Err _ _ _ E Hs) as (A' & B' & -> & <- & _). unfold vec_insert.
    rewrite !take_app_length, !drop_app_length. rewrite (app_assoc A (A' ++ B')).
    replace (length A + length A')%nat with (length (A ++ A')) by apply length_app.
    rewrite <- !app_assoc, (app_assoc A A'), take_app_length, drop_app_length. by rewrite <- !app_assoc.
Qed.

Lemma put_entry_sorted es key value : sorted_entries es -> sorted_entries (put_entry es key value).
Proof.
  intros Hs. destruct (put_entry_cases es key value Hs) as (A & B & HA & HB & -> & Hes).
  assert (HAB : sorted_entries (A ++ B)).
  { destruct Hes as [->|[v ->]]; [done|]. eapply sorted_entries_sublist; [|exact Hs].
    apply sublist_app; [done|]. by apply sublist_cons. }
  apply sorted_entries_app in HAB as (H1 & H2 & H3). apply sorted_entries_app. split_and!; [done| |].
  - apply sorted_entries_cons. by split.
  - intros a b Ha Hb. apply elem_of_cons in Hb as [->|Hb]; [by apply HA|by apply H3].
Qed.

Lemma put_entry_length es key value :
  sorted_entries es -> count_of es <= count_of (put_entry es key value) <= count_of es + 1 /\
    put_entry es key value <> [].
Proof.
  intros Hs. destruct (put_entry_cases es key value Hs) as (A & B & _ & _ & -> & Hes). unfold count_of.
  split; [|by destruct A].
  destruct Hes as [->|[v ->]]; rewrite !length_app; cbn [length]; lia.
Qed.

Lemma put_entry_elem es key value e :
  sorted_entries es -> e ∈ put_entry es key value -> e ∈ es \/ e = (key, value).
Proof.
  intros Hs. destruct (put_entry_cases es key value Hs) as (A & B & _ & _ & -> & Hes).
  rewrite elem_of_app, elem_of_cons. intros [He|[->|He]]; [| by right|];
    left; destruct Hes as [->|[v ->]]; rewrite elem_of_app, ?elem_of_cons; tauto.
Qed.

Lemma put_entry_u64 es key value :
  sorted_entries es -> Forall u64_entry es -> in_u64 key -> in_u64 value -> Forall u64_entry (put_entry es key value).
Proof.
  intros Hs Hu Hk Hv. rewrite Forall_forall in *. intros e He.
  destruct (put_entry_elem _ _ _ _ Hs He) as [He'| ->]; [by apply Hu|done].
Qed.

(** ** Codes between bounds *)

(** [X'] stays between the bounds of [X] that leave room for [key]. *)
Definition within (key : Z) (X X' : list Z) : Prop :=
  (forall lo, lo < 2 * key + 1 -> (forall x, x ∈ X -> lo < x) -> forall x, x ∈ X' -> lo < x) /\
  (forall hi, 2 * key + 1 < hi -> (forall x, x ∈ X -> x < hi) -> forall x, x ∈ X' -> x < hi).

Lemma sorted_within key A X X' B :
  StronglySorted Z.lt (A ++ X ++ B) -> (forall a, a ∈ A -> a < 2 * key + 1) -> (forall b, b ∈ B -> 2 * key + 1 < b) ->
  StronglySorted Z.lt X' -> within key X X' -> StronglySorted Z.lt (A ++ X' ++ B).
Proof.
  rewrite !StronglySorted_app. intros (HAX & HA & HXB & HX & HB) HAk HBk HX' [Hlo Hhi]. split_and!; try done.
  - intros a y Ha. rewrite elem_of_app. intros [Hy|Hy].
    + apply (Hlo a); [auto| |done]. intros x Hx. apply HAX; [done|]. rewrite elem_of_app. by left.
    + apply HAX; [done|]. rewrite elem_of_app. by right.
  - intros x b Hx Hb. apply (Hhi b); [auto| |done]. intros y Hy. by apply HXB.
Qed.

Lemma within_frame key A X X' B :
  (forall a, a ∈ A -> a < 2 * key + 1) -> (forall b, b ∈ B -> 2 * key + 1 < b) -> within key X X' ->
  within key (A ++ X ++ B) (A ++ X' ++ B).
Proof.
  intros HA HB [Hlo Hhi]. split.
  - intros lo Hk Hall x. rewrite !elem_of_app. intros [Hx|[Hx|Hx]]; [apply Hall; rewrite elem_of_app; by left| |].
    + apply (Hlo lo); [done| |done]. intros y Hy. apply Hall. rewrite !elem_of_app. tauto.
    + specialize (HB _ Hx). lia.
  - intros hi Hk Hall x. rewrite !elem_of_app. intros [Hx|[Hx|Hx]]; [specialize (HA _ Hx); lia| |].
    + apply (Hhi hi); [done| |done]. intros y Hy. apply Hall. rewrite !elem_of_app. tauto.
    + apply Hall. rewrite !elem_of_app. tauto.
Qed.

Lemma within_put es key value :
  sorted_entries es -> within key (map key_code es) (map key_code (put_entry es key value)).
Proof.
  intros Hs. split; intros b Hk Hall x Hx; apply list_elem_of_fmap in Hx as (e & -> & Hx);
    destruct (put_entry_elem _ _ _ _ Hs Hx) as [He| ->]; try (apply Hall; by apply list_elem_of_fmap_2); unfold key_code; cbn; lia.
Qed.

(** A separator between two parts, equal to the first key of the second. *)
Lemma within_split key X es1 k v es2 :
  es1 <> [] -> sorted_entries (es1 ++ (k, v) :: es2) -> within key X (map key_code (es1 ++ (k, v) :: es2)) ->
  let X' := map key_code es1 ++ 2 * k :: map key_code ((k, v) :: es2) in
  StronglySorted Z.lt X' /\ within key X X'.
Proof.
  intros Hne Hs Hw X'.
  assert (H1 : forall e, e ∈ es1 -> fst e < k).
  { intros e He. apply sorted_entries_app in Hs as (_ & _ & Hs). apply (Hs e (k, v) He). left. }
  assert (HX' : forall x, x ∈ X' -> x = 2 * k \/ x ∈ map key_code (es1 ++ (k, v) :: es2)).
  { intros x. unfold X'. rewrite map_app, !elem_of_app, elem_of_cons. tauto. }
  split.
  - unfold X', sorted_entries in *. rewrite map_app in Hs. apply StronglySorted_app in Hs as (Hc & Ha & Hb).
    apply StronglySorted_app. split_and!; [|done|].
    + intros x y Hx Hy. apply elem_of_cons in Hy as [->|Hy]; [|by apply Hc].
      apply list_elem_of_fmap in Hx as (e & -> & Hx). specialize (H1 _ Hx). unfold key_code. lia.
    + constructor; [done|]. cbn [map] in *. inversion Hb as [|? ? Hb1 Hb2]; subst. unfold key_code in *. cbn [fst] in *.
      constructor; [lia|]. eapply Forall_impl; [exact Hb2|]. cbn. intros; lia.
  - destruct Hw as [Hlo Hhi]. split.
    + intros lo Hk Hall x Hx. apply HX' in Hx as [->|Hx]; [|by apply (Hlo lo)].
      destruct es1 as [|e es1]; [done|]. assert (He : key_code e ∈ map key_code ((e :: es1) ++ (k, v) :: es2)) by left.
      specialize (Hlo lo Hk Hall _ He). specialize (H1 e ltac:(left)). unfold key_code in Hlo. lia.
    + intros hi Hk Hall x Hx. apply HX' in Hx as [->|Hx]; [|by apply (Hhi hi)].
      assert (He : key_code (k, v) ∈ map key_code (es1 ++ (k, v) :: es2)).
      { apply list_elem_of_fmap_2. rewrite elem_of_app. right. left. }
      specialize (Hhi hi Hk Hall _ He). unfold key_code in Hhi. cbn in Hhi. lia.
Qed.

(** ** The result at a subtree *)

Definition filled_leaves (ls : list (Z * list (Z * Z))) : Prop := Forall (fun l => snd l <> []) ls.

Section Insert.
Context (cfg : DiskBTreeConfig) (key value : Z).
Hypothesis Hleaf : 1 <= leaf_capacity cfg <= PAGE_ENTRIES.
Hypothesis Hinner : 2 <= internal_capacity cfg <= PAGE_ENTRIES.
Hypothesis Hkey : in_u64 key.
Hypothesis Hvalue : in_u64 value.

(** [t] with the key set is [cs]: one tree, or two and the separator between them. *)
Record inserted (t : tree) (cs : children) : Prop := {
  ins_first : forall r, head_or (kids_leaves cs).*1 r = head_or (leaves t).*1 r;
  ins_contents : leaf_entries (kids_leaves cs) = put_entry (contents t) key value;
  ins_shape : Forall (fun c => shape cfg (snd c)) cs;
  ins_leaf : Forall (fun c => is_leaf (snd c) = is_leaf t) cs;
  ins_sorted : StronglySorted Z.lt (tail (kids_flat cs));
  ins_within : within key (flat t) (tail (kids_flat cs));
  ins_filled : filled t -> filled_leaves (kids_leaves cs);
  ins_depth : (kids_depth cs <= depth t)%nat;
  ins_seps : Forall (fun c => in_u64 (fst c)) cs }.

Definition ins_result (rest : children) : option Split :=
  match rest with [] => None | (s, t) :: _ => Some {| separator := s; right_page := page t |} end.

(** What a run that inserts at [t] leaves of the state. *)
Record ins_state (m m' : Meta) (t : tree) (cs : children) (r : Z) (F L' : list cell) : Prop := {
  st_cells : L' ≡ₚ kids_inner cs ++ chain (kids_leaves cs) r ++ F;
  st_root : m_root m' = m_root m;
  st_height : m_height m' = m_height m;
  st_next : m_next m <= m_next m' <= m_next m + Z.of_nat (depth t) }.

Definition ins_post (m : Meta) (t : tree) (r : Z) (F : list cell)
    (Q : PoolResult (option Split) -> Meta -> list cell -> Prop) : Prop :=
  forall m' L' t1 rest, page t1 = page t -> (length rest <= 1)%nat -> inserted t ((0, t1) :: rest) ->
    ins_state m m' t ((0, t1) :: rest) r F L' -> Q (Ok (ins_result rest)) m' L'.

Lemma entries_ok_take n es : entries_ok es -> entries_ok (take n es).
Proof.
  intros [Hu Hc]. split; [by apply Forall_take|]. unfold count_of in *. rewrite length_take. lia.
Qed.

Lemma entries_ok_u64 es : Forall u64_entry es -> count_of es <= PAGE_ENTRIES -> entries_ok es.
Proof. by split. Qed.

Lemma inserted_leaf n es :
  sorted_entries es -> count_of (put_entry es key value) <= leaf_capacity cfg ->
  inserted (TLeaf n es) [(0, TLeaf n (put_entry es key value))].
Proof.
  intros Hs Hc. pose proof (put_entry_length es key value Hs) as [_ Hne].
  split; rewrite ?kids_leaves_cons, ?kids_leaves_nil, ?kids_flat_cons, ?kids_flat_nil, ?kids_depth_cons, ?kids_depth_nil, ?app_nil_r.
  - done.
  - unfold leaf_entries, contents. cbn. by rewrite !app_nil_r.
  - constructor; [by constructor|done].
  - by constructor.
  - cbn. by apply put_entry_sorted.
  - cbn. by apply within_put.
  - intros _. by constructor.
  - cbn. lia.
  - by constructor.
Qed.

Lemma inserted_leaf_split n p es es1 k v es2 :
  sorted_entries es -> put_entry es key value = es1 ++ (k, v) :: es2 -> es1 <> [] ->
  count_of es1 <= leaf_capacity cfg -> count_of ((k, v) :: es2) <= leaf_capacity cfg -> in_u64 k ->
  inserted (TLeaf n es) [(0, TLeaf n es1); (k, TLeaf p ((k, v) :: es2))].
Proof.
  intros Hs Hput Hne Hc1 Hc2 Hk.
  destruct (within_split key (map key_code es) es1 k v es2) as [Hso Hwi]; [done|..].
  { rewrite <- Hput. by apply put_entry_sorted. }
  { rewrite <- Hput. by apply within_put. }
  split; rewrite ?kids_leaves_cons, ?kids_leaves_nil, ?kids_flat_cons, ?kids_flat_nil, ?kids_depth_cons, ?kids_depth_nil, ?app_nil_r.
  - done.
  - unfold leaf_entries, contents. cbn. by rewrite !app_nil_r, Hput.
  - repeat constructor; done.
  - by repeat constructor.
  - exact Hso.
  - exact Hwi.
  - intros _. by repeat constructor.
  - cbn. lia.
  - constructor; [done|]. by constructor.
Qed.

Lemma hp_insert_leaf n es r F m L (Q : _ -> _ -> _ -> Prop) :
  L ≡ₚ (n, NLeaf es r) :: F -> sorted_entries es -> count_of es <= leaf_capacity cfg ->
  m_next m < PAGE_LIMIT -> ins_post m (TLeaf n es) r F Q ->
  hp (insert_leaf cfg n key value) m L Q.
Proof.
  intros HL Hs Hc Hx HQ. apply (hp_perm _ _ _ _ _ HL). apply hp_pages. intros _ Hpo Hok.
  apply Forall_cons in Hok as [[[Hu _] Hr] _]. cbn in Hr.
  apply hp_bind. eapply hp_read_leaf; [left|]. cbn beta iota zeta.
  pose proof (put_entry_length es key value Hs) as [Hlen Hne]. pose proof (put_entry_sorted es key value Hs) as Hps.
  pose proof (put_entry_u64 es key value Hs Hu Hkey Hvalue) as Hpu.
  destruct (Z.leb_spec (count_of (put_entry es key value)) (leaf_capacity cfg)) as [Hfit|Hbig].
  - apply hp_bind. eapply hp_write_leaf_entries; [done|apply entries_ok_u64; [done|lia]|]. intros d _. apply hp_mret.
    apply (HQ m _ (TLeaf n (put_entry es key value)) []); [done|cbn; lia|by apply inserted_leaf|].
    split; [|done|done|cbn; lia].
    rewrite kids_inner_cons, kids_inner_nil, kids_leaves_cons, kids_leaves_nil. cbn. done.
  - apply hp_bind, hp_allocate; [done|]. intros p m' Hm1 Hm2 Hm3 Hm4 Hp. cbn zeta.
    set (es' := put_entry es key value) in *. set (k := (length es' / 2)%nat).
    assert (Hk : (1 <= k < length es')%nat).
    { unfold k, count_of in *. pose proof (Nat.div_mod_eq (length es') 2). pose proof (Nat.mod_upper_bound (length es') 2). lia. }
    destruct (drop k es') as [|[sk sv] es2] eqn:Ed.
    { apply (f_equal length) in Ed. rewrite length_drop in Ed. cbn [length] in Ed. lia. }
    assert (Hsplit : es' = take k es' ++ (sk, sv) :: es2) by (by rewrite <- Ed, take_drop).
    assert (Ht : length (take k es') = k) by (rewrite length_take; lia).
    assert (Hd : length ((sk, sv) :: es2) = (length es' - k)%nat) by (by rewrite <- Ed, length_drop).
    assert (Hcap : count_of (take k es') <= leaf_capacity cfg /\ count_of ((sk, sv) :: es2) <= leaf_capacity cfg).
    { unfold count_of in *. rewrite Ht, Hd. unfold k in *. pose proof (Nat.div_mod_eq (length es') 2).
      pose proof (Nat.mod_upper_bound (length es') 2). lia. }
    cbn [head]. apply hp_bind. eapply hp_at_index; [done|]. cbn beta iota.
    apply hp_bind. eapply (hp_fetch n); [right; left|]. intros d0 Hd0. rewrite (read_right_sibling_of _ _ _ Hd0).
    apply hp_pages. intros _ Hpo' _. destruct (pages_ok_cons _ _ _ _ Hpo') as (_ & _ & Hpb & _).
    destruct Hpo' as (_ & _ & Hcb).
    rewrite Hsplit in Hpu. apply Forall_app in Hpu as [Hu1 Hu2].
    apply hp_bind. eapply (hp_write_leaf n); [apply perm_swap|apply entries_ok_u64; [done|lia]|unfold in_u64; lia|].
    intros _. apply hp_bind.
    eapply (hp_write_leaf p); [apply perm_swap|apply entries_ok_u64; [done|lia]|done|]. intros _. apply hp_mret.
    apply (HQ m' _ (TLeaf n (take k es')) [(sk, TLeaf p ((sk, sv) :: es2))]); [done|cbn; lia| |].
    + apply inserted_leaf_split; [done|done| |tauto|tauto|by apply Forall_cons in Hu2 as [[? _] _]].
      intros E. rewrite E in Ht. cbn [length] in Ht. lia.
    + split; [|done|done|cbn; lia].
      rewrite !kids_inner_cons, kids_inner_nil, !kids_leaves_cons, kids_leaves_nil. cbn. by rewrite perm_swap.
Qed.

(** ** Internal pages *)

Lemma partition_point_app A B s :
  (forall e, e ∈ A -> fst e <= s) -> match B with [] => True | e :: _ => s < fst e end ->
  partition_point (A ++ B) s = length A.
Proof.
  intros HA HB. induction A as [|[k v] A IH]; cbn.
  - destruct B as [|[k v] B]; [done|]. cbn. by rewrite (proj2 (Z.leb_gt _ _)) by done.
  - rewrite (proj2 (Z.leb_le _ _)) by (apply (HA (k, v)); left). rewrite IH; [done|]. intros e He. apply HA. by right.
Qed.

(** A node by its first child and its entries, and by the separators and pages of its
    children. *)
Definition ks_first (ks : list (Z * Z)) : Z := match ks with [] => NO_PAGE | (_, f) :: _ => f end.

Lemma node_of_kids_eq ks : node_of_kids ks = NInner (ks_first ks) (tail ks).
Proof. by destruct ks as [|[s f] ks]. Qed.

Lemma kids_seps_flat l s p e :
  e ∈ tail (kids l ++ [(s, p)]) -> 2 * fst e ∈ tail (kids_flat l ++ [2 * s]).
Proof.
  destruct l as [|[s0 t0] l]; [by rewrite kids_nil, elem_of_nil|]. rewrite kids_cons, kids_flat_cons. cbn [app tail].
  intros He. rewrite <- app_assoc, elem_of_app. right. revert He.
  induction l as [|[s1 t1] l IH]; [rewrite kids_nil, kids_flat_nil|rewrite kids_cons, kids_flat_cons]; cbn [app].
  - rewrite !list_elem_of_singleton. by intros ->.
  - rewrite !elem_of_cons. intros [->|He]; [by left|]. specialize (IH He). right. rewrite <- app_assoc, elem_of_app.
    by right.
Qed.

(** The entries [insert_internal_entry] computes are those of the new children. *)
Lemma insert_entry_kids l s t t1 sep t2 r :
  page t1 = page t -> StronglySorted Z.lt (tail (kids_flat (l ++ (s, t1) :: (sep, t2) :: r))) ->
  let es := tail (kids (l ++ (s, t) :: r)) in
  vec_insert (partition_point es sep) (sep, page t2) es = tail (kids (l ++ (s, t1) :: (sep, t2) :: r)).
Proof.
  intros Hp Hs es. unfold es. rewrite kids_flat_app, kids_flat_cons, tail_app_cons, kids_flat_cons in Hs.
  rewrite !kids_app, !kids_cons, Hp, (tail_app_cons (kids l) (kids r)), (tail_app_cons (kids l) (_ :: kids r)). rewrite !StronglySorted_app in Hs.
  destruct Hs as (Hl & _ & _ & _ & Hr).
  assert (Hpp : partition_point (tail (kids l ++ [(s, page t)]) ++ kids r) sep = length (tail (kids l ++ [(s, page t)]))).
  { apply partition_point_app.
    - intros e He. apply kids_seps_flat in He. specialize (Hl (2 * fst e) (2 * sep) He).
      rewrite elem_of_app in Hl. specialize (Hl ltac:(right; left)). lia.
    - destruct r as [|[s3 t3] r]; [by rewrite kids_nil|]. rewrite kids_cons. cbn.
      inversion Hr as [|? ? _ Hall]; subst. rewrite Forall_app, kids_flat_cons in Hall. destruct Hall as [_ Hall].
      apply Forall_cons in Hall as [Hall _]. lia. }
  rewrite Hpp. unfold vec_insert. by rewrite take_app_length, drop_app_length.
Qed.

Lemma hp_write_node n ks0 ks m L L' (Q : _ -> _ -> _ -> Prop) :
  L ≡ₚ (n, node_of_kids ks0) :: L' -> entries_ok (tail ks) -> in_u64 (ks_first ks) ->
  Q (Ok tt) m ((n, node_of_kids ks) :: L') ->
  forall f es, f = ks_first ks -> es = tail ks ->
  hp (modify n (write_internal_entries f es)) m L (fun r m L => match r with Ok _ => Q (Ok tt) m L | Err e => Q (Err e) m L end).
Proof.
  intros HL He Hf HQ f es -> ->. rewrite node_of_kids_eq in *. eapply hp_write_internal; [done|done|done|]. by intros _.
Qed.

Lemma hp_read_node n ks m L (Q : _ -> _ -> _ -> Prop) :
  (n, node_of_kids ks) ∈ L -> Q (Ok (ks_first ks, tail ks)) m L -> hp (read_internal n) m L Q.
Proof. rewrite node_of_kids_eq. apply hp_read_internal. Qed.

Lemma hp_insert_internal_entry n l s t t1 sep t2 r m L F (Q : _ -> _ -> _ -> Prop) :
  let cs := l ++ (s, t) :: r in
  let cs' := l ++ (s, t1) :: (sep, t2) :: r in
  L ≡ₚ (n, node_of_kids (kids cs)) :: F -> page t1 = page t -> in_u64 sep -> in_u64 (page t2) ->
  StronglySorted Z.lt (tail (kids_flat cs')) -> count_of cs <= internal_capacity cfg + 1 ->
  m_next m < PAGE_LIMIT ->
  (count_of cs' <= internal_capacity cfg + 1 -> Q (Ok None) m ((n, node_of_kids (kids cs')) :: F)) ->
  (forall p m' cs1 cs2 sep' t', m_root m' = m_root m -> m_height m' = m_height m ->
     m_next m <= m_next m' <= m_next m + 1 ->
     in_u64 sep' -> cs' = cs1 ++ (sep', t') :: cs2 -> (2 <= length cs1)%nat -> (1 <= length cs2)%nat ->
     count_of cs1 <= internal_capacity cfg + 1 -> count_of ((sep', t') :: cs2) <= internal_capacity cfg + 1 ->
     Q (Ok (Some {| separator := sep'; right_page := p |})) m'
       ((p, node_of_kids (kids ((sep', t') :: cs2))) :: (n, node_of_kids (kids cs1)) :: F)) ->
  hp (insert_internal_entry cfg n {| separator := sep; right_page := page t2 |}) m L Q.
Proof.
  intros cs cs' HL Hp1 Hsep Hp2 Hs Hc Hx HQ1 HQ2. apply (hp_perm _ _ _ _ _ HL). apply hp_pages. intros _ _ Hok.
  apply Forall_cons in Hok as [Hok _]. cbn [snd] in Hok. rewrite node_of_kids_eq in Hok. destruct Hok as [[Hu _] Hf].
  apply hp_bind. eapply hp_read_node; [left|]. cbn beta iota zeta. cbn [separator right_page].
  pose proof (insert_entry_kids l s t t1 sep t2 r Hp1 Hs) as Hins. cbn zeta in Hins. fold cs cs' in Hins. rewrite Hins.
  assert (Hu' : Forall u64_entry (tail (kids cs'))).
  { rewrite <- Hins. unfold vec_insert. apply Forall_app. split; [by apply Forall_take|].
    constructor; [done|by apply Forall_drop]. }
  assert (Hf' : ks_first (kids cs) = ks_first (kids cs')).
  { unfold cs, cs'. rewrite !kids_app, !kids_cons, Hp1. by destruct (kids l) as [|[? ?] ?]. }
  assert (Hlen : length cs' = S (length cs)) by (unfold cs, cs'; rewrite !length_app; cbn; lia).
  assert (HlE : length (tail (kids cs')) = length cs).
  { rewrite length_tail, length_kids. lia. }
  rewrite Hf' in *. clearbody cs cs'. unfold count_of in *. rewrite HlE.
  destruct (Z.leb_spec (Z.of_nat (length cs)) (internal_capacity cfg)) as [Hfit|Hbig].
  { apply hp_bind. rewrite node_of_kids_eq. eapply hp_write_internal; [done|split; [done|unfold count_of; lia]|done|].
    intros _. apply hp_mret. rewrite <- node_of_kids_eq. apply HQ1. lia. }
  cbn zeta. assert (Hdiv := Nat.div_mod_eq (length cs) 2). pose proof (Nat.mod_upper_bound (length cs) 2 ltac:(lia)).
  set (k := (length cs / 2)%nat) in *.
  destruct (drop (S k) cs') as [|[sep' t'] cs2] eqn:Ed.
  { apply (f_equal length) in Ed. rewrite length_drop in Ed. cbn [length] in Ed. lia. }
  assert (Hcs' : cs' = take (S k) cs' ++ (sep', t') :: cs2) by (by rewrite <- Ed, take_drop).
  assert (Hl2 : length ((sep', t') :: cs2) = (length cs' - S k)%nat) by (by rewrite <- Ed, length_drop).
  assert (Hl1 : length (take (S k) cs') = S k) by (rewrite length_take; lia). cbn [length] in Hl2.
  assert (Hlook : drop k (tail (kids cs')) = (sep', page t') :: kids cs2).
  { rewrite drop_tail, <- kids_drop, Ed. apply kids_cons. }
  apply hp_bind. eapply (hp_at_index _ (sep', page t')).
  { rewrite <- (Nat.add_0_r k), <- lookup_drop, Hlook. done. }
  cbn beta iota. apply hp_bind, hp_allocate; [done|]. intros p m' Hm1 Hm2 Hm3 _ _.
  assert (Hleft : take k (take (S k) (tail (kids cs'))) = tail (kids (take (S k) cs'))).
  { rewrite take_take, Nat.min_l, take_tail, kids_take by lia. done. }
  assert (Hright : drop (S k) (tail (kids cs')) = kids cs2).
  { rewrite <- Nat.add_1_r, <- drop_drop, Hlook. done. }
  assert (Hfirst : ks_first (kids cs') = ks_first (kids (take (S k) cs'))).
  { rewrite kids_take. by destruct (kids cs') as [|[? ?] ?]. }
  assert (Hu1 : Forall u64_entry (tail (kids (take (S k) cs')))).
  { rewrite <- Hleft. by repeat apply Forall_take. }
  assert (Hu2 : Forall u64_entry ((sep', page t') :: kids cs2)) by (rewrite <- Hlook; by apply Forall_drop).
  apply Forall_cons in Hu2 as [[Hsp Hpt] Hu2]. cbn [fst snd] in Hsp, Hpt.
  rewrite Hleft, Hright, Hfirst in *. rewrite (node_of_kids_eq (kids cs)). apply hp_bind.
  eapply (hp_write_internal n); [apply perm_swap|split; [done|]|done|].
  { unfold count_of. rewrite length_tail, length_kids, Hl1. lia. }
  intros _. apply hp_bind. eapply (hp_write_internal p); [apply perm_swap|split; [done|]|done|].
  { unfold count_of. rewrite length_kids. lia. }
  intros _. apply hp_mret. rewrite <- node_of_kids_eq.
  change (NInner (page t') (kids cs2)) with (node_of_kids ((sep', page t') :: kids cs2)). rewrite <- kids_cons.
  apply HQ2; try done; cbn [length]; lia.
Qed.

(** ** The tree around the subtree *)

(** The facts of [inserted], for the children of a node. *)
Record inserted_kids (t : tree) (cs : children) : Prop := {
  ik_first : forall r, head_or (kids_leaves cs).*1 r = head_or (leaves t).*1 r;
  ik_contents : leaf_entries (kids_leaves cs) = put_entry (contents t) key value;
  ik_shape : Forall (fun c => shape cfg (snd c)) cs;
  ik_sorted : StronglySorted Z.lt (tail (kids_flat cs));
  ik_within : within key (flat t) (tail (kids_flat cs));
  ik_filled : filled t -> filled_leaves (kids_leaves cs);
  ik_depth : (S (kids_depth cs) <= depth t)%nat }.

Lemma leaf_entries_contents t : leaf_entries (leaves t) = contents t.
Proof. done. Qed.

Lemma focused1_below f key' : focused [f] key' -> all_below key' (leaf_entries (kids_leaves (f_left f))).
Proof. intros Hf. pose proof (focused_below _ _ Hf) as H. exact H. Qed.

Lemma focused1_above f key' : focused [f] key' -> all_above key' (leaf_entries (kids_leaves (f_right f))).
Proof. intros Hf. pose proof (focused_above _ _ Hf) as H. cbn in H. by rewrite app_nil_r in H. Qed.

Lemma filled_child n f t : shape cfg (TNode n (frame_kids f t)) -> filled (TNode n (frame_kids f t)) ->
  filled_leaves (kids_leaves (f_left f)) /\ filled t /\ filled_leaves (kids_leaves (f_right f)).
Proof.
  intros _ [Hl|Hl]; [done|]. unfold frame_kids in Hl. rewrite leaves_node, kids_leaves_app, kids_leaves_cons in Hl.
  rewrite !Forall_app in Hl. destruct Hl as (? & ? & ?). split_and!; [done|by right|done].
Qed.

Lemma inserted_in_frame n f t t1 rest :
  shape cfg (TNode n (frame_kids f t)) -> StronglySorted Z.lt (flat (TNode n (frame_kids f t))) ->
  focused [f] key -> inserted t ((0, t1) :: rest) ->
  inserted_kids (TNode n (frame_kids f t)) (f_left f ++ (f_sep f, t1) :: rest ++ f_right f).
Proof.
  intros Hsh Hso Hf Hi. set (cs' := f_left f ++ (f_sep f, t1) :: rest ++ f_right f).
  assert (Hlv : kids_leaves cs' = kids_leaves (f_left f) ++ kids_leaves ((0, t1) :: rest) ++ kids_leaves (f_right f)).
  { unfold cs'. rewrite kids_leaves_app, !kids_leaves_cons, kids_leaves_app. by rewrite <- app_assoc. }
  assert (Hfl : tail (kids_flat cs') = lflat1 f ++ tail (kids_flat ((0, t1) :: rest)) ++ kids_flat (f_right f)).
  { unfold cs', lflat1. rewrite kids_flat_app, !kids_flat_cons, tail_app_cons, kids_flat_app. cbn [tail]. by rewrite <- !app_assoc. }
  pose proof (flat_frame n f t) as Hflat.
  rewrite Hflat in Hso. pose proof Hf as [Hf1 Hf2]. cbn in Hf1, Hf2. rewrite app_nil_r in Hf2.
  assert (Hsub : sorted_entries (contents t)).
  { apply contents_sorted. rewrite !StronglySorted_app in Hso. tauto. }
  inversion Hsh as [|? ? _ Hall]; subst. unfold frame_kids in Hall. apply Forall_app in Hall as [Hal Hall].
  apply Forall_cons in Hall as [_ Har].
  split; rewrite ?Hlv, ?Hfl, ?Hflat.
  - intros r. unfold frame_kids.
    rewrite leaves_node, kids_leaves_app, (kids_leaves_cons (f_sep f)), !fmap_app, !head_or_app.
    by rewrite (ins_first _ _ Hi).
  - rewrite !leaf_entries_app, (ins_contents _ _ Hi). unfold contents at 2, frame_kids.
    rewrite leaves_node, kids_leaves_app, (kids_leaves_cons (f_sep f)). change (concat _) with
      (leaf_entries (kids_leaves (f_left f) ++ leaves t ++ kids_leaves (f_right f))).
    rewrite !leaf_entries_app, leaf_entries_contents, put_entry_middle; [done|done| |].
    + by apply focused1_below.
    + by apply focused1_above.
  - unfold cs'. apply Forall_app. split; [done|]. pose proof (ins_shape _ _ Hi) as Hs. apply Forall_cons in Hs as [H1 H2].
    constructor; [done|]. by apply Forall_app.
  - eapply sorted_within; [exact Hso|done|done|apply Hi|apply Hi].
  - apply within_frame; [done|done|apply Hi].
  - intros Hfi. destruct (filled_child _ _ _ Hsh Hfi) as (H1 & H2 & H3). unfold filled_leaves in *. rewrite !Forall_app.
    split_and!; [done|by apply Hi|done].
  - unfold cs', frame_kids. rewrite depth_node, !kids_depth_app, !kids_depth_cons, kids_depth_app.
    pose proof (ins_depth _ _ Hi) as Hd. rewrite kids_depth_cons in Hd. lia.
Qed.

Lemma inserted_one n t cs : is_leaf t = false -> inserted_kids t cs -> kids_shape cfg cs -> inserted t [(0, TNode n cs)].
Proof.
  intros Hl [] Hs. split; autorewrite with btree; rewrite ?app_nil_r, ?leaves_node, ?flat_node, ?depth_node; try done.
  - constructor; [by constructor|done].
  - by constructor.
  - by constructor.
Qed.

Lemma inserted_two n p t cs1 s t2 cs2 :
  is_leaf t = false -> inserted_kids t (cs1 ++ (s, t2) :: cs2) -> cs1 <> [] -> in_u64 s ->
  kids_shape cfg cs1 -> kids_shape cfg ((s, t2) :: cs2) ->
  inserted t [(0, TNode n cs1); (s, TNode p ((s, t2) :: cs2))].
Proof.
  intros Hl Hk Hne Hus Hs1 Hs2. destruct Hk as [H1 H2 H3 H4 H5 H6 H7].
  assert (Hfl : tail (kids_flat [(0, TNode n cs1); (s, TNode p ((s, t2) :: cs2))]) = tail (kids_flat (cs1 ++ (s, t2) :: cs2))).
  { destruct cs1 as [|[s1 t1] cs1]; [done|]. autorewrite with btree. rewrite !flat_node. autorewrite with btree.
    cbn [tail app]. rewrite app_nil_r. by rewrite <- app_assoc. }
  assert (Hlv : kids_leaves [(0, TNode n cs1); (s, TNode p ((s, t2) :: cs2))] = kids_leaves (cs1 ++ (s, t2) :: cs2)).
  { autorewrite with btree. rewrite !leaves_node, app_nil_r. by rewrite kids_leaves_cons. }
  rewrite kids_depth_app, kids_depth_cons in H7. apply Forall_app in H3 as [H3 H3'].
  split; rewrite ?Hfl, ?Hlv; try done.
  - constructor; [by constructor|]. constructor; [by constructor|done].
  - by repeat constructor.
  - constructor; [done|]. by constructor.
Qed.

(** The cells of a subtree, those of the node above it, and the rest. *)
Lemma subtree_frame_cells n f t r F :
  inner (TNode n (frame_kids f t)) ++ chain (leaves (TNode n (frame_kids f t))) r ++ F ≡ₚ
  inner t ++ chain (leaves t) (head_or (kids_leaves (f_right f)).*1 r) ++
    (n, node_of_kids (kids (frame_kids f t))) :: kids_inner (f_left f) ++ kids_inner (f_right f) ++
    chain (kids_leaves (f_left f)) (head_or (leaves t).*1 (head_or (kids_leaves (f_right f)).*1 r)) ++
    chain (kids_leaves (f_right f)) r ++ F.
Proof.
  rewrite inner_node, leaves_node. unfold frame_kids at 2 3.
  rewrite kids_inner_app, kids_inner_cons, kids_leaves_app, kids_leaves_cons, !chain_app, fmap_app, head_or_app.
  solve_Permutation.
Qed.

(** The cells of a frame around the children a subtree became. *)
Lemma kids_frame_cells f t1 rest r :
  let cs := (0, t1) :: rest in
  let cs' := f_left f ++ (f_sep f, t1) :: rest ++ f_right f in
  kids_inner cs' ++ chain (kids_leaves cs') r ≡ₚ
  kids_inner cs ++ chain (kids_leaves cs) (head_or (kids_leaves (f_right f)).*1 r) ++
    kids_inner (f_left f) ++ kids_inner (f_right f) ++
    chain (kids_leaves (f_left f)) (head_or (kids_leaves cs).*1 (head_or (kids_leaves (f_right f)).*1 r)) ++
    chain (kids_leaves (f_right f)) r.
Proof.
  cbn zeta. autorewrite with btree. rewrite (app_assoc (leaves t1)), !chain_app, !fmap_app, !head_or_app.
  solve_Permutation.
Qed.

(** Back at the node above a subtree that became [(0, t1) :: rest]. *)
Lemma hp_insert_return n f t t1 rest r F m m' L' (Q : _ -> _ -> _ -> Prop) :
  let T := TNode n (frame_kids f t) in
  shape cfg T -> StronglySorted Z.lt (flat T) -> focused [f] key ->
  page t1 = page t -> (length rest <= 1)%nat -> inserted t ((0, t1) :: rest) ->
  L' ≡ₚ (n, node_of_kids (kids (frame_kids f t))) ::
        (let cs' := f_left f ++ (f_sep f, t1) :: rest ++ f_right f in
         kids_inner cs' ++ chain (kids_leaves cs') r ++ F) ->
  m_root m' = m_root m -> m_height m' = m_height m -> m_next m <= m_next m' <= m_next m + Z.of_nat (depth t) ->
  m_next m + Z.of_nat (depth T) <= PAGE_LIMIT -> ins_post m T r F Q ->
  hp (match ins_result rest with None => mret None | Some split => insert_internal_entry cfg n split end) m' L' Q.
Proof.
  intros T Hsh Hso Hf Hp1 Hr1 Hi HL Hm1 Hm2 Hm3 Hx HQ.
  pose proof (inserted_in_frame n f t t1 rest Hsh Hso Hf Hi) as Hik. fold T in Hik.
  pose proof (depth_frame n f t : (depth t < depth T)%nat) as Hdep.
  inversion Hsh as [|? ? (Hne & Hcnt & Hone) Hall]; subst. destruct rest as [|[sep t2] [|]]; [| |cbn in Hr1; lia].
  - cbn [ins_result]. apply hp_mret. cbn [app] in *.
    apply (HQ m' L' (TNode n (f_left f ++ (f_sep f, t1) :: f_right f)) []); [done|cbn; lia| |].
    + apply inserted_one; [done|done|]. unfold kids_shape, count_of, frame_kids in *. rewrite !length_app in *. cbn [length] in *.
      split_and!; [by destruct (f_left f)|done|]. intros Hlen. specialize (Hone Hlen). rewrite !Forall_app, !Forall_cons in *.
      pose proof (ins_leaf _ _ Hi) as Hil. apply Forall_cons in Hil as [Hil _]. cbn [snd] in *. rewrite Hil. tauto.
    + split; [|done|done|lia]. autorewrite with btree. rewrite inner_node, leaves_node, !app_nil_r, HL.
      unfold frame_kids. autorewrite with btree. by rewrite Hp1.
  - cbn [ins_result app] in *. apply hp_pages. intros _ Hpo _.
    assert (Hp2 : in_u64 (page t2)).
    { destruct Hpo as (_ & Hb & Hc). rewrite Forall_forall in Hb.
      specialize (Hb (page t2)). rewrite HL in Hb. autorewrite with btree in Hb.
      assert (Hin : page t2 ∈ (inner t2).*1 ++ (leaves t2).*1) by (destruct t2; cbn; left).
      rewrite !chain_app, !fmap_cons, !fmap_app, !chain_fst, !elem_of_app, !elem_of_cons, !elem_of_app in Hb.
      rewrite elem_of_app in Hin. unfold in_u64. assert (1 <= page t2 < m_count m') by (apply Hb; tauto). lia. }
    pose proof (ins_seps _ _ Hi) as Hse. apply Forall_cons in Hse as [_ Hse]. apply Forall_cons in Hse as [Hse _].
    eapply hp_insert_internal_entry; [exact HL|exact Hp1|exact Hse|exact Hp2|apply Hik|exact Hcnt|lia| |].
    + intros Hfit. apply (HQ m' _ (TNode n (f_left f ++ (f_sep f, t1) :: (sep, t2) :: f_right f)) []); [done|cbn; lia| |].
      * apply inserted_one; [done|done|]. split_and!; [by destruct (f_left f)|done|]. rewrite length_app. cbn. lia.
      * split; [|done|done|lia]. autorewrite with btree. rewrite inner_node, leaves_node, !app_nil_r. autorewrite with btree. done.
    + intros p m2 cs1 cs2 sep' t' H1 H2 H3 Hu Hcs Hl1 Hl2 Hc1 Hc2. rewrite Hcs in *.
      apply (HQ m2 _ (TNode n cs1) [(sep', TNode p ((sep', t') :: cs2))]); [done|cbn; lia| |].
      * apply inserted_two; [done|done|by destruct cs1; cbn in *; [lia|]|done| |].
        { split_and!; [by destruct cs1; cbn in *; [lia|]|done|lia]. }
        { split_and!; [done|done|cbn; lia]. }
      * split; [|congruence|congruence|lia]. autorewrite with btree. rewrite !inner_node, !leaves_node, !app_nil_r.
        autorewrite with btree. rewrite ?app_nil_r. solve_Permutation.
Qed.

Lemma hp_insert_recursive : forall fuel t r F m L (Q : _ -> _ -> _ -> Prop),
  L ≡ₚ inner t ++ chain (leaves t) r ++ F -> shape cfg t -> StronglySorted Z.lt (flat t) ->
  (depth t <= fuel)%nat -> m_next m + Z.of_nat (depth t) <= PAGE_LIMIT ->
  ins_post m t r F Q -> hp (insert_recursive cfg fuel (page t) key value) m L Q.
Proof.
  induction fuel as [|fuel IH]; intros t r F m L Q HL Hsh Hso Hd Hx HQ; [pose proof (depth_pos t); lia|].
  cbn [insert_recursive]. destruct t as [n es|n cs]; cbn [page].
  - cbn in HL. apply hp_bind. eapply hp_fetch; [rewrite HL; left|]. intros d Hd0. apply hp_bind, hp_ret.
    rewrite (read_page_kind_of _ _ Hd0). cbn [kind_of]. inversion Hsh; subst.
    eapply hp_insert_leaf; [exact HL|exact Hso|done|cbn in Hx; lia|exact HQ].
  - inversion Hsh as [|? ? (Hne & Hcnt & Hone) Hall]; subst.
    destruct (focus_child key n cs [] Hne Hso) as (f & t & -> & Hfp & Hf & Hslot); [by intros x ?%elem_of_nil..|].
    assert (Hcell : (n, node_of_kids (kids (frame_kids f t))) ∈ L) by (rewrite HL, inner_node; left).
    apply hp_bind. eapply hp_fetch; [exact Hcell|]. intros d Hd0. apply hp_bind, hp_ret.
    rewrite (read_page_kind_of _ _ Hd0), node_of_kids_eq. cbn [kind_of].
    apply hp_bind. eapply hp_fetch; [exact Hcell|]. intros d1 Hd1. apply hp_bind, hp_ret.
    unfold internal_child_for_key. rewrite (Hslot _ Hd1). cbn [fst]. rewrite subtree_frame_cells in HL.
    pose proof (depth_frame n f t) as Hdf.
    assert (Hst : StronglySorted Z.lt (flat t)).
    { rewrite flat_frame, !StronglySorted_app in Hso. tauto. }
    assert (Hsht : shape cfg t).
    { unfold frame_kids in Hall. apply Forall_app in Hall as [_ Hall]. by apply Forall_cons in Hall as [? _]. }
    apply hp_bind. eapply IH; [exact HL|done|done|lia|lia|].
    intros m' L' t1 rest Hp1 Hr1 Hi Hs. cbn [ins_result].
    eapply (hp_insert_return n f t t1 rest r F m); try done; [|apply Hs..].
    rewrite (st_cells _ _ _ _ _ _ _ Hs). cbn zeta. rewrite (app_assoc (kids_inner (f_left f ++ _))), kids_frame_cells.
    rewrite (ins_first _ _ Hi). solve_Permutation.
Qed.

(** ** [insert] *)

(** How far an insertion moves the metapage. *)
Record grown (m m' : Meta) (T : tree) : Prop := {
  gr_next : m_next m <= m_next m' <= m_next m + Z.of_nat (depth T) + 1;
  gr_height : m_height m <= m_height m' <= m_height m + 1 }.

Lemma hp_insert fuel m L T (Q : _ -> _ -> _ -> Prop) :
  btree cfg m L T -> (depth T <= fuel)%nat ->
  m_next m + Z.of_nat (depth T) < PAGE_LIMIT -> m_height m < u32_max ->
  (forall m' L' T', btree cfg m' L' T' -> contents T' = put_entry (contents T) key value ->
     grown m m' T -> Q (Ok tt) m' L') ->
  hp (insert cfg fuel key value) m L Q.
Proof.
  intros [HL Hroot Hh [Hsh Hso Hfi]] Hd Hx Hhx HQ. apply hp_bind, hp_root_page. rewrite Hroot. apply hp_bind.
  eapply (hp_insert_recursive fuel T NO_PAGE []); [by rewrite app_nil_r|done|done|done|lia|].
  intros m' L' t1 rest Hp1 Hr1 Hi [Hc Hm1 Hm2 Hm3]. rewrite app_nil_r in Hc.
  pose proof (ins_shape _ _ Hi) as Hs1. apply Forall_cons in Hs1 as [Hs1 Hs2].
  pose proof (ins_depth _ _ Hi) as Hdep. pose proof (ins_contents _ _ Hi) as Hcon. pose proof (ins_sorted _ _ Hi) as Hsor.
  pose proof (ins_filled _ _ Hi Hfi) as Hfil.
  destruct rest as [|[sep t2] [|]]; [| |cbn in Hr1; lia]; cbn [ins_result]; autorewrite with btree in Hc, Hdep, Hcon, Hsor, Hfil;
    rewrite ?app_nil_r in *; cbn [tail] in *.
  - apply hp_mret. apply (HQ m' L' t1); [|by rewrite <- Hcon|by split; lia]. split; [done|congruence|lia|].
    split; [done|done|by right].
  - apply hp_bind, hp_allocate; [lia|]. intros p m2 H1 H2 H3 H4 Hp.
    assert (Hin : page t1 ∈ L'.*1 /\ page t2 ∈ L'.*1).
    { rewrite Hc, !fmap_app, !chain_fst, !fmap_app, !elem_of_app.
      destruct t1, t2; cbn; rewrite !elem_of_cons; tauto. }
    pose proof (ins_seps _ _ Hi) as Hse. apply Forall_cons in Hse as [_ Hse]. apply Forall_cons in Hse as [Hse _].
    apply hp_pages. intros _ (_ & Hb & Hcb) _. rewrite fmap_cons, Forall_app, Forall_cons, !Forall_forall in Hb.
    destruct Hb as (_ & Hpb & Hb). cbn [fst] in Hpb. pose proof (Hb _ (proj1 Hin)). pose proof (Hb _ (proj2 Hin)).
    apply hp_bind. eapply (hp_modify p _ (NInner (page t1) [(sep, page t2)])); [done| |].
    { intros d Hd0. rewrite <- Hp1. apply (write_new_root_is NO_PAGE); [done|..]; unfold in_u64 in *; cbn in *; lia. }
    intros d _. apply hp_bind, hp_height. apply hp_set_root; [unfold in_u64; lia|unfold in_u32, u32_max in *; unfold saturating_add; lia|].
    unfold saturating_add. rewrite Z.min_r by (rewrite H2, Hm2; unfold u32_max in *; lia).
    apply (HQ _ _ (TNode p [(0, t1); (sep, t2)])); [| |split; cbn; lia]; last first.
    { rewrite <- Hcon. unfold contents, leaf_entries. rewrite leaves_node. autorewrite with btree. by rewrite app_nil_r. }
    split; cbn [m_root m_height with_root].
    + unfold cells. rewrite inner_node, leaves_node. autorewrite with btree. rewrite !app_nil_r. rewrite Hc. done.
    + done.
    + rewrite depth_node. autorewrite with btree. lia.
    + split.
      * constructor; [|by constructor]. split_and!; [done|unfold count_of; cbn; lia|done].
      * rewrite flat_node. autorewrite with btree. cbn [tail]. by rewrite app_nil_r.
      * right. rewrite leaves_node. autorewrite with btree. by rewrite app_nil_r.
Qed.

End Insert.

End Inserting.
