(* ===== verification/BTreeRepair.v ===== *)
(** * Repairs of the internal pages of the disk B+tree

    What [delete] does above the leaves: refreshing separators, collapsing pages with
    one child, merging an internal page with a sibling or moving children between them,
    and reclaiming the pages given up.  Each repair leaves a tree with the same leaves
    whose keys and separators are still sorted ([repaired]), whether it succeeds or
    stops with an error.

    A path outlives the repairs made along it: the page at its end can have been merged
    away.  What is needed of that page is that it is [settled]: it has more than one
    child, or it was given up. *)

From S2P Require Import Prelude.
From S2P Require Import Bytes.
From S2P Require Import PageBytes.
From S2P Require Import PoolPage.
From S2P Require Import ClockSweep.
From S2P Require Import BufferPool.
From S2P Require Import BTreePage.
From S2P Require Import PageProg.
From S2P Require Import DiskBTree.
From S2P Require Import BTreeMaintenance.
From S2P Require Import BTreeState.
From S2P Require Import BTreeShape.
From S2P Require Import BTreeRead.
From S2P Require Import BTreeInsert.

(** ** Contexts *)

(** Frames that differ in their separators only. *)
Definition frame_like (f f' : frame) : Prop :=
  f_page f = f_page f' /\ f_left f = f_left f' /\ f_right f = f_right f'.

Definition ctx_like : list frame -> list frame -> Prop := Forall2 frame_like.

Lemma ctx_like_refl C : ctx_like C C.
Proof. apply Forall2_same_length_lookup_2; [done|]. intros i f f' Hf Hf'. rewrite Hf in Hf'. by simplify_eq. Qed.

Lemma ctx_like_path C C' : ctx_like C C' -> path_of C = path_of C'.
Proof.
  induction 1 as [|f f' C C' (Hp & Hl & _) _ IH]; [done|]. cbn. rewrite IH. unfold frame_of. by rewrite Hp, Hl.
Qed.

Lemma ctx_like_leaves C C' : ctx_like C C' -> lleaves C = lleaves C' /\ rleaves C = rleaves C'.
Proof.
  induction 1 as [|f f' C C' (Hp & Hl & Hr) _ [IH1 IH2]]; [done|]. cbn. by rewrite IH1, IH2, Hl, Hr.
Qed.

(** The entries of the page of [g], with [n] the page of its subtree. *)
Abbreviation frame_entries g n := (tail (kids (f_left g) ++ (f_sep g, n) :: kids (f_right g))).
Abbreviation frame_first g n := (ks_first (kids (f_left g) ++ (f_sep g, n) :: kids (f_right g))).

Section Repairing.
Context {PL : PageLimit}.

Section Repair.
Context (cfg : DiskBTreeConfig).
Hypothesis Hinner : 2 <= internal_capacity cfg <= PAGE_ENTRIES.

(** Well-formedness of the nodes of a context, with [b] whether its subtree is a leaf. *)
Fixpoint ctx_shape (C : list frame) (b : bool) : Prop :=
  match C with
  | [] => True
  | f :: C =>
      count_of (f_left f) + 1 + count_of (f_right f) <= internal_capacity cfg + 1 /\
      Forall (fun c => shape cfg (snd c)) (f_left f) /\ Forall (fun c => shape cfg (snd c)) (f_right f) /\
      (f_left f = [] -> f_right f = [] -> b = false) /\ ctx_shape C false
  end.

Lemma count_frame f t : count_of (frame_kids f t) = count_of (f_left f) + 1 + count_of (f_right f).
Proof. unfold count_of, frame_kids. rewrite length_app. cbn [length]. lia. Qed.

Lemma frame_kids_ne f t : frame_kids f t <> [].
Proof. unfold frame_kids. by destruct (f_left f). Qed.

Lemma shape_plug1 f t :
  shape cfg (plug1 f t) <-> shape cfg t /\ count_of (f_left f) + 1 + count_of (f_right f) <= internal_capacity cfg + 1 /\
    Forall (fun c => shape cfg (snd c)) (f_left f) /\ Forall (fun c => shape cfg (snd c)) (f_right f) /\
    (f_left f = [] -> f_right f = [] -> is_leaf t = false).
Proof.
  split.
  - intros Hs. inversion Hs as [|? ? (_ & Hc & H1) Hall]; subst. rewrite count_frame in Hc.
    unfold frame_kids in *. apply Forall_app in Hall as [Hl Hall]. apply Forall_cons in Hall as [Ht Hr].
    split_and!; try done. intros E1 E2. rewrite E1, E2 in H1. specialize (H1 ltac:(done)). by apply Forall_cons in H1 as [? _].
  - intros (Ht & Hc & Hl & Hr & Hs). constructor.
    + split_and!; [apply frame_kids_ne|by rewrite count_frame|]. unfold frame_kids. rewrite length_app. cbn [length]. intros Hlen.
      assert (E1 : f_left f = []) by (destruct (f_left f); [done|cbn in Hlen; lia]).
      assert (E2 : f_right f = []) by (destruct (f_right f); [done|cbn in Hlen; lia]).
      rewrite E1, E2. constructor; [by apply Hs|done].
    + unfold frame_kids. apply Forall_app. split; [done|]. by constructor.
Qed.

Lemma shape_plug C : forall t, shape cfg (plug C t) <-> shape cfg t /\ ctx_shape C (is_leaf t).
Proof.
  induction C as [|f C IH]; intros t; cbn [plug ctx_shape]; [tauto|]. rewrite IH, shape_plug1. cbn [is_leaf]. tauto.
Qed.

Lemma ctx_shape_weaken C b : ctx_shape C b -> ctx_shape C false.
Proof. destruct C as [|f C]; [done|]. cbn. tauto. Qed.

Lemma ctx_like_shape C C' b : ctx_like C C' -> ctx_shape C b -> ctx_shape C' b.
Proof.
  intros HC. revert b. induction HC as [|f f' C C' (Hp & Hl & Hr) _ IH]; intros b; [done|]. cbn.
  rewrite Hl, Hr. intros (? & ? & ? & ? & ?). split_and!; auto.
Qed.

Lemma depth_plug1_mono f t t' : (depth t' <= depth t)%nat -> (depth (plug1 f t') <= depth (plug1 f t))%nat.
Proof. intros Hd. unfold plug1, frame_kids. rewrite !depth_node. autorewrite with btree. lia. Qed.

Lemma depth_plug_mono C : forall t t', (depth t' <= depth t)%nat -> (depth (plug C t') <= depth (plug C t))%nat.
Proof. induction C as [|f C IH]; intros t t' Hd; [done|]. cbn. by apply IH, depth_plug1_mono. Qed.

Lemma depth_plug_ge C t : (depth t + length C <= depth (plug C t))%nat.
Proof.
  revert t. induction C as [|f C IH]; intros t; [cbn; lia|]. cbn [plug length]. specialize (IH (plug1 f t)).
  pose proof (depth_frame (f_page f) f t) as Hd. unfold plug1 in *. lia.
Qed.

Lemma ctx_like_depth C C' : ctx_like C C' -> forall t, depth (plug C t) = depth (plug C' t).
Proof.
  intros HC t. assert (Hd : depth t = depth t) by done. revert Hd. generalize t at 1 3. revert t.
  induction HC as [|f f' C C' (Hp & Hl & Hr) _ IH]; intros t' t Hd; [done|]. cbn [plug]. apply IH.
  unfold plug1, frame_kids. rewrite !depth_node. autorewrite with btree. by rewrite Hl, Hr, Hd.
Qed.

(** ** Cells of a tree with a hole *)

(** The cells around a node: those of the contexts and of all leaves. *)
Definition ctx_cells (C : list frame) (n : Z) (ls : list (Z * list (Z * Z))) : list cell :=
  ctx_inner C n ++ chain (lleaves C ++ ls ++ rleaves C) NO_PAGE.

Lemma cells_plug_node C n cs :
  cells (plug C (TNode n cs)) ≡ₚ (n, node_of_kids (kids cs)) :: kids_inner cs ++ ctx_cells C n (kids_leaves cs).
Proof. rewrite cells_plug, inner_node, leaves_node. unfold ctx_cells. cbn [page]. solve_Permutation. Qed.

(** The cell of the innermost frame. *)
Lemma cells_plug_frame f C t :
  cells (plug (f :: C) t) ≡ₚ
    (f_page f, frame_node f (page t)) ::
    inner t ++ kids_inner (f_left f) ++ kids_inner (f_right f) ++
    ctx_cells C (f_page f) (kids_leaves (f_left f) ++ leaves t ++ kids_leaves (f_right f)).
Proof.
  cbn [plug]. unfold plug1. rewrite cells_plug_node. unfold frame_kids, frame_node. autorewrite with btree. solve_Permutation.
Qed.

(** The leaves of a tree below a context. *)
Lemma leaves_plug_node C n cs : leaves (plug C (TNode n cs)) = lleaves C ++ kids_leaves cs ++ rleaves C.
Proof. by rewrite leaves_plug, leaves_node. Qed.

(** ** First keys *)

Lemma flat_first_key t k v es :
  shape cfg t -> filled_leaves (leaves t) -> contents t = (k, v) :: es -> exists X, flat t = 2 * k + 1 :: X.
Proof.
  revert k v es. induction t as [n es0|n cs IH] using tree_ind'; intros k v es Hs Hf Hc.
  - unfold contents in Hc. cbn in Hc. rewrite app_nil_r in Hc. subst. cbn. eexists. done.
  - inversion Hs as [|? ? (Hne & _) Hall]; subst. destruct cs as [|[s t] cs]; [done|].
    apply Forall_cons in IH as [IH _]. apply Forall_cons in Hall as [Hsh _]. cbn [snd] in *.
    rewrite leaves_node in Hf. rewrite flat_node. unfold contents in Hc. rewrite leaves_node in Hc.
    autorewrite with btree in *. unfold filled_leaves in *. apply Forall_app in Hf as [Hf _]. cbn [tail].
    rewrite fmap_app, concat_app in Hc.
    assert (Hct : contents t <> []).
    { unfold contents. pose proof (leaves_ne _ _ Hsh) as Hne'. destruct (leaves t) as [|[n' es'] ls]; [done|]. cbn.
      apply Forall_cons in Hf as [Hf _]. by destruct es'. }
    unfold contents in *. destruct (concat (leaves t).*2) as [|[k' v'] es'] eqn:E; [done|]. injection Hc as -> -> _.
    destruct (IH k v es' Hsh Hf eq_refl) as [X ->]. eexists. done.
Qed.

Lemma chain_u64 ls r : Forall (fun c => node_ok (snd c)) (chain ls r) -> Forall u64_entry (leaf_entries ls).
Proof.
  induction ls as [|[n es] ls IH]; [done|]. cbn [chain]. intros Hok. apply Forall_cons in Hok as [[[Hu _] _] Hok].
  unfold leaf_entries. cbn. apply Forall_app. split; [done|by apply IH].
Qed.

Lemma contents_u64 C t (L : list cell) :
  cells (plug C t) ⊆ L -> Forall (fun c => node_ok (snd c)) L -> Forall u64_entry (contents t).
Proof.
  intros Hc Hok.
  assert (Hch : Forall (fun c => node_ok (snd c)) (chain (leaves (plug C t)) NO_PAGE)).
  { rewrite Forall_forall in *. intros c Hin. apply Hok, Hc. unfold cells. rewrite elem_of_app. by right. }
  apply chain_u64 in Hch. rewrite leaves_plug, !leaf_entries_app, !Forall_app in Hch. tauto.
Qed.

(** ** Refreshing separators *)

Lemma frame_entry f p i :
  length (f_left f) = S i -> tail (kids (f_left f) ++ (f_sep f, p) :: kids (f_right f)) !! i = Some (f_sep f, p).
Proof.
  intros Hl. rewrite <- (length_kids (f_left f)) in Hl. destruct (kids (f_left f)) as [|e ks]; [done|]. cbn in Hl. cbn [app tail].
  injection Hl as Hl. rewrite lookup_app_r, Hl, Nat.sub_diag by lia. done.
Qed.

Lemma frame_entry_set f p s' p' i :
  length (f_left f) = S i ->
  <[i := (s', p')]> (tail (kids (f_left f) ++ (f_sep f, p) :: kids (f_right f))) =
  tail (kids (f_left f) ++ (s', p') :: kids (f_right f)).
Proof.
  intros Hl. rewrite <- (length_kids (f_left f)) in Hl. destruct (kids (f_left f)) as [|e ks]; [done|]. cbn in Hl. cbn [app tail].
  injection Hl as Hl. rewrite insert_app_r_alt, Hl, Nat.sub_diag by lia. done.
Qed.

Lemma lflat1_first f : f_left f = [] -> lflat1 f = [].
Proof. intros E. unfold lflat1. rewrite E, kids_flat_nil. done. Qed.

Lemma lflat1_snoc f : f_left f <> [] -> lflat1 f = tail (kids_flat (f_left f)) ++ [2 * f_sep f].
Proof. intros Hne. unfold lflat1. destruct (f_left f) as [|[s t] l]; [done|]. by rewrite kids_flat_cons. Qed.

Lemma sorted_set_sep A X s k Y :
  StronglySorted Z.lt (A ++ (X ++ [2 * s]) ++ 2 * k + 1 :: Y) ->
  StronglySorted Z.lt (A ++ (X ++ [2 * k]) ++ 2 * k + 1 :: Y).
Proof.
  intros Hs. assert (Hsk : s <= k).
  { rewrite app_assoc, (app_assoc A), <- (app_assoc (A ++ X)), !StronglySorted_app in Hs. destruct Hs as (_ & _ & Hs & _).
    specialize (Hs (2 * s) (2 * k + 1) ltac:(left) ltac:(left)). lia. }
  rewrite <- !app_assoc, (app_assoc A) in *. cbn [app] in *. apply StronglySorted_app in Hs as (Hc & HAX & HY).
  apply StronglySorted_app. split_and!; [|done|].
  - intros x y Hx Hy. apply elem_of_cons in Hy as [->|Hy].
    + specialize (Hc x (2 * s) Hx ltac:(left)). lia.
    + apply Hc; [done|by right].
  - inversion HY as [|? ? HY' _]; subst. constructor; [done|]. inversion HY' as [|? ? _ Hall]; subst.
    constructor; [lia|]. eapply Forall_impl; [exact Hall|]. cbn. intros; lia.
Qed.

Lemma hp_refresh k : forall C t X m L F (Q : _ -> _ -> _ -> Prop),
  L ≡ₚ cells (plug C t) ++ F -> StronglySorted Z.lt (flat (plug C t)) -> flat t = 2 * k + 1 :: X -> in_u64 k ->
  (forall C' L', ctx_like C C' -> StronglySorted Z.lt (flat (plug C' t)) -> L' ≡ₚ cells (plug C' t) ++ F -> Q (Ok tt) m L') ->
  hp (refresh_ancestor_separators_after_child_min_change (path_of C) k) m L Q.
Proof.
  unfold refresh_ancestor_separators_after_child_min_change.
  induction C as [|f C IH]; intros t X m L F Q HL Hs Ht Hk HQ.
  { cbn. apply hp_mret, (HQ []); [apply ctx_like_refl|done|done]. }
  cbn [path_of]. rewrite reverse_app. cbn [reverse rev_append app]. cbn [refresh_loop frame_of child_slot page_no].
  destruct (length (f_left f)) as [|i] eqn:Hlen.
  - assert (E : f_left f = []) by (by destruct (f_left f)).
    eapply (IH (plug1 f t) (X ++ kids_flat (f_right f))); [exact HL|exact Hs| |done|].
    { rewrite flat_plug1, lflat1_first, Ht by done. done. }
    intros C' L' HC Hs' HL'. apply (HQ (f :: C')); [|done|done]. by constructor.
  - apply hp_pages. intros _ _ Hok. rewrite HL in Hok. apply Forall_app in Hok as [Hok _].
    rewrite cells_plug_frame in Hok. apply Forall_cons in Hok as [Hok _]. cbn [snd] in Hok.
    unfold frame_node in Hok. rewrite node_of_kids_eq in Hok. destruct Hok as [[Hu Hcnt] Hf].
    apply hp_bind. eapply hp_read_node; [rewrite HL, cells_plug_frame; left|]. cbn beta iota.
    rewrite (frame_entry f _ i Hlen). destruct (Z.eqb_spec (f_sep f) k) as [Heq|Hne].
    { apply hp_mret, (HQ (f :: C)); [apply ctx_like_refl|done|done]. }
    rewrite (frame_entry_set f _ _ _ i Hlen).
    set (f' := {| f_page := f_page f; f_left := f_left f; f_sep := k; f_right := f_right f |}).
    assert (HC : ctx_like (f :: C) (f' :: C)) by (constructor; [done|apply ctx_like_refl]).
    rewrite cells_plug_frame in HL. unfold frame_node in HL. rewrite node_of_kids_eq in HL. apply hp_bind.
    eapply hp_write_internal; [exact HL| |done|].
    { assert (Hl2 : length (tail (kids (f_left f) ++ (k, page t) :: kids (f_right f))) =
        length (tail (kids (f_left f) ++ (f_sep f, page t) :: kids (f_right f)))).
      { rewrite !length_tail, !length_app. done. }
      split; [|unfold count_of in *; by rewrite Hl2]. rewrite tail_app_cons in *.
      destruct (kids (f_left f)) as [|e ks]; [by rewrite app_nil_l in *|]. cbn [app tail] in *.
      rewrite !Forall_app, !Forall_cons in *. destruct Hu as ((H1 & [H2 H3] & _) & H4). split_and!; try done. }
    intros _. apply hp_mret. apply (HQ (f' :: C)); [done| |].
    + assert (Hne' : f_left f <> []) by (by intros E; rewrite E in Hlen).
      rewrite flat_plug in *. cbn [lflat rflat] in *. rewrite lflat1_snoc in * by done. rewrite Ht, <- !(app_assoc (lflat C)) in *.
      by apply (sorted_set_sep _ _ (f_sep f)).
    + change (f_page f) with (f_page f') at 1. rewrite cells_plug_frame. unfold frame_node. rewrite node_of_kids_eq.
      cbn [f' f_left f_right f_sep f_page]. 
      replace (ks_first (kids (f_left f) ++ (f_sep f, page t) :: kids (f_right f)))
        with (ks_first (kids (f_left f) ++ (k, page t) :: kids (f_right f))) by (by destruct (kids (f_left f)) as [|[? ?] ?]).
      done.
Qed.

(** ** Collapsing pages with one child *)

(** A tree that is well-formed but for the children of one node, which can be a single
    leaf. *)
Record near (C : list frame) (n : Z) (cs : children) : Prop := {
  nr_ne : cs <> [];
  nr_count : count_of cs <= internal_capacity cfg + 1;
  nr_kids : Forall (fun c => shape cfg (snd c)) cs;
  nr_ctx : ctx_shape C false;
  nr_sorted : StronglySorted Z.lt (flat (plug C (TNode n cs)));
  nr_filled : filled_leaves (leaves (plug C (TNode n cs))) }.

Definition almost_shape (t : tree) : Prop :=
  match t with
  | TLeaf _ _ => shape cfg t
  | TNode _ cs => cs <> [] /\ count_of cs <= internal_capacity cfg + 1 /\ Forall (fun c => shape cfg (snd c)) cs
  end.

Lemma shape_almost t : shape cfg t -> almost_shape t.
Proof. destruct t; [done|]. intros Hs. inversion Hs as [|? ? (? & ? & _) ?]; subst. done. Qed.

Lemma near_shape C n cs : near C n cs -> (2 <= length cs)%nat -> shape cfg (plug C (TNode n cs)).
Proof.
  intros [] Hl. apply shape_plug. split; [|done]. constructor; [|done]. split_and!; [done|done|lia].
Qed.

Lemma page_of_kid L m C n cs s t :
  cells (plug C (TNode n cs)) ⊆ L -> pages_ok m L -> (s, t) ∈ cs -> 1 <= page t < NO_PAGE.
Proof.
  intros HL (_ & Hb & Hc) Hin. apply list_elem_of_split in Hin as (l & r & ->). rewrite Forall_forall in Hb.
  assert (Hp : page t ∈ L.*1).
  { assert (Hp : page t ∈ (inner t).*1 ++ (leaves t).*1) by (destruct t; left).
    assert (Hp' : page t ∈ (cells (plug C (TNode n (l ++ (s, t) :: r)))).*1).
    { rewrite cells_plug, inner_node, leaves_node. autorewrite with btree. rewrite !chain_app, !fmap_app, fmap_cons, !fmap_app, !chain_fst.
      rewrite elem_of_app in Hp. rewrite !elem_of_app, !elem_of_cons, !elem_of_app. tauto. }
    apply list_elem_of_fmap in Hp' as (c & -> & Hp'). by apply list_elem_of_fmap_2, HL. }
  specialize (Hb (page t) ltac:(rewrite elem_of_app; by right)). unfold NO_PAGE. lia.
Qed.

(** The parent takes over the only child of a node. *)
Lemma cells_skip g C n s t :
  cells (plug (g :: C) (TNode n [(s, t)])) ≡ₚ
    (f_page g, frame_node g n) :: (n, node_of_kids [(s, page t)]) ::
    inner t ++ kids_inner (f_left g) ++ kids_inner (f_right g) ++
    ctx_cells C (f_page g) (kids_leaves (f_left g) ++ leaves t ++ kids_leaves (f_right g)).
Proof.
  rewrite cells_plug_frame, inner_node, leaves_node. cbn [page]. autorewrite with btree. rewrite !app_nil_r. solve_Permutation.
Qed.

Lemma flat_single n s t : flat (TNode n [(s, t)]) = flat t.
Proof. rewrite flat_node. autorewrite with btree. cbn. by rewrite app_nil_r. Qed.

Lemma leaves_single n s t : leaves (TNode n [(s, t)]) = leaves t.
Proof. rewrite leaves_node. autorewrite with btree. by rewrite app_nil_r. Qed.

Lemma near_skip g C n s t : near (g :: C) n [(s, t)] -> near C (f_page g) (frame_kids g t).
Proof.
  intros [_ _ Hk (Hc & Hl & Hr & _ & Hctx) Hs Hf]. apply Forall_cons in Hk as [Ht _]. cbn [snd] in Ht.
  rewrite flat_plug, flat_single, <- flat_plug in Hs. rewrite leaves_plug, leaves_single, <- leaves_plug in Hf.
  split; try done.
  - apply frame_kids_ne.
  - by rewrite count_frame.
  - unfold frame_kids. apply Forall_app. split; [done|]. by constructor.
Qed.

Lemma depth_skip g C n s t : (depth (plug C (TNode (f_page g) (frame_kids g t))) <= depth (plug (g :: C) (TNode n [(s, t)])))%nat.
Proof.
  cbn [plug]. apply depth_plug_mono, depth_plug1_mono. rewrite depth_node. autorewrite with btree. lia.
Qed.

Lemma near_like C C' n cs : ctx_like C C' -> near C n cs -> StronglySorted Z.lt (flat (plug C' (TNode n cs))) -> near C' n cs.
Proof.
  intros HC [] Hs. split; try done.
  - by eapply ctx_like_shape.
  - destruct (ctx_like_leaves _ _ HC) as [E1 E2]. rewrite leaves_plug, <- E1, <- E2, <- leaves_plug. done.
Qed.

(** What a repair keeps of the tree [T]. *)
Record kept (T T' : tree) : Prop := {
  kp_leaves : leaves T' = leaves T;
  kp_sorted : StronglySorted Z.lt (flat T');
  kp_depth : (depth T' <= depth T)%nat }.

Lemma kept_trans T1 T2 T3 : kept T1 T2 -> kept T2 T3 -> kept T1 T3.
Proof. intros [H1 _ H2] [H3 H4 H5]. split; [congruence|done|lia]. Qed.

Lemma kept_refl T : StronglySorted Z.lt (flat T) -> kept T T.
Proof. by split. Qed.

Lemma frame_entries_first g n p : f_left g = [] -> frame_entries g n = frame_entries g p /\ frame_first g p = p.
Proof. intros ->. by rewrite kids_nil. Qed.

Lemma frame_first_rest g n p i : length (f_left g) = S i -> frame_first g n = frame_first g p.
Proof. rewrite <- (length_kids (f_left g)). by destruct (kids (f_left g)) as [|[? ?] ?]. Qed.

(** One page less: the tree with the parent's page rewritten. *)
Lemma hp_skip_write g C n s t m L F (Q : _ -> _ -> _ -> Prop) :
  L ≡ₚ cells (plug (g :: C) (TNode n [(s, t)])) ++ F ->
  (forall L' d, L' ≡ₚ cells (plug C (TNode (f_page g) (frame_kids g t))) ++ (n, node_of_kids [(s, page t)]) :: F ->
     Q (Ok d) m L') ->
  forall f es, f = frame_first g (page t) -> es = frame_entries g (page t) ->
  hp (modify (f_page g) (write_internal_entries f es)) m L Q.
Proof.
  intros HL HQ f es -> ->. rewrite cells_skip in HL. cbn [app] in HL. apply (hp_perm _ _ _ _ _ HL). apply hp_pages. intros _ Hpo Hok.
  apply Forall_cons in Hok as [Hok Hok2]. cbn [snd] in Hok. unfold frame_node in *.
  rewrite (node_of_kids_eq (kids (f_left g) ++ _)) in *.
  destruct Hok as [[Hu Hcnt] Hf]. apply Forall_cons in Hok2 as [[_ Hp] _]. cbn [snd node_of_kids] in Hp.
  eapply hp_write_internal; [reflexivity| | |].
  - split.
    + rewrite tail_app_cons in *. destruct (kids (f_left g)) as [|e ks]; [by rewrite app_nil_l in *|]. cbn [app tail] in *.
      rewrite !Forall_app, !Forall_cons in *. destruct Hu as ((H1 & [H2 H3] & _) & H4). split_and!; try done.
    + unfold count_of in *. rewrite length_tail, length_app in *. exact Hcnt.
  - destruct (kids (f_left g)) as [|[? ?] ?]; done.
  - intros d. apply HQ. rewrite <- node_of_kids_eq. cbn [plug]. rewrite cells_plug_node. unfold frame_kids. autorewrite with btree.
    solve_Permutation.
Qed.

(** The first key below a frame. *)
Lemma hp_first_key fuel g C t m L (Q : _ -> _ -> _ -> Prop) :
  cells (plug C (TNode (f_page g) (frame_kids g t))) ⊆ L -> near C (f_page g) (frame_kids g t) ->
  (depth (plug C (plug1 g t)) <= fuel)%nat ->
  (forall k X, in_u64 k -> flat t = 2 * k + 1 :: X -> Q (Ok k) m L) ->
  hp (subtree_first_key fuel (page t)) m L Q.
Proof.
  intros HL [_ _ Hk _ Hs Hf] Hd HQ. apply hp_pages. intros _ _ Hok.
  unfold frame_kids in Hk. apply Forall_app in Hk as [_ Hk]. apply Forall_cons in Hk as [Hsh _]. cbn [snd] in Hsh.
  change (TNode (f_page g) (frame_kids g t)) with (plug1 g t) in *. change (plug C (plug1 g t)) with (plug (g :: C) t) in *.
  rewrite flat_plug, !StronglySorted_app in Hs. unfold filled_leaves in Hf. rewrite leaves_plug, !Forall_app in Hf.
  eapply (subtree_first_key_spec cfg m L fuel (g :: C) t); [split; [done|done|tauto]| |tauto|].
  - pose proof (depth_plug_ge (g :: C) t). lia.
  - intros k v es Hc. destruct (flat_first_key t k v es Hsh ltac:(apply Hf) Hc) as [X HX]. eapply HQ; [|exact HX].
    pose proof (contents_u64 (g :: C) t L HL Hok) as Hu. rewrite Hc in Hu. by apply Forall_cons in Hu as [[? _] _].
Qed.

Lemma path_lookup C (fr : PathFrame) rest : (path_of C ++ fr :: rest) !! length C = Some fr.
Proof. rewrite lookup_app_r, length_path_of, Nat.sub_diag by (rewrite length_path_of; lia). done. Qed.

Lemma kept_skip g C C' n s t T' :
  ctx_like C C' -> kept (plug C' (TNode (f_page g) (frame_kids g t))) T' -> kept (plug (g :: C) (TNode n [(s, t)])) T'.
Proof.
  intros HC [H1 H2 H3]. split; [|done|].
  - rewrite H1. destruct (ctx_like_leaves _ _ HC) as [E1 E2]. cbn [plug]. unfold plug1. rewrite !leaves_plug, <- E1, <- E2.
    unfold frame_kids. rewrite !leaves_node. autorewrite with btree. by rewrite leaves_single.
  - pose proof (depth_skip g C n s t). rewrite <- (ctx_like_depth _ _ HC) in H3. lia.
Qed.

Lemma page_like C C' p ks1 ks2 : ctx_like C C' -> page (plug C' (TNode p ks1)) = page (plug C (TNode p ks2)).
Proof.
  intros HC. revert p ks1 ks2. induction HC as [|f f' C C' (Hp & _) _ IH]; intros p ks1 ks2; [done|]. cbn [plug]. unfold plug1.
  rewrite Hp. apply IH.
Qed.

Lemma hp_collapse_path_loop fuel : forall len C n cs fr rest R F m L (Q : _ -> _ -> _ -> Prop),
  length C = len -> page_no fr = n -> L ≡ₚ cells (plug C (TNode n cs)) ++ R ++ F -> near C n cs ->
  (depth (plug C (TNode n cs)) <= fuel)%nat ->
  (forall L' T' R', L' ≡ₚ cells T' ++ R' ++ F -> page T' = page (plug C (TNode n cs)) -> almost_shape T' ->
     kept (plug C (TNode n cs)) T' -> Q (Ok R'.*1) m L') ->
  hp (collapse_path_loop fuel (path_of C ++ fr :: rest) len R.*1) m L Q.
Proof.
  induction len as [|len IH]; intros [|g C] n cs fr rest R F m L Q Hlc Hfr HL Hn Hfu HQ; try done.
  { apply hp_mret. apply (HQ _ (TNode n cs)); [done|done| |by apply kept_refl, Hn]. destruct Hn. done. }
  injection Hlc as Hlc. cbn [collapse_path_loop]. apply hp_bind.
  eapply hp_at_index; [rewrite <- Hlc; exact (path_lookup (g :: C) fr rest)|].
  rewrite Hfr. assert (Hcell : (n, node_of_kids (kids cs)) ∈ L) by (rewrite HL, cells_plug_node; left).
  apply hp_bind. eapply hp_read_node; [exact Hcell|]. cbn beta iota.
  assert (Hsub : cells (plug (g :: C) (TNode n cs)) ⊆ L) by (intros c Hc; rewrite HL, elem_of_app; by left).
  apply hp_pages. intros _ Hpo Hok.
  destruct cs as [|[s t] cs]; [by destruct (nr_ne _ _ _ Hn)|]. rewrite kids_cons. cbn [tail ks_first].
  destruct cs as [|[s2 t2] cs]; rewrite ?kids_nil, ?kids_cons; last first.
  { rewrite bool_decide_eq_false_2 by done. cbn [negb orb]. apply hp_mret. eapply HQ; [exact HL|done| |by apply kept_refl, Hn].
    apply shape_almost, near_shape; [done|cbn; lia]. }
  rewrite bool_decide_eq_true_2 by done. cbn [negb orb].
  pose proof (page_of_kid _ _ _ _ _ s t Hsub Hpo ltac:(left)) as Hpt. rewrite (proj2 (Z.eqb_neq _ _)) by lia.
  cbn [path_of]. rewrite <- app_assoc. cbn [app].
  apply hp_bind. eapply hp_at_index; [rewrite <- Hlc; exact (path_lookup C (frame_of g) (fr :: rest))|]. cbn [frame_of page_no child_slot].
  apply hp_bind. eapply hp_read_node; [apply Hsub; rewrite cells_skip; left|]. cbn beta iota.
  pose proof (near_skip _ _ _ _ _ Hn) as Hn'. pose proof (depth_skip g C n s t) as Hdep.
  assert (Hnode : (R ++ [(n, node_of_kids [(s, page t)])]).*1 = R.*1 ++ [n]) by (by rewrite fmap_app).
  destruct (length (f_left g)) as [|i] eqn:Hlen.
  - assert (E : f_left g = []) by (by destruct (f_left g)).
    apply hp_bind. eapply (hp_skip_write g C n s t); [exact HL| |by rewrite (proj2 (frame_entries_first g n (page t) E))|by apply frame_entries_first].
    intros L' _ HL'. apply hp_bind.
    eapply (hp_first_key fuel g C t); [intros c Hc; rewrite HL', elem_of_app; by left|exact Hn'|cbn [plug] in *; unfold plug1; lia|].
    intros k X Hk HX. apply hp_bind. rewrite take_app_length' by (by rewrite length_path_of).
    eapply (hp_refresh k C (plug1 g t) (X ++ kids_flat (f_right g))); [exact HL'|apply Hn'| |done|].
    { rewrite flat_plug1, lflat1_first, HX by done. done. }
    intros C' L2 HC Hs2 HL2. rewrite (ctx_like_path _ _ HC), <- Hnode.
    eapply (IH C' _ _ _ _ _ F); [by rewrite <- (Forall2_length _ _ _ HC)|done| |by eapply near_like| |].
    + rewrite HL2. solve_Permutation.
    + rewrite <- (ctx_like_depth _ _ HC). exact (Nat.le_trans _ _ _ Hdep Hfu).
    + intros L3 T3 R3 HL3 Hp3 Hs3 Hk3. eapply HQ; [exact HL3|rewrite Hp3; exact (page_like _ _ _ _ (frame_kids g (TNode n [(s, t)])) HC)|done|by eapply kept_skip].
  - rewrite (frame_entry g n i Hlen), (frame_entry_set g n _ _ i Hlen).
    apply hp_bind. eapply (hp_skip_write g C n s t); [exact HL| |by apply (frame_first_rest g n (page t) i)|done].
    intros L' _ HL'. rewrite <- Hnode. pose proof (ctx_like_refl C) as HC.
    eapply (IH C _ _ _ _ _ F); [done|done|rewrite HL'; solve_Permutation|done|exact (Nat.le_trans _ _ _ Hdep Hfu)|].
    intros L3 T3 R3 HL3 Hp3 Hs3 Hk3. eapply HQ; [exact HL3|rewrite Hp3; exact (page_like _ _ _ _ (frame_kids g (TNode n [(s, t)])) HC)|done|by eapply kept_skip].
Qed.

(** ** The root, and reclaiming *)

(** How the metapage moves while a tree is repaired. *)
Record meta_le (m m' : Meta) : Prop := {
  ml_next : m_next m' = m_next m;
  ml_height : m_height m' <= m_height m;
  ml_free : m_free m ⊆ m_free m';
  ml_junk : m_junk m ⊆ m_junk m' }.

Lemma meta_le_refl m : meta_le m m.
Proof. split; done || lia. Qed.

Lemma meta_le_trans m1 m2 m3 : meta_le m1 m2 -> meta_le m2 m3 -> meta_le m1 m3.
Proof. intros [] []. split; [congruence|lia|by etrans|by etrans]. Qed.

Lemma meta_le_dead m m' n : meta_le m m' -> dead m n -> dead m' n.
Proof. intros [] [Hn|(f & es & Hne & Hn)]; [left; auto|right; eauto]. Qed.

(** The metapage describes the tree. *)
Record rooted (m : Meta) (T : tree) : Prop := {
  rt_root : m_root m = page T;
  rt_height : Z.of_nat (depth T) <= m_height m }.

(** Full nodes, those with more than one child, that are among the cells of [L]. *)
Definition full_cell (c : cell) : Prop := match snd c with NInner _ es => es <> [] | NLeaf _ _ => False end.

Definition full_kept (X L : list cell) : Prop := forall c, full_cell c -> c ∈ X -> c ∈ L.

Lemma hp_collapse_root : forall fuel T R F m L (Q : _ -> _ -> _ -> Prop),
  L ≡ₚ cells T ++ R ++ F -> almost_shape T -> StronglySorted Z.lt (flat T) -> rooted m T -> (depth T <= fuel)%nat ->
  (forall m' L' T' R', L' ≡ₚ cells T' ++ R' ++ F -> shape cfg T' -> kept T T' -> rooted m' T' -> meta_le m m' ->
     full_kept (cells T) (cells T') -> (forall c, c ∈ R -> c ∈ R') -> Q (Ok R'.*1) m' L') ->
  hp (collapse_root_single_child_chain fuel R.*1) m L Q.
Proof.
  induction fuel as [|fuel IH]; intros T R F m L Q HL Hsh Hs [Hr Hh] Hf HQ; [pose proof (depth_pos T); lia|].
  cbn [collapse_root_single_child_chain]. apply hp_bind, hp_height.
  assert (Hfk : full_kept (cells T) (cells T)) by (by intros c).
  destruct (Z.leb_spec (m_height m) 1) as [Hh1|Hh1].
  { apply hp_mret. destruct T as [n es|n cs]; [|exfalso; rewrite depth_node in Hh; destruct cs as [|[s t] cs]; [by destruct Hsh|];
      rewrite kids_depth_cons in Hh; pose proof (depth_pos t); lia].
    eapply HQ; [exact HL|done|by apply kept_refl|done|apply meta_le_refl|done|done]. }
  apply hp_bind, hp_root_page. rewrite Hr. destruct T as [n es|n cs]; cbn [page].
  - apply hp_bind. eapply hp_fetch; [rewrite HL; left|]. intros d Hd. apply hp_bind, hp_ret.
    rewrite (read_page_kind_of _ _ Hd). cbn [kind_of]. apply hp_mret.
    eapply HQ; [exact HL|done|by apply kept_refl|done|apply meta_le_refl|done|done].
  - pose proof HL as HL0. change (TNode n cs) with (plug [] (TNode n cs)) in HL. rewrite cells_plug_node in HL.
    apply hp_bind. eapply hp_fetch; [rewrite HL; left|]. rewrite node_of_kids_eq. intros d Hd. apply hp_bind, hp_ret.
    rewrite (read_page_kind_of _ _ Hd). cbn [kind_of]. apply hp_bind, hp_ret.
    rewrite (read_internal_entries_of _ _ _ Hd), (read_first_child_of _ _ _ Hd). cbv zeta.
    apply hp_pages. intros Hmo Hpo _. destruct Hsh as (Hne & Hcnt & Hall).
    destruct cs as [|[s t] [|[s2 t2] cs]]; [done| |]; rewrite !kids_cons, ?kids_nil; cbn [tail ks_first]; last first.
    { rewrite bool_decide_eq_false_2 by done. cbn [negb orb]. apply hp_mret.
      eapply HQ; [exact HL0| |by apply kept_refl|done|apply meta_le_refl|done|done].
      constructor; [|done]. split_and!; [done|done|cbn; lia]. }
    rewrite bool_decide_eq_true_2 by done. cbn [negb orb].
    pose proof (page_of_kid L m [] n [(s, t)] s t ltac:(intros c Hc; cbn [plug] in Hc; rewrite HL0, elem_of_app; by left) Hpo ltac:(left)) as Hpt.
    rewrite (proj2 (Z.eqb_neq _ _)) by lia. apply hp_bind, hp_set_root; [unfold in_u64, NO_PAGE in *; lia| |].
    { destruct Hmo as (_ & [? ?] & _). unfold in_u32. lia. }
    replace (R.*1 ++ [n]) with ((R ++ [(n, node_of_kids (kids [(s, t)]))]).*1) by (by rewrite fmap_app).
    rewrite depth_node, kids_depth_cons, kids_depth_nil in *.
    apply Forall_cons in Hall as [Ht _]. cbn [snd] in Ht. rewrite flat_single in Hs.
    eapply (IH t _ F); [|by apply shape_almost|done|by split; cbn; lia|lia|].
    + rewrite HL. unfold ctx_cells, cells. cbn [ctx_inner lleaves rleaves app]. autorewrite with btree. rewrite !app_nil_r.
      solve_Permutation.
    + intros m' L' T' R' HL' Hsh' [Hk1 Hk2 Hk3] Hrt' Hml Hfull Hin. eapply HQ; [exact HL'|done| |done| | |].
      * split; [by rewrite leaves_single|done|rewrite depth_node, kids_depth_cons, kids_depth_nil; lia].
      * eapply meta_le_trans; [|exact Hml]. split; cbn; done || lia.
      * intros c Hc Hc'. apply Hfull; [done|]. unfold cells in *. rewrite inner_node, leaves_single in Hc'.
        autorewrite with btree in Hc'. rewrite app_nil_r in Hc'. cbn [app] in Hc'.
        apply elem_of_cons in Hc' as [->|Hc']; [done|done].
      * intros c Hc. apply Hin. rewrite elem_of_app. by left.
Qed.

(** The state after a repair: the tree [T'], and pages [D] that are not used any more. *)
Record repaired (m m' : Meta) (L' : list cell) (T T' : tree) (F : list cell) : Prop := {
  rp_cells : exists D, L' ≡ₚ cells T' ++ D ++ F;
  rp_shape : shape cfg T';
  rp_kept : kept T T';
  rp_rooted : rooted m' T';
  rp_meta : meta_le m m' }.

Lemma reclaimed_le R m m' : reclaimed R m m' -> meta_le m m'.
Proof. intros []. split; done || lia. Qed.

Lemma reclaimed_rooted R m m' T : reclaimed R m m' -> rooted m T -> rooted m' T.
Proof. intros [E1 E2 _ _ _ _] []. split; congruence. Qed.

(** The root chain and reclaiming, from a tree whose root can be a single leaf's parent. *)
Lemma hp_root_and_reclaim fuel T R F m L (Q : _ -> _ -> _ -> Prop) :
  L ≡ₚ cells T ++ R ++ F -> almost_shape T -> StronglySorted Z.lt (flat T) -> rooted m T -> (depth T <= fuel)%nat ->
  (forall m' L' T', L' ≡ₚ cells T' ++ F -> repaired m m' L' T T' F -> full_kept (cells T) (cells T') ->
     (forall c, c ∈ R -> fst c ∈ m_free m' \/ c ∈ m_junk m') -> Q (Ok tt) m' L') ->
  hp (removed ← collapse_root_single_child_chain fuel R.*1; reclaim_removed_pages removed) m L Q.
Proof.
  intros HL Hsh Hs Hr Hf HQ. apply hp_bind. eapply hp_collapse_root; [done..|].
  intros m1 L1 T1 R1 HL1 Hsh1 Hk1 Hr1 Hm1 Hfull Hin. eapply (hp_reclaim _ R1 _ _ (cells T1 ++ F)); [|done|].
  { rewrite HL1. solve_Permutation. }
  intros m2 Hrec. eapply HQ; [done| |done|].
  - split; [by exists []|done|done|by eapply reclaimed_rooted|eapply meta_le_trans; [done|by eapply reclaimed_le]].
  - intros c Hc. apply (rc_gone _ _ _ Hrec). by apply Hin.
Qed.

Lemma collapse_short fuel path removed :
  (length path < 2)%nat -> collapse_single_child_internal_path fuel path removed = mret removed.
Proof. intros Hl. unfold collapse_single_child_internal_path. by rewrite (proj2 (Nat.ltb_lt _ _)). Qed.

Lemma collapse_long fuel path removed :
  (2 <= length path)%nat ->
  collapse_single_child_internal_path fuel path removed = collapse_path_loop fuel path (length path - 1) removed.
Proof. intros Hl. unfold collapse_single_child_internal_path. by rewrite (proj2 (Nat.ltb_ge _ _)). Qed.

(** [collapse_and_reclaim] along a path that is up to date. *)
Lemma hp_collapse_path fuel C n cs fr R F m L (Q : _ -> _ -> _ -> Prop) :
  page_no fr = n -> L ≡ₚ cells (plug C (TNode n cs)) ++ R ++ F -> near C n cs -> rooted m (plug C (TNode n cs)) ->
  (depth (plug C (TNode n cs)) <= fuel)%nat ->
  (forall m' L' T', repaired m m' L' (plug C (TNode n cs)) T' F -> Q (Ok tt) m' L') ->
  hp (collapse_and_reclaim fuel (path_of C ++ [fr]) R.*1) m L Q.
Proof.
  intros Hfr HL Hn [Hr Hh] Hf HQ. unfold collapse_and_reclaim. apply hp_bind. destruct C as [|g C].
  - rewrite collapse_short by (cbn; lia). apply hp_mret.
    eapply hp_root_and_reclaim; [exact HL|by destruct Hn|apply Hn|done|done|]. eauto.
  - rewrite collapse_long by (rewrite length_app, length_path_of; cbn; lia).
    replace (length (path_of (g :: C) ++ [fr]) - 1)%nat with (length (g :: C)) by (rewrite length_app, length_path_of; cbn; lia).
    eapply hp_collapse_path_loop; [done|done|done|done|done|].
    intros L1 T1 R1 HL1 Hp1 Hs1 Hk1. pose proof Hk1 as [_ Hso Hd].
    eapply hp_root_and_reclaim; [exact HL1|done|done|split; [congruence|lia]|lia|].
    intros m2 L2 T2 HL2 [H1 H2 H3 H4 H5] _ _. eapply HQ. split; try done. by eapply kept_trans.
Qed.

(** The page at the end of a path needs no collapse, and is not mistaken for one that does. *)
Definition settled (m : Meta) (L : list cell) (n : Z) : Prop :=
  dead m n \/ exists c, full_cell c /\ fst c = n /\ c ∈ L.

Lemma hp_read_settled n m L (Q : _ -> _ -> _ -> Prop) :
  settled m L n -> (dead m n -> Q (Err corrupt) m L) -> (forall f es, es <> [] -> Q (Ok (f, es)) m L) ->
  hp (read_internal n) m L Q.
Proof.
  intros [Hd|([n' [es r|f es]] & Hf & <- & Hin)] HQ1 HQ2; [by apply hp_read_dead; auto|done|].
  eapply hp_read_internal; [exact Hin|]. by apply HQ2.
Qed.

(** [collapse_and_reclaim] along a path whose last page is settled. *)
Lemma hp_collapse_settled fuel P n fr T R F m L (Q : _ -> _ -> _ -> Prop) :
  page_no fr = n -> settled m L n -> L ≡ₚ cells T ++ R ++ F -> shape cfg T -> StronglySorted Z.lt (flat T) ->
  rooted m T -> (depth T <= fuel)%nat ->
  (forall m' L' T', L' ≡ₚ cells T' ++ F -> repaired m m' L' T T' F -> full_kept (cells T) (cells T') ->
     (forall c, c ∈ R -> fst c ∈ m_free m' \/ c ∈ m_junk m') -> Q (Ok tt) m' L') ->
  (dead m n -> P <> [] -> Q (Err corrupt) m L) ->
  hp (collapse_and_reclaim fuel (P ++ [fr]) R.*1) m L Q.
Proof.
  intros Hfr Hset HL Hsh Hs Hr Hf HQ1 HQ2. unfold collapse_and_reclaim. apply hp_bind.
  assert (Hrest : hp (removed ← collapse_root_single_child_chain fuel R.*1; reclaim_removed_pages removed) m L Q).
  { eapply hp_root_and_reclaim; [exact HL|by apply shape_almost|done..]. }
  destruct (decide (P = [])) as [->|HP]; [rewrite collapse_short by (cbn; lia); by apply hp_mret|].
  assert (Hlen : (1 <= length P)%nat) by (destruct P; [done|cbn; lia]).
  rewrite collapse_long by (rewrite length_app; cbn; lia).
  replace (length (P ++ [fr]) - 1)%nat with (length P) by (rewrite length_app; cbn; lia).
  destruct (length P) as [|len] eqn:E; [lia|]. cbn [collapse_path_loop]. apply hp_bind.
  eapply hp_at_index; [rewrite lookup_app_r, E, Nat.sub_diag by lia; done|]. rewrite Hfr. apply hp_bind.
  apply hp_read_settled; [done|by intros; apply HQ2|]. intros f es Hne. cbn beta iota.
  rewrite bool_decide_eq_false_2 by done. cbn [negb orb]. by apply hp_mret.
Qed.

(** ** Internal pages that are too small *)

Context (fuel : nat).

(** What a repair of the node [n] with the children [cs] makes of the tree [T]: the full
    nodes below it stay, and unless it failed the page is settled. *)
Record rebalanced (m m' : Meta) (L' : list cell) (T T' : tree) (F : list cell) (n : Z) (X : list cell) (ok : Prop) :
    Prop := {
  rb_repaired : repaired m m' L' T T' F;
  rb_full : full_kept X L';
  rb_settled : ok -> settled m' L' n }.

Definition deep_post (m : Meta) (L : list cell) (T : tree) (F : list cell) (n : Z) (X : list cell)
    (Q : PoolResult bool -> Meta -> list cell -> Prop) : Prop :=
  (forall L', L' ≡ₚ L -> Q (Ok false) m L') /\
  (forall r m' L' T', r <> Ok false -> rebalanced m m' L' T T' F n X (r = Ok true) -> Q r m' L').

Definition deep_spec (deepest : list PathFrame -> Prog bool) (C : list frame) : Prop :=
  forall n cs fr F m L (Q : PoolResult bool -> Meta -> list cell -> Prop),
    page_no fr = n -> near C n cs -> rooted m (plug C (TNode n cs)) -> (depth (plug C (TNode n cs)) <= fuel)%nat ->
    L ≡ₚ cells (plug C (TNode n cs)) ++ F -> deep_post m L (plug C (TNode n cs)) F n (kids_inner cs) Q ->
    hp (deepest (path_of C ++ [fr])) m L Q.

Lemma repaired_trans m1 m2 m3 L2 L3 T1 T2 T3 D F :
  repaired m1 m2 L2 T1 T2 F -> repaired m2 m3 L3 T2 T3 (D ++ F) -> repaired m1 m3 L3 T1 T3 F.
Proof.
  intros [_ _ Hk1 _ Hm1] [[D' Hc] Hs Hk2 Hr Hm2]. split; [|done|by eapply kept_trans|done|by eapply meta_le_trans].
  exists (D' ++ D). by rewrite Hc, <- app_assoc.
Qed.

Lemma repaired_drop m m' L' T T' c F : repaired m m' L' T T' (c :: F) -> repaired m m' L' T T' F.
Proof.
  intros [[D Hc] Hs Hk Hr Hm]. split; [|done|done|done|done]. exists (D ++ [c]). rewrite Hc. by rewrite <- app_assoc.
Qed.

Lemma repaired_refl m L T F : L ≡ₚ cells T ++ F -> shape cfg T -> StronglySorted Z.lt (flat T) -> rooted m T -> repaired m m L T T F.
Proof. intros HL Hsh Hs Hr. split; [by exists []|done|by apply kept_refl|done|apply meta_le_refl]. Qed.

(** A full cell that was given up is dead. *)
Lemma full_gone m c : full_cell c -> fst c ∈ m_free m \/ c ∈ m_junk m -> dead m (fst c).
Proof. destruct c as [n [es r|f es]]; [done|]. intros Hf [Hc|Hc]; [by left|]. right. by exists f, es. Qed.

Section AfterMerge.
Context (deepest : list PathFrame -> Prog bool) (C : list frame) (g : frame) (gcs : children) (n : Z) (fr : PathFrame).
Context (rc : cell) (F : list cell) (m : Meta) (L : list cell) (Q : PoolResult bool -> Meta -> list cell -> Prop).
Let T := plug C (TNode (f_page g) gcs).
Hypothesis Hdeep : deep_spec deepest C.
Hypothesis Hfr : page_no fr = n.
Hypothesis Hnear : near C (f_page g) gcs.
Hypothesis Hshape : shape cfg T.
Hypothesis Hrooted : rooted m T.
Hypothesis Hfuel : (depth T <= fuel)%nat.
Hypothesis HL : L ≡ₚ cells T ++ rc :: F.
Hypothesis Hn : exists c, full_cell c /\ fst c = n /\ (c ∈ kids_inner gcs \/ c = rc).
Hypothesis HQ : forall r m' L' T', r <> Ok false -> rebalanced m m' L' T T' F n (kids_inner gcs) (r = Ok true) -> Q r m' L'.

(** The cells that must stay, before and after the page [rc] is reclaimed. *)
Lemma after_collapse m1 m2 L1 L2 T1 T2 D :
  rc ∉ kids_inner gcs -> full_kept (kids_inner gcs) L1 -> L1 ≡ₚ cells T1 ++ D ++ rc :: F ->
  L2 ≡ₚ cells T2 ++ D ++ F -> full_kept (cells T1) (cells T2) -> (fst rc ∈ m_free m2 \/ rc ∈ m_junk m2) ->
  repaired m m1 L1 T T1 (rc :: F) -> repaired m1 m2 L2 T1 T2 (D ++ F) ->
  rebalanced m m2 L2 T T2 F n (kids_inner gcs) True.
Proof.
  intros Hrc Hk1 HL1 HL2 Hk2 Hgone Hr1 Hr2.
  assert (Hk : full_kept (kids_inner gcs) L2).
  { intros c Hf Hc. pose proof (Hk1 c Hf Hc) as Hc1. rewrite HL1, !elem_of_app, elem_of_cons in Hc1.
    rewrite HL2, !elem_of_app. destruct Hc1 as [Hc1|[Hc1|[->|Hc1]]]; [left; by apply Hk2|tauto|done|tauto]. }
  split; [|done|].
  - eapply repaired_trans; [by eapply repaired_drop|done].
  - intros _. destruct Hn as (c & Hf & <- & [Hc| ->]); [|left; by apply full_gone]. right. exists c. split_and!; [done|done|by apply Hk].
Qed.

Lemma hp_after_merge :
  hp (_ ← deepest (path_of C ++ [frame_of g]);
      _ ← collapse_and_reclaim fuel (path_of (g :: C) ++ [fr]) [fst rc]; mret true) m L Q.
Proof.
  apply hp_pages. intros _ Hpo _.
  assert (Hrc : rc ∉ kids_inner gcs).
  { intros Hin. destruct rc as [rn rd].
    assert (Hpo' : pages_ok m ((rn, rd) :: cells T ++ F)).
    { eapply (pages_ok_proper m L); [rewrite HL; solve_Permutation|done]. }
    destruct (pages_ok_cons _ _ _ _ Hpo') as (_ & Hni & _). apply Hni. rewrite fmap_app, elem_of_app. left.
    unfold T. rewrite cells_plug_node, fmap_cons, fmap_app, elem_of_cons, elem_of_app. right. left.
    by apply (list_elem_of_fmap_2 fst _ _ Hin). }
  assert (Hset : forall m1 L1, full_kept (kids_inner gcs) L1 -> rc ∈ L1 -> settled m1 L1 n).
  { intros m1 L1 Hk Hin. right. destruct Hn as (c & Hf & Hc & [Hin'| ->]); eauto 10. }
  assert (Hdone : forall m1 L1 T1 D, repaired m m1 L1 T T1 (rc :: F) -> L1 ≡ₚ cells T1 ++ D ++ rc :: F -> full_kept (kids_inner gcs) L1 ->
            hp (_ ← collapse_and_reclaim fuel (path_of (g :: C) ++ [fr]) [fst rc]; mret true) m1 L1 Q).
  { intros m1 L1 T1 D Hr1 HL1 Hk1. pose proof Hr1 as [_ Hsh1 [Hkl Hks Hkd] Hro1 Hm1]. apply hp_bind.
    change [fst rc] with ([rc].*1). eapply (hp_collapse_settled fuel _ n fr T1 [rc] (D ++ F)); try done.
    - apply Hset; [done|]. rewrite HL1, !elem_of_app. right. right. left.
    - rewrite HL1. solve_Permutation.
    - lia.
    - intros m2 L2 T2 HL2 Hr2 Hk2 Hg. apply hp_mret. apply (HQ _ _ _ T2); [done|].
      destruct (after_collapse m1 m2 L1 L2 T1 T2 D) as [H1 H2 H3]; try done; [by apply Hg; left|]. by split; [| |intros _; apply H3].
    - intros _ _. apply (HQ _ _ _ T1); [done|]. split; [by eapply repaired_drop|done|done]. }
  assert (HkL : full_kept (kids_inner gcs) L).
  { intros c _ Hc. rewrite HL, elem_of_app. left. unfold T. rewrite cells_plug_node. right. rewrite elem_of_app. by left. }
  apply hp_bind. eapply Hdeep; [done|exact Hnear|done|done|exact HL|]. split.
  - intros L' HL'. apply (Hdone m L' T []); [apply repaired_refl; [by rewrite HL'|done|apply Hnear|done]|by rewrite HL'|].
    intros c Hf Hc. rewrite HL'. by apply HkL.
  - intros r m1 L1 T1 Hne [Hr1 Hk1 _]. destruct r as [b|e].
    + destruct (rp_cells _ _ _ _ _ _ Hr1) as [D HD]. by apply (Hdone m1 L1 T1 D).
    + apply (HQ _ _ _ T1); [done|]. split; [by eapply repaired_drop|done|done].
Qed.

End AfterMerge.

(** ** Merging and rotating siblings *)

(** The children of two neighbours, with the separator between them. *)
Definition set_first (s : Z) (cs : children) : children :=
  match cs with [] => [] | (_, t) :: r => (s, t) :: r end.

Definition joined (csa : children) (s : Z) (csb : children) : children := csa ++ set_first s csb.

(** Neighbours of a node are replaced by others with the same leaves, keys and separators. *)
Record same_kids (K K' : children) : Prop := {
  sk_leaves : kids_leaves K' = kids_leaves K;
  sk_flat : kids_flat K' = kids_flat K;
  sk_depth : (kids_depth K' <= kids_depth K)%nat }.

Lemma same_kids_node K K' C p l r :
  same_kids K K' ->
  leaves (plug C (TNode p (l ++ K' ++ r))) = leaves (plug C (TNode p (l ++ K ++ r))) /\
  flat (plug C (TNode p (l ++ K' ++ r))) = flat (plug C (TNode p (l ++ K ++ r))) /\
  (depth (plug C (TNode p (l ++ K' ++ r))) <= depth (plug C (TNode p (l ++ K ++ r))))%nat.
Proof.
  intros [H1 H2 H3]. split_and!.
  - rewrite !leaves_plug, !leaves_node. autorewrite with btree. by rewrite H1.
  - rewrite !flat_plug, !flat_node. autorewrite with btree. by rewrite H2.
  - apply depth_plug_mono. rewrite !depth_node. autorewrite with btree. lia.
Qed.

Lemma cells_plug_kids C p l K r :
  cells (plug C (TNode p (l ++ K ++ r))) ≡ₚ
    (p, node_of_kids (kids (l ++ K ++ r))) :: kids_inner K ++
    (kids_inner l ++ kids_inner r ++ ctx_cells C p (kids_leaves l ++ kids_leaves K ++ kids_leaves r)).
Proof. rewrite cells_plug_node. autorewrite with btree. solve_Permutation. Qed.

Lemma joined_inner csa s csb : kids_inner (joined csa s csb) = kids_inner csa ++ kids_inner csb.
Proof. unfold joined. destruct csb as [|[x t] csb]; cbn [set_first]; by autorewrite with btree. Qed.

Lemma joined_leaves csa s csb : kids_leaves (joined csa s csb) = kids_leaves csa ++ kids_leaves csb.
Proof. unfold joined. destruct csb as [|[x t] csb]; cbn [set_first]; by autorewrite with btree. Qed.

Lemma joined_depth csa s csb : kids_depth (joined csa s csb) = max (kids_depth csa) (kids_depth csb).
Proof. unfold joined. destruct csb as [|[x t] csb]; cbn [set_first]; by autorewrite with btree. Qed.

Lemma length_joined csa s csb : length (joined csa s csb) = (length csa + length csb)%nat.
Proof. unfold joined. rewrite length_app. by destruct csb as [|[x t] csb]. Qed.

Lemma joined_shape csa s csb :
  Forall (fun c => shape cfg (snd c)) csa -> Forall (fun c => shape cfg (snd c)) csb ->
  Forall (fun c => shape cfg (snd c)) (joined csa s csb).
Proof.
  intros Ha Hb. apply Forall_app. split; [done|]. destruct csb as [|[x t] csb]; [done|].
  apply Forall_cons in Hb as [H1 H2]. by constructor.
Qed.

Lemma joined_entries csa s csb :
  csa <> [] -> csb <> [] ->
  tail (kids (joined csa s csb)) = tail (kids csa) ++ (s, ks_first (kids csb)) :: tail (kids csb) /\
  ks_first (kids (joined csa s csb)) = ks_first (kids csa).
Proof.
  intros Ha Hb. destruct csa as [|[xa ta] csa]; [done|]. destruct csb as [|[xb tb] csb]; [done|].
  unfold joined. cbn [set_first app]. by autorewrite with btree.
Qed.

Lemma joined_flat csa s csb :
  csa <> [] -> csb <> [] ->
  tail (kids_flat (joined csa s csb)) = tail (kids_flat csa) ++ 2 * s :: tail (kids_flat csb).
Proof.
  intros Ha Hb. destruct csa as [|[xa ta] csa]; [done|]. destruct csb as [|[xb tb] csb]; [done|].
  unfold joined. cbn [set_first app]. autorewrite with btree. cbn [tail]. by rewrite <- app_assoc.
Qed.

Lemma same_kids_merge sa na csa sb nb csb :
  csa <> [] -> csb <> [] ->
  same_kids [(sa, TNode na csa); (sb, TNode nb csb)] [(sa, TNode na (joined csa sb csb))].
Proof.
  intros Ha Hb. split; autorewrite with btree; rewrite ?leaves_node, ?flat_node, ?depth_node, ?app_nil_r.
  - by rewrite joined_leaves.
  - by rewrite joined_flat by done.
  - rewrite joined_depth. lia.
Qed.

(** Two splits of the same joined children. *)
Lemma same_kids_rotate sa na csa sb nb csb csa' s' x t csb' :
  csa <> [] -> csb <> [] -> csa' <> [] -> joined csa sb csb = csa' ++ (s', t) :: csb' ->
  same_kids [(sa, TNode na csa); (sb, TNode nb csb)] [(sa, TNode na csa'); (s', TNode nb ((x, t) :: csb'))].
Proof.
  intros Ha Hb Ha' Hj. assert (Hj' : joined csa sb csb = joined csa' s' ((x, t) :: csb')) by done.
  split; autorewrite with btree; rewrite ?leaves_node, ?flat_node, ?depth_node, ?app_nil_r.
  - by rewrite <- (joined_leaves csa'  s'), <- Hj', joined_leaves.
  - f_equal. cbn [app]. rewrite <- (joined_flat csa' s'), <- Hj', joined_flat by done. done.
  - pose proof (joined_depth csa sb csb) as E1. rewrite Hj', joined_depth in E1. autorewrite with btree in *. lia.
Qed.

Lemma pair_entry l sa ta sb tb r :
  tail (kids (l ++ (sa, ta) :: (sb, tb) :: r)) !! length l = Some (sb, page tb).
Proof.
  rewrite kids_app, !kids_cons, tail_app_cons. rewrite lookup_app_r; rewrite length_tail, length_app, length_kids; cbn [length]; [|lia].
  replace (length l - (length l + 1 - 1))%nat with O by lia. done.
Qed.

(** The left neighbour of the subtree of [g]. *)
Lemma left_split g t i :
  length (f_left g) = S i -> exists l sa ta, f_left g = l ++ [(sa, ta)] /\ length l = i /\
    left_sibling_of (ks_first (kids (frame_kids g t))) (tail (kids (frame_kids g t))) (S i) = Some (page ta) /\
    frame_kids g t = l ++ [(sa, ta); (f_sep g, t)] ++ f_right g.
Proof.
  intros Hl. assert (Hne : f_left g <> []) by (by intros E; rewrite E in Hl).
  destruct (exists_last Hne) as (l & [sa ta] & E). exists l, sa, ta. rewrite E, length_app in Hl. cbn in Hl.
  assert (Hli : length l = i) by lia.
  assert (Heq : frame_kids g t = l ++ [(sa, ta); (f_sep g, t)] ++ f_right g).
  { unfold frame_kids. rewrite E. by rewrite <- app_assoc. }
  split_and!; [done|done| |done]. rewrite Heq. unfold left_sibling_of. destruct i as [|i].
  - destruct l; [|done]. cbn [app]. by rewrite kids_cons.
  - cbn [app]. destruct (exists_last (l := l)) as (l' & [s' t'] & El); [by destruct l|]. subst l.
    rewrite length_app in Hli. cbn in Hli. assert (Hi : i = length l') by lia. subst i.
    rewrite <- app_assoc. cbn [app]. by rewrite pair_entry.
Qed.

Lemma pair_entries_delete l sa ta ta' sb tb r :
  page ta' = page ta ->
  base.delete (length l) (tail (kids (l ++ (sa, ta) :: (sb, tb) :: r))) = tail (kids (l ++ (sa, ta') :: r)) /\
  ks_first (kids (l ++ (sa, ta) :: (sb, tb) :: r)) = ks_first (kids (l ++ (sa, ta') :: r)).
Proof.
  intros Hp. split.
  - rewrite !kids_app, !kids_cons, (tail_app_cons _ (_ :: kids r)), (tail_app_cons _ (kids r)), Hp.
    assert (Hl : length (tail (kids l ++ [(sa, page ta)])) = length l) by (rewrite length_tail, length_app, length_kids; cbn; lia).
    rewrite <- Hl at 1. by rewrite delete_middle.
  - rewrite !kids_app, !kids_cons, Hp. by destruct (kids l) as [|[? ?] ?].
Qed.

Lemma pair_entries_set l sa ta ta' sb tb s' tb' r :
  page ta' = page ta -> page tb' = page tb ->
  <[length l := (s', page tb)]> (tail (kids (l ++ (sa, ta) :: (sb, tb) :: r))) = tail (kids (l ++ (sa, ta') :: (s', tb') :: r)) /\
  ks_first (kids (l ++ (sa, ta) :: (sb, tb) :: r)) = ks_first (kids (l ++ (sa, ta') :: (s', tb') :: r)).
Proof.
  intros Hp Hp'. split.
  - rewrite !kids_app, !kids_cons, !(tail_app_cons _ (_ :: kids r)), Hp, Hp'.
    assert (Hl : length (tail (kids l ++ [(sa, page ta)])) = length l) by (rewrite length_tail, length_app, length_kids; cbn; lia).
    rewrite insert_app_r_alt, Hl, Nat.sub_diag by lia. done.
  - rewrite !kids_app, !kids_cons, Hp. by destruct (kids l) as [|[? ?] ?].
Qed.

Lemma shape_near C p cs :
  shape cfg (plug C (TNode p cs)) -> StronglySorted Z.lt (flat (plug C (TNode p cs))) ->
  filled_leaves (leaves (plug C (TNode p cs))) -> near C p cs.
Proof.
  intros Hsh Hs Hf. apply shape_plug in Hsh as [Hsh Hc]. inversion Hsh as [|? ? (H1 & H2 & _) H3]; subst. by split.
Qed.

Lemma near_replace C p l K K' r :
  near C p (l ++ K ++ r) -> same_kids K K' -> K' <> [] -> (length K' <= length K)%nat ->
  Forall (fun c => shape cfg (snd c)) K' -> near C p (l ++ K' ++ r).
Proof.
  intros [H1 H2 H3 H4 H5 H6] Hsk Hne Hlen Hsh. destruct (same_kids_node K K' C p l r Hsk) as (E1 & E2 & _).
  split; try done.
  - by destruct l, K'.
  - unfold count_of in *. rewrite !length_app in *. lia.
  - rewrite !Forall_app in *. tauto.
  - by rewrite E2.
  - by rewrite E1.
Qed.

Lemma near_parent g C n cs : near (g :: C) n cs -> (2 <= length cs)%nat -> near C (f_page g) (frame_kids g (TNode n cs)).
Proof.
  intros Hn Hl. pose proof (near_shape _ _ _ Hn Hl) as Hsh. destruct Hn as [_ _ _ _ H5 H6].
  by apply shape_near.
Qed.

(** Both writes of a merge of the neighbours [na] and [nb] below [p]. *)
Lemma hp_write_merge {A} C p l sa na csa sb nb csb r F m L (k : Prog A) (Q : _ -> _ -> _ -> Prop) :
  let K := [(sa, TNode na csa); (sb, TNode nb csb)] in
  let M := joined csa sb csb in
  L ≡ₚ cells (plug C (TNode p (l ++ K ++ r))) ++ F -> csa <> [] -> csb <> [] ->
  count_of csa + count_of csb <= internal_capacity cfg + 1 ->
  (forall L', L' ≡ₚ cells (plug C (TNode p (l ++ [(sa, TNode na M)] ++ r))) ++ (nb, node_of_kids (kids csb)) :: F -> hp k m L' Q) ->
  forall pf pes, pf = ks_first (kids (l ++ K ++ r)) -> pes = base.delete (length l) (tail (kids (l ++ K ++ r))) ->
  hp (_ ← modify na (write_internal_entries (ks_first (kids csa))
            (tail (kids csa) ++ (sb, ks_first (kids csb)) :: tail (kids csb)));
      _ ← modify p (write_internal_entries pf pes); k) m L Q.
Proof.
  intros K M HL Ha Hb Hcap Hk pf pes -> ->. rewrite cells_plug_kids in HL. unfold K in HL. rewrite !kids_inner_cons, kids_inner_nil in HL.
  rewrite !inner_node, !(node_of_kids_eq (kids _)) in HL. cbn [app] in HL.
  set (X := kids_inner l ++ kids_inner r ++ _) in HL.
  assert (HL1 : L ≡ₚ (na, NInner (ks_first (kids csa)) (tail (kids csa))) ::
     (p, NInner (ks_first (kids (l ++ K ++ r))) (tail (kids (l ++ K ++ r)))) ::
     (nb, NInner (ks_first (kids csb)) (tail (kids csb))) :: kids_inner csa ++ kids_inner csb ++ X ++ F).
  { rewrite HL. unfold K. cbn [app]. solve_Permutation. }
  clear HL. apply (hp_perm _ _ _ _ _ HL1). apply hp_pages. intros _ _ Hok.
  apply Forall_cons in Hok as [[[Hu1 _] Hf1] Hok]. apply Forall_cons in Hok as [[[Hup Hcp] Hfp] Hok].
  apply Forall_cons in Hok as [[[Hu2 _] Hf2] _]. cbn [snd] in *.
  destruct (joined_entries csa sb csb Ha Hb) as [HMe HMf]. fold M in HMe, HMf. rewrite <- HMe, <- HMf.
  destruct (pair_entries_delete l sa (TNode na csa) (TNode na M) sb (TNode nb csb) r eq_refl) as [Hde Hdf].
  change (l ++ (sa, TNode na csa) :: (sb, TNode nb csb) :: r) with (l ++ K ++ r) in *. rewrite Hde, Hdf in *.
  assert (Hsb : in_u64 sb).
  { pose proof (pair_entry l sa (TNode na csa) sb (TNode nb csb) r) as Hlk. apply list_elem_of_lookup_2 in Hlk.
    rewrite Forall_forall in Hup. by destruct (Hup _ Hlk). }
  apply hp_bind. eapply hp_write_internal; [done| |by rewrite HMf|].
  { split.
    - rewrite HMe. apply Forall_app. split; [done|]. by constructor.
    - unfold count_of in *. rewrite length_tail, length_kids. unfold M. rewrite length_joined. lia. }
  intros _. apply hp_bind. eapply (hp_write_internal p); [apply perm_swap| |done|].
  { split; rewrite <- Hde.
    - by apply Forall_delete.
    - unfold count_of in *. rewrite length_delete by (eexists; apply pair_entry). lia. }
  intros _. apply Hk.
  assert (HMi : kids_inner M = kids_inner csa ++ kids_inner csb) by apply joined_inner.
  assert (HMl : kids_leaves M = kids_leaves csa ++ kids_leaves csb) by apply joined_leaves.
  rewrite cells_plug_kids, (kids_inner_cons sa), kids_inner_nil, inner_node, HMi, !(node_of_kids_eq (kids _)).
  rewrite (kids_leaves_cons sa), leaves_node, HMl, kids_leaves_nil. unfold X, K.
  rewrite !kids_leaves_cons, !leaves_node, kids_leaves_nil, !app_nil_r. cbn [app]. solve_Permutation.
Qed.

Lemma rebalanced_from m m' L' T T1 T' F n X X0 ok :
  kept T T1 -> X0 ⊆ X -> rebalanced m m' L' T1 T' F n X ok -> rebalanced m m' L' T T' F n X0 ok.
Proof.
  intros Hk HX [[H1 H2 H3 H4 H5] H6 H7]. split; [|intros c Hf Hc; apply H6; [done|by apply HX]|done].
  split; try done. by eapply kept_trans.
Qed.

Lemma same_kids_kept C p l K K' r :
  same_kids K K' -> StronglySorted Z.lt (flat (plug C (TNode p (l ++ K ++ r)))) ->
  kept (plug C (TNode p (l ++ K ++ r))) (plug C (TNode p (l ++ K' ++ r))).
Proof. intros Hsk Hs. destruct (same_kids_node K K' C p l r Hsk) as (E1 & E2 & E3). split; [done|by rewrite E2|done]. Qed.

Lemma init_path_of C g fr : init_path (path_of (g :: C) ++ [fr]) = path_of C ++ [frame_of g].
Proof.
  unfold init_path. rewrite length_app. cbn [length]. rewrite Nat.add_sub, take_app_length. done.
Qed.

Lemma full_node n cs : (2 <= length cs)%nat -> full_cell (n, node_of_kids (kids cs)).
Proof. destruct cs as [|[? ?] [|[? ?] ?]]; cbn [length]; [lia|lia|]. intros _. rewrite !kids_cons. done. Qed.

Lemma root_page_same C p cs cs' : page (plug C (TNode p cs')) = page (plug C (TNode p cs)).
Proof. apply page_like, ctx_like_refl. Qed.

(** The same writes with [Vec::remove] between them. *)
Lemma hp_write_merge_remove {A} C p l sa na csa sb nb csb r F m L (k : Prog A) (Q : _ -> _ -> _ -> Prop) :
  let K := [(sa, TNode na csa); (sb, TNode nb csb)] in
  L ≡ₚ cells (plug C (TNode p (l ++ K ++ r))) ++ F -> csa <> [] -> csb <> [] ->
  count_of csa + count_of csb <= internal_capacity cfg + 1 ->
  (forall L', L' ≡ₚ cells (plug C (TNode p (l ++ [(sa, TNode na (joined csa sb csb))] ++ r))) ++
                    (nb, node_of_kids (kids csb)) :: F -> hp k m L' Q) ->
  hp (_ ← modify na (write_internal_entries (ks_first (kids csa))
            (tail (kids csa) ++ (sb, ks_first (kids csb)) :: tail (kids csb)));
      pes ← vec_remove (tail (kids (l ++ K ++ r))) (length l);
      _ ← modify p (write_internal_entries (ks_first (kids (l ++ K ++ r))) pes); k) m L Q.
Proof.
  intros K HL Ha Hb Hcap Hk.
  pose proof (hp_write_merge C p l sa na csa sb nb csb r F m L k Q HL Ha Hb Hcap Hk _ _ eq_refl eq_refl) as Hw.
  unfold vec_remove, K. cbn [app]. rewrite pair_entry. exact Hw.
Qed.

(** After the writes of a merge of neighbours: what [hp_after_merge] needs of the new tree. *)
Lemma hp_merged deepest C g n fr l sa na csa sb nb csb r F m L (Q : PoolResult bool -> Meta -> list cell -> Prop) X0 :
  let K := [(sa, TNode na csa); (sb, TNode nb csb)] in
  let K' := [(sa, TNode na (joined csa sb csb))] in
  let T := plug C (TNode (f_page g) (l ++ K ++ r)) in
  deep_spec deepest C -> page_no fr = n -> near C (f_page g) (l ++ K ++ r) -> rooted m T -> (depth T <= fuel)%nat ->
  csa <> [] -> csb <> [] -> count_of csa + count_of csb <= internal_capacity cfg + 1 ->
  n = na \/ (n = nb /\ (2 <= length csb)%nat) -> X0 ⊆ kids_inner csa ++ kids_inner csb ->
  L ≡ₚ cells (plug C (TNode (f_page g) (l ++ K' ++ r))) ++ (nb, node_of_kids (kids csb)) :: F ->
  (forall r m' L' T', r <> Ok false -> rebalanced m m' L' T T' F n X0 (r = Ok true) -> Q r m' L') ->
  hp (_ ← deepest (path_of C ++ [frame_of g]);
      _ ← collapse_and_reclaim fuel (path_of (g :: C) ++ [fr]) [nb]; mret true) m L Q.
Proof.
  intros K K' T Hdeep Hfr Hn [Hr Hh] Hf Ha Hb Hcap Hna HX HL HQ.
  pose proof (same_kids_merge sa na csa sb nb csb Ha Hb) as Hsk. fold K K' in Hsk.
  pose proof (same_kids_kept C (f_page g) l K K' r Hsk (nr_sorted _ _ _ Hn)) as Hkept. fold T in Hkept.
  pose proof Hkept as [_ _ Hdep].
  assert (Hlen : (2 <= length (joined csa sb csb))%nat).
  { rewrite length_joined. destruct csa, csb; cbn; try done; lia. }
  assert (Hks : Forall (fun c => shape cfg (snd c)) K').
  { pose proof (nr_kids _ _ _ Hn) as Hall. apply Forall_app in Hall as [_ Hall]. apply Forall_app in Hall as [HK _].
    unfold K in HK. apply Forall_cons in HK as [HA HB]. apply Forall_cons in HB as [HB _]. cbn [snd] in *.
    inversion HA as [|? ? _ HA']; subst. inversion HB as [|? ? _ HB']; subst. constructor; [|done]. cbn [snd]. constructor.
    - split_and!; [by intros E; rewrite E in Hlen; cbn in Hlen; lia|unfold count_of in *; rewrite length_joined; lia|lia].
    - by apply joined_shape. }
  pose proof (near_replace C (f_page g) l K K' r Hn Hsk ltac:(done) ltac:(cbn; lia) Hks) as Hn'.
  assert (Hin : forall c, c ∈ (na, node_of_kids (kids (joined csa sb csb))) :: kids_inner csa ++ kids_inner csb ->
                c ∈ kids_inner (l ++ K' ++ r)).
  { intros c Hc. unfold K'. autorewrite with btree. rewrite inner_node, joined_inner. rewrite elem_of_app.
    right. rewrite app_nil_r, elem_of_app. by left. }
  eapply (hp_after_merge deepest C g (l ++ K' ++ r) n fr (nb, node_of_kids (kids csb)) F m L); try done.
  - apply shape_plug. split; [|apply Hn']. constructor; [|apply Hn']. split_and!; [apply Hn'|apply Hn'|].
    intros H1. assert (E : l = [] /\ r = []).
    { unfold K' in H1. rewrite !length_app in H1. cbn [length] in H1. destruct l, r; cbn in *; try lia. done. }
    destruct E as [-> ->]. by constructor.
  - split; [rewrite Hr; apply root_page_same|lia].
  - lia.
  - destruct Hna as [->|[-> Hl2]].
    + exists (na, node_of_kids (kids (joined csa sb csb))). split_and!; [by apply full_node|done|left; apply Hin; left].
    + exists (nb, node_of_kids (kids csb)). split_and!; [by apply full_node|done|by right].
  - intros r0 m' L' T' Hne Hrb. apply (HQ _ _ _ T'); [done|]. eapply rebalanced_from; [exact Hkept| |exact Hrb].
    intros c Hc. apply Hin. right. by apply HX.
Qed.

(** ** Rotations *)

Lemma count_tail_kids (ks : children) : ks <> [] -> count_of (tail (kids ks)) = count_of ks - 1.
Proof. intros Hne. unfold count_of. rewrite length_tail, length_kids. destruct ks; [done|cbn; lia]. Qed.

Lemma rotate_left_spec target csb : forall csa sb t,
  csa <> [] -> (length csa <= S target <= length csa + length csb)%nat ->
  exists csa' s' t' csb',
    rotate_left target (tail (kids csa)) (page t) (kids csb) sb = (tail (kids csa'), page t', kids csb', s') /\
    csa ++ (sb, t) :: csb = csa' ++ (s', t') :: csb' /\ ks_first (kids csa') = ks_first (kids csa) /\
    length csa' = S target.
Proof.
  induction csb as [|[p t2] csb IH]; intros csa sb t Hne Hl; rewrite ?kids_nil, ?kids_cons; cbn [rotate_left].
  { exists csa, sb, t, []. rewrite kids_nil. split_and!; try done. cbn in Hl. lia. }
  assert (Hlt : length (tail (kids csa)) = (length csa - 1)%nat) by (by rewrite length_tail, length_kids).
  assert (Hpos : (1 <= length csa)%nat) by (destruct csa; [done|cbn; lia]).
  destruct (Nat.ltb_spec (length (tail (kids csa))) target) as [Hlt2|Hge].
  - destruct (IH (csa ++ [(sb, t)]) p t2) as (csa' & s' & t' & csb' & Hr & Hj & Hf & Hlen).
    { by destruct csa. }
    { rewrite length_app. cbn [length] in *. lia. }
    exists csa', s', t', csb'. split_and!; [|by rewrite <- Hj, <- app_assoc| |done].
    + rewrite <- Hr, kids_app, kids_cons, kids_nil. by destruct csa as [|[? ?] ?]; [done|rewrite kids_cons].
    + rewrite Hf, kids_app. by destruct csa as [|[? ?] ?]; [done|rewrite kids_cons].
  - exists csa, sb, t, ((p, t2) :: csb). rewrite kids_cons. split_and!; try done. lia.
Qed.

Lemma rotate_right_spec target csa : forall csb sb t,
  (1 <= target <= length csa)%nat ->
  exists csa' s' t' csb',
    rotate_right target (reverse (tail (kids csa))) (page t) (kids csb) sb = Ok (tail (kids csa'), page t', kids csb', s') /\
    csa ++ (sb, t) :: csb = csa' ++ (s', t') :: csb' /\ ks_first (kids csa') = ks_first (kids csa) /\
    length csa' = target.
Proof.
  induction csa as [|[k u] csa IH] using rev_ind; intros csb sb t Hl; [cbn in Hl; lia|]. rewrite length_app in Hl. cbn [length] in Hl.
  assert (Hlt : length (reverse (tail (kids (csa ++ [(k, u)])))) = length csa).
  { rewrite length_reverse, length_tail, length_kids, length_app. cbn. lia. }
  assert (Hun : (target <? length (reverse (tail (kids (csa ++ [(k, u)])))) + 1)%nat = (target <? length csa + 1)%nat) by (by rewrite Hlt).
  destruct (Nat.ltb_spec target (length csa + 1)) as [Hlt2|Hge].
  - assert (Hne : csa <> []) by (intros ->; cbn in *; lia).
    assert (Hrev : reverse (tail (kids (csa ++ [(k, u)]))) = (k, page u) :: reverse (tail (kids csa))).
    { destruct csa as [|[? ?] csa]; [done|]. cbn [app]. rewrite !kids_cons. cbn [tail]. rewrite kids_app, kids_cons, kids_nil.
      by rewrite reverse_app. }
    rewrite Hrev in *. cbn [rotate_right]. rewrite Hun. rewrite <- kids_cons.
    destruct (IH ((sb, t) :: csb) k u) as (csa' & s' & t' & csb' & Hr & Hj & Hf & Hlen); [lia|].
    exists csa', s', t', csb'. split_and!; [done|by rewrite <- Hj, <- app_assoc| |done].
    rewrite Hf, kids_app. by destruct csa as [|[? ?] ?]; [done|rewrite kids_cons].
  - exists (csa ++ [(k, u)]), sb, t, csb. split_and!; [|done|done|rewrite length_app; cbn; lia].
    unfold rotate_right. destruct (reverse (tail (kids (csa ++ [(k, u)])))) eqn:E; rewrite Hun, <- E, reverse_involutive; done.
Qed.

(** The three writes of a rotation of the neighbours [na] and [nb] below [p]. *)
Lemma hp_write_rotate C p l sa na csa sb nb csb r csa' s' t' csb' F m L (Q : PoolResult bool -> _ -> _ -> Prop) :
  let K := [(sa, TNode na csa); (sb, TNode nb csb)] in
  let K' := [(sa, TNode na csa'); (s', TNode nb ((0, t') :: csb'))] in
  L ≡ₚ cells (plug C (TNode p (l ++ K ++ r))) ++ F -> csa <> [] -> csb <> [] ->
  joined csa sb csb = csa' ++ (s', t') :: csb' -> csa' <> [] ->
  count_of csa' <= PAGE_ENTRIES + 1 -> count_of csb' <= PAGE_ENTRIES ->
  (forall L', L' ≡ₚ cells (plug C (TNode p (l ++ K' ++ r))) ++ F -> Q (Ok true) m L') ->
  forall af pf pes, af = ks_first (kids csa') -> pf = ks_first (kids (l ++ K ++ r)) ->
    pes = <[length l := (s', nb)]> (tail (kids (l ++ K ++ r))) ->
  hp (_ ← modify na (write_internal_entries af (tail (kids csa')));
      _ ← modify nb (write_internal_entries (page t') (kids csb'));
      _ ← modify p (write_internal_entries pf pes); mret true) m L Q.
Proof.
  intros K K' HL Ha Hb Hj Ha' Hca Hcb HQ af pf pes -> -> ->.
  rewrite cells_plug_kids in HL. unfold K in HL. rewrite !kids_inner_cons, kids_inner_nil in HL.
  rewrite !inner_node, !(node_of_kids_eq (kids _)) in HL. cbn [app] in HL.
  set (X := kids_inner l ++ kids_inner r ++ _) in HL.
  assert (HL1 : L ≡ₚ (na, NInner (ks_first (kids csa)) (tail (kids csa))) ::
     (nb, NInner (ks_first (kids csb)) (tail (kids csb))) ::
     (p, NInner (ks_first (kids (l ++ K ++ r))) (tail (kids (l ++ K ++ r)))) :: kids_inner csa ++ kids_inner csb ++ X ++ F).
  { rewrite HL. unfold K. cbn [app]. solve_Permutation. }
  clear HL. apply (hp_perm _ _ _ _ _ HL1). apply hp_pages. intros _ _ Hok.
  apply Forall_cons in Hok as [[[Hu1 _] Hf1] Hok]. apply Forall_cons in Hok as [[[Hu2 _] Hf2] Hok].
  apply Forall_cons in Hok as [[[Hup Hcp] Hfp] _]. cbn [snd] in *.
  destruct (pair_entries_set l sa (TNode na csa) (TNode na csa') sb (TNode nb csb) s' (TNode nb ((0, t') :: csb')) r eq_refl eq_refl)
    as [Hse Hsf]. cbn [page] in Hse.
  change (l ++ (sa, TNode na csa) :: (sb, TNode nb csb) :: r) with (l ++ K ++ r) in *.
  change (l ++ (sa, TNode na csa') :: (s', TNode nb ((0, t') :: csb')) :: r) with (l ++ K' ++ r) in *.
  assert (Hsb : in_u64 sb).
  { pose proof (pair_entry l sa (TNode na csa) sb (TNode nb csb) r) as Hlk. apply list_elem_of_lookup_2 in Hlk.
    rewrite Forall_forall in Hup. by destruct (Hup _ Hlk). }
  destruct (joined_entries csa sb csb Ha Hb) as [HMe HMf].
  assert (HuM : Forall u64_entry (tail (kids csa') ++ (s', page t') :: kids csb')).
  { assert (E : tail (kids (joined csa sb csb)) = tail (kids csa') ++ (s', page t') :: kids csb').
    { rewrite Hj, kids_app, kids_cons. by destruct csa' as [|[? ?] ?]; [done|rewrite kids_cons]. }
    rewrite <- E, HMe. apply Forall_app. split; [done|]. by constructor. }
  assert (Hfa : ks_first (kids csa') = ks_first (kids csa)).
  { rewrite <- HMf, Hj, kids_app. by destruct csa' as [|[? ?] ?]; [done|rewrite kids_cons]. }
  apply Forall_app in HuM as [Hua Hub]. apply Forall_cons in Hub as [[Hs' Ht'] Hub]. cbn [fst snd] in Hs', Ht'.
  apply hp_bind. eapply hp_write_internal; [done| |by rewrite Hfa|].
  { split; [done|]. rewrite count_tail_kids by done. lia. }
  intros _. apply hp_bind. eapply (hp_write_internal nb); [apply perm_swap| |done|].
  { split; [done|]. unfold count_of in *. by rewrite length_kids. }
  intros _. apply hp_bind. eapply (hp_write_internal p).
  { etrans; [apply perm_skip, perm_swap|]. apply perm_swap. }
  { split; [|unfold count_of in *; by rewrite length_insert]. apply Forall_insert; [done|]. split; [done|].
    pose proof (pair_entry l sa (TNode na csa) sb (TNode nb csb) r) as Hlk. apply list_elem_of_lookup_2 in Hlk.
    rewrite Forall_forall in Hup. by destruct (Hup _ Hlk). }
  { done. }
  intros _. apply hp_mret, HQ. rewrite Hse, Hsf, cells_plug_kids.
  assert (HKi : kids_inner csa ++ kids_inner csb = kids_inner csa' ++ kids_inner ((0, t') :: csb')).
  { rewrite <- (joined_inner csa sb csb), Hj. by autorewrite with btree. }
  assert (HKl : kids_leaves csa ++ kids_leaves csb = kids_leaves csa' ++ kids_leaves ((0, t') :: csb')).
  { rewrite <- (joined_leaves csa sb csb), Hj. by autorewrite with btree. }
  unfold K', X, K. rewrite !(kids_inner_cons sa), !(kids_inner_cons s'), !(kids_leaves_cons sa), !(kids_leaves_cons sb), !(kids_leaves_cons s').
  rewrite !inner_node, !leaves_node, kids_inner_nil, kids_leaves_nil, !app_nil_r, (app_assoc (kids_inner csa)), HKi, HKl, !(node_of_kids_eq (kids _)).
  rewrite (kids_cons 0). cbn [ks_first tail app]. solve_Permutation.
Qed.

Lemma rotated C p n l sa na csa sb nb csb r csa' s' t' csb' F m L' X0 :
  let K := [(sa, TNode na csa); (sb, TNode nb csb)] in
  let K' := [(sa, TNode na csa'); (s', TNode nb ((0, t') :: csb'))] in
  let T := plug C (TNode p (l ++ K ++ r)) in
  near C p (l ++ K ++ r) -> rooted m T -> csa <> [] -> csb <> [] -> joined csa sb csb = csa' ++ (s', t') :: csb' ->
  (2 <= length csa')%nat -> (1 <= length csb')%nat -> count_of csa' <= internal_capacity cfg + 1 ->
  count_of csb' <= internal_capacity cfg -> n = na \/ n = nb -> X0 ⊆ kids_inner csa ++ kids_inner csb ->
  L' ≡ₚ cells (plug C (TNode p (l ++ K' ++ r))) ++ F ->
  rebalanced m m L' T (plug C (TNode p (l ++ K' ++ r))) F n X0 (Ok (E := BufferPoolError) true = Ok true).
Proof.
  intros K K' T Hn [Hr Hh] Ha Hb Hj Hla Hlb Hca Hcb Hnn HX HL'.
  assert (Ha' : csa' <> []) by (intros ->; cbn in Hla; lia).
  pose proof (same_kids_rotate sa na csa sb nb csb csa' s' 0 t' csb' Ha Hb Ha' Hj) as Hsk. fold K K' in Hsk.
  pose proof (same_kids_kept C p l K K' r Hsk (nr_sorted _ _ _ Hn)) as Hkept. fold T in Hkept. pose proof Hkept as [_ _ Hdep].
  assert (Hks : Forall (fun c => shape cfg (snd c)) K').
  { pose proof (nr_kids _ _ _ Hn) as Hall. apply Forall_app in Hall as [_ Hall]. apply Forall_app in Hall as [HK _].
    unfold K in HK. apply Forall_cons in HK as [HA HB]. apply Forall_cons in HB as [HB _]. cbn [snd] in *.
    inversion HA as [|? ? _ HA']; subst. inversion HB as [|? ? _ HB']; subst.
    pose proof (joined_shape csa sb csb HA' HB') as HM. rewrite Hj in HM. apply Forall_app in HM as [HM1 HM2].
    apply Forall_cons in HM2 as [HM2 HM3].
    constructor; [|constructor; [|done]]; cbn [snd]; constructor; try done.
    - split_and!; [done|done|lia].
    - split_and!; [done|unfold count_of in *; cbn [length]; lia|cbn; lia].
    - by constructor. }
  pose proof (near_replace C p l K K' r Hn Hsk ltac:(done) ltac:(cbn; lia) Hks) as Hn'.
  assert (Hin : forall c, c ∈ (na, node_of_kids (kids csa')) :: (nb, node_of_kids (kids ((0, t') :: csb'))) :: kids_inner csa ++ kids_inner csb -> c ∈ L').
  { intros c Hc. rewrite HL', elem_of_app. left. rewrite cells_plug_kids. right. rewrite elem_of_app. left.
    rewrite <- (joined_inner csa sb csb), Hj in Hc. unfold K'. rewrite kids_inner_app, kids_inner_cons in Hc.
    rewrite !kids_inner_cons, !inner_node, kids_inner_cons, kids_inner_nil. revert Hc.
    repeat (rewrite ?elem_of_cons, ?elem_of_app). tauto. }
  split; [split|intros c _ Hc; apply Hin; do 2 right; by apply HX|].
  - by exists [].
  - apply near_shape; [done|]. unfold K'. rewrite !length_app. cbn [length]. lia.
  - done.
  - split; [rewrite Hr; apply root_page_same|lia].
  - apply meta_le_refl.
  - intros _. right. destruct Hnn as [->| ->].
    + exists (na, node_of_kids (kids csa')). split_and!; [by apply full_node|done|apply Hin; left].
    + exists (nb, node_of_kids (kids ((0, t') :: csb'))). split_and!; [apply full_node; cbn; lia|done|apply Hin; right; left].
Qed.

(** What the four repairs of [current] start from. *)
Section Current.
Context (g : frame) (C : list frame) (n : Z) (cs : children) (fr : PathFrame) (F : list cell) (m : Meta) (L : list cell).
Context (Q : PoolResult bool -> Meta -> list cell -> Prop).
Let T := plug (g :: C) (TNode n cs).
Hypothesis Hfr : page_no fr = n.
Hypothesis Hnear : near (g :: C) n cs.
Hypothesis Hlen : (2 <= length cs)%nat.
Hypothesis Hrooted : rooted m T.
Hypothesis Hfuel : (depth T <= fuel)%nat.
Hypothesis HL : L ≡ₚ cells T ++ F.
Hypothesis HQ : deep_post m L T F n (kids_inner cs) Q.

Lemma current_cell : (n, node_of_kids (kids cs)) ∈ L.
Proof. rewrite HL, elem_of_app. left. unfold T. rewrite cells_plug_node. left. Qed.

Lemma parent_cell : (f_page g, node_of_kids (kids (frame_kids g (TNode n cs)))) ∈ L.
Proof. rewrite HL, elem_of_app. left. unfold T. cbn [plug]. unfold plug1. rewrite cells_plug_node. left. Qed.

Lemma current_shape : shape cfg T.
Proof. by apply near_shape. Qed.

Lemma sibling_cell l sb nb csb r :
  frame_kids g (TNode n cs) = l ++ (sb, TNode nb csb) :: r -> (nb, node_of_kids (kids csb)) ∈ L /\ csb <> [].
Proof.
  intros Heq. split.
  - rewrite HL, elem_of_app. left. unfold T. cbn [plug]. unfold plug1. rewrite Heq, cells_plug_node. autorewrite with btree.
    rewrite inner_node, elem_of_cons, !elem_of_app, elem_of_cons. tauto.
  - pose proof (near_parent _ _ _ _ Hnear Hlen) as Hn. pose proof (nr_kids _ _ _ Hn) as Hall. rewrite Heq in Hall.
    apply Forall_app in Hall as [_ Hall]. apply Forall_cons in Hall as [Hs _]. by inversion Hs as [|? ? (? & _) _].
Qed.

Lemma sibling_leaf l sb nb es r :
  frame_kids g (TNode n cs) = l ++ (sb, TLeaf nb es) :: r -> exists x, (nb, NLeaf es x) ∈ L.
Proof.
  intros Heq. eexists. rewrite HL, elem_of_app. left. unfold T. cbn [plug]. unfold plug1. rewrite Heq.
  exact (leaf_in_cells ({| f_page := f_page g; f_left := l; f_sep := sb; f_right := r |} :: C) nb es).
Qed.

(** A repair that does nothing, or that fails before its first write. *)
Lemma unchanged_false : Q (Ok false) m L.
Proof. by apply HQ. Qed.

Lemma unchanged_error e : Q (Err e) m L.
Proof.
  apply (proj2 HQ (Err e) m L T); [done|]. split; [|intros c Hf Hc|done].
  - apply repaired_refl; [done|apply current_shape|apply Hnear|done].
  - rewrite HL, elem_of_app. left. unfold T. rewrite cells_plug_node. right. rewrite elem_of_app. by left.
Qed.

Lemma current_ne : cs <> [].
Proof. apply Hnear. Qed.

Lemma hp_merge_right deepest :
  deep_spec deepest C ->
  hp (try_merge_internal_with_right_sibling cfg fuel deepest fr (frame_of g) (path_of (g :: C) ++ [fr])) m L Q.
Proof.
  intros Hdeep. unfold try_merge_internal_with_right_sibling. cbn [frame_of page_no child_slot].
  apply hp_bind. eapply hp_read_node; [exact parent_cell|]. cbn beta iota.
  pose proof current_ne as Hne. pose proof (near_parent _ _ _ _ Hnear Hlen) as Hn.
  destruct (f_right g) as [|[sb tb] r] eqn:Er.
  { rewrite lookup_ge_None_2; [apply hp_mret, unchanged_false|]. unfold frame_kids. rewrite Er.
    rewrite length_tail, length_kids, length_app. cbn. lia. }
  assert (Heq : frame_kids g (TNode n cs) = f_left g ++ [(f_sep g, TNode n cs); (sb, tb)] ++ r) by (unfold frame_kids; by rewrite Er).
  assert (Heq2 : frame_kids g (TNode n cs) = (f_left g ++ [(f_sep g, TNode n cs)]) ++ (sb, tb) :: r) by (by rewrite Heq, <- app_assoc).
  rewrite Heq. cbn [app]. rewrite pair_entry. rewrite Hfr. apply hp_bind. eapply hp_read_node; [exact current_cell|]. cbn beta iota.
  destruct tb as [nb es|nb csb]; cbn [page].
  { destruct (sibling_leaf _ _ _ _ _ Heq2) as [x Hx]. apply hp_bind. eapply hp_read_internal_leaf; [exact Hx|].
    apply unchanged_error. }
  destruct (sibling_cell _ _ _ _ _ Heq2) as [Hcell Hneb]. apply hp_bind. eapply hp_read_node; [exact Hcell|]. cbn beta iota.
  rewrite !count_tail_kids by done.
  destruct (Z.ltb_spec (internal_capacity cfg) (count_of cs - 1 + 1 + (count_of csb - 1))); [apply hp_mret, unchanged_false|].
  assert (HT : T = plug C (TNode (f_page g) (f_left g ++ [(f_sep g, TNode n cs); (sb, TNode nb csb)] ++ r))).
  { unfold T. cbn [plug]. unfold plug1. by rewrite Heq. }
  rewrite Heq in Hn. rewrite init_path_of.
  eapply (hp_write_merge C (f_page g) (f_left g) (f_sep g) n cs sb nb csb r F); [by rewrite <- HT|done|done|lia| |done|done].
  intros L1 HL1. eapply (hp_merged deepest C g n fr (f_left g) (f_sep g) n cs sb nb csb r F m L1 Q (kids_inner cs)); try done.
  - by rewrite <- HT.
  - by rewrite <- HT.
  - lia.
  - by left.
  - intros c Hc. rewrite elem_of_app. by left.
  - rewrite <- HT. apply (proj2 HQ).
Qed.

(** The left neighbour of [current] in the parent. *)
Lemma hp_merge_left deepest :
  deep_spec deepest C ->
  hp (try_merge_internal_with_left_sibling cfg fuel deepest fr (frame_of g) (path_of (g :: C) ++ [fr])) m L Q.
Proof.
  intros Hdeep. unfold try_merge_internal_with_left_sibling. cbn [frame_of page_no child_slot].
  pose proof current_ne as Hne. pose proof (near_parent _ _ _ _ Hnear Hlen) as Hn.
  destruct (length (f_left g)) as [|i] eqn:El; [apply hp_mret, unchanged_false|].
  apply hp_bind. eapply hp_read_node; [exact parent_cell|]. cbn beta iota.
  destruct (left_split g (TNode n cs) i El) as (l & sa & ta & Hl & Hli & Hsib & Heq). rewrite Hsib. rewrite Heq in *.
  destruct ta as [na es|na csa]; cbn [page].
  { destruct (sibling_leaf _ _ _ _ _ Heq) as [x Hx]. apply hp_bind. eapply hp_read_internal_leaf; [exact Hx|].
    apply unchanged_error. }
  destruct (sibling_cell _ _ _ _ _ Heq) as [Hcell Hnea]. apply hp_bind. eapply hp_read_node; [exact Hcell|]. cbn beta iota.
  rewrite Hfr. apply hp_bind. eapply hp_read_node; [exact current_cell|]. cbn beta iota. rewrite !count_tail_kids by done.
  destruct (Z.ltb_spec (internal_capacity cfg) (count_of csa - 1 + 1 + (count_of cs - 1))); [apply hp_mret, unchanged_false|].
  assert (HT : T = plug C (TNode (f_page g) (l ++ [(sa, TNode na csa); (f_sep g, TNode n cs)] ++ f_right g))).
  { unfold T. cbn [plug]. unfold plug1. by rewrite Heq. }
  assert (Hentry : tail (kids (l ++ [(sa, TNode na csa); (f_sep g, TNode n cs)] ++ f_right g)) !! i = Some (f_sep g, n)).
  { rewrite <- Hli. apply pair_entry. }
  apply hp_bind. eapply hp_at_index; [exact Hentry|]. cbn beta iota. rewrite init_path_of.
  rewrite <- Hli.
  eapply (hp_write_merge_remove C (f_page g) l sa na csa (f_sep g) n cs (f_right g) F); [by rewrite <- HT|done|done|lia|].
  intros L1 HL1.
  eapply (hp_merged deepest C g n fr l sa na csa (f_sep g) n cs (f_right g) F m L1 Q (kids_inner cs)); try done.
  - by rewrite <- HT.
  - by rewrite <- HT.
  - lia.
  - by right.
  - intros c Hc. rewrite elem_of_app. by right.
  - rewrite <- HT. apply (proj2 HQ).
Qed.

Lemma kid_bounds l K r p : near C p (l ++ K ++ r) -> forall s nb csb, (s, TNode nb csb) ∈ K -> count_of csb <= internal_capacity cfg + 1.
Proof.
  intros Hn s nb csb Hin. pose proof (nr_kids _ _ _ Hn) as Hall. rewrite Forall_forall in Hall.
  specialize (Hall (s, TNode nb csb) ltac:(rewrite !elem_of_app; tauto)). by inversion Hall as [|? ? (_ & ? & _) _].
Qed.

Lemma hp_rotate_right : hp (try_redistribute_internal_with_right_sibling fr (frame_of g)) m L Q.
Proof.
  unfold try_redistribute_internal_with_right_sibling. cbn [frame_of page_no child_slot].
  apply hp_bind. eapply hp_read_node; [exact parent_cell|]. cbn beta iota.
  pose proof current_ne as Hne. pose proof (near_parent _ _ _ _ Hnear Hlen) as Hn.
  destruct (f_right g) as [|[sb tb] r] eqn:Er.
  { rewrite lookup_ge_None_2; [apply hp_mret, unchanged_false|]. unfold frame_kids. rewrite Er.
    rewrite length_tail, length_kids, length_app. cbn. lia. }
  assert (Heq : frame_kids g (TNode n cs) = f_left g ++ [(f_sep g, TNode n cs); (sb, tb)] ++ r) by (unfold frame_kids; by rewrite Er).
  assert (Heq2 : frame_kids g (TNode n cs) = (f_left g ++ [(f_sep g, TNode n cs)]) ++ (sb, tb) :: r) by (by rewrite Heq, <- app_assoc).
  rewrite Heq. cbn [app]. rewrite pair_entry. rewrite Hfr. apply hp_bind. eapply hp_read_node; [exact current_cell|]. cbn beta iota.
  destruct tb as [nb es|nb csb]; cbn [page].
  { destruct (sibling_leaf _ _ _ _ _ Heq2) as [x Hx]. apply hp_bind. eapply hp_read_internal_leaf; [exact Hx|].
    apply unchanged_error. }
  destruct (sibling_cell _ _ _ _ _ Heq2) as [Hcell Hneb]. apply hp_bind. eapply hp_read_node; [exact Hcell|]. cbn beta iota.
  case_bool_decide as Hempty; [apply hp_mret, unchanged_false|]. cbv zeta. rewrite !length_tail, !length_kids.
  destruct csb as [|[x t] csb]; [done|]. rewrite kids_cons in *. cbn [tail ks_first length] in *.
  assert (Hb1 : (1 <= length csb)%nat) by (destruct csb; [by rewrite kids_nil in Hempty|cbn; lia]).
  set (total := (length cs - 1 + 1 + (S (length csb) - 1) + 1)%nat).
  assert (Htot : total = (length cs + S (length csb))%nat) by (unfold total; lia).
  pose proof (Nat.div_mod_eq total 2). pose proof (Nat.mod_upper_bound total 2 ltac:(lia)).
  destruct (Nat.leb_spec (total / 2 - 1) (length cs - 1)) as [Hle|Hgt]; [apply hp_mret, unchanged_false|].
  destruct (rotate_left_spec (total / 2 - 1) csb cs sb t Hne) as (csa' & s' & t' & csb' & -> & Hj & Hf & Hl'); [lia|].
  assert (HT : T = plug C (TNode (f_page g) (f_left g ++ [(f_sep g, TNode n cs); (sb, TNode nb ((x, t) :: csb))] ++ r))).
  { unfold T. cbn [plug]. unfold plug1. by rewrite Heq. }
  rewrite Heq in Hn. assert (Hj' : joined cs sb ((x, t) :: csb) = csa' ++ (s', t') :: csb') by done.
  pose proof (kid_bounds _ _ _ _ Hn (f_sep g) n cs ltac:(left)) as Hc1.
  pose proof (kid_bounds _ _ _ _ Hn sb nb ((x, t) :: csb) ltac:(right; left)) as Hc2.
  assert (Hsum : (length csa' + S (length csb') = length cs + S (length csb))%nat).
  { apply (f_equal length) in Hj. rewrite !length_app in Hj. cbn [length] in Hj. lia. }
  unfold count_of in *. cbn [length] in *.
  eapply (hp_write_rotate C (f_page g) (f_left g) (f_sep g) n cs sb nb ((x, t) :: csb) r csa' s' t' csb' F);
    try done; [by rewrite <- HT|by intros ->; cbn [length] in Hl'; lia|unfold count_of; lia|unfold count_of; lia|].
  intros L1 HL1. eapply (proj2 HQ); [done|]. rewrite HT.
  eapply (rotated C (f_page g) n (f_left g) (f_sep g) n cs sb nb ((x, t) :: csb) r csa' s' t' csb'); try done;
    [by rewrite <- HT|lia|lia|unfold count_of; lia|unfold count_of; lia|by left|].
  intros c Hc. rewrite elem_of_app. by left.
Qed.

Lemma hp_rotate_left : hp (try_redistribute_internal_with_left_sibling fr (frame_of g)) m L Q.
Proof.
  unfold try_redistribute_internal_with_left_sibling. cbn [frame_of page_no child_slot].
  pose proof current_ne as Hne. pose proof (near_parent _ _ _ _ Hnear Hlen) as Hn.
  destruct (length (f_left g)) as [|i] eqn:El; [apply hp_mret, unchanged_false|].
  apply hp_bind. eapply hp_read_node; [exact parent_cell|]. cbn beta iota.
  destruct (left_split g (TNode n cs) i El) as (l & sa & ta & Hl & Hli & Hsib & Heq). rewrite Hsib. rewrite Heq in *.
  destruct ta as [na es|na csa]; cbn [page].
  { destruct (sibling_leaf _ _ _ _ _ Heq) as [x Hx]. apply hp_bind. eapply hp_read_internal_leaf; [exact Hx|].
    apply unchanged_error. }
  destruct (sibling_cell _ _ _ _ _ Heq) as [Hcell Hnea]. apply hp_bind. eapply hp_read_node; [exact Hcell|]. cbn beta iota.
  rewrite Hfr. apply hp_bind. eapply hp_read_node; [exact current_cell|]. cbn beta iota.
  case_bool_decide as Hempty; [apply hp_mret, unchanged_false|]. cbv zeta. rewrite !length_tail, !length_kids.
  assert (Ha1 : (1 <= length csa)%nat) by (destruct csa; [done|cbn; lia]).
  set (total := (length csa - 1 + 1 + (length cs - 1) + 1)%nat).
  assert (Htot : total = (length csa + length cs)%nat) by (unfold total; lia).
  pose proof (Nat.div_mod_eq total 2). pose proof (Nat.mod_upper_bound total 2 ltac:(lia)).
  destruct (Nat.ltb_spec (length csa - 1) (total / 2)) as [Hlt|Hge]; [apply hp_mret, unchanged_false|].
  assert (HT : T = plug C (TNode (f_page g) (l ++ [(sa, TNode na csa); (f_sep g, TNode n cs)] ++ f_right g))).
  { unfold T. cbn [plug]. unfold plug1. by rewrite Heq. }
  assert (Hentry : tail (kids (l ++ [(sa, TNode na csa); (f_sep g, TNode n cs)] ++ f_right g)) !! i = Some (f_sep g, n)).
  { rewrite <- Hli. apply pair_entry. }
  apply hp_bind. eapply hp_at_index; [exact Hentry|]. cbn beta iota.
  destruct cs as [|[x t] csb] eqn:Ecs; [done|]. rewrite (kids_cons x) at 1 2. cbn [tail ks_first].
  destruct (rotate_right_spec (total / 2) csa csb (f_sep g) t) as (csa' & s' & t' & csb' & -> & Hj & Hf & Hl'); [lia|].
  apply hp_bind, hp_ret. cbn beta iota.
  assert (Hj' : joined csa (f_sep g) ((x, t) :: csb) = csa' ++ (s', t') :: csb') by done.
  pose proof (kid_bounds _ _ _ _ Hn sa na csa ltac:(left)) as Hc1.
  pose proof (kid_bounds _ _ _ _ Hn (f_sep g) n ((x, t) :: csb) ltac:(right; left)) as Hc2.
  assert (Hsum : (length csa' + S (length csb') = length csa + S (length csb))%nat).
  { apply (f_equal length) in Hj. rewrite !length_app in Hj. cbn [length] in Hj. lia. }
  unfold count_of in *. cbn [length] in *. unfold set_key. rewrite Hentry. cbn [at_index mbind Prog_bind mret Prog_ret snd].
  rewrite <- Hli, <- Hf.
  eapply (hp_write_rotate C (f_page g) l sa na csa (f_sep g) n ((x, t) :: csb) (f_right g) csa' s' t' csb' F);
    try done; [by rewrite <- HT|by intros ->; cbn [length] in Hl'; lia|unfold count_of; lia|unfold count_of; lia|].
  intros L1 HL1. eapply (proj2 HQ); [done|]. rewrite HT.
  eapply (rotated C (f_page g) n l sa na csa (f_sep g) n ((x, t) :: csb) (f_right g) csa' s' t' csb'); try done;
    [by rewrite <- HT|lia|lia|unfold count_of; lia|unfold count_of; lia|by right|].
  intros c Hc. rewrite elem_of_app. by right.
Qed.

End Current.

(** A repair that left everything as it was is followed by the next one. *)
Lemma deep_post_next (p : bool -> Prog bool) m L T F n X (Q : _ -> _ -> _ -> Prop) :
  p true = mret true -> (forall L', L' ≡ₚ L -> hp (p false) m L' Q) -> deep_post m L T F n X Q ->
  deep_post m L T F n X (fun r m' L' => match r with Ok b => hp (p b) m' L' Q | Err e => Q (Err e) m' L' end).
Proof.
  intros Hp Hf [_ HQ]. split; [done|]. intros r m' L' T' Hne Hrb. destruct r as [b|e]; [|by apply (HQ _ _ _ T')].
  destruct b; [|done]. rewrite Hp. apply hp_mret. by apply (HQ _ _ _ T').
Qed.

Lemma deep_post_perm m L L' T F n X Q : L' ≡ₚ L -> deep_post m L T F n X Q -> deep_post m L' T F n X Q.
Proof. intros HL [H1 H2]. split; [|done]. intros L2 HL2. apply H1. by rewrite HL2. Qed.

Lemma deep_spec_redistribute C : deep_spec (redistribute_deepest cfg fuel (S (length C))) C.
Proof.
  induction C as [|g C IH]; intros n cs fr F m L Q Hfr Hnear Hro Hfu HL HQ.
  { cbn. apply hp_mret. by apply HQ. }
  cbn [length redistribute_deepest]. apply hp_bind.
  eapply hp_at_index; [exact (path_lookup (g :: C) fr [])|]. apply hp_bind.
  eapply hp_at_index.
  { cbn [path_of]. rewrite <- app_assoc. cbn [app]. rewrite Nat.sub_succ, Nat.sub_0_r. exact (path_lookup C (frame_of g) [fr]). }
  rewrite Hfr. apply hp_bind. eapply hp_read_node; [rewrite HL, elem_of_app; left; rewrite cells_plug_node; left|]. cbn beta iota.
  assert (Hunch : hp (mret false) m L Q) by (apply hp_mret; by apply HQ).
  destruct (ks_first (kids cs) =? NO_PAGE); cbn [orb]; [done|]. case_bool_decide as Hemp; [done|].
  destruct (min_internal_entries cfg <=? count_of (tail (kids cs))); [done|].
  assert (Hlen : (2 <= length cs)%nat).
  { destruct cs as [|[? ?] [|[? ?] ?]]; rewrite ?kids_cons, ?kids_nil in Hemp; cbn in *; done || lia. }
  apply hp_bind. apply (hp_merge_right g C n cs fr F); try done. apply deep_post_next; [done| |done].
  intros L1 HL1. apply hp_bind. apply (hp_merge_left g C n cs fr F); try done; [by rewrite HL1|].
  apply deep_post_next; [done| |by eapply deep_post_perm].
  intros L2 HL2. rewrite HL1 in HL2. apply hp_bind. apply (hp_rotate_right g C n cs fr F); try done; [by rewrite HL2|].
  apply deep_post_next; [done| |by eapply deep_post_perm].
  intros L3 HL3. rewrite HL2 in HL3. apply (hp_rotate_left g C n cs fr F); try done; [by rewrite HL3|by eapply deep_post_perm].
Qed.

End Repair.

End Repairing.
