(* ===== verification/BTreeDelete.v ===== *)
(** * Deletion from the disk B+tree

    [delete] removes the entry from its leaf and then repairs the tree: an empty leaf is
    unlinked from the chain and from its parent, a small one is merged with a neighbour
    or takes entries from it, and [BTreeRepair] does the rest.  Whatever the repairs
    return, the relation holds a well-formed tree without the key and with every other
    entry; on trees of at most two levels they return no error. *)

From S2P Require Import Prelude.
From S2P Require Import Bytes.
From S2P Require Import PageBytes.
From S2P Require Import PoolPage.
From S2P Require Import ClockSweep.
From S2P Require Import BufferPool.
From S2P Require Import BTreePage.
From S2P Require Import PageProg.
From S2P Require Import DiskBTree.
From S2P Require Import BTreeMaintenance.
From S2P Require Import BTreeState.
From S2P Require Import BTreeShape.
From S2P Require Import BTreeRead.
From S2P Require Import BTreeInsert.
From S2P Require Import BTreeRepair.

Section Deleting.
Context {PL : PageLimit}.

Lemma StronglySorted_sublist {A} (R : A -> A -> Prop) l l' :
  l' `sublist_of` l -> StronglySorted R l -> StronglySorted R l'.
Proof.
  induction 1 as [|x l' l Hsub IH|x l' l Hsub IH]; [done| |]; inversion 1 as [|? ? Hs Hall]; subst; [|by apply IH].
  constructor; [by apply IH|]. rewrite Forall_forall in *. intros y Hy. apply Hall.
  by eapply elem_of_submseteq, sublist_submseteq.
Qed.

Lemma sorted_add_sep A k Y :
  StronglySorted Z.lt (A ++ 2 * k + 1 :: Y) -> (forall y, y ∈ A -> y <> 2 * k) -> StronglySorted Z.lt (A ++ 2 * k :: 2 * k + 1 :: Y).
Proof.
  intros Hs Hn. apply StronglySorted_app in Hs as (Hc & HA & HY). apply StronglySorted_app. split_and!; [|done|].
  - intros y z Hy Hz. pose proof (Hc y (2 * k + 1) Hy ltac:(left)). specialize (Hn y Hy).
    apply elem_of_cons in Hz as [->|Hz]; [lia|by apply Hc].
  - constructor; [done|]. constructor; [lia|]. inversion HY as [|? ? _ Hall]; subst. eapply Forall_impl; [exact Hall|]. cbn. lia.
Qed.

(** ** The chain of leaves *)

Lemma chain_middle ls1 n es ls2 r :
  chain (ls1 ++ (n, es) :: ls2) r ≡ₚ (n, NLeaf es (head_or ls2.*1 r)) :: chain ls1 n ++ chain ls2 r.
Proof. rewrite chain_app. cbn [chain fmap list_fmap fst head_or]. by rewrite Permutation_middle. Qed.

Lemma chain_last ls n es r : chain (ls ++ [(n, es)]) r ≡ₚ (n, NLeaf es r) :: chain ls n.
Proof. rewrite chain_middle. cbn. by rewrite app_nil_r. Qed.

Lemma hp_assoc {A B D} (p : Prog A) (f : A -> Prog B) (g : B -> Prog D) m L Q :
  hp ((p ≫= f) ≫= g) m L Q -> hp (p ≫= fun a => f a ≫= g) m L Q.
Proof.
  intros Hp s Hs. specialize (Hp s Hs). unfold wp in *. rewrite !run_bind in *.
  destruct (run p s) as [[[a|e] s']|]; [|done|done]. by rewrite run_bind.
Qed.

Definition remove_entry (key : Z) (es : list (Z * Z)) : list (Z * Z) := filter (fun e => fst e <> key) es.

Lemma remove_entry_other key es : (forall e, e ∈ es -> fst e <> key) -> remove_entry key es = es.
Proof.
  unfold remove_entry. induction es as [|e es IH]; intros Hes; [done|]. rewrite filter_cons_True by (apply Hes; left).
  f_equal. apply IH. intros e' He'. apply Hes. by right.
Qed.

Lemma remove_entry_app key A B : remove_entry key (A ++ B) = remove_entry key A ++ remove_entry key B.
Proof. apply filter_app. Qed.

Lemma remove_entry_middle key v A B :
  sorted_entries (A ++ (key, v) :: B) -> remove_entry key (A ++ (key, v) :: B) = A ++ B.
Proof.
  intros Hs. apply sorted_entries_app in Hs as (_ & HB & Hab). apply sorted_entries_cons in HB as [_ HB]. rewrite remove_entry_app.
  unfold remove_entry at 2. rewrite filter_cons_False by (cbn; tauto). fold (remove_entry key B).
  rewrite !remove_entry_other; [done| |].
  - intros e He. specialize (HB e He). cbn in HB. lia.
  - intros e He. specialize (Hab e (key, v) He ltac:(left)). cbn in Hab. lia.
Qed.

Lemma remove_entry_absent key es : sorted_entries es -> entry_value es key = None -> remove_entry key es = es.
Proof.
  intros Hs Hn. unfold entry_value in Hn. destruct (binary_search es key) as [i|i] eqn:E.
  - destruct (binary_search_Ok _ _ _ E) as (v & A & B & -> & <- & _). by rewrite list_lookup_middle in Hn.
  - destruct (binary_search_Err _ _ _ E Hs) as (A & B & -> & _ & HA & HB). apply remove_entry_other.
    intros e [He|He]%elem_of_app; [specialize (HA _ He)|specialize (HB _ He)]; lia.
Qed.

Section Delete.
Context (cfg : DiskBTreeConfig) (fuel : nat).
Hypothesis Hleaf : 1 <= leaf_capacity cfg <= PAGE_ENTRIES.
Hypothesis Hinner : 2 <= internal_capacity cfg <= PAGE_ENTRIES.

Lemma hp_previous_leaf_loop m L : forall fu ls0 ls1 n es ls2 page prev (Q : _ -> _ -> _ -> Prop),
  chain (ls0 ++ ls1 ++ (n, es) :: ls2) NO_PAGE ⊆ L -> NoDup (ls0 ++ ls1 ++ (n, es) :: ls2).*1 ->
  (length ls1 < fu)%nat -> page = head_or ls1.*1 n -> prev = last ls0.*1 ->
  Q (Ok (last (ls0 ++ ls1).*1)) m L -> hp (previous_leaf_loop fu n page prev) m L Q.
Proof.
  induction fu as [|fu IH]; intros ls0 ls1 n es ls2 page prev Q Hc Hnd Hf -> -> HQ; [lia|]. cbn [previous_leaf_loop].
  apply hp_pages. intros _ Hpo _. destruct ls1 as [|[n1 es1] ls1]; cbn [fmap list_fmap fst head_or].
  - pose proof (chain_page_ok m L _ Hc ls0 n es ls2 eq_refl Hpo). rewrite (proj2 (Z.eqb_neq _ _)), Z.eqb_refl by lia.
    rewrite app_nil_r in HQ. by apply hp_mret.
  - pose proof (chain_page_ok m L _ Hc ls0 n1 es1 (ls1 ++ (n, es) :: ls2) eq_refl Hpo). rewrite (proj2 (Z.eqb_neq _ _)) by lia.
    assert (Hne : n1 <> n).
    { rewrite fmap_app in Hnd. apply NoDup_app in Hnd as (_ & _ & Hnd). cbn [app] in Hnd. rewrite fmap_cons in Hnd.
      apply NoDup_cons in Hnd as [Hni _]. cbn [fst] in Hni. intros ->. apply Hni. rewrite fmap_app, elem_of_app. right. left. }
    rewrite (proj2 (Z.eqb_neq _ _)) by done. apply hp_bind.
    eapply hp_fetch; [exact (chain_cell L _ Hc ls0 n1 es1 (ls1 ++ (n, es) :: ls2) eq_refl)|]. intros d Hd.
    rewrite (read_right_sibling_of _ _ _ Hd).
    eapply (IH (ls0 ++ [(n1, es1)]) ls1 n es ls2); try (by rewrite <- app_assoc); [cbn in Hf; lia| |].
    + rewrite fmap_app, head_or_app. done.
    + rewrite fmap_app. cbn. by rewrite last_snoc.
Qed.

(** ** After the leaf *)

(** The common end of the leaf repairs: [p], a page of the path's end, lost a child. *)
Lemma hp_finish C p cs fr rc F m L (Q : PoolResult unit -> Meta -> list cell -> Prop) :
  let T := plug C (TNode p cs) in
  page_no fr = p -> near cfg C p cs -> rooted m T -> (depth T <= fuel)%nat -> L ≡ₚ cells T ++ rc :: F ->
  (forall r m' L' T', repaired cfg m m' L' T T' F -> (C = [] -> r = Ok tt) -> Q r m' L') ->
  hp (_ ← try_redistribute_deepest_internal cfg fuel (path_of C ++ [fr]);
      collapse_and_reclaim fuel (path_of C ++ [fr]) [fst rc]) m L Q.
Proof.
  intros T Hfr Hn Hro Hfu HL HQ. unfold try_redistribute_deepest_internal. rewrite length_app, length_path_of, Nat.add_1_r.
  assert (Hup : forall L', L' ≡ₚ L -> hp (collapse_and_reclaim fuel (path_of C ++ [fr]) [rc].*1) m L' Q).
  { intros L' HL'. eapply (hp_collapse_path cfg Hinner fuel C p cs fr [rc] F); try done; [by rewrite HL'|].
    intros m' L2 T' Hr. by apply (HQ _ _ _ T'). }
  destruct C as [|g C]; [by apply hp_bind, hp_mret, Hup|]. apply hp_bind.
  eapply (deep_spec_redistribute cfg Hinner fuel (g :: C) p cs fr (rc :: F)); try done. split; [exact Hup|].
  intros r m1 L1 T1 Hne [Hr1 _ Hset]. destruct r as [[]|e]; [|done|]; last first.
  { apply (HQ _ _ _ T1); [by eapply repaired_drop|done]. }
  pose proof Hr1 as [[D HD] Hsh1 [_ Hso Hdep] Hro1 _].
  eapply (hp_collapse_settled cfg Hinner fuel _ p fr T1 [rc] (D ++ F)); try done; [by apply Hset|rewrite HD; solve_Permutation|exact (Nat.le_trans _ _ _ Hdep Hfu)| |].
  - intros m2 L2 T2 _ Hr2 _ _. apply (HQ _ _ _ T2); [|done]. eapply repaired_trans; [by eapply repaired_drop|done].
  - intros _ _. apply (HQ _ _ _ T1); [by eapply repaired_drop|done].
Qed.

(** What is left of [delete] after a leaf repair with the result [r]: a well-formed tree
    with the same contents. *)
Record safe {A} (m m' : Meta) (L' : list cell) (T T' : tree) (r : PoolResult A) : Prop := {
  sf_cells : exists D, L' ≡ₚ cells T' ++ D;
  sf_ok : tree_ok cfg T';
  sf_rooted : rooted m' T';
  sf_contents : contents T' = contents T;
  sf_meta : meta_le m m';
  sf_depth : (depth T' <= depth T)%nat;
  sf_small : (depth T <= 2)%nat -> is_ok r = true }.

Lemma repaired_safe {A} m m' L' T T1 T' (r : PoolResult A) :
  repaired cfg m m' L' T1 T' [] -> filled_leaves (leaves T1) -> contents T1 = contents T -> (depth T1 <= depth T)%nat ->
  ((depth T <= 2)%nat -> is_ok r = true) -> safe m m' L' T T' r.
Proof.
  intros [[D HD] Hsh [Hl Hs Hd] Hr Hm] Hf Hc Hdep Hsm. split; try done.
  - exists D. by rewrite app_nil_r in HD.
  - split; [done|done|]. right. by rewrite Hl.
  - rewrite <- Hc. unfold contents. by rewrite Hl.
  - lia.
Qed.

Lemma safe_refl {A} m L T (r : PoolResult A) :
  L ≡ₚ cells T -> tree_ok cfg T -> rooted m T -> ((depth T <= 2)%nat -> is_ok r = true) -> safe m m L T T r.
Proof. intros HL Hok Hr Hres. split; try done. exists []. by rewrite app_nil_r. Qed.

(** ** An empty leaf *)

Section Empty.
Context (f : frame) (C : list frame) (n : Z) (m : Meta) (L : list cell).
Let T := plug (f :: C) (TLeaf n []).
Hypothesis Hctx : ctx_shape cfg (f :: C) true.
Hypothesis Hsorted : StronglySorted Z.lt (flat T).
Hypothesis Hfl : filled_leaves (lleaves (f :: C)).
Hypothesis Hfr : filled_leaves (rleaves (f :: C)).
Hypothesis Hrooted : rooted m T.
Hypothesis Hfuel : (depth T <= fuel)%nat.
Hypothesis Hfuel2 : (length (leaves T) <= fuel)%nat.

Let cs := f_left f ++ f_right f.
Let T1 := plug C (TNode (f_page f) cs).

Lemma empty_leaves : leaves T1 = lleaves (f :: C) ++ rleaves (f :: C).
Proof.
  unfold T1, cs. rewrite leaves_plug, leaves_node. autorewrite with btree. cbn [lleaves rleaves]. by rewrite <- !app_assoc.
Qed.

Lemma empty_contents : contents T1 = contents T.
Proof.
  unfold contents. rewrite empty_leaves. unfold T. rewrite leaves_plug. cbn [leaves app].
  by rewrite !fmap_app, !concat_app.
Qed.

Lemma empty_depth : (depth T1 <= depth T)%nat.
Proof.
  unfold T1, T, cs. cbn [plug]. apply depth_plug_mono. unfold plug1, frame_kids. rewrite !depth_node. autorewrite with btree. lia.
Qed.

Lemma empty_near : near cfg C (f_page f) cs.
Proof.
  pose proof Hctx as (Hc & Hl & Hr & Hone & HC).
  assert (Hne : cs <> []).
  { unfold cs. intros E. apply app_eq_nil in E as [E1 E2]. by specialize (Hone E1 E2). }
  split; [done| | |done| |].
  - unfold cs, count_of in *. rewrite length_app. lia.
  - by apply Forall_app.
  - eapply StronglySorted_sublist; [|exact Hsorted]. unfold T. cbn [plug]. rewrite !flat_plug. apply sublist_app; [done|].
    apply sublist_app; [|done]. rewrite flat_plug1, flat_node. unfold cs, lflat1. rewrite kids_flat_app. cbn [flat map app].
    destruct (f_left f) as [|[s0 t0] l].
    + rewrite kids_flat_nil. cbn [app]. destruct (f_right f) as [|[s1 t1] r]; [done|]. rewrite kids_flat_cons. cbn [tail]. by apply sublist_cons.
    + rewrite kids_flat_cons. cbn [app tail]. rewrite <- !app_assoc.
      apply sublist_app; [done|]. apply sublist_app; [done|]. by apply sublist_cons.
  - unfold filled_leaves in *. fold T1. rewrite empty_leaves. by apply Forall_app.
Qed.

(** The cells with the leaf out of the chain but still below its parent. *)
Lemma empty_cells :
  cells T ≡ₚ (f_page f, frame_node f n) :: (n, NLeaf [] (head_or (rleaves (f :: C)).*1 NO_PAGE)) ::
    kids_inner cs ++ ctx_inner C (f_page f) ++ chain (lleaves (f :: C)) n ++ chain (rleaves (f :: C)) NO_PAGE.
Proof.
  unfold T, cs. rewrite cells_plug. cbn [inner ctx_inner page app leaves]. rewrite chain_middle. autorewrite with btree. solve_Permutation.
Qed.

Lemma unlinked_cells :
  cells T1 ≡ₚ (f_page f, node_of_kids (kids cs)) :: kids_inner cs ++ ctx_inner C (f_page f) ++
    chain (lleaves (f :: C)) (head_or (rleaves (f :: C)).*1 NO_PAGE) ++ chain (rleaves (f :: C)) NO_PAGE.
Proof.
  unfold T1. rewrite cells_plug, inner_node. cbn [page]. rewrite leaves_node. fold cs.
  replace (lleaves C ++ kids_leaves cs ++ rleaves C) with (lleaves (f :: C) ++ rleaves (f :: C)).
  - rewrite chain_app. cbn [app]. solve_Permutation.
  - rewrite <- empty_leaves. unfold T1. by rewrite leaves_plug, leaves_node.
Qed.

Lemma empty_at : L ≡ₚ cells T -> at_subtree cfg L [] T.
Proof.
  intros HL. split; [intros c; by rewrite HL| |done]. unfold T. apply (shape_plug cfg Hinner (f :: C)).
  split; [|done]. constructor. unfold count_of. cbn. lia.
Qed.

(** Finding the left neighbour in the chain and linking it past the leaf. *)
Lemma hp_unlink {A} (k : Prog A) (Q : PoolResult A -> Meta -> list cell -> Prop) :
  let x := head_or (rleaves (f :: C)).*1 NO_PAGE in
  L ≡ₚ cells T ->
  (forall L', L' ≡ₚ (f_page f, frame_node f n) :: (n, NLeaf [] x) :: kids_inner cs ++ ctx_inner C (f_page f) ++
     chain (lleaves (f :: C)) x ++ chain (rleaves (f :: C)) NO_PAGE -> hp k m L' Q) ->
  hp (previous ← find_previous_leaf fuel n;
      _ ← match previous with
          | Some previous => _ ← modify previous (write_right_sibling x); mret tt
          | None => mret tt
          end; k) m L Q.
Proof.
  intros x HL HQ. apply hp_pages. intros _ Hpo Hok.
  assert (Hlv : leaves T = [] ++ lleaves (f :: C) ++ (n, []) :: rleaves (f :: C)) by (unfold T; by rewrite leaves_plug).
  assert (Hnd : NoDup (leaves T).*1).
  { destruct Hpo as (Hnd & _). apply NoDup_app in Hnd as (_ & _ & Hnd). rewrite HL in Hnd. unfold cells in Hnd.
    rewrite fmap_app, chain_fst in Hnd. by apply NoDup_app in Hnd as (_ & _ & ?). }
  apply hp_bind, hp_bind, hp_bind, hp_root_page. rewrite (rt_root _ _ Hrooted).
  eapply (leftmost_loop_spec cfg m L fuel [] T); [by apply empty_at|done|]. intros n0 es0 ls0 Hl0.
  eapply (hp_previous_leaf_loop m L fuel [] (lleaves (f :: C)) n [] (rleaves (f :: C))); rewrite <- ?Hlv; try done.
  { intros c Hc. rewrite HL. unfold cells. rewrite elem_of_app. by right. }
  { rewrite Hlv, !length_app in Hfuel2. cbn [length] in Hfuel2. lia. }
  { rewrite Hl0 in Hlv. destruct (lleaves (f :: C)) as [|[n1 es1] ls1]; cbn in *; congruence. }
  rewrite HL, empty_cells in Hok. apply Forall_cons in Hok as [_ Hok]. apply Forall_cons in Hok as [[_ Hxu] _]. cbn [snd] in Hxu.
  rewrite empty_cells in HL. fold x in HL, Hxu. cbn [app]. 
  destruct (decide (lleaves (f :: C) = [])) as [E|Hne]; [rewrite E in *; by apply hp_bind, hp_mret, HQ|].
  destruct (exists_last Hne) as (ls & [pn pes] & E). rewrite E in *. rewrite fmap_app. cbn [fmap list_fmap fst].
  rewrite last_snoc. apply hp_bind, hp_bind.
  rewrite chain_last in HL.
  eapply (hp_write_right_sibling pn pes n x m L ((f_page f, frame_node f n) :: (n, NLeaf [] x) :: kids_inner cs ++
    ctx_inner C (f_page f) ++ chain ls pn ++ chain (rleaves (f :: C)) NO_PAGE)); [rewrite HL; solve_Permutation|done|]. intros _. apply hp_mret, HQ.
  rewrite chain_last. solve_Permutation.
Qed.

(** The parent's entries without the leaf. *)
Lemma empty_entries_first :
  f_left f = [] -> frame_entries f n = kids cs /\ exists s t r, cs = (s, t) :: r.
Proof.
  intros E. pose proof (nr_ne _ _ _ _ empty_near) as Hne. unfold cs in *. rewrite E in *. cbn [app] in *. rewrite kids_nil. split; [done|].
  destruct (f_right f) as [|[s t] r]; [done|]. eauto.
Qed.

Lemma empty_entries_rest i :
  length (f_left f) = S i ->
  base.delete i (frame_entries f n) = tail (kids cs) /\ frame_first f n = ks_first (kids cs).
Proof.
  unfold cs. rewrite kids_app, <- (length_kids (f_left f)). destruct (kids (f_left f)) as [|[k0 p0] ks]; [done|].
  cbn [length app tail ks_first]. intros [= <-]. split; [|done]. by rewrite delete_middle.
Qed.

Lemma empty_entries_ok L' :
  Forall (fun c => node_ok (snd c)) L' -> (f_page f, frame_node f n) ∈ L' ->
  entries_ok (tail (kids cs)) /\ in_u64 (ks_first (kids cs)).
Proof.
  intros Hok Hin. rewrite Forall_forall in Hok. specialize (Hok _ Hin). cbn [snd] in Hok. unfold frame_node in Hok.
  rewrite node_of_kids_eq in Hok. destruct Hok as [[Hu Hc] Hf]. unfold count_of in Hc.
  destruct (length (f_left f)) as [|i] eqn:El.
  - assert (E : f_left f = []) by (by destruct (f_left f)).
    destruct (empty_entries_first E) as [He (s & t & r & Ecs)]. rewrite He, Ecs, kids_cons in *. cbn [length tail ks_first] in *.
    apply Forall_cons in Hu as [[_ Hp] Hu]. split; [split; [done|unfold count_of; lia]|done].
  - destruct (empty_entries_rest i El) as [He Hf']. rewrite <- He, <- Hf'. split; [|done]. split; [by apply Forall_delete|].
    unfold count_of. rewrite length_delete by (eexists; by apply frame_entry). lia.
Qed.

Lemma init_path_snoc P (fr : PathFrame) : init_path (P ++ [fr]) = P.
Proof. unfold init_path. rewrite length_app. cbn [length]. by rewrite Nat.add_sub, take_app_length. Qed.

Lemma hp_compact_empty_leaf (Q : PoolResult unit -> Meta -> list cell -> Prop) :
  let x := head_or (rleaves (f :: C)).*1 NO_PAGE in
  L ≡ₚ cells T -> (forall r m' L' T', safe m m' L' T T' r -> Q r m' L') ->
  hp (compact_empty_leaf cfg fuel n x (path_of (f :: C))) m L Q.
Proof.
  intros x HL HQ. unfold compact_empty_leaf. cbn [path_of]. rewrite last_snoc. cbn [frame_of page_no child_slot].
  apply hp_bind. eapply hp_read_node; [rewrite HL, empty_cells; left|]. cbn beta iota.
  assert (Hlen : length (frame_entries f n) = (length (f_left f) + length (f_right f))%nat).
  { rewrite length_tail, length_app. cbn [length]. rewrite !length_kids. lia. }
  rewrite Hlen. rewrite (proj2 (Nat.leb_gt _ _)) by lia. cbv zeta. apply hp_unlink; [done|]. intros L1 HL1.
  pose proof empty_near as Hn. apply hp_pages. intros _ Hpo Hok.
  destruct (empty_entries_ok L1 Hok ltac:(rewrite HL1; left)) as [Heo Hfo].
  assert (Hwrite : forall (k : list Z -> Prog unit) pf pes, pf = ks_first (kids cs) -> pes = tail (kids cs) ->
    (forall d L2, L2 ≡ₚ cells T1 ++ [(n, NLeaf [] x)] -> hp (k d) m L2 Q) ->
    hp (modify (f_page f) (write_internal_entries pf pes) ≫= k) m L1 Q).
  { intros k pf pes -> -> Hk. apply hp_bind. unfold frame_node in HL1. rewrite node_of_kids_eq in HL1.
    eapply hp_write_internal; [exact HL1|done|done|]. intros d. apply Hk. rewrite unlinked_cells, node_of_kids_eq. fold x. solve_Permutation. }
  assert (Hend : forall C' L2, ctx_like C C' -> StronglySorted Z.lt (flat (plug C' (TNode (f_page f) cs))) ->
    L2 ≡ₚ cells (plug C' (TNode (f_page f) cs)) ++ [(n, NLeaf [] x)] ->
    hp (_ ← try_redistribute_deepest_internal cfg fuel (path_of C ++ [frame_of f]);
        collapse_and_reclaim fuel (path_of C ++ [frame_of f]) [n]) m L2 Q).
  { intros C' L2 HC Hs2 HL2. rewrite (ctx_like_path _ _ HC). pose proof empty_depth as Hdep. unfold T1 in Hdep.
    rewrite (ctx_like_depth _ _ HC) in Hdep. destruct Hrooted as [Hr1 Hr2].
    eapply (hp_finish C' (f_page f) cs (frame_of f) (n, NLeaf [] x) []); try done.
    - by eapply near_like.
    - split; [|lia]. rewrite Hr1. unfold T. cbn [plug]. symmetry. apply page_like. done.
    - lia.
    - intros r m' L' T' Hrep Hsm. apply (HQ _ _ _ T'). eapply repaired_safe; [exact Hrep| | |done|].
      + destruct (ctx_like_leaves _ _ HC) as [E1 E2]. rewrite leaves_plug, <- E1, <- E2, <- leaves_plug. apply Hn.
      + rewrite <- empty_contents. unfold contents, T1. destruct (ctx_like_leaves _ _ HC) as [E1 E2]. by rewrite !leaves_plug, E1, E2.
      + intros Hd2. rewrite Hsm; [done|]. pose proof (depth_plug_ge (f :: C) (TLeaf n [])) as Hge. fold T in Hge. cbn [length depth] in Hge.
        apply nil_length_inv. rewrite <- (Forall2_length _ _ _ HC). lia. }
  destruct (length (f_left f)) as [|i] eqn:El.
  - assert (E : f_left f = []) by (by destruct (f_left f)).
    destruct (empty_entries_first E) as [He (s & t & r & Ecs)]. rewrite He. unfold vec_remove.
    assert (Hk0 : kids cs = (s, page t) :: kids r) by (by rewrite Ecs, kids_cons). rewrite Hk0.
    cbn [lookup list_lookup fmap option_fmap option_map snd at_index base.delete list_delete].
    apply hp_bind, hp_bind, hp_bind, hp_mret, hp_mret, hp_mret. cbn beta iota.
    eapply Hwrite; [by rewrite Hk0|by rewrite Hk0|]. intros _ L2 HL2.
    set (g := {| f_page := f_page f; f_left := []; f_sep := s; f_right := r |}).
    apply hp_bind, hp_bind.
    eapply (hp_first_key cfg Hinner fuel g C t m L2).
    { intros c Hc. rewrite HL2, elem_of_app. left. unfold T1. by rewrite Ecs. }
    { rewrite Ecs in Hn. exact Hn. }
    { pose proof empty_depth as Hd. unfold T1 in Hd. rewrite Ecs in Hd. unfold plug1. cbn [g f_page]. change (frame_kids g t) with ((s, t) :: r). lia. }
    intros k X Hk HX. rewrite init_path_snoc.
    eapply (hp_refresh k C (TNode (f_page f) cs) (X ++ kids_flat r)); [exact HL2|apply Hn| |done|].
    { rewrite Ecs, flat_node, kids_flat_cons, HX. done. }
    intros C' L3 HC Hs3 HL3. by apply (Hend C').
  - destruct (empty_entries_rest i El) as [He Hf']. unfold vec_remove.
    rewrite Nat.sub_succ, Nat.sub_0_r, (frame_entry f n i El), He, Hf'.
    apply hp_bind, hp_bind, hp_bind, hp_mret, hp_mret, hp_mret. cbn beta iota.
    eapply Hwrite; [done|done|]. intros _ L2 HL2. apply hp_bind, hp_mret.
    apply (Hend C); [apply ctx_like_refl|apply Hn|done].
Qed.

End Empty.

(** ** Neighbouring leaves *)

Section Pair.
Context (C : list frame) (p : Z) (l r : children) (sa na : Z) (ea : list (Z * Z)) (sb nb : Z) (eb : list (Z * Z)).
Context (m : Meta) (L : list cell).
Let K : children := [(sa, TLeaf na ea); (sb, TLeaf nb eb)].
Let T := plug C (TNode p (l ++ K ++ r)).
Let x := head_or (kids_leaves r ++ rleaves C).*1 NO_PAGE.
Let rest := kids_inner l ++ kids_inner r ++ ctx_inner C p ++ chain (lleaves C ++ kids_leaves l) na ++
  chain (kids_leaves r ++ rleaves C) NO_PAGE.

Lemma pair_cells :
  cells T ≡ₚ (p, node_of_kids (kids (l ++ K ++ r))) :: (na, NLeaf ea nb) :: (nb, NLeaf eb x) :: rest.
Proof.
  unfold T. rewrite cells_plug, inner_node, leaves_node. cbn [page]. unfold rest, K. autorewrite with btree. cbn [inner leaves app].
  rewrite <- !app_assoc. cbn [app]. rewrite (app_assoc (lleaves C)), chain_middle. cbn [chain fmap list_fmap fst head_or].
  fold x. solve_Permutation.
Qed.

Lemma one_cells e :
  cells (plug C (TNode p (l ++ [(sa, TLeaf na e)] ++ r))) ≡ₚ
    (p, node_of_kids (kids (l ++ [(sa, TLeaf na e)] ++ r))) :: (na, NLeaf e x) :: rest.
Proof.
  rewrite cells_plug, inner_node, leaves_node. cbn [page]. unfold rest. autorewrite with btree. cbn [inner leaves app].
  rewrite <- !app_assoc. cbn [app]. rewrite (app_assoc (lleaves C)), chain_middle. fold x. solve_Permutation.
Qed.

Lemma pair_contents e :
  e = ea ++ eb -> contents (plug C (TNode p (l ++ [(sa, TLeaf na e)] ++ r))) = contents T.
Proof.
  intros ->. unfold contents, T, K. rewrite !leaves_plug, !leaves_node. autorewrite with btree. cbn [leaves app].
  rewrite !fmap_app, !concat_app. cbn [fmap list_fmap snd concat app]. by rewrite <- !app_assoc.
Qed.

Lemma pair_flat :
  exists P S, (forall e1 s2 e2, flat (plug C (TNode p (l ++ [(sa, TLeaf na e1); (s2, TLeaf nb e2)] ++ r))) =
                 P ++ map key_code e1 ++ 2 * s2 :: map key_code e2 ++ S) /\
              (forall e, flat (plug C (TNode p (l ++ [(sa, TLeaf na e)] ++ r))) = P ++ map key_code e ++ S).
Proof.
  exists (lflat C ++ match l with [] => [] | _ => tail (kids_flat l) ++ [2 * sa] end), (kids_flat r ++ rflat C).
  destruct l as [|[s0 t0] l']; split; intros; rewrite flat_plug, flat_node; autorewrite with btree; cbn [flat app tail];
    repeat (progress (rewrite ?app_nil_r, <- ?app_assoc; cbn [app])); done.
Qed.

Hypothesis Hnear : near cfg C p (l ++ K ++ r).
Hypothesis Hrooted : rooted m T.
Hypothesis Hfuel : (depth T <= fuel)%nat.
Hypothesis HL : L ≡ₚ cells T.

Lemma merged_near :
  count_of ea + count_of eb <= leaf_capacity cfg -> near cfg C p (l ++ [(sa, TLeaf na (ea ++ eb))] ++ r).
Proof.
  intros Hc. destruct Hnear as [H1 H2 H3 H4 H5 H6]. split; [by destruct l| | |done| |].
  - unfold count_of in *. rewrite !length_app in *. cbn [length K] in *. lia.
  - rewrite !Forall_app in *. destruct H3 as (? & HK & ?). split_and!; [done| |done]. constructor; [|done]. constructor.
    unfold count_of in *. rewrite length_app. lia.
  - destruct pair_flat as (P & S & Hpair & Hone). unfold K in H5. rewrite Hpair in H5. rewrite Hone, map_app, <- app_assoc.
    eapply StronglySorted_sublist; [|exact H5]. apply sublist_app; [done|]. apply sublist_app; [done|]. by apply sublist_cons.
  - unfold filled_leaves in *. rewrite leaves_plug, leaves_node in *. unfold K in H6. autorewrite with btree in *. cbn [leaves] in *.
    rewrite !Forall_app, !Forall_cons in *. cbn [snd] in *. destruct H6 as (? & (? & ((? & _) & _) & ?) & ?). split_and!; try done.
    by destruct ea.
Qed.

Lemma merged_depth e : (depth (plug C (TNode p (l ++ [(sa, TLeaf na e)] ++ r))) <= depth T)%nat.
Proof. unfold T, K. apply depth_plug_mono. rewrite !depth_node. autorewrite with btree. cbn [depth]. lia. Qed.

Lemma pair_small (res : PoolResult unit) : (depth T <= 2)%nat -> (C = [] -> res = Ok tt) -> is_ok res = true.
Proof.
  intros Hd Hr. rewrite Hr; [done|]. pose proof (depth_plug_ge C (TNode p (l ++ K ++ r))) as Hge. fold T in Hge.
  unfold K in Hge. rewrite depth_node in Hge. autorewrite with btree in Hge. cbn [depth] in Hge. apply nil_length_inv. lia.
Qed.

(** The writes of a merge, and what follows it. *)
Lemma hp_merge_leaves fr (Q : PoolResult bool -> Meta -> list cell -> Prop) :
  page_no fr = p -> count_of ea + count_of eb <= leaf_capacity cfg ->
  (forall r m' L' T', safe m m' L' T T' r -> r <> Ok false -> Q r m' L') ->
  forall pf pes, pf = ks_first (kids (l ++ K ++ r)) -> pes = base.delete (length l) (tail (kids (l ++ K ++ r))) ->
  hp (_ ← modify na (write_leaf (ea ++ eb) x);
      _ ← modify p (write_internal_entries pf pes);
      _ ← try_redistribute_deepest_internal cfg fuel (path_of C ++ [fr]);
      _ ← collapse_and_reclaim fuel (path_of C ++ [fr]) [nb]; mret true) m L Q.
Proof.
  intros Hfr Hcap HQ pf pes -> ->. pose proof HL as HL0. rewrite pair_cells in HL0. apply (hp_perm _ _ _ _ _ HL0). apply hp_pages. intros _ _ Hok.
  rewrite node_of_kids_eq in Hok |- *. apply Forall_cons in Hok as [[[Hup Hcp] Hfp] Hok]. apply Forall_cons in Hok as [[[Hua _] _] Hok].
  apply Forall_cons in Hok as [[[Hub _] Hxu] _]. cbn [snd] in *.
  destruct (pair_entries_delete l sa (TLeaf na ea) (TLeaf na (ea ++ eb)) sb (TLeaf nb eb) r eq_refl) as [Hde Hdf].
  change (l ++ (sa, TLeaf na ea) :: (sb, TLeaf nb eb) :: r) with (l ++ K ++ r) in *.
  change (l ++ (sa, TLeaf na (ea ++ eb)) :: r) with (l ++ [(sa, TLeaf na (ea ++ eb))] ++ r) in *.
  apply hp_bind. eapply (hp_write_leaf na); [apply perm_swap| |done|].
  { split; [by apply Forall_app|]. unfold count_of in *. rewrite length_app. lia. }
  intros _. apply hp_bind. eapply (hp_write_internal p); [apply perm_swap| |done|].
  { split; [by apply Forall_delete|]. unfold count_of in *. rewrite length_delete by (eexists; apply pair_entry). lia. }
  intros _. rewrite Hde, Hdf, <- node_of_kids_eq. pose proof (merged_depth (ea ++ eb)) as Hdep.
  apply hp_assoc, hp_bind. eapply (hp_finish C p _ fr (nb, NLeaf eb x) []).
  - done.
  - by apply merged_near.
  - destruct Hrooted as [Hr1 Hr2]. split; [|lia]. rewrite Hr1. unfold T. symmetry. apply root_page_same.
  - lia.
  - rewrite one_cells. cbn [app]. solve_Permutation.
  - intros res m' L' T' Hrep Hsm.
    assert (Hs : forall r' : PoolResult bool, is_ok r' = is_ok res -> safe m m' L' T T' r').
    { intros r' Hr'. eapply repaired_safe; [exact Hrep|apply merged_near; lia|by apply pair_contents|done|].
      intros Hd. rewrite Hr'. by apply pair_small. }
    destruct res as [[]|e]; [apply hp_mret|]; (apply (HQ _ _ _ T'); [by apply Hs|done]).
Qed.

(** The writes of a redistribution between the two leaves. *)
Section Rotate.
Context (ea' : list (Z * Z)) (k v : Z) (eb' : list (Z * Z)).
Let K' : children := [(sa, TLeaf na ea'); (k, TLeaf nb ((k, v) :: eb'))].
Let T' := plug C (TNode p (l ++ K' ++ r)).
Hypothesis Hsplit : ea ++ eb = ea' ++ (k, v) :: eb'.
Hypothesis Hne : ea' <> [].
Hypothesis Hca : count_of ea' <= leaf_capacity cfg.
Hypothesis Hcb : count_of eb' + 1 <= leaf_capacity cfg.

Lemma rotated_sorted : StronglySorted Z.lt (flat T').
Proof.
  pose proof (nr_sorted _ _ _ _ Hnear) as Hs. destruct pair_flat as (P & S & Hpair & _). unfold T', K, K' in *. rewrite Hpair in *.
  assert (Hs1 : StronglySorted Z.lt ((P ++ map key_code ea') ++ 2 * k + 1 :: map key_code eb' ++ S)).
  { eapply StronglySorted_sublist; [|exact Hs]. rewrite <- app_assoc. apply sublist_app; [done|].
    change (2 * k + 1 :: map key_code eb' ++ S) with (map key_code ((k, v) :: eb') ++ S).
    rewrite app_assoc, <- map_app, <- Hsplit, map_app, <- app_assoc. apply sublist_app; [done|]. by apply sublist_cons. }
  rewrite app_assoc. cbn [map]. change (key_code (k, v)) with (2 * k + 1). apply sorted_add_sep; [done|].
  intros y Hy ->. apply elem_of_app in Hy as [Hy|Hy]; [|apply list_elem_of_fmap in Hy as ([j w] & E & _); unfold key_code in E; cbn in E; lia].
  destruct ea' as [|[j w] ea1]; [done|]. rewrite <- app_assoc in Hs1. apply StronglySorted_app in Hs1 as (Hc & _ & Hs1).
  cbn [map app] in Hs1. specialize (Hc (2 * k) (key_code (j, w)) Hy ltac:(left)). inversion Hs1 as [|? ? _ Hall]; subst.
  rewrite Forall_app in Hall. destruct Hall as [_ Hall]. apply Forall_cons in Hall as [Hall _]. unfold key_code in *. cbn in *. lia.
Qed.

Lemma rotated_ok : tree_ok cfg T'.
Proof.
  destruct Hnear as [H1 H2 H3 H4 H5 H6]. split; [|exact rotated_sorted|right].
  - apply (shape_plug cfg Hinner). split; [|done]. constructor.
    + split_and!; [by destruct l| |unfold K'; rewrite !length_app; cbn [length]; lia].
      unfold count_of in *. rewrite !length_app in *. cbn [length K K'] in *. lia.
    + rewrite !Forall_app in *. destruct H3 as (? & _ & ?). split_and!; [done| |done].
      constructor; [by constructor|]. constructor; [|done]. constructor. unfold count_of in *. cbn [length]. lia.
  - unfold filled_leaves, T' in *. rewrite leaves_plug, leaves_node in *. unfold K, K' in *. autorewrite with btree in *. cbn [leaves] in *.
    rewrite !Forall_app, !Forall_cons in *. cbn [snd] in *. destruct H6 as (? & (? & _ & ?) & ?). by split_and!.
Qed.

Lemma rotated_contents : contents T' = contents T.
Proof.
  unfold contents, T, T', K, K'. rewrite !leaves_plug, !leaves_node. autorewrite with btree. cbn [leaves app].
  rewrite !fmap_app, !concat_app. cbn [fmap list_fmap snd concat app]. rewrite ?app_nil_r, <- ?app_assoc. cbn [app]. rewrite (app_assoc ea), Hsplit. by rewrite <- !app_assoc.
Qed.

Lemma rotated_depth : depth T' = depth T.
Proof. apply Nat.le_antisymm; unfold T, T', K, K'; apply depth_plug_mono; rewrite !depth_node; autorewrite with btree; cbn [depth]; lia. Qed.

Lemma rotated_safe L' : L' ≡ₚ cells T' -> safe m m L' T T' (Ok true).
Proof.
  intros HL'. destruct Hrooted as [Hr1 Hr2]. split.
  - exists []. by rewrite app_nil_r.
  - exact rotated_ok.
  - split; [rewrite Hr1; symmetry; apply root_page_same|by rewrite rotated_depth].
  - exact rotated_contents.
  - apply meta_le_refl.
  - by rewrite rotated_depth.
  - done.
Qed.

Lemma rotated_cells :
  cells T' ≡ₚ (p, node_of_kids (kids (l ++ K' ++ r))) :: (na, NLeaf ea' nb) :: (nb, NLeaf ((k, v) :: eb') x) :: rest.
Proof.
  unfold T'. rewrite cells_plug, inner_node, leaves_node. cbn [page]. unfold rest, K'. autorewrite with btree. cbn [inner leaves app].
  rewrite <- !app_assoc. cbn [app]. rewrite (app_assoc (lleaves C)), chain_middle. cbn [chain fmap list_fmap fst head_or].
  fold x. solve_Permutation.
Qed.

Lemma hp_rotate_leaves (Q : PoolResult bool -> Meta -> list cell -> Prop) :
  (forall L', safe m m L' T T' (Ok true) -> Q (Ok true) m L') ->
  forall pf pes, pf = ks_first (kids (l ++ K ++ r)) -> pes = <[length l := (k, nb)]> (tail (kids (l ++ K ++ r))) ->
  hp (_ ← modify na (write_leaf ea' nb);
      _ ← modify nb (write_leaf ((k, v) :: eb') x);
      _ ← modify p (write_internal_entries pf pes); mret true) m L Q.
Proof.
  intros HQ pf pes -> ->. pose proof HL as HL0. rewrite pair_cells in HL0. apply (hp_perm _ _ _ _ _ HL0). apply hp_pages. intros _ _ Hok.
  rewrite node_of_kids_eq in Hok |- *. apply Forall_cons in Hok as [[[Hup Hcp] Hfp] Hok]. apply Forall_cons in Hok as [[[Hua _] Hnb] Hok].
  apply Forall_cons in Hok as [[[Hub _] Hxu] _]. cbn [snd] in *.
  assert (Hu : Forall u64_entry (ea' ++ (k, v) :: eb')) by (rewrite <- Hsplit; by apply Forall_app).
  apply Forall_app in Hu as [Hu1 Hu2].
  destruct (pair_entries_set l sa (TLeaf na ea) (TLeaf na ea') sb (TLeaf nb eb) k (TLeaf nb ((k, v) :: eb')) r eq_refl eq_refl) as [Hse Hsf].
  cbn [page] in Hse. change (l ++ (sa, TLeaf na ea) :: (sb, TLeaf nb eb) :: r) with (l ++ K ++ r) in *.
  change (l ++ (sa, TLeaf na ea') :: (k, TLeaf nb ((k, v) :: eb')) :: r) with (l ++ K' ++ r) in *.
  apply hp_bind. eapply (hp_write_leaf na); [apply perm_swap|split; [done|lia]|done|].
  intros _. apply hp_bind.
  eapply (hp_write_leaf nb _ _ _ _ m _ ((na, NLeaf ea' nb) :: (p, NInner (ks_first (kids (l ++ K ++ r))) (tail (kids (l ++ K ++ r)))) :: rest));
    [solve_Permutation|split; [done|unfold count_of in *; cbn [length]; lia]|done|].
  intros _. apply hp_bind.
  eapply (hp_write_internal p _ _ _ _ m _ ((nb, NLeaf ((k, v) :: eb') x) :: (na, NLeaf ea' nb) :: rest)); [solve_Permutation| |done|].
  { split; [|unfold count_of in *; rewrite length_insert; lia]. apply Forall_insert; [done|]. apply Forall_cons in Hu2 as [[? ?] _]. done. }
  intros _. apply hp_mret, HQ, rotated_safe. rewrite rotated_cells, Hse, Hsf, <- node_of_kids_eq. solve_Permutation.
Qed.

End Rotate.

End Pair.

(** ** A small leaf *)

Section Small.
Context (f : frame) (C : list frame) (n : Z) (es : list (Z * Z)) (m : Meta) (L : list cell).
Let T := plug (f :: C) (TLeaf n es).
Let x := head_or (rleaves (f :: C)).*1 NO_PAGE.
Hypothesis Hok : tree_ok cfg T.
Hypothesis Hrooted : rooted m T.
Hypothesis Hfuel : (depth T <= fuel)%nat.

Lemma plug_not_leaf C' f' t : is_leaf (plug (f' :: C') t) = false.
Proof. cbn [plug]. generalize (plug1 f' t) as t', (eq_refl : is_leaf (plug1 f' t) = false). induction C' as [|g C' IH]; intros t' E; [done|]. by apply IH. Qed.

Lemma leaf_near : near cfg C (f_page f) (frame_kids f (TLeaf n es)).
Proof.
  destruct Hok as [H1 H2 [H3|H3]]; [by unfold T in H3; rewrite plug_not_leaf in H3|]. by apply (shape_near cfg Hinner).
Qed.

Definition leaf_post (Q : PoolResult bool -> Meta -> list cell -> Prop) : Prop :=
  (forall L', L' ≡ₚ cells T -> Q (Ok false) m L') /\
  (forall r m' L' T', safe m m' L' T T' r -> r <> Ok false -> Q r m' L').

Hypothesis HL : L ≡ₚ cells T.

Lemma small_parent : (f_page f, node_of_kids (kids (frame_kids f (TLeaf n es)))) ∈ L.
Proof.
  rewrite HL. unfold T. cbn [plug]. unfold plug1. rewrite cells_plug_node. left.
Qed.

(** A right neighbour that is the next page of the chain is a leaf. *)
Lemma right_kid_leaf sb tb r :
  pages_ok m L -> f_right f = (sb, tb) :: r -> page tb = x -> exists nb eb, tb = TLeaf nb eb /\ nb = x.
Proof.
  intros (Hnd & _) Hr Hx. destruct tb as [nb eb|nb csb]; [by exists nb, eb|]. exfalso. cbn [page] in Hx.
  apply NoDup_app in Hnd as (_ & _ & Hnd). rewrite HL in Hnd. unfold cells in Hnd. rewrite fmap_app, chain_fst in Hnd.
  apply NoDup_app in Hnd as (_ & Hnd & _).
  assert (Hsh : shape cfg (TNode nb csb)).
  { pose proof (nr_kids _ _ _ _ leaf_near) as Hk. unfold frame_kids in Hk. rewrite Hr in Hk. apply Forall_app in Hk as [_ Hk].
    apply Forall_cons in Hk as [_ Hk]. by apply Forall_cons in Hk as [? _]. }
  apply leaves_ne in Hsh. apply (Hnd nb).
  - unfold T. rewrite inner_plug. cbn [inner ctx_inner page app]. rewrite Hr, kids_inner_cons, inner_node.
    rewrite fmap_cons, !fmap_app, fmap_cons, elem_of_cons, !elem_of_app, elem_of_cons. cbn [fst]. tauto.
  - unfold T. rewrite leaves_plug, Hx. unfold x. cbn [rleaves]. rewrite Hr, kids_leaves_cons.
    destruct (leaves (TNode nb csb)) as [|[n0 es0] ls]; [done|]. cbn [app fmap list_fmap fst head_or].
    rewrite !fmap_app, !elem_of_app, fmap_cons, elem_of_cons. cbn [fst]. tauto.
Qed.

Lemma hp_merge_leaf_right (Q : PoolResult bool -> Meta -> list cell -> Prop) :
  leaf_post Q -> hp (try_merge_leaf_with_right_sibling cfg fuel n es x (path_of (f :: C))) m L Q.
Proof.
  intros [HQ1 HQ2]. assert (Hno : hp (mret false) m L Q) by (by apply hp_mret, HQ1).
  unfold try_merge_leaf_with_right_sibling. cbn [path_of]. rewrite last_snoc. cbn [frame_of page_no child_slot].
  destruct (x =? NO_PAGE); [done|]. apply hp_bind. eapply hp_read_node; [exact small_parent|]. cbn beta iota.
  pose proof leaf_near as Hn. apply hp_pages. intros _ Hpo _. destruct (f_right f) as [|[sb tb] r] eqn:Hr; unfold frame_kids in *; rewrite Hr in *.
  { rewrite lookup_ge_None_2; [done|]. rewrite length_tail, length_kids, length_app. cbn [length]. lia. }
  rewrite pair_entry. destruct (Z.eqb_spec (page tb) x) as [Hx|Hx]; [|done]. cbn [negb].
  destruct (right_kid_leaf sb tb r Hpo Hr Hx) as (nb & eb & -> & Hnb).
  assert (HT : T = plug C (TNode (f_page f) (f_left f ++ [(f_sep f, TLeaf n es); (sb, TLeaf nb eb)] ++ r))).
  { unfold T. cbn [plug]. unfold plug1, frame_kids. by rewrite Hr. }
  pose proof HL as HL0. rewrite HT, pair_cells in HL0.
  apply hp_bind. eapply hp_read_leaf; [rewrite <- Hnb, HL0; right; right; left|]. cbn beta iota.
  destruct (Z.ltb_spec (leaf_capacity cfg) (count_of es + count_of eb)); [done|]. rewrite <- Hnb.
  eapply (hp_merge_leaves C (f_page f) (f_left f) r (f_sep f) n es sb nb eb); rewrite <- ?HT; try done.
Qed.

Lemma pair_counts l s1 n1 e1 s2 n2 e2 r :
  frame_kids f (TLeaf n es) = l ++ [(s1, TLeaf n1 e1); (s2, TLeaf n2 e2)] ++ r ->
  count_of e1 <= leaf_capacity cfg /\ count_of e2 <= leaf_capacity cfg.
Proof.
  intros E. pose proof (nr_kids _ _ _ _ leaf_near) as Hk. rewrite E in Hk. apply Forall_app in Hk as [_ Hk].
  apply Forall_cons in Hk as [H1 Hk]. apply Forall_cons in Hk as [H2 _]. cbn [snd] in *. inversion H1; inversion H2; by subst.
Qed.

Lemma hp_redistribute_leaf_right (Q : PoolResult bool -> Meta -> list cell -> Prop) :
  leaf_post Q -> hp (try_redistribute_leaf_with_right_sibling cfg n es x (path_of (f :: C))) m L Q.
Proof.
  intros [HQ1 HQ2]. assert (Hno : hp (mret false) m L Q) by (by apply hp_mret, HQ1).
  unfold try_redistribute_leaf_with_right_sibling. cbn [path_of]. rewrite last_snoc. cbn [frame_of page_no child_slot].
  destruct (x =? NO_PAGE); [done|]. apply hp_bind. eapply hp_read_node; [exact small_parent|]. cbn beta iota.
  pose proof leaf_near as Hn. apply hp_pages. intros _ Hpo _.
  destruct (f_right f) as [|[sb tb] r] eqn:Hr; unfold frame_kids in *; rewrite Hr in *.
  { rewrite lookup_ge_None_2; [done|]. rewrite length_tail, length_kids, length_app. cbn [length]. lia. }
  rewrite pair_entry. destruct (Z.eqb_spec (page tb) x) as [Hx|Hx]; [|done]. cbn [negb].
  destruct (right_kid_leaf sb tb r Hpo Hr Hx) as (nb & eb & -> & Hnb).
  assert (HT : T = plug C (TNode (f_page f) (f_left f ++ [(f_sep f, TLeaf n es); (sb, TLeaf nb eb)] ++ r))).
  { unfold T. cbn [plug]. unfold plug1, frame_kids. by rewrite Hr. }
  pose proof HL as HL0. rewrite HT, pair_cells in HL0.
  apply hp_bind. eapply hp_read_leaf; [rewrite <- Hnb, HL0; right; right; left|]. cbn beta iota zeta.
  destruct (pair_counts (f_left f) (f_sep f) n es sb nb eb r) as [Hc1 Hc2]; [unfold frame_kids; by rewrite Hr|].
  set (target := ((length es + length eb) / 2)%nat).
  pose proof (Nat.div_mod_eq (length es + length eb) 2) as Hdm. pose proof (Nat.mod_upper_bound (length es + length eb) 2 ltac:(lia)).
  fold target in Hdm. destruct (Z.of_nat _ <=? _); [done|]. destruct (Nat.leb_spec target (length es)) as [|Htl]; [done|]. cbn [orb].
  case_bool_decide; [done|]. destruct (drop (target - length es) eb) as [|[k v] eb'] eqn:Hd; [done|]. cbn [head]. rewrite <- Hnb.
  pose proof (take_drop (target - length es) eb) as Htd. rewrite Hd in Htd. unfold count_of in *.
  assert (Hlen : length (drop (target - length es) eb) = S (length eb')) by (by rewrite Hd). rewrite length_drop in Hlen.
  eapply (hp_rotate_leaves C (f_page f) (f_left f) r (f_sep f) n es sb nb eb m L) with (ea' := es ++ take (target - length es) eb) (eb' := eb') (v := v);
    rewrite <- ?HT; try done.
  - by rewrite <- app_assoc, Htd.
  - intros E. apply (f_equal length) in E. rewrite length_app, length_take in E. cbn [length] in E. lia.
  - unfold count_of. rewrite length_app, length_take. lia.
  - unfold count_of. lia.
  - intros L' Hs. by eapply HQ2.
Qed.

(** The left neighbour, if there is one. *)
Lemma left_kid i :
  length (f_left f) = S i -> exists l sa ta, length l = i /\
    left_sibling_of (ks_first (kids (frame_kids f (TLeaf n es)))) (tail (kids (frame_kids f (TLeaf n es)))) (S i) = Some (page ta) /\
    frame_kids f (TLeaf n es) = l ++ [(sa, ta); (f_sep f, TLeaf n es)] ++ f_right f /\
    T = plug C (TNode (f_page f) (l ++ [(sa, ta); (f_sep f, TLeaf n es)] ++ f_right f)).
Proof.
  intros Hl. destruct (left_split f (TLeaf n es) i Hl) as (l & sa & ta & Hfl & Hli & Hs & Heq). exists l, sa, ta. split_and!; try done.
  unfold T. cbn [plug]. unfold plug1. by rewrite Heq.
Qed.

(** A left neighbour that is not a leaf ends the repair with an error. *)
Lemma left_inner l sa na csa :
  T = plug C (TNode (f_page f) (l ++ [(sa, TNode na csa); (f_sep f, TLeaf n es)] ++ f_right f)) ->
  (exists fc ent, (na, NInner fc ent) ∈ L) /\ (2 < depth T)%nat.
Proof.
  intros HT. split.
  - exists (ks_first (kids csa)), (tail (kids csa)). rewrite HL, HT, cells_plug_kids, (kids_inner_cons sa), inner_node, <- node_of_kids_eq.
    right. left.
  - pose proof (ok_shape _ _ Hok) as Hsh. rewrite HT in Hsh |- *. apply (shape_plug cfg Hinner) in Hsh as [Hsh _].
    inversion Hsh as [|? ? _ Hall]; subst. apply Forall_app in Hall as [_ Hall]. apply Forall_cons in Hall as [Hk _]. cbn [snd] in Hk.
    inversion Hk as [|? ? (Hne & _) _]; subst. destruct csa as [|[s0 t0] csa]; [done|].
    pose proof (depth_plug_ge C (TNode (f_page f) (l ++ [(sa, TNode na ((s0, t0) :: csa)); (f_sep f, TLeaf n es)] ++ f_right f))) as Hge.
    rewrite depth_node in Hge. autorewrite with btree in Hge. rewrite depth_node in Hge. autorewrite with btree in Hge.
    pose proof (depth_pos t0). lia.
Qed.

Lemma hp_merge_leaf_left (Q : PoolResult bool -> Meta -> list cell -> Prop) :
  leaf_post Q -> hp (try_merge_leaf_with_left_sibling cfg fuel n (path_of (f :: C))) m L Q.
Proof.
  intros [HQ1 HQ2]. assert (Hno : hp (mret false) m L Q) by (by apply hp_mret, HQ1).
  unfold try_merge_leaf_with_left_sibling. cbn [path_of]. rewrite last_snoc. cbn [frame_of page_no child_slot].
  destruct (length (f_left f)) as [|i] eqn:El; [done|]. apply hp_bind. eapply hp_read_node; [exact small_parent|]. cbn beta iota.
  pose proof leaf_near as Hn. destruct (left_kid i El) as (l & sa & ta & Hli & Hsib & Heq & HT). rewrite Hsib, Heq in *.
  destruct ta as [na ea|na csa]; cbn [page].
  2: { destruct (left_inner l sa na csa HT) as [(fc & ent & Hin) Hd]. apply hp_bind. eapply hp_read_leaf_inner; [exact Hin|].
       eapply HQ2; [|done]. apply safe_refl; [done..|lia]. }
  pose proof HL as HL0. rewrite HT, pair_cells in HL0.
  apply hp_bind. eapply hp_read_leaf; [rewrite HL0; right; left|]. cbn beta iota. rewrite Z.eqb_refl. cbn [negb].
  apply hp_bind. eapply hp_read_leaf; [rewrite HL0; right; right; left|]. cbn beta iota.
  destruct (Z.ltb_spec (leaf_capacity cfg) (count_of ea + count_of es)); [done|]. unfold vec_remove. rewrite <- Hli. cbn [app]. rewrite (pair_entry l sa (TLeaf na ea)).
  eapply (hp_merge_leaves C (f_page f) l (f_right f) sa na ea (f_sep f) n es); rewrite <- ?HT; try done.
Qed.

Lemma hp_redistribute_leaf_left (Q : PoolResult bool -> Meta -> list cell -> Prop) :
  leaf_post Q -> hp (try_redistribute_leaf_with_left_sibling cfg n (path_of (f :: C))) m L Q.
Proof.
  intros [HQ1 HQ2]. assert (Hno : hp (mret false) m L Q) by (by apply hp_mret, HQ1).
  unfold try_redistribute_leaf_with_left_sibling. cbn [path_of]. rewrite last_snoc. cbn [frame_of page_no child_slot].
  destruct (length (f_left f)) as [|i] eqn:El; [done|]. apply hp_bind. eapply hp_read_node; [exact small_parent|]. cbn beta iota.
  pose proof leaf_near as Hn. destruct (left_kid i El) as (l & sa & ta & Hli & Hsib & Heq & HT). rewrite Hsib. 
  destruct ta as [na ea|na csa]; cbn [page].
  2: { destruct (left_inner l sa na csa HT) as [(fc & ent & Hin) Hd]. apply hp_bind. eapply hp_read_leaf_inner; [exact Hin|].
       eapply HQ2; [|done]. apply safe_refl; [done..|lia]. }
  destruct (pair_counts l sa na ea (f_sep f) n es (f_right f) Heq) as [Hc1 Hc2]. rewrite Heq in *.
  pose proof HL as HL0. rewrite HT, pair_cells in HL0.
  apply hp_bind. eapply hp_read_leaf; [rewrite HL0; right; left|]. cbn beta iota. rewrite Z.eqb_refl. cbn [negb].
  apply hp_bind. eapply hp_read_leaf; [rewrite HL0; right; right; left|]. cbn beta iota zeta.
  set (target := ((length ea + length es) / 2)%nat).
  pose proof (Nat.div_mod_eq (length ea + length es) 2) as Hdm. pose proof (Nat.mod_upper_bound (length ea + length es) 2 ltac:(lia)).
  fold target in Hdm. destruct (Z.leb_spec (Z.of_nat (length ea + length es)) (leaf_capacity cfg)); [done|].
  destruct (Nat.leb_spec (length ea) target) as [|Htl]; [done|]. cbn [orb].
  case_bool_decide; [done|]. pose proof (take_drop target ea) as Htd.
  assert (Hlen : length (drop target ea) = (length ea - target)%nat) by apply length_drop.
  destruct (drop target ea) as [|[k v] eb']; [cbn [length] in Hlen; lia|]. cbn [length app head] in Hlen |- *. unfold count_of in *.
  unfold set_key. rewrite <- Hli. cbn [app]. rewrite (pair_entry l sa (TLeaf na ea)).
  eapply (hp_rotate_leaves C (f_page f) l (f_right f) sa na ea (f_sep f) n es m L) with (ea' := take target ea) (eb' := eb' ++ es) (v := v);
    rewrite <- ?HT; try done.
  - change ((k, v) :: eb' ++ es) with (((k, v) :: eb') ++ es). by rewrite (app_assoc (take target ea)), Htd.
  - intros E. apply (f_equal length) in E. rewrite length_take in E. cbn [length] in E. lia.
  - unfold count_of. rewrite length_take. lia.
  - unfold count_of. rewrite length_app. lia.
  - intros L' Hs. by eapply HQ2.
Qed.

(** One attempt after the other. *)
Lemma leaf_post_next (k : Prog unit) (Q : PoolResult unit -> Meta -> list cell -> Prop) :
  (forall L', L' ≡ₚ cells T -> hp k m L' Q) ->
  (forall r m' L' T', safe m m' L' T T' r -> Q r m' L') ->
  leaf_post (fun r m' L' => match r with
                            | Ok b => hp (if b : bool then mret tt else k) m' L' Q
                            | Err e => Q (Err e) m' L'
                            end).
Proof.
  intros Hk HQ. split; [exact Hk|]. intros [[]|e] m' L' T' [] Hne; [apply hp_mret|done|]; by apply (HQ _ _ _ T').
Qed.

End Small.

Lemma hp_repair_small f C n es m L (Q : PoolResult unit -> Meta -> list cell -> Prop) :
  let T := plug (f :: C) (TLeaf n es) in
  let x := head_or (rleaves (f :: C)).*1 NO_PAGE in
  tree_ok cfg T -> rooted m T -> (depth T <= fuel)%nat -> L ≡ₚ cells T ->
  (forall r m' L' T', safe m m' L' T T' r -> Q r m' L') ->
  hp (merged ← try_merge_leaf_with_right_sibling cfg fuel n es x (path_of (f :: C));
      if merged : bool then mret tt else
      merged ← try_merge_leaf_with_left_sibling cfg fuel n (path_of (f :: C));
      if merged : bool then mret tt else
      moved ← try_redistribute_leaf_with_right_sibling cfg n es x (path_of (f :: C));
      if moved : bool then mret tt else
      _ ← try_redistribute_leaf_with_left_sibling cfg n (path_of (f :: C)); mret tt) m L Q.
Proof.
  intros T x Hok Hr Hfu HL HQ.
  apply hp_bind, hp_merge_leaf_right; try done. apply leaf_post_next; [|done]. intros L1 HL1.
  apply hp_bind, (hp_merge_leaf_left f C n es); try done. apply leaf_post_next; [|done]. intros L2 HL2.
  apply hp_bind, hp_redistribute_leaf_right; try done. apply leaf_post_next; [|done]. intros L3 HL3.
  apply hp_bind, (hp_redistribute_leaf_left f C n es); try done. split.
  - intros L' HL'. apply hp_mret, (HQ _ _ _ T). by apply safe_refl.
  - intros [b|e] m' L' T' [] _; [apply hp_mret|]; by apply (HQ _ _ _ T').
Qed.

Lemma safe_from {A} m m' L' T T1 T' (r : PoolResult A) :
  contents T1 = contents T -> depth T1 = depth T -> safe m m' L' T1 T' r -> safe m m' L' T T' r.
Proof. intros Hc Hd []. rewrite Hc, Hd in *. by split. Qed.

Lemma tree_ok_like C C' t :
  ctx_like C C' -> StronglySorted Z.lt (flat (plug C' t)) -> tree_ok cfg (plug C t) -> tree_ok cfg (plug C' t).
Proof.
  intros HC Hs [Hsh _ Hf]. destruct (ctx_like_leaves _ _ HC) as [E1 E2]. split; [|done|].
  - apply (shape_plug cfg Hinner) in Hsh as [H1 H2]. apply (shape_plug cfg Hinner). split; [done|]. by eapply ctx_like_shape.
  - destruct Hf as [Hf|Hf]; [left|right].
    + destruct HC as [|f f' C C' Hff HC]; [done|]. by rewrite plug_not_leaf in Hf.
    + by rewrite leaves_plug, <- E1, <- E2, <- leaves_plug.
Qed.

Lemma hp_rebalance_leaf C n es old m L (Q : PoolResult unit -> Meta -> list cell -> Prop) :
  let T := plug C (TLeaf n es) in
  tree_ok cfg T -> rooted m T -> (depth T <= fuel)%nat -> L ≡ₚ cells T ->
  (forall r m' L' T', safe m m' L' T T' r -> Q r m' L') ->
  hp (rebalance_leaf cfg fuel n es old (head_or (rleaves C).*1 NO_PAGE) (path_of C)) m L Q.
Proof.
  intros T Hok Hr Hfu HL HQ. unfold rebalance_leaf. apply hp_bind.
  assert (Hrest : forall C' L', ctx_like C C' -> StronglySorted Z.lt (flat (plug C' (TLeaf n es))) -> L' ≡ₚ cells (plug C' (TLeaf n es)) ->
    hp (if min_leaf_entries cfg <=? count_of es then mret tt
        else merged ← try_merge_leaf_with_right_sibling cfg fuel n es (head_or (rleaves C).*1 NO_PAGE) (path_of C);
             if merged : bool then mret tt else
             merged ← try_merge_leaf_with_left_sibling cfg fuel n (path_of C);
             if merged : bool then mret tt else
             moved ← try_redistribute_leaf_with_right_sibling cfg n es (head_or (rleaves C).*1 NO_PAGE) (path_of C);
             if moved : bool then mret tt else
             _ ← try_redistribute_leaf_with_left_sibling cfg n (path_of C); mret tt) m L' Q).
  { intros C' L' HC Hs HL'. pose proof (tree_ok_like _ _ _ HC Hs Hok) as Hok'.
    destruct (ctx_like_leaves _ _ HC) as [E1 E2]. pose proof (ctx_like_depth _ _ HC (TLeaf n es)) as Hdep. fold T in Hdep.
    assert (Hro : rooted m (plug C' (TLeaf n es))).
    { destruct Hr as [Hr1 Hr2]. split; [|by rewrite <- Hdep]. rewrite Hr1. unfold T.
      destruct HC as [|f f' C C' (Hp & _) HC]; [done|]. cbn [plug]. unfold plug1. rewrite Hp. symmetry. by apply page_like. }
    assert (HQ' : forall r m' L' T', safe m m' L' (plug C' (TLeaf n es)) T' r -> Q r m' L').
    { intros r m' L2 T' Hsf. apply (HQ _ _ _ T'). eapply safe_from; [|by symmetry|exact Hsf].
      unfold contents, T. by rewrite !leaves_plug, E1, E2. }
    destruct (min_leaf_entries cfg <=? count_of es); [apply hp_mret; eapply HQ', safe_refl; done|].
    rewrite (ctx_like_path _ _ HC), E2. destruct HC as [|f f' C C' Hff HC].
    - apply hp_mret. eapply HQ', (safe_refl); done.
    - eapply hp_repair_small; try done. lia. }
  pose proof (Hrest C L (ctx_like_refl C) (ok_sorted _ _ Hok) HL) as Hsame.
  destruct es as [|[k v] es1] eqn:Ees; cbn [head fmap option_fmap option_map fst].
  { by apply hp_mret. }
  case_bool_decide; [|by apply hp_mret].
  apply hp_pages. intros _ _ Hno.
  assert (Hk : in_u64 k).
  { assert (Hu : Forall u64_entry (contents (TLeaf n ((k, v) :: es1)))) by (eapply (contents_u64 cfg Hinner C _ L); [intros c; by rewrite HL|done]).
    by apply Forall_cons in Hu as [[? _] _]. }
  eapply (hp_refresh k C (TLeaf n ((k, v) :: es1)) (map key_code es1) m L []); [by rewrite app_nil_r|apply Hok|done|done|].
  intros C' L' HC Hs HL'. apply (Hrest C'); [done|done|]. by rewrite app_nil_r in HL'.
Qed.


(** ** Pairs below the root *)

Definition root_post (m : Meta) (T : tree) (Q : PoolResult bool -> Meta -> list cell -> Prop) : Prop :=
  (forall L', L' ≡ₚ cells T -> Q (Ok false) m L') /\
  (forall m' L' T', btree cfg m' L' T' -> contents T' = contents T -> meta_le m m' -> (depth T' < depth T)%nat ->
     Q (Ok true) m' L').

Lemma root_cells n cs :
  cells (TNode n cs) ≡ₚ (n, node_of_kids (kids cs)) :: kids_inner cs ++ chain (kids_leaves cs) NO_PAGE.
Proof. unfold cells. by rewrite inner_node, leaves_node. Qed.

(** A pair of children of the root and their cells. *)
Section RootPair.
Context (m : Meta) (L : list cell) (p s0 s1 : Z) (ta tb : tree).
Let T := TNode p [(s0, ta); (s1, tb)].
Hypothesis HT : btree cfg m L T.

Lemma root_pair_cells :
  L ≡ₚ (p, NInner (page ta) [(s1, page tb)]) :: inner ta ++ inner tb ++ chain (leaves ta ++ leaves tb) NO_PAGE.
Proof.
  rewrite (bt_cells _ _ _ _ HT). unfold T. rewrite root_cells. rewrite !kids_cons, kids_nil. autorewrite with btree.
  rewrite !app_nil_r. cbn [node_of_kids]. by rewrite <- !app_assoc.
Qed.

Lemma hp_leaf_pair (Q : PoolResult bool -> Meta -> list cell -> Prop) na ea nb eb :
  ta = TLeaf na ea -> tb = TLeaf nb eb -> m_height m = 2 -> count_of ea + count_of eb <= leaf_capacity cfg -> root_post m T Q ->
  hp (_ ← modify na (write_leaf (ea ++ eb) NO_PAGE);
      _ ← set_root na 1; _ ← reclaim_removed_pages [nb; p]; mret true) m L Q.
Proof.
  intros Ea Eb Hh Hcap [_ HQ]. pose proof root_pair_cells as HL. rewrite Ea, Eb in HL. cbn [page inner leaves app chain fmap list_fmap fst head_or] in HL.
  apply (hp_perm _ _ _ _ _ HL). apply hp_pages. intros Hmo Hpo Hok. apply Forall_cons in Hok as [[_ Hna] Hok].
  apply Forall_cons in Hok as [[[Hua _] _] Hok]. apply Forall_cons in Hok as [[[Hub _] Hx] _]. cbn [snd] in *.
  apply hp_bind. eapply (hp_write_leaf na); [apply perm_swap| |done|].
  { split; [by apply Forall_app|]. unfold count_of in *. rewrite length_app. lia. }
  intros _. apply hp_bind, hp_set_root; [done|done|]. apply hp_bind.
  eapply (hp_reclaim _ [(nb, NLeaf eb NO_PAGE); (p, NInner na [(s1, nb)])] _ _ [(na, NLeaf (ea ++ eb) NO_PAGE)]); [solve_Permutation|done|].
  intros m' [R1 R2 R3 R4 R5 _]. apply hp_mret. cbn [with_root m_root m_height m_next m_free m_junk] in *.
  pose proof (bt_tree _ _ _ _ HT) as [Hsh Hs _].
  apply (HQ m' _ (TLeaf na (ea ++ eb))).
  - split; [done|done|cbn [depth]; lia|]. split; [|rewrite <- (app_nil_r (flat _))|by left].
    + constructor. unfold count_of in *. rewrite length_app. lia.
    + unfold T in Hs. rewrite flat_node, Ea, Eb in Hs. autorewrite with btree in Hs. cbn [flat tail app] in *.
      rewrite map_app. eapply StronglySorted_sublist; [|exact Hs]. rewrite <- app_assoc. apply sublist_app; [done|]. by apply sublist_cons.
  - unfold contents, T. rewrite leaves_node, Ea, Eb. autorewrite with btree. cbn [leaves app fmap list_fmap snd concat].
    by rewrite <- app_assoc.
  - split; [done|lia|done|done].
  - unfold T. rewrite depth_node, Ea, Eb. autorewrite with btree. cbn [depth]. lia.
Qed.

Lemma hp_inner_pair (Q : PoolResult bool -> Meta -> list cell -> Prop) na csa nb csb :
  ta = TNode na csa -> tb = TNode nb csb -> 2 < m_height m -> count_of csa + count_of csb <= internal_capacity cfg + 1 -> root_post m T Q ->
  hp (_ ← modify na (write_internal_entries (ks_first (kids csa)) (tail (kids csa) ++ (s1, ks_first (kids csb)) :: tail (kids csb)));
      _ ← set_root na (m_height m - 1); _ ← reclaim_removed_pages [nb; p]; mret true) m L Q.
Proof.
  intros Ea Eb Hh Hcap [_ HQ]. pose proof root_pair_cells as HL. rewrite Ea, Eb, !inner_node, !leaves_node, !node_of_kids_eq in HL.
  cbn [page app] in HL. pose proof (bt_tree _ _ _ _ HT) as [Hsh Hs Hfi]. inversion Hsh as [|? ? _ Hall]; subst.
  apply Forall_cons in Hall as [Ha Hall]. apply Forall_cons in Hall as [Hb _]. cbn [snd] in *.
  inversion Ha as [|? ? (Hna & _) Hsa]; subst. inversion Hb as [|? ? (Hnb & _) Hsb]; subst.
  apply (hp_perm _ _ _ _ _ HL). apply hp_pages. intros Hmo Hpo Hok. apply Forall_cons in Hok as [[[Hus _] Hpa] Hok].
  apply Forall_cons in Hok as [[[Hua _] Hfa] Hok]. apply Forall_app in Hok as [_ Hok]. apply Forall_cons in Hok as [[[Hub _] Hfb] _].
  cbn [snd] in *. apply Forall_cons in Hus as [[Hu1 _] _]. cbn [fst] in Hu1.
  destruct (joined_entries csa s1 csb Hna Hnb) as [Hje Hjf].
  assert (Hlen : (2 <= length (joined csa s1 csb))%nat) by (rewrite length_joined; destruct csa, csb; cbn [length] in *; done || lia).
  apply hp_bind. eapply (hp_write_internal na); [apply perm_swap| |done|].
  { split; [apply Forall_app; split; [done|by constructor]|]. rewrite <- Hje. unfold count_of in *. rewrite length_tail, length_kids, length_joined. lia. }
  intros _. apply hp_bind, hp_set_root; [done|destruct Hmo as (_ & [? ?] & _); unfold in_u32; lia|]. apply hp_bind. rewrite <- Hje, <- Hjf.
  eapply (hp_reclaim _ [(nb, NInner (ks_first (kids csb)) (tail (kids csb))); (p, NInner na [(s1, nb)])] _ _ (cells (TNode na (joined csa s1 csb)))).
  { rewrite root_cells, node_of_kids_eq, joined_inner, joined_leaves. cbn [app]. solve_Permutation. }
  { done. }
  intros m' [R1 R2 R3 R4 R5 _]. apply hp_mret. cbn [with_root m_root m_height m_next m_free m_junk] in *.
  assert (Hdep : S (depth (TNode na (joined csa s1 csb))) = depth T).
  { unfold T. rewrite !depth_node, joined_depth. autorewrite with btree. rewrite !depth_node. lia. }
  pose proof (bt_height _ _ _ _ HT) as Hht. fold T in Hht.
  apply (HQ m' _ (TNode na (joined csa s1 csb))).
  - split; [done|done|lia|]. split.
    + constructor; [split_and!; [intros E; rewrite E in Hlen; cbn [length] in Hlen; lia|unfold count_of in *; rewrite length_joined; lia|lia]|by apply joined_shape].
    + rewrite flat_node, joined_flat by done. unfold T in Hs. rewrite flat_node in Hs. autorewrite with btree in Hs. cbn [tail] in Hs.
      by rewrite !flat_node, app_nil_r in Hs.
    + right. destruct Hfi as [Hfi|Hfi]; [done|]. unfold T in Hfi. rewrite leaves_node in Hfi. autorewrite with btree in Hfi. rewrite !leaves_node, app_nil_r in Hfi.
      by rewrite leaves_node, joined_leaves.
  - unfold contents, T. rewrite !leaves_node, joined_leaves. autorewrite with btree. by rewrite !leaves_node, app_nil_r.
  - split; [done|lia|done|done].
  - lia.
Qed.

End RootPair.

(** The root's page and, when it has two children, theirs. *)
Lemma hp_fetch_page t C m L T (Q : _ -> _ -> _ -> Prop) :
  btree cfg m L T -> T = plug C t ->
  (forall d, page_is d match t with
                       | TLeaf _ es => NLeaf es (head_or (rleaves C).*1 NO_PAGE)
                       | TNode _ cs => NInner (ks_first (kids cs)) (tail (kids cs))
                       end -> Q (Ok d) m L) -> hp (fetch (page t)) m L Q.
Proof.
  intros HT -> HQ. eapply hp_fetch; [|exact HQ]. rewrite (bt_cells _ _ _ _ HT). destruct t as [n es|n cs]; cbn [page].
  - rewrite cells_plug. cbn [inner leaves app page]. rewrite chain_middle, elem_of_app. right. left.
  - rewrite cells_plug_node, node_of_kids_eq. left.
Qed.

Lemma hp_collapse_root_leaf_pair m L T (Q : PoolResult bool -> Meta -> list cell -> Prop) :
  btree cfg m L T -> root_post m T Q -> hp (collapse_root_leaf_pair_if_possible cfg) m L Q.
Proof.
  intros HT HQ. assert (Hno : hp (mret false) m L Q) by (apply hp_mret, (proj1 HQ), HT).
  unfold collapse_root_leaf_pair_if_possible. apply hp_bind, hp_height.
  destruct (Z.eqb_spec (m_height m) 2) as [Hh|]; [|done]. cbn [negb]. apply hp_bind, hp_root_page.
  rewrite (bt_root _ _ _ _ HT). apply hp_bind, (hp_fetch_page T [] m L T _ HT eq_refl). intros d Hd. apply hp_bind, hp_ret.
  rewrite (read_page_kind_of _ _ Hd). destruct T as [n es|p cs]; cbn [kind_of]; [done|].
  case_bool_decide as Hk; [done|clear Hk]. apply hp_bind, hp_ret. rewrite (read_internal_entries_of _ _ _ Hd). cbv zeta. rewrite (read_first_child_of _ _ _ Hd).
  destruct cs as [|[s0 ta] [|[s1 tb] [|[s2 tc] cs]]]; rewrite ?kids_cons, ?kids_nil; cbn [tail ks_first]; [done|done| |done].
  apply hp_bind, (hp_fetch_page ta [{| f_page := p; f_left := []; f_sep := s0; f_right := [(s1, tb)] |}] m L _ _ HT eq_refl).
  intros da Hda. apply hp_bind, hp_ret. rewrite (read_page_kind_of _ _ Hda). destruct ta as [na ea|na csa]; cbn [kind_of]; case_bool_decide as Hk; try done.
  clear Hk. apply hp_bind, hp_ret. rewrite (read_leaf_entries_of _ _ _ Hda).
  apply hp_bind, (hp_fetch_page tb [{| f_page := p; f_left := [(s0, TLeaf na ea)]; f_sep := s1; f_right := [] |}] m L _ _ HT eq_refl).
  intros db Hdb. apply hp_bind, hp_ret. rewrite (read_page_kind_of _ _ Hdb). destruct tb as [nb eb|nb csb]; cbn [kind_of]; case_bool_decide as Hk; try done.
  clear Hk. apply hp_bind, hp_ret. rewrite (read_leaf_entries_of _ _ _ Hdb), (read_right_sibling_of _ _ _ Hda), (read_right_sibling_of _ _ _ Hdb).
  cbn [rleaves]. autorewrite with btree. cbn [leaves app fmap list_fmap fst head_or f_right]. rewrite Z.eqb_refl. cbn [negb].
  destruct (Z.ltb_spec (leaf_capacity cfg) (count_of ea + count_of eb)); [done|].
  by eapply hp_leaf_pair.
Qed.

Lemma hp_collapse_root_internal_pair m L T (Q : PoolResult bool -> Meta -> list cell -> Prop) :
  btree cfg m L T -> root_post m T Q -> hp (collapse_root_internal_pair_if_possible cfg) m L Q.
Proof.
  intros HT HQ. assert (Hno : hp (mret false) m L Q) by (apply hp_mret, (proj1 HQ), HT).
  unfold collapse_root_internal_pair_if_possible. apply hp_bind, hp_height.
  destruct (Z.leb_spec (m_height m) 2) as [|Hh]; [done|]. apply hp_bind, hp_root_page.
  rewrite (bt_root _ _ _ _ HT). apply hp_bind, (hp_fetch_page T [] m L T _ HT eq_refl). intros d Hd. apply hp_bind, hp_ret.
  rewrite (read_page_kind_of _ _ Hd). destruct T as [n es|p cs]; cbn [kind_of]; [done|].
  case_bool_decide as Hk; [done|clear Hk]. apply hp_bind, hp_ret. rewrite (read_internal_entries_of _ _ _ Hd). cbv zeta. rewrite (read_first_child_of _ _ _ Hd).
  destruct cs as [|[s0 ta] [|[s1 tb] [|[s2 tc] cs]]]; rewrite ?kids_cons, ?kids_nil; cbn [tail ks_first]; [done|done| |done].
  apply hp_bind, (hp_fetch_page ta [{| f_page := p; f_left := []; f_sep := s0; f_right := [(s1, tb)] |}] m L _ _ HT eq_refl).
  intros da Hda. apply hp_bind, hp_ret. rewrite (read_page_kind_of _ _ Hda). destruct ta as [na ea|na csa]; cbn [kind_of]; case_bool_decide as Hk; try done.
  clear Hk. apply hp_bind, hp_ret. rewrite (read_internal_entries_of _ _ _ Hda).
  apply hp_bind, (hp_fetch_page tb [{| f_page := p; f_left := [(s0, TNode na csa)]; f_sep := s1; f_right := [] |}] m L _ _ HT eq_refl).
  intros db Hdb. apply hp_bind, hp_ret. rewrite (read_page_kind_of _ _ Hdb). destruct tb as [nb eb|nb csb]; cbn [kind_of]; case_bool_decide as Hk; try done.
  clear Hk. apply hp_bind, hp_ret. rewrite (read_internal_entries_of _ _ _ Hdb), (read_first_child_of _ _ _ Hda), (read_first_child_of _ _ _ Hdb).
  destruct (Z.ltb_spec (internal_capacity cfg) (count_of (tail (kids csa)) + 1 + count_of (tail (kids csb)))); [done|].
  eapply hp_inner_pair; try done. unfold count_of in *. rewrite !length_tail, !length_kids in *. lia.
Qed.

Lemma hp_collapse_root_pairs : forall turns m L T (Q : PoolResult unit -> Meta -> list cell -> Prop),
  btree cfg m L T -> (depth T <= turns)%nat ->
  (forall m' L' T', btree cfg m' L' T' -> contents T' = contents T -> meta_le m m' -> (depth T' <= depth T)%nat -> Q (Ok tt) m' L') ->
  hp (collapse_root_pairs_if_possible cfg turns) m L Q.
Proof.
  induction turns as [|turns IH]; intros m L T Q HT Ht HQ; [pose proof (depth_pos T); lia|]. cbn [collapse_root_pairs_if_possible].
  assert (Hagain : forall m' L' T', btree cfg m' L' T' -> contents T' = contents T -> meta_le m m' -> (depth T' < depth T)%nat ->
     hp (collapse_root_pairs_if_possible cfg turns) m' L' Q).
  { intros m' L' T' HT' Hc Hm Hd. eapply IH; [exact HT'|lia|]. intros m2 L2 T2 HT2 Hc2 Hm2 Hd2.
    apply (HQ _ _ T2); [done|congruence|by eapply meta_le_trans|lia]. }
  apply hp_bind. eapply hp_collapse_root_internal_pair; [exact HT|]. split; [|exact Hagain]. intros L1 HL1. apply hp_bind.
  assert (HT1 : btree cfg m L1 T) by (destruct HT; by split). eapply hp_collapse_root_leaf_pair; [exact HT1|].
  split; [|exact Hagain]. intros L2 HL2. apply hp_mret. apply (HQ _ _ T); [destruct HT; by split|done|apply meta_le_refl|done].
Qed.

(** ** [delete] *)

(** The leaf after the entry's removal, in its tree. *)
Section Removed.
Context (C : list frame) (n key v : Z) (A B : list (Z * Z)).
Let T := plug C (TLeaf n (A ++ (key, v) :: B)).
Let T1 := plug C (TLeaf n (A ++ B)).
Hypothesis Hok : tree_ok cfg T.

Lemma removed_sorted : StronglySorted Z.lt (flat T1).
Proof.
  eapply StronglySorted_sublist; [|apply Hok]. unfold T, T1. rewrite !flat_plug. cbn [flat]. rewrite !map_app. cbn [map].
  apply sublist_app; [done|]. apply sublist_app; [|done]. apply sublist_app; [done|]. by apply sublist_cons.
Qed.

Lemma removed_shape : shape cfg T1 /\ ctx_shape cfg C true.
Proof.
  pose proof (ok_shape _ _ Hok) as Hs. apply (shape_plug cfg Hinner) in Hs as [Hs HC]. cbn [is_leaf] in HC. split; [|done].
  apply (shape_plug cfg Hinner). split; [|done]. inversion Hs as [? ? Hc|]; subst. constructor. unfold count_of in *. rewrite length_app in *. cbn [length] in Hc. lia.
Qed.

Lemma removed_filled : C <> [] -> filled_leaves (lleaves C) /\ filled_leaves (rleaves C).
Proof.
  intros HC. destruct C as [|f C']; [done|]. destruct (ok_filled _ _ Hok) as [Hf|Hf]; [unfold T in Hf; by rewrite plug_not_leaf in Hf|].
  unfold T in Hf. rewrite leaves_plug, !Forall_app in Hf. tauto.
Qed.

Lemma removed_ok : C = [] \/ A ++ B <> [] -> tree_ok cfg T1.
Proof.
  intros HC. split; [apply removed_shape|apply removed_sorted|]. unfold filled. destruct (decide (C = [])) as [->|Hne]; [by left|right].
  destruct HC as [|Hab]; [done|]. destruct (removed_filled Hne) as [Hl Hr]. unfold T1. rewrite leaves_plug. cbn [leaves app].
  apply Forall_app. split; [done|]. by constructor.
Qed.

Lemma removed_depth : depth T1 = depth T.
Proof. apply Nat.le_antisymm; unfold T, T1; apply depth_plug_mono; cbn [depth]; lia. Qed.

Lemma removed_contents : contents T1 = remove_entry key (contents T).
Proof.
  pose proof (contents_sorted _ (ok_sorted _ _ Hok)) as Hs. unfold T, T1 in *. rewrite !contents_plug in *.
  unfold contents in *. cbn [leaves fmap list_fmap snd concat] in *. rewrite !app_nil_r, <- !app_assoc in *. cbn [app] in *.
  rewrite (app_assoc _ A ((key, v) :: _)) in *. rewrite remove_entry_middle by done. by rewrite <- app_assoc.
Qed.

End Removed.

(** The result of a deletion: the tree without the key; the result says whether the key
    was there, except that a repair can fail on trees of more than two levels. *)
Record deleted (key : Z) (m m' : Meta) (T T' : tree) (r : PoolResult bool) : Prop := {
  dl_contents : contents T' = remove_entry key (contents T);
  dl_meta : meta_le m m';
  dl_depth : (depth T' <= depth T)%nat;
  dl_result : r = Ok (bool_decide (is_Some (entry_value (contents T) key))) \/
              (2 < depth T)%nat /\ is_Some (entry_value (contents T) key) /\ is_ok r = false }.

Lemma entry_value_hit A B key v : all_below key A -> entry_value (A ++ (key, v) :: B) key = Some v.
Proof.
  intros HA. unfold entry_value. rewrite binary_search_app_l by done. cbn. rewrite (proj2 (Z.ltb_ge _ _)), Z.eqb_refl by lia.
  by rewrite Nat.add_0_r, lookup_app_r, Nat.sub_diag by lia.
Qed.

(** From the repairs' end to the end of [delete]. *)
Definition gives (Q : PoolResult bool -> Meta -> list cell -> Prop) (r : PoolResult bool) (m : Meta) (L : list cell) : Prop :=
  exists D L', L ≡ₚ D ++ L' /\ Q r m L'.

Lemma hp_delete_tail key m m' L' T T1 T' (r : PoolResult unit) (Q : PoolResult bool -> Meta -> list cell -> Prop) :
  safe m m' L' T1 T' r -> contents T1 = remove_entry key (contents T) -> depth T1 = depth T -> (depth T <= fuel)%nat ->
  is_Some (entry_value (contents T) key) ->
  (forall r m' L' T', btree cfg m' L' T' -> deleted key m m' T T' r -> Q r m' L') ->
  match r with
  | Ok _ => hp (_ ← collapse_root_pairs_if_possible cfg fuel; mret true) m' L' (gives Q)
  | Err e => gives Q (Err e) m' L'
  end.
Proof.
  intros [[D HD] Hok [Hr1 Hr2] Hc Hm Hdep Hsm] Hc1 Hd1 Hfu Hsome HQ.
  assert (HT : btree cfg m' (cells T') T') by (by split).
  destruct r as [[]|e].
  - apply (hp_perm _ _ _ (D ++ cells T')); [by rewrite HD, Permutation_app_comm|]. apply hp_drops. apply hp_bind.
    eapply hp_collapse_root_pairs; [exact HT|lia|]. intros m2 L2 T2 HT2 Hc2 Hm2 Hd2. apply hp_mret. exists [], L2. split; [done|].
    apply (HQ _ _ _ T2); [done|]. split; [congruence|by eapply meta_le_trans|lia|left]. by rewrite bool_decide_eq_true_2.
  - exists D, (cells T'). split; [by rewrite HD, Permutation_app_comm|]. apply (HQ _ _ _ T'); [done|].
    split; [congruence|done|lia|right]. split_and!; [|done|done]. destruct (decide (depth T <= 2)%nat); [|lia].
    rewrite Hd1 in Hsm. by specialize (Hsm ltac:(lia)).
Qed.

Lemma hp_delete key m L T (Q : PoolResult bool -> Meta -> list cell -> Prop) :
  btree cfg m L T -> (depth T <= fuel)%nat -> (length (leaves T) <= fuel)%nat ->
  (forall r m' L' T', btree cfg m' L' T' -> deleted key m m' T T' r -> Q r m' L') ->
  hp (delete cfg fuel key) m L Q.
Proof.
  intros HT Hfu Hfu2 HQ. eapply (hp_post_drop _ _ _ _ (gives Q)); [|done].
  apply hp_bind. eapply hp_leaf_for_key_with_path; [exact HT|done|]. intros C n es HTC Hfoc. cbn beta iota.
  pose proof HT as [HL Hroot Hh Hok]. set (x := head_or (rleaves C).*1 NO_PAGE).
  assert (HL1 : L ≡ₚ (n, NLeaf es x) :: ctx_inner C n ++ chain (lleaves C) n ++ chain (rleaves C) NO_PAGE).
  { rewrite HL, HTC, cells_plug. cbn [inner leaves page app]. rewrite chain_middle. fold x. solve_Permutation. }
  apply hp_bind. eapply hp_read_leaf; [rewrite HL1; left|]. cbn beta iota zeta.
  assert (Hev : entry_value (contents T) key = entry_value es key).
  { rewrite HTC, contents_plug. fold (leaf_entries (lleaves C)) (leaf_entries (rleaves C)).
    rewrite entry_value_middle by (by apply focused_below || by apply focused_above). unfold contents. cbn. by rewrite app_nil_r. }
  destruct (binary_search es key) as [idx|i] eqn:Hbs; last first.
  { apply hp_mret. exists [], L. split; [done|]. apply (HQ _ _ _ T); [done|].
    assert (Hnone : entry_value es key = None) by (unfold entry_value; by rewrite Hbs).
    split; [|apply meta_le_refl|done|left; by rewrite Hev, Hnone]. symmetry. apply remove_entry_absent; [|congruence].
    apply contents_sorted, Hok. }
  destruct (binary_search_Ok _ _ _ Hbs) as (v & A & B & Hes & Hlen & HA). unfold vec_remove. subst es idx.
  rewrite list_lookup_middle by done. apply hp_bind, hp_bind, hp_mret, hp_mret. rewrite delete_middle.
  assert (Hsome : is_Some (entry_value (contents T) key)) by (rewrite Hev, entry_value_hit by done; by eexists).
  rewrite HTC in Hok. assert (Hdep : depth (plug C (TLeaf n (A ++ B))) = depth T) by (rewrite HTC; apply removed_depth).
  pose proof (removed_contents C n key v A B Hok) as Hcon. rewrite <- HTC in Hcon.
  apply (hp_perm _ _ _ _ _ HL1). apply hp_pages. intros _ _ Hnd. apply Forall_cons in Hnd as [[[Hu Hcnt] _] _]. cbn [snd] in *.
  apply hp_bind. eapply (hp_write_leaf_entries n); [done| |].
  { apply Forall_app in Hu as [Hu1 Hu2]. apply Forall_cons in Hu2 as [_ Hu2]. split; [by apply Forall_app|].
    unfold count_of in *. rewrite length_app in *. cbn [length] in Hcnt. lia. }
  intros d Hd. rewrite (read_right_sibling_of _ _ _ Hd). cbv zeta.
  set (T1 := plug C (TLeaf n (A ++ B))) in *.
  assert (HL2 : (n, NLeaf (A ++ B) x) :: ctx_inner C n ++ chain (lleaves C) n ++ chain (rleaves C) NO_PAGE ≡ₚ cells T1).
  { unfold T1. rewrite cells_plug. cbn [inner leaves page app]. rewrite chain_middle. fold x. solve_Permutation. }
  assert (Hro : rooted m T1).
  { split; [|by rewrite Hdep]. rewrite Hroot, HTC. unfold T1. destruct C as [|f C']; [done|]. cbn [plug]. apply root_page_same. }
  assert (Hend : forall (r : PoolResult unit) m' L' T', safe m m' L' T1 T' r -> match r with
      | Ok _ => hp (_ ← collapse_root_pairs_if_possible cfg fuel; mret true) m' L' (gives Q)
      | Err e => gives Q (Err e) m' L' end).
  { intros r m' L' T' Hsf. by eapply (hp_delete_tail key m m' L' T T1 T'). }
  apply hp_bind. destruct (decide (A ++ B = [])) as [E|Hne].
  - pose proof (removed_ok C n key v A B Hok) as Ho. pose proof (removed_sorted C n key v A B Hok) as Hs.
    pose proof (removed_filled C n key v A B Hok) as Hf. pose proof (proj2 (removed_shape C n key v A B Hok)) as HC.
    unfold T1 in *. clear T1. rewrite E in *. destruct C as [|f C'].
    + apply hp_mret. apply (Hend (Ok tt) _ _ (TLeaf n [])). apply safe_refl; try done. apply Ho. by left.
    + destruct (Hf ltac:(done)) as [Hfl Hfr]. eapply hp_compact_empty_leaf; try done; [by rewrite Hdep|].
      rewrite HTC, !leaves_plug, !length_app in *. exact Hfu2.
  - pose proof (removed_ok C n key v A B Hok (or_intror Hne)) as Ho. unfold T1 in *. clear T1.
    destruct (A ++ B) as [|e0 es0] eqn:E; [done|].
    eapply hp_rebalance_leaf; try done. by rewrite Hdep.
Qed.

End Delete.

End Deleting.
