(* ===== verification/BTreeBuild.v ===== *)
(** * Creation and bulk loading of the disk B+tree

    [open_or_create] leaves an empty tree in a relation that has no metapage, and
    [bulk_load_sorted] builds a tree from sorted entries, level by level: the children of
    the next level are the nodes of the last one, in chunks.  A chunk that holds a single
    leaf would make that leaf an only child, which deletion does not handle; the theorem
    on bulk loading excludes it. *)

From S2P Require Import Prelude.
From S2P Require Import Bytes.
From S2P Require Import PageBytes.
From S2P Require Import PoolPage.
From S2P Require Import ClockSweep.
From S2P Require Import BufferPool.
From S2P Require Import BTreePage.
From S2P Require Import PageProg.
From S2P Require Import DiskBTree.
From S2P Require Import BTreeMaintenance.
From S2P Require Import BTreeState.
From S2P Require Import BTreeShape.
From S2P Require Import BTreeRead.
From S2P Require Import BTreeInsert.

Section Building.
Context {PL : PageLimit}.

(** ** An empty tree *)

Definition first_meta : Meta :=
  {| m_root := 0; m_height := 0; m_count := 0; m_free := []; m_next := 1; m_junk := [] |}.

Lemma wp_initialize_meta s (Q : PoolResult unit -> Rel -> Prop) :
  next_page s = 0 -> (forall s', rep s' first_meta [] -> Q (Ok tt) s') -> wp initialize_meta_page s Q.
Proof.
  intros Hn HQ. destruct (init_meta_is zero_page) as (d & Hd & Hm). apply wp_bind. unfold wp at 1, create_page. cbn [run_in].
  unfold grow. rewrite Hn. rewrite (proj2 (Z.leb_gt _ _)) by (pose proof page_limit_le; lia). cbn [orb]. change (negb (0 =? META_PAGE_NO)) with false.
  cbn [run_in mret Prog_ret pages]. rewrite lookup_insert, decide_True, Hd, (proj2 (pageb_spec d) (proj1 Hm)) by done. cbn [run_in]. apply wp_ret.
  apply HQ. split; cbn [first_meta m_free m_next m_junk m_root m_height m_count].
  - exists d. split; [|done]. unfold set_page. cbn [pages]. change META_PAGE_NO with 0. by rewrite lookup_insert, decide_True.
  - by vm_compute.
  - split_and!; [constructor|constructor|done|done].
  - done.
  - constructor.
  - constructor.
Qed.

Lemma wp_hp {A} (p : Prog A) m L s Q : hp p m L Q -> rep s m L -> wp p s (fun r s' => exists m' L', rep s' m' L' /\ Q r m' L').
Proof. intros Hp Hs. by apply Hp. Qed.

(** ** Chunks *)

Lemma chunks_fuel_spec {A} n : (1 <= n)%nat -> forall fuel (l : list A), (length l <= fuel)%nat ->
  concat (chunks_fuel fuel n l) = l /\ Forall (fun c => (1 <= length c <= n)%nat) (chunks_fuel fuel n l) /\
  (n * length (chunks_fuel fuel n l) <= length l + n - 1)%nat.
Proof.
  intros Hn. induction fuel as [|fuel IH]; intros [|a l] Hl; try (cbn [length] in *; lia); try (split_and!; [done|constructor|cbn [chunks_fuel length]; lia]).
  cbn [chunks_fuel]. destruct (IH (drop n (a :: l))) as (H1 & H2 & H3); [rewrite length_drop; cbn [length] in *; lia|]. split_and!.
  - cbn [concat]. by rewrite H1, take_drop.
  - constructor; [|done]. rewrite length_take. cbn [length]. lia.
  - rewrite length_drop in H3. cbn [length] in *. rewrite Nat.mul_succ_r.
    destruct (chunks_fuel fuel n (drop n (a :: l))) as [|c cs]; cbn [length] in *; [lia|]. rewrite Nat.mul_succ_r in *. lia.
Qed.

Lemma chunks_spec {A} n (l : list A) :
  (1 <= n)%nat ->
  concat (chunks n l) = l /\ Forall (fun c => (1 <= length c <= n)%nat) (chunks n l) /\
  (n * length (chunks n l) <= length l + n - 1)%nat.
Proof. intros Hn. by apply chunks_fuel_spec. Qed.

(** No chunk of length one when one element is not left over. *)
Lemma chunks_fuel_pairs {A} n : (2 <= n)%nat -> forall fuel (l : list A), (length l <= fuel)%nat ->
  (length l mod n <> 1)%nat -> Forall (fun c => length c <> 1%nat) (chunks_fuel fuel n l).
Proof.
  intros Hn. induction fuel as [|fuel IH]; intros [|a l] Hl Hm; cbn [chunks_fuel]; [done|done|done|constructor].
  - rewrite length_take. intros E. destruct (decide (n <= length (a :: l))%nat) as [Hle|Hlt]; [lia|].
    rewrite Nat.min_r in E by lia. rewrite E, Nat.mod_small in Hm by lia. done.
  - apply IH; rewrite length_drop; [cbn [length] in *; lia|].
    destruct (decide (n <= length (a :: l))%nat) as [Hle|Hlt].
    + intros E. apply Hm. rewrite <- E. symmetry. replace (length (a :: l)) with (length (a :: l) - n + 1 * n)%nat at 2 by lia. by rewrite Nat.Div0.mod_add.
    + replace (length (a :: l) - n)%nat with O by lia. rewrite Nat.Div0.mod_0_l. done.
Qed.

Section Build.
Context (cfg : DiskBTreeConfig).
Hypothesis Hleaf : 1 <= leaf_capacity cfg <= PAGE_ENTRIES.
Hypothesis Hinner : 2 <= internal_capacity cfg <= PAGE_ENTRIES.

Lemma hp_first_root (Q : PoolResult unit -> Meta -> list cell -> Prop) :
  (forall m L n, btree cfg m L (TLeaf n []) -> m_next m <= 2 -> m_height m = 1 -> Q (Ok tt) m L) ->
  hp (root_no ← allocate_initialized_page Leaf; _ ← set_root root_no 1; set_page_count (sat_u64 root_no 1)) first_meta [] Q.
Proof.
  intros HQ. pose proof page_limit_le as Hlim. apply hp_bind, hp_allocate_free; [cbn; lia|]. intros n m H1 H2 H3 H4 Hf _. cbn [first_meta m_root m_height m_next m_count m_free tail] in *.
  apply hp_pages. intros _ (_ & Hb & Hc) _. rewrite Hf in Hb. cbn [app fmap list_fmap fst] in Hb. apply Forall_cons in Hb as [Hn _].
  apply hp_bind, hp_set_root; [unfold in_u64, u64_max in *; lia|done|].
  unfold sat_u64, saturating_add. rewrite Z.min_r by lia. apply hp_set_page_count; [cbn; lia| |].
  { cbn [with_root m_free]. rewrite Hf. constructor; [cbn; lia|done]. }
  apply (HQ _ _ n); [|cbn; lia|done]. split; [done|done|cbn; lia|]. split; [|constructor|by left]. constructor. unfold count_of. cbn. lia.
Qed.

(** ** Leaves *)

Definition first_key (es : list (Z * Z)) : Z := match es with [] => 0 | (k, _) :: _ => k end.

(** The level of the leaves [ls]: pages with their entries. *)
Definition leaf_kids (ls : list (Z * list (Z * Z))) : children := map (fun l => (first_key (snd l), TLeaf (fst l) (snd l))) ls.

Definition loose (ls : list (Z * list (Z * Z))) : list cell := map (fun l => (fst l, NLeaf (snd l) NO_PAGE)) ls.

Lemma leaf_kids_eqs ls :
  kids (leaf_kids ls) = map (fun l => (first_key (snd l), fst l)) ls /\ kids_leaves (leaf_kids ls) = ls /\
  kids_inner (leaf_kids ls) = [] /\ (kids_depth (leaf_kids ls) <= 1)%nat.
Proof.
  induction ls as [|[n es] ls (H1 & H2 & H3 & H4)]; cbn [leaf_kids map fst snd].
  { rewrite kids_nil, kids_leaves_nil, kids_inner_nil, kids_depth_nil. split_and!; done || lia. }
  fold (leaf_kids ls). autorewrite with btree. rewrite H1, H2, H3. split_and!; [done|done|done|]. cbn [depth]. lia.
Qed.

Lemma hp_bulk_leaves : forall cs m L (Q : PoolResult (list (Z * Z)) -> Meta -> list cell -> Prop),
  Forall (fun c => c <> [] /\ entries_ok c) cs -> m_next m + Z.of_nat (length cs) < PAGE_LIMIT ->
  (forall m' L' ls, ls.*2 = cs -> L' ≡ₚ loose ls ++ L -> m_next m' <= m_next m + Z.of_nat (length cs) ->
     Q (Ok (kids (leaf_kids ls))) m' L') ->
  hp (bulk_leaves cs) m L Q.
Proof.
  induction cs as [|c cs IH]; intros m L Q Hcs Hn HQ; cbn [bulk_leaves].
  { apply hp_mret. apply (HQ _ _ []); [done|done|cbn; lia]. }
  apply Forall_cons in Hcs as [[Hne Hok] Hcs]. cbn [length] in Hn. apply hp_bind, hp_allocate; [lia|]. intros n m1 _ _ Hm1 _ _.
  apply hp_bind. eapply (hp_write_leaf_entries n [] NO_PAGE); [reflexivity|done|]. intros d _. destruct c as [|[k v] c]; [done|]. cbn [head].
  apply hp_bind. eapply hp_at_index; [done|]. cbn beta iota. apply hp_bind, IH; [done|lia|]. intros m' L' ls Hls HL' Hm'.
  apply hp_mret. apply (HQ _ _ ((n, (k, v) :: c) :: ls)).
  - cbn. by rewrite Hls.
  - cbn [loose map fst snd app]. rewrite HL'. fold (loose ls). solve_Permutation.
  - cbn [length]. lia.
Qed.

Lemma hp_bulk_link : forall ls F m L (Q : PoolResult unit -> Meta -> list cell -> Prop),
  L ≡ₚ loose ls ++ F -> (forall L', L' ≡ₚ chain ls NO_PAGE ++ F -> Q (Ok tt) m L') -> hp (bulk_link (kids (leaf_kids ls))) m L Q.
Proof.
  induction ls as [|[n es] ls IH]; intros F m L Q HL HQ.
  { cbn [leaf_kids map]. rewrite kids_nil. by apply hp_mret, HQ. }
  destruct ls as [|[n2 es2] ls].
  { cbn [leaf_kids map fst snd]. rewrite kids_cons, kids_nil. by apply hp_mret, HQ. }
  rewrite (proj1 (leaf_kids_eqs _)). cbn [map fst snd bulk_link]. apply hp_bind. cbn [loose map fst snd app] in HL. apply hp_pages. intros _ (_ & Hb & Hc) _.
  assert (Hn2 : in_u64 n2).
  { rewrite HL, Forall_app, !fmap_cons, !Forall_cons in Hb. destruct Hb as (_ & _ & Hb & _). cbn [fst] in Hb. unfold in_u64, u64_max in *. lia. }
  eapply (hp_write_right_sibling n); [exact HL|done|]. intros _.
  pose proof (IH ((n, NLeaf es n2) :: F) m) as IH'. rewrite (proj1 (leaf_kids_eqs _)) in IH'. cbn [map fst snd] in IH'. apply IH'.
  - cbn [loose map fst snd app]. fold (loose ls). solve_Permutation.
  - intros L' HL'. apply HQ. rewrite HL'. cbn [chain fmap list_fmap fst head_or app]. solve_Permutation.
Qed.

(** ** Levels *)

(** A level: the trees built so far, with their first keys. *)
Record level_ok (ls : list (Z * list (Z * Z))) (cs : children) : Prop := {
  lv_shape : Forall (fun c => shape cfg (snd c)) cs;
  lv_leaves : kids_leaves cs = ls;
  lv_sorted : StronglySorted Z.lt (kids_flat cs);
  lv_u64 : Forall (fun c => in_u64 (fst c)) cs }.

Definition group_ok (g : children) : Prop :=
  (1 <= length g <= Z.to_nat (internal_capacity cfg) + 1)%nat /\ (length g = 1%nat -> Forall (fun c => is_leaf (snd c) = false) g).

Definition first_sep (g : children) : Z := match g with [] => 0 | (s, _) :: _ => s end.

Definition node_kids (ps : list Z) (gs : list children) : children := zip_with (fun p g => (first_sep g, TNode p g)) ps gs.

Definition node_cells (ps : list Z) (gs : list children) : list cell := zip_with (fun p g => (p, node_of_kids (kids g))) ps gs.

Lemma kids_map cs : kids cs = map (fun c => (fst c, page (snd c))) cs.
Proof. induction cs as [|[s t] cs IH]; [done|]. rewrite kids_cons, IH. done. Qed.

Lemma chunks_map {A B} (f : A -> B) n l : chunks n (map f l) = map (map f) (chunks n l).
Proof.
  unfold chunks. rewrite length_map. generalize (length l) as fuel. intros fuel. revert l.
  induction fuel as [|fuel IH]; intros [|a l]; [done..|]. cbn [chunks_fuel map]. f_equal.
  - exact (eq_sym (fmap_take f n (a :: l))).
  - rewrite <- IH. f_equal. exact (eq_sym (fmap_drop f n (a :: l))).
Qed.

Lemma chunks_kids n cs : chunks n (kids cs) = map kids (chunks n cs).
Proof. rewrite kids_map, chunks_map. apply map_ext. intros g. symmetry. apply kids_map. Qed.

Lemma node_kids_eqs : forall ps gs, length ps = length gs -> Forall (fun g => g <> []) gs ->
  kids_leaves (node_kids ps gs) = kids_leaves (concat gs) /\ kids_flat (node_kids ps gs) = kids_flat (concat gs) /\
  kids_inner (node_kids ps gs) ≡ₚ node_cells ps gs ++ kids_inner (concat gs) /\
  (kids_depth (node_kids ps gs) <= S (kids_depth (concat gs)))%nat.
Proof.
  induction ps as [|p ps IH]; intros [|g gs] Hl Hg; try done.
  { cbn [concat node_kids node_cells zip_with app]. rewrite kids_depth_nil. split_and!; [done|done|done|lia]. }
  injection Hl as Hl. apply Forall_cons in Hg as [Hne Hg]. destruct (IH gs Hl Hg) as (H1 & H2 & H3 & H4).
  cbn [node_kids node_cells zip_with concat app]. fold (node_kids ps gs) (node_cells ps gs). autorewrite with btree.
  rewrite leaves_node, flat_node, inner_node, depth_node, H1, H2, H3. split_and!; [done| | |lia].
  - destruct g as [|[s t] g]; [done|]. cbn [first_sep]. rewrite kids_flat_cons. cbn [tail app]. done.
  - cbn [app]. solve_Permutation.
Qed.

Lemma hp_bulk_groups : forall gs m L (Q : PoolResult (list (Z * Z)) -> Meta -> list cell -> Prop),
  Forall group_ok gs -> Forall (Forall (fun c => in_u64 (fst c) /\ in_u64 (page (snd c)))) gs ->
  m_next m + Z.of_nat (length gs) < PAGE_LIMIT ->
  (forall m' L' ps, length ps = length gs -> L' ≡ₚ node_cells ps gs ++ L -> m_next m' <= m_next m + Z.of_nat (length gs) ->
     Q (Ok (kids (node_kids ps gs))) m' L') ->
  hp (bulk_groups (map kids gs)) m L Q.
Proof.
  induction gs as [|g gs IH]; intros m L Q Hgs Hu Hn HQ; cbn [bulk_groups map].
  { apply hp_mret. apply (HQ _ _ []); [done|done|cbn; lia]. }
  apply Forall_cons in Hgs as [[Hlen _] Hgs]. apply Forall_cons in Hu as [Hug Hu]. cbn [length] in Hn.
  apply hp_bind, hp_allocate; [lia|]. intros n m1 _ _ Hm1 _ _.
  destruct g as [|[s t] g]; [cbn in Hlen; lia|]. rewrite kids_cons. cbn [head]. apply hp_bind. eapply hp_at_index; [done|]. cbn beta iota.
  apply Forall_cons in Hug as [[Hs Ht] Hug]. cbn [fst snd] in *. apply hp_bind.
  eapply (hp_write_internal n NO_PAGE []); [reflexivity| |done|].
  { cbn [tail]. split; [|unfold count_of; rewrite length_kids; cbn [length] in Hlen; lia].
    rewrite kids_map. apply Forall_map. eapply Forall_impl; [exact Hug|]. intros [s' t'] [? ?]. done. }
  intros _. apply hp_bind, IH; [done|done|lia|]. intros m' L' ps Hps HL' Hm'. apply hp_mret.
  apply (HQ _ _ (n :: ps)); [cbn; lia| |cbn [length]; lia].
  cbn [node_cells zip_with app]. fold (node_cells ps gs). rewrite HL', kids_cons. cbn [tail node_of_kids]. solve_Permutation.
Qed.

Lemma node_kids_ok ls : forall ps gs, length ps = length gs -> Forall group_ok gs -> level_ok ls (concat gs) -> level_ok ls (node_kids ps gs).
Proof.
  intros ps gs Hl Hg [H1 H2 H3 H4].
  assert (Hne : Forall (fun g => g <> []) gs) by (eapply Forall_impl; [exact Hg|]; intros [|c g] [? _]; [cbn in *; lia|done]).
  destruct (node_kids_eqs ps gs Hl Hne) as (E1 & E2 & _). split; [|congruence|congruence|].
  - clear E1 E2 H2 H3 H4 Hne. revert gs Hl Hg H1. induction ps as [|p ps IH]; intros [|g gs] Hl Hg H1; try done.
    injection Hl as Hl. apply Forall_cons in Hg as [[Hgl Hg1] Hg]. cbn [concat] in H1. apply Forall_app in H1 as [H1 H2].
    constructor; [|by apply IH]. cbn [snd]. constructor; [|done]. split_and!; [by intros ->; cbn in Hgl; lia|unfold count_of; lia|done].
  - clear E1 E2 H1 H2 H3. revert gs Hl Hg H4 Hne. induction ps as [|p ps IH]; intros [|g gs] Hl Hg H1 Hne; try done.
    injection Hl as Hl. apply Forall_cons in Hg as [_ Hg]. cbn [concat] in H1. apply Forall_app in H1 as [H1 H2]. apply Forall_cons in Hne as [Hn Hne].
    constructor; [|by apply IH]. cbn [fst]. destruct g as [|[s t] g]; [done|]. by apply Forall_cons in H1 as [? _].
Qed.

Lemma node_kids_inner ps gs : Forall (fun c => is_leaf (snd c) = false) (node_kids ps gs).
Proof. revert gs. induction ps as [|p ps IH]; intros [|g gs]; [done..|]. constructor; [done|apply IH]. Qed.

Lemma level_pages m L cs :
  pages_ok m L -> kids_inner cs ++ chain (kids_leaves cs) NO_PAGE ⊆ L -> Forall (fun c => in_u64 (page (snd c))) cs.
Proof.
  intros (_ & Hb & Hc) HL. apply Forall_forall. intros [s t] Hin. cbn [snd]. rewrite Forall_forall in Hb.
  apply list_elem_of_split in Hin as (l & r & ->).
  assert (Hp : page t ∈ L.*1).
  { assert (Hp : page t ∈ (inner t).*1 ++ (leaves t).*1) by (destruct t; left).
    assert (Hp' : page t ∈ (kids_inner (l ++ (s, t) :: r) ++ chain (kids_leaves (l ++ (s, t) :: r)) NO_PAGE).*1).
    { autorewrite with btree. rewrite fmap_app, chain_fst, !fmap_app, !elem_of_app in *. tauto. }
    apply list_elem_of_fmap in Hp' as (c & -> & Hp'). by apply list_elem_of_fmap_2, HL. }
  specialize (Hb (page t) ltac:(rewrite elem_of_app; by right)). unfold in_u64, u64_max in *. lia.
Qed.

Lemma sat_cap : Z.to_nat (Z.max (sat_u64 (internal_capacity cfg) 1) 2) = (Z.to_nat (internal_capacity cfg) + 1)%nat.
Proof. unfold sat_u64, saturating_add, u64_max. rewrite PAGE_ENTRIES_eq in Hinner. lia. Qed.

(** Whether the level can be grouped: leaves are not left alone. *)
Definition groupable (cs : children) : Prop :=
  length cs = 1%nat \/ (length cs mod (Z.to_nat (internal_capacity cfg) + 1) <> 1)%nat \/ Forall (fun c => is_leaf (snd c) = false) cs.

Lemma chunks_group_ok cs :
  (2 <= length cs)%nat -> groupable cs -> Forall group_ok (chunks (Z.to_nat (internal_capacity cfg) + 1) cs).
Proof.
  intros Hlen Hg. destruct (chunks_spec (Z.to_nat (internal_capacity cfg) + 1) cs ltac:(lia)) as (Hc & Hb & _).
  destruct Hg as [Hg|[Hg|Hg]]; [lia| |].
  - pose proof (chunks_fuel_pairs (Z.to_nat (internal_capacity cfg) + 1) ltac:(lia) (length cs) cs ltac:(lia) Hg) as Hp. fold (chunks (Z.to_nat (internal_capacity cfg) + 1) cs) in Hp.
    rewrite Forall_forall in *. intros g Hin. split; [by apply Hb|]. intros E. by specialize (Hp g Hin).
  - rewrite <- Hc in Hg. apply Forall_concat in Hg. rewrite Forall_forall in *. intros g Hin. split; [by apply Hb|]. intros _. by apply Hg.
Qed.

Lemma hp_bulk_levels ls : forall fuel cs m L h (Q : PoolResult (list (Z * Z) * Z) -> Meta -> list cell -> Prop),
  level_ok ls cs -> cs <> [] -> groupable cs -> L ≡ₚ kids_inner cs ++ chain ls NO_PAGE -> (length cs <= fuel)%nat ->
  Z.of_nat (kids_depth cs) <= h -> h + Z.of_nat (length cs) <= u32_max -> m_next m + 2 * Z.of_nat (length cs) < PAGE_LIMIT ->
  (forall m' L' s T h', level_ok ls [(s, T)] -> L' ≡ₚ cells T -> Z.of_nat (depth T) <= h' <= h + Z.of_nat (length cs) ->
     m_next m' <= m_next m + 2 * Z.of_nat (length cs) -> Q (Ok ([(s, page T)], h')) m' L') ->
  hp (bulk_levels cfg fuel (kids cs) h) m L Q.
Proof.
  induction fuel as [|fuel IH]; intros cs m L h Q Hok Hne Hg HL Hf Hd Hh Hn HQ; [destruct cs; [done|cbn in Hf; lia]|].
  cbn [bulk_levels]. rewrite length_kids. destruct (Nat.ltb_spec 1 (length cs)) as [Hlen|Hlen].
  - rewrite sat_cap, chunks_kids. set (gs := chunks _ cs).
    destruct (chunks_spec (Z.to_nat (internal_capacity cfg) + 1) cs ltac:(lia)) as (Hc & Hb & Hcnt). fold gs in Hc, Hb, Hcnt.
    pose proof (chunks_group_ok cs ltac:(lia) Hg) as Hgs. fold gs in Hgs.
    assert (Hglen : (1 <= length gs)%nat /\ (3 * length gs <= length cs + 2)%nat).
    { split; [destruct gs; [by rewrite <- Hc in Hlen; cbn in Hlen; lia|cbn; lia]|]. nia. }
    apply hp_pages. intros _ Hpo _. apply hp_bind, hp_bulk_groups; [done| |lia|].
    { assert (Hu : Forall (fun c => in_u64 (fst c) /\ in_u64 (page (snd c))) (concat gs)).
      { rewrite Hc. apply Forall_and. split; [apply Hok|]. eapply level_pages; [exact Hpo|]. intros c. by rewrite HL, (lv_leaves _ _ Hok). }
      by apply Forall_concat in Hu. }
    intros m' L' ps Hps HL' Hm'.
    assert (Hgne : Forall (fun g => g <> []) gs) by (eapply Forall_impl; [exact Hb|]; intros [|? ?] ?; [cbn in *; lia|done]).
    destruct (node_kids_eqs ps gs Hps Hgne) as (E1 & E2 & E3 & E4). rewrite Hc in *.
    assert (Hkl : length (node_kids ps gs) = length gs) by (unfold node_kids; rewrite length_zip_with; lia).
    unfold saturating_add. rewrite Z.min_r by lia.
    eapply IH.
    + eapply node_kids_ok; [done|done|]. by rewrite Hc.
    + intros E. rewrite E in Hkl. cbn in Hkl. lia.
    + right. right. apply node_kids_inner.
    + rewrite HL', HL, E3. solve_Permutation.
    + lia.
    + lia.
    + lia.
    + lia.
    + intros m2 L2 s T h' H1 H2 H3 H4. apply HQ; [done|done|lia|lia].
  - destruct cs as [|[s t] [|? ?]]; [done| |cbn in Hlen; lia]. rewrite kids_cons, kids_nil. apply hp_mret.
    autorewrite with btree in *. rewrite !app_nil_r in *. apply HQ; [done| |lia|lia].
    rewrite HL. unfold cells. pose proof (lv_leaves _ _ Hok) as Hl. autorewrite with btree in Hl. by rewrite app_nil_r in Hl; subst.
Qed.

(** ** From entries to the level of leaves *)

Lemma leaf_kids_sorted : forall ls, Forall (fun l => snd l <> []) ls -> sorted_entries (leaf_entries ls) ->
  StronglySorted Z.lt (kids_flat (leaf_kids ls)) /\
  (forall x, x ∈ kids_flat (leaf_kids ls) -> exists e, e ∈ leaf_entries ls /\ 2 * fst e <= x).
Proof.
  induction ls as [|[n es] ls IH]; intros Hne Hs; cbn [leaf_kids map fst snd].
  { rewrite kids_flat_nil. split; [constructor|]. by intros x ?%elem_of_nil. }
  apply Forall_cons in Hne as [Hn Hne]. cbn [snd] in Hn. unfold leaf_entries in Hs. cbn in Hs. fold (leaf_entries ls) in Hs.
  apply sorted_entries_app in Hs as (H1 & H2 & H3). destruct (IH Hne H2) as [IH1 IH2]. rewrite kids_flat_cons. fold (leaf_kids ls). cbn [flat].
  destruct es as [|[k v] es]; [done|]. cbn [first_key].
  assert (Hmem : forall e, e ∈ (k, v) :: es -> k <= fst e).
  { intros e [->|He]%elem_of_cons; [done|]. apply sorted_entries_cons in H1 as [_ H1]. specialize (H1 e He). cbn in H1. lia. }
  split.
  - constructor.
    + apply StronglySorted_app. split_and!; [|done|done]. intros x y Hx Hy. apply list_elem_of_fmap in Hx as (e & -> & He).
      destruct (IH2 y Hy) as (e' & He' & Hle). specialize (H3 e e' He He'). unfold key_code. lia.
    + apply Forall_app. split; apply Forall_forall.
      * intros x Hx. apply list_elem_of_fmap in Hx as (e & -> & He). specialize (Hmem e He). unfold key_code. lia.
      * intros x Hx. destruct (IH2 x Hx) as (e' & He' & Hle). specialize (H3 (k, v) e' ltac:(left) He'). cbn in H3. lia.
  - intros x Hx. unfold leaf_entries. cbn. fold (leaf_entries ls). apply elem_of_cons in Hx as [->|[Hx|Hx]%elem_of_app].
    + exists (k, v). split; [left|done].
    + apply list_elem_of_fmap in Hx as (e & -> & He). exists e. split; [|unfold key_code; lia].
      rewrite elem_of_cons, elem_of_app. apply elem_of_cons in He. tauto.
    + destruct (IH2 x Hx) as (e & He & Hle). exists e. split; [|done]. rewrite elem_of_cons, elem_of_app. tauto.
Qed.

Lemma leaf_kids_level ls :
  Forall (fun l => snd l <> [] /\ count_of (snd l) <= leaf_capacity cfg) ls -> sorted_entries (leaf_entries ls) ->
  Forall u64_entry (leaf_entries ls) -> level_ok ls (leaf_kids ls).
Proof.
  intros Hls Hs Hu. destruct (leaf_kids_eqs ls) as (_ & H2 & _).
  assert (Hne : Forall (fun l => snd l <> []) ls) by (eapply Forall_impl; [exact Hls|]; by intros l [? _]).
  split; [|done|by apply leaf_kids_sorted|].
  - unfold leaf_kids. apply Forall_map. eapply Forall_impl; [exact Hls|]. intros l [_ Hc]. by constructor.
  - unfold leaf_kids. apply Forall_map. unfold leaf_entries in Hu. apply Forall_concat in Hu. rewrite Forall_fmap in Hu.
    rewrite Forall_forall in *. intros l Hl. specialize (Hu l Hl). cbn in Hu. specialize (Hne l Hl). cbn. destruct (snd l) as [|[k v] es]; [done|].
    by apply Forall_cons in Hu as [[? _] _].
Qed.

(** The number of leaves [bulk_load_sorted] writes. *)
Definition bulk_leaf_count (entries : list (Z * Z)) : nat := length (chunks (Z.to_nat (leaf_capacity cfg)) entries).

(** No leaf is left alone below its parent. *)
Definition bulk_ok (entries : list (Z * Z)) : Prop :=
  (bulk_leaf_count entries <= 1)%nat \/ (bulk_leaf_count entries mod (Z.to_nat (internal_capacity cfg) + 1) <> 1)%nat.

Lemma bulk_leaf_count_le entries : (bulk_leaf_count entries <= length entries)%nat.
Proof.
  unfold bulk_leaf_count. destruct (chunks_spec (Z.to_nat (leaf_capacity cfg)) entries ltac:(lia)) as (_ & _ & H). nia.
Qed.

Lemma hp_flush m L (Q : PoolResult unit -> Meta -> list cell -> Prop) : Q (Ok tt) m L -> hp flush m L Q.
Proof. intros HQ s Hs. unfold flush, wp. cbn [run_in mbind Prog_bind]. by exists m, L. Qed.

Lemma hp_bulk_load fuel entries (Q : PoolResult unit -> Meta -> list cell -> Prop) :
  entries <> [] -> sorted_entries entries -> Forall u64_entry entries -> bulk_ok entries ->
  (bulk_leaf_count entries <= fuel)%nat -> Z.of_nat (length entries) < u32_max -> 4 * Z.of_nat (length entries) < PAGE_LIMIT ->
  (forall m L T, btree cfg m L T -> contents T = entries -> m_next m <= 1 + 3 * Z.of_nat (length entries) ->
     m_height m <= 1 + Z.of_nat (length entries) -> Q (Ok tt) m L) ->
  hp (level ← bulk_leaves (chunks (Z.to_nat (Z.max (leaf_capacity cfg) 1)) entries);
      _ ← bulk_link level;
      '(level, h) ← bulk_levels cfg fuel level 1;
      '(_, root) ← at_index (head level);
      _ ← set_root root h; flush) first_meta [] Q.
Proof.
  intros Hne Hs Hu Hbk Hf Hlen Hlim HQ. rewrite Z.max_l by lia. pose proof (bulk_leaf_count_le entries) as Hcl. unfold bulk_ok, bulk_leaf_count in *.
  set (cs := chunks (Z.to_nat (leaf_capacity cfg)) entries) in *.
  destruct (chunks_spec (Z.to_nat (leaf_capacity cfg)) entries ltac:(lia)) as (Hc & Hb & _). fold cs in Hc, Hb.
  assert (Hcs : Forall (fun c => c <> [] /\ count_of c <= leaf_capacity cfg) cs).
  { eapply Forall_impl; [exact Hb|]. intros c Hcl'. cbn beta in Hcl'. unfold count_of. split; [by intros ->; cbn in Hcl'; lia|lia]. }
  apply hp_bind, hp_bulk_leaves; [|cbn; destruct entries; [done|cbn [length] in *; lia]|].
  { rewrite <- Hc in Hu. apply Forall_concat in Hu. rewrite Forall_forall in *. intros c Hin. destruct (Hcs c Hin). split; [done|]. split; [by apply Hu|lia]. }
  intros m L ls Hls HL Hm. rewrite app_nil_r in HL. cbn [first_meta m_next] in Hm.
  apply hp_bind. apply (hp_bulk_link ls []); [by rewrite app_nil_r|]. intros L1 HL1. rewrite app_nil_r in HL1.
  assert (Hle : leaf_entries ls = entries) by (unfold leaf_entries; by rewrite Hls).
  assert (Hlc : length (leaf_kids ls) = length cs) by (unfold leaf_kids; rewrite length_map, <- Hls; symmetry; apply length_fmap).
  destruct (leaf_kids_eqs ls) as (_ & _ & Hin & Hdep). apply hp_bind.
  eapply (hp_bulk_levels ls fuel (leaf_kids ls)).
  - apply leaf_kids_level; [|by rewrite Hle|by rewrite Hle]. rewrite <- Hls in Hcs. by rewrite Forall_fmap in Hcs.
  - intros E. rewrite E in Hlc. cbn in Hlc. destruct cs; [|done]. cbn in Hc. congruence.
  - unfold groupable. rewrite Hlc. destruct Hbk as [Hbk|Hbk]; [|by right; left]. left. destruct cs; [by cbn in Hc; congruence|cbn [length] in Hbk |- *; lia].
  - by rewrite Hin.
  - lia.
  - lia.
  - lia.
  - destruct entries; [done|cbn [length] in *; lia].
  - intros m' L' s T h' [Hsh Hlv Hso Hsu] HL' Hh' Hm'. cbn beta iota. cbn [head]. apply hp_bind. eapply hp_at_index; [done|]. cbn beta iota.
    apply hp_pages. intros _ Hpo _. autorewrite with btree in Hlv, Hso. rewrite app_nil_r in Hlv, Hso.
    assert (Hpu : in_u64 (page T)).
    { pose proof (level_pages m' L' [(s, T)] Hpo) as Hp. autorewrite with btree in Hp. rewrite !app_nil_r in Hp.
      specialize (Hp ltac:(intros c; by rewrite HL')). by apply Forall_cons in Hp as [? _]. }
    apply hp_bind, hp_set_root; [done|unfold in_u32, u32_max in *; lia|]. apply hp_flush. apply (HQ _ _ T); cbn; [|unfold contents; by rewrite Hlv|lia|lia].
    apply Forall_cons in Hsh as [Hsh _]. split; [done|done|cbn; lia|]. split; [done|by inversion Hso|right].
    rewrite Hlv. rewrite <- Hls, Forall_fmap in Hcs. eapply Forall_impl; [exact Hcs|]. by intros l [? _].
Qed.

End Build.

End Building.
