(* ===== verification/BTreeSpec.v ===== *)
(** * The disk B+tree as a map

    The promise of [DiskBTree] to its clients: it is a finite map from [u64] keys to
    [u64] values with ordered scans.  [explained] gives the answers a map would give to a
    sequence of operations; the theorems say that a tree that was just created, or bulk
    loaded, gives those answers.  The one deviation is that a deletion may return an
    error after it removed the key, which does not happen on trees of at most two
    levels. *)

From S2P Require Import Prelude.
From S2P Require Import Bytes.
From S2P Require Import PageBytes.
From S2P Require Import PoolPage.
From S2P Require Import ClockSweep.
From S2P Require Import BufferPool.
From S2P Require Import BTreePage.
From S2P Require Import PageProg.
From S2P Require Import DiskBTree.
From S2P Require Import BTreeMaintenance.
From S2P Require Import BTreeState.
From S2P Require Import BTreeShape.
From S2P Require Import BTreeRead.
From S2P Require Import BTreeInsert.
From S2P Require Import BTreeRepair.
From S2P Require Import BTreeDelete.
From S2P Require Import BTreeBuild.

(** ** Sorted entries and maps *)

Definition map_of (es : list (Z * Z)) : gmap Z Z := list_to_map es.

Definition key_le (a b : Z * Z) : Prop := fst a <= fst b.

#[global] Instance key_le_dec a b : Decision (key_le a b).
Proof. unfold key_le. apply _. Defined.

#[global] Instance key_le_trans : Transitive key_le.
Proof. intros a b c. unfold key_le. lia. Qed.

#[global] Instance key_le_total : Total key_le.
Proof. intros a b. unfold key_le. lia. Qed.

(** The entries of a map by ascending key. *)
Definition entries_of (M : gmap Z Z) : list (Z * Z) := merge_sort key_le (map_to_list M).

Lemma sorted_entries_strong es : sorted_entries es <-> StronglySorted (fun a b => fst a < fst b) es.
Proof.
  induction es as [|e es IH]; [split; constructor|]. rewrite sorted_entries_cons, IH. split.
  - intros [Hs Hall]. constructor; [done|]. by apply Forall_forall.
  - inversion 1 as [|? ? Hs Hall]; subst. split; [done|]. by apply Forall_forall.
Qed.

Lemma sorted_entries_NoDup es : sorted_entries es -> NoDup es.*1.
Proof.
  induction es as [|e es IH]; [constructor|]. intros [Hs Hall]%sorted_entries_cons. rewrite fmap_cons. constructor; [|by apply IH].
  intros Hin. apply list_elem_of_fmap in Hin as (e' & E & Hin). specialize (Hall e' Hin). lia.
Qed.

Lemma entries_of_sorted M : sorted_entries (entries_of M).
Proof.
  apply sorted_entries_strong. unfold entries_of.
  assert (Hs : StronglySorted key_le (merge_sort key_le (map_to_list M))) by (apply StronglySorted_merge_sort; apply _).
  assert (Hnd : NoDup (merge_sort key_le (map_to_list M)).*1).
  { rewrite (merge_sort_Permutation key_le). apply NoDup_fst_map_to_list. }
  induction Hs as [|e es Hs IH Hall]; [constructor|]. rewrite fmap_cons in Hnd. apply NoDup_cons in Hnd as [Hni Hnd].
  constructor; [by apply IH|]. apply Forall_forall. intros e' He'. rewrite Forall_forall in Hall. specialize (Hall e' He').
  unfold key_le in Hall. assert (fst e <> fst e'); [|lia]. intros E. apply Hni. rewrite E. by apply list_elem_of_fmap_2.
Qed.

#[global] Instance key_lt_antisymm : AntiSymm (=) (fun a b : Z * Z => fst a < fst b).
Proof. intros a b. lia. Qed.

Lemma entries_of_map es : sorted_entries es -> entries_of (map_of es) = es.
Proof.
  intros Hs. apply (StronglySorted_unique (fun a b => fst a < fst b)).
  - apply sorted_entries_strong, entries_of_sorted.
  - by apply sorted_entries_strong.
  - unfold entries_of, map_of. rewrite (merge_sort_Permutation key_le). apply map_to_list_to_map. by apply sorted_entries_NoDup.
Qed.

Lemma map_of_lookup es k : sorted_entries es -> map_of es !! k = entry_value es k.
Proof.
  intros Hs. unfold entry_value. destruct (binary_search es k) as [i|i] eqn:E.
  - destruct (binary_search_Ok _ _ _ E) as (v & A & B & -> & <- & HA). rewrite list_lookup_middle by done. cbn.
    unfold map_of. apply elem_of_list_to_map; [by apply sorted_entries_NoDup|]. rewrite elem_of_app. right. left.
  - destruct (binary_search_Err _ _ _ E Hs) as (A & B & -> & _ & HA & HB). apply not_elem_of_list_to_map. intros Hin.
    apply list_elem_of_fmap in Hin as (e & -> & [He|He]%elem_of_app); [specialize (HA _ He)|specialize (HB _ He)]; lia.
Qed.

Lemma map_of_middle A B k v : all_below k A -> map_of (A ++ (k, v) :: B) = <[k := v]> (map_of (A ++ B)).
Proof.
  intros HA. unfold map_of. rewrite !list_to_map_app. cbn. rewrite insert_union_r; [done|]. apply not_elem_of_list_to_map.
  intros Hin. apply list_elem_of_fmap in Hin as (e & -> & He). specialize (HA e He). lia.
Qed.

Lemma map_of_put es k v : sorted_entries es -> map_of (put_entry es k v) = <[k := v]> (map_of es).
Proof.
  intros Hs. destruct (put_entry_cases es k v Hs) as (A & B & HA & HB & -> & [->|[v' ->]]); rewrite !map_of_middle by done; [done|].
  by rewrite insert_insert, decide_True by done.
Qed.

Lemma map_of_remove es k : sorted_entries es -> map_of (remove_entry k es) = base.delete k (map_of es).
Proof.
  intros Hs. destruct (entry_value es k) as [v|] eqn:E.
  - unfold entry_value in E. destruct (binary_search es k) as [i|] eqn:Hb; [|done].
    destruct (binary_search_Ok _ _ _ Hb) as (w & A & B & -> & _ & HA). rewrite remove_entry_middle by done.
    rewrite map_of_middle by done. rewrite delete_insert_id; [done|].
    apply not_elem_of_list_to_map. apply sorted_entries_NoDup in Hs. rewrite fmap_app, fmap_cons in Hs. rewrite fmap_app.
    rewrite <- Permutation_middle in Hs. by apply NoDup_cons in Hs as [? _].
  - rewrite remove_entry_absent by done. rewrite delete_id; [done|]. by rewrite map_of_lookup.
Qed.

(** ** Operations and their meaning on a map *)

Inductive Op : Type :=
| OpInsert (key value : Z)
| OpDelete (key : Z)
| OpGet (key : Z)
| OpRange (lower upper limit : option Z)
| OpRangeDesc (lower upper limit : option Z).

Inductive Reply : Type := RDone | RPresent (b : bool) | RValue (v : option Z) | REntries (es : list (Z * Z)).

(** Arguments as the types [u64] and [Option<usize>] allow. *)
Definition op_ok (op : Op) : Prop :=
  match op with
  | OpInsert key value => in_u64 key /\ in_u64 value
  | OpRange _ _ limit | OpRangeDesc _ _ limit => limit_ok limit
  | _ => True
  end.

Definition effect (M : gmap Z Z) (op : Op) : gmap Z Z :=
  match op with OpInsert key value => <[key := value]> M | OpDelete key => base.delete key M | _ => M end.

Definition reply (M : gmap Z Z) (op : Op) : Reply :=
  match op with
  | OpInsert _ _ => RDone
  | OpDelete key => RPresent (bool_decide (is_Some (M !! key)))
  | OpGet key => RValue (M !! key)
  | OpRange lower upper limit => REntries (range_spec lower upper limit (entries_of M))
  | OpRangeDesc lower upper limit => REntries (range_desc_spec lower upper limit (entries_of M))
  end.

(** The results [rs] of [ops] from the map [M], which becomes [M']. *)
Inductive explained : gmap Z Z -> list Op -> list (PoolResult Reply) -> gmap Z Z -> Prop :=
| explained_nil M : explained M [] [] M
| explained_reply M op ops rs M' :
    explained (effect M op) ops rs M' -> explained M (op :: ops) (Ok (reply M op) :: rs) M'
| explained_repair M key e ops rs M' :
    is_Some (M !! key) -> explained (base.delete key M) ops rs M' ->
    explained M (OpDelete key :: ops) (Err e :: rs) M'.

(** The same operations as calls of [DiskBTree]. *)
Definition op_prog (cfg : DiskBTreeConfig) (fuel : nat) (op : Op) : Prog Reply :=
  match op with
  | OpInsert key value => _ ← insert cfg fuel key value; mret RDone
  | OpDelete key => b ← delete cfg fuel key; mret (RPresent b)
  | OpGet key => v ← get fuel key; mret (RValue v)
  | OpRange lower upper limit => es ← range fuel lower upper limit; mret (REntries es)
  | OpRangeDesc lower upper limit => es ← range_desc fuel lower upper limit; mret (REntries es)
  end.

Section Calls.
Context {PL : PageLimit}.

(** Calls one after the other, whatever they return; [None] if one panics. *)
Fixpoint run_ops (cfg : DiskBTreeConfig) (fuel : nat) (ops : list Op) (s : Rel) : option (list (PoolResult Reply) * Rel) :=
  match ops with
  | [] => Some ([], s)
  | op :: ops =>
      match run (op_prog cfg fuel op) s with
      | Some (r, s') =>
          match run_ops cfg fuel ops s' with Some (rs, s'') => Some (r :: rs, s'') | None => None end
      | None => None
      end
  end.

(** Operations that neither the metapage's 32-bit height nor the page numbers limit: one
    of them allocates at most as many pages as there were operations before it. *)
Definition room_for (n : Z) : Prop := n <= 2 ^ 31 /\ (n + 2) * (n + 2) <= PAGE_LIMIT.

Section Spec.
Context (cfg : DiskBTreeConfig).
Hypothesis Hleaf : 1 <= leaf_capacity cfg <= PAGE_ENTRIES.
Hypothesis Hinner : 2 <= internal_capacity cfg <= PAGE_ENTRIES.

(** The relation [s] holds a tree with the entries [M] that [i] insertions can make. *)
Record within_budget (i : Z) (m : Meta) (T : tree) : Prop := {
  wb_entries : count_of (contents T) <= i;
  wb_next : m_next m <= (i + 2) * (i + 2);
  wb_height : m_height m <= i + 1 }.

Definition holds (i : Z) (s : Rel) (M : gmap Z Z) : Prop :=
  exists m L T, rep s m L /\ btree cfg m L T /\ map_of (contents T) = M /\ within_budget i m T.

Lemma leaves_bound T : tree_ok cfg T -> (length (leaves T) <= length (contents T) + 1)%nat.
Proof.
  intros [_ _ [Hf|Hf]]; [destruct T; cbn in *; [lia|done]|]. unfold contents. induction (leaves T) as [|[n es] ls IH]; [cbn; lia|].
  apply Forall_cons in Hf as [Hn Hf]. specialize (IH Hf). cbn [snd] in Hn. cbn. rewrite length_app. destruct es; [done|]. cbn. lia.
Qed.

(** What an operation leaves: the answer and the map of the specification. *)
Definition op_post (i : Z) (op : Op) (T : tree) (r : PoolResult Reply) (m' : Meta) (L' : list cell) : Prop :=
  exists T', btree cfg m' L' T' /\ within_budget (i + 1) m' T' /\
    map_of (contents T') = effect (map_of (contents T)) op /\
    (r = Ok (reply (map_of (contents T)) op) \/
     exists key e, op = OpDelete key /\ r = Err e /\ is_Some (map_of (contents T) !! key) /\ (2 < depth T)%nat).

Lemma budget_same i m T : within_budget i m T -> 0 <= i -> within_budget (i + 1) m T.
Proof. intros [] Hi. split; nia. Qed.

Lemma hp_op fuel i op m L T :
  btree cfg m L T -> within_budget i m T -> op_ok op -> 0 <= i -> room_for (i + 1) -> i + 1 <= Z.of_nat fuel ->
  hp (op_prog cfg fuel op) m L (op_post i op T).
Proof.
  intros HT Hb Hop Hi [Hi31 Hlim] Hfu. pose proof (tree_sorted _ _ _ _ HT) as Hso. pose proof (leaves_bound T (bt_tree _ _ _ _ HT)) as Hlv.
  pose proof (bt_height _ _ _ _ HT) as Hht. pose proof Hb as [Hb1 Hb2 Hb3]. unfold count_of in Hb1.
  assert (Hd : (depth T <= fuel)%nat) by lia. assert (Hl : (length (leaves T) <= fuel)%nat) by lia.
  assert (Hread : forall r, r = Ok (reply (map_of (contents T)) op) -> effect (map_of (contents T)) op = map_of (contents T) -> op_post i op T r m L).
  { intros r Hr He. exists T. split_and!; [done|apply budget_same; [done|lia]|by symmetry|by left]. }
  destruct op as [key value|key|key|lower upper limit|lower upper limit]; cbn [op_prog op_ok] in *.
  - apply hp_bind. destruct Hop as [Hk Hv]. eapply hp_insert; try done; [nia|unfold u32_max; lia|].
    intros m' L' T' HT' Hc [Hg1 Hg2]. apply hp_mret. exists T'. split_and!; [done| |by rewrite Hc, map_of_put|by left].
    pose proof (put_entry_length (contents T) key value Hso) as [Hpl _]. split; [rewrite Hc; unfold count_of in *; lia|nia|lia].
  - apply hp_bind. eapply hp_delete; try done. intros r m' L' T' HT' [Hc [Hn Hh _ _] Hdep Hres].
    assert (Hbud : within_budget (i + 1) m' T').
    { split; [|rewrite Hn; nia|lia]. rewrite Hc. unfold remove_entry, count_of. pose proof (length_filter (fun e => fst e <> key) (contents T)). lia. }
    destruct Hres as [->|(H2 & Hsome & Herr)].
    + apply hp_mret. exists T'. split_and!; [done|done|by rewrite Hc, map_of_remove|left]. cbn [reply]. by rewrite map_of_lookup.
    + destruct r as [b|e]; [done|]. exists T'. split_and!; [done|done|by rewrite Hc, map_of_remove|right].
      exists key, e. by rewrite map_of_lookup.
  - apply hp_bind. eapply hp_get; [done|done|]. apply hp_mret, Hread; [|done]. cbn [reply]. by rewrite map_of_lookup.
  - apply hp_bind. eapply hp_range; try done. apply hp_mret, Hread; [|done]. cbn [reply]. by rewrite entries_of_map.
  - apply hp_bind. eapply hp_range_desc; try done. apply hp_mret, Hread; [|done]. cbn [reply]. by rewrite entries_of_map.
Qed.

Lemma ops_explained fuel : forall ops i s M,
  holds i s M -> Forall op_ok ops -> 0 <= i -> room_for (i + Z.of_nat (length ops)) -> i + Z.of_nat (length ops) <= Z.of_nat fuel ->
  exists rs s' M', run_ops cfg fuel ops s = Some (rs, s') /\ explained M ops rs M' /\ holds (i + Z.of_nat (length ops)) s' M'.
Proof.
  induction ops as [|op ops IH]; intros i s M Hh Hops Hi Hn Hf.
  { exists [], s, M. split_and!; [done|constructor|]. by rewrite Z.add_0_r. }
  apply Forall_cons in Hops as [Hop Hops]. cbn [length] in *. destruct Hh as (m & L & T & Hrep & HT & HM & Hb).
  pose proof (hp_op fuel i op m L T HT Hb Hop Hi ltac:(destruct Hn; split; nia) ltac:(lia) s Hrep) as Hw. apply wp_run in Hw as (r & s1 & Hrun & m1 & L1 & Hrep1 & T1 & HT1 & Hb1 & HM1 & Hres).
  destruct (IH (i + 1) s1 (effect M op)) as (rs & s2 & M2 & Hruns & Hex & Hh2); [|done|lia|destruct Hn; split; nia|lia|].
  { exists m1, L1, T1. split_and!; [done|done|by rewrite HM1, HM|done]. }
  exists (r :: rs), s2, M2. cbn [run_ops]. rewrite Hrun, Hruns. split_and!; [done| |by replace (i + Z.of_nat (S (length ops))) with (i + 1 + Z.of_nat (length ops)) by lia].
  rewrite HM in Hres. destruct Hres as [->|(key & e & -> & -> & Hsome & _)]; by constructor.
Qed.

(** ** Creation *)

(** A relation with no metapage, in a store that does not find it or reads zeros, or with
    one that was never written. *)
Definition fresh (s : Rel) : Prop :=
  match pages s !! META_PAGE_NO with
  | None => absent s = not_found \/ absent s = Some (Ok zero_page)
  | Some d => Forall (fun byte => byte = 0) d
  end.

Lemma zero_not_magic d : Forall (fun byte => byte = 0) d -> slice d 0 8 <> META_MAGIC.
Proof.
  intros Hd E. assert (Hz : Forall (fun byte => byte = 0) (slice d 0 8)) by (unfold slice; by apply Forall_take, Forall_drop).
  rewrite E in Hz. apply Forall_cons in Hz as [Hz _]. by vm_compute in Hz.
Qed.

Lemma holds_empty s m L n :
  rep s m L -> btree cfg m L (TLeaf n []) -> m_next m <= 2 -> m_height m = 1 -> holds 0 s ∅.
Proof. intros Hr HT Hn Hh. exists m, L, (TLeaf n []). split_and!; [done|done|done|]. split; [done|lia|lia]. Qed.

Lemma wp_initialize_empty s (Q : PoolResult unit -> Rel -> Prop) :
  next_page s = 0 -> (forall s', holds 0 s' ∅ -> Q (Ok tt) s') -> wp initialize_empty s Q.
Proof.
  intros Hn HQ. apply wp_bind, wp_initialize_meta; [done|]. intros s1 Hs1. eapply wp_mono.
  - eapply wp_hp; [|exact Hs1]. eapply (hp_first_root cfg Hleaf) with (Q := fun r m L => r = Ok tt /\ exists n, btree cfg m L (TLeaf n []) /\ m_next m <= 2 /\ m_height m = 1).
    intros m L n H1 H2 H3. split; [done|]. by exists n.
  - cbn beta. intros r s' (m & L & Hr & -> & n & H1 & H2 & H3). apply HQ. by eapply holds_empty.
Qed.

Lemma wp_open s : fresh s -> wp open_or_create s (fun r s' => r = Ok tt /\ holds 0 s' ∅).
Proof.
  intros Hf. unfold fresh in Hf.
  assert (Hinit : wp reset_and_initialize s (fun r s' => r = Ok tt /\ holds 0 s' ∅)).
  { unfold reset_and_initialize, wp. cbn [run_in mbind Prog_bind]. by apply (wp_initialize_empty (no_pages (absent s))). }
  assert (Hzero : forall d, Forall (fun byte => byte = 0) d ->
    wp (if bool_decide (slice d 0 8 = META_MAGIC) then mret tt
        else if forallb (fun byte => byte =? 0) d then reset_and_initialize else Ret (Err corrupt)) s
      (fun r s' => r = Ok tt /\ holds 0 s' ∅)).
  { intros d Hd. rewrite bool_decide_eq_false_2 by (by apply zero_not_magic).
    assert (Hz : forallb (fun byte => byte =? 0) d = true); [|by rewrite Hz].
    apply forallb_forall. intros x Hx. apply list_elem_of_In in Hx. rewrite Forall_forall in Hd. by apply Z.eqb_eq, Hd. }
  unfold wp, open_or_create. cbn [run_in]. destruct (pages s !! META_PAGE_NO) as [d|]; [by apply (Hzero d)|].
  destruct Hf as [->| ->]; [exact Hinit|]. apply (Hzero zero_page). by apply Forall_replicate.
Qed.

Lemma wp_bulk_body fuel entries s (Q : PoolResult unit -> Rel -> Prop) :
  entries <> [] ->
  wp (_ ← initialize_meta_page;
      level ← bulk_leaves (chunks (Z.to_nat (Z.max (leaf_capacity cfg) 1)) entries);
      _ ← bulk_link level;
      '(level, h) ← bulk_levels cfg fuel level 1;
      '(_, root) ← at_index (head level);
      _ ← set_root root h; flush) (no_pages (absent s)) Q ->
  wp (bulk_load_sorted cfg fuel entries) s Q.
Proof. intros Hne Hw. by destruct entries. Qed.

Lemma wp_bulk_load fuel entries s :
  sorted_entries entries -> Forall u64_entry entries -> bulk_ok cfg entries ->
  (bulk_leaf_count cfg entries <= fuel)%nat -> room_for (Z.of_nat (length entries)) ->
  wp (bulk_load_sorted cfg fuel entries) s (fun r s' => r = Ok tt /\ holds (Z.of_nat (length entries)) s' (map_of entries)).
Proof.
  intros Hs Hu Hb Hf [Hlen Hlim]. destruct (decide (entries = [])) as [->|Hne].
  { unfold bulk_load_sorted, wp. cbn [run_in mbind Prog_bind]. by apply (wp_initialize_empty (no_pages (absent s))). }
  eapply wp_bulk_body; [done|]. apply wp_bind, wp_initialize_meta; [done|]. intros s1 Hs1. eapply wp_mono.
  - eapply wp_hp; [|exact Hs1].
    eapply (hp_bulk_load cfg Hleaf Hinner) with (Q := fun r m L => r = Ok tt /\ exists T, btree cfg m L T /\ contents T = entries /\
      within_budget (Z.of_nat (length entries)) m T); try done; [unfold u32_max; lia|nia|].
    intros m L T HT Hc Hn Hh. split; [done|]. exists T. split_and!; [done|done|]. split; [by rewrite Hc|nia|lia].
  - cbn beta. intros r s' (m & L & Hr & -> & T & HT & Hc & Hbud). split; [done|]. exists m, L, T. split_and!; [done|done|by rewrite Hc|done].
Qed.

End Spec.

(** ** Theorems *)

(** Capacities that fit a page, as those of [DiskBTreeConfig::new] do. *)
Definition config_ok (cfg : DiskBTreeConfig) : Prop :=
  1 <= leaf_capacity cfg <= PAGE_ENTRIES /\ 2 <= internal_capacity cfg <= PAGE_ENTRIES.

Lemma reopen cfg i s M : holds cfg i s M -> run open_or_create s = Some (Ok tt, s).
Proof.
  intros (m & L & T & [(d & Hd & (_ & Hm & _)) _ _ _ _ _] & _). unfold open_or_create. cbn [run_in]. rewrite Hd.
  by rewrite bool_decide_eq_true_2.
Qed.

(** [C8] A disk B+tree refines a finite map: from a relation with no metapage,
    [open_or_create] succeeds, and every sequence of insertions, deletions, lookups and
    ascending or descending range scans after it, up to 2^31 of them if there are page
    numbers enough, runs without a panic and gives the results of the same operations on a
    map that starts empty; the only other result is that of a deletion that removed its key
    and then returned an error.  Opening the relation again changes nothing. *)
Theorem created_tree_is_map cfg fuel ops s :
  config_ok cfg -> fresh s -> Forall op_ok ops -> room_for (Z.of_nat (length ops)) -> (length ops <= fuel)%nat ->
  exists s1 rs s2 M, run open_or_create s = Some (Ok tt, s1) /\ run_ops cfg fuel ops s1 = Some (rs, s2) /\
    explained ∅ ops rs M /\ run open_or_create s2 = Some (Ok tt, s2).
Proof.
  intros [Hl Hi] Hf Hops Hn Hfu. pose proof (wp_open cfg Hl s Hf) as Hw. apply wp_run in Hw as (r & s1 & Hr & -> & Hh).
  destruct (ops_explained cfg Hl Hi fuel ops 0 s1 ∅ Hh Hops) as (rs & s2 & M & H1 & H2 & H3); [lia|done|lia|].
  exists s1, rs, s2, M. split_and!; [done|done|done|by eapply reopen].
Qed.

(** [C24] [bulk_load_sorted] replaces whatever the relation held by a tree with the given
    entries, sorted and without duplicates: operations after it give the results of the
    same operations on the map of those entries.  The number of leaves must not leave one
    leaf alone below a parent. *)
Theorem bulk_loaded_tree_is_map cfg fuel entries ops s :
  config_ok cfg -> sorted_entries entries -> Forall u64_entry entries -> bulk_ok cfg entries -> Forall op_ok ops ->
  room_for (Z.of_nat (length entries + length ops)) -> (length entries + length ops <= fuel)%nat ->
  exists s1 rs s2 M, run (bulk_load_sorted cfg fuel entries) s = Some (Ok tt, s1) /\
    run_ops cfg fuel ops s1 = Some (rs, s2) /\ explained (map_of entries) ops rs M.
Proof.
  intros [Hl Hi] Hs Hu Hb Hops Hn Hfu. pose proof (bulk_leaf_count_le cfg Hl entries) as Hcl.
  pose proof (wp_bulk_load cfg Hl Hi fuel entries s Hs Hu Hb ltac:(lia) ltac:(destruct Hn; split; nia)) as Hw.
  apply wp_run in Hw as (r & s1 & Hr & -> & Hh).
  destruct (ops_explained cfg Hl Hi fuel ops _ s1 _ Hh Hops) as (rs & s2 & M & H1 & H2 & _); [lia|destruct Hn; split; nia|lia|]. by exists s1, rs, s2, M.
Qed.

(** While the metapage gives a height of at most two, a deletion does not fail: it
    returns whether the key was there and leaves the map without it. *)
Theorem delete_two_levels cfg fuel i s M h key :
  config_ok cfg -> holds cfg i s M -> run height s = Some (Ok h, s) -> h <= 2 -> 0 <= i -> room_for (i + 1) -> i + 1 <= Z.of_nat fuel ->
  exists s', run (delete cfg fuel key) s = Some (Ok (bool_decide (is_Some (M !! key))), s') /\
    holds cfg (i + 1) s' (base.delete key M).
Proof.
  intros [Hl Hi] (m & L & T & Hrep & HT & HM & Hb) Hrun Hh Hib Hroom Hfu.
  assert (Hd : (depth T <= 2)%nat).
  { assert (Hw : wp height s (fun r s' => exists m' L', rep s' m' L' /\ r = Ok (m_height m))) by (by apply (hp_height m L (fun r _ _ => r = Ok (m_height m)))).
    apply wp_run in Hw as (r & s' & Hr & _ & _ & _ & ->). rewrite Hrun in Hr. injection Hr as -> _.
    pose proof (bt_height _ _ _ _ HT). lia. }
  pose proof (hp_op cfg Hl Hi fuel i (OpDelete key) m L T HT Hb I Hib Hroom Hfu s Hrep) as Hw. apply wp_run in Hw as (r & s' & Hr & Hpost).
  destruct Hpost as (m' & L' & Hrep' & T' & HT' & Hb' & HM' & [->|(key' & e & _ & _ & _ & Hgt)]); [|lia].
  exists s'. rewrite HM in *. split; [|by exists m', L', T'].
  cbn [op_prog] in Hr. rewrite run_bind in Hr. destruct (run (delete cfg fuel key) s) as [[[b|e] s2]|]; [|done|done].
  cbn in Hr. injection Hr as -> ->. done.
Qed.

(** The relation of a tree that was just created. *)
Definition created : Rel :=
  let s := no_pages not_found in
  match run open_or_create s with Some (_, s') => s' | None => s end.

Lemma holds_created cfg : config_ok cfg -> holds cfg 0 created ∅.
Proof.
  intros [Hl _]. pose proof (wp_open cfg Hl (no_pages not_found) (or_introl eq_refl)) as Hw. unfold created.
  apply wp_run in Hw as (r & s1 & -> & _ & Hh). exact Hh.
Qed.

End Calls.

(** ** Instances *)

(** The in-memory store numbers pages with 64 bits. *)
#[global, refine] Instance u64_pages : PageLimit | 10 := { PAGE_LIMIT := u64_max }.
Proof. by vm_compute. Defined.

Lemma created_tree_is_map_witness :
  exists s1 rs s2 M,
    run open_or_create (no_pages not_found) = Some (Ok tt, s1) /\
    run_ops default_config 4 [OpInsert 7 70; OpGet 7; OpDelete 7; OpRange None None None] s1 = Some (rs, s2) /\
    explained ∅ [OpInsert 7 70; OpGet 7; OpDelete 7; OpRange None None None] rs M /\
    run open_or_create s2 = Some (Ok tt, s2).
Proof.
  apply created_tree_is_map.
  - split; by vm_compute.
  - by left.
  - repeat constructor; by vm_compute.
  - split; by vm_compute.
  - cbn. lia.
Defined.

Lemma bulk_loaded_tree_is_map_witness :
  let cfg := {| leaf_capacity := 2; internal_capacity := 2 |} in
  let entries := [(1, 10); (2, 20); (3, 30); (5, 50)] in
  exists s1 rs s2 M,
    run (bulk_load_sorted cfg 7 entries) (no_pages None) = Some (Ok tt, s1) /\
    run_ops cfg 7 [OpDelete 2; OpInsert 4 40; OpRangeDesc (Some 3) None (Some 2)] s1 = Some (rs, s2) /\
    explained (map_of entries) [OpDelete 2; OpInsert 4 40; OpRangeDesc (Some 3) None (Some 2)] rs M.
Proof.
  apply bulk_loaded_tree_is_map.
  - split; by vm_compute.
  - unfold sorted_entries. cbn. repeat constructor.
  - repeat constructor; by vm_compute.
  - right. by vm_compute.
  - repeat constructor; by vm_compute.
  - split; by vm_compute.
  - cbn. lia.
Defined.

Lemma delete_two_levels_witness :
  exists s', run (delete default_config 1 7) created = Some (Ok (bool_decide (is_Some ((∅ : gmap Z Z) !! 7))), s') /\
    holds default_config (0 + 1) s' (base.delete 7 ∅).
Proof.
  assert (Hc : config_ok default_config) by (split; by vm_compute).
  apply (delete_two_levels default_config 1 0 created ∅ 1 7 Hc); [by apply holds_created|by vm_compute|lia|lia|split; by vm_compute|lia].
Defined.
