(* ===== verification/BTreeExample.v ===== *)
(** * Runs of the disk B+tree that go wrong

    Closed runs with small capacities.  The first two end in a deletion that removes its
    key and then returns an error, the case [explained_repair] of [BTreeSpec].  The third
    shows why bulk loading needs [bulk_ok]: a leaf that is the only child of its parent is
    taken out of the chain of leaves when it becomes empty but stays in the tree, and what
    is inserted into it later is not found by scans. *)

From S2P Require Import Prelude.
From S2P Require Import Bytes.
From S2P Require Import PageBytes.
From S2P Require Import PoolPage.
From S2P Require Import ClockSweep.
From S2P Require Import BufferPool.
From S2P Require Import BTreePage.
From S2P Require Import PageProg.
From S2P Require Import DiskBTree.
From S2P Require Import BTreeMaintenance.
From S2P Require Import BTreeRead.
From S2P Require Import BTreeBuild.
From S2P Require Import BTreeSpec.


(** The entries with keys [a], [a + 1], ..., [n] of them, and ten times the key as value. *)
Definition tens (a n : nat) : list (Z * Z) := (fun i => (Z.of_nat i, 10 * Z.of_nat i)) <$> seq a n.

Definition inserts (es : list (Z * Z)) : list Op := (fun e => OpInsert (fst e) (snd e)) <$> es.

Definition deletes (ks : list Z) : list Op := OpDelete <$> ks.

(** The results of [ops] on the tree that [setup] leaves. *)
Definition replies (cfg : DiskBTreeConfig) (fuel : nat) (setup : Prog unit) (ops : list Op) : option (list (PoolResult Reply)) :=
  match run setup (no_pages not_found) with
  | Some (Ok _, s) => fst <$> run_ops cfg fuel ops s
  | _ => None
  end.

(** A deletion can fail after it removed its key because of a neighbour of another
    kind: [collapse_single_child_internal_path] puts a leaf beside an internal page, and
    the next repair of that leaf reads its left neighbour as a leaf.  With three entries a
    page, after inserting 0..11 and deleting 6..9, deleting 10 returns an error, and 10 is
    gone. *)
Theorem delete_beside_internal_page :
  replies {| leaf_capacity := 3; internal_capacity := 3 |} 20 open_or_create
    (inserts (tens 0 12) ++ deletes [6; 7; 8; 9; 10] ++ [OpGet 10; OpRange (Some 4) None None]) =
  Some ((Ok <$> replicate 12 RDone) ++ (Ok <$> replicate 4 (RPresent true)) ++
        [Err corrupt; Ok (RValue None); Ok (REntries [(4, 40); (5, 50); (11, 110)])]).
Proof. vm_compute. reflexivity. Qed.

(** A deletion can fail after it removed its key because of a page it freed itself:
    [try_merge_internal_with_left_sibling] reclaims the last page of the path, and the
    repair of the leaf reads that page as an internal page afterwards.  Leaves of two and
    internal pages of five entries, 1..32 bulk loaded: after the deletions before it,
    deleting 28 returns an error, and 28 is gone. *)
Theorem delete_reads_freed_page :
  replies {| leaf_capacity := 2; internal_capacity := 5 |} 40
    (bulk_load_sorted {| leaf_capacity := 2; internal_capacity := 5 |} 40 (tens 1 32))
    (deletes [13; 14; 15; 16; 25; 26; 27; 28] ++ [OpGet 28; OpRange (Some 23) (Some 30) None]) =
  Some ((Ok <$> replicate 7 (RPresent true)) ++
        [Err corrupt; Ok (RValue None); Ok (REntries [(23, 230); (24, 240); (29, 290); (30, 300)])]).
Proof. vm_compute. reflexivity. Qed.

(** An entry can be missing from scans: bulk loading four leaves with internal pages of
    two entries leaves the last leaf alone below its parent.  Deleting its entry takes the
    leaf out of the chain but not out of the tree, and the entry inserted there next is
    found by [get] and by a scan that starts at it, but by no scan of the whole tree. *)
Theorem bulk_loaded_lone_leaf_lost :
  replies {| leaf_capacity := 1; internal_capacity := 2 |} 10
    (bulk_load_sorted {| leaf_capacity := 1; internal_capacity := 2 |} 10 (tens 1 4))
    [OpDelete 4; OpInsert 4 41; OpGet 4; OpRange (Some 4) None None; OpRange None None None; OpRangeDesc None None None] =
  Some [Ok (RPresent true); Ok RDone; Ok (RValue (Some 41)); Ok (REntries [(4, 41)]);
        Ok (REntries [(1, 10); (2, 20); (3, 30)]); Ok (REntries [(3, 30); (2, 20); (1, 10)])] /\
  ~ bulk_ok {| leaf_capacity := 1; internal_capacity := 2 |} (tens 1 4).
Proof.
  split; [vm_compute; reflexivity|]. intros [H|H]; vm_compute in H; [lia|done].
Qed.
