(* ===== verification/PoolProg.v ===== *)
(** * Page programs on the buffer pool

    [pool_run] runs a program of [PageProg] on a [BufferPool]: every page access is a
    [fetch_page] whose guard is released after the read or write, a new page's guard is
    held while the program's [body] runs, and resets, flushes and syncs are the pool's.

    Over a store that does not fail, a pool of at least two frames gives the results of
    [run] on the plain map of the relation's pages, whatever it evicts and writes back on
    the way, and leaves the pages of other relations alone. *)

From S2P Require Import Prelude.
From S2P Require Import Bytes.
From S2P Require Import PageBytes.
From S2P Require Import PoolPage.
From S2P Require Import ClockSweep.
From S2P Require Import BufferPool.
From S2P Require Import PoolRefinement.
From S2P Require Import BTreePage.
From S2P Require Import PageProg.

(** ** A store that does not fail *)

(** Page numbers are handed out from zero on, below [store_limit]; the first page of a
    relation without pages is not found or read as zeros. *)
Class ReliableStore (S : Type) `{PageStoreLaws S} : Type := {
  store_next : S -> Z -> Z;
  store_limit : Z;
  store_limit_le : 2 <= store_limit <= u64_max;
  allocated_next s p : store_wf s -> allocated s p <-> 0 <= page_number p < store_next s (relation_id p);
  read_ok s p d : store_wf s -> contents s p = Some d -> fst (read_page s p) = Ok d;
  read_first s rel :
    store_wf s -> store_next s rel = 0 ->
    fst (read_page s (mkPageId rel 0)) = Err NotFound \/ fst (read_page s (mkPageId rel 0)) = Ok zeroed;
  read_next s p rel : store_wf s -> store_next (snd (read_page s p)) rel = store_next s rel;
  write_ok s p d :
    store_wf s -> allocated s p -> is_page d ->
    fst (write_page s p d) = Ok tt /\ forall rel, store_next (snd (write_page s p d)) rel = store_next s rel;
  allocate_ok s rel :
    store_wf s -> store_next s rel < store_limit ->
    room s rel /\ fst (allocate_page s rel) = Ok (mkPageId rel (store_next s rel)) /\
    store_next (snd (allocate_page s rel)) rel = store_next s rel + 1;
  reset_ok s rel :
    store_wf s ->
    fst (store_reset_relation s rel) = Ok tt /\ store_next (snd (store_reset_relation s rel)) rel = 0;
  sync_ok s :
    store_wf s -> fst (store_sync s) = Ok tt /\ forall rel, store_next (snd (store_sync s)) rel = store_next s rel
}.

#[global, refine] Instance memory_reliable : ReliableStore MemoryPageStore :=
  { store_next := next_number; store_limit := u64_max }.
Proof.
  - by vm_compute.
  - done.
  - intros s p d _. cbn. unfold memory_read. by intros ->.
  - intros s rel [_ Hw] Hn. left. cbn. unfold memory_read. destruct (BufferPool.pages s !! _) as [d|] eqn:E; [|done].
    apply Hw in E as [[H1 H2] _]. cbn [page_number relation_id] in *. lia.
  - done.
  - done.
  - intros s rel [Hn _] Hlt. split_and!; [done|done|]. cbn [snd allocate_page memory_store memory_allocate].
    rewrite next_number_insert, decide_True by done. apply Z.mod_small. specialize (Hn rel). unfold u64_max in *. lia.
  - intros s rel _. split; [done|]. cbn. unfold next_number. cbn. by rewrite lookup_insert, decide_True.
  - done.
Defined.

(** Programs may number pages as far as the store does. *)
Definition store_pages (S : Type) `{ReliableStore S} : PageLimit :=
  {| PAGE_LIMIT := store_limit; page_limit_le := store_limit_le |}.

(** ** Running programs on the pool *)

Section PoolRun.
Context {S : Type} `{PageStore S}.

Definition pool_fetch (b : BufferPool S) (p : PageId) : option (PoolResult (list Z) * BufferPool S) :=
  match fetch_page b p with
  | Some (Done (Ok slot), b1) => f ← frame_at b1 slot; b2 ← drop_guard b1 slot; Some (Ok (data f), b2)
  | Some (Done (Err e), b1) => Some (Err e, b1)
  | _ => None
  end.

Definition pool_modify (b : BufferPool S) (p : PageId) (u : Update) : option (PoolResult (list Z) * BufferPool S) :=
  match fetch_page b p with
  | Some (Done (Ok slot), b1) =>
      f ← frame_at b1 slot;
      let '(r, d) := u (data f) in
      b2 ← guard_write b1 slot d;
      b3 ← drop_guard b2 slot;
      Some (match r with Ok _ => Ok d | Err e => Err e end, b3)
  | Some (Done (Err e), b1) => Some (Err e, b1)
  | _ => None
  end.

Definition unit_result {A} (r : PoolResult A) : PoolResult unit := match r with Ok _ => Ok tt | Err e => Err e end.

Fixpoint pool_run {A : Type} (rel : Z) (p : Prog A) (b : BufferPool S) {struct p} : option (PoolResult A * BufferPool S) :=
  match p with
  | Ret r => Some (r, b)
  | Panic => None
  | Fetch n k => '(r, b1) ← pool_fetch b (mkPageId rel n); pool_run rel (k r) b1
  | Modify n f k => '(r, b1) ← pool_modify b (mkPageId rel n) f; pool_run rel (k r) b1
  | NewPage body f k =>
      match new_page b rel with
      | Some (Done (Ok slot), b1) =>
          fr ← frame_at b1 slot;
          let n := page_number (pid fr) in
          '(r, b2) ← pool_run rel (body n) b1;
          b3 ← drop_guard b2 slot;
          match r with
          | Err e => pool_run rel (k (Err e)) b3
          | Ok _ =>
              '(r, b4) ← pool_modify b3 (mkPageId rel n) f;
              pool_run rel (k (match r with Ok _ => Ok n | Err e => Err e end)) b4
          end
      | Some (Done (Err e), b1) => pool_run rel (k (Err e)) b1
      | _ => None
      end
  | ResetRelation k => '(r, b1) ← reset_relation b rel; pool_run rel (k r) b1
  | FlushAll k => '(r, b1) ← flush_all b; pool_run rel (k (unit_result r)) b1
  | Sync k => let '(r, b1) := sync b in pool_run rel (k r) b1
  end.

End PoolRun.

Section Agree.
Context {S : Type} `{ReliableStore S}.

Abbreviation Guards := (list (Z * PageId)).

(** ** What calls do to the frames and to the page numbers *)

Definition same_size (b b' : BufferPool S) : Prop :=
  length (frames b') = length (frames b) /\ forall rel, store_next (store b') rel = store_next (store b) rel.

Lemma same_size_refl b : same_size b b.
Proof. done. Qed.

Lemma same_size_trans b1 b2 b3 : same_size b1 b2 -> same_size b2 b3 -> same_size b1 b3.
Proof. intros [E1 E2] [E3 E4]. split; [congruence|]. intros rel. by rewrite E4. Qed.

Lemma write_cases (s : S) p d :
  store_wf s -> allocated s p -> is_page d ->
  exists s', write_page s p d = (Ok tt, s') /\ forall rel, store_next s' rel = store_next s rel.
Proof.
  intros Hw Ha Hd. destruct (write_ok s p d Hw Ha Hd) as [E Hn]. exists (snd (write_page s p d)). split; [|done].
  rewrite <- E. by destruct (write_page s p d).
Qed.

Lemma take_victim_size b gs L slot p pg r b' :
  inv b gs L -> page_table b !! p = Some slot -> take_victim b slot pg = Some (Done r, b') -> r = Ok slot /\ same_size b b'.
Proof.
  intros I Hp. destruct (pi_table _ _ _ _ _ _ _ _ I p slot Hp) as (_ & _ & _ & Ha & _ & f & Hf & Hpf & _ & Hd & _).
  unfold take_victim, frame_at. rewrite Hf. cbn [mbind option_bind]. destruct (is_pinned f); [done|]. rewrite Hpf.
  destruct (dirty f).
  - destruct (write_cases (store b) p (data f)) as (s' & -> & Hn); [apply I|done|by eapply (pi_logical _ _ _ _ _ _ _ _ I), Hd|].
    intros [= <- <-]. split; [done|]. split; [|done]. cbn. by rewrite length_insert.
  - intros [= <- <-]. split; [done|]. split; [|done]. cbn. by rewrite length_insert.
Qed.

Lemma allocate_frame_size b gs L pg r b' :
  inv b gs L -> allocate_frame b pg = Some (Done r, b') -> (r = Err PoolExhausted \/ is_ok r = true) /\ same_size b b'.
Proof.
  intros I. unfold allocate_frame. destruct (free_list b) as [|slot rest] eqn:Efree.
  - destruct (victim_spec b gs L I Efree) as (v & b1 & -> & I1 & Hfr & Htb & Hst & _ & _ & Hv). cbn [mbind option_bind].
    assert (Hs : same_size b b1) by (split; [by rewrite Hfr|intros rel; by rewrite Hst]).
    destruct v as [slot|]; last first.
    { intros [= <- <-]. split; [by left|done]. }
    destruct (Hv slot eq_refl) as (p & f & Hp & _). rewrite <- Htb in Hp.
    intros Ht. destruct (take_victim_size _ _ _ _ _ _ _ _ I1 Hp Ht) as [-> Hs']. split; [by right|]. by eapply same_size_trans.
  - unfold take_free. destruct (frame_at b slot); [|done]. cbn [mbind option_bind]. intros [= <- <-].
    split; [by right|]. split; [|done]. cbn. by rewrite length_insert.
Qed.

Lemma drop_guard_size b slot b' : drop_guard b slot = Some b' -> same_size b b'.
Proof.
  unfold drop_guard. destruct (frame_at b slot) as [f|]; [|done]. cbn [mbind option_bind]. destruct (claim_dirty_transition f) as [c f1].
  unfold unpin_frame. intros Hd.
  assert (Hk : forall b2, length (frames b2) = length (frames b) -> store b2 = store b ->
    frame_at b2 slot ≫= (fun f => Some (set_frame b2 slot (unpin f))) = Some b' -> same_size b b').
  { intros b2 E1 E2. destruct (frame_at b2 slot) as [f2|]; [|done]. cbn. intros [= <-]. split; cbn; [by rewrite length_insert|by rewrite E2]. }
  destruct (dirty f1); [destruct c|]; eapply Hk; try exact Hd; cbn; by rewrite ?length_insert.
Qed.

Lemma guard_write_size b slot d b' : guard_write b slot d = Some b' -> same_size b b'.
Proof.
  unfold guard_write. destruct (frame_at b slot) as [f|]; [|done]. cbn. intros [= <-]. split; cbn; [by rewrite length_insert|done].
Qed.

Lemma set_store_size (b : BufferPool S) st :
  (forall rel, store_next st rel = store_next (store b) rel) -> same_size b (set_store b st).
Proof. done. Qed.

Lemma fetch_page_size b gs L p r b' :
  inv b gs L -> fetch_page b p = Some (Done r, b') ->
  same_size b b' /\ (is_ok r = true \/ r = Err PoolExhausted \/
    exists e, r = Err (Io e) /\ fst (read_page (store b) p) = Err e /\ page_table b !! p = None).
Proof.
  intros I. unfold fetch_page, try_hit. destruct (lookup_page b p) as [slot|] eqn:El.
  - unfold try_pin_frame. destruct (frame_at b slot) as [f|]; [|done]. cbn [mbind option_bind]. case_decide; [|done].
    intros [= <- <-]. split; [|by left]. split; [|done]. cbn. by rewrite length_insert.
  - pose proof (read_next (store b) p) as Hn. destruct (read_page (store b) p) as [rd st] eqn:Er. cbn [fst snd] in *.
    pose proof (read_inv _ _ _ _ _ _ I Er) as I'.
    assert (Hs : same_size b (set_store b st)) by (apply set_store_size; intros rel; apply Hn, I).
    destruct rd as [d|e].
    + intros Ha. apply (allocate_frame_size _ _ _ _ _ _ I') in Ha as [[->|Hr] Hs'];
        (split; [by eapply same_size_trans|]); [right; by left|by left].
    + intros [= <- <-]. split; [done|]. right. right. by exists e.
Qed.

Lemma new_page_size b gs L rel r b' :
  inv b gs L -> store_next (store b) rel < store_limit -> new_page b rel = Some (Done r, b') ->
  (r = Err PoolExhausted \/ is_ok r = true) /\ length (frames b') = length (frames b) /\
  store_next (store b') rel = store_next (store b) rel + 1.
Proof.
  intros I Hn. assert (Hw : store_wf (store b)) by apply I. unfold new_page.
  destruct (allocate_ok (store b) rel Hw Hn) as (Hroom & Ha & Hx).
  destruct (allocate_page (store b) rel) as [r0 s0] eqn:Ea. cbn [fst snd] in *. subst r0. intros Hf.
  destruct (allocate_law _ _ _ _ Hw Hroom Ea) as (Hw' & Hc & Hal & _).
  assert (I' : inv (set_store b s0) gs L) by (by apply (inv_store _ _ _ _ _ (store b))).
  apply (allocate_frame_size _ _ _ _ _ _ I') in Hf as [Hr [Hl Hs]]. split_and!; [done|done|]. rewrite Hs. exact Hx.
Qed.

(** At most one guard pins at most one of two frames. *)
Lemma not_all_pinned (b : BufferPool S) (gs : Guards) : (2 <= length (frames b))%nat -> (length gs <= 1)%nat -> ~ all_pinned b gs.
Proof.
  intros Hf Hg Hall. assert (Hr : forall slot, 0 <= slot < 2 -> PoolRefinement.in_range (frames b) slot) by (unfold PoolRefinement.in_range; lia).
  pose proof (Hall 0 (Hr 0 ltac:(lia))) as Hp0. pose proof (Hall 1 (Hr 1 ltac:(lia))) as Hp1.
  destruct gs as [|g [|g2 gs]]; [done| |cbn in Hg; lia]. rewrite guard_count_cons in Hp0, Hp1. unfold guard_count in *. cbn in Hp0, Hp1.
  case_decide; case_decide; lia.
Qed.

(** ** Pages *)

(** The contents [d] of a page: written, or zeros in its frame. *)
Definition cached_state (b : BufferPool S) (L : PageId -> option (list Z)) (p : PageId) (d : list Z) : Prop :=
  L p = Some d \/ d = zeroed /\ L p = None /\ is_Some (page_table b !! p).

(** The same when only the guard of a new page keeps a page that was never written. *)
Definition page_state (gs : Guards) (L : PageId -> option (list Z)) (p : PageId) (d : list Z) : Prop :=
  L p = Some d \/ d = zeroed /\ L p = None /\ exists slot, (slot, p) ∈ gs.

Lemma page_state_cached b gs L p d : inv b gs L -> page_state gs L p d -> cached_state b L p d.
Proof.
  intros I [Hd|(-> & Hd & slot & Hin)]; [by left|right]. split_and!; [done|done|].
  pose proof (pi_guards _ _ _ _ _ _ _ _ I _ Hin) as Ht. by eexists.
Qed.

Lemma fetch_present b gs L p d :
  inv b gs L -> (2 <= length (frames b))%nat -> (length gs <= 1)%nat -> allocated (store b) p -> cached_state b L p d ->
  exists slot b1 f, fetch_page b p = Some (Done (Ok slot), b1) /\ inv b1 ((slot, p) :: gs) L /\
    frame_at b1 slot = Some f /\ data f = d /\ same_size b b1.
Proof.
  intros I Hf Hg Ha Hd. destruct (fetch_page_step b gs L p I) as (r & b1 & Hfp & Hr & Hex); [unfold few, u32_max; lia|done|].
  destruct (fetch_page_size _ _ _ _ _ _ I Hfp) as [Hs Hcase].
  destruct Hcase as [Hok|[->|(e & -> & Hre & Hnt)]].
  - destruct r as [slot|e]; [|done]. destruct Hr as (I1 & f & Hfr & _ & Hda). exists slot, b1, f. split_and!; try done.
    rewrite Hda. by destruct Hd as [->|(-> & -> & _)].
  - exfalso. destruct (proj1 Hex eq_refl) as (_ & _ & _ & Hall). by eapply not_all_pinned.
  - exfalso. destruct Hd as [Hd|(_ & _ & slot & Ht)]; [|congruence].
    assert (Hc : contents (store b) p = Some d).
    { destruct (pi_uncached _ _ _ _ _ _ _ _ I p Hnt) as [E|[E _]]; congruence. }
    apply read_ok in Hc; [|apply I]. congruence.
Qed.

(** ** Agreement *)

(** The pool [b] with guards [gs] holds the relation [rel] as [s] has it, and [O] on the
    other relations. *)
Record sim (rel : Z) (O : PageId -> option (list Z)) (b : BufferPool S) (gs : Guards) (s : Rel) : Prop := {
  sim_frames : (2 <= length (frames b))%nat;
  sim_guards : (length gs <= 1)%nat;
  sim_absent : absent s = None;
  sim_next : next_page s = store_next (store b) rel;
  sim_dom : forall n, is_Some (pages s !! n) <-> 0 <= n < next_page s;
  sim_inv : exists L, inv b gs L /\ (forall n d, pages s !! n = Some d -> page_state gs L (mkPageId rel n) d) /\
              (forall q, relation_id q <> rel -> L q = O q) }.

Lemma sim_allocated rel O b gs s n : sim rel O b gs s -> allocated (store b) (mkPageId rel n) <-> is_Some (pages s !! n).
Proof.
  intros [_ _ _ Hn Hd (L & I & _)]. rewrite Hd, allocated_next by apply I. cbn [page_number relation_id]. by rewrite Hn.
Qed.

Lemma fetch_agrees rel O b gs s n d :
  sim rel O b gs s -> pages s !! n = Some d ->
  exists b', pool_fetch b (mkPageId rel n) = Some (Ok d, b') /\ sim rel O b' gs s.
Proof.
  intros Hsim E. pose proof Hsim as [Hf Hg Hab Hn Hdom (L & I & HL & HO)]. unfold pool_fetch.
  destruct (fetch_present b gs L (mkPageId rel n) d I Hf Hg) as (slot & b1 & f & -> & I1 & -> & Hda & Hs1);
    [by apply (sim_allocated rel O b gs s n Hsim); eexists|by eapply page_state_cached, HL|].
  destruct (drop_guard_step b1 [] gs L slot (mkPageId rel n) I1) as (b2 & Hdrop & I2). cbn [app] in I2.
  cbn [mbind option_bind]. rewrite Hdrop. cbn [mbind option_bind]. exists b2. rewrite Hda. split; [done|].
  pose proof (same_size_trans _ _ _ Hs1 (drop_guard_size _ _ _ Hdrop)) as [Hl Hx].
  split; [lia|done|done|by rewrite Hx|done|]. by exists L.
Qed.

Definition write_result (r : PoolResult unit) (d : list Z) : PoolResult (list Z) := match r with Ok _ => Ok d | Err e => Err e end.

Lemma modify_present b gs L p u d r d' :
  inv b gs L -> (2 <= length (frames b))%nat -> (length gs <= 1)%nat -> allocated (store b) p -> cached_state b L p d ->
  u d = (r, d') -> is_page d' ->
  exists b', pool_modify b p u = Some (write_result r d', b') /\ inv b' gs (upd L p (Some d')) /\ same_size b b'.
Proof.
  intros I Hf Hg Ha Hd Hu Hpg. unfold pool_modify.
  destruct (fetch_present b gs L p d I Hf Hg Ha Hd) as (slot & b1 & f & -> & I1 & -> & Hda & Hs1). cbn [mbind option_bind]. rewrite Hda, Hu.
  destruct (guard_write_step b1 ((slot, p) :: gs) L slot p d' I1) as (b2 & Hw & I2); [left|done|]. rewrite Hw. cbn [mbind option_bind].
  destruct (drop_guard_step b2 [] gs (upd L p (Some d')) slot p I2) as (b3 & Hdrop & I3). rewrite Hdrop. cbn [mbind option_bind].
  exists b3. split_and!; [by destruct r|done|].
  eapply same_size_trans; [exact Hs1|]. eapply same_size_trans; [by eapply guard_write_size|by eapply drop_guard_size].
Qed.

Lemma set_page_dom s n d : is_Some (pages s !! n) -> forall m, is_Some (pages (set_page s n d) !! m) <-> is_Some (pages s !! m).
Proof.
  intros Hn m. cbn. destruct (decide (m = n)) as [->|Hne]; [by rewrite lookup_insert_eq|by rewrite lookup_insert_ne].
Qed.

(** The relation after a write, when no other page is kept by a guard alone. *)
Lemma sim_written rel O b b' gs gs' s n d' L :
  sim rel O b gs s -> same_size b b' -> (length gs' <= 1)%nat -> is_Some (pages s !! n) ->
  inv b' gs' (upd L (mkPageId rel n) (Some d')) ->
  (forall m d, m <> n -> pages s !! m = Some d -> page_state gs' L (mkPageId rel m) d) -> (forall q, relation_id q <> rel -> L q = O q) ->
  sim rel O b' gs' (set_page s n d').
Proof.
  intros [Hf Hg Hab Hn Hdom _] [Hl Hx] Hg' Hsome I HL HO. split; [lia|done|done|by rewrite Hx| |].
  - intros m. rewrite set_page_dom by done. apply Hdom.
  - exists (upd L (mkPageId rel n) (Some d')). split_and!; [done| |].
    + intros m d. cbn [set_page pages]. destruct (decide (m = n)) as [->|Hne].
      * rewrite lookup_insert_eq. intros [= <-]. left. apply upd_eq.
      * rewrite lookup_insert_ne by done. intros Hm. unfold page_state. rewrite !upd_ne by congruence. by apply HL.
    + intros q Hq. rewrite upd_ne; [by apply HO|]. by intros ->.
Qed.

Lemma modify_agrees rel O b gs s n u d :
  sim rel O b gs s -> pages s !! n = Some d -> is_page (snd (u d)) ->
  exists b', pool_modify b (mkPageId rel n) u = Some (write_result (fst (u d)) (snd (u d)), b') /\
    sim rel O b' gs (set_page s n (snd (u d))).
Proof.
  intros Hsim E Hpg. pose proof Hsim as [Hf Hg _ Hn Hdom (L & I & HL & HO)].
  destruct (u d) as [r d'] eqn:Eu. cbn [fst snd] in *.
  destruct (modify_present b gs L (mkPageId rel n) u d r d' I Hf Hg) as (b' & Hm & I' & Hs); try done;
    [by apply (sim_allocated rel O b gs s n Hsim); eexists|by eapply page_state_cached, HL|].
  exists b'. split; [done|]. eapply sim_written; try done. intros m dm _. apply HL.
Qed.

(** ** New pages *)

Lemma zero_page_zeroed : zero_page = zeroed.
Proof. done. Qed.

Lemma new_page_not_exhausted b L rel b' :
  inv b [] L -> (2 <= length (frames b))%nat -> store_next (store b) rel < store_limit -> new_page b rel <> Some (Done (Err PoolExhausted), b').
Proof.
  intros I Hf Hx Hnp. assert (Hw : store_wf (store b)) by apply I. destruct (allocate_ok (store b) rel Hw Hx) as (Hroom & Hal & _).
  unfold new_page in Hnp. destruct (allocate_page (store b) rel) as [ra sa] eqn:Ea. cbn [fst] in Hal. subst ra.
  destruct (allocate_law _ _ _ _ Hw Hroom Ea) as (Hwa & Hca & Haa & Hp). destruct (Hp _ eq_refl) as (_ & Hna & Hap & Hcp).
  set (p := mkPageId rel (store_next (store b) rel)) in *.
  assert (Hnt : page_table b !! p = None).
  { destruct (page_table b !! p) as [sl|] eqn:E; [|done]. exfalso. by destruct (pi_table _ _ _ _ _ _ _ _ I _ _ E) as (_ & _ & _ & ? & _). }
  destruct (allocate_frame_spec (set_store b sa) [] L (new_page_frame p)) as (r & b2 & Hfa & _ & Hex).
  - by apply (inv_store _ _ _ _ _ (store b)).
  - split_and!; try done. cbn [new_page_frame data pid].
    rewrite <- (stores_default _ _ (pi_uncached _ _ _ _ _ _ _ _ I _ Hnt)). by rewrite Hcp.
  - rewrite Hfa in Hnp. injection Hnp as -> _. destruct (proj1 Hex eq_refl) as [_ Hall].
    apply (not_all_pinned (set_store b sa) []) in Hall; [done|exact Hf|cbn; lia].
Qed.

Lemma new_page_agrees rel O b s :
  sim rel O b [] s -> next_page s < store_limit ->
  exists slot b1 fr, new_page b rel = Some (Done (Ok slot), b1) /\ frame_at b1 slot = Some fr /\
    page_number (pid fr) = next_page s /\ sim rel O b1 [(slot, mkPageId rel (next_page s))] (grow s).
Proof.
  intros Hsim Hlt. pose proof Hsim as [Hf Hg Hab Hn Hdom (L & I & HL & HO)].
  assert (Hw : store_wf (store b)) by apply I. assert (Hx : store_next (store b) rel < store_limit) by (by rewrite <- Hn).
  destruct (allocate_ok (store b) rel Hw Hx) as (Hroom & Hal & _).
  destruct (new_page_step b [] L rel I Hroom) as (r & b1 & Hnp & Hr).
  destruct (new_page_size b [] L rel r b1 I Hx Hnp) as (Hcase & Hl1 & Hx1).
  destruct r as [slot|e].
  2: { exfalso. destruct Hcase as [[= ->]|]; [|done]. exact (new_page_not_exhausted b L rel b1 I Hf Hx Hnp). }
  destruct Hr as (p & Hrel & HLp & Htp & I1 & fr & Hfr & Hpid & Hda).
  assert (Ha : 0 <= page_number p < next_page s + 1).
  { destruct (pi_table _ _ _ _ _ _ _ _ I1 _ _ (pi_guards _ _ _ _ _ _ _ _ I1 (slot, p) ltac:(left))) as (_ & _ & _ & Ha & _).
    apply allocated_next in Ha; [|apply I1]. cbn [snd] in Ha. by rewrite Hrel, Hx1, <- Hn in Ha. }
  assert (Hpn : p = mkPageId rel (next_page s)).
  { destruct p as [rp np]. cbn [relation_id page_number] in *. subst rp. f_equal. destruct (decide (np < next_page s)) as [Hlo|]; [|lia]. exfalso.
    destruct (proj2 (Hdom np) ltac:(lia)) as [d Hd]. destruct (HL np d Hd) as [E|(_ & _ & sl & Hin)]; [congruence|by apply elem_of_nil in Hin]. }
  rewrite Hpn in Hpid, Ha, HLp, I1. cbn [page_number] in Ha. exists slot, b1, fr. split_and!; [done|done|by rewrite Hpid|]. split; [lia|cbn; lia|done|cbn; lia| |].
  - intros n. cbn [grow pages next_page]. destruct (decide (n = next_page s)) as [->|Hne].
    + rewrite lookup_insert_eq. split; [lia|by eauto].
    + rewrite lookup_insert_ne, Hdom by done. lia.
  - exists L. split_and!; [done| |done]. intros n d. cbn [grow pages]. destruct (decide (n = next_page s)) as [->|Hne].
    + rewrite lookup_insert_eq. intros [= <-]. right. split_and!; [apply zero_page_zeroed|done|]. exists slot. left.
    + rewrite lookup_insert_ne by done. intros Hd. destruct (HL n d Hd) as [E|(_ & _ & sl & Hin)]; [by left|by apply elem_of_nil in Hin].
Qed.

Lemma drop_guard_table (b : BufferPool S) slot b' : drop_guard b slot = Some b' -> page_table b' = page_table b.
Proof.
  unfold drop_guard. destruct (frame_at b slot) as [f|]; [|done]. cbn [mbind option_bind]. destruct (claim_dirty_transition f) as [c f1].
  unfold unpin_frame.
  assert (Hk : forall b2, page_table b2 = page_table b ->
    frame_at b2 slot ≫= (fun f => Some (set_frame b2 slot (unpin f))) = Some b' -> page_table b' = page_table b).
  { intros b2 E. destruct (frame_at b2 slot) as [f2|]; [|done]. cbn. by intros [= <-]. }
  destruct (dirty f1); [destruct c|]; by apply Hk.
Qed.

(** The new page's guard is released and the page is written before anything else
    happens: it is still in its frame. *)
Lemma created_agrees rel O (b : BufferPool S) s n slot u :
  sim rel O b [(slot, mkPageId rel n)] s ->
  exists b1, drop_guard b slot = Some b1 /\
    forall d, pages s !! n = Some d -> is_page (snd (u d)) ->
      exists b', pool_modify b1 (mkPageId rel n) u = Some (write_result (fst (u d)) (snd (u d)), b') /\
        sim rel O b' [] (set_page s n (snd (u d))).
Proof.
  intros Hsim. pose proof Hsim as [Hf Hg _ Hn Hdom (L & I & HL & HO)].
  destruct (drop_guard_step b [] [] L slot (mkPageId rel n) I) as (b1 & Hdrop & I1). cbn [app] in I1. exists b1. split; [done|].
  intros d E Hpg. destruct (u d) as [r d'] eqn:Eu. cbn [fst snd] in *.
  pose proof (drop_guard_size _ _ _ Hdrop) as Hs1.
  assert (Hc : cached_state b1 L (mkPageId rel n) d).
  { unfold cached_state. rewrite (drop_guard_table _ _ _ Hdrop). by eapply page_state_cached, HL. }
  assert (Ha : allocated (store b1) (mkPageId rel n)).
  { apply allocated_next; [apply I1|]. cbn [page_number relation_id]. rewrite (proj2 Hs1), <- Hn. by apply Hdom; eexists. }
  destruct (modify_present b1 [] L (mkPageId rel n) u d r d' I1) as (b2 & Hm & I2 & Hs2); try done; [destruct Hs1; lia|cbn; lia|].
  exists b2. split; [done|]. eapply sim_written; [exact Hsim|by eapply same_size_trans|cbn; lia|by eexists|done| |done].
  intros m dm Hne Hm'. destruct (HL m dm Hm') as [Hw|(_ & _ & sl & Hin)]; [by left|]. apply list_elem_of_singleton in Hin. congruence.
Qed.

(** ** Flushing and resetting *)

Lemma flush_one_size b gs L p r b' :
  inv b gs L -> flush_one b p = Some (r, b') -> is_ok r = true /\ same_size b b'.
Proof.
  intros I. unfold flush_one. destruct (lookup_page b p) as [slot|] eqn:El; [|by intros [= <- <-]].
  destruct (pi_table _ _ _ _ _ _ _ _ I p slot El) as (_ & _ & _ & Ha & _ & f & Hf & Hpf & _ & Hd & _).
  unfold frame_at. rewrite Hf. cbn [mbind option_bind]. case_decide; [done|]. destruct (dirty f); cbn [negb]; [|by intros [= <- <-]].
  rewrite Hpf. destruct (write_cases (store b) p (data f)) as (s' & -> & Hn);
    [apply I|done|by eapply (pi_logical _ _ _ _ _ _ _ _ I), Hd|].
  intros [= <- <-]. split; [done|]. split; cbn; [by rewrite length_insert|done].
Qed.

Lemma flush_loop_size full gs L : forall ids n b r b',
  inv b gs L -> flush_loop full ids n b = Some (r, b') -> is_ok r = true /\ same_size b b'.
Proof.
  induction ids as [|p ids IH]; intros n b r b' I; cbn [flush_loop]; [by intros [= <- <-]|]. destruct (full n); [by intros [= <- <-]|].
  destruct (flush_one_step b gs L p I) as (r1 & b1 & E & I1 & _). rewrite E. apply (flush_one_size _ _ _ _ _ _ I) in E as [Hok Hs].
  cbn [mbind option_bind]. destruct r1 as [w|e]; [|done]. intros Hl. apply IH in Hl as [? ?]; [|done]. split; [done|]. by eapply same_size_trans.
Qed.

Lemma sim_same rel O b b' gs s L :
  sim rel O b gs s -> same_size b b' -> inv b gs L -> inv b' gs L ->
  (forall n d, pages s !! n = Some d -> page_state gs L (mkPageId rel n) d) -> (forall q, relation_id q <> rel -> L q = O q) -> sim rel O b' gs s.
Proof. intros [Hf Hg Hab Hn Hdom _] [Hl Hx] _ I HL HO. split; [lia|done|done|by rewrite Hx|done|]. by exists L. Qed.

Lemma flush_agrees rel O b gs s :
  sim rel O b gs s -> exists k b', flush_all b = Some (Ok k, b') /\ sim rel O b' gs s.
Proof.
  intros Hsim. pose proof Hsim as [_ _ _ _ _ (L & I & HL & HO)]. destruct (flush_all_step b gs L I) as (r & b' & Hfl & I' & _ & _).
  pose proof (flush_loop_size _ _ _ _ _ _ _ _ I Hfl) as [Hok Hs]. destruct r as [k|e]; [|done]. exists k, b'. split; [done|].
  by eapply sim_same.
Qed.

Lemma sync_agrees rel O b gs s : sim rel O b gs s -> exists b', sync b = (Ok tt, b') /\ sim rel O b' gs s.
Proof.
  intros Hsim. pose proof Hsim as [_ _ _ _ _ (L & I & HL & HO)]. destruct (sync b) as [r b'] eqn:E. pose proof (sync_step b gs L r b' I E) as [I' _].
  unfold sync in E. destruct (sync_ok (store b) ltac:(apply I)) as [Hok Hx]. destruct (store_sync (store b)) as [rs st].
  cbn [fst snd] in *. subst rs. injection E as <- <-. eexists. split; [done|]. eapply sim_same; [exact Hsim|split; cbn; done|done..].
Qed.

Lemma reset_loop_free : forall ids b L rel r b', Forall (fun p => relation_id p = rel) ids ->
  inv b [] (relog (store b) (page_table b) rel L) -> reset_loop ids b = Some (r, b') ->
  r = Ok tt /\ store b' = store b /\ length (frames b') = length (frames b).
Proof.
  induction ids as [|p ids IH]; intros b L rel r b' Hids I; cbn [reset_loop]; [by intros [= <- <-]|].
  apply Forall_cons in Hids as [Hp Hids]. destruct (reset_one_step b [] L rel p Hp I) as (r1 & b1 & Hone & Hst & I1 & _ & Hcase).
  rewrite Hone. cbn [mbind option_bind].
  assert (Hr1 : r1 = Ok tt /\ length (frames b1) = length (frames b)).
  { unfold reset_one in Hone. destruct (lookup_page b p) as [slot|] eqn:El; [|by injection Hone as <- <-].
    destruct (pi_table _ _ _ _ _ _ _ _ I p slot El) as (Hr & _ & _ & _ & _ & f & Hf & Hpf & _).
    unfold frame_at in Hone. rewrite Hf in Hone. cbn [mbind option_bind] in Hone. rewrite decide_False in Hone by tauto.
    assert (Epin : is_pinned f = false).
    { unfold is_pinned. rewrite (pi_pins _ _ _ _ _ _ _ _ I slot f) by (apply Hr || done). done. }
    rewrite Epin in Hone. injection Hone as <- <-. split; [done|]. destruct (dirty f); cbn; by rewrite length_insert. }
  destruct Hr1 as [-> Hl]. intros Hrest. rewrite <- Hst in I1. destruct (IH b1 L rel r b' Hids I1 Hrest) as (-> & Hs2 & Hl2).
  split_and!; [done|congruence|congruence].
Qed.

Lemma reset_agrees rel O b s :
  sim rel O b [] s -> exists b', reset_relation b rel = Some (Ok tt, b') /\ sim rel O b' [] (no_pages None).
Proof.
  intros [Hf Hg Hab Hn Hdom (L & I & HL & HO)]. destruct (reset_relation_step b [] L rel I) as (r & b' & Hres & I' & Hnone).
  pose proof Hres as Hres'. unfold reset_relation in Hres'. destruct (reset_loop (relation_keys b rel) b) as [[r1 b1]|] eqn:El; [|done].
  destruct (reset_loop_free (relation_keys b rel) b L rel r1 b1) as (-> & Hst & Hl); [|by apply relog_start|done|].
  { apply Forall_forall. intros p [? _]%list_elem_of_filter. done. }
  cbn [mbind option_bind] in Hres'. rewrite Hst in Hres'. destruct (reset_ok (store b) rel ltac:(apply I)) as [Hok Hx].
  destruct (store_reset_relation (store b) rel) as [rs st]. cbn [fst snd] in *. subst rs. injection Hres' as <- <-.
  eexists. split; [exact Hres|]. split; cbn [frames store set_modified set_store next_page pages no_pages absent].
  - lia.
  - done.
  - done.
  - by rewrite Hx.
  - intros n. rewrite lookup_empty. split; [by intros [? ?]|lia].
  - eexists. split_and!; [exact I'| |].
    + intros n d. by rewrite lookup_empty.
    + intros q Hq. unfold relog. rewrite decide_False by tauto. by apply HO.
Qed.

(** ** The first page of an empty relation

    A store may read a page that does not exist as zeros.  The pool then caches a page the
    store did not hand out, until the relation is reset. *)

(** Such a page, alone of its relation in the pool and released again. *)
Lemma reset_ghost (b : BufferPool S) L p slot fr tbl ev f :
  pool_inv ({[slot]} ∪ ∅) fr tbl (free_list b) ev (store b) [] L -> tbl !! p = None ->
  frames b = <[Z.to_nat slot := f]> fr -> page_table b = <[p := slot]> tbl -> eviction b = ClockSweep.insert ev slot p ->
  (forall q, relation_id q = relation_id p -> tbl !! q = None) -> pid f = p -> pin_count f = 0 -> dirty f = false ->
  exists b', reset_loop (relation_keys b (relation_id p)) b = Some (Ok tt, b') /\ inv b' [] L /\ store b' = store b /\
    length (frames b') = length (frames b).
Proof.
  intros I Htp Hfr Htb Hev Hrel Hpf Hpin Hd.
  assert (Hin : PoolRefinement.in_range fr slot) by (apply (pi_loose _ _ _ _ _ _ _ _ I), elem_of_union_l, elem_of_singleton; done).
  assert (Hkeys : relation_keys b (relation_id p) = [p]).
  { assert (Hnd : NoDup (relation_keys b (relation_id p))) by (apply NoDup_filter, NoDup_fst_map_to_list).
    assert (Hel : forall q, q ∈ relation_keys b (relation_id p) <-> q = p).
    { intros q. unfold relation_keys. rewrite list_elem_of_filter, elem_of_table_keys, Htb, lookup_insert_is_Some. split.
      - intros (Hq & [->|[_ [x Hx]]]); [done|]. by rewrite Hrel in Hx.
      - intros ->. split; [done|by left]. }
    apply Permutation_singleton_r, NoDup_Permutation; [done|apply NoDup_singleton|]. intros q. by rewrite Hel, list_elem_of_singleton. }
  rewrite Hkeys. cbn [reset_loop]. unfold reset_one, lookup_page. rewrite Htb, lookup_insert_eq. unfold frame_at.
  rewrite Hfr, frame_lookup_insert, decide_True by (done || apply Hin). cbn [mbind option_bind]. rewrite decide_False by tauto.
  unfold is_pinned. rewrite Hpin, Hd. change (0 <? 0) with false. cbn iota zeta. eexists. split; [reflexivity|]. unfold inv.
  cbn [frames page_table free_list eviction store set_frame set_table set_free set_eviction].
  rewrite Htb, lookup_insert_eq, decide_True, delete_insert_id by done. split_and!; [|done|by rewrite ?Hfr, !length_insert].
  rewrite ?Hfr, list_insert_insert_eq, Hev.
  pose proof (inv_push ∅ fr tbl (free_list b) ev (store b) [] L slot (new_page_frame (mkPageId 0 slot)) I ltac:(set_solver) eq_refl) as I'.
  eapply inv_ring; [exact I'|].
  destruct (insert_ring ev slot p (pi_clock _ _ _ _ _ _ _ _ I)) as (Hw1 & Hc1 & Hi1); [rewrite (pi_cap _ _ _ _ _ _ _ _ I); apply Hin|].
  destruct (remove_ring ev slot (pi_clock _ _ _ _ _ _ _ _ I)) as (_ & Hc2 & Hi2); [apply Hin|].
  destruct (remove_ring (ClockSweep.insert ev slot p) slot Hw1) as (Hw3 & Hc3 & Hi3); [apply Hin|].
  split_and!; [done|congruence|]. intros s Hs. rewrite Hi3, Hi2 by done. case_decide; [done|]. by rewrite Hi1, decide_False by done.
Qed.

(** What a reset leaves once no page of the relation is cached any more. *)
Lemma reset_uncached rel O b b1 L :
  (2 <= length (frames b1))%nat -> inv b1 [] L -> (forall q, relation_id q <> rel -> L q = O q) ->
  (forall q, relation_id q = rel -> page_table b1 !! q = None) ->
  reset_loop (relation_keys b rel) b = Some (Ok tt, b1) ->
  exists b2, reset_relation b rel = Some (Ok tt, b2) /\ sim rel O b2 [] (no_pages None).
Proof.
  intros Hf I HO Hnone Hloop. unfold reset_relation. rewrite Hloop. cbn [mbind option_bind].
  destruct (reset_ok (store b1) rel ltac:(apply I)) as [Hok Hx].
  destruct (store_reset_relation (store b1) rel) as [r st] eqn:Er. cbn [fst snd] in *. subst r. eexists. split; [reflexivity|].
  destruct (reset_law _ _ _ _ (pi_store _ _ _ _ _ _ _ _ I) Er) as (Hw & Hc & Ha & _).
  split; cbn [frames store set_modified set_store next_page pages no_pages absent]; [done|cbn; lia|done|by rewrite Hx| |].
  { intros n. rewrite lookup_empty. split; [by intros [? ?]|lia]. }
  exists (relog st (page_table b1) rel L). split_and!; [|intros n d; by rewrite lookup_empty|].
  - unfold inv. cbn [frames page_table free_list eviction store set_modified set_store]. split; try apply I; [done| | |].
    + intros q s Hq. assert (Hne : relation_id q <> rel) by (intros E; by rewrite Hnone in Hq).
      destruct (pi_table _ _ _ _ _ _ _ _ I q s Hq) as (? & ? & ? & ? & ? & f & ? & ? & Hfo).
      split_and!; try done; [by apply Ha|]. exists f. split_and!; try done.
      unfold relog. rewrite decide_False by tauto. by rewrite Hc.
    + intros q Hq. unfold relog. case_decide as E; [by left|].
      assert (Hne : relation_id q <> rel) by tauto. rewrite Hc by done. by apply (pi_uncached _ _ _ _ _ _ _ _ I).
    + intros q d. apply relog_page; [done|apply I].
  - intros q Hq. unfold relog. rewrite decide_False by tauto. by apply HO.
Qed.

Lemma first_fetch rel O b :
  sim rel O b [] (no_pages None) ->
  exists r b1 b2, pool_fetch b (mkPageId rel 0) = Some (r, b1) /\ (r = Err (Io NotFound) \/ r = Ok zeroed) /\
    reset_relation b1 rel = Some (Ok tt, b2) /\ sim rel O b2 [] (no_pages None).
Proof.
  intros Hsim. pose proof Hsim as [Hf _ _ Hn _ (L & I & _ & HO)]. cbn [next_page no_pages] in Hn.
  assert (Hno : forall q, relation_id q = rel -> page_table b !! q = None).
  { intros q Hq. destruct (page_table b !! q) as [s|] eqn:E; [|done]. exfalso.
    destruct (pi_table _ _ _ _ _ _ _ _ I q s E) as (_ & _ & _ & Ha & _). apply allocated_next in Ha; [|apply I]. rewrite Hq in Ha. lia. }
  unfold pool_fetch, fetch_page, try_hit, lookup_page. rewrite Hno by done.
  pose proof (read_first (store b) rel ltac:(apply I) (eq_sym Hn)) as Hrd. pose proof (fun r => read_next (store b) (mkPageId rel 0) r ltac:(apply I)) as Hx.
  destruct (read_page (store b) (mkPageId rel 0)) as [rd st] eqn:Er. cbn [fst snd] in *. pose proof (read_inv _ _ _ _ _ _ I Er) as I0.
  destruct Hrd as [-> | ->].
  { destruct (reset_agrees rel O (set_store b st) (no_pages None)) as (b2 & Hr & Hs2).
    - by eapply (sim_same _ _ _ _ _ _ L Hsim).
    - exists (Err (Io NotFound)), (set_store b st), b2. split_and!; [done|by left|done|done]. }
  destruct (allocate_frame_placed (set_store b st) [] L (with_data (mkPageId rel 0) zeroed) I0) as (r & b1 & Hrun & _ & Hr & Hex); [by apply Hno|].
  destruct (allocate_frame_size _ _ _ _ _ _ I0 Hrun) as [Hcase [Hl Hl1]]. rewrite Hrun.
  destruct r as [slot|e]; last first.
  { exfalso. destruct Hcase as [[= ->]|]; [|done]. destruct (proj1 Hex eq_refl) as [_ Hall].
    by apply (not_all_pinned (set_store b st) []) in Hall; [|exact Hf|cbn; lia]. }
  destruct Hr as (fr & tbl & ev & I1 & Hfr & Htb & Htn & Hev). cbn [with_data pid] in *.
  assert (Hin : PoolRefinement.in_range fr slot) by (apply (pi_loose _ _ _ _ _ _ _ _ I1), elem_of_union_l, elem_of_singleton; done).
  set (pg := with_data (mkPageId rel 0) zeroed) in *.
  assert (Hfa : frame_at b1 slot = Some (pin pg)).
  { unfold frame_at. by rewrite Hfr, frame_lookup_insert, decide_True by (done || apply Hin). }
  unfold drop_guard. rewrite Hfa. cbn [mbind option_bind]. change (claim_dirty_transition (pin pg)) with (false, pin pg). cbn iota zeta.
  change (dirty (pin pg)) with false. cbn iota. unfold unpin_frame, frame_at. cbn [frames set_frame].
  rewrite Hfr, list_insert_insert_eq, frame_lookup_insert, decide_True by (done || apply Hin). cbn [mbind option_bind].
  assert (Htr : forall q, relation_id q = rel -> tbl !! q = None).
  { intros q Hq. destruct (tbl !! q) as [x|] eqn:E; [|done]. exfalso.
    destruct (pi_table _ _ _ _ _ _ _ _ I1 q x E) as (_ & _ & _ & Ha & _). apply allocated_next in Ha; [|apply I1].
    rewrite Hq, Hl1 in Ha. cbn [store set_store] in Ha. rewrite Hx in Ha. lia. }
  set (b2 := set_frame (set_frame b1 slot (pin pg)) slot (unpin (pin pg))).
  destruct (reset_ghost b2 L (mkPageId rel 0) slot fr tbl ev (unpin (pin pg))) as (b3 & Hloop & I3 & Hst3 & Hl3); try done.
  { unfold b2. cbn [frames set_frame]. by rewrite Hfr, !list_insert_insert_eq. }
  destruct (reset_uncached rel O b2 b3 L) as (b4 & Hres & Hs4); try done.
  - rewrite Hl3. unfold b2. cbn [frames set_frame]. rewrite !length_insert. cbn in Hl. lia.
  - intros q Hq. destruct (page_table b3 !! q) as [x|] eqn:E; [|done]. exfalso.
    destruct (pi_table _ _ _ _ _ _ _ _ I3 q x E) as (_ & _ & _ & Ha & _). apply allocated_next in Ha; [|apply I3].
    rewrite Hst3, Hq in Ha. unfold b2 in Ha. cbn [store set_frame] in Ha. rewrite Hl1 in Ha. cbn [store set_store] in Ha. rewrite Hx in Ha. lia.
  - exists (Ok zeroed), b2, b4. split_and!; [done|by right|done|done].
Qed.

#[local] Instance agree_pages : PageLimit := store_pages S.

(** A program has on the pool the result it has on the map of pages. *)
Lemma pool_run_agrees rel O : forall A (p : Prog A) held gs b s r s',
  run_in held p s = Some (r, s') -> sim rel O b gs s -> (held = false -> gs = []) ->
  exists b', pool_run rel p b = Some (r, b') /\ sim rel O b' gs s'.
Proof.
  induction p as [A r0|A|A n k IH|A n u k IH|A body IHb u k IH|A k IH|A k IH|A k IH];
    intros held gs b s r s' Hrun Hsim Hgs; cbn [run_in pool_run] in *.
  - injection Hrun as <- <-. by exists b.
  - done.
  - rewrite (sim_absent _ _ _ _ _ Hsim) in Hrun. destruct (pages s !! n) as [d|] eqn:E; [|done].
    destruct (fetch_agrees rel O b gs s n d Hsim E) as (b1 & -> & Hs1). cbn [mbind option_bind]. by eapply IH.
  - destruct (pages s !! n) as [d|] eqn:E; [|done].
    pose proof (modify_agrees rel O b gs s n u d Hsim E) as Hm. destruct (u d) as [r1 d'].
    destruct (pageb d') eqn:Epg; [|done]. apply pageb_spec in Epg. destruct (Hm Epg) as (b1 & -> & Hs1). cbn [mbind option_bind].
    destruct r1 as [[]|e]; by eapply IH.
  - destruct held; [done|]. rewrite (Hgs eq_refl) in *. cbn [orb] in Hrun.
    destruct (Z.leb_spec PAGE_LIMIT (next_page s)) as [|Hlt]; [done|].
    destruct (new_page_agrees rel O b s Hsim Hlt) as (slot & b1 & fr & -> & -> & Hnum & Hs1). cbn [mbind option_bind]. rewrite Hnum.
    destruct (run_in true (body (next_page s)) (grow s)) as [[[[]|e] s1]|] eqn:Eb; [|done|done].
    destruct (IHb (next_page s) true _ b1 (grow s) (Ok tt) s1 Eb Hs1) as (b2 & -> & Hs2); [done|]. cbn [mbind option_bind].
    destruct (created_agrees rel O b2 s1 (next_page s) slot u Hs2) as (b3 & Hdrop & Hmod). rewrite Hdrop. cbn [mbind option_bind].
    destruct (pages s1 !! next_page s) as [d|] eqn:E; [|done]. specialize (Hmod d eq_refl). destruct (u d) as [r1 d'].
    destruct (pageb d') eqn:Epg; [|done]. apply pageb_spec in Epg. destruct (Hmod Epg) as (b4 & -> & Hs4). cbn [mbind option_bind].
    destruct r1 as [[]|e]; by eapply IH.
  - destruct held; [done|]. rewrite (Hgs eq_refl) in *. destruct (reset_agrees rel O b s Hsim) as (b1 & -> & Hs1). cbn [mbind option_bind].
    rewrite (sim_absent _ _ _ _ _ Hsim) in Hrun. by eapply IH.
  - destruct (flush_agrees rel O b gs s Hsim) as (c & b1 & -> & Hs1). cbn [mbind option_bind unit_result]. by eapply IH.
  - destruct (sync_agrees rel O b gs s Hsim) as (b1 & -> & Hs1). by eapply IH.
Qed.

End Agree.
