(* ===== verification/BTreePool.v ===== *)
(** * The disk B+tree on the buffer pool

    The parts together: the operations of [DiskBTree] run on a [BufferPool] over a page
    store that does not fail ([ReliableStore], as the source's [MemoryPageStore] is).  The
    tree is a map ([BTreeSpec]) on pages that are a map ([PoolProg]), so it is a map on the
    pool, also across a flush and a restart with an empty pool. *)

From S2P Require Import Prelude.
From S2P Require Import Bytes.
From S2P Require Import PageBytes.
From S2P Require Import PoolPage.
From S2P Require Import ClockSweep.
From S2P Require Import BufferPool.
From S2P Require Import PoolRefinement.
From S2P Require Import BTreePage.
From S2P Require Import PageProg.
From S2P Require Import PoolProg.
From S2P Require Import DiskBTree.
From S2P Require Import BTreeMaintenance.
From S2P Require Import BTreeState.
From S2P Require Import BTreeSpec.

(** Calls one after the other on the pool. *)
Fixpoint pool_ops {S : Type} `{PageStore S} (cfg : DiskBTreeConfig) (fuel : nat) (rel : Z) (ops : list Op) (b : BufferPool S) :
    option (list (PoolResult Reply) * BufferPool S) :=
  match ops with
  | [] => Some ([], b)
  | op :: ops =>
      match pool_run rel (op_prog cfg fuel op) b with
      | Some (r, b') =>
          match pool_ops cfg fuel rel ops b' with Some (rs, b'') => Some (r :: rs, b'') | None => None end
      | None => None
      end
  end.

Lemma explained_app M1 ops1 rs1 M2 ops2 rs2 M3 :
  explained M1 ops1 rs1 M2 -> explained M2 ops2 rs2 M3 -> explained M1 (ops1 ++ ops2) (rs1 ++ rs2) M3.
Proof. induction 1; intros He; cbn [app]; [done|constructor; auto|constructor; auto]. Qed.

Lemma room_for_le `{PL : PageLimit} m n : room_for n -> 0 <= m <= n -> room_for m.
Proof. intros [H1 H2] Hm. split; [lia|nia]. Qed.

Section Pool.
Context {S : Type} `{ReliableStore S} (rel : Z).

#[local] Instance pool_pages : PageLimit := store_pages S.

Lemma pool_ops_agree cfg fuel O : forall ops b s rs s',
  run_ops cfg fuel ops s = Some (rs, s') -> sim rel O b [] s ->
  exists b', pool_ops cfg fuel rel ops b = Some (rs, b') /\ sim rel O b' [] s'.
Proof.
  induction ops as [|op ops IH]; intros b s rs s' Hr Hs; cbn [run_ops pool_ops] in *.
  { injection Hr as <- <-. by exists b. }
  destruct (run (op_prog cfg fuel op) s) as [[r s1]|] eqn:E1; [|done].
  destruct (run_ops cfg fuel ops s1) as [[rs1 s2]|] eqn:E2; [|done]. injection Hr as <- <-.
  destruct (pool_run_agrees rel O _ _ false [] b s r s1 E1 Hs) as (b1 & -> & Hs1); [done|].
  destruct (IH b1 s1 rs1 s2 E2 Hs1) as (b2 & -> & Hs2). by exists b2.
Qed.

Lemma frames_new cap (st : S) b : new_pool cap st = Some b -> length (frames b) = Z.to_nat cap /\ store b = st.
Proof. unfold new_pool. destruct (cap <=? 0); [done|]. intros [= <-]. cbn. by rewrite length_replicate. Qed.

(** The store has the pages of [s]. *)
Record stored (st : S) (s : Rel) : Prop := {
  st_wf : store_wf st;
  st_next : next_page s = store_next st rel;
  st_dom n : is_Some (pages s !! n) <-> 0 <= n < next_page s;
  st_pages n d : pages s !! n = Some d -> BufferPool.contents st (mkPageId rel n) = Some d;
  st_absent : absent s = None }.

Lemma new_pool_sim cap (st : S) b s :
  stored st s -> 2 <= cap -> new_pool cap st = Some b -> sim rel (BufferPool.contents st) b [] s.
Proof.
  intros [Hw Hn Hdom Hp Ha] Hc Hb. destruct (frames_new cap st b Hb) as [Hl Hst]. split; [lia|cbn; lia|done|by rewrite Hst|done|].
  exists (BufferPool.contents st). split_and!; [by eapply new_pool_inv| |done]. intros n d Hd. left. by apply Hp.
Qed.

Lemma stored_empty (st : S) : store_wf st -> store_next st rel = 0 -> stored st (no_pages None).
Proof. intros Hw Hn. split; cbn; try done. intros n. rewrite lookup_empty. split; [by intros [? ?]|lia]. Qed.

(** Opening a relation without pages creates an empty tree, whatever the store reads there. *)
Lemma pool_open cfg O b :
  config_ok cfg -> sim rel O b [] (no_pages None) ->
  exists b1 s1, pool_run rel open_or_create b = Some (Ok tt, b1) /\ sim rel O b1 [] s1 /\ holds cfg 0 s1 ∅.
Proof.
  intros [Hl _] Hs. destruct (first_fetch rel O b Hs) as (r & b1 & b2 & Hf & Hr & Hreset & Hs2).
  assert (Hw : wp initialize_empty (no_pages None) (fun r s' => r = Ok tt /\ holds cfg 0 s' ∅)) by (by apply (wp_initialize_empty cfg Hl)).
  apply wp_run in Hw as (r1 & s1 & Hrun & -> & Hh).
  destruct (pool_run_agrees rel O _ _ false [] b2 _ _ s1 Hrun Hs2) as (b3 & Hb3 & Hs3); [done|].
  exists b3, s1. split_and!; [|done|done]. unfold open_or_create. cbn [pool_run]. change META_PAGE_NO with 0. rewrite Hf. cbn [mbind option_bind].
  assert (Hinit : pool_run rel reset_and_initialize b1 = Some (Ok tt, b3)).
  { unfold reset_and_initialize. cbn [pool_run]. rewrite Hreset. cbn [mbind option_bind Prog_bind]. exact Hb3. }
  destruct Hr as [-> | ->]; exact Hinit.
Qed.

(** After a flush the store has every page. *)
Lemma flush_stored O b s :
  sim rel O b [] s -> exists b1, pool_run rel flush b = Some (Ok tt, b1) /\ stored (store b1) s.
Proof.
  intros Hs. pose proof Hs as [_ _ _ _ _ (L & I & HL & HO)].
  destruct (flush_all_step b [] L I) as (r & b1 & Hfl & I1 & _ & Hst). destruct (flush_agrees rel O b [] s Hs) as (k & b1' & Hfl' & Hs1).
  rewrite Hfl in Hfl'. injection Hfl' as -> ->. specialize (Hst ltac:(by eexists)).
  destruct (sync_agrees rel O b1' [] s Hs1) as (b2 & Hsy & Hs2).
  pose proof (sync_step b1' [] L (Ok tt) b2 I1 Hsy) as [I2 Hc2]. exists b2. split.
  - unfold flush. cbn [pool_run mbind Prog_bind]. rewrite Hfl. cbn [mbind option_bind unit_result]. cbn [pool_run Prog_bind]. by rewrite Hsy.
  - destruct Hs2 as [_ _ Hab Hn2 Hdom2 _]. split; try done; [apply I2|].
    intros n d Hd. rewrite Hc2. destruct (HL n d Hd) as [E|(_ & _ & sl & Hin)]; [|by apply elem_of_nil in Hin].
    destruct (Hst (mkPageId rel n)) as [E'|[E' _]]; congruence.
Qed.

Lemma new_pool_some cap (st : S) : 2 <= cap -> exists b, new_pool cap st = Some b.
Proof. intros Hc. unfold new_pool. rewrite (proj2 (Z.leb_gt _ _)) by lia. by eexists. Qed.

(** Opening the tree, operations on it and a flush: the store then holds the tree. *)
Lemma flushed_tree cfg fuel cap (st : S) b ops :
  config_ok cfg -> store_wf st -> store_next st rel = 0 -> 2 <= cap -> new_pool cap st = Some b ->
  Forall op_ok ops -> room_for (Z.of_nat (length ops)) -> (length ops <= fuel)%nat ->
  exists b1 rs b2 b3 s M,
    pool_run rel open_or_create b = Some (Ok tt, b1) /\ pool_ops cfg fuel rel ops b1 = Some (rs, b2) /\
    pool_run rel flush b2 = Some (Ok tt, b3) /\ explained ∅ ops rs M /\
    stored (store b3) s /\ holds cfg (Z.of_nat (length ops)) s M.
Proof.
  intros Hcfg Hw Hn Hc Hb Hops Hlen Hfu. pose proof (new_pool_sim cap st b _ (stored_empty st Hw Hn) Hc Hb) as Hs.
  destruct (pool_open cfg _ b Hcfg Hs) as (b1 & s1 & Hb1 & Hs1 & Hh). destruct Hcfg as [Hl Hi].
  destruct (ops_explained cfg Hl Hi fuel ops 0 s1 ∅ Hh Hops) as (rs & s2 & M & Hrun & Hex & Hh2); [lia|done|lia|].
  destruct (pool_ops_agree cfg fuel _ ops b1 s1 rs s2 Hrun Hs1) as (b2 & Hb2 & Hs2).
  destruct (flush_stored _ b2 s2 Hs2) as (b3 & Hb3 & Hst3). by exists b1, rs, b2, b3, s2, M.
Qed.

(** A store that holds a tree: a new pool opens it and goes on. *)
Lemma stored_tree_continues cfg fuel cap (st : S) s n M ops :
  config_ok cfg -> stored st s -> holds cfg n s M -> 2 <= cap -> 0 <= n ->
  Forall op_ok ops -> room_for (n + Z.of_nat (length ops)) -> n + Z.of_nat (length ops) <= Z.of_nat fuel ->
  exists b b1 rs b2 M',
    new_pool cap st = Some b /\ pool_run rel open_or_create b = Some (Ok tt, b1) /\
    pool_ops cfg fuel rel ops b1 = Some (rs, b2) /\ explained M ops rs M'.
Proof.
  intros [Hl Hi] Hst Hh Hc Hn Hops Hlen Hfu. destruct (new_pool_some cap st Hc) as [b Hb].
  pose proof (new_pool_sim cap st b s Hst Hc Hb) as Hs.
  destruct (pool_run_agrees rel _ _ _ false [] b _ _ s (reopen cfg _ s M Hh) Hs) as (b1 & Hb1 & Hs1); [done|].
  destruct (ops_explained cfg Hl Hi fuel ops n s M Hh Hops) as (rs & s' & M' & Hrun & Hex & _); [lia|done|lia|].
  destruct (pool_ops_agree cfg fuel _ ops b1 s rs s' Hrun Hs1) as (b2 & Hb2 & _). by exists b, b1, rs, b2, M'.
Qed.

(** [C9] The disk B+tree on the buffer pool is a map.  Take any reliable page store in
    which the relation has no pages and a new pool of two or more frames over it: opening
    the tree succeeds, and as many operations as the store has page numbers for ([room_for])
    give, run on the pool, the results of the same operations on a map, whatever the pool
    evicts, writes back and reads again.  The pages of other relations keep their
    contents. *)
Theorem pool_tree_is_map cfg fuel cap (st : S) b ops :
  config_ok cfg -> store_wf st -> store_next st rel = 0 -> 2 <= cap -> new_pool cap st = Some b ->
  Forall op_ok ops -> room_for (Z.of_nat (length ops)) -> (length ops <= fuel)%nat ->
  exists b1 rs b2 M L, pool_run rel open_or_create b = Some (Ok tt, b1) /\ pool_ops cfg fuel rel ops b1 = Some (rs, b2) /\
    explained ∅ ops rs M /\ inv b2 [] L /\ forall q, relation_id q <> rel -> L q = BufferPool.contents st q.
Proof.
  intros Hcfg Hw Hn Hc Hb Hops Hlen Hfu. pose proof (new_pool_sim cap st b _ (stored_empty st Hw Hn) Hc Hb) as Hs.
  destruct (pool_open cfg _ b Hcfg Hs) as (b1 & s1 & Hb1 & Hs1 & Hh). destruct Hcfg as [Hl Hi].
  destruct (ops_explained cfg Hl Hi fuel ops 0 s1 ∅ Hh Hops) as (rs & s2 & M & Hrun & Hex & _); [lia|done|lia|].
  destruct (pool_ops_agree cfg fuel _ ops b1 s1 rs s2 Hrun Hs1) as (b2 & Hb2 & [_ _ _ _ _ (L & I2 & _ & HO)]).
  by exists b1, rs, b2, M, L.
Qed.

(** A flushed tree survives a restart.  Operations, a flush, a new and empty pool over
    the store the flush left, opening the tree there, and more operations: together they
    give the results of all the operations on one map. *)
Theorem flushed_tree_survives_restart cfg fuel cap cap' (st : S) b ops ops' :
  config_ok cfg -> store_wf st -> store_next st rel = 0 -> 2 <= cap -> 2 <= cap' -> new_pool cap st = Some b ->
  Forall op_ok ops -> Forall op_ok ops' -> room_for (Z.of_nat (length ops + length ops')) -> (length ops + length ops' <= fuel)%nat ->
  exists b1 rs b2 b3 b4 b5 rs' b6 M,
    pool_run rel open_or_create b = Some (Ok tt, b1) /\ pool_ops cfg fuel rel ops b1 = Some (rs, b2) /\
    pool_run rel flush b2 = Some (Ok tt, b3) /\ new_pool cap' (store b3) = Some b4 /\
    pool_run rel open_or_create b4 = Some (Ok tt, b5) /\ pool_ops cfg fuel rel ops' b5 = Some (rs', b6) /\
    explained ∅ (ops ++ ops') (rs ++ rs') M.
Proof.
  intros Hcfg Hw Hn Hc Hc' Hb Hops Hops' Hlen Hfu.
  destruct (flushed_tree cfg fuel cap st b ops) as (b1 & rs & b2 & b3 & s & M & Ho & Hr & Hfl & Hex & Hst & Hh);
    [done..|eapply room_for_le; [exact Hlen|lia]|lia|].
  destruct (stored_tree_continues cfg fuel cap' (store b3) s _ M ops' Hcfg Hst Hh Hc') as (b4 & b5 & rs' & b6 & M' & Hb4 & Ho' & Hr' & Hex');
    [lia|done|by rewrite <- Nat2Z.inj_add|lia|].
  exists b1, rs, b2, b3, b4, b5, rs', b6, M'. split_and!; try done. by eapply explained_app.
Qed.

End Pool.

(** ** Instances *)

Definition small_pool : BufferPool MemoryPageStore := default no_pool (new_pool 2 memory_new).

Lemma memory_new_wf : store_wf memory_new.
Proof.
  split; [intros rel; unfold next_number, memory_new; cbn; rewrite lookup_empty; cbn; unfold u64_max; lia|].
  intros p d. cbn. by rewrite lookup_empty.
Qed.

Lemma pool_tree_is_map_witness :
  exists b1 rs b2 M L, pool_run 5 open_or_create small_pool = Some (Ok tt, b1) /\
    pool_ops default_config 2 5 [OpInsert 1 10; OpGet 1] b1 = Some (rs, b2) /\
    explained ∅ [OpInsert 1 10; OpGet 1] rs M /\ inv b2 [] L /\
    forall q, relation_id q <> 5 -> L q = BufferPool.contents memory_new q.
Proof.
  apply (pool_tree_is_map 5 default_config 2 2 memory_new small_pool).
  - split; by vm_compute.
  - exact memory_new_wf.
  - done.
  - lia.
  - done.
  - repeat constructor; by vm_compute.
  - by vm_compute.
  - cbn. lia.
Defined.

Lemma flushed_tree_survives_restart_witness :
  exists b1 rs b2 b3 b4 b5 rs' b6 M,
    pool_run 5 open_or_create small_pool = Some (Ok tt, b1) /\ pool_ops default_config 2 5 [OpInsert 1 10] b1 = Some (rs, b2) /\
    pool_run 5 flush b2 = Some (Ok tt, b3) /\ new_pool 3 (store b3) = Some b4 /\
    pool_run 5 open_or_create b4 = Some (Ok tt, b5) /\ pool_ops default_config 2 5 [OpGet 1] b5 = Some (rs', b6) /\
    explained ∅ ([OpInsert 1 10] ++ [OpGet 1]) (rs ++ rs') M.
Proof.
  apply (flushed_tree_survives_restart 5 default_config 2 2 3 memory_new small_pool).
  - split; by vm_compute.
  - exact memory_new_wf.
  - done.
  - lia.
  - lia.
  - done.
  - repeat constructor; by vm_compute.
  - repeat constructor.
  - by vm_compute.
  - cbn. lia.
Defined.
