(* ===== verification/Checksum.v ===== *)
(** * Checksums ([crates/aiondb-core/src/checksum.rs])

    CRC32C, bit by bit as the source computes it, and the FNV-1a hash of the older
    formats.  The theorem is the guarantee a CRC is chosen for: no corruption confined
    to four consecutive bytes goes unnoticed. *)

From S2P Require Import Prelude.
From S2P Require Import Bytes.

Definition CRC32C_REVERSED_POLY : Z := 0x82f63b78.

(** One turn of the inner loop. *)
Definition crc_bit (crc : Z) : Z :=
  if Z.land crc 1 =? 0 then Z.shiftr crc 1 else Z.lxor (Z.shiftr crc 1) CRC32C_REVERSED_POLY.

(** One turn of the outer loop. *)
Definition crc_byte (crc b : Z) : Z := Nat.iter 8 crc_bit (Z.lxor crc b).

Definition compute_crc32c (data : list Z) : Z :=
  Z.lxor (fold_left crc_byte data 0xffffffff) 0xffffffff.

Definition fnv_byte (hash b : Z) : Z := (Z.lxor hash b * 0x01000193) mod 2 ^ 32.

Definition compute_legacy_fnv1a (data : list Z) : Z := fold_left fnv_byte data 0x811c9dc5.

(** ** One bit *)

Lemma land_1_odd c : (Z.land c 1 =? 0) = negb (Z.odd c).
Proof.
  change 1 with (Z.ones 1). rewrite Z.land_ones, Zmod_odd by lia. by destruct (Z.odd c).
Qed.

Lemma crc_bit_odd c :
  crc_bit c = Z.lxor (Z.shiftr c 1) (if Z.odd c then CRC32C_REVERSED_POLY else 0).
Proof. unfold crc_bit. rewrite land_1_odd. destruct (Z.odd c); [done|]. by rewrite Z.lxor_0_r. Qed.

Lemma bits_above w a i : in_unsigned w a -> 0 <= w <= i -> Z.testbit a i = false.
Proof.
  unfold in_unsigned. intros Ha Hi. destruct (Z.eq_dec a 0) as [->|]; [apply Z.bits_0|].
  apply Z.bits_above_log2; [lia|]. apply Z.lt_le_trans with w; [|lia]. apply Z.log2_lt_pow2; lia.
Qed.

Lemma lxor_range w a b : 0 <= w -> in_unsigned w a -> in_unsigned w b -> in_unsigned w (Z.lxor a b).
Proof.
  intros Hw Ha Hb. rewrite <- (Z.mod_small a (2 ^ w)), <- (Z.mod_small b (2 ^ w)) by done.
  rewrite <- !Z.land_ones by done.
  assert (E : Z.lxor (Z.land a (Z.ones w)) (Z.land b (Z.ones w)) = Z.land (Z.lxor a b) (Z.ones w)).
  { apply Z.bits_inj'. intros i Hi. rewrite !Z.lxor_spec, !Z.land_spec, Z.lxor_spec.
    by destruct (Z.testbit a i), (Z.testbit b i), (Z.testbit (Z.ones w) i). }
  rewrite E, Z.land_ones by done. apply Z.mod_pos_bound. lia.
Qed.

Lemma shiftr_1_range c : in_unsigned 32 c -> in_unsigned 31 (Z.shiftr c 1).
Proof.
  unfold in_unsigned. rewrite Z.shiftr_div_pow2 by lia. intros Hc. change (2 ^ 1) with 2.
  split; [apply Z.div_pos; lia|]. apply Z.div_lt_upper_bound; lia.
Qed.

Lemma crc_bit_range c : in_unsigned 32 c -> in_unsigned 32 (crc_bit c).
Proof.
  intros Hc. rewrite crc_bit_odd. pose proof (shiftr_1_range c Hc) as Hs.
  apply lxor_range; [lia|unfold in_unsigned in *; lia|]. by destruct (Z.odd c).
Qed.

(** The top bit of the result is the bit shifted out. *)
Lemma crc_bit_top c : in_unsigned 32 c -> Z.testbit (crc_bit c) 31 = Z.odd c.
Proof.
  intros Hc. rewrite crc_bit_odd, Z.lxor_spec.
  replace (Z.testbit (Z.shiftr c 1) 31) with false.
  - by destruct (Z.odd c).
  - symmetry. apply (bits_above 31); [by apply shiftr_1_range|lia].
Qed.

Lemma crc_bit_inj c d : in_unsigned 32 c -> in_unsigned 32 d -> crc_bit c = crc_bit d -> c = d.
Proof.
  intros Hc Hd He. assert (Ho : Z.odd c = Z.odd d) by (rewrite <- !crc_bit_top by done; by rewrite He).
  rewrite !crc_bit_odd, Ho in He.
  assert (Hs : Z.shiftr c 1 = Z.shiftr d 1).
  { apply (f_equal (fun x => Z.lxor x (if Z.odd d then CRC32C_REVERSED_POLY else 0))) in He.
    by rewrite !Z.lxor_assoc, !Z.lxor_nilpotent, !Z.lxor_0_r in He. }
  rewrite <- !Z.div2_spec in Hs. rewrite (Z.div2_odd c), (Z.div2_odd d). congruence.
Qed.

(** A bit above the one shifted out moves down unchanged. *)
Lemma crc_bit_shift x y : crc_bit (Z.lxor x (2 * y)) = Z.lxor (crc_bit x) y.
Proof.
  rewrite !crc_bit_odd. assert (Z.odd (Z.lxor x (2 * y)) = Z.odd x) as ->.
  { rewrite <- !Z.bit0_odd, Z.lxor_spec, Z.testbit_even_0. apply xorb_false_r. }
  rewrite Z.shiftr_lxor, (Z.shiftr_div_pow2 (2 * y)) by lia. rewrite Z.mul_comm, Z.div_mul by done.
  rewrite !Z.lxor_assoc. f_equal. apply Z.lxor_comm.
Qed.

(** ** Runs *)

Lemma crc_iter_shift n x y :
  Nat.iter n crc_bit (Z.lxor x (2 ^ Z.of_nat n * y)) = Z.lxor (Nat.iter n crc_bit x) y.
Proof.
  revert y. induction n as [|n IH]; intros y; [cbn [Nat.iter]; by rewrite Z.pow_0_r, Z.mul_1_l|].
  rewrite !Nat.iter_succ. replace (2 ^ Z.of_nat (S n) * y) with (2 ^ Z.of_nat n * (2 * y)).
  - by rewrite IH, crc_bit_shift.
  - rewrite Nat2Z.inj_succ, Z.pow_succ_r by lia. ring.
Qed.

Lemma crc_iter_range n c : in_unsigned 32 c -> in_unsigned 32 (Nat.iter n crc_bit c).
Proof. intros Hc. induction n as [|n IH]; [done|]. by apply crc_bit_range. Qed.

Lemma crc_iter_inj n c d :
  in_unsigned 32 c -> in_unsigned 32 d -> Nat.iter n crc_bit c = Nat.iter n crc_bit d -> c = d.
Proof.
  intros Hc Hd. induction n as [|n IH]; [done|]. intros He. apply IH.
  apply crc_bit_inj; auto using crc_iter_range.
Qed.

Lemma lxor_disjoint n v b :
  in_unsigned n v -> 0 <= n -> Z.lxor v (2 ^ n * b) = v + 2 ^ n * b.
Proof.
  intros Hv Hn. rewrite <- Z.add_nocarry_lxor; [done|].
  apply Z.bits_inj'. intros i Hi. rewrite Z.land_spec, Z.bits_0.
  destruct (Z.lt_ge_cases i n).
  - rewrite Z.mul_comm, Z.mul_pow2_bits_low by lia. apply andb_false_r.
  - by rewrite (bits_above n v) by lia || done.
Qed.

Lemma iter_add {A} (f : A -> A) n m x : Nat.iter (n + m) f x = Nat.iter n f (Nat.iter m f x).
Proof. induction n as [|n IH]; [done|]. cbn [plus]. by rewrite !Nat.iter_succ, IH. Qed.

Lemma le_value_snoc w b : le_value (w ++ [b]) = le_value w + 256 ^ Z.of_nat (length w) * b.
Proof.
  induction w as [|x w IH]; [cbn [app le_value length]; rewrite Z.pow_0_r; lia|].
  cbn [app le_value length]. rewrite IH, Nat2Z.inj_succ, Z.pow_succ_r by lia. ring.
Qed.

(** A run of bytes is its little-endian value fed in at once. *)
Lemma crc_bytes_iter w c :
  Forall byte w ->
  fold_left crc_byte w c = Nat.iter (8 * length w) crc_bit (Z.lxor c (le_value w)).
Proof.
  induction w as [|b w IH] using rev_ind; intros Hw; [cbn; by rewrite Z.lxor_0_r|].
  apply Forall_app in Hw as [Hw Hb]. rewrite fold_left_app. cbn [fold_left]. unfold crc_byte at 1.
  rewrite IH, length_app, le_value_snoc by done. cbn [length].
  replace (8 * (length w + 1))%nat with (8 + 8 * length w)%nat by lia. rewrite iter_add. f_equal.
  assert (Hp : 256 ^ Z.of_nat (length w) = 2 ^ Z.of_nat (8 * length w)).
  { rewrite Nat2Z.inj_mul, Z.pow_mul_r by lia. done. }
  pose proof (le_value_bound w Hw) as Hv. rewrite Hp in *.
  rewrite <- (lxor_disjoint (Z.of_nat (8 * length w)) (le_value w) b) by (done || lia).
  by rewrite <- Z.lxor_assoc, crc_iter_shift.
Qed.

Lemma crc_fold_range data c : Forall byte data -> in_unsigned 32 c -> in_unsigned 32 (fold_left crc_byte data c).
Proof.
  intros Hd. revert c. induction Hd as [|b data Hb Hd IH]; intros c Hc; [done|]. cbn [fold_left]. apply IH.
  apply crc_iter_range, lxor_range; [lia|done|]. unfold byte, in_unsigned in *. lia.
Qed.

Lemma lxor_inj_l a b c : Z.lxor a b = Z.lxor a c -> b = c.
Proof.
  intros E. apply (f_equal (Z.lxor a)) in E. by rewrite <- !Z.lxor_assoc, !Z.lxor_nilpotent, !Z.lxor_0_l in E.
Qed.

(** Up to four bytes are absorbed without loss, in the state and in the bytes. *)
Lemma crc_window_inj w v c d :
  Forall byte w -> Forall byte v -> length w = length v -> (length w <= 4)%nat ->
  in_unsigned 32 c -> in_unsigned 32 d ->
  fold_left crc_byte w c = fold_left crc_byte v d -> Z.lxor c (le_value w) = Z.lxor d (le_value v).
Proof.
  intros Hw Hv Hl H4 Hc Hd He. rewrite !crc_bytes_iter, Hl in He by done.
  assert (Hr : forall u, Forall byte u -> (length u <= 4)%nat -> in_unsigned 32 (le_value u)).
  { intros u Hu Hlu. pose proof (le_value_bound u Hu) as Hb. unfold in_unsigned.
    assert (256 ^ Z.of_nat (length u) <= 256 ^ 4) by (apply Z.pow_le_mono_r; lia). lia. }
  eapply crc_iter_inj; [| |exact He]; apply lxor_range; auto with lia.
Qed.

Lemma crc_suffix_inj post c d :
  Forall byte post -> in_unsigned 32 c -> in_unsigned 32 d ->
  fold_left crc_byte post c = fold_left crc_byte post d -> c = d.
Proof.
  intros Hp. revert c d. induction Hp as [|b post Hb Hp IH]; intros c d Hc Hd He; [done|].
  cbn [fold_left] in He.
  assert (Hr : forall x, in_unsigned 32 x -> in_unsigned 32 (crc_byte x b)).
  { intros x Hx. apply (crc_fold_range [b] x); [by constructor|done]. }
  apply IH in He; [|auto..].
  pose proof (crc_window_inj [b] [b] c d) as Hi. cbn [fold_left le_value length] in Hi.
  specialize (Hi ltac:(by constructor) ltac:(by constructor) eq_refl ltac:(lia) Hc Hd He).
  rewrite (Z.lxor_comm c), (Z.lxor_comm d) in Hi. by apply lxor_inj_l in Hi.
Qed.

Lemma crc_range data : Forall byte data -> in_unsigned 32 (compute_crc32c data).
Proof. intros Hd. apply lxor_range; [lia|by apply crc_fold_range|done]. Qed.

Lemma fold_burst pre w v post c :
  Forall byte pre -> Forall byte w -> Forall byte v -> Forall byte post ->
  length w = length v -> (length w <= 4)%nat -> in_unsigned 32 c ->
  fold_left crc_byte (pre ++ w ++ post) c = fold_left crc_byte (pre ++ v ++ post) c -> w = v.
Proof.
  intros Hpre Hw Hv Hpost Hl H4 Hc He. rewrite !fold_left_app in He.
  assert (Hs : in_unsigned 32 (fold_left crc_byte pre c)) by by apply crc_fold_range.
  apply crc_suffix_inj in He; [|by auto using crc_fold_range..].
  apply crc_window_inj in He; [|done..]. apply lxor_inj_l in He. by apply le_value_inj.
Qed.

(** A difference confined to four consecutive bytes changes the checksum. *)
Lemma crc_burst pre w v post :
  Forall byte pre -> Forall byte w -> Forall byte v -> Forall byte post ->
  length w = length v -> (length w <= 4)%nat ->
  compute_crc32c (pre ++ w ++ post) = compute_crc32c (pre ++ v ++ post) -> w = v.
Proof.
  intros Hpre Hw Hv Hpost Hl H4 He. unfold compute_crc32c in He.
  rewrite !(Z.lxor_comm _ 0xffffffff) in He. apply lxor_inj_l in He. by apply (fold_burst pre w v post 0xffffffff).
Qed.

(** Data followed by its checksum leaves the register in one fixed state. *)
Lemma crc_residue d s :
  Forall byte d -> Forall byte s -> length s = 4%nat ->
  le_value s = compute_crc32c d <->
  fold_left crc_byte (d ++ s) 0xffffffff = Nat.iter 32 crc_bit 0xffffffff.
Proof.
  intros Hd Hs Hl. assert (Hc : in_unsigned 32 (fold_left crc_byte d 0xffffffff)) by by apply crc_fold_range.
  pose proof (le_value_bound s Hs) as Hv. rewrite Hl in Hv. unfold compute_crc32c.
  rewrite fold_left_app, (crc_bytes_iter s), Hl by done. split.
  - intros ->. by rewrite <- Z.lxor_assoc, Z.lxor_nilpotent, Z.lxor_0_l.
  - intros He. apply (lxor_inj_l (fold_left crc_byte d 0xffffffff)).
    rewrite <- Z.lxor_assoc, Z.lxor_nilpotent, Z.lxor_0_l.
    apply (crc_iter_inj (8 * 4)); [apply lxor_range; [lia|exact Hc|exact Hv]|by clear He|exact He].
Qed.

(** So a burst of four bytes is detected even where it reaches into the checksum. *)
Lemma crc_burst_framed pre w v post d s d' s' :
  Forall byte (pre ++ w ++ post) -> Forall byte v -> length w = length v -> (length w <= 4)%nat ->
  pre ++ w ++ post = d ++ s -> pre ++ v ++ post = d' ++ s' -> length s = 4%nat -> length s' = 4%nat ->
  le_value s = compute_crc32c d -> le_value s' = compute_crc32c d' -> w = v.
Proof.
  intros Hb Hv Hl H4 E E' Hs Hs' Hc Hc'. pose proof Hb as Hds. rewrite E in Hds.
  apply Forall_app in Hb as [Hpre [Hw Hpost]%Forall_app]. apply Forall_app in Hds as [Hd Hsb].
  assert (Hb' : Forall byte (d' ++ s')) by (rewrite <- E'; by rewrite !Forall_app).
  apply Forall_app in Hb' as [Hd' Hsb'].
  apply crc_residue in Hc; [|done..]. apply crc_residue in Hc'; [|done..]. rewrite <- E in Hc.
  rewrite <- E' in Hc'. apply (fold_burst pre w v post 0xffffffff); [..|exact (eq_trans Hc (eq_sym Hc'))];
    by clear Hc Hc'.
Qed.

Lemma fnv_range data : in_unsigned 32 (compute_legacy_fnv1a data).
Proof.
  unfold compute_legacy_fnv1a. assert (H : in_unsigned 32 0x811c9dc5) by done. revert H.
  generalize 0x811c9dc5. induction data as [|b data IH]; intros h Hh; [done|]. apply IH.
  unfold fnv_byte. apply Z.mod_pos_bound. lia.
Qed.
