(* ===== verification/Disk.v ===== *)
(** * Files and crashes

    The directory of a page store: named files that a program creates, overwrites, syncs and
    removes.  Each file has its current contents and, newest first, the older states that a
    crash may bring back: what was written since the last sync of the file, and whether the
    name existed before the last sync of the directory.  After a crash a file that was
    written to but not synced is [torn]: its length lies between those of the versions and
    each byte is that of some version, or zero. *)

From S2P Require Import Prelude.
From S2P Require Import Bytes.

(** ** Overwriting part of a file *)

(** [seek] to [off] and [write_all]; a gap is filled with zeros. *)
Definition overwrite (c : list Z) (off : nat) (bs : list Z) : list Z :=
  take off (c ++ replicate (off - length c) 0) ++ bs ++ drop (off + length bs) c.

(** The [i]th of the pieces of length [k]. *)
Definition chunk (k : nat) (c : list Z) (i : nat) : list Z := take k (drop (k * i) c).

Lemma length_overwrite c off bs : length (overwrite c off bs) = Nat.max (length c) (off + length bs).
Proof. unfold overwrite. rewrite !length_app, length_take, length_app, length_replicate, length_drop. lia. Qed.

Lemma lookup_overwrite c off bs i :
  (off <= length c)%nat ->
  overwrite c off bs !! i = if decide (off <= i < off + length bs)%nat then bs !! (i - off)%nat else c !! i.
Proof.
  intros Hoff. unfold overwrite. replace (off - length c)%nat with 0%nat by lia. cbn [replicate]. rewrite app_nil_r.
  assert (Hl : length (take off c) = off) by (rewrite length_take; lia). case_decide as Hi.
  - rewrite lookup_app_r, Hl by lia. by rewrite lookup_app_l by lia.
  - destruct (decide (i < off)%nat).
    + rewrite lookup_app_l by lia. by rewrite lookup_take_lt.
    + rewrite lookup_app_r, Hl by lia. rewrite lookup_app_r by lia. rewrite lookup_drop. f_equal. lia.
Qed.

Lemma lookup_chunk k c i x : chunk k c i !! x = if decide (x < k)%nat then c !! (k * i + x)%nat else None.
Proof. unfold chunk. case_decide; [by rewrite lookup_take_lt, lookup_drop|by rewrite lookup_take_ge by lia]. Qed.

Lemma chunk_overwrite k c j bs i :
  length bs = k -> (k * j <= length c)%nat ->
  chunk k (overwrite c (k * j) bs) i = if decide (i = j) then bs else chunk k c i.
Proof.
  intros Hl Hj. apply list_eq. intros x. rewrite lookup_chunk. case_decide as Hx.
  - rewrite lookup_overwrite by done. destruct (decide (i = j)) as [->|Hne].
    + rewrite decide_True by lia. f_equal. lia.
    + rewrite decide_False, lookup_chunk, decide_True; [done|done|]. rewrite Hl. intros [H1 H2]. apply Hne. nia.
  - destruct (decide (i = j)); [rewrite lookup_ge_None_2 by lia; done|]. by rewrite lookup_chunk, decide_False.
Qed.

Lemma length_chunk k c i : (k * i + k <= length c)%nat -> length (chunk k c i) = k.
Proof. intros Hl. unfold chunk. rewrite length_take, length_drop. lia. Qed.

Lemma overwrite_bytes c off bs : Forall byte c -> Forall byte bs -> Forall byte (overwrite c off bs).
Proof.
  intros Hc Hb. unfold overwrite. repeat apply Forall_app_2; auto using Forall_drop. apply Forall_take, Forall_app_2; [done|].
  apply Forall_replicate. unfold byte. lia.
Qed.

(** Two versions of a file that differ in one range are the same after it is written. *)
Lemma overwrite_same c c' off bs :
  length c = length c' -> (off + length bs <= length c)%nat ->
  (forall i, ~ (off <= i < off + length bs)%nat -> c !! i = c' !! i) -> overwrite c off bs = overwrite c' off bs.
Proof.
  intros Hl Ho Hs. apply list_eq. intros i. rewrite !lookup_overwrite by lia. case_decide; [done|]. by apply Hs.
Qed.

(** ** Names and states *)

Inductive FileName : Type := DataFile (rel : Z) | ChecksumFile (rel : Z) | JournalFile.

#[global] Instance FileName_eq_dec : EqDecision FileName.
Proof. solve_decision. Defined.

#[global] Instance FileName_countable : Countable FileName.
Proof.
  refine (inj_countable' (fun n => match n with DataFile r => inl (inl r) | ChecksumFile r => inl (inr r) | JournalFile => inr tt end)
    (fun x => match x with inl (inl r) => DataFile r | inl (inr r) => ChecksumFile r | inr _ => JournalFile end) _).
  by intros [].
Defined.

Record FileState : Type := mkFile { now : option (list Z); older : list (option (list Z)) }.

Abbreviation Disk := (gmap FileName FileState).

Definition file (d : Disk) (n : FileName) : FileState := default (mkFile None []) (d !! n).

Definition set_now (d : Disk) (n : FileName) (c : option (list Z)) : Disk :=
  <[n := mkFile c (now (file d n) :: older (file d n))]> d.

(** [write_all] at [off] through an open handle. *)
Definition write_at (d : Disk) (n : FileName) (off : Z) (bs : list Z) : Disk :=
  match now (file d n) with
  | Some c => set_now d n (Some (overwrite c (Z.to_nat off) bs))
  | None => d
  end.

(** The versions of the file that has the name now, and those from before it was created. *)
Fixpoint this_file (vs : list (option (list Z))) : list (option (list Z)) :=
  match vs with Some c :: vs => Some c :: this_file vs | _ => [] end.

Fixpoint before_file (vs : list (option (list Z))) : list (option (list Z)) :=
  match vs with Some _ :: vs => before_file vs | vs => vs end.

(** [sync_data] and [sync_all]. *)
Definition fsync (d : Disk) (n : FileName) : Disk :=
  <[n := mkFile (now (file d n)) (before_file (older (file d n)))]> d.

(** [sync_dir]. *)
Definition fsync_dir (d : Disk) : Disk :=
  (fun f => mkFile (now f) (match now f with Some _ => this_file (older f) | None => [] end)) <$> d.

Definition durable (d : Disk) : Prop := forall n, older (file d n) = [].

(** ** Crashes *)

Definition torn (vs : list (list Z)) (c : list Z) : Prop :=
  (exists v, v ∈ vs /\ (length v <= length c)%nat) /\ (exists v, v ∈ vs /\ (length c <= length v)%nat) /\
  forall i x, c !! i = Some x -> exists v, v ∈ vs /\ x = default 0 (v !! i).

(** What a name may be after a crash: absent if it was at some time, or a file of that name
    with any mixture of its versions. *)
Inductive crash_state (vs : list (option (list Z))) : option (list Z) -> Prop :=
| crash_absent : None ∈ vs -> crash_state vs None
| crash_torn pre ws post c : vs = pre ++ (Some <$> ws) ++ post -> torn ws c -> crash_state vs (Some c).

Definition crash (d d' : Disk) : Prop :=
  durable d' /\ forall n, crash_state (now (file d n) :: older (file d n)) (now (file d' n)).

(** ** The states of the files after each operation *)

Lemma file_set_now d n c m :
  file (set_now d n c) m = if decide (m = n) then mkFile c (now (file d n) :: older (file d n)) else file d m.
Proof. unfold file at 1, set_now. rewrite lookup_insert. by repeat case_decide; subst. Qed.

Lemma file_write_at d n c off bs m :
  now (file d n) = Some c ->
  file (write_at d n off bs) m =
    if decide (m = n) then mkFile (Some (overwrite c (Z.to_nat off) bs)) (Some c :: older (file d n)) else file d m.
Proof. intros E. unfold write_at. rewrite E. rewrite file_set_now. case_decide; [by rewrite E|done]. Qed.

Lemma file_fsync d n m :
  file (fsync d n) m = if decide (m = n) then mkFile (now (file d n)) (before_file (older (file d n))) else file d m.
Proof. unfold file at 1, fsync. rewrite lookup_insert. by repeat case_decide; subst. Qed.

(** A file after its directory is synced. *)
Definition settle (f : FileState) : FileState :=
  mkFile (now f) (match now f with Some _ => this_file (older f) | None => [] end).

Lemma file_fsync_dir d m : file (fsync_dir d) m = settle (file d m).
Proof. unfold file, fsync_dir. rewrite lookup_fmap. by destruct (d !! m). Qed.

Lemma settle_durable f : older f = [] -> settle f = f.
Proof. destruct f as [[c|] o]; cbn; by intros ->. Qed.

Lemma now_settle f : now (settle f) = now f.
Proof. done. Qed.

Lemma now_fsync d n m : now (file (fsync d n) m) = now (file d m).
Proof. rewrite file_fsync. by case_decide; subst. Qed.

Lemma now_set_now d n c m : now (file (set_now d n c) m) = if decide (m = n) then c else now (file d m).
Proof. rewrite file_set_now. by case_decide. Qed.

Lemma now_write_at d n c off bs m :
  now (file d n) = Some c ->
  now (file (write_at d n off bs) m) = if decide (m = n) then Some (overwrite c (Z.to_nat off) bs) else now (file d m).
Proof. intros E. rewrite (file_write_at _ _ c) by done. by case_decide. Qed.

(** ** What a crash leaves alone *)

Lemma torn_single v c : torn [v] c -> c = v.
Proof.
  intros [[v1 [H1 L1]] [[v2 [H2 L2]] Hb]]. apply list_elem_of_singleton in H1 as ->, H2 as ->.
  apply list_eq_same_length with (length v); [done|lia|]. intros i x y _ Hx Hy.
  destruct (Hb i x Hx) as [w [Hw ->]]. apply list_elem_of_singleton in Hw as ->. by rewrite Hy.
Qed.

Lemma crash_state_single x y : crash_state [x] y -> y = x.
Proof.
  intros Hc. inversion Hc as [Hn|pre ws post c E Ht]; subst.
  - by apply list_elem_of_singleton in Hn.
  - destruct ws as [|w ws]; [destruct Ht as [[v [Hv _]] _]; by apply not_elem_of_nil in Hv|].
    destruct pre as [|? pre]; [|by destruct pre]. cbn in E. injection E as -> E. destruct ws; [|done].
    by apply torn_single in Ht as ->.
Qed.

Lemma file_eta f : older f = [] -> f = mkFile (now f) [].
Proof. destruct f. cbn. by intros ->. Qed.

Lemma crash_file d d' n : crash d d' -> older (file d n) = [] -> file d' n = file d n.
Proof.
  intros [Hd Hc] Ho. rewrite (file_eta _ Ho), (file_eta _ (Hd n)). f_equal. specialize (Hc n). rewrite Ho in Hc.
  by apply crash_state_single in Hc.
Qed.

(** A new file: absent, or some part of what was written to it. *)
Lemma crash_state_new ws y : crash_state ((Some <$> ws) ++ [None]) y -> y = None \/ exists c, y = Some c /\ torn ws c.
Proof.
  intros Hc. inversion Hc as [Hn|pre us post c E Ht]; subst; [by left|]. right. exists c. split; [done|].
  assert (Hs : forall v, v ∈ us -> v ∈ ws).
  { intros v Hv. assert (Hin : Some v ∈ (Some <$> ws) ++ [None]).
    { rewrite E. apply elem_of_app. right. apply elem_of_app. left. by apply list_elem_of_fmap_2. }
    apply elem_of_app in Hin as [Hin|Hin]; [|by apply list_elem_of_singleton in Hin].
    apply list_elem_of_fmap in Hin as [u [Eu Hu]]. congruence. }
  destruct Ht as [[v1 [H1 L1]] [[v2 [H2 L2]] Hb]]. split_and!; [by exists v1; auto|by exists v2; auto|].
  intros i x Hx. destruct (Hb i x Hx) as [w [Hw ->]]. exists w. auto.
Qed.

(** A file with unsynced writes: some mixture of the versions. *)
Lemma crash_state_written ws y : crash_state (Some <$> ws) y -> exists c, y = Some c /\ torn ws c.
Proof.
  intros Hc. destruct (crash_state_new ws y) as [->|H]; [|inversion Hc as [Hn|]; subst|done].
  - inversion Hc as [Hn|pre us post c E Ht]; subst; [by apply crash_absent, elem_of_app; left|].
    apply (crash_torn _ pre us (post ++ [None])); [by rewrite E, <- !app_assoc|done].
  - by apply list_elem_of_fmap in Hn as [? [? _]].
Qed.

(** A torn file of two versions of one length is like both where they agree. *)
Lemma torn_two v w c :
  torn [v; w] c -> length v = length w ->
  length c = length w /\ forall i, v !! i = w !! i -> c !! i = w !! i.
Proof.
  intros [[v1 [H1 L1]] [[v2 [H2 L2]] Hb]] Hl.
  assert (Hlen : length c = length w).
  { apply list_elem_of_In in H1, H2. cbn in H1, H2. destruct H1 as [<-|[<-|[]]], H2 as [<-|[<-|[]]]; lia. }
  split; [done|]. intros i Hi. destruct (c !! i) as [x|] eqn:Ex.
  - destruct (Hb i x Ex) as [u [Hu ->]]. apply lookup_lt_Some in Ex. destruct (lookup_lt_is_Some_2 w i) as [y Hy]; [lia|].
    apply list_elem_of_In in Hu. cbn in Hu. destruct Hu as [<-|[<-|[]]]; [by rewrite Hi, Hy|by rewrite Hy].
  - symmetry. apply lookup_ge_None in Ex. apply lookup_ge_None. lia.
Qed.

(** A file that was only begun. *)
Lemma torn_front c r : torn [c ++ r; []] c.
Proof.
  split_and!; [exists []; split; [by do 2 constructor|cbn; lia]|exists (c ++ r); split; [by constructor|rewrite length_app; lia]|].
  intros i x Hx. exists (c ++ r). split; [by constructor|]. by rewrite (lookup_app_l_Some _ _ _ _ Hx).
Qed.
