(* ===== verification/FileStore.v ===== *)
(** * The file-backed page store ([crates/aiondb-buffer-pool/src/disk.rs])

    [FilePageStore]: a data file and a checksum file per relation, a bounded cache of open
    handles, and a journal of one full page that is written before the page itself.  The
    operations run on the directory of [Disk]; besides their result and the new store they
    return the directories they pass through, which are the points where a crash can stop
    them.

    File operations succeed, except for a seek beyond the offsets of [i64] and the two
    failures the source can inject ([fail_dir_sync], [fail_write_sync]).  Operations run one
    at a time: the lock on the handle cache is not modelled.

    The theorems of this file make the store an instance of the page store that the buffer
    pool and the trees on it are verified against: on a store whose files are in order every
    page read is the page last written, and no call fails. *)

From S2P Require Import Prelude.
From S2P Require Import Bytes.
From S2P Require Import PageBytes.
From S2P Require Import PoolPage.
From S2P Require Import BufferPool.
From S2P Require Import PoolProg.
From S2P Require Import Checksum.
From S2P Require Import Disk.

(** ** The handle cache *)

(** The handles are those of the data files; a handle is its relation. *)
Record FileHandleCache : Type := mkCache {
  files : gset Z;
  access_order : list Z;
  max_open_files : Z
}.

Definition new_cache (max : Z) : FileHandleCache := mkCache ∅ [] max.

Fixpoint remove_first (x : Z) (l : list Z) : list Z :=
  match l with [] => [] | y :: l => if decide (x = y) then l else y :: remove_first x l end.

Definition touch (c : FileHandleCache) (rel : Z) : FileHandleCache :=
  mkCache (files c) (reverse (remove_first rel (reverse (access_order c))) ++ [rel]) (max_open_files c).

(** The handle taken when no name in [access_order] has one is arbitrary in the source
    ([HashMap::iter]); [cache_ok] below rules the case out. *)
Fixpoint evict_loop (open : gset Z) (order : list Z) : gset Z * list Z :=
  match order with
  | [] => (match elements open with r :: _ => open ∖ {[r]} | [] => open end, [])
  | r :: order => if decide (r ∈ open) then (open ∖ {[r]}, order) else evict_loop open order
  end.

Definition evict_one (c : FileHandleCache) : FileHandleCache :=
  let '(open, order) := evict_loop (files c) (access_order c) in mkCache open order (max_open_files c).

(** ** The store *)

Record FilePageStore : Type := mkStore {
  disk : Disk;
  cache : FileHandleCache;
  sync_each_write : bool;
  fail_dir_sync : bool;
  fail_write_sync : bool
}.

Definition set_disk (s : FilePageStore) (d : Disk) : FilePageStore :=
  mkStore d (cache s) (sync_each_write s) (fail_dir_sync s) (fail_write_sync s).

Definition set_cache (s : FilePageStore) (c : FileHandleCache) : FilePageStore :=
  mkStore (disk s) c (sync_each_write s) (fail_dir_sync s) (fail_write_sync s).

(** A result, the store after it and the directories on the way, oldest first. *)
Definition Io (A : Type) : Type := FilePageStore -> Result IoError A * FilePageStore * list Disk.

#[global] Instance io_ret : MRet Io := fun A x s => (Ok x, s, []).

#[global] Instance io_bind : MBind Io := fun A B k m s =>
  match m s with
  | (Ok x, s1, t1) => let '(r, s2, t2) := k x s1 in (r, s2, t1 ++ t2)
  | (Err e, s1, t1) => (Err e, s1, t1)
  end.

Definition ask {A} (f : FilePageStore -> A) : Io A := fun s => (Ok (f s), s, []).
Definition fails {A} (e : IoError) : Io A := fun s => (Err e, s, []).
Definition change (f : Disk -> Disk) : Io unit := fun s => let d := f (disk s) in (Ok tt, set_disk s d, [d]).
Definition modify_cache (f : FileHandleCache -> FileHandleCache) : Io unit := fun s => (Ok tt, set_cache s (f (cache s)), []).

(** [if let Err(error) = m { h; return Err(error) }]. *)
Definition on_error {A} (m : Io A) (h : Io unit) : Io A := fun s =>
  match m s with
  | (Err e, s1, t1) => let '(_, s2, t2) := h s1 in (Err e, s2, t1 ++ t2)
  | r => r
  end.

Definition io_when (b : bool) (m : Io unit) : Io unit := if b then m else mret tt.

Definition io_try {A} (o : option A) (e : IoError) : Io A := match o with Some x => mret x | None => fails e end.

Definition checked_mul64 (a b : Z) : option Z := if (0 <=? a * b) && (a * b <=? u64_max) then Some (a * b) else None.

(** ** Files *)

Definition content (n : FileName) : Io (option (list Z)) := ask (fun s => now (file (disk s) n)).

(** [metadata()?.len()], of a file that exists. *)
Definition file_size (n : FileName) : Io Z :=
  c ← content n; mret (match c with Some c => Z.of_nat (length c) | None => 0 end).

Definition i64_max : Z := 2 ^ 63 - 1.

Definition seek (off : Z) : Io unit := if off <=? i64_max then mret tt else fails InvalidInput.

Definition write_all (n : FileName) (off : Z) (bs : list Z) : Io unit := change (fun d => write_at d n off bs).

(** [read_exact]; reading past the end is an error of the kind [UnexpectedEof]. *)
Definition read_exact (n : FileName) (off len : Z) : Io (list Z) :=
  c ← content n;
  let bs := slice (default [] c) off len in
  if Z.of_nat (length bs) =? len then mret bs else fails OtherIo.

Definition sync_file (n : FileName) : Io unit := change (fun d => fsync d n).

Definition sync_dir : Io unit := fun s =>
  if fail_dir_sync s then
    (Err OtherIo, mkStore (disk s) (cache s) (sync_each_write s) false (fail_write_sync s), [])
  else change fsync_dir s.

Definition fail_next_write_page_sync_if_injected : Io unit := fun s =>
  (if fail_write_sync s then Err OtherIo else Ok tt,
   mkStore (disk s) (cache s) (sync_each_write s) (fail_dir_sync s) false, []).

(** [fs::remove_file], with [NotFound] accepted. *)
Definition remove_file (n : FileName) : Io unit :=
  c ← content n;
  match c with Some _ => change (fun d => set_now d n None) | None => mret tt end.

Definition open_rw_existing_or_create (n : FileName) : Io unit :=
  c ← content n;
  match c with
  | None =>
      _ ← change (fun d => set_now d n (Some []));
      on_error sync_dir (remove_file n)
  | Some _ => mret tt
  end.

Definition open_file (rel : Z) : Io unit :=
  c ← ask cache;
  _ ← (if decide (rel ∈ files c) then mret tt else
        (_ ← modify_cache (fun c => if max_open_files c <=? Z.of_nat (size (files c)) then evict_one c else c);
         _ ← open_rw_existing_or_create (DataFile rel);
         modify_cache (fun c => mkCache (files c ∪ {[rel]}) (access_order c) (max_open_files c))));
  _ ← modify_cache (fun c => touch c rel);
  c ← ask cache;
  if decide (rel ∈ files c) then mret tt else fails OtherIo.

(** ** Checksums *)

Definition PAGE_CHECKSUM_ENTRY_BYTES : Z := 4.

Definition page_checksum_offset (page_number : Z) : Io Z :=
  io_try (checked_mul64 page_number PAGE_CHECKSUM_ENTRY_BYTES) InvalidInput.

Definition write_page_checksum (p : PageId) (data : list Z) : Io unit :=
  let n := ChecksumFile (relation_id p) in
  _ ← open_rw_existing_or_create n;
  off ← page_checksum_offset (page_number p);
  _ ← seek off;
  _ ← write_all n off (le_bytes 4 (compute_crc32c data));
  sync ← ask sync_each_write;
  io_when sync (sync_file n).

Definition read_page_checksum (p : PageId) : Io (option Z) :=
  let n := ChecksumFile (relation_id p) in
  c ← content n;
  match c with
  | None => mret None
  | Some _ =>
      off ← page_checksum_offset (page_number p);
      len ← file_size n;
      if len <? saturating_add u64_max off PAGE_CHECKSUM_ENTRY_BYTES then mret None else
      _ ← seek off;
      bs ← read_exact n off 4;
      mret (Some (le_value bs))
  end.

(** ** The full-page journal *)

(** ["AIONFPW1"]. *)
Definition FPW_JOURNAL_MAGIC : list Z := [65; 73; 79; 78; 70; 80; 87; 49].
Definition FPW_JOURNAL_RECORD_BYTES : Z := 8 + 8 + 8 + PAGE_SIZE + 4.

Definition journal_body (p : PageId) (data : list Z) : list Z :=
  FPW_JOURNAL_MAGIC ++ le_bytes 8 (relation_id p) ++ le_bytes 8 (page_number p) ++ data.

Definition journal_record (p : PageId) (data : list Z) : list Z :=
  journal_body p data ++ le_bytes 4 (compute_crc32c (journal_body p data)).

(** The file is created or truncated, then written. *)
Definition write_fpw_journal_record (p : PageId) (data : list Z) : Io unit :=
  _ ← change (fun d => set_now d JournalFile (Some []));
  _ ← write_all JournalFile 0 (journal_record p data);
  _ ← sync_file JournalFile;
  sync_dir.

Definition clear_fpw_journal_record : Io unit :=
  c ← content JournalFile;
  match c with
  | Some _ => _ ← change (fun d => set_now d JournalFile None); sync_dir
  | None => mret tt
  end.

Definition read_fpw_journal_record : Io (option (list Z)) :=
  c ← content JournalFile;
  match c with
  | None => mret None
  | Some c =>
      if Z.of_nat (length c) =? 0 then mret (Some []) else
      if negb (Z.of_nat (length c) =? FPW_JOURNAL_RECORD_BYTES) then fails InvalidData else
      let bytes := take (Z.to_nat (FPW_JOURNAL_RECORD_BYTES + 1)) c in
      if negb (Z.of_nat (length bytes) =? FPW_JOURNAL_RECORD_BYTES) then fails InvalidData else
      mret (Some bytes)
  end.

(** The record of a journal of full length, or the error it is refused with. *)
Definition parse_journal (bytes : list Z) : Io (PageId * list Z) :=
  if negb (Z.of_nat (length bytes) =? FPW_JOURNAL_RECORD_BYTES) then fails InvalidData else
  if negb (bool_decide (slice bytes 0 8 = FPW_JOURNAL_MAGIC)) then fails InvalidData else
  let checksum_offset := Z.of_nat (length bytes) - 4 in
  if negb (le_value (slice bytes checksum_offset 4) =? compute_crc32c (slice bytes 0 checksum_offset)) then fails InvalidData
  else mret (mkPageId (le_value (slice bytes 8 8)) (le_value (slice bytes 16 8)), slice bytes 24 PAGE_SIZE).

Definition recover_fpw_journal_if_present : Io unit :=
  bytes ← read_fpw_journal_record;
  match bytes with
  | None => mret tt
  | Some bytes =>
      if Z.of_nat (length bytes) =? 0 then clear_fpw_journal_record else
      '(p, data) ← parse_journal bytes;
      let n := DataFile (relation_id p) in
      _ ← open_rw_existing_or_create n;
      off ← io_try (checked_mul64 (page_number p) PAGE_SIZE) InvalidInput;
      _ ← seek off;
      _ ← write_all n off data;
      _ ← sync_file n;
      _ ← write_page_checksum p data;
      clear_fpw_journal_record
  end.

(** ** Opening a store *)

(** [with_max_open_files] on a directory; the parent of the directory is not modelled. *)
Definition with_max_open_files (max : Z) (d : Disk) : Result IoError FilePageStore * list Disk :=
  if max =? 0 then (Err InvalidInput, []) else
  match (_ ← sync_dir; recover_fpw_journal_if_present) (mkStore d (new_cache max) true false false) with
  | (Ok _, s, t) => (Ok s, t)
  | (Err e, _, t) => (Err e, t)
  end.

Definition with_max_open_files_bulk (max : Z) (d : Disk) : Result IoError FilePageStore * list Disk :=
  match with_max_open_files max d with
  | (Ok s, t) => (Ok (mkStore (disk s) (cache s) false (fail_dir_sync s) (fail_write_sync s)), t)
  | r => r
  end.

(** ** The page operations *)

Definition file_read_page (p : PageId) : Io (list Z) :=
  let n := DataFile (relation_id p) in
  c ← content n;
  match c with
  | None => mret zeroed
  | Some _ =>
      _ ← open_file (relation_id p);
      off ← io_try (checked_mul64 (page_number p) PAGE_SIZE) InvalidInput;
      file_len ← file_size n;
      if file_len <=? off then mret zeroed else
      if saturating_sub file_len off <? PAGE_SIZE then fails InvalidData else
      _ ← seek off;
      buf ← read_exact n off PAGE_SIZE;
      sum ← read_page_checksum p;
      match sum with
      | Some expected => if compute_crc32c buf =? expected then mret buf else fails InvalidData
      | None => mret buf
      end
  end.

Definition file_write_page (p : PageId) (data : list Z) : Io unit :=
  sync ← ask sync_each_write;
  _ ← io_when sync (write_fpw_journal_record p data);
  _ ← open_file (relation_id p);
  off ← io_try (checked_mul64 (page_number p) PAGE_SIZE) InvalidInput;
  _ ← seek off;
  _ ← write_all (DataFile (relation_id p)) off data;
  _ ← fail_next_write_page_sync_if_injected;
  _ ← io_when sync (sync_file (DataFile (relation_id p)));
  _ ← io_when sync (write_page_checksum p data);
  io_when sync clear_fpw_journal_record.

Definition file_allocate_page (rel : Z) : Io PageId :=
  sync ← ask sync_each_write;
  _ ← open_file rel;
  file_len ← file_size (DataFile rel);
  if negb (file_len mod PAGE_SIZE =? 0) then fails InvalidData else
  let page_number := file_len / PAGE_SIZE in
  off ← io_try (checked_mul64 page_number PAGE_SIZE) InvalidInput;
  _ ← seek off;
  _ ← write_all (DataFile rel) off zeroed;
  _ ← io_when sync (sync_file (DataFile rel));
  _ ← io_when sync (write_page_checksum (mkPageId rel page_number) zeroed);
  mret (mkPageId rel page_number).

Definition file_reset_relation (rel : Z) : Io unit :=
  _ ← modify_cache (fun c => mkCache (files c ∖ {[rel]}) (filter (fun r => r <> rel) (access_order c)) (max_open_files c));
  _ ← remove_file (DataFile rel);
  _ ← remove_file (ChecksumFile rel);
  sync_dir.

Fixpoint sync_files (rels : list Z) : Io unit :=
  match rels with
  | [] => mret tt
  | r :: rels => _ ← sync_file (DataFile r); sync_files rels
  end.

Definition file_sync : Io unit :=
  c ← ask cache;
  _ ← sync_files (elements (files c));
  sync_dir.

(** The result and the store after an operation. *)
Definition io_run {A} (m : Io A) (s : FilePageStore) : Result IoError A * FilePageStore := fst (m s).

#[global] Instance file_store : PageStore FilePageStore := {
  read_page s p := io_run (file_read_page p) s;
  write_page s p d := io_run (file_write_page p d) s;
  allocate_page s rel := io_run (file_allocate_page rel) s;
  store_reset_relation s rel := io_run (file_reset_relation rel) s;
  store_sync s := io_run file_sync s
}.

(** ** Running the operations *)

Section Run.
Context {A B : Type}.

Lemma io_run_bind (m : Io A) (k : A -> Io B) s x s1 t1 r s2 t2 :
  m s = (Ok x, s1, t1) -> k x s1 = (r, s2, t2) -> (m ≫= k) s = (r, s2, t1 ++ t2).
Proof. unfold mbind, io_bind. intros -> E. by rewrite E. Qed.

Lemma io_run_bind_pure (m : Io A) (k : A -> Io B) s x s1 r s2 t2 :
  m s = (Ok x, s1, []) -> k x s1 = (r, s2, t2) -> (m ≫= k) s = (r, s2, t2).
Proof. intros E1 E2. by apply (io_run_bind _ _ _ _ _ _ _ _ _ E1) in E2. Qed.

Lemma io_run_bind_last (m : Io A) (k : A -> Io B) s x s1 t1 r s2 :
  m s = (Ok x, s1, t1) -> k x s1 = (r, s2, []) -> (m ≫= k) s = (r, s2, t1).
Proof. intros E1 E2. pose proof (io_run_bind _ _ _ _ _ _ _ _ _ E1 E2) as E. by rewrite app_nil_r in E. Qed.

Lemma io_run_bind_err (m : Io A) (k : A -> Io B) s e s1 t1 : m s = (Err e, s1, t1) -> (m ≫= k) s = (Err e, s1, t1).
Proof. unfold mbind, io_bind. by intros ->. Qed.

Lemma io_run_bind_ask (f : FilePageStore -> A) (k : A -> Io B) s r s2 t2 :
  k (f s) s = (r, s2, t2) -> (ask f ≫= k) s = (r, s2, t2).
Proof. intros E. by eapply io_run_bind_pure. Qed.

End Run.

(** The directory after the operations that passed through [t]. *)
Definition last_disk (d : Disk) (t : list Disk) : Disk := default d (last t).

Lemma last_disk_app d t u : last_disk d (t ++ u) = last_disk (last_disk d t) u.
Proof. unfold last_disk. rewrite last_app. by destruct (last u). Qed.

Lemma last_disk_snoc d t x : last_disk d (t ++ [x]) = x.
Proof. by rewrite last_disk_app. Qed.

Lemma set_disk_same s : set_disk s (disk s) = s.
Proof. by destruct s. Qed.

Lemma run_sync_dir s : fail_dir_sync s = false -> sync_dir s = (Ok tt, set_disk s (fsync_dir (disk s)), [fsync_dir (disk s)]).
Proof. unfold sync_dir. by intros ->. Qed.

(** Creating a file, if it does not exist. *)
Definition created (d : Disk) (n : FileName) : list Disk :=
  match now (file d n) with
  | Some _ => []
  | None => let d1 := set_now d n (Some []) in [d1; fsync_dir d1]
  end.

Lemma run_open n s :
  fail_dir_sync s = false ->
  open_rw_existing_or_create n s = (Ok tt, set_disk s (last_disk (disk s) (created (disk s) n)), created (disk s) n).
Proof.
  intros Hf. unfold open_rw_existing_or_create, content. apply io_run_bind_ask. cbv beta. unfold created.
  destruct (now (file (disk s) n)) as [c|]; [by rewrite set_disk_same|].
  eapply (io_run_bind _ _ _ tt _ [_]); [done|]. unfold on_error. by rewrite run_sync_dir.
Qed.

(** *** The cache *)

Record cache_ok (c : FileHandleCache) (d : Disk) : Prop := {
  co_max : 0 < max_open_files c;
  co_size : Z.of_nat (size (files c)) <= max_open_files c;
  co_order r : r ∈ files c -> r ∈ access_order c;
  co_exists r : r ∈ files c -> is_Some (now (file d (DataFile r)))
}.

Lemma elem_remove_first x y l : y ∈ l -> x <> y -> y ∈ remove_first x l.
Proof.
  intros Hy Hne. induction l as [|z l IH]; [done|]. cbn [remove_first]. apply elem_of_cons in Hy. case_decide; subst.
  - by destruct Hy.
  - apply elem_of_cons. destruct Hy; [by left|right; auto].
Qed.

Lemma cache_touch c d rel : cache_ok c d -> cache_ok (touch c rel) d.
Proof.
  intros [H1 H2 H3 H4]. split; [done|done| |done]. intros r Hr. cbn [touch access_order]. apply elem_of_app.
  destruct (decide (r = rel)) as [->|]; [right; by apply list_elem_of_singleton|left].
  apply elem_of_reverse, elem_remove_first; [|done]. by apply elem_of_reverse, H3.
Qed.

(** The least recently used handle goes, and the others keep their place. *)
Lemma evict_loop_spec open order :
  (forall r, r ∈ open -> r ∈ order) -> open <> ∅ ->
  exists r, r ∈ open /\ fst (evict_loop open order) = open ∖ {[r]} /\
    forall q, q ∈ fst (evict_loop open order) -> q ∈ snd (evict_loop open order).
Proof.
  intros Ho Hne. induction order as [|r order IH].
  - exfalso. apply Hne, set_eq. intros r. split; [|set_solver]. intros Hr. apply Ho in Hr. by apply not_elem_of_nil in Hr.
  - cbn [evict_loop]. case_decide as Hr.
    + exists r. split_and!; [done..|]. cbn [fst snd]. intros q Hq. apply elem_of_difference in Hq as [Hq Hqr].
      apply Ho, elem_of_cons in Hq as [->|]; [|done]. set_solver.
    + apply IH. intros q Hq. pose proof (Ho q Hq) as Hin. apply elem_of_cons in Hin as [->|]; [done|done].
Qed.

Lemma cache_evict c d : cache_ok c d -> max_open_files c <= Z.of_nat (size (files c)) ->
  cache_ok (evict_one c) d /\ Z.of_nat (size (files (evict_one c))) < max_open_files (evict_one c) /\ files (evict_one c) ⊆ files c.
Proof.
  intros [H1 H2 H3 H4] Hfull. destruct (evict_loop_spec (files c) (access_order c)) as [r [Hr [Ef Hq]]]; [done|..].
  { intros E. rewrite E, size_empty in Hfull. lia. }
  unfold evict_one. destruct (evict_loop (files c) (access_order c)) as [open order]. cbn [fst snd] in Ef, Hq. subst open.
  assert (Hs : S (size (files c ∖ {[r]})) = size (files c)).
  { rewrite size_difference by set_solver. rewrite size_singleton. assert (size (files c) <> 0)%nat; [|lia].
    intros E. apply size_empty_iff in E. set_solver. }
  split_and!; [split; cbn [files access_order max_open_files]|cbn [files max_open_files]; lia|cbn [files]; set_solver].
  - done.
  - lia.
  - done.
  - intros q Hq'. apply H4. set_solver.
Qed.

Lemma cache_insert c d rel :
  cache_ok c d -> Z.of_nat (size (files c)) < max_open_files c -> is_Some (now (file d (DataFile rel))) ->
  cache_ok (touch (mkCache (files c ∪ {[rel]}) (access_order c) (max_open_files c)) rel) d.
Proof.
  intros [H1 H2 H3 H4] Hs Hex.
  split; cbn [touch files access_order max_open_files].
  - done.
  - rewrite size_union_alt. pose proof (subseteq_size ({[rel]} ∖ files c) {[rel]}) as Hle. rewrite size_singleton in Hle.
    specialize (Hle ltac:(set_solver)). lia.
  - intros r Hr. apply elem_of_app. destruct (decide (r = rel)) as [->|]; [right; by apply list_elem_of_singleton|left].
    apply elem_of_reverse, elem_remove_first; [|done]. apply elem_of_reverse, H3. set_solver.
  - intros r Hr. destruct (decide (r = rel)) as [->|]; [done|]. apply H4. set_solver.
Qed.

(** Creating a file leaves the contents of the others. *)
Lemma now_created d n m :
  now (file (last_disk d (created d n)) m) = if decide (m = n) then Some (default [] (now (file d n))) else now (file d m).
Proof.
  unfold created. destruct (now (file d n)) as [c|] eqn:E; cbn [last_disk last default].
  - change (last_disk d []) with d. case_decide as Hm; [by subst|done].
  - unfold last_disk. cbn [last default from_option id]. rewrite file_fsync_dir, now_settle, now_set_now. by case_decide.
Qed.

Lemma cache_ok_disk c d d' :
  cache_ok c d -> (forall r, is_Some (now (file d (DataFile r))) -> is_Some (now (file d' (DataFile r)))) -> cache_ok c d'.
Proof. intros [H1 H2 H3 H4] Hd. split; auto. Qed.

Lemma cache_ok_created c d n : cache_ok c d -> cache_ok c (last_disk d (created d n)).
Proof. intros Hc. apply (cache_ok_disk _ _ _ Hc). intros r Hr. rewrite now_created. case_decide; eauto. Qed.

(** Opening a data file: it exists afterwards and is among the handles. *)
Lemma run_open_file rel s :
  cache_ok (cache s) (disk s) -> fail_dir_sync s = false ->
  exists c,
    open_file rel s = (Ok tt, set_cache (set_disk s (last_disk (disk s) (created (disk s) (DataFile rel)))) c,
                       created (disk s) (DataFile rel)) /\
    cache_ok c (last_disk (disk s) (created (disk s) (DataFile rel))) /\ rel ∈ files c /\
    max_open_files c = max_open_files (cache s) /\ files c ⊆ files (cache s) ∪ {[rel]} /\
    (Z.of_nat (size (files (cache s) ∪ {[rel]})) <= max_open_files (cache s) -> files c = files (cache s) ∪ {[rel]}).
Proof.
  intros Hc Hf. unfold open_file. destruct (decide (rel ∈ files (cache s))) as [Hin|Hout].
  - exists (touch (cache s) rel). assert (created (disk s) (DataFile rel) = []) as E.
    { unfold created. by destruct (co_exists _ _ Hc rel Hin) as [? ->]. }
    rewrite E. cbn [last_disk last default]. change (last_disk (disk s) []) with (disk s). split_and!.
    + apply io_run_bind_ask. rewrite decide_True by done. eapply io_run_bind_pure; [done|]. eapply io_run_bind_pure; [done|].
      apply io_run_bind_ask. cbn [touch files set_cache cache]. rewrite decide_True by done. by destruct s.
    + by apply cache_touch.
    + done.
    + done.
    + cbn. set_solver.
    + intros _. cbn. set_solver.
  - set (c0 := if max_open_files (cache s) <=? Z.of_nat (size (files (cache s))) then evict_one (cache s) else cache s).
    assert (Hc0 : cache_ok c0 (disk s) /\ Z.of_nat (size (files c0)) < max_open_files c0 /\ files c0 ⊆ files (cache s) /\
      max_open_files c0 = max_open_files (cache s)).
    { subst c0. destruct (_ <=? _) eqn:E; [|split_and!; [done|lia|done|done]].
      destruct (cache_evict _ _ Hc) as [H1 [H2 H3]]; [lia|]. split_and!; try done. unfold evict_one. by destruct (evict_loop _ _). }
    destruct Hc0 as [H1 [H2 [H3 H4]]].
    exists (touch (mkCache (files c0 ∪ {[rel]}) (access_order c0) (max_open_files c0)) rel). split_and!.
    + apply io_run_bind_ask. rewrite decide_False by done. eapply io_run_bind_last.
      { eapply io_run_bind_pure; [done|]. eapply io_run_bind_last; [exact (run_open (DataFile rel) (set_cache s c0) Hf)|done]. }
      eapply io_run_bind_pure; [done|]. apply io_run_bind_ask. rewrite decide_True; [|cbn; set_solver]. done.
    + apply cache_insert; [by apply cache_ok_created|done|]. rewrite now_created, decide_True by done. eauto.
    + cbn. set_solver.
    + done.
    + cbn. set_solver.
    + intros Hsz. cbn. subst c0. rewrite size_union, size_singleton in Hsz by set_solver.
      destruct (_ <=? _) eqn:E; [lia|done].
Qed.

(** ** A directory in order *)

Abbreviation PS := (Z.to_nat PAGE_SIZE).

Definition data_of (d : Disk) (rel : Z) : list Z := default [] (now (file d (DataFile rel))).
Definition sums_of (d : Disk) (rel : Z) : list Z := default [] (now (file d (ChecksumFile rel))).
Definition rel_pages (d : Disk) (rel : Z) : Z := Z.of_nat (length (data_of d rel)) / PAGE_SIZE.

(** The offsets of fewer pages than this fit an [i64]. *)
Definition FILE_PAGES : Z := 2 ^ 50.

Definition page_on (d : Disk) (p : PageId) : option (list Z) :=
  if decide (0 <= page_number p < rel_pages d (relation_id p))
  then Some (chunk PS (data_of d (relation_id p)) (Z.to_nat (page_number p))) else None.

(** Whole pages, each with its checksum; a store for bulk loading has no checksums. *)
Record rel_ok (sums : bool) (d : Disk) (rel : Z) : Prop := {
  ro_size : Z.of_nat (length (data_of d rel)) = PAGE_SIZE * rel_pages d rel;
  ro_limit : rel_pages d rel <= FILE_PAGES;
  ro_bytes : Forall byte (data_of d rel);
  ro_sums : Z.of_nat (length (sums_of d rel)) = if sums then 4 * rel_pages d rel else 0;
  ro_sum i : sums = true -> 0 <= i < rel_pages d rel ->
    chunk 4 (sums_of d rel) (Z.to_nat i) = le_bytes 4 (compute_crc32c (chunk PS (data_of d rel) (Z.to_nat i)))
}.

Record file_wf (s : FilePageStore) : Prop := {
  fw_cache : cache_ok (cache s) (disk s);
  fw_dir : fail_dir_sync s = false;
  fw_write : fail_write_sync s = false;
  fw_journal : now (file (disk s) JournalFile) = None;
  fw_durable : sync_each_write s = true -> durable (disk s);
  fw_rel rel : rel_ok (sync_each_write s) (disk s) rel
}.

Lemma rel_pages_nonneg d rel : 0 <= rel_pages d rel.
Proof. unfold rel_pages. apply Z.div_pos; unfold PAGE_SIZE; lia. Qed.

(** A page is written over or appended, with its checksum if the store keeps them. *)
Definition page_put (sums : bool) (d d' : Disk) (p : PageId) (data : list Z) : Prop :=
  forall m, now (file d' m) =
    if decide (m = DataFile (relation_id p)) then
      Some (overwrite (data_of d (relation_id p)) (PS * Z.to_nat (page_number p)) data)
    else if decide (sums = true /\ m = ChecksumFile (relation_id p)) then
      Some (overwrite (sums_of d (relation_id p)) (4 * Z.to_nat (page_number p)) (le_bytes 4 (compute_crc32c data)))
    else now (file d m).

Lemma ps_pos : Z.of_nat PS = PAGE_SIZE /\ PAGE_SIZE = 8192.
Proof. split; [|done]. unfold PAGE_SIZE. lia. Qed.

#[local] Opaque Z.to_nat.

Section Put.
Context (sums : bool) (d d' : Disk) (p : PageId) (data : list Z).
Hypothesis Hput : page_put sums d d' p data.
Hypothesis Hok : forall rel, rel_ok sums d rel.
Hypothesis Hdata : is_page data.
Hypothesis Hnum : 0 <= page_number p <= rel_pages d (relation_id p).
Hypothesis Hlim : page_number p < FILE_PAGES.

Lemma put_data rel :
  data_of d' rel = if decide (rel = relation_id p) then overwrite (data_of d rel) (PS * Z.to_nat (page_number p)) data
                   else data_of d rel.
Proof.
  unfold data_of at 1. rewrite Hput. case_decide as E.
  - injection E as ->. by rewrite decide_True.
  - rewrite !decide_False; [done|congruence|naive_solver].
Qed.

Lemma put_sums rel :
  sums_of d' rel = if decide (sums = true /\ rel = relation_id p)
    then overwrite (sums_of d rel) (4 * Z.to_nat (page_number p)) (le_bytes 4 (compute_crc32c data)) else sums_of d rel.
Proof.
  unfold sums_of at 1. rewrite Hput, decide_False by done. case_decide as E.
  - destruct E as [E1 E2]. injection E2 as ->. by rewrite decide_True.
  - rewrite decide_False; [done|naive_solver].
Qed.

Lemma data_room rel : relation_id p = rel -> (PS * Z.to_nat (page_number p) <= length (data_of d rel))%nat.
Proof. intros <-. pose proof (ro_size _ _ _ (Hok (relation_id p))). pose proof ps_pos. nia. Qed.

Lemma put_pages rel :
  rel_pages d' rel = if decide (rel = relation_id p) then Z.max (rel_pages d rel) (page_number p + 1) else rel_pages d rel.
Proof.
  unfold rel_pages at 1. rewrite put_data. case_decide as E; [|done]. rewrite length_overwrite.
  pose proof (ro_size _ _ _ (Hok rel)) as Hs. pose proof (is_page_len _ Hdata) as Hl. unfold page_len in Hl. pose proof ps_pos.
  assert (Z.of_nat (Nat.max (length (data_of d rel)) (PS * Z.to_nat (page_number p) + length data)) =
    Z.max (rel_pages d rel) (page_number p + 1) * PAGE_SIZE) as -> by nia.
  apply Z.div_mul. unfold PAGE_SIZE. lia.
Qed.

Lemma put_chunk rel i :
  chunk PS (data_of d' rel) i =
    if decide (rel = relation_id p /\ i = Z.to_nat (page_number p)) then data else chunk PS (data_of d rel) i.
Proof.
  rewrite put_data. pose proof (is_page_len _ Hdata) as Hl. unfold page_len in Hl.
  destruct (decide (rel = relation_id p)) as [E|E]; [|rewrite decide_False; naive_solver].
  rewrite chunk_overwrite; [|lia|by apply data_room]. repeat case_decide; naive_solver.
Qed.

Lemma put_rel_ok rel : rel_ok sums d' rel.
Proof.
  pose proof (Hok rel) as [H1 H2 H3 H4 H5]. pose proof (is_page_len _ Hdata) as Hl. unfold page_len in Hl. pose proof ps_pos.
  assert (Hz : length (le_bytes 4 (compute_crc32c data)) = 4%nat) by apply length_le_bytes. split.
  - rewrite put_pages, put_data. case_decide as E; [subst rel|done]. rewrite length_overwrite. nia.
  - rewrite put_pages. case_decide; subst; lia.
  - rewrite put_data. case_decide; [|done]. apply overwrite_bytes; [done|apply Hdata].
  - rewrite put_sums, put_pages. destruct sums; [|by rewrite decide_False by (intros [? _]; done)].
    destruct (decide (rel = relation_id p)) as [E|E]; [subst rel; rewrite decide_True by done|by rewrite decide_False by naive_solver].
    rewrite length_overwrite, Hz. lia.
  - intros i Hs Hi. rewrite put_pages in Hi. rewrite put_sums, put_chunk. destruct (decide (rel = relation_id p)) as [E|E].
    + subst rel. rewrite decide_True by done. rewrite Hs in H4. rewrite chunk_overwrite; [|done|lia].
      destruct (decide (Z.to_nat i = Z.to_nat (page_number p))) as [Ei|Ei]; [by rewrite decide_True|].
      rewrite decide_False by naive_solver. apply H5; [done|]. lia.
    + rewrite !decide_False by naive_solver. by apply H5.
Qed.

Lemma put_page_on q : page_on d' q = if decide (q = p) then Some data else page_on d q.
Proof.
  unfold page_on. rewrite put_pages, put_chunk. destruct q as [r n], p as [rp np]. cbn [relation_id page_number] in *.
  destruct (decide (r = rp)) as [->|Hne].
  - destruct (decide (n = np)) as [->|Hn].
    + rewrite !decide_True; [done|done|done|lia].
    + rewrite (decide_False (P := mkPageId _ _ = _)) by naive_solver. repeat case_decide; done || lia.
  - rewrite (decide_False (P := mkPageId _ _ = _)) by naive_solver.
    by rewrite (decide_False (P := r = rp /\ _)) by naive_solver.
Qed.

Lemma put_exists r : is_Some (now (file d (DataFile r))) -> is_Some (now (file d' (DataFile r))).
Proof. intros Hr. rewrite Hput. repeat case_decide; eauto. Qed.

End Put.

(** ** What the operations do *)

(** A store that does not fail. *)
Abbreviation st sy d c := (mkStore d c sy false false).

Lemma wf_st s : file_wf s -> s = st (sync_each_write s) (disk s) (cache s).
Proof. intros [_ H1 H2 _ _ _]. destruct s. cbn in *. by subst. Qed.

(** The directories that writing a page passes through: the data, then the checksum. *)
Definition sum_trace (d : Disk) (p : PageId) (data : list Z) : list Disk :=
  let n := ChecksumFile (relation_id p) in
  let t := created d n in
  let d1 := write_at (last_disk d t) n (page_number p * 4) (le_bytes 4 (compute_crc32c data)) in
  t ++ [d1; fsync d1 n].

Definition put_trace (sync : bool) (d : Disk) (p : PageId) (data : list Z) : list Disk :=
  let n := DataFile (relation_id p) in
  let t := created d n in
  let d1 := write_at (last_disk d t) n (page_number p * PAGE_SIZE) data in
  if sync then t ++ [d1; fsync d1 n] ++ sum_trace (fsync d1 n) p data else t ++ [d1].

Definition journal_trace (d : Disk) (p : PageId) (data : list Z) : list Disk :=
  let d1 := set_now d JournalFile (Some []) in
  let d2 := write_at d1 JournalFile 0 (journal_record p data) in
  let d3 := fsync d2 JournalFile in
  [d1; d2; d3; fsync_dir d3].

Definition clear_trace (d : Disk) : list Disk :=
  let d1 := set_now d JournalFile None in [d1; fsync_dir d1].

Definition write_trace (sync : bool) (d : Disk) (p : PageId) (data : list Z) : list Disk :=
  if sync then
    let t1 := journal_trace d p data in
    let t2 := put_trace true (last_disk d t1) p data in
    t1 ++ t2 ++ clear_trace (last_disk (last_disk d t1) t2)
  else put_trace false d p data.

Lemma number_mul n k : 0 <= n < FILE_PAGES -> 0 <= k <= PAGE_SIZE -> checked_mul64 n k = Some (n * k) /\ (n * k <=? i64_max) = true.
Proof.
  unfold checked_mul64, FILE_PAGES, i64_max, PAGE_SIZE, u64_max. intros Hn Hk.
  assert (0 <= n * k <= (2 ^ 50 - 1) * 8192) by nia. split; [|lia].
  by rewrite (proj2 (Z.leb_le 0 (n * k))), (proj2 (Z.leb_le (n * k) _)) by lia.
Qed.

Lemma run_try_mul n k s : 0 <= n < FILE_PAGES -> 0 <= k <= PAGE_SIZE -> io_try (checked_mul64 n k) InvalidInput s = (Ok (n * k), s, []).
Proof. intros Hn Hk. by rewrite (proj1 (number_mul n k Hn Hk)). Qed.

Lemma run_seek_mul n k s : 0 <= n < FILE_PAGES -> 0 <= k <= PAGE_SIZE -> seek (n * k) s = (Ok tt, s, []).
Proof. intros Hn Hk. unfold seek. by rewrite (proj2 (number_mul n k Hn Hk)). Qed.

Lemma run_checksum d c p data :
  0 <= page_number p < FILE_PAGES ->
  write_page_checksum p data (st true d c) =
    (Ok tt, st true (last_disk d (sum_trace d p data)) c, sum_trace d p data).
Proof.
  intros Hn. unfold write_page_checksum, sum_trace. rewrite !last_disk_app. eapply io_run_bind; [by apply run_open|].
  eapply io_run_bind_pure; [by apply run_try_mul|]. eapply io_run_bind_pure; [by apply run_seek_mul|].
  by eapply (io_run_bind _ _ _ tt _ [_]).
Qed.

Lemma run_journal d c p data :
  write_fpw_journal_record p data (st true d c) =
    (Ok tt, st true (last_disk d (journal_trace d p data)) c, journal_trace d p data).
Proof. done. Qed.

Lemma run_clear d c r :
  now (file d JournalFile) = Some r ->
  clear_fpw_journal_record (st true d c) = (Ok tt, st true (last_disk d (clear_trace d)) c, clear_trace d).
Proof. intros E. unfold clear_fpw_journal_record. apply io_run_bind_ask. cbn [disk]. by rewrite E. Qed.

(** A page is in place after the directories of [put_trace]. *)
Lemma now_sum_trace d p data m :
  now (file (last_disk d (sum_trace d p data)) m) =
    if decide (m = ChecksumFile (relation_id p))
    then Some (overwrite (sums_of d (relation_id p)) (Z.to_nat (page_number p * 4)) (le_bytes 4 (compute_crc32c data)))
    else now (file d m).
Proof.
  unfold sum_trace. rewrite last_disk_app. set (d0 := last_disk d _). change (last_disk d0 [_; ?x]) with x. rewrite now_fsync.
  assert (E : now (file d0 (ChecksumFile (relation_id p))) = Some (sums_of d (relation_id p))).
  { subst d0. by rewrite now_created, decide_True. }
  rewrite (now_write_at _ _ _ _ _ _ E). case_decide as Hm; [done|]. subst d0. by rewrite now_created, decide_False.
Qed.

Lemma offset_nat n k : 0 <= n -> 0 <= k -> Z.to_nat (n * k) = (Z.to_nat k * Z.to_nat n)%nat.
Proof. intros Hn Hk. rewrite Z2Nat.inj_mul by done. lia. Qed.

Lemma put_trace_put sync d p data :
  0 <= page_number p -> page_put sync d (last_disk d (put_trace sync d p data)) p data.
Proof.
  intros Hn m. unfold put_trace. set (t := created _ _). set (d0 := last_disk d t).
  assert (E : forall x, now (file d0 x) = if decide (x = DataFile (relation_id p)) then Some (data_of d (relation_id p)) else now (file d x)).
  { intros x. subst d0 t. rewrite now_created. by case_decide; subst. }
  set (d1 := write_at _ _ _ _). assert (E1 : forall x, now (file d1 x) = if decide (x = DataFile (relation_id p))
    then Some (overwrite (data_of d (relation_id p)) (PS * Z.to_nat (page_number p)) data) else now (file d x)).
  { intros x. subst d1. rewrite (now_write_at _ _ (data_of d (relation_id p))) by (by rewrite E, decide_True).
    rewrite offset_nat by (unfold PAGE_SIZE; lia). case_decide as Hx; [done|]. by rewrite E, decide_False. }
  assert (E2 : sums_of (fsync d1 (DataFile (relation_id p))) (relation_id p) = sums_of d (relation_id p)).
  { unfold sums_of. rewrite now_fsync, E1. by rewrite decide_False. }
  destruct sync.
  - rewrite !last_disk_app. change (last_disk _ [_; ?x]) with x. rewrite now_sum_trace, E2, now_fsync, E1.
    rewrite offset_nat by lia. change (Z.to_nat 4) with 4%nat. repeat case_decide; naive_solver.
  - rewrite last_disk_snoc, E1. repeat case_decide; naive_solver.
Qed.

Lemma durable_created d n : durable d -> durable (last_disk d (created d n)).
Proof.
  intros Hd. unfold created. destruct (now (file d n)) eqn:E; [done|]. intros m. cbn.
  change (last_disk d [_; ?x]) with x. rewrite file_fsync_dir, file_set_now. case_decide as Hm; [by rewrite E|].
  by rewrite settle_durable.
Qed.

(** A write that is synced is durable. *)
Lemma durable_write d n off bs : durable d -> durable (fsync (write_at d n off bs) n).
Proof.
  intros Hd m. unfold write_at. rewrite file_fsync. destruct (now (file d n)) as [c|] eqn:E.
  - rewrite !file_set_now. rewrite (decide_True (P := n = n)) by done. case_decide; [|done]. cbn. by rewrite E, Hd.
  - rewrite Hd. by case_decide.
Qed.

Lemma durable_sum_trace d p data : durable d -> durable (last_disk d (sum_trace d p data)).
Proof. intros Hd. unfold sum_trace. rewrite last_disk_app. by apply durable_write, durable_created. Qed.

Lemma durable_put_trace d p data : durable d -> durable (last_disk d (put_trace true d p data)).
Proof.
  intros Hd. unfold put_trace. rewrite !last_disk_app. apply durable_sum_trace. by apply durable_write, durable_created.
Qed.

Lemma durable_fsync_dir d : durable d -> durable (fsync_dir d).
Proof. intros Hd m. rewrite file_fsync_dir. by rewrite settle_durable. Qed.

Lemma durable_journal_trace d p data :
  durable d -> now (file d JournalFile) = None -> durable (last_disk d (journal_trace d p data)).
Proof.
  intros Hd Hj m. unfold journal_trace. set (d1 := set_now _ _ _). change (last_disk d [_; _; _; ?x]) with x.
  rewrite file_fsync_dir, file_fsync. rewrite !(file_write_at _ _ []); try (unfold d1; by rewrite now_set_now, decide_True).
  rewrite (decide_True (P := JournalFile = JournalFile)) by done. unfold d1. rewrite !file_set_now.
  rewrite (decide_True (P := JournalFile = JournalFile)) by done.
  case_decide; [cbn; by rewrite Hj|]. by rewrite settle_durable.
Qed.

Lemma now_journal_trace d p data m :
  now (file (last_disk d (journal_trace d p data)) m) = if decide (m = JournalFile) then Some (journal_record p data) else now (file d m).
Proof.
  unfold journal_trace. set (d1 := set_now _ _ _). change (last_disk d [_; _; _; ?x]) with x.
  rewrite file_fsync_dir, now_settle, now_fsync. rewrite (now_write_at _ _ []) by (unfold d1; by rewrite now_set_now, decide_True).
  case_decide as Hm; [f_equal; unfold overwrite; cbn; by rewrite drop_nil, app_nil_r|]. unfold d1. by rewrite now_set_now, decide_False.
Qed.

Lemma durable_clear_trace d : durable d -> durable (last_disk d (clear_trace d)).
Proof.
  intros Hd m. unfold clear_trace. change (last_disk d [_; ?x]) with x. rewrite file_fsync_dir, file_set_now.
  case_decide; [done|]. by rewrite settle_durable.
Qed.

Lemma now_clear_trace d m :
  now (file (last_disk d (clear_trace d)) m) = if decide (m = JournalFile) then None else now (file d m).
Proof. unfold clear_trace. change (last_disk d [_; ?x]) with x. by rewrite file_fsync_dir, now_settle, now_set_now. Qed.

(** How a call changes the handles: one is added, and none is dropped while there is room. *)
Definition cache_next (c c' : FileHandleCache) (rel : Z) : Prop :=
  rel ∈ files c' /\ max_open_files c' = max_open_files c /\ files c' ⊆ files c ∪ {[rel]} /\
  (Z.of_nat (size (files c ∪ {[rel]})) <= max_open_files c -> files c' = files c ∪ {[rel]}).

Lemma run_open_st rel sy d c :
  cache_ok c d ->
  exists c', open_file rel (st sy d c) = (Ok tt, st sy (last_disk d (created d (DataFile rel))) c', created d (DataFile rel)) /\
    cache_ok c' (last_disk d (created d (DataFile rel))) /\ cache_next c c' rel.
Proof.
  intros Hc. destruct (run_open_file rel (st sy d c) Hc eq_refl) as (c' & E & H1 & H2 & H3 & H4 & H5). by exists c'.
Qed.

(** A handle stays good while no data file is removed. *)
Lemma cache_ok_put sums d d' p data c : page_put sums d d' p data -> cache_ok c d -> cache_ok c d'.
Proof. intros Hp Hc. apply (cache_ok_disk _ _ _ Hc). intros r. by apply (put_exists _ _ _ _ _ Hp). Qed.

Lemma put_created sums d d' p data :
  page_put sums d d' p data -> page_put sums (last_disk d (created d (DataFile (relation_id p)))) d' p data.
Proof.
  intros Hp m. rewrite Hp. unfold data_of, sums_of. rewrite !now_created. rewrite (decide_True (P := DataFile _ = _)) by done.
  rewrite (decide_False (P := ChecksumFile _ = _)) by done. repeat case_decide; naive_solver.
Qed.

(** The handles are good once the page is in place. *)
Lemma cache_put_trace sync d c p data :
  0 <= page_number p -> cache_ok c (last_disk d (created d (DataFile (relation_id p)))) ->
  cache_ok c (last_disk d (put_trace sync d p data)).
Proof.
  intros Hn. apply (cache_ok_put sync _ _ p data). by apply put_created, put_trace_put.
Qed.

Lemma cache_ok_journal c d d' :
  cache_ok c d -> (forall m, m <> JournalFile -> now (file d' m) = now (file d m)) -> cache_ok c d'.
Proof. intros Hc Hd. apply (cache_ok_disk _ _ _ Hc). intros r Hr. by rewrite Hd. Qed.

Lemma page_size_range : 0 <= PAGE_SIZE <= PAGE_SIZE.
Proof. unfold PAGE_SIZE. lia. Qed.

Lemma run_write (sync : bool) d c p data :
  cache_ok c d -> 0 <= page_number p < FILE_PAGES ->
  exists c',
    file_write_page p data (st sync d c) =
      (Ok tt, st sync (last_disk d (write_trace sync d p data)) c', write_trace sync d p data) /\
    cache_ok c' (last_disk d (write_trace sync d p data)) /\ cache_next c c' (relation_id p).
Proof.
  intros Hc Hn. pose proof page_size_range as Hs. unfold write_trace. destruct sync.
  - set (d1 := last_disk d (journal_trace d p data)). set (t2 := put_trace true d1 p data).
    assert (Hc1 : cache_ok c d1).
    { apply (cache_ok_journal _ _ _ Hc). intros m Hm. subst d1. by rewrite now_journal_trace, decide_False. }
    destruct (run_open_st (relation_id p) true d1 c Hc1) as (c' & E & Hc' & Hnext). exists c'. split; [|split; [|done]].
    + rewrite !last_disk_app. apply io_run_bind_ask. cbn [sync_each_write io_when]. eapply io_run_bind; [apply run_journal|].
      fold d1. assert (Hj : now (file (last_disk d1 t2) JournalFile) = Some (journal_record p data)).
      { subst t2. rewrite (put_trace_put true d1 p data ltac:(lia)), !decide_False by naive_solver.
        subst d1. by rewrite now_journal_trace, decide_True. }
      revert Hj. subst t2. unfold put_trace. rewrite <- !app_assoc. rewrite !last_disk_app. intros Hj.
      eapply io_run_bind; [exact E|]. eapply io_run_bind_pure; [by apply run_try_mul|]. eapply io_run_bind_pure; [by apply run_seek_mul|].
      eapply (io_run_bind _ _ _ tt _ [_]); [done|]. eapply io_run_bind_pure; [done|]. eapply (io_run_bind _ _ _ tt _ [_]); [done|].
      eapply io_run_bind; [by apply run_checksum|]. by eapply run_clear.
    + rewrite !last_disk_app. fold d1. fold t2. apply (cache_ok_journal _ (last_disk d1 t2)).
      * apply cache_put_trace; [lia|done].
      * intros m Hm. by rewrite now_clear_trace, decide_False.
  - destruct (run_open_st (relation_id p) false d c Hc) as (c' & E & Hc' & Hnext). exists c'. split; [|split; [|done]].
    + unfold put_trace. rewrite last_disk_app. apply io_run_bind_ask. cbn [sync_each_write io_when]. eapply io_run_bind_pure; [done|].
      eapply io_run_bind; [exact E|]. eapply io_run_bind_pure; [by apply run_try_mul|]. eapply io_run_bind_pure; [by apply run_seek_mul|].
      by eapply (io_run_bind _ _ _ tt _ [_]).
    + apply cache_put_trace; [lia|done].
Qed.

Lemma data_created d rel : data_of (last_disk d (created d (DataFile rel))) rel = data_of d rel.
Proof. unfold data_of. by rewrite now_created, decide_True. Qed.

Lemma run_file_size sync d c n : file_size n (st sync d c) = (Ok (Z.of_nat (length (default [] (now (file d n))))), st sync d c, []).
Proof. unfold file_size. apply io_run_bind_ask. cbn [disk]. by destruct (now (file d n)). Qed.

Lemma run_allocate (sync : bool) d c rel :
  cache_ok c d -> rel_ok sync d rel -> rel_pages d rel < FILE_PAGES ->
  let p := mkPageId rel (rel_pages d rel) in
  exists c',
    file_allocate_page rel (st sync d c) =
      (Ok p, st sync (last_disk d (put_trace sync d p zeroed)) c', put_trace sync d p zeroed) /\
    cache_ok c' (last_disk d (put_trace sync d p zeroed)) /\ cache_next c c' rel.
Proof.
  intros Hc Hr Hlt p. pose proof page_size_range as Hs. pose proof (rel_pages_nonneg d rel) as H0.
  destruct (run_open_st rel sync d c Hc) as (c' & E & Hc' & Hnext). exists c'. split; [|split; [|done]].
  - apply io_run_bind_ask. cbn [sync_each_write]. unfold put_trace. destruct sync; rewrite !last_disk_app; cbn [io_when].
    all: (eapply io_run_bind; [exact E|]); (eapply io_run_bind_pure; [apply run_file_size|]).
    all: change (default [] (now (file (last_disk d (created d (DataFile rel))) (DataFile rel))))
      with (data_of (last_disk d (created d (DataFile rel))) rel); rewrite data_created, (ro_size _ _ _ Hr).
    all: rewrite (Z.mul_comm PAGE_SIZE), Z.mod_mul, Z.div_mul by done; cbn [Z.eqb negb].
    all: (eapply io_run_bind_pure; [by apply run_try_mul|]); (eapply io_run_bind_pure; [by apply run_seek_mul|]).
    + eapply (io_run_bind _ _ _ tt _ [_]); [done|]. eapply (io_run_bind _ _ _ tt _ [_]); [done|].
      eapply io_run_bind_last; [by apply run_checksum|done].
    + by eapply (io_run_bind _ _ _ tt _ [_]).
  - by apply cache_put_trace.
Qed.

(** ** Reading *)

Lemma slice_chunk c k n : 0 <= n -> 0 <= k -> slice c (n * k) k = chunk (Z.to_nat k) c (Z.to_nat n).
Proof. intros Hn Hk. unfold slice, chunk. by rewrite offset_nat. Qed.

Lemma run_read_exact sync d c n num k x :
  now (file d n) = Some x -> 0 <= num -> 0 <= k -> k * num + k <= Z.of_nat (length x) ->
  read_exact n (num * k) k (st sync d c) = (Ok (chunk (Z.to_nat k) x (Z.to_nat num)), st sync d c, []).
Proof.
  intros E Hn Hk Hl. unfold read_exact. apply io_run_bind_ask. cbn [disk]. rewrite E. cbn [default from_option id].
  rewrite slice_chunk by done. rewrite length_chunk by nia. by rewrite Z2Nat.id, Z.eqb_refl.
Qed.

(** The checksum read is that of the page. *)
Lemma run_read_checksum sync d c p :
  rel_ok sync d (relation_id p) -> 0 <= page_number p < rel_pages d (relation_id p) ->
  read_page_checksum p (st sync d c) =
    (Ok (if sync then Some (compute_crc32c (chunk PS (data_of d (relation_id p)) (Z.to_nat (page_number p)))) else None),
     st sync d c, []).
Proof.
  intros Hr Hn. pose proof (ro_limit _ _ _ Hr) as Hlim. pose proof (ro_sums _ _ _ Hr) as Hs. unfold read_page_checksum.
  apply io_run_bind_ask. cbn [disk]. unfold sums_of in Hs.
  destruct (now (file d (ChecksumFile (relation_id p)))) as [k|] eqn:E; cbn [default from_option id] in Hs.
  2: { destruct sync; [|done]. cbn [length] in Hs. lia. }
  eapply io_run_bind_pure; [apply run_try_mul; [lia|unfold PAGE_CHECKSUM_ENTRY_BYTES, PAGE_SIZE; lia]|].
  eapply io_run_bind_pure; [apply run_file_size|]. rewrite E. cbn [default from_option id].
  unfold PAGE_CHECKSUM_ENTRY_BYTES, FILE_PAGES in *. rewrite saturating_add_exact by (unfold u64_max; lia). destruct sync.
  - rewrite (proj2 (Z.ltb_ge _ _)) by lia. eapply io_run_bind_pure; [apply run_seek_mul; unfold FILE_PAGES, PAGE_SIZE; lia|].
    eapply io_run_bind_pure; [apply (run_read_exact true d c _ (page_number p) 4 k E); lia|].
    change (Z.to_nat 4) with 4%nat. pose proof (ro_sum _ _ _ Hr (page_number p) eq_refl Hn) as Hc. unfold sums_of in Hc.
    rewrite E in Hc. cbn [default from_option id] in Hc. rewrite Hc, le_value_bytes; [done|]. apply crc_range, Forall_take, Forall_drop, (ro_bytes _ _ _ Hr).
  - by rewrite (proj2 (Z.ltb_lt _ _)) by lia.
Qed.

(** A page of the file is read as it is stored, a page beyond the end as zeros. *)
Lemma run_read sync d c p :
  cache_ok c d -> rel_ok sync d (relation_id p) ->
  exists r c', file_read_page p (st sync d c) = (r, st sync d c', []) /\ cache_ok c' d /\ (c' = c \/ cache_next c c' (relation_id p)) /\
    (forall data, r = Ok data -> data = default zeroed (page_on d p)) /\
    (0 <= page_number p < FILE_PAGES -> r = Ok (default zeroed (page_on d p))).
Proof.
  intros Hc Hr. pose proof page_size_range as Hps. unfold file_read_page.
  destruct (now (file d (DataFile (relation_id p)))) as [x|] eqn:E.
  2: { exists (Ok zeroed), c. assert (page_on d p = None) as ->.
       { unfold page_on, rel_pages, data_of. rewrite E. apply decide_False. cbn [default from_option id length Z.of_nat]. rewrite Z.div_0_l by done. lia. }
       split; [|by split_and!; [|left|intros ? [= ->]|]]. apply io_run_bind_ask. cbn [disk]. by rewrite E. }
  assert (Hcr : created d (DataFile (relation_id p)) = []) by (unfold created; by rewrite E).
  assert (Hx : data_of d (relation_id p) = x) by (unfold data_of; by rewrite E).
  destruct (run_open_st (relation_id p) sync d c Hc) as (c' & Eo & Hc' & Hnx). rewrite Hcr in Eo, Hc'.
  change (last_disk d []) with d in *.
  pose proof (ro_size _ _ _ Hr) as Hs. pose proof (ro_limit _ _ _ Hr) as Hl. rewrite Hx in Hs.
  destruct (checked_mul64 (page_number p) PAGE_SIZE) as [off|] eqn:Em.
  2: { exists (Err InvalidInput), c'. split_and!; [|done|by right|done|].
       - apply io_run_bind_ask. cbn [disk]. rewrite E. eapply io_run_bind_pure; [exact Eo|]. by apply io_run_bind_err.
       - intros Hn. destruct (number_mul (page_number p) PAGE_SIZE Hn Hps). congruence. }
  assert (Ho : off = page_number p * PAGE_SIZE /\ 0 <= page_number p).
  { unfold checked_mul64 in Em. destruct (0 <=? _) eqn:E1; [|done]. destruct (_ <=? u64_max); [|done].
    injection Em as <-. split; [done|]. unfold PAGE_SIZE in *. lia. }
  destruct Ho as [-> Hn0]. exists (Ok (default zeroed (page_on d p))), c'. split_and!; [|done|by right|by intros ? [= ->]|done].
  apply io_run_bind_ask. cbn [disk]. rewrite E. eapply io_run_bind_pure; [exact Eo|]. eapply io_run_bind_pure; [done|].
  eapply io_run_bind_pure; [apply run_file_size|]. rewrite E. cbn [default from_option id]. unfold page_on. rewrite Hx.
  destruct (Z.leb_spec (Z.of_nat (length x)) (page_number p * PAGE_SIZE)) as [Hle|Hgt].
  { rewrite decide_False; [done|]. unfold PAGE_SIZE in *. lia. }
  assert (Hin : page_number p < rel_pages d (relation_id p)) by (unfold PAGE_SIZE in *; lia).
  rewrite decide_True by lia. unfold saturating_sub. rewrite (proj2 (Z.ltb_ge _ _)) by (unfold PAGE_SIZE in *; lia).
  eapply io_run_bind_pure; [apply run_seek_mul; [lia|done]|].
  eapply io_run_bind_pure; [apply (run_read_exact sync d c' _ (page_number p) PAGE_SIZE x E); unfold PAGE_SIZE in *; lia|].
  eapply io_run_bind_pure; [by apply run_read_checksum|]. rewrite Hx. destruct sync; [|done]. by rewrite Z.eqb_refl.
Qed.

(** ** Resetting a relation, and syncing *)

Definition removed (d : Disk) (n : FileName) : list Disk :=
  match now (file d n) with Some _ => [set_now d n None] | None => [] end.

Definition reset_trace (d : Disk) (rel : Z) : list Disk :=
  let t1 := removed d (DataFile rel) in
  let t2 := removed (last_disk d t1) (ChecksumFile rel) in
  t1 ++ t2 ++ [fsync_dir (last_disk (last_disk d t1) t2)].

Definition forget (c : FileHandleCache) (rel : Z) : FileHandleCache :=
  mkCache (files c ∖ {[rel]}) (filter (fun r => r <> rel) (access_order c)) (max_open_files c).

Lemma run_remove sy d c n : remove_file n (st sy d c) = (Ok tt, st sy (last_disk d (removed d n)) c, removed d n).
Proof. unfold remove_file, removed. apply io_run_bind_ask. cbn [disk]. by destruct (now (file d n)). Qed.

Lemma now_removed d n m : now (file (last_disk d (removed d n)) m) = if decide (m = n) then None else now (file d m).
Proof.
  unfold removed. destruct (now (file d n)) eqn:E; [change (last_disk d [?x]) with x; apply now_set_now|].
  change (last_disk d []) with d. by case_decide; subst.
Qed.

Lemma older_removed d n m : durable d -> now (file (last_disk d (removed d n)) m) <> None -> older (file (last_disk d (removed d n)) m) = [].
Proof.
  intros Hd. unfold removed. destruct (now (file d n)) eqn:E; [|by intros _; apply Hd]. change (last_disk d [?x]) with x.
  rewrite file_set_now. by case_decide.
Qed.

Lemma run_reset sy d c rel :
  file_reset_relation rel (st sy d c) = (Ok tt, st sy (last_disk d (reset_trace d rel)) (forget c rel), reset_trace d rel).
Proof.
  unfold reset_trace. rewrite !last_disk_app. eapply io_run_bind_pure; [done|]. eapply io_run_bind; [apply run_remove|].
  by eapply io_run_bind; [apply run_remove|].
Qed.

Lemma now_reset_trace d rel m :
  now (file (last_disk d (reset_trace d rel)) m) =
    if decide (m = DataFile rel \/ m = ChecksumFile rel) then None else now (file d m).
Proof.
  unfold reset_trace. rewrite app_assoc, last_disk_snoc, file_fsync_dir, now_settle, !now_removed.
  repeat case_decide; naive_solver.
Qed.

Lemma durable_reset_trace d rel : durable d -> durable (last_disk d (reset_trace d rel)).
Proof.
  intros Hd m. unfold reset_trace. rewrite app_assoc, last_disk_snoc, file_fsync_dir. cbn [settle older].
  set (d1 := last_disk d (removed d (DataFile rel))). destruct (now (file (last_disk d1 _) m)) eqn:E; [|done].
  enough (older (file (last_disk d1 (removed d1 (ChecksumFile rel))) m) = []) as -> by done.
  revert E. unfold removed at 1 2. destruct (now (file d1 (ChecksumFile rel))) eqn:E1.
  - change (last_disk d1 [?x]) with x. rewrite !file_set_now. case_decide; [done|]. intros E.
    apply older_removed; [done|]. fold d1. by rewrite E.
  - change (last_disk d1 []) with d1. intros E. apply older_removed; [done|]. fold d1. by rewrite E.
Qed.

Lemma cache_reset c d rel : cache_ok c d -> cache_ok (forget c rel) (last_disk d (reset_trace d rel)).
Proof.
  intros [H1 H2 H3 H4]. split; cbn [forget files access_order max_open_files].
  - done.
  - pose proof (subseteq_size (files c ∖ {[rel]}) (files c) ltac:(set_solver)). lia.
  - intros r Hr. apply elem_of_difference in Hr as [Hr Hne]. apply list_elem_of_filter. split; [set_solver|auto].
  - intros r Hr. apply elem_of_difference in Hr as [Hr Hne]. rewrite now_reset_trace, decide_False; [by apply H4|].
    intros [[= ->]|?]; [set_solver|done].
Qed.

Lemma reset_rel_ok sums d rel r : rel_ok sums d r -> rel_ok sums (last_disk d (reset_trace d rel)) r.
Proof.
  intros [H1 H2 H3 H4 H5]. destruct (decide (r = rel)) as [->|Hne].
  - assert (Ed : data_of (last_disk d (reset_trace d rel)) rel = []) by (unfold data_of; by rewrite now_reset_trace, decide_True by eauto).
    assert (Es : sums_of (last_disk d (reset_trace d rel)) rel = []) by (unfold sums_of; by rewrite now_reset_trace, decide_True by eauto).
    split; unfold rel_pages; rewrite ?Ed, ?Es; cbn [length Z.of_nat]; rewrite ?Z.div_0_l by done; [done|by unfold FILE_PAGES|done| |lia].
    by destruct sums.
  - assert (Ed : data_of (last_disk d (reset_trace d rel)) r = data_of d r).
    { unfold data_of. rewrite now_reset_trace, decide_False by naive_solver. done. }
    assert (Es : sums_of (last_disk d (reset_trace d rel)) r = sums_of d r).
    { unfold sums_of. rewrite now_reset_trace, decide_False by naive_solver. done. }
    split; unfold rel_pages in *; by rewrite ?Ed, ?Es.
Qed.

Lemma reset_pages d rel r : rel_pages (last_disk d (reset_trace d rel)) r = if decide (r = rel) then 0 else rel_pages d r.
Proof.
  unfold rel_pages, data_of. rewrite now_reset_trace. repeat case_decide; naive_solver.
Qed.

Lemma reset_page_on d rel q : page_on (last_disk d (reset_trace d rel)) q = if decide (relation_id q = rel) then None else page_on d q.
Proof.
  unfold page_on. rewrite reset_pages. destruct (decide (relation_id q = rel)) as [E|E]; [apply decide_False; lia|].
  unfold data_of. rewrite now_reset_trace. by rewrite (decide_False (P := _ \/ _)) by naive_solver.
Qed.

Fixpoint sync_trace (d : Disk) (rels : list Z) : list Disk :=
  match rels with
  | [] => []
  | r :: rels => fsync d (DataFile r) :: sync_trace (fsync d (DataFile r)) rels
  end.

Lemma last_disk_cons d x t : last_disk d (x :: t) = last_disk x t.
Proof. change (x :: t) with ([x] ++ t). apply last_disk_app. Qed.

Lemma run_sync_files sy c rels d : sync_files rels (st sy d c) = (Ok tt, st sy (last_disk d (sync_trace d rels)) c, sync_trace d rels).
Proof.
  revert d. induction rels as [|r rels IH]; intros d; [done|]. cbn [sync_files sync_trace]. rewrite last_disk_cons.
  eapply (io_run_bind _ _ _ tt _ [_]); [done|]. apply IH.
Qed.

Lemma run_sync sy d c :
  let t := sync_trace d (elements (files c)) in
  file_sync (st sy d c) = (Ok tt, st sy (fsync_dir (last_disk d t)) c, t ++ [fsync_dir (last_disk d t)]).
Proof. intros t. apply io_run_bind_ask. eapply io_run_bind; [apply run_sync_files|]. done. Qed.

Lemma now_sync_trace rels d m : now (file (last_disk d (sync_trace d rels)) m) = now (file d m).
Proof.
  revert d. induction rels as [|r rels IH]; intros d; [done|]. cbn [sync_trace]. by rewrite last_disk_cons, IH, now_fsync.
Qed.

Lemma older_sync_trace rels d m :
  older (file (last_disk d (sync_trace d rels)) m) =
    if decide (m ∈ DataFile <$> rels) then before_file (older (file d m)) else older (file d m).
Proof.
  assert (Hb : forall vs, before_file (before_file vs) = before_file vs) by (intros vs; by induction vs as [|[]]).
  revert d. induction rels as [|r rels IH]; intros d; [done|]. cbn [sync_trace fmap list_fmap]. rewrite last_disk_cons, IH, file_fsync.
  destruct (decide (m = DataFile r)) as [->|Hne].
  - rewrite (decide_True (P := _ ∈ _ :: _)) by set_solver. cbn [older]. case_decide; [apply Hb|done].
  - destruct (decide (m ∈ DataFile <$> rels)); [rewrite decide_True by set_solver|rewrite decide_False by set_solver]; done.
Qed.

(** A sync leaves every file as it is. *)
Lemma same_now_rel_ok sums d d' rel : (forall m, now (file d' m) = now (file d m)) -> rel_ok sums d rel -> rel_ok sums d' rel.
Proof.
  intros E [H1 H2 H3 H4 H5]. unfold rel_pages, data_of, sums_of in *.
  split; unfold rel_pages, data_of, sums_of; rewrite ?E; done.
Qed.

Lemma same_now_page_on d d' q : (forall m, now (file d' m) = now (file d m)) -> page_on d' q = page_on d q.
Proof. intros E. unfold page_on, rel_pages, data_of. by rewrite E. Qed.

(** ** The store is a page store *)

Lemma put_wf (s : FilePageStore) d' c' p data :
  file_wf s -> page_put (sync_each_write s) (disk s) d' p data -> is_page data ->
  0 <= page_number p <= rel_pages (disk s) (relation_id p) -> page_number p < FILE_PAGES ->
  cache_ok c' d' -> (sync_each_write s = true -> durable d') -> file_wf (st (sync_each_write s) d' c').
Proof.
  intros [H1 H2 H3 H4 H5 H6] Hp Hd Hn Hl Hc Hdur. split; cbn [cache disk sync_each_write]; try done.
  - rewrite Hp. rewrite !decide_False by naive_solver. done.
  - intros rel. by eapply put_rel_ok.
Qed.

(** Writing a page in place. *)
Lemma write_wf s p data :
  file_wf s -> 0 <= page_number p < rel_pages (disk s) (relation_id p) -> is_page data ->
  exists c',
    let t := write_trace (sync_each_write s) (disk s) p data in
    let s' := st (sync_each_write s) (last_disk (disk s) t) c' in
    file_write_page p data s = (Ok tt, s', t) /\ file_wf s' /\
    (forall q, page_on (disk s') q = if decide (q = p) then Some data else page_on (disk s) q) /\
    (forall rel, rel_pages (disk s') rel = rel_pages (disk s) rel) /\ cache_next (cache s) c' (relation_id p).
Proof.
  intros Hw Hn Hd. pose proof Hw as [H1 H2 H3 H4 H5 H6]. pose proof (ro_limit _ _ _ (H6 (relation_id p))) as Hl.
  assert (Hn' : 0 <= page_number p < FILE_PAGES) by lia.
  destruct (run_write (sync_each_write s) (disk s) (cache s) p data H1 Hn') as (c' & E & Hc' & Hnext).
  exists c'. cbn [disk sync_each_write cache].
  assert (Hp : page_put (sync_each_write s) (disk s) (last_disk (disk s) (write_trace (sync_each_write s) (disk s) p data)) p data).
  { unfold write_trace. destruct (sync_each_write s); [|apply put_trace_put; lia]. intros m.
    rewrite !last_disk_app, now_clear_trace. rewrite (put_trace_put true _ p data) by lia. unfold data_of, sums_of.
    rewrite !now_journal_trace. rewrite (decide_False (P := DataFile _ = JournalFile)), (decide_False (P := ChecksumFile _ = JournalFile)) by done.
    destruct (decide (m = JournalFile)) as [->|Hm]; [|done]. by rewrite !decide_False by (congruence || intros [_ ?]; congruence). }
  assert (Hdur : sync_each_write s = true -> durable (last_disk (disk s) (write_trace (sync_each_write s) (disk s) p data))).
  { intros Hs. rewrite Hs. cbn [write_trace]. rewrite !last_disk_app. apply durable_clear_trace, durable_put_trace, durable_journal_trace; auto. }
  split_and!.
  - etrans; [|exact E]. f_equal. by apply wf_st.
  - eapply put_wf; try done; lia.
  - intros q. eapply (put_page_on (sync_each_write s)); try done; lia.
  - intros rel. erewrite (put_pages (sync_each_write s)); try done; try lia. case_decide; subst; lia.
  - done.
Qed.

Lemma allocate_wf s rel :
  file_wf s -> rel_pages (disk s) rel < FILE_PAGES ->
  let p := mkPageId rel (rel_pages (disk s) rel) in
  exists c',
    let t := put_trace (sync_each_write s) (disk s) p zeroed in
    let s' := st (sync_each_write s) (last_disk (disk s) t) c' in
    file_allocate_page rel s = (Ok p, s', t) /\ file_wf s' /\
    (forall q, page_on (disk s') q = if decide (q = p) then Some zeroed else page_on (disk s) q) /\
    (forall r, rel_pages (disk s') r = if decide (r = rel) then rel_pages (disk s) r + 1 else rel_pages (disk s) r) /\
    cache_next (cache s) c' rel.
Proof.
  intros Hw Hn p. pose proof Hw as [H1 H2 H3 H4 H5 H6]. pose proof (rel_pages_nonneg (disk s) rel) as H0.
  destruct (run_allocate (sync_each_write s) (disk s) (cache s) rel H1 (H6 rel) Hn) as (c' & E & Hc' & Hnext).
  exists c'. cbn [disk sync_each_write cache].
  assert (Hp : page_put (sync_each_write s) (disk s) (last_disk (disk s) (put_trace (sync_each_write s) (disk s) p zeroed)) p zeroed)
    by (apply put_trace_put; done).
  assert (Hdur : sync_each_write s = true -> durable (last_disk (disk s) (put_trace (sync_each_write s) (disk s) p zeroed))).
  { intros Hs. rewrite Hs. apply durable_put_trace. auto. }
  pose proof zero_page_is as Hz. split_and!.
  - etrans; [|exact E]. f_equal. by apply wf_st.
  - eapply put_wf; try done; cbn; lia.
  - intros q. eapply (put_page_on (sync_each_write s)); try done; cbn; lia.
  - intros r. erewrite (put_pages (sync_each_write s)); try done; cbn; try lia. case_decide; subst; lia.
  - done.
Qed.

Lemma read_wf s p :
  file_wf s ->
  exists r c',
    let s' := st (sync_each_write s) (disk s) c' in
    file_read_page p s = (r, s', []) /\ file_wf s' /\ (c' = cache s \/ cache_next (cache s) c' (relation_id p)) /\
    (forall data, r = Ok data -> data = default zeroed (page_on (disk s) p)) /\
    (0 <= page_number p < FILE_PAGES -> r = Ok (default zeroed (page_on (disk s) p))).
Proof.
  intros Hw. pose proof Hw as [H1 H2 H3 H4 H5 H6].
  destruct (run_read (sync_each_write s) (disk s) (cache s) p H1 (H6 _)) as (r & c' & E & Hc' & Hnx & Hr & Hok). exists r, c'. split_and!; try done.
  etrans; [|exact E]. f_equal. by apply wf_st.
Qed.

Lemma reset_wf s rel :
  file_wf s ->
  let s' := st (sync_each_write s) (last_disk (disk s) (reset_trace (disk s) rel)) (forget (cache s) rel) in
  file_reset_relation rel s = (Ok tt, s', reset_trace (disk s) rel) /\ file_wf s'.
Proof.
  intros Hw. pose proof Hw as [H1 H2 H3 H4 H5 H6]. split.
  - etrans; [|apply run_reset]. f_equal. by apply wf_st.
  - split; cbn [cache disk sync_each_write]; try done.
    + by apply cache_reset.
    + rewrite now_reset_trace, decide_False; [done|]. by intros [?|?].
    + intros Hs. by apply durable_reset_trace, H5.
    + intros r. apply reset_rel_ok, H6.
Qed.

Lemma sync_wf s :
  file_wf s ->
  exists t, let s' := st (sync_each_write s) (last_disk (disk s) t) (cache s) in
    file_sync s = (Ok tt, s', t) /\ file_wf s' /\ (forall m, now (file (disk s') m) = now (file (disk s) m)) /\
    (forall m, older (file (disk s') m) = match now (file (disk s) m) with
       | None => []
       | Some _ => this_file (if decide (m ∈ DataFile <$> elements (files (cache s))) then before_file (older (file (disk s) m)) else older (file (disk s) m))
       end).
Proof.
  intros Hw. pose proof Hw as [H1 H2 H3 H4 H5 H6].
  pose proof (run_sync (sync_each_write s) (disk s) (cache s)) as E. cbn zeta in E. set (t := sync_trace _ _) in E.
  exists (t ++ [fsync_dir (last_disk (disk s) t)]). rewrite last_disk_snoc.
  assert (Hnow : forall m, now (file (fsync_dir (last_disk (disk s) t)) m) = now (file (disk s) m)).
  { intros m. rewrite file_fsync_dir, now_settle. apply now_sync_trace. }
  assert (Hold : forall m, older (file (fsync_dir (last_disk (disk s) t)) m) = match now (file (disk s) m) with
       | None => []
       | Some _ => this_file (if decide (m ∈ DataFile <$> elements (files (cache s))) then before_file (older (file (disk s) m)) else older (file (disk s) m))
       end).
  { intros m. rewrite file_fsync_dir. cbn [settle older]. subst t. by rewrite now_sync_trace, older_sync_trace. }
  cbn [disk]. split_and!; [etrans; [|exact E]; f_equal; by apply wf_st| |done|done].
  split; cbn [cache disk sync_each_write]; try done.
  - apply (cache_ok_disk _ _ _ H1). intros r. by rewrite Hnow.
  - by rewrite Hnow.
  - intros Hs m. rewrite Hold, (H5 Hs m). destruct (now (file (disk s) m)); [by case_decide|done].
  - intros rel. by apply (same_now_rel_ok _ (disk s)).
Qed.

Lemma page_on_page s p d : file_wf s -> page_on (disk s) p = Some d -> is_page d.
Proof.
  intros Hw. pose proof (fw_rel _ Hw (relation_id p)) as [H1 H2 H3 H4 H5]. unfold page_on. case_decide as Hn; [|done].
  intros [= <-]. pose proof ps_pos as [Hps _]. split.
  - unfold page_len. rewrite length_chunk by (unfold PAGE_SIZE in *; nia). done.
  - by apply Forall_take, Forall_drop.
Qed.

Lemma page_on_none d p : page_on d p = None <-> ~ 0 <= page_number p < rel_pages d (relation_id p).
Proof. unfold page_on. by case_decide. Qed.

(** For both kinds of store: those that sync each write, and those for bulk loading. *)
#[refine] Definition file_laws (mode : bool) : PageStoreLaws FilePageStore := {|
  contents s := page_on (disk s);
  allocated s p := 0 <= page_number p < rel_pages (disk s) (relation_id p);
  room s rel := rel_pages (disk s) rel < FILE_PAGES;
  store_wf s := file_wf s /\ sync_each_write s = mode
|}.
Proof.
  - intros s p r s' [Hw Hm] E. destruct (read_wf s p Hw) as (r0 & c' & E0 & Hw' & _ & Hr & _). cbn in E. unfold io_run in E.
    rewrite E0 in E. cbn in E. by simplify_eq.
  - intros s p d [Hw _]. by apply page_on_page.
  - intros s p d r s' [Hw Hm] Ha Hd E. destruct (write_wf s p d Hw Ha Hd) as (c' & E0 & Hw' & Hp & Hn & _). cbn in E. unfold io_run in E.
    rewrite E0 in E. cbn [fst] in E. simplify_eq. split_and!; [done|done|intros q; by rewrite Hn|..].
    + intros q Hq. by rewrite Hp, decide_False.
    + intros _. by rewrite Hp, decide_True.
  - intros s rel r s' [Hw Hm] Hr E. destruct (allocate_wf s rel Hw Hr) as (c' & E0 & Hw' & Hp & Hn & _). cbn in E. unfold io_run in E.
    rewrite E0 in E. cbn [fst] in E. simplify_eq. pose proof (rel_pages_nonneg (disk s) rel).
    assert (Hnone : page_on (disk s) (mkPageId rel (rel_pages (disk s) rel)) = None) by (apply page_on_none; cbn; lia).
    split_and!; [done|done|..].
    + intros q. rewrite Hp. case_decide; [subst; right|by left]. done.
    + intros q Hq. rewrite Hn. case_decide; lia.
    + intros p [= <-]. cbn [relation_id page_number]. rewrite Hn, decide_True by done. split_and!; [done|lia|lia|lia|done].
  - intros s rel r s' [Hw Hm] E. destruct (reset_wf s rel Hw) as [E0 Hw']. cbn in E. unfold io_run in E. rewrite E0 in E. cbn [fst] in E.
    simplify_eq. split_and!; [done|done|..].
    + intros q Hq. cbn [disk]. by rewrite reset_page_on, decide_False.
    + intros q Hq. cbn [disk]. by rewrite reset_pages, decide_False.
    + intros _ q Hq. cbn [disk]. by rewrite reset_page_on, decide_True.
  - intros s r s' [Hw Hm] E. destruct (sync_wf s Hw) as (t & E0 & Hw' & Hn & _). cbn in E. unfold io_run in E. rewrite E0 in E. cbn [fst] in E.
    simplify_eq. split_and!; [done|done|intros q; by apply same_now_page_on|]. intros q. unfold rel_pages, data_of. by rewrite Hn.
Defined.

#[refine] Definition file_reliable (mode : bool) : @ReliableStore FilePageStore _ (file_laws mode) :=
  {| store_next s := rel_pages (disk s); store_limit := FILE_PAGES |}.
Proof.
  - by vm_compute.
  - done.
  - intros s p d [Hw Hm] E. destruct (read_wf s p Hw) as (r & c' & E0 & _ & _ & _ & Hr). cbn. unfold io_run. rewrite E0. cbn [fst]. cbn in E.
    rewrite Hr, E; [done|]. pose proof (ro_limit _ _ _ (fw_rel _ Hw (relation_id p))).
    unfold page_on in E. case_decide; [lia|done].
  - intros s rel [Hw Hm] E. destruct (read_wf s (mkPageId rel 0) Hw) as (r & c' & E0 & _ & _ & _ & Hr). right. cbn. unfold io_run. rewrite E0. cbn [fst].
    rewrite Hr by (cbn; unfold FILE_PAGES; lia). by rewrite (proj2 (page_on_none _ _)) by (cbn in *; lia).
  - intros s p rel [Hw Hm]. destruct (read_wf s p Hw) as (r & c' & E0 & _). cbn. unfold io_run. by rewrite E0.
  - intros s p d [Hw Hm] Ha Hd. destruct (write_wf s p d Hw Ha Hd) as (c' & E0 & _ & _ & Hn & _). cbn. unfold io_run. by rewrite E0.
  - intros s rel [Hw Hm] Hn. destruct (allocate_wf s rel Hw Hn) as (c' & E0 & _ & _ & Hp & _). cbn. unfold io_run. rewrite E0.
    split_and!; [done|done|]. cbn [fst snd]. by rewrite Hp, decide_True.
  - intros s rel [Hw Hm]. destruct (reset_wf s rel Hw) as [E0 _]. cbn. unfold io_run. rewrite E0. split; [done|]. cbn [fst snd disk].
    by rewrite reset_pages, decide_True.
  - intros s [Hw Hm]. destruct (sync_wf s Hw) as (t & E0 & _ & Hn & _). cbn. unfold io_run. rewrite E0. split; [done|]. intros rel.
    unfold rel_pages, data_of. cbn [fst snd]. by rewrite Hn.
Defined.

#[global] Instance sync_laws : PageStoreLaws FilePageStore := file_laws true.
#[global] Instance sync_reliable : ReliableStore FilePageStore := file_reliable true.
