(* ===== verification/FileCrash.v ===== *)
(** * Crashes of the file-backed page store ([crates/aiondb-buffer-pool/src/disk.rs])

    A store is stopped between any two file operations, and the directory it finds at the
    next start is one that [crash] allows.  Opening it again ([with_max_open_files]) replays
    the journal, and may itself be stopped any number of times.  A page write is atomic: it
    has happened or it has not, unless the crash forges a journal record.  In bulk mode the
    final sync makes the files durable as long as no handle was evicted. *)

From S2P Require Import Prelude.
From S2P Require Import Bytes.
From S2P Require Import PageBytes.
From S2P Require Import PoolPage.
From S2P Require Import BufferPool.
From S2P Require Import PoolProg.
From S2P Require Import Checksum.
From S2P Require Import Disk.
From S2P Require Import FileStore.

(** The start of a store is stopped and the machine comes up again. *)
Definition crash_in_open (max : Z) (d d' : Disk) : Prop :=
  exists x, x ∈ d :: snd (with_max_open_files max d) /\ crash x d'.

(** The checks of [recover_fpw_journal_if_present] on a journal of full length. *)
Definition journal_accepted (bytes : list Z) : bool :=
  bool_decide (slice bytes 0 8 = FPW_JOURNAL_MAGIC) &&
  (le_value (slice bytes (FPW_JOURNAL_RECORD_BYTES - 4) 4) =? compute_crc32c (slice bytes 0 (FPW_JOURNAL_RECORD_BYTES - 4))).

(** The crash has left a journal of full length that is not the record, and that passes the
    checks all the same: the checksum has 32 bits, so such mixtures exist. *)
Definition journal_forged (p : PageId) (data : list Z) (d : Disk) : bool :=
  match now (file d JournalFile) with
  | Some b => (Z.of_nat (length b) =? FPW_JOURNAL_RECORD_BYTES) && negb (bool_decide (b = journal_record p data)) && journal_accepted b
  | None => false
  end.

(** ** The journal record *)

Lemma length_body p data : is_page data -> Z.of_nat (length (journal_body p data)) = FPW_JOURNAL_RECORD_BYTES - 4.
Proof.
  intros [Hl _]. unfold page_len in Hl. unfold journal_body, FPW_JOURNAL_RECORD_BYTES. rewrite !length_app, !length_le_bytes.
  change (length FPW_JOURNAL_MAGIC) with 8%nat. lia.
Qed.

Lemma length_record p data : is_page data -> Z.of_nat (length (journal_record p data)) = FPW_JOURNAL_RECORD_BYTES.
Proof.
  intros Hd. unfold journal_record. rewrite length_app, length_le_bytes. pose proof (length_body p data Hd).
  unfold FPW_JOURNAL_RECORD_BYTES in *. lia.
Qed.

Lemma body_bytes p data : is_page data -> Forall byte (journal_body p data).
Proof.
  intros [_ Hb]. unfold journal_body. repeat apply Forall_app_2; auto using le_bytes_byte. repeat constructor; unfold byte; lia.
Qed.

Lemma slice_mid (a m b : list Z) off n : Z.of_nat (length a) = off -> Z.of_nat (length m) = n -> slice (a ++ m ++ b) off n = m.
Proof. intros <- <-. unfold slice. rewrite !Nat2Z.id, drop_app_length, take_app_length. done. Qed.

Lemma slice_front (m b : list Z) n : Z.of_nat (length m) = n -> slice (m ++ b) 0 n = m.
Proof. intros Hm. by apply (slice_mid [] m b). Qed.

Lemma parse_record p data s :
  in_u64 (relation_id p) -> in_u64 (page_number p) -> is_page data ->
  parse_journal (journal_record p data) s = (Ok (p, data), s, []).
Proof.
  intros Hr Hn Hd. pose proof Hd as [Hl _]. unfold page_len in Hl. unfold parse_journal. rewrite length_record by done.
  rewrite Z.eqb_refl. cbn [negb].
  assert (E1 : slice (journal_record p data) 0 8 = FPW_JOURNAL_MAGIC).
  { unfold journal_record, journal_body. rewrite <- !app_assoc. by apply slice_front. }
  assert (E2 : slice (journal_record p data) (FPW_JOURNAL_RECORD_BYTES - 4) 4 = le_bytes 4 (compute_crc32c (journal_body p data))).
  { pose proof (slice_mid (journal_body p data) (le_bytes 4 (compute_crc32c (journal_body p data))) [] (FPW_JOURNAL_RECORD_BYTES - 4) 4) as E.
    rewrite app_nil_r in E. apply E; [by apply length_body|by rewrite length_le_bytes]. }
  assert (E3 : slice (journal_record p data) 0 (FPW_JOURNAL_RECORD_BYTES - 4) = journal_body p data) by (by apply slice_front, length_body).
  assert (E4 : slice (journal_record p data) 8 8 = le_bytes 8 (relation_id p)).
  { unfold journal_record, journal_body. rewrite <- !app_assoc. apply slice_mid; [done|by rewrite length_le_bytes]. }
  assert (E5 : slice (journal_record p data) 16 8 = le_bytes 8 (page_number p)).
  { unfold journal_record, journal_body. rewrite <- !app_assoc. rewrite (app_assoc FPW_JOURNAL_MAGIC).
    apply slice_mid; rewrite ?length_app, !length_le_bytes; done. }
  assert (E6 : slice (journal_record p data) 24 PAGE_SIZE = data).
  { unfold journal_record, journal_body. rewrite <- !app_assoc. rewrite (app_assoc FPW_JOURNAL_MAGIC), (app_assoc (_ ++ _)).
    apply slice_mid; [rewrite !length_app, !length_le_bytes; done|done]. }
  rewrite E1, bool_decide_true by done. cbn [negb]. rewrite E2, E3.
  rewrite le_value_bytes by (apply crc_range; by apply body_bytes). rewrite Z.eqb_refl. cbn [negb].
  rewrite E4, E5, E6. unfold in_u64, u64_max in *. rewrite !le_value_bytes by (cbn; lia). by destruct p.
Qed.

(** ** What a crash does to one operation *)

Lemma durable_crash d d' : durable d -> crash d d' -> durable d' /\ forall m, now (file d' m) = now (file d m).
Proof. intros Hd Hc. split; [apply Hc|]. intros m. by rewrite (crash_file d d' m Hc (Hd m)). Qed.

Lemma crash_write d n c off bs d' :
  durable d -> now (file d n) = Some c -> crash (write_at d n off bs) d' ->
  durable d' /\ (forall m, m <> n -> now (file d' m) = now (file d m)) /\
  exists c', now (file d' n) = Some c' /\ torn [overwrite c (Z.to_nat off) bs; c] c'.
Proof.
  intros Hd E Hc. split_and!; [apply Hc|..].
  - intros m Hm. rewrite (crash_file _ _ m Hc); rewrite (file_write_at _ _ c), decide_False by done; [done|apply Hd].
  - destruct Hc as [_ Hc]. specialize (Hc n). rewrite (file_write_at _ _ c), decide_True in Hc by done. cbn [now older] in Hc. rewrite Hd in Hc.
    by apply (crash_state_written [_; _]) in Hc.
Qed.

Lemma crash_remove d n c d' :
  durable d -> now (file d n) = Some c -> crash (set_now d n None) d' ->
  durable d' /\ (forall m, m <> n -> now (file d' m) = now (file d m)) /\ (now (file d' n) = None \/ now (file d' n) = Some c).
Proof.
  intros Hd E Hc. split_and!; [apply Hc|..].
  - intros m Hm. rewrite (crash_file _ _ m Hc); rewrite file_set_now, decide_False by done; [done|apply Hd].
  - destruct Hc as [_ Hc]. specialize (Hc n). rewrite file_set_now, decide_True in Hc by done. cbn [now older] in Hc. rewrite E, Hd in Hc.
    inversion Hc as [|pre ws post c' Ev Ht]; [by left|right]. destruct ws as [|w ws]; [destruct Ht as [[v [Hv _]] _]; by apply not_elem_of_nil in Hv|].
    destruct pre as [|y pre]; [done|]. injection Ev as <- Ev. destruct pre as [|y pre]; [|by destruct pre].
    injection Ev as <- Ev. destruct ws; [|done]. by apply torn_single in Ht as ->.
Qed.

(** A file equal to another outside one range. *)
Definition near (off len : nat) (c0 c : list Z) : Prop :=
  length c = length c0 /\ forall i, ~ (off <= i < off + len)%nat -> c !! i = c0 !! i.

Lemma near_refl off len c : near off len c c.
Proof. done. Qed.

Lemma near_overwrite off len c0 c bs :
  near off len c0 c -> length bs = len -> (off + len <= length c0)%nat ->
  near off len c0 (overwrite c off bs) /\ overwrite c off bs = overwrite c0 off bs.
Proof.
  intros [Hl Hn] Hb Ho. split; [split|].
  - rewrite length_overwrite. lia.
  - intros i Hi. rewrite lookup_overwrite by lia. rewrite decide_False by lia. by apply Hn.
  - apply overwrite_same; [lia|lia|]. intros i Hi. apply Hn. lia.
Qed.

Lemma near_torn off len c0 c bs c' :
  near off len c0 c -> length bs = len -> (off + len <= length c0)%nat -> torn [overwrite c off bs; c] c' -> near off len c0 c'.
Proof.
  intros [Hl Hn] Hb Ho Ht. apply torn_two in Ht as [Hl' Hs]; [|rewrite length_overwrite; lia]. split; [lia|].
  intros i Hi. rewrite Hs; [by apply Hn|]. rewrite lookup_overwrite by lia. by rewrite decide_False by lia.
Qed.

(** ** Opening a store *)

Lemma new_cache_ok max d : 0 < max -> cache_ok (new_cache max) d.
Proof. intros Hm. split; cbn; [done|rewrite size_empty; lia|set_solver|set_solver]. Qed.

Section Open.
Context (max : Z) (d : Disk).
Hypothesis Hmax : 0 < max.

Lemma open_run r s t :
  recover_fpw_journal_if_present (st true (fsync_dir d) (new_cache max)) = (r, s, t) ->
  with_max_open_files max d = (match r with Ok _ => Ok s | Err e => Err e end, fsync_dir d :: t).
Proof.
  intros E. unfold with_max_open_files. rewrite (proj2 (Z.eqb_neq _ _)) by lia.
  rewrite (io_run_bind sync_dir (fun _ => recover_fpw_journal_if_present) (mkStore d (new_cache max) true false false) tt _ _ r s t eq_refl E).
  by destruct r.
Qed.

Lemma open_none :
  now (file d JournalFile) = None -> with_max_open_files max d = (Ok (st true (fsync_dir d) (new_cache max)), [fsync_dir d]).
Proof.
  intros E. apply (open_run (Ok tt)).
  unfold recover_fpw_journal_if_present.
  eapply (io_run_bind_pure _ _ _ None); [|done]. unfold read_fpw_journal_record. apply io_run_bind_ask. cbn [disk]. by rewrite file_fsync_dir, now_settle, E.
Qed.

Lemma open_empty :
  now (file d JournalFile) = Some [] ->
  with_max_open_files max d =
    (Ok (st true (last_disk (fsync_dir d) (clear_trace (fsync_dir d))) (new_cache max)), fsync_dir d :: clear_trace (fsync_dir d)).
Proof.
  intros E.
  assert (E' : now (file (fsync_dir d) JournalFile) = Some []) by (by rewrite file_fsync_dir, now_settle).
  apply (open_run (Ok tt)).
  unfold recover_fpw_journal_if_present.
  eapply (io_run_bind_pure _ _ _ (Some [])); [|by eapply run_clear]. unfold read_fpw_journal_record. apply io_run_bind_ask. cbn [disk]. by rewrite E'.
Qed.

(** A journal that is neither empty nor whole is refused, and stays. *)
Lemma open_torn b :
  now (file d JournalFile) = Some b -> b <> [] ->
  (Z.of_nat (length b) = FPW_JOURNAL_RECORD_BYTES -> journal_accepted b = false) ->
  with_max_open_files max d = (Err InvalidData, [fsync_dir d]).
Proof.
  intros E Hb Hbad.
  assert (E' : now (file (fsync_dir d) JournalFile) = Some b) by (by rewrite file_fsync_dir, now_settle).
  apply (open_run (Err InvalidData) (st true (fsync_dir d) (new_cache max))).
  unfold recover_fpw_journal_if_present.
  assert (Hl0 : (Z.of_nat (length b) =? 0) = false) by (by destruct b).
  assert (Er : read_fpw_journal_record (st true (fsync_dir d) (new_cache max)) =
    (if Z.of_nat (length b) =? FPW_JOURNAL_RECORD_BYTES then Ok (Some b) else Err InvalidData, st true (fsync_dir d) (new_cache max), [])).
  { unfold read_fpw_journal_record. apply io_run_bind_ask. cbn [disk]. rewrite E', Hl0.
    destruct (Z.eqb_spec (Z.of_nat (length b)) FPW_JOURNAL_RECORD_BYTES) as [El|El]; cbn [negb]; [|done].
    rewrite take_ge by lia. by rewrite El, Z.eqb_refl. }
  destruct (Z.eqb_spec (Z.of_nat (length b)) FPW_JOURNAL_RECORD_BYTES) as [El|El]; [|by apply io_run_bind_err].
  eapply io_run_bind_pure; [exact Er|]. cbv beta iota. rewrite Hl0. apply io_run_bind_err. unfold parse_journal. rewrite El, Z.eqb_refl. cbn [negb].
  specialize (Hbad El). unfold journal_accepted in Hbad. destruct (bool_decide (slice b 0 8 = FPW_JOURNAL_MAGIC)); cbn [negb andb] in *; [|done].
  by rewrite Hbad.
Qed.

(** A whole record is written to its page. *)
Lemma open_whole p data :
  now (file d JournalFile) = Some (journal_record p data) ->
  in_u64 (relation_id p) -> 0 <= page_number p < FILE_PAGES -> is_page data ->
  let t := put_trace true (fsync_dir d) p data in
  let t' := clear_trace (last_disk (fsync_dir d) t) in
  with_max_open_files max d = (Ok (st true (last_disk (fsync_dir d) (t ++ t')) (new_cache max)), fsync_dir d :: t ++ t').
Proof.
  intros E Hr Hn Hd t t'. pose proof page_size_range as Hs.
  assert (E' : now (file (fsync_dir d) JournalFile) = Some (journal_record p data)) by (by rewrite file_fsync_dir, now_settle).
  pose proof (length_record p data Hd) as Hl.
  apply (open_run (Ok tt)).
  unfold recover_fpw_journal_if_present.
  eapply io_run_bind_pure.
  { unfold read_fpw_journal_record. apply io_run_bind_ask. cbn [disk]. rewrite E', Hl, Z.eqb_refl. cbn [negb].
    rewrite take_ge by lia. by rewrite Hl, Z.eqb_refl. }
  cbv beta iota. rewrite Hl. change (FPW_JOURNAL_RECORD_BYTES =? 0) with false. cbv iota.
  eapply io_run_bind_pure; [apply parse_record; [done|unfold in_u64, u64_max, FILE_PAGES in *; lia|done]|].
  assert (Hj : now (file (last_disk (fsync_dir d) t) JournalFile) = Some (journal_record p data)).
  { subst t. rewrite (put_trace_put true (fsync_dir d) p data ltac:(lia)), !decide_False by naive_solver. done. }
  revert Hj. subst t' t. unfold put_trace. rewrite <- !app_assoc. rewrite !last_disk_app. intros Hj.
  eapply io_run_bind; [by apply run_open|]. eapply io_run_bind_pure; [by apply run_try_mul|]. eapply io_run_bind_pure; [by apply run_seek_mul|].
  eapply (io_run_bind _ _ _ tt _ [_]); [done|]. eapply (io_run_bind _ _ _ tt _ [_]); [done|].
  eapply io_run_bind; [by apply run_checksum|]. by eapply run_clear.
Qed.

End Open.

(** ** The states a crash leaves *)

Section Atomic.
Context (max : Z) (d0 : Disk) (p : PageId) (data : list Z).
Hypothesis Hmax : 0 < max.
Hypothesis Hok : forall rel, rel_ok true d0 rel.
Hypothesis Hdur : durable d0.
Hypothesis Hnone : now (file d0 JournalFile) = None.
Hypothesis Hnum : 0 <= page_number p < rel_pages d0 (relation_id p).
Hypothesis Hrel : in_u64 (relation_id p).
Hypothesis Hdata : is_page data.

#[local] Abbreviation DF := (DataFile (relation_id p)).
#[local] Abbreviation CF := (ChecksumFile (relation_id p)).
#[local] Abbreviation sum := (le_bytes 4 (compute_crc32c data)).
#[local] Abbreviation off := (PS * Z.to_nat (page_number p))%nat.
#[local] Abbreviation soff := (4 * Z.to_nat (page_number p))%nat.

(** The journal is whole; the page and its checksum may be partly written. *)
Record half_written (d : Disk) : Prop := {
  hw_durable : durable d;
  hw_journal : now (file d JournalFile) = Some (journal_record p data);
  hw_data : exists c, now (file d DF) = Some c /\ near off PS (data_of d0 (relation_id p)) c;
  hw_sums : exists c, now (file d CF) = Some c /\ near soff 4 (sums_of d0 (relation_id p)) c;
  hw_other m : m <> JournalFile -> m <> DF -> m <> CF -> now (file d m) = now (file d0 m) }.

(** The page is written. *)
Definition written (d : Disk) : Prop := durable d /\ page_put true d0 d p data.

(** Nothing is written but the journal. *)
Definition unwritten (j : option (list Z)) (d : Disk) : Prop :=
  durable d /\ now (file d JournalFile) = j /\ forall m, m <> JournalFile -> now (file d m) = now (file d0 m).

Definition reachable (d : Disk) : Prop :=
  unwritten None d \/ (exists b, unwritten (Some b) d /\ (Z.of_nat (length b) = FPW_JOURNAL_RECORD_BYTES -> journal_accepted b = false)) \/
  half_written d \/ written d.

Lemma number_limit : 0 <= page_number p < FILE_PAGES.
Proof. pose proof (ro_limit _ _ _ (Hok (relation_id p))). lia. Qed.

Lemma data_fits : (off + PS <= length (data_of d0 (relation_id p)))%nat /\ length data = PS.
Proof.
  pose proof (ro_size _ _ _ (Hok (relation_id p))) as Hs. destruct Hdata as [Hl _]. unfold page_len in Hl. pose proof ps_pos as [Hps _].
  split; [|lia]. unfold PAGE_SIZE in *. nia.
Qed.

Lemma sums_fit : (soff + 4 <= length (sums_of d0 (relation_id p)))%nat /\ length sum = 4%nat.
Proof. pose proof (ro_sums _ _ _ (Hok (relation_id p))) as Hs. cbn iota in Hs. split; [lia|apply length_le_bytes]. Qed.

Lemma data_exists : now (file d0 DF) = Some (data_of d0 (relation_id p)).
Proof. pose proof data_fits as [Hf Hl]. pose proof ps_pos. unfold data_of in *. destruct (now (file d0 DF)); [done|]. cbn in Hf. unfold PAGE_SIZE in *. lia. Qed.

Lemma sums_exists : now (file d0 CF) = Some (sums_of d0 (relation_id p)).
Proof. pose proof sums_fit as [Hf Hl]. unfold sums_of in *. destruct (now (file d0 CF)); [done|]. cbn in Hf. lia. Qed.

(** *** Replaying the journal *)

Lemma half_same d d' : half_written d -> durable d' -> (forall m, now (file d' m) = now (file d m)) -> half_written d'.
Proof. intros [H1 H2 H3 H4 H5] Hd E. split; [done|..]; setoid_rewrite E; done. Qed.

Lemma half_crash_data d d' : half_written d -> crash (write_at d DF (page_number p * PAGE_SIZE) data) d' -> half_written d'.
Proof.
  intros [H1 H2 (c & Ec & Hc) H4 H5] Hcr. pose proof data_fits as [Hf Hl].
  destruct (crash_write _ _ c _ _ _ H1 Ec Hcr) as (Hd & Hs & c' & Ec' & Ht). rewrite offset_nat in Ht by (unfold PAGE_SIZE; lia). split.
  - done.
  - by rewrite Hs.
  - exists c'. split; [done|]. by eapply near_torn.
  - by rewrite Hs.
  - intros m Hm1 Hm2 Hm3. rewrite Hs by done. auto.
Qed.

Lemma half_sync_data d :
  half_written d -> let d1 := fsync (write_at d DF (page_number p * PAGE_SIZE) data) DF in
  half_written d1 /\ now (file d1 DF) = Some (overwrite (data_of d0 (relation_id p)) off data).
Proof.
  intros [H1 H2 (c & Ec & Hc) H4 H5] d1. pose proof data_fits as [Hf Hl]. destruct (near_overwrite _ _ _ _ data Hc Hl Hf) as [Hn Ho].
  assert (E : forall m, now (file d1 m) = if decide (m = DF) then Some (overwrite c off data) else now (file d m)).
  { intros m. subst d1. rewrite now_fsync, (now_write_at _ _ c), offset_nat by (done || unfold PAGE_SIZE; lia). done. }
  split; [split|].
  - by apply durable_write.
  - by rewrite E, decide_False.
  - exists (overwrite c off data). by rewrite E, decide_True.
  - by rewrite E, decide_False.
  - intros m Hm1 Hm2 Hm3. rewrite E, decide_False by done. auto.
  - by rewrite E, decide_True, Ho.
Qed.

Lemma half_crash_sums d d' : half_written d -> crash (write_at d CF (page_number p * 4) sum) d' -> half_written d'.
Proof.
  intros [H1 H2 H3 (c & Ec & Hc) H5] Hcr. pose proof sums_fit as [Hf Hl].
  destruct (crash_write _ _ c _ _ _ H1 Ec Hcr) as (Hd & Hs & c' & Ec' & Ht). rewrite offset_nat in Ht by lia. split.
  - done.
  - by rewrite Hs.
  - by rewrite Hs.
  - exists c'. split; [done|]. by eapply near_torn.
  - intros m Hm1 Hm2 Hm3. rewrite Hs by done. auto.
Qed.

Lemma half_sync_sums d :
  half_written d -> let d1 := fsync (write_at d CF (page_number p * 4) sum) CF in
  half_written d1 /\ now (file d1 CF) = Some (overwrite (sums_of d0 (relation_id p)) soff sum) /\ now (file d1 DF) = now (file d DF).
Proof.
  intros [H1 H2 H3 (c & Ec & Hc) H5] d1. pose proof sums_fit as [Hf Hl]. destruct (near_overwrite _ _ _ _ sum Hc Hl Hf) as [Hn Ho].
  assert (E : forall m, now (file d1 m) = if decide (m = CF) then Some (overwrite c soff sum) else now (file d m)).
  { intros m. subst d1. rewrite now_fsync, (now_write_at _ _ c), offset_nat by (done || lia). done. }
  split_and!; [split|..].
  - by apply durable_write.
  - by rewrite E, decide_False.
  - by rewrite E, decide_False.
  - exists (overwrite c soff sum). by rewrite E, decide_True.
  - intros m Hm1 Hm2 Hm3. rewrite E, decide_False by done. auto.
  - by rewrite E, decide_True, Ho.
  - by rewrite E, decide_False.
Qed.

(** With both in place only the journal is left. *)
Lemma half_cleared d d' :
  half_written d -> now (file d DF) = Some (overwrite (data_of d0 (relation_id p)) off data) ->
  now (file d CF) = Some (overwrite (sums_of d0 (relation_id p)) soff sum) -> durable d' ->
  now (file d' JournalFile) = None -> (forall m, m <> JournalFile -> now (file d' m) = now (file d m)) -> written d'.
Proof.
  intros [H1 H2 H3 H4 H5] Ed Es Hd Hj Hs. split; [done|]. intros m. case_decide as Hm; [subst; by rewrite Hs|].
  case_decide as Hm2; [destruct Hm2 as [_ ->]; by rewrite Hs|]. destruct (decide (m = JournalFile)) as [->|Hm3]; [congruence|].
  rewrite Hs by done. apply H5; [done|done|]. intros ->. by apply Hm2.
Qed.

Lemma half_trace d :
  half_written d ->
  let t := put_trace true d p data in let t' := clear_trace (last_disk d t) in
  written (last_disk d (t ++ t')) /\
  forall x d', x ∈ d :: t ++ t' -> crash x d' -> half_written d' \/ written d'.
Proof.
  intros Hh t t'. destruct (half_sync_data d Hh) as [Hh2 Ed]. set (d2 := fsync (write_at d DF _ data) DF) in *.
  destruct (half_sync_sums d2 Hh2) as (Hh4 & Es & Ed4). set (d4 := fsync (write_at d2 CF _ sum) CF) in *. rewrite Ed in Ed4.
  assert (Et : t = [write_at d DF (page_number p * PAGE_SIZE) data; d2; write_at d2 CF (page_number p * 4) sum; d4]).
  { subst t. unfold put_trace, sum_trace, created. destruct (hw_data _ Hh) as (c & -> & _). cbn [app last_disk last from_option].
    change (last_disk d []) with d. fold d2. destruct (hw_sums _ Hh2) as (k & -> & _). done. }
  assert (Hl : last_disk d t = d4) by (by rewrite Et). subst t'. rewrite last_disk_app, Hl.
  assert (Hdone : forall d', durable d' -> now (file d' JournalFile) = None -> (forall m, m <> JournalFile -> now (file d' m) = now (file d4 m)) -> written d').
  { intros d'. by apply half_cleared. }
  assert (H6 : written (last_disk d4 (clear_trace d4))).
  { apply Hdone; [apply durable_clear_trace, Hh4|by rewrite now_clear_trace|]. intros m Hm. by rewrite now_clear_trace, decide_False. }
  assert (Hrest : forall y d', half_written y -> crash y d' -> half_written d' \/ written d').
  { intros y d' Hy Hc. left. destruct (durable_crash _ _ (hw_durable _ Hy) Hc) as [H7 H8]. by eapply half_same. }
  split; [done|]. intros x d' Hx Hc. rewrite Et in Hx. unfold clear_trace in Hx. cbn [app] in Hx. rewrite !elem_of_cons, elem_of_nil in Hx.
  destruct Hx as [->|[->|[->|[->|[->|[->|[->|[]]]]]]]]; [by apply (Hrest d)|left; by apply (half_crash_data d)|by apply (Hrest d2)|
    left; by apply (half_crash_sums d2)|by apply (Hrest d4)| |].
  - destruct (crash_remove _ _ _ _ (hw_durable _ Hh4) (hw_journal _ Hh4) Hc) as (Hd & Hs & [Hj|Hj]); [right; by apply Hdone|left].
    apply (half_same d4); [done|done|]. intros m. destruct (decide (m = JournalFile)) as [->|Hm]; [|by apply Hs].
    rewrite Hj. by rewrite (hw_journal _ Hh4).
  - destruct H6 as [H7 H8]. destruct (durable_crash _ _ H7 Hc) as [H9 H10]. right. split; [done|]. intros m. by rewrite H10, H8.
Qed.

Lemma unwritten_half d : unwritten (Some (journal_record p data)) d -> half_written d.
Proof.
  intros (Hd & Hj & Hs). split; [done|done|..].
  - exists (data_of d0 (relation_id p)). rewrite Hs by done. split; [apply data_exists|apply near_refl].
  - exists (sums_of d0 (relation_id p)). rewrite Hs by done. split; [apply sums_exists|apply near_refl].
  - intros m Hm _ _. by apply Hs.
Qed.

Lemma unwritten_crash j d d' : unwritten j d -> crash d d' -> unwritten j d'.
Proof.
  intros (Hd & Hj & Hs) Hc. destruct (durable_crash _ _ Hd Hc) as [H1 H2]. split_and!; [done|by rewrite H2|]. intros m Hm. by rewrite H2, Hs.
Qed.

Lemma unwritten_dir j d : unwritten j d -> unwritten j (fsync_dir d).
Proof.
  intros (Hd & Hj & Hs). split_and!; [by apply durable_fsync_dir|by rewrite file_fsync_dir|]. intros m Hm. rewrite file_fsync_dir. by apply Hs.
Qed.

Lemma written_crash d d' : written d -> crash d d' -> written d'.
Proof. intros [Hd Hp] Hc. destruct (durable_crash _ _ Hd Hc) as [H1 H2]. split; [done|]. intros m. by rewrite H2, Hp. Qed.

Lemma written_dir d : written d -> written (fsync_dir d).
Proof. intros [Hd Hp]. split; [by apply durable_fsync_dir|]. intros m. by rewrite file_fsync_dir, now_settle, Hp. Qed.

Lemma half_dir d : half_written d -> half_written (fsync_dir d).
Proof. intros Hh. apply (half_same d); [done|apply durable_fsync_dir, Hh|]. intros m. by rewrite file_fsync_dir. Qed.

(** The crash left [b] as the journal and nothing else. *)
Lemma torn_reachable d b :
  unwritten (Some b) d -> journal_forged p data d = false -> reachable d.
Proof.
  intros Hu Hf. unfold journal_forged in Hf. rewrite (proj1 (proj2 Hu)) in Hf.
  destruct (decide (b = journal_record p data)) as [->|Hne].
  - right. right. left. by apply unwritten_half.
  - right. left. exists b. split; [done|]. intros Hl. rewrite Hl, Z.eqb_refl, bool_decide_false in Hf by done. exact Hf.
Qed.

(** *** Writing the journal *)

Lemma start_unwritten : unwritten None d0.
Proof. done. Qed.

(** Only the journal differs from [d0]. *)
Lemma crash_journal x d :
  (forall m, m <> JournalFile -> file x m = file d0 m) -> crash x d -> journal_forged p data d = false -> reachable d.
Proof.
  intros Hs Hc Hf.
  assert (Hu : unwritten (now (file d JournalFile)) d).
  { split_and!; [apply Hc|done|]. intros m Hm. rewrite (crash_file _ _ m Hc); rewrite Hs by done; [done|apply Hdur]. }
  destruct (now (file d JournalFile)) as [b|]; [by eapply torn_reachable|by left].
Qed.

Lemma journal_trace_crash x d :
  x ∈ take 3 (journal_trace d0 p data) -> crash x d -> journal_forged p data d = false -> reachable d.
Proof.
  intros Hx. unfold journal_trace in Hx. cbn [take] in Hx. rewrite !elem_of_cons, elem_of_nil in Hx.
  set (d1 := set_now d0 JournalFile (Some [])) in *.
  assert (E1 : forall m, m <> JournalFile -> file d1 m = file d0 m) by (intros m Hm; subst d1; by rewrite file_set_now, decide_False).
  assert (E2 : forall m, m <> JournalFile -> file (write_at d1 JournalFile 0 (journal_record p data)) m = file d0 m).
  { intros m Hm. rewrite (file_write_at _ _ []) by (subst d1; by rewrite now_set_now, decide_True). by rewrite decide_False, E1. }
  destruct Hx as [->|[->|[->|[]]]]; [by apply crash_journal..|]. apply crash_journal. intros m Hm. by rewrite file_fsync, decide_False, E2.
Qed.

Lemma write_trace_crash x d :
  x ∈ d0 :: write_trace true d0 p data -> crash x d -> journal_forged p data d = false -> reachable d.
Proof.
  intros Hx Hc Hf. cbn [write_trace] in Hx. set (d4 := last_disk d0 (journal_trace d0 p data)) in *.
  assert (Hh : half_written d4).
  { apply unwritten_half. subst d4. split_and!; [by apply durable_journal_trace|by rewrite now_journal_trace|].
    intros m Hm. by rewrite now_journal_trace, decide_False. }
  assert (Ej : journal_trace d0 p data = take 3 (journal_trace d0 p data) ++ [d4]) by done. rewrite Ej, <- app_assoc in Hx.
  apply elem_of_cons in Hx as [->|Hx]; [left; by eapply unwritten_crash|].
  apply elem_of_app in Hx as [Hx|Hx]; [by eapply journal_trace_crash|].
  right. right. by apply (proj2 (half_trace d4 Hh) x).
Qed.

(** *** Starting again *)

Lemma reachable_open d d' : reachable d -> crash_in_open max d d' -> reachable d'.
Proof.
  intros Hr (x & Hx & Hc). destruct Hr as [Hu|[(b & Hu & Hb)|[Hh|Hw]]].
  - rewrite (open_none max d Hmax) in Hx by apply Hu. cbn [snd] in Hx. rewrite !elem_of_cons, elem_of_nil in Hx.
    left. destruct Hx as [->|[->|[]]]; (eapply unwritten_crash; [|exact Hc]); [done|by apply unwritten_dir].
  - destruct (decide (b = [])) as [->|Hne].
    + rewrite (open_empty max d Hmax) in Hx by apply Hu. pose proof (unwritten_dir _ _ Hu) as Hu'. cbn [snd] in Hx.
      unfold clear_trace in Hx. rewrite !elem_of_cons, elem_of_nil in Hx. destruct Hx as [->|[->|[->|[->|[]]]]].
      * right. left. exists []. split; [exact (unwritten_crash _ _ _ Hu Hc)|done].
      * right. left. exists []. split; [exact (unwritten_crash _ _ _ Hu' Hc)|done].
      * destruct Hu' as (H1 & H2 & H3). destruct (crash_remove _ _ _ _ H1 H2 Hc) as (Hd & Hs & Hj).
        assert (Hm : forall m, m <> JournalFile -> now (file d' m) = now (file d0 m)) by (intros m Hm; by rewrite Hs, H3).
        destruct Hj as [Hj|Hj]; [by left|]. right. left. by exists [].
      * left. destruct Hu' as (H1 & H2 & H3). pose proof (durable_clear_trace _ H1) as H4. unfold clear_trace in H4.
        destruct (durable_crash _ _ H4 Hc) as [H5 H6]. change (last_disk _ [_; ?y]) with y in H6.
        split_and!; [done|..]; [rewrite H6, file_fsync_dir, now_settle, now_set_now; by rewrite decide_True|].
        intros m Hm. rewrite H6, file_fsync_dir, now_settle, now_set_now, decide_False by done. by apply H3.
    + rewrite (open_torn max d Hmax b) in Hx; [|apply Hu|done|done]. cbn [snd] in Hx.
      rewrite !elem_of_cons, elem_of_nil in Hx. right. left. exists b. split; [|done].
      destruct Hx as [->|[->|[]]]; (eapply unwritten_crash; [|exact Hc]); [done|by apply unwritten_dir].
  - rewrite (open_whole max d Hmax p data) in Hx; [|apply Hh|done|apply number_limit|done]. cbn [snd] in Hx.
    apply elem_of_cons in Hx as [->|Hx]; right; right.
    + apply (proj2 (half_trace d Hh) d); [by left|done].
    + by apply (proj2 (half_trace _ (half_dir d Hh)) x).
  - assert (Hj : now (file d JournalFile) = None) by (destruct Hw as [_ Hp]; by rewrite Hp, !decide_False by (done || by intros [_ ?])).
    rewrite (open_none max d Hmax Hj) in Hx. cbn [snd] in Hx. rewrite !elem_of_cons, elem_of_nil in Hx. right. right. right.
    destruct Hx as [->|[->|[]]]; (eapply written_crash; [|exact Hc]); [done|by apply written_dir].
Qed.

Lemma written_wf d : written d -> file_wf (st true d (new_cache max)) /\ forall q, page_on d q = if decide (q = p) then Some data else page_on d0 q.
Proof.
  intros [Hd Hp]. pose proof number_limit. split; [split; cbn; try done|].
  - by apply new_cache_ok.
  - by rewrite Hp, !decide_False by (done || by intros [_ ?]).
  - intros rel. eapply put_rel_ok; try done; lia.
  - intros q. eapply (put_page_on true); try done; lia.
Qed.

Lemma unwritten_wf d : unwritten None d -> file_wf (st true d (new_cache max)) /\ forall q, page_on d q = page_on d0 q.
Proof.
  intros (Hd & Hj & Hs).
  assert (E : forall m, now (file d m) = now (file d0 m)) by (intros m; destruct (decide (m = JournalFile)) as [->|]; [congruence|auto]).
  split; [split; cbn; try done; [by apply new_cache_ok|intros rel; by apply (same_now_rel_ok _ d0)]|].
  intros q. by apply same_now_page_on.
Qed.

Lemma reachable_result d :
  reachable d ->
  match fst (with_max_open_files max d) with
  | Ok s' => file_wf s' /\ ((forall q, page_on (disk s') q = page_on d0 q) \/
                            (forall q, page_on (disk s') q = if decide (q = p) then Some data else page_on d0 q))
  | Err e => e = InvalidData /\ forall q, page_on d q = page_on d0 q
  end.
Proof.
  intros [Hu|[(b & Hu & Hb)|[Hh|Hw]]].
  - rewrite (open_none max d Hmax) by apply Hu. cbn [fst disk]. destruct (unwritten_wf _ (unwritten_dir _ _ Hu)) as [H1 H2]. auto.
  - destruct (decide (b = [])) as [->|Hne].
    + rewrite (open_empty max d Hmax) by apply Hu. cbn [fst disk]. destruct (unwritten_dir _ _ Hu) as (H1 & H2 & H3).
      destruct (unwritten_wf (last_disk (fsync_dir d) (clear_trace (fsync_dir d)))) as [H4 H5]; [|by auto].
      split_and!; [by apply durable_clear_trace|by rewrite now_clear_trace|]. intros m Hm. rewrite now_clear_trace, decide_False by done. auto.
    + rewrite (open_torn max d Hmax b); [|apply Hu|done|done]. cbn [fst]. split; [done|].
      intros q. unfold page_on, rel_pages, data_of. by rewrite (proj2 (proj2 Hu)).
  - rewrite (open_whole max d Hmax p data); [|apply Hh|done|apply number_limit|done]. cbn [fst disk].
    destruct (written_wf _ (proj1 (half_trace _ (half_dir d Hh)))) as [H1 H2]. auto.
  - assert (Hj : now (file d JournalFile) = None) by (destruct Hw as [_ Hp]; by rewrite Hp, !decide_False by (done || by intros [_ ?])).
    rewrite (open_none max d Hmax Hj). cbn [fst disk]. destruct (written_wf _ (written_dir d Hw)) as [H1 H2]. auto.
Qed.

End Atomic.

(** ** Page writes are atomic *)


(** ** A store at rest *)

(** A syncing store finds its pages after a crash. *)
Lemma open_after_crash (s : FilePageStore) max d :
  file_wf s -> durable (disk s) -> 0 < max -> crash (disk s) d ->
  exists s', fst (with_max_open_files max d) = Ok s' /\ sync_each_write s' = true /\ cache s' = new_cache max /\
    fail_dir_sync s' = false /\ fail_write_sync s' = false /\
    durable (disk s') /\ forall m, now (file (disk s') m) = now (file (disk s) m).
Proof.
  intros Hw Hd Hm Hc. destruct (durable_crash _ _ Hd Hc) as [H1 H2].
  exists (st true (fsync_dir d) (new_cache max)). rewrite (open_none max d Hm) by (rewrite H2; apply Hw). split_and!; try done; cbn [disk].
  - by apply durable_fsync_dir.
  - intros m. by rewrite file_fsync_dir, now_settle.
Qed.

(** ** Bulk loading *)

(** Writes to a store that does not sync them, to the relations of [R]. *)
Inductive bulk_step (R : gset Z) (s : FilePageStore) : FilePageStore -> Prop :=
| bulk_read p : relation_id p ∈ R -> bulk_step R s (snd (io_run (file_read_page p) s))
| bulk_write p data :
    relation_id p ∈ R -> 0 <= page_number p < rel_pages (disk s) (relation_id p) -> is_page data ->
    bulk_step R s (snd (io_run (file_write_page p data) s))
| bulk_allocate rel :
    rel ∈ R -> rel_pages (disk s) rel < FILE_PAGES -> bulk_step R s (snd (io_run (file_allocate_page rel) s))
| bulk_reset rel : rel ∈ R -> bulk_step R s (snd (io_run (file_reset_relation rel) s)).

(** Every file with unsynced writes has an open handle. *)
Definition pending (s : FilePageStore) : Prop :=
  forall m, older (file (disk s) m) <> [] -> exists r, r ∈ files (cache s) /\ m = DataFile r.

Record bulk_ok (R : gset Z) (s : FilePageStore) : Prop := {
  bo_wf : file_wf s;
  bo_mode : sync_each_write s = false;
  bo_rels : files (cache s) ⊆ R;
  bo_room : Z.of_nat (size R) <= max_open_files (cache s);
  bo_pending : pending s }.

Lemma this_file_nil vs : vs = [] -> this_file vs = [].
Proof. by intros ->. Qed.

Lemma older_fsync_dir d m : older (file (fsync_dir d) m) <> [] -> older (file d m) <> [].
Proof. rewrite file_fsync_dir. cbn. intros H E. apply H. rewrite E. by destruct (now _). Qed.

Lemma older_created d n m : older (file (last_disk d (created d n)) m) <> [] -> older (file d m) <> [].
Proof.
  unfold created. destruct (now (file d n)) eqn:E; [done|]. change (last_disk d [_; ?x]) with x.
  rewrite file_fsync_dir. cbn [settle older now]. rewrite file_set_now. case_decide as Hm; [by rewrite E|].
  intros H E'. apply H. rewrite E'. by destruct (now (file d m)).
Qed.

Lemma older_put d p data m :
  older (file (last_disk d (put_trace false d p data)) m) <> [] -> m = DataFile (relation_id p) \/ older (file d m) <> [].
Proof.
  unfold put_trace. rewrite last_disk_snoc. destruct (decide (m = DataFile (relation_id p))) as [->|Hm]; [by left|].
  unfold write_at. destruct (now (file _ _)); [rewrite file_set_now, decide_False by done|]; intros H; right; by eapply older_created.
Qed.

Lemma older_removed_set d n m : m <> n -> older (file (last_disk d (removed d n)) m) = older (file d m).
Proof. intros Hm. unfold removed. destruct (now (file d n)); [|done]. change (last_disk d [?x]) with x. by rewrite file_set_now, decide_False. Qed.

Lemma older_reset d rel m :
  older (file (last_disk d (reset_trace d rel)) m) <> [] -> m <> DataFile rel /\ older (file d m) <> [].
Proof.
  intros H. pose proof (now_reset_trace d rel m) as Hn. unfold reset_trace in *. rewrite app_assoc, last_disk_snoc in *.
  revert H. rewrite file_fsync_dir in *. rewrite now_settle in Hn. cbn [settle older]. rewrite Hn. case_decide as Hm; [done|].
  assert (m <> DataFile rel /\ m <> ChecksumFile rel) as [Hm1 Hm2] by (split; intros ->; apply Hm; auto).
  rewrite !older_removed_set by done. intros H. split; [done|]. intros E. apply H. rewrite E. by destruct (now (file d m)).
Qed.

Lemma cache_next_bulk R c c' rel :
  cache_next c c' rel -> rel ∈ R -> files c ⊆ R -> Z.of_nat (size R) <= max_open_files c ->
  files c' = files c ∪ {[rel]} /\ files c' ⊆ R /\ max_open_files c' = max_open_files c.
Proof.
  intros (H1 & H2 & H3 & H4) Hr Hc Hs. assert (Hsz : Z.of_nat (size (files c ∪ {[rel]})) <= max_open_files c).
  { pose proof (subseteq_size (files c ∪ {[rel]}) R ltac:(set_solver)). lia. }
  rewrite (H4 Hsz). split_and!; [done|set_solver|done].
Qed.

(** The store after an operation whose handle is [rel] and that wrote at most its file. *)
Lemma bulk_next R s d' c' rel :
  bulk_ok R s -> rel ∈ R -> file_wf (st false d' c') -> cache_next (cache s) c' rel ->
  (forall m, older (file d' m) <> [] -> m = DataFile rel \/ older (file (disk s) m) <> []) -> bulk_ok R (st false d' c').
Proof.
  intros [H1 H2 H3 H4 H5] Hr Hw Hn Ho. destruct (cache_next_bulk R _ _ rel Hn Hr H3 H4) as (E & Hsub & Hmax).
  split; cbn [cache disk sync_each_write]; [done|done|done|lia|]. intros m Hm. cbn [cache disk] in *. rewrite E.
  apply Ho in Hm as [->|Hm]; [exists rel; split; [set_solver|done]|]. destruct (H5 m Hm) as (r & Hr' & ->). exists r. split; [set_solver|done].
Qed.

Lemma bulk_step_ok R s s' : bulk_ok R s -> bulk_step R s s' -> bulk_ok R s'.
Proof.
  intros Hb Hstep. pose proof Hb as [Hw Hm Hf Hr Hp]. destruct Hstep as [p HR|p data HR Hn Hd|rel HR Hn|rel HR]; unfold io_run.
  - destruct (read_wf s p Hw) as (r & c' & E & Hw' & Hc & _). rewrite E. cbn [fst snd]. rewrite Hm in *.
    destruct Hc as [->|Hc]; [by split|]. eapply bulk_next; eauto.
  - destruct (write_wf s p data Hw Hn Hd) as (c' & E & Hw' & _ & _ & Hc). rewrite E. cbn [fst snd]. rewrite Hm in *.
    eapply bulk_next; eauto. intros m. apply older_put.
  - destruct (allocate_wf s rel Hw Hn) as (c' & E & Hw' & _ & _ & Hc). rewrite E. cbn [fst snd]. rewrite Hm in *.
    eapply bulk_next; eauto. intros m Ho. by apply (older_put _ (mkPageId rel (rel_pages (disk s) rel))) in Ho.
  - destruct (reset_wf s rel Hw) as [E Hw']. rewrite E. cbn [fst snd]. rewrite Hm in *. split; cbn [cache disk sync_each_write]; try done.
    + cbn. set_solver.
    + intros m Ho. cbn [cache disk] in *. apply older_reset in Ho as [Hne Ho]. destruct (Hp m Ho) as (r & Hin & ->).
      exists r. split; [|done]. cbn. apply elem_of_difference. split; [done|]. intros Hx. apply elem_of_singleton in Hx as ->. done.
Qed.

Lemma this_before vs : this_file (before_file vs) = [].
Proof. by induction vs as [|[]]. Qed.

Lemma bulk_sync_step R s :
  bulk_ok R s -> exists s' t, file_sync s = (Ok tt, s', t) /\ file_wf s' /\ durable (disk s') /\
    forall m, now (file (disk s') m) = now (file (disk s) m).
Proof.
  intros [Hw Hm Hf Hr Hp]. destruct (sync_wf s Hw) as (t & E & Hw' & Hn & Ho). eexists _, t. split_and!; [exact E|done| |done].
  intros m. rewrite Ho. destruct (now (file (disk s) m)); [|done]. case_decide as Hin; [apply this_before|]. apply this_file_nil.
  destruct (older (file (disk s) m)) eqn:Eo; [done|]. destruct (Hp m) as (r & Hr' & ->); [congruence|]. destruct Hin.
  by apply list_elem_of_fmap_2, elem_of_elements.
Qed.

(** [C25] Bulk loading is durable after the final sync, if the handles fit the cache.  Take a
    store that does not sync its writes and any reads, writes, allocations and resets of
    relations that are no more than [max_open_files]: after [sync] a crash loses nothing,
    and the store opened again has the same pages. *)
Theorem bulk_sync_durable (s s1 : FilePageStore) R max d :
  file_wf s -> sync_each_write s = false -> durable (disk s) -> files (cache s) ⊆ R ->
  Z.of_nat (size R) <= max_open_files (cache s) -> rtc (bulk_step R) s s1 -> 0 < max ->
  exists s2 t, file_sync s1 = (Ok tt, s2, t) /\ durable (disk s2) /\
    (crash (disk s2) d ->
     exists s', fst (with_max_open_files_bulk max d) = Ok s' /\ file_wf s' /\ forall q, page_on (disk s') q = page_on (disk s1) q).
Proof.
  intros Hw Hm Hd Hf Hsz Hr Hmax. assert (Hb : bulk_ok R s) by (split; try done; intros m Ho; by destruct Ho).
  assert (Hb1 : bulk_ok R s1) by (clear -Hb Hr; induction Hr; eauto using bulk_step_ok).
  destruct (bulk_sync_step R s1 Hb1) as (s2 & t & E & Hw2 & Hd2 & Hn2). exists s2, t. split_and!; [done..|]. intros Hc.
  destruct (open_after_crash s2 max d Hw2 Hd2 Hmax Hc) as (s' & Eo & Hm' & Hc' & Hf1 & Hf2 & Hd' & Hn').
  exists (st false (disk s') (cache s')). unfold with_max_open_files_bulk. destruct (with_max_open_files max d) as [[s0|e] t0]; cbn [fst] in Eo; [|done].
  injection Eo as ->. split_and!.
  - cbn [fst]. by rewrite Hf1, Hf2.
  - rewrite Hc'. assert (Hsame : forall m, now (file (disk s') m) = now (file (disk s1) m)) by (intros m; by rewrite Hn').
    split; cbn [cache disk sync_each_write]; try done; [by apply new_cache_ok|rewrite Hsame; apply Hb1|].
    intros rel. apply (same_now_rel_ok _ (disk s1)); [done|]. rewrite <- (bo_mode _ _ Hb1). apply (bo_wf _ _ Hb1).
  - intros q. apply same_now_page_on. intros m. cbn. by rewrite Hn'.
Qed.

(** ** Instances *)

Definition empty_store (sync : bool) (max : Z) : FilePageStore := st sync ∅ (new_cache max).

Lemma empty_store_wf sync max : 0 < max -> file_wf (empty_store sync max).
Proof.
  intros Hm. assert (E : forall n, file ∅ n = mkFile None []) by (intros n; unfold file; by rewrite lookup_empty).
  split; cbn [cache disk sync_each_write empty_store]; try done.
  - by apply new_cache_ok.
  - intros rel. assert (rel_pages ∅ rel = 0) as Hp by done. split; rewrite ?Hp; [done|by unfold FILE_PAGES|by apply Forall_nil|by destruct sync|lia].
Qed.

(** A store with one page, in relation 0. *)
Definition one_page : FilePageStore := snd (io_run (file_allocate_page 0) (empty_store true 2)).

Lemma one_page_wf : file_wf one_page /\ sync_each_write one_page = true /\ rel_pages (disk one_page) 0 = 1.
Proof.
  destruct (allocate_wf (empty_store true 2) 0 (empty_store_wf true 2 ltac:(lia))) as (c' & E & Hw & _ & Hp & _); [done|].
  unfold one_page, io_run. rewrite E. cbn [fst snd]. split_and!; [done|done|]. rewrite Hp. by rewrite decide_True.
Qed.

Definition with_file (d : Disk) (n : FileName) (c : option (list Z)) : Disk := <[n := mkFile c []]> d.

Lemma file_with_file d n c m : file (with_file d n c) m = if decide (m = n) then mkFile c [] else file d m.
Proof. unfold file, with_file. rewrite lookup_insert. by repeat case_decide; subst. Qed.

Lemma crash_state_now x vs : crash_state (x :: vs) x.
Proof.
  destruct x as [c|]; [|apply crash_absent; set_solver]. apply (crash_torn _ [] [c] vs); [done|].
  split_and!; [exists c; split; [set_solver|done]..|]. intros i y Hy. exists c. split; [set_solver|]. by rewrite Hy.
Qed.

(** Page 0 is written with sevens, and the store stops when the journal is whole and the
    page is not yet synced; the crash leaves its first hundred bytes. *)
Definition sevens : list Z := replicate 8192 7.

Definition mid_write : Disk :=
  default ∅ (snd (file_write_page (mkPageId 0 0) sevens one_page) !! 4%nat).

Definition torn_page : list Z := replicate 100 7 ++ replicate 8092 0.

Definition crashed : Disk :=
  with_file ((fun f => mkFile (now f) []) <$> mid_write) (DataFile 0) (Some torn_page).

Lemma mid_write_in : mid_write ∈ snd (file_write_page (mkPageId 0 0) sevens one_page).
Proof.
  apply (list_elem_of_lookup_2 _ 4). unfold mid_write.
  assert (E : bool_decide (is_Some (snd (file_write_page (mkPageId 0 0) sevens one_page) !! 4%nat)) = true) by by vm_compute.
  apply bool_decide_eq_true in E as [x ->]. done.
Qed.

Lemma mid_write_page : file mid_write (DataFile 0) = mkFile (Some sevens) [Some zeroed].
Proof. by vm_compute. Qed.

Lemma crashed_crash : crash mid_write crashed.
Proof.
  assert (E : forall n, file crashed n = if decide (n = DataFile 0) then mkFile (Some torn_page) [] else mkFile (now (file mid_write n)) []).
  { intros n. unfold crashed. rewrite file_with_file. case_decide; [done|]. unfold file. rewrite lookup_fmap. by destruct (mid_write !! n). }
  split; intros n; rewrite E; [by case_decide|]. case_decide as Hn; [subst n|apply crash_state_now].
  rewrite mid_write_page. cbn [now older]. apply (crash_torn _ [] [sevens; zeroed] []); [done|].
  split_and!; [exists sevens; split; [set_solver|done]..|]. intros i x [Hx|[_ Hx]]%lookup_app_Some; apply lookup_replicate in Hx as [-> Hi].
  - exists sevens. split; [set_solver|]. unfold sevens. rewrite lookup_replicate_2; [done|].
    eapply Nat.lt_le_trans; [exact Hi|]. by apply Nat.leb_le; vm_compute.
  - exists zeroed. split; [set_solver|]. by destruct (zeroed !! i) as [z|] eqn:Ez; [apply lookup_replicate in Ez as [-> _]|].
Qed.

Lemma crash_refl d : durable d -> crash d d.
Proof.
  intros Hd. split; [done|]. intros n. rewrite Hd. destruct (now (file d n)) as [c|]; [|apply crash_absent; set_solver].
  apply (crash_torn _ [] [c] []); [done|]. split_and!; [exists c; split; [set_solver|done]..|]. intros i x Hx.
  exists c. split; [set_solver|]. by rewrite Hx.
Qed.


Lemma bulk_sync_durable_witness :
  let s1 := snd (io_run (file_allocate_page 7) (empty_store false 1)) in
  exists s2 t s', file_sync s1 = (Ok tt, s2, t) /\ durable (disk s2) /\
    fst (with_max_open_files_bulk 1 (disk s2)) = Ok s' /\ file_wf s' /\ forall q, page_on (disk s') q = page_on (disk s1) q.
Proof.
  intros s1. destruct (bulk_sync_durable (empty_store false 1) s1 {[7]} 1 (disk (snd (io_run file_sync s1)))) as (s2 & t & E & Hd & Hc).
  - apply empty_store_wf. lia.
  - done.
  - intros n. unfold file. cbn. by rewrite lookup_empty.
  - set_solver.
  - cbn. rewrite size_singleton. lia.
  - apply rtc_once. apply bulk_allocate; [set_solver|done].
  - lia.
  - unfold io_run in Hc. rewrite E in Hc. destruct (Hc (crash_refl _ Hd)) as (s' & Es & Hw & Hq). by exists s2, t, s'.
Defined.
