(* ===== verification/FileTree.v ===== *)
(** * A B+tree in files

    The three layers together: a disk B+tree on the buffer pool on the file-backed page
    store that syncs each write.  A tree that was flushed is found again after the machine
    crashed, whatever the pool had cached. *)

From S2P Require Import Prelude.
From S2P Require Import Bytes.
From S2P Require Import PageBytes.
From S2P Require Import PoolPage.
From S2P Require Import ClockSweep.
From S2P Require Import BufferPool.
From S2P Require Import PoolRefinement.
From S2P Require Import BTreePage.
From S2P Require Import PageProg.
From S2P Require Import DiskBTree.
From S2P Require Import BTreeState.
From S2P Require Import BTreeSpec.
From S2P Require Import PoolProg.
From S2P Require Import BTreePool.
From S2P Require Import Checksum.
From S2P Require Import Disk.
From S2P Require Import FileStore.
From S2P Require Import FileCrash.

#[local] Instance file_pages : PageLimit := store_pages FilePageStore.

(** A store with the same files has the same pages. *)
Lemma stored_same rel (st0 st1 : FilePageStore) s :
  stored rel st0 s -> store_wf st1 -> (forall m, now (file (disk st1) m) = now (file (disk st0) m)) -> stored rel st1 s.
Proof.
  intros [Hw Hn Hdom Hp Ha] Hw1 E. split; [done| |done| |done].
  - rewrite Hn. cbn. unfold rel_pages, data_of. by rewrite E.
  - intros n d Hd. rewrite <- (Hp n d Hd). by apply same_now_page_on.
Qed.

Lemma reopened_wf (st0 st1 : FilePageStore) max :
  file_wf st0 -> sync_each_write st0 = true -> 0 < max ->
  sync_each_write st1 = true -> cache st1 = new_cache max -> fail_dir_sync st1 = false -> fail_write_sync st1 = false ->
  durable (disk st1) -> (forall m, now (file (disk st1) m) = now (file (disk st0) m)) -> file_wf st1.
Proof.
  intros Hw Hs Hm Hs1 Hc H1 H2 Hd E. pose proof Hw as [G1 G2 G3 G4 G5 G6]. split; try done.
  - rewrite Hc. by apply new_cache_ok.
  - by rewrite E.
  - intros rel. rewrite Hs1. apply (same_now_rel_ok _ (disk st0)); [done|]. by rewrite <- Hs.
Qed.

(** [C10] A B+tree on a syncing file store survives a crash once it is flushed.  The store syncs
    every write ([sync_each_write]), its files are in order and the relation has no pages;
    the pool has two frames or more, the page numbers suffice for the operations
    ([room_for]) and the fuel for their number.  Open the tree, run operations, flush, and
    let the machine crash, losing the pool and everything in the directory that is not
    synced.  The store opens again, the tree opens on it through a new pool, and all the
    operations before and after the crash together give the results of the same operations
    on one map.  Nothing of this is claimed for the store that does not sync its writes,
    on which the engine runs its indexes: there [bulk_sync_durable] says what the final
    sync makes durable, and [evicted_file_not_synced] what it loses. *)
Theorem flushed_tree_survives_crash rel cfg fuel cap cap' max (st : FilePageStore) b ops ops' :
  config_ok cfg -> file_wf st -> sync_each_write st = true -> rel_pages (disk st) rel = 0 ->
  2 <= cap -> 2 <= cap' -> 0 < max -> new_pool cap st = Some b ->
  Forall op_ok ops -> Forall op_ok ops' -> room_for (Z.of_nat (length ops + length ops')) -> (length ops + length ops' <= fuel)%nat ->
  exists b1 rs b2 b3,
    pool_run rel open_or_create b = Some (Ok tt, b1) /\ pool_ops cfg fuel rel ops b1 = Some (rs, b2) /\
    pool_run rel flush b2 = Some (Ok tt, b3) /\
    forall d, crash (disk (store b3)) d ->
      exists st' b4 b5 rs' b6 M,
        fst (with_max_open_files max d) = Ok st' /\ new_pool cap' st' = Some b4 /\
        pool_run rel open_or_create b4 = Some (Ok tt, b5) /\ pool_ops cfg fuel rel ops' b5 = Some (rs', b6) /\
        explained ∅ (ops ++ ops') (rs ++ rs') M.
Proof.
  intros Hcfg Hw Hs Hn Hc Hc' Hm Hb Hops Hops' Hlen Hfu.
  destruct (flushed_tree rel cfg fuel cap st b ops) as (b1 & rs & b2 & b3 & s & M & Ho & Hr & Hfl & Hex & Hst & Hh);
    [done..|eapply room_for_le; [exact Hlen|lia]|lia|].
  exists b1, rs, b2, b3. split_and!; [done..|]. intros d Hcr. destruct (st_wf _ _ _ Hst) as [Hw3 Hs3].
  destruct (open_after_crash (store b3) max d Hw3) as (st' & Eo & Hs' & Hc1 & Hf1 & Hf2 & Hd' & Hn'); [by apply Hw3|done|done|].
  pose proof (reopened_wf _ st' max Hw3 Hs3 Hm Hs' Hc1 Hf1 Hf2 Hd' Hn') as Hw'.
  pose proof (stored_same rel _ st' s Hst (conj Hw' Hs') Hn') as Hst'.
  destruct (stored_tree_continues rel cfg fuel cap' st' s _ M ops' Hcfg Hst' Hh Hc') as (b4 & b5 & rs' & b6 & M' & Hb4 & Ho' & Hr' & Hex');
    [lia|done|by rewrite <- Nat2Z.inj_add|lia|].
  exists st', b4, b5, rs', b6, M'. split_and!; try done. by eapply explained_app.
Qed.

(** A pool of two frames over an empty directory. *)
Definition small_file_pool : BufferPool FilePageStore :=
  mkPool (replicate 2 (new_page_frame (mkPageId 0 0))) ∅ [0; 1] (ClockSweep.new 2) (empty_store true 1) 0 ∅.

Lemma flushed_tree_survives_crash_witness :
  exists b1 rs b2 b3,
    pool_run 5 open_or_create small_file_pool = Some (Ok tt, b1) /\ pool_ops default_config 2 5 [OpInsert 1 10] b1 = Some (rs, b2) /\
    pool_run 5 flush b2 = Some (Ok tt, b3) /\
    forall d, crash (disk (store b3)) d ->
      exists st' b4 b5 rs' b6 M,
        fst (with_max_open_files 1 d) = Ok st' /\ new_pool 2 st' = Some b4 /\
        pool_run 5 open_or_create b4 = Some (Ok tt, b5) /\ pool_ops default_config 2 5 [OpGet 1] b5 = Some (rs', b6) /\
        explained ∅ ([OpInsert 1 10] ++ [OpGet 1]) (rs ++ rs') M.
Proof.
  apply (flushed_tree_survives_crash 5 default_config 2 2 2 1 (empty_store true 1) small_file_pool).
  - split; by vm_compute.
  - apply empty_store_wf. lia.
  - done.
  - done.
  - lia.
  - lia.
  - lia.
  - done.
  - repeat constructor; by vm_compute.
  - repeat constructor.
  - by vm_compute.
  - cbn. lia.
Defined.
