(* ===== verification/FileExample.v ===== *)
(** * Where the file store loses pages or refuses to open

    Behaviours of [crates/aiondb-buffer-pool/src/disk.rs] that its callers have to know:
    a journal that a crash cut short blocks every later start; a bulk store whose handle
    cache is too small leaves files unsynced; and a bulk-loaded directory that is then
    written by a syncing store becomes unreadable. *)

From S2P Require Import Prelude.
From S2P Require Import Bytes.
From S2P Require Import PageBytes.
From S2P Require Import PoolPage.
From S2P Require Import BufferPool.
From S2P Require Import Checksum.
From S2P Require Import Disk.
From S2P Require Import FileStore.
From S2P Require Import FileCrash.

(** ** A journal cut short *)

(** Opening fails, and so does every later try. *)
Lemma fragment_persists max d d' b :
  0 < max -> durable d -> now (file d JournalFile) = Some b -> b <> [] -> Z.of_nat (length b) <> FPW_JOURNAL_RECORD_BYTES ->
  rtc (crash_in_open max) d d' -> fst (with_max_open_files max d') = Err InvalidData.
Proof.
  intros Hm Hd Hj Hb Hl Hr. induction Hr as [d|d d1 d2 (x & Hx & Hc) _ IH].
  - by rewrite (open_torn max d Hm b).
  - rewrite (open_torn max d Hm b) in Hx by done. cbn [snd] in Hx. rewrite !elem_of_cons, elem_of_nil in Hx.
    assert (Hx' : durable x /\ forall m, now (file x m) = now (file d m)).
    { destruct Hx as [->|[->|[]]]; [done|]. split; [by apply durable_fsync_dir|]. intros m. by rewrite file_fsync_dir. }
    destruct Hx' as [Hdx Hnx]. destruct (durable_crash _ _ Hdx Hc) as [H1 H2]. apply IH; [done|]. by rewrite H2, Hnx.
Qed.

Lemma record_head p data : exists r, journal_record p data = 65 :: r.
Proof. eexists. reflexivity. Qed.

(** A crash while [write_page] writes its journal record can leave a part of it, and then the
    store does not open again: every start fails with [InvalidData], although no page had
    been touched and the fragment could be dropped. *)
Theorem torn_journal_blocks (s : FilePageStore) p data :
  file_wf s -> sync_each_write s = true -> 0 <= page_number p < FILE_PAGES -> is_page data ->
  exists x d, x ∈ snd (file_write_page p data s) /\ crash x d /\ (forall q, page_on d q = page_on (disk s) q) /\
    forall max d', 0 < max -> rtc (crash_in_open max) d d' -> fst (with_max_open_files max d') = Err InvalidData.
Proof.
  intros Hw Hs Hn Hd. destruct (run_write true (disk s) (cache s) p data (fw_cache _ Hw) Hn) as (c' & E & _).
  pose proof (fw_durable _ Hw Hs) as Hdur. pose proof (fw_journal _ Hw) as Hj.
  set (j1 := set_now (disk s) JournalFile (Some [])). set (j2 := write_at j1 JournalFile 0 (journal_record p data)).
  exists j2, (with_file (disk s) JournalFile (Some [65])). split_and!.
  - rewrite (wf_st s Hw), Hs, E. cbn [snd write_trace]. apply elem_of_app. left. unfold journal_trace. by do 2 constructor.
  - assert (E1 : now (file j1 JournalFile) = Some []) by (subst j1; by rewrite now_set_now, decide_True).
    split; [intros m; rewrite file_with_file; by case_decide|]. intros m. rewrite file_with_file. subst j2. rewrite (file_write_at _ _ []) by done.
    case_decide; [|subst j1; rewrite file_set_now, decide_False by done; apply crash_state_now]. cbn [now older].
    apply (crash_torn _ [] [journal_record p data; []] [None]); [subst j1; rewrite file_set_now, decide_True by done; cbn [older now app fmap list_fmap]|].
    + rewrite Hj, Hdur. cbn [app]. repeat f_equal. unfold overwrite. cbn. by rewrite drop_nil, app_nil_r.
    + destruct (record_head p data) as [r ->]. apply (torn_front [65]).
  - intros q. unfold page_on, rel_pages, data_of. by rewrite file_with_file, (decide_False (P := DataFile _ = JournalFile)).
  - intros max d' Hm. apply (fragment_persists max _ d' [65] Hm); [..|done|done].
    + intros m. rewrite file_with_file. by case_decide.
    + by rewrite file_with_file, decide_True.
Qed.

(** ** Evicted handles *)

(** Two relations and room for one handle. *)
Definition bulk_two : FilePageStore :=
  let s1 := snd (io_run (file_allocate_page 1) (empty_store false 1)) in
  let s2 := snd (io_run (file_allocate_page 2) s1) in
  snd (io_run file_sync s2).

Definition bulk_two_lost : Disk :=
  with_file (with_file ∅ (DataFile 2) (Some zeroed)) (DataFile 1) (Some []).

(** The final sync of a bulk store does not reach a file whose handle was evicted: the page
    is there, and a crash after the sync loses it. *)
Theorem evicted_file_not_synced :
  page_on (disk bulk_two) (mkPageId 1 0) = Some zeroed /\
  crash (disk bulk_two) bulk_two_lost /\ page_on bulk_two_lost (mkPageId 1 0) = None.
Proof.
  assert (E : forall n, file (disk bulk_two) n =
    if decide (n = DataFile 1) then mkFile (Some zeroed) [Some []] else if decide (n = DataFile 2) then mkFile (Some zeroed) [] else mkFile None []).
  { intros n. assert (Ed : disk bulk_two = <[DataFile 1 := mkFile (Some zeroed) [Some []]]> (<[DataFile 2 := mkFile (Some zeroed) []]> ∅)) by (by vm_compute).
    rewrite Ed. unfold file. rewrite !lookup_insert. repeat case_decide; subst; reflexivity || congruence. }
  assert (E' : forall n, file bulk_two_lost n =
    if decide (n = DataFile 1) then mkFile (Some []) [] else if decide (n = DataFile 2) then mkFile (Some zeroed) [] else mkFile None []).
  { intros n. unfold bulk_two_lost. rewrite !file_with_file. repeat case_decide; subst; done. }
  split_and!; [by vm_compute|split|by vm_compute].
  - intros n. rewrite E'. by repeat case_decide.
  - intros n. rewrite E, E'. repeat case_decide; [|apply crash_state_now..]. cbn [now older].
    apply (crash_torn _ [] [zeroed; []] []); [done|]. exact (torn_front [] zeroed).
Qed.

(** ** Checksums that were never written *)

(** Two pages loaded in bulk, found again by a store that syncs, and the second written. *)
Definition bulk_loaded : FilePageStore :=
  let s1 := snd (io_run (file_allocate_page 3) (empty_store false 1)) in
  let s2 := snd (io_run (file_allocate_page 3) s1) in
  snd (io_run file_sync s2).

Definition reopened : FilePageStore :=
  match fst (with_max_open_files 1 (disk bulk_loaded)) with Ok s => s | Err _ => empty_store true 1 end.

Definition rewritten : Result IoError unit * FilePageStore := io_run (file_write_page (mkPageId 3 1) zeroed) reopened.

(** Writing one page of a bulk-loaded file makes a checksum file whose entries for the pages
    before it are zero: those pages were readable and no longer are. *)
Theorem bulk_pages_unreadable :
  fst (io_run (file_read_page (mkPageId 3 0)) reopened) = Ok zeroed /\
  fst rewritten = Ok tt /\
  fst (io_run (file_read_page (mkPageId 3 0)) (snd rewritten)) = Err InvalidData.
Proof. by vm_compute. Qed.
