(* ===== verification/BinaryIo.v ===== *)
(** * Binary reader and writer ([crates/aiondb-wal/src/codec/binary_io.rs])

    A [BinaryWriter] is the bytes written so far, a [BinaryReader] a byte string and a
    position.  Writing functions have type [Put], reading functions [Get], which is a
    state and error monad; a caller that sees an error drops the writer or reader, so
    the state is only returned on success.  A reader that indexes outside its data panics:
    that is the outcome [None] of a [Get], apart from the errors it returns.  Strings are
    their UTF-8 bytes, [usize] is 64 bits wide, floating-point numbers are their bit
    patterns.

    Two judgements carry the proofs about the codec.  [serial p g a]: the output of [p]
    is read back by [g] as [a], wherever it stands.  [yields g P]: on any bytes [g] does
    not panic, and what it reads satisfies [P]. *)

From S2P Require Import Prelude.
From S2P Require Import Bytes.

Definition usize_max : Z := u64_max.

Definition len {A} (l : list A) : Z := Z.of_nat (length l).

(** ** Writer *)

Record BinaryWriter : Type := mkWriter { buf : list Z }.

Definition Put : Type := BinaryWriter -> DbResult BinaryWriter.

(** [p; q]. *)
Definition put_seq (p q : Put) : Put := fun w => match p w with Ok w' => q w' | Err e => Err e end.
Definition put_nil : Put := fun w => Ok w.
Definition put_err : Put := fun _ => Err Internal.

Declare Scope put_scope.
Delimit Scope put_scope with put.
Bind Scope put_scope with Put.
Notation "p ;; q" := (put_seq p q) (at level 100, q at level 200, right associativity) : put_scope.
Open Scope put_scope.

Definition write_raw (bs : list Z) : Put := fun w => Ok (mkWriter (buf w ++ bs)).

Definition write_u8 (v : Z) : Put := write_raw [v].
Definition write_u16 (v : Z) : Put := write_raw (le_bytes 2 v).
Definition write_u32 (v : Z) : Put := write_raw (le_bytes 4 v).
Definition write_u64 (v : Z) : Put := write_raw (le_bytes 8 v).
Definition write_i32 (v : Z) : Put := write_raw (le_bytes 4 v).
Definition write_i64 (v : Z) : Put := write_raw (le_bytes 8 v).
Definition write_i128 (v : Z) : Put := write_raw (le_bytes 16 v).
Definition write_f32 (bits : Z) : Put := write_raw (le_bytes 4 bits).
Definition write_f64 (bits : Z) : Put := write_raw (le_bytes 8 bits).
Definition write_bool (b : bool) : Put := write_raw [if b then 1 else 0].

Definition write_bytes (bs : list Z) : Put :=
  if u32_max <? len bs then put_err else (write_u32 (len bs) ;; write_raw bs).

Definition write_str (s : list Z) : Put := write_bytes s.

(** [for x in l { p(x)?; }]. *)
Fixpoint put_all {A} (p : A -> Put) (l : list A) : Put :=
  match l with [] => put_nil | x :: l' => (p x ;; put_all p l') end.

(** ** Reader *)

Record BinaryReader : Type := mkReader { data : list Z; pos : Z }.

(** [None] is a panic. *)
Definition Get (A : Type) : Type := BinaryReader -> option (DbResult (A * BinaryReader)).

#[global] Instance Get_ret : MRet Get := fun A a r => Some (Ok (a, r)).
#[global] Instance Get_bind : MBind Get := fun A B k g r =>
  match g r with Some (Ok (a, r')) => k a r' | Some (Err e) => Some (Err e) | None => None end.
#[global] Instance Get_fmap : FMap Get := fun A B f g r =>
  match g r with Some (Ok (a, r')) => Some (Ok (f a, r')) | Some (Err e) => Some (Err e) | None => None end.

Definition get_err {A} : Get A := fun _ => Some (Err Internal).

(** A [return Err(..)] under a condition. *)
Definition get_guard (b : bool) : Get unit := if b then mret tt else get_err.

(** [x.map_err(..)?] on an optional value. *)
Definition get_some {A} (o : option A) : Get A := match o with Some a => mret a | None => get_err end.

Definition ensure (n : Z) : Get unit := fun r =>
  match checked_add usize_max (pos r) n with
  | Some e => if e <=? len (data r) then Some (Ok (tt, r)) else Some (Err Internal)
  | None => Some (Err Internal)
  end.

(** [self.data[self.pos..self.pos + n]], a panic when the range is not within the data, then
    [self.pos += n]. *)
Definition take_bytes (n : Z) : Get (list Z) := fun r =>
  if (0 <=? n) && (pos r + n <=? len (data r))
  then Some (Ok (take (Z.to_nat n) (drop (Z.to_nat (pos r)) (data r)), mkReader (data r) (pos r + n)))
  else None.

Definition read_array (n : Z) : Get (list Z) := _ ← ensure n; take_bytes n.

Definition read_u8 : Get Z := le_value <$> read_array 1.
Definition read_u16 : Get Z := le_value <$> read_array 2.
Definition read_u32 : Get Z := le_value <$> read_array 4.
Definition read_u64 : Get Z := le_value <$> read_array 8.
Definition read_i32 : Get Z := (fun bs => to_signed 32 (le_value bs)) <$> read_array 4.
Definition read_i64 : Get Z := (fun bs => to_signed 64 (le_value bs)) <$> read_array 8.
Definition read_i128 : Get Z := (fun bs => to_signed 128 (le_value bs)) <$> read_array 16.
Definition read_f32 : Get Z := le_value <$> read_array 4.
Definition read_f64 : Get Z := le_value <$> read_array 8.

Definition read_bool : Get bool :=
  v ← read_u8;
  if v =? 0 then mret false else if v =? 1 then mret true else get_err.

Definition MAX_READ_ALLOC : Z := 64 * 1024 * 1024.

Definition read_bytes : Get (list Z) :=
  n ← read_u32;
  if MAX_READ_ALLOC <? n then get_err else (_ ← ensure n; take_bytes n).

(** [String::from_utf8]: the well-formed byte sequences of the Unicode standard. *)
Definition cont (b : Z) : bool := (0x80 <=? b) && (b <=? 0xBF).

Fixpoint utf8_valid (bs : list Z) : bool :=
  match bs with
  | [] => true
  | a :: bs1 =>
      if a <=? 0x7F then utf8_valid bs1
      else
        match bs1 with
        | [] => false
        | b :: bs2 =>
            if (0xC2 <=? a) && (a <=? 0xDF) then cont b && utf8_valid bs2
            else
              match bs2 with
              | [] => false
              | c :: bs3 =>
                  if (0xE0 <=? a) && (a <=? 0xEF) then
                    cont b && cont c && (if a =? 0xE0 then 0xA0 <=? b else true) &&
                    (if a =? 0xED then b <=? 0x9F else true) && utf8_valid bs3
                  else
                    match bs3 with
                    | [] => false
                    | d :: bs4 =>
                        (0xF0 <=? a) && (a <=? 0xF4) && cont b && cont c && cont d &&
                        (if a =? 0xF0 then 0x90 <=? b else true) &&
                        (if a =? 0xF4 then b <=? 0x8F else true) && utf8_valid bs4
                    end
              end
        end
  end.

Definition read_str : Get (list Z) :=
  bs ← read_bytes;
  if utf8_valid bs then mret bs else get_err.

Definition remaining : Get Z := fun r => Some (Ok (saturating_sub (len (data r)) (pos r), r)).

(** [for _ in 0..n { out.push(g()?); }]. *)
Fixpoint get_n {A} (g : Get A) (n : nat) : Get (list A) :=
  match n with
  | O => mret []
  | S n' => x ← g; l ← get_n g n'; mret (x :: l)
  end.

(** ** Round trips *)

Lemma len_app {A} (l k : list A) : len (l ++ k) = len l + len k.
Proof. unfold len. rewrite length_app. lia. Qed.

Lemma len_nonneg {A} (l : list A) : 0 <= len l.
Proof. unfold len. lia. Qed.

(** [p] appends [bs], whatever was written before. *)
Definition emits (p : Put) (bs : list Z) : Prop := forall w, p w = Ok (mkWriter (buf w ++ bs)).

(** [g] reads [bs] as [a], whatever is around. *)
Definition parses {A} (g : Get A) (bs : list Z) (a : A) : Prop :=
  forall pre post, len (pre ++ bs ++ post) <= usize_max ->
    g (mkReader (pre ++ bs ++ post) (len pre)) = Some (Ok (a, mkReader (pre ++ bs ++ post) (len pre + len bs))).

Definition serial {A} (p : Put) (g : Get A) (a : A) : Prop :=
  exists bs, emits p bs /\ Forall byte bs /\ parses g bs a.

Lemma parses_bind {A B} (g : Get A) (k : A -> Get B) bs cs a b :
  parses g bs a -> parses (k a) cs b -> parses (g ≫= k) (bs ++ cs) b.
Proof.
  intros Hg Hk pre post Hl. unfold mbind, Get_bind.
  replace (pre ++ (bs ++ cs) ++ post) with (pre ++ bs ++ (cs ++ post)) in * by (by rewrite <- !app_assoc).
  rewrite (Hg pre (cs ++ post) Hl).
  replace (pre ++ bs ++ cs ++ post) with ((pre ++ bs) ++ cs ++ post) in * by (by rewrite <- !app_assoc).
  replace (len pre + len bs) with (len (pre ++ bs)) by apply len_app. rewrite (Hk _ _ Hl).
  rewrite !len_app. do 4 f_equal. lia.
Qed.

Lemma parses_ret {A} (a : A) : parses (mret a) [] a.
Proof. intros pre post _. cbn. unfold mret, Get_ret. do 4 f_equal. unfold len. cbn. lia. Qed.

Lemma emits_seq p q bs cs : emits p bs -> emits q cs -> emits (p ;; q) (bs ++ cs).
Proof. intros Hp Hq w. unfold put_seq. rewrite Hp, Hq. cbn [buf]. by rewrite app_assoc. Qed.

Lemma emits_nil : emits put_nil [].
Proof. intros [b]. cbn. by rewrite app_nil_r. Qed.

Lemma emits_raw bs : emits (write_raw bs) bs.
Proof. by intros w. Qed.

Lemma serial_seq {A B} p q (g : Get A) (k : A -> Get B) a b :
  serial p g a -> serial q (k a) b -> serial (p ;; q) (g ≫= k) b.
Proof.
  intros (bs & Hp & Hb & Hg) (cs & Hq & Hc & Hk). exists (bs ++ cs).
  split_and!; [by apply emits_seq|by apply Forall_app|by eapply parses_bind].
Qed.

Lemma serial_ret {A} (a : A) : serial put_nil (mret a) a.
Proof. exists []. split_and!; [apply emits_nil|constructor|apply parses_ret]. Qed.

(** The last write of a sequence. *)
Lemma serial_last {A B} p (g : Get A) (k : A -> Get B) a b :
  serial p g a -> (forall r, k a r = Some (Ok (b, r))) -> serial p (g ≫= k) b.
Proof.
  intros (bs & Hp & Hb & Hg) Hk. exists bs. split_and!; [done|done|].
  intros pre post Hl. unfold mbind, Get_bind. rewrite (Hg pre post Hl). apply Hk.
Qed.

Lemma serial_map {A B} p (g : Get A) (f : A -> B) a : serial p g a -> serial p (f <$> g) (f a).
Proof.
  intros (bs & Hp & Hb & Hg). exists bs. split_and!; [done|done|].
  intros pre post Hl. unfold fmap, Get_fmap. by rewrite (Hg pre post Hl).
Qed.

(** A step of the reader that consumes nothing. *)
Lemma serial_pure {A B} p (g : Get A) (k : A -> Get B) a b :
  (forall r, g r = Some (Ok (a, r))) -> serial p (k a) b -> serial p (g ≫= k) b.
Proof.
  intros Hg (bs & Hp & Hb & Hk). exists bs. split_and!; [done|done|].
  intros pre post Hl. unfold mbind, Get_bind. rewrite Hg. by apply Hk.
Qed.

Lemma serial_ext {A} p q (g h : Get A) a :
  (forall w, p w = q w) -> (forall r, g r = h r) -> serial q h a -> serial p g a.
Proof.
  intros Hp Hg (bs & Hq & Hb & Hh). exists bs. split_and!; [by intros w; rewrite Hp|done|].
  intros pre post Hl. rewrite Hg. by apply Hh.
Qed.

Lemma parses_array bs : parses (read_array (len bs)) bs bs.
Proof.
  intros pre post Hl. rewrite !len_app in Hl. pose proof (len_nonneg post). pose proof (len_nonneg pre).
  unfold read_array, mbind, Get_bind, ensure, checked_add. cbn [pos data]. rewrite !len_app.
  destruct (Z.leb_spec (len pre + len bs) usize_max); [|lia].
  destruct (Z.leb_spec (len pre + len bs) (len pre + (len bs + len post))); [|lia].
  unfold take_bytes. cbn [pos data]. pose proof (len_nonneg bs). rewrite !len_app, !(proj2 (Z.leb_le _ _)) by lia.
  cbn [andb]. do 3 f_equal. unfold len. rewrite !Nat2Z.id. by rewrite drop_app_length, take_app_length.
Qed.

Lemma serial_raw {A} (f : list Z -> A) n bs :
  Forall byte bs -> len bs = n -> serial (write_raw bs) (f <$> read_array n) (f bs).
Proof.
  intros Hb <-. apply serial_map. exists bs. split_and!; [apply emits_raw|done|apply parses_array].
Qed.

Lemma serial_le {A} (f : list Z -> A) n v a :
  f (le_bytes n v) = a -> serial (write_raw (le_bytes n v)) (f <$> read_array (Z.of_nat n)) a.
Proof.
  intros <-. apply serial_raw; [apply le_bytes_byte|]. unfold len. by rewrite length_le_bytes.
Qed.

Lemma serial_u8 v : in_unsigned 8 v -> serial (write_u8 v) read_u8 v.
Proof.
  intros Hv. unfold write_u8. replace [v] with (le_bytes 1 v); [|cbn; f_equal; by apply Z.mod_small].
  apply (serial_le le_value 1). by apply le_value_bytes.
Qed.

Lemma serial_u16 v : in_unsigned 16 v -> serial (write_u16 v) read_u16 v.
Proof. intros Hv. apply (serial_le le_value 2). by apply le_value_bytes. Qed.

Lemma serial_u32 v : in_unsigned 32 v -> serial (write_u32 v) read_u32 v.
Proof. intros Hv. apply (serial_le le_value 4). by apply le_value_bytes. Qed.

Lemma serial_u64 v : in_unsigned 64 v -> serial (write_u64 v) read_u64 v.
Proof. intros Hv. apply (serial_le le_value 8). by apply le_value_bytes. Qed.

Lemma serial_f32 v : in_unsigned 32 v -> serial (write_f32 v) read_f32 v.
Proof. intros Hv. apply (serial_le le_value 4). by apply le_value_bytes. Qed.

Lemma serial_f64 v : in_unsigned 64 v -> serial (write_f64 v) read_f64 v.
Proof. intros Hv. apply (serial_le le_value 8). by apply le_value_bytes. Qed.

Lemma serial_i32 v : in_signed 32 v -> serial (write_i32 v) read_i32 v.
Proof. intros Hv. apply (serial_le _ 4). rewrite le_value_mod. by apply (to_signed_mod 32). Qed.

Lemma serial_i64 v : in_signed 64 v -> serial (write_i64 v) read_i64 v.
Proof. intros Hv. apply (serial_le _ 8). rewrite le_value_mod. by apply (to_signed_mod 64). Qed.

Lemma serial_i128 v : in_signed 128 v -> serial (write_i128 v) read_i128 v.
Proof. intros Hv. apply (serial_le _ 16). rewrite le_value_mod. by apply (to_signed_mod 128). Qed.

Lemma serial_bool b : serial (write_bool b) read_bool b.
Proof.
  eapply (serial_last _ _ _ (if b then 1 else 0)); [|by destruct b].
  apply serial_u8. by destruct b.
Qed.

Lemma serial_bytes bs :
  Forall byte bs -> len bs <= MAX_READ_ALLOC -> serial (write_bytes bs) read_bytes bs.
Proof.
  intros Hb Hl. pose proof (len_nonneg bs). unfold write_bytes, MAX_READ_ALLOC in *.
  destruct (Z.ltb_spec u32_max (len bs)); [unfold u32_max in *; lia|].
  eapply serial_seq; [apply serial_u32; unfold in_unsigned; lia|]. cbv beta. unfold MAX_READ_ALLOC.
  destruct (Z.ltb_spec (64 * 1024 * 1024) (len bs)); [lia|].
  exists bs. split_and!; [apply emits_raw|done|apply parses_array].
Qed.

Lemma serial_str s :
  Forall byte s -> len s <= MAX_READ_ALLOC -> utf8_valid s = true -> serial (write_str s) read_str s.
Proof. intros Hb Hl Hu. eapply serial_last; [by apply serial_bytes|]. cbv beta. by rewrite Hu. Qed.

Lemma serial_all {A} (p : A -> Put) (g : Get A) l :
  Forall (fun x => serial (p x) g x) l -> serial (put_all p l) (get_n g (length l)) l.
Proof.
  induction 1 as [|x l Hx Hl IH]; [apply serial_ret|]. cbn [put_all get_n length].
  eapply serial_seq; [done|]. by eapply serial_last.
Qed.

(** A test for remaining input succeeds when something follows. *)
Definition grows (p : Put) : Prop := forall w w', p w = Ok w' -> len (buf w) < len (buf w').

Lemma serial_remaining {A} p (k : Z -> Get A) (g : Get A) a :
  grows p -> (forall n, 0 < n -> k n = g) -> serial p g a -> serial p (remaining ≫= k) a.
Proof.
  intros Hgr Hk (bs & Hp & Hb & Hg). exists bs. split_and!; [done|done|]. intros pre post Hl.
  specialize (Hgr _ _ (Hp (mkWriter []))). cbn [buf app] in Hgr. unfold len in Hgr at 1. cbn in Hgr.
  unfold mbind, Get_bind, remaining. cbn [data pos]. rewrite Hk; [by apply Hg|].
  unfold saturating_sub. rewrite !len_app. pose proof (len_nonneg post). lia.
Qed.

Lemma grows_raw bs : bs <> [] -> grows (write_raw bs).
Proof.
  intros Hb w w' [= <-]. cbn [buf]. rewrite len_app. destruct bs; [done|]. unfold len. cbn [length]. lia.
Qed.

Lemma grows_seq p q : grows p -> (forall w w', q w = Ok w' -> len (buf w) <= len (buf w')) -> grows (p ;; q).
Proof.
  intros Hp Hq w w'. unfold put_seq. destruct (p w) as [w1|] eqn:E; [|done]. intros Hw.
  specialize (Hp _ _ E). specialize (Hq _ _ Hw). lia.
Qed.

(** ** What is read from arbitrary bytes *)

Definition reader_ok (r : BinaryReader) : Prop :=
  Forall byte (data r) /\ 0 <= pos r <= len (data r).

(** [g] does not panic, stays within the data, moves forward, and returns values in [P]. *)
Definition yields {A} (g : Get A) (P : A -> Prop) : Prop :=
  forall r, reader_ok r ->
    match g r with
    | None => False
    | Some (Err _) => True
    | Some (Ok (a, r')) => P a /\ reader_ok r' /\ data r' = data r /\ pos r <= pos r'
    end.

Lemma yields_weaken {A} (g : Get A) (P Q : A -> Prop) :
  yields g P -> (forall a, P a -> Q a) -> yields g Q.
Proof. intros Hg HPQ r Hr. specialize (Hg r Hr). destruct (g r) as [[[a r']|]|]; naive_solver. Qed.

Lemma yields_bind {A B} (g : Get A) (k : A -> Get B) (P : A -> Prop) (Q : B -> Prop) :
  yields g P -> (forall a, P a -> yields (k a) Q) -> yields (g ≫= k) Q.
Proof.
  intros Hg Hk r Hr. unfold mbind, Get_bind. specialize (Hg r Hr). destruct (g r) as [[[a r1]|]|]; [|done..].
  destruct Hg as (Ha & Hr1 & Hd1 & Hp1). specialize (Hk a Ha r1 Hr1). destruct (k a r1) as [[[b r2]|]|]; [|done..].
  destruct Hk as (HQ & Hr' & Hd & Hp). split_and!; [done|done|congruence|lia].
Qed.

Lemma yields_ret {A} (a : A) (P : A -> Prop) : P a -> yields (mret a) P.
Proof. intros HP r Hr. cbn. split_and!; [done|done|done|lia]. Qed.

Lemma yields_map {A B} (g : Get A) (f : A -> B) (P : A -> Prop) (Q : B -> Prop) :
  yields g P -> (forall a, P a -> Q (f a)) -> yields (f <$> g) Q.
Proof.
  intros Hg HQ r Hr. unfold fmap, Get_fmap. specialize (Hg r Hr). destruct (g r) as [[[a r1]|]|]; naive_solver.
Qed.

Lemma yields_err {A} (P : A -> Prop) : yields get_err P.
Proof. by intros r _. Qed.

Lemma yields_guard b : yields (get_guard b) (fun _ => b = true).
Proof. unfold get_guard. destruct b; [by apply yields_ret|apply yields_err]. Qed.

Lemma yields_some {A} (o : option A) : yields (get_some o) (fun a => o = Some a).
Proof. unfold get_some. destruct o; [by apply yields_ret|apply yields_err]. Qed.

Lemma yields_remaining : yields remaining (fun n => 0 <= n).
Proof. intros r Hr. cbn. split_and!; [unfold saturating_sub; lia|done|done|lia]. Qed.

Lemma yields_array n : 0 <= n -> yields (read_array n) (fun bs => Forall byte bs /\ len bs = n).
Proof.
  intros Hn r [Hb Hp]. unfold read_array, mbind, Get_bind, ensure, take_bytes.
  destruct (checked_add usize_max (pos r) n) as [e|] eqn:E; [|done].
  apply checked_add_Some in E as [-> _]. destruct (Z.leb_spec (pos r + n) (len (data r))); [|done].
  rewrite !(proj2 (Z.leb_le _ _)) by lia. cbn [andb]. unfold reader_ok. cbn [data pos]. split_and!; auto with lia.
  - by apply Forall_take, Forall_drop.
  - unfold len in *. rewrite length_take, length_drop. lia.
Qed.

Lemma yields_le n : yields (le_value <$> read_array (Z.of_nat n)) (in_unsigned (8 * Z.of_nat n)).
Proof.
  eapply yields_map; [apply yields_array; lia|]. intros bs [Hb Hl]. pose proof (le_value_bound bs Hb) as Hv.
  unfold len in Hl. apply Nat2Z.inj in Hl. rewrite Hl in Hv. unfold in_unsigned.
  by rewrite Z.pow_mul_r by lia.
Qed.

Lemma yields_signed n : (0 < n)%nat ->
  yields ((fun bs => to_signed (8 * Z.of_nat n) (le_value bs)) <$> read_array (Z.of_nat n))
    (in_signed (8 * Z.of_nat n)).
Proof.
  intros Hn. eapply yields_map; [apply yields_array; lia|]. intros bs [Hb Hl].
  pose proof (le_value_bound bs Hb) as Hv. unfold len in Hl. apply Nat2Z.inj in Hl. rewrite Hl in Hv.
  apply to_signed_range; [lia|]. unfold in_unsigned. by rewrite Z.pow_mul_r by lia.
Qed.

Lemma yields_u8 : yields read_u8 (in_unsigned 8).
Proof. apply (yields_le 1). Qed.
Lemma yields_u16 : yields read_u16 (in_unsigned 16).
Proof. apply (yields_le 2). Qed.
Lemma yields_u32 : yields read_u32 (in_unsigned 32).
Proof. apply (yields_le 4). Qed.
Lemma yields_u64 : yields read_u64 (in_unsigned 64).
Proof. apply (yields_le 8). Qed.
Lemma yields_f32 : yields read_f32 (in_unsigned 32).
Proof. apply (yields_le 4). Qed.
Lemma yields_f64 : yields read_f64 (in_unsigned 64).
Proof. apply (yields_le 8). Qed.
Lemma yields_i32 : yields read_i32 (in_signed 32).
Proof. apply (yields_signed 4). lia. Qed.
Lemma yields_i64 : yields read_i64 (in_signed 64).
Proof. apply (yields_signed 8). lia. Qed.
Lemma yields_i128 : yields read_i128 (in_signed 128).
Proof. apply (yields_signed 16). lia. Qed.

Lemma yields_bool : yields read_bool (fun _ => True).
Proof.
  eapply yields_bind; [apply yields_u8|]. intros v _.
  destruct (v =? 0); [by apply yields_ret|]. destruct (v =? 1); [by apply yields_ret|apply yields_err].
Qed.

Lemma yields_bytes : yields read_bytes (fun bs => Forall byte bs /\ len bs <= MAX_READ_ALLOC).
Proof.
  eapply yields_bind; [apply yields_u32|]. intros n Hn.
  destruct (Z.ltb_spec MAX_READ_ALLOC n); [apply yields_err|].
  eapply yields_weaken; [apply yields_array; apply Hn|]. cbv beta. intros bs [? ->]. done.
Qed.

Lemma yields_str :
  yields read_str (fun s => (Forall byte s /\ len s <= MAX_READ_ALLOC) /\ utf8_valid s = true).
Proof.
  eapply yields_bind; [apply yields_bytes|]. intros s Hs.
  destruct (utf8_valid s) eqn:E; [by apply yields_ret|apply yields_err].
Qed.

Lemma yields_n {A} (g : Get A) n (P : A -> Prop) :
  yields g P -> yields (get_n g n) (fun l => Forall P l /\ len l = Z.of_nat n).
Proof.
  intros Hg. induction n as [|n IH]; [by apply yields_ret|]. cbn [get_n].
  eapply yields_bind; [done|]. intros x Hx. eapply yields_bind; [exact IH|]. intros l [Hl Hn].
  apply yields_ret. split; [by constructor|]. unfold len in *. cbn [length]. lia.
Qed.
