(* ===== verification/BigNumeric.v ===== *)
(** * Numeric coefficients as text
    ([crates/aiondb-core/src/numeric/big_coefficient.rs], [numeric/mod.rs])

    A [NumericValue] is a 128-bit coefficient and a scale, or, above that width, a
    [BigCoefficient]: base 10^9 limbs, least significant first, and a sign.  Modelled
    are the constructors and the conversions to and from decimal text, which is how
    the write-ahead log stores big coefficients.  Strings are lists of bytes. *)

From S2P Require Import Prelude.
From S2P Require Import Bytes.

Definition LIMB_BASE : Z := 1000000000.
Definition MAX_BIG_LIMBS : Z := 320.
Definition MAX_BIG_DECIMAL_DIGITS : Z := MAX_BIG_LIMBS * 9.

Record BigCoefficient : Type := mkBig { limbs : list Z; negative : bool }.

#[global] Instance BigCoefficient_eq_dec : EqDecision BigCoefficient.
Proof. solve_decision. Defined.

Definition big_zero : BigCoefficient := mkBig [] false.
Definition is_zero (b : BigCoefficient) : bool := match limbs b with [] => true | _ => false end.

(** Drop the elements equal to [c] at the front. *)
Fixpoint drop_eq (c : Z) (l : list Z) : list Z :=
  match l with x :: l' => if x =? c then drop_eq c l' else l | [] => [] end.

(** [while v.last() == Some(&0) { v.pop(); }]. *)
Definition pop_zeros (l : list Z) : list Z := rev (drop_eq 0 (rev l)).

Definition normalize (b : BigCoefficient) : BigCoefficient :=
  let l := pop_zeros (limbs b) in
  mkBig l (match l with [] => false | _ => negative b end).

Definition i128_min : Z := - 2 ^ 127.
Definition i128_max : Z := 2 ^ 127 - 1.

(** A checked [i128] operation with exact result [v]. *)
Definition checked_i128 (v : Z) : option Z := if (i128_min <=? v) && (v <=? i128_max) then Some v else None.

(** The loop of [to_i128] from the second limb on. *)
Fixpoint to_i128_loop (ls : list Z) (result base_power : Z) : option Z :=
  match ls with
  | [] => Some result
  | limb :: rest =>
      base ← checked_i128 (base_power * LIMB_BASE);
      term ← checked_i128 (base * limb);
      r ← checked_i128 (result + term);
      to_i128_loop rest r base
  end.

Definition to_i128 (b : BigCoefficient) : option Z :=
  match limbs b with
  | [] => Some 0
  | limb :: rest =>
      term ← checked_i128 (1 * limb);
      r ← checked_i128 (0 + term);
      r ← to_i128_loop rest r 1;
      if negative b then checked_i128 (- r) else Some r
  end.

(** The loop of [from_i128]; [fuel] is the number of limbs it may push. *)
Fixpoint from_i128_loop (fuel : nat) (abs : Z) : list Z :=
  match fuel with
  | O => []
  | S fuel' => if 0 <? abs then abs mod LIMB_BASE :: from_i128_loop fuel' (abs / LIMB_BASE) else []
  end.

(** An [i128] has at most five limbs. *)
Definition from_i128 (v : Z) : BigCoefficient :=
  if v =? 0 then big_zero else mkBig (from_i128_loop 5 (Z.abs v)) (v <? 0).

(** ** Decimal text *)

(** The last [k] decimal digits of [n]. *)
Fixpoint dec_fixed (k : nat) (n : Z) : list Z :=
  match k with O => [] | S k' => dec_fixed k' (n / 10) ++ [48 + n mod 10] end.

(** [{}] of an unsigned integer of at most [k] digits. *)
Definition show (k : nat) (n : Z) : list Z :=
  match drop_eq 48 (dec_fixed k n) with [] => [48] | l => l end.

(** [{:09}]. *)
Definition show_pad9 (n : Z) : list Z :=
  let s := show 20 n in replicate (9 - length s) 48 ++ s.

Definition show_i128 (v : Z) : list Z := if v <? 0 then 45 :: show 39 (- v) else show 39 v.

Definition is_digit (c : Z) : bool := (48 <=? c) && (c <=? 57).

Definition dec_value (s : list Z) : Z := fold_left (fun acc c => acc * 10 + (c - 48)) s 0.

(** [str::parse] of an integer type: digits after an optional sign, in range. *)
Definition parse_digits (s : list Z) : option Z :=
  match s with
  | [] => None
  | _ => if forallb is_digit s then Some (dec_value s) else None
  end.

Definition parse_u32 (s : list Z) : option Z :=
  v ← parse_digits (match s with 43 :: s' => s' | _ => s end);
  if v <=? u32_max then Some v else None.

Definition parse_i128 (s : list Z) : option Z :=
  match s with
  | 45 :: s' => v ← parse_digits s'; checked_i128 (- v)
  | 43 :: s' => v ← parse_digits s'; checked_i128 v
  | _ => v ← parse_digits s; checked_i128 v
  end.

(** One pass of the in-place division of [to_decimal_string_unsigned], most
    significant limb first. *)
Fixpoint div_pass (remainder : Z) (ws : list Z) : list Z * Z :=
  match ws with
  | [] => ([], remainder)
  | w :: ws' =>
      let cur := remainder * LIMB_BASE + w in
      let '(qs, r) := div_pass (cur mod LIMB_BASE) ws' in
      (Z.min u32_max (cur / LIMB_BASE) :: qs, r)
  end.

(** Its outer loop; each turn removes a limb of [working]. *)
Fixpoint decimal_limbs (fuel : nat) (working : list Z) : list Z :=
  match fuel with
  | O => []
  | S fuel' =>
      let '(qs, r) := div_pass 0 (rev working) in
      let working' := pop_zeros (rev qs) in
      r :: match working' with [] => [] | _ => decimal_limbs fuel' working' end
  end.

Definition to_decimal_string_unsigned (b : BigCoefficient) : list Z :=
  if is_zero b then [48]
  else
    match rev (decimal_limbs (length (limbs b)) (limbs b)) with
    | [] => []
    | first :: rest => show 20 first ++ concat (map show_pad9 rest)
    end.

(** The loop of [from_decimal_string], from the end of the text in chunks of nine. *)
Fixpoint parse_chunks (fuel : nat) (s : list Z) (p : nat) : list Z :=
  match fuel with
  | O => []
  | S fuel' =>
      if (p =? 0)%nat then []
      else
        let start := (p - 9)%nat in
        default 0 (parse_u32 (take (p - start) (drop start s))) :: parse_chunks fuel' s start
  end.

Definition from_decimal_string (s : list Z) (neg : bool) : BigCoefficient :=
  match drop_eq 48 s with
  | [] => big_zero
  | t => normalize (mkBig (parse_chunks (length t) t (length t)) neg)
  end.

(** ** Numeric values *)

Record NumericValue : Type := mkNumeric {
  coefficient : Z;
  scale : Z;
  big : option BigCoefficient
}.

#[global] Instance NumericValue_eq_dec : EqDecision NumericValue.
Proof. solve_decision. Defined.

Definition numeric_new (coeff sc : Z) : NumericValue := mkNumeric coeff sc None.

Definition from_big (b : BigCoefficient) (sc : Z) : NumericValue :=
  match to_i128 b with
  | Some v => mkNumeric v sc None
  | None => mkNumeric 0 sc (Some b)
  end.

Definition is_big (n : NumericValue) : bool := match big n with Some _ => true | None => false end.

Definition coefficient_to_string (n : NumericValue) : list Z :=
  match big n with
  | Some b =>
      let s := to_decimal_string_unsigned b in
      if negative b then 45 :: s else s
  | None => show_i128 (coefficient n)
  end.

(** [str::trim]: the characters with the Unicode property White_Space, as UTF-8. *)
Definition ws_prefix (s : list Z) : option (list Z) :=
  match s with
  | a :: r1 =>
      if ((9 <=? a) && (a <=? 13)) || (a =? 32) then Some r1
      else
        match r1 with
        | b :: r2 =>
            if (a =? 0xC2) && ((b =? 0x85) || (b =? 0xA0)) then Some r2
            else
              match r2 with
              | c :: r3 =>
                  if ((a =? 0xE1) && (b =? 0x9A) && (c =? 0x80)) ||
                     ((a =? 0xE2) && (b =? 0x80) &&
                        (((0x80 <=? c) && (c <=? 0x8A)) || (c =? 0xA8) || (c =? 0xA9) || (c =? 0xAF))) ||
                     ((a =? 0xE2) && (b =? 0x81) && (c =? 0x9F)) ||
                     ((a =? 0xE3) && (b =? 0x80) && (c =? 0x80))
                  then Some r3 else None
              | [] => None
              end
        | [] => None
        end
  | [] => None
  end.

(** The same at the end of the text, which is given reversed. *)
Definition ws_suffix (s : list Z) : option (list Z) :=
  match s with
  | c :: r1 =>
      if ((9 <=? c) && (c <=? 13)) || (c =? 32) then Some r1
      else
        match r1 with
        | b :: r2 =>
            if (b =? 0xC2) && ((c =? 0x85) || (c =? 0xA0)) then Some r2
            else
              match r2 with
              | a :: r3 =>
                  match ws_prefix [a; b; c] with Some [] => Some r3 | _ => None end
              | [] => None
              end
        | [] => None
        end
  | [] => None
  end.

Fixpoint strip (f : list Z -> option (list Z)) (fuel : nat) (s : list Z) : list Z :=
  match fuel with
  | O => s
  | S fuel' => match f s with Some s' => strip f fuel' s' | None => s end
  end.

Definition trim (s : list Z) : list Z :=
  let s1 := strip ws_prefix (length s) s in
  rev (strip ws_suffix (length s1) (rev s1)).

Definition exceeds_big_decimal_digits (digits : list Z) : bool :=
  MAX_BIG_DECIMAL_DIGITS <? Z.of_nat (length (drop_eq 48 digits)).

Definition from_coefficient_string (s0 : list Z) (sc : Z) : option NumericValue :=
  let s := trim s0 in
  match s with
  | [] => None
  | c :: s' =>
      match parse_i128 s with
      | Some v => Some (numeric_new v sc)
      | None =>
          let neg := c =? 45 in
          let digits := if neg then s' else s in
          if negb (forallb is_digit digits) then None
          else if exceeds_big_decimal_digits digits then None
          else
            let b := from_decimal_string digits neg in
            if MAX_BIG_LIMBS <? Z.of_nat (length (limbs b)) then None
            else Some (from_big b sc)
      end
  end.

(** ** Values *)

Fixpoint mag (ls : list Z) : Z := match ls with [] => 0 | l :: ls' => l + LIMB_BASE * mag ls' end.

Definition limb_ok (l : Z) : Prop := 0 <= l < LIMB_BASE.

(** The limbs [normalize] leaves. *)
Definition limbs_wf (ls : list Z) : Prop := Forall limb_ok ls /\ last ls <> Some 0.

Definition digits (s : list Z) : Prop := Forall (fun c => 48 <= c <= 57) s.

Lemma forallb_digits s : forallb is_digit s = true <-> digits s.
Proof.
  unfold digits. induction s as [|c s IH]; [done|]. cbn [forallb]. rewrite Forall_cons, <- IH, andb_true_iff.
  unfold is_digit. rewrite andb_true_iff, !Z.leb_le. tauto.
Qed.

Lemma dec_value_acc s a :
  fold_left (fun acc c => acc * 10 + (c - 48)) s a = a * 10 ^ Z.of_nat (length s) + dec_value s.
Proof.
  unfold dec_value. revert a. induction s as [|c s IH]; intros a; [cbn; lia|].
  cbn [fold_left length]. rewrite (IH (a * 10 + (c - 48))), (IH (0 * 10 + (c - 48))).
  rewrite Nat2Z.inj_succ, Z.pow_succ_r by lia. ring.
Qed.

Lemma dec_value_app s t : dec_value (s ++ t) = dec_value s * 10 ^ Z.of_nat (length t) + dec_value t.
Proof. unfold dec_value at 1. rewrite fold_left_app. apply dec_value_acc. Qed.

Lemma dec_value_snoc s c : dec_value (s ++ [c]) = dec_value s * 10 + (c - 48).
Proof. rewrite dec_value_app. unfold dec_value at 2. cbn [fold_left length]. lia. Qed.

Lemma dec_value_cons c s : dec_value (c :: s) = (c - 48) * 10 ^ Z.of_nat (length s) + dec_value s.
Proof. unfold dec_value at 1. cbn [fold_left]. rewrite dec_value_acc. lia. Qed.

Lemma dec_value_bound s : digits s -> 0 <= dec_value s < 10 ^ Z.of_nat (length s).
Proof.
  induction 1 as [|c s Hc Hs IH]; [cbn; lia|]. rewrite dec_value_cons. cbn [length].
  rewrite Nat2Z.inj_succ, Z.pow_succ_r by lia. nia.
Qed.

Lemma dec_value_lead c s : digits (c :: s) -> c <> 48 -> 10 ^ Z.of_nat (length s) <= dec_value (c :: s).
Proof.
  intros Hd Hc. apply Forall_cons in Hd as [Hr Hd]. pose proof (dec_value_bound s Hd).
  rewrite dec_value_cons. nia.
Qed.

Lemma drop_eq_value s : dec_value (drop_eq 48 s) = dec_value s.
Proof.
  induction s as [|c s IH]; [done|]. cbn [drop_eq]. destruct (Z.eqb_spec c 48) as [->|]; [|done].
  rewrite IH, dec_value_cons. lia.
Qed.

Lemma drop_eq_digits c s : digits s -> digits (drop_eq c s).
Proof.
  induction 1 as [|x s Hx Hs IH]; [constructor|]. cbn [drop_eq]. destruct (x =? c); [done|by constructor].
Qed.

Lemma drop_eq_head c s x t : drop_eq c s = x :: t -> x <> c.
Proof.
  induction s as [|y s IH]; [done|]. cbn [drop_eq]. destruct (Z.eqb_spec y c); [done|]. by intros [= <- _].
Qed.

Lemma dec_fixed_spec k n :
  digits (dec_fixed k n) /\ length (dec_fixed k n) = k /\
  (0 <= n -> dec_value (dec_fixed k n) = n mod 10 ^ Z.of_nat k).
Proof.
  revert n. induction k as [|k IH]; intros n; [split_and!; [constructor|done|by rewrite Z.mod_1_r]|].
  cbn [dec_fixed]. destruct (IH (n / 10)) as (Hd & Hl & Hv). pose proof (Z.mod_pos_bound n 10).
  split_and!.
  - apply Forall_app. split; [done|]. constructor; [lia|constructor].
  - rewrite length_app, Hl. cbn. lia.
  - intros Hn. rewrite dec_value_snoc, Hv by (apply Z.div_pos; lia).
    rewrite Nat2Z.inj_succ, Z.pow_succ_r, Z.rem_mul_r by lia. lia.
Qed.

Lemma show_spec k n :
  0 <= n < 10 ^ Z.of_nat k ->
  digits (show k n) /\ dec_value (show k n) = n /\
  exists c s, show k n = c :: s /\ (c <> 48 \/ s = []).
Proof.
  intros Hn. destruct (dec_fixed_spec k n) as (Hd & Hl & Hv).
  specialize (Hv ltac:(lia)). rewrite Z.mod_small in Hv by lia. unfold show.
  pose proof (drop_eq_value (dec_fixed k n)) as Hdv. pose proof (drop_eq_digits 48 _ Hd) as Hdd.
  destruct (drop_eq 48 (dec_fixed k n)) as [|c s] eqn:E.
  - cbn in Hdv. split_and!; [repeat constructor; lia|cbn; lia|]. exists 48, []. auto.
  - split_and!; [done|lia|]. exists c, s. split; [done|]. left. by apply drop_eq_head in E.
Qed.

(** A number of few digits is shown with few digits. *)
Lemma show_length k n j :
  0 <= n < 10 ^ Z.of_nat k -> 0 < j -> n < 10 ^ j -> Z.of_nat (length (show k n)) <= j.
Proof.
  intros Hn Hj Hnj. destruct (show_spec k n Hn) as (Hd & Hv & c & s & E & [Hc| ->]); rewrite E in *; cbn [length]; [|lia].
  pose proof (dec_value_lead c s Hd Hc) as Hlead. rewrite Hv in Hlead.
  assert (Z.of_nat (length s) < j); [|lia]. apply (Z.pow_lt_mono_r_iff 10); lia.
Qed.

Lemma show_pad9_spec n :
  limb_ok n -> digits (show_pad9 n) /\ length (show_pad9 n) = 9%nat /\ dec_value (show_pad9 n) = n.
Proof.
  unfold limb_ok, LIMB_BASE. intros Hn. assert (Hb : 0 <= n < 10 ^ Z.of_nat 20) by (cbn; lia).
  destruct (show_spec 20 n Hb) as (Hd & Hv & _). pose proof (show_length 20 n 9 Hb ltac:(lia) ltac:(lia)) as Hl.
  unfold show_pad9. set (s := show 20 n) in *. assert (Hz : forall k, dec_value (replicate k 48) = 0).
  { intros k. induction k as [|k IH]; [done|]. cbn [replicate]. by rewrite dec_value_cons, IH. }
  split_and!.
  - apply Forall_app. split; [|done]. apply Forall_replicate. lia.
  - rewrite length_app, length_replicate. lia.
  - rewrite dec_value_app, Hz. lia.
Qed.

(** ** Limbs *)

Lemma mag_nonneg ls : Forall limb_ok ls -> 0 <= mag ls.
Proof. induction 1 as [|l ls Hl Hls IH]; [done|]. cbn [mag]. unfold limb_ok, LIMB_BASE in *. lia. Qed.

Lemma mag_bound ls : Forall limb_ok ls -> mag ls < LIMB_BASE ^ Z.of_nat (length ls).
Proof.
  induction 1 as [|l ls Hl Hls IH]; [done|]. cbn [mag length]. rewrite Nat2Z.inj_succ, Z.pow_succ_r by lia.
  unfold limb_ok, LIMB_BASE in *. lia.
Qed.

Lemma mag_app ls ks : mag (ls ++ ks) = mag ls + LIMB_BASE ^ Z.of_nat (length ls) * mag ks.
Proof.
  induction ls as [|l ls IH]; [cbn; lia|]. cbn [mag app length].
  rewrite IH, Nat2Z.inj_succ, Z.pow_succ_r by lia. ring.
Qed.

Lemma limbs_wf_tail l ls : limbs_wf (l :: ls) -> limbs_wf ls.
Proof.
  intros [Hl Hz]. apply Forall_cons in Hl as [_ Hl]. split; [done|]. by destruct ls.
Qed.

Lemma mag_pos ls : limbs_wf ls -> ls <> [] -> 0 < mag ls.
Proof.
  induction ls as [|l ls IH]; [done|]. intros Hw _. pose proof Hw as [Hl Hz].
  apply Forall_cons in Hl as [Hl0 Hl]. cbn [mag]. unfold limb_ok, LIMB_BASE in *.
  destruct ls as [|k ls]; [cbn in *; assert (l <> 0) by congruence; lia|].
  specialize (IH (limbs_wf_tail _ _ Hw) ltac:(done)). lia.
Qed.

Lemma mag_inj ls ks : limbs_wf ls -> limbs_wf ks -> mag ls = mag ks -> ls = ks.
Proof.
  revert ks. induction ls as [|l ls IH]; intros [|k ks] Hl Hk He.
  - done.
  - pose proof (mag_pos _ Hk ltac:(done)). cbn [mag] in *. lia.
  - pose proof (mag_pos _ Hl ltac:(done)). cbn [mag] in *. lia.
  - cbn [mag] in He. pose proof (proj1 Hl) as [Hl0 _]%Forall_cons. pose proof (proj1 Hk) as [Hk0 _]%Forall_cons.
    unfold limb_ok, LIMB_BASE in *.
    assert (l = k /\ mag ls = mag ks) as [-> Hm] by lia. f_equal. apply IH; eauto using limbs_wf_tail.
Qed.

Lemma drop_eq_suffix c l : exists n, l = replicate n c ++ drop_eq c l.
Proof.
  induction l as [|x l [n IH]]; [by exists O|]. cbn [drop_eq]. destruct (Z.eqb_spec x c) as [->|].
  - exists (S n). cbn [replicate app]. by rewrite <- IH.
  - by exists O.
Qed.

Lemma rev_reverse {A} (l : list A) : rev l = reverse l.
Proof. apply rev_alt. Qed.

Lemma pop_zeros_app ls : exists n, ls = pop_zeros ls ++ replicate n 0.
Proof.
  unfold pop_zeros. destruct (drop_eq_suffix 0 (rev ls)) as [n E]. exists n.
  apply (f_equal (@rev Z)) in E. rewrite rev_involutive, rev_app_distr in E. rewrite E at 1. f_equal.
  by rewrite rev_reverse, reverse_replicate.
Qed.

Lemma mag_zeros n : mag (replicate n 0) = 0.
Proof. induction n as [|n IH]; [done|]. cbn [replicate mag]. by rewrite IH. Qed.

Lemma pop_zeros_spec ls : Forall limb_ok ls -> limbs_wf (pop_zeros ls) /\ mag (pop_zeros ls) = mag ls.
Proof.
  intros Hl. destruct (pop_zeros_app ls) as [n E]. split.
  - split; [rewrite E in Hl; by apply Forall_app in Hl as [? _]|].
    unfold pop_zeros. intros Hz. destruct (drop_eq 0 (rev ls)) as [|x t] eqn:Ed; [done|].
    cbn [rev] in Hz. rewrite last_snoc in Hz. injection Hz as ->. by apply drop_eq_head in Ed.
  - rewrite E at 2. rewrite mag_app, mag_zeros. lia.
Qed.

Lemma pop_zeros_wf ls : limbs_wf ls -> pop_zeros ls = ls.
Proof. intros Hw. destruct (pop_zeros_spec ls (proj1 Hw)) as [Hp Hm]. by apply mag_inj. Qed.

(** ** To text *)

Lemma div_pass_spec ws x r :
  limb_ok r -> Forall limb_ok ws -> limb_ok x -> div_pass r (ws ++ [x]) = (r :: ws, x).
Proof.
  assert (Hq : forall a b, limb_ok a -> limb_ok b ->
    (a * LIMB_BASE + b) mod LIMB_BASE = b /\ Z.min u32_max ((a * LIMB_BASE + b) / LIMB_BASE) = a).
  { unfold limb_ok, LIMB_BASE, u32_max. intros a b Ha Hb. rewrite Z.add_comm, Z_mod_plus_full, Z.div_add by lia.
    rewrite Z.mod_small, Z.div_small by lia. lia. }
  intros Hr Hws Hx. revert r Hr. induction Hws as [|w ws Hw Hws IH]; intros r Hr; cbn [app div_pass].
  - destruct (Hq r x Hr Hx) as [-> ->]. done.
  - destruct (Hq r w Hr Hw) as [-> ->]. by rewrite (IH w Hw).
Qed.

Lemma decimal_limbs_spec ls : limbs_wf ls -> decimal_limbs (length ls) ls = ls.
Proof.
  induction ls as [|l ls IH]; intros Hw; [done|]. pose proof (limbs_wf_tail _ _ Hw) as Ht.
  pose proof (proj1 Hw) as [Hl Hls]%Forall_cons. cbn [length decimal_limbs]. cbn [rev].
  rewrite div_pass_spec; [|unfold limb_ok, LIMB_BASE; lia|by rewrite rev_reverse; apply Forall_reverse|done].
  cbn [rev]. rewrite rev_involutive.
  assert (Hp : pop_zeros (ls ++ [0]) = ls).
  { rewrite <- (pop_zeros_wf ls Ht) at 2. unfold pop_zeros. by rewrite rev_app_distr. }
  rewrite Hp. f_equal. destruct ls; [done|]. by apply IH.
Qed.

Lemma concat_pad_value ms :
  Forall limb_ok ms ->
  digits (concat (map show_pad9 ms)) /\ length (concat (map show_pad9 ms)) = (9 * length ms)%nat /\
  dec_value (concat (map show_pad9 ms)) = mag (rev ms).
Proof.
  induction 1 as [|m ms Hm Hms (Hd & Hl & Hv)]; [split_and!; [constructor|done|done]|].
  cbn [map concat rev]. destruct (show_pad9_spec m Hm) as (Hd9 & Hl9 & Hv9). split_and!.
  - by apply Forall_app.
  - rewrite length_app, Hl, Hl9. cbn [length]. lia.
  - rewrite dec_value_app, Hv9, Hv, Hl, mag_app, length_rev. cbn [mag].
    assert (10 ^ Z.of_nat (9 * length ms) = LIMB_BASE ^ Z.of_nat (length ms)) as ->.
    { rewrite Nat2Z.inj_mul, Z.pow_mul_r by lia. done. }
    lia.
Qed.

Lemma to_decimal_spec b :
  limbs_wf (limbs b) -> limbs b <> [] ->
  exists c s, to_decimal_string_unsigned b = c :: s /\ digits (c :: s) /\ c <> 48 /\
    dec_value (c :: s) = mag (limbs b).
Proof.
  intros Hw Hne. unfold to_decimal_string_unsigned, is_zero.
  destruct (limbs b) as [|l0 ls0] eqn:El; [done|]. rewrite decimal_limbs_spec by done.
  set (ls := l0 :: ls0) in *. destruct (rev ls) as [|first rest] eqn:Er.
  { by apply (f_equal (@rev Z)) in Er; rewrite rev_involutive in Er. }
  assert (Hls : ls = rev rest ++ [first]) by (rewrite <- (rev_involutive ls), Er; done).
  pose proof (proj1 Hw) as Hok. rewrite Hls in Hok. apply Forall_app in Hok as [Hrest [Hf _]%Forall_cons].
  assert (Hrest' : Forall limb_ok rest).
  { rewrite <- (rev_involutive rest), (rev_reverse (rev rest)). by apply Forall_reverse. }
  assert (Hf0 : first <> 0) by (intros ->; apply (proj2 Hw); rewrite Hls; apply last_snoc).
  destruct (concat_pad_value rest Hrest') as (Hd & Hl & Hv).
  assert (Hfb : 0 <= first < 10 ^ Z.of_nat 20) by (unfold limb_ok, LIMB_BASE in Hf; cbn; lia).
  destruct (show_spec 20 first Hfb) as (Hds & Hvs & c & s & Es & Hc). rewrite Es in *. cbn [app].
  exists c, (s ++ concat (map show_pad9 rest)).
  assert (Hval : dec_value (c :: s ++ concat (map show_pad9 rest)) = mag ls).
  { change (c :: s ++ concat (map show_pad9 rest)) with ((c :: s) ++ concat (map show_pad9 rest)).
    rewrite dec_value_app, Hvs, Hv, Hl, Hls, mag_app, length_rev. cbn [mag].
    assert (10 ^ Z.of_nat (9 * length rest) = LIMB_BASE ^ Z.of_nat (length rest)) as ->.
    { rewrite Nat2Z.inj_mul, Z.pow_mul_r by lia. done. }
    lia. }
  split_and!; [done| | |done].
  - apply (Forall_app _ (c :: s)). done.
  - destruct Hc as [Hc| ->]; [done|]. intros ->. cbn in Hvs. lia.
Qed.

(** ** From text *)

Lemma parse_u32_chunk s : digits s -> s <> [] -> (length s <= 9)%nat -> parse_u32 s = Some (dec_value s).
Proof.
  intros Hd Hne Hl. unfold parse_u32.
  assert ((match s with 43 :: s' => s' | _ => s end) = s) as ->.
  { destruct Hd as [|c s Hc Hs]; [done|]. destruct c as [|p|p]; try done.
    do 6 (destruct p as [p|p|]; try done); lia. }
  unfold parse_digits. rewrite (proj2 (forallb_digits s) Hd). destruct s as [|c s]; [done|]. cbn [mbind option_bind].
  pose proof (dec_value_bound _ Hd) as Hb.
  assert (10 ^ Z.of_nat (length (c :: s)) <= 10 ^ 9) by (apply Z.pow_le_mono_r; lia).
  destruct (Z.leb_spec (dec_value (c :: s)) u32_max); [done|]. unfold u32_max in *. lia.
Qed.

Lemma parse_chunks_spec fuel s p :
  digits s -> (p <= length s)%nat -> (p <= fuel)%nat ->
  Forall limb_ok (parse_chunks fuel s p) /\ mag (parse_chunks fuel s p) = dec_value (take p s).
Proof.
  intros Hd. revert p. induction fuel as [|fuel IH]; intros p Hp Hf.
  { assert (p = O) as -> by lia. split; [constructor|done]. }
  cbn [parse_chunks]. destruct (Nat.eqb_spec p 0) as [->|Hp0]; [split; [constructor|done]|].
  set (start := (p - 9)%nat) in *. set (chunk := take (p - start) (drop start s)).
  assert (Hcl : length chunk = (p - start)%nat) by (unfold chunk; rewrite length_take, length_drop; lia).
  assert (Hcd : digits chunk) by (apply Forall_take, Forall_drop, Hd).
  rewrite (parse_u32_chunk chunk Hcd); [|intros E; rewrite E in Hcl; cbn in Hcl; lia|lia]. cbn [from_option]. unfold id.
  pose proof (dec_value_bound _ Hcd) as Hb. rewrite Hcl in Hb.
  destruct (IH start ltac:(lia) ltac:(lia)) as [Hok Hm]. split.
  - constructor; [|done]. unfold limb_ok, LIMB_BASE.
    assert (10 ^ Z.of_nat (p - start) <= 10 ^ 9) by (apply Z.pow_le_mono_r; lia). lia.
  - cbn [mag]. rewrite Hm.
    assert (Ht : take p s = take start s ++ chunk).
    { unfold chunk. rewrite <- (take_drop start (take p s)), take_take, <- skipn_firstn_comm.
      rewrite Nat.min_l by lia. done. }
    rewrite Ht, dec_value_app, Hcl.
    destruct (Nat.le_gt_cases 9 p).
    + replace (p - start)%nat with 9%nat by lia. change (10 ^ Z.of_nat 9) with LIMB_BASE. lia.
    + assert (Hs : take start s = []) by (replace start with O by lia; done). rewrite Hs. change (dec_value []) with 0. ring.
Qed.

(** ** The round trip *)

Lemma checked_i128_spec v :
  (i128_min <= v <= i128_max /\ checked_i128 v = Some v) \/
  (~ i128_min <= v <= i128_max /\ checked_i128 v = None).
Proof.
  unfold checked_i128. destruct (Z.leb_spec i128_min v), (Z.leb_spec v i128_max); cbn [andb]; naive_solver lia.
Qed.

Lemma checked_i128_ok v : i128_min <= v <= i128_max -> checked_i128 v = Some v.
Proof. destruct (checked_i128_spec v) as [[_ ?]|[? _]]; tauto. Qed.

Lemma to_i128_loop_sound ls r bp v :
  r <= i128_max -> to_i128_loop ls r bp = Some v -> v = r + bp * LIMB_BASE * mag ls /\ v <= i128_max.
Proof.
  revert r bp. induction ls as [|l ls IH]; intros r bp Hr; cbn [to_i128_loop mag].
  { intros [= <-]. lia. }
  destruct (checked_i128_spec (bp * LIMB_BASE)) as [[_ ->]|[_ ->]]; [|done]. cbn [mbind option_bind].
  destruct (checked_i128_spec (bp * LIMB_BASE * l)) as [[_ ->]|[_ ->]]; [|done]. cbn [mbind option_bind].
  destruct (checked_i128_spec (r + bp * LIMB_BASE * l)) as [[? ->]|[_ ->]]; [|done]. cbn [mbind option_bind].
  intros Hv. apply IH in Hv as [-> Hm]; [|lia]. split; [ring|done].
Qed.

Lemma to_i128_loop_complete ls r bp :
  limbs_wf ls -> 0 <= r -> 0 < bp -> r + bp * LIMB_BASE * mag ls <= i128_max ->
  exists v, to_i128_loop ls r bp = Some v.
Proof.
  revert r bp. induction ls as [|l ls IH]; intros r bp Hw Hr Hbp Hle; [by eexists|].
  pose proof (mag_pos _ Hw ltac:(done)) as Hpos. pose proof (limbs_wf_tail _ _ Hw) as Ht.
  pose proof (proj1 Hw) as [Hl Hls]%Forall_cons. pose proof (mag_nonneg ls Hls) as Hm.
  assert (HB : LIMB_BASE = 1000000000) by done. unfold limb_ok in Hl.
  cbn [mag to_i128_loop] in *.
  assert (Hmin : i128_min <= 0) by done.
  rewrite checked_i128_ok by nia. cbn [mbind option_bind]. rewrite checked_i128_ok by nia. cbn [mbind option_bind].
  rewrite checked_i128_ok by nia. cbn [mbind option_bind]. apply IH; [done|nia|nia|nia].
Qed.

Lemma to_i128_spec b :
  limbs_wf (limbs b) -> to_i128 b = None <-> i128_max < mag (limbs b).
Proof.
  intros Hw. unfold to_i128. destruct (limbs b) as [|l ls] eqn:El; [split; [done|by cbn]|].
  pose proof (proj1 Hw) as [Hl Hls]%Forall_cons. pose proof (limbs_wf_tail _ _ Hw) as Ht.
  pose proof (mag_nonneg ls Hls) as Hm. assert (HB : LIMB_BASE = 1000000000) by done. unfold limb_ok in Hl.
  assert (Hi : i128_min <= 0 /\ 1000000000 <= i128_max) by done.
  rewrite Z.mul_1_l, checked_i128_ok by lia. cbn [mbind option_bind].
  rewrite checked_i128_ok by lia. cbn [mbind option_bind mag]. rewrite Z.add_0_l.
  destruct (to_i128_loop ls l 1) as [v|] eqn:E; cbn [mbind option_bind].
  - apply to_i128_loop_sound in E as [-> Hle]; [|lia].
    split; [|lia]. destruct (negative b); [|done].
    rewrite checked_i128_ok; [done|]. unfold i128_min, i128_max in *. nia.
  - split; [|done]. intros _. destruct (Z.lt_ge_cases i128_max (l + LIMB_BASE * mag ls)); [done|].
    destruct (to_i128_loop_complete ls l 1 Ht) as [v Hv]; [lia..|congruence].
Qed.

Lemma to_i128_range b v : Forall limb_ok (limbs b) -> to_i128 b = Some v -> in_signed 128 v.
Proof.
  intros Hl. assert (Hr : forall w, i128_min <= w <= i128_max -> in_signed 128 w).
  { intros w. unfold in_signed, i128_min, i128_max. cbn. lia. }
  assert (Hi : i128_min <= 0 /\ 1000000000 <= i128_max) by done.
  unfold to_i128. destruct Hl as [|l ls Hl0 Hls]; [intros [= <-]; apply Hr; lia|].
  pose proof (mag_nonneg ls Hls). unfold limb_ok, LIMB_BASE in Hl0.
  rewrite Z.mul_1_l, checked_i128_ok by lia. cbn [mbind option_bind].
  rewrite checked_i128_ok by lia. cbn [mbind option_bind]. rewrite Z.add_0_l.
  destruct (to_i128_loop ls l 1) as [r|] eqn:E; [|done]. cbn [mbind option_bind].
  apply to_i128_loop_sound in E as [-> Hle]; [|lia]. unfold LIMB_BASE in *. destruct (negative b).
  - destruct (checked_i128_spec (- (l + 1 * 1000000000 * mag ls))) as [[Hw ->]|[_ ->]]; [|done].
    intros [= <-]. by apply Hr.
  - intros [= <-]. apply Hr. lia.
Qed.

(** What the constructors of [NumericValue] build. *)
Definition numeric_wf (n : NumericValue) : Prop :=
  in_unsigned 32 (scale n) /\
  match big n with
  | None => in_signed 128 (coefficient n)
  | Some b =>
      coefficient n = 0 /\ limbs_wf (limbs b) /\ Z.of_nat (length (limbs b)) <= MAX_BIG_LIMBS /\
      (if negative b then 2 ^ 127 else i128_max) < mag (limbs b)
  end.

Lemma from_decimal_spec s neg :
  digits s ->
  let b := from_decimal_string s neg in
  limbs_wf (limbs b) /\ mag (limbs b) = dec_value s /\ negative b = (neg && negb (is_zero b))%bool.
Proof.
  intros Hd. unfold from_decimal_string. pose proof (drop_eq_value s) as Hv.
  pose proof (drop_eq_digits 48 s Hd) as Hd'. destruct (drop_eq 48 s) as [|c t] eqn:E; cbn zeta.
  { split_and!; [split; [constructor|done]|done|by rewrite andb_false_r]. }
  set (cs := parse_chunks _ _ _). unfold normalize, is_zero. cbn [limbs negative].
  destruct (parse_chunks_spec (length (c :: t)) (c :: t) (length (c :: t)) Hd') as [Hok Hm]; [done..|].
  fold cs in Hok, Hm. rewrite firstn_all in Hm. destruct (pop_zeros_spec cs Hok) as [Hw Hmag].
  split_and!; [done|congruence|]. destruct (pop_zeros cs); cbn; [by rewrite andb_false_r|by rewrite andb_true_r].
Qed.

Lemma ws_prefix_none c s : 45 <= c <= 57 -> ws_prefix (c :: s) = None.
Proof.
  intros Hc. unfold ws_prefix.
  repeat match goal with
  | |- context [?x =? ?y] => destruct (Z.eqb_spec x y); [lia|]
  | |- context [?x <=? ?y] => destruct (Z.leb_spec x y); try lia
  end; cbn [andb orb]; destruct s as [|b [|d s]]; done.
Qed.

Lemma ws_suffix_none c s : digits s -> 48 <= c <= 57 -> ws_suffix (c :: s) = None.
Proof.
  intros Hs Hc. unfold ws_suffix.
  assert ((((9 <=? c) && (c <=? 13)) || (c =? 32))%bool = false) as -> by lia.
  destruct Hs as [|b s Hb [|a t Ha Ht]]; [done| |].
  - destruct (Z.eqb_spec b 0xC2); [lia|done].
  - destruct (Z.eqb_spec b 0xC2); [lia|]. cbn [andb]. by rewrite ws_prefix_none by lia.
Qed.

Lemma strip_none f n s : f s = None -> strip f n s = s.
Proof. intros Hf. destruct n; [done|]. cbn [strip]. by rewrite Hf. Qed.

(** Trimming leaves a signed run of digits alone. *)
Lemma trim_digits c s : 45 <= c <= 57 -> digits s -> (s = [] -> 48 <= c) -> trim (c :: s) = c :: s.
Proof.
  intros Hc Hs Hn. unfold trim. rewrite (strip_none ws_prefix) by by apply ws_prefix_none.
  rewrite strip_none; [by rewrite rev_involutive|].
  destruct s as [|x s _] using rev_ind; [apply ws_suffix_none; [constructor|by auto with lia]|].
  apply Forall_app in Hs as [Hs [Hx _]%Forall_cons]. cbn [rev]. rewrite rev_app_distr. cbn [rev app].
  destruct (Z.lt_ge_cases c 48).
  - unfold ws_suffix.
    assert ((((9 <=? x) && (x <=? 13)) || (x =? 32))%bool = false) as -> by lia.
    assert (Hall : Forall (fun y => 45 <= y <= 57) (rev s ++ [c])).
    { apply Forall_app. split; [|by constructor]. rewrite rev_reverse. apply Forall_reverse.
      eapply Forall_impl; [exact Hs|]. cbn. lia. }
    destruct Hall as [|b t Hb [|a u Ha Hu]]; [done| |].
    + destruct (Z.eqb_spec b 0xC2); [lia|done].
    + destruct (Z.eqb_spec b 0xC2); [lia|]. cbn [andb]. by rewrite ws_prefix_none by lia.
  - apply ws_suffix_none; [|lia]. apply Forall_app. split; [rewrite rev_reverse; by apply Forall_reverse|].
    constructor; [lia|constructor].
Qed.

Lemma parse_digits_spec c s : digits (c :: s) -> parse_digits (c :: s) = Some (dec_value (c :: s)).
Proof. intros Hd. unfold parse_digits. by rewrite (proj2 (forallb_digits _) Hd). Qed.

Lemma parse_i128_digits c s : digits (c :: s) -> parse_i128 (c :: s) = checked_i128 (dec_value (c :: s)).
Proof.
  intros Hd. pose proof Hd as [Hc _]%Forall_cons.
  assert (parse_i128 (c :: s) = (v ← parse_digits (c :: s); checked_i128 v)) as ->.
  { unfold parse_i128. destruct c as [|p|p]; try done. do 6 (destruct p as [p|p|]; try done); lia. }
  by rewrite parse_digits_spec.
Qed.

(** The digits of a big coefficient determine it and are not too many. *)
Lemma big_text b :
  limbs_wf (limbs b) -> limbs b <> [] -> Z.of_nat (length (limbs b)) <= MAX_BIG_LIMBS ->
  exists c s, to_decimal_string_unsigned b = c :: s /\ digits (c :: s) /\
    dec_value (c :: s) = mag (limbs b) /\ from_decimal_string (c :: s) (negative b) = b /\
    exceeds_big_decimal_digits (c :: s) = false.
Proof.
  intros Hw Hne Hlen. destruct (to_decimal_spec b Hw Hne) as (c & s & Es & Hd & Hc & Hv).
  exists c, s. split_and!; [done..| |].
  - destruct (from_decimal_spec (c :: s) (negative b) Hd) as (Hw' & Hm' & Hn').
    assert (Hlimbs : limbs (from_decimal_string (c :: s) (negative b)) = limbs b) by (apply mag_inj; congruence).
    destruct (from_decimal_string (c :: s) (negative b)) as [ls ng], b as [ls0 ng0]. cbn [limbs negative] in *.
    unfold is_zero in Hn'. cbn [limbs] in Hn'. subst ls ng. destruct ls0; [done|]. by rewrite andb_true_r.
  - unfold exceeds_big_decimal_digits. cbn [drop_eq]. destruct (Z.eqb_spec c 48); [done|].
    pose proof (dec_value_lead c s Hd Hc) as Hlead. pose proof (mag_bound _ (proj1 Hw)) as Hub.
    apply Z.ltb_ge. cbn [length]. unfold MAX_BIG_DECIMAL_DIGITS, LIMB_BASE, MAX_BIG_LIMBS in *.
    change 1000000000 with (10 ^ 9) in Hub. rewrite <- Z.pow_mul_r in Hub by lia.
    assert (Z.of_nat (length s) < 9 * Z.of_nat (length (limbs b))); [|lia].
    apply (Z.pow_lt_mono_r_iff 10); lia.
Qed.

Lemma numeric_text_roundtrip n b :
  numeric_wf n -> big n = Some b -> from_coefficient_string (coefficient_to_string n) (scale n) = Some n.
Proof.
  intros [Hsc Hw] Hb. rewrite Hb in Hw. destruct Hw as (Hc0 & Hw & Hlen & Hmag).
  assert (Hne : limbs b <> []).
  { intros E. rewrite E in Hmag. cbn in Hmag. destruct (negative b); unfold i128_max in Hmag; lia. }
  destruct (big_text b Hw Hne Hlen) as (c & s & Es & Hd & Hv & Hbig & Hdig).
  pose proof Hd as [Hcr Hds]%Forall_cons. rewrite <- Hv in Hmag.
  assert (Hend : from_big b (scale n) = n).
  { unfold from_big. rewrite (proj2 (to_i128_spec b Hw)).
    - destruct n as [co sc bg]. cbn in *. by subst.
    - rewrite <- Hv. destruct (negative b); unfold i128_max in *; lia. }
  apply Z.ltb_ge in Hlen. pose proof (proj2 (forallb_digits _) Hd) as Hfd.
  unfold coefficient_to_string, from_coefficient_string. rewrite Hb, Es. destruct (negative b) eqn:En.
  - rewrite trim_digits by (done || lia). cbn zeta.
    assert (parse_i128 (45 :: c :: s) = None) as ->.
    { cbn [parse_i128]. rewrite parse_digits_spec by done. cbn [mbind option_bind].
      destruct (checked_i128_spec (- dec_value (c :: s))) as [[Hin _]|[_ ->]]; [unfold i128_min in *; lia|done]. }
    rewrite Z.eqb_refl, Hfd, Hdig. cbn [negb]. by rewrite Hbig, Hend, Hlen.
  - rewrite trim_digits by (done || lia). cbn zeta.
    assert (parse_i128 (c :: s) = None) as ->.
    { rewrite parse_i128_digits by done.
      destruct (checked_i128_spec (dec_value (c :: s))) as [[Hin _]|[_ ->]]; [lia|done]. }
    rewrite (proj2 (Z.eqb_neq c 45)), Hfd, Hdig by lia. cbn [negb]. by rewrite Hbig, Hend, Hlen.
Qed.

(** Whatever text is accepted, the value is well formed. *)
Lemma from_coefficient_wf s sc n :
  in_unsigned 32 sc -> from_coefficient_string s sc = Some n -> numeric_wf n.
Proof.
  intros Hsc. unfold from_coefficient_string. generalize (trim s). clear s. intros [|c s]; [done|]. cbn zeta.
  assert (Hp : forall v, parse_i128 (c :: s) = Some v -> in_signed 128 v).
  { assert (Hck : forall o v, (w ← o; checked_i128 w) = Some v -> in_signed 128 v).
    { intros [w|] v; [|done]. cbn [mbind option_bind].
      destruct (checked_i128_spec w) as [[Hw ->]|[_ ->]]; [|done]. intros [= <-].
      unfold in_signed, i128_min, i128_max in *. cbn. lia. }
    assert (Hck' : forall o v, (w ← o; checked_i128 (- w)) = Some v -> in_signed 128 v).
    { intros [w|] v; [|done]. apply (Hck (Some (- w))). }
    intros v. unfold parse_i128. destruct c as [|p|p]; eauto.
    do 6 (destruct p as [p|p|]; eauto). }
  destruct (parse_i128 (c :: s)) as [v|] eqn:Ep.
  { intros [= <-]. split; [done|]. by apply Hp. }
  set (ds := if c =? 45 then s else c :: s).
  destruct (forallb is_digit ds) eqn:Hfd; [|done]. apply forallb_digits in Hfd. cbn [negb].
  destruct (exceeds_big_decimal_digits ds); [done|].
  destruct (from_decimal_spec ds (c =? 45) Hfd) as (Hw & Hm & Hn). set (b := from_decimal_string ds (c =? 45)) in *.
  destruct (Z.ltb_spec MAX_BIG_LIMBS (Z.of_nat (length (limbs b)))); [done|]. intros [= <-].
  unfold from_big. destruct (to_i128 b) as [v|] eqn:Eto.
  - split; [done|]. cbn [big coefficient]. by apply (to_i128_range b v (proj1 Hw)).
  - apply to_i128_spec in Eto; [|done]. split; [done|]. cbn [big coefficient]. split_and!; try done.
    destruct (negative b) eqn:En; [|done]. symmetry in Hn. apply andb_true_iff in Hn as [Hc _].
    unfold ds in Hfd, Hm. rewrite Hc in Hfd, Hm. apply Z.eqb_eq in Hc as ->.
    destruct s as [|d s]; [change (dec_value []) with 0 in Hm; unfold i128_max in Eto; lia|].
    cbn [parse_i128] in Ep. rewrite parse_digits_spec in Ep by done. cbn [mbind option_bind] in Ep.
    destruct (checked_i128_spec (- dec_value (d :: s))) as [[_ E]|[Hr _]]; [congruence|].
    unfold i128_min, i128_max in *. lia.
Qed.

(** The text of a big coefficient is short ASCII. *)
Lemma coefficient_ascii n b :
  numeric_wf n -> big n = Some b ->
  Forall (fun c => 45 <= c <= 57) (coefficient_to_string n) /\
  Z.of_nat (length (coefficient_to_string n)) <= MAX_BIG_DECIMAL_DIGITS + 1.
Proof.
  intros [_ Hw] Hb. rewrite Hb in Hw. destruct Hw as (_ & Hw & Hlen & Hmag).
  assert (Hne : limbs b <> []).
  { intros E. rewrite E in Hmag. cbn in Hmag. destruct (negative b); unfold i128_max in Hmag; lia. }
  destruct (big_text b Hw Hne Hlen) as (c & s & Es & Hd & _ & _ & Hdig).
  destruct (to_decimal_spec b Hw Hne) as (c' & s' & Es' & _ & Hc' & _). rewrite Es in Es'. injection Es' as <- <-.
  unfold exceeds_big_decimal_digits in Hdig. cbn [drop_eq] in Hdig.
  destruct (Z.eqb_spec c 48); [done|]. apply Z.ltb_ge in Hdig.
  assert (Hr : Forall (fun c => 45 <= c <= 57) (c :: s)) by (eapply Forall_impl; [exact Hd|]; cbn; lia).
  unfold coefficient_to_string. rewrite Hb, Es. destruct (negative b); split; try done; cbn [length] in *; try lia.
  constructor; [lia|done].
Qed.
