(* ===== verification/WalTypes.v ===== *)
(** * Values, descriptors and records of the write-ahead log
    ([crates/aiondb-wal/src/record.rs], [crates/aiondb-core/src/value.rs],
    [data_type.rs], [row.rs], [temporal/pg_date.rs],
    [crates/aiondb-storage-api/src/descriptors.rs])

    The data the log codec reads and writes.  Identifiers are their [u64], floating-point
    numbers their bit patterns, strings their UTF-8 bytes.  The date and time types of
    the [time] crate and JSON values of [serde_json] come from outside the repository:
    they are the class [ExternalTypes], with what their documentation says of the
    accessors and constructors used here in [ExternalLaws]. *)

From S2P Require Import Prelude.
From S2P Require Import Bytes.
From S2P Require Import BinaryIo.
From S2P Require Import BigNumeric.
From S2P Require Import TxManager.

(** ** Types of other packages *)

(** [time::Month], with its numbering. *)
Inductive Month : Type :=
| January | February | March | April | May | June
| July | August | September | October | November | December.

Definition month_number (m : Month) : Z :=
  match m with
  | January => 1 | February => 2 | March => 3 | April => 4 | May => 5 | June => 6
  | July => 7 | August => 8 | September => 9 | October => 10 | November => 11 | December => 12
  end.

Definition month_try_from (v : Z) : option Month :=
  match v with
  | 1 => Some January | 2 => Some February | 3 => Some March | 4 => Some April
  | 5 => Some May | 6 => Some June | 7 => Some July | 8 => Some August
  | 9 => Some September | 10 => Some October | 11 => Some November | 12 => Some December
  | _ => None
  end.

Class ExternalTypes : Type := {
  Date : Type;
  date_year : Date -> Z;
  date_month : Date -> Month;
  date_day : Date -> Z;
  from_calendar_date : Z -> Month -> Z -> option Date;
  Time : Type;
  time_hour : Time -> Z;
  time_minute : Time -> Z;
  time_second : Time -> Z;
  time_nanosecond : Time -> Z;
  from_hms_nano : Z -> Z -> Z -> Z -> option Time;
  UtcOffset : Type;
  whole_seconds : UtcOffset -> Z;
  as_hms : UtcOffset -> Z * Z * Z;
  from_whole_seconds : Z -> option UtcOffset;
  PrimitiveDateTime : Type;
  pdt_new : Date -> Time -> PrimitiveDateTime;
  pdt_date : PrimitiveDateTime -> Date;
  pdt_time : PrimitiveDateTime -> Time;
  OffsetDateTime : Type;
  assume_offset : PrimitiveDateTime -> UtcOffset -> OffsetDateTime;
  odt_date : OffsetDateTime -> Date;
  odt_time : OffsetDateTime -> Time;
  odt_offset : OffsetDateTime -> UtcOffset;
  JsonValue : Type;
  #[global] json_eq_dec :: EqDecision JsonValue;
  json_to_string : JsonValue -> list Z;
  json_from_str : list Z -> option JsonValue
}.

Class ExternalLaws `{ExternalTypes} : Prop := {
  date_parts d : from_calendar_date (date_year d) (date_month d) (date_day d) = Some d;
  date_range d : in_signed 32 (date_year d) /\ in_unsigned 8 (date_day d);
  time_parts t :
    from_hms_nano (time_hour t) (time_minute t) (time_second t) (time_nanosecond t) = Some t;
  time_range t :
    in_unsigned 8 (time_hour t) /\ in_unsigned 8 (time_minute t) /\
    in_unsigned 8 (time_second t) /\ in_unsigned 32 (time_nanosecond t);
  offset_seconds o : from_whole_seconds (whole_seconds o) = Some o;
  offset_range o : in_signed 32 (whole_seconds o);
  offset_hms o : forall h m s, as_hms o = (h, m, s) -> h * 3600 + m * 60 + s = whole_seconds o;
  pdt_parts p : pdt_new (pdt_date p) (pdt_time p) = p;
  odt_parts o : assume_offset (pdt_new (odt_date o) (odt_time o)) (odt_offset o) = o;
  json_text j : Forall byte (json_to_string j) /\ utf8_valid (json_to_string j) = true
}.

(** ** Dates beyond the range of the [time] crate *)

Record PgDate : Type := mkPgDate { pg_year : Z; pg_month : Month; pg_day : Z }.

Definition is_leap_year (year : Z) : bool :=
  ((Z.rem year 4 =? 0) && negb (Z.rem year 100 =? 0)) || (Z.rem year 400 =? 0).

Definition days_in_month (year : Z) (m : Month) : Z :=
  match m with
  | January | March | May | July | August | October | December => 31
  | April | June | September | November => 30
  | February => if is_leap_year year then 29 else 28
  end.

Definition pg_from_calendar_date (year : Z) (m : Month) (day : Z) : option PgDate :=
  if (day =? 0) || (days_in_month year m <? day) then None else Some (mkPgDate year m day).

(** ** Types and values *)

Inductive VectorElementType : Type := Float32 | Float16 | Uint8.

Inductive DataType : Type :=
| DInt | DBigInt | DReal | DDouble | DNumeric | DMoney | DText | DBoolean | DBlob | DTimestamp
| DDate | DTime | DTimeTz | DInterval | DTid | DUuid | DTimestampTz | DPgLsn | DJsonb | DMacAddr
| DMacAddr8
| DVector (dims : Z) (element_type : VectorElementType)
| DArray (inner : DataType).

Record IntervalValue : Type := mkInterval { months : Z; days : Z; micros : Z }.

Record TidValue : Type := mkTid { block : Z; offset : Z }.

Record VectorValue : Type := mkVector { vdims : Z; values : list Z }.

(** [VectorValue::new] derives the dimension from the values. *)
Definition vector_new (_ : Z) (vs : list Z) : VectorValue :=
  mkVector (Z.min u32_max (Z.of_nat (length vs))) vs.

Section Values.
Context `{ExternalTypes}.

Inductive Value : Type :=
| VNull
| VInt (v : Z)
| VBigInt (v : Z)
| VReal (bits : Z)
| VDouble (bits : Z)
| VNumeric (n : NumericValue)
| VMoney (v : Z)
| VText (s : list Z)
| VBoolean (b : bool)
| VBlob (bs : list Z)
| VTimestamp (dt : PrimitiveDateTime)
| VDate (d : Date)
| VLargeDate (d : PgDate)
| VTime (t : Time)
| VTimeTz (t : Time) (o : UtcOffset)
| VInterval (iv : IntervalValue)
| VUuid (bs : list Z)
| VTimestampTz (odt : OffsetDateTime)
| VTid (t : TidValue)
| VPgLsn (v : Z)
| VJsonb (j : JsonValue)
| VMacAddr (bs : list Z)
| VMacAddr8 (bs : list Z)
| VVector (vv : VectorValue)
| VArray (elems : list Value).

Definition Row : Type := list Value.

(** ** Storage descriptors *)

Record StorageColumn : Type := mkColumn { column_id : Z; data_type : DataType; nullable : bool }.

Record StorageShardConfig : Type := mkShard {
  shard_key_columns : list Z;
  shard_count : Z;
  virtual_nodes_per_shard : Z
}.

Record TableStorageDescriptor : Type := mkTable {
  table_id : Z;
  columns : list StorageColumn;
  primary_key : option (list Z);
  shard_config : option StorageShardConfig
}.

Record IndexKeyColumn : Type := mkKeyColumn {
  key_column_id : Z;
  descending : bool;
  nulls_first : bool
}.

Inductive StoredVectorMetric : Type := L2 | Cosine | InnerProduct | Manhattan.

Inductive StoredQuantizationKind : Type := QNone | QScalar | QBinary | QProduct.

Record HnswStorageOptions : Type := mkHnsw {
  hnsw_m : Z;
  ef_construction : Z;
  hnsw_metric : StoredVectorMetric;
  quantization : StoredQuantizationKind;
  prenormalised : bool
}.

Record IvfFlatStorageOptions : Type := mkIvf { nlist : Z; nprobe : Z; ivf_metric : StoredVectorMetric }.

Record IndexStorageDescriptor : Type := mkIndex {
  index_id : Z;
  index_table_id : Z;
  unique : bool;
  nulls_not_distinct : bool;
  gin : bool;
  key_columns : list IndexKeyColumn;
  include_columns : list Z;
  hnsw_options : option HnswStorageOptions;
  ivf_flat_options : option IvfFlatStorageOptions
}.

(** ** Records *)

Inductive WalRecord : Type :=
| BeginTxn (txn_id : Z) (isolation : IsolationLevel)
| CommitTxn (txn_id commit_ts : Z)
| AbortTxn (txn_id : Z)
| InsertRow (txn_id table_id tuple_id : Z) (row : Row)
| DeleteRow (txn_id table_id tuple_id : Z)
| UpdateRow (txn_id table_id old_tuple_id new_tuple_id : Z) (row : Row)
| AutocommitInsertRow (txn_id table_id tuple_id : Z) (row : Row)
| AutocommitDeleteRow (txn_id table_id tuple_id : Z)
| AutocommitUpdateRow (txn_id table_id old_tuple_id new_tuple_id : Z) (row : Row)
| CreateTable (txn_id : Z) (descriptor : TableStorageDescriptor)
| DropTable (txn_id table_id : Z)
| CreateIndex (txn_id : Z) (descriptor : IndexStorageDescriptor)
| DropIndex (txn_id index_id : Z)
| AlterTable (txn_id : Z) (descriptor : TableStorageDescriptor)
| Checkpoint (last_committed_lsn : Z)
| UpdateStatistics (table_id row_count total_bytes dead_row_count : Z) (column_stats : list
    (Z * Z * Z * Z))
| FullPageImage (relation_id page_number : Z) (page_data : list Z)
| FullPageImageBatch (relation_id : Z) (pages : list (Z * list Z))
| PagePatch (relation_id page_number : Z) (segments : list (Z * list Z))
| PagePatchBatch (relation_id : Z) (patches : list (Z * list (Z * list Z)))
| PageSetU64Batch (relation_id : Z) (updates : list (Z * Z * Z))
| DiskBtreeMetaUpdate (relation_id root_page height page_count free_list_head : Z)
| DiskBtreeLeafInsert (relation_id page_number key value : Z)
| DiskBtreeLeafDelete (relation_id page_number key value : Z)
| DiskBtreeLeafSplit (relation_id left_page right_page old_right_sibling separator : Z)
    (left_entries right_entries : list (Z * Z))
| DiskBtreeInternalInsert (relation_id page_number separator child_page : Z)
| DiskBtreeInternalSplit
    (relation_id left_page right_page promoted_separator left_first_child right_first_child : Z)
      (left_entries right_entries : list (Z * Z))
| DiskBtreeRootGrow (relation_id page_number first_child separator right_child : Z)
| DiskBtreeInternalDelete (relation_id page_number separator child_page : Z)
| DiskBtreeLeafRedistribute
    (relation_id left_page right_page parent_page parent_slot parent_first_child : Z)
      (left_entries right_entries : list (Z * Z)) (right_right_sibling new_separator : Z)
| DiskBtreeInternalRedistribute
    (relation_id left_page right_page parent_page parent_slot parent_first_child left_first_child
      right_first_child : Z) (left_entries right_entries : list (Z * Z)) (new_separator : Z)
| DiskBtreeLeafMerge
    (relation_id left_page right_page parent_page parent_first_child removed_separator : Z)
      (left_entries : list (Z * Z)) (new_right_sibling next_free_page : Z)
| DiskBtreeInternalMerge
    (relation_id left_page right_page parent_page parent_first_child removed_separator
      left_first_child : Z) (left_entries : list (Z * Z)) (next_free_page : Z)
| DiskBtreeRootShrinkLeaf (relation_id root_page : Z) (root_entries : list (Z * Z))
    (right_sibling : Z) (freed_pages : list (Z * Z))
| DiskBtreeRootShrinkInternal (relation_id root_page root_first_child : Z)
    (root_entries freed_pages : list (Z * Z))
| DiskBtreeInternalCollapse
    (relation_id parent_page parent_slot parent_first_child replacement_child removed_page
      next_free_page : Z)
| DiskBtreeRootPromoteSingleChild (relation_id new_root_page removed_root_page next_free_page : Z)
| DiskBtreeRootPromoteCollapsedChain (relation_id new_root_page : Z) (freed_pages : list (Z * Z))
| DiskBtreeInternalCollapseChain (relation_id : Z) (steps : list (Z * Z * Z * Z * Z * Z))
| PagedRowRef (txn_id table_id tuple_id : Z)
| CatalogCreateSchema (txn_id : Z) (descriptor_json : list Z)
| CatalogDropSchema (txn_id schema_id_raw : Z)
| CatalogCreateRole (txn_id : Z) (descriptor_json : list Z)
| CatalogAlterRole (txn_id : Z) (descriptor_json : list Z)
| CatalogDropRole (txn_id : Z) (role_name : list Z)
| CatalogCreateView (txn_id : Z) (descriptor_json : list Z)
| CatalogDropView (txn_id view_id_raw : Z)
| CatalogCreateSequence (txn_id : Z) (descriptor_json : list Z)
| CatalogDropSequence (txn_id sequence_id_raw : Z)
| CatalogAlterSequence (txn_id : Z) (descriptor_json : list Z)
| CatalogCreateFunction (txn_id : Z) (descriptor_json : list Z)
| CatalogDropFunction (txn_id : Z) (function_name : list Z)
| CatalogCreateTrigger (txn_id : Z) (descriptor_json : list Z)
| CatalogDropTrigger (txn_id : Z) (trigger_name table_name : list Z)
| CatalogGrantPrivilege (txn_id : Z) (descriptor_json : list Z)
| CatalogRevokePrivilege (txn_id : Z) (descriptor_json : list Z)
| CatalogSetTableDescriptor (txn_id : Z) (descriptor_json : list Z)
| CatalogSetIndexDescriptor (txn_id : Z) (descriptor_json : list Z)
| CatalogCreateTenant (txn_id : Z) (descriptor_json : list Z)
| CatalogDropTenant (txn_id : Z) (tenant_name : list Z)
| CatalogDropTable (txn_id table_id_raw : Z)
| CatalogDropIndex (txn_id index_id_raw : Z)
| CatalogUpdateStatistics (txn_id : Z) (descriptor_json : list Z)
| CatalogCreateNodeLabel (txn_id : Z) (descriptor_json : list Z)
| CatalogCreateEdgeLabel (txn_id : Z) (descriptor_json : list Z)
| CatalogDropNodeLabel (txn_id : Z) (label_name : list Z)
| CatalogDropEdgeLabel (txn_id : Z) (label_name : list Z)
| CatalogSetSequenceValue (txn_id sequence_id_raw current_value : Z) (is_called : bool)
| CatalogCreateDomain (txn_id : Z) (descriptor_json : list Z)
| CatalogDropDomain (txn_id : Z) (domain_name : list Z)
| CatalogAlterDomain (txn_id : Z) (descriptor_json : list Z)
| CatalogCreateUserType (txn_id : Z) (descriptor_json : list Z)
| CatalogDropUserType (txn_id : Z) (type_name : list Z)
| CatalogAlterUserType (txn_id : Z) (descriptor_json : list Z)
| CatalogCreateCast (txn_id : Z) (descriptor_json : list Z)
| CatalogDropCast (txn_id : Z) (source_type target_type : list Z)
| CatalogCreatePolicy (txn_id : Z) (descriptor_json : list Z)
| CatalogDropPolicy (txn_id : Z) (policy_name table_name : list Z)
| CatalogAlterPolicy (txn_id : Z) (descriptor_json : list Z)
| CatalogCreateRule (txn_id : Z) (descriptor_json : list Z)
| CatalogDropRule (txn_id : Z) (rule_name table_name : list Z)
| CatalogSetComment (txn_id : Z) (descriptor_json : list Z)
| CatalogDropComment (txn_id : Z) (object_type object_identity : list Z)
| RegisterEdgeTable (table_id source_col target_col : Z)
| AdjacencyInsert (table_id : Z) (source_id target_id : Value) (edge_tuple_id : Z)
| AdjacencyRemove (table_id : Z) (source_id target_id : Value) (edge_tuple_id : Z).

Definition tag (r : WalRecord) : Z :=
  match r with
  | BeginTxn _ _ => 0
  | CommitTxn _ _ => 1
  | AbortTxn _ => 2
  | InsertRow _ _ _ _ => 3
  | DeleteRow _ _ _ => 4
  | UpdateRow _ _ _ _ _ => 5
  | AutocommitInsertRow _ _ _ _ => 68
  | AutocommitDeleteRow _ _ _ => 69
  | AutocommitUpdateRow _ _ _ _ _ => 70
  | CreateTable _ _ => 6
  | DropTable _ _ => 7
  | CreateIndex _ _ => 8
  | DropIndex _ _ => 9
  | AlterTable _ _ => 10
  | Checkpoint _ => 11
  | UpdateStatistics _ _ _ _ _ => 12
  | FullPageImage _ _ _ => 44
  | FullPageImageBatch _ _ => 46
  | PagePatch _ _ _ => 47
  | PagePatchBatch _ _ => 48
  | PageSetU64Batch _ _ => 49
  | DiskBtreeMetaUpdate _ _ _ _ _ => 50
  | DiskBtreeLeafInsert _ _ _ _ => 51
  | DiskBtreeLeafDelete _ _ _ _ => 52
  | DiskBtreeLeafSplit _ _ _ _ _ _ _ => 53
  | DiskBtreeInternalInsert _ _ _ _ => 54
  | DiskBtreeInternalSplit _ _ _ _ _ _ _ _ => 55
  | DiskBtreeRootGrow _ _ _ _ _ => 56
  | DiskBtreeInternalDelete _ _ _ _ => 57
  | DiskBtreeLeafRedistribute _ _ _ _ _ _ _ _ _ _ => 58
  | DiskBtreeInternalRedistribute _ _ _ _ _ _ _ _ _ _ _ => 59
  | DiskBtreeLeafMerge _ _ _ _ _ _ _ _ _ => 60
  | DiskBtreeInternalMerge _ _ _ _ _ _ _ _ _ => 61
  | DiskBtreeRootShrinkLeaf _ _ _ _ _ => 62
  | DiskBtreeRootShrinkInternal _ _ _ _ _ => 63
  | DiskBtreeInternalCollapse _ _ _ _ _ _ _ => 64
  | DiskBtreeRootPromoteSingleChild _ _ _ _ => 65
  | DiskBtreeRootPromoteCollapsedChain _ _ _ => 66
  | DiskBtreeInternalCollapseChain _ _ => 67
  | PagedRowRef _ _ _ => 45
  | CatalogCreateSchema _ _ => 13
  | CatalogDropSchema _ _ => 14
  | CatalogCreateRole _ _ => 15
  | CatalogAlterRole _ _ => 16
  | CatalogDropRole _ _ => 17
  | CatalogCreateView _ _ => 18
  | CatalogDropView _ _ => 19
  | CatalogCreateSequence _ _ => 20
  | CatalogDropSequence _ _ => 21
  | CatalogAlterSequence _ _ => 22
  | CatalogCreateFunction _ _ => 23
  | CatalogDropFunction _ _ => 24
  | CatalogCreateTrigger _ _ => 25
  | CatalogDropTrigger _ _ _ => 26
  | CatalogGrantPrivilege _ _ => 27
  | CatalogRevokePrivilege _ _ => 28
  | CatalogSetTableDescriptor _ _ => 29
  | CatalogSetIndexDescriptor _ _ => 40
  | CatalogCreateTenant _ _ => 41
  | CatalogDropTenant _ _ => 42
  | CatalogDropTable _ _ => 33
  | CatalogDropIndex _ _ => 34
  | CatalogUpdateStatistics _ _ => 35
  | CatalogCreateNodeLabel _ _ => 36
  | CatalogCreateEdgeLabel _ _ => 37
  | CatalogDropNodeLabel _ _ => 38
  | CatalogDropEdgeLabel _ _ => 39
  | CatalogSetSequenceValue _ _ _ _ => 43
  | CatalogCreateDomain _ _ => 71
  | CatalogDropDomain _ _ => 72
  | CatalogAlterDomain _ _ => 73
  | CatalogCreateUserType _ _ => 74
  | CatalogDropUserType _ _ => 75
  | CatalogAlterUserType _ _ => 76
  | CatalogCreateCast _ _ => 77
  | CatalogDropCast _ _ _ => 78
  | CatalogCreatePolicy _ _ => 79
  | CatalogDropPolicy _ _ _ => 80
  | CatalogAlterPolicy _ _ => 81
  | CatalogCreateRule _ _ => 82
  | CatalogDropRule _ _ _ => 83
  | CatalogSetComment _ _ => 84
  | CatalogDropComment _ _ _ => 85
  | RegisterEdgeTable _ _ _ => 30
  | AdjacencyInsert _ _ _ _ => 31
  | AdjacencyRemove _ _ _ _ => 32
  end.

Record WalEntry : Type := mkEntry {
  lsn : Z;
  prev_lsn : Z;
  database_id : Z;
  record : WalRecord
}.

Definition LEGACY_DATABASE_ID : Z := 1.

End Values.
