(* ===== verification/WalValue.v ===== *)
(** * Values and descriptors in the log ([crates/aiondb-wal/src/codec.rs])

    Writing and reading of values, types, rows, and table and index descriptors, up to
    [IsolationLevel]; then the round trip of each and what a reader can return.

    The depth counter of the recursive readers is the fuel of their definitions: the
    source starts at depth 0 and refuses depths above [MAX_NESTING_DEPTH], which is 129
    levels.  Capacities reserved in advance are not modelled. *)

From S2P Require Import Prelude.
From S2P Require Import Bytes.
From S2P Require Import BinaryIo.
From S2P Require Import BigNumeric.
From S2P Require Import TxManager.
From S2P Require Import WalTypes.

Definition MAX_NESTING_DEPTH : Z := 128.
Definition MAX_COLLECTION_ITEMS : Z := 1000000.
Definition MAX_VECTOR_DIMS : Z := 1000000.
Definition MAX_COLUMN_ORDINAL : Z := 1000000.
Definition MAX_FULL_PAGE_IMAGE_BYTES : Z := 64 * 1024.
Definition MAX_STORAGE_SHARD_COUNT : Z := 2 ^ 16.
Definition MAX_STORAGE_VIRTUAL_NODES_PER_SHARD : Z := 4096.
Definition MAX_STORAGE_HASH_RING_VIRTUAL_NODES : Z := 2 ^ 20.

(** ** Counts *)

Definition read_bounded_u32_count (limit : Z) : Get Z :=
  count ← read_u32;
  if limit <? count then get_err else mret count.

Definition read_bounded_u64_usize (limit : Z) : Get Z :=
  value ← read_u64;
  if limit <? value then get_err else mret value.

Definition write_bounded_u32_count (count limit : Z) : Put :=
  if limit <? count then put_err
  else if u32_max <? count then put_err
  else write_u32 count.

(** A count and its elements, as every collection is written and read. *)
Definition write_list {A} (p : A -> Put) (l : list A) : Put :=
  (write_bounded_u32_count (len l) MAX_COLLECTION_ITEMS ;; put_all p l).

Definition read_list {A} (g : Get A) : Get (list A) :=
  count ← read_bounded_u32_count MAX_COLLECTION_ITEMS;
  get_n g (Z.to_nat count).

(** [true] when the dimension is accepted. *)
Definition validate_vector_dims_for_wal (dims : Z) : bool := negb (MAX_VECTOR_DIMS <? dims).

Section Codec.
Context `{ExternalTypes}.

(** ** Values *)

Definition write_date (d : Date) : Put :=
  (write_i32 (date_year d) ;; write_u8 (month_number (date_month d)) ;; write_u8 (date_day d)).

Definition write_time (t : Time) : Put :=
  (write_u8 (time_hour t) ;; write_u8 (time_minute t) ;; write_u8 (time_second t) ;;
   write_u32 (time_nanosecond t)).

Definition read_date : Get Date :=
  year ← read_i32;
  month_u8 ← read_u8;
  day ← read_u8;
  month ← get_some (month_try_from month_u8);
  get_some (from_calendar_date year month day).

Definition read_time : Get Time :=
  hour ← read_u8;
  minute ← read_u8;
  second ← read_u8;
  nano ← read_u32;
  get_some (from_hms_nano hour minute second nano).

Definition offset_seconds_of (o : UtcOffset) : Z :=
  let '(oh, om, os) := as_hms o in oh * 3600 + om * 60 + os.

Fixpoint write_value_impl (val : Value) (depth : Z) : Put :=
  if MAX_NESTING_DEPTH <? depth then put_err
  else
    match val with
    | VNull => write_u8 0
    | VInt v => (write_u8 1 ;; write_i32 v)
    | VBigInt v => (write_u8 2 ;; write_i64 v)
    | VReal v => (write_u8 3 ;; write_f32 v)
    | VDouble v => (write_u8 4 ;; write_f64 v)
    | VNumeric n =>
        if is_big n then
          (write_u8 25 ;; write_str (coefficient_to_string n) ;; write_u32 (scale n))
        else (write_u8 5 ;; write_i128 (coefficient n) ;; write_u32 (scale n))
    | VMoney v => (write_u8 24 ;; write_i64 v)
    | VText s => (write_u8 6 ;; write_str s)
    | VBoolean v => (write_u8 7 ;; write_bool v)
    | VBlob b => (write_u8 8 ;; write_bytes b)
    | VTimestamp dt => (write_u8 9 ;; write_date (pdt_date dt) ;; write_time (pdt_time dt))
    | VDate d => (write_u8 10 ;; write_date d)
    | VLargeDate d =>
        (write_u8 23 ;; write_i32 (pg_year d) ;; write_u8 (month_number (pg_month d)) ;; write_u8 (pg_day d))
    | VTime t => (write_u8 17 ;; write_time t)
    | VTimeTz t o => (write_u8 18 ;; write_time t ;; write_i32 (whole_seconds o))
    | VInterval iv => (write_u8 11 ;; write_i32 (months iv) ;; write_i32 (days iv) ;; write_i64 (micros iv))
    | VTid t => (write_u8 22 ;; write_u32 (block t) ;; write_u16 (offset t))
    | VUuid bs => (write_u8 13 ;; write_raw bs)
    | VTimestampTz odt =>
        (write_u8 14 ;; write_date (odt_date odt) ;; write_time (odt_time odt) ;;
         write_i32 (offset_seconds_of (odt_offset odt)))
    | VPgLsn v => (write_u8 21 ;; write_u64 v)
    | VVector vv =>
        if negb (validate_vector_dims_for_wal (vdims vv)) then put_err
        else if negb (vdims vv =? len (values vv)) then put_err
        else (write_u8 12 ;; write_u32 (vdims vv) ;; put_all write_f32 (values vv))
    | VJsonb j => (write_u8 16 ;; write_str (json_to_string j))
    | VArray elems =>
        (write_u8 15 ;; write_list (fun e => write_value_impl e (depth + 1)) elems)
    | VMacAddr bs => (write_u8 19 ;; write_raw bs)
    | VMacAddr8 bs => (write_u8 20 ;; write_raw bs)
    end.

Definition write_value (val : Value) : Put := write_value_impl val 0.

(** [fuel] levels are left; the source's [depth] is [MAX_NESTING_DEPTH + 1 - fuel]. *)
Fixpoint read_value_impl (fuel : nat) : Get Value :=
  match fuel with
  | O => get_err
  | S fuel' =>
      tag ← read_u8;
      match tag with
      | 0 => mret VNull
      | 1 => v ← read_i32; mret (VInt v)
      | 2 => v ← read_i64; mret (VBigInt v)
      | 3 => v ← read_f32; mret (VReal v)
      | 4 => v ← read_f64; mret (VDouble v)
      | 5 => coeff ← read_i128; scale ← read_u32; mret (VNumeric (numeric_new coeff scale))
      | 24 => v ← read_i64; mret (VMoney v)
      | 6 => s ← read_str; mret (VText s)
      | 7 => b ← read_bool; mret (VBoolean b)
      | 8 => b ← read_bytes; mret (VBlob b)
      | 9 => date ← read_date; time ← read_time; mret (VTimestamp (pdt_new date time))
      | 10 => d ← read_date; mret (VDate d)
      | 23 =>
          year ← read_i32; month_u8 ← read_u8; day ← read_u8;
          month ← get_some (month_try_from month_u8);
          date ← get_some (pg_from_calendar_date year month day);
          mret (VLargeDate date)
      | 11 => ms ← read_i32; ds ← read_i32; us ← read_i64; mret (VInterval (mkInterval ms ds us))
      | 12 =>
          dims ← read_u32;
          _ ← get_guard (validate_vector_dims_for_wal dims);
          vs ← get_n read_f32 (Z.to_nat dims);
          mret (VVector (vector_new dims vs))
      | 13 => bs ← get_n read_u8 16; mret (VUuid bs)
      | 14 =>
          date ← read_date; time_val ← read_time; offset_secs ← read_i32;
          o ← get_some (from_whole_seconds offset_secs);
          mret (VTimestampTz (assume_offset (pdt_new date time_val) o))
      | 15 => elems ← read_list (read_value_impl fuel'); mret (VArray elems)
      | 16 => s ← read_str; j ← get_some (json_from_str s); mret (VJsonb j)
      | 17 => t ← read_time; mret (VTime t)
      | 18 =>
          t ← read_time; offset_secs ← read_i32;
          o ← get_some (from_whole_seconds offset_secs); mret (VTimeTz t o)
      | 19 => bs ← get_n read_u8 6; mret (VMacAddr bs)
      | 20 => bs ← get_n read_u8 8; mret (VMacAddr8 bs)
      | 21 => v ← read_u64; mret (VPgLsn v)
      | 22 => b ← read_u32; o ← read_u16; mret (VTid (mkTid b o))
      | 25 =>
          coeff ← read_str; scale ← read_u32;
          n ← get_some (from_coefficient_string coeff scale); mret (VNumeric n)
      | _ => get_err
      end
  end.

Definition read_value : Get Value := read_value_impl (Z.to_nat (MAX_NESTING_DEPTH + 1)).

Definition write_row (row : Row) : Put := write_list write_value row.
Definition read_row : Get Row := read_list read_value.

End Codec.

(** ** Types *)

Definition element_tag (t : VectorElementType) : Z :=
  match t with Float32 => 0 | Float16 => 1 | Uint8 => 2 end.

Fixpoint write_data_type_impl (dt : DataType) (depth : Z) : Put :=
  if MAX_NESTING_DEPTH <? depth then put_err
  else
    match dt with
    | DInt => write_u8 0
    | DBigInt => write_u8 1
    | DReal => write_u8 2
    | DDouble => write_u8 3
    | DNumeric => write_u8 4
    | DMoney => write_u8 22
    | DText => write_u8 5
    | DBoolean => write_u8 6
    | DBlob => write_u8 7
    | DTimestamp => write_u8 8
    | DDate => write_u8 9
    | DInterval => write_u8 10
    | DVector dims et =>
        if negb (validate_vector_dims_for_wal dims) then put_err
        else
          match et with
          | Float32 => (write_u8 11 ;; write_u32 dims)
          | _ => (write_u8 30 ;; write_u32 dims ;; write_u8 (element_tag et))
          end
    | DUuid => write_u8 12
    | DTimestampTz => write_u8 13
    | DJsonb => write_u8 15
    | DTime => write_u8 16
    | DTimeTz => write_u8 17
    | DMacAddr => write_u8 18
    | DMacAddr8 => write_u8 19
    | DPgLsn => write_u8 20
    | DTid => write_u8 21
    | DArray inner => (write_u8 14 ;; write_data_type_impl inner (depth + 1))
    end.

Definition write_data_type (dt : DataType) : Put := write_data_type_impl dt 0.

Fixpoint read_data_type_impl (fuel : nat) : Get DataType :=
  match fuel with
  | O => get_err
  | S fuel' =>
      tag ← read_u8;
      match tag with
      | 0 => mret DInt
      | 1 => mret DBigInt
      | 2 => mret DReal
      | 3 => mret DDouble
      | 4 => mret DNumeric
      | 22 => mret DMoney
      | 5 => mret DText
      | 6 => mret DBoolean
      | 7 => mret DBlob
      | 8 => mret DTimestamp
      | 9 => mret DDate
      | 10 => mret DInterval
      | 11 =>
          dims ← read_u32;
          _ ← get_guard (validate_vector_dims_for_wal dims);
          mret (DVector dims Float32)
      | 30 =>
          dims ← read_u32;
          _ ← get_guard (validate_vector_dims_for_wal dims);
          et ← read_u8;
          match et with
          | 0 => mret (DVector dims Float32)
          | 1 => mret (DVector dims Float16)
          | 2 => mret (DVector dims Uint8)
          | _ => get_err
          end
      | 12 => mret DUuid
      | 13 => mret DTimestampTz
      | 14 => inner ← read_data_type_impl fuel'; mret (DArray inner)
      | 15 => mret DJsonb
      | 16 => mret DTime
      | 17 => mret DTimeTz
      | 18 => mret DMacAddr
      | 19 => mret DMacAddr8
      | 20 => mret DPgLsn
      | 21 => mret DTid
      | _ => get_err
      end
  end.

Definition read_data_type : Get DataType := read_data_type_impl (Z.to_nat (MAX_NESTING_DEPTH + 1)).

(** ** Tables *)

Definition write_storage_column (col : StorageColumn) : Put :=
  (write_u64 (column_id col) ;; write_data_type (data_type col) ;; write_bool (nullable col)).

Definition read_storage_column : Get StorageColumn :=
  column_id ← read_u64;
  data_type ← read_data_type;
  nullable ← read_bool;
  mret (mkColumn column_id data_type nullable).

Definition validate_wal_shard_config (sc : StorageShardConfig) : bool :=
  if len (shard_key_columns sc) =? 0 then false
  else if MAX_COLLECTION_ITEMS <? len (shard_key_columns sc) then false
  else if shard_count sc =? 0 then false
  else if MAX_STORAGE_SHARD_COUNT <? shard_count sc then false
  else if virtual_nodes_per_shard sc =? 0 then false
  else if MAX_STORAGE_VIRTUAL_NODES_PER_SHARD <? virtual_nodes_per_shard sc then false
  else negb (MAX_STORAGE_HASH_RING_VIRTUAL_NODES <? shard_count sc * virtual_nodes_per_shard sc).

Definition write_shard_config (sc : StorageShardConfig) : Put :=
  if negb (validate_wal_shard_config sc) then put_err
  else
    (write_bool true ;; write_list write_u64 (shard_key_columns sc) ;; write_u32 (shard_count sc) ;;
     write_u8 0 ;; write_u32 (virtual_nodes_per_shard sc)).

Definition write_table_descriptor (desc : TableStorageDescriptor) : Put :=
  (write_u64 (table_id desc) ;;
   write_list write_storage_column (columns desc) ;;
   match primary_key desc with
   | Some pk => (write_bool true ;; write_list write_u64 pk)
   | None => write_bool false
   end ;;
   match shard_config desc with
   | Some sc => write_shard_config sc
   | None => write_bool false
   end).

Definition read_shard_config : Get StorageShardConfig :=
  key_count ← read_bounded_u32_count MAX_COLLECTION_ITEMS;
  _ ← get_guard (negb (key_count =? 0));
  keys ← get_n read_u64 (Z.to_nat key_count);
  count ← read_u32;
  _ ← get_guard (negb (count =? 0));
  _ ← get_guard (negb (MAX_STORAGE_SHARD_COUNT <? count));
  hash_fn_tag ← read_u8;
  _ ← get_guard (hash_fn_tag =? 0);
  vnodes ← read_u32;
  _ ← get_guard (negb (vnodes =? 0));
  _ ← get_guard (negb (MAX_STORAGE_VIRTUAL_NODES_PER_SHARD <? vnodes));
  _ ← get_guard (negb (MAX_STORAGE_HASH_RING_VIRTUAL_NODES <? count * vnodes));
  mret (mkShard keys count vnodes).

(** [r.remaining() > 0 && r.read_bool()?]. *)
Definition read_trailing_bool : Get bool :=
  n ← remaining;
  if 0 <? n then read_bool else mret false.

Definition read_table_descriptor : Get TableStorageDescriptor :=
  table_id ← read_u64;
  columns ← read_list read_storage_column;
  has_pk ← read_bool;
  primary_key ← (if (has_pk : bool) then pk ← read_list read_u64; mret (Some pk) else mret None);
  has_shard ← read_trailing_bool;
  shard_config ← (if (has_shard : bool) then sc ← read_shard_config; mret (Some sc) else mret None);
  mret (mkTable table_id columns primary_key shard_config).

(** ** Indexes *)

Definition write_index_key_column (kc : IndexKeyColumn) : Put :=
  (write_u64 (key_column_id kc) ;; write_bool (descending kc) ;; write_bool (nulls_first kc)).

Definition read_index_key_column : Get IndexKeyColumn :=
  column_id ← read_u64;
  descending ← read_bool;
  nulls_first ← read_bool;
  mret (mkKeyColumn column_id descending nulls_first).

Definition stored_metric_tag (metric : StoredVectorMetric) : Z :=
  match metric with L2 => 0 | Cosine => 1 | InnerProduct => 2 | Manhattan => 3 end.

Definition read_stored_metric : Get StoredVectorMetric :=
  v ← read_u8;
  match v with
  | 0 => mret L2
  | 1 => mret Cosine
  | 2 => mret InnerProduct
  | 3 => mret Manhattan
  | _ => get_err
  end.

Definition stored_quantization_tag (kind : StoredQuantizationKind) : Z :=
  match kind with QNone => 0 | QScalar => 1 | QBinary => 2 | QProduct => 3 end.

Definition read_stored_quantization : Get StoredQuantizationKind :=
  v ← read_u8;
  match v with
  | 0 => mret QNone
  | 1 => mret QScalar
  | 2 => mret QBinary
  | 3 => mret QProduct
  | _ => get_err
  end.

Definition write_hnsw (o : option HnswStorageOptions) : Put :=
  match o with
  | None => write_u8 0
  | Some options =>
      (write_u8 2 ;; write_u32 (hnsw_m options) ;; write_u32 (ef_construction options) ;;
       write_u8 (stored_metric_tag (hnsw_metric options)) ;;
       write_u8 (stored_quantization_tag (quantization options)) ;;
       write_bool (prenormalised options))
  end.

Definition write_ivf (o : option IvfFlatStorageOptions) : Put :=
  match o with
  | None => write_u8 0
  | Some options =>
      (write_u8 1 ;; write_u32 (nlist options) ;; write_u32 (nprobe options) ;;
       write_u8 (stored_metric_tag (ivf_metric options)))
  end.

Definition write_index_descriptor (desc : IndexStorageDescriptor) : Put :=
  (write_u64 (index_id desc) ;;
   write_u64 (index_table_id desc) ;;
   write_bool (unique desc) ;;
   write_list write_index_key_column (key_columns desc) ;;
   write_list write_u64 (include_columns desc) ;;
   write_hnsw (hnsw_options desc) ;;
   write_bool (gin desc) ;;
   write_bool (nulls_not_distinct desc) ;;
   write_ivf (ivf_flat_options desc)).

Definition read_hnsw : Get (option HnswStorageOptions) :=
  tag ← read_u8;
  let options :=
    m ← read_u32;
    ef ← read_u32;
    metric ← read_stored_metric;
    quant ← read_stored_quantization;
    pre ← (if tag =? 2 then read_bool else mret false);
    mret (Some (mkHnsw m ef metric quant pre)) in
  match tag with
  | 0 => mret None
  | 1 => options
  | 2 => options
  | _ => get_err
  end.

Definition read_ivf : Get (option IvfFlatStorageOptions) :=
  n ← remaining;
  if 0 <? n then
    tag ← read_u8;
    match tag with
    | 0 => mret None
    | 1 =>
        nl ← read_u32;
        np ← read_u32;
        metric ← read_stored_metric;
        mret (Some (mkIvf nl np metric))
    | _ => get_err
    end
  else mret None.

Definition read_index_descriptor : Get IndexStorageDescriptor :=
  index_id ← read_u64;
  table_id ← read_u64;
  unique ← read_bool;
  key_columns ← read_list read_index_key_column;
  include_columns ← read_list read_u64;
  hnsw_options ← read_hnsw;
  gin ← read_trailing_bool;
  nulls_not_distinct ← read_trailing_bool;
  ivf_flat_options ← read_ivf;
  mret (mkIndex index_id table_id unique nulls_not_distinct gin key_columns include_columns hnsw_options
          ivf_flat_options).

(** ** Isolation levels *)

Definition write_isolation (iso : IsolationLevel) : Put :=
  match iso with ReadCommitted => write_u8 0 | SnapshotIsolation => write_u8 1 | Serializable => write_u8 2 end.

Definition read_isolation : Get IsolationLevel :=
  tag ← read_u8;
  match tag with
  | 0 => mret ReadCommitted
  | 1 => mret SnapshotIsolation
  | 2 => mret Serializable
  | _ => get_err
  end.

(** ** Round trips *)

(** The last write, seen as followed by nothing. *)
Lemma serial_end {A B} p (g : Get A) (k : A -> Get B) a b :
  serial p g a -> serial put_nil (k a) b -> serial p (g ≫= k) b.
Proof.
  intros Hp Hk. eapply serial_ext; [| |eapply (serial_seq p put_nil g k); eauto]; [|done].
  intros w. unfold put_seq, put_nil. by destruct (p w).
Qed.

Lemma serial_assoc {A} p q s (g : Get A) a : serial (p ;; (q ;; s)) g a -> serial ((p ;; q) ;; s) g a.
Proof.
  apply serial_ext; [|done]. intros w. unfold put_seq. by destruct (p w).
Qed.

Lemma serial_guard {A} p (c : bool) (k : unit -> Get A) b :
  c = true -> serial p (k tt) b -> serial p (get_guard c ≫= k) b.
Proof. intros ->. by apply serial_pure. Qed.

Lemma serial_some {A B} p (o : option A) (k : A -> Get B) a b :
  o = Some a -> serial p (k a) b -> serial p (get_some o ≫= k) b.
Proof. intros ->. by apply serial_pure. Qed.

Lemma serial_some_end {A} (o : option A) a : o = Some a -> serial put_nil (get_some o) a.
Proof. intros ->. apply serial_ret. Qed.

Lemma serial_count n limit :
  0 <= n <= limit -> limit <= u32_max ->
  serial (write_bounded_u32_count n limit) (read_bounded_u32_count limit) n.
Proof.
  intros Hn Hl. unfold write_bounded_u32_count, read_bounded_u32_count.
  destruct (Z.ltb_spec limit n); [lia|]. destruct (Z.ltb_spec u32_max n); [lia|].
  eapply serial_last; [apply serial_u32; unfold in_unsigned, u32_max in *; lia|]. cbv beta.
  destruct (Z.ltb_spec limit n); [lia|done].
Qed.

Lemma serial_list {A} (p : A -> Put) (g : Get A) l :
  len l <= MAX_COLLECTION_ITEMS -> Forall (fun x => serial (p x) g x) l ->
  serial (write_list p l) (read_list g) l.
Proof.
  intros Hl Hall. pose proof (len_nonneg l). unfold write_list, read_list.
  eapply serial_seq; [apply serial_count; [lia|done]|]. cbv beta.
  replace (Z.to_nat (len l)) with (length l) by (unfold len; lia). by apply serial_all.
Qed.

Lemma serial_u8s bs : Forall byte bs -> serial (write_raw bs) (get_n read_u8 (length bs)) bs.
Proof.
  intros Hb. assert (Hs : serial (put_all write_u8 bs) (get_n read_u8 (length bs)) bs).
  { apply serial_all. eapply Forall_impl; [exact Hb|]. intros b. apply serial_u8. }
  eapply serial_ext; [|by intros r|exact Hs]. clear Hb Hs.
  induction bs as [|b bs IH]; intros w; cbn [put_all]; [unfold put_nil, write_raw; destruct w; cbn; by rewrite app_nil_r|].
  unfold put_seq, write_u8, write_raw at 2. rewrite <- IH. unfold write_raw. cbn [buf]. by rewrite <- app_assoc.
Qed.

Lemma month_roundtrip mo : month_try_from (month_number mo) = Some mo.
Proof. by destruct mo. Qed.

Lemma month_range mo : in_unsigned 8 (month_number mo).
Proof. by destruct mo. Qed.

Definition bytes_ok (bs : list Z) : Prop := Forall byte bs /\ len bs <= MAX_READ_ALLOC.
Definition str_ok (s : list Z) : Prop := bytes_ok s /\ utf8_valid s = true.

Lemma serial_bytes_ok bs : bytes_ok bs -> serial (write_bytes bs) read_bytes bs.
Proof. intros [? ?]. by apply serial_bytes. Qed.

Lemma serial_str_ok s : str_ok s -> serial (write_str s) read_str s.
Proof. intros [[? ?] ?]. by apply serial_str. Qed.

Lemma serial_ret_eq {A} (a b : A) : a = b -> serial put_nil (mret a) b.
Proof. intros ->. apply serial_ret. Qed.

Lemma serial_raw_n bs n : Forall byte bs -> len bs = Z.of_nat n -> serial (write_raw bs) (get_n read_u8 n) bs.
Proof. intros Hb Hl. unfold len in Hl. apply Nat2Z.inj in Hl as <-. by apply serial_u8s. Qed.

Create HintDb serial.
#[export] Hint Resolve serial_u8 serial_u16 serial_u32 serial_u64 serial_i32 serial_i64 serial_i128
  serial_f32 serial_f64 serial_bool serial_bytes_ok serial_str_ok serial_list month_range
  serial_ret month_roundtrip : serial.
#[export] Hint Extern 2 (in_unsigned _ (Zpos _)) => by vm_compute : serial.
#[export] Hint Extern 2 (in_unsigned _ Z0) => by vm_compute : serial.

(** One write against one read; tags are read first and select the branch. *)
Ltac serial_step :=
  cbv beta iota;
  lazymatch goal with
  | |- serial _ (get_guard _ ≫= _) _ => apply serial_guard
  | |- serial put_nil (get_some _ ≫= _) _ => eapply serial_some
  | |- serial put_nil (get_some _) _ => eapply serial_some_end
  | |- serial put_nil (mret _) _ => apply serial_ret_eq; try reflexivity
  | |- serial (_ ;; _) (_ ≫= _) _ => eapply serial_seq
  | |- serial _ (_ ≫= _) _ => eapply serial_end
  end.

Ltac serial_auto := repeat (serial_step || solve [eauto with serial]).

Section ValueTrips.
Context `{ExternalLaws}.

Lemma serial_date d : serial (write_date d) read_date d.
Proof.
  destruct (date_range d). unfold write_date, read_date. serial_auto. apply date_parts.
Qed.

Lemma serial_time t : serial (write_time t) read_time t.
Proof.
  destruct (time_range t) as (? & ? & ? & ?). unfold write_time, read_time. serial_auto. apply time_parts.
Qed.

#[local] Hint Resolve serial_date serial_time : serial.

(** The values the log can give back, at most [fuel] levels deep.  [J] says which JSON
    values survive being printed and parsed. *)
Fixpoint value_ok (J : JsonValue -> Prop) (fuel : nat) (v : Value) : Prop :=
  match fuel with
  | O => False
  | S fuel' =>
      match v with
      | VNull | VBoolean _ | VTimestamp _ | VDate _ | VTime _ | VTimeTz _ _ | VTimestampTz _ => True
      | VInt v => in_signed 32 v
      | VBigInt v | VMoney v => in_signed 64 v
      | VReal v => in_unsigned 32 v
      | VDouble v | VPgLsn v => in_unsigned 64 v
      | VNumeric n => numeric_wf n
      | VText s => str_ok s
      | VBlob bs => bytes_ok bs
      | VLargeDate d => in_signed 32 (pg_year d) /\ 1 <= pg_day d <= days_in_month (pg_year d) (pg_month d)
      | VInterval iv => in_signed 32 (months iv) /\ in_signed 32 (days iv) /\ in_signed 64 (micros iv)
      | VUuid bs => Forall byte bs /\ len bs = 16
      | VTid t => in_unsigned 32 (block t) /\ in_unsigned 16 (offset t)
      | VJsonb j => J j
      | VMacAddr bs => Forall byte bs /\ len bs = 6
      | VMacAddr8 bs => Forall byte bs /\ len bs = 8
      | VVector vv =>
          vdims vv = len (values vv) /\ len (values vv) <= MAX_VECTOR_DIMS /\
          Forall (in_unsigned 32) (values vv)
      | VArray es => len es <= MAX_COLLECTION_ITEMS /\ Forall (value_ok J fuel') es
      end
  end.

(** A JSON value that comes back unchanged. *)
Definition json_stable (j : JsonValue) : Prop :=
  len (json_to_string j) <= MAX_READ_ALLOC /\ json_from_str (json_to_string j) = Some j.

Lemma days_in_month_range y mo : 28 <= days_in_month y mo <= 31.
Proof. unfold days_in_month. destruct mo; try lia. destruct (is_leap_year y); lia. Qed.

Lemma utf8_ascii s : Forall (fun c => 0 <= c <= 127) s -> utf8_valid s = true.
Proof.
  induction 1 as [|c s Hc Hs IH]; [done|]. cbn [utf8_valid]. destruct (Z.leb_spec c 0x7F); [done|lia].
Qed.

Lemma coefficient_text n b : numeric_wf n -> big n = Some b -> str_ok (coefficient_to_string n).
Proof.
  intros Hn Hb. destruct (coefficient_ascii n b Hn Hb) as [Hc Hl]. repeat split.
  - eapply Forall_impl; [exact Hc|]. unfold byte. cbn. lia.
  - unfold len, MAX_READ_ALLOC, MAX_BIG_DECIMAL_DIGITS, MAX_BIG_LIMBS in *. lia.
  - apply utf8_ascii. eapply Forall_impl; [exact Hc|]. cbn. lia.
Qed.

Lemma offset_seconds_of_eq o : offset_seconds_of o = whole_seconds o.
Proof. unfold offset_seconds_of. destruct (as_hms o) as [[h mi] s] eqn:E. by apply offset_hms in E. Qed.

Lemma serial_numeric fuel n :
  numeric_wf n ->
  serial (if is_big n then (write_u8 25 ;; write_str (coefficient_to_string n) ;; write_u32 (scale n))
          else (write_u8 5 ;; write_i128 (coefficient n) ;; write_u32 (scale n)))
    (read_value_impl (S fuel)) (VNumeric n).
Proof.
  intros Hn. pose proof Hn as [Hsc Hb]. unfold is_big. destruct (big n) as [b|] eqn:Eb; cbn [read_value_impl].
  - serial_auto; [|by eapply numeric_text_roundtrip]. apply serial_str_ok, (coefficient_text n b Hn Eb).
  - serial_auto. unfold numeric_new. destruct n. cbn in *. by subst.
Qed.

Lemma serial_vector fuel vv :
  vdims vv = len (values vv) -> len (values vv) <= MAX_VECTOR_DIMS -> Forall (in_unsigned 32) (values vv) ->
  serial (if negb (validate_vector_dims_for_wal (vdims vv)) then put_err
          else if negb (vdims vv =? len (values vv)) then put_err
          else (write_u8 12 ;; write_u32 (vdims vv) ;; put_all write_f32 (values vv)))
    (read_value_impl (S fuel)) (VVector vv).
Proof.
  intros Hd Hl Hv. pose proof (len_nonneg (values vv)).
  assert (Hval : validate_vector_dims_for_wal (vdims vv) = true).
  { unfold validate_vector_dims_for_wal. destruct (Z.ltb_spec MAX_VECTOR_DIMS (vdims vv)); [lia|done]. }
  rewrite Hval, Hd, Z.eqb_refl. cbn [negb read_value_impl]. rewrite <- Hd.
  assert (Hr : in_unsigned 32 (vdims vv)) by (unfold in_unsigned, MAX_VECTOR_DIMS in *; lia).
  serial_auto.
  - replace (Z.to_nat (vdims vv)) with (length (values vv)) by (unfold len in *; lia).
    apply serial_all. eapply Forall_impl; [exact Hv|]. apply serial_f32.
  - unfold vector_new. destruct vv as [d vs]. cbn in *. do 2 f_equal. unfold len, u32_max, MAX_VECTOR_DIMS in *. lia.
Qed.

Lemma serial_value fuel v depth :
  value_ok json_stable fuel v -> depth = MAX_NESTING_DEPTH + 1 - Z.of_nat fuel ->
  serial (write_value_impl v depth) (read_value_impl fuel) v.
Proof.
  revert v depth. induction fuel as [|fuel IH]; intros v depth Hok Hdep; [done|].
  assert (Hd : (MAX_NESTING_DEPTH <? depth) = false) by (apply Z.ltb_ge; unfold MAX_NESTING_DEPTH in *; lia).
  destruct v as [| | | | |n|v| | | |dt|d|d|t|t o|iv|bs|odt|t|v|j|bs|bs|vv|es];
    cbn [write_value_impl read_value_impl value_ok] in *; rewrite Hd; try solve [serial_auto].
  - by apply serial_numeric.
  - serial_auto. by rewrite pdt_parts.
  - destruct Hok as [Hy Hday]. pose proof (days_in_month_range (pg_year d) (pg_month d)).
    serial_auto; [apply serial_u8; unfold in_unsigned; lia|].
    unfold pg_from_calendar_date. destruct (Z.eqb_spec (pg_day d) 0); [lia|].
    destruct (Z.ltb_spec (days_in_month (pg_year d) (pg_month d)) (pg_day d)); [lia|]. by destruct d.
  - pose proof (offset_range o). serial_auto. apply offset_seconds.
  - destruct Hok as (? & ? & ?). serial_auto. by destruct iv.
  - destruct Hok as [? ?]. serial_auto. by apply serial_raw_n.
  - pose proof (offset_range (odt_offset odt)). rewrite offset_seconds_of_eq.
    serial_auto; [apply offset_seconds|]. by rewrite odt_parts.
  - destruct Hok as [? ?]. serial_auto. by destruct t.
  - destruct Hok as [Hl Hj]. destruct (json_text j) as [Hb Hu]. serial_auto. by apply serial_str.
  - destruct Hok as [? ?]. serial_auto. by apply serial_raw_n.
  - destruct Hok as [? ?]. serial_auto. by apply serial_raw_n.
  - destruct Hok as (? & ? & ?). by apply (serial_vector fuel).
  - destruct Hok as [Hl Hes]. serial_auto. apply serial_list; [done|].
    eapply Forall_impl; [exact Hes|]. intros e He. apply IH; [done|lia].
Qed.

End ValueTrips.

(** ** Types and descriptors *)

Fixpoint data_type_ok (fuel : nat) (dt : DataType) : Prop :=
  match fuel with
  | O => False
  | S fuel' =>
      match dt with
      | DVector dims _ => 0 <= dims <= MAX_VECTOR_DIMS
      | DArray inner => data_type_ok fuel' inner
      | _ => True
      end
  end.

Definition dims_valid (dims : Z) : 0 <= dims <= MAX_VECTOR_DIMS ->
  validate_vector_dims_for_wal dims = true /\ in_unsigned 32 dims.
Proof.
  intros Hd. unfold validate_vector_dims_for_wal, in_unsigned, MAX_VECTOR_DIMS in *.
  destruct (Z.ltb_spec 1000000 dims); [lia|]. split; [done|lia].
Qed.

Lemma serial_data_type fuel dt depth :
  data_type_ok fuel dt -> depth = MAX_NESTING_DEPTH + 1 - Z.of_nat fuel ->
  serial (write_data_type_impl dt depth) (read_data_type_impl fuel) dt.
Proof.
  revert dt depth. induction fuel as [|fuel IH]; intros dt depth Hok Hdep; [done|].
  assert (Hd : (MAX_NESTING_DEPTH <? depth) = false) by (apply Z.ltb_ge; unfold MAX_NESTING_DEPTH in *; lia).
  destruct dt; cbn [write_data_type_impl read_data_type_impl data_type_ok] in *; rewrite Hd;
    try solve [serial_auto].
  - destruct (dims_valid _ Hok) as [Hv Hr]. rewrite Hv. cbn [negb].
    destruct element_type; cbn [element_tag]; serial_auto.
  - serial_auto. apply IH; [done|lia].
Qed.

Definition column_ok (c : StorageColumn) : Prop :=
  in_unsigned 64 (column_id c) /\ data_type_ok (Z.to_nat (MAX_NESTING_DEPTH + 1)) (data_type c).

Definition ids_ok (l : list Z) : Prop := len l <= MAX_COLLECTION_ITEMS /\ Forall (in_unsigned 64) l.

Definition shard_ok (sc : StorageShardConfig) : Prop :=
  ids_ok (shard_key_columns sc) /\ in_unsigned 32 (shard_count sc) /\
  in_unsigned 32 (virtual_nodes_per_shard sc) /\ validate_wal_shard_config sc = true.

Definition opt_ok {A} (P : A -> Prop) (o : option A) : Prop := match o with Some a => P a | None => True end.

Definition list_ok {A} (P : A -> Prop) (l : list A) : Prop := len l <= MAX_COLLECTION_ITEMS /\ Forall P l.

Definition table_ok (t : TableStorageDescriptor) : Prop :=
  in_unsigned 64 (table_id t) /\ list_ok column_ok (columns t) /\ opt_ok ids_ok (primary_key t) /\
  opt_ok shard_ok (shard_config t).

Definition key_column_ok (k : IndexKeyColumn) : Prop := in_unsigned 64 (key_column_id k).

Definition hnsw_ok (o : HnswStorageOptions) : Prop := in_unsigned 32 (hnsw_m o) /\ in_unsigned 32 (ef_construction o).

Definition ivf_ok (o : IvfFlatStorageOptions) : Prop := in_unsigned 32 (nlist o) /\ in_unsigned 32 (nprobe o).

Definition index_ok (i : IndexStorageDescriptor) : Prop :=
  in_unsigned 64 (index_id i) /\ in_unsigned 64 (index_table_id i) /\
  list_ok key_column_ok (key_columns i) /\ ids_ok (include_columns i) /\
  opt_ok hnsw_ok (hnsw_options i) /\ opt_ok ivf_ok (ivf_flat_options i).

Lemma serial_list_ok {A} (P : A -> Prop) (p : A -> Put) (g : Get A) l :
  (forall x, P x -> serial (p x) g x) -> list_ok P l -> serial (write_list p l) (read_list g) l.
Proof. intros HP [Hl Hall]. apply serial_list; [done|]. by eapply Forall_impl. Qed.

Lemma serial_ids l : ids_ok l -> serial (write_list write_u64 l) (read_list read_u64) l.
Proof. apply serial_list_ok. auto with serial. Qed.

Lemma serial_column c : column_ok c -> serial (write_storage_column c) read_storage_column c.
Proof.
  intros [Hid Hdt]. unfold write_storage_column, read_storage_column. serial_auto.
  - by apply serial_data_type.
  - by destruct c.
Qed.

Lemma serial_key_column k : key_column_ok k -> serial (write_index_key_column k) read_index_key_column k.
Proof.
  intros Hid. unfold key_column_ok, write_index_key_column, read_index_key_column in *. serial_auto.
  by destruct k.
Qed.

#[export] Hint Resolve serial_ids serial_column serial_key_column : serial.

Lemma serial_shard sc :
  shard_ok sc ->
  serial (write_list write_u64 (shard_key_columns sc) ;; write_u32 (shard_count sc) ;; write_u8 0 ;;
          write_u32 (virtual_nodes_per_shard sc)) read_shard_config sc.
Proof.
  intros ([Hkl Hk] & Hc & Hv & Hval). unfold validate_wal_shard_config in Hval.
  repeat match type of Hval with (if ?c then _ else _) = true => destruct c eqn:?; [done|] end.
  unfold write_list, read_shard_config. pose proof (len_nonneg (shard_key_columns sc)).
  apply serial_assoc. eapply serial_seq; [apply serial_count; [split; [done|exact Hkl]|done]|].
  cbv beta. apply serial_guard; [by apply negb_true_iff|].
  eapply serial_seq.
  { replace (Z.to_nat _) with (length (shard_key_columns sc)) by (unfold len; lia).
    apply serial_all. eapply Forall_impl; [exact Hk|]. auto with serial. }
  repeat (serial_step; first [by apply negb_true_iff|by auto with serial|idtac]).
  by destruct sc.
Qed.

Lemma serial_trailing_bool b : serial (write_bool b) read_trailing_bool b.
Proof.
  unfold read_trailing_bool. eapply serial_remaining; [by apply grows_raw| |apply serial_bool].
  intros n Hn. by rewrite (proj2 (Z.ltb_lt 0 n) Hn).
Qed.

#[export] Hint Resolve serial_trailing_bool : serial.

Lemma serial_table t : table_ok t -> serial (write_table_descriptor t) read_table_descriptor t.
Proof.
  intros (Hid & Hcols & Hpk & Hsc). unfold write_table_descriptor, read_table_descriptor.
  eapply serial_seq; [by apply serial_u64|]. cbv beta.
  eapply serial_seq; [eapply serial_list_ok; [exact serial_column|done]|]. cbv beta.
  assert (Htail : forall pk, serial
    (match shard_config t with Some sc => write_shard_config sc | None => write_bool false end)
    (has_shard ← read_trailing_bool;
     shard_config ← (if (has_shard : bool) then sc ← read_shard_config; mret (Some sc) else mret None);
     mret (mkTable (table_id t) (columns t) pk shard_config))
    (mkTable (table_id t) (columns t) pk (shard_config t))).
  { intros pk. destruct (shard_config t) as [sc|]; cbn [opt_ok] in Hsc.
    - unfold write_shard_config. rewrite (proj2 (proj2 (proj2 Hsc))). cbn [negb].
      eapply serial_seq; [apply serial_trailing_bool|]. cbv beta iota.
      eapply serial_end; [|by apply serial_ret]. eapply serial_last; [by apply serial_shard|done].
    - eapply serial_end; [apply serial_trailing_bool|]. cbv beta iota. by apply serial_pure with (a := None); [|apply serial_ret]. }
  destruct t as [tid cols pk sc]. cbn [primary_key table_id columns shard_config] in *.
  destruct pk as [pk|]; cbn [opt_ok] in Hpk.
  - apply serial_assoc. eapply serial_seq; [apply serial_bool|]. cbv beta iota.
    eapply serial_seq; [|apply Htail]. eapply serial_last; [by apply serial_ids|done].
  - eapply serial_seq; [apply serial_bool|]. cbv beta iota. eapply serial_pure; [done|]. apply Htail.
Qed.

Lemma serial_metric x : serial (write_u8 (stored_metric_tag x)) read_stored_metric x.
Proof. unfold read_stored_metric. destruct x; cbn [stored_metric_tag]; serial_auto. Qed.

Lemma serial_quantization x : serial (write_u8 (stored_quantization_tag x)) read_stored_quantization x.
Proof. unfold read_stored_quantization. destruct x; cbn [stored_quantization_tag]; serial_auto. Qed.

#[export] Hint Resolve serial_metric serial_quantization : serial.

Lemma serial_hnsw o : opt_ok hnsw_ok o -> serial (write_hnsw o) read_hnsw o.
Proof.
  unfold write_hnsw, read_hnsw. destruct o as [o|]; cbn [opt_ok]; [|intros _; serial_auto].
  intros [Hm Hef]. eapply serial_seq; [by apply serial_u8|]. cbv beta iota zeta. cbn [Z.eqb Pos.eqb].
  serial_auto. by destruct o.
Qed.

Lemma serial_ivf o : opt_ok ivf_ok o -> serial (write_ivf o) read_ivf o.
Proof.
  intros Ho. unfold read_ivf. eapply serial_remaining.
  - unfold write_ivf. destruct o; [|by apply grows_raw].
    apply grows_seq; [by apply grows_raw|]. intros w w' E. unfold put_seq, write_u8, write_u32, write_raw in E.
    injection E as <-. cbn [buf]. rewrite !len_app. unfold len. lia.
  - intros n Hn. rewrite (proj2 (Z.ltb_lt 0 n) Hn). reflexivity.
  - unfold write_ivf. destruct o as [o|]; cbn [opt_ok] in Ho; [|serial_auto].
    destruct Ho as [Hl Hp]. serial_auto. by destruct o.
Qed.

Lemma serial_index i : index_ok i -> serial (write_index_descriptor i) read_index_descriptor i.
Proof.
  intros (Hid & Htid & Hkeys & Hinc & Hh & Hi). unfold write_index_descriptor, read_index_descriptor.
  serial_auto.
  - eapply serial_list_ok; [exact serial_key_column|done].
  - by apply serial_hnsw.
  - by apply serial_ivf.
  - by destruct i.
Qed.

Lemma serial_isolation iso : serial (write_isolation iso) read_isolation iso.
Proof. unfold read_isolation. destruct iso; cbn [write_isolation]; serial_auto. Qed.

#[export] Hint Resolve serial_table serial_index serial_isolation : serial.

(** ** What is read *)

Lemma yields_count limit : yields (read_bounded_u32_count limit) (fun n => in_unsigned 32 n /\ n <= limit).
Proof.
  eapply yields_bind; [apply yields_u32|]. intros n Hn.
  destruct (Z.ltb_spec limit n); [apply yields_err|by apply yields_ret].
Qed.

Lemma yields_u64_usize limit : yields (read_bounded_u64_usize limit) (fun n => in_unsigned 64 n /\ n <= limit).
Proof.
  eapply yields_bind; [apply yields_u64|]. intros n Hn.
  destruct (Z.ltb_spec limit n); [apply yields_err|by apply yields_ret].
Qed.

Lemma yields_list {A} (g : Get A) (P : A -> Prop) : yields g P -> yields (read_list g) (list_ok P).
Proof.
  intros Hg. eapply yields_bind; [apply yields_count|]. intros n [Hn Hl].
  eapply yields_weaken; [by apply yields_n|]. cbv beta. intros l [HP Hlen]. split; [|done].
  unfold in_unsigned in Hn. lia.
Qed.

Create HintDb yields.
#[export] Hint Resolve yields_u8 yields_u16 yields_u32 yields_u64 yields_i32 yields_i64 yields_i128
  yields_f32 yields_f64 yields_bool yields_bytes yields_str yields_guard yields_some yields_remaining
  yields_count yields_u64_usize yields_list yields_err : yields.

(** The branches of a reader, with what was learned on the way as hypotheses. *)
Ltac yields_step :=
  cbv beta;
  lazymatch goal with
  | |- yields (mret _) _ => apply yields_ret
  | |- yields get_err _ => apply yields_err
  | |- yields (_ ≫= _) _ => eapply yields_bind; [|intros ? ?]
  | |- yields (match ?x with _ => _ end) _ => destruct x eqn:?
  end.

Ltac yields_auto := repeat (yields_step || solve [eauto with yields]); try done.

Section ValueTypes.
Context `{ExternalLaws}.

Lemma yields_date : yields read_date (fun _ => True).
Proof. unfold read_date. yields_auto. eapply yields_weaken; [apply yields_some|done]. Qed.

Lemma yields_time : yields read_time (fun _ => True).
Proof. unfold read_time. yields_auto. eapply yields_weaken; [apply yields_some|done]. Qed.

#[local] Hint Resolve yields_date yields_time : yields.

Lemma yields_u8s n : yields (get_n read_u8 n) (fun bs => Forall byte bs /\ len bs = Z.of_nat n).
Proof. eapply yields_weaken; [apply yields_n, yields_u8|]. done. Qed.

#[local] Hint Resolve yields_u8s yields_n : yields.

Lemma pg_date_ok y mo d date :
  in_signed 32 y -> in_unsigned 8 d -> pg_from_calendar_date y mo d = Some date ->
  in_signed 32 (pg_year date) /\ 1 <= pg_day date <= days_in_month (pg_year date) (pg_month date).
Proof.
  intros Hy Hd. unfold pg_from_calendar_date, in_unsigned in *.
  destruct (Z.eqb_spec d 0); [done|]. destruct (Z.ltb_spec (days_in_month y mo) d); [done|].
  intros [= <-]. cbn. split; [done|lia].
Qed.

Lemma vector_new_ok dims vs :
  validate_vector_dims_for_wal dims = true -> in_unsigned 32 dims ->
  Forall (in_unsigned 32) vs /\ len vs = Z.of_nat (Z.to_nat dims) ->
  vdims (vector_new dims vs) = len (values (vector_new dims vs)) /\
  len (values (vector_new dims vs)) <= MAX_VECTOR_DIMS /\ Forall (in_unsigned 32) (values (vector_new dims vs)).
Proof.
  unfold validate_vector_dims_for_wal, in_unsigned, vector_new. cbn [vdims values]. intros Hv Hd [Hf Hl].
  destruct (Z.ltb_spec MAX_VECTOR_DIMS dims); [done|]. unfold MAX_VECTOR_DIMS, u32_max, len in *.
  split_and!; [lia|lia|done].
Qed.

Lemma yields_value fuel : yields (read_value_impl fuel) (value_ok (fun _ => True) fuel).
Proof.
  induction fuel as [|fuel IH]; [apply yields_err|]. cbn [read_value_impl].
  eapply yields_bind; [apply yields_u8|]. intros tag Htag.
  destruct tag as [|p|p]; [by apply yields_ret| |apply yields_err]. clear Htag.
  do 5 try (destruct p as [p|p|]; try apply yields_err);
    yields_auto; cbv beta in *; cbn [value_ok]; eauto using from_coefficient_wf, pg_date_ok, vector_new_ok.
Qed.

End ValueTypes.

Lemma yields_data_type fuel : yields (read_data_type_impl fuel) (data_type_ok fuel).
Proof.
  induction fuel as [|fuel IH]; [apply yields_err|]. cbn [read_data_type_impl].
  eapply yields_bind; [apply yields_u8|]. intros tag Htag.
  destruct tag as [|p|p]; [by apply yields_ret| |apply yields_err]. clear Htag.
  assert (Hdims : forall dims, in_unsigned 32 dims -> validate_vector_dims_for_wal dims = true ->
    0 <= dims <= MAX_VECTOR_DIMS).
  { unfold validate_vector_dims_for_wal, in_unsigned. intros dims Hd Hv.
    destruct (Z.ltb_spec MAX_VECTOR_DIMS dims); [done|lia]. }
  do 5 try (destruct p as [p|p|]; try apply yields_err);
    yields_auto; cbv beta in *; cbn [data_type_ok]; eauto.
Qed.

Lemma yields_column : yields read_storage_column column_ok.
Proof. unfold read_storage_column. yields_auto; apply yields_data_type. Qed.

Lemma yields_key_column : yields read_index_key_column key_column_ok.
Proof. unfold read_index_key_column. yields_auto. Qed.

Lemma yields_ids : yields (read_list read_u64) ids_ok.
Proof. apply yields_list, yields_u64. Qed.

#[export] Hint Resolve yields_column yields_key_column yields_ids : yields.

Lemma yields_shard : yields read_shard_config shard_ok.
Proof.
  unfold read_shard_config. eapply yields_bind; [apply yields_count|]. intros n [Hn Hl].
  eapply yields_bind; [apply yields_guard|]. intros ? Hn0.
  eapply yields_bind; [apply yields_n, yields_u64|]. intros keys [Hk Hlen].
  yields_auto. cbv beta in *. unfold in_unsigned in Hn. rewrite Z2Nat.id in Hlen by lia.
  unfold shard_ok, ids_ok, validate_wal_shard_config. cbn [shard_key_columns shard_count virtual_nodes_per_shard].
  rewrite Hlen. split_and!; try done. bool_prop.
  repeat match goal with
  | |- context [?x =? ?y] => destruct (Z.eqb_spec x y); [lia|]
  | |- context [?x <? ?y] => destruct (Z.ltb_spec x y); [lia|]
  end. done.
Qed.

Lemma yields_trailing_bool : yields read_trailing_bool (fun _ => True).
Proof. unfold read_trailing_bool. yields_auto. Qed.

#[export] Hint Resolve yields_shard yields_trailing_bool : yields.

Lemma yields_table : yields read_table_descriptor table_ok.
Proof.
  unfold read_table_descriptor. do 3 (eapply yields_bind; [eauto with yields|intros ? ?]). cbv beta in *.
  eapply (yields_bind _ _ (opt_ok ids_ok)); [by yields_auto|]. intros pk Hpk.
  eapply yields_bind; [apply yields_trailing_bool|]. intros b _.
  eapply (yields_bind _ _ (opt_ok shard_ok)); [by yields_auto|]. intros sc Hsc.
  by apply yields_ret.
Qed.

Lemma yields_metric : yields read_stored_metric (fun _ => True).
Proof. unfold read_stored_metric. by yields_auto. Qed.

Lemma yields_quantization : yields read_stored_quantization (fun _ => True).
Proof. unfold read_stored_quantization. by yields_auto. Qed.

#[export] Hint Resolve yields_metric yields_quantization : yields.

Lemma yields_hnsw : yields read_hnsw (opt_ok hnsw_ok).
Proof.
  unfold read_hnsw. eapply yields_bind; [apply yields_u8|]. intros t _. cbv zeta.
  assert (Ho : yields (m ← read_u32; ef ← read_u32; metric ← read_stored_metric;
    quant ← read_stored_quantization; pre ← (if t =? 2 then read_bool else mret false);
    mret (Some (mkHnsw m ef metric quant pre))) (opt_ok hnsw_ok)).
  { do 4 (eapply yields_bind; [eauto with yields|intros ? ?]). cbv beta in *.
    eapply (yields_bind _ _ (fun _ => True)); [destruct (t =? 2); [apply yields_bool|by apply yields_ret]|].
    intros pre _. by apply yields_ret. }
  destruct t as [|p|p]; [by apply yields_ret| |apply yields_err].
  do 2 try (destruct p as [p|p|]; try apply yields_err); exact Ho.
Qed.

Lemma yields_ivf : yields read_ivf (opt_ok ivf_ok).
Proof. unfold read_ivf. by yields_auto. Qed.

#[export] Hint Resolve yields_table yields_hnsw yields_ivf : yields.

Lemma yields_index : yields read_index_descriptor index_ok.
Proof. unfold read_index_descriptor. yields_auto. Qed.

Lemma yields_isolation : yields read_isolation (fun _ => True).
Proof. unfold read_isolation. by yields_auto. Qed.

#[export] Hint Resolve yields_index yields_isolation : yields.
