(* ===== verification/WalCodec.v ===== *)
(** * Log records ([crates/aiondb-wal/src/codec.rs], [codec/catalog.rs])

    [write_record_payload] and [read_record_payload] for all 86 kinds of records, and
    their round trip.  The arms of the two big matches are spread over several
    definitions by the kind of record; each falls through to the next. *)

From S2P Require Import Prelude.
From S2P Require Import Bytes.
From S2P Require Import BinaryIo.
From S2P Require Import BigNumeric.
From S2P Require Import TxManager.
From S2P Require Import WalTypes.
From S2P Require Import WalValue.

(** ** Elements of the collections *)

Definition write_pair (e : Z * Z) : Put := (write_u64 e.1 ;; write_u64 e.2).

Definition read_pair : Get (Z * Z) := k ← read_u64; v ← read_u64; mret (k, v).

(** Column id, distinct values, fraction of nulls, average width. *)
Definition write_stat (e : Z * Z * Z * Z) : Put :=
  let '(col_id, ndistinct, null_fraction, avg_width) := e in
  (write_u64 col_id ;; write_f64 ndistinct ;; write_f64 null_fraction ;; write_u32 avg_width).

Definition read_stat : Get (Z * Z * Z * Z) :=
  col_id ← read_u64; ndistinct ← read_f64; null_fraction ← read_f64; avg_width ← read_u32;
  mret (col_id, ndistinct, null_fraction, avg_width).

Definition write_page_image (e : Z * list Z) : Put :=
  if MAX_FULL_PAGE_IMAGE_BYTES <? len e.2 then put_err else (write_u64 e.1 ;; write_bytes e.2).

Definition read_page_image : Get (Z * list Z) :=
  page_number ← read_u64; page_data ← read_bytes;
  _ ← get_guard (negb (MAX_FULL_PAGE_IMAGE_BYTES <? len page_data));
  mret (page_number, page_data).

Definition write_segment (e : Z * list Z) : Put := (write_u16 e.1 ;; write_bytes e.2).

Definition read_segment : Get (Z * list Z) := offset ← read_u16; data ← read_bytes; mret (offset, data).

Definition write_patch (e : Z * list (Z * list Z)) : Put := (write_u64 e.1 ;; write_list write_segment e.2).

Definition read_patch : Get (Z * list (Z * list Z)) :=
  page_number ← read_u64; segments ← read_list read_segment; mret (page_number, segments).

Definition write_update (e : Z * Z * Z) : Put :=
  let '(page_number, offset, value) := e in
  (write_u64 page_number ;; write_u16 offset ;; write_u64 value).

Definition read_update : Get (Z * Z * Z) :=
  page_number ← read_u64; offset ← read_u16; value ← read_u64; mret (page_number, offset, value).

Definition write_step (e : Z * Z * Z * Z * Z * Z) : Put :=
  let '(parent_page, parent_slot, parent_first_child, replacement_child, removed_page, next_free_page) := e in
  (write_u64 parent_page ;; write_u32 parent_slot ;; write_u64 parent_first_child ;;
   write_u64 replacement_child ;; write_u64 removed_page ;; write_u64 next_free_page).

Definition read_step : Get (Z * Z * Z * Z * Z * Z) :=
  parent_page ← read_u64; parent_slot ← read_u32; parent_first_child ← read_u64;
  replacement_child ← read_u64; removed_page ← read_u64; next_free_page ← read_u64;
  mret (parent_page, parent_slot, parent_first_child, replacement_child, removed_page, next_free_page).

Section Records.
Context `{ExternalTypes}.

(** ** Writing *)

Definition write_catalog_types (r : WalRecord) : Put :=
  match r with
  | CatalogCreateDomain txn_id descriptor_json =>
      (write_u64 txn_id ;; write_bytes descriptor_json)
  | CatalogDropDomain txn_id domain_name =>
      (write_u64 txn_id ;; write_str domain_name)
  | CatalogAlterDomain txn_id descriptor_json =>
      (write_u64 txn_id ;; write_bytes descriptor_json)
  | CatalogCreateUserType txn_id descriptor_json =>
      (write_u64 txn_id ;; write_bytes descriptor_json)
  | CatalogDropUserType txn_id type_name =>
      (write_u64 txn_id ;; write_str type_name)
  | CatalogAlterUserType txn_id descriptor_json =>
      (write_u64 txn_id ;; write_bytes descriptor_json)
  | CatalogCreateCast txn_id descriptor_json =>
      (write_u64 txn_id ;; write_bytes descriptor_json)
  | CatalogDropCast txn_id source_type target_type =>
      (write_u64 txn_id ;; write_str source_type ;; write_str target_type)
  | CatalogCreatePolicy txn_id descriptor_json =>
      (write_u64 txn_id ;; write_bytes descriptor_json)
  | CatalogDropPolicy txn_id policy_name table_name =>
      (write_u64 txn_id ;; write_str policy_name ;; write_str table_name)
  | CatalogAlterPolicy txn_id descriptor_json =>
      (write_u64 txn_id ;; write_bytes descriptor_json)
  | CatalogCreateRule txn_id descriptor_json =>
      (write_u64 txn_id ;; write_bytes descriptor_json)
  | CatalogDropRule txn_id rule_name table_name =>
      (write_u64 txn_id ;; write_str rule_name ;; write_str table_name)
  | CatalogSetComment txn_id descriptor_json =>
      (write_u64 txn_id ;; write_bytes descriptor_json)
  | CatalogDropComment txn_id object_type object_identity =>
      (write_u64 txn_id ;; write_str object_type ;; write_str object_identity)
  | _ => put_nil
  end.

Definition write_catalog_payload (r : WalRecord) : Put :=
  match r with
  | CatalogCreateSchema txn_id descriptor_json =>
      (write_u64 txn_id ;; write_bytes descriptor_json)
  | CatalogDropSchema txn_id schema_id_raw =>
      (write_u64 txn_id ;; write_u64 schema_id_raw)
  | CatalogCreateRole txn_id descriptor_json =>
      (write_u64 txn_id ;; write_bytes descriptor_json)
  | CatalogAlterRole txn_id descriptor_json =>
      (write_u64 txn_id ;; write_bytes descriptor_json)
  | CatalogDropRole txn_id role_name =>
      (write_u64 txn_id ;; write_str role_name)
  | CatalogCreateView txn_id descriptor_json =>
      (write_u64 txn_id ;; write_bytes descriptor_json)
  | CatalogDropView txn_id view_id_raw =>
      (write_u64 txn_id ;; write_u64 view_id_raw)
  | CatalogCreateSequence txn_id descriptor_json =>
      (write_u64 txn_id ;; write_bytes descriptor_json)
  | CatalogDropSequence txn_id sequence_id_raw =>
      (write_u64 txn_id ;; write_u64 sequence_id_raw)
  | CatalogAlterSequence txn_id descriptor_json =>
      (write_u64 txn_id ;; write_bytes descriptor_json)
  | CatalogCreateFunction txn_id descriptor_json =>
      (write_u64 txn_id ;; write_bytes descriptor_json)
  | CatalogDropFunction txn_id function_name =>
      (write_u64 txn_id ;; write_str function_name)
  | CatalogCreateTrigger txn_id descriptor_json =>
      (write_u64 txn_id ;; write_bytes descriptor_json)
  | CatalogDropTrigger txn_id trigger_name table_name =>
      (write_u64 txn_id ;; write_str trigger_name ;; write_str table_name)
  | CatalogGrantPrivilege txn_id descriptor_json =>
      (write_u64 txn_id ;; write_bytes descriptor_json)
  | CatalogRevokePrivilege txn_id descriptor_json =>
      (write_u64 txn_id ;; write_bytes descriptor_json)
  | CatalogSetTableDescriptor txn_id descriptor_json =>
      (write_u64 txn_id ;; write_bytes descriptor_json)
  | CatalogSetIndexDescriptor txn_id descriptor_json =>
      (write_u64 txn_id ;; write_bytes descriptor_json)
  | CatalogCreateTenant txn_id descriptor_json =>
      (write_u64 txn_id ;; write_bytes descriptor_json)
  | CatalogDropTenant txn_id tenant_name =>
      (write_u64 txn_id ;; write_str tenant_name)
  | CatalogDropTable txn_id table_id_raw =>
      (write_u64 txn_id ;; write_u64 table_id_raw)
  | CatalogDropIndex txn_id index_id_raw =>
      (write_u64 txn_id ;; write_u64 index_id_raw)
  | CatalogUpdateStatistics txn_id descriptor_json =>
      (write_u64 txn_id ;; write_bytes descriptor_json)
  | CatalogCreateNodeLabel txn_id descriptor_json =>
      (write_u64 txn_id ;; write_bytes descriptor_json)
  | CatalogCreateEdgeLabel txn_id descriptor_json =>
      (write_u64 txn_id ;; write_bytes descriptor_json)
  | CatalogDropNodeLabel txn_id label_name =>
      (write_u64 txn_id ;; write_str label_name)
  | CatalogDropEdgeLabel txn_id label_name =>
      (write_u64 txn_id ;; write_str label_name)
  | CatalogSetSequenceValue txn_id sequence_id_raw current_value is_called =>
      (write_u64 txn_id ;; write_u64 sequence_id_raw ;; write_i64 current_value ;; write_bool is_called)
  | _ => write_catalog_types r
  end.

Definition write_btree_merge_fields (r : WalRecord) : Put :=
  match r with
  | DiskBtreeLeafRedistribute relation_id left_page right_page parent_page parent_slot parent_first_child
         left_entries right_entries right_right_sibling new_separator =>
      (write_u64 relation_id ;; write_u64 left_page ;; write_u64 right_page ;; write_u64 parent_page ;;
         write_u32 parent_slot ;; write_u64 parent_first_child ;; write_list write_pair left_entries ;;
         write_list write_pair right_entries ;; write_u64 right_right_sibling ;; write_u64 new_separator)
  | DiskBtreeInternalRedistribute relation_id left_page right_page parent_page parent_slot
         parent_first_child left_first_child right_first_child left_entries right_entries new_separator =>
      (write_u64 relation_id ;; write_u64 left_page ;; write_u64 right_page ;; write_u64 parent_page ;;
         write_u32 parent_slot ;; write_u64 parent_first_child ;; write_u64 left_first_child ;;
         write_u64 right_first_child ;; write_list write_pair left_entries ;;
         write_list write_pair right_entries ;; write_u64 new_separator)
  | DiskBtreeLeafMerge relation_id left_page right_page parent_page parent_first_child removed_separator
         left_entries new_right_sibling next_free_page =>
      (write_u64 relation_id ;; write_u64 left_page ;; write_u64 right_page ;; write_u64 parent_page ;;
         write_u64 parent_first_child ;; write_u64 removed_separator ;;
         write_list write_pair left_entries ;; write_u64 new_right_sibling ;; write_u64 next_free_page)
  | DiskBtreeInternalMerge relation_id left_page right_page parent_page parent_first_child
         removed_separator left_first_child left_entries next_free_page =>
      (write_u64 relation_id ;; write_u64 left_page ;; write_u64 right_page ;; write_u64 parent_page ;;
         write_u64 parent_first_child ;; write_u64 removed_separator ;; write_u64 left_first_child ;;
         write_list write_pair left_entries ;; write_u64 next_free_page)
  | DiskBtreeRootShrinkLeaf relation_id root_page root_entries right_sibling freed_pages =>
      (write_u64 relation_id ;; write_u64 root_page ;; write_list write_pair root_entries ;;
         write_u64 right_sibling ;; write_list write_pair freed_pages)
  | DiskBtreeRootShrinkInternal relation_id root_page root_first_child root_entries freed_pages =>
      (write_u64 relation_id ;; write_u64 root_page ;; write_u64 root_first_child ;;
         write_list write_pair root_entries ;; write_list write_pair freed_pages)
  | DiskBtreeInternalCollapse relation_id parent_page parent_slot parent_first_child replacement_child
         removed_page next_free_page =>
      (write_u64 relation_id ;; write_u64 parent_page ;; write_u32 parent_slot ;;
         write_u64 parent_first_child ;; write_u64 replacement_child ;; write_u64 removed_page ;;
         write_u64 next_free_page)
  | DiskBtreeRootPromoteSingleChild relation_id new_root_page removed_root_page next_free_page =>
      (write_u64 relation_id ;; write_u64 new_root_page ;; write_u64 removed_root_page ;;
         write_u64 next_free_page)
  | DiskBtreeRootPromoteCollapsedChain relation_id new_root_page freed_pages =>
      (write_u64 relation_id ;; write_u64 new_root_page ;; write_list write_pair freed_pages)
  | DiskBtreeInternalCollapseChain relation_id steps =>
      (write_u64 relation_id ;; write_list write_step steps)
  | _ => write_catalog_payload r
  end.

Definition write_btree_fields (r : WalRecord) : Put :=
  match r with
  | DiskBtreeMetaUpdate relation_id root_page height page_count free_list_head =>
      (write_u64 relation_id ;; write_u64 root_page ;; write_u32 height ;; write_u64 page_count ;;
         write_u64 free_list_head)
  | DiskBtreeLeafInsert relation_id page_number key value =>
      (write_u64 relation_id ;; write_u64 page_number ;; write_u64 key ;; write_u64 value)
  | DiskBtreeLeafDelete relation_id page_number key value =>
      (write_u64 relation_id ;; write_u64 page_number ;; write_u64 key ;; write_u64 value)
  | DiskBtreeLeafSplit relation_id left_page right_page old_right_sibling separator left_entries
         right_entries =>
      (write_u64 relation_id ;; write_u64 left_page ;; write_u64 right_page ;;
         write_u64 old_right_sibling ;; write_u64 separator ;; write_list write_pair left_entries ;;
         write_list write_pair right_entries)
  | DiskBtreeInternalInsert relation_id page_number separator child_page =>
      (write_u64 relation_id ;; write_u64 page_number ;; write_u64 separator ;; write_u64 child_page)
  | DiskBtreeInternalSplit relation_id left_page right_page promoted_separator left_first_child
         right_first_child left_entries right_entries =>
      (write_u64 relation_id ;; write_u64 left_page ;; write_u64 right_page ;;
         write_u64 promoted_separator ;; write_u64 left_first_child ;; write_u64 right_first_child ;;
         write_list write_pair left_entries ;; write_list write_pair right_entries)
  | DiskBtreeRootGrow relation_id page_number first_child separator right_child =>
      (write_u64 relation_id ;; write_u64 page_number ;; write_u64 first_child ;; write_u64 separator ;;
         write_u64 right_child)
  | DiskBtreeInternalDelete relation_id page_number separator child_page =>
      (write_u64 relation_id ;; write_u64 page_number ;; write_u64 separator ;; write_u64 child_page)
  | _ => write_btree_merge_fields r
  end.

Definition write_page_fields (r : WalRecord) : Put :=
  match r with
  | FullPageImage relation_id page_number page_data =>
      if MAX_FULL_PAGE_IMAGE_BYTES <? len page_data then put_err
      else (write_u64 relation_id ;; write_u64 page_number ;; write_bytes page_data)
  | FullPageImageBatch relation_id pages =>
      (write_u64 relation_id ;; write_list write_page_image pages)
  | PagePatch relation_id page_number segments =>
      (write_u64 relation_id ;; write_u64 page_number ;; write_list write_segment segments)
  | PagePatchBatch relation_id patches =>
      (write_u64 relation_id ;; write_list write_patch patches)
  | PageSetU64Batch relation_id updates =>
      (write_u64 relation_id ;; write_list write_update updates)
  | _ => write_btree_fields r
  end.

Definition write_fields (r : WalRecord) : Put :=
  match r with
  | BeginTxn txn_id isolation =>
      (write_u64 txn_id ;; write_isolation isolation)
  | CommitTxn txn_id commit_ts =>
      (write_u64 txn_id ;; write_u64 commit_ts)
  | AbortTxn txn_id =>
      (write_u64 txn_id)
  | InsertRow txn_id table_id tuple_id row =>
      (write_u64 txn_id ;; write_u64 table_id ;; write_u64 tuple_id ;; write_row row)
  | DeleteRow txn_id table_id tuple_id =>
      (write_u64 txn_id ;; write_u64 table_id ;; write_u64 tuple_id)
  | UpdateRow txn_id table_id old_tuple_id new_tuple_id row =>
      (write_u64 txn_id ;; write_u64 table_id ;; write_u64 old_tuple_id ;; write_u64 new_tuple_id ;;
         write_row row)
  | AutocommitInsertRow txn_id table_id tuple_id row =>
      (write_u64 txn_id ;; write_u64 table_id ;; write_u64 tuple_id ;; write_row row)
  | AutocommitDeleteRow txn_id table_id tuple_id =>
      (write_u64 txn_id ;; write_u64 table_id ;; write_u64 tuple_id)
  | AutocommitUpdateRow txn_id table_id old_tuple_id new_tuple_id row =>
      (write_u64 txn_id ;; write_u64 table_id ;; write_u64 old_tuple_id ;; write_u64 new_tuple_id ;;
         write_row row)
  | CreateTable txn_id descriptor =>
      (write_u64 txn_id ;; write_table_descriptor descriptor)
  | DropTable txn_id table_id =>
      (write_u64 txn_id ;; write_u64 table_id)
  | CreateIndex txn_id descriptor =>
      (write_u64 txn_id ;; write_index_descriptor descriptor)
  | DropIndex txn_id index_id =>
      (write_u64 txn_id ;; write_u64 index_id)
  | AlterTable txn_id descriptor =>
      (write_u64 txn_id ;; write_table_descriptor descriptor)
  | Checkpoint last_committed_lsn =>
      (write_u64 last_committed_lsn)
  | UpdateStatistics table_id row_count total_bytes dead_row_count column_stats =>
      (write_u64 table_id ;; write_u64 row_count ;; write_u64 total_bytes ;; write_u64 dead_row_count ;;
         write_list write_stat column_stats)
  | PagedRowRef txn_id table_id tuple_id =>
      (write_u64 txn_id ;; write_u64 table_id ;; write_u64 tuple_id)
  | RegisterEdgeTable table_id source_col target_col =>
      (write_u64 table_id ;; write_u64 (Z.min u64_max source_col) ;; write_u64 (Z.min u64_max target_col))
  | AdjacencyInsert table_id source_id target_id edge_tuple_id =>
      (write_u64 table_id ;; write_value source_id ;; write_value target_id ;; write_u64 edge_tuple_id)
  | AdjacencyRemove table_id source_id target_id edge_tuple_id =>
      (write_u64 table_id ;; write_value source_id ;; write_value target_id ;; write_u64 edge_tuple_id)
  | _ => write_page_fields r
  end.

Definition write_record_payload (r : WalRecord) : Put := (write_u8 (tag r) ;; write_fields r).

(** ** Reading *)

Definition read_catalog_types (tag : Z) : Get WalRecord :=
  match tag with
  | 71 => (* CatalogCreateDomain *)
      txn_id ← read_u64; descriptor_json ← read_bytes; mret (CatalogCreateDomain txn_id descriptor_json)
  | 72 => (* CatalogDropDomain *)
      txn_id ← read_u64; domain_name ← read_str; mret (CatalogDropDomain txn_id domain_name)
  | 73 => (* CatalogAlterDomain *)
      txn_id ← read_u64; descriptor_json ← read_bytes; mret (CatalogAlterDomain txn_id descriptor_json)
  | 74 => (* CatalogCreateUserType *)
      txn_id ← read_u64; descriptor_json ← read_bytes; mret (CatalogCreateUserType txn_id descriptor_json)
  | 75 => (* CatalogDropUserType *)
      txn_id ← read_u64; type_name ← read_str; mret (CatalogDropUserType txn_id type_name)
  | 76 => (* CatalogAlterUserType *)
      txn_id ← read_u64; descriptor_json ← read_bytes; mret (CatalogAlterUserType txn_id descriptor_json)
  | 77 => (* CatalogCreateCast *)
      txn_id ← read_u64; descriptor_json ← read_bytes; mret (CatalogCreateCast txn_id descriptor_json)
  | 78 => (* CatalogDropCast *)
      txn_id ← read_u64; source_type ← read_str; target_type ← read_str;
      mret (CatalogDropCast txn_id source_type target_type)
  | 79 => (* CatalogCreatePolicy *)
      txn_id ← read_u64; descriptor_json ← read_bytes; mret (CatalogCreatePolicy txn_id descriptor_json)
  | 80 => (* CatalogDropPolicy *)
      txn_id ← read_u64; policy_name ← read_str; table_name ← read_str;
      mret (CatalogDropPolicy txn_id policy_name table_name)
  | 81 => (* CatalogAlterPolicy *)
      txn_id ← read_u64; descriptor_json ← read_bytes; mret (CatalogAlterPolicy txn_id descriptor_json)
  | 82 => (* CatalogCreateRule *)
      txn_id ← read_u64; descriptor_json ← read_bytes; mret (CatalogCreateRule txn_id descriptor_json)
  | 83 => (* CatalogDropRule *)
      txn_id ← read_u64; rule_name ← read_str; table_name ← read_str;
      mret (CatalogDropRule txn_id rule_name table_name)
  | 84 => (* CatalogSetComment *)
      txn_id ← read_u64; descriptor_json ← read_bytes; mret (CatalogSetComment txn_id descriptor_json)
  | 85 => (* CatalogDropComment *)
      txn_id ← read_u64; object_type ← read_str; object_identity ← read_str;
      mret (CatalogDropComment txn_id object_type object_identity)
  | _ => get_err
  end.

Definition read_catalog_payload (tag : Z) : Get WalRecord :=
  match tag with
  | 13 => (* CatalogCreateSchema *)
      txn_id ← read_u64; descriptor_json ← read_bytes; mret (CatalogCreateSchema txn_id descriptor_json)
  | 14 => (* CatalogDropSchema *)
      txn_id ← read_u64; schema_id_raw ← read_u64; mret (CatalogDropSchema txn_id schema_id_raw)
  | 15 => (* CatalogCreateRole *)
      txn_id ← read_u64; descriptor_json ← read_bytes; mret (CatalogCreateRole txn_id descriptor_json)
  | 16 => (* CatalogAlterRole *)
      txn_id ← read_u64; descriptor_json ← read_bytes; mret (CatalogAlterRole txn_id descriptor_json)
  | 17 => (* CatalogDropRole *)
      txn_id ← read_u64; role_name ← read_str; mret (CatalogDropRole txn_id role_name)
  | 18 => (* CatalogCreateView *)
      txn_id ← read_u64; descriptor_json ← read_bytes; mret (CatalogCreateView txn_id descriptor_json)
  | 19 => (* CatalogDropView *)
      txn_id ← read_u64; view_id_raw ← read_u64; mret (CatalogDropView txn_id view_id_raw)
  | 20 => (* CatalogCreateSequence *)
      txn_id ← read_u64; descriptor_json ← read_bytes; mret (CatalogCreateSequence txn_id descriptor_json)
  | 21 => (* CatalogDropSequence *)
      txn_id ← read_u64; sequence_id_raw ← read_u64; mret (CatalogDropSequence txn_id sequence_id_raw)
  | 22 => (* CatalogAlterSequence *)
      txn_id ← read_u64; descriptor_json ← read_bytes; mret (CatalogAlterSequence txn_id descriptor_json)
  | 23 => (* CatalogCreateFunction *)
      txn_id ← read_u64; descriptor_json ← read_bytes; mret (CatalogCreateFunction txn_id descriptor_json)
  | 24 => (* CatalogDropFunction *)
      txn_id ← read_u64; function_name ← read_str; mret (CatalogDropFunction txn_id function_name)
  | 25 => (* CatalogCreateTrigger *)
      txn_id ← read_u64; descriptor_json ← read_bytes; mret (CatalogCreateTrigger txn_id descriptor_json)
  | 26 => (* CatalogDropTrigger *)
      txn_id ← read_u64; trigger_name ← read_str; table_name ← read_str;
      mret (CatalogDropTrigger txn_id trigger_name table_name)
  | 27 => (* CatalogGrantPrivilege *)
      txn_id ← read_u64; descriptor_json ← read_bytes; mret (CatalogGrantPrivilege txn_id descriptor_json)
  | 28 => (* CatalogRevokePrivilege *)
      txn_id ← read_u64; descriptor_json ← read_bytes; mret (CatalogRevokePrivilege txn_id descriptor_json)
  | 29 => (* CatalogSetTableDescriptor *)
      txn_id ← read_u64; descriptor_json ← read_bytes;
      mret (CatalogSetTableDescriptor txn_id descriptor_json)
  | 33 => (* CatalogDropTable *)
      txn_id ← read_u64; table_id_raw ← read_u64; mret (CatalogDropTable txn_id table_id_raw)
  | 34 => (* CatalogDropIndex *)
      txn_id ← read_u64; index_id_raw ← read_u64; mret (CatalogDropIndex txn_id index_id_raw)
  | 35 => (* CatalogUpdateStatistics *)
      txn_id ← read_u64; descriptor_json ← read_bytes;
      mret (CatalogUpdateStatistics txn_id descriptor_json)
  | 36 => (* CatalogCreateNodeLabel *)
      txn_id ← read_u64; descriptor_json ← read_bytes; mret (CatalogCreateNodeLabel txn_id descriptor_json)
  | 37 => (* CatalogCreateEdgeLabel *)
      txn_id ← read_u64; descriptor_json ← read_bytes; mret (CatalogCreateEdgeLabel txn_id descriptor_json)
  | 38 => (* CatalogDropNodeLabel *)
      txn_id ← read_u64; label_name ← read_str; mret (CatalogDropNodeLabel txn_id label_name)
  | 39 => (* CatalogDropEdgeLabel *)
      txn_id ← read_u64; label_name ← read_str; mret (CatalogDropEdgeLabel txn_id label_name)
  | 40 => (* CatalogSetIndexDescriptor *)
      txn_id ← read_u64; descriptor_json ← read_bytes;
      mret (CatalogSetIndexDescriptor txn_id descriptor_json)
  | 41 => (* CatalogCreateTenant *)
      txn_id ← read_u64; descriptor_json ← read_bytes; mret (CatalogCreateTenant txn_id descriptor_json)
  | 42 => (* CatalogDropTenant *)
      txn_id ← read_u64; tenant_name ← read_str; mret (CatalogDropTenant txn_id tenant_name)
  | 43 => (* CatalogSetSequenceValue *)
      txn_id ← read_u64; sequence_id_raw ← read_u64; current_value ← read_i64; is_called ← read_bool;
      mret (CatalogSetSequenceValue txn_id sequence_id_raw current_value is_called)
  | _ => read_catalog_types tag
  end.

Definition read_btree_merge_fields (tag : Z) : Get WalRecord :=
  match tag with
  | 58 => (* DiskBtreeLeafRedistribute *)
      relation_id ← read_u64; left_page ← read_u64; right_page ← read_u64; parent_page ← read_u64;
      parent_slot ← read_u32; parent_first_child ← read_u64; left_entries ← read_list read_pair;
      right_entries ← read_list read_pair; right_right_sibling ← read_u64; new_separator ← read_u64;
      mret (DiskBtreeLeafRedistribute relation_id left_page right_page parent_page parent_slot
         parent_first_child left_entries right_entries right_right_sibling new_separator)
  | 59 => (* DiskBtreeInternalRedistribute *)
      relation_id ← read_u64; left_page ← read_u64; right_page ← read_u64; parent_page ← read_u64;
      parent_slot ← read_u32; parent_first_child ← read_u64; left_first_child ← read_u64;
      right_first_child ← read_u64; left_entries ← read_list read_pair;
      right_entries ← read_list read_pair; new_separator ← read_u64;
      mret (DiskBtreeInternalRedistribute relation_id left_page right_page parent_page parent_slot
         parent_first_child left_first_child right_first_child left_entries right_entries new_separator)
  | 60 => (* DiskBtreeLeafMerge *)
      relation_id ← read_u64; left_page ← read_u64; right_page ← read_u64; parent_page ← read_u64;
      parent_first_child ← read_u64; removed_separator ← read_u64; left_entries ← read_list read_pair;
      new_right_sibling ← read_u64; next_free_page ← read_u64;
      mret (DiskBtreeLeafMerge relation_id left_page right_page parent_page parent_first_child
         removed_separator left_entries new_right_sibling next_free_page)
  | 61 => (* DiskBtreeInternalMerge *)
      relation_id ← read_u64; left_page ← read_u64; right_page ← read_u64; parent_page ← read_u64;
      parent_first_child ← read_u64; removed_separator ← read_u64; left_first_child ← read_u64;
      left_entries ← read_list read_pair; next_free_page ← read_u64;
      mret (DiskBtreeInternalMerge relation_id left_page right_page parent_page parent_first_child
         removed_separator left_first_child left_entries next_free_page)
  | 62 => (* DiskBtreeRootShrinkLeaf *)
      relation_id ← read_u64; root_page ← read_u64; root_entries ← read_list read_pair;
      right_sibling ← read_u64; freed_pages ← read_list read_pair;
      mret (DiskBtreeRootShrinkLeaf relation_id root_page root_entries right_sibling freed_pages)
  | 63 => (* DiskBtreeRootShrinkInternal *)
      relation_id ← read_u64; root_page ← read_u64; root_first_child ← read_u64;
      root_entries ← read_list read_pair; freed_pages ← read_list read_pair;
      mret (DiskBtreeRootShrinkInternal relation_id root_page root_first_child root_entries freed_pages)
  | 64 => (* DiskBtreeInternalCollapse *)
      relation_id ← read_u64; parent_page ← read_u64; parent_slot ← read_u32;
      parent_first_child ← read_u64; replacement_child ← read_u64; removed_page ← read_u64;
      next_free_page ← read_u64;
      mret (DiskBtreeInternalCollapse relation_id parent_page parent_slot parent_first_child
         replacement_child removed_page next_free_page)
  | 65 => (* DiskBtreeRootPromoteSingleChild *)
      relation_id ← read_u64; new_root_page ← read_u64; removed_root_page ← read_u64;
      next_free_page ← read_u64;
      mret (DiskBtreeRootPromoteSingleChild relation_id new_root_page removed_root_page next_free_page)
  | 66 => (* DiskBtreeRootPromoteCollapsedChain *)
      relation_id ← read_u64; new_root_page ← read_u64; freed_pages ← read_list read_pair;
      mret (DiskBtreeRootPromoteCollapsedChain relation_id new_root_page freed_pages)
  | 67 => (* DiskBtreeInternalCollapseChain *)
      relation_id ← read_u64; steps ← read_list read_step;
      mret (DiskBtreeInternalCollapseChain relation_id steps)
  | _ => read_catalog_payload tag
  end.

Definition read_btree_fields (tag : Z) : Get WalRecord :=
  match tag with
  | 50 => (* DiskBtreeMetaUpdate *)
      relation_id ← read_u64; root_page ← read_u64; height ← read_u32; page_count ← read_u64;
      free_list_head ← read_u64;
      mret (DiskBtreeMetaUpdate relation_id root_page height page_count free_list_head)
  | 51 => (* DiskBtreeLeafInsert *)
      relation_id ← read_u64; page_number ← read_u64; key ← read_u64; value ← read_u64;
      mret (DiskBtreeLeafInsert relation_id page_number key value)
  | 52 => (* DiskBtreeLeafDelete *)
      relation_id ← read_u64; page_number ← read_u64; key ← read_u64; value ← read_u64;
      mret (DiskBtreeLeafDelete relation_id page_number key value)
  | 53 => (* DiskBtreeLeafSplit *)
      relation_id ← read_u64; left_page ← read_u64; right_page ← read_u64; old_right_sibling ← read_u64;
      separator ← read_u64; left_entries ← read_list read_pair; right_entries ← read_list read_pair;
      mret (DiskBtreeLeafSplit relation_id left_page right_page old_right_sibling separator left_entries
         right_entries)
  | 54 => (* DiskBtreeInternalInsert *)
      relation_id ← read_u64; page_number ← read_u64; separator ← read_u64; child_page ← read_u64;
      mret (DiskBtreeInternalInsert relation_id page_number separator child_page)
  | 55 => (* DiskBtreeInternalSplit *)
      relation_id ← read_u64; left_page ← read_u64; right_page ← read_u64; promoted_separator ← read_u64;
      left_first_child ← read_u64; right_first_child ← read_u64; left_entries ← read_list read_pair;
      right_entries ← read_list read_pair;
      mret (DiskBtreeInternalSplit relation_id left_page right_page promoted_separator left_first_child
         right_first_child left_entries right_entries)
  | 56 => (* DiskBtreeRootGrow *)
      relation_id ← read_u64; page_number ← read_u64; first_child ← read_u64; separator ← read_u64;
      right_child ← read_u64;
      mret (DiskBtreeRootGrow relation_id page_number first_child separator right_child)
  | 57 => (* DiskBtreeInternalDelete *)
      relation_id ← read_u64; page_number ← read_u64; separator ← read_u64; child_page ← read_u64;
      mret (DiskBtreeInternalDelete relation_id page_number separator child_page)
  | _ => read_btree_merge_fields tag
  end.

Definition read_page_fields (tag : Z) : Get WalRecord :=
  match tag with
  | 44 => (* FullPageImage *)
      relation_id ← read_u64; page_number ← read_u64; page_data ← read_bytes;
      _ ← get_guard (negb (MAX_FULL_PAGE_IMAGE_BYTES <? len page_data));
      mret (FullPageImage relation_id page_number page_data)
  | 46 => (* FullPageImageBatch *)
      relation_id ← read_u64; pages ← read_list read_page_image;
      mret (FullPageImageBatch relation_id pages)
  | 47 => (* PagePatch *)
      relation_id ← read_u64; page_number ← read_u64; segments ← read_list read_segment;
      mret (PagePatch relation_id page_number segments)
  | 48 => (* PagePatchBatch *)
      relation_id ← read_u64; patches ← read_list read_patch; mret (PagePatchBatch relation_id patches)
  | 49 => (* PageSetU64Batch *)
      relation_id ← read_u64; updates ← read_list read_update; mret (PageSetU64Batch relation_id updates)
  | _ => read_btree_fields tag
  end.

Definition read_fields (tag : Z) : Get WalRecord :=
  match tag with
  | 0 => (* BeginTxn *)
      txn_id ← read_u64; isolation ← read_isolation; mret (BeginTxn txn_id isolation)
  | 1 => (* CommitTxn *)
      txn_id ← read_u64; commit_ts ← read_u64; mret (CommitTxn txn_id commit_ts)
  | 2 => (* AbortTxn *)
      txn_id ← read_u64; mret (AbortTxn txn_id)
  | 3 => (* InsertRow *)
      txn_id ← read_u64; table_id ← read_u64; tuple_id ← read_u64; row ← read_row;
      mret (InsertRow txn_id table_id tuple_id row)
  | 4 => (* DeleteRow *)
      txn_id ← read_u64; table_id ← read_u64; tuple_id ← read_u64;
      mret (DeleteRow txn_id table_id tuple_id)
  | 5 => (* UpdateRow *)
      txn_id ← read_u64; table_id ← read_u64; old_tuple_id ← read_u64; new_tuple_id ← read_u64;
      row ← read_row; mret (UpdateRow txn_id table_id old_tuple_id new_tuple_id row)
  | 6 => (* CreateTable *)
      txn_id ← read_u64; descriptor ← read_table_descriptor; mret (CreateTable txn_id descriptor)
  | 7 => (* DropTable *)
      txn_id ← read_u64; table_id ← read_u64; mret (DropTable txn_id table_id)
  | 8 => (* CreateIndex *)
      txn_id ← read_u64; descriptor ← read_index_descriptor; mret (CreateIndex txn_id descriptor)
  | 9 => (* DropIndex *)
      txn_id ← read_u64; index_id ← read_u64; mret (DropIndex txn_id index_id)
  | 10 => (* AlterTable *)
      txn_id ← read_u64; descriptor ← read_table_descriptor; mret (AlterTable txn_id descriptor)
  | 11 => (* Checkpoint *)
      last_committed_lsn ← read_u64; mret (Checkpoint last_committed_lsn)
  | 12 => (* UpdateStatistics *)
      table_id ← read_u64; row_count ← read_u64; total_bytes ← read_u64; dead_row_count ← read_u64;
      column_stats ← read_list read_stat;
      mret (UpdateStatistics table_id row_count total_bytes dead_row_count column_stats)
  | 30 => (* RegisterEdgeTable *)
      table_id ← read_u64; source_col ← read_bounded_u64_usize MAX_COLUMN_ORDINAL;
      target_col ← read_bounded_u64_usize MAX_COLUMN_ORDINAL;
      mret (RegisterEdgeTable table_id source_col target_col)
  | 31 => (* AdjacencyInsert *)
      table_id ← read_u64; source_id ← read_value; target_id ← read_value; edge_tuple_id ← read_u64;
      mret (AdjacencyInsert table_id source_id target_id edge_tuple_id)
  | 32 => (* AdjacencyRemove *)
      table_id ← read_u64; source_id ← read_value; target_id ← read_value; edge_tuple_id ← read_u64;
      mret (AdjacencyRemove table_id source_id target_id edge_tuple_id)
  | 45 => (* PagedRowRef *)
      txn_id ← read_u64; table_id ← read_u64; tuple_id ← read_u64;
      mret (PagedRowRef txn_id table_id tuple_id)
  | 68 => (* AutocommitInsertRow *)
      txn_id ← read_u64; table_id ← read_u64; tuple_id ← read_u64; row ← read_row;
      mret (AutocommitInsertRow txn_id table_id tuple_id row)
  | 69 => (* AutocommitDeleteRow *)
      txn_id ← read_u64; table_id ← read_u64; tuple_id ← read_u64;
      mret (AutocommitDeleteRow txn_id table_id tuple_id)
  | 70 => (* AutocommitUpdateRow *)
      txn_id ← read_u64; table_id ← read_u64; old_tuple_id ← read_u64; new_tuple_id ← read_u64;
      row ← read_row; mret (AutocommitUpdateRow txn_id table_id old_tuple_id new_tuple_id row)
  | _ => read_page_fields tag
  end.

Definition read_record_payload : Get WalRecord := tag ← read_u8; read_fields tag.

(** ** The records the log can give back *)

Definition pair_ok (e : Z * Z) : Prop := in_unsigned 64 e.1 /\ in_unsigned 64 e.2.

Definition stat_ok (e : Z * Z * Z * Z) : Prop :=
  let '(a, b, c, d) := e in in_unsigned 64 a /\ in_unsigned 64 b /\ in_unsigned 64 c /\ in_unsigned 32 d.

Definition image_ok (bs : list Z) : Prop := Forall byte bs /\ len bs <= MAX_FULL_PAGE_IMAGE_BYTES.

Definition page_image_ok (e : Z * list Z) : Prop := in_unsigned 64 e.1 /\ image_ok e.2.

Definition segment_ok (e : Z * list Z) : Prop := in_unsigned 16 e.1 /\ bytes_ok e.2.

Definition patch_ok (e : Z * list (Z * list Z)) : Prop := in_unsigned 64 e.1 /\ list_ok segment_ok e.2.

Definition update_ok (e : Z * Z * Z) : Prop :=
  let '(a, b, c) := e in in_unsigned 64 a /\ in_unsigned 16 b /\ in_unsigned 64 c.

Definition step_ok (e : Z * Z * Z * Z * Z * Z) : Prop :=
  let '(a, b, c, d, f, g) := e in
  in_unsigned 64 a /\ in_unsigned 32 b /\ in_unsigned 64 c /\ in_unsigned 64 d /\ in_unsigned 64 f /\
  in_unsigned 64 g.

Definition ordinal_ok (n : Z) : Prop := 0 <= n <= MAX_COLUMN_ORDINAL.

Definition value_fuel : nat := Z.to_nat (MAX_NESTING_DEPTH + 1).

Definition row_ok (J : JsonValue -> Prop) (row : Row) : Prop := list_ok (value_ok J value_fuel) row.

(** Every field is within its type and within the limits the reader enforces; [J] as
    for [value_ok]. *)
Definition record_ok (J : JsonValue -> Prop) (r : WalRecord) : Prop :=
  match r with
  | BeginTxn txn_id _ =>
      in_unsigned 64 txn_id
  | CommitTxn txn_id commit_ts =>
      in_unsigned 64 txn_id /\ in_unsigned 64 commit_ts
  | AbortTxn txn_id =>
      in_unsigned 64 txn_id
  | InsertRow txn_id table_id tuple_id row =>
      in_unsigned 64 txn_id /\ in_unsigned 64 table_id /\ in_unsigned 64 tuple_id /\ row_ok J row
  | DeleteRow txn_id table_id tuple_id =>
      in_unsigned 64 txn_id /\ in_unsigned 64 table_id /\ in_unsigned 64 tuple_id
  | UpdateRow txn_id table_id old_tuple_id new_tuple_id row =>
      in_unsigned 64 txn_id /\ in_unsigned 64 table_id /\ in_unsigned 64 old_tuple_id /\
      in_unsigned 64 new_tuple_id /\ row_ok J row
  | AutocommitInsertRow txn_id table_id tuple_id row =>
      in_unsigned 64 txn_id /\ in_unsigned 64 table_id /\ in_unsigned 64 tuple_id /\ row_ok J row
  | AutocommitDeleteRow txn_id table_id tuple_id =>
      in_unsigned 64 txn_id /\ in_unsigned 64 table_id /\ in_unsigned 64 tuple_id
  | AutocommitUpdateRow txn_id table_id old_tuple_id new_tuple_id row =>
      in_unsigned 64 txn_id /\ in_unsigned 64 table_id /\ in_unsigned 64 old_tuple_id /\
      in_unsigned 64 new_tuple_id /\ row_ok J row
  | CreateTable txn_id descriptor =>
      in_unsigned 64 txn_id /\ table_ok descriptor
  | DropTable txn_id table_id =>
      in_unsigned 64 txn_id /\ in_unsigned 64 table_id
  | CreateIndex txn_id descriptor =>
      in_unsigned 64 txn_id /\ index_ok descriptor
  | DropIndex txn_id index_id =>
      in_unsigned 64 txn_id /\ in_unsigned 64 index_id
  | AlterTable txn_id descriptor =>
      in_unsigned 64 txn_id /\ table_ok descriptor
  | Checkpoint last_committed_lsn =>
      in_unsigned 64 last_committed_lsn
  | UpdateStatistics table_id row_count total_bytes dead_row_count column_stats =>
      in_unsigned 64 table_id /\ in_unsigned 64 row_count /\ in_unsigned 64 total_bytes /\
      in_unsigned 64 dead_row_count /\ list_ok stat_ok column_stats
  | FullPageImage relation_id page_number page_data =>
      in_unsigned 64 relation_id /\ in_unsigned 64 page_number /\ image_ok page_data
  | FullPageImageBatch relation_id pages =>
      in_unsigned 64 relation_id /\ list_ok page_image_ok pages
  | PagePatch relation_id page_number segments =>
      in_unsigned 64 relation_id /\ in_unsigned 64 page_number /\ list_ok segment_ok segments
  | PagePatchBatch relation_id patches =>
      in_unsigned 64 relation_id /\ list_ok patch_ok patches
  | PageSetU64Batch relation_id updates =>
      in_unsigned 64 relation_id /\ list_ok update_ok updates
  | DiskBtreeMetaUpdate relation_id root_page height page_count free_list_head =>
      in_unsigned 64 relation_id /\ in_unsigned 64 root_page /\ in_unsigned 32 height /\
      in_unsigned 64 page_count /\ in_unsigned 64 free_list_head
  | DiskBtreeLeafInsert relation_id page_number key value =>
      in_unsigned 64 relation_id /\ in_unsigned 64 page_number /\ in_unsigned 64 key /\
      in_unsigned 64 value
  | DiskBtreeLeafDelete relation_id page_number key value =>
      in_unsigned 64 relation_id /\ in_unsigned 64 page_number /\ in_unsigned 64 key /\
      in_unsigned 64 value
  | DiskBtreeLeafSplit relation_id left_page right_page old_right_sibling separator left_entries
         right_entries =>
      in_unsigned 64 relation_id /\ in_unsigned 64 left_page /\ in_unsigned 64 right_page /\
      in_unsigned 64 old_right_sibling /\ in_unsigned 64 separator /\ list_ok pair_ok left_entries /\
      list_ok pair_ok right_entries
  | DiskBtreeInternalInsert relation_id page_number separator child_page =>
      in_unsigned 64 relation_id /\ in_unsigned 64 page_number /\ in_unsigned 64 separator /\
      in_unsigned 64 child_page
  | DiskBtreeInternalSplit relation_id left_page right_page promoted_separator left_first_child
         right_first_child left_entries right_entries =>
      in_unsigned 64 relation_id /\ in_unsigned 64 left_page /\ in_unsigned 64 right_page /\
      in_unsigned 64 promoted_separator /\ in_unsigned 64 left_first_child /\
      in_unsigned 64 right_first_child /\ list_ok pair_ok left_entries /\ list_ok pair_ok right_entries
  | DiskBtreeRootGrow relation_id page_number first_child separator right_child =>
      in_unsigned 64 relation_id /\ in_unsigned 64 page_number /\ in_unsigned 64 first_child /\
      in_unsigned 64 separator /\ in_unsigned 64 right_child
  | DiskBtreeInternalDelete relation_id page_number separator child_page =>
      in_unsigned 64 relation_id /\ in_unsigned 64 page_number /\ in_unsigned 64 separator /\
      in_unsigned 64 child_page
  | DiskBtreeLeafRedistribute relation_id left_page right_page parent_page parent_slot parent_first_child
         left_entries right_entries right_right_sibling new_separator =>
      in_unsigned 64 relation_id /\ in_unsigned 64 left_page /\ in_unsigned 64 right_page /\
      in_unsigned 64 parent_page /\ in_unsigned 32 parent_slot /\ in_unsigned 64 parent_first_child /\
      list_ok pair_ok left_entries /\ list_ok pair_ok right_entries /\
      in_unsigned 64 right_right_sibling /\ in_unsigned 64 new_separator
  | DiskBtreeInternalRedistribute relation_id left_page right_page parent_page parent_slot
         parent_first_child left_first_child right_first_child left_entries right_entries new_separator =>
      in_unsigned 64 relation_id /\ in_unsigned 64 left_page /\ in_unsigned 64 right_page /\
      in_unsigned 64 parent_page /\ in_unsigned 32 parent_slot /\ in_unsigned 64 parent_first_child /\
      in_unsigned 64 left_first_child /\ in_unsigned 64 right_first_child /\
      list_ok pair_ok left_entries /\ list_ok pair_ok right_entries /\ in_unsigned 64 new_separator
  | DiskBtreeLeafMerge relation_id left_page right_page parent_page parent_first_child removed_separator
         left_entries new_right_sibling next_free_page =>
      in_unsigned 64 relation_id /\ in_unsigned 64 left_page /\ in_unsigned 64 right_page /\
      in_unsigned 64 parent_page /\ in_unsigned 64 parent_first_child /\
      in_unsigned 64 removed_separator /\ list_ok pair_ok left_entries /\
      in_unsigned 64 new_right_sibling /\ in_unsigned 64 next_free_page
  | DiskBtreeInternalMerge relation_id left_page right_page parent_page parent_first_child
         removed_separator left_first_child left_entries next_free_page =>
      in_unsigned 64 relation_id /\ in_unsigned 64 left_page /\ in_unsigned 64 right_page /\
      in_unsigned 64 parent_page /\ in_unsigned 64 parent_first_child /\
      in_unsigned 64 removed_separator /\ in_unsigned 64 left_first_child /\
      list_ok pair_ok left_entries /\ in_unsigned 64 next_free_page
  | DiskBtreeRootShrinkLeaf relation_id root_page root_entries right_sibling freed_pages =>
      in_unsigned 64 relation_id /\ in_unsigned 64 root_page /\ list_ok pair_ok root_entries /\
      in_unsigned 64 right_sibling /\ list_ok pair_ok freed_pages
  | DiskBtreeRootShrinkInternal relation_id root_page root_first_child root_entries freed_pages =>
      in_unsigned 64 relation_id /\ in_unsigned 64 root_page /\ in_unsigned 64 root_first_child /\
      list_ok pair_ok root_entries /\ list_ok pair_ok freed_pages
  | DiskBtreeInternalCollapse relation_id parent_page parent_slot parent_first_child replacement_child
         removed_page next_free_page =>
      in_unsigned 64 relation_id /\ in_unsigned 64 parent_page /\ in_unsigned 32 parent_slot /\
      in_unsigned 64 parent_first_child /\ in_unsigned 64 replacement_child /\
      in_unsigned 64 removed_page /\ in_unsigned 64 next_free_page
  | DiskBtreeRootPromoteSingleChild relation_id new_root_page removed_root_page next_free_page =>
      in_unsigned 64 relation_id /\ in_unsigned 64 new_root_page /\ in_unsigned 64 removed_root_page /\
      in_unsigned 64 next_free_page
  | DiskBtreeRootPromoteCollapsedChain relation_id new_root_page freed_pages =>
      in_unsigned 64 relation_id /\ in_unsigned 64 new_root_page /\ list_ok pair_ok freed_pages
  | DiskBtreeInternalCollapseChain relation_id steps =>
      in_unsigned 64 relation_id /\ list_ok step_ok steps
  | PagedRowRef txn_id table_id tuple_id =>
      in_unsigned 64 txn_id /\ in_unsigned 64 table_id /\ in_unsigned 64 tuple_id
  | CatalogCreateSchema txn_id descriptor_json =>
      in_unsigned 64 txn_id /\ bytes_ok descriptor_json
  | CatalogDropSchema txn_id schema_id_raw =>
      in_unsigned 64 txn_id /\ in_unsigned 64 schema_id_raw
  | CatalogCreateRole txn_id descriptor_json =>
      in_unsigned 64 txn_id /\ bytes_ok descriptor_json
  | CatalogAlterRole txn_id descriptor_json =>
      in_unsigned 64 txn_id /\ bytes_ok descriptor_json
  | CatalogDropRole txn_id role_name =>
      in_unsigned 64 txn_id /\ str_ok role_name
  | CatalogCreateView txn_id descriptor_json =>
      in_unsigned 64 txn_id /\ bytes_ok descriptor_json
  | CatalogDropView txn_id view_id_raw =>
      in_unsigned 64 txn_id /\ in_unsigned 64 view_id_raw
  | CatalogCreateSequence txn_id descriptor_json =>
      in_unsigned 64 txn_id /\ bytes_ok descriptor_json
  | CatalogDropSequence txn_id sequence_id_raw =>
      in_unsigned 64 txn_id /\ in_unsigned 64 sequence_id_raw
  | CatalogAlterSequence txn_id descriptor_json =>
      in_unsigned 64 txn_id /\ bytes_ok descriptor_json
  | CatalogCreateFunction txn_id descriptor_json =>
      in_unsigned 64 txn_id /\ bytes_ok descriptor_json
  | CatalogDropFunction txn_id function_name =>
      in_unsigned 64 txn_id /\ str_ok function_name
  | CatalogCreateTrigger txn_id descriptor_json =>
      in_unsigned 64 txn_id /\ bytes_ok descriptor_json
  | CatalogDropTrigger txn_id trigger_name table_name =>
      in_unsigned 64 txn_id /\ str_ok trigger_name /\ str_ok table_name
  | CatalogGrantPrivilege txn_id descriptor_json =>
      in_unsigned 64 txn_id /\ bytes_ok descriptor_json
  | CatalogRevokePrivilege txn_id descriptor_json =>
      in_unsigned 64 txn_id /\ bytes_ok descriptor_json
  | CatalogSetTableDescriptor txn_id descriptor_json =>
      in_unsigned 64 txn_id /\ bytes_ok descriptor_json
  | CatalogSetIndexDescriptor txn_id descriptor_json =>
      in_unsigned 64 txn_id /\ bytes_ok descriptor_json
  | CatalogCreateTenant txn_id descriptor_json =>
      in_unsigned 64 txn_id /\ bytes_ok descriptor_json
  | CatalogDropTenant txn_id tenant_name =>
      in_unsigned 64 txn_id /\ str_ok tenant_name
  | CatalogDropTable txn_id table_id_raw =>
      in_unsigned 64 txn_id /\ in_unsigned 64 table_id_raw
  | CatalogDropIndex txn_id index_id_raw =>
      in_unsigned 64 txn_id /\ in_unsigned 64 index_id_raw
  | CatalogUpdateStatistics txn_id descriptor_json =>
      in_unsigned 64 txn_id /\ bytes_ok descriptor_json
  | CatalogCreateNodeLabel txn_id descriptor_json =>
      in_unsigned 64 txn_id /\ bytes_ok descriptor_json
  | CatalogCreateEdgeLabel txn_id descriptor_json =>
      in_unsigned 64 txn_id /\ bytes_ok descriptor_json
  | CatalogDropNodeLabel txn_id label_name =>
      in_unsigned 64 txn_id /\ str_ok label_name
  | CatalogDropEdgeLabel txn_id label_name =>
      in_unsigned 64 txn_id /\ str_ok label_name
  | CatalogSetSequenceValue txn_id sequence_id_raw current_value _ =>
      in_unsigned 64 txn_id /\ in_unsigned 64 sequence_id_raw /\ in_signed 64 current_value
  | CatalogCreateDomain txn_id descriptor_json =>
      in_unsigned 64 txn_id /\ bytes_ok descriptor_json
  | CatalogDropDomain txn_id domain_name =>
      in_unsigned 64 txn_id /\ str_ok domain_name
  | CatalogAlterDomain txn_id descriptor_json =>
      in_unsigned 64 txn_id /\ bytes_ok descriptor_json
  | CatalogCreateUserType txn_id descriptor_json =>
      in_unsigned 64 txn_id /\ bytes_ok descriptor_json
  | CatalogDropUserType txn_id type_name =>
      in_unsigned 64 txn_id /\ str_ok type_name
  | CatalogAlterUserType txn_id descriptor_json =>
      in_unsigned 64 txn_id /\ bytes_ok descriptor_json
  | CatalogCreateCast txn_id descriptor_json =>
      in_unsigned 64 txn_id /\ bytes_ok descriptor_json
  | CatalogDropCast txn_id source_type target_type =>
      in_unsigned 64 txn_id /\ str_ok source_type /\ str_ok target_type
  | CatalogCreatePolicy txn_id descriptor_json =>
      in_unsigned 64 txn_id /\ bytes_ok descriptor_json
  | CatalogDropPolicy txn_id policy_name table_name =>
      in_unsigned 64 txn_id /\ str_ok policy_name /\ str_ok table_name
  | CatalogAlterPolicy txn_id descriptor_json =>
      in_unsigned 64 txn_id /\ bytes_ok descriptor_json
  | CatalogCreateRule txn_id descriptor_json =>
      in_unsigned 64 txn_id /\ bytes_ok descriptor_json
  | CatalogDropRule txn_id rule_name table_name =>
      in_unsigned 64 txn_id /\ str_ok rule_name /\ str_ok table_name
  | CatalogSetComment txn_id descriptor_json =>
      in_unsigned 64 txn_id /\ bytes_ok descriptor_json
  | CatalogDropComment txn_id object_type object_identity =>
      in_unsigned 64 txn_id /\ str_ok object_type /\ str_ok object_identity
  | RegisterEdgeTable table_id source_col target_col =>
      in_unsigned 64 table_id /\ ordinal_ok source_col /\ ordinal_ok target_col
  | AdjacencyInsert table_id source_id target_id edge_tuple_id =>
      in_unsigned 64 table_id /\ value_ok J value_fuel source_id /\ value_ok J value_fuel target_id /\
      in_unsigned 64 edge_tuple_id
  | AdjacencyRemove table_id source_id target_id edge_tuple_id =>
      in_unsigned 64 table_id /\ value_ok J value_fuel source_id /\ value_ok J value_fuel target_id /\
      in_unsigned 64 edge_tuple_id
  end.

End Records.

(** ** Round trips *)

Lemma serial_pair e : pair_ok e -> serial (write_pair e) read_pair e.
Proof. destruct e. intros [? ?]. unfold write_pair, read_pair. cbn [fst snd] in *. serial_auto. Qed.

Lemma serial_stat e : stat_ok e -> serial (write_stat e) read_stat e.
Proof. destruct e as [[[? ?] ?] ?]. intros (? & ? & ? & ?). unfold write_stat, read_stat. serial_auto. Qed.

Lemma image_bytes bs : image_ok bs -> bytes_ok bs /\ (MAX_FULL_PAGE_IMAGE_BYTES <? len bs) = false.
Proof.
  intros [Hb Hl]. split; [split; [done|]|by apply Z.ltb_ge].
  unfold MAX_FULL_PAGE_IMAGE_BYTES, MAX_READ_ALLOC in *. lia.
Qed.

Lemma serial_page_image e : page_image_ok e -> serial (write_page_image e) read_page_image e.
Proof.
  destruct e as [n bs]. intros [Hn Hi]. destruct (image_bytes bs Hi) as [Hb Hl].
  unfold write_page_image, read_page_image. cbn [fst snd] in *. rewrite Hl. serial_auto. by rewrite Hl.
Qed.

Lemma serial_segment e : segment_ok e -> serial (write_segment e) read_segment e.
Proof. destruct e. intros [? ?]. unfold write_segment, read_segment. cbn [fst snd] in *. serial_auto. Qed.

Lemma serial_patch e : patch_ok e -> serial (write_patch e) read_patch e.
Proof.
  destruct e. intros [? Hl]. unfold write_patch, read_patch. cbn [fst snd] in *. serial_auto.
  eapply serial_list_ok; [exact serial_segment|done].
Qed.

Lemma serial_update e : update_ok e -> serial (write_update e) read_update e.
Proof. destruct e as [[? ?] ?]. intros (? & ? & ?). unfold write_update, read_update. serial_auto. Qed.

Lemma serial_step_entry e : step_ok e -> serial (write_step e) read_step e.
Proof.
  destruct e as [[[[[? ?] ?] ?] ?] ?]. intros (? & ? & ? & ? & ? & ?). unfold write_step, read_step. serial_auto.
Qed.

Lemma serial_pairs l : list_ok pair_ok l -> serial (write_list write_pair l) (read_list read_pair) l.
Proof. apply serial_list_ok, serial_pair. Qed.
Lemma serial_stats l : list_ok stat_ok l -> serial (write_list write_stat l) (read_list read_stat) l.
Proof. apply serial_list_ok, serial_stat. Qed.
Lemma serial_page_images l :
  list_ok page_image_ok l -> serial (write_list write_page_image l) (read_list read_page_image) l.
Proof. apply serial_list_ok, serial_page_image. Qed.
Lemma serial_segments l : list_ok segment_ok l -> serial (write_list write_segment l) (read_list read_segment) l.
Proof. apply serial_list_ok, serial_segment. Qed.
Lemma serial_patches l : list_ok patch_ok l -> serial (write_list write_patch l) (read_list read_patch) l.
Proof. apply serial_list_ok, serial_patch. Qed.
Lemma serial_updates l : list_ok update_ok l -> serial (write_list write_update l) (read_list read_update) l.
Proof. apply serial_list_ok, serial_update. Qed.
Lemma serial_steps l : list_ok step_ok l -> serial (write_list write_step l) (read_list read_step) l.
Proof. apply serial_list_ok, serial_step_entry. Qed.

Lemma serial_ordinal n :
  ordinal_ok n -> serial (write_u64 (Z.min u64_max n)) (read_bounded_u64_usize MAX_COLUMN_ORDINAL) n.
Proof.
  unfold ordinal_ok, MAX_COLUMN_ORDINAL. intros Hn. rewrite Z.min_r by (unfold u64_max; lia).
  eapply serial_last; [apply serial_u64; unfold in_unsigned; lia|]. cbv beta.
  destruct (Z.ltb_spec 1000000 n); [lia|done].
Qed.

#[export] Hint Resolve serial_pairs serial_stats serial_page_images serial_segments serial_patches
  serial_updates serial_steps serial_ordinal : serial.

Section RecordTrips.
Context `{ExternalLaws}.

Lemma serial_value_top v : value_ok json_stable value_fuel v -> serial (write_value v) read_value v.
Proof. intros Hv. by apply serial_value. Qed.

Lemma serial_row row : row_ok json_stable row -> serial (write_row row) read_row row.
Proof. apply serial_list_ok, serial_value_top. Qed.

#[local] Hint Resolve serial_value_top serial_row : serial.

Lemma tag_range r : 0 <= tag r <= 85.
Proof. by destruct r; cbn. Qed.

(** The reader takes the branch of the record's tag. *)
Lemma serial_fields r : record_ok json_stable r -> serial (write_fields r) (read_fields (tag r)) r.
Proof.
  intros Hok. destruct r; cbn [record_ok] in Hok; destruct_and? Hok;
    cbn [tag write_fields write_page_fields write_btree_fields write_btree_merge_fields
         write_catalog_payload write_catalog_types];
    cbv [read_fields read_page_fields read_btree_fields read_btree_merge_fields read_catalog_payload
         read_catalog_types];
    try solve [serial_auto].
  rename select (image_ok _) into Hi. destruct (image_bytes page_data Hi) as [Hb Hl].
  rewrite Hl. serial_auto. by rewrite Hl.
Qed.

Lemma serial_record r : record_ok json_stable r -> serial (write_record_payload r) read_record_payload r.
Proof.
  intros Hok. unfold write_record_payload, read_record_payload. pose proof (tag_range r).
  eapply serial_seq; [apply serial_u8; unfold in_unsigned; lia|]. by apply serial_fields.
Qed.

(** ** What is read *)

Lemma yields_pair : yields read_pair pair_ok.
Proof. unfold read_pair. yields_auto. Qed.

Lemma yields_stat : yields read_stat stat_ok.
Proof. unfold read_stat. yields_auto. Qed.

Lemma yields_page_image : yields read_page_image page_image_ok.
Proof.
  unfold read_page_image. yields_auto. cbv beta in *. bool_prop. rename select (_ /\ _) into Hb.
  split; [done|]. split; [apply Hb|done].
Qed.

Lemma yields_segment : yields read_segment segment_ok.
Proof. unfold read_segment. yields_auto. Qed.

Lemma yields_update : yields read_update update_ok.
Proof. unfold read_update. yields_auto. Qed.

Lemma yields_step_entry : yields read_step step_ok.
Proof. unfold read_step. yields_auto. Qed.

#[local] Hint Resolve yields_pair yields_stat yields_page_image yields_segment yields_update
  yields_step_entry : yields.

Lemma yields_patch : yields read_patch patch_ok.
Proof. unfold read_patch. yields_auto. Qed.

Lemma yields_value_top : yields read_value (value_ok (fun _ => True) value_fuel).
Proof. apply yields_value. Qed.

Lemma yields_row : yields read_row (row_ok (fun _ => True)).
Proof. apply yields_list, yields_value_top. Qed.

#[local] Hint Resolve yields_patch yields_value_top yields_row : yields.

(** One tag after the other; [fallthrough] is the lemma for the next group. *)
Ltac yields_tags fallthrough :=
  let t := fresh "t" in let p := fresh "p" in
  intros t; destruct t as [|p|p]; try apply fallthrough;
  do 7 try (destruct p as [p|p|]; try apply fallthrough);
  cbv [read_fields read_page_fields read_btree_fields read_btree_merge_fields read_catalog_payload
       read_catalog_types];
  yields_auto; cbv beta in *; cbn [record_ok]; try tauto.

Lemma yields_catalog_types : forall t, yields (read_catalog_types t) (record_ok (fun _ => True)).
Proof. yields_tags @yields_err. Qed.

Lemma yields_catalog : forall t, yields (read_catalog_payload t) (record_ok (fun _ => True)).
Proof. yields_tags yields_catalog_types. Qed.

Lemma yields_btree_merge : forall t, yields (read_btree_merge_fields t) (record_ok (fun _ => True)).
Proof. yields_tags yields_catalog. Qed.

Lemma yields_btree : forall t, yields (read_btree_fields t) (record_ok (fun _ => True)).
Proof. yields_tags yields_btree_merge. Qed.

Lemma yields_pages : forall t, yields (read_page_fields t) (record_ok (fun _ => True)).
Proof.
  yields_tags yields_btree. rename select (Forall byte _ /\ _) into Hb. bool_prop.
  split_and!; [done..|]. split; [apply Hb|done].
Qed.

Lemma yields_fields : forall t, yields (read_fields t) (record_ok (fun _ => True)).
Proof.
  yields_tags yields_pages. unfold ordinal_ok, in_unsigned in *. split_and!; (lia || done).
Qed.

Lemma yields_record : yields read_record_payload (record_ok (fun _ => True)).
Proof. eapply yields_bind; [apply yields_u8|]. intros t _. apply yields_fields. Qed.

End RecordTrips.
