(* ===== verification/WalExample.v ===== *)
(** * An instance of the external types

    A calendar, a clock and the JSON literals for which [ExternalLaws] holds: dates and
    times are the values in the ranges of the [time] crate.  The witnesses of the theorems
    about the log are evaluated on it. *)

From S2P Require Import Prelude.
From S2P Require Import Bytes.
From S2P Require Import BinaryIo.
From S2P Require Import WalTypes.

(** The values of [A] that pass a check, and their constructor. *)
Definition checked {A} (f : A -> bool) : Type := { x : A | f x = true }.

Definition check {A} (f : A -> bool) (x : A) : option (checked f) :=
  match bool_dec (f x) true with left p => Some (exist _ x p) | right _ => None end.

Lemma check_proj {A} (f : A -> bool) (d : checked f) : check f (`d) = Some d.
Proof.
  destruct d as [x p]. unfold check. cbn. destruct (bool_dec (f x) true) as [q|q]; [|done].
  do 2 f_equal. apply Eqdep_dec.UIP_dec, bool_dec.
Qed.

Definition date_valid (d : Z * Month * Z) : bool :=
  let '(y, m, day) := d in (-9999 <=? y) && (y <=? 9999) && (1 <=? day) && (day <=? days_in_month y m).

Definition time_valid (t : Z * Z * Z * Z) : bool :=
  let '(h, m, s, n) := t in
  (0 <=? h) && (h <=? 23) && (0 <=? m) && (m <=? 59) && (0 <=? s) && (s <=? 59) &&
  (0 <=? n) && (n <=? 999999999).

Definition offset_valid (s : Z) : bool := (-93599 <=? s) && (s <=? 93599).

(** The JSON literals. *)
Inductive json_literal : Type := JNull | JTrue | JFalse.

#[export] Instance json_literal_eq_dec : EqDecision json_literal.
Proof. solve_decision. Defined.

Definition literal_text (j : json_literal) : list Z :=
  match j with
  | JNull => [110; 117; 108; 108]
  | JTrue => [116; 114; 117; 101]
  | JFalse => [102; 97; 108; 115; 101]
  end.

Definition literal_parse (s : list Z) : option json_literal :=
  find (fun j => bool_decide (literal_text j = s)) [JNull; JTrue; JFalse].

Definition example_types : ExternalTypes := {|
  Date := checked date_valid;
  date_year d := fst (fst (`d));
  date_month d := snd (fst (`d));
  date_day d := snd (`d);
  from_calendar_date y m d := check date_valid (y, m, d);
  Time := checked time_valid;
  time_hour t := fst (fst (fst (`t)));
  time_minute t := snd (fst (fst (`t)));
  time_second t := snd (fst (`t));
  time_nanosecond t := snd (`t);
  from_hms_nano h m s n := check time_valid (h, m, s, n);
  UtcOffset := checked offset_valid;
  whole_seconds o := `o;
  as_hms o := (Z.quot (`o) 3600, Z.quot (Z.rem (`o) 3600) 60, Z.rem (Z.rem (`o) 3600) 60);
  from_whole_seconds s := check offset_valid s;
  PrimitiveDateTime := checked date_valid * checked time_valid;
  pdt_new d t := (d, t);
  pdt_date := fst;
  pdt_time := snd;
  OffsetDateTime := checked date_valid * checked time_valid * checked offset_valid;
  assume_offset p o := (p, o);
  odt_date o := fst (fst o);
  odt_time o := snd (fst o);
  odt_offset := snd;
  JsonValue := json_literal;
  json_to_string := literal_text;
  json_from_str := literal_parse
|}.

Lemma example_laws : @ExternalLaws example_types.
Proof.
  constructor; cbn.
  - intros d. rewrite <- (check_proj _ d). by destruct d as [[[? ?] ?] ?].
  - intros [[[y m] d] p]. cbn in *. bool_prop. assert (days_in_month y m <= 31).
    { unfold days_in_month. destruct m; try lia. destruct (is_leap_year y); lia. }
    unfold in_signed, in_unsigned. lia.
  - intros t. rewrite <- (check_proj _ t). by destruct t as [[[[? ?] ?] ?] ?].
  - intros [[[[h m] s] n] p]. cbn in *. bool_prop. unfold in_unsigned. lia.
  - intros o. apply check_proj.
  - intros [s p]. cbn in *. unfold offset_valid in p. bool_prop. unfold in_signed. lia.
  - intros [s p] h m sec [= <- <- <-]. cbn. pose proof (Z.quot_rem' s 3600). pose proof (Z.quot_rem' (Z.rem s 3600) 60). lia.
  - by intros [].
  - by intros [[] ?].
  - intros []; split; try done; cbn; repeat (apply Forall_cons; split; [done|]); constructor.
Qed.

(** A lossless compressor for a repetitive end: the trailing run of a byte becomes the byte
    and a count. *)
Fixpoint run (b : Z) (l : list Z) : nat :=
  match l with [] => O | x :: l' => if x =? b then S (run b l') else O end.

Definition run_compress (p : list Z) : list Z :=
  match reverse p with
  | [] => []
  | b :: l =>
      let k := Z.min (Z.of_nat (run b (b :: l))) (2 ^ 32 - 1) in
      take (length p - Z.to_nat k) p ++ [b] ++ le_bytes 4 k
  end.

Definition run_decompress (z : list Z) : list Z :=
  match drop (length z - 5) z with
  | [] => []
  | b :: count => take (length z - 5) z ++ replicate (Z.to_nat (le_value count)) b
  end.

Lemma run_take b l k : (k <= run b l)%nat -> take k l = replicate k b /\ (k <= length l)%nat.
Proof.
  revert l. induction k as [|k IH]; intros [|x l] Hk; cbn in *; try lia; [split; [done|lia]..|].
  destruct (Z.eqb_spec x b) as [->|]; [|lia]. destruct (IH l) as [-> ?]; [lia|]. split; [done|lia].
Qed.

Lemma run_law p : run_decompress (run_compress p) = p.
Proof.
  unfold run_compress. destruct (reverse p) as [|b l] eqn:E.
  { apply (f_equal reverse) in E. by rewrite reverse_involutive in E. }
  set (k := Z.min _ _). destruct (run_take b (b :: l) (Z.to_nat k)) as [Ht Hl]; [lia|].
  rewrite <- E in Ht, Hl. rewrite length_reverse in Hl. apply (f_equal reverse) in Ht.
  rewrite reverse_replicate in Ht. unfold run_decompress.
  assert (Hn : length (take (length p - Z.to_nat k) p ++ [b] ++ le_bytes 4 k) = (length p - Z.to_nat k + 5)%nat).
  { rewrite !length_app, length_take, length_le_bytes. cbn. lia. }
  rewrite Hn. replace (_ + 5 - 5)%nat with (length p - Z.to_nat k)%nat by lia.
  assert (Hm : length (take (length p - Z.to_nat k) p) = (length p - Z.to_nat k)%nat) by (rewrite length_take; lia).
  rewrite drop_app_length', take_app_length' by done. cbn [app]. rewrite le_value_bytes by lia.
  rewrite <- Ht, take_reverse, reverse_involutive. apply take_drop.
Qed.

Lemma run_bytes p : Forall byte p -> Forall byte (run_compress p).
Proof.
  intros Hp. unfold run_compress. pose proof Hp as Hr%Forall_reverse. destruct (reverse p) as [|b l]; [done|].
  apply Forall_cons in Hr as [Hb _]. rewrite !Forall_app. split_and!; [by apply Forall_take|by constructor|].
  apply le_bytes_byte.
Qed.

Lemma run_out z : Forall byte z -> Forall byte (run_decompress z).
Proof.
  intros Hz. unfold run_decompress. pose proof (Forall_drop byte (length z - 5) z Hz) as Hd.
  destruct (drop _ z) as [|b count]; [done|]. apply Forall_cons in Hd as [Hb _].
  apply Forall_app. split; [by apply Forall_take|by apply Forall_replicate].
Qed.

(** The same after a shared dictionary. *)
Definition dict_compress (dict p : list Z) : list Z :=
  if decide (take (length dict) p = dict) then 1 :: run_compress (drop (length dict) p) else 0 :: run_compress p.

Definition dict_decompress (dict z : list Z) : list Z :=
  match z with
  | [] => []
  | m :: z' => if m =? 1 then dict ++ run_decompress z' else run_decompress z'
  end.

Lemma dict_law dict p : dict_decompress dict (dict_compress dict p) = p.
Proof.
  unfold dict_compress, dict_decompress. case_decide as E; cbn; rewrite run_law; [|done].
  rewrite <- E at 1. apply take_drop.
Qed.

Lemma dict_bytes dict p : Forall byte p -> Forall byte (dict_compress dict p).
Proof.
  intros Hp. unfold dict_compress. case_decide; apply Forall_cons; (split; [done|]); apply run_bytes; [|done].
  by apply Forall_drop.
Qed.

Lemma dict_out dict z : Forall byte dict -> Forall byte z -> Forall byte (dict_decompress dict z).
Proof.
  intros Hd Hz. unfold dict_decompress. destruct Hz as [|m z Hm Hz]; [done|].
  destruct (m =? 1); [apply Forall_app; split; [done|]|]; by apply run_out.
Qed.
