(* ===== verification/WalEntry.v ===== *)
(** * Log entries ([crates/aiondb-wal/src/codec.rs], [record.rs], [lsn.rs])

    An entry on disk is a length, the LSN, the record, possibly inside a compression
    envelope, and a checksum.  The LZ4 and zstd libraries are the class [Compression],
    with the round trip their documentation promises.  Slices that are out of range
    panic in Rust: functions that slice return [None] there, and the theorems show that
    decoding never does, whatever the bytes.

    The theorems: what is encoded is decoded, with anything behind it; a torn entry and
    a corrupted one are refused; and whatever decodes is well formed. *)

From S2P Require Import Prelude.
From S2P Require Import Bytes.
From S2P Require Import Checksum.
From S2P Require Import BinaryIo.
From S2P Require Import WalTypes.
From S2P Require Import WalValue.
From S2P Require Import WalCodec.
From S2P Require Import WalExample.

(** ** Log sequence numbers *)

Definition LSN_ZERO : Z := 0.
Definition advance (lsn bytes : Z) : Z := saturating_add u64_max lsn bytes.
Definition checked_advance (lsn bytes : Z) : option Z := checked_add u64_max lsn bytes.

(** ** Compression *)

Inductive WalCompression : Type := CNone | Lz4 | Zstd.

Class Compression : Type := {
  lz4_compress : list Z -> list Z;
  lz4_decompress : list Z -> Z -> option (list Z);
  zstd_compress : list Z -> option (list Z);
  zstd_decompress : list Z -> Z -> option (list Z)
}.

Class CompressionLaws `{Compression} : Prop := {
  lz4_law p : lz4_decompress (lz4_compress p) (len p) = Some p;
  lz4_bytes p : Forall byte p -> Forall byte (lz4_compress p);
  lz4_out z n p : Forall byte z -> lz4_decompress z n = Some p -> Forall byte p;
  zstd_law p z : zstd_compress p = Some z -> zstd_decompress z (len p) = Some p;
  zstd_bytes p z : Forall byte p -> zstd_compress p = Some z -> Forall byte z;
  zstd_out z n p : Forall byte z -> zstd_decompress z n = Some p -> Forall byte p
}.

Definition ENTRY_HEADER_SIZE : Z := 4.
Definition ENTRY_V2_MARKER : Z := 0xFF.
Definition ENTRY_FRAMED_FORMAT_VERSION_V1 : Z := 1.
Definition ENTRY_FRAMED_FORMAT_VERSION_V2 : Z := 2.
Definition ENTRY_FRAMED_FORMAT_VERSION_V3 : Z := 3.
Definition ENTRY_COMPRESSION_NONE : Z := 0.
Definition ENTRY_COMPRESSION_LZ4 : Z := 1.
Definition ENTRY_COMPRESSION_ZSTD : Z := 2.
Definition MAX_COMPRESSED_PAYLOAD_BYTES : Z := 64 * 1024 * 1024.
Definition MAX_WAL_DECOMPRESSION_RATIO : Z := 4096.

(** [data[a..b]]; [None] is the panic. *)
Definition sub (d : list Z) (a b : Z) : option (list Z) :=
  if (0 <=? a) && (a <=? b) && (b <=? len d)
  then Some (take (Z.to_nat (b - a)) (drop (Z.to_nat a) d)) else None.

(** A little-endian integer of [n] bytes at [off]. *)
Definition le_at (d : list Z) (off n : Z) : option Z := le_value <$> sub d off (off + n).

Section Entries.
Context `{ExternalTypes} `{Compression}.

(** ** Encoding *)

Definition run_put (p : Put) : DbResult (list Z) :=
  match p (mkWriter []) with Ok w => Ok (buf w) | Err e => Err e end.

Definition encode_row (row : Row) : DbResult (list Z) := run_put (write_row row).

Definition write_entry_with_checksum (lsn : Z) (payload : list Z) : DbResult (list Z) :=
  let total_len := 8 + len payload + 4 in
  if u32_max <? total_len then Err Internal
  else
    let checksum := compute_crc32c (le_bytes 8 lsn ++ payload) in
    run_put (write_u32 total_len ;; write_u64 lsn ;; write_raw payload ;; write_u32 checksum).

Definition encode_uncompressed_entry (e : WalEntry) : DbResult (list Z) :=
  match run_put (write_record_payload (record e)) with
  | Ok payload => write_entry_with_checksum (lsn e) payload
  | Err err => Err err
  end.

Definition compress_record_payload (payload : list Z) (c : WalCompression) :
    DbResult (option (list Z)) :=
  let keep z := if len payload <=? saturating_add usize_max (len z) 7 then Ok None else Ok (Some z) in
  match c with
  | CNone => Ok None
  | Lz4 => keep (lz4_compress payload)
  | Zstd => match zstd_compress payload with Some z => keep z | None => Err Internal end
  end.

Definition encode_framed_payload_v3 (original : list Z) (ctag : Z) (encoded : list Z)
    (prev database_id : Z) : DbResult (list Z) :=
  if u32_max <? len original then Err Internal
  else
    run_put (write_u8 ENTRY_V2_MARKER ;; write_u8 ENTRY_FRAMED_FORMAT_VERSION_V3 ;; write_u8 ctag ;;
             write_u64 prev ;; write_u32 database_id ;; write_u32 (len original) ;; write_raw encoded).

Definition compression_tag (c : WalCompression) : Z :=
  match c with
  | CNone => ENTRY_COMPRESSION_NONE
  | Lz4 => ENTRY_COMPRESSION_LZ4
  | Zstd => ENTRY_COMPRESSION_ZSTD
  end.

Record PreparedWalRecord : Type := mkPrepared {
  payload_bytes : list Z;
  compressed_payload : option (list Z);
  prepared_tag : Z
}.

Definition prepare_record_with_compression (r : WalRecord) (c : WalCompression) :
    DbResult PreparedWalRecord :=
  match run_put (write_record_payload r) with
  | Err e => Err e
  | Ok payload =>
      match compress_record_payload payload c with
      | Err e => Err e
      | Ok z => Ok (mkPrepared payload z (compression_tag c))
      end
  end.

Definition encode_prepared_entry (lsn prev database_id : Z) (p : PreparedWalRecord) : DbResult (list Z) :=
  let framed :=
    negb (prev =? LSN_ZERO) ||
    match compressed_payload p with Some _ => true | None => false end ||
    negb (database_id =? LEGACY_DATABASE_ID) in
  if negb framed then write_entry_with_checksum lsn (payload_bytes p)
  else
    let '(ctag, encoded) :=
      match compressed_payload p with
      | Some z => if len z <? len (payload_bytes p) then (prepared_tag p, z)
                  else (ENTRY_COMPRESSION_NONE, payload_bytes p)
      | None => (ENTRY_COMPRESSION_NONE, payload_bytes p)
      end in
    match encode_framed_payload_v3 (payload_bytes p) ctag encoded prev database_id with
    | Err e => Err e
    | Ok framed_payload => write_entry_with_checksum lsn framed_payload
    end.

Definition encode_entry_with_compression (e : WalEntry) (c : WalCompression) : DbResult (list Z) :=
  match prepare_record_with_compression (record e) c with
  | Err err => Err err
  | Ok p => encode_prepared_entry (lsn e) (prev_lsn e) (database_id e) p
  end.

Definition encode_entry (e : WalEntry) : DbResult (list Z) := encode_uncompressed_entry e.

(** ** Decoding *)

(** Run a reader on all of [d]; trailing bytes are an error. *)
Definition read_all {A} (g : Get A) (d : list Z) : option (DbResult A) :=
  res ← g (mkReader d 0);
  Some (match res with
        | Err e => Err e
        | Ok (a, r) => if negb (saturating_sub (len (data r)) (pos r) =? 0) then Err Internal else Ok a
        end).

Definition decode_row (d : list Z) : option (DbResult Row) := read_all read_row d.

Definition decode_unframed_record (lsn : Z) (payload : list Z) : option (DbResult WalEntry) :=
  res ← read_all read_record_payload payload;
  Some (match res with
        | Err e => Err e
        | Ok r => Ok (mkEntry lsn LSN_ZERO LEGACY_DATABASE_ID r)
        end).

(** Compression tag, previous LSN, database id, length before compression, rest. *)
Definition v2_header (payload : list Z) : option (DbResult (Z * Z * Z * Z * list Z)) :=
  version ← le_at payload 1 1;
  if version =? ENTRY_FRAMED_FORMAT_VERSION_V1 then
    ctag ← le_at payload 2 1; n ← le_at payload 3 4; rest ← sub payload 7 (len payload);
    Some (Ok (ctag, LSN_ZERO, LEGACY_DATABASE_ID, n, rest))
  else if version =? ENTRY_FRAMED_FORMAT_VERSION_V2 then
    if len payload <? 15 then Some (Err Internal)
    else
      ctag ← le_at payload 2 1; prev ← le_at payload 3 8; n ← le_at payload 11 4;
      rest ← sub payload 15 (len payload);
      Some (Ok (ctag, prev, LEGACY_DATABASE_ID, n, rest))
  else if version =? ENTRY_FRAMED_FORMAT_VERSION_V3 then
    if len payload <? 19 then Some (Err Internal)
    else
      ctag ← le_at payload 2 1; prev ← le_at payload 3 8; db ← le_at payload 11 4; n ← le_at payload 15 4;
      rest ← sub payload 19 (len payload);
      Some (Ok (ctag, prev, db, n, rest))
  else Some (Err Internal).

(** The forged-ratio check. *)
Definition ratio_exceeded (ctag n : Z) (encoded : list Z) : bool :=
  negb (len encoded =? 0) && (MAX_WAL_DECOMPRESSION_RATIO <? n / len encoded) &&
  negb (ctag =? ENTRY_COMPRESSION_NONE) && (len encoded <? 4096).

Definition decompress (ctag n : Z) (encoded : list Z) : option (list Z) :=
  if ctag =? ENTRY_COMPRESSION_NONE then
    if negb (len encoded =? n) then None else Some encoded
  else if ctag =? ENTRY_COMPRESSION_LZ4 then lz4_decompress encoded n
  else if ctag =? ENTRY_COMPRESSION_ZSTD then zstd_decompress encoded n
  else None.

Definition decode_v2_record (lsn : Z) (payload : list Z) : option (DbResult WalEntry) :=
  if len payload <? 7 then Some (Err Internal)
  else
    marker ← le_at payload 0 1;
    if negb (marker =? ENTRY_V2_MARKER) then Some (Err Internal)
    else
      h ← v2_header payload;
      match h with
      | Err e => Some (Err e)
      | Ok (ctag, prev, db, n, encoded) =>
          if MAX_COMPRESSED_PAYLOAD_BYTES <? n then Some (Err Internal)
          else if ratio_exceeded ctag n encoded then Some (Err Internal)
          else
            match decompress ctag n encoded with
            | None => Some (Err Internal)
            | Some decoded =>
                res ← decode_unframed_record lsn decoded;
                Some (match res with
                      | Err e => Err e
                      | Ok e => Ok (mkEntry (WalTypes.lsn e) prev db (record e))
                      end)
            end
      end.

(** The end of [decode_entry]: the LSN and the record, once the checksum matched. *)
Definition decode_region (region : list Z) : option (DbResult WalEntry) :=
  if len region <? 8 then Some (Err Internal)
  else
    lsn ← le_at region 0 8;
    payload ← sub region 8 (len region);
    match payload with
    | [] => Some (Err Internal)
    | b :: _ =>
        if b =? ENTRY_V2_MARKER then decode_v2_record lsn payload
        else decode_unframed_record lsn payload
    end.

Definition decode_entry (d : list Z) : option (DbResult (WalEntry * Z)) :=
  if len d <? ENTRY_HEADER_SIZE then Some (Err Internal)
  else
    header ← read_u32 (mkReader d 0);
    match header with
    | Err e => Some (Err e)
    | Ok (payload_len, _) =>
        let total_len := 4 + payload_len in
        if len d <? total_len then Some (Err Internal)
        else
          inner ← sub d 4 total_len;
          if len inner <? 12 then Some (Err Internal)
          else
            region ← sub inner 0 (len inner - 4);
            stored ← le_at inner (len inner - 4) 4;
            if negb (stored =? compute_crc32c region) && negb (stored =? compute_legacy_fnv1a region)
            then Some (Err Internal)
            else
              r ← decode_region region;
              Some (match r with Ok e => Ok (e, total_len) | Err e => Err e end)
    end.

End Entries.

(** ** Slices *)

(** Decides the comparisons that the hypotheses settle. *)
Ltac case_bool :=
  repeat match goal with
  | |- context [?a <? ?b] =>
      first [replace (a <? b) with false by (symmetry; apply Z.ltb_ge; lia)
            |replace (a <? b) with true by (symmetry; apply Z.ltb_lt; lia)]
  | |- context [?a <=? ?b] =>
      first [replace (a <=? b) with true by (symmetry; apply Z.leb_le; lia)
            |replace (a <=? b) with false by (symmetry; apply Z.leb_gt; lia)]
  end; cbn [andb orb negb].

Lemma sub_mid a b c : sub (a ++ b ++ c) (len a) (len a + len b) = Some b.
Proof.
  unfold sub. rewrite !len_app. pose proof (len_nonneg a). pose proof (len_nonneg b).
  pose proof (len_nonneg c). case_bool. f_equal. unfold len.
  replace (Z.to_nat _) with (length b) by lia. by rewrite Nat2Z.id, drop_app_length, take_app_length.
Qed.

Lemma sub_start b c j : j = len b -> sub (b ++ c) 0 j = Some b.
Proof. intros ->. apply (sub_mid [] b c). Qed.

Lemma sub_skip a d i j : len a <= i -> sub (a ++ d) i j = sub d (i - len a) (j - len a).
Proof.
  intros Hi. pose proof (len_nonneg a). unfold sub. rewrite len_app.
  replace (0 <=? i) with true by (symmetry; apply Z.leb_le; lia).
  replace (0 <=? i - len a) with true by (symmetry; apply Z.leb_le; lia).
  replace (i - len a <=? j - len a) with (i <=? j) by (apply Bool.eq_iff_eq_true; rewrite !Z.leb_le; lia).
  replace (j - len a <=? len d) with (j <=? len a + len d)
    by (apply Bool.eq_iff_eq_true; rewrite !Z.leb_le; lia).
  destruct (_ && _); [|done]. unfold len in *. replace (j - _ - _) with (j - i) by lia.
  rewrite drop_app_ge by lia. do 3 f_equal. lia.
Qed.

Lemma le_at_skip a d i n : len a <= i -> le_at (a ++ d) i n = le_at d (i - len a) n.
Proof. intros Hi. unfold le_at. rewrite sub_skip by done. do 2 f_equal. lia. Qed.

Lemma le_at_start n v c k :
  0 <= v < 256 ^ Z.of_nat n -> k = Z.of_nat n -> le_at (le_bytes n v ++ c) 0 k = Some v.
Proof.
  intros Hv ->. unfold le_at. rewrite sub_start by (unfold len; rewrite length_le_bytes; lia).
  cbn. by rewrite le_value_bytes.
Qed.

Lemma sub_at a b c i j : i = len a -> j = len a + len b -> sub (a ++ b ++ c) i j = Some b.
Proof. intros -> ->. apply sub_mid. Qed.

Lemma le_at_mid a n v c i k :
  0 <= v < 256 ^ Z.of_nat n -> i = len a -> k = Z.of_nat n -> le_at (a ++ le_bytes n v ++ c) i k = Some v.
Proof.
  intros Hv -> ->. unfold le_at. replace (Z.of_nat n) with (len (le_bytes n v)).
  - by rewrite sub_mid; cbn; rewrite le_value_bytes.
  - unfold len. by rewrite length_le_bytes.
Qed.

Lemma sub_some d a b :
  0 <= a <= b -> b <= len d -> Forall byte d ->
  exists s, sub d a b = Some s /\ len s = b - a /\ Forall byte s.
Proof.
  intros Ha Hb Hd. unfold sub. case_bool. eexists. split_and!; [done| |by apply Forall_take, Forall_drop].
  unfold len in *. rewrite length_take, length_drop. lia.
Qed.

Lemma le_at_some d a n :
  0 <= a -> 0 <= n -> a + n <= len d -> Forall byte d ->
  exists v, le_at d a n = Some v /\ 0 <= v < 256 ^ n.
Proof.
  intros Ha Hn Hl Hd. destruct (sub_some d a (a + n)) as (s & Hs & Hls & Hbs); [lia|lia|done|].
  unfold le_at. rewrite Hs. cbn. eexists. split; [done|]. pose proof (le_value_bound s Hbs) as Hv.
  replace n with (len s) by lia. exact Hv.
Qed.

Lemma len_le_bytes n v : len (le_bytes n v) = Z.of_nat n.
Proof. unfold len. by rewrite length_le_bytes. Qed.

Lemma le_at_byte b c : le_at ([b] ++ c) 0 1 = Some b.
Proof. unfold le_at. rewrite sub_start by done. cbn. f_equal. lia. Qed.

(** Read a field of a concatenation; drop the part before it. *)
Ltac at_start := first [rewrite le_at_byte by done|rewrite le_at_start by (done || lia)]; cbn [mbind option_bind].

Ltac skip a :=
  rewrite ?(le_at_skip a), ?(sub_skip a) by (rewrite ?len_le_bytes; change (len [?x]) with 1; lia);
  rewrite ?len_le_bytes; change (len [?x]) with 1; cbn [Z.sub Z.opp Z.add Z.pos_sub].

Lemma read_u32_start d :
  4 <= len d -> read_u32 (mkReader d 0) = Some (Ok (le_value (take 4 d), mkReader d 4)).
Proof.
  intros Hd. unfold read_u32, fmap, Get_fmap, read_array, mbind, Get_bind, ensure, take_bytes, checked_add.
  cbn [pos data]. replace (0 + 4 <=? usize_max) with true by done. case_bool. cbn [pos data]. case_bool. done.
Qed.

(** ** Framing *)

Lemma run_put_emits p bs : emits p bs -> run_put p = Ok bs.
Proof. intros Hp. unfold run_put. by rewrite Hp. Qed.

(** The layout of an entry. *)
Definition frame (region : list Z) (checksum : Z) : list Z :=
  le_bytes 4 (len region + 4) ++ region ++ le_bytes 4 checksum.

Lemma write_entry_frame lsn payload :
  len payload + 12 <= u32_max ->
  write_entry_with_checksum lsn payload =
  Ok (frame (le_bytes 8 lsn ++ payload) (compute_crc32c (le_bytes 8 lsn ++ payload))).
Proof.
  intros Hl. unfold write_entry_with_checksum. case_bool. apply run_put_emits. unfold frame.
  rewrite len_app, len_le_bytes, <- app_assoc. replace (8 + len payload + 4) with (Z.of_nat 8 + len payload + 4) by lia.
  repeat (apply emits_seq || apply emits_raw).
Qed.

Lemma write_entry_inv lsn payload bytes :
  write_entry_with_checksum lsn payload = Ok bytes ->
  len payload + 12 <= u32_max /\
  bytes = frame (le_bytes 8 lsn ++ payload) (compute_crc32c (le_bytes 8 lsn ++ payload)).
Proof.
  intros Hw. destruct (Z.le_gt_cases (len payload + 12) u32_max) as [Hl|Hl].
  - rewrite write_entry_frame in Hw by done. by injection Hw as <-.
  - unfold write_entry_with_checksum in Hw. revert Hw. case_bool. done.
Qed.

Lemma frame_len region c : len (frame region c) = len region + 8.
Proof. unfold frame. rewrite !len_app, !len_le_bytes. lia. Qed.

Section EntryTrips.
Context `{ExternalTypes} `{Compression}.

(** Decoding a frame whose length field is right. *)
Lemma decode_frame region c rest :
  8 <= len region <= u32_max - 4 -> in_unsigned 32 c ->
  decode_entry (frame region c ++ rest) =
    if negb (c =? compute_crc32c region) && negb (c =? compute_legacy_fnv1a region)
    then Some (Err Internal)
    else r ← decode_region region;
         Some (match r with Ok e => Ok (e, len region + 8) | Err e => Err e end).
Proof.
  intros Hl Hc. pose proof (len_nonneg rest). unfold u32_max in Hl.
  assert (Hf : frame region c ++ rest = le_bytes 4 (len region + 4) ++ (region ++ le_bytes 4 c) ++ rest).
  { unfold frame. by rewrite <- !app_assoc. }
  unfold decode_entry, ENTRY_HEADER_SIZE.
  rewrite read_u32_start by (rewrite len_app, frame_len; lia). rewrite !len_app, frame_len.
  rewrite Hf. rewrite take_app_length' by (by rewrite length_le_bytes). rewrite le_value_bytes by lia.
  cbn [mbind option_bind]. cbv zeta. case_bool. rewrite sub_at by (rewrite ?len_app, ?len_le_bytes; lia). cbn [mbind option_bind].
  rewrite len_app, len_le_bytes. case_bool.
  rewrite sub_start by lia. cbn [mbind option_bind].
  replace (region ++ le_bytes 4 c) with (region ++ le_bytes 4 c ++ []) by (by rewrite app_nil_r).
  rewrite le_at_mid by (done || lia). cbn [mbind option_bind].
  replace (4 + (len region + 4)) with (len region + 8) by lia. done.
Qed.

(** A strict prefix of a frame is refused. *)
Lemma decode_torn region c k :
  8 <= len region <= u32_max - 4 -> (k < length (frame region c))%nat ->
  decode_entry (take k (frame region c)) = Some (Err Internal).
Proof.
  intros Hl Hk. unfold u32_max in Hl. unfold decode_entry, ENTRY_HEADER_SIZE.
  pose proof (frame_len region c) as Hfl. unfold len in Hfl at 1.
  assert (Ht : len (take k (frame region c)) = Z.of_nat k) by (unfold len; rewrite length_take; lia).
  rewrite Ht. destruct (Nat.lt_ge_cases k 4); [by case_bool|].
  rewrite read_u32_start by lia. cbn [mbind option_bind]. rewrite take_take, Nat.min_l by lia. unfold frame at 1.
  rewrite take_app_length' by (by rewrite length_le_bytes). rewrite le_value_bytes by lia.
  cbv zeta. by case_bool.
Qed.

Lemma decode_region_cut lsn b p :
  in_unsigned 64 lsn ->
  decode_region (le_bytes 8 lsn ++ b :: p) =
    if b =? ENTRY_V2_MARKER then decode_v2_record lsn (b :: p)
    else decode_unframed_record lsn (b :: p).
Proof.
  intros Hl. unfold decode_region. rewrite len_app, len_le_bytes. pose proof (len_nonneg (b :: p)).
  case_bool. rewrite (le_at_mid [] 8 lsn (b :: p)) by (done || lia). cbn [mbind option_bind].
  replace (le_bytes 8 lsn ++ b :: p) with (le_bytes 8 lsn ++ (b :: p) ++ []) by (by rewrite app_nil_r).
  by rewrite sub_at by (rewrite ?len_le_bytes; lia).
Qed.

Lemma read_all_parses {A} (g : Get A) bs a :
  parses g bs a -> len bs <= usize_max -> read_all g bs = Some (Ok a).
Proof.
  intros Hg Hl. specialize (Hg [] []). cbn [app] in Hg. rewrite app_nil_r in Hg.
  unfold read_all. change (len []) with 0 in Hg. rewrite (Hg Hl). cbn [mbind option_bind data pos].
  unfold saturating_sub. by replace (Z.max 0 (len bs - (0 + len bs))) with 0 by lia.
Qed.

(** The v3 envelope. *)
Definition envelope (ctag prev db n : Z) (encoded : list Z) : list Z :=
  [ENTRY_V2_MARKER] ++ [ENTRY_FRAMED_FORMAT_VERSION_V3] ++ [ctag] ++
  le_bytes 8 prev ++ le_bytes 4 db ++ le_bytes 4 n ++ encoded.

Lemma encode_envelope original ctag encoded prev db :
  len original <= u32_max ->
  encode_framed_payload_v3 original ctag encoded prev db =
  Ok (envelope ctag prev db (len original) encoded).
Proof.
  intros Hl. unfold encode_framed_payload_v3. case_bool. apply run_put_emits. unfold envelope.
  repeat (apply emits_seq || apply emits_raw).
Qed.

Lemma v2_header_envelope ctag prev db n encoded :
  in_unsigned 8 ctag -> in_unsigned 64 prev -> in_unsigned 32 db -> in_unsigned 32 n ->
  v2_header (envelope ctag prev db n encoded) = Some (Ok (ctag, prev, db, n, encoded)).
Proof.
  intros Hc Hp Hd Hn. unfold v2_header, envelope. pose proof (len_nonneg encoded).
  rewrite !len_app, !len_le_bytes. skip [ENTRY_V2_MARKER]. at_start.
  change (_ =? ENTRY_FRAMED_FORMAT_VERSION_V1) with false.
  change (_ =? ENTRY_FRAMED_FORMAT_VERSION_V2) with false.
  change (_ =? ENTRY_FRAMED_FORMAT_VERSION_V3) with true. cbn [mbind option_bind].
  case_bool. skip [ENTRY_FRAMED_FORMAT_VERSION_V3]. at_start. skip [ctag]. at_start.
  skip (le_bytes 8 prev). at_start. skip (le_bytes 4 db). at_start. skip (le_bytes 4 n).
  replace encoded with (encoded ++ []) at 1 by apply app_nil_r. by rewrite sub_start by lia.
Qed.

Lemma decode_envelope lsn ctag prev db n encoded :
  in_unsigned 8 ctag -> in_unsigned 64 prev -> in_unsigned 32 db -> in_unsigned 32 n ->
  decode_v2_record lsn (envelope ctag prev db n encoded) =
    if MAX_COMPRESSED_PAYLOAD_BYTES <? n then Some (Err Internal)
    else if ratio_exceeded ctag n encoded then Some (Err Internal)
    else
      match decompress ctag n encoded with
      | None => Some (Err Internal)
      | Some decoded =>
          res ← decode_unframed_record lsn decoded;
          Some (match res with
                | Err e => Err e
                | Ok e => Ok (mkEntry (WalTypes.lsn e) prev db (record e))
                end)
      end.
Proof.
  intros Hc Hp Hd Hn. unfold decode_v2_record. rewrite v2_header_envelope by done.
  unfold envelope at 1 2. pose proof (len_nonneg encoded). rewrite !len_app, !len_le_bytes.
  change (len [?x]) with 1. case_bool. by at_start.
Qed.

Lemma envelope_len ctag prev db n encoded : len (envelope ctag prev db n encoded) = 19 + len encoded.
Proof. unfold envelope. rewrite !len_app, !len_le_bytes. change (len [?x]) with 1. lia. Qed.

End EntryTrips.

(** ** What the theorems are about *)

Section EntryTheorems.
Context `{ExternalLaws} `{CompressionLaws}.

Definition entry_ok (J : JsonValue -> Prop) (e : WalEntry) : Prop :=
  in_unsigned 64 (lsn e) /\ in_unsigned 64 (prev_lsn e) /\ in_unsigned 32 (database_id e) /\
  record_ok J (record e).

(** The limits of the decoder on the record of an entry: 64 MiB, and a compression ratio. *)
Definition replayable (r : WalRecord) (c : WalCompression) : bool :=
  match run_put (write_record_payload r) with
  | Err _ => false
  | Ok p =>
      (len p <=? MAX_COMPRESSED_PAYLOAD_BYTES) &&
      match compress_record_payload p c with
      | Err _ => false
      | Ok None => true
      | Ok (Some z) => negb (ratio_exceeded (compression_tag c) (len p) z)
      end
  end.

Lemma record_payload r :
  record_ok json_stable r ->
  exists fs, run_put (write_record_payload r) = Ok (tag r :: fs) /\ Forall byte (tag r :: fs) /\
    parses read_record_payload (tag r :: fs) r.
Proof.
  intros Hr. destruct (serial_record r Hr) as (bs & He & Hb & Hp).
  destruct (serial_fields r Hr) as (fs & Hf & _ & _).
  assert (Ht : emits (write_record_payload r) ([tag r] ++ fs)) by (apply emits_seq; [apply emits_raw|done]).
  pose proof (Ht (mkWriter [])) as E. rewrite He in E. injection E as E. cbn in E. subst bs.
  exists fs. split_and!; [by apply run_put_emits|done..].
Qed.

Lemma compress_spec p c z :
  len p <= usize_max -> compress_record_payload p c = Ok (Some z) ->
  len z < len p /\ decompress (compression_tag c) (len p) z = Some p /\ (Forall byte p -> Forall byte z).
Proof.
  intros Hl Hz. unfold compress_record_payload, saturating_add in Hz. unfold decompress.
  pose proof (len_nonneg z). destruct c; cbn [compression_tag]; [done|..]; case_all;
    (split_and!; [lia| |]); cbn [Z.eqb ENTRY_COMPRESSION_NONE ENTRY_COMPRESSION_LZ4 ENTRY_COMPRESSION_ZSTD Pos.eqb];
    eauto using lz4_law, lz4_bytes, zstd_law, zstd_bytes.
Qed.

(** What an encoded entry looks like. *)
Lemma encode_inv e c bytes :
  encode_entry_with_compression e c = Ok bytes ->
  exists q, len q + 12 <= u32_max /\
    bytes = frame (le_bytes 8 (lsn e) ++ q) (compute_crc32c (le_bytes 8 (lsn e) ++ q)).
Proof.
  intros He. unfold encode_entry_with_compression, encode_prepared_entry in He.
  assert (Hw : exists q, write_entry_with_checksum (lsn e) q = Ok bytes) by (case_all; eauto).
  destruct Hw as [q Hq]. exists q. by apply write_entry_inv.
Qed.

Lemma len_cons_pos {A} (x : A) l : 0 < len (x :: l).
Proof. unfold len. cbn. lia. Qed.

(** A frame with a matching checksum decodes as its record does. *)
Lemma decode_checked lsn b p rest :
  in_unsigned 64 lsn -> byte b -> Forall byte p -> len (b :: p) + 12 <= u32_max ->
  decode_entry (frame (le_bytes 8 lsn ++ b :: p) (compute_crc32c (le_bytes 8 lsn ++ b :: p)) ++ rest) =
    r ← (if b =? ENTRY_V2_MARKER then decode_v2_record lsn (b :: p)
         else decode_unframed_record lsn (b :: p));
    Some (match r with Ok e => Ok (e, len (b :: p) + 16) | Err e => Err e end).
Proof.
  intros Hl Hb Hp Hn. pose proof (len_cons_pos b p). rewrite decode_frame.
  - rewrite Z.eqb_refl. cbn [negb andb]. rewrite decode_region_cut, len_app, len_le_bytes by done.
    replace (Z.of_nat 8 + len (b :: p) + 8) with (len (b :: p) + 16) by lia. done.
  - rewrite len_app, len_le_bytes. lia.
  - apply crc_range, Forall_app. split; [apply le_bytes_byte|by constructor].
Qed.

Lemma decode_payload lsn p r :
  parses read_record_payload p r -> len p <= u32_max ->
  decode_unframed_record lsn p = Some (Ok (mkEntry lsn LSN_ZERO LEGACY_DATABASE_ID r)).
Proof.
  intros Hp Hl. unfold decode_unframed_record. rewrite (read_all_parses _ p r); [done..|].
  unfold usize_max, u64_max, u32_max in *. lia.
Qed.

(** An envelope in a frame decodes to the checks of [decode_v2_record]. *)
Lemma decode_framed lsn ctag prev db n encoded rest :
  in_unsigned 64 lsn -> in_unsigned 8 ctag -> in_unsigned 64 prev -> in_unsigned 32 db ->
  in_unsigned 32 n -> Forall byte encoded -> len encoded + 31 <= u32_max ->
  let q := envelope ctag prev db n encoded in
  decode_entry (frame (le_bytes 8 lsn ++ q) (compute_crc32c (le_bytes 8 lsn ++ q)) ++ rest) =
    r ← decode_v2_record lsn q;
    Some (match r with Ok e => Ok (e, len q + 16) | Err e => Err e end).
Proof.
  intros Hl Hc Hp Hd Hn Hb Hs q. pose proof (envelope_len ctag prev db n encoded) as Hq.
  unfold q, envelope in *. cbn [app] in *. apply decode_checked; [done|done| |lia].
  repeat (apply Forall_cons; split; [done|]). by rewrite !Forall_app; auto using le_bytes_byte.
Qed.

Lemma framed_roundtrip e ctag encoded p rest :
  entry_ok json_stable e -> parses read_record_payload p (record e) ->
  len p <= MAX_COMPRESSED_PAYLOAD_BYTES -> len encoded <= len p -> Forall byte encoded ->
  in_unsigned 8 ctag -> ratio_exceeded ctag (len p) encoded = false ->
  decompress ctag (len p) encoded = Some p ->
  exists bytes,
    match encode_framed_payload_v3 p ctag encoded (prev_lsn e) (database_id e) with
    | Err err => Err err
    | Ok framed_payload => write_entry_with_checksum (lsn e) framed_payload
    end = Ok bytes /\ decode_entry (bytes ++ rest) = Some (Ok (e, len bytes)).
Proof.
  intros (Hl & Hp & Hd & _) Hr Hn Hs Hb Hc Hx Hz. unfold MAX_COMPRESSED_PAYLOAD_BYTES in Hn.
  pose proof (len_nonneg p). rewrite encode_envelope by (unfold u32_max; lia).
  pose proof (envelope_len ctag (prev_lsn e) (database_id e) (len p) encoded) as Hq.
  rewrite write_entry_frame by (unfold u32_max; lia). eexists. split; [done|].
  rewrite decode_framed by (done || unfold in_unsigned, u32_max; lia).
  rewrite decode_envelope by (done || unfold in_unsigned; lia). rewrite Hx, Hz.
  rewrite (decode_payload _ _ (record e)) by (done || unfold u32_max; lia).
  unfold MAX_COMPRESSED_PAYLOAD_BYTES. case_bool. cbn [mbind option_bind WalTypes.lsn record].
  rewrite frame_len, len_app, len_le_bytes. destruct e as [l0 p0 d0 r0]. cbn [WalTypes.lsn prev_lsn database_id record] in *. do 3 f_equal. lia.
Qed.

Lemma plain_ratio n p : ratio_exceeded ENTRY_COMPRESSION_NONE n p = false.
Proof. unfold ratio_exceeded. rewrite Z.eqb_refl. cbn. by rewrite andb_false_r. Qed.

Lemma plain_decompress p : decompress ENTRY_COMPRESSION_NONE (len p) p = Some p.
Proof. unfold decompress. by rewrite !Z.eqb_refl. Qed.

(** What is encoded decodes, in each of the three forms of an entry. *)
Lemma entry_decodes e c rest :
  entry_ok json_stable e -> replayable (record e) c = true ->
  exists bytes,
    encode_entry_with_compression e c = Ok bytes /\
    decode_entry (bytes ++ rest) = Some (Ok (e, len bytes)).
Proof.
  intros He Hr. pose proof He as (Hl & Hp & Hd & Hrec).
  destruct (record_payload (record e) Hrec) as (fs & Hrun & Hb & Hpar).
  unfold replayable in Hr. rewrite Hrun in Hr. pose proof (tag_range (record e)) as Ht.
  unfold encode_entry_with_compression, prepare_record_with_compression, encode_prepared_entry.
  rewrite Hrun. remember (tag (record e) :: fs) as p eqn:Ep. bool_prop.
  rename select (len p <= _) into Hn. unfold MAX_COMPRESSED_PAYLOAD_BYTES in Hn.
  destruct (compress_record_payload p c) as [[z|]|] eqn:Hc; [| |done]; cbn [payload_bytes compressed_payload prepared_tag].
  - bool_prop. apply compress_spec in Hc as (Hs & Hz & Hzb); [|unfold usize_max, u64_max; lia].
    rewrite orb_true_r. cbn [orb negb]. case_bool. apply framed_roundtrip; auto with lia. by destruct c.
  - rewrite orb_false_r. destruct (negb (prev_lsn e =? LSN_ZERO) || negb (database_id e =? LEGACY_DATABASE_ID)) eqn:Hf; cbn [negb].
    + apply framed_roundtrip; auto using plain_ratio, plain_decompress with lia. done.
    + bool_prop. rewrite write_entry_frame by (unfold u32_max; lia). eexists. split; [done|].
      rewrite frame_len, len_app, len_le_bytes. subst p. inversion Hb; subst.
      rewrite decode_checked by (done || unfold u32_max; lia).
      replace (tag (record e) =? ENTRY_V2_MARKER) with false by (symmetry; apply Z.eqb_neq; unfold ENTRY_V2_MARKER; lia).
      rewrite (decode_payload _ _ (record e)) by (done || unfold u32_max; lia). cbn [mbind option_bind].
      destruct e as [l0 p0 d0 r0]. cbn [WalTypes.lsn prev_lsn database_id record] in *. subst. do 3 f_equal. lia.
Qed.

(** [C6] An entry that the log writes is the entry that replay reads.  For every record
    within the limits of the decoder, every compression mode, LSN, previous LSN and
    database, [encode_entry_with_compression] succeeds and [decode_entry] returns the
    entry and the length of its bytes, whatever follows them in the segment. *)
Theorem entry_roundtrip e c rest :
  entry_ok json_stable e -> replayable (record e) c = true ->
  exists bytes,
    encode_entry_with_compression e c = Ok bytes /\
    decode_entry (bytes ++ rest) = Some (Ok (e, len bytes)).
Proof. apply entry_decodes. Qed.

(** [C36] A torn write is detected: a strict prefix of the bytes of an entry, however the
    entry was encoded, is an error and never a different entry. *)
Theorem torn_entry_refused e c bytes k :
  encode_entry_with_compression e c = Ok bytes -> (k < length bytes)%nat ->
  decode_entry (take k bytes) = Some (Err Internal).
Proof.
  intros (q & Hq & ->)%encode_inv Hk. apply decode_torn; [|done]. rewrite len_app, len_le_bytes.
  pose proof (len_nonneg q). lia.
Qed.

Lemma compress_bytes p c z :
  Forall byte p -> compress_record_payload p c = Ok (Some z) -> Forall byte z.
Proof. unfold compress_record_payload. intros Hp Hz. case_all; eauto using lz4_bytes, zstd_bytes. Qed.

Lemma write_entry_bytes lsn payload bytes :
  Forall byte payload -> write_entry_with_checksum lsn payload = Ok bytes -> Forall byte bytes.
Proof.
  intros Hp (_ & ->)%write_entry_inv. unfold frame. rewrite !Forall_app. auto using le_bytes_byte.
Qed.

Lemma envelope_bytes ctag prev db n encoded :
  in_unsigned 8 ctag -> Forall byte encoded -> Forall byte (envelope ctag prev db n encoded).
Proof.
  intros Hc He. unfold envelope. cbn [app].
  repeat (apply Forall_cons; split; [done|]). by rewrite !Forall_app; auto using le_bytes_byte.
Qed.

Lemma framed_bytes p ctag encoded prev db q :
  in_unsigned 8 ctag -> Forall byte encoded ->
  encode_framed_payload_v3 p ctag encoded prev db = Ok q -> Forall byte q.
Proof.
  intros Hc Hb Hq. destruct (Z.le_gt_cases (len p) u32_max).
  - rewrite encode_envelope in Hq by done. injection Hq as <-. by apply envelope_bytes.
  - unfold encode_framed_payload_v3 in Hq. revert Hq. by case_bool.
Qed.

Lemma tag_byte c : in_unsigned 8 (compression_tag c).
Proof. by destruct c. Qed.

Lemma encode_bytes e c bytes :
  entry_ok json_stable e -> encode_entry_with_compression e c = Ok bytes -> Forall byte bytes.
Proof.
  intros (_ & _ & _ & Hr) He. destruct (record_payload _ Hr) as (fs & Hrun & Hb & _).
  unfold encode_entry_with_compression, prepare_record_with_compression, encode_prepared_entry in He.
  rewrite Hrun in He. destruct (compress_record_payload _ c) as [z|] eqn:Hz; [|done].
  assert (Hzb : forall y, z = Some y -> Forall byte y) by (intros y ->; by eapply compress_bytes).
  cbn [payload_bytes compressed_payload prepared_tag] in He.
  case_all; (eapply write_entry_bytes; [|eassumption]); try done;
    (eapply framed_bytes; [| |eassumption]); auto using tag_byte; done.
Qed.

(** The legacy checksum of the entry that fills [d]. *)
Definition legacy_match (d : list Z) : bool :=
  le_value (drop (length d - 4) d) =? compute_legacy_fnv1a (take (length d - 8) (drop 4 d)).

(** A string with the right length field is a frame. *)
Lemma frame_split (region inner : list Z) :
  length inner = (length region + 4)%nat -> Forall byte inner ->
  exists r s, inner = r ++ s /\ length s = 4%nat /\ length r = length region /\
    le_bytes 4 (len region + 4) ++ inner = frame r (le_value s) /\
    legacy_match (le_bytes 4 (len region + 4) ++ inner) = (le_value s =? compute_legacy_fnv1a r).
Proof.
  intros Hl Hb. set (r := take (length region) inner). set (s := drop (length region) inner).
  assert (E : inner = r ++ s) by (symmetry; apply take_drop).
  assert (Hs : length s = 4%nat) by (unfold s; rewrite length_drop; lia).
  assert (Hr : length r = length region) by (unfold r; rewrite length_take; lia).
  exists r, s. split_and!; [done..| |].
  - unfold frame, len. rewrite Hr, E. do 2 f_equal. rewrite <- Hs at 1. symmetry. apply le_bytes_value.
    by apply Forall_drop.
  - unfold legacy_match. rewrite length_app, length_le_bytes, Hl.
    rewrite (drop_app_length' _ inner 4) by (by rewrite length_le_bytes).
    replace (4 + (length region + 4) - 8)%nat with (length region) by lia. f_equal. f_equal.
    rewrite drop_app_ge by (rewrite length_le_bytes; lia). rewrite length_le_bytes. unfold s. f_equal. lia.
Qed.

(** [C7] Corruption is detected: in the bytes of an encoded entry, any change confined to
    four consecutive bytes after the length field, the checksum included, is refused.
    The only way out is the fallback to the older checksum: the changed entry has to
    carry its own FNV-1a hash. *)
Theorem corruption_refused e c pre w v post :
  entry_ok json_stable e -> encode_entry_with_compression e c = Ok (pre ++ w ++ post) ->
  (4 <= length pre)%nat -> length w = length v -> (length w <= 4)%nat -> w <> v -> Forall byte v ->
  legacy_match (pre ++ v ++ post) = false ->
  decode_entry (pre ++ v ++ post) = Some (Err Internal).
Proof.
  intros He Hen H4 Hwv Hw Hne Hv Hleg. pose proof (encode_bytes _ _ _ He Hen) as Hb.
  apply encode_inv in Hen as (q & Hq & E). set (R := le_bytes 8 (lsn e) ++ q) in *.
  pose proof (len_le_bytes 8 (lsn e)) as H8. pose proof (len_nonneg q) as Hqn.
  assert (HR : 8 <= len R <= u32_max - 4) by (unfold R; rewrite len_app; lia).
  unfold frame in E. set (n := le_bytes 4 (len R + 4)) in *.
  assert (Hn : length n = 4%nat) by apply length_le_bytes.
  assert (Epre : pre = n ++ drop 4 pre).
  { rewrite <- (take_drop 4 pre) at 1. f_equal. apply (f_equal (take 4)) in E.
    by rewrite take_app_le, (take_app_length' n) in E by lia. }
  rewrite Epre, <- app_assoc in E. apply app_inv_head in E. rewrite Epre, <- app_assoc in Hb, Hleg |- *.
  apply Forall_app in Hb as [Hnb Hb].
  set (inner := drop 4 pre ++ v ++ post) in *.
  assert (Hin : Forall byte inner).
  { unfold inner. rewrite !Forall_app in Hb |- *. tauto. }
  assert (Hil : length inner = (length R + 4)%nat).
  { apply (f_equal length) in E. unfold inner. rewrite !length_app, length_le_bytes in *. lia. }
  destruct (frame_split R inner Hil Hin) as (r & s & Ers & Hs & Hr & Hf & Hleg'). fold n in Hf, Hleg'.
  rewrite Hleg' in Hleg. rewrite Hf, <- (app_nil_r (frame r _)). rewrite Ers in Hin. apply Forall_app in Hin as [_ Hsb].
  pose proof (le_value_bound s Hsb) as Hsv. rewrite Hs in Hsv.
  rewrite decode_frame by (done || unfold len in *; lia). rewrite Hleg.
  replace (le_value s =? compute_crc32c r) with false; [done|]. symmetry. apply Z.eqb_neq. intros Hcrc. apply Hne.
  apply (crc_burst_framed (drop 4 pre) w v post R (le_bytes 4 (compute_crc32c R)) r s); try done.
  apply le_value_bytes, crc_range. rewrite E in Hb. by apply Forall_app in Hb as [? _].
Qed.

(** ** Arbitrary bytes *)

(** A result, not a panic; what it holds satisfies [P]. *)
Definition safely {A} (P : A -> Prop) (o : option (DbResult A)) : Prop :=
  match o with None => False | Some (Err _) => True | Some (Ok a) => P a end.

Lemma safely_sub {A} (P : A -> Prop) d a b (k : list Z -> option (DbResult A)) :
  0 <= a <= b -> b <= len d -> Forall byte d ->
  (forall s, len s = b - a -> Forall byte s -> safely P (k s)) -> safely P (sub d a b ≫= k).
Proof.
  intros Ha Hb Hd Hk. destruct (sub_some d a b) as (s & -> & Hs & Hsb); [done..|]. by apply Hk.
Qed.

Lemma safely_le_at {A} (P : A -> Prop) d a n (k : Z -> option (DbResult A)) :
  0 <= a -> 0 <= n -> a + n <= len d -> Forall byte d ->
  (forall v, 0 <= v < 256 ^ n -> safely P (k v)) -> safely P (le_at d a n ≫= k).
Proof.
  intros Ha Hn Hl Hd Hk. destruct (le_at_some d a n) as (v & -> & Hv); [done..|]. by apply Hk.
Qed.

Lemma safely_bind {A B} (P : A -> Prop) (Q : B -> Prop) o (k : DbResult A -> option (DbResult B)) :
  safely P o -> (forall a, P a -> safely Q (k (Ok a))) -> (forall e, safely Q (k (Err e))) -> safely Q (o ≫= k).
Proof. intros Ho Hk He. destruct o as [[a|e]|]; cbn; [by apply Hk|apply He|done]. Qed.

Lemma unframed_safe lsn d :
  in_unsigned 64 lsn -> Forall byte d -> safely (entry_ok (fun _ => True)) (decode_unframed_record lsn d).
Proof.
  intros Hl Hd. unfold decode_unframed_record, read_all.
  assert (Hok : reader_ok (mkReader d 0)) by (split; [done|]; cbn; pose proof (len_nonneg d); lia).
  pose proof (yields_record _ Hok) as Hr. destruct (read_record_payload (mkReader d 0)) as [[[r rd]|]|]; [|done..].
  cbn [mbind option_bind]. by destruct Hr, (negb _).
Qed.

Lemma decompress_bytes ctag n encoded p :
  Forall byte encoded -> decompress ctag n encoded = Some p -> Forall byte p.
Proof. unfold decompress. intros Hb Hp. case_all; eauto using lz4_out, zstd_out. Qed.

Definition header_ok (h : Z * Z * Z * Z * list Z) : Prop :=
  let '(_, prev, db, _, encoded) := h in
  in_unsigned 64 prev /\ in_unsigned 32 db /\ Forall byte encoded.

Lemma v2_header_safe payload : Forall byte payload -> 7 <= len payload -> safely header_ok (v2_header payload).
Proof.
  intros Hb Hl. unfold v2_header. apply safely_le_at; [lia|lia|lia|done|]. intros version _.
  repeat case_match; bool_prop; try done;
    repeat first [apply safely_le_at; [lia|lia|lia|done|]; intros ? ?
                 |apply safely_sub; [lia|lia|done|]; intros ? ? ?]; done.
Qed.

Lemma decode_v2_safe lsn payload :
  in_unsigned 64 lsn -> Forall byte payload -> safely (entry_ok (fun _ => True)) (decode_v2_record lsn payload).
Proof.
  intros Hl Hb. unfold decode_v2_record. destruct (Z.ltb_spec (len payload) 7); [done|].
  apply safely_le_at; [lia|lia|lia|done|]. intros m _. destruct (negb _); [done|].
  eapply safely_bind; [by apply v2_header_safe| |done].
  intros [[[[ctag prev] db] n] encoded] (Hp & Hd & Hen). destruct (_ <? n); [done|].
  destruct (ratio_exceeded _ _ _); [done|]. destruct (decompress _ _ _) as [p|] eqn:Hz; [|done].
  eapply safely_bind; [by eapply unframed_safe, decompress_bytes| |done].
  by intros e (? & _ & _ & ?).
Qed.

Lemma decode_region_safe region :
  Forall byte region ->
  safely (fun e => entry_ok (fun _ => True) e /\ 8 < len region) (decode_region region).
Proof.
  intros Hb. unfold decode_region. destruct (Z.ltb_spec (len region) 8); [done|].
  apply safely_le_at; [lia|lia|lia|done|]. intros lsn Hl.
  apply safely_sub; [lia|lia|done|]. intros [|b p] Hp Hpb; [done|]. pose proof (len_cons_pos b p).
  destruct (b =? ENTRY_V2_MARKER).
  - pose proof (decode_v2_safe lsn (b :: p) Hl Hpb) as Hs. destruct (decode_v2_record _ _) as [[]|]; [|done..].
    split; [done|lia].
  - pose proof (unframed_safe lsn (b :: p) Hl Hpb) as Hs. destruct (decode_unframed_record _ _) as [[]|]; [|done..].
    split; [done|lia].
Qed.

Lemma decode_safe d :
  Forall byte d ->
  safely (fun en => entry_ok (fun _ => True) (fst en) /\ 17 <= snd en <= len d) (decode_entry d).
Proof.
  intros Hd.
  unfold decode_entry, ENTRY_HEADER_SIZE. destruct (Z.ltb_spec (len d) 4); [done|].
  rewrite read_u32_start by lia. cbn [mbind option_bind]. cbv zeta. pose proof (Forall_take byte 4 d Hd) as Ht.
  pose proof (le_value_bound _ Ht) as Hv. destruct (Z.ltb_spec (len d) (4 + le_value (take 4 d))); [done|].
  apply safely_sub; [lia|lia|done|]. intros inner Hin Hib. destruct (Z.ltb_spec (len inner) 12); [done|].
  apply safely_sub; [lia|lia|done|]. intros region Hr Hrb.
  apply safely_le_at; [lia|lia|lia|done|]. intros stored _. destruct (_ && _); [done|].
  eapply safely_bind; [by apply decode_region_safe| |done].
  intros e [He Hl]. split; [done|]. cbn. lia.
Qed.

(** [C14] Decoding is safe on arbitrary bytes.  It never indexes out of bounds, and when it
    accepts, the entry is well formed: every field in its range, every string valid
    UTF-8, every count and nesting within the limits of the codec.  The entry lies within
    the input and takes at least 17 bytes of it, so a scan over entries makes progress. *)
Theorem decode_typed d :
  Forall byte d ->
  match decode_entry d with
  | None => False
  | Some (Err _) => True
  | Some (Ok (e, n)) => entry_ok (fun _ => True) e /\ 17 <= n <= len d
  end.
Proof. intros Hd. pose proof (decode_safe d Hd) as Hs. by destruct (decode_entry d) as [[[]|]|]. Qed.

Lemma framed_inv lsn p ctag encoded prev db bytes :
  match encode_framed_payload_v3 p ctag encoded prev db with
  | Err e => Err e
  | Ok q => write_entry_with_checksum lsn q
  end = Ok bytes ->
  len p <= u32_max /\ len encoded + 31 <= u32_max /\
  let q := envelope ctag prev db (len p) encoded in
  bytes = frame (le_bytes 8 lsn ++ q) (compute_crc32c (le_bytes 8 lsn ++ q)).
Proof.
  intros Hq. destruct (Z.le_gt_cases (len p) u32_max).
  - rewrite encode_envelope in Hq by done. apply write_entry_inv in Hq as [Hq ->].
    rewrite envelope_len in Hq. split_and!; [lia|lia|done].
  - unfold encode_framed_payload_v3 in Hq. revert Hq. by case_bool.
Qed.

(** The limits apply to what an envelope holds. *)
Lemma framed_refused lsn p ctag encoded prev db bytes :
  in_unsigned 64 lsn -> in_unsigned 8 ctag -> in_unsigned 64 prev -> in_unsigned 32 db -> Forall byte encoded ->
  match encode_framed_payload_v3 p ctag encoded prev db with
  | Err e => Err e
  | Ok q => write_entry_with_checksum lsn q
  end = Ok bytes ->
  (len p <=? MAX_COMPRESSED_PAYLOAD_BYTES) && negb (ratio_exceeded ctag (len p) encoded) = false ->
  decode_entry bytes = Some (Err Internal).
Proof.
  intros Hl Hc Hp Hd Hb Hq Hx. apply framed_inv in Hq as (Hn & He & ->). cbv zeta.
  pose proof (len_nonneg p). assert (Hu : in_unsigned 32 (len p)) by (unfold in_unsigned, u32_max in *; lia).
  rewrite <- (app_nil_r (frame _ _)), decode_framed, decode_envelope by done.
  destruct (Z.ltb_spec MAX_COMPRESSED_PAYLOAD_BYTES (len p)); [done|].
  rewrite (proj2 (Z.leb_le _ _)) in Hx by done. cbn [andb] in Hx. apply negb_false_iff in Hx. by rewrite Hx.
Qed.

(** The encoder does not enforce the limits of the decoder.  An entry that is chained to
    a predecessor, belongs to another database than the first, or was compressed, and
    whose record is not within the limits, is written without an error, and replay
    refuses it. *)
Theorem unreplayable_refused e c p z bytes :
  entry_ok json_stable e -> run_put (write_record_payload (record e)) = Ok p ->
  compress_record_payload p c = Ok z ->
  prev_lsn e <> LSN_ZERO \/ z <> None \/ database_id e <> LEGACY_DATABASE_ID ->
  replayable (record e) c = false -> encode_entry_with_compression e c = Ok bytes ->
  decode_entry bytes = Some (Err Internal).
Proof.
  intros He Hrun Hz Hf Hr Hen. pose proof He as (Hl & Hp & Hd & Hrec).
  destruct (record_payload _ Hrec) as (fs & Hrun' & Hb & _). rewrite Hrun in Hrun'. injection Hrun' as ->.
  unfold encode_entry_with_compression, prepare_record_with_compression, encode_prepared_entry in Hen.
  unfold replayable in Hr. rewrite Hrun, Hz in *. cbn [payload_bytes compressed_payload prepared_tag] in Hen.
  replace (negb _) with false in Hen.
  - destruct z as [y|].
    + pose proof (compress_bytes _ _ _ Hb Hz) as Hy.
      destruct (Z.ltb_spec (len y) (len (tag (record e) :: fs))) as [Hs|Hs].
      * exact (framed_refused _ _ _ _ _ _ _ Hl (tag_byte c) Hp Hd Hy Hen Hr).
      * exfalso. apply framed_inv in Hen as (Hn & _). apply compress_spec in Hz as [Hs' _]; [lia|].
        unfold usize_max, u64_max, u32_max in *. lia.
    + apply (framed_refused _ _ _ _ _ _ _ Hl (tag_byte CNone) Hp Hd Hb Hen).
      cbn [compression_tag]. by rewrite plain_ratio.
  - symmetry. apply negb_false_iff. destruct Hf as [Hf|[Hf|Hf]].
    + by rewrite (proj2 (Z.eqb_neq _ _) Hf).
    + destruct z; [by rewrite orb_true_r|done].
    + by rewrite (proj2 (Z.eqb_neq _ _) Hf), orb_true_r.
Qed.

End EntryTheorems.

(** ** Witnesses *)

Definition example_dictionary : list Z :=
  [3; 7; 0; 0; 0; 0; 0; 0; 0; 1; 0; 0; 0; 0; 0; 0; 0; 9; 0; 0; 0; 0; 0; 0; 0; 3; 0; 0; 0;
   1; 251; 255; 255; 255; 15; 2; 0; 0; 0; 7; 1; 0; 6; 4; 16; 0; 0] ++ replicate 4100 32.

Definition example_compression : Compression := {|
  lz4_compress p := p;
  lz4_decompress z _ := Some z;
  zstd_compress p := Some (dict_compress example_dictionary p);
  zstd_decompress z _ := Some (dict_decompress example_dictionary z)
|}.

Lemma dictionary_bytes : Forall byte example_dictionary.
Proof.
  unfold example_dictionary. apply Forall_app. split; [|by apply Forall_replicate].
  by repeat (apply Forall_cons; split; [done|]).
Qed.

Lemma example_compression_laws : @CompressionLaws example_compression.
Proof.
  constructor; cbn [lz4_compress lz4_decompress zstd_compress zstd_decompress example_compression].
  - done.
  - done.
  - by intros z n p Hz [= <-].
  - intros p z [= <-]. f_equal. apply dict_law.
  - intros p z Hp [= <-]. by apply dict_bytes.
  - intros z n p Hz [= <-]. by apply dict_out; [apply dictionary_bytes|].
Qed.

#[local] Existing Instances example_types example_laws example_compression example_compression_laws.

(** A row of an integer, an array and a text of [n] spaces, in a chained entry. *)
Definition sample_record (n : nat) : WalRecord :=
  InsertRow 7 1 9 [VInt (-5); VArray [VBoolean true; VNull]; VText (replicate n 32)].

Definition sample_entry (n : nat) : WalEntry := mkEntry 4096 2048 3 (sample_record n).

Lemma spaces_ok n : Z.of_nat n <= MAX_READ_ALLOC -> str_ok (replicate n 32).
Proof.
  intros Hn. split; [split|].
  - by apply Forall_replicate.
  - unfold len. by rewrite length_replicate.
  - apply utf8_ascii. by apply Forall_replicate.
Qed.

Lemma sample_ok n : Z.of_nat n <= MAX_READ_ALLOC -> entry_ok json_stable (sample_entry n).
Proof.
  intros Hn. split_and!; [done..|]. cbn [record sample_entry sample_record record_ok].
  split_and!; [done..|]. split; [done|]. change value_fuel with (S (S 127)).
  apply Forall_cons; split; [done|]. apply Forall_cons; split.
  - split; [done|]. by repeat (apply Forall_cons; split; [done|]).
  - apply Forall_cons; split; [by apply spaces_ok|done].
Qed.

Lemma entry_roundtrip_witness :
  exists bytes,
    encode_entry_with_compression (sample_entry 40) Zstd = Ok bytes /\
    decode_entry (bytes ++ [1; 2; 3]) = Some (Ok (sample_entry 40, len bytes)).
Proof. apply (entry_roundtrip (sample_entry 40) Zstd [1; 2; 3]); [by apply sample_ok|vm_compute; reflexivity]. Defined.

Definition result_bytes (r : DbResult (list Z)) : list Z := match r with Ok bs => bs | Err _ => [] end.

Definition sample_bytes : list Z :=
  Eval vm_compute in result_bytes (encode_entry_with_compression (sample_entry 40) Zstd).

Lemma torn_entry_refused_witness : decode_entry (take 70 sample_bytes) = Some (Err Internal).
Proof.
  apply (torn_entry_refused (sample_entry 40) Zstd sample_bytes 70); [vm_compute; reflexivity|].
  apply (bool_decide_unpack _). vm_compute. exact I.
Defined.

(** The commit of transaction 7. *)
Definition commit_entry : WalEntry := mkEntry 100 0 1 (CommitTxn 7 42).

Definition commit_head : list Z := [29; 0; 0; 0; 100; 0; 0; 0; 0; 0; 0; 0; 1].
Definition commit_tail : list Z := [0; 0; 0; 0; 42; 0; 0; 0; 0; 0; 0; 0; 240; 15; 152; 138].

Lemma corruption_refused_witness :
  decode_entry (commit_head ++ [8; 0; 0; 0] ++ commit_tail) = Some (Err Internal).
Proof.
  apply (corruption_refused commit_entry CNone commit_head [7; 0; 0; 0] [8; 0; 0; 0] commit_tail);
    [done|vm_compute; reflexivity|cbn; lia|done|cbn; lia|done| |vm_compute; reflexivity].
  by repeat (apply Forall_cons; split; [done|]).
Defined.

(** The fallback is a hole of the size the theorem says: here four corrupted bytes give an
    entry that is accepted, and replay commits another transaction than 7. *)
Lemma legacy_checksum_hole :
  encode_entry_with_compression commit_entry CNone = Ok (commit_head ++ [7; 0; 0; 0] ++ commit_tail) /\
  decode_entry (commit_head ++ [148; 146; 163; 117] ++ commit_tail) =
    Some (Ok (mkEntry 100 0 1 (CommitTxn 1973654164 42), 33)).
Proof.
  split; [vm_compute; reflexivity|].
  vm_cast_no_check (eq_refl (Some (Ok (E := DbError) (mkEntry 100 0 1 (CommitTxn 1973654164 42), 33)))).
Qed.

Lemma decode_typed_witness :
  match decode_entry sample_bytes with
  | None => False
  | Some (Err _) => True
  | Some (Ok (e, n)) => entry_ok (fun _ => True) e /\ 17 <= n <= len sample_bytes
  end.
Proof. apply (decode_typed sample_bytes). apply (bool_decide_unpack _). vm_compute. exact I. Defined.

(** A text of 4,100 spaces, which this compressor brings down to one byte. *)
Definition long_entry : WalEntry := sample_entry 4100.

Definition long_bytes : list Z := Eval vm_compute in result_bytes (encode_entry_with_compression long_entry Zstd).

Lemma unreplayable_refused_witness :
  encode_entry_with_compression long_entry Zstd = Ok long_bytes /\ decode_entry long_bytes = Some (Err Internal).
Proof.
  assert (He : encode_entry_with_compression long_entry Zstd = Ok long_bytes)
    by vm_cast_no_check (eq_refl (Ok (E := DbError) long_bytes)).
  split; [exact He|].
  apply (unreplayable_refused long_entry Zstd example_dictionary (Some [1]) long_bytes).
  - apply sample_ok. apply (bool_decide_unpack _). vm_cast_no_check I.
  - vm_cast_no_check (eq_refl (Ok (E := DbError) example_dictionary)).
  - vm_cast_no_check (eq_refl (Ok (E := DbError) (Some [1]))).
  - by left.
  - vm_cast_no_check (eq_refl false).
  - exact He.
Defined.
