(* ===== verification/WalSegment.v ===== *)
(** * Segment headers ([crates/aiondb-wal/src/segment.rs])

    A segment file starts with a magic number, a format version and, by version, the way
    LSNs advance and the identity of the cluster.  Indexing is checked as in [WalEntry];
    the theorems show that a header written is the header read, that parsing never goes
    out of bounds, and what becomes of a header that a crash cut short. *)

From S2P Require Import Prelude.
From S2P Require Import Bytes.
From S2P Require Import BinaryIo.
From S2P Require Import WalEntry.

(** [b"AIONWAL1"] and [b"AIONWAL\0"]. *)
Definition SEGMENT_MAGIC : list Z := [65; 73; 79; 78; 87; 65; 76; 49].
Definition LEGACY_SEGMENT_MAGIC : list Z := [65; 73; 79; 78; 87; 65; 76; 0].
Definition SEGMENT_FORMAT_VERSION_V1 : Z := 1.
Definition SEGMENT_FORMAT_VERSION_V2 : Z := 2.
Definition SEGMENT_FORMAT_VERSION : Z := 3.
Definition SEGMENT_HEADER_SIZE_V1 : Z := 9.
Definition SEGMENT_HEADER_SIZE_V2 : Z := 10.
Definition SEGMENT_HEADER_SIZE : Z := 22.
Definition WAL_SEGMENT_SCAN_HARD_LIMIT_BYTES : Z := 256 * 1024 * 1024.

(** [WalLsnMode], [SegmentLsnMode] and the two [LsnStepMode]s. *)
Inductive LsnMode : Type := Logical | ByteOffset.

#[global] Instance LsnMode_eq_dec : EqDecision LsnMode.
Proof. solve_decision. Defined.

Definition mode_byte (m : LsnMode) : Z := match m with Logical => 1 | ByteOffset => 2 end.

Definition mode_from_byte (v : Z) : option LsnMode :=
  if v =? 1 then Some Logical else if v =? 2 then Some ByteOffset else None.

Record SegmentHeaderInfo : Type := mkHeader {
  format_version : option Z;
  entry_offset : Z;
  header_mode : option LsnMode;
  header_system : option Z;
  header_timeline : option Z
}.

Record SegmentClusterIdentity : Type := mkIdentity {
  system_identifier : option Z;
  timeline_id : option Z
}.

Definition segment_header_bytes (m : LsnMode) (i : SegmentClusterIdentity) : list Z :=
  SEGMENT_MAGIC ++ [SEGMENT_FORMAT_VERSION] ++ [mode_byte m] ++
  le_bytes 8 (default 0 (system_identifier i)) ++ le_bytes 4 (default 0 (timeline_id i)).

Definition has_segment_magic (d : list Z) : option bool :=
  if 8 <=? len d then
    a ← sub d 0 8;
    Some (bool_decide (a = SEGMENT_MAGIC) || bool_decide (a = LEGACY_SEGMENT_MAGIC))
  else Some false.

(** [(v != 0).then_some(v)]. *)
Definition nonzero (v : Z) : option Z := if v =? 0 then None else Some v.

Definition header_v1 : SegmentHeaderInfo :=
  mkHeader (Some SEGMENT_FORMAT_VERSION_V1) SEGMENT_HEADER_SIZE_V1 None None None.

Definition header_none : SegmentHeaderInfo := mkHeader None 0 None None None.

Definition parse_header_v2 (d : list Z) : option (DbResult SegmentHeaderInfo) :=
  b ← le_at d 9 1;
  Some (match mode_from_byte b with
        | None => Err Internal
        | Some m => Ok (mkHeader (Some SEGMENT_FORMAT_VERSION_V2) SEGMENT_HEADER_SIZE_V2 (Some m) None None)
        end).

Definition parse_header_v3 (d : list Z) : option (DbResult SegmentHeaderInfo) :=
  b ← le_at d 9 1;
  match mode_from_byte b with
  | None => Some (Err Internal)
  | Some m =>
      system ← le_at d 10 8; timeline ← le_at d 18 4;
      Some (Ok (mkHeader (Some SEGMENT_FORMAT_VERSION) SEGMENT_HEADER_SIZE (Some m)
                  (nonzero system) (nonzero timeline)))
  end.

Definition parse_segment_header (d : list Z) : option (DbResult SegmentHeaderInfo) :=
  magic ← has_segment_magic d;
  if (SEGMENT_HEADER_SIZE <=? len d) && magic then
    version ← le_at d 8 1;
    if version =? SEGMENT_FORMAT_VERSION_V1 then Some (Ok header_v1)
    else if version =? SEGMENT_FORMAT_VERSION_V2 then parse_header_v2 d
    else if version =? SEGMENT_FORMAT_VERSION then parse_header_v3 d
    else Some (Err Internal)
  else if (8 <=? len d) && (len d <? SEGMENT_HEADER_SIZE_V1) && magic then Some (Err Internal)
  else if (SEGMENT_HEADER_SIZE_V1 <=? len d) && (len d <? SEGMENT_HEADER_SIZE) && magic then
    version ← le_at d 8 1;
    if version =? SEGMENT_FORMAT_VERSION_V1 then Some (Ok header_v1)
    else if version =? SEGMENT_FORMAT_VERSION_V2 then
      if SEGMENT_HEADER_SIZE_V2 <=? len d then parse_header_v2 d else Some (Err Internal)
    else if version =? SEGMENT_FORMAT_VERSION then Some (Err Internal)
    else Some (Ok header_none)
  else Some (Ok header_none).

Definition entry_data_offset (d : list Z) : option (DbResult Z) :=
  h ← parse_segment_header d;
  Some (match h with Ok h => Ok (entry_offset h) | Err e => Err e end).

(** ** Identity and headers *)

Definition identity_ok (i : SegmentClusterIdentity) : Prop :=
  match system_identifier i with Some s => 0 < s < 2 ^ 64 | None => True end /\
  match timeline_id i with Some t => 0 < t < 2 ^ 32 | None => True end.

Definition header_info (m : LsnMode) (i : SegmentClusterIdentity) : SegmentHeaderInfo :=
  mkHeader (Some SEGMENT_FORMAT_VERSION) SEGMENT_HEADER_SIZE (Some m) (system_identifier i) (timeline_id i).

Lemma header_len m i : len (segment_header_bytes m i) = 22.
Proof. unfold segment_header_bytes. rewrite !len_app, !len_le_bytes. done. Qed.

Lemma nonzero_default o b :
  match o with Some s => 0 < s < b | None => True end -> nonzero (default 0 o) = o.
Proof. unfold nonzero. destruct o as [s|]; cbn; [|done]. intros Hs. by destruct (Z.eqb_spec s 0); [lia|]. Qed.

Lemma default_range o b :
  0 < b -> match o with Some s => 0 < s < b | None => True end -> 0 <= default 0 o < b.
Proof. destruct o; cbn; lia. Qed.

Lemma has_magic_current d : has_segment_magic (SEGMENT_MAGIC ++ d) = Some true.
Proof.
  unfold has_segment_magic. rewrite len_app. pose proof (len_nonneg d). change (len SEGMENT_MAGIC) with 8.
  case_bool. by rewrite sub_start by done.
Qed.

Lemma mode_byte_trip m : mode_from_byte (mode_byte m) = Some m.
Proof. by destruct m. Qed.

(** A header written is the header read, whatever follows it. *)
Lemma header_roundtrip m i rest :
  identity_ok i -> parse_segment_header (segment_header_bytes m i ++ rest) = Some (Ok (header_info m i)).
Proof.
  intros [Hs Ht]. unfold parse_segment_header. rewrite len_app, header_len. pose proof (len_nonneg rest).
  unfold segment_header_bytes. rewrite <- !app_assoc, has_magic_current. cbn [mbind option_bind].
  unfold SEGMENT_HEADER_SIZE. case_bool. rewrite (le_at_skip SEGMENT_MAGIC) by done.
  change (8 - len SEGMENT_MAGIC) with 0. rewrite le_at_byte. cbn [mbind option_bind].
  change (_ =? SEGMENT_FORMAT_VERSION_V1) with false. change (_ =? SEGMENT_FORMAT_VERSION_V2) with false.
  change (_ =? SEGMENT_FORMAT_VERSION) with true. cbn [mbind option_bind]. unfold parse_header_v3.
  rewrite !(le_at_skip SEGMENT_MAGIC) by done. change (len SEGMENT_MAGIC) with 8.
  skip [SEGMENT_FORMAT_VERSION]. at_start. rewrite mode_byte_trip. skip [mode_byte m].
  pose proof (default_range _ (2 ^ 64) ltac:(done) Hs). pose proof (default_range _ (2 ^ 32) ltac:(done) Ht).
  at_start. skip (le_bytes 8 (default 0 (system_identifier i))). at_start.
  by erewrite !nonzero_default by done.
Qed.

Lemma has_magic_safe d : Forall byte d -> exists b, has_segment_magic d = Some b /\ (b = true -> 8 <= len d).
Proof.
  intros Hd. unfold has_segment_magic. destruct (Z.leb_spec 8 (len d)); [|by exists false].
  destruct (sub_some d 0 8) as (s & -> & _); [lia|lia|done|]. cbn. eauto.
Qed.

Definition offset_within (d : list Z) (h : SegmentHeaderInfo) : Prop := 0 <= entry_offset h <= len d.

Lemma parse_v2_safe d : Forall byte d -> 10 <= len d -> safely (offset_within d) (parse_header_v2 d).
Proof.
  intros Hd Hl. apply safely_le_at; [lia|lia|lia|done|]. intros b _. destruct (mode_from_byte b); [|done].
  unfold offset_within. cbn. unfold SEGMENT_HEADER_SIZE_V2. lia.
Qed.

Lemma parse_v3_safe d : Forall byte d -> 22 <= len d -> safely (offset_within d) (parse_header_v3 d).
Proof.
  intros Hd Hl. apply safely_le_at; [lia|lia|lia|done|]. intros b _. destruct (mode_from_byte b); [|done].
  apply safely_le_at; [lia|lia|lia|done|]. intros s _. apply safely_le_at; [lia|lia|lia|done|]. intros t _.
  unfold offset_within. cbn. unfold SEGMENT_HEADER_SIZE. lia.
Qed.

(** Any bytes can be looked at: no panic, and the entries start within the file. *)
Lemma parse_header_safe d : Forall byte d -> safely (offset_within d) (parse_segment_header d).
Proof.
  intros Hd. unfold parse_segment_header, SEGMENT_HEADER_SIZE, SEGMENT_HEADER_SIZE_V1, SEGMENT_HEADER_SIZE_V2.
  destruct (has_magic_safe d Hd) as (magic & -> & Hm). cbn [mbind option_bind]. pose proof (len_nonneg d).
  assert (H1 : 9 <= len d -> offset_within d header_v1)
    by (unfold offset_within; cbn; unfold SEGMENT_HEADER_SIZE_V1; lia).
  assert (H0 : offset_within d header_none) by (unfold offset_within; cbn; lia).
  repeat case_match; bool_prop; try done;
    try (apply safely_le_at; [lia|lia|lia|done|]; intros version _; repeat case_match; bool_prop; try done);
    auto using parse_v2_safe, parse_v3_safe with lia; cbn; auto with lia.
Qed.

(** What a crash can leave of a header.  Up to seven bytes, the file is taken for one without
    a header; from the eighth on it is refused. *)
Lemma torn_header m i k :
  (k < 22)%nat ->
  parse_segment_header (take k (segment_header_bytes m i)) =
    Some (if (k <? 8)%nat then Ok header_none else Err Internal).
Proof.
  intros Hk. pose proof (length_le_bytes 8 (default 0 (system_identifier i))) as Hs.
  pose proof (length_le_bytes 4 (default 0 (timeline_id i))) as Ht. unfold segment_header_bytes.
  destruct (le_bytes 8 _) as [|s0 [|s1 [|s2 [|s3 [|s4 [|s5 [|s6 [|s7 [|]]]]]]]]]; try done.
  destruct (le_bytes 4 _) as [|t0 [|t1 [|t2 [|t3 [|]]]]]; try done.
  do 22 (destruct k as [|k]; [vm_compute; reflexivity|]). lia.
Qed.
