(* ===== verification/WalLog.v ===== *)
(** * The log: writer and reader ([crates/aiondb-wal/src/writer.rs], [reader.rs])

    The directory is the list of segment files, by ascending id, with their contents; file
    names, [fsync] and the segments' archive and HMAC sidecars, which the environment
    switches on, are not modelled.  [BufWriter] is its buffer: bytes reach the file when it
    fills up or is flushed.  Operations that write take [room], the number of bytes the file
    system still accepts, [None] when it accepts all: with it the write of an entry, the
    flush before a rotation and the header of a new segment can fail halfway.

    A writer that is not interrupted refines a list of entries: what it appends is what a
    reader finds, in order.  A crash that cuts the active segment anywhere after its header
    leaves a prefix, from which both the reader and [WalWriter::open] continue. *)

From S2P Require Import Prelude.
From S2P Require Import Bytes.
From S2P Require Import BinaryIo.
From S2P Require Import WalTypes.
From S2P Require Import WalValue.
From S2P Require Import WalCodec.
From S2P Require Import WalExample.
From S2P Require Import WalEntry.
From S2P Require Import WalSegment.

(** ** Directory *)

Definition Dir : Type := list (Z * list Z).

Definition dir_get (d : Dir) (id : Z) : option (list Z) := snd <$> find (fun f => fst f =? id) d.

(** Replace the contents of a file, or create it at its place in the order. *)
Fixpoint dir_put (d : Dir) (id : Z) (bytes : list Z) : Dir :=
  match d with
  | [] => [(id, bytes)]
  | (i, b) :: d' =>
      if i =? id then (id, bytes) :: d'
      else if id <? i then (id, bytes) :: d else (i, b) :: dir_put d' id bytes
  end.

Definition dir_del (d : Dir) (id : Z) : Dir := List.filter (fun f => negb (fst f =? id)) d.

Definition list_segments (d : Dir) : list Z := map fst d.

(** [SegmentId::checked_next]. *)
Definition checked_next (id : Z) : option Z := checked_add u64_max id 1.

(** [File::set_len]: cut, or extend with zeros. *)
Definition set_len (bytes : list Z) (n : Z) : list Z :=
  take (Z.to_nat n) bytes ++ replicate (Z.to_nat n - length bytes) 0.

(** ** Writer *)

Record WalConfig : Type := mkConfig {
  segment_max_bytes : Z;
  wal_compression : WalCompression;
  wal_lsn_mode : LsnMode;
  identity : SegmentClusterIdentity;
  max_segment_scan_bytes : Z
}.

Record WalWriter : Type := mkWalWriter {
  config : WalConfig;
  dir : Dir;
  recycled : list Z;
  current_segment : Z;
  buffer : list Z;
  current_size : Z;
  next_lsn : Z;
  last_lsn : option Z;
  last_entry_bytes : option Z;
  lsn_step_mode : LsnMode
}.

Definition set_file (w : WalWriter) (bytes : list Z) : WalWriter :=
  mkWalWriter (config w) (dir_put (dir w) (current_segment w) bytes) (recycled w) (current_segment w)
    (buffer w) (current_size w) (next_lsn w) (last_lsn w) (last_entry_bytes w) (lsn_step_mode w).

Definition set_dir (w : WalWriter) (d : Dir) : WalWriter :=
  mkWalWriter (config w) d (recycled w) (current_segment w)
    (buffer w) (current_size w) (next_lsn w) (last_lsn w) (last_entry_bytes w) (lsn_step_mode w).

Definition set_buffer (w : WalWriter) (b : list Z) : WalWriter :=
  mkWalWriter (config w) (dir w) (recycled w) (current_segment w)
    b (current_size w) (next_lsn w) (last_lsn w) (last_entry_bytes w) (lsn_step_mode w).

Definition set_size (w : WalWriter) (n : Z) : WalWriter :=
  mkWalWriter (config w) (dir w) (recycled w) (current_segment w)
    (buffer w) n (next_lsn w) (last_lsn w) (last_entry_bytes w) (lsn_step_mode w).

Definition set_lsns (w : WalWriter) (last bytes : option Z) (next : Z) : WalWriter :=
  mkWalWriter (config w) (dir w) (recycled w) (current_segment w)
    (buffer w) (current_size w) next last bytes (lsn_step_mode w).

Definition current_bytes (w : WalWriter) : list Z := default [] (dir_get (dir w) (current_segment w)).

(** *** [BufWriter] *)

Definition BUF_CAPACITY : Z := 8 * 1024.

(** What the file system takes of [bs] when [room] more bytes fit, and the room left. *)
Definition accept (room : option nat) (bs : list Z) : bool * option nat * list Z :=
  match room with
  | None => (true, None, bs)
  | Some k =>
      if (length bs <=? k)%nat then (true, Some (k - length bs)%nat, bs) else (false, Some 0%nat, take k bs)
  end.

(** [File::write_all] on the current segment. *)
Definition file_write (room : option nat) (w : WalWriter) (bs : list Z) : bool * option nat * WalWriter :=
  let '(ok, room, bs) := accept room bs in (ok, room, set_file w (current_bytes w ++ bs)).

(** [flush_buf]: what was not written stays in the buffer. *)
Definition flush_buf (room : option nat) (w : WalWriter) : bool * option nat * WalWriter :=
  let '(ok, room', w') := file_write room w (buffer w) in
  (ok, room', set_buffer w' (if ok then [] else drop (default 0%nat room) (buffer w))).

Definition buf_push (w : WalWriter) (bs : list Z) : WalWriter := set_buffer w (buffer w ++ bs).

(** [BufWriter::write_all]. *)
Definition write_all (room : option nat) (w : WalWriter) (bs : list Z) : bool * option nat * WalWriter :=
  let spare := BUF_CAPACITY - len (buffer w) in
  if len bs <? spare then (true, room, buf_push w bs)
  else
    let '(ok, room, w) := if spare <? len bs then flush_buf room w else (true, room, w) in
    if negb ok then (false, room, w)
    else if BUF_CAPACITY <=? len bs then file_write room w bs
    else (true, room, buf_push w bs).

(** [flush], when the file system takes everything. *)
Definition flush (w : WalWriter) : WalWriter := snd (flush_buf None w).

(** [flush_durable], through [prepare_durable_sync]. *)
Definition flush_durable (room : option nat) (w : WalWriter) : bool * option nat * WalWriter := flush_buf room w.

(** *** Segments *)

(** [open_segment_for_append]: a new or empty file gets a header. *)
Definition open_segment_for_append (room : option nat) (c : WalConfig) (d : Dir) (id : Z) (m : LsnMode) :
    bool * option nat * Dir :=
  match dir_get d id with
  | Some (_ :: _) => (true, room, d)
  | _ =>
      let '(ok, room, header) := accept room (segment_header_bytes m (identity c)) in
      (ok, room, dir_put d id header)
  end.

Definition enter_segment (w : WalWriter) (d : Dir) (rest : list Z) (id : Z) : WalWriter :=
  mkWalWriter (config w) d rest id [] (current_size w) (next_lsn w) (last_lsn w) (last_entry_bytes w)
    (lsn_step_mode w).

(** The next file: a recycled one is emptied, gets a header and only then its name
    ([open_recycled_segment_for_append]); without one, a file is created. *)
Definition open_next_segment (room : option nat) (w : WalWriter) (id : Z) : bool * option nat * WalWriter :=
  match recycled w with
  | _ :: rest =>
      let '(ok, room, header) := accept room (segment_header_bytes (lsn_step_mode w) (identity (config w))) in
      (ok, room, if ok then enter_segment w (dir_put (dir w) id header) rest id else w)
  | [] =>
      let '(ok, room, d) := open_segment_for_append room (config w) (dir w) id (lsn_step_mode w) in
      (ok, room, if ok then enter_segment w d [] id else set_dir w d)
  end.

Definition rotate (room : option nat) (w : WalWriter) : DbResult unit * option nat * WalWriter :=
  let '(ok, room, w) := flush_durable room w in
  if negb ok then (Err Internal, room, w)
  else
    match checked_next (current_segment w) with
    | None => (Err Internal, room, w)
    | Some id =>
        let '(ok, room, w) := open_next_segment room w id in
        if negb ok then (Err Internal, room, w) else (Ok tt, room, set_size w (len (current_bytes w)))
    end.

(** [recover_failed_append]. *)
Definition recover_failed_append (room : option nat) (w : WalWriter) : WalWriter :=
  let w := set_buffer w [] in
  let w := set_file w (set_len (current_bytes w) (current_size w)) in
  let '(_, _, d) := open_segment_for_append room (config w) (dir w) (current_segment w) (lsn_step_mode w) in
  set_dir w d.

Definition next_lsn_from (w : WalWriter) (lsn bytes : Z) : option Z :=
  checked_advance lsn (match lsn_step_mode w with Logical => 1 | ByteOffset => bytes end).

Section Log.
Context `{ExternalTypes} `{Compression}.

(** *** Appending *)

Definition lsn_or_zero (o : option Z) : Z := default LSN_ZERO o.

Definition append_prepared (room : option nat) (w : WalWriter) (p : PreparedWalRecord) :
    DbResult Z * WalWriter :=
  let lsn := next_lsn w in
  match encode_prepared_entry lsn (lsn_or_zero (last_lsn w)) LEGACY_DATABASE_ID p with
  | Err e => (Err e, w)
  | Ok encoded =>
      let encoded_len := len encoded in
      match next_lsn_from w lsn encoded_len, checked_add u64_max (current_size w) encoded_len with
      | Some next, Some projected =>
          let '(r, room, w) :=
            if (0 <? current_size w) && (segment_max_bytes (config w) <? projected)
            then rotate room w else (Ok tt, room, w) in
          match r with
          | Err e => (Err e, w)
          | Ok _ =>
              let '(ok, room, w) := write_all room w encoded in
              if negb ok then (Err Internal, recover_failed_append room w)
              else
                match checked_add u64_max (current_size w) encoded_len with
                | None => (Err Internal, w)
                | Some size => (Ok lsn, set_lsns (set_size w size) (Some lsn) (Some encoded_len) next)
                end
          end
      | _, _ => (Err Internal, w)
      end
  end.

Definition append (room : option nat) (w : WalWriter) (r : WalRecord) : DbResult Z * WalWriter :=
  match prepare_record_with_compression r (wal_compression (config w)) with
  | Err e => (Err e, w)
  | Ok p => append_prepared room w p
  end.

(** [write_encoded_chunk]. *)
Definition write_encoded_chunk (room : option nat) (w : WalWriter) (bs : list Z) :
    DbResult unit * option nat * WalWriter :=
  if len bs =? 0 then (Ok tt, room, w)
  else
    match checked_add u64_max (current_size w) (len bs) with
    | None => (Err Internal, room, w)
    | Some size =>
        let '(ok, room, w) := write_all room w bs in
        if negb ok then (Err Internal, room, recover_failed_append room w) else (Ok tt, room, set_size w size)
    end.

(** The locals of [append_prepared_batch]. *)
Record Batch : Type := mkBatch {
  chunk : list Z;
  chunk_size : Z;
  chunk_last_lsn : option Z;
  chunk_next_lsn : Z;
  batch_last_lsn : Z;
  batch_total_bytes : Z;
  batch_entry_bytes : option Z
}.

(** One entry goes into the chunk; the step of both branches of the loop. *)
Definition batch_push (w : WalWriter) (b : Batch) (lsn : Z) (encoded : list Z) : option Batch :=
  size ← checked_add u64_max (chunk_size b) (len encoded);
  next ← next_lsn_from w lsn (len encoded);
  total ← checked_add u64_max (batch_total_bytes b) (len encoded);
  Some (mkBatch (chunk b ++ encoded) size (Some lsn) next lsn total (Some (len encoded))).

(** The loop of [append_prepared_batch]. *)
Fixpoint append_batch_loop (room : option nat) (w : WalWriter) (b : Batch) (ps : list PreparedWalRecord) :
    DbResult Batch * option nat * WalWriter :=
  match ps with
  | [] => (Ok b, room, w)
  | p :: ps' =>
      match encode_prepared_entry (chunk_next_lsn b) (lsn_or_zero (chunk_last_lsn b)) LEGACY_DATABASE_ID p with
      | Err e => (Err e, room, w)
      | Ok encoded =>
          match checked_add u64_max (chunk_size b) (len encoded) with
          | None => (Err Internal, room, w)
          | Some projected =>
              if (0 <? chunk_size b) && (segment_max_bytes (config w) <? projected) then
                let '(r, room, w) := write_encoded_chunk room w (chunk b) in
                match r with
                | Err e => (Err e, room, w)
                | Ok _ =>
                    let '(r, room, w) := rotate room (set_lsns w (chunk_last_lsn b) (batch_entry_bytes b) (chunk_next_lsn b)) in
                    match r with
                    | Err e => (Err e, room, w)
                    | Ok _ =>
                        match encode_prepared_entry (next_lsn w) (lsn_or_zero (last_lsn w)) LEGACY_DATABASE_ID p with
                        | Err e => (Err e, room, w)
                        | Ok encoded =>
                            let b := mkBatch [] (current_size w) (last_lsn w) (next_lsn w)
                                       (batch_last_lsn b) (batch_total_bytes b) (batch_entry_bytes b) in
                            match batch_push w b (next_lsn w) encoded with
                            | None => (Err Internal, room, w)
                            | Some b => append_batch_loop room w b ps'
                            end
                        end
                    end
                end
              else
                match batch_push w b (chunk_next_lsn b) encoded with
                | None => (Err Internal, room, w)
                | Some b => append_batch_loop room w b ps'
                end
          end
      end
  end.

(** The last LSN of the batch and its size in bytes. *)
Definition append_prepared_batch (room : option nat) (w : WalWriter) (ps : list PreparedWalRecord) :
    DbResult (option (Z * Z)) * WalWriter :=
  match ps with
  | [] => (Ok None, w)
  | _ =>
      let b := mkBatch [] (current_size w) (last_lsn w) (next_lsn w) LSN_ZERO 0 None in
      match append_batch_loop room w b ps with
      | (Err e, _, w) => (Err e, w)
      | (Ok b, room, w) =>
          match write_encoded_chunk room w (chunk b) with
          | (Err e, _, w) => (Err e, w)
          | (Ok _, _, w) =>
              (Ok (Some (batch_last_lsn b, batch_total_bytes b)),
               set_lsns w (chunk_last_lsn b) (batch_entry_bytes b) (chunk_next_lsn b))
          end
      end
  end.

(** *** Removing segments *)

Definition decode (d : list Z) : DbResult (WalEntry * Z) := default (Err Internal) (decode_entry d).
Definition parse_header (d : list Z) : DbResult SegmentHeaderInfo := default (Err Internal) (parse_segment_header d).

(** [effective_segment_scan_cap]. *)
Definition effective_segment_scan_cap (c : WalConfig) : Z :=
  Z.min (Z.max (max_segment_scan_bytes c) (Z.min u64_max (segment_max_bytes c * 2)))
    WAL_SEGMENT_SCAN_HARD_LIMIT_BYTES.

(** [read_segment_bytes_bounded]. *)
Definition read_segment_bytes_bounded (d : Dir) (id max : Z) : DbResult (list Z) :=
  match dir_get d id with
  | None => Err Internal
  | Some bytes => if max <? len bytes then Err Internal else Ok bytes
  end.

Definition first_lsn_in_segment (w : WalWriter) (id : Z) : DbResult (option Z) :=
  match read_segment_bytes_bounded (dir w) id (effective_segment_scan_cap (config w)) with
  | Err e => Err e
  | Ok bytes =>
      match parse_header bytes with
      | Err e => Err e
      | Ok h =>
          if len bytes <=? entry_offset h then Ok None
          else
            match decode (drop (Z.to_nat (entry_offset h)) bytes) with
            | Ok (e, _) => Ok (Some (lsn e))
            | Err _ => Ok None
            end
      end
  end.

(** [recycle_segment]. *)
Definition recycle_segment (w : WalWriter) (id : Z) : WalWriter :=
  mkWalWriter (config w) (dir_del (dir w) id) (recycled w ++ [id]) (current_segment w) (buffer w)
    (current_size w) (next_lsn w) (last_lsn w) (last_entry_bytes w) (lsn_step_mode w).

(** The loop over [segments], from position [i]; [keep_from] as in the source. *)
Fixpoint remove_loop (w : WalWriter) (before keep_from i removed : Z) (segments : list Z) : DbResult Z * WalWriter :=
  match segments with
  | id :: ((next :: _) as rest) =>
      if (id =? current_segment w) || (keep_from <=? i) then remove_loop w before keep_from (i + 1) removed rest
      else
        match first_lsn_in_segment w next with
        | Err e => (Err e, w)
        | Ok (Some l) =>
            if l <=? before
            then remove_loop (recycle_segment w id) before keep_from (i + 1) (removed + 1) rest
            else remove_loop w before keep_from (i + 1) removed rest
        | Ok None => remove_loop w before keep_from (i + 1) removed rest
        end
  | _ => (Ok removed, w)
  end.

Definition remove_segments_before_with_min_segments (w : WalWriter) (before min_keep : Z) : DbResult Z * WalWriter :=
  let segments := list_segments (dir w) in
  if len segments <=? 1 then (Ok 0, w)
  else remove_loop w before (saturating_sub (len segments) min_keep) 0 0 segments.

(** *** Opening *)

(** What the scan of [WalWriter::open] has found so far. *)
Record Scan : Type := mkScan {
  highest_lsn : option Z;
  highest_entry_bytes : option Z;
  detected_mode : option LsnMode;
  scan_header_mode : option LsnMode;
  scan_system : option Z;
  scan_timeline : option Z;
  scan_size : option Z;
  total_scan_bytes : Z
}.

Definition scan_start : Scan := mkScan None None None None None None None 0.

(** The checks on an entry that follows another; [Ok None] is the [break] in the last
    segment.  [previous_lsn] is always [highest_lsn]. *)
Definition scan_step (s : Scan) (is_last : bool) (e : WalEntry) : DbResult (option (option LsnMode)) :=
  let bad := if is_last then Ok None else Err Internal in
  match highest_lsn s with
  | None => Ok (Some (detected_mode s))
  | Some prev =>
      if negb (prev_lsn e =? LSN_ZERO) && negb (prev_lsn e =? prev) then bad
      else
        match checked_advance prev 1, checked_advance prev (default 1 (highest_entry_bytes s)) with
        | Some logical, Some byte_expected =>
            match detected_mode s with
            | Some Logical => if negb (lsn e =? logical) then bad else Ok (Some (Some Logical))
            | Some ByteOffset => if negb (lsn e =? byte_expected) then bad else Ok (Some (Some ByteOffset))
            | None =>
                if lsn e =? logical then Ok (Some (Some Logical))
                else if lsn e =? byte_expected then Ok (Some (Some ByteOffset))
                else bad
            end
        | _, _ => Err Internal
        end
  end.

Definition scan_found (s : Scan) (mode : option LsnMode) (l n : Z) : Scan :=
  mkScan (Some l) (Some n) mode (scan_header_mode s) (scan_system s) (scan_timeline s)
    (scan_size s) (total_scan_bytes s).

(** The [while] loop over the entries of a segment, from [rest] at [offset]. *)
Fixpoint scan_entries (fuel : nat) (is_last : bool) (s : Scan) (rest : list Z) (offset : Z) : DbResult (Scan * Z) :=
  match fuel with
  | O => Err Internal
  | S fuel' =>
      match rest with
      | [] => Ok (s, offset)
      | _ =>
          match decode rest with
          | Err _ => Ok (s, offset)
          | Ok (e, n) =>
              match scan_step s is_last e with
              | Err err => Err err
              | Ok None => Ok (s, offset)
              | Ok (Some mode) =>
                  scan_entries fuel' is_last (scan_found s mode (lsn e) n) (drop (Z.to_nat n) rest) (offset + n)
              end
          end
      end
  end.

Definition MAX_TOTAL_RECOVERY_SCAN_BYTES : Z := 4 * 1024 * 1024 * 1024.

(** [if let Some(v) = found { .. }] against what earlier segments said. *)
Definition agree `{EqDecision A} (known found : option A) : DbResult (option A) :=
  match found, known with
  | Some v, Some k => if decide (k = v) then Ok known else Err Internal
  | Some v, None => Ok found
  | None, _ => Ok known
  end.

Definition scan_header (s : Scan) (is_last : bool) (n : Z) (h : SegmentHeaderInfo) : DbResult Scan :=
  match agree (scan_header_mode s) (header_mode h), agree (scan_system s) (header_system h),
        agree (scan_timeline s) (header_timeline h) with
  | Ok m, Ok sys, Ok t =>
      Ok (mkScan (highest_lsn s) (highest_entry_bytes s) (detected_mode s) m sys t
            (if is_last then Some n else scan_size s) (saturating_add u64_max (total_scan_bytes s) n))
  | _, _, _ => Err Internal
  end.

Definition set_scan_size (s : Scan) (n : Z) : Scan :=
  mkScan (highest_lsn s) (highest_entry_bytes s) (detected_mode s) (scan_header_mode s) (scan_system s)
    (scan_timeline s) (Some n) (total_scan_bytes s).

(** One segment of the scan: the new state, and the file, cut after its last good entry. *)
Definition scan_segment (c : WalConfig) (s : Scan) (is_last : bool) (bytes : list Z) : DbResult (Scan * list Z) :=
  if effective_segment_scan_cap c <? len bytes then Err Internal
  else if MAX_TOTAL_RECOVERY_SCAN_BYTES <? saturating_add u64_max (total_scan_bytes s) (len bytes)
  then Err Internal
  else
    match parse_header bytes with
    | Err e => Err e
    | Ok h =>
        match scan_header s is_last (len bytes) h with
        | Err e => Err e
        | Ok s =>
            match scan_entries (S (length bytes)) is_last s (drop (Z.to_nat (entry_offset h)) bytes) (entry_offset h) with
            | Err e => Err e
            | Ok (s, offset) =>
                if offset <? len bytes then
                  if is_last then Ok (set_scan_size s offset, take (Z.to_nat offset) bytes) else Err Internal
                else Ok (s, bytes)
            end
        end
    end.

Fixpoint scan_segments (c : WalConfig) (s : Scan) (d : Dir) : DbResult (Scan * Dir) :=
  match d with
  | [] => Ok (s, [])
  | (id, bytes) :: rest =>
      match scan_segment c s (match rest with [] => true | _ => false end) bytes with
      | Err e => Err e
      | Ok (s, bytes) =>
          match scan_segments c s rest with
          | Err e => Err e
          | Ok (s, rest) => Ok (s, (id, bytes) :: rest)
          end
      end
  end.

(** [WalWriter::open], with the directory it leaves; [preferred] is the mode of the
    environment or of the configuration.  There is room for a header. *)
Definition open_writer (c : WalConfig) (preferred : LsnMode) (d : Dir) (recycled : list Z) : DbResult WalWriter * Dir :=
  match last d with
  | None =>
      let '(_, _, d) := open_segment_for_append None c d 1 preferred in
      (Ok (mkWalWriter c d recycled 1 [] (len (default [] (dir_get d 1))) 1 None None preferred), d)
  | Some (last_seg, _) =>
      match scan_segments c scan_start d with
      | Err e => (Err e, d)
      | Ok (s, d) =>
          let size := default (len (default [] (dir_get d last_seg))) (scan_size s) in
          let differ known expected := match known, expected with Some a, Some b => negb (a =? b) | _, _ => false end in
          if match scan_header_mode s with Some m => negb (bool_decide (m = preferred)) | None => false end
          then (Err Internal, d)
          else if differ (scan_system s) (system_identifier (identity c)) then (Err Internal, d)
          else if differ (scan_timeline s) (timeline_id (identity c)) then (Err Internal, d)
          else
            let '(_, _, d) := open_segment_for_append None c d last_seg (default preferred (detected_mode s)) in
            match read_segment_bytes_bounded d last_seg size with
            | Err e => (Err e, d)
            | Ok _ =>
                let mode := default preferred (union (scan_header_mode s) (detected_mode s)) in
                let next :=
                  match highest_lsn s with
                  | None => Some 1
                  | Some l =>
                      checked_advance l (match mode with Logical => 1 | ByteOffset => default 1 (highest_entry_bytes s) end)
                  end in
                match next with
                | None => (Err Internal, d)
                | Some n => (Ok (mkWalWriter c d recycled last_seg [] size n (highest_lsn s) (highest_entry_bytes s) mode), d)
                end
            end
      end
  end.

(** ** Reader *)

(** [segments] is what is left of the list from [segment_index]; [last_segment] its last
    element at opening. *)
Record WalReader : Type := mkWalReader {
  r_dir : Dir;
  segments : list Z;
  last_segment : option Z;
  r_current : option Z;
  current_data : list Z;
  offset : Z;
  start_lsn : Z;
  last_seen_lsn : option Z;
  last_seen_bytes : option Z;
  step_mode : option LsnMode;
  max_read_bytes : Z
}.

Definition open_reader (d : Dir) (start max_read : Z) : WalReader :=
  mkWalReader d (list_segments d) (last (list_segments d)) None [] 0 start None None None max_read.

(** The LSN checks of [next_entry_with_len]; the mode that follows from them. *)
Definition reader_step (r : WalReader) (e : WalEntry) : DbResult (option LsnMode) :=
  match last_seen_lsn r with
  | None => Ok (step_mode r)
  | Some prev =>
      if negb (prev_lsn e =? LSN_ZERO) && negb (prev_lsn e =? prev) then Err Internal
      else
        match checked_advance prev 1, checked_advance prev (default 1 (last_seen_bytes r)) with
        | Some logical, Some byte_expected =>
            match step_mode r with
            | Some Logical => if negb (lsn e =? logical) then Err Internal else Ok (Some Logical)
            | Some ByteOffset => if negb (lsn e =? byte_expected) then Err Internal else Ok (Some ByteOffset)
            | None =>
                if lsn e =? logical then Ok (Some Logical)
                else if lsn e =? byte_expected then Ok (Some ByteOffset)
                else Err Internal
            end
        | _, _ => Err Internal
        end
  end.

Definition reader_seen (r : WalReader) (mode : option LsnMode) (l n : Z) : WalReader :=
  mkWalReader (r_dir r) (segments r) (last_segment r) (r_current r) (current_data r) (offset r + n)
    (start_lsn r) (Some l) (Some n) mode (max_read_bytes r).

Definition reader_at (r : WalReader) (off : Z) : WalReader :=
  mkWalReader (r_dir r) (segments r) (last_segment r) (r_current r) (current_data r) off
    (start_lsn r) (last_seen_lsn r) (last_seen_bytes r) (step_mode r) (max_read_bytes r).

Definition current_segment_is_last (r : WalReader) : bool :=
  match r_current r, last_segment r with Some a, Some b => a =? b | _, _ => false end.

(** [load_next_segment]. *)
Definition load_next_segment (r : WalReader) : DbResult (bool * WalReader) :=
  match segments r with
  | [] => Ok (false, r)
  | id :: rest =>
      match read_segment_bytes_bounded (r_dir r) id (max_read_bytes r) with
      | Err e => Err e
      | Ok bytes =>
          match parse_header bytes with
          | Err e => Err e
          | Ok h =>
              Ok (true, mkWalReader (r_dir r) rest (last_segment r) (Some id) bytes (entry_offset h)
                          (start_lsn r) (last_seen_lsn r) (last_seen_bytes r) (step_mode r) (max_read_bytes r))
          end
      end
  end.

Fixpoint next_entry_with_len (fuel : nat) (r : WalReader) : DbResult (option (WalEntry * Z) * WalReader) :=
  match fuel with
  | O => Err Internal
  | S fuel' =>
      let load (r : WalReader) :=
        match load_next_segment r with
        | Err e => Err e
        | Ok (false, r) => Ok (None, r)
        | Ok (true, r) => next_entry_with_len fuel' r
        end in
      if offset r <? len (current_data r) then
        match decode (drop (Z.to_nat (offset r)) (current_data r)) with
        | Ok (e, n) =>
            match reader_step r e with
            | Err err => Err err
            | Ok mode =>
                let r := reader_seen r mode (lsn e) n in
                if start_lsn r <=? lsn e then Ok (Some (e, n), r) else next_entry_with_len fuel' r
            end
        | Err _ =>
            match r_current r with
            | None => Err Internal
            | Some _ =>
                if current_segment_is_last r then load (reader_at r (len (current_data r))) else Err Internal
            end
        end
      else load r
  end.

(** [collect_all]; each call gets the fuel. *)
Fixpoint collect_loop (fuel budget : nat) (r : WalReader) : DbResult (list WalEntry) :=
  match budget with
  | O => Err Internal
  | S budget' =>
      match next_entry_with_len fuel r with
      | Err e => Err e
      | Ok (None, _) => Ok []
      | Ok (Some (e, _), r) =>
          match collect_loop fuel budget' r with Err err => Err err | Ok es => Ok (e :: es) end
      end
  end.

(** Enough for every entry of every segment: an entry is at least 17 bytes long. *)
Definition reader_fuel (d : Dir) : nat := S (length d + list_sum (map (fun f => length (snd f)) d)).

Definition collect_all (d : Dir) (start max_read : Z) : DbResult (list WalEntry) :=
  collect_loop (reader_fuel d) (reader_fuel d) (open_reader d start max_read).

End Log.
