(* ===== verification/WalReplay.v ===== *)
(** * Correctness of the log

    The abstract log is a list of entries with their bytes, chained by LSN.  [log_inv]
    relates a writer to the segments it has written; [positioned] relates a reader to what
    it still has to read.  The operations of [WalLog] preserve the former, and reading
    empties the latter. *)

From S2P Require Import Prelude.
From S2P Require Import Bytes.
From S2P Require Import BinaryIo.
From S2P Require Import WalTypes.
From S2P Require Import WalValue.
From S2P Require Import WalCodec.
From S2P Require Import WalExample.
From S2P Require Import WalEntry.
From S2P Require Import WalSegment.
From S2P Require Import WalLog.

Definition step (m : LsnMode) (bytes : Z) : Z := match m with Logical => 1 | ByteOffset => bytes end.

Ltac reader_cbn :=
  cbn [r_dir segments last_segment r_current current_data offset start_lsn last_seen_lsn last_seen_bytes
       step_mode max_read_bytes header_info entry_offset].

Section Items.
Context `{ExternalTypes} `{Compression}.

(** An entry and its bytes on disk. *)
Definition Item : Type := WalEntry * list Z.

Definition item_lsn (x : Item) : Z := lsn (fst x).
Definition item_len (x : Item) : Z := len (snd x).

Record item_ok (x : Item) : Prop := {
  item_decodes rest : decode (snd x ++ rest) = Ok (fst x, item_len x);
  item_torn k : (k < length (snd x))%nat -> decode (take k (snd x)) = Err Internal;
  item_size : 17 <= item_len x <= 2 ^ 33;
  item_byte : Forall byte (snd x);
  item_range : 0 < item_lsn x /\ item_lsn x + item_len x <= u64_max
}.

(** The LSN and the back pointer of [y] when it follows [x]. *)
Definition follows (m : LsnMode) (x y : Item) : Prop :=
  item_lsn y = item_lsn x + step m (item_len x) /\ prev_lsn (fst y) = item_lsn x.

Fixpoint chained (m : LsnMode) (prev : option Item) (xs : list Item) : Prop :=
  match xs with
  | [] => True
  | x :: xs' => match prev with Some p => follows m p x | None => True end /\ chained m (Some x) xs'
  end.

Definition bytes_of (xs : list Item) : list Z := concat (map snd xs).

(** A segment: its id, its entries, and bytes that are no entry. *)
Record Segment : Type := mkSegment { seg_id : Z; seg_items : list Item; seg_tail : list Z }.

Definition segment_bytes (m : LsnMode) (i : SegmentClusterIdentity) (s : Segment) : list Z :=
  segment_header_bytes m i ++ bytes_of (seg_items s) ++ seg_tail s.

Definition files (m : LsnMode) (i : SegmentClusterIdentity) (ss : list Segment) : Dir :=
  map (fun s => (seg_id s, segment_bytes m i s)) ss.

Definition items_of (ss : list Segment) : list Item := concat (map seg_items ss).

(** The entries a reader from [start] returns. *)
Definition from_lsn (start : Z) (xs : list Item) : list WalEntry :=
  map fst (filter (fun x => start <= item_lsn x) xs).

(** The first of them, and what comes after it. *)
Fixpoint pick (start : Z) (xs : list Item) : option (Item * list Item) :=
  match xs with
  | [] => None
  | x :: xs' => if start <=? item_lsn x then Some (x, xs') else pick start xs'
  end.

(** ** Reading *)

Definition tail_ok (t : list Z) : Prop := t = [] \/ decode t = Err Internal.

Section Reading.
Context (m : LsnMode) (i : SegmentClusterIdentity) (d : Dir) (lastid : Z) (cap : Z).

Definition readable (s : Segment) : Prop :=
  dir_get d (seg_id s) = Some (segment_bytes m i s) /\ len (segment_bytes m i s) <= cap /\
  tail_ok (seg_tail s) /\ (seg_tail s <> [] -> seg_id s = lastid).

(** The reader stands before the entries [cur] of the current segment, which are followed
    by [tail], and has the segments [ss] still to load; it last saw [prev]. *)
Record positioned (r : WalReader) (prev : option Item) (cur : list Item) (tail : list Z) (ss : list Segment) : Prop := {
  pos_dir : r_dir r = d;
  pos_cap : max_read_bytes r = cap;
  pos_last : last_segment r = Some lastid;
  pos_segments : segments r = map seg_id ss;
  pos_offset : 0 <= offset r <= len (current_data r);
  pos_data : drop (Z.to_nat (offset r)) (current_data r) = bytes_of cur ++ tail;
  pos_tail : tail_ok tail;
  pos_current : tail <> [] -> r_current r = Some lastid;
  pos_readable : Forall readable ss;
  pos_items : Forall item_ok (cur ++ items_of ss);
  pos_chain : chained m prev (cur ++ items_of ss);
  pos_prev : match prev with Some p => item_ok p | None => True end;
  pos_seen : last_seen_lsn r = item_lsn <$> prev /\ last_seen_bytes r = item_len <$> prev;
  pos_mode : step_mode r = None \/ step_mode r = Some m
}.

Lemma reader_step_ok r p x :
  item_ok p -> follows m p x -> last_seen_lsn r = Some (item_lsn p) -> last_seen_bytes r = Some (item_len p) ->
  step_mode r = None \/ step_mode r = Some m ->
  reader_step r (fst x) = Ok (Some m).
Proof.
  intros Hp [Hl Hprev] Hs Hb Hm. unfold reader_step. rewrite Hs, Hb, Hprev, Z.eqb_refl, andb_false_r.
  change (default 1 (Some ?n)) with n.
  destruct (item_range p Hp) as [Hr1 Hr2]. pose proof (item_size p Hp) as Hn.
  unfold checked_advance, checked_add. unfold item_lsn in *.
  destruct (Z.leb_spec (lsn (fst p) + 1) u64_max); [|lia].
  destruct (Z.leb_spec (lsn (fst p) + item_len p) u64_max); [|lia].
  rewrite Hl. destruct m, Hm as [-> | ->]; cbn [step]; rewrite ?Z.eqb_refl; try done.
  destruct (Z.eqb_spec (lsn (fst p) + item_len p) (lsn (fst p) + 1)); [lia|done].
Qed.

Lemma bytes_of_cons x xs : bytes_of (x :: xs) = snd x ++ bytes_of xs.
Proof. done. Qed.

Lemma len_drop (l : list Z) n : 0 <= n <= len l -> len (drop (Z.to_nat n) l) = len l - n.
Proof. intros Hn. unfold len in *. rewrite length_drop. lia. Qed.

(** One entry is read. *)
Lemma positioned_read r prev x cur tail ss :
  positioned r prev (x :: cur) tail ss ->
  (offset r <? len (current_data r)) = true /\
  decode (drop (Z.to_nat (offset r)) (current_data r)) = Ok (fst x, item_len x) /\
  exists mode, reader_step r (fst x) = Ok mode /\
    positioned (reader_seen r mode (item_lsn x) (item_len x)) (Some x) cur tail ss.
Proof.
  intros []. cbn [app] in *. apply Forall_cons in pos_items0 as [Hx Hxs]. destruct pos_chain0 as [Hf Hch].
  pose proof (item_size x Hx) as Hl. pose proof pos_data0 as Hd. rewrite bytes_of_cons, <- app_assoc in Hd.
  assert (Hlen : item_len x + len (bytes_of cur ++ tail) = len (current_data r) - offset r).
  { rewrite <- len_drop, Hd by done. by rewrite (len_app (snd x)). }
  pose proof (len_nonneg (bytes_of cur ++ tail)). split; [apply Z.ltb_lt; lia|].
  split; [rewrite Hd; by apply item_decodes|].
  assert (Hs : exists mode, reader_step r (fst x) = Ok mode /\ (mode = None \/ mode = Some m)).
  { destruct pos_seen0 as [Hs Hb]. destruct prev as [p|]; cbn in *.
    - exists (Some m). split; [by eapply reader_step_ok|by right].
    - exists (step_mode r). unfold reader_step. rewrite Hs. done. }
  destruct Hs as (mode & Hs & Hm). exists mode. split; [done|].
  constructor; cbn; try done; [lia|].
  rewrite Z2Nat.inj_add, <- drop_drop, Hd by lia. apply drop_app_length'. unfold item_len, len. lia.
Qed.

(** The next segment is loaded. *)
Lemma positioned_load r prev s ss :
  identity_ok i -> positioned r prev [] [] (s :: ss) ->
  exists r', load_next_segment r = Ok (true, r') /\ start_lsn r' = start_lsn r /\
    positioned r' prev (seg_items s) (seg_tail s) ss.
Proof.
  intros Hid []. cbn [app] in *. apply Forall_cons in pos_readable0 as [(Hg & Hc & Ht & Hl) Hss].
  unfold load_next_segment, read_segment_bytes_bounded. rewrite pos_segments0, pos_dir0, pos_cap0. cbn [map].
  rewrite Hg. destruct (Z.ltb_spec cap (len (segment_bytes m i s))); [lia|].
  unfold parse_header, segment_bytes at 1. rewrite header_roundtrip by done. cbn [default].
  eexists. split; [done|]. split; [done|]. constructor; reader_cbn; try done.
  - unfold segment_bytes. rewrite len_app, header_len. unfold SEGMENT_HEADER_SIZE. pose proof (len_nonneg (bytes_of (seg_items s) ++ seg_tail s)). lia.
  - intros Htl. by rewrite Hl.
Qed.

(** Calls of [load_next_segment] and entries left. *)
Definition left (cur : list Item) (ss : list Segment) : nat := length cur + length ss + length (items_of ss).

Lemma items_of_cons s ss : items_of (s :: ss) = seg_items s ++ items_of ss.
Proof. done. Qed.

(** At the end of a segment the reader goes on to the next. *)
Lemma positioned_end fuel r prev tail ss :
  positioned r prev [] tail ss ->
  exists r1, start_lsn r1 = start_lsn r /\ positioned r1 prev [] [] ss /\
    next_entry_with_len (S fuel) r =
      match load_next_segment r1 with
      | Err e => Err e
      | Ok (false, r) => Ok (None, r)
      | Ok (true, r) => next_entry_with_len fuel r
      end.
Proof.
  intros Hp. pose proof Hp as []. cbn [app bytes_of map concat] in *.
  pose proof (len_drop _ _ pos_offset0) as Hl. rewrite pos_data0 in Hl.
  destruct (decide (tail = [])) as [->|Ht].
  - exists r. split; [done|]. split; [done|]. change (len []) with 0 in Hl. cbn [next_entry_with_len].
    destruct (Z.ltb_spec (offset r) (len (current_data r))); [lia|done].
  - exists (reader_at r (len (current_data r))). pose proof (len_nonneg (current_data r)).
    destruct pos_tail0 as [|Hd]; [done|]. cbn [next_entry_with_len].
    assert (0 < len tail) by (destruct tail; [done|apply len_cons_pos]).
    destruct (Z.ltb_spec (offset r) (len (current_data r))); [|lia].
    rewrite pos_data0, Hd, (pos_current0 Ht). unfold current_segment_is_last.
    rewrite (pos_current0 Ht), pos_last0, Z.eqb_refl. split; [done|]. split; [|done].
    constructor; unfold reader_at; reader_cbn; try done; [|by left].
    apply drop_ge. unfold len. lia.
Qed.

(** [next_entry_with_len] finds the first entry from [start_lsn] on. *)
Lemma next_entry_ok fuel r prev cur tail ss :
  identity_ok i -> positioned r prev cur tail ss -> (left cur ss < fuel)%nat ->
  match pick (start_lsn r) (cur ++ items_of ss) with
  | None => exists r', next_entry_with_len fuel r = Ok (None, r')
  | Some (x, rest) =>
      exists r' cur' tail' ss', next_entry_with_len fuel r = Ok (Some (fst x, item_len x), r') /\
        start_lsn r' = start_lsn r /\ rest = cur' ++ items_of ss' /\ positioned r' (Some x) cur' tail' ss' /\
        (left cur' ss' <= left cur ss)%nat
  end.
Proof.
  intros Hid. revert r prev cur tail ss. induction fuel as [|fuel IH]; intros r prev cur tail ss Hp Hf; [lia|].
  destruct cur as [|x cur].
  - destruct (positioned_end fuel r prev tail ss Hp) as (r1 & Hs & Hp1 & ->). rewrite <- Hs. cbn [app].
    destruct ss as [|s ss].
    + pose proof (pos_segments _ _ _ _ _ Hp1) as Hn. cbn in *. unfold load_next_segment. rewrite Hn. eauto.
    + destruct (positioned_load r1 prev s ss Hid Hp1) as (r2 & -> & Hs2 & Hp2). rewrite items_of_cons, <- Hs2.
      assert (Hle : (left (seg_items s) ss < left [] (s :: ss))%nat).
      { unfold left. rewrite items_of_cons, length_app. cbn. lia. }
      pose proof (IH _ _ _ _ _ Hp2 ltac:(lia)) as Hn. destruct (pick _ _) as [[x rest]|]; [|done].
      destruct Hn as (r' & cur' & tail' & ss' & ? & ? & ? & ? & ?). exists r', cur', tail', ss'. auto with lia.
  - destruct (positioned_read _ _ _ _ _ _ Hp) as (Hlt & Hdec & mode & Hst & Hp').
    cbn [next_entry_with_len app pick]. rewrite Hlt, Hdec, Hst. change (start_lsn (reader_seen _ _ _ _)) with (start_lsn r).
    change (lsn (fst x)) with (item_lsn x). destruct (Z.leb_spec (start_lsn r) (item_lsn x)).
    + eexists _, cur, tail, ss. split; [done|]. split; [done|]. split; [done|]. split; [exact Hp'|].
      unfold left. cbn. lia.
    + pose proof (IH _ _ _ _ _ Hp' ltac:(unfold left in *; cbn in Hf; lia)) as Hn.
      change (start_lsn (reader_seen _ _ _ _)) with (start_lsn r) in Hn.
      destruct (pick _ _) as [[y rest]|]; [|done].
      destruct Hn as (r' & cur' & tail' & ss' & ? & ? & ? & ? & ?). exists r', cur', tail', ss'.
      unfold left in *. cbn. auto with lia.
Qed.

Lemma pick_from start xs :
  from_lsn start xs = match pick start xs with None => [] | Some (x, rest) => fst x :: from_lsn start rest end.
Proof.
  unfold from_lsn. induction xs as [|x xs IH]; [done|]. cbn [pick]. rewrite filter_cons.
  destruct (Z.leb_spec start (item_lsn x)); case_decide; try lia; [done|exact IH].
Qed.

Lemma pick_shorter start xs x rest : pick start xs = Some (x, rest) -> (length rest < length xs)%nat.
Proof.
  induction xs as [|y xs IH]; [done|]. cbn. case_match; intros E; simplify_eq; [lia|]. apply IH in E. lia.
Qed.

Lemma collect_ok fuel budget r prev cur tail ss :
  identity_ok i -> positioned r prev cur tail ss -> (left cur ss < fuel)%nat ->
  (length (cur ++ items_of ss) < budget)%nat ->
  collect_loop fuel budget r = Ok (from_lsn (start_lsn r) (cur ++ items_of ss)).
Proof.
  intros Hid. revert r prev cur tail ss. induction budget as [|budget IH]; intros r prev cur tail ss Hp Hf Hb; [lia|].
  pose proof (next_entry_ok fuel r prev cur tail ss Hid Hp Hf) as Hn. cbn [collect_loop]. rewrite pick_from.
  destruct (pick _ _) as [[x rest]|] eqn:Hpick.
  - destruct Hn as (r' & cur' & tail' & ss' & -> & Hs & -> & Hp' & Hle). rewrite (IH _ _ _ _ _ Hp').
    + by rewrite Hs.
    + lia.
    + apply pick_shorter in Hpick. lia.
  - by destruct Hn as [r' ->].
Qed.

End Reading.

(** ** Directories *)

Definition ascending (d : Dir) : Prop := StronglySorted Z.lt (map fst d).

Lemma dir_get_in d id b : ascending d -> (id, b) ∈ d -> dir_get d id = Some b.
Proof.
  unfold ascending, dir_get. induction d as [|[j c] d IH]; intros Hs Hin; [by apply elem_of_nil in Hin|].
  cbn [map fst] in Hs. apply StronglySorted_inv in Hs as [Hs Hj]. cbn [find fst].
  apply elem_of_cons in Hin as [E|Hin]; [simplify_eq; by rewrite Z.eqb_refl|].
  destruct (Z.eqb_spec j id) as [->|]; [|by apply IH].
  assert (Hid : id ∈ map fst d) by (apply list_elem_of_fmap; by exists (id, b)).
  rewrite Forall_forall in Hj. specialize (Hj _ Hid). lia.
Qed.

Lemma files_ids m i ss : map fst (files m i ss) = map seg_id ss.
Proof. unfold files. rewrite map_map. done. Qed.

Lemma bytes_of_length xs : Forall item_ok xs -> (length xs <= length (bytes_of xs))%nat.
Proof.
  induction 1 as [|x xs Hx Hxs IH]; [cbn; lia|]. rewrite bytes_of_cons, length_app. cbn [length].
  pose proof (item_size x Hx) as Hl. unfold item_len, len in Hl. lia.
Qed.

Lemma fuel_enough m i ss :
  Forall item_ok (items_of ss) -> (left [] ss < reader_fuel (files m i ss))%nat.
Proof.
  intros Hok. unfold left, reader_fuel, files. rewrite length_map. cbn [length].
  enough (length (items_of ss) <= list_sum (map (fun f => length (snd f)) (map (fun s => (seg_id s, segment_bytes m i s)) ss)))%nat by lia.
  induction ss as [|s ss IH]; [cbn; lia|]. rewrite items_of_cons in *. apply Forall_app in Hok as [Hs Hss].
  rewrite length_app. cbn [map list_sum fold_right snd]. specialize (IH Hss). unfold list_sum in *.
  pose proof (bytes_of_length _ Hs). unfold segment_bytes at 1. rewrite !length_app. lia.
Qed.

(** A directory of well-formed segments, of which only the last may have a tail, reads as
    its entries. *)
Record log_files (m : LsnMode) (ss : list Segment) : Prop := {
  lf_ids : StronglySorted Z.lt (map seg_id ss);
  lf_tails : Forall (fun s => tail_ok (seg_tail s)) ss;
  lf_last : Forall (fun s => seg_tail s <> [] -> last (map seg_id ss) = Some (seg_id s)) ss;
  lf_items : Forall item_ok (items_of ss);
  lf_chain : chained m None (items_of ss)
}.

Lemma collect_files m i ss start cap :
  identity_ok i -> log_files m ss -> Forall (fun s => len (segment_bytes m i s) <= cap) ss ->
  collect_all (files m i ss) start cap = Ok (from_lsn start (items_of ss)).
Proof.
  intros Hid [] Hcap. unfold collect_all, open_reader, list_segments. rewrite files_ids.
  destruct (last (map seg_id ss)) as [l|] eqn:Hl.
  - pose proof (fuel_enough m i ss lf_items0) as Hf.
    rewrite (collect_ok m i (files m i ss) l cap _ _ _ None [] [] ss Hid);
      [done| |done|unfold left in Hf; cbn in *; lia].
    constructor; reader_cbn; try done; [by left| |by left].
    rewrite Forall_forall in Hcap, lf_tails0, lf_last0 |- *. intros s Hs. split_and!; auto.
    + apply dir_get_in; [unfold ascending; by rewrite files_ids|]. apply list_elem_of_fmap. by exists s.
    + intros Ht. specialize (lf_last0 s Hs Ht). congruence.
  - apply last_None in Hl. destruct ss; [done|done].
Qed.

End Items.

(** ** The writer's files *)

Lemma dir_put_put d id a b : dir_put (dir_put d id a) id b = dir_put d id b.
Proof.
  induction d as [|[j c] d IH]; cbn; [by rewrite Z.eqb_refl|].
  destruct (Z.eqb_spec j id) as [->|]; cbn; [by rewrite Z.eqb_refl|].
  destruct (Z.ltb_spec id j); cbn; [by rewrite Z.eqb_refl|].
  destruct (Z.eqb_spec j id); [lia|]. destruct (Z.ltb_spec id j); [lia|]. by rewrite IH.
Qed.

Lemma dir_get_put d id b : dir_get (dir_put d id b) id = Some b.
Proof.
  unfold dir_get. induction d as [|[j c] d IH]; cbn; [by rewrite Z.eqb_refl|].
  destruct (Z.eqb_spec j id) as [->|]; cbn; [by rewrite Z.eqb_refl|].
  destruct (Z.ltb_spec id j); cbn; [by rewrite Z.eqb_refl|].
  destruct (Z.eqb_spec j id); [lia|]. done.
Qed.

Definition below (d : Dir) (id : Z) : Prop := Forall (fun j => j < id) (map fst d).

Lemma dir_get_new d id : below d id -> dir_get d id = None.
Proof.
  unfold below, dir_get. induction d as [|[j c] d IH]; [done|]. cbn. intros [Hj Hd]%Forall_cons.
  destruct (Z.eqb_spec j id); [lia|]. by apply IH.
Qed.

Lemma dir_put_new d id b : below d id -> dir_put d id b = d ++ [(id, b)].
Proof.
  unfold below. induction d as [|[j c] d IH]; [done|]. cbn. intros [Hj Hd]%Forall_cons.
  destruct (Z.eqb_spec j id); [lia|]. destruct (Z.ltb_spec id j); [lia|]. by rewrite IH.
Qed.

Lemma dir_put_last d id a b : below d id -> dir_put (d ++ [(id, a)]) id b = d ++ [(id, b)].
Proof. intros Hd. by rewrite <- !dir_put_new, dir_put_put by done. Qed.

Lemma dir_get_last d id b : below d id -> dir_get (d ++ [(id, b)]) id = Some b.
Proof. intros Hd. by rewrite <- dir_put_new, dir_get_put by done. Qed.

Ltac writer_cbn :=
  cbn [config dir recycled current_segment buffer current_size next_lsn last_lsn last_entry_bytes lsn_step_mode
       set_file set_buffer set_size set_lsns].

Lemma set_file_file w a b : set_file (set_file w a) b = set_file w b.
Proof. unfold set_file. writer_cbn. by rewrite dir_put_put. Qed.

Lemma current_set_file w a : current_bytes (set_file w a) = a.
Proof. unfold current_bytes, set_file. writer_cbn. by rewrite dir_get_put. Qed.

Lemma flush_eq w : flush w = set_buffer (set_file w (current_bytes w ++ buffer w)) [].
Proof. done. Qed.

Lemma flush_bytes w : current_bytes (flush w) = current_bytes w ++ buffer w.
Proof. apply current_set_file. Qed.

(** Buffered or not, a write that succeeds extends the file by its bytes. *)
Lemma flush_push w bs : flush (buf_push w bs) = set_file (flush w) (current_bytes (flush w) ++ bs).
Proof.
  rewrite flush_bytes, !flush_eq. unfold buf_push, set_buffer, set_file, current_bytes. writer_cbn.
  by rewrite dir_put_put, app_assoc.
Qed.

Lemma flush_flush w : flush (flush w) = flush w.
Proof.
  rewrite (flush_eq (flush w)), flush_bytes, flush_eq. unfold set_buffer, set_file, current_bytes. writer_cbn.
  by rewrite dir_put_put, app_nil_r.
Qed.

Lemma write_all_ok w bs :
  exists w', write_all None w bs = (true, None, w') /\ flush w' = set_file (flush w) (current_bytes (flush w) ++ bs).
Proof.
  unfold write_all. destruct (_ <? _); [eexists; split; [done|]; apply flush_push|].
  assert (Hd : exists w1, (if BUF_CAPACITY - len (buffer w) <? len bs then flush_buf None w else (true, None, w))
                 = (true, None, w1) /\ flush w1 = flush w /\ (BUF_CAPACITY <=? len bs = true -> buffer w1 = [])).
  { destruct (Z.ltb_spec (BUF_CAPACITY - len (buffer w)) (len bs)).
    - exists (flush w). split; [done|]. split; [apply flush_flush|done].
    - exists w. split; [done|]. split; [done|]. intros Hc%Z.leb_le. pose proof (len_nonneg (buffer w)).
      destruct (buffer w) as [|x l] eqn:E; [done|]. pose proof (len_cons_pos x l). lia. }
  destruct Hd as (w1 & -> & Hf & Hb). cbn [negb]. rewrite <- Hf.
  destruct (Z.leb_spec BUF_CAPACITY (len bs)) as [Hc|Hc]; [|eexists; split; [done|]; apply flush_push].
  specialize (Hb eq_refl). eexists. split; [done|].
  rewrite flush_bytes, !flush_eq, current_set_file. unfold set_buffer, set_file, current_bytes. writer_cbn.
  by rewrite Hb, !dir_put_put, !app_nil_r.
Qed.

(** ** The invariant of the writer *)

Section Writing.
Context `{ExternalLaws} `{CompressionLaws}.

Definition mode_of (w : WalWriter) : LsnMode := lsn_step_mode w.
Definition identity_of (w : WalWriter) : SegmentClusterIdentity := identity (config w).

(** The segments of a writer: the closed ones, and the current one with its entries. *)
Definition segments_of (w : WalWriter) (closed : list Segment) (its : list Item) : list Segment :=
  closed ++ [mkSegment (current_segment w) its []].

(** What the writer remembers of the last entry. *)
Definition lsns_ok (w : WalWriter) (xs : list Item) : Prop :=
  match last xs with
  | None => last_lsn w = None /\ next_lsn w = 1
  | Some x => last_lsn w = Some (item_lsn x) /\ next_lsn w = item_lsn x + step (mode_of w) (item_len x)
  end.

Record log_inv (w : WalWriter) (closed : list Segment) (its : list Item) : Prop := {
  li_dir : dir (flush w) = files (mode_of w) (identity_of w) (segments_of w closed its);
  li_log : log_files (mode_of w) (segments_of w closed its);
  li_tails : Forall (fun s => seg_tail s = []) closed;
  li_size : current_size w = 22 + len (bytes_of its);
  li_lsns : lsns_ok w (items_of closed ++ its);
  li_identity : identity_ok (identity_of w)
}.

(** The entries of the log that a writer has written. *)
Definition logs (w : WalWriter) (xs : list Item) : Prop :=
  exists closed its, log_inv w closed its /\ xs = items_of closed ++ its.

Lemma items_of_app ss ts : items_of (ss ++ ts) = items_of ss ++ items_of ts.
Proof. unfold items_of. by rewrite map_app, concat_app. Qed.

Lemma segments_items w closed its : items_of (segments_of w closed its) = items_of closed ++ its.
Proof. unfold segments_of. rewrite items_of_app. cbn. by rewrite app_nil_r. Qed.

Lemma files_app m i ss ts : files m i (ss ++ ts) = files m i ss ++ files m i ts.
Proof. apply map_app. Qed.

Lemma files_snoc m i ss s : files m i (ss ++ [s]) = files m i ss ++ [(seg_id s, segment_bytes m i s)].
Proof. apply files_app. Qed.

Lemma sorted_below m i (ss : list Segment) s :
  StronglySorted Z.lt (map seg_id (ss ++ [s])) -> below (files m i ss) (seg_id s).
Proof.
  unfold below. rewrite files_ids. induction ss as [|t ss IH]; [constructor|]. cbn [app map].
  intros [Hs Ht]%StronglySorted_inv. constructor; [|by apply IH].
  rewrite Forall_forall in Ht. apply Ht. rewrite map_app. set_solver.
Qed.

Lemma segment_len m i s : len (segment_bytes m i s) = 22 + len (bytes_of (seg_items s)) + len (seg_tail s).
Proof. unfold segment_bytes. rewrite !len_app, header_len. lia. Qed.

Lemma sorted_snoc (l : list Z) x :
  StronglySorted Z.lt l -> Forall (fun y => y < x) l -> StronglySorted Z.lt (l ++ [x]).
Proof. apply StronglySorted_snoc. Qed.

(** A closed segment and a new one. *)
Lemma log_files_new m closed its id id' :
  log_files m (closed ++ [mkSegment id its []]) -> Forall (fun s => seg_tail s = []) closed -> id < id' ->
  log_files m ((closed ++ [mkSegment id its []]) ++ [mkSegment id' [] []]).
Proof.
  intros [] Ht Hid.
  assert (Hi : items_of ((closed ++ [mkSegment id its []]) ++ [mkSegment id' [] []]) = items_of (closed ++ [mkSegment id its []])).
  { rewrite (items_of_app (closed ++ _)). cbn. by rewrite app_nil_r. }
  constructor; rewrite ?Hi; try done.
  - rewrite map_app. cbn. apply sorted_snoc; [done|]. rewrite map_app in *. cbn in *.
    apply Forall_app. split; [|by constructor]. pose proof (sorted_below m (mkIdentity None None) closed (mkSegment id its [])) as Hb.
    unfold below in Hb. rewrite files_ids, map_app in Hb. specialize (Hb lf_ids0). eapply Forall_impl; [exact Hb|]. cbn. lia.
  - apply Forall_app. split; [done|]. constructor; [by left|done].
  - rewrite !Forall_app. split_and!; [|by constructor|by constructor].
    eapply Forall_impl; [exact Ht|]. cbn. intros s -> Hn. done.
Qed.

Lemma chained_app m prev xs ys :
  chained m prev (xs ++ ys) <-> chained m prev xs /\ chained m (match last xs with Some x => Some x | None => prev end) ys.
Proof.
  revert prev. induction xs as [|x xs IH]; intros prev; cbn [app chained]; [cbn; tauto|]. rewrite IH.
  rewrite last_cons. destruct (last xs); tauto.
Qed.

(** An entry more in the current segment. *)
Lemma log_files_push m closed its id x :
  log_files m (closed ++ [mkSegment id its []]) -> item_ok x ->
  match last (items_of closed ++ its) with Some p => follows m p x | None => True end ->
  log_files m (closed ++ [mkSegment id (its ++ [x]) []]).
Proof.
  intros [] Hx Hf. rewrite map_app, items_of_app in *. cbn [map seg_id items_of seg_items concat] in *.
  rewrite app_nil_r in *. unfold items_of in *.
  assert (Hi : concat (map seg_items (closed ++ [mkSegment id (its ++ [x]) []])) = (concat (map seg_items closed) ++ its) ++ [x]).
  { rewrite map_app, concat_app. cbn. by rewrite app_nil_r, app_assoc. }
  constructor; unfold items_of; rewrite ?Hi.
  - by rewrite map_app.
  - rewrite Forall_app in *. split; [by apply lf_tails0|]. constructor; [by left|done].
  - rewrite map_app. cbn. rewrite Forall_app in *. split; [by apply lf_last0|]. by constructor.
  - apply Forall_app. split; [done|by constructor].
  - apply chained_app. split; [done|]. cbn. split; [|done].
    change (match last (concat (map seg_items closed) ++ its) with Some p => follows m p x | None => True end) in Hf.
    by destruct (last (concat (map seg_items closed) ++ its)).
Qed.

Lemma log_inv_fields w w' closed its :
  flush w' = flush w -> log_inv w closed its -> log_inv w' closed its.
Proof.
  intros Hf [].
  assert (Hm : mode_of w' = mode_of w) by exact (f_equal lsn_step_mode Hf).
  assert (Hc : config w' = config w) by exact (f_equal config Hf).
  assert (Hs : current_segment w' = current_segment w) by exact (f_equal current_segment Hf).
  assert (Hn : current_size w' = current_size w) by exact (f_equal current_size Hf).
  assert (Hl : last_lsn w' = last_lsn w) by exact (f_equal last_lsn Hf).
  assert (Hx : next_lsn w' = next_lsn w) by exact (f_equal next_lsn Hf).
  constructor; unfold identity_of, segments_of, lsns_ok in *; rewrite ?Hf, ?Hm, ?Hc, ?Hs, ?Hn, ?Hl, ?Hx; done.
Qed.

Lemma bytes_of_snoc xs x : bytes_of (xs ++ [x]) = bytes_of xs ++ snd x.
Proof. unfold bytes_of. rewrite map_app, concat_app. cbn. by rewrite app_nil_r. Qed.

(** The bytes of an entry reach the current segment. *)
Lemma log_inv_push w w' closed its x bytes :
  log_inv w closed its -> flush w' = set_file (flush w) (current_bytes (flush w) ++ snd x) -> item_ok x ->
  match last (items_of closed ++ its) with Some p => follows (mode_of w) p x | None => True end ->
  log_inv (set_lsns (set_size w' (current_size w + item_len x)) (Some (item_lsn x)) bytes
             (item_lsn x + step (mode_of w) (item_len x))) closed (its ++ [x]).
Proof.
  intros [] Hf Hx Hfol.
  assert (Hm : mode_of w' = mode_of w) by exact (f_equal lsn_step_mode Hf).
  assert (Hc : config w' = config w) by exact (f_equal config Hf).
  assert (Hs : current_segment w' = current_segment w) by exact (f_equal current_segment Hf).
  pose proof (f_equal dir Hf) as Hd. unfold segments_of in *.
  pose proof (sorted_below (mode_of w) (identity_of w) closed _ (lf_ids _ _ li_log0)) as Hb. cbn [seg_id] in Hb.
  assert (Hbytes : current_bytes (flush w) = segment_bytes (mode_of w) (identity_of w) (mkSegment (current_segment w) its [])).
  { unfold current_bytes. change (current_segment (flush w)) with (current_segment w).
    rewrite li_dir0, files_snoc. cbn [seg_id]. by rewrite dir_get_last. }
  constructor; unfold segments_of, identity_of, lsns_ok, mode_of in *; writer_cbn.
  - change (dir (flush (set_lsns _ _ _ _))) with (dir (flush w')). rewrite Hd, Hm, Hc, Hs. unfold set_file. writer_cbn.
    rewrite li_dir0, Hbytes, !files_snoc. change (current_segment (flush w)) with (current_segment w).
    cbn [seg_id]. rewrite dir_put_last by done. do 3 f_equal.
    unfold segment_bytes. cbn [seg_items seg_tail]. by rewrite !app_nil_r, bytes_of_snoc, app_assoc.
  - rewrite Hm, Hs. by apply log_files_push.
  - done.
  - rewrite bytes_of_snoc, len_app, li_size0. unfold item_len. lia.
  - rewrite app_assoc, last_snoc. by rewrite Hm.
  - by rewrite Hc.
Qed.

(** ** Rotation *)

(** The directory and the writer after a rotation in which every write succeeds. *)
Definition next_dir (w : WalWriter) (id : Z) : Dir :=
  match recycled w, dir_get (dir w) id with
  | [], Some (_ :: _) => dir w
  | _, _ => dir_put (dir w) id (segment_header_bytes (lsn_step_mode w) (identity (config w)))
  end.

Definition next_writer (w : WalWriter) (id : Z) : WalWriter :=
  let w' := enter_segment w (next_dir w id) (tail (recycled w)) id in set_size w' (len (current_bytes w')).

Lemma rotate_none w :
  rotate None w =
    match checked_next (current_segment w) with
    | None => (Err Internal, None, flush w)
    | Some id => (Ok tt, None, next_writer (flush w) id)
    end.
Proof.
  unfold rotate. change (flush_durable None w) with (true, @None nat, flush w). cbn [negb].
  change (current_segment (flush w)) with (current_segment w). destruct (checked_next _) as [id|]; [|done].
  unfold next_writer, next_dir, open_next_segment, open_segment_for_append, accept.
  destruct (recycled (flush w)); [|done]. by destruct (dir_get _ _) as [[]|].
Qed.

Lemma rotate_room w : snd (fst (rotate None w)) = None.
Proof. rewrite rotate_none. by destruct (checked_next _). Qed.

Lemma rotate_inv w closed its :
  log_inv w closed its ->
  match rotate None w with
  | (Err _, room, w') => room = None /\ log_inv w' closed its
  | (Ok _, room, w') => room = None /\ log_inv w' (segments_of w closed its) [] /\ mode_of w' = mode_of w /\ config w' = config w /\
                  last_lsn w' = last_lsn w /\ next_lsn w' = next_lsn w /\ current_size w' = 22
  end.
Proof.
  intros Hi. pose proof Hi as []. rewrite rotate_none. unfold checked_next, checked_add.
  destruct (Z.leb_spec (current_segment w + 1) u64_max); [|split; [done|]; by apply (log_inv_fields w); [apply flush_flush|]].
  pose proof (log_files_new _ closed its (current_segment w) (current_segment w + 1) li_log0 li_tails0 ltac:(lia)) as Hnew.
  pose proof (sorted_below (mode_of w) (identity_of w) (segments_of w closed its) _ (lf_ids _ _ Hnew)) as Hb. cbn [seg_id] in Hb.
  assert (Hd : next_dir (flush w) (current_segment w + 1) =
    files (mode_of w) (identity_of w) (segments_of w closed its) ++
      [(current_segment w + 1, segment_header_bytes (mode_of w) (identity_of w))]).
  { unfold next_dir. change (recycled (flush w)) with (recycled w). rewrite li_dir0, dir_get_new, dir_put_new by done.
    by destruct (recycled w). }
  unfold next_writer. rewrite Hd. unfold enter_segment. writer_cbn.
  assert (Hcur : forall a b c d e f, current_bytes (mkWalWriter a (files (mode_of w) (identity_of w) (segments_of w closed its) ++
        [(current_segment w + 1, segment_header_bytes (mode_of w) (identity_of w))]) b (current_segment w + 1)
      [] c d e f (lsn_step_mode w)) = segment_header_bytes (mode_of w) (identity_of w)).
  { intros. unfold current_bytes. writer_cbn. by rewrite dir_get_last. }
  split; [done|]. rewrite Hcur, header_len. split; [|done].
  set (ss := segments_of w closed its) in *.
  constructor; unfold lsns_ok, segments_of; writer_cbn; unfold mode_of, identity_of in *; writer_cbn.
  - rewrite flush_eq. unfold set_buffer, set_file. writer_cbn. unfold set_size. rewrite Hcur. writer_cbn.
    rewrite files_snoc, app_nil_r. by rewrite dir_put_last.
  - exact Hnew.
  - apply Forall_app. split; [done|by constructor].
  - done.
  - unfold ss. rewrite segments_items, app_nil_r. done.
  - done.
Qed.

(** ** Appending *)

(** A record that the log can hold: within the types and limits of the codec. *)
Definition loggable (c : WalCompression) (r : WalRecord) : Prop :=
  record_ok json_stable r /\ replayable r c = true.

Lemma prepared_encode l prev db r c p :
  prepare_record_with_compression r c = Ok p ->
  encode_prepared_entry l prev db p = encode_entry_with_compression (mkEntry l prev db r) c.
Proof. intros Hp. unfold encode_entry_with_compression. cbn [record]. by rewrite Hp. Qed.

Lemma encode_long e c bs : encode_entry_with_compression e c = Ok bs -> len bs <= 2 ^ 32 + 3.
Proof.
  intros (q & Hq & ->)%encode_inv. rewrite frame_len, len_app, len_le_bytes. unfold u32_max in Hq. lia.
Qed.

(** The bytes of an appended record are an entry of the log. *)
Lemma encoded_item e c bs :
  entry_ok json_stable e -> replayable (record e) c = true -> encode_entry_with_compression e c = Ok bs ->
  0 < lsn e -> lsn e + len bs <= u64_max -> item_ok (e, bs).
Proof.
  intros He Hr Hen Hl Hb. constructor; unfold item_lsn, item_len; cbn [fst snd].
  - intros rest. destruct (entry_decodes e c rest He Hr) as (bs' & Hen' & Hd). rewrite Hen in Hen'.
    injection Hen' as <-. unfold decode. by rewrite Hd.
  - intros k Hk. destruct (encode_inv e c bs Hen) as (q & Hq & ->). unfold decode. rewrite decode_torn; [done| |done].
    rewrite len_app, len_le_bytes. pose proof (len_nonneg q). lia.
  - destruct (entry_decodes e c [] He Hr) as (bs' & Hen' & Hd). rewrite Hen in Hen'. injection Hen' as <-.
    rewrite app_nil_r in Hd. pose proof (decode_safe bs (encode_bytes e c bs He Hen)) as Hs. rewrite Hd in Hs.
    cbn in Hs. pose proof (encode_long e c bs Hen). lia.
  - by eapply encode_bytes.
  - done.
Qed.

Definition prev_of (w : WalWriter) : Z := lsn_or_zero (last_lsn w).

Lemma log_items w closed its : log_inv w closed its -> Forall item_ok (items_of closed ++ its).
Proof. intros []. rewrite <- (segments_items w). apply (lf_items _ _ li_log0). Qed.

Lemma next_positive w closed its : log_inv w closed its -> 0 < next_lsn w.
Proof.
  intros Hi. pose proof (log_items _ _ _ Hi) as Hok. pose proof (li_lsns _ _ _ Hi) as Hl. unfold lsns_ok in Hl.
  destruct (last _) as [x|] eqn:E; [|destruct Hl; lia]. apply last_Some_elem_of in E.
  rewrite Forall_forall in Hok. pose proof (Hok x E) as Hx. destruct (item_range x Hx), Hl as [_ ->].
  pose proof (item_size x Hx). destruct (mode_of w); cbn; lia.
Qed.

(** The entry of the next record follows the last one. *)
Lemma next_item w closed its r bs :
  log_inv w closed its -> loggable (wal_compression (config w)) r ->
  encode_entry_with_compression (mkEntry (next_lsn w) (prev_of w) LEGACY_DATABASE_ID r) (wal_compression (config w)) = Ok bs ->
  next_lsn w + len bs <= u64_max ->
  let x := (mkEntry (next_lsn w) (prev_of w) LEGACY_DATABASE_ID r, bs) in
  item_ok x /\ match last (items_of closed ++ its) with Some p => follows (mode_of w) p x | None => True end.
Proof.
  intros Hi [Hr Hre] Hen Hb x. pose proof (next_positive _ _ _ Hi) as Hn. pose proof (len_nonneg bs) as Hbs.
  pose proof (log_items _ _ _ Hi) as Hok. pose proof (li_lsns _ _ _ Hi) as Hl. unfold lsns_ok in Hl.
  assert (Hprev : in_unsigned 64 (prev_of w)).
  { unfold prev_of. destruct (last _) as [y|] eqn:E; destruct Hl as [-> _]; [|done]. cbn.
    apply last_Some_elem_of in E. rewrite Forall_forall in Hok. destruct (item_range y (Hok y E)).
    pose proof (item_size y (Hok y E)). unfold in_unsigned, u64_max in *. lia. }
  split.
  - eapply encoded_item; [|exact Hre|exact Hen|done|done]. unfold entry_ok. cbn [lsn prev_lsn database_id record].
    split_and!; [|done|done|done]. unfold in_unsigned, u64_max in *. lia.
  - destruct (last _) as [y|] eqn:E; [|done]. destruct Hl as [Hl Hnx]. unfold x, follows, item_lsn. cbn [fst lsn prev_lsn].
    split; [exact Hnx|]. unfold prev_of. by rewrite Hl.
Qed.

(** The end of [append_prepared]: the write, and the bookkeeping. *)
Lemma write_logs w closed its x next :
  log_inv w closed its -> item_ok x ->
  match last (items_of closed ++ its) with Some p => follows (mode_of w) p x | None => True end ->
  next = item_lsn x + step (mode_of w) (item_len x) -> current_size w + item_len x <= u64_max ->
  match write_all None w (snd x) with
  | (false, _, _) => False
  | (true, _, w1) =>
      match checked_add u64_max (current_size w1) (len (snd x)) with
      | None => False
      | Some size => logs (set_lsns (set_size w1 size) (Some (item_lsn x)) (Some (item_len x)) next) ((items_of closed ++ its) ++ [x])
      end
  end.
Proof.
  intros Hi Hx Hf -> Hs. destruct (write_all_ok w (snd x)) as (w1 & -> & Hfl).
  assert (Hn : current_size w1 = current_size w) by exact (f_equal current_size Hfl).
  unfold checked_add. rewrite Hn. change (len (snd x)) with (item_len x).
  destruct (Z.leb_spec (current_size w + item_len x) u64_max); [|lia].
  exists closed, (its ++ [x]). split; [by apply log_inv_push|by rewrite app_assoc].
Qed.

(** [append_prepared] adds the record to the log, or leaves the log as it is. *)
Lemma append_prepared_logs w xs r p :
  logs w xs -> loggable (wal_compression (config w)) r ->
  prepare_record_with_compression r (wal_compression (config w)) = Ok p ->
  next_lsn w + 2 ^ 33 <= u64_max ->
  match append_prepared None w p with
  | (Err _, w') => logs w' xs
  | (Ok l, w') => l = next_lsn w /\ exists bs, logs w' (xs ++ [(mkEntry l (prev_of w) LEGACY_DATABASE_ID r, bs)])
  end.
Proof.
  intros (closed & its & Hi & ->) Hlog Hp Hb. unfold append_prepared. fold (prev_of w).
  rewrite (prepared_encode _ _ _ r _ _ Hp).
  destruct (encode_entry_with_compression _ _) as [bs|] eqn:Hen; [|by exists closed, its].
  pose proof (encode_long _ _ _ Hen) as Hlen. pose proof (next_positive _ _ _ Hi).
  destruct (next_item w closed its r bs Hi Hlog Hen ltac:(lia)) as [Hx Hf].
  set (x := (mkEntry (next_lsn w) (prev_of w) LEGACY_DATABASE_ID r, bs)) in *.
  destruct (next_lsn_from w (next_lsn w) (len bs)) as [next|] eqn:Hnext; [|by exists closed, its].
  destruct (checked_add _ _ _) as [projected|] eqn:Hproj; [|by exists closed, its].
  assert (Hn : next = item_lsn x + step (mode_of w) (item_len x)).
  { unfold next_lsn_from, checked_advance, checked_add in Hnext. unfold mode_of, step, item_lsn, item_len, x. cbn [fst snd lsn].
    destruct (lsn_step_mode w); case_all; done. }
  unfold checked_add in Hproj. destruct (Z.leb_spec (current_size w + len bs) u64_max) as [Hsz|]; [|done]. clear Hproj. subst next.
  destruct (_ && _).
  - pose proof (rotate_inv w closed its Hi) as Hr. destruct (rotate None w) as [[[|] room] w1]; [|by exists closed, its; destruct Hr].
    destruct Hr as (-> & Hi1 & Hm & Hc & Hl & Hnx & Hs).
    pose proof (write_logs w1 (segments_of w closed its) [] x (item_lsn x + step (mode_of w) (item_len x)) Hi1 Hx) as Hw.
    rewrite segments_items, app_nil_r, Hm, Hs in Hw. specialize (Hw Hf eq_refl ltac:(unfold item_len, x, u64_max; cbn [snd]; lia)).
    destruct (write_all None w1 (snd x)) as [[[] room] w2] eqn:Hwr; [|done]. change bs with (snd x). rewrite Hwr. cbn [negb].
    destruct (checked_add _ _ _) as [size|]; [|done]. split; [done|]. by exists bs.
  - pose proof (write_logs w closed its x _ Hi Hx Hf eq_refl ltac:(done)) as Hw.
    destruct (write_all None w (snd x)) as [[[] room] w2] eqn:Hwr; [|done]. change bs with (snd x). rewrite Hwr. cbn [negb].
    destruct (checked_add _ _ _) as [size|]; [|done]. split; [done|]. by exists bs.
Qed.

(** Configuration and mode never change. *)
Definition same_setup (w w' : WalWriter) : Prop := config w' = config w /\ lsn_step_mode w' = lsn_step_mode w.

Lemma rotate_setup w : same_setup w (snd (rotate None w)).
Proof. rewrite rotate_none. by destruct (checked_next _). Qed.

Lemma write_all_setup w bs : same_setup w (snd (write_all None w bs)).
Proof.
  destruct (write_all_ok w bs) as (w' & -> & Hf). split; [exact (f_equal config Hf)|exact (f_equal lsn_step_mode Hf)].
Qed.

Lemma append_prepared_setup w p : same_setup w (snd (append_prepared None w p)).
Proof.
  unfold append_prepared. destruct (encode_prepared_entry _ _ _ _) as [bs|]; [|done].
  destruct (next_lsn_from _ _ _); [|done]. destruct (checked_add _ _ _); [|done].
  assert (Hr : same_setup w (snd (if (0 <? current_size w) && (segment_max_bytes (config w) <? z0) then rotate None w else (Ok tt, None, w))))
    by (destruct (_ && _); [apply rotate_setup|done]).
  assert (Hroom : snd (fst (if (0 <? current_size w) && (segment_max_bytes (config w) <? z0) then rotate None w else (Ok tt, None, w))) = None)
    by (destruct (_ && _); [apply rotate_room|done]).
  destruct (if _ && _ then _ else _) as [[[|] room] w1]; [|done]. cbn [fst snd] in Hr, Hroom. subst room.
  pose proof (write_all_setup w1 bs) as Hw. destruct (write_all_ok w1 bs) as (w2 & E & _). rewrite E in *. cbn [negb snd] in *.
  assert (Ht : same_setup w w2) by (destruct Hr, Hw; split; congruence).
  by destruct (checked_add _ _ _).
Qed.

(** The first writer. *)
Lemma open_empty_logs c m d recycled w :
  identity_ok (identity c) -> open_writer c m [] recycled = (Ok w, d) -> logs w [] /\ config w = c /\ lsn_step_mode w = m.
Proof.
  intros Hid [= <- <-]. split; [|done]. exists [], []. split; [|done]. constructor.
  - done.
  - constructor; cbn; [by do 2 constructor|by constructor; [left|]|by constructor|by constructor|done].
  - constructor.
  - done.
  - done.
  - done.
Qed.

End Writing.
