(* ===== verification/WalRecovery.v ===== *)
(** * Crashes and recovery of the log

    A crash cuts the current segment; [WalWriter::open] scans the directory, cuts the torn
    entry off and continues after the last good one.  [open_logs] says so for every
    directory a crash can leave; [batch_is_appends] relates the two ways to append. *)

From S2P Require Import Prelude.
From S2P Require Import Bytes.
From S2P Require Import BinaryIo.
From S2P Require Import WalTypes.
From S2P Require Import WalValue.
From S2P Require Import WalCodec.
From S2P Require Import WalExample.
From S2P Require Import WalEntry.
From S2P Require Import WalSegment.
From S2P Require Import WalLog.
From S2P Require Import WalReplay.

(** ** The scan *)

Section Scanning.
Context `{ExternalLaws} `{CompressionLaws}.
Context (m : LsnMode) (i : SegmentClusterIdentity).

(** The scan has last seen [prev], and headers that agree with [m] and [i]. *)
Record scanned (s : Scan) (prev : option Item) : Prop := {
  sc_lsn : highest_lsn s = item_lsn <$> prev;
  sc_bytes : highest_entry_bytes s = item_len <$> prev;
  sc_prev : match prev with Some p => item_ok p | None => True end;
  sc_mode : detected_mode s = None \/ detected_mode s = Some m;
  sc_header : scan_header_mode s = None \/ scan_header_mode s = Some m;
  sc_system : scan_system s = None \/ scan_system s = system_identifier i;
  sc_timeline : scan_timeline s = None \/ scan_timeline s = timeline_id i
}.

Lemma scan_step_ok s is_last prev x :
  scanned s prev -> item_ok x -> match prev with Some p => follows m p x | None => True end ->
  exists mode, scan_step s is_last (fst x) = Ok (Some mode) /\
    scanned (scan_found s mode (item_lsn x) (item_len x)) (Some x).
Proof.
  intros [] Hx Hf. unfold scan_step. rewrite sc_lsn0, sc_bytes0.
  assert (Hsc : forall mode, mode = None \/ mode = Some m -> scanned (scan_found s mode (item_lsn x) (item_len x)) (Some x))
    by (intros mode Hm; by constructor).
  destruct prev as [p|]; cbn [fmap option_fmap option_map]; [|eauto].
  destruct Hf as [Hl Hp]. rewrite Hp, Z.eqb_refl, andb_false_r. change (default 1 (Some ?n)) with n.
  destruct (item_range p sc_prev0) as [Hr1 Hr2]. pose proof (item_size p sc_prev0) as Hn.
  unfold checked_advance, checked_add. change (lsn (fst x)) with (item_lsn x).
  destruct (Z.leb_spec (item_lsn p + 1) u64_max); [|lia].
  destruct (Z.leb_spec (item_lsn p + item_len p) u64_max); [|lia].
  exists (Some m). split; [|auto]. rewrite Hl. destruct sc_mode0 as [-> | ->]; destruct m; cbn [step]; rewrite ?Z.eqb_refl; try done.
  destruct (Z.eqb_spec (item_lsn p + item_len p) (item_lsn p + 1)); [lia|done].
Qed.

(** The item last seen after [xs]. *)
Definition seen (prev : option Item) (xs : list Item) : option Item :=
  match last xs with Some x => Some x | None => prev end.

Lemma seen_cons prev x xs : seen prev (x :: xs) = seen (Some x) xs.
Proof. unfold seen. rewrite last_cons. by destruct (last xs). Qed.

Definition same_headers (s s' : Scan) : Prop :=
  scan_header_mode s' = scan_header_mode s /\ scan_system s' = scan_system s /\ scan_timeline s' = scan_timeline s /\
  scan_size s' = scan_size s /\ total_scan_bytes s' = total_scan_bytes s.

Lemma scan_entries_ok fuel is_last s prev xs tail off :
  scanned s prev -> Forall item_ok xs -> chained m prev xs -> tail_ok tail -> (length xs < fuel)%nat ->
  exists s', scan_entries fuel is_last s (bytes_of xs ++ tail) off = Ok (s', off + len (bytes_of xs)) /\
    scanned s' (seen prev xs) /\ same_headers s s'.
Proof.
  revert s prev xs off. induction fuel as [|fuel IH]; intros s prev xs off Hs Hok Hch Ht Hf; [lia|].
  destruct xs as [|x xs].
  - exists s. split; [|done]. cbn [bytes_of map concat app scan_entries]. change (len []) with 0. rewrite Z.add_0_r.
    destruct Ht as [->|Ht]; [done|]. destruct tail; [done|]. by rewrite Ht.
  - apply Forall_cons in Hok as [Hx Hxs]. destruct Hch as [Hfol Hch].
    destruct (scan_step_ok s is_last prev x Hs Hx Hfol) as (mode & Hst & Hs1).
    destruct (IH _ _ xs (off + item_len x) Hs1 Hxs Hch Ht ltac:(cbn in Hf; lia)) as (s' & Hsc & Hs' & Hh).
    exists s'. rewrite seen_cons. split_and!; [|done|done].
    rewrite bytes_of_cons, <- app_assoc. cbn [scan_entries].
    pose proof (item_size x Hx) as Hl. destruct (snd x ++ bytes_of xs ++ tail) as [|b rest] eqn:E.
    { apply app_eq_nil in E as [E _]. unfold item_len in Hl. rewrite E in Hl. change (len []) with 0 in Hl. lia. }
    rewrite <- E, (item_decodes x Hx), Hst. change (lsn (fst x)) with (item_lsn x).
    rewrite drop_app_length' by (unfold item_len, len; lia). rewrite Hsc. do 2 f_equal. rewrite len_app. unfold item_len. lia.
Qed.

Lemma agree_ok `{EqDecision A} (known found : option A) :
  known = None \/ known = found -> agree known found = Ok found.
Proof.
  intros [-> | ->]; unfold agree; destruct found; try done. by rewrite decide_True.
Qed.

Lemma segment_cut seg :
  take (Z.to_nat (22 + len (bytes_of (seg_items seg)))) (segment_bytes m i seg) =
  segment_bytes m i (mkSegment (seg_id seg) (seg_items seg) []).
Proof.
  unfold segment_bytes. cbn [seg_items seg_tail]. rewrite app_nil_r, app_assoc. apply take_app_length'.
  rewrite length_app. pose proof (header_len m i) as Hh. unfold len in *. lia.
Qed.

(** A segment, whose tail is cut off when it is the last. *)
Lemma scan_segment_ok c is_last s prev seg :
  identity_ok i -> scanned s prev -> Forall item_ok (seg_items seg) -> chained m prev (seg_items seg) ->
  tail_ok (seg_tail seg) -> (is_last = false -> seg_tail seg = []) ->
  len (segment_bytes m i seg) <= effective_segment_scan_cap c ->
  0 <= total_scan_bytes s -> total_scan_bytes s + len (segment_bytes m i seg) <= MAX_TOTAL_RECOVERY_SCAN_BYTES ->
  exists s', scan_segment c s is_last (segment_bytes m i seg) =
      Ok (s', segment_bytes m i (mkSegment (seg_id seg) (seg_items seg) [])) /\
    scanned s' (seen prev (seg_items seg)) /\ scan_header_mode s' = Some m /\
    total_scan_bytes s' = total_scan_bytes s + len (segment_bytes m i seg) /\
    (is_last = true -> scan_size s' = Some (22 + len (bytes_of (seg_items seg)))).
Proof.
  intros Hid Hs Hok Hch Ht Hnl Hcap Htot Hmax. unfold MAX_TOTAL_RECOVERY_SCAN_BYTES in *.
  unfold scan_segment, saturating_add, MAX_TOTAL_RECOVERY_SCAN_BYTES.
  destruct (Z.ltb_spec (effective_segment_scan_cap c) (len (segment_bytes m i seg))); [lia|].
  destruct (Z.ltb_spec (4 * 1024 * 1024 * 1024) (Z.min u64_max (total_scan_bytes s + len (segment_bytes m i seg)))); [lia|].
  unfold parse_header, segment_bytes at 1. rewrite header_roundtrip by done. change (default _ (Some ?r)) with r. cbv iota.
  unfold scan_header. cbn [header_mode header_system header_timeline header_info]. pose proof Hs as [].
  rewrite !agree_ok by done. unfold saturating_add.
  rewrite Z.min_r by (unfold u64_max; lia). set (s0 := mkScan _ _ _ _ _ _ _ _).
  assert (Hs0 : scanned s0 prev) by (constructor; cbn; auto).
  pose proof (segment_len m i seg) as Hlen. pose proof (bytes_of_length _ Hok) as Hbl.
  assert (Hdrop : drop (Z.to_nat SEGMENT_HEADER_SIZE) (segment_bytes m i seg) = bytes_of (seg_items seg) ++ seg_tail seg)
    by done.
  cbn [entry_offset header_info]. rewrite Hdrop.
  pose proof (len_nonneg (bytes_of (seg_items seg))) as Hb0. pose proof (len_nonneg (seg_tail seg)) as Ht0.
  destruct (scan_entries_ok (S (length (segment_bytes m i seg))) is_last s0 prev (seg_items seg) (seg_tail seg)
              SEGMENT_HEADER_SIZE Hs0 Hok Hch Ht) as (s' & -> & Hs' & Hh).
  { unfold len in Hlen, Ht0. lia. }
  destruct Hh as (Hh1 & Hh2 & Hh3 & Hh4 & Hh5). rewrite Hlen. unfold SEGMENT_HEADER_SIZE.
  destruct (Z.ltb_spec (22 + len (bytes_of (seg_items seg))) (22 + len (bytes_of (seg_items seg)) + len (seg_tail seg))) as [Hlt|Hge].
  - destruct is_last; [|rewrite (Hnl eq_refl) in Hlt; change (len []) with 0 in Hlt; lia].
    eexists. split; [do 3 f_equal; apply segment_cut|]. split; [by destruct Hs'; constructor|].
    unfold set_scan_size. cbn [scan_header_mode scan_size total_scan_bytes]. rewrite Hh1, Hh5. unfold s0.
    cbn [scan_header_mode total_scan_bytes]. split_and!; [done|lia|done].
  - assert (Htl : seg_tail seg = []) by (destruct (seg_tail seg); [done|]; pose proof (len_cons_pos z l); lia).
    exists s'. split; [by destruct seg; cbn in *; subst|]. split; [done|]. rewrite Hh1, Hh4, Hh5. unfold s0.
    cbn [scan_header_mode scan_size total_scan_bytes]. split_and!; [done|lia|]. intros ->. rewrite Htl in *. change (len []) with 0 in *. f_equal. lia.
Qed.

Definition size_of (ss : list Segment) : Z := foldr (fun s a => len (segment_bytes m i s) + a) 0 ss.

Lemma size_cons s ss : size_of (s :: ss) = len (segment_bytes m i s) + size_of ss.
Proof. done. Qed.

Lemma size_nonneg ss : 0 <= size_of ss.
Proof.
  induction ss as [|s ss IH]; [done|]. rewrite size_cons. pose proof (len_nonneg (segment_bytes m i s)). lia.
Qed.

Lemma seen_app prev xs ys : seen prev (xs ++ ys) = seen (seen prev xs) ys.
Proof. unfold seen. rewrite last_app. by destruct (last ys). Qed.

(** The closed segments, with more behind them. *)
Lemma scan_closed c s prev closed rest :
  identity_ok i -> scanned s prev -> Forall (fun s => seg_tail s = []) closed -> rest <> [] ->
  Forall item_ok (items_of closed) -> chained m prev (items_of closed) ->
  Forall (fun s => len (segment_bytes m i s) <= effective_segment_scan_cap c) closed ->
  0 <= total_scan_bytes s -> total_scan_bytes s + size_of closed <= MAX_TOTAL_RECOVERY_SCAN_BYTES ->
  exists s', scanned s' (seen prev (items_of closed)) /\ total_scan_bytes s' = total_scan_bytes s + size_of closed /\
    scan_segments c s (files m i closed ++ rest) =
      match scan_segments c s' rest with Err e => Err e | Ok (s2, rest') => Ok (s2, files m i closed ++ rest') end.
Proof.
  intros Hid. revert s prev. induction closed as [|t closed IH]; intros s prev Hs Htails Hr Hok Hch Hcap Hz0 Hmax.
  - exists s. split; [done|]. change (size_of []) with 0. split; [lia|]. change (files m i [] ++ ?l) with l.
    by destruct (scan_segments c s rest) as [[]|].
  - rewrite items_of_cons in *. apply Forall_cons in Htails as [Htt Htails]. apply Forall_cons in Hcap as [Hct Hcap].
    apply Forall_app in Hok as [Hokt Hok]. apply chained_app in Hch as [Hcht Hch]. rewrite size_cons in *.
    pose proof (size_nonneg closed). pose proof (len_nonneg (segment_bytes m i t)).
    assert (Htt' : tail_ok (seg_tail t)) by (rewrite Htt; by left).
    destruct (scan_segment_ok c false s prev t Hid Hs Hokt Hcht Htt' ltac:(done) Hct Hz0 ltac:(lia)) as (s1 & Hseg & Hs1 & _ & Htot & _).
    destruct (IH s1 _ Hs1 Htails Hr Hok Hch Hcap) as (s' & Hs' & Ht' & Hrest); [lia..|].
    exists s'. rewrite seen_app. split; [done|]. split; [lia|].
    change (files m i (t :: closed) ++ ?l) with ((seg_id t, segment_bytes m i t) :: files m i closed ++ l).
    cbn [scan_segments].
    assert (Hne : match files m i closed ++ rest with [] => true | _ => false end = false)
      by (destruct closed; [by destruct rest|done]).
    rewrite Hne, Hseg, Hrest. destruct (scan_segments c s' rest) as [[s2 rest']|]; [|done].
    destruct t as [? ? tl]. cbn in Htt. by subst tl.
Qed.

Lemma size_app ss ss' : size_of (ss ++ ss') = size_of ss + size_of ss'.
Proof. induction ss as [|s ss IH]; [done|]. cbn [app]. rewrite !size_cons, IH. lia. Qed.

Lemma scan_segments_ok c s prev closed seg :
  identity_ok i -> scanned s prev -> Forall (fun s => seg_tail s = []) closed -> tail_ok (seg_tail seg) ->
  Forall item_ok (items_of closed ++ seg_items seg) -> chained m prev (items_of closed ++ seg_items seg) ->
  Forall (fun s => len (segment_bytes m i s) <= effective_segment_scan_cap c) (closed ++ [seg]) ->
  0 <= total_scan_bytes s -> total_scan_bytes s + size_of (closed ++ [seg]) <= MAX_TOTAL_RECOVERY_SCAN_BYTES ->
  exists s', scan_segments c s (files m i (closed ++ [seg])) =
      Ok (s', files m i (closed ++ [mkSegment (seg_id seg) (seg_items seg) []])) /\
    scanned s' (seen prev (items_of closed ++ seg_items seg)) /\ scan_header_mode s' = Some m /\
    scan_size s' = Some (22 + len (bytes_of (seg_items seg))).
Proof.
  intros Hid Hs Htails Ht Hok Hch Hcap Hz0 Hmax. apply Forall_app in Hok as [Hokc Hok].
  apply chained_app in Hch as [Hchc Hch]. apply Forall_app in Hcap as [Hcapc Hcap]. apply Forall_cons in Hcap as [Hcap _].
  rewrite size_app, size_cons in Hmax. change (size_of []) with 0 in Hmax. pose proof (size_nonneg closed).
  pose proof (len_nonneg (segment_bytes m i seg)).
  destruct (scan_closed c s prev closed [(seg_id seg, segment_bytes m i seg)] Hid Hs Htails ltac:(done) Hokc Hchc Hcapc Hz0 ltac:(lia))
    as (s1 & Hs1 & Ht1 & Hscan).
  destruct (scan_segment_ok c true s1 _ seg Hid Hs1 Hok Hch Ht ltac:(done) Hcap ltac:(lia) ltac:(lia)) as (s' & Hseg & Hs' & Hm & _ & Hz).
  exists s'. rewrite files_snoc, Hscan, seen_app. cbn [scan_segments]. rewrite Hseg, files_snoc. split_and!; try done. by apply Hz.
Qed.

(** The scan agrees with the identity of the configuration. *)
Lemma identity_agrees (known expected : option Z) :
  known = None \/ known = expected ->
  match known, expected with Some a, Some b => negb (a =? b) | _, _ => false end = false.
Proof. intros [-> | ->]; [done|]. destruct expected; [by rewrite Z.eqb_refl|done]. Qed.

Lemma log_files_cut closed seg :
  log_files m (closed ++ [seg]) -> log_files m (closed ++ [mkSegment (seg_id seg) (seg_items seg) []]).
Proof.
  intros []. destruct seg as [id its tail]. cbn [seg_id seg_items] in *.
  constructor; rewrite ?map_app, ?items_of_app in *; cbn in *; try done.
  - apply Forall_app in lf_tails as [? _]. apply Forall_app. split; [done|by constructor; [left|]].
  - apply Forall_app in lf_last as [? _]. apply Forall_app. split; [done|by constructor].
Qed.

(** Where a reopened log continues. *)
Definition resume_lsn (o : option Item) : Z :=
  match o with None => 1 | Some x => item_lsn x + step m (item_len x) end.

Lemma resume_ok o :
  match o with Some x => item_ok x | None => True end ->
  match item_lsn <$> o with
  | None => Some 1
  | Some l => checked_advance l (match m with Logical => 1 | ByteOffset => default 1 (item_len <$> o) end)
  end = Some (resume_lsn o).
Proof.
  destruct o as [x|]; [|done]. intros Hx. cbn [fmap option_fmap option_map resume_lsn].
  change (default 1 (Some ?n)) with n. pose proof (item_range x Hx). pose proof (item_size x Hx).
  unfold checked_advance, checked_add. destruct m; cbn [step].
  - destruct (Z.leb_spec (item_lsn x + 1) u64_max); [done|lia].
  - destruct (Z.leb_spec (item_lsn x + item_len x) u64_max); [done|lia].
Qed.

(** [WalWriter::open] on a directory that a crash has left. *)
Lemma open_logs c recycled closed seg :
  identity_ok i -> identity c = i -> Forall (fun s => seg_tail s = []) closed ->
  log_files m (closed ++ [seg]) ->
  Forall (fun s => len (segment_bytes m i s) <= effective_segment_scan_cap c) (closed ++ [seg]) ->
  size_of (closed ++ [seg]) <= MAX_TOTAL_RECOVERY_SCAN_BYTES ->
  exists w d, open_writer c m (files m i (closed ++ [seg])) recycled = (Ok w, d) /\
    config w = c /\ lsn_step_mode w = m /\ buffer w = [] /\ log_inv w closed (seg_items seg).
Proof.
  intros Hid Hc Htails Hlog Hcap Hmax. pose proof (log_files_cut _ _ Hlog) as Hcut. pose proof Hlog as [].
  rewrite items_of_app in lf_items, lf_chain. cbn in lf_items, lf_chain. rewrite app_nil_r in lf_items, lf_chain.
  assert (Ht : tail_ok (seg_tail seg)) by (apply Forall_app in lf_tails as [_ Ht]; by apply Forall_cons in Ht as [Ht _]).
  assert (Hstart : scanned scan_start None) by (constructor; cbn; auto).
  destruct (scan_segments_ok c scan_start None closed seg Hid Hstart Htails Ht lf_items lf_chain Hcap) as (s & Hscan & Hs & Hm & Hz); [done|done|].
  set (seg' := mkSegment (seg_id seg) (seg_items seg) []) in *.
  pose proof (sorted_below m i closed _ lf_ids) as Hb. pose proof Hs as [].
  assert (Hget : dir_get (files m i (closed ++ [seg'])) (seg_id seg) = Some (segment_bytes m i seg')).
  { rewrite files_snoc. cbn [seg_id]. by rewrite dir_get_last. }
  assert (Happ : forall mode, open_segment_for_append None c (files m i (closed ++ [seg'])) (seg_id seg) mode = (true, None, files m i (closed ++ [seg']))).
  { intros mode. unfold open_segment_for_append. by rewrite Hget. }
  unfold open_writer. rewrite (files_snoc m i closed seg), last_snoc, <- (files_snoc m i closed seg), Hscan, Hm, Hz, bool_decide_true by done.
  cbn [negb]. rewrite Hc, !identity_agrees by done. rewrite Happ. unfold read_segment_bytes_bounded. rewrite Hget.
  change (default _ (Some (22 + ?n))) with (22 + n).
  pose proof (segment_len m i seg') as Hlen. cbn [seg_items seg_tail seg'] in Hlen. change (len []) with 0 in Hlen. rewrite Hlen.
  destruct (Z.ltb_spec (22 + len (bytes_of (seg_items seg))) (22 + len (bytes_of (seg_items seg)) + 0)); [lia|].
  assert (default m (Some m ∪ detected_mode s) = m) as -> by by destruct (detected_mode s).
  rewrite sc_lsn0, sc_bytes0, resume_ok by done.
  eexists _, _. split; [done|]. split; [done|]. split; [done|]. split; [done|].
  assert (Hcur : forall a b d e f g h, current_bytes (mkWalWriter a (files m i (closed ++ [seg'])) b (seg_id seg) d e f g h m) = segment_bytes m i seg').
  { intros. unfold current_bytes. cbn [dir current_segment]. by rewrite Hget. }
  constructor; unfold segments_of, mode_of, identity_of, lsns_ok; cbn [current_segment lsn_step_mode config current_size last_lsn next_lsn].
  - rewrite flush_eq, Hcur. unfold set_buffer, set_file. cbn [dir current_segment buffer]. rewrite Hc, app_nil_r.
    rewrite files_snoc. cbn [seg_id seg']. rewrite dir_put_last by done. by rewrite files_snoc.
  - exact Hcut.
  - done.
  - done.
  - unfold seen. destruct (last (items_of closed ++ seg_items seg)); (split; [done|]); cbn; [done|lia].
  - by rewrite Hc.
Qed.

End Scanning.

(** ** Batches *)

Section Batches.
Context `{ExternalLaws} `{CompressionLaws}.

(** One [append_prepared] after the other. *)
Fixpoint appends (w : WalWriter) (ps : list PreparedWalRecord) : DbResult (list Z) * WalWriter :=
  match ps with
  | [] => (Ok [], w)
  | p :: ps' =>
      match append_prepared None w p with
      | (Err e, w) => (Err e, w)
      | (Ok l, w) =>
          match appends w ps' with
          | (Err e, w) => (Err e, w)
          | (Ok ls, w) => (Ok (l :: ls), w)
          end
      end
  end.

(** A writer up to what is buffered and up to the size of its last entry. *)
Definition core (w : WalWriter) : WalWriter := set_lsns (flush w) (last_lsn w) None (next_lsn w).

Lemma core_fields w v :
  core w = core v ->
  config w = config v /\ lsn_step_mode w = lsn_step_mode v /\ current_size w = current_size v /\
  next_lsn w = next_lsn v /\ last_lsn w = last_lsn v.
Proof.
  intros E. split_and!; [exact (f_equal config E)|exact (f_equal lsn_step_mode E)|exact (f_equal current_size E)
    |exact (f_equal next_lsn E)|exact (f_equal last_lsn E)].
Qed.

Lemma rotate_core w v :
  core w = core v -> fst (rotate None w) = fst (rotate None v) /\ core (snd (rotate None w)) = core (snd (rotate None v)).
Proof.
  intros E. assert (Hf : flush w = set_lsns (flush v) (last_lsn v) (last_entry_bytes w) (next_lsn v)).
  { transitivity (set_lsns (core w) (last_lsn w) (last_entry_bytes w) (next_lsn w)); [done|].
    rewrite E. destruct (core_fields _ _ E) as (_ & _ & _ & -> & ->). done. }
  rewrite !rotate_none. change (current_segment w) with (current_segment (flush w)). rewrite Hf.
  change (current_segment (set_lsns _ _ _ _)) with (current_segment v).
  destruct (checked_next _) as [id|]; [|done]. done.
Qed.

Lemma set_file_flush w : set_file (flush w) (current_bytes (flush w)) = flush w.
Proof.
  rewrite flush_bytes, flush_eq. unfold set_buffer, set_file, current_bytes.
  cbn [config dir recycled current_segment buffer current_size next_lsn last_lsn last_entry_bytes lsn_step_mode].
  by rewrite dir_put_put.
Qed.

(** The batch so far, as if it had been written. *)
Definition virtual (w : WalWriter) (b : Batch) : WalWriter :=
  set_lsns (set_size (set_file (flush w) (current_bytes (flush w) ++ chunk b)) (chunk_size b))
    (chunk_last_lsn b) None (chunk_next_lsn b).

Lemma write_core w w' bs n l e x :
  flush w' = set_file (flush w) (current_bytes (flush w) ++ bs) ->
  core (set_lsns (set_size w' n) l e x) = set_lsns (set_size (set_file (flush w) (current_bytes (flush w) ++ bs)) n) l None x.
Proof. intros Hf. unfold core. rewrite <- Hf. done. Qed.

Lemma virtual_nil w n l x a b c :
  virtual w (mkBatch [] n l x a b c) = set_lsns (set_size (flush w) n) l None x.
Proof.
  unfold virtual. cbn [chunk chunk_size chunk_last_lsn chunk_next_lsn]. by rewrite app_nil_r, set_file_flush.
Qed.

(** The chunk is written: the batch has caught up. *)
Lemma chunk_core w b l :
  chunk_size b = current_size w + len (chunk b) -> chunk_size b <= u64_max ->
  exists w', write_encoded_chunk None w (chunk b) = (Ok tt, None, w') /\
    core (set_lsns w' (chunk_last_lsn b) l (chunk_next_lsn b)) = virtual w b.
Proof.
  intros Hs Hm. unfold write_encoded_chunk. destruct (Z.eqb_spec (len (chunk b)) 0) as [E|E].
  - exists w. split; [done|]. assert (Hc : chunk b = []) by (destruct (chunk b); [done|]; pose proof (len_cons_pos z l0); lia).
    unfold virtual. rewrite Hc, app_nil_r, set_file_flush, Hs, E, Z.add_0_r. done.
  - unfold checked_add. rewrite <- Hs. destruct (Z.leb_spec (chunk_size b) u64_max); [|lia].
    destruct (write_all_ok w (chunk b)) as (w' & -> & Hf). cbn [negb]. eexists. split; [done|].
    by apply write_core.
Qed.

Lemma virtual_fields v w b :
  core v = virtual w b ->
  config v = config w /\ lsn_step_mode v = lsn_step_mode w /\ current_size v = chunk_size b /\
  next_lsn v = chunk_next_lsn b /\ last_lsn v = chunk_last_lsn b.
Proof.
  intros E. split_and!; [exact (f_equal config E)|exact (f_equal lsn_step_mode E)|exact (f_equal current_size E)
    |exact (f_equal next_lsn E)|exact (f_equal last_lsn E)].
Qed.

Lemma batch_push_inv w b lsn bs b' :
  batch_push w b lsn bs = Some b' ->
  exists next total, next_lsn_from w lsn (len bs) = Some next /\ chunk_size b + len bs <= u64_max /\
    b' = mkBatch (chunk b ++ bs) (chunk_size b + len bs) (Some lsn) next lsn total (Some (len bs)).
Proof.
  unfold batch_push, checked_add. destruct (Z.leb_spec (chunk_size b + len bs) u64_max); [|done]. cbn [mbind option_bind].
  destruct (next_lsn_from w lsn (len bs)) as [next|]; [|done]. cbn [mbind option_bind].
  destruct (_ <=? _); [|done]. cbn [mbind option_bind]. intros [= <-]. eauto.
Qed.

(** The end of [append_prepared] does what [batch_push] records. *)
Lemma finish_core v w b bs lsn next total :
  core v = virtual w b -> chunk_size b + len bs <= u64_max ->
  exists v2, write_all None v bs = (true, None, v2) /\
    checked_add u64_max (current_size v2) (len bs) = Some (chunk_size b + len bs) /\
    core (set_lsns (set_size v2 (chunk_size b + len bs)) (Some lsn) (Some (len bs)) next) =
      virtual w (mkBatch (chunk b ++ bs) (chunk_size b + len bs) (Some lsn) next lsn total (Some (len bs))).
Proof.
  intros E Hs. destruct (write_all_ok v bs) as (v2 & -> & Hf). exists v2. split; [done|].
  destruct (virtual_fields _ _ _ E) as (_ & _ & Hsize & _ & _).
  assert (Hn : current_size v2 = chunk_size b) by (rewrite <- Hsize; exact (f_equal current_size Hf)).
  split; [rewrite Hn; unfold checked_add; by destruct (Z.leb_spec (chunk_size b + len bs) u64_max); [|lia]|].
  rewrite (write_core _ _ _ _ _ _ _ Hf).
  change (set_lsns (set_size (set_file (flush v) ?y) ?n) ?l None ?x) with (set_lsns (set_size (set_file (core v) y) n) l None x).
  change (current_bytes (flush v)) with (current_bytes (core v)). rewrite E. unfold virtual.
  cbn [chunk chunk_size chunk_last_lsn chunk_next_lsn].
  change (current_bytes (set_lsns (set_size ?w ?n) ?l ?e ?x)) with (current_bytes w). rewrite current_set_file.
  rewrite <- app_assoc. unfold set_file, set_lsns, set_size.
  cbn [config dir recycled current_segment buffer current_size next_lsn last_lsn last_entry_bytes lsn_step_mode].
  by rewrite dir_put_put.
Qed.

Lemma chunk_setup w bs w' : write_encoded_chunk None w bs = (Ok tt, None, w') -> same_setup w w'.
Proof.
  unfold write_encoded_chunk. destruct (_ =? _); [by intros [= <-]|]. destruct (checked_add _ _ _); [|done].
  pose proof (write_all_setup w bs) as Hw. destruct (write_all None w bs) as [[[] room] w1]; cbn [negb]; [|done].
  by intros [= _ <-].
Qed.

Lemma chunk_room w bs : snd (fst (write_encoded_chunk None w bs)) = None.
Proof.
  unfold write_encoded_chunk. destruct (_ =? _); [done|]. destruct (checked_add _ _ _); [|done].
  by destruct (write_all_ok w bs) as (w' & -> & _).
Qed.

(** A step of the batch and an [append_prepared] stay together. *)
Lemma append_core v w b p bs w1 b1 b' :
  core v = virtual w b -> chunk_size b = current_size w + len (chunk b) ->
  encode_prepared_entry (chunk_next_lsn b) (lsn_or_zero (chunk_last_lsn b)) LEGACY_DATABASE_ID p = Ok bs ->
  chunk_size b + len bs <= u64_max ->
  (if (0 <? chunk_size b) && (segment_max_bytes (config w) <? chunk_size b + len bs)
   then exists w0, write_encoded_chunk None w (chunk b) = (Ok tt, None, w0) /\
          rotate None (set_lsns w0 (chunk_last_lsn b) (batch_entry_bytes b) (chunk_next_lsn b)) = (Ok tt, None, w1) /\
          b1 = mkBatch [] (current_size w1) (last_lsn w1) (next_lsn w1) (batch_last_lsn b) (batch_total_bytes b) (batch_entry_bytes b)
   else w1 = w /\ b1 = b) ->
  batch_push w1 b1 (chunk_next_lsn b) bs = Some b' ->
  exists v', append_prepared None v p = (Ok (chunk_next_lsn b), v') /\ core v' = virtual w1 b' /\
    last_entry_bytes v' = batch_entry_bytes b' /\ chunk_size b' = current_size w1 + len (chunk b').
Proof.
  intros E Hcs Hen Hs Hstep Hpush. destruct (virtual_fields _ _ _ E) as (Hc & Hm & Hsize & Hn & Hl).
  apply batch_push_inv in Hpush as (next & total & Hnext & Hs1 & ->).
  unfold append_prepared. rewrite Hn, Hl, Hen, Hsize, Hc. unfold checked_add at 1.
  destruct (Z.leb_spec (chunk_size b + len bs) u64_max); [|lia].
  assert (Hv : exists v1, (if (0 <? chunk_size b) && (segment_max_bytes (config w) <? chunk_size b + len bs)
                           then rotate None v else (Ok tt, None, v)) = (Ok tt, None, v1) /\ core v1 = virtual w1 b1 /\
                 chunk_size b1 = current_size w1 + len (chunk b1)).
  { destruct (_ && _); [|destruct Hstep as [-> ->]; by exists v].
    destruct Hstep as (w0 & Hw0 & Hrot & ->).
    destruct (chunk_core w b (batch_entry_bytes b) Hcs ltac:(pose proof (len_nonneg bs); lia)) as (w0' & Hw0' & Hcore).
    rewrite Hw0 in Hw0'. injection Hw0' as <-. rewrite <- E in Hcore.
    destruct (rotate_core _ _ Hcore) as [Hr1 Hr2]. rewrite Hrot in Hr1, Hr2. cbn [fst snd] in *.
    destruct (rotate None v) as [r v1]. cbn [fst snd] in *. subst r. exists v1. split; [done|].
    rewrite virtual_nil. cbn [chunk chunk_size]. change (len []) with 0. split; [by rewrite <- Hr2|lia]. }
  destruct Hv as (v1 & -> & Hv1 & Hcs1).
  assert (Hmode : lsn_step_mode v = lsn_step_mode w1).
  { rewrite Hm. destruct (_ && _); [|by destruct Hstep as [-> _]]. destruct Hstep as (w0 & Hw0 & Hrot & _).
    pose proof (proj2 (rotate_setup (set_lsns w0 (chunk_last_lsn b) (batch_entry_bytes b) (chunk_next_lsn b)))) as Hm1. rewrite Hrot in Hm1.
    cbn [snd] in Hm1. rewrite Hm1. symmetry. exact (proj2 (chunk_setup w (chunk b) w0 Hw0)). }
  unfold next_lsn_from in *. rewrite Hmode, Hnext.
  destruct (finish_core v1 w1 b1 bs (chunk_next_lsn b) next total Hv1 Hs1) as (v2 & -> & Hadd & Hcore).
  cbn [negb]. rewrite Hadd. eexists. split; [done|]. split; [exact Hcore|]. split; [done|].
  cbn [chunk chunk_size]. rewrite len_app. lia.
Qed.

Lemma rotate_lsns w : next_lsn (snd (rotate None w)) = next_lsn w /\ last_lsn (snd (rotate None w)) = last_lsn w.
Proof. rewrite rotate_none. by destruct (checked_next _). Qed.

Lemma batch_push_last w b lsn bs b' : batch_push w b lsn bs = Some b' -> batch_last_lsn b' = lsn /\ chunk_size b' <= u64_max.
Proof. intros (next & total & _ & Hs & ->)%batch_push_inv. done. Qed.

(** What [append_batch_loop] does with one record. *)
Lemma batch_loop_cons w b p ps b' room w' :
  append_batch_loop None w b (p :: ps) = (Ok b', room, w') ->
  exists bs w1 b1 b2,
    encode_prepared_entry (chunk_next_lsn b) (lsn_or_zero (chunk_last_lsn b)) LEGACY_DATABASE_ID p = Ok bs /\
    chunk_size b + len bs <= u64_max /\
    (if (0 <? chunk_size b) && (segment_max_bytes (config w) <? chunk_size b + len bs)
     then exists w0, write_encoded_chunk None w (chunk b) = (Ok tt, None, w0) /\
            rotate None (set_lsns w0 (chunk_last_lsn b) (batch_entry_bytes b) (chunk_next_lsn b)) = (Ok tt, None, w1) /\
            b1 = mkBatch [] (current_size w1) (last_lsn w1) (next_lsn w1) (batch_last_lsn b) (batch_total_bytes b) (batch_entry_bytes b)
     else w1 = w /\ b1 = b) /\
    batch_push w1 b1 (chunk_next_lsn b) bs = Some b2 /\ append_batch_loop None w1 b2 ps = (Ok b', room, w').
Proof.
  cbn [append_batch_loop]. destruct (encode_prepared_entry (chunk_next_lsn b) _ _ _) as [bs|] eqn:Hen; [|done].
  unfold checked_add at 1. destruct (Z.leb_spec (chunk_size b + len bs) u64_max); [|done].
  destruct ((0 <? chunk_size b) && _) eqn:Hrot.
  - pose proof (chunk_room w (chunk b)) as Hroom.
    destruct (write_encoded_chunk None w (chunk b)) as [[[[]|] room'] w0] eqn:Hw; [|done]. cbn [fst snd] in Hroom. subst room'.
    pose proof (rotate_room (set_lsns w0 (chunk_last_lsn b) (batch_entry_bytes b) (chunk_next_lsn b))) as Hroom.
    pose proof (rotate_lsns (set_lsns w0 (chunk_last_lsn b) (batch_entry_bytes b) (chunk_next_lsn b))) as [Hn Hl].
    destruct (rotate None _) as [[[[]|] room'] w1] eqn:Hr; [|done]. cbn [fst snd] in Hn, Hl, Hroom. subst room'. cbn in Hn, Hl. rewrite Hn, Hl, Hen.
    destruct (batch_push w1 _ _ bs) as [b2|] eqn:Hpush; [|done]. intros Hloop.
    exists bs, w1, (mkBatch [] (current_size w1) (last_lsn w1) (next_lsn w1) (batch_last_lsn b) (batch_total_bytes b) (batch_entry_bytes b)), b2.
    rewrite Hrot, Hn, Hl. split_and!; eauto.
  - destruct (batch_push w b _ bs) as [b2|] eqn:Hpush; [|done]. intros Hloop.
    exists bs, w, b, b2. rewrite Hrot. done.
Qed.

Lemma batch_loop_core ps v w b b' room w' :
  core v = virtual w b -> chunk_size b = current_size w + len (chunk b) -> chunk_size b <= u64_max ->
  append_batch_loop None w b ps = (Ok b', room, w') ->
  room = None /\ exists ls v', appends v ps = (Ok ls, v') /\ core v' = virtual w' b' /\
    chunk_size b' = current_size w' + len (chunk b') /\ chunk_size b' <= u64_max /\
    match last ls with
    | None => v' = v /\ b' = b
    | Some l => last_entry_bytes v' = batch_entry_bytes b' /\ batch_last_lsn b' = l
    end.
Proof.
  revert v w b. induction ps as [|p ps IH]; intros v w b E Hcs Hm.
  - intros [= <- <- <-]. split; [done|]. exists [], v. done.
  - intros (bs & w1 & b1 & b2 & Hen & Hs & Hstep & Hpush & Hloop)%batch_loop_cons.
    destruct (append_core v w b p bs w1 b1 b2 E Hcs Hen Hs Hstep Hpush) as (v1 & Hv1 & Hcore & Hle & Hcs2).
    destruct (batch_push_last _ _ _ _ _ Hpush) as [Hbl Hm2].
    destruct (IH v1 w1 b2 Hcore Hcs2 Hm2 Hloop) as (-> & ls & v' & Happ & Hcore' & Hcs' & Hm' & Hlast).
    split; [done|]. exists (chunk_next_lsn b :: ls), v'. cbn [appends]. rewrite Hv1, Happ. split_and!; [done..|].
    rewrite last_cons. destruct (last ls); [done|]. by destruct Hlast as [-> ->].
Qed.

(** A batch is its records appended one by one. *)
Lemma batch_is_appends w ps l n w' :
  current_size w <= u64_max ->
  append_prepared_batch None w ps = (Ok (Some (l, n)), w') ->
  exists ls v, appends w ps = (Ok ls, v) /\ last ls = Some l /\ flush w' = flush v.
Proof.
  intros Hs. unfold append_prepared_batch. destruct ps as [|p ps]; [done|]. set (b0 := mkBatch _ _ _ _ _ _ _).
  destruct (append_batch_loop None w b0 (p :: ps)) as [[[b|] room] w1] eqn:Hloop; [|done].
  assert (E : core w = virtual w b0) by (unfold b0; rewrite virtual_nil; done).
  assert (Hb0 : chunk_size b0 = current_size w + len (chunk b0))
    by (unfold b0; cbn [chunk chunk_size]; change (len []) with 0; lia).
  destruct (batch_loop_core _ _ _ _ _ _ _ E Hb0 Hs Hloop) as (-> & ls & v & Happ & Hcore & Hcs & Hm & Hlast).
  destruct (chunk_core w1 b (batch_entry_bytes b) Hcs Hm) as (w2 & -> & Hcore2). intros [= <- <- <-].
  exists ls, v. split; [done|].
  destruct (last ls) as [l|] eqn:El.
  - destruct Hlast as [Hle ->]. split; [done|]. rewrite <- Hcore in Hcore2.
    transitivity (set_lsns (core v) (last_lsn v) (last_entry_bytes v) (next_lsn v)); [|by destruct v].
    rewrite <- Hcore2, Hle. destruct (core_fields _ _ Hcore2) as (_ & _ & _ & Hn & Hl). rewrite <- Hn, <- Hl. done.
  - exfalso. apply last_None in El as ->. cbn in Happ. repeat case_match; simplify_eq.
Qed.

End Batches.
