(* ===== verification/WalFailure.v ===== *)
(** * Writes that fail

    The operations of [WalLog.v] take [room], the number of bytes the file system still
    accepts.  An operation that succeeds although the room is limited does what it does
    without a limit.  A flush that fails keeps what it has not written.  An append that
    fails leaves the log as it was when [harmless]: it needs a new segment and there is a
    recycled file for it, or it needs none and nothing is buffered.  The other failures
    damage the log; [WalHistory.v] shows two of them. *)

From S2P Require Import Prelude.
From S2P Require Import Bytes.
From S2P Require Import BinaryIo.
From S2P Require Import WalTypes.
From S2P Require Import WalValue.
From S2P Require Import WalCodec.
From S2P Require Import WalExample.
From S2P Require Import WalEntry.
From S2P Require Import WalSegment.
From S2P Require Import WalLog.
From S2P Require Import WalReplay.
From S2P Require Import WalRecovery.

(** ** Operations that succeed *)

Lemma accept_true room bs room' bs' : accept room bs = (true, room', bs') -> bs' = bs.
Proof. unfold accept. destruct room as [k|]; [destruct (_ <=? _)%nat|]; by intros [=]. Qed.

Lemma file_write_true room w bs room' w' :
  file_write room w bs = (true, room', w') -> file_write None w bs = (true, None, w').
Proof.
  unfold file_write. destruct (accept room bs) as [[ok r] bs'] eqn:E. intros [= -> <- <-].
  apply accept_true in E as ->. done.
Qed.

Lemma flush_buf_true room w room' w' : flush_buf room w = (true, room', w') -> w' = flush w.
Proof.
  unfold flush_buf. destruct (file_write room w (buffer w)) as [[ok r] w1] eqn:E. intros [= -> <- <-].
  apply file_write_true in E. unfold flush, flush_buf. by rewrite E.
Qed.

Lemma write_all_true room w bs room' w' :
  write_all room w bs = (true, room', w') -> write_all None w bs = (true, None, w').
Proof.
  unfold write_all. destruct (len bs <? _); [by intros [= <- <-]|].
  destruct (_ <? len bs).
  - destruct (flush_buf room w) as [[[] r] w1] eqn:E; [|done]. apply flush_buf_true in E as ->.
    change (flush_buf None w) with (true, @None nat, flush w). cbn [negb].
    destruct (_ <=? _); [apply file_write_true|by intros [= <- <-]].
  - cbn [negb]. destruct (_ <=? _); [apply file_write_true|by intros [= <- <-]].
Qed.

Lemma open_next_true room w id room' w' :
  open_next_segment room w id = (true, room', w') -> open_next_segment None w id = (true, None, w').
Proof.
  unfold open_next_segment. destruct (recycled w) as [|x rest].
  - unfold open_segment_for_append. destruct (dir_get _ _) as [[|b bs]|]; [|by intros [= <- <-]|];
      (destruct (accept room _) as [[ok r] header] eqn:E; intros [= -> <- <-]; apply accept_true in E as ->; done).
  - destruct (accept room _) as [[ok r] header] eqn:E. intros [= -> <- <-]. by apply accept_true in E as ->.
Qed.

Lemma rotate_true room w u room' w' :
  rotate room w = (Ok u, room', w') -> rotate None w = (Ok u, None, w').
Proof.
  unfold rotate. change (flush_durable None w) with (true, @None nat, flush w).
  destruct (flush_durable room w) as [[[] r] w1] eqn:E; cbn [negb]; [|done]. apply flush_buf_true in E as ->.
  destruct (checked_next _) as [id|]; [|done].
  destruct (open_next_segment r (flush w) id) as [[[] r'] w2] eqn:E2; cbn [negb]; [|done].
  apply open_next_true in E2. rewrite E2. by intros [= <- <- <-].
Qed.

(** A rotation leaves an empty buffer. *)
Lemma rotate_buffer room w u room' w' : rotate room w = (Ok u, room', w') -> buffer w' = [].
Proof. intros Hr%rotate_true. rewrite rotate_none in Hr. destruct (checked_next _); by simplify_eq. Qed.

Section Success.
Context `{ExternalTypes} `{Compression}.

Lemma append_prepared_true room w p l w' :
  append_prepared room w p = (Ok l, w') -> append_prepared None w p = (Ok l, w').
Proof.
  unfold append_prepared. destruct (encode_prepared_entry _ _ _ _) as [bs|]; [|done].
  destruct (next_lsn_from _ _ _); [|done]. destruct (checked_add _ _ _); [|done].
  destruct (_ && _).
  - destruct (rotate room w) as [[[|] r] w1] eqn:E; [|done]. apply rotate_true in E as ->.
    destruct (write_all r w1 bs) as [[[] r'] w2] eqn:E2; [|done]. apply write_all_true in E2 as ->. done.
  - destruct (write_all room w bs) as [[[] r'] w2] eqn:E2; [|done]. apply write_all_true in E2 as ->. done.
Qed.

Lemma append_true room w r l w' : append room w r = (Ok l, w') -> append None w r = (Ok l, w').
Proof. unfold append. destruct (prepare_record_with_compression _ _); [apply append_prepared_true|done]. Qed.

Lemma write_chunk_true room w bs u room' w' :
  write_encoded_chunk room w bs = (Ok u, room', w') -> write_encoded_chunk None w bs = (Ok u, None, w').
Proof.
  unfold write_encoded_chunk. destruct (_ =? _); [by intros [= <- <- <-]|]. destruct (checked_add _ _ _); [|done].
  destruct (write_all room w bs) as [[[] r] w1] eqn:E; cbn [negb]; [|done]. apply write_all_true in E as ->.
  by intros [= <- <- <-].
Qed.

Lemma batch_loop_true room w b ps b' room' w' :
  append_batch_loop room w b ps = (Ok b', room', w') -> append_batch_loop None w b ps = (Ok b', None, w').
Proof.
  revert room w b. induction ps as [|p ps IH]; intros room w b; cbn [append_batch_loop]; [by intros [= <- <- <-]|].
  destruct (encode_prepared_entry _ _ _ _) as [bs|]; [|done]. destruct (checked_add _ _ _); [|done].
  destruct (_ && _); [|destruct (batch_push _ _ _ _); [apply IH|done]].
  destruct (write_encoded_chunk room w (chunk b)) as [[[u|] r] w1] eqn:E; [|done]. apply write_chunk_true in E as ->.
  destruct (rotate r _) as [[[u'|] r'] w2] eqn:E2; [|done]. apply rotate_true in E2 as ->.
  destruct (encode_prepared_entry _ _ _ _) as [bs'|]; [|done]. destruct (batch_push _ _ _ _); [apply IH|done].
Qed.

Lemma append_batch_true room w ps x w' :
  append_prepared_batch room w ps = (Ok x, w') -> append_prepared_batch None w ps = (Ok x, w').
Proof.
  unfold append_prepared_batch. destruct ps as [|p ps]; [done|].
  destruct (append_batch_loop room w _ _) as [[[b|] r] w1] eqn:E; [|done]. apply batch_loop_true in E as ->.
  destruct (write_encoded_chunk r w1 (chunk b)) as [[[u|] r'] w2] eqn:E2; [|done]. apply write_chunk_true in E2 as ->.
  done.
Qed.

End Success.

(** ** Operations that fail *)

Lemma accept_false room bs room' bs' :
  accept room bs = (false, room', bs') -> exists k, room = Some k /\ bs' = take k bs.
Proof. unfold accept. destruct room as [k|]; [destruct (_ <=? _)%nat|]; intros [= <- <-]. by exists k. Qed.

(** A flush, whether it fails or not, loses nothing of the log. *)
Lemma flush_buf_keeps room w ok room' w' : flush_buf room w = (ok, room', w') -> flush w' = flush w.
Proof.
  intros Hf. destruct ok; [apply flush_buf_true in Hf as ->; apply flush_flush|].
  unfold flush_buf, file_write in Hf. destruct (accept room (buffer w)) as [[ok r] bs] eqn:E. injection Hf as -> <- <-.
  apply accept_false in E as (k & -> & ->). rewrite !flush_eq. unfold set_buffer, set_file, current_bytes.
  cbn [config dir recycled current_segment buffer current_size next_lsn last_lsn last_entry_bytes lsn_step_mode].
  rewrite dir_put_put, dir_get_put. change (default [] (Some ?x)) with x. by rewrite <- app_assoc, take_drop.
Qed.

Section Failure.
Context `{ExternalLaws} `{CompressionLaws}.

(** The append needs a new segment. *)
Definition rotates (w : WalWriter) (r : WalRecord) : bool :=
  match prepare_record_with_compression r (wal_compression (config w)) with
  | Err _ => false
  | Ok p =>
      match encode_prepared_entry (next_lsn w) (lsn_or_zero (last_lsn w)) LEGACY_DATABASE_ID p with
      | Err _ => false
      | Ok bs => (0 <? current_size w) && (segment_max_bytes (config w) <? current_size w + len bs)
      end
  end.

(** The failed append leaves no trace in the log. *)
Definition harmless (room : option nat) (w : WalWriter) (r : WalRecord) : Prop :=
  room = None \/ (if rotates w r then recycled w <> [] else buffer w = []).

Lemma rotate_err room w e room' w' :
  room = None \/ recycled w <> [] -> rotate room w = (Err e, room', w') -> flush w' = flush w.
Proof.
  intros [-> | Hr].
  { rewrite rotate_none. destruct (checked_next _); intros [= <- <- <-]. apply flush_flush. }
  unfold rotate. destruct (flush_durable room w) as [[ok r] w1] eqn:E. pose proof (flush_buf_keeps _ _ _ _ _ E) as Hf.
  destruct ok; cbn [negb]; [|by intros [= <- <- <-]]. apply flush_buf_true in E as ->.
  destruct (checked_next _) as [id|]; [|by intros [= <- <- <-]]. unfold open_next_segment.
  change (recycled (flush w)) with (recycled w). destruct (recycled w) as [|x rest]; [done|].
  destruct (accept r _) as [[[] r'] header]; cbn [negb]; [done|]. by intros [= <- <- <-].
Qed.

Lemma current_length w closed its :
  log_inv w closed its -> buffer w = [] -> len (current_bytes w) = current_size w /\ 22 <= current_size w.
Proof.
  intros [] Hb. pose proof (len_nonneg (bytes_of its)). split; [|lia].
  pose proof (sorted_below (mode_of w) (identity_of w) closed _ (lf_ids _ _ li_log)) as Hbl. cbn [seg_id] in Hbl.
  assert (Hc : current_bytes (flush w) = current_bytes w) by (rewrite flush_bytes, Hb; apply app_nil_r).
  rewrite <- Hc. unfold current_bytes. change (current_segment (flush w)) with (current_segment w).
  rewrite li_dir. unfold segments_of. rewrite files_snoc. cbn [seg_id]. rewrite dir_get_last by done. change (default [] (Some ?x)) with x.
  rewrite segment_len. cbn [seg_items seg_tail]. change (len []) with 0. lia.
Qed.

(** [recover_failed_append] after a write that found the buffer empty. *)
Lemma recover_keeps w closed its room bs room' w' :
  log_inv w closed its -> buffer w = [] -> write_all room w bs = (false, room', w') ->
  flush (recover_failed_append room' w') = flush w.
Proof.
  intros Hi Hb Hw. destruct (current_length w closed its Hi Hb) as [Hl Hpos].
  assert (Hd : exists k, config w' = config w /\ recycled w' = recycled w /\ current_segment w' = current_segment w /\
    current_size w' = current_size w /\ next_lsn w' = next_lsn w /\ last_lsn w' = last_lsn w /\
    last_entry_bytes w' = last_entry_bytes w /\ lsn_step_mode w' = lsn_step_mode w /\
    dir w' = dir_put (dir w) (current_segment w) (current_bytes w ++ take k bs)).
  { unfold write_all in Hw. rewrite Hb in Hw. change (len []) with 0 in Hw.
    destruct (len bs <? _); [done|]. unfold flush_buf, file_write in Hw. rewrite Hb in Hw.
    assert (Ha : accept room [] = (true, room, [])) by (destruct room as [k|]; cbn; [by rewrite Nat.sub_0_r|done]).
    rewrite Ha in Hw. destruct (_ <? len bs); cbn [negb] in Hw;
      (destruct (_ <=? len bs); [|done]; destruct (accept room bs) as [[ok r] bs'] eqn:E; injection Hw as -> <- <-;
       apply accept_false in E as (k & -> & ->); exists k; split_and!; try done;
       unfold set_buffer, set_file, current_bytes; cbn [dir current_segment];
       rewrite ?dir_put_put, ?dir_get_put; change (default [] (Some ?x)) with x; by rewrite ?app_nil_r). }
  destruct Hd as (k & Hc & Hr & Hs & Hz & Hn & Hll & Hle & Hm & Hd).
  assert (Hcur : set_len (current_bytes w') (current_size w) = current_bytes w).
  { unfold current_bytes at 1. rewrite Hs, Hd, dir_get_put. change (default [] (Some ?x)) with x. unfold set_len. rewrite <- Hl. unfold len.
    rewrite Nat2Z.id, take_app_length, length_app.
    replace (length (current_bytes w) - _)%nat with 0%nat by lia. apply app_nil_r. }
  unfold recover_failed_append, open_segment_for_append. cbn [set_buffer set_file dir current_segment current_size config lsn_step_mode].
  change (current_bytes (set_buffer w' [])) with (current_bytes w'). rewrite Hz, Hs, Hcur, dir_get_put.
  destruct (current_bytes w) as [|b bs'] eqn:Eb; [change (len []) with 0 in Hl; lia|]. rewrite <- Eb.
  rewrite !flush_eq, Hb, app_nil_r. unfold set_buffer, set_file, set_dir, current_bytes.
  cbn [config dir recycled current_segment buffer current_size next_lsn last_lsn last_entry_bytes lsn_step_mode].
  rewrite Hd, Hs, !dir_put_put, dir_get_put. change (default [] (Some ?x)) with x. rewrite app_nil_r. congruence.
Qed.

(** The write at the end of a failed append. *)
Lemma write_err w closed its room bs :
  log_inv w closed its -> room = None \/ buffer w = [] -> current_size w + len bs <= u64_max ->
  let '(ok, room, w1) := write_all room w bs in
  if negb ok then flush (recover_failed_append room w1) = flush w
  else exists size, checked_add u64_max (current_size w1) (len bs) = Some size.
Proof.
  intros Hi Hb Hs. destruct (write_all room w bs) as [[[] r] w1] eqn:E; cbn [negb].
  - apply write_all_true in E. destruct (write_all_ok w bs) as (w2 & E2 & Hf). rewrite E in E2. injection E2 as <-.
    assert (Hn : current_size w1 = current_size w) by exact (f_equal current_size Hf).
    exists (current_size w + len bs). unfold checked_add. rewrite Hn. by rewrite (proj2 (Z.leb_le _ _) Hs).
  - destruct Hb as [-> | Hb]; [by destruct (write_all_ok w bs) as (w2 & E2 & _); rewrite E in E2|].
    by apply (recover_keeps w closed its room bs r w1).
Qed.

(** A harmless failure leaves the log, its configuration and its mode. *)
Lemma append_err room w xs r e w' :
  logs w xs -> harmless room w r -> append room w r = (Err e, w') -> logs w' xs /\ same_setup w w'.
Proof.
  intros Hl Hh Ha.
  assert (Hsame : flush w' = flush w -> logs w' xs /\ same_setup w w').
  { intros Hf. destruct Hl as (closed & its & Hi & ->). split; [exists closed, its; split; [by eapply log_inv_fields|done]|].
    split; [exact (f_equal config Hf)|exact (f_equal lsn_step_mode Hf)]. }
  unfold append, harmless, rotates in *.
  destruct (prepare_record_with_compression _ _) as [p|]; [|apply Hsame; by injection Ha as _ <-]. unfold append_prepared in Ha.
  destruct (encode_prepared_entry _ _ _ _) as [bs|]; [|apply Hsame; by injection Ha as _ <-].
  destruct (next_lsn_from _ _ _); [|apply Hsame; by injection Ha as _ <-]. unfold checked_add at 1 in Ha.
  destruct (Z.leb_spec (current_size w + len bs) u64_max) as [Hsz|]; [|apply Hsame; by injection Ha as _ <-].
  destruct Hl as (closed & its & Hi & ->). destruct (_ && _).
  - destruct (rotate room w) as [[[u|] r'] w1] eqn:E;
      [|injection Ha as _ <-; by apply Hsame, (rotate_err room w e0 r' w1)]. clear Hsame.
    pose proof (rotate_buffer _ _ _ _ _ E) as Hb. apply rotate_true in E. pose proof (rotate_inv w closed its Hi) as Hr.
    rewrite E in Hr. destruct Hr as (_ & Hi1 & Hm & Hc & _ & _ & Hs1).
    pose proof (li_size _ _ _ Hi) as Hz. pose proof (len_nonneg (bytes_of its)).
    pose proof (write_err w1 _ [] r' bs Hi1 (or_intror Hb) ltac:(lia)) as Hw.
    destruct (write_all r' w1 bs) as [[[] r2] w2]; cbn [negb] in *; [by destruct Hw as [size Hw]; rewrite Hw in Ha|].
    injection Ha as _ <-. split.
    + exists (segments_of w closed its), []. split; [by eapply log_inv_fields|]. by rewrite segments_items, app_nil_r.
    + split; [exact (eq_trans (f_equal config Hw) Hc)|exact (eq_trans (f_equal lsn_step_mode Hw) Hm)].
  - pose proof (write_err w closed its room bs Hi Hh Hsz) as Hw.
    destruct (write_all room w bs) as [[[] r2] w2]; cbn [negb] in *; [by destruct Hw as [size Hw]; rewrite Hw in Ha|].
    apply Hsame. by injection Ha as _ <-.
Qed.

End Failure.
