(* ===== verification/WalRetention.v ===== *)
(** * Removal of old segments

    [remove_logs] follows [WalWriter::remove_segments_before_with_min_segments] over the
    directory of a log whose closed segments are not empty: it removes a prefix of the
    closed segments, with entries below the given LSN only, and what is left is a log. *)

From S2P Require Import Prelude.
From S2P Require Import Bytes.
From S2P Require Import BinaryIo.
From S2P Require Import WalTypes.
From S2P Require Import WalValue.
From S2P Require Import WalCodec.
From S2P Require Import WalExample.
From S2P Require Import WalEntry.
From S2P Require Import WalSegment.
From S2P Require Import WalLog.
From S2P Require Import WalReplay.
From S2P Require Import WalRecovery.

Section Retention.
Context `{ExternalLaws} `{CompressionLaws}.
Context (m : LsnMode).

(** ** LSNs ascend *)

Lemma chained_above prev xs :
  Forall item_ok xs -> chained m prev xs ->
  match prev with Some p => item_ok p | None => True end ->
  match prev with Some p => Forall (fun x => item_lsn p < item_lsn x) xs | None => True end /\
  StronglySorted (fun a b => lsn a < lsn b) (map fst xs).
Proof.
  intros Hok. revert prev. induction Hok as [|x xs Hx Hxs IH]; intros prev Hch Hp.
  - split; [by destruct prev|constructor].
  - destruct Hch as [Hf Hch]. destruct (IH (Some x) Hch Hx) as [Ha Hs]. split.
    + destruct prev as [p|]; [|done]. destruct Hf as [Hl _]. pose proof (item_size p Hp).
      assert (Hlt : item_lsn p < item_lsn x) by (rewrite Hl; destruct m; cbn [step]; lia).
      constructor; [done|]. eapply Forall_impl; [exact Ha|]. cbn. lia.
    + cbn [map]. constructor; [done|]. by apply Forall_map.
Qed.

Lemma chained_last prev xs l :
  Forall item_ok xs -> chained m prev xs -> last xs = Some l -> Forall (fun x => item_lsn x <= item_lsn l) xs.
Proof.
  intros Hok. revert prev. induction Hok as [|x xs Hx Hxs IH]; intros prev Hch Hl; [done|]. destruct Hch as [_ Hch].
  rewrite last_cons in Hl. destruct (last xs) as [y|] eqn:E; simplify_eq.
  - constructor; [|by eapply IH]. destruct (chained_above (Some x) xs Hxs Hch Hx) as [Ha _].
    rewrite Forall_forall in Ha. apply last_Some_elem_of in E. specialize (Ha l E). lia.
  - apply last_None in E as ->. by constructor.
Qed.

Lemma next_above w closed its :
  lsn_step_mode w = m -> log_inv w closed its ->
  Forall (fun x => item_lsn x < next_lsn w) (items_of closed ++ its).
Proof.
  intros Hm Hi. pose proof (log_items _ _ _ Hi) as Hok. pose proof (li_lsns _ _ _ Hi) as Hn.
  pose proof (lf_chain _ _ (li_log _ _ _ Hi)) as Hch. rewrite segments_items in Hch. unfold mode_of in Hch. rewrite Hm in Hch.
  unfold lsns_ok in Hn. destruct (last (items_of closed ++ its)) as [l|] eqn:E.
  - destruct Hn as [_ Hn]. pose proof (chained_last None _ l Hok Hch E) as Hle. apply last_Some_elem_of in E.
    rewrite Forall_forall in Hok. pose proof (item_size l (Hok l E)). eapply Forall_impl; [exact Hle|]. cbv beta.
    intros x Hx. rewrite Hn. destruct (mode_of w); cbn [step]; lia.
  - apply last_None in E. by rewrite E.
Qed.

(** ** The removal *)

Lemma first_lsn_ok w m' i ss s :
  identity_ok i -> dir w = files m' i ss -> StronglySorted Z.lt (map seg_id ss) -> s ∈ ss ->
  Forall item_ok (seg_items s) -> seg_tail s = [] -> len (segment_bytes m' i s) <= effective_segment_scan_cap (config w) ->
  first_lsn_in_segment w (seg_id s) = Ok (item_lsn <$> head (seg_items s)).
Proof.
  intros Hid Hd Hs Hin Hok Ht Hcap. unfold first_lsn_in_segment, read_segment_bytes_bounded. rewrite Hd.
  rewrite (dir_get_in _ _ (segment_bytes m' i s));
    [|unfold ascending; by rewrite files_ids|apply list_elem_of_fmap; by exists s].
  destruct (Z.ltb_spec (effective_segment_scan_cap (config w)) (len (segment_bytes m' i s))); [lia|].
  unfold parse_header, segment_bytes at 1. rewrite header_roundtrip by done. change (default _ (Some ?r)) with r. cbv iota.
  cbn [entry_offset header_info].
  assert (Hdrop : drop (Z.to_nat SEGMENT_HEADER_SIZE) (segment_bytes m' i s) = bytes_of (seg_items s) ++ seg_tail s) by done.
  rewrite Hdrop, segment_len, Ht, app_nil_r. change (len []) with 0. unfold SEGMENT_HEADER_SIZE.
  destruct (seg_items s) as [|x xs]; [done|]. apply Forall_cons in Hok as [Hx _]. rewrite bytes_of_cons, len_app.
  fold (item_len x). pose proof (item_size x Hx). pose proof (len_nonneg (bytes_of xs)).
  destruct (Z.leb_spec (22 + (item_len x + len (bytes_of xs)) + 0) 22); [lia|]. by rewrite item_decodes.
Qed.

(** Once a segment is kept for its LSN or by count, so are those after it. *)
Lemma remove_keeps w m' i kept s rest before keep_from j removed :
  identity_ok i -> dir w = files m' i (kept ++ s :: rest) -> StronglySorted Z.lt (map seg_id (kept ++ s :: rest)) ->
  Forall item_ok (items_of (s :: rest)) -> Forall (fun s => seg_tail s = []) (s :: rest) ->
  Forall (fun s => len (segment_bytes m' i s) <= effective_segment_scan_cap (config w)) (kept ++ s :: rest) ->
  keep_from <= j \/ Forall (fun x => before < item_lsn x) (items_of rest) ->
  remove_loop w before keep_from j removed (map seg_id (s :: rest)) = (Ok removed, w).
Proof.
  intros Hid. revert s kept j. induction rest as [|t rest IH]; intros s kept j Hd Hs Hok Ht Hcap Hk; [done|].
  rewrite items_of_cons in Hok. apply Forall_app in Hok as [Hoks Hok]. apply Forall_cons in Ht as [_ Ht].
  assert (Hnext : remove_loop w before keep_from (j + 1) removed (map seg_id (t :: rest)) = (Ok removed, w)).
  { apply (IH t (kept ++ [s])); rewrite <- ?app_assoc; try done. destruct Hk as [Hk|Hk]; [left; lia|right].
    rewrite items_of_cons in Hk. by apply Forall_app in Hk as [_ Hk]. }
  cbn [map remove_loop] in *. destruct (Z.leb_spec keep_from j) as [Hle|Hgt]; [by rewrite orb_true_r|].
  destruct Hk as [|Hk]; [lia|]. rewrite orb_false_r. destruct (seg_id s =? current_segment w); [done|].
  rewrite items_of_cons in Hok, Hk. apply Forall_app in Hok as [Hokt _]. apply Forall_cons in Ht as [Htt _].
  rewrite (first_lsn_ok w m' i (kept ++ s :: t :: rest) t); [|done|done|done|set_solver|done|done|].
  - destruct (seg_items t) as [|x xs]; [done|]. cbn. cbn in Hk. apply Forall_cons in Hk as [Hx _].
    destruct (Z.leb_spec (item_lsn x) before); [lia|done].
  - rewrite Forall_forall in Hcap. apply Hcap. set_solver.
Qed.

Lemma dir_del_head m' i s ss :
  StronglySorted Z.lt (map seg_id (s :: ss)) -> dir_del (files m' i (s :: ss)) (seg_id s) = files m' i ss.
Proof.
  intros [_ Hs]%StronglySorted_inv. unfold dir_del.
  change (files m' i (s :: ss)) with ((seg_id s, segment_bytes m' i s) :: files m' i ss).
  cbn [List.filter fst]. rewrite Z.eqb_refl. cbn [negb].
  induction ss as [|t ss IH]; [done|]. cbn [map] in Hs. apply Forall_cons in Hs as [Ht Hs].
  change (files m' i (t :: ss)) with ((seg_id t, segment_bytes m' i t) :: files m' i ss).
  cbn [List.filter fst]. destruct (Z.eqb_spec (seg_id t) (seg_id s)); [lia|]. cbn [negb]. by rewrite IH.
Qed.

(** Entries of one part of the log are below those of a later part. *)
Lemma chained_below xs x ys :
  Forall item_ok (xs ++ x :: ys) -> chained m None (xs ++ x :: ys) ->
  Forall (fun y => item_lsn y < item_lsn x) xs /\ Forall (fun y => item_lsn x < item_lsn y) ys.
Proof.
  intros Hok Hch. apply Forall_app in Hok as [Hxs Hok]. apply Forall_cons in Hok as [Hx Hys].
  apply chained_app in Hch as [Hch1 Hch2]. cbn [chained] in Hch2. destruct Hch2 as [Hf Hch2]. split.
  - destruct (last xs) as [l|] eqn:E; [|by apply last_None in E as ->].
    pose proof (chained_last None xs l Hxs Hch1 E) as Hle. apply last_Some_elem_of in E. rewrite Forall_forall in Hxs.
    pose proof (item_size l (Hxs l E)). destruct Hf as [Hl _]. eapply Forall_impl; [exact Hle|]. cbv beta.
    intros y Hy. rewrite Hl. destruct m; cbn [step]; lia.
  - by destruct (chained_above (Some x) ys Hys Hch2 Hx) as [Ha _].
Qed.

Lemma chained_weaken prev xs : chained m prev xs -> chained m None xs.
Proof. destruct xs; cbn; tauto. Qed.

Definition same_log (w w' : WalWriter) : Prop :=
  config w' = config w /\ current_segment w' = current_segment w /\ buffer w' = buffer w /\
  current_size w' = current_size w /\ next_lsn w' = next_lsn w /\ last_lsn w' = last_lsn w /\
  lsn_step_mode w' = lsn_step_mode w.

(** The loop removes a prefix of the closed segments. *)
Lemma remove_prefix w i closed cur before keep_from j removed :
  identity_ok i -> dir w = files m i (closed ++ [cur]) -> current_segment w = seg_id cur ->
  StronglySorted Z.lt (map seg_id (closed ++ [cur])) -> Forall item_ok (items_of (closed ++ [cur])) ->
  chained m None (items_of (closed ++ [cur])) -> Forall (fun s => seg_tail s = []) (closed ++ [cur]) ->
  Forall (fun s => seg_items s <> []) closed ->
  Forall (fun s => len (segment_bytes m i s) <= effective_segment_scan_cap (config w)) (closed ++ [cur]) ->
  exists pre post n w', closed = pre ++ post /\
    remove_loop w before keep_from j removed (map seg_id (closed ++ [cur])) = (Ok n, w') /\
    dir w' = files m i (post ++ [cur]) /\ same_log w w' /\
    Forall (fun x => item_lsn x < before) (items_of pre) /\ (pre <> [] -> items_of (post ++ [cur]) <> []).
Proof.
  intros Hid. revert w j removed. induction closed as [|s closed IH]; intros w j removed Hd Hcur Hs Hok Hch Ht Hne Hcap.
  { exists [], [], removed, w. split; [done|]. split; [done|]. split; [done|]. split; [done|]. split; [constructor|done]. }
  assert (Hstay : keep_from <= j \/ Forall (fun x => before < item_lsn x) (items_of (closed ++ [cur])) ->
    exists pre post n w', s :: closed = pre ++ post /\
      remove_loop w before keep_from j removed (map seg_id ((s :: closed) ++ [cur])) = (Ok n, w') /\
      dir w' = files m i (post ++ [cur]) /\ same_log w w' /\
      Forall (fun x => item_lsn x < before) (items_of pre) /\ (pre <> [] -> items_of (post ++ [cur]) <> [])).
  { intros Hk. exists [], (s :: closed), removed, w. split; [done|]. split; [|done].
    apply (remove_keeps w m i [] s (closed ++ [cur])); done. }
  destruct (Z.le_gt_cases keep_from j) as [Hle|Hgt]; [by apply Hstay; left|].
  cbn [app] in *. rewrite items_of_cons in Hok, Hch. apply Forall_cons in Hne as [_ Hne].
  pose proof (Forall_inv Hcap) as Hcaps. apply Forall_cons in Hcap as [_ Hcap]. apply Forall_cons in Ht as [_ Ht].
  assert (Hid' : seg_id s < seg_id cur).
  { apply StronglySorted_inv in Hs as [_ Hs]. rewrite Forall_forall in Hs. apply Hs. apply list_elem_of_fmap. exists cur. set_solver. }
  destruct (closed ++ [cur]) as [|t rest] eqn:E; [by destruct closed|].
  destruct (seg_items t) as [|x xs] eqn:Et.
  { apply Hstay. right. destruct closed as [|t' closed]; cbn in E; injection E as <- <-.
    - rewrite items_of_cons, Et. constructor.
    - by apply Forall_cons in Hne as [Hne _]. }
  rewrite items_of_cons, Et in Hok, Hch. cbn [app] in Hok, Hch.
  destruct (chained_below (seg_items s) x (xs ++ items_of rest) Hok Hch) as [Hlow Hhigh].
  destruct (Z.le_gt_cases (item_lsn x) before) as [Hle|Hgt'].
  2:{ apply Hstay. right. rewrite items_of_cons, Et. cbn [app]. constructor; [lia|].
      eapply Forall_impl; [exact Hhigh|]. cbv beta. lia. }
  destruct (IH (recycle_segment w (seg_id s)) (j + 1) (removed + 1)) as (pre & post & n & w' & Ep & Hl & Hdir & Hsame & Hpre & Hnem); try done.
  - cbn [recycle_segment dir]. rewrite Hd. by apply dir_del_head.
  - by apply StronglySorted_inv in Hs as [Hs _].
  - apply Forall_app in Hok as [_ Hok]. rewrite items_of_cons, Et. exact Hok.
  - rewrite items_of_cons, Et. apply chained_app in Hch as [_ Hch]. by eapply chained_weaken.
  - exists (s :: pre), post, n, w'. split; [by rewrite Ep|]. split_and!; [|done|done| |].
    + cbn [map remove_loop]. rewrite Hcur. destruct (Z.eqb_spec (seg_id s) (seg_id cur)); [lia|].
      destruct (Z.leb_spec keep_from j); [lia|]. cbn [orb].
      rewrite (first_lsn_ok w m i (s :: t :: rest) t Hid Hd Hs); [|set_solver| | |].
      * rewrite Et. cbn [head fmap option_fmap option_map]. destruct (Z.leb_spec (item_lsn x) before); [exact Hl|lia].
      * rewrite Et. apply Forall_app in Hok as [_ Hok]. change (x :: xs ++ items_of rest) with ((x :: xs) ++ items_of rest) in Hok.
        by apply Forall_app in Hok as [Hok _].
      * by apply Forall_cons in Ht as [Ht _].
      * by apply Forall_cons in Hcap as [Hcap _].
    + rewrite items_of_cons. apply Forall_app. split; [|done]. eapply Forall_impl; [exact Hlow|]. cbv beta. lia.
    + intros _. destruct pre as [|q pre]; [|by apply Hnem]. cbn in Ep. subst post. rewrite E, items_of_cons, Et. done.
Qed.

Lemma log_files_suffix pre post cur :
  log_files m (pre ++ post ++ [cur]) -> log_files m (post ++ [cur]).
Proof.
  intros []. rewrite map_app, items_of_app in *. apply Forall_app in lf_tails as [_ Ht]. apply Forall_app in lf_last as [_ Hl].
  apply Forall_app in lf_items as [_ Hi]. apply chained_app in lf_chain as [_ Hc].
  constructor; [|done| |done|by eapply chained_weaken].
  - clear -lf_ids. induction (map seg_id pre) as [|a l IH]; [done|]. apply IH. by apply StronglySorted_inv in lf_ids as [? _].
  - rewrite map_app in *. cbn in *. rewrite app_assoc in Hl. by rewrite last_snoc in Hl |- *.
Qed.

Lemma from_lsn_app start xs ys : from_lsn start (xs ++ ys) = from_lsn start xs ++ from_lsn start ys.
Proof. unfold from_lsn. by rewrite filter_app, map_app. Qed.

Lemma from_lsn_below start xs : Forall (fun x => item_lsn x < start) xs -> from_lsn start xs = [].
Proof.
  unfold from_lsn. induction 1 as [|x xs Hx Hxs IH]; [done|]. by rewrite filter_cons_False by lia.
Qed.

Lemma closed_nonempty i closed cur :
  StronglySorted Z.lt (map seg_id (closed ++ [cur])) -> Forall (fun s => seg_tail s = []) closed ->
  Forall (fun f => fst f <> seg_id cur -> 22 < len (snd f)) (files m i (closed ++ [cur])) ->
  Forall (fun s => seg_items s <> []) closed.
Proof.
  intros Hs Ht Hf. pose proof (sorted_below m i closed cur Hs) as Hb. unfold below in Hb. rewrite files_ids in Hb.
  rewrite files_snoc in Hf. apply Forall_app in Hf as [Hf _]. unfold files in Hf. rewrite Forall_map in Hf. rewrite Forall_map in Hb.
  rewrite Forall_forall in *. intros s Hin E. specialize (Hf s Hin). specialize (Hb s Hin). specialize (Ht s Hin). cbn [fst snd] in *.
  rewrite segment_len, E, Ht in Hf. change (len (bytes_of [])) with 0 in Hf. change (len []) with 0 in Hf. lia.
Qed.

(** Without the removed segments the log is a log. *)
Lemma remove_inv w w' pre post its :
  lsn_step_mode w = m -> log_inv w (pre ++ post) its -> same_log (flush w) w' ->
  dir w' = files m (identity_of w) (segments_of w post its) ->
  (pre <> [] -> items_of (segments_of w post its) <> []) -> log_inv w' post its.
Proof.
  intros Hm Hi Hsame Hd Hne. pose proof Hi as []. destruct Hsame as (Hc & Hs & Hb & Hz & Hn & Hl & Hm').
  cbn [flush flush_buf file_write accept snd set_buffer set_file config current_segment buffer current_size next_lsn last_lsn lsn_step_mode] in *.
  unfold segments_of, mode_of, identity_of in *. rewrite Hm in *. rewrite <- app_assoc in li_log.
  pose proof (log_files_suffix pre post _ li_log) as Hlog. apply Forall_app in li_tails as [_ Htails].
  pose proof (sorted_below m (identity (config w)) post _ (lf_ids _ _ Hlog)) as Hbl. cbn [seg_id] in Hbl.
  constructor; unfold segments_of, mode_of, identity_of, lsns_ok; rewrite ?Hs, ?Hm', ?Hc, ?Hz, ?Hn, ?Hl.
  - rewrite flush_eq. unfold set_buffer, set_file, current_bytes. cbn [dir]. rewrite Hb, Hs, Hd, app_nil_r.
    rewrite files_snoc. cbn [seg_id]. rewrite dir_get_last by done. change (default [] (Some ?x)) with x.
    by rewrite dir_put_last.
  - done.
  - done.
  - done.
  - unfold lsns_ok, mode_of in li_lsns. rewrite items_of_app, <- app_assoc, last_app, Hm in li_lsns.
    destruct (last (items_of post ++ its)) as [x|] eqn:E; [unfold mode_of; by rewrite Hm'|].
    destruct pre as [|p pre]; [exact li_lsns|]. apply last_None in E. specialize (Hne ltac:(done)).
    rewrite items_of_app in Hne. cbn in Hne. by rewrite app_nil_r in Hne.
  - done.
Qed.

(** The removal, on a flushed log; what is left is a log. *)
Lemma remove_logs w closed its before min_keep :
  lsn_step_mode w = m -> log_inv w closed its ->
  Forall (fun s => len (segment_bytes m (identity_of w) s) <= effective_segment_scan_cap (config w)) (segments_of w closed its) ->
  Forall (fun f => fst f <> current_segment w -> 22 < len (snd f)) (dir (flush w)) ->
  exists pre post n w', closed = pre ++ post /\
    remove_segments_before_with_min_segments (flush w) before min_keep = (Ok n, w') /\
    dir w' = files m (identity_of w) (segments_of w post its) /\ same_log (flush w) w' /\
    log_inv w' post its /\ Forall (fun x => item_lsn x < before) (items_of pre).
Proof.
  intros Hm Hi Hcap Hne. unfold remove_segments_before_with_min_segments, list_segments.
  pose proof Hi as []. assert (Hmode : mode_of w = m) by done. rewrite Hmode in *.
  destruct (_ <=? 1).
  { exists [], closed, 0, (flush w). split; [done|]. split; [done|]. split; [done|]. split; [done|].
    split; [apply (log_inv_fields w); [apply flush_flush|done]|constructor]. }
  unfold segments_of in *. set (cur := mkSegment (current_segment w) its []) in *.
  rewrite li_dir in *. rewrite files_ids.
  destruct (remove_prefix (flush w) (identity_of w) closed cur before (saturating_sub (len (map seg_id (closed ++ [cur]))) min_keep) 0 0)
    as (pre & post & n & w' & -> & Hr & Hd & Hsame & Hpre & Hnem); try done.
  - apply (lf_ids _ _ li_log).
  - apply (lf_items _ _ li_log).
  - apply (lf_chain _ _ li_log).
  - apply Forall_app. split; [done|by constructor].
  - by apply (closed_nonempty (identity_of w) closed cur (lf_ids _ _ li_log)).
  - exists pre, post, n, w'. split; [done|]. split; [exact Hr|]. split; [done|]. split; [done|]. split; [|done].
    by apply (remove_inv w w' pre post its).
Qed.

End Retention.
