(* ===== verification/WalHistory.v ===== *)
(** * What the log guarantees

    [history] collects the ways a writer comes about: opened on an empty directory,
    appended to one by one or in batches, flushed, relieved of old segments, and crashed
    and reopened.  Writes may fail where the code copes with it.  The theorems say what a
    reader finds after any of them, what a crash can take, that batches are appends, and
    which removals of old segments are safe.  Outside of it are: records that do not
    replay or are malformed ([loggable]), LSNs within [2^33] of the largest, batches
    that fail, failed appends that are not [harmless], removals while a closed segment is
    empty, and crashes within the header of a segment or of a log beyond the limits of
    [WalWriter::open].  The last sections show where the code falls short there, for every
    interrupted creation of a segment and by evaluating three concrete scenarios. *)

From S2P Require Import Prelude.
From S2P Require Import Bytes.
From S2P Require Import BinaryIo.
From S2P Require Import WalTypes.
From S2P Require Import WalValue.
From S2P Require Import WalCodec.
From S2P Require Import WalExample.
From S2P Require Import WalEntry.
From S2P Require Import WalSegment.
From S2P Require Import WalLog.
From S2P Require Import WalReplay.
From S2P Require Import WalRecovery.
From S2P Require Import WalFailure.
From S2P Require Import WalRetention.

Section Crashes.
Context `{ExternalLaws} `{CompressionLaws}.

(** The entries that lie within the first [k] bytes. *)
Fixpoint survive (k : Z) (xs : list Item) : list Item :=
  match xs with
  | [] => []
  | x :: xs' => if item_len x <=? k then x :: survive (k - item_len x) xs' else []
  end.

(** The directory after a crash that leaves [k] bytes of the current segment; what was
    buffered may or may not have reached the file. *)
Definition crash (w : WalWriter) (k : Z) : Dir :=
  dir_put (dir w) (current_segment w) (take (Z.to_nat k) (current_bytes w ++ buffer w)).

Lemma survive_prefix k xs : exists ys, xs = survive k xs ++ ys.
Proof.
  revert k. induction xs as [|x xs IH]; intros k; [by exists []|]. cbn. destruct (_ <=? _); [|by exists (x :: xs)].
  destruct (IH (k - item_len x)) as [ys Hy]. exists ys. cbn. by rewrite <- Hy.
Qed.

(** A cut leaves the surviving entries and something that is no entry. *)
Lemma cut_survive xs k :
  Forall item_ok xs -> 0 <= k ->
  exists tail, take (Z.to_nat k) (bytes_of xs) = bytes_of (survive k xs) ++ tail /\ tail_ok tail.
Proof.
  intros Hok. revert k. induction Hok as [|x xs Hx Hxs IH]; intros k Hk.
  - exists []. split; [apply take_nil|by left].
  - rewrite bytes_of_cons. cbn [survive]. destruct (Z.leb_spec (item_len x) k) as [Hle|Hgt].
    + destruct (IH (k - item_len x)) as (tail & Ht & Hok); [lia|]. exists tail. split; [|done].
      rewrite bytes_of_cons, <- app_assoc, <- Ht. unfold item_len, len in *. rewrite take_app_ge by lia. do 2 f_equal. lia.
    + exists (take (Z.to_nat k) (snd x)). unfold item_len, len in Hgt. rewrite take_app_le by lia. split; [done|].
      right. apply item_torn; [done|]. lia.
Qed.

Lemma crash_flush w k : crash w k = dir_put (dir (flush w)) (current_segment w) (take (Z.to_nat k) (current_bytes (flush w))).
Proof.
  unfold crash. rewrite flush_bytes, flush_eq. unfold set_buffer, set_file. cbn [dir current_segment].
  by rewrite dir_put_put.
Qed.

Lemma log_files_survive m closed id its its' tail :
  log_files m (closed ++ [mkSegment id its []]) -> (exists ys, its = its' ++ ys) -> tail_ok tail ->
  log_files m (closed ++ [mkSegment id its' tail]).
Proof.
  intros [] [ys ->] Ht. rewrite items_of_app in lf_items, lf_chain. cbn in lf_items, lf_chain.
  rewrite app_nil_r, app_assoc in lf_items, lf_chain. apply Forall_app in lf_items as [Hok _].
  apply chained_app in lf_chain as [Hch _].
  constructor; rewrite ?items_of_app, ?map_app in *; cbn in *; rewrite ?app_nil_r; try done.
  - apply Forall_app in lf_tails as [? _]. apply Forall_app. split; [done|by constructor].
  - apply Forall_app in lf_last as [? _]. apply Forall_app. split; [done|]. constructor; [|done]. intros _. by rewrite last_snoc.
Qed.

(** What a crash leaves is again a directory of segments. *)
Lemma crash_files w closed its k :
  log_inv w closed its -> 22 <= k ->
  exists tail, tail_ok tail /\
    crash w k = files (mode_of w) (identity_of w) (closed ++ [mkSegment (current_segment w) (survive (k - 22) its) tail]) /\
    log_files (mode_of w) (closed ++ [mkSegment (current_segment w) (survive (k - 22) its) tail]).
Proof.
  intros Hi Hk. pose proof Hi as []. unfold segments_of in *.
  pose proof (log_items _ _ _ Hi) as Hok. apply Forall_app in Hok as [_ Hok].
  destruct (cut_survive its (k - 22) Hok ltac:(lia)) as (tail & Ht & Htok). exists tail. split; [done|].
  pose proof (sorted_below (mode_of w) (identity_of w) closed _ (lf_ids _ _ li_log)) as Hb. cbn [seg_id] in Hb.
  split; [|by eapply log_files_survive; [|apply survive_prefix|]].
  assert (Hbytes : current_bytes (flush w) = segment_header_bytes (mode_of w) (identity_of w) ++ bytes_of its).
  { unfold current_bytes. change (current_segment (flush w)) with (current_segment w).
    rewrite li_dir, files_snoc. cbn [seg_id]. rewrite dir_get_last by done. unfold segment_bytes. cbn. by rewrite app_nil_r. }
  rewrite crash_flush, li_dir, Hbytes, !files_snoc. cbn [seg_id]. rewrite dir_put_last by done. do 3 f_equal.
  unfold segment_bytes. cbn [seg_items seg_tail]. rewrite <- Ht. pose proof (header_len (mode_of w) (identity_of w)) as Hh.
  unfold len in Hh. rewrite take_app_ge by lia. f_equal. f_equal. lia.
Qed.

End Crashes.

(** ** Histories *)

Definition fits (cap : Z) (d : Dir) : Prop := Forall (fun f => len (snd f) <= cap) d.

Definition dir_size (d : Dir) : Z := foldr (fun f a => len (snd f) + a) 0 d.

Section Histories.
Context `{ExternalLaws} `{CompressionLaws}.
Context (c : WalConfig) (m : LsnMode) (cap : Z).

(** The closed segments hold entries. *)
Definition closed_filled (w : WalWriter) : Prop :=
  Forall (fun f => fst f <> current_segment w -> 22 < len (snd f)) (dir (flush w)).

(** [history w rs]: [w] came about by operations that logged the records [rs].  [room] is
    what the file system still accepts.  A crash leaves [k] bytes of the current segment,
    and the records a reader finds; so does a removal of segments. *)
Inductive history : WalWriter -> list WalRecord -> Prop :=
| history_open recycled w d :
    open_writer c m [] recycled = (Ok w, d) -> history w []
| history_append w rs r room l w' :
    history w rs -> loggable (wal_compression c) r -> next_lsn w + 2 ^ 33 <= u64_max ->
    append room w r = (Ok l, w') ->
    history w' (rs ++ [r])
| history_failed_append w rs r room e w' :
    history w rs -> harmless room w r -> append room w r = (Err e, w') ->
    history w' rs
| history_batch w rs batch ps room l n w' :
    history w rs -> Forall (loggable (wal_compression c)) batch ->
    Forall2 (fun r p => prepare_record_with_compression r (wal_compression c) = Ok p) batch ps ->
    next_lsn w + (len ps + 1) * 2 ^ 33 <= u64_max -> current_size w <= u64_max ->
    append_prepared_batch room w ps = (Ok (Some (l, n)), w') ->
    history w' (rs ++ batch)
| history_flush w rs room ok room' w' :
    history w rs -> flush_durable room w = (ok, room', w') -> history w' rs
| history_remove w rs before min_keep n es w' :
    history w rs -> fits cap (dir (flush w)) -> fits (effective_segment_scan_cap c) (dir (flush w)) ->
    closed_filled w ->
    remove_segments_before_with_min_segments (flush w) before min_keep = (Ok n, w') ->
    collect_all (dir w') 0 cap = Ok es ->
    history w' (map record es)
| history_crash w rs k es recycled w' d :
    history w rs -> 22 <= k -> fits cap (crash w k) -> fits (effective_segment_scan_cap c) (crash w k) ->
    dir_size (crash w k) <= MAX_TOTAL_RECOVERY_SCAN_BYTES ->
    collect_all (crash w k) 0 cap = Ok es ->
    open_writer c m (crash w k) recycled = (Ok w', d) ->
    history w' (map record es).

Definition records (xs : list Item) : list WalRecord := map (fun x => record (fst x)) xs.

Lemma records_app xs ys : records (xs ++ ys) = records xs ++ records ys.
Proof. apply map_app. Qed.

Lemma fits_files m' i ss n : fits n (files m' i ss) <-> Forall (fun s => len (segment_bytes m' i s) <= n) ss.
Proof. unfold fits, files. apply Forall_map. Qed.

Lemma dir_size_files m' i ss : dir_size (files m' i ss) = size_of m' i ss.
Proof. induction ss as [|s ss IH]; [done|]. rewrite size_cons, <- IH. done. Qed.

Lemma from_zero xs : Forall item_ok xs -> from_lsn 0 xs = map fst xs.
Proof.
  intros Hok. unfold from_lsn. f_equal. induction Hok as [|x xs Hx Hxs IH]; [done|].
  rewrite filter_cons_True, IH by (destruct (item_range x Hx); lia). done.
Qed.

Lemma appends_logs rs ps w xs ls w' :
  logs w xs -> Forall (loggable (wal_compression (config w))) rs ->
  Forall2 (fun r p => prepare_record_with_compression r (wal_compression (config w)) = Ok p) rs ps ->
  next_lsn w + (len ps + 1) * 2 ^ 33 <= u64_max -> appends w ps = (Ok ls, w') ->
  same_setup w w' /\ exists ys, logs w' (xs ++ ys) /\ records ys = rs.
Proof.
  intros Hl Hr Hp. revert w xs ls Hl Hr Hp. revert ps. induction rs as [|r rs IH]; intros ps w xs ls Hl Hr Hp Hn Happ.
  - inversion Hp; subst. injection Happ as <- <-. split; [done|]. exists []. by rewrite app_nil_r.
  - inversion Hp as [|? p ? ps' Hp1 Hps]; subst. apply Forall_cons in Hr as [Hr Hrs]. cbn [appends] in Happ.
    assert (Hlen : len (p :: ps') = 1 + len ps') by (unfold len; cbn; lia). rewrite Hlen in Hn. pose proof (len_nonneg ps').
    pose proof (append_prepared_logs w xs r p Hl Hr Hp1 ltac:(lia)) as Ha. pose proof (append_prepared_setup w p) as Hs.
    destruct (append_prepared None w p) as [[l|] w1]; [|done]. cbn [snd] in Hs. destruct Ha as (-> & bs & Hl1).
    destruct (appends w1 ps') as [[ls'|] w2] eqn:Happ1; [|done]. injection Happ as <- <-.
    assert (Hn1 : next_lsn w1 <= next_lsn w + 2 ^ 33).
    { destruct Hl1 as (closed & its & Hi & E). pose proof (log_items _ _ _ Hi) as Hok. pose proof (li_lsns _ _ _ Hi) as Hx.
      unfold lsns_ok in Hx. rewrite <- E in Hx, Hok. rewrite last_snoc in Hx. destruct Hx as [_ ->].
      apply Forall_app in Hok as [_ Hok]. apply Forall_cons in Hok as [Hok _]. pose proof (item_size _ Hok).
      change (item_lsn (mkEntry (next_lsn w) ?a ?b ?e, bs)) with (next_lsn w). destruct (mode_of w1); cbn [step]; lia. }
    destruct Hs as [Hc Hm]. rewrite <- Hc in Hrs, Hps.
    destruct (IH ps' w1 _ ls' Hl1 Hrs Hps ltac:(lia) Happ1) as [[Hc2 Hm2] (ys & Hy & Hrec)].
    split; [split; congruence|]. exists ((mkEntry (next_lsn w) (prev_of w) LEGACY_DATABASE_ID r, bs) :: ys).
    rewrite <- app_assoc in Hy. split; [done|]. by rewrite <- Hrec.
Qed.

Lemma logs_flush w w' xs : flush w' = flush w -> logs w xs -> logs w' xs.
Proof. intros Hf (closed & its & Hi & ->). exists closed, its. split; [by eapply log_inv_fields|done]. Qed.

(** A reader of what a crash left, and the writer that is opened on it. *)
Lemma crash_reads w closed its k start :
  log_inv w closed its -> 22 <= k -> fits cap (crash w k) ->
  collect_all (crash w k) start cap = Ok (from_lsn start (items_of closed ++ survive (k - 22) its)).
Proof.
  intros Hi Hk Hfit. destruct (crash_files w closed its k Hi Hk) as (tail & Ht & Hd & Hlog). rewrite Hd in *.
  rewrite collect_files; [|apply (li_identity _ _ _ Hi)|done|by apply fits_files].
  rewrite items_of_app. cbn. by rewrite app_nil_r.
Qed.

Lemma crash_opens w closed its k recycled :
  log_inv w closed its -> 22 <= k -> fits (effective_segment_scan_cap (config w)) (crash w k) ->
  dir_size (crash w k) <= MAX_TOTAL_RECOVERY_SCAN_BYTES ->
  exists w' d, open_writer (config w) (lsn_step_mode w) (crash w k) recycled = (Ok w', d) /\
    same_setup w w' /\ buffer w' = [] /\ log_inv w' closed (survive (k - 22) its).
Proof.
  intros Hi Hk Hfit Hsz. destruct (crash_files w closed its k Hi Hk) as (tail & Ht & Hd & Hlog). rewrite Hd in *.
  destruct (open_logs (mode_of w) (identity_of w) (config w) recycled closed
              (mkSegment (current_segment w) (survive (k - 22) its) tail)) as (w' & d & Ho & Hc & Hm & Hb & Hi').
  - apply (li_identity _ _ _ Hi).
  - done.
  - apply (li_tails _ _ _ Hi).
  - done.
  - by apply fits_files.
  - by rewrite dir_size_files in Hsz.
  - exists w', d. split; [exact Ho|]. split; [by split|]. split; [done|exact Hi'].
Qed.

(** ** Reading *)

Lemma from_filter start xs : from_lsn start xs = filter (fun e => start <= lsn e) (map fst xs).
Proof.
  unfold from_lsn. induction xs as [|x xs IH]; [done|]. cbn [map].
  destruct (decide (start <= lsn (fst x))); [rewrite !filter_cons_True by done|rewrite !filter_cons_False by done].
  - cbn [map]. by rewrite IH.
  - exact IH.
Qed.

Lemma logs_read w xs start :
  logs w xs -> fits cap (dir (flush w)) -> collect_all (dir (flush w)) start cap = Ok (from_lsn start xs).
Proof.
  intros (closed & its & Hi & ->) Hfit. rewrite (li_dir _ _ _ Hi) in *.
  rewrite collect_files; [by rewrite segments_items|apply (li_identity _ _ _ Hi)|apply (li_log _ _ _ Hi)|by apply fits_files].
Qed.

(** A removal leaves a suffix of the log, which a reader finds. *)
Lemma remove_reads w closed its before min_keep :
  lsn_step_mode w = m -> log_inv w closed its -> fits cap (dir (flush w)) ->
  fits (effective_segment_scan_cap (config w)) (dir (flush w)) -> closed_filled w ->
  exists pre post n w', closed = pre ++ post /\
    remove_segments_before_with_min_segments (flush w) before min_keep = (Ok n, w') /\
    same_log (flush w) w' /\ log_inv w' post its /\ Forall (fun x => item_lsn x < before) (items_of pre) /\
    forall start, collect_all (dir w') start cap = Ok (from_lsn start (items_of post ++ its)).
Proof.
  intros Hm Hi Hf1 Hf2 Hne. assert (Hmode : mode_of w = m) by done.
  rewrite (li_dir _ _ _ Hi), Hmode in Hf1, Hf2. apply fits_files in Hf1, Hf2.
  destruct (remove_logs m w closed its before min_keep Hm Hi Hf2 Hne) as (pre & post & n & w' & -> & Hr & Hd & Hsame & Hi' & Hpre).
  exists pre, post, n, w'. split_and!; try done. intros start. rewrite Hd.
  rewrite collect_files; [by rewrite segments_items|apply (li_identity _ _ _ Hi)| |].
  - apply (log_files_suffix m pre). rewrite app_assoc. rewrite <- Hmode. apply (li_log _ _ _ Hi).
  - unfold segments_of in *. rewrite <- app_assoc in Hf1. by apply Forall_app in Hf1 as [_ Hf1].
Qed.

(** What a history maintains: the writer logs exactly the records. *)
Definition hist_inv (w : WalWriter) (rs : list WalRecord) : Prop :=
  config w = c /\ lsn_step_mode w = m /\ exists xs, logs w xs /\ records xs = rs.

Lemma hist_setup w w' xs rs : same_setup w w' -> hist_inv w rs -> logs w' xs -> records xs = rs -> hist_inv w' rs.
Proof. intros [Hc Hm] (Hc0 & Hm0 & _) Hl Hx. split; [congruence|]. split; [congruence|]. by exists xs. Qed.

Lemma append_inv w rs r room l w' :
  hist_inv w rs -> loggable (wal_compression c) r -> next_lsn w + 2 ^ 33 <= u64_max ->
  append room w r = (Ok l, w') -> hist_inv w' (rs ++ [r]).
Proof.
  intros (Hc & Hm & xs & Hl & Hx) Hr Hn Ha%append_true. unfold append in Ha. rewrite Hc in Ha.
  destruct (prepare_record_with_compression r (wal_compression c)) as [p|] eqn:Hp; [|done].
  rewrite <- Hc in Hr, Hp. pose proof (append_prepared_logs w xs r p Hl Hr Hp Hn) as Hstep.
  pose proof (append_prepared_setup w p) as [Hc' Hm']. rewrite Ha in *. cbn [snd] in *.
  destruct Hstep as (-> & bs & Hl'). split; [congruence|]. split; [congruence|].
  eexists. split; [exact Hl'|]. by rewrite records_app, Hx.
Qed.

Lemma batch_inv w rs batch ps room l n w' :
  hist_inv w rs -> Forall (loggable (wal_compression c)) batch ->
  Forall2 (fun r p => prepare_record_with_compression r (wal_compression c) = Ok p) batch ps ->
  next_lsn w + (len ps + 1) * 2 ^ 33 <= u64_max -> current_size w <= u64_max ->
  append_prepared_batch room w ps = (Ok (Some (l, n)), w') -> hist_inv w' (rs ++ batch).
Proof.
  intros (Hc & Hm & xs & Hl & Hx) Hr Hp Hn Hs Ha%append_batch_true.
  destruct (batch_is_appends w ps l n w' Hs Ha) as (ls & v & Happ & _ & Hfl). rewrite <- Hc in Hr, Hp.
  destruct (appends_logs batch ps w xs ls v Hl Hr Hp Hn Happ) as ([Hcv Hmv] & ys & Hy & Hrec).
  pose proof (f_equal config Hfl : config w' = config v). pose proof (f_equal lsn_step_mode Hfl : lsn_step_mode w' = lsn_step_mode v).
  split; [congruence|]. split; [congruence|]. exists (xs ++ ys). split; [by apply (logs_flush v)|].
  by rewrite records_app, Hx, Hrec.
Qed.

Lemma read_records w closed its :
  log_inv w closed its -> records (items_of closed ++ its) = map record (from_lsn 0 (items_of closed ++ its)).
Proof. intros Hi%log_items. rewrite from_zero by done. unfold records. by rewrite map_map. Qed.

Lemma history_logs w rs : identity_ok (identity c) -> history w rs -> hist_inv w rs.
Proof.
  intros Hid. induction 1 as [recycled w d Ho|w rs r room l w' _ IH Hr Hn Ha|w rs r room e w' _ IH Hh Ha
    |w rs batch ps room l n w' _ IH Hr Hp Hn Hs Ha|w rs room ok room' w' _ IH Hf
    |w rs before min_keep n es w' _ IH Hf1 Hf2 Hne Hr Hes|w rs k es recycled w' d _ IH Hk Hf1 Hf2 Hsz Hes Ho].
  - destruct (open_empty_logs c m d recycled w Hid Ho) as (Hl & Hc & Hm). split_and!; [done..|]. by exists [].
  - by eapply append_inv.
  - pose proof IH as (_ & _ & xs & Hl & Hx). destruct (append_err room w xs r e w' Hl Hh Ha). by eapply hist_setup.
  - by eapply batch_inv.
  - pose proof IH as (_ & _ & xs & Hl & Hx). apply flush_buf_keeps in Hf. apply (hist_setup w w' xs); [|done|by apply (logs_flush w)|done].
    split; [exact (f_equal config Hf)|exact (f_equal lsn_step_mode Hf)].
  - destruct IH as (Hc & Hm & xs & (closed & its & Hi & _) & _). rewrite <- Hc in Hf2.
    destruct (remove_reads w closed its before min_keep Hm Hi Hf1 Hf2 Hne) as (pre & post & n' & w2 & _ & Hr2 & Hsame & Hi2 & _ & Hread).
    rewrite Hr in Hr2. injection Hr2 as <- <-. rewrite Hread in Hes. injection Hes as <-.
    destruct Hsame as (Hc2 & _ & _ & _ & _ & _ & Hm2). split; [by rewrite Hc2|]. split; [by rewrite Hm2|].
    exists (items_of post ++ its). split; [by exists post, its|by eapply read_records].
  - destruct IH as (Hc & Hm & xs & (closed & its & Hi & _) & _). rewrite (crash_reads w closed its k 0 Hi Hk Hf1) in Hes.
    injection Hes as <-. rewrite <- Hc in Hf2. destruct (crash_opens w closed its k recycled Hi Hk Hf2 Hsz) as (w2 & d2 & Ho2 & [Hc2 Hm2] & _ & Hi2).
    rewrite Hc, Hm, Ho in Ho2. injection Ho2 as <- <-. split; [congruence|]. split; [congruence|].
    exists (items_of closed ++ survive (k - 22) its). split; [by exists closed, (survive (k - 22) its)|by eapply read_records].
Qed.


Lemma survive_all k xs : Forall item_ok xs -> len (bytes_of xs) <= k -> survive k xs = xs.
Proof.
  intros Hok. revert k. induction Hok as [|x xs Hx Hxs IH]; intros k Hk; [done|]. cbn [survive].
  rewrite bytes_of_cons, len_app in Hk. fold (item_len x) in Hk. pose proof (len_nonneg (bytes_of xs)).
  destruct (Z.leb_spec (item_len x) k); [|lia]. by rewrite IH by lia.
Qed.

(** [C5] Crash recovery, after any history.  A crash may cut the current segment anywhere
    after its 22-byte header; [interrupted_creation] has the cuts within it.  Provided
    that every segment is within the cap of the scan, and of the reader, and the log is
    at most 4 GiB long: a reader then finds a prefix of the logged records;
    [WalWriter::open] accepts the directory, cuts the torn entry off, and the log it
    continues is exactly that prefix, with a next LSN above every LSN in it.  Nothing is
    lost when all bytes had reached the file. *)
Theorem crash_recovery w rs k recycled :
  identity_ok (identity c) -> history w rs -> 22 <= k -> fits cap (crash w k) ->
  fits (effective_segment_scan_cap c) (crash w k) -> dir_size (crash w k) <= MAX_TOTAL_RECOVERY_SCAN_BYTES ->
  exists es lost w' d,
    collect_all (crash w k) 0 cap = Ok es /\ rs = map record es ++ lost /\
    (current_size w <= k -> lost = []) /\
    open_writer c m (crash w k) recycled = (Ok w', d) /\ history w' (map record es) /\
    (fits cap (dir (flush w')) -> collect_all (dir (flush w')) 0 cap = Ok es) /\
    Forall (fun e => lsn e < next_lsn w') es.
Proof.
  intros Hid Hh Hk Hf1 Hf2 Hsz. destruct (history_logs w rs Hid Hh) as (Hc & Hm & xs & (closed & its & Hi & ->) & <-).
  pose proof (crash_reads w closed its k 0 Hi Hk Hf1) as Hes. rewrite <- Hc in Hf2.
  destruct (crash_opens w closed its k recycled Hi Hk Hf2 Hsz) as (w' & d & Ho & [Hc' Hm'] & _ & Hi').
  rewrite Hc, Hm in Ho. rewrite Hc in Hf2. pose proof (log_items _ _ _ Hi') as Hok.
  rewrite from_zero in Hes by done. destruct (survive_prefix (k - 22) its) as [ys Hy].
  eexists _, (records ys), w', d. split; [exact Hes|]. split.
  { rewrite Hy at 1. rewrite app_assoc, records_app. f_equal. unfold records. by rewrite map_map. }
  split.
  { intros Hall. rewrite (li_size _ _ _ Hi) in Hall. pose proof (log_items _ _ _ Hi) as Hok'.
    apply Forall_app in Hok' as [_ Hok']. rewrite survive_all in Hy by (done || lia).
    assert (ys = []) as -> by (by apply (app_inv_head its); rewrite app_nil_r). done. }
  split; [exact Ho|]. split; [by eapply history_crash|].
  assert (Hl : logs w' (items_of closed ++ survive (k - 22) its)) by by exists closed, (survive (k - 22) its).
  split.
  - intros Hfit. rewrite (logs_read w' _ 0 Hl Hfit). by rewrite from_zero.
  - apply Forall_map. apply (next_above m _ closed); [congruence|done].
Qed.

(** [C33] A batch is its records appended one by one: when [append_prepared_batch] succeeds, so
    do the single appends, with the same last LSN, and the two writers are the same once
    their buffers are flushed - the same segments with the same bytes, rotated at the
    same entries. *)
Theorem batch_equivalent w ps l n w' :
  current_size w <= u64_max -> append_prepared_batch None w ps = (Ok (Some (l, n)), w') ->
  exists ls v, appends w ps = (Ok ls, v) /\ last ls = Some l /\ flush w' = flush v.
Proof. apply batch_is_appends. Qed.

(** ** Removing segments *)

(** [C34] Retention is safe, after any history.  When the log holds no empty closed segment,
    and its segments are within the caps of the scan and of the reader, removing segments
    before an LSN succeeds, and a reader started at that LSN or later reads the same as
    before.  The next LSN does not change.  [retention_gap] is what happens with an empty
    closed segment. *)
Theorem retention_safe w rs before min_keep :
  identity_ok (identity c) -> history w rs -> fits cap (dir (flush w)) ->
  fits (effective_segment_scan_cap c) (dir (flush w)) -> closed_filled w ->
  exists n w', remove_segments_before_with_min_segments (flush w) before min_keep = (Ok n, w') /\
    next_lsn w' = next_lsn w /\
    forall start, before <= start -> collect_all (dir w') start cap = collect_all (dir (flush w)) start cap.
Proof.
  intros Hid Hh Hf1 Hf2 Hne. destruct (history_logs w rs Hid Hh) as (Hc & Hm & xs & (closed & its & Hi & ->) & _).
  rewrite <- Hc in Hf2.
  destruct (remove_reads w closed its before min_keep Hm Hi Hf1 Hf2 Hne) as (pre & post & n & w' & -> & Hr & Hsame & _ & Hpre & Hread).
  exists n, w'. split; [exact Hr|]. split; [apply Hsame|]. intros start Hst. rewrite Hread.
  rewrite (logs_read w (items_of (pre ++ post) ++ its)) by (done || by exists (pre ++ post), its). f_equal.
  rewrite items_of_app, <- app_assoc, (from_lsn_app start (items_of pre)), (from_lsn_below start (items_of pre)); [done|].
  eapply Forall_impl; [exact Hpre|]. cbv beta. lia.
Qed.

End Histories.

(** ** Where the code falls short *)

Section Shortcomings.
Context `{ExternalLaws} `{CompressionLaws}.
Context (c : WalConfig) (m : LsnMode) (cap : Z).

(** Fewer than eight bytes of the magic number are no entry. *)
Lemma torn_magic i k : (k < 8)%nat -> decode (take k (segment_header_bytes m i)) = Err Internal.
Proof. intros Hk. do 8 (destruct k as [|k]; [vm_compute; reflexivity|]). lia. Qed.

Lemma agree_none `{EqDecision A} (known : option A) : agree known None = Ok known.
Proof. done. Qed.

(** A last segment with part of the magic number passes the scan, as an empty file. *)
Lemma scan_torn_magic i s prev k :
  (k < 8)%nat -> scanned m i s prev -> 22 <= effective_segment_scan_cap c ->
  total_scan_bytes s + 22 <= MAX_TOTAL_RECOVERY_SCAN_BYTES ->
  exists s', scan_segment c s true (take k (segment_header_bytes m i)) = Ok (s', []) /\
    scanned m i s' prev /\ scan_size s' = Some 0.
Proof.
  intros Hk Hs Hcap Hmax. pose proof (header_len m i) as Hh.
  assert (Hl : len (take k (segment_header_bytes m i)) <= 22) by (unfold len in *; rewrite length_take; lia).
  unfold scan_segment, saturating_add.
  destruct (Z.ltb_spec (effective_segment_scan_cap c) (len (take k (segment_header_bytes m i)))); [lia|].
  destruct (Z.ltb_spec MAX_TOTAL_RECOVERY_SCAN_BYTES (Z.min u64_max (total_scan_bytes s + len (take k (segment_header_bytes m i))))); [lia|].
  unfold parse_header. rewrite torn_header by lia. change (default _ (Some ?r)) with r.
  destruct (Nat.ltb_spec k 8) as [_|]; [|lia]. unfold scan_header.
  cbn [header_none header_mode header_system header_timeline entry_offset]. rewrite !agree_none.
  change (Z.to_nat 0) with 0%nat. rewrite drop_0. cbn [scan_entries]. pose proof (torn_magic i k Hk) as Hd.
  destruct (take k (segment_header_bytes m i)) as [|b bs] eqn:E.
  - eexists. split; [done|]. split; [|done]. by destruct Hs; constructor.
  - rewrite Hd. pose proof (len_cons_pos b bs). destruct (Z.ltb_spec 0 (len (b :: bs))); [|lia].
    eexists. split; [done|]. split; [|done]. by destruct Hs; constructor.
Qed.

(** [WalWriter::open] behind the closed segments of a log, on the file of a new one with
    part of its header. *)
Lemma open_torn_header closed id k recycled :
  identity_ok (identity c) -> log_files m (closed ++ [mkSegment id [] []]) -> Forall (fun s => seg_tail s = []) closed ->
  (k < 22)%nat -> 22 <= effective_segment_scan_cap c ->
  Forall (fun s => len (segment_bytes m (identity c) s) <= effective_segment_scan_cap c) closed ->
  size_of m (identity c) closed + 22 <= MAX_TOTAL_RECOVERY_SCAN_BYTES ->
  let d := files m (identity c) closed ++ [(id, take k (segment_header_bytes m (identity c)))] in
  open_writer c m d recycled =
    (Err Internal, if (8 <=? k)%nat then d else files m (identity c) (closed ++ [mkSegment id [] []])).
Proof.
  intros Hid [] Htails Hk H22 Hcap Hmax d. rewrite items_of_app in lf_items, lf_chain.
  apply Forall_app in lf_items as [Hok _]. apply chained_app in lf_chain as [Hch _].
  assert (Hstart : scanned m (identity c) scan_start None) by (constructor; cbn; auto).
  destruct (scan_closed m (identity c) c scan_start None closed [(id, take k (segment_header_bytes m (identity c)))] Hid Hstart Htails
    ltac:(done) Hok Hch Hcap ltac:(done)) as (s1 & Hs1 & Ht1 & Hscan); [cbn [total_scan_bytes scan_start]; lia|].
  cbn [total_scan_bytes scan_start] in Ht1. unfold open_writer, d. rewrite last_snoc, Hscan. clear Hscan. cbn [scan_segments].
  destruct (Nat.leb_spec 8 k) as [H8|H8].
  { unfold scan_segment. destruct (_ <? len _); [done|]. destruct (_ <? _); [done|].
    unfold parse_header. rewrite torn_header by done. change (default _ (Some ?r)) with r.
    by destruct (Nat.ltb_spec k 8); [lia|]. }
  destruct (scan_torn_magic (identity c) s1 _ k H8 Hs1 H22 ltac:(lia)) as (s2 & -> & Hs2 & Hz). pose proof Hs2 as [].
  pose proof (sorted_below m (identity c) closed _ lf_ids) as Hb. cbn [seg_id] in Hb.
  rewrite Hz. change (default _ (Some 0)) with 0. cbv zeta.
  assert (Hhead : match scan_header_mode s2 with Some m' => negb (bool_decide (m' = m)) | None => false end = false)
    by (destruct sc_header as [-> | ->]; [done|by rewrite bool_decide_true]).
  rewrite Hhead, !identity_agrees by done.
  assert (default m (detected_mode s2) = m) as -> by by destruct sc_mode as [-> | ->].
  unfold open_segment_for_append. rewrite dir_get_last by done. cbn [accept]. rewrite dir_put_last by done.
  unfold read_segment_bytes_bounded. rewrite dir_get_last, header_len by done. cbn [Z.ltb Z.compare].
  f_equal. rewrite files_snoc. cbn [seg_id]. unfold segment_bytes. cbn [seg_items seg_tail bytes_of map concat].
  by rewrite !app_nil_r.
Qed.

(** [C37] A crash while a segment is created, after any history: the new file, of the next id,
    holds the first [k] bytes of its header.  [WalWriter::open] then fails, for every [k]
    below 22.  From eight bytes on it leaves the directory as it is, so that every retry
    fails too and the log stays closed.  With fewer, the empty file included, the failing
    call has completed the header, and a second call succeeds: its log is what was logged
    before, with the same next LSN.  The segments are within the caps of the scan and of
    the reader, and the log at most 4 GiB long. *)
Theorem interrupted_creation w rs k recycled :
  identity_ok (identity c) -> history c m cap w rs -> (k < 22)%nat -> 22 <= cap -> 22 <= effective_segment_scan_cap c ->
  fits cap (dir (flush w)) -> fits (effective_segment_scan_cap c) (dir (flush w)) ->
  dir_size (dir (flush w)) + 22 <= MAX_TOTAL_RECOVERY_SCAN_BYTES ->
  let d := dir (flush w) ++ [(current_segment w + 1, take k (segment_header_bytes m (identity c)))] in
  exists d1, open_writer c m d recycled = (Err Internal, d1) /\
    if (8 <=? k)%nat then d1 = d
    else exists w' d2, open_writer c m d1 recycled = (Ok w', d2) /\ next_lsn w' = next_lsn w /\
      forall start, collect_all (dir (flush w')) start cap = collect_all (dir (flush w)) start cap.
Proof.
  intros Hid Hh Hk Hcap22 H22 Hf1 Hf2 Hsz d. unfold d.
  destruct (history_logs c m cap w rs Hid Hh) as (Hc & Hm & xs & (closed & its & Hi & ->) & _).
  assert (Hmode : mode_of w = m) by done. assert (Hident : identity_of w = identity c) by (unfold identity_of; by rewrite Hc).
  pose proof Hi as []. rewrite Hmode, Hident in *. rewrite li_dir in *. apply fits_files in Hf1, Hf2. rewrite dir_size_files in Hsz.
  pose proof (log_files_new m closed its (current_segment w) (current_segment w + 1) li_log li_tails ltac:(lia)) as Hnew.
  assert (Htails : Forall (fun s => seg_tail s = []) (segments_of w closed its)) by (apply Forall_app; split; [done|by constructor]).
  pose proof (open_torn_header _ _ k recycled Hid Hnew Htails Hk H22 Hf2 Hsz) as Ho. cbv zeta in Ho.
  eexists. split; [exact Ho|]. destruct (8 <=? k)%nat; [done|]. clear Ho.
  set (new := mkSegment (current_segment w + 1) [] []) in *.
  assert (Hlen : len (segment_bytes m (identity c) new) = 22) by (rewrite segment_len; done).
  destruct (open_logs m (identity c) c recycled (segments_of w closed its) new Hid eq_refl Htails Hnew) as (w' & d2 & Ho & Hc' & Hm' & _ & Hi').
  - apply Forall_app. split; [done|]. constructor; [lia|done].
  - rewrite size_app, size_cons, Hlen. change (size_of m (identity c) []) with 0. lia.
  - exists w', d2. split; [exact Ho|]. split.
    + pose proof Hi' as [_ _ _ _ Hn _]. unfold lsns_ok, mode_of in *. rewrite segments_items, app_nil_r in Hn.
      rewrite Hm, Hm' in *. destruct (last (items_of closed ++ its)); destruct li_lsns, Hn; congruence.
    + intros start. rewrite (logs_read cap w' (items_of closed ++ its));
        [|exists (segments_of w closed its), []; split; [exact Hi'|by rewrite segments_items, app_nil_r]|].
      * rewrite collect_files; [by rewrite segments_items|done|done|done].
      * pose proof Hi' as [Hd' _ _ _ _ _]. rewrite Hd'. apply fits_files.
        assert (identity_of w' = identity c) as -> by (unfold identity_of; by rewrite Hc').
        unfold mode_of. rewrite Hm'. unfold segments_of at 1. apply Forall_app. split; [done|].
        constructor; [|done]. rewrite segment_len. cbn [seg_items seg_tail].
        change (len (bytes_of (seg_items new))) with 0. change (len []) with 0. lia.
Qed.

End Shortcomings.

(** ** Scenarios *)

#[local] Existing Instances example_types example_laws example_compression example_compression_laws.

Inductive Op : Type :=
| Append (r : WalRecord)
| FailedAppend (r : WalRecord) (room : nat)
| Flush
| Crash (k : Z)
| RemoveBefore (l : Z).

(** The default configuration, but for the segment size. *)
Definition example_config (segment_max : Z) : WalConfig :=
  mkConfig segment_max CNone ByteOffset (mkIdentity (Some 5) (Some 1)) (64 * 1024 * 1024).

(** The writer after the operations, when each has the expected outcome. *)
Definition exec_op (w : WalWriter) (o : Op) : option WalWriter :=
  match o with
  | Append r => match append None w r with (Ok _, w) => Some w | _ => None end
  | FailedAppend r room => match append (Some room) w r with (Err _, w) => Some w | _ => None end
  | Flush => match flush_durable None w with (true, _, w) => Some w | _ => None end
  | Crash k =>
      match open_writer (config w) (lsn_step_mode w) (crash w k) [] with (Ok w, _) => Some w | _ => None end
  | RemoveBefore l =>
      match remove_segments_before_with_min_segments w l 0 with (Ok _, w) => Some w | _ => None end
  end.

Fixpoint exec (w : WalWriter) (ops : list Op) : option WalWriter :=
  match ops with [] => Some w | o :: ops' => exec_op w o ≫= fun w => exec w ops' end.

Definition scenario (segment_max : Z) (ops : list Op) : option WalWriter :=
  match open_writer (example_config segment_max) ByteOffset [] [] with (Ok w, _) => exec w ops | _ => None end.

(** The LSNs that are replayed after the scenario; [None] when replay fails. *)
Definition replayed (segment_max : Z) (ops : list Op) : option (list Z) :=
  w ← scenario segment_max ops;
  match collect_all (dir w) 0 (64 * 1024 * 1024) with Ok es => Some (map lsn es) | Err _ => None end.

Definition commit (t : Z) : WalRecord := CommitTxn t 42.
Definition blob (t : Z) (n : nat) : WalRecord := InsertRow t 1 9 [VText (replicate n 32)].

(** After a failed write the log goes on behind a hole.  An append whose write fails
    discards what the buffer still held of earlier appends and fills the file up to the
    size it should have had with zeros.  Here the first commit was acknowledged and the
    third is appended after the failure and flushed durably; replay finds neither. *)
Theorem failed_append_hides_log :
  replayed (16 * 1024 * 1024) [Append (commit 1); FailedAppend (blob 2 8200) 0; Append (commit 3); Flush] = Some [] /\
  replayed (16 * 1024 * 1024) [Append (commit 1); Append (commit 3); Flush] = Some [1; 34].
Proof. split; vm_compute; reflexivity. Qed.

(** A failed rotation poisons the next segment.  When only part of the header of a new
    segment fits on the disk, the file stays; the next rotation finds it not empty, takes
    it for complete and appends behind the fragment.  The second commit is repeated after
    the failure and flushed durably; a reader stops in front of it, and fails once there
    is a segment behind it, and [WalWriter::open] refuses the directory. *)
Theorem failed_rotation_hides_log :
  let ops := [Append (commit 1); Flush; FailedAppend (commit 2) 10; Append (commit 2); Flush] in
  replayed 100 ops = Some [1] /\ replayed 100 (ops ++ [Append (commit 3); Flush]) = None /\
  scenario 100 (ops ++ [Crash 1000]) = None /\
  replayed 100 [Append (commit 1); Flush; Append (commit 2); Flush] = Some [1; 34].
Proof. split_and!; vm_compute; reflexivity. Qed.

(** Retention can tear the log.  An empty segment, left by a crash after a rotation and
    closed by a record that does not fit, protects the segment before it from removal but
    not those after it.  The reader refuses the gap; [WalWriter::open] takes the newest
    entries for a corrupt tail and cuts them off, and hands out their LSNs again. *)
Theorem retention_gap :
  let ops := [Append (commit 1); Append (commit 2); Crash 30; Append (blob 3 100); Append (commit 4); Flush] in
  replayed 100 ops = Some [1; 34; 203] /\
  list_segments ∘ dir <$> scenario 100 (ops ++ [RemoveBefore 1000]) = Some [1; 4] /\
  replayed 100 (ops ++ [RemoveBefore 1000]) = None /\
  replayed 100 (ops ++ [RemoveBefore 1000; Crash 1000]) = Some [1] /\
  next_lsn <$> scenario 100 (ops ++ [RemoveBefore 1000; Crash 1000]) = Some 34.
Proof. split_and!; vm_compute; reflexivity. Qed.

(** ** Witnesses *)

Definition writer_of (r : DbResult WalWriter * Dir) (default : WalWriter) : WalWriter :=
  match r with (Ok w, _) => w | _ => default end.

Definition no_writer : WalWriter := mkWalWriter (example_config 100) [] [] 0 [] 0 0 None None ByteOffset.

(** A commit, a flush that stops after five bytes, one that goes through, a record of 8 KiB
    that needs a new segment when there is room for ten bytes, and two more commits. *)
Definition sample_writer0 : WalWriter :=
  Eval vm_compute in writer_of (open_writer (example_config 100) ByteOffset [] [7]) no_writer.
Definition sample_writer1 : WalWriter := Eval vm_compute in snd (append (Some 500%nat) sample_writer0 (commit 1)).
Definition half_flushed : WalWriter := Eval vm_compute in snd (flush_durable (Some 5%nat) sample_writer1).
Definition all_flushed : WalWriter := Eval vm_compute in snd (flush_durable None half_flushed).
Definition after_failure : WalWriter := Eval vm_compute in snd (append (Some 10%nat) all_flushed (blob 2 8200)).
Definition sample_writer2 : WalWriter := Eval vm_compute in snd (append None after_failure (commit 2)).
Definition sample_writer3 : WalWriter := Eval vm_compute in snd (append None sample_writer2 (commit 3)).

Lemma commit_loggable t : in_unsigned 64 t -> replayable (commit t) CNone = true -> loggable CNone (commit t).
Proof. intros Ht Hr. split; [by split|done]. Qed.

Definition read_cap : Z := 64 * 1024 * 1024.

Lemma sample_history : history (example_config 100) ByteOffset read_cap sample_writer2 [commit 1; commit 2].
Proof.
  apply (history_append _ _ _ after_failure [commit 1] (commit 2) None 34);
    [|by apply commit_loggable|vm_compute; discriminate|vm_compute; reflexivity].
  apply (history_failed_append _ _ _ all_flushed [commit 1] (blob 2 8200) (Some 10%nat) Internal);
    [|by right; vm_compute|vm_compute; reflexivity].
  apply (history_flush _ _ _ half_flushed [commit 1] None true None); [|vm_compute; reflexivity].
  apply (history_flush _ _ _ sample_writer1 [commit 1] (Some 5%nat) false (Some 0%nat)); [|vm_compute; reflexivity].
  apply (history_append _ _ _ sample_writer0 [] (commit 1) (Some 500%nat) 1);
    [|by apply commit_loggable|vm_compute; discriminate|vm_compute; reflexivity].
  apply (history_open _ _ _ [7] sample_writer0 (dir sample_writer0)). vm_compute. reflexivity.
Qed.

Lemma sample_history3 : history (example_config 100) ByteOffset read_cap sample_writer3 [commit 1; commit 2; commit 3].
Proof.
  apply (history_append _ _ _ sample_writer2 [commit 1; commit 2] (commit 3) None 86);
    [apply sample_history|by apply commit_loggable|vm_compute; discriminate|vm_compute; reflexivity].
Qed.

Lemma example_identity_ok : identity_ok (identity (example_config 100)).
Proof. by split. Qed.

(** Files up to 1,000 bytes are within every limit. *)
Lemma small_fits n d : forallb (fun f => len (snd f) <=? 1000) d = true -> 1000 <= n -> fits n d.
Proof.
  intros Hd Hn. unfold fits. rewrite forallb_forall in Hd. rewrite Forall_forall. intros f Hf.
  specialize (Hd f (proj1 (list_elem_of_In _ _) Hf)). bool_prop. lia.
Qed.


Lemma crash_recovery_witness :
  exists es lost w' d,
    collect_all (crash sample_writer2 50) 0 read_cap = Ok es /\ [commit 1; commit 2] = map record es ++ lost /\
    (current_size sample_writer2 <= 50 -> lost = []) /\
    open_writer (example_config 100) ByteOffset (crash sample_writer2 50) [] = (Ok w', d) /\
    history (example_config 100) ByteOffset read_cap w' (map record es) /\
    (fits read_cap (dir (flush w')) -> collect_all (dir (flush w')) 0 read_cap = Ok es) /\
    Forall (fun e => lsn e < next_lsn w') es.
Proof.
  apply (crash_recovery (example_config 100) ByteOffset read_cap sample_writer2 [commit 1; commit 2] 50 []
           example_identity_ok sample_history); [done| | |vm_compute; discriminate];
    (apply small_fits; [vm_compute; reflexivity|done]).
Defined.

Definition sample_prepared (t : Z) : PreparedWalRecord :=
  match prepare_record_with_compression (commit t) CNone with Ok p => p | Err _ => mkPrepared [] None 0 end.

Lemma batch_equivalent_witness :
  exists ls v, appends sample_writer2 (map sample_prepared [3; 4; 5]) = (Ok ls, v) /\ last ls = Some 190 /\
    flush (snd (append_prepared_batch None sample_writer2 (map sample_prepared [3; 4; 5]))) = flush v.
Proof.
  apply (batch_equivalent sample_writer2 (map sample_prepared [3; 4; 5]) 190 156); [vm_compute; discriminate|].
  vm_compute. reflexivity.
Defined.

Lemma retention_safe_witness :
  exists n w', remove_segments_before_with_min_segments (flush sample_writer3) 86 0 = (Ok n, w') /\
    next_lsn w' = next_lsn sample_writer3 /\
    forall start, 86 <= start -> collect_all (dir w') start read_cap = collect_all (dir (flush sample_writer3)) start read_cap.
Proof.
  apply (retention_safe (example_config 100) ByteOffset read_cap sample_writer3 [commit 1; commit 2; commit 3] 86 0
           example_identity_ok sample_history3); [apply small_fits; [vm_compute; reflexivity|done]..|].
  apply (bool_decide_unpack _). vm_compute. exact I.
Defined.

Lemma interrupted_creation_witness :
  exists d1, open_writer (example_config 100) ByteOffset
      (dir (flush sample_writer3) ++ [(4, take 0 (segment_header_bytes ByteOffset (identity (example_config 100))))]) [] = (Err Internal, d1) /\
    exists w' d2, open_writer (example_config 100) ByteOffset d1 [] = (Ok w', d2) /\ next_lsn w' = next_lsn sample_writer3 /\
      forall start, collect_all (dir (flush w')) start read_cap = collect_all (dir (flush sample_writer3)) start read_cap.
Proof.
  apply (interrupted_creation (example_config 100) ByteOffset read_cap sample_writer3 [commit 1; commit 2; commit 3] 0 []
           example_identity_ok sample_history3); [lia|done|vm_compute; discriminate| | |vm_compute; discriminate];
    (apply small_fits; [vm_compute; reflexivity|done]).
Defined.
