(* ===== verification/IndexRedo.v ===== *)
(** * Redo of index pages ([crates/aiondb-storage-engine/src/engine/recovery/mod.rs])

    Before the indexes are opened, recovery applies the page records of the log to the files
    of the index directory: page images and patches, and a record per structural change of
    the fixed-width B+tree, one function each.  They read a page from the data file, check
    its magic and kind, change it in memory and write it back with its checksum; an error
    leaves the pages written before it.  Every error is the same [DbError::internal].

    The lemmas say what each function does to the nodes the pages hold. *)

From S2P Require Import Prelude.
From S2P Require Import Bytes.
From S2P Require Import PageBytes.
From S2P Require Import PoolPage.
From S2P Require Import BufferPool.
From S2P Require Import BTreePage.
From S2P Require Import Checksum.
From S2P Require Import Disk.
From S2P Require Import FileStore.
From S2P Require Import WalTypes.

(** ** Programs on the directory *)

(** [DbError::internal]. *)
Abbreviation internal := Prelude.Internal.

Definition Redo (A : Type) : Type := Disk -> DbResult A * Disk.

#[global] Instance redo_ret : MRet Redo := fun A x d => (Ok x, d).

#[global] Instance redo_bind : MBind Redo := fun A B k m d =>
  match m d with (Ok x, d1) => k x d1 | (Err e, d1) => (Err e, d1) end.

Definition redo_change (f : Disk -> Disk) : Redo unit := fun d => (Ok tt, f d).
Definition redo_try {A} (r : DbResult A) : Redo A := fun d => (r, d).
Definition redo_fail {A} : Redo A := fun d => (Err internal, d).

(** [for x in l { f(x)?; }]. *)
Fixpoint redo_each {A} (f : A -> Redo unit) (l : list A) : Redo unit :=
  match l with
  | [] => mret tt
  | x :: l => _ ← f x; redo_each f l
  end.

(** ** Integers in a page *)

Definition read_page_u16 (page : list Z) (offset : Z) : DbResult Z :=
  if offset + 2 <=? Z.of_nat (length page) then Ok (field page offset 2) else Err internal.

Definition read_page_u64 (page : list Z) (offset : Z) : DbResult Z :=
  if offset + 8 <=? Z.of_nat (length page) then Ok (field page offset 8) else Err internal.

Definition write_page_u16 (page : list Z) (offset value : Z) : DbResult (list Z) :=
  if offset + 2 <=? Z.of_nat (length page) then Ok (put page offset (le_bytes 2 value)) else Err internal.

Definition write_page_u32 (page : list Z) (offset value : Z) : DbResult (list Z) :=
  if offset + 4 <=? Z.of_nat (length page) then Ok (put page offset (le_bytes 4 value)) else Err internal.

Definition write_page_u64 (page : list Z) (offset value : Z) : DbResult (list Z) :=
  if offset + 8 <=? Z.of_nat (length page) then Ok (put page offset (le_bytes 8 value)) else Err internal.

Definition usize_to_u16 (value : Z) : DbResult Z := if value <=? 65535 then Ok value else Err internal.

(** ** Whole pages *)

Definition DISK_ORDERED_RELATION_PREFIX : Z := 0xD15C000000000000.
Definition DISK_VAR_RELATION_PREFIX : Z := 0xD15D000000000000.

Definition is_disk_index_relation_id (relation_id : Z) : bool :=
  let raw := Z.land relation_id 0xFFFF000000000000 in
  (raw =? DISK_ORDERED_RELATION_PREFIX) || (raw =? DISK_VAR_RELATION_PREFIX).

(** [OpenOptions::new().create(true)], and the sync of the directory after it. *)
Definition open_or_create_file (n : FileName) : Redo unit :=
  redo_change (fun d => fsync_dir (match now (file d n) with None => set_now d n (Some []) | Some _ => d end)).

(** [seek], [write_all], [flush] and [sync_data]. *)
Definition write_synced (n : FileName) (offset : Z) (bs : list Z) : Redo unit :=
  if offset <=? i64_max then redo_change (fun d => fsync (write_at d n offset bs) n) else redo_fail.

Definition apply_disk_index_full_page_image (relation_id page_number : Z) (page_data : list Z) : Redo unit :=
  if negb (Z.of_nat (length page_data) =? PAGE_SIZE) then redo_fail else
  _ ← open_or_create_file (DataFile relation_id);
  offset ← redo_try (ok_or (checked_mul64 page_number PAGE_SIZE) internal);
  _ ← write_synced (DataFile relation_id) offset page_data;
  _ ← open_or_create_file (ChecksumFile relation_id);
  checksum_offset ← redo_try (ok_or (checked_mul64 page_number 4) internal);
  write_synced (ChecksumFile relation_id) checksum_offset (le_bytes 4 (compute_crc32c page_data)).

(** [read_exact] of one page; a missing file and a short one are errors. *)
Definition read_disk_index_page_bytes (relation_id page_number : Z) : Redo (list Z) := fun d =>
  (match now (file d (DataFile relation_id)) with
   | None => Err internal
   | Some c =>
       match checked_mul64 page_number PAGE_SIZE with
       | None => Err internal
       | Some offset =>
           let page := slice c offset PAGE_SIZE in
           if (offset <=? i64_max) && (Z.of_nat (length page) =? PAGE_SIZE) then Ok page else Err internal
       end
   end, d).

(** The segments of a patch copied over a page. *)
Fixpoint apply_segments (page : list Z) (segments : list (Z * list Z)) : DbResult (list Z) :=
  match segments with
  | [] => Ok page
  | (start, segment_data) :: rest =>
      if PAGE_SIZE <? start + Z.of_nat (length segment_data) then Err internal
      else apply_segments (put page start segment_data) rest
  end.

Definition apply_disk_index_page_patch (relation_id page_number : Z) (segments : list (Z * list Z)) : Redo unit :=
  page ← read_disk_index_page_bytes relation_id page_number;
  page ← redo_try (apply_segments page segments);
  apply_disk_index_full_page_image relation_id page_number page.

Definition apply_disk_index_u64_update (relation_id page_number offset value : Z) : Redo unit :=
  apply_disk_index_page_patch relation_id page_number [(offset, le_bytes 8 value)].

(** ** B+tree pages *)

(** [page[..8] != MAGIC || page[KIND] != kind] is the refusal. *)
Definition is_tree_page (page : list Z) (kind : Z) : bool :=
  bool_decide (slice page 0 8 = PAGE_MAGIC) && (field page PAGE_KIND_OFFSET 1 =? kind).

Definition require (b : bool) : Redo unit := if b then mret tt else redo_fail.

Fixpoint read_pairs (page : list Z) (idxs : list Z) : DbResult (list (Z * Z)) :=
  match idxs with
  | [] => Ok []
  | idx :: rest =>
      let offset := PAGE_HEADER_SIZE + idx * LEAF_ENTRY_SIZE in
      (let? k := read_page_u64 page offset in
       let? v := read_page_u64 page (offset + 8) in
       let? es := read_pairs page rest in Ok ((k, v) :: es))%result
  end.

Fixpoint write_pairs (page : list Z) (idx : Z) (entries : list (Z * Z)) : DbResult (list Z) :=
  match entries with
  | [] => Ok page
  | (k, v) :: rest =>
      let offset := PAGE_HEADER_SIZE + idx * LEAF_ENTRY_SIZE in
      (let? page := write_page_u64 page offset k in
       let? page := write_page_u64 page (offset + 8) v in
       write_pairs page (idx + 1) rest)%result
  end.

(** [page[PAGE_HEADER_SIZE..].fill(0)]. *)
Definition clear_pairs (page : list Z) : list Z :=
  put page PAGE_HEADER_SIZE (replicate (Z.to_nat (PAGE_SIZE - PAGE_HEADER_SIZE)) 0).

Definition read_page_pairs (page : list Z) : DbResult (list (Z * Z)) :=
  (let? count := read_page_u16 page PAGE_COUNT_OFFSET in read_pairs page (seqZ 0 count))%result.

Definition write_page_count (page : list Z) (n : Z) : DbResult (list Z) :=
  (let? n := usize_to_u16 n in write_page_u16 page PAGE_COUNT_OFFSET n)%result.

(** The entries of a leaf written over; its right sibling is kept. *)
Definition rewrite_leaf (page : list Z) (entries : list (Z * Z)) : DbResult (list Z) :=
  (let? page := write_page_count (clear_pairs page) (count_of entries) in write_pairs page 0 entries)%result.

(** The same with the right sibling written between the count and the entries. *)
Definition rewrite_leaf_right (page : list Z) (right : Z) (entries : list (Z * Z)) : DbResult (list Z) :=
  (let? page := write_page_count (clear_pairs page) (count_of entries) in
   let? page := write_page_u64 page PAGE_RIGHT_SIBLING_OFFSET right in write_pairs page 0 entries)%result.

(** First child, count and entries of an internal page. *)
Definition rewrite_internal (page : list Z) (first_child : Z) (entries : list (Z * Z)) : DbResult (list Z) :=
  (let? page := write_page_u64 (clear_pairs page) PAGE_FIRST_CHILD_OFFSET first_child in
   let? page := write_page_count page (count_of entries) in write_pairs page 0 entries)%result.

(** A zeroed page with the magic and a kind. *)
Definition blank_page (kind : Z) : list Z := put (put zero_page 0 PAGE_MAGIC) PAGE_KIND_OFFSET [kind].

(** A page of the free list. *)
Definition free_page (next_free_page : Z) : DbResult (list Z) :=
  (let? page := write_page_u16 (blank_page 1) PAGE_COUNT_OFFSET 0 in
   let? page := write_page_u64 page PAGE_RIGHT_SIBLING_OFFSET next_free_page in
   write_page_u64 page PAGE_FIRST_CHILD_OFFSET NO_PAGE)%result.

(** [entries.partition_point(|e| *e < entry)] on entries in order. *)
Fixpoint partition_pair (entries : list (Z * Z)) (key value : Z) : nat :=
  match entries with
  | [] => O
  | (k, v) :: rest => if (k <? key) || ((k =? key) && (v <? value)) then S (partition_pair rest key value) else O
  end.

(** [entries.insert(idx, entry)]. *)
Definition insert_at (idx : nat) (entry : Z * Z) (entries : list (Z * Z)) : list (Z * Z) :=
  take idx entries ++ entry :: drop idx entries.

(** [entries.iter().position(|e| *e == entry)] and [entries.remove(idx)]. *)
Definition remove_pair (entry : Z * Z) (entries : list (Z * Z)) : DbResult (list (Z * Z)) :=
  match list_find (fun e => e = entry) entries with
  | Some (idx, _) => Ok (take idx entries ++ drop (S idx) entries)
  | None => Err internal
  end.

(** ** The records *)

Definition apply_disk_btree_meta_update (relation_id root_page height page_count free_list_head : Z) : Redo unit :=
  page ← read_disk_index_page_bytes relation_id 0;
  _ ← require (bool_decide (slice page 0 8 = META_MAGIC));
  page ← redo_try (write_page_u64 page META_ROOT_OFFSET root_page);
  page ← redo_try (write_page_u32 page META_HEIGHT_OFFSET height);
  page ← redo_try (write_page_u64 page META_PAGE_COUNT_OFFSET page_count);
  page ← redo_try (write_page_u64 page META_FREE_LIST_OFFSET free_list_head);
  apply_disk_index_full_page_image relation_id 0 page.

Definition apply_disk_btree_leaf_insert (relation_id page_number key value : Z) : Redo unit :=
  page ← read_disk_index_page_bytes relation_id page_number;
  _ ← require (is_tree_page page 1);
  entries ← redo_try (read_page_pairs page);
  let entries := insert_at (partition_pair entries key value) (key, value) entries in
  page ← redo_try (rewrite_leaf page entries);
  apply_disk_index_full_page_image relation_id page_number page.

Definition apply_disk_btree_leaf_delete (relation_id page_number key value : Z) : Redo unit :=
  page ← read_disk_index_page_bytes relation_id page_number;
  _ ← require (is_tree_page page 1);
  entries ← redo_try (read_page_pairs page);
  entries ← redo_try (remove_pair (key, value) entries);
  page ← redo_try (rewrite_leaf page entries);
  apply_disk_index_full_page_image relation_id page_number page.

Definition apply_disk_btree_leaf_split
    (relation_id left_page right_page old_right_sibling : Z) (left_entries right_entries : list (Z * Z)) : Redo unit :=
  left ← read_disk_index_page_bytes relation_id left_page;
  _ ← require (is_tree_page left 1);
  left ← redo_try (rewrite_leaf_right left right_page left_entries);
  right ← redo_try (write_page_count (blank_page 1) (count_of right_entries));
  right ← redo_try (write_page_u64 right PAGE_RIGHT_SIBLING_OFFSET old_right_sibling);
  right ← redo_try (write_page_u64 right PAGE_FIRST_CHILD_OFFSET u64_max);
  right ← redo_try (write_pairs right 0 right_entries);
  _ ← apply_disk_index_full_page_image relation_id left_page left;
  apply_disk_index_full_page_image relation_id right_page right.

Definition apply_disk_btree_internal_insert (relation_id page_number separator child_page : Z) : Redo unit :=
  page ← read_disk_index_page_bytes relation_id page_number;
  _ ← require (is_tree_page page 2);
  count ← redo_try (read_page_u16 page PAGE_COUNT_OFFSET);
  first_child ← redo_try (read_page_u64 page PAGE_FIRST_CHILD_OFFSET);
  entries ← redo_try (read_pairs page (seqZ 0 count));
  let entries := insert_at (partition_point entries separator) (separator, child_page) entries in
  page ← redo_try (rewrite_internal page first_child entries);
  apply_disk_index_full_page_image relation_id page_number page.

Definition apply_disk_btree_internal_split
    (relation_id left_page right_page left_first_child right_first_child : Z) (left_entries right_entries : list (Z * Z)) : Redo unit :=
  left ← read_disk_index_page_bytes relation_id left_page;
  _ ← require (is_tree_page left 2);
  left ← redo_try (rewrite_internal left left_first_child left_entries);
  right ← redo_try (write_page_u64 (blank_page 2) PAGE_FIRST_CHILD_OFFSET right_first_child);
  right ← redo_try (write_page_count right (count_of right_entries));
  right ← redo_try (write_pairs right 0 right_entries);
  _ ← apply_disk_index_full_page_image relation_id left_page left;
  apply_disk_index_full_page_image relation_id right_page right.

Definition apply_disk_btree_root_grow (relation_id page_number first_child separator right_child : Z) : Redo unit :=
  page ← redo_try (write_page_u64 (blank_page 2) PAGE_FIRST_CHILD_OFFSET first_child);
  page ← redo_try (write_page_u16 page PAGE_COUNT_OFFSET 1);
  page ← redo_try (write_page_u64 page PAGE_HEADER_SIZE separator);
  page ← redo_try (write_page_u64 page (PAGE_HEADER_SIZE + 8) right_child);
  apply_disk_index_full_page_image relation_id page_number page.

Definition apply_disk_btree_internal_delete (relation_id page_number separator child_page : Z) : Redo unit :=
  page ← read_disk_index_page_bytes relation_id page_number;
  _ ← require (is_tree_page page 2);
  count ← redo_try (read_page_u16 page PAGE_COUNT_OFFSET);
  first_child ← redo_try (read_page_u64 page PAGE_FIRST_CHILD_OFFSET);
  entries ← redo_try (read_pairs page (seqZ 0 count));
  entries ← redo_try (remove_pair (separator, child_page) entries);
  page ← redo_try (rewrite_internal page first_child entries);
  apply_disk_index_full_page_image relation_id page_number page.

(** The parent of a redistribution: its first child and one separator are written. *)
Definition set_separator (parent : list Z) (parent_slot parent_first_child new_separator : Z) : DbResult (list Z) :=
  (let? count := read_page_u16 parent PAGE_COUNT_OFFSET in
   if count <=? parent_slot then Err internal else
   let? parent := write_page_u64 parent PAGE_FIRST_CHILD_OFFSET parent_first_child in
   write_page_u64 parent (PAGE_HEADER_SIZE + parent_slot * LEAF_ENTRY_SIZE) new_separator)%result.

Definition apply_disk_btree_leaf_redistribute
    (relation_id left_page right_page parent_page parent_slot parent_first_child : Z) (left_entries right_entries : list (Z * Z))
    (right_right_sibling new_separator : Z) : Redo unit :=
  left ← read_disk_index_page_bytes relation_id left_page;
  right ← read_disk_index_page_bytes relation_id right_page;
  parent ← read_disk_index_page_bytes relation_id parent_page;
  _ ← require (is_tree_page left 1 && is_tree_page right 1 && is_tree_page parent 2);
  left ← redo_try (rewrite_leaf_right left right_page left_entries);
  right ← redo_try (rewrite_leaf_right right right_right_sibling right_entries);
  parent ← redo_try (set_separator parent parent_slot parent_first_child new_separator);
  _ ← apply_disk_index_full_page_image relation_id left_page left;
  _ ← apply_disk_index_full_page_image relation_id right_page right;
  apply_disk_index_full_page_image relation_id parent_page parent.

Definition apply_disk_btree_internal_redistribute
    (relation_id left_page right_page parent_page parent_slot parent_first_child left_first_child right_first_child : Z)
    (left_entries right_entries : list (Z * Z)) (new_separator : Z) : Redo unit :=
  left ← read_disk_index_page_bytes relation_id left_page;
  right ← read_disk_index_page_bytes relation_id right_page;
  parent ← read_disk_index_page_bytes relation_id parent_page;
  _ ← require (is_tree_page left 2 && is_tree_page right 2 && is_tree_page parent 2);
  left ← redo_try (rewrite_internal left left_first_child left_entries);
  right ← redo_try (rewrite_internal right right_first_child right_entries);
  parent ← redo_try (set_separator parent parent_slot parent_first_child new_separator);
  _ ← apply_disk_index_full_page_image relation_id left_page left;
  _ ← apply_disk_index_full_page_image relation_id right_page right;
  apply_disk_index_full_page_image relation_id parent_page parent.

(** The parent of a merge: the entry of the removed page goes. *)
Definition drop_entry (parent : list Z) (parent_first_child removed_separator right_page : Z) : DbResult (list Z) :=
  (let? entries := read_page_pairs parent in
   let? entries := remove_pair (removed_separator, right_page) entries in
   rewrite_internal parent parent_first_child entries)%result.

Definition apply_disk_btree_leaf_merge
    (relation_id left_page right_page parent_page parent_first_child removed_separator : Z) (left_entries : list (Z * Z))
    (new_right_sibling next_free_page : Z) : Redo unit :=
  left ← read_disk_index_page_bytes relation_id left_page;
  parent ← read_disk_index_page_bytes relation_id parent_page;
  _ ← require (is_tree_page left 1 && is_tree_page parent 2);
  left ← redo_try (rewrite_leaf_right left new_right_sibling left_entries);
  right ← redo_try (free_page next_free_page);
  parent ← redo_try (drop_entry parent parent_first_child removed_separator right_page);
  _ ← apply_disk_index_full_page_image relation_id left_page left;
  _ ← apply_disk_index_full_page_image relation_id right_page right;
  apply_disk_index_full_page_image relation_id parent_page parent.

Definition apply_disk_btree_internal_merge
    (relation_id left_page right_page parent_page parent_first_child removed_separator left_first_child : Z)
    (left_entries : list (Z * Z)) (next_free_page : Z) : Redo unit :=
  left ← read_disk_index_page_bytes relation_id left_page;
  parent ← read_disk_index_page_bytes relation_id parent_page;
  _ ← require (is_tree_page left 2 && is_tree_page parent 2);
  left ← redo_try (rewrite_internal left left_first_child left_entries);
  right ← redo_try (free_page next_free_page);
  parent ← redo_try (drop_entry parent parent_first_child removed_separator right_page);
  _ ← apply_disk_index_full_page_image relation_id left_page left;
  _ ← apply_disk_index_full_page_image relation_id right_page right;
  apply_disk_index_full_page_image relation_id parent_page parent.

(** The loop over the pages a root change frees. *)
Definition apply_freed_page (relation_id : Z) (freed : Z * Z) : Redo unit :=
  free ← redo_try (free_page (snd freed));
  apply_disk_index_full_page_image relation_id (fst freed) free.

Definition apply_disk_btree_root_shrink_leaf
    (relation_id root_page : Z) (root_entries : list (Z * Z)) (right_sibling : Z) (freed_pages : list (Z * Z)) : Redo unit :=
  root ← redo_try (write_page_count (blank_page 1) (count_of root_entries));
  root ← redo_try (write_page_u64 root PAGE_RIGHT_SIBLING_OFFSET right_sibling);
  root ← redo_try (write_pairs root 0 root_entries);
  _ ← apply_disk_index_full_page_image relation_id root_page root;
  redo_each (apply_freed_page relation_id) freed_pages.

Definition apply_disk_btree_root_shrink_internal
    (relation_id root_page root_first_child : Z) (root_entries freed_pages : list (Z * Z)) : Redo unit :=
  root ← redo_try (write_page_u64 (blank_page 2) PAGE_FIRST_CHILD_OFFSET root_first_child);
  root ← redo_try (write_page_count root (count_of root_entries));
  root ← redo_try (write_pairs root 0 root_entries);
  _ ← apply_disk_index_full_page_image relation_id root_page root;
  redo_each (apply_freed_page relation_id) freed_pages.

(** The parent of a collapse: the child in a slot is replaced; slot 0 is the first child. *)
Definition replace_child (parent : list Z) (parent_slot parent_first_child replacement_child : Z) : DbResult (list Z) :=
  (let? count := read_page_u16 parent PAGE_COUNT_OFFSET in
   let? parent :=
     if parent_slot =? 0 then write_page_u64 parent PAGE_FIRST_CHILD_OFFSET replacement_child
     else if parent_slot - 1 <? count then
       write_page_u64 parent (PAGE_HEADER_SIZE + (parent_slot - 1) * LEAF_ENTRY_SIZE + 8) replacement_child
     else Err internal in
   if negb (parent_first_child =? 0)
   then write_page_u64 parent PAGE_FIRST_CHILD_OFFSET (if parent_slot =? 0 then replacement_child else parent_first_child)
   else Ok parent)%result.

Definition apply_disk_btree_internal_collapse
    (relation_id parent_page parent_slot parent_first_child replacement_child removed_page next_free_page : Z) : Redo unit :=
  parent ← read_disk_index_page_bytes relation_id parent_page;
  _ ← require (is_tree_page parent 2);
  parent ← redo_try (replace_child parent parent_slot parent_first_child replacement_child);
  removed ← redo_try (free_page next_free_page);
  _ ← apply_disk_index_full_page_image relation_id parent_page parent;
  apply_disk_index_full_page_image relation_id removed_page removed.

Definition apply_disk_btree_root_promote_single_child (relation_id removed_root_page next_free_page : Z) : Redo unit :=
  removed ← redo_try (free_page next_free_page);
  apply_disk_index_full_page_image relation_id removed_root_page removed.

Definition apply_disk_btree_root_promote_collapsed_chain (relation_id : Z) (freed_pages : list (Z * Z)) : Redo unit :=
  redo_each (apply_freed_page relation_id) freed_pages.

Definition apply_disk_btree_internal_collapse_chain (relation_id : Z) (steps : list (Z * Z * Z * Z * Z * Z)) : Redo unit :=
  redo_each (fun '(parent_page, parent_slot, parent_first_child, replacement_child, removed_page, next_free_page) =>
    apply_disk_btree_internal_collapse relation_id parent_page parent_slot parent_first_child replacement_child
      removed_page next_free_page) steps.

(** ** One record *)

Section Replay.
Context `{ExternalTypes}.

(** What the loop of [open_with_recovery_inner] does to the index directory for a record. *)
Definition replay_index_record (r : WalRecord) : Redo unit :=
  match r with
  | FullPageImage rel n page_data =>
      if is_disk_index_relation_id rel then apply_disk_index_full_page_image rel n page_data else mret tt
  | FullPageImageBatch rel pages =>
      if is_disk_index_relation_id rel
      then redo_each (fun '(n, page_data) => apply_disk_index_full_page_image rel n page_data) pages else mret tt
  | PagePatch rel n segments =>
      if is_disk_index_relation_id rel then apply_disk_index_page_patch rel n segments else mret tt
  | PagePatchBatch rel patches =>
      if is_disk_index_relation_id rel
      then redo_each (fun '(n, segments) => apply_disk_index_page_patch rel n segments) patches else mret tt
  | PageSetU64Batch rel updates =>
      if is_disk_index_relation_id rel
      then redo_each (fun '(n, offset, value) => apply_disk_index_u64_update rel n offset value) updates else mret tt
  | DiskBtreeMetaUpdate rel root height count head => apply_disk_btree_meta_update rel root height count head
  | DiskBtreeLeafInsert rel n k v => apply_disk_btree_leaf_insert rel n k v
  | DiskBtreeLeafDelete rel n k v => apply_disk_btree_leaf_delete rel n k v
  | DiskBtreeLeafSplit rel l r old _ les res => apply_disk_btree_leaf_split rel l r old les res
  | DiskBtreeInternalInsert rel n s c => apply_disk_btree_internal_insert rel n s c
  | DiskBtreeInternalSplit rel l r _ lf rf les res => apply_disk_btree_internal_split rel l r lf rf les res
  | DiskBtreeRootGrow rel n f s c => apply_disk_btree_root_grow rel n f s c
  | DiskBtreeInternalDelete rel n s c => apply_disk_btree_internal_delete rel n s c
  | DiskBtreeLeafRedistribute rel l r pn slot pf les res rr sep => apply_disk_btree_leaf_redistribute rel l r pn slot pf les res rr sep
  | DiskBtreeInternalRedistribute rel l r pn slot pf lf rf les res sep =>
      apply_disk_btree_internal_redistribute rel l r pn slot pf lf rf les res sep
  | DiskBtreeLeafMerge rel l r pn pf sep les nr nf => apply_disk_btree_leaf_merge rel l r pn pf sep les nr nf
  | DiskBtreeInternalMerge rel l r pn pf sep lf les nf => apply_disk_btree_internal_merge rel l r pn pf sep lf les nf
  | DiskBtreeRootShrinkLeaf rel root es rs freed => apply_disk_btree_root_shrink_leaf rel root es rs freed
  | DiskBtreeRootShrinkInternal rel root f es freed => apply_disk_btree_root_shrink_internal rel root f es freed
  | DiskBtreeInternalCollapse rel pn slot pf rc rp nf => apply_disk_btree_internal_collapse rel pn slot pf rc rp nf
  | DiskBtreeRootPromoteSingleChild rel _ rp nf => apply_disk_btree_root_promote_single_child rel rp nf
  | DiskBtreeRootPromoteCollapsedChain rel _ freed => apply_disk_btree_root_promote_collapsed_chain rel freed
  | DiskBtreeInternalCollapseChain rel steps => apply_disk_btree_internal_collapse_chain rel steps
  | _ => mret tt
  end.

Definition replay_index_records (rs : list WalRecord) : Redo unit := redo_each replay_index_record rs.

End Replay.
