(* ===== verification/RedoNodes.v ===== *)
(** * What redo does to nodes

    The functions of [IndexRedo] on pages that hold nodes of the B+tree: which nodes the
    pages hold afterwards, and that no other page changes. *)

From S2P Require Import Prelude.
From S2P Require Import Bytes.
From S2P Require Import PageBytes.
From S2P Require Import PoolPage.
From S2P Require Import BTreePage.
From S2P Require Import Checksum.
From S2P Require Import Disk.
From S2P Require Import FileStore.
From S2P Require Import IndexRedo.

(** ** Pages of the directory *)

(** [data] is now the page [n], and every other page there was is still there. *)
Definition wrote (rel n : Z) (data : list Z) (d d' : Disk) : Prop :=
  page_on d' (mkPageId rel n) = Some data /\
  forall q x, q <> mkPageId rel n -> page_on d q = Some x -> page_on d' q = Some x.

Lemma lookup_overwrite_in c off bs i : (off <= i < off + length bs)%nat -> overwrite c off bs !! i = bs !! (i - off)%nat.
Proof.
  intros Hi. unfold overwrite.
  assert (Hl : length (take off (c ++ replicate (off - length c) 0)) = off) by (rewrite length_take, length_app, length_replicate; lia).
  rewrite lookup_app_r, Hl by lia. by rewrite lookup_app_l by lia.
Qed.

Lemma lookup_overwrite_out c off bs i :
  (i < length c)%nat -> ~ (off <= i < off + length bs)%nat -> overwrite c off bs !! i = c !! i.
Proof.
  intros Hi Hout. unfold overwrite.
  assert (Hl : length (take off (c ++ replicate (off - length c) 0)) = off) by (rewrite length_take, length_app, length_replicate; lia).
  destruct (decide (i < off)%nat).
  - rewrite lookup_app_l by lia. rewrite lookup_take_lt by done. by rewrite lookup_app_l.
  - rewrite lookup_app_r, Hl by lia. rewrite lookup_app_r by lia. rewrite lookup_drop. f_equal. lia.
Qed.

(** Writing the [j]th piece, also behind the end of the file. *)
Lemma chunk_write k c j bs : length bs = k -> chunk k (overwrite c (k * j) bs) j = bs.
Proof.
  intros Hl. apply list_eq. intros x. rewrite lookup_chunk. case_decide as Hx.
  - rewrite lookup_overwrite_in by lia. f_equal. lia.
  - symmetry. apply lookup_ge_None. lia.
Qed.

Lemma chunk_keep k c j bs i :
  length bs = k -> i <> j -> (k * i + k <= length c)%nat -> chunk k (overwrite c (k * j) bs) i = chunk k c i.
Proof.
  intros Hl Hne Hi. apply list_eq. intros x. rewrite !lookup_chunk. case_decide as Hx; [|done].
  rewrite lookup_overwrite_out; [done|lia|]. rewrite Hl. intros [H1 H2]. apply Hne. nia.
Qed.

#[local] Opaque Z.to_nat.

Lemma page_write d d' rel n data :
  is_page data -> 0 <= n -> data_of d' rel = overwrite (data_of d rel) (PS * Z.to_nat n) data ->
  (forall r, r <> rel -> data_of d' r = data_of d r) -> wrote rel n data d d'.
Proof.
  intros [Hl _] Hn E Eo. unfold page_len in Hl. pose proof ps_pos as [Hps Hps2].
  assert (Hp : rel_pages d' rel = Z.of_nat (Nat.max (length (data_of d rel)) (PS * Z.to_nat n + length data)) / PAGE_SIZE)
    by (unfold rel_pages; by rewrite E, length_overwrite).
  assert (Hge : n + 1 <= rel_pages d' rel /\ rel_pages d rel <= rel_pages d' rel).
  { rewrite Hp. unfold rel_pages. split; [apply Z.div_le_lower_bound; lia|apply Z.div_le_mono; lia]. }
  split.
  - unfold page_on. cbn [relation_id page_number]. rewrite decide_True by lia. rewrite E, chunk_write; [done|lia].
  - intros [r m] x Hne. unfold page_on. cbn [relation_id page_number]. destruct (decide (r = rel)) as [->|Hr].
    + case_decide as Hm; [|done]. rewrite decide_True by lia. intros [= <-]. apply (f_equal Some). rewrite E.
      apply chunk_keep; [lia| |].
      * intros Ei. apply Hne. f_equal. lia.
      * assert (PAGE_SIZE * rel_pages d rel <= Z.of_nat (length (data_of d rel))) by (apply Z.mul_div_le; lia). nia.
    + unfold rel_pages. by rewrite (Eo r Hr).
Qed.

Lemma redo_bind_ok {A B} (m : Redo A) (k : A -> Redo B) d x d1 : m d = (Ok x, d1) -> (m ≫= k) d = k x d1.
Proof. unfold mbind, redo_bind. by intros ->. Qed.

Lemma now_open_or_create n d m :
  now (file (snd (open_or_create_file n d)) m) = if decide (m = n) then Some (default [] (now (file d n))) else now (file d m).
Proof.
  unfold open_or_create_file, redo_change. cbn [snd]. rewrite file_fsync_dir, now_settle. destruct (now (file d n)) as [c|] eqn:E.
  - by case_decide; subst.
  - rewrite now_set_now. by case_decide.
Qed.

Lemma now_write_synced n off bs d c m :
  now (file d n) = Some c ->
  now (file (fsync (write_at d n off bs) n) m) = if decide (m = n) then Some (overwrite c (Z.to_nat off) bs) else now (file d m).
Proof. intros E. rewrite now_fsync. by apply now_write_at. Qed.

(** A page image replaces one page. *)
Lemma full_page_image_spec rel n data d :
  is_page data -> 0 <= n < FILE_PAGES ->
  exists d', apply_disk_index_full_page_image rel n data d = (Ok tt, d') /\ wrote rel n data d d'.
Proof.
  intros Hd Hn. pose proof Hd as [Hl _]. unfold page_len in Hl. unfold apply_disk_index_full_page_image.
  rewrite Hl, Z.eqb_refl. cbn [negb]. pose proof page_size_range as Hps.
  destruct (number_mul n PAGE_SIZE Hn Hps) as [E1 E2]. destruct (number_mul n 4 Hn) as [E3 E4]; [by unfold PAGE_SIZE|].
  set (d1 := snd (open_or_create_file (DataFile rel) d)).
  set (d2 := fsync (write_at d1 (DataFile rel) (n * PAGE_SIZE) data) (DataFile rel)).
  set (d3 := snd (open_or_create_file (ChecksumFile rel) d2)).
  set (d4 := fsync (write_at d3 (ChecksumFile rel) (n * 4) (le_bytes 4 (compute_crc32c data))) (ChecksumFile rel)).
  exists d4. split.
  - erewrite redo_bind_ok by reflexivity. fold d1. erewrite redo_bind_ok by (unfold redo_try; by rewrite E1).
    erewrite redo_bind_ok by (unfold write_synced; by rewrite E2). fold d2. erewrite redo_bind_ok by reflexivity. fold d3.
    erewrite redo_bind_ok by (unfold redo_try; by rewrite E3). unfold write_synced. by rewrite E4.
  - assert (Hd1 : now (file d1 (DataFile rel)) = Some (data_of d rel)) by (unfold d1; by rewrite now_open_or_create, decide_True).
    assert (Hd3 : now (file d3 (ChecksumFile rel)) = Some (default [] (now (file d2 (ChecksumFile rel)))))
      by (unfold d3; by rewrite now_open_or_create, decide_True).
    assert (Hdata : forall r, now (file d4 (DataFile r)) = if decide (r = rel) then Some (overwrite (data_of d rel) (Z.to_nat (n * PAGE_SIZE)) data) else now (file d (DataFile r))).
    { intros r. unfold d4. rewrite (now_write_synced _ _ _ _ _ _ Hd3), decide_False by done. unfold d3.
      rewrite now_open_or_create, decide_False by done.
      unfold d2. rewrite (now_write_synced _ _ _ _ _ _ Hd1). unfold d1. rewrite now_open_or_create.
      repeat case_decide; congruence. }
    apply page_write; [done|lia| |].
    + unfold data_of at 1. rewrite Hdata, decide_True by done. rewrite offset_nat by (unfold PAGE_SIZE; lia). done.
    + intros r Hr. unfold data_of. by rewrite Hdata, decide_False.
Qed.

Lemma read_page_bytes_spec rel n page d :
  page_on d (mkPageId rel n) = Some page -> 0 <= n < FILE_PAGES -> read_disk_index_page_bytes rel n d = (Ok page, d).
Proof.
  intros Hp Hn. pose proof page_size_range as Hps. destruct (number_mul n PAGE_SIZE Hn Hps) as [E1 E2].
  unfold page_on in Hp. cbn [relation_id page_number] in Hp. case_decide as Hlt; [|done]. injection Hp as <-.
  unfold read_disk_index_page_bytes. rewrite E1, E2.
  assert (Hlen : PAGE_SIZE * rel_pages d rel <= Z.of_nat (length (data_of d rel))) by (apply Z.mul_div_le; unfold PAGE_SIZE; lia).
  pose proof ps_pos as [Hps1 Hps2]. unfold data_of in *.
  destruct (now (file d (DataFile rel))) as [c|]; cbn [default from_option id] in *; [|unfold PAGE_SIZE in *; cbn in Hlen; lia].
  rewrite slice_chunk by (unfold PAGE_SIZE; lia). rewrite length_chunk by nia. rewrite Hps1, Z.eqb_refl. done.
Qed.

(** ** Building pages

    The header fields of a B+tree page, whatever is written behind them. *)
Record head (p : list Z) (kind : PageKind) (count right first : Z) : Prop := {
  head_page : is_page p;
  head_magic : slice p 0 8 = PAGE_MAGIC;
  head_kind : field p PAGE_KIND_OFFSET 1 = kind_byte kind;
  head_count : read_count p = count;
  head_right : field p PAGE_RIGHT_SIBLING_OFFSET 8 = right;
  head_first : field p PAGE_FIRST_CHILD_OFFSET 8 = first
}.

(** The same integers written by the tree and by recovery. *)
Lemma write_page_u64_spec p off v :
  is_page p -> 0 <= off -> off + 8 <= PAGE_SIZE -> in_u64 v ->
  exists p', write_page_u64 p off v = Ok p' /\ is_page p' /\ field p' off 8 = v /\
    (forall o n, 0 <= o -> 0 <= n -> o + n <= off \/ off + 8 <= o -> slice p' o n = slice p o n).
Proof.
  intros Hp Ho Hl Hv. destruct (write_u64_spec off v p Hp Ho Hl Hv) as (p' & E & R). exists p'. split; [|done].
  unfold write_page_u64. rewrite (is_page_len p Hp). unfold write_u64 in E. rewrite (proj2 (Z.leb_le _ _)) in * by done. congruence.
Qed.

Lemma write_page_u32_spec p off v :
  is_page p -> 0 <= off -> off + 4 <= PAGE_SIZE -> in_u32 v ->
  exists p', write_page_u32 p off v = Ok p' /\ is_page p' /\ field p' off 4 = v /\
    (forall o n, 0 <= o -> 0 <= n -> o + n <= off \/ off + 4 <= o -> slice p' o n = slice p o n).
Proof.
  intros Hp Ho Hl Hv. destruct (write_u32_spec off v p Hp Ho Hl Hv) as (p' & E & R). exists p'. split; [|done].
  unfold write_page_u32. rewrite (is_page_len p Hp). unfold write_u32 in E. rewrite (proj2 (Z.leb_le _ _)) in * by done. congruence.
Qed.

Lemma write_page_count_spec p c :
  is_page p -> 0 <= c <= PAGE_ENTRIES ->
  exists p', write_page_count p c = Ok p' /\ is_page p' /\ read_count p' = c /\
    (forall o n, 0 <= o -> 0 <= n -> o + n <= PAGE_COUNT_OFFSET \/ PAGE_COUNT_OFFSET + 2 <= o -> slice p' o n = slice p o n).
Proof.
  intros Hp Hc. destruct (write_count_spec c p Hp Hc) as (p' & E & R). exists p'. split; [|done].
  rewrite PAGE_ENTRIES_eq in Hc. unfold write_page_count, usize_to_u16, write_page_u16. unfold write_count in E.
  rewrite (proj2 (Z.leb_le _ _)) in * by lia. rewrite (is_page_len p Hp).
  rewrite (proj2 (Z.leb_le _ _)) by (btree_consts; lia). congruence.
Qed.

Lemma write_pairs_spec es : forall p i,
  is_page p -> 0 <= i -> i + count_of es <= PAGE_ENTRIES -> Forall u64_entry es ->
  exists p', write_pairs p i es = Ok p' /\ is_page p' /\ entries_at p' i es /\
    same_below (PAGE_HEADER_SIZE + i * LEAF_ENTRY_SIZE) p p'.
Proof.
  unfold count_of. induction es as [|[k v] es IH]; intros p i Hp Hi Hl Hu; [by exists p|].
  apply Forall_cons in Hu as [[Hk Hv] Hu]. cbn [write_pairs length fst snd] in *. rewrite PAGE_ENTRIES_eq in *.
  destruct (write_page_u64_spec p (PAGE_HEADER_SIZE + i * LEAF_ENTRY_SIZE) k) as (p1 & E1 & L1 & F1 & S1); try (btree_consts; lia || done).
  destruct (write_page_u64_spec p1 (PAGE_HEADER_SIZE + i * LEAF_ENTRY_SIZE + 8) v) as (p2 & E2 & L2 & F2 & S2); try (btree_consts; lia || done).
  destruct (IH p2 (i + 1)) as (p3 & E3 & L3 & F3 & S3); try lia; try done. exists p3.
  rewrite E1. rewrite E2. split_and!; [done|done| |].
  - cbn [entries_at]. unfold same_below, field in *. split_and!; [| |done].
    + rewrite S3, S2 by (btree_consts; lia). done.
    + rewrite S3 by (btree_consts; lia). done.
  - intros o n Ho Hn Hb. rewrite S3, S2, S1 by (btree_consts; lia). done.
Qed.

Lemma head_set_count p kind c r f n :
  head p kind c r f -> 0 <= n <= PAGE_ENTRIES -> exists p', write_page_count p n = Ok p' /\ head p' kind n r f.
Proof.
  intros [H1 H2 H3 H4 H5 H6] Hn. destruct (write_page_count_spec p n H1 Hn) as (p' & E & L & C & S). exists p'. split; [done|].
  unfold field in *. split; unfold field; try rewrite S by (btree_consts; lia); done.
Qed.

Lemma head_set_right p kind c r f r' :
  head p kind c r f -> in_u64 r' -> exists p', write_page_u64 p PAGE_RIGHT_SIBLING_OFFSET r' = Ok p' /\ head p' kind c r' f.
Proof.
  intros [H1 H2 H3 H4 H5 H6] Hn. destruct (write_page_u64_spec p PAGE_RIGHT_SIBLING_OFFSET r') as (p' & E & L & C & S); [done..|].
  exists p'. split; [done|]. unfold read_count, field in *.
  split; unfold read_count, field; try rewrite S by (btree_consts; lia); done.
Qed.

Lemma head_set_first p kind c r f f' :
  head p kind c r f -> in_u64 f' -> exists p', write_page_u64 p PAGE_FIRST_CHILD_OFFSET f' = Ok p' /\ head p' kind c r f'.
Proof.
  intros [H1 H2 H3 H4 H5 H6] Hn. destruct (write_page_u64_spec p PAGE_FIRST_CHILD_OFFSET f') as (p' & E & L & C & S); [done..|].
  exists p'. split; [done|]. unfold read_count, field in *.
  split; unfold read_count, field; try rewrite S by (btree_consts; lia); done.
Qed.

Lemma head_below p p' kind c r f : head p kind c r f -> is_page p' -> same_below PAGE_HEADER_SIZE p p' -> head p' kind c r f.
Proof.
  intros [H1 H2 H3 H4 H5 H6] Hp S. unfold read_count, field, same_below in *.
  split; unfold read_count, field; try rewrite S by (btree_consts; lia); done.
Qed.

Lemma head_clear p kind c r f : head p kind c r f -> head (clear_pairs p) kind c r f.
Proof.
  intros H. destruct (fill_entries_spec p) as (p' & E & L & S); [apply H|]. injection E as <-. by apply (head_below p).
Qed.

Lemma head_set_pairs p kind c r f es :
  head p kind c r f -> entries_ok es -> exists p', write_pairs p 0 es = Ok p' /\ head p' kind c r f /\ entries_at p' 0 es.
Proof.
  intros H [Hu Hl]. destruct (write_pairs_spec es p 0) as (p' & E & L & A & S); [apply H|done|lia|done|].
  exists p'. split_and!; [done| |done]. by apply (head_below p).
Qed.

Lemma head_blank kind : head (blank_page (kind_byte kind)) kind 0 0 0.
Proof. destruct kind; (split; [apply pageb_spec|..]; by vm_compute). Qed.

Lemma head_leaf p r f es : head p Leaf (count_of es) r f -> entries_at p 0 es -> entries_ok es -> in_u64 r -> page_is p (NLeaf es r).
Proof. intros [] ? ? ?. by split_and!. Qed.

Lemma head_inner p r f es : head p Internal (count_of es) r f -> entries_at p 0 es -> entries_ok es -> in_u64 f -> page_is p (NInner f es).
Proof. intros [] ? ? ?. by split_and!. Qed.

Lemma leaf_head p es r : page_is p (NLeaf es r) -> head p Leaf (count_of es) r (field p PAGE_FIRST_CHILD_OFFSET 8).
Proof. by intros ((?&?&?&?&?&?)&?&?). Qed.

Lemma inner_head p es f : page_is p (NInner f es) -> head p Internal (count_of es) (field p PAGE_RIGHT_SIBLING_OFFSET 8) f.
Proof. by intros ((?&?&?&?&?&?)&?&?). Qed.

Lemma count_ok es : entries_ok es -> 0 <= count_of es <= PAGE_ENTRIES.
Proof. intros [_ H]. unfold count_of in *. lia. Qed.
#[local] Hint Resolve count_ok : core.

Lemma rewrite_leaf_is p es0 r es :
  page_is p (NLeaf es0 r) -> entries_ok es -> exists p', rewrite_leaf p es = Ok p' /\ page_is p' (NLeaf es r).
Proof.
  intros Hp Hes. pose proof (leaf_head _ _ _ Hp) as H. apply head_clear in H. unfold rewrite_leaf.
  destruct (head_set_count _ _ _ _ _ (count_of es) H) as (p1 & -> & H1); [auto|].
  destruct (head_set_pairs _ _ _ _ _ es H1) as (p2 & E2 & H2 & A2); [done|].
  exists p2. split; [done|]. eapply head_leaf; try done. apply Hp.
Qed.

Lemma rewrite_leaf_right_is p es0 r0 r es :
  page_is p (NLeaf es0 r0) -> entries_ok es -> in_u64 r -> exists p', rewrite_leaf_right p r es = Ok p' /\ page_is p' (NLeaf es r).
Proof.
  intros Hp Hes Hr. pose proof (leaf_head _ _ _ Hp) as H. apply head_clear in H. unfold rewrite_leaf_right.
  destruct (head_set_count _ _ _ _ _ (count_of es) H) as (p1 & -> & H1); [auto|].
  destruct (head_set_right _ _ _ _ _ r H1) as (p2 & -> & H2); [done|].
  destruct (head_set_pairs _ _ _ _ _ es H2) as (p3 & E3 & H3 & A3); [done|].
  exists p3. split; [done|]. by eapply head_leaf.
Qed.

Lemma rewrite_internal_is p f0 es0 f es :
  page_is p (NInner f0 es0) -> entries_ok es -> in_u64 f -> exists p', rewrite_internal p f es = Ok p' /\ page_is p' (NInner f es).
Proof.
  intros Hp Hes Hf. pose proof (inner_head _ _ _ Hp) as H. apply head_clear in H. unfold rewrite_internal.
  destruct (head_set_first _ _ _ _ _ f H) as (p1 & -> & H1); [done|].
  destruct (head_set_count _ _ _ _ _ (count_of es) H1) as (p2 & -> & H2); [auto|].
  destruct (head_set_pairs _ _ _ _ _ es H2) as (p3 & E3 & H3 & A3); [done|].
  exists p3. split; [done|]. by eapply head_inner.
Qed.

Lemma free_page_is next : in_u64 next -> exists p, free_page next = Ok p /\ page_is p (NLeaf [] next).
Proof.
  intros Hn. unfold free_page.
  change (write_page_u16 (blank_page 1) PAGE_COUNT_OFFSET 0) with (write_page_count (blank_page (kind_byte Leaf)) (count_of (A := Z * Z) [])).
  assert (Hok : entries_ok []) by (split; [constructor|done]).
  destruct (head_set_count _ _ _ _ _ (count_of (A := Z * Z) []) (head_blank Leaf)) as (p1 & -> & H1); [auto|].
  destruct (head_set_right _ _ _ _ _ next H1) as (p2 & -> & H2); [done|].
  destruct (head_set_first _ _ _ _ _ NO_PAGE H2) as (p3 & E3 & H3); [apply NO_PAGE_u64|].
  exists p3. split; [done|]. by eapply head_leaf.
Qed.

(** ** Nodes of the directory *)

(** The page [n] of the relation holds the node. *)
Definition holds (d : Disk) (rel n : Z) (nd : node) : Prop := exists p, page_on d (mkPageId rel n) = Some p /\ page_is p nd.

Definition holds_meta (d : Disk) (rel : Z) (m : MetaPage) : Prop := exists p, page_on d (mkPageId rel 0) = Some p /\ meta_is p m.

(** Only the pages [ns] of the relation have changed. *)
Definition rewrote (rel : Z) (ns : list Z) (d d' : Disk) : Prop :=
  forall q x, ~ (relation_id q = rel /\ page_number q ∈ ns) -> page_on d q = Some x -> page_on d' q = Some x.

Definition page_no (n : Z) : Prop := 0 <= n < FILE_PAGES.

Lemma rewrote_trans rel ns ms d d1 d2 : rewrote rel ns d d1 -> rewrote rel ms d1 d2 -> rewrote rel (ns ++ ms) d d2.
Proof. intros H1 H2 q x Hq Hx. apply H2; [|apply H1; [|done]]; intros [? ?]; apply Hq; rewrite elem_of_app; auto. Qed.

Lemma rewrote_refl rel ns d : rewrote rel ns d d.
Proof. by intros q x _. Qed.

Lemma rewrote_mono rel ns ms d d' : rewrote rel ns d d' -> ns ⊆ ms -> rewrote rel ms d d'.
Proof. intros H Hs q x Hq. apply H. intros [? ?]. apply Hq. auto. Qed.

Lemma holds_rewrote rel ns d d' n nd : holds d rel n nd -> rewrote rel ns d d' -> n ∉ ns -> holds d' rel n nd.
Proof. intros (p & Hp & Hn) Hr Hni. exists p. split; [|done]. apply Hr; [|done]. by intros [_ ?]. Qed.

Lemma wrote_rewrote rel n p d d' : wrote rel n p d d' -> rewrote rel [n] d d'.
Proof.
  intros [_ H] [r m] x Hq. apply H. intros [= -> ->]. apply Hq. cbn. split; [done|]. by left.
Qed.

Lemma write_node_spec rel n p nd d :
  page_is p nd -> page_no n ->
  exists d', apply_disk_index_full_page_image rel n p d = (Ok tt, d') /\ holds d' rel n nd /\ rewrote rel [n] d d'.
Proof.
  intros Hp Hn. destruct (full_page_image_spec rel n p d) as (d' & E & W); [by eapply page_is_len|done|].
  exists d'. split_and!; [done| |by eapply wrote_rewrote]. exists p. split; [exact (proj1 W)|done].
Qed.

Lemma redo_try_ok {A B} (r : DbResult A) x (k : A -> Redo B) d : r = Ok x -> (redo_try r ≫= k) d = k x d.
Proof. by intros ->. Qed.

Lemma require_ok {B} b (k : unit -> Redo B) d : b = true -> (require b ≫= k) d = k tt d.
Proof. by intros ->. Qed.

Lemma read_page_ok {B} rel n p (k : list Z -> Redo B) d :
  page_on d (mkPageId rel n) = Some p -> page_no n -> (read_disk_index_page_bytes rel n ≫= k) d = k p d.
Proof. intros Hp Hn. apply redo_bind_ok. by apply read_page_bytes_spec. Qed.

Lemma is_tree_page_of p nd : page_is p nd -> is_tree_page p (kind_byte (kind_of nd)) = true.
Proof.
  unfold is_tree_page. destruct nd; intros ((_ & Hm & Hk & _) & _); rewrite Hk, bool_decide_eq_true_2 by done; done.
Qed.

Lemma read_page_u64_of p off : is_page p -> off + 8 <= PAGE_SIZE -> read_page_u64 p off = Ok (field p off 8).
Proof. intros Hp Ho. unfold read_page_u64. rewrite (is_page_len p Hp). by rewrite (proj2 (Z.leb_le _ _)). Qed.

Lemma read_pairs_of p es : forall i,
  is_page p -> 0 <= i -> i + count_of es <= PAGE_ENTRIES -> entries_at p i es -> read_pairs p (seqZ i (count_of es)) = Ok es.
Proof.
  unfold count_of. induction es as [|[k v] es IH]; intros i Hp Hi Hl; [done|]. cbn [entries_at length] in *.
  intros (Hk & Hv & Hr). rewrite seqZ_cons by lia. cbn [read_pairs]. rewrite PAGE_ENTRIES_eq in *.
  replace (Z.pred (Z.of_nat (S (length es)))) with (Z.of_nat (length es)) by lia.
  rewrite !read_page_u64_of, Hk, Hv by (done || btree_consts; lia). change (Z.succ i) with (i + 1). rewrite IH by (done || lia).
  done.
Qed.

Lemma holds_entries_read p kind es : holds_entries p kind es -> read_page_u16 p PAGE_COUNT_OFFSET = Ok (count_of es) /\ read_pairs p (seqZ 0 (count_of es)) = Ok es.
Proof.
  intros (Hp & _ & _ & Hc & He & Hok). split; [|apply read_pairs_of; try done; apply Hok].
  unfold read_page_u16. rewrite (is_page_len p Hp). rewrite (proj2 (Z.leb_le _ _)) by (btree_consts; lia). by f_equal.
Qed.

Lemma read_page_pairs_of p kind es : holds_entries p kind es -> read_page_pairs p = Ok es.
Proof. intros H. unfold read_page_pairs. destruct (holds_entries_read _ _ _ H) as [-> ->]. done. Qed.

Lemma read_first_of p f es : page_is p (NInner f es) -> read_page_u64 p PAGE_FIRST_CHILD_OFFSET = Ok f.
Proof. intros [(Hp & _) [<- _]]. by apply read_page_u64_of. Qed.

(** One step of a redo function: its read, its check of the kind, a pure computation. *)
Ltac redo_step :=
  first [ erewrite read_page_ok by eassumption
        | rewrite require_ok by (rewrite ?andb_true_iff; repeat split; by (apply is_tree_page_of; eassumption) || (eapply (is_tree_page_of _ (NLeaf _ _)); eassumption) || (eapply (is_tree_page_of _ (NInner _ _)); eassumption))
        | erewrite redo_try_ok by eassumption ].

(** *** One page *)

Lemma leaf_insert_spec rel n k v es r d :
  holds d rel n (NLeaf es r) -> page_no n -> entries_ok (insert_at (partition_pair es k v) (k, v) es) ->
  exists d', apply_disk_btree_leaf_insert rel n k v d = (Ok tt, d') /\
    holds d' rel n (NLeaf (insert_at (partition_pair es k v) (k, v) es) r) /\ rewrote rel [n] d d'.
Proof.
  intros (p & Hp & Hn) Hno Hok. destruct (rewrite_leaf_is _ _ _ _ Hn Hok) as (p' & E & Hn'). unfold apply_disk_btree_leaf_insert.
  pose proof (read_page_pairs_of _ _ _ (proj1 Hn)) as Er. do 4 redo_step. by apply write_node_spec.
Qed.

Lemma leaf_delete_spec rel n k v es es' r d :
  holds d rel n (NLeaf es r) -> page_no n -> remove_pair (k, v) es = Ok es' -> entries_ok es' ->
  exists d', apply_disk_btree_leaf_delete rel n k v d = (Ok tt, d') /\ holds d' rel n (NLeaf es' r) /\ rewrote rel [n] d d'.
Proof.
  intros (p & Hp & Hn) Hno Er Hok. destruct (rewrite_leaf_is _ _ _ _ Hn Hok) as (p' & E & Hn'). unfold apply_disk_btree_leaf_delete.
  pose proof (read_page_pairs_of _ _ _ (proj1 Hn)) as Ep. do 5 redo_step. by apply write_node_spec.
Qed.

(** A deletion of an entry that is not there stops recovery. *)
Lemma leaf_delete_missing rel n k v es r d :
  holds d rel n (NLeaf es r) -> page_no n -> remove_pair (k, v) es = Err internal ->
  apply_disk_btree_leaf_delete rel n k v d = (Err internal, d).
Proof.
  intros (p & Hp & Hn) Hno Er. unfold apply_disk_btree_leaf_delete.
  pose proof (read_page_pairs_of _ _ _ (proj1 Hn)) as Ep. do 3 redo_step. unfold redo_try at 1. by rewrite Er.
Qed.

Lemma internal_insert_spec rel n s c f es d :
  holds d rel n (NInner f es) -> page_no n -> entries_ok (insert_at (partition_point es s) (s, c) es) ->
  exists d', apply_disk_btree_internal_insert rel n s c d = (Ok tt, d') /\
    holds d' rel n (NInner f (insert_at (partition_point es s) (s, c) es)) /\ rewrote rel [n] d d'.
Proof.
  intros (p & Hp & Hn) Hno Hok. pose proof (page_is_ok _ _ Hn) as [_ Hf].
  destruct (rewrite_internal_is _ _ _ _ _ Hn Hok Hf) as (p' & E & Hn'). unfold apply_disk_btree_internal_insert.
  destruct (holds_entries_read _ _ _ (proj1 Hn)) as [Ec Ep]. pose proof (read_first_of _ _ _ Hn) as Ef. do 6 redo_step.
  by apply write_node_spec.
Qed.

Lemma internal_delete_spec rel n s c f es es' d :
  holds d rel n (NInner f es) -> page_no n -> remove_pair (s, c) es = Ok es' -> entries_ok es' ->
  exists d', apply_disk_btree_internal_delete rel n s c d = (Ok tt, d') /\ holds d' rel n (NInner f es') /\ rewrote rel [n] d d'.
Proof.
  intros (p & Hp & Hn) Hno Er Hok. pose proof (page_is_ok _ _ Hn) as [_ Hf].
  destruct (rewrite_internal_is _ _ _ _ _ Hn Hok Hf) as (p' & E & Hn'). unfold apply_disk_btree_internal_delete.
  destruct (holds_entries_read _ _ _ (proj1 Hn)) as [Ec Ep]. pose proof (read_first_of _ _ _ Hn) as Ef. do 7 redo_step.
  by apply write_node_spec.
Qed.

Lemma page_no_u64 n : page_no n -> in_u64 n.
Proof. unfold page_no, FILE_PAGES, in_u64, u64_max. lia. Qed.
#[local] Hint Resolve page_no_u64 : core.

Definition meta_ok (m : MetaPage) : Prop :=
  in_u64 (meta_root m) /\ in_u32 (meta_height m) /\ in_u64 (meta_count m) /\ in_u64 (meta_head m).

Lemma meta_update_spec rel m0 m d :
  holds_meta d rel m0 -> meta_ok m ->
  exists d', apply_disk_btree_meta_update rel (meta_root m) (meta_height m) (meta_count m) (meta_head m) d = (Ok tt, d') /\
    holds_meta d' rel m /\ rewrote rel [0] d d'.
Proof.
  intros (p & Hp & Hd & Hm & _) (H1 & H2 & H3 & H4).
  destruct (write_page_u64_spec p META_ROOT_OFFSET (meta_root m)) as (p1 & E1 & L1 & F1 & S1); [done..|].
  destruct (write_page_u32_spec p1 META_HEIGHT_OFFSET (meta_height m)) as (p2 & E2 & L2 & F2 & S2); [done..|].
  destruct (write_page_u64_spec p2 META_PAGE_COUNT_OFFSET (meta_count m)) as (p3 & E3 & L3 & F3 & S3); [done..|].
  destruct (write_page_u64_spec p3 META_FREE_LIST_OFFSET (meta_head m)) as (p4 & E4 & L4 & F4 & S4); [done..|].
  destruct (full_page_image_spec rel 0 p4 d) as (d' & E & W); [done|done|].
  assert (Hno : page_no 0) by done. exists d'. split_and!; [| |by eapply wrote_rewrote].
  - unfold apply_disk_btree_meta_update. redo_step. rewrite require_ok by (by apply bool_decide_eq_true). by do 4 redo_step.
  - exists p4. split; [exact (proj1 W)|]. unfold meta_is, field in *.
    rewrite !S4, !S3, !S2, !S1 by (btree_consts; lia). by rewrite F1, F2, F3, F4.
Qed.

Lemma root_grow_spec rel n f s c d :
  page_no n -> in_u64 f -> in_u64 s -> in_u64 c ->
  exists d', apply_disk_btree_root_grow rel n f s c d = (Ok tt, d') /\ holds d' rel n (NInner f [(s, c)]) /\ rewrote rel [n] d d'.
Proof.
  intros Hno Hf Hs Hc. assert (Hok : entries_ok [(s, c)]) by (split; [by constructor|done]).
  destruct (head_set_first _ _ _ _ _ f (head_blank Internal)) as (p1 & E1 & H1); [done|].
  destruct (head_set_count _ _ _ _ _ (count_of [(s, c)]) H1) as (p2 & E2 & H2); [auto|].
  destruct (head_set_pairs _ _ _ _ _ [(s, c)] H2) as (p3 & E3 & H3 & A3); [done|].
  assert (Hn : page_is p3 (NInner f [(s, c)])) by by eapply head_inner.
  destruct (write_node_spec rel n p3 _ d Hn Hno) as (d' & E & R). exists d'. split; [|done]. rewrite <- E.
  unfold apply_disk_btree_root_grow. redo_step. erewrite redo_try_ok by exact E2. cbn [write_pairs] in E3.
  destruct (write_page_u64 p2 (PAGE_HEADER_SIZE + 0 * LEAF_ENTRY_SIZE) s) as [p2'|] eqn:E2'; [|done].
  erewrite redo_try_ok by exact E2'. erewrite redo_try_ok; [done|]. by destruct (write_page_u64 p2' _ c) eqn:E2''.
Qed.

(** *** Two and three pages *)

(** Writing [a], then [b]. *)
Lemma write_two rel a b p q nd nd' d :
  page_is p nd -> page_is q nd' -> page_no a -> page_no b -> a <> b ->
  exists d', (_ ← apply_disk_index_full_page_image rel a p; apply_disk_index_full_page_image rel b q) d = (Ok tt, d') /\
    holds d' rel a nd /\ holds d' rel b nd' /\ rewrote rel [a; b] d d'.
Proof.
  intros Hp Hq Ha Hb Hab. destruct (write_node_spec rel a p nd d Hp Ha) as (d1 & E1 & H1 & R1).
  destruct (write_node_spec rel b q nd' d1 Hq Hb) as (d2 & E2 & H2 & R2). exists d2.
  rewrite (redo_bind_ok _ _ _ _ _ E1). split_and!; [done| |done|by apply (rewrote_trans _ [a] [b] d d1)].
  apply (holds_rewrote _ _ _ _ _ _ H1 R2). by rewrite list_elem_of_singleton.
Qed.

Lemma write_three rel a b c p q s nd nd' nd'' d :
  page_is p nd -> page_is q nd' -> page_is s nd'' -> page_no a -> page_no b -> page_no c -> NoDup [a; b; c] ->
  exists d', (_ ← apply_disk_index_full_page_image rel a p; _ ← apply_disk_index_full_page_image rel b q;
              apply_disk_index_full_page_image rel c s) d = (Ok tt, d') /\
    holds d' rel a nd /\ holds d' rel b nd' /\ holds d' rel c nd'' /\ rewrote rel [a; b; c] d d'.
Proof.
  intros Hp Hq Hs Ha Hb Hc Hnd. apply NoDup_cons in Hnd as [Ha' Hnd]. apply NoDup_cons in Hnd as [Hb' _].
  destruct (write_node_spec rel a p nd d Hp Ha) as (d1 & E1 & H1 & R1).
  destruct (write_two rel b c q s nd' nd'' d1) as (d2 & E2 & H2 & H3 & R2); [done..|by intros ->; apply Hb'; left|]. exists d2.
  rewrite (redo_bind_ok _ _ _ _ _ E1). split_and!; [done| |done|done|by apply (rewrote_trans _ [a] [b; c] d d1)].
  by apply (holds_rewrote _ _ _ _ _ _ H1 R2).
Qed.

Lemma leaf_split_spec rel l r old les res es0 r0 d :
  holds d rel l (NLeaf es0 r0) -> page_no l -> page_no r -> l <> r -> entries_ok les -> entries_ok res -> in_u64 old ->
  exists d', apply_disk_btree_leaf_split rel l r old les res d = (Ok tt, d') /\
    holds d' rel l (NLeaf les r) /\ holds d' rel r (NLeaf res old) /\ rewrote rel [l; r] d d'.
Proof.
  intros (p & Hp & Hn) Hl Hr Hne Hles Hres Hold. destruct (rewrite_leaf_right_is _ _ _ r les Hn) as (p' & E & Hn'); [auto..|].
  destruct (head_set_count _ _ _ _ _ (count_of res) (head_blank Leaf)) as (p1 & E1 & H1); [auto|].
  destruct (head_set_right _ _ _ _ _ old H1) as (p2 & E2 & H2); [done|].
  destruct (head_set_first _ _ _ _ _ u64_max H2) as (p3 & E3 & H3); [done|].
  destruct (head_set_pairs _ _ _ _ _ res H3) as (p4 & E4 & H4 & A4); [done|].
  unfold apply_disk_btree_leaf_split. do 3 redo_step. erewrite redo_try_ok by exact E1. do 3 redo_step.
  apply write_two; [assumption|by eapply head_leaf|assumption..].
Qed.

Lemma internal_split_spec rel l r lf rf les res f0 es0 d :
  holds d rel l (NInner f0 es0) -> page_no l -> page_no r -> l <> r -> entries_ok les -> entries_ok res -> in_u64 lf -> in_u64 rf ->
  exists d', apply_disk_btree_internal_split rel l r lf rf les res d = (Ok tt, d') /\
    holds d' rel l (NInner lf les) /\ holds d' rel r (NInner rf res) /\ rewrote rel [l; r] d d'.
Proof.
  intros (p & Hp & Hn) Hl Hr Hne Hles Hres Hlf Hrf. destruct (rewrite_internal_is _ _ _ lf les Hn) as (p' & E & Hn'); [done..|].
  destruct (head_set_first _ _ _ _ _ rf (head_blank Internal)) as (p1 & E1 & H1); [done|].
  destruct (head_set_count _ _ _ _ _ (count_of res) H1) as (p2 & E2 & H2); [auto|].
  destruct (head_set_pairs _ _ _ _ _ res H2) as (p3 & E3 & H3 & A3); [done|].
  unfold apply_disk_btree_internal_split. do 3 redo_step. erewrite redo_try_ok by exact E1. do 2 redo_step.
  apply write_two; [assumption|by eapply head_inner|assumption..].
Qed.

(** Replacing the key of one entry. *)
Definition set_key (slot : nat) (s : Z) (es : list (Z * Z)) : list (Z * Z) := alter (fun e => (s, snd e)) slot es.
Definition set_child (slot : nat) (c : Z) (es : list (Z * Z)) : list (Z * Z) := alter (fun e => (fst e, c)) slot es.

Lemma entries_at_lookup p es : forall i,
  entries_at p i es <-> forall j e, es !! j = Some e ->
    field p (PAGE_HEADER_SIZE + (i + Z.of_nat j) * LEAF_ENTRY_SIZE) 8 = fst e /\
    field p (PAGE_HEADER_SIZE + (i + Z.of_nat j) * LEAF_ENTRY_SIZE + 8) 8 = snd e.
Proof.
  induction es as [|[k v] es IH]; intros i; [done|]. cbn [entries_at]. rewrite IH. split.
  - intros (Hk & Hv & Hr) [|j] e He; cbn in He.
    + injection He as <-. by rewrite Z.add_0_r.
    + replace (i + Z.of_nat (S j)) with (i + 1 + Z.of_nat j) by lia. auto.
  - intros H. destruct (H 0%nat (k, v) eq_refl) as [Hk Hv]. rewrite Z.add_0_r in Hk, Hv. split_and!; [done|done|].
    intros j e He. replace (i + 1 + Z.of_nat j) with (i + Z.of_nat (S j)) by lia. by apply H.
Qed.

Lemma entries_ok_alter (g : Z * Z -> Z * Z) slot es : entries_ok es -> (forall e, u64_entry e -> u64_entry (g e)) -> entries_ok (alter g slot es).
Proof.
  intros [Hu Hl] Hg. split; [|unfold count_of in *; by rewrite length_alter].
  apply Forall_alter; [done|]. auto.
Qed.

(** One half of an entry of an internal page written over. *)
Lemma write_half p f es slot (key : bool) x :
  page_is p (NInner f es) -> (slot < length es)%nat -> in_u64 x ->
  exists p', write_page_u64 p (PAGE_HEADER_SIZE + Z.of_nat slot * LEAF_ENTRY_SIZE + (if key then 0 else 8)) x = Ok p' /\
    page_is p' (NInner f (if key then set_key slot x es else set_child slot x es)).
Proof.
  intros ((Hp & Hm & Hk & Hc & He & Hok) & Hf & Hfu) Hs Hx. pose proof (proj2 Hok) as Hl. rewrite PAGE_ENTRIES_eq in Hl.
  unfold count_of in Hl.
  destruct (write_page_u64_spec p (PAGE_HEADER_SIZE + Z.of_nat slot * LEAF_ENTRY_SIZE + (if key then 0 else 8)) x) as (p' & E & L & F & S);
    [done|destruct key; btree_consts; lia..|done|]. exists p'. split; [done|].
  assert (Hlen : forall g : Z * Z -> Z * Z, count_of (alter g slot es) = count_of es) by (intros; unfold count_of; by rewrite length_alter).
  set (es' := if key then set_key slot x es else set_child slot x es).
  assert (Hes' : entries_ok es' /\ count_of es' = count_of es).
  { unfold es', set_key, set_child.
    destruct key; (split; [apply entries_ok_alter; [done|]; intros [? ?] [? ?]; by split|apply Hlen]). }
  split_and!; [split_and!; [done|..]|..]; try done; unfold read_count, field in *; try (rewrite S by (destruct key; btree_consts; lia)); try done; [by rewrite (proj2 Hes')| |apply Hes'].
  rewrite entries_at_lookup in He. rewrite entries_at_lookup. intros j e Hj. assert (Hjl : (j < length es)%nat).
  { apply lookup_lt_Some in Hj. pose proof (proj2 Hes') as Hl'. unfold count_of in Hl'. lia. }
  destruct (lookup_lt_is_Some_2 es j Hjl) as [[k0 v0] Hj0]. destruct (He j _ Hj0) as [Ek Ev]. cbn [fst snd] in Ek, Ev.
  unfold es', set_key, set_child in Hj. rewrite Z.add_0_l in *. unfold field in *. destruct (decide (j = slot)) as [->|Hne].
  - destruct key; rewrite list_lookup_alter_eq, Hj0 in Hj; cbn in Hj; injection Hj as <-; cbn [fst snd]; rewrite ?Z.add_0_r in *;
      (split; [first [exact F|rewrite S by (btree_consts; lia); done]|first [exact F|rewrite S by (btree_consts; lia); done]]).
  - assert (Hj' : e = (k0, v0)) by (destruct key; rewrite list_lookup_alter_ne in Hj by done; congruence). subst e. cbn [fst snd].
    rewrite !S by (destruct key; btree_consts; lia). done.
Qed.

Lemma set_first_is p f es f' :
  page_is p (NInner f es) -> in_u64 f' -> exists p', write_page_u64 p PAGE_FIRST_CHILD_OFFSET f' = Ok p' /\ page_is p' (NInner f' es).
Proof.
  intros Hp Hf. destruct (write_first_child_is _ f' _ _ Hp Hf) as (p1 & E1 & P1). exists p1. split; [|done].
  unfold write_first_child, ignore_error, write_u64 in E1. unfold write_page_u64. rewrite (is_page_len p (page_is_len _ _ Hp)).
  destruct (PAGE_FIRST_CHILD_OFFSET + 8 <=? PAGE_SIZE) eqn:E; [|discriminate E]. cbn [snd] in E1. congruence.
Qed.

Lemma set_separator_is p f es slot pf s :
  page_is p (NInner f es) -> (slot < length es)%nat -> in_u64 pf -> in_u64 s ->
  exists p', set_separator p (Z.of_nat slot) pf s = Ok p' /\ page_is p' (NInner pf (set_key slot s es)).
Proof.
  intros Hp Hs Hpf Hsu. destruct (holds_entries_read _ _ _ (proj1 Hp)) as [Ec _]. unfold set_separator. rewrite Ec.
  rewrite (proj2 (Z.leb_gt _ _)) by (unfold count_of; lia).
  destruct (set_first_is _ _ _ pf Hp Hpf) as (p1 & -> & P1). destruct (write_half p1 pf es slot true s P1 Hs Hsu) as (p2 & E2 & P2).
  rewrite Z.add_0_r in E2. by exists p2.
Qed.

Lemma drop_entry_is p f es es' pf s c :
  page_is p (NInner f es) -> remove_pair (s, c) es = Ok es' -> entries_ok es' -> in_u64 pf ->
  exists p', drop_entry p pf s c = Ok p' /\ page_is p' (NInner pf es').
Proof.
  intros Hp Er Hok Hpf. unfold drop_entry. rewrite (read_page_pairs_of _ _ _ (proj1 Hp)), Er. by eapply rewrite_internal_is.
Qed.

Lemma leaf_redistribute_spec rel l r pn slot pf les res rr s es1 r1 es2 r2 f3 es3 d :
  holds d rel l (NLeaf es1 r1) -> holds d rel r (NLeaf es2 r2) -> holds d rel pn (NInner f3 es3) ->
  page_no l -> page_no r -> page_no pn -> NoDup [l; r; pn] ->
  (slot < length es3)%nat -> entries_ok les -> entries_ok res -> in_u64 rr -> in_u64 pf -> in_u64 s ->
  exists d', apply_disk_btree_leaf_redistribute rel l r pn (Z.of_nat slot) pf les res rr s d = (Ok tt, d') /\
    holds d' rel l (NLeaf les r) /\ holds d' rel r (NLeaf res rr) /\ holds d' rel pn (NInner pf (set_key slot s es3)) /\
    rewrote rel [l; r; pn] d d'.
Proof.
  intros (p1 & Hp1 & Hn1) (p2 & Hp2 & Hn2) (p3 & Hp3 & Hn3) Hl Hr Hpn Hnd Hs Hles Hres Hrr Hpf Hsu.
  destruct (rewrite_leaf_right_is _ _ _ r les Hn1) as (q1 & E1 & N1); [auto..|].
  destruct (rewrite_leaf_right_is _ _ _ rr res Hn2) as (q2 & E2 & N2); [auto..|].
  destruct (set_separator_is _ _ _ slot pf s Hn3) as (q3 & E3 & N3); [auto..|].
  unfold apply_disk_btree_leaf_redistribute. do 7 redo_step. by apply write_three.
Qed.

Lemma internal_redistribute_spec rel l r pn slot pf lf rf les res s f1 es1 f2 es2 f3 es3 d :
  holds d rel l (NInner f1 es1) -> holds d rel r (NInner f2 es2) -> holds d rel pn (NInner f3 es3) ->
  page_no l -> page_no r -> page_no pn -> NoDup [l; r; pn] ->
  (slot < length es3)%nat -> entries_ok les -> entries_ok res -> in_u64 lf -> in_u64 rf -> in_u64 pf -> in_u64 s ->
  exists d', apply_disk_btree_internal_redistribute rel l r pn (Z.of_nat slot) pf lf rf les res s d = (Ok tt, d') /\
    holds d' rel l (NInner lf les) /\ holds d' rel r (NInner rf res) /\ holds d' rel pn (NInner pf (set_key slot s es3)) /\
    rewrote rel [l; r; pn] d d'.
Proof.
  intros (p1 & Hp1 & Hn1) (p2 & Hp2 & Hn2) (p3 & Hp3 & Hn3) Hl Hr Hpn Hnd Hs Hles Hres Hlf Hrf Hpf Hsu.
  destruct (rewrite_internal_is _ _ _ lf les Hn1) as (q1 & E1 & N1); [auto..|].
  destruct (rewrite_internal_is _ _ _ rf res Hn2) as (q2 & E2 & N2); [auto..|].
  destruct (set_separator_is _ _ _ slot pf s Hn3) as (q3 & E3 & N3); [auto..|].
  unfold apply_disk_btree_internal_redistribute. do 7 redo_step. by apply write_three.
Qed.

Lemma leaf_merge_spec rel l r pn pf s les nr nf es1 r1 f3 es3 es3' d :
  holds d rel l (NLeaf es1 r1) -> holds d rel pn (NInner f3 es3) -> page_no l -> page_no r -> page_no pn -> NoDup [l; r; pn] ->
  remove_pair (s, r) es3 = Ok es3' -> entries_ok es3' -> entries_ok les -> in_u64 nr -> in_u64 nf -> in_u64 pf ->
  exists d', apply_disk_btree_leaf_merge rel l r pn pf s les nr nf d = (Ok tt, d') /\
    holds d' rel l (NLeaf les nr) /\ holds d' rel r (NLeaf [] nf) /\ holds d' rel pn (NInner pf es3') /\ rewrote rel [l; r; pn] d d'.
Proof.
  intros (p1 & Hp1 & Hn1) (p3 & Hp3 & Hn3) Hl Hr Hpn Hnd Er Hes3 Hles Hnr Hnf Hpf.
  destruct (rewrite_leaf_right_is _ _ _ nr les Hn1) as (q1 & E1 & N1); [auto..|]. destruct (free_page_is nf Hnf) as (q2 & E2 & N2).
  destruct (drop_entry_is _ _ _ _ pf _ _ Hn3 Er) as (q3 & E3 & N3); [auto..|].
  unfold apply_disk_btree_leaf_merge. do 6 redo_step. by apply write_three.
Qed.

Lemma internal_merge_spec rel l r pn pf s lf les nf f1 es1 f3 es3 es3' d :
  holds d rel l (NInner f1 es1) -> holds d rel pn (NInner f3 es3) -> page_no l -> page_no r -> page_no pn -> NoDup [l; r; pn] ->
  remove_pair (s, r) es3 = Ok es3' -> entries_ok es3' -> entries_ok les -> in_u64 lf -> in_u64 nf -> in_u64 pf ->
  exists d', apply_disk_btree_internal_merge rel l r pn pf s lf les nf d = (Ok tt, d') /\
    holds d' rel l (NInner lf les) /\ holds d' rel r (NLeaf [] nf) /\ holds d' rel pn (NInner pf es3') /\ rewrote rel [l; r; pn] d d'.
Proof.
  intros (p1 & Hp1 & Hn1) (p3 & Hp3 & Hn3) Hl Hr Hpn Hnd Er Hes3 Hles Hlf Hnf Hpf.
  destruct (rewrite_internal_is _ _ _ lf les Hn1) as (q1 & E1 & N1); [auto..|]. destruct (free_page_is nf Hnf) as (q2 & E2 & N2).
  destruct (drop_entry_is _ _ _ _ pf _ _ Hn3 Er) as (q3 & E3 & N3); [auto..|].
  unfold apply_disk_btree_internal_merge. do 6 redo_step. by apply write_three.
Qed.

(** *** Root changes and collapses *)

Lemma freed_pages_spec rel freed : forall d,
  Forall (fun f => page_no (fst f) /\ in_u64 (snd f)) freed -> NoDup (map fst freed) ->
  exists d', redo_each (apply_freed_page rel) freed d = (Ok tt, d') /\
    (forall n next, (n, next) ∈ freed -> holds d' rel n (NLeaf [] next)) /\ rewrote rel (map fst freed) d d'.
Proof.
  induction freed as [|[n next] freed IH]; intros d Hf Hnd.
  { exists d. split_and!; [done| |apply rewrote_refl]. intros n next Hin. by apply not_elem_of_nil in Hin. }
  apply Forall_cons in Hf as [[Hn Hx] Hf]. cbn [map fst snd] in *. apply NoDup_cons in Hnd as [Hni Hnd].
  destruct (free_page_is next Hx) as (p & E & N). destruct (write_node_spec rel n p _ d N Hn) as (d1 & E1 & H1 & R1).
  destruct (IH d1 Hf Hnd) as (d2 & E2 & H2 & R2). exists d2. split_and!.
  - cbn [redo_each]. erewrite redo_bind_ok; [exact E2|]. unfold apply_freed_page. cbn [fst snd]. by erewrite redo_try_ok.
  - intros m x Hin. apply elem_of_cons in Hin as [[= -> ->]|Hin]; [by apply (holds_rewrote _ _ _ _ _ _ H1 R2)|by apply H2].
  - by apply (rewrote_trans _ [n] _ d d1).
Qed.

(** A page written, then pages freed. *)
Lemma write_and_free rel n p nd freed d :
  page_is p nd -> page_no n -> Forall (fun f => page_no (fst f) /\ in_u64 (snd f)) freed -> NoDup (n :: map fst freed) ->
  exists d', (_ ← apply_disk_index_full_page_image rel n p; redo_each (apply_freed_page rel) freed) d = (Ok tt, d') /\
    holds d' rel n nd /\ (forall m next, (m, next) ∈ freed -> holds d' rel m (NLeaf [] next)) /\ rewrote rel (n :: map fst freed) d d'.
Proof.
  intros Hp Hn Hf Hnd. apply NoDup_cons in Hnd as [Hni Hnd]. destruct (write_node_spec rel n p _ d Hp Hn) as (d1 & E1 & H1 & R1).
  destruct (freed_pages_spec rel freed d1 Hf Hnd) as (d2 & E2 & H2 & R2). exists d2. rewrite (redo_bind_ok _ _ _ _ _ E1).
  split_and!; [done|by apply (holds_rewrote _ _ _ _ _ _ H1 R2)|done|by apply (rewrote_trans _ [n] _ d d1)].
Qed.

Lemma root_shrink_leaf_spec rel root es rs freed d :
  page_no root -> entries_ok es -> in_u64 rs -> Forall (fun f => page_no (fst f) /\ in_u64 (snd f)) freed -> NoDup (root :: map fst freed) ->
  exists d', apply_disk_btree_root_shrink_leaf rel root es rs freed d = (Ok tt, d') /\
    holds d' rel root (NLeaf es rs) /\ (forall n next, (n, next) ∈ freed -> holds d' rel n (NLeaf [] next)) /\
    rewrote rel (root :: map fst freed) d d'.
Proof.
  intros Hroot Hes Hrs Hf Hnd. destruct (head_set_count _ _ _ _ _ (count_of es) (head_blank Leaf)) as (p1 & E1 & H1); [auto|].
  destruct (head_set_right _ _ _ _ _ rs H1) as (p2 & E2 & H2); [done|].
  destruct (head_set_pairs _ _ _ _ _ es H2) as (p3 & E3 & H3 & A3); [done|].
  unfold apply_disk_btree_root_shrink_leaf. erewrite redo_try_ok by exact E1. do 2 redo_step.
  apply write_and_free; [by eapply head_leaf|assumption..].
Qed.

Lemma root_shrink_internal_spec rel root f es freed d :
  page_no root -> entries_ok es -> in_u64 f -> Forall (fun f => page_no (fst f) /\ in_u64 (snd f)) freed -> NoDup (root :: map fst freed) ->
  exists d', apply_disk_btree_root_shrink_internal rel root f es freed d = (Ok tt, d') /\
    holds d' rel root (NInner f es) /\ (forall n next, (n, next) ∈ freed -> holds d' rel n (NLeaf [] next)) /\
    rewrote rel (root :: map fst freed) d d'.
Proof.
  intros Hroot Hes Hrs Hf Hnd. destruct (head_set_first _ _ _ _ _ f (head_blank Internal)) as (p1 & E1 & H1); [done|].
  destruct (head_set_count _ _ _ _ _ (count_of es) H1) as (p2 & E2 & H2); [auto|].
  destruct (head_set_pairs _ _ _ _ _ es H2) as (p3 & E3 & H3 & A3); [done|].
  unfold apply_disk_btree_root_shrink_internal. erewrite redo_try_ok by exact E1. do 2 redo_step.
  apply write_and_free; [by eapply head_inner|assumption..].
Qed.

(** The parent after a collapse. *)
Definition collapsed (f : Z) (es : list (Z * Z)) (slot : nat) (pf rc : Z) : node :=
  match slot with
  | O => NInner rc es
  | S i => NInner (if pf =? 0 then f else pf) (set_child i rc es)
  end.

Lemma replace_child_is p f es slot pf rc :
  page_is p (NInner f es) -> (slot <= length es)%nat -> in_u64 pf -> in_u64 rc ->
  exists p', replace_child p (Z.of_nat slot) pf rc = Ok p' /\ page_is p' (collapsed f es slot pf rc).
Proof.
  intros Hp Hs Hpf Hrc. destruct (holds_entries_read _ _ _ (proj1 Hp)) as [Ec _]. unfold replace_child. rewrite Ec.
  destruct slot as [|i]; cbn [collapsed].
  - change (Z.of_nat 0 =? 0) with true. cbn iota. destruct (set_first_is _ _ _ rc Hp Hrc) as (p1 & -> & P1).
    destruct (pf =? 0); cbn [negb]; [by exists p1|].
    by destruct (set_first_is _ _ _ rc P1 Hrc) as (p2 & -> & P2); exists p2.
  - rewrite (proj2 (Z.eqb_neq (Z.of_nat (S i)) 0)) by lia. replace (Z.of_nat (S i) - 1) with (Z.of_nat i) by lia.
    rewrite (proj2 (Z.ltb_lt _ _)) by (unfold count_of; lia).
    destruct (write_half p f es i false rc Hp) as (p1 & -> & P1); [lia|done|].
    destruct (pf =? 0) eqn:Epf; cbn [negb]; [by exists p1|].
    by destruct (set_first_is _ _ _ pf P1 Hpf) as (p2 & -> & P2); exists p2.
Qed.

Lemma internal_collapse_spec rel pn slot pf rc rp nf f es d :
  holds d rel pn (NInner f es) -> page_no pn -> page_no rp -> pn <> rp -> (slot <= length es)%nat -> in_u64 pf -> in_u64 rc -> in_u64 nf ->
  exists d', apply_disk_btree_internal_collapse rel pn (Z.of_nat slot) pf rc rp nf d = (Ok tt, d') /\
    holds d' rel pn (collapsed f es slot pf rc) /\ holds d' rel rp (NLeaf [] nf) /\ rewrote rel [pn; rp] d d'.
Proof.
  intros (p & Hp & Hn) Hpn Hrp Hne Hs Hpf Hrc Hnf. destruct (replace_child_is _ _ _ slot pf rc Hn Hs Hpf Hrc) as (p1 & E1 & P1).
  destruct (free_page_is nf Hnf) as (p2 & E2 & P2). unfold apply_disk_btree_internal_collapse. do 4 redo_step. by apply write_two.
Qed.

Lemma root_promote_spec rel rp nf d :
  page_no rp -> in_u64 nf ->
  exists d', apply_disk_btree_root_promote_single_child rel rp nf d = (Ok tt, d') /\ holds d' rel rp (NLeaf [] nf) /\ rewrote rel [rp] d d'.
Proof.
  intros Hrp Hnf. destruct (free_page_is nf Hnf) as (p & E & P). unfold apply_disk_btree_root_promote_single_child. redo_step.
  by apply write_node_spec.
Qed.
