(* ===== verification/IndexLog.v ===== *)
(** * Log records of index pages

    ([crates/aiondb-storage-engine/src/engine/mod.rs], lines 959 to 2334, and
    [engine/paged_wal_ops.rs], [build_disk_index_page_records].)

    On commit, the changed pages of an index are compared with the pages of the data file,
    and each change becomes a log record: a structural change of the B+tree where one is
    recognised, else a change of one node, else a patch, else the whole page.  Two of the
    loops that recognise structural changes may run forever; the functions that run them
    have [None] for it. *)

From S2P Require Import Prelude.
From S2P Require Import Bytes.
From S2P Require Import PageBytes.
From S2P Require Import PoolPage.
From S2P Require Import BTreePage.
From S2P Require Import Disk.
From S2P Require Import FileStore.
From S2P Require Import WalTypes.
From S2P Require Import IndexRedo.

Definition MAX_BATCHED_FULL_PAGE_IMAGE_BYTES : Z := 32 * 1024.
Definition MAX_PAGE_PATCH_SEGMENTS : nat := 8.
Definition MAX_PAGE_PATCH_BYTES : Z := 256.

(** ** Reading pages *)

(** The page of the data file; [None] when the file has no such page. *)
Definition read_relation_page_image (d : Disk) (relation_id page_number : Z) : DbResult (option (list Z)) :=
  match now (file d (DataFile relation_id)) with
  | None => Ok None
  | Some c =>
      (let? start := ok_or (checked_mul64 page_number PAGE_SIZE) internal in
       if u64_max <? start + PAGE_SIZE then Err internal
       else if Z.of_nat (length c) <? start + PAGE_SIZE then Ok None
       else if i64_max <? start then Err internal
       else Ok (Some (slice c start PAGE_SIZE)))%result
  end.

(** [read_relation_page_image(..).ok().flatten()]. *)
Definition page_image (d : Disk) (relation_id page_number : Z) : option (list Z) :=
  match read_relation_page_image d relation_id page_number with Ok p => p | Err _ => None end.

Definition is_fixed_disk_btree_relation (relation_id : Z) : bool :=
  Z.land relation_id 0xFFFF000000000000 =? DISK_ORDERED_RELATION_PREFIX.

Definition page_has (page : list Z) (offset n : Z) : bool := offset + n <=? Z.of_nat (length page).

Definition read_disk_btree_u64 (page : list Z) (offset : Z) : option Z :=
  if page_has page offset 8 then Some (field page offset 8) else None.

Definition read_disk_btree_u32 (page : list Z) (offset : Z) : option Z :=
  if page_has page offset 4 then Some (field page offset 4) else None.

Definition read_disk_btree_count (page : list Z) : option Z :=
  if page_has page PAGE_COUNT_OFFSET 2 then Some (field page PAGE_COUNT_OFFSET 2) else None.

(** The loop over [0..count]. *)
Fixpoint parse_entries (page : list Z) (idxs : list Z) : option (list (Z * Z)) :=
  match idxs with
  | [] => Some []
  | idx :: rest =>
      let offset := PAGE_HEADER_SIZE + idx * LEAF_ENTRY_SIZE in
      k ← read_disk_btree_u64 page offset;
      v ← read_disk_btree_u64 page (offset + 8);
      es ← parse_entries page rest;
      Some ((k, v) :: es)
  end.

Definition parse_disk_btree_leaf_entries (page : list Z) : option (list (Z * Z)) :=
  if negb (Z.of_nat (length page) =? PAGE_SIZE) || negb (is_tree_page page 1) then None else
  count ← read_disk_btree_count page;
  parse_entries page (seqZ 0 count).

Definition parse_disk_btree_internal_entries (page : list Z) : option (Z * list (Z * Z)) :=
  if negb (Z.of_nat (length page) =? PAGE_SIZE) || negb (is_tree_page page 2) then None else
  first_child ← read_disk_btree_u64 page PAGE_FIRST_CHILD_OFFSET;
  count ← read_disk_btree_count page;
  entries ← parse_entries page (seqZ 0 count);
  Some (first_child, entries).

(** ** Comparing pages and entries *)

(** How many bytes differ before the first equal one. *)
Fixpoint run_length (old new : list Z) : nat :=
  match old, new with
  | o :: old, n :: new => if o =? n then O else S (run_length old new)
  | _, _ => O
  end.

(** The loop of [build_compact_page_patch] at offset [idx]; [skip] bytes belong to the segment
    pushed last. *)
Fixpoint patch_loop (old new : list Z) (idx : Z) (skip : nat) (changed_bytes : Z) (segments : list (Z * list Z))
    : option (list (Z * list Z)) :=
  match old, new with
  | o :: old', n :: new' =>
      match skip with
      | S skip => patch_loop old' new' (idx + 1) skip changed_bytes segments
      | O =>
          if o =? n then patch_loop old' new' (idx + 1) 0 changed_bytes segments else
          let len := run_length old new in
          let segment := take len new in
          let changed_bytes := changed_bytes + Z.of_nat len in
          if (MAX_PAGE_PATCH_BYTES <? changed_bytes) || (MAX_PAGE_PATCH_SEGMENTS <=? length segments)%nat || (65535 <? idx)
          then None
          else patch_loop old' new' (idx + 1) (pred len) changed_bytes (segments ++ [(idx, segment)])
      end
  | _, _ => Some segments
  end.

Definition build_compact_page_patch (old_page new_page : list Z) : option (list (Z * list Z)) :=
  if negb (length old_page =? length new_page)%nat then None else
  segments ← patch_loop old_page new_page 0 0 0 [];
  match segments with [] => None | _ => Some segments end.

(** The [while] loop of [extract_single_insert]: what it has found and what it has not read. *)
Fixpoint insert_loop (old new : list (Z * Z)) (inserted : option (Z * Z)) {struct new}
    : option (option (Z * Z) * list (Z * Z) * list (Z * Z)) :=
  match old, new with
  | o :: old', n :: new' =>
      if decide (o = n) then insert_loop old' new' inserted
      else match inserted with
           | Some _ => None
           | None => insert_loop old new' (Some n)
           end
  | _, _ => Some (inserted, old, new)
  end.

Definition extract_single_insert (old_entries new_entries : list (Z * Z)) : option (Z * Z) :=
  if negb (length new_entries =? length old_entries + 1)%nat then None else
  '(inserted, old, new) ← insert_loop old_entries new_entries None;
  let '(inserted, new) := match inserted, new with None, n :: new => (Some n, new) | _, _ => (inserted, new) end in
  match old, new with [], [] => inserted | _, _ => None end.

Definition extract_single_delete (old_entries new_entries : list (Z * Z)) : option (Z * Z) :=
  if negb (length old_entries =? length new_entries + 1)%nat then None else extract_single_insert new_entries old_entries.

(** The same loop with the index of the entry that is gone. *)
Fixpoint delete_loop (old new : list (Z * Z)) (idx : nat) (removed : option (nat * (Z * Z))) {struct old}
    : option (option (nat * (Z * Z)) * list (Z * Z) * list (Z * Z) * nat) :=
  match old, new with
  | o :: old', n :: new' =>
      if decide (o = n) then delete_loop old' new' (S idx) removed
      else match removed with
           | Some _ => None
           | None => delete_loop old' new (S idx) (Some (idx, o))
           end
  | _, _ => Some (removed, old, new, idx)
  end.

Definition extract_single_delete_with_index (old_entries new_entries : list (Z * Z)) : option (nat * (Z * Z)) :=
  if negb (length old_entries =? length new_entries + 1)%nat then None else
  '(removed, old, new, idx) ← delete_loop old_entries new_entries 0 None;
  let '(removed, old) := match removed, old with None, o :: old => (Some (idx, o), old) | _, _ => (removed, old) end in
  match old, new with [], [] => removed | _, _ => None end.

(** [retained.sort_unstable()] and [dedup()]. *)
Fixpoint insert_sorted (n : Z) (l : list Z) : list Z :=
  match l with
  | [] => [n]
  | m :: rest => if n <? m then n :: l else if n =? m then l else m :: insert_sorted n rest
  end.

(** Each freed page links to the one before it. *)
Fixpoint link_free (next : Z) (l : list Z) : list (Z * Z) :=
  match l with [] => [] | n :: rest => (n, next) :: link_free n rest end.

Definition compute_reclaimed_pages (removed_pages : list Z) (new_page_count old_free_head : Z) : list (Z * Z) :=
  let retained := filter (fun n => n < new_page_count /\ n <> 0) removed_pages in
  link_free old_free_head (foldr insert_sorted [] retained).

(** ** Recognising structural changes *)

(** A change of a page: its number, the page on disk and the page to log. *)
Abbreviation Change := (Z * list Z * list Z)%type.

(** A step of a chain: parent, slot, parent's first child, replacement, removed page, next free page. *)
Abbreviation Step := (Z * Z * Z * Z * Z * Z)%type.

(** [for x in l { .. continue .. return .. }]. *)
Inductive Loop (A : Type) : Type := Continue | Return (r : option A).
Arguments Continue {A}.
Arguments Return {A} r.

Fixpoint scan {T A} (body : T -> Loop A) (l : list T) : option A :=
  match l with
  | [] => None
  | x :: l => match body x with Continue => scan body l | Return r => r end
  end.

(** [let Some(x) = e else { continue }] and [e?]. *)
Declare Scope loop_scope.
Delimit Scope loop_scope with loop.
Notation "'let_some' x ':=' e 'in' k" := (match e with Some x => k | None => Continue end)
  (at level 10, x pattern, e at level 100, k at level 200) : loop_scope.
Notation "'let_try' x ':=' e 'in' k" := (match e with Some x => k | None => Return None end)
  (at level 10, x pattern, e at level 100, k at level 200) : loop_scope.
Notation "'skip_if' b 'in' k" := (if b then Continue else k) (at level 10, b at level 100, k at level 200) : loop_scope.

(** [prior_pages.iter().find(|(page_number, _, _)| *page_number == n)]. *)
Definition find_change (n : Z) (prior_pages : list Change) : option Change :=
  snd <$> list_find (fun c => fst (fst c) = n) prior_pages.

(** Two loops have no bound: on a cycle of pages with one child each they never return.  A
    function that runs one of them has [None] as its result then. *)
Declare Scope endless_scope.
Delimit Scope endless_scope with endless.
Notation "'let_try' x ':=' e 'in' k" := (match e with Some x => k | None => Some None end)
  (at level 10, x pattern, e at level 100, k at level 200) : endless_scope.
Notation "'let_await' x ':=' e 'in' k" := (match e with Some (Some x) => k | Some None => Some None | None => None end)
  (at level 10, x pattern, e at level 100, k at level 200) : endless_scope.

(** The loops down a chain of single children: the pages from [current] on whose children
    lead to [target], if they do.  Where [fuel] is more than the number of pages that have a
    child, to run out of it is to go in circles. *)
Fixpoint follow (next : Z -> option Z) (target : Z) (fuel : nat) (current : Z) : option (option (list Z)) :=
  match fuel with
  | O => None
  | S fuel =>
      (let_try child := next current in
       if child =? target then Some (Some [current]) else
       let_await rest := follow next target fuel child in
       Some (Some (current :: rest)))%endless
  end.

Definition right_sibling_of (page : list Z) : option Z := read_disk_btree_u64 page PAGE_RIGHT_SIBLING_OFFSET.

Definition eqb_entries (a b : list (Z * Z)) : bool := bool_decide (a = b).
Definition no_entries (a : list (Z * Z)) : bool := match a with [] => true | _ => false end.

Section Detect.
Context `{ExternalTypes}.
Variable relation_id : Z.

Definition detect_disk_btree_internal_insert (page_number : Z) (old_page new_page : list Z) : option WalRecord :=
  '(old_first_child, old_entries) ← parse_disk_btree_internal_entries old_page;
  '(new_first_child, new_entries) ← parse_disk_btree_internal_entries new_page;
  if negb (old_first_child =? new_first_child) then None else
  '(separator, child_page) ← extract_single_insert old_entries new_entries;
  Some (DiskBtreeInternalInsert relation_id page_number separator child_page).

Definition detect_disk_btree_internal_delete (page_number : Z) (old_page new_page : list Z) : option WalRecord :=
  '(old_first_child, old_entries) ← parse_disk_btree_internal_entries old_page;
  '(new_first_child, new_entries) ← parse_disk_btree_internal_entries new_page;
  if negb (old_first_child =? new_first_child) then None else
  '(separator, child_page) ← extract_single_delete old_entries new_entries;
  Some (DiskBtreeInternalDelete relation_id page_number separator child_page).

Definition detect_disk_btree_internal_split (right_page_number : Z) (right_page : list Z) (prior_pages : list Change)
    : option WalRecord :=
  '(right_first_child, right_entries) ← parse_disk_btree_internal_entries right_page;
  scan (fun '(left_page_number, old_left_page, new_left_page) =>
    (let_some (left_first_child, old_left_entries) := parse_disk_btree_internal_entries old_left_page in
     let_some (_, new_left_entries) := parse_disk_btree_internal_entries new_left_page in
     skip_if (length old_left_entries <=? length new_left_entries)%nat in
     let split_at := length new_left_entries in
     skip_if negb (length old_left_entries =? length new_left_entries + length right_entries + 1)%nat in
     let_try (promoted, expected_right_first_child) := old_left_entries !! split_at in
     skip_if negb (expected_right_first_child =? right_first_child) in
     skip_if negb (eqb_entries (take split_at old_left_entries) new_left_entries) in
     skip_if negb (eqb_entries (drop (S split_at) old_left_entries) right_entries) in
     Return (Some (DiskBtreeInternalSplit relation_id left_page_number right_page_number promoted left_first_child
                     right_first_child new_left_entries right_entries)))%loop) prior_pages.

Definition detect_disk_btree_root_grow (page_number : Z) (new_page : list Z) : option WalRecord :=
  '(first_child, entries) ← parse_disk_btree_internal_entries new_page;
  match entries with
  | [(separator, right_child)] => Some (DiskBtreeRootGrow relation_id page_number first_child separator right_child)
  | _ => None
  end.

Definition detect_disk_btree_leaf_split (right_page_number : Z) (right_page : list Z) (prior_pages : list Change)
    : option WalRecord :=
  right_entries ← parse_disk_btree_leaf_entries right_page;
  match right_entries with
  | [] => None
  | (separator, _) :: _ =>
      old_right_sibling ← right_sibling_of right_page;
      scan (fun '(left_page_number, old_left_page, new_left_page) =>
        (let_some old_left_entries := parse_disk_btree_leaf_entries old_left_page in
         let_some new_left_entries := parse_disk_btree_leaf_entries new_left_page in
         skip_if (length old_left_entries <=? length new_left_entries)%nat || no_entries new_left_entries in
         let_try old_sibling := right_sibling_of old_left_page in
         skip_if negb (old_sibling =? old_right_sibling) in
         let_try new_sibling := right_sibling_of new_left_page in
         skip_if negb (new_sibling =? right_page_number) in
         skip_if negb (eqb_entries (new_left_entries ++ right_entries) old_left_entries) in
         Return (Some (DiskBtreeLeafSplit relation_id left_page_number right_page_number old_right_sibling separator
                         new_left_entries right_entries)))%loop) prior_pages
  end.

(** The one separator that differs between two lists of entries of the same length; [None]
    when a child differs, when no separator does and when a second one does. *)
Fixpoint changed_slot (old new : list (Z * Z)) (idx : nat) (found : option nat) : option nat :=
  match old, new with
  | (os, oc) :: old, (ns, nc) :: new =>
      if negb (oc =? nc) then None
      else if negb (os =? ns) then
        match found with Some _ => None | None => changed_slot old new (S idx) (Some idx) end
      else changed_slot old new (S idx) found
  | _, _ => found
  end.

(** The child left of the entry in a slot. *)
Definition left_neighbour (first_child : Z) (entries : list (Z * Z)) (slot : nat) : option Z :=
  match slot with O => Some first_child | S i => snd <$> entries !! i end.

(** What the two redistributions check of a parent: the slot that changed and the page left of it. *)
Definition redistribute_parent (right_page_number : Z) (old_parent_page new_parent_page : list Z) (prior_pages : list Change)
    : option (nat * Z * Z * Z * Z * list Z * list Z) :=
  '(old_first, old_entries) ← parse_disk_btree_internal_entries old_parent_page;
  '(new_first, new_entries) ← parse_disk_btree_internal_entries new_parent_page;
  if negb (old_first =? new_first) || negb (length old_entries =? length new_entries)%nat || no_entries old_entries then None else
  slot ← changed_slot old_entries new_entries 0 None;
  '(old_separator, old_child) ← old_entries !! slot;
  '(new_separator, new_child) ← new_entries !! slot;
  if negb (old_child =? right_page_number) || negb (new_child =? right_page_number) then None else
  left_page_number ← left_neighbour old_first old_entries slot;
  '(_, old_left_page, new_left_page) ← find_change left_page_number prior_pages;
  Some (slot, left_page_number, new_first, old_separator, new_separator, old_left_page, new_left_page).

Definition detect_disk_btree_leaf_redistribute
    (right_page_number : Z) (old_right_page new_right_page : list Z) (prior_pages : list Change) : option (WalRecord * list Z) :=
  old_right_entries ← parse_disk_btree_leaf_entries old_right_page;
  new_right_entries ← parse_disk_btree_leaf_entries new_right_page;
  if no_entries old_right_entries || no_entries new_right_entries then None else
  old_right_sibling ← right_sibling_of old_right_page;
  new_right_sibling ← right_sibling_of new_right_page;
  if negb (old_right_sibling =? new_right_sibling) then None else
  scan (fun '(parent_page_number, old_parent_page, new_parent_page) =>
    (let_some (slot, left_page_number, parent_first_child, _, new_separator, old_left_page, new_left_page) :=
       redistribute_parent right_page_number old_parent_page new_parent_page prior_pages in
     let_some old_left_entries := parse_disk_btree_leaf_entries old_left_page in
     let_some new_left_entries := parse_disk_btree_leaf_entries new_left_page in
     skip_if no_entries old_left_entries || no_entries new_left_entries in
     let_try old_sibling := right_sibling_of old_left_page in
     skip_if negb (old_sibling =? right_page_number) in
     let_try new_sibling := right_sibling_of new_left_page in
     skip_if negb (new_sibling =? right_page_number) in
     skip_if negb (eqb_entries (old_left_entries ++ old_right_entries) (new_left_entries ++ new_right_entries)) in
     skip_if eqb_entries old_left_entries new_left_entries && eqb_entries old_right_entries new_right_entries in
     let_try (first_key, _) := head new_right_entries in
     skip_if negb (first_key =? new_separator) in
     skip_if u32_max <? Z.of_nat slot in
     Return (Some (DiskBtreeLeafRedistribute relation_id left_page_number right_page_number parent_page_number (Z.of_nat slot)
                     parent_first_child new_left_entries new_right_entries new_right_sibling new_separator,
                   [left_page_number; right_page_number; parent_page_number])))%loop) prior_pages.

Definition detect_disk_btree_internal_redistribute
    (right_page_number : Z) (old_right_page new_right_page : list Z) (prior_pages : list Change) : option (WalRecord * list Z) :=
  '(old_right_first, old_right_entries) ← parse_disk_btree_internal_entries old_right_page;
  '(new_right_first, new_right_entries) ← parse_disk_btree_internal_entries new_right_page;
  if no_entries old_right_entries || no_entries new_right_entries then None else
  scan (fun '(parent_page_number, old_parent_page, new_parent_page) =>
    (let_some (slot, left_page_number, parent_first_child, old_separator, new_separator, old_left_page, new_left_page) :=
       redistribute_parent right_page_number old_parent_page new_parent_page prior_pages in
     let_some (old_left_first, old_left_entries) := parse_disk_btree_internal_entries old_left_page in
     let_some (new_left_first, new_left_entries) := parse_disk_btree_internal_entries new_left_page in
     skip_if no_entries old_left_entries || no_entries new_left_entries in
     skip_if negb (eqb_entries (old_left_entries ++ (old_separator, old_right_first) :: old_right_entries)
                               (new_left_entries ++ (new_separator, new_right_first) :: new_right_entries)) in
     skip_if (old_left_first =? new_left_first) && (old_right_first =? new_right_first) &&
             eqb_entries old_left_entries new_left_entries && eqb_entries old_right_entries new_right_entries in
     skip_if u32_max <? Z.of_nat slot in
     Return (Some (DiskBtreeInternalRedistribute relation_id left_page_number right_page_number parent_page_number (Z.of_nat slot)
                     parent_first_child new_left_first new_right_first new_left_entries new_right_entries new_separator,
                   [left_page_number; right_page_number; parent_page_number])))%loop) prior_pages.

(** What the two merges check of a parent: the entry of the right page is gone. *)
Definition merge_parent (right_page_number : Z) (old_parent_page new_parent_page : list Z) (prior_pages : list Change)
    : Loop (Z * Z * Z * list Z * list Z) :=
  (let_some (old_first, old_entries) := parse_disk_btree_internal_entries old_parent_page in
   let_some (new_first, new_entries) := parse_disk_btree_internal_entries new_parent_page in
   skip_if negb (old_first =? new_first) in
   let_some (slot, (removed_separator, removed_child)) := extract_single_delete_with_index old_entries new_entries in
   skip_if negb (removed_child =? right_page_number) in
   let_try left_page_number := left_neighbour old_first old_entries slot in
   let_some (_, old_left_page, new_left_page) := find_change left_page_number prior_pages in
   Return (Some (left_page_number, new_first, removed_separator, old_left_page, new_left_page)))%loop.

Definition detect_disk_btree_leaf_merge
    (right_page_number : Z) (old_right_page new_right_page : list Z) (prior_pages : list Change) (next_free_page : Z)
    : option (WalRecord * list Z) :=
  old_right_entries ← parse_disk_btree_leaf_entries old_right_page;
  if no_entries old_right_entries then None else
  new_right_entries ← parse_disk_btree_leaf_entries new_right_page;
  if negb (no_entries new_right_entries) then None else
  old_right_sibling ← right_sibling_of old_right_page;
  scan (fun '(parent_page_number, old_parent_page, new_parent_page) =>
    match merge_parent right_page_number old_parent_page new_parent_page prior_pages with
    | Continue => Continue
    | Return None => Return None
    | Return (Some (left_page_number, parent_first_child, removed_separator, old_left_page, new_left_page)) =>
        (let_some old_left_entries := parse_disk_btree_leaf_entries old_left_page in
         let_some new_left_entries := parse_disk_btree_leaf_entries new_left_page in
         let_try old_sibling := right_sibling_of old_left_page in
         skip_if negb (old_sibling =? right_page_number) in
         let_try new_sibling := right_sibling_of new_left_page in
         skip_if negb (new_sibling =? old_right_sibling) in
         skip_if negb (eqb_entries (old_left_entries ++ old_right_entries) new_left_entries) in
         Return (Some (DiskBtreeLeafMerge relation_id left_page_number right_page_number parent_page_number parent_first_child
                         removed_separator new_left_entries old_right_sibling next_free_page,
                       [left_page_number; right_page_number; parent_page_number])))%loop
    end) prior_pages.

Definition detect_disk_btree_internal_merge
    (right_page_number : Z) (old_right_page new_right_page : list Z) (prior_pages : list Change) (next_free_page : Z)
    : option (WalRecord * list Z) :=
  '(old_right_first, old_right_entries) ← parse_disk_btree_internal_entries old_right_page;
  if no_entries old_right_entries then None else
  freed_right_leaf_entries ← parse_disk_btree_leaf_entries new_right_page;
  if negb (no_entries freed_right_leaf_entries) then None else
  scan (fun '(parent_page_number, old_parent_page, new_parent_page) =>
    match merge_parent right_page_number old_parent_page new_parent_page prior_pages with
    | Continue => Continue
    | Return None => Return None
    | Return (Some (left_page_number, parent_first_child, removed_separator, old_left_page, new_left_page)) =>
        (let_some (old_left_first, old_left_entries) := parse_disk_btree_internal_entries old_left_page in
         let_some (new_left_first, new_left_entries) := parse_disk_btree_internal_entries new_left_page in
         skip_if negb (eqb_entries (old_left_entries ++ (removed_separator, old_right_first) :: old_right_entries) new_left_entries)
                 || negb (old_left_first =? new_left_first) in
         Return (Some (DiskBtreeInternalMerge relation_id left_page_number right_page_number parent_page_number parent_first_child
                         removed_separator new_left_first new_left_entries next_free_page,
                       [left_page_number; right_page_number; parent_page_number])))%loop
    end) prior_pages.

(** What the four root changes read of the metapage: the old and the new root and the heights. *)
Record RootChange : Type := { old_root : Z; new_root : Z; old_height : Z; new_height : Z }.

Definition root_change (prior_pages : list Change) : option RootChange :=
  '(_, old_meta_page, new_meta_page) ← find_change 0 prior_pages;
  if negb (page_has old_meta_page 0 8) || negb (page_has new_meta_page 0 8) then None else
  if negb (bool_decide (slice old_meta_page 0 8 = META_MAGIC)) || negb (bool_decide (slice new_meta_page 0 8 = META_MAGIC)) then None else
  old_root ← read_disk_btree_u64 old_meta_page META_ROOT_OFFSET;
  new_root ← read_disk_btree_u64 new_meta_page META_ROOT_OFFSET;
  old_height ← read_disk_btree_u32 old_meta_page META_HEIGHT_OFFSET;
  new_height ← read_disk_btree_u32 new_meta_page META_HEIGHT_OFFSET;
  Some {| old_root := old_root; new_root := new_root; old_height := old_height; new_height := new_height |}.

(** Three of them also read the new page count. *)
Definition new_page_count (prior_pages : list Change) : option Z :=
  '(_, _, new_meta_page) ← find_change 0 prior_pages;
  read_disk_btree_u64 new_meta_page META_PAGE_COUNT_OFFSET.

Variable disk_index_dir : Disk.

Definition detect_disk_btree_root_shrink_leaf (prior_pages : list Change) (old_free_head : Z) : option (WalRecord * list Z) :=
  c ← root_change prior_pages;
  page_count ← new_page_count prior_pages;
  if negb (old_height c =? 2) || negb (new_height c =? 1) || (new_root c =? old_root c) then None else
  old_root_page ← page_image disk_index_dir relation_id (old_root c);
  '(old_root_first_child, old_root_entries) ← parse_disk_btree_internal_entries old_root_page;
  match old_root_entries with
  | [(_, right_page)] =>
      if negb (old_root_first_child =? new_root c) then None else
      old_left ← page_image disk_index_dir relation_id (new_root c);
      old_right ← page_image disk_index_dir relation_id right_page;
      old_left_entries ← parse_disk_btree_leaf_entries old_left;
      old_right_entries ← parse_disk_btree_leaf_entries old_right;
      old_right_sibling ← right_sibling_of old_right;
      '(_, _, new_root_page_bytes) ← find_change (new_root c) prior_pages;
      new_root_entries ← parse_disk_btree_leaf_entries new_root_page_bytes;
      old_left_sibling ← right_sibling_of old_left;
      if negb (old_left_sibling =? right_page) then None else
      new_root_sibling ← right_sibling_of new_root_page_bytes;
      if negb (new_root_sibling =? old_right_sibling) then None else
      if negb (eqb_entries (old_left_entries ++ old_right_entries) new_root_entries) then None else
      Some (DiskBtreeRootShrinkLeaf relation_id (new_root c) new_root_entries old_right_sibling
              (compute_reclaimed_pages [old_root c; right_page] page_count old_free_head),
            [old_root c; new_root c; right_page])
  | _ => None
  end.

(** [new_height + 1] on [u32]; the overflow is a panic of the debug build. *)
Definition height_plus_one (h : Z) : Z := (h + 1) mod 2 ^ 32.

Definition detect_disk_btree_root_shrink_internal (prior_pages : list Change) (old_free_head : Z) : option (WalRecord * list Z) :=
  c ← root_change prior_pages;
  page_count ← new_page_count prior_pages;
  if (old_height c <=? 2) || negb (height_plus_one (new_height c) =? old_height c) || (new_root c =? old_root c) then None else
  old_root_page ← page_image disk_index_dir relation_id (old_root c);
  '(old_root_first_child, old_root_entries) ← parse_disk_btree_internal_entries old_root_page;
  match old_root_entries with
  | [(separator, right_page)] =>
      if negb (old_root_first_child =? new_root c) then None else
      old_left ← page_image disk_index_dir relation_id (new_root c);
      old_right ← page_image disk_index_dir relation_id right_page;
      '(old_left_first_child, old_left_entries) ← parse_disk_btree_internal_entries old_left;
      '(old_right_first_child, old_right_entries) ← parse_disk_btree_internal_entries old_right;
      '(_, _, new_root_page_bytes) ← find_change (new_root c) prior_pages;
      '(new_root_first_child, new_root_entries) ← parse_disk_btree_internal_entries new_root_page_bytes;
      if negb (old_left_first_child =? new_root_first_child) then None else
      if negb (eqb_entries (old_left_entries ++ (separator, old_right_first_child) :: old_right_entries) new_root_entries) then None else
      Some (DiskBtreeRootShrinkInternal relation_id (new_root c) new_root_first_child new_root_entries
              (compute_reclaimed_pages [old_root c; right_page] page_count old_free_head),
            [old_root c; new_root c; right_page])
  | _ => None
  end.

Definition detect_disk_btree_root_promote_single_child (prior_pages : list Change) (old_free_head : Z) : option (WalRecord * list Z) :=
  c ← root_change prior_pages;
  if (old_height c <=? 1) || negb (height_plus_one (new_height c) =? old_height c) || (old_root c =? new_root c) then None else
  old_root_page ← page_image disk_index_dir relation_id (old_root c);
  '(old_root_first_child, old_root_entries) ← parse_disk_btree_internal_entries old_root_page;
  if negb (no_entries old_root_entries) || negb (old_root_first_child =? new_root c) then None else
  Some (DiskBtreeRootPromoteSingleChild relation_id (new_root c) (old_root c) old_free_head, [old_root c; new_root c]).

(** The single child of the page on disk. *)
Definition single_child (n : Z) : option Z :=
  old_page ← page_image disk_index_dir relation_id n;
  '(first_child, old_entries) ← parse_disk_btree_internal_entries old_page;
  if negb (no_entries old_entries) || (first_child =? u64_max) then None else Some first_child.

(** From the old root down to the new one.  The pages are pages of the file. *)
Definition collapsed_chain (new_root_page old_root_page : Z) : option (option (list Z)) :=
  follow single_child new_root_page (S (Z.to_nat (rel_pages disk_index_dir relation_id))) old_root_page.

Definition detect_disk_btree_root_promote_collapsed_chain (prior_pages : list Change) (old_free_head : Z)
    : option (option (WalRecord * list Z)) :=
  (let_try c := root_change prior_pages in
   let_try page_count := new_page_count prior_pages in
   if (old_height c <=? 2) || (old_height c <=? new_height c) || (old_root c =? new_root c) then Some None else
   let_await freed_chain := collapsed_chain (new_root c) (old_root c) in
   if (length freed_chain <? 2)%nat then Some None else
   Some (Some (DiskBtreeRootPromoteCollapsedChain relation_id (new_root c)
                 (compute_reclaimed_pages freed_chain page_count old_free_head), freed_chain ++ [new_root c])))%endless.

(** [old_parent_entries.iter().zip(..).enumerate().all(|(other_idx, ..)| other_idx == idx || old_entry == new_entry)]. *)
Definition same_but (idx : nat) (old new : list (Z * Z)) : bool :=
  forallb (fun '(other_idx, (old_entry, new_entry)) => (other_idx =? idx)%nat || bool_decide (old_entry = new_entry))
    (zip (seq 0 (length (zip old new))) (zip old new)).

(** The inner loop of [detect_disk_btree_internal_collapse] from an index on. *)
Fixpoint collapse_slot (removed replacement : Z) (same_first : bool) (all_old all_new old new : list (Z * Z)) (idx : nat) : option nat :=
  match old, new with
  | (old_sep, old_child) :: old, (new_sep, new_child) :: new =>
      if negb (old_sep =? new_sep) then None
      else if (old_child =? removed) && (new_child =? replacement) && same_but idx all_old all_new && same_first &&
              (Z.of_nat idx + 1 <=? u32_max)
      then Some (S idx)
      else collapse_slot removed replacement same_first all_old all_new old new (S idx)
  | _, _ => None
  end.

Definition detect_disk_btree_internal_collapse
    (old_internal_page_number : Z) (old_internal_page new_internal_page : list Z) (prior_pages : list Change) (old_free_head : Z)
    : option (WalRecord * list Z) :=
  '(replacement_child, old_entries) ← parse_disk_btree_internal_entries old_internal_page;
  if negb (no_entries old_entries) || (replacement_child =? u64_max) then None else
  freed_entries ← parse_disk_btree_leaf_entries new_internal_page;
  if negb (no_entries freed_entries) then None else
  freed_next ← right_sibling_of new_internal_page;
  if negb (freed_next =? old_free_head) then None else
  scan (fun '(parent_page_number, old_parent_page, new_parent_page) =>
    (let_some (old_parent_first, old_parent_entries) := parse_disk_btree_internal_entries old_parent_page in
     let_some (new_parent_first, new_parent_entries) := parse_disk_btree_internal_entries new_parent_page in
     skip_if negb (length old_parent_entries =? length new_parent_entries)%nat in
     if (old_parent_first =? old_internal_page_number) && (new_parent_first =? replacement_child) &&
        eqb_entries old_parent_entries new_parent_entries
     then Return (Some (DiskBtreeInternalCollapse relation_id parent_page_number 0 replacement_child replacement_child
                          old_internal_page_number old_free_head,
                        [parent_page_number; old_internal_page_number]))
     else
       let_some slot := collapse_slot old_internal_page_number replacement_child (old_parent_first =? new_parent_first)
                          old_parent_entries new_parent_entries old_parent_entries new_parent_entries 0 in
       Return (Some (DiskBtreeInternalCollapse relation_id parent_page_number (Z.of_nat slot) new_parent_first replacement_child
                       old_internal_page_number old_free_head,
                     [parent_page_number; old_internal_page_number])))%loop) prior_pages.

Definition step_parent (s : Step) : Z := let '(parent_page, _, _, _, _, _) := s in parent_page.
Definition step_removed (s : Step) : Z := let '(_, _, _, _, removed_page, _) := s in removed_page.

(** [steps] shrinks by one each time round. *)
Fixpoint order_steps (n : nat) (steps : list Step) : list Step :=
  match n, steps with
  | S n, _ :: _ =>
      let idx := match list_find (fun s => negb (existsb (fun s' => step_parent s' =? step_removed s) steps)) steps with
                 | Some (i, _) => i
                 | None => O
                 end in
      match steps !! idx with
      | Some s => s :: order_steps n (take idx steps ++ drop (S idx) steps)
      | None => []
      end
  | _, _ => []
  end.

Definition order_internal_collapse_steps (steps : list Step) : list Step := order_steps (length steps) steps.

(** The one child that differs: its slot, the old and the new child. *)
Fixpoint changed_child (old new : list (Z * Z)) (idx : nat) (found : option (nat * Z * Z)) : option (nat * Z * Z) :=
  match old, new with
  | (old_sep, old_child) :: old, (new_sep, new_child) :: new =>
      if negb (old_sep =? new_sep) then None
      else if negb (old_child =? new_child) then
        match found with Some _ => None | None => changed_child old new (S idx) (Some (S idx, old_child, new_child)) end
      else changed_child old new (S idx) found
  | _, _ => found
  end.

(** The single child of a page that is freed. *)
Definition removed_child (prior_pages : list Change) (n : Z) : option Z :=
  '(_, old_page, new_page) ← find_change n prior_pages;
  '(next_child, old_entries) ← parse_disk_btree_internal_entries old_page;
  if negb (no_entries old_entries) || (next_child =? u64_max) then None else
  freed_entries ← parse_disk_btree_leaf_entries new_page;
  if negb (no_entries freed_entries) then None else Some next_child.

(** The pages are changed pages. *)
Definition removed_chain (prior_pages : list Change) (final_replacement_child first_removed_page : Z) : option (option (list Z)) :=
  follow (removed_child prior_pages) final_replacement_child (S (length prior_pages)) first_removed_page.

(** [removed_pages.windows(2).rev()] with the free list grown step by step. *)
Fixpoint chain_steps (prior_pages : list Change) (final_replacement_child next_free : Z) (windows : list (Z * Z)) : option (list Step * Z) :=
  match windows with
  | [] => Some ([], next_free)
  | (parent_removed_page, child_removed_page) :: rest =>
      '(_, old_parent_removed_page, _) ← find_change parent_removed_page prior_pages;
      '(parent_removed_first_child, parent_removed_entries) ← parse_disk_btree_internal_entries old_parent_removed_page;
      if negb (no_entries parent_removed_entries) || negb (parent_removed_first_child =? child_removed_page) then None else
      '(steps, next) ← chain_steps prior_pages final_replacement_child child_removed_page rest;
      Some ((parent_removed_page, 0, parent_removed_first_child, final_replacement_child, child_removed_page, next_free) :: steps, next)
  end.

(** The slot of the parent that changes, with its old and its new child. *)
Definition collapsed_slot (old_parent_page new_parent_page : list Z) : option (nat * Z * Z * Z) :=
  '(old_parent_first, old_parent_entries) ← parse_disk_btree_internal_entries old_parent_page;
  '(new_parent_first, new_parent_entries) ← parse_disk_btree_internal_entries new_parent_page;
  if negb (length old_parent_entries =? length new_parent_entries)%nat then None else
  '(parent_slot, first_removed_page, final_replacement_child) ←
    (if old_parent_first =? new_parent_first then changed_child old_parent_entries new_parent_entries 0 None
     else Some (O, old_parent_first, new_parent_first));
  Some (parent_slot, first_removed_page, final_replacement_child, new_parent_first).

(** The record of the steps, last page first. *)
Definition chain_record (parent_page_number : Z) (prior_pages : list Change) (old_free_head : Z)
    (parent_slot : nat) (final_replacement_child new_parent_first : Z) (removed_pages : list Z) : option (WalRecord * list Z) :=
  match removed_pages with
  | first_removed :: ((_ :: _) as later) =>
      '(steps, next_free) ← chain_steps prior_pages final_replacement_child old_free_head (reverse (zip removed_pages later));
      if u32_max <? Z.of_nat parent_slot then None else
      let steps := steps ++ [(parent_page_number, Z.of_nat parent_slot, new_parent_first, final_replacement_child, first_removed, next_free)] in
      Some (DiskBtreeInternalCollapseChain relation_id (order_internal_collapse_steps steps), parent_page_number :: removed_pages)
  | _ => None
  end.

Definition detect_disk_btree_internal_collapse_chain_from_parent
    (parent_page_number : Z) (old_parent_page new_parent_page : list Z) (prior_pages : list Change) (old_free_head : Z)
    : option (option (WalRecord * list Z)) :=
  (let_try (parent_slot, first_removed_page, final_replacement_child, new_parent_first) := collapsed_slot old_parent_page new_parent_page in
   let_await removed_pages := removed_chain prior_pages final_replacement_child first_removed_page in
   Some (chain_record parent_page_number prior_pages old_free_head parent_slot final_replacement_child new_parent_first removed_pages))%endless.

(** ** The change of one node *)

Definition build_specialized_disk_btree_record (page_number : Z) (old_page new_page : list Z) : option WalRecord :=
  if negb (is_fixed_disk_btree_relation relation_id) || negb (Z.of_nat (length old_page) =? PAGE_SIZE) ||
     negb (Z.of_nat (length new_page) =? PAGE_SIZE) then None else
  if page_number =? 0 then
    if negb (bool_decide (slice old_page 0 8 = META_MAGIC)) || negb (bool_decide (slice new_page 0 8 = META_MAGIC)) then None else
    root_page ← read_disk_btree_u64 new_page META_ROOT_OFFSET;
    height ← read_disk_btree_u32 new_page META_HEIGHT_OFFSET;
    page_count ← read_disk_btree_u64 new_page META_PAGE_COUNT_OFFSET;
    free_list_head ← read_disk_btree_u64 new_page META_FREE_LIST_OFFSET;
    Some (DiskBtreeMetaUpdate relation_id root_page height page_count free_list_head)
  else
    let internal_change :=
      match detect_disk_btree_internal_insert page_number old_page new_page with
      | Some record => Some record
      | None => detect_disk_btree_internal_delete page_number old_page new_page
      end in
    match parse_disk_btree_leaf_entries old_page, parse_disk_btree_leaf_entries new_page with
    | Some old_entries, Some new_entries =>
        old_sibling ← right_sibling_of old_page;
        new_sibling ← right_sibling_of new_page;
        if negb (old_sibling =? new_sibling) then None else
        match extract_single_insert old_entries new_entries with
        | Some (key, value) => Some (DiskBtreeLeafInsert relation_id page_number key value)
        | None =>
            match extract_single_delete old_entries new_entries with
            | Some (key, value) => Some (DiskBtreeLeafDelete relation_id page_number key value)
            | None => internal_change
            end
        end
    | _, _ => internal_change
    end.

End Detect.

(** ** Records of a commit ([paged_wal_ops.rs]) *)

Definition nonempty {T} (l : list T) : bool := match l with [] => false | _ => true end.

(** The loop of the three functions below: [current] is the batch being filled. *)
Fixpoint batches {T} (size : T -> Z) (items current : list T) (current_bytes : Z) : list (list T) :=
  match items with
  | [] => if nonempty current then [current] else []
  | item :: rest =>
      if nonempty current && (MAX_BATCHED_FULL_PAGE_IMAGE_BYTES <? current_bytes + size item)
      then current :: batches size rest [item] (size item)
      else batches size rest (current ++ [item]) (current_bytes + size item)
  end.

Definition patch_bytes (patch : Z * list (Z * list Z)) : Z :=
  8 + 4 + foldr (fun '(_, data) n => 2 + Z.of_nat (length data) + n) 0 (snd patch).

Definition extract_compact_u64_update (segments : list (Z * list Z)) : option (Z * Z) :=
  match segments with
  | [(offset, data)] => if (length data =? 8)%nat then Some (offset, le_value data) else None
  | _ => None
  end.

Section Build.
Context `{ExternalTypes}.
Variable disk_index_dir : Disk.
Variable relation_id : Z.

Definition build_full_page_image_batch_records (pages : list (Z * list Z)) : list WalRecord :=
  map (FullPageImageBatch relation_id) (batches (fun p => 8 + Z.of_nat (length (snd p))) pages [] 0).

Definition build_page_patch_batch_records (patches : list (Z * list (Z * list Z))) : list WalRecord :=
  map (PagePatchBatch relation_id) (batches patch_bytes patches [] 0).

Definition build_page_set_u64_batch_records (updates : list (Z * Z * Z)) : list WalRecord :=
  map (PageSetU64Batch relation_id) (batches (fun _ => 8 + 2 + 8) updates [] 0).

(** The first loop: the changed pages that the data file has. *)
Fixpoint collect_prior_pages (pages : list (Z * list Z)) : DbResult (list Change) :=
  match pages with
  | [] => Ok []
  | (page_number, page_data) :: rest =>
      (let? old := read_relation_page_image disk_index_dir relation_id page_number in
       let? prior := collect_prior_pages rest in
       Ok (match old with Some old_page => (page_number, old_page, page_data) :: prior | None => prior end))%result
  end.

Definition old_free_list_head (prior_pages : list Change) : Z :=
  default u64_max
    (match ('(_, old_page, _) ← find_change 0 prior_pages; read_disk_btree_u64 old_page META_FREE_LIST_OFFSET) with
     | Some head => Some head
     | None => page ← page_image disk_index_dir relation_id 0; read_disk_btree_u64 page META_FREE_LIST_OFFSET
     end).

Definition mem (n : Z) (l : list Z) : bool := bool_decide (n ∈ l).

(** The first root change that is recognised, when the metapage has changed. *)
Definition root_record (changed : list Z) (prior_pages : list Change) (head : Z) : option (option (WalRecord * list Z)) :=
  if negb (mem 0 changed) then Some None else
  match detect_disk_btree_root_shrink_leaf relation_id disk_index_dir prior_pages head with
  | Some r => Some (Some r)
  | None =>
      match detect_disk_btree_root_shrink_internal relation_id disk_index_dir prior_pages head with
      | Some r => Some (Some r)
      | None =>
          match detect_disk_btree_root_promote_single_child relation_id disk_index_dir prior_pages head with
          | Some r => Some (Some r)
          | None => detect_disk_btree_root_promote_collapsed_chain relation_id disk_index_dir prior_pages head
          end
      end
  end.

(** What the loops have collected. *)
Record Batch : Type := {
  consumed_pages : list Z;
  records : list WalRecord;
  collapse_chain_steps : list Step;
  collapse_chain_pages : list Z
}.

(** A record is taken when all its pages have changed and none is consumed yet. *)
Definition acceptable (changed consumed involved : list Z) : bool :=
  forallb (fun n => mem n changed) involved && forallb (fun n => negb (mem n consumed)) involved.

Definition accept (changed : list Z) (b : Batch) (r : option (WalRecord * list Z)) : option (WalRecord * list Z) :=
  '(record, involved_pages) ← r;
  if acceptable changed (consumed_pages b) involved_pages then Some (record, involved_pages) else None.

Definition take_record (b : Batch) (r : WalRecord * list Z) : Batch :=
  {| consumed_pages := consumed_pages b ++ snd r; records := records b ++ [fst r];
     collapse_chain_steps := collapse_chain_steps b; collapse_chain_pages := collapse_chain_pages b |}.

(** A collapse is kept for the chain; its pages are consumed at the end. *)
Definition take_collapse (b : Batch) (r : WalRecord * list Z) : Batch :=
  match fst r with
  | DiskBtreeInternalCollapse _ parent_page parent_slot parent_first_child replacement_child removed_page next_free_page =>
      {| consumed_pages := consumed_pages b; records := records b;
         collapse_chain_steps := collapse_chain_steps b ++
           [(parent_page, parent_slot, parent_first_child, replacement_child, removed_page, next_free_page)];
         collapse_chain_pages := collapse_chain_pages b ++ snd r |}
  | _ => b
  end.

(** The body of the loop over the changed pages. *)
Definition structural_step (changed : list Z) (prior_pages : list Change) (head : Z) (b : Batch) (c : Change) : option Batch :=
  let '(page_number, old_page, new_page) := c in
  if mem page_number (consumed_pages b) then Some b else
  match accept changed b (detect_disk_btree_leaf_redistribute relation_id page_number old_page new_page prior_pages) with
  | Some r => Some (take_record b r)
  | None =>
  match accept changed b (detect_disk_btree_leaf_merge relation_id page_number old_page new_page prior_pages head) with
  | Some r => Some (take_record b r)
  | None =>
  match accept changed b (detect_disk_btree_internal_merge relation_id page_number old_page new_page prior_pages head) with
  | Some r => Some (take_record b r)
  | None =>
  chain ← detect_disk_btree_internal_collapse_chain_from_parent relation_id page_number old_page new_page prior_pages head;
  match accept changed b chain with
  | Some r => Some (take_record b r)
  | None =>
  match accept changed b (detect_disk_btree_internal_collapse relation_id page_number old_page new_page prior_pages head) with
  | Some r => Some (take_collapse b r)
  | None =>
  match accept changed b (detect_disk_btree_internal_redistribute relation_id page_number old_page new_page prior_pages) with
  | Some r => Some (take_record b r)
  | None => Some b
  end end end end end end.

Fixpoint structural_steps (changed : list Z) (prior_pages : list Change) (head : Z) (b : Batch) (cs : list Change) : option Batch :=
  match cs with
  | [] => Some b
  | c :: cs => b ← structural_step changed prior_pages head b c; structural_steps changed prior_pages head b cs
  end.

(** The collapses as one record. *)
Definition close_chain (b : Batch) : Batch :=
  match collapse_chain_steps b with
  | [] => b
  | [(parent_page, parent_slot, parent_first_child, replacement_child, removed_page, next_free_page)] =>
      {| consumed_pages := consumed_pages b ++ collapse_chain_pages b;
         records := records b ++ [DiskBtreeInternalCollapse relation_id parent_page parent_slot parent_first_child
                                    replacement_child removed_page next_free_page];
         collapse_chain_steps := []; collapse_chain_pages := collapse_chain_pages b |}
  | steps =>
      {| consumed_pages := consumed_pages b ++ collapse_chain_pages b;
         records := records b ++ [DiskBtreeInternalCollapseChain relation_id (order_internal_collapse_steps steps)];
         collapse_chain_steps := []; collapse_chain_pages := collapse_chain_pages b |}
  end.

(** What the last loop does with a page. *)
Inductive PageChange : Type :=
| Logged (r : WalRecord)
| SetU64 (update : Z * Z * Z)
| Patched (patch : Z * list (Z * list Z))
| Unchanged
| Whole (page : Z * list Z).

Definition split_or_whole (page_number : Z) (page_data : list Z) (prior_pages : list Change) (is_new : bool) : PageChange :=
  match detect_disk_btree_leaf_split relation_id page_number page_data prior_pages with
  | Some record => Logged record
  | None =>
      match detect_disk_btree_internal_split relation_id page_number page_data prior_pages with
      | Some record => Logged record
      | None =>
          match (if is_new then detect_disk_btree_root_grow relation_id page_number page_data else None) with
          | Some record => Logged record
          | None => Whole (page_number, page_data)
          end
      end
  end.

Definition page_change (page_number : Z) (page_data : list Z) (old_page : option (list Z)) (prior_pages : list Change) : PageChange :=
  match old_page with
  | None => split_or_whole page_number page_data prior_pages true
  | Some old_page =>
      match build_specialized_disk_btree_record relation_id page_number old_page page_data with
      | Some record => Logged record
      | None =>
          match build_compact_page_patch old_page page_data with
          | Some segments =>
              match extract_compact_u64_update segments with
              | Some (offset, value) => SetU64 (page_number, offset, value)
              | None => Patched (page_number, segments)
              end
          | None =>
              if bool_decide (old_page = page_data) then Unchanged
              else split_or_whole page_number page_data prior_pages false
          end
      end
  end.

(** The last loop: the changes of the pages no record covers yet. *)
Fixpoint page_changes (consumed : list Z) (prior_pages : list Change) (pages : list (Z * list Z)) : DbResult (list PageChange) :=
  match pages with
  | [] => Ok []
  | (page_number, page_data) :: rest =>
      if mem page_number consumed then page_changes consumed prior_pages rest else
      (let? old_page := read_relation_page_image disk_index_dir relation_id page_number in
       let? changes := page_changes consumed prior_pages rest in
       Ok (page_change page_number page_data old_page prior_pages :: changes))%result
  end.

Definition logged (changes : list PageChange) : list WalRecord := omap (fun c => match c with Logged r => Some r | _ => None end) changes.
Definition u64_updates (changes : list PageChange) : list (Z * Z * Z) := omap (fun c => match c with SetU64 u => Some u | _ => None end) changes.
Definition page_patches (changes : list PageChange) : list (Z * list (Z * list Z)) :=
  omap (fun c => match c with Patched p => Some p | _ => None end) changes.
Definition full_pages (changes : list PageChange) : list (Z * list Z) := omap (fun c => match c with Whole p => Some p | _ => None end) changes.

(** The loops before the last one: the records of structural changes and the pages they consume. *)
Definition structural_records (pages : list (Z * list Z)) (prior_pages : list Change) : option Batch :=
  let changed := map fst pages in
  let head := old_free_list_head prior_pages in
  root ← root_record changed prior_pages head;
  let start :=
    match root with
    | Some (record, involved_pages) =>
        {| consumed_pages := filter (fun n => n ∈ changed) involved_pages; records := [record];
           collapse_chain_steps := []; collapse_chain_pages := [] |}
    | None => {| consumed_pages := []; records := []; collapse_chain_steps := []; collapse_chain_pages := [] |}
    end in
  b ← structural_steps changed prior_pages head start prior_pages;
  Some (close_chain b).

(** [None] when a loop never returns. *)
Definition build_disk_index_page_records (pages : list (Z * list Z)) : option (DbResult (list WalRecord)) :=
  match collect_prior_pages pages with
  | Err e => Some (Err e)
  | Ok prior_pages =>
      b ← structural_records pages prior_pages;
      Some (let? changes := page_changes (consumed_pages b) prior_pages pages in
            Ok (records b ++ logged changes ++ build_page_set_u64_batch_records (u64_updates changes) ++
                build_page_patch_batch_records (page_patches changes) ++ build_full_page_image_batch_records (full_pages changes)))%result
  end.

End Build.
