(* ===== verification/LogRedo.v ===== *)
(** * What is logged is redone

    The records [IndexLog] builds from the pages of a directory and the changed pages,
    replayed by [IndexRedo] on the same directory. *)

From S2P Require Import Prelude.
From S2P Require Import Bytes.
From S2P Require Import PageBytes.
From S2P Require Import PoolPage.
From S2P Require Import BTreePage.
From S2P Require Import Disk.
From S2P Require Import FileStore.
From S2P Require Import WalTypes.
From S2P Require Import IndexRedo.
From S2P Require Import RedoNodes.
From S2P Require Import IndexLog.

(** ** Patches *)

Lemma run_length_le old : forall new, (run_length old new <= length old /\ run_length old new <= length new)%nat.
Proof. induction old as [|o old IH]; intros [|n new]; cbn; [lia..|]. destruct (o =? n); cbn; [lia|]. specialize (IH new). lia. Qed.

Lemma put_middle (pre old bs : list Z) :
  (length bs <= length old)%nat -> put (pre ++ old) (Z.of_nat (length pre)) bs = pre ++ bs ++ drop (length bs) old.
Proof.
  intros Hl. unfold put. rewrite Nat2Z.id, take_app_length. do 2 f_equal.
  rewrite drop_app_ge by lia. f_equal. lia.
Qed.

(** The segments the loop adds turn the old bytes from [idx] on into the new ones. *)
Lemma patch_loop_spec old : forall new idx skip changed segs out pre,
  patch_loop old new idx skip changed segs = Some out -> length old = length new -> (skip <= length old)%nat ->
  Z.of_nat (length pre) = idx -> idx + Z.of_nat (length old) = PAGE_SIZE ->
  exists tail, out = segs ++ tail /\ apply_segments (pre ++ take skip new ++ drop skip old) tail = Ok (pre ++ new).
Proof.
  induction old as [|o old IH]; intros [|n new] idx skip changed segs out pre Hout Hl Hs Hpre Htot; cbn [length] in *; try done; try lia.
  { cbn in Hout. injection Hout as <-. exists []. replace skip with 0%nat by lia. by rewrite app_nil_r. }
  destruct skip as [|skip].
  - cbn [patch_loop] in Hout. destruct (o =? n) eqn:Eon.
    + apply Z.eqb_eq in Eon as ->. destruct (IH new (idx + 1) 0%nat changed segs out (pre ++ [n]) Hout) as (tail & -> & Ht);
        [lia..|rewrite length_app; cbn; lia|lia|]. exists tail. split; [done|]. by rewrite <- !app_assoc in Ht.
    + destruct (_ || _) eqn:Eb in Hout; [done|]. cbn [run_length] in Hout. rewrite Eon in Hout. cbn [pred take] in Hout.
      pose proof (run_length_le old new) as [Hr1 Hr2]. set (len := run_length old new) in *.
      destruct (IH new (idx + 1) len (changed + Z.of_nat (S len)) (segs ++ [(idx, n :: take len new)]) out (pre ++ [n]) Hout) as (tail & -> & Ht);
        [lia..|rewrite length_app; cbn; lia|lia|].
      exists ((idx, n :: take len new) :: tail). split; [by rewrite <- app_assoc|]. cbn [apply_segments take drop].
      rewrite app_nil_l.
      rewrite (proj2 (Z.ltb_ge _ _)) by (cbn [length]; rewrite length_take; lia).
      rewrite <- Hpre, put_middle by (cbn [length]; rewrite length_take; lia).
      rewrite <- !app_assoc in Ht. cbn [length drop app] in *. rewrite length_take, Nat.min_l by lia. done.
  - cbn [patch_loop] in Hout. destruct (IH new (idx + 1) skip changed segs out (pre ++ [n]) Hout) as (tail & -> & Ht);
      [lia..|rewrite length_app; cbn; lia|lia|]. exists tail. split; [done|]. by rewrite <- !app_assoc in Ht.
Qed.

Lemma compact_patch_apply old new segs :
  page_len old -> build_compact_page_patch old new = Some segs -> apply_segments old segs = Ok new.
Proof.
  intros Hl. unfold build_compact_page_patch. destruct (length old =? length new)%nat eqn:E; [|done]. apply Nat.eqb_eq in E.
  cbn [negb].
  destruct (patch_loop old new 0 0 0 []) as [out|] eqn:Eo; [|done]. cbn [mbind option_bind].
  destruct (patch_loop_spec _ _ _ _ _ _ _ [] Eo) as (tail & -> & Ht); [done|lia|done|by rewrite Z.add_0_l|].
  cbn [app take drop] in Ht. destruct tail; [done|]. by intros [= <-].
Qed.

(** What recovery writes over the page for the one-word form is what the patch has. *)
Lemma compact_u64 segs off v :
  Forall (fun s => Forall byte (snd s)) segs -> extract_compact_u64_update segs = Some (off, v) -> segs = [(off, le_bytes 8 v)].
Proof.
  intros Hb. unfold extract_compact_u64_update. destruct segs as [|[o data] [|]]; try done.
  destruct (length data =? 8)%nat eqn:E; [|done].
  apply Nat.eqb_eq in E. intros [= -> <-]. apply Forall_cons in Hb as [Hb _]. cbn [snd] in Hb. by rewrite <- E, le_bytes_value.
Qed.

Lemma patch_loop_bytes old : forall new idx skip changed segs out,
  patch_loop old new idx skip changed segs = Some out -> Forall byte new ->
  Forall (fun s => Forall byte (snd s)) segs -> Forall (fun s => Forall byte (snd s)) out.
Proof.
  induction old as [|o old IH]; intros [|n new] idx skip changed segs out Hout Hb Hs; cbn [patch_loop] in Hout; try congruence.
  pose proof Hb as Hb0. apply Forall_cons in Hb as [Hn Hb]. destruct skip as [|skip]; [|eauto]. destruct (o =? n); [eauto|].
  destruct (_ || _); [done|]. eapply IH; [exact Hout|done|]. apply Forall_app. split; [done|]. constructor; [|done].
  by apply Forall_take.
Qed.

Lemma compact_patch_bytes old new segs :
  Forall byte new -> build_compact_page_patch old new = Some segs -> Forall (fun s => Forall byte (snd s)) segs.
Proof.
  intros Hb. unfold build_compact_page_patch. destruct (negb _); [done|].
  destruct (patch_loop old new 0 0 0 []) as [out|] eqn:Eo; [|done].
  cbn [mbind option_bind]. pose proof (patch_loop_bytes _ _ _ _ _ _ _ Eo Hb (Forall_nil_2 _)). destruct out; [done|].
  by intros [= <-].
Qed.

(** ** Entries *)

Definition keys_sorted (es : list (Z * Z)) : Prop := StronglySorted Z.lt (map fst es).

(** [new] is [old] with one entry more. *)
Definition one_more (old new : list (Z * Z)) (e : Z * Z) : Prop := exists l1 l2, old = l1 ++ l2 /\ new = l1 ++ e :: l2.

Lemma insert_loop_spec new : forall old inserted r old' new',
  insert_loop old new inserted = Some (r, old', new') ->
  match inserted with
  | Some _ => r = inserted /\ exists l, old = l ++ old' /\ new = l ++ new'
  | None => match r with
            | None => exists l, old = l ++ old' /\ new = l ++ new'
            | Some e => exists l1 l2, old = l1 ++ l2 ++ old' /\ new = l1 ++ e :: l2 ++ new'
            end
  end /\ (old' = [] \/ new' = []).
Proof.
  induction new as [|n new IH]; intros [|o old] inserted r old' new' Hl; cbn [insert_loop] in Hl; try (injection Hl as <- <- <-).
  1-3: split; [|auto]; destruct inserted; [split; [done|]|]; by exists [].
  case_decide as Heq.
  - subst o. destruct (IH _ _ _ _ _ Hl) as [H He]. split; [|done]. destruct inserted as [i|].
    + destruct H as [-> (l & -> & ->)]. split; [done|]. by exists (n :: l).
    + destruct r as [e|]; [destruct H as (l1 & l2 & -> & ->); by exists (n :: l1), l2|destruct H as (l & -> & ->); by exists (n :: l)].
  - destruct inserted as [i|]; [done|]. destruct (IH _ _ _ _ _ Hl) as [[-> (l & H1 & ->)] He]. split; [|done]. by exists [], l.
Qed.

Lemma extract_single_insert_spec old new e : extract_single_insert old new = Some e -> one_more old new e.
Proof.
  unfold extract_single_insert. destruct (negb _); [done|].
  destruct (insert_loop old new None) as [[[r old'] new']|] eqn:E; [|done].
  cbn [mbind option_bind]. destruct (insert_loop_spec _ _ _ _ _ _ E) as [H He]. destruct r as [x|].
  - destruct old', new'; try done. intros [= ->]. destruct H as (l1 & l2 & -> & ->). exists l1, l2. by rewrite !app_nil_r.
  - destruct new' as [|n new']; [by destruct old'|]. destruct old', new'; try done. intros [= ->]. destruct H as (l & -> & ->).
    exists l, []. by rewrite app_nil_r.
Qed.

Lemma extract_single_delete_spec old new e : extract_single_delete old new = Some e -> one_more new old e.
Proof. unfold extract_single_delete. destruct (negb _); [done|]. apply extract_single_insert_spec. Qed.

(** *** When there is a patch *)

(** The bytes that differ and the runs they form. *)
Fixpoint diff_count (old new : list Z) : Z :=
  match old, new with
  | o :: old, n :: new => (if o =? n then 0 else 1) + diff_count old new
  | _, _ => 0
  end.

Fixpoint run_count (in_run : bool) (old new : list Z) : nat :=
  match old, new with
  | o :: old, n :: new => if o =? n then run_count false old new else (if in_run then 0 else 1) + run_count true old new
  | _, _ => 0
  end.

Definition segment_bytes (segs : list (Z * list Z)) : Z := foldr (fun s n => Z.of_nat (length (snd s)) + n) 0 segs.

Lemma segment_bytes_app a b : segment_bytes (a ++ b) = segment_bytes a + segment_bytes b.
Proof. unfold segment_bytes. induction a as [|s a IH]; cbn [app foldr]; lia. Qed.

Lemma diff_count_run old : forall new,
  diff_count old new = Z.of_nat (run_length old new) + diff_count (drop (run_length old new) old) (drop (run_length old new) new).
Proof.
  induction old as [|o old IH]; intros [|n new]; cbn [diff_count run_length]; try done. destruct (o =? n) eqn:E.
  - cbn [drop diff_count]. rewrite E. lia.
  - cbn [drop]. rewrite IH at 1. lia.
Qed.

Lemma diff_count_nonneg old : forall new, 0 <= diff_count old new.
Proof. induction old as [|o old IH]; intros [|n new]; cbn; try done. specialize (IH new). destruct (o =? n); lia. Qed.

Lemma diff_count_zero old : forall new, length old = length new -> diff_count old new = 0 <-> old = new.
Proof.
  induction old as [|o old IH]; intros [|n new] Hl; cbn in *; try done. specialize (IH new ltac:(lia)).
  pose proof (diff_count_nonneg old new).
  destruct (o =? n) eqn:E; [apply Z.eqb_eq in E as ->|apply Z.eqb_neq in E]; split; [|intros [= ->]; apply IH; done|lia|congruence].
  intros Hz. f_equal. apply IH. lia.
Qed.

Lemma patch_loop_iff old : forall new idx skip changed segs (in_run : bool),
  length old = length new -> skip = (if in_run then run_length old new else 0%nat) -> 0 <= idx -> idx + Z.of_nat (length old) <= 65536 ->
  segment_bytes segs = changed -> changed <= MAX_PAGE_PATCH_BYTES -> (length segs <= MAX_PAGE_PATCH_SEGMENTS)%nat ->
  let bytes := changed + diff_count (drop skip old) (drop skip new) in
  let runs := (length segs + run_count in_run old new)%nat in
  if (bytes <=? MAX_PAGE_PATCH_BYTES) && (runs <=? MAX_PAGE_PATCH_SEGMENTS)%nat
  then exists out, patch_loop old new idx skip changed segs = Some out /\ length out = runs /\ segment_bytes out = bytes
  else patch_loop old new idx skip changed segs = None.
Proof.
  induction old as [|o old IH]; intros [|n new] idx skip changed segs in_run Hl Hskip Hidx Htot Hb Hc Hs; cbn [length] in *; try done.
  { cbn [patch_loop run_count]. rewrite !drop_nil. cbn [diff_count]. rewrite Z.add_0_r, Nat.add_0_r.
    rewrite (proj2 (Z.leb_le _ _)), (proj2 (Nat.leb_le _ _)) by done. by exists segs. }
  cbn [run_count run_length patch_loop] in *. destruct (o =? n) eqn:E.
  - assert (skip = 0%nat) as -> by (by destruct in_run). cbn [drop diff_count]. rewrite E, Z.add_0_l.
    apply (IH new (idx + 1) 0%nat changed segs false); try done; lia.
  - destruct in_run.
    + subst skip. cbn [drop]. apply (IH new (idx + 1) (run_length old new) changed segs true); try done; lia.
    + subst skip. cbn [drop diff_count]. rewrite E. pose proof (diff_count_run old new) as Hd. set (len := run_length old new) in *.
      pose proof (diff_count_nonneg (drop len old) (drop len new)) as Hnn. cbn [pred take].
      destruct ((MAX_PAGE_PATCH_BYTES <? changed + Z.of_nat (S len)) || (MAX_PAGE_PATCH_SEGMENTS <=? length segs)%nat || (65535 <? idx)) eqn:Eb.
      * replace (_ && _) with false; [done|]. symmetry. apply andb_false_iff. rewrite Z.leb_gt, Nat.leb_gt.
        rewrite !orb_true_iff, !Z.ltb_lt, Nat.leb_le in Eb. lia.
      * apply orb_false_iff in Eb as [Eb _]. apply orb_false_iff in Eb as [E1 E2]. apply Z.ltb_ge in E1. apply Nat.leb_gt in E2.
        pose proof (run_length_le old new) as [_ Hr]. fold len in Hr.
        pose proof (IH new (idx + 1) len (changed + Z.of_nat (S len)) (segs ++ [(idx, n :: take len new)]) true) as H0.
        rewrite length_app in H0. cbn [length] in H0.
        replace (changed + (1 + diff_count old new)) with (changed + Z.of_nat (S len) + diff_count (drop len old) (drop len new)) by lia.
        replace (length segs + (1 + run_count true old new))%nat with (length segs + 1 + run_count true old new)%nat by lia.
        apply H0; try done; try lia. rewrite segment_bytes_app, Hb. unfold segment_bytes. cbn [foldr snd length].
        rewrite length_take. lia.
Qed.

(** [C35] A compact patch is exact. For two pages, [build_compact_page_patch] returns segments
    exactly when the pages differ in at most 256 bytes that lie in at most 8 runs, and recovery,
    which copies the segments over the old page, then gets the new page byte for byte. *)
Theorem compact_patch_roundtrip old new :
  page_len old -> page_len new ->
  if (1 <=? diff_count old new) && (diff_count old new <=? MAX_PAGE_PATCH_BYTES) && (run_count false old new <=? MAX_PAGE_PATCH_SEGMENTS)%nat
  then exists segs, build_compact_page_patch old new = Some segs /\ apply_segments old segs = Ok new /\
    length segs = run_count false old new /\ segment_bytes segs = diff_count old new
  else build_compact_page_patch old new = None.
Proof.
  intros Ho Hn. assert (Hl : length old = length new) by (unfold page_len in *; lia).
  pose proof (patch_loop_iff old new 0 0%nat 0 [] false Hl eq_refl) as H.
  cbv zeta in H. rewrite !drop_0, !Z.add_0_l in H. cbn [length Nat.add] in H. unfold page_len, PAGE_SIZE in Ho.
  specialize (H ltac:(lia) ltac:(lia) eq_refl ltac:(done) ltac:(unfold MAX_PAGE_PATCH_SEGMENTS; lia)).
  pose proof (diff_count_nonneg old new) as Hnn. destruct (_ <=? MAX_PAGE_PATCH_BYTES) eqn:E1; [destruct (_ <=? _)%nat eqn:E2|].
  - cbn [andb] in H. destruct H as (out & Eo & Hlen & Hb). rewrite andb_true_r, andb_true_r.
    destruct (1 <=? diff_count old new) eqn:E0.
    + exists out. assert (Ep : build_compact_page_patch old new = Some out).
      { unfold build_compact_page_patch. rewrite Hl, Nat.eqb_refl. cbn [negb]. rewrite Eo. cbn. destruct out; [|done].
        apply Z.leb_le in E0. unfold segment_bytes in Hb. cbn [foldr] in Hb. lia. }
      split_and!; [done| |done|done]. by eapply compact_patch_apply.
    + apply Z.leb_gt in E0. unfold build_compact_page_patch. rewrite Hl, Nat.eqb_refl. cbn [negb]. rewrite Eo. cbn.
      destruct out as [|[o s] out]; [done|].
      assert (Hz : diff_count old new = 0) by lia. apply diff_count_zero in Hz; [|done]. subst new. exfalso.
      assert (Hr : forall b, run_count b old old = 0%nat) by (clear; induction old as [|x l IHl]; intros b; cbn; [done|]; by rewrite Z.eqb_refl).
      rewrite Hr in Hlen. done.
  - rewrite andb_false_r. cbn [andb] in H. unfold build_compact_page_patch. rewrite Hl, Nat.eqb_refl. cbn [negb]. by rewrite H.
  - rewrite andb_false_r. cbn [andb] in *. unfold build_compact_page_patch. rewrite Hl, Nat.eqb_refl. cbn [negb]. by rewrite H.
Qed.

Lemma delete_loop_spec old : forall new idx removed r old' new' idx',
  delete_loop old new idx removed = Some (r, old', new', idx') ->
  match removed with
  | Some _ => r = removed /\ exists l, old = l ++ old' /\ new = l ++ new'
  | None => match r with
            | None => exists l, old = l ++ old' /\ new = l ++ new' /\ idx' = (idx + length l)%nat
            | Some (i, e) => exists l1 l2, old = l1 ++ e :: l2 ++ old' /\ new = l1 ++ l2 ++ new' /\ i = (idx + length l1)%nat
            end
  end.
Proof.
  induction old as [|o old IH]; intros [|n new] idx removed r old' new' idx' Hl; cbn [delete_loop] in Hl; try (injection Hl as <- <- <- <-).
  1-3: destruct removed; [split; [done|]; by exists []|exists []; cbn; split_and!; [done|done|lia]].
  case_decide as Heq.
  - subst o. pose proof (IH _ _ _ _ _ _ _ Hl) as H. destruct removed as [i|].
    + destruct H as [-> (l & -> & ->)]. split; [done|]. by exists (n :: l).
    + destruct r as [[i e]|].
      * destruct H as (l1 & l2 & -> & -> & ->). exists (n :: l1), l2. cbn. split_and!; [done|done|lia].
      * destruct H as (l & -> & -> & ->). exists (n :: l). cbn. split_and!; [done|done|lia].
  - destruct removed as [i|]; [done|]. destruct (IH _ _ _ _ _ _ _ Hl) as [-> (l & -> & H1)]. exists [], l. cbn.
    split_and!; [done|done|lia].
Qed.

Lemma extract_with_index_spec old new i e :
  extract_single_delete_with_index old new = Some (i, e) -> exists l1 l2, old = l1 ++ e :: l2 /\ new = l1 ++ l2 /\ i = length l1.
Proof.
  unfold extract_single_delete_with_index. destruct (negb _); [done|].
  destruct (delete_loop old new 0 None) as [[[[r old'] new'] idx']|] eqn:E; [|done]. cbn [mbind option_bind].
  pose proof (delete_loop_spec _ _ _ _ _ _ _ _ E) as H. destruct r as [[i' e']|].
  - destruct old', new'; try done. intros [= -> ->]. destruct H as (l1 & l2 & -> & -> & ->). exists l1, l2. by rewrite !app_nil_r.
  - destruct old' as [|o old']; [by destruct new'|]. destruct old', new'; try done. intros [= <- <-].
    destruct H as (l & -> & -> & ->). exists l, []. done.
Qed.

(** In entries in order, an entry goes back where it came from. *)
Lemma sorted_middle l1 e l2 :
  keys_sorted (l1 ++ e :: l2) -> (forall x, x ∈ l1 -> fst x < fst e) /\ (forall x, x ∈ l2 -> fst e < fst x).
Proof.
  unfold keys_sorted. rewrite map_app. intros Hs. apply StronglySorted_app in Hs as (H1 & _ & H2). cbn [map] in *. split.
  - intros x Hx. apply H1; [by apply list_elem_of_fmap_2|by left].
  - intros x Hx. apply StronglySorted_inv in H2 as [_ H2]. rewrite Forall_forall in H2. apply H2. by apply list_elem_of_fmap_2.
Qed.

Lemma insert_back l1 k v l2 :
  keys_sorted (l1 ++ (k, v) :: l2) ->
  insert_at (partition_pair (l1 ++ l2) k v) (k, v) (l1 ++ l2) = l1 ++ (k, v) :: l2 /\
  insert_at (partition_point (l1 ++ l2) k) (k, v) (l1 ++ l2) = l1 ++ (k, v) :: l2.
Proof.
  intros Hs. destruct (sorted_middle _ _ _ Hs) as [H1 H2].
  assert (Hp : partition_pair (l1 ++ l2) k v = length l1 /\ partition_point (l1 ++ l2) k = length l1).
  { clear Hs. induction l1 as [|[a b] l1 IH]; cbn [app partition_pair partition_point length].
    - destruct l2 as [|[a b] l2]; [done|]. specialize (H2 (a, b) ltac:(by left)). cbn [fst] in H2.
      cbn [partition_pair partition_point].
      rewrite (proj2 (Z.ltb_ge _ _)), (proj2 (Z.eqb_neq _ _)), (proj2 (Z.leb_gt _ _)) by lia. done.
    - specialize (H1 (a, b) ltac:(by left)) as Ha. cbn [fst] in Ha. rewrite (proj2 (Z.ltb_lt _ _)), (proj2 (Z.leb_le _ _)) by lia.
      destruct IH as [-> ->]; [|done]. intros x Hx. apply H1. by right. }
  unfold insert_at. destruct Hp as [-> ->]. rewrite take_app_length, drop_app_length. done.
Qed.

Lemma remove_back l1 e l2 : keys_sorted (l1 ++ e :: l2) -> remove_pair e (l1 ++ e :: l2) = Ok (l1 ++ l2).
Proof.
  intros Hs. destruct (sorted_middle _ _ _ Hs) as [H1 H2]. unfold remove_pair.
  replace (list_find (fun x => x = e) (l1 ++ e :: l2)) with (Some (length l1, e)).
  - f_equal. rewrite take_app_length. f_equal. replace (S (length l1)) with (length l1 + 1)%nat by lia. by rewrite drop_app_add.
  - symmetry. apply list_find_Some. split_and!; [by rewrite lookup_app_r, Nat.sub_diag by lia|done|].
    intros j y Hj Hlt ->. rewrite lookup_app_l in Hj by lia. apply list_elem_of_lookup_2 in Hj. specialize (H1 _ Hj). lia.
Qed.

(** ** Parsing *)

Lemma in_u64_field p off : is_page p -> 0 <= off -> off + 8 <= PAGE_SIZE -> in_u64 (field p off 8).
Proof. intros [Hl Hb] Ho Hs. pose proof (field_bound p off 8 Hl Hb Ho ltac:(lia) Hs). unfold in_u64, u64_max. lia. Qed.

Lemma parse_entries_spec p es : forall i count,
  is_page p -> 0 <= i -> parse_entries p (seqZ i count) = Some es -> 0 <= count ->
  count_of es = count /\ entries_at p i es /\ Forall u64_entry es /\ (es <> [] -> i + count <= PAGE_ENTRIES).
Proof.
  induction es as [|[k v] es IH]; intros i count Hp Hi Hes Hc.
  { destruct (decide (count = 0)) as [->|Hne]; [by split_and!|]. rewrite seqZ_cons in Hes by lia. cbn [parse_entries] in Hes.
    by apply bind_Some in Hes as (k & _ & (v & _ & (es & _ & Hes)%bind_Some)%bind_Some). }
  destruct (decide (count = 0)) as [->|Hne]; [done|]. rewrite seqZ_cons in Hes by lia. cbn [parse_entries] in Hes.
  apply bind_Some in Hes as (k' & E1 & (v' & E2 & (es' & E3 & Hes)%bind_Some)%bind_Some). injection Hes as -> -> ->.
  unfold read_disk_btree_u64, page_has in E1, E2. pose proof (is_page_len p Hp) as Hl. unfold page_len in Hl. rewrite Hl in E1, E2.
  destruct (_ <=? _) eqn:L1 in E1; [|done]. destruct (_ <=? _) eqn:L2 in E2; [|done]. injection E1 as Hk. injection E2 as Hv.
  apply Z.leb_le in L1, L2. destruct (IH (Z.succ i) (Z.pred count) Hp) as (Hc' & He & Hu & Hn); [lia|done|lia|].
  unfold count_of in *. cbn [length entries_at]. rewrite PAGE_ENTRIES_eq in *. split_and!; [lia|done|done|done| |].
  - constructor; [|done]. split; cbn [fst snd]; subst; apply in_u64_field; btree_consts; lia || done.
  - intros _. destruct es as [|e es]; [|specialize (Hn ltac:(done)); lia]. cbn [length] in *. btree_consts. lia.
Qed.

Lemma parse_holds p kind es :
  is_page p -> is_tree_page p (kind_byte kind) = true -> (count ← read_disk_btree_count p; parse_entries p (seqZ 0 count)) = Some es ->
  holds_entries p kind es.
Proof.
  intros Hp Ht. unfold is_tree_page in Ht. apply andb_true_iff in Ht as [Hm Hk]. apply bool_decide_eq_true in Hm.
  apply Z.eqb_eq in Hk.
  intros (c & Ec & He)%bind_Some. unfold read_disk_btree_count in Ec. destruct (page_has _ _ _); [|done]. injection Ec as <-.
  assert (Hc : 0 <= field p PAGE_COUNT_OFFSET 2) by (destruct Hp; by apply field_bound).
  destruct (parse_entries_spec p es 0 (field p PAGE_COUNT_OFFSET 2) Hp) as (Hcount & Hat & Hu & Hn); [done|exact He|done|].
  split_and!; try done.
  split; [done|]. destruct es; [by rewrite PAGE_ENTRIES_eq|]. rewrite Hcount. specialize (Hn ltac:(done)). lia.
Qed.

Lemma parse_leaf_spec p es :
  is_page p -> parse_disk_btree_leaf_entries p = Some es -> page_is p (NLeaf es (field p PAGE_RIGHT_SIBLING_OFFSET 8)).
Proof.
  intros Hp. unfold parse_disk_btree_leaf_entries. destruct (negb _ || _) eqn:Eb; [done|]. apply orb_false_iff in Eb as [_ Eb].
  apply negb_false_iff in Eb.
  intros He. split_and!; [by apply (parse_holds p Leaf)|done|by apply in_u64_field].
Qed.

Lemma parse_internal_spec p f es : is_page p -> parse_disk_btree_internal_entries p = Some (f, es) -> page_is p (NInner f es).
Proof.
  intros Hp. unfold parse_disk_btree_internal_entries, read_disk_btree_u64. destruct (negb _ || _) eqn:Eb; [done|].
  apply orb_false_iff in Eb as [_ Eb]. apply negb_false_iff in Eb.
  intros (f' & Ef & (c & Ec & (es' & E & [= -> ->])%bind_Some)%bind_Some)%bind_Some.
  destruct (page_has _ _ _); [|done]. injection Ef as <-. split_and!; [|done|by apply in_u64_field].
  apply (parse_holds p Internal es Hp Eb). by rewrite Ec.
Qed.

Lemma right_sibling_spec p r : right_sibling_of p = Some r -> field p PAGE_RIGHT_SIBLING_OFFSET 8 = r.
Proof. unfold right_sibling_of, read_disk_btree_u64. destruct (page_has _ _ _); [|done]. congruence. Qed.

(** ** Inversion of the detections *)

Lemma scan_Some {T A} (body : T -> Loop A) l r : scan body l = Some r -> exists x, x ∈ l /\ body x = Return (Some r).
Proof.
  induction l as [|x l IH]; cbn [scan]; [done|]. destruct (body x) eqn:E.
  - intros (y & Hy & Hb)%IH. exists y. split; [by right|done].
  - intros ->. exists x. split; [by left|done].
Qed.

(** Every branch taken on the way to a result. *)
Ltac opt_inv H :=
  repeat first
    [ match type of H with
      | match ?x with _ => _ end = _ => let E := fresh "E" in destruct x eqn:E; try discriminate H
      end
    | let x := fresh "x" in let E := fresh "E" in apply bind_Some in H as (x & E & H) ].

Ltac norm_bools :=
  repeat match goal with
  | H : negb _ = false |- _ => apply negb_false_iff in H
  | H : _ || _ = false |- _ => apply orb_false_iff in H as [? H]
  | H : (_ =? _) = true |- _ => apply Z.eqb_eq in H
  | H : (_ =? _)%nat = true |- _ => apply Nat.eqb_eq in H
  | H : eqb_entries _ _ = true |- _ => apply bool_decide_eq_true in H
  end.

Section Inversion.
Context `{ExternalTypes}.
Variable rel : Z.

Lemma leaf_split_inv rn rp prior r :
  detect_disk_btree_leaf_split rel rn rp prior = Some r ->
  exists ln old_l new_l sep les res sib old_es,
    (ln, old_l, new_l) ∈ prior /\ r = DiskBtreeLeafSplit rel ln rn sib sep les res /\
    parse_disk_btree_leaf_entries rp = Some res /\ right_sibling_of rp = Some sib /\
    parse_disk_btree_leaf_entries old_l = Some old_es /\ parse_disk_btree_leaf_entries new_l = Some les /\ right_sibling_of new_l = Some rn.
Proof.
  unfold detect_disk_btree_leaf_split. intros Hd. apply bind_Some in Hd as (res & Er & Hd). destruct res as [|[sep v] res]; [done|].
  apply bind_Some in Hd as (sib & Es & Hd). apply scan_Some in Hd as ([[ln old_l] new_l] & Hin & Hd). opt_inv Hd. norm_bools. subst.
  injection Hd as <-. repeat eexists; eauto.
Qed.

Lemma internal_split_inv rn rp prior r :
  detect_disk_btree_internal_split rel rn rp prior = Some r ->
  exists ln old_l new_l sep lf lf' les rf res old_es,
    (ln, old_l, new_l) ∈ prior /\ r = DiskBtreeInternalSplit rel ln rn sep lf rf les res /\
    parse_disk_btree_internal_entries rp = Some (rf, res) /\
    parse_disk_btree_internal_entries old_l = Some (lf, old_es) /\ parse_disk_btree_internal_entries new_l = Some (lf', les).
Proof.
  unfold detect_disk_btree_internal_split. intros Hd. apply bind_Some in Hd as ([rf res] & Er & Hd).
  apply scan_Some in Hd as ([[ln old_l] new_l] & Hin & Hd). opt_inv Hd. norm_bools. subst. injection Hd as <-.
  repeat eexists; eauto.
Qed.

Lemma find_change_spec n prior m old new : find_change n prior = Some (m, old, new) -> m = n /\ (n, old, new) ∈ prior.
Proof.
  unfold find_change. intros Hf. apply fmap_Some in Hf as ([i c] & Hf & Hc). cbn [snd] in Hc. subst c.
  apply list_find_Some in Hf as (Hl & Hm & _). cbn [fst] in Hm. subst m. split; [done|]. by apply list_elem_of_lookup_2 in Hl.
Qed.

(** Where one separator changes, setting it turns the old entries into the new ones. *)
Lemma changed_slot_spec old : forall new idx found slot,
  changed_slot old new idx found = Some slot -> length old = length new ->
  match found with
  | Some i => slot = i /\ old = new
  | None => exists i, slot = (idx + i)%nat /\ (i < length old)%nat /\ forall s c, new !! i = Some (s, c) -> set_key i s old = new
  end.
Proof.
  induction old as [|[os oc] old IH]; intros [|[ns nc] new] idx found slot Hs Hl; cbn [changed_slot length] in *; try done.
  { destruct found; [|done]. by injection Hs as <-. }
  destruct (oc =? nc) eqn:Ec; [|done]. apply Z.eqb_eq in Ec as ->. cbn [negb] in Hs. destruct (os =? ns) eqn:Es; cbn [negb] in Hs.
  - apply Z.eqb_eq in Es as ->. pose proof (IH _ _ _ _ Hs ltac:(lia)) as H0. destruct found as [i|].
    + destruct H0 as [-> ->]. done.
    + destruct H0 as (i & -> & Hi & H1). exists (S i). split_and!; [lia|lia|]. cbn [lookup]. intros s c Hn. unfold set_key in *.
      cbn. f_equal. by eapply H1.
  - destruct found; [done|]. pose proof (IH _ _ _ _ Hs ltac:(lia)) as [-> ->]. exists 0%nat. split_and!; [lia|lia|].
    by intros s c [= -> ->].
Qed.

Lemma redistribute_parent_inv rn oldp newp prior slot ln pf os ns old_l new_l :
  redistribute_parent rn oldp newp prior = Some (slot, ln, pf, os, ns, old_l, new_l) ->
  exists old_es new_es, parse_disk_btree_internal_entries oldp = Some (pf, old_es) /\ parse_disk_btree_internal_entries newp = Some (pf, new_es) /\
    (slot < length old_es)%nat /\ set_key slot ns old_es = new_es /\ (ln, old_l, new_l) ∈ prior.
Proof.
  unfold redistribute_parent. intros Hd. opt_inv Hd. norm_bools. injection Hd as -> -> -> -> -> -> ->. subst.
  match goal with Hf : find_change _ _ = _ |- _ => apply find_change_spec in Hf as [-> Hf] end.
  match goal with Hc : changed_slot _ _ _ _ = _ |- _ => apply changed_slot_spec in Hc as (i & -> & Hi & Hk); [|done] end.
  cbn [Nat.add] in *. do 2 eexists. split_and!; eauto.
Qed.

Lemma leaf_redistribute_inv rn old_r new_r prior r involved :
  detect_disk_btree_leaf_redistribute rel rn old_r new_r prior = Some (r, involved) ->
  exists pn oldp newp ln old_l new_l slot pf old_es new_es les res sib ns es1 es2,
    r = DiskBtreeLeafRedistribute rel ln rn pn (Z.of_nat slot) pf les res sib ns /\ involved = [ln; rn; pn] /\
    (pn, oldp, newp) ∈ prior /\ (ln, old_l, new_l) ∈ prior /\
    parse_disk_btree_internal_entries oldp = Some (pf, old_es) /\ parse_disk_btree_internal_entries newp = Some (pf, new_es) /\
    (slot < length old_es)%nat /\ set_key slot ns old_es = new_es /\
    parse_disk_btree_leaf_entries old_l = Some es1 /\ parse_disk_btree_leaf_entries new_l = Some les /\ right_sibling_of new_l = Some rn /\
    parse_disk_btree_leaf_entries old_r = Some es2 /\ parse_disk_btree_leaf_entries new_r = Some res /\ right_sibling_of new_r = Some sib.
Proof.
  unfold detect_disk_btree_leaf_redistribute. intros Hd. opt_inv Hd. norm_bools. subst.
  apply scan_Some in Hd as ([[pn oldp] newp] & Hin & Hd).
  opt_inv Hd. norm_bools. subst.
  match goal with Hf : redistribute_parent _ _ _ _ = _ |- _ => apply redistribute_parent_inv in Hf as (old_es & new_es & Hp1 & Hp2 & Hp3 & Hp4 & Hp5) end.
  injection Hd as <- <-. repeat eexists; eauto; congruence.
Qed.

Lemma internal_redistribute_inv rn old_r new_r prior r involved :
  detect_disk_btree_internal_redistribute rel rn old_r new_r prior = Some (r, involved) ->
  exists pn oldp newp ln old_l new_l slot pf old_es new_es lf les rf res ns f1 es1 f2 es2,
    r = DiskBtreeInternalRedistribute rel ln rn pn (Z.of_nat slot) pf lf rf les res ns /\ involved = [ln; rn; pn] /\
    (pn, oldp, newp) ∈ prior /\ (ln, old_l, new_l) ∈ prior /\
    parse_disk_btree_internal_entries oldp = Some (pf, old_es) /\ parse_disk_btree_internal_entries newp = Some (pf, new_es) /\
    (slot < length old_es)%nat /\ set_key slot ns old_es = new_es /\
    parse_disk_btree_internal_entries old_l = Some (f1, es1) /\ parse_disk_btree_internal_entries new_l = Some (lf, les) /\
    parse_disk_btree_internal_entries old_r = Some (f2, es2) /\ parse_disk_btree_internal_entries new_r = Some (rf, res).
Proof.
  unfold detect_disk_btree_internal_redistribute. intros Hd. opt_inv Hd. norm_bools. subst.
  apply scan_Some in Hd as ([[pn oldp] newp] & Hin & Hd).
  opt_inv Hd. norm_bools. subst.
  match goal with Hf : redistribute_parent _ _ _ _ = _ |- _ => apply redistribute_parent_inv in Hf as (old_es & new_es & Hp1 & Hp2 & Hp3 & Hp4 & Hp5) end.
  injection Hd as <- <-. repeat eexists; eauto; congruence.
Qed.

Lemma merge_parent_inv rn oldp newp prior ln pf s old_l new_l :
  merge_parent rn oldp newp prior = Return (Some (ln, pf, s, old_l, new_l)) ->
  exists old_es l1 l2, parse_disk_btree_internal_entries oldp = Some (pf, old_es) /\ parse_disk_btree_internal_entries newp = Some (pf, l1 ++ l2) /\
    old_es = l1 ++ (s, rn) :: l2 /\ (ln, old_l, new_l) ∈ prior.
Proof.
  unfold merge_parent. intros Hd. opt_inv Hd. norm_bools. injection Hd as -> -> -> -> ->. subst.
  match goal with Hf : find_change _ _ = _ |- _ => apply find_change_spec in Hf as [-> Hf] end.
  match goal with He : extract_single_delete_with_index _ _ = _ |- _ => apply extract_with_index_spec in He as (l1 & l2 & -> & -> & ->) end.
  do 3 eexists. split_and!; eauto.
Qed.

Lemma leaf_merge_inv rn old_r new_r prior head r involved :
  detect_disk_btree_leaf_merge rel rn old_r new_r prior head = Some (r, involved) ->
  exists pn oldp newp ln old_l new_l pf s l1 l2 les sib es1,
    r = DiskBtreeLeafMerge rel ln rn pn pf s les sib head /\ involved = [ln; rn; pn] /\
    (pn, oldp, newp) ∈ prior /\ (ln, old_l, new_l) ∈ prior /\
    parse_disk_btree_internal_entries oldp = Some (pf, l1 ++ (s, rn) :: l2) /\ parse_disk_btree_internal_entries newp = Some (pf, l1 ++ l2) /\
    parse_disk_btree_leaf_entries old_l = Some es1 /\ parse_disk_btree_leaf_entries new_l = Some les /\ right_sibling_of new_l = Some sib /\
    parse_disk_btree_leaf_entries new_r = Some [].
Proof.
  unfold detect_disk_btree_leaf_merge. intros Hd. apply bind_Some in Hd as (es2 & E2 & Hd). destruct (no_entries es2); [done|].
  apply bind_Some in Hd as (res & Er & Hd). destruct res; [|done]. apply bind_Some in Hd as (sib & Es & Hd).
  apply scan_Some in Hd as ([[pn oldp] newp] & Hin & Hd).
  destruct (merge_parent _ _ _ _) as [|[[[[[ln pf] s] old_l] new_l]|]] eqn:Em; try done.
  apply merge_parent_inv in Em as (old_es & l1 & l2 & Hp1 & Hp2 & -> & Hp4). opt_inv Hd. norm_bools. subst. injection Hd as <- <-.
  repeat eexists; eauto.
Qed.

Lemma internal_merge_inv rn old_r new_r prior head r involved :
  detect_disk_btree_internal_merge rel rn old_r new_r prior head = Some (r, involved) ->
  exists pn oldp newp ln old_l new_l pf s l1 l2 lf les es1,
    r = DiskBtreeInternalMerge rel ln rn pn pf s lf les head /\ involved = [ln; rn; pn] /\
    (pn, oldp, newp) ∈ prior /\ (ln, old_l, new_l) ∈ prior /\
    parse_disk_btree_internal_entries oldp = Some (pf, l1 ++ (s, rn) :: l2) /\ parse_disk_btree_internal_entries newp = Some (pf, l1 ++ l2) /\
    parse_disk_btree_internal_entries old_l = Some (lf, es1) /\ parse_disk_btree_internal_entries new_l = Some (lf, les) /\
    parse_disk_btree_leaf_entries new_r = Some [].
Proof.
  unfold detect_disk_btree_internal_merge. intros Hd. apply bind_Some in Hd as ([f2 es2] & E2 & Hd).
  destruct (no_entries es2); [done|].
  apply bind_Some in Hd as (res & Er & Hd). destruct res; [|done].
  apply scan_Some in Hd as ([[pn oldp] newp] & Hin & Hd).
  destruct (merge_parent _ _ _ _) as [|[[[[[ln pf] s] old_l] new_l]|]] eqn:Em; try done.
  apply merge_parent_inv in Em as (old_es & l1 & l2 & Hp1 & Hp2 & -> & Hp4). opt_inv Hd. norm_bools. subst. injection Hd as <- <-.
  repeat eexists; eauto.
Qed.

End Inversion.

(** *** Collapses *)

Lemma same_but_spec idx old : forall new,
  length old = length new -> same_but idx old new = true -> forall j, j <> idx -> old !! j = new !! j.
Proof.
  intros new Hl Hs j Hj. unfold same_but in Hs. rewrite forallb_forall in Hs.
  destruct (old !! j) as [o|] eqn:Eo.
  - assert (Hjl : (j < length new)%nat) by (rewrite <- Hl; by eapply lookup_lt_Some).
    destruct (lookup_lt_is_Some_2 new j Hjl) as [n En].
    rewrite En. f_equal. assert (Hz : zip old new !! j = Some (o, n)) by (apply lookup_zip_Some; done).
    specialize (Hs (j, (o, n)) ltac:(apply list_elem_of_In, list_elem_of_lookup; exists j; apply lookup_zip_Some; split; [|done];
      apply lookup_seq; split; [done|by eapply lookup_lt_Some])).
    cbn in Hs. rewrite (proj2 (Nat.eqb_neq j idx)) in Hs by done. by apply bool_decide_eq_true in Hs.
  - symmetry. apply lookup_ge_None. apply lookup_ge_None in Eo. lia.
Qed.

(** The slot found: only its child differs. *)
Lemma collapse_slot_spec removed replacement same all_old all_new old : forall new idx slot,
  collapse_slot removed replacement same all_old all_new old new idx = Some slot -> length all_old = length all_new ->
  drop idx all_old = old -> drop idx all_new = new ->
  same = true /\ exists i, slot = S i /\ (i < length all_old)%nat /\ set_child i replacement all_old = all_new.
Proof.
  induction old as [|[os oc] old IH]; intros [|[ns nc] new] idx slot Hs Hl Ho Hn; cbn [collapse_slot] in Hs; try done.
  destruct (os =? ns) eqn:Es; [|done]. apply Z.eqb_eq in Es as ->. cbn [negb] in Hs.
  assert (Eo : all_old !! idx = Some (ns, oc)) by (rewrite <- (Nat.add_0_r idx), <- lookup_drop, Ho; done).
  assert (En : all_new !! idx = Some (ns, nc)) by (rewrite <- (Nat.add_0_r idx), <- lookup_drop, Hn; done).
  destruct (_ && _) eqn:Eb in Hs.
  - injection Hs as <-. rewrite !andb_true_iff in Eb. destruct Eb as ((((E1 & E2) & E3) & E4) & _). apply Z.eqb_eq in E2 as ->.
    split; [done|]. exists idx. split_and!; [done|by eapply lookup_lt_Some|]. apply list_eq. intros j. unfold set_child.
    destruct (decide (j = idx)) as [->|Hj].
    + by rewrite list_lookup_alter_eq, Eo, En.
    + rewrite list_lookup_alter_ne by done. by eapply same_but_spec.
  - apply (IH _ (S idx) slot Hs Hl).
    + by rewrite <- Nat.add_1_r, <- drop_drop, Ho.
    + by rewrite <- Nat.add_1_r, <- drop_drop, Hn.
Qed.

Lemma collapse_inv `{ExternalTypes} rel n old new prior head r involved :
  detect_disk_btree_internal_collapse rel n old new prior head = Some (r, involved) ->
  exists pn oldp newp slot pf rc f es f' es',
    (pn, oldp, newp) ∈ prior /\ r = DiskBtreeInternalCollapse rel pn (Z.of_nat slot) pf rc n head /\
    parse_disk_btree_internal_entries old = Some (rc, []) /\ parse_disk_btree_leaf_entries new = Some [] /\ right_sibling_of new = Some head /\
    parse_disk_btree_internal_entries oldp = Some (f, es) /\ parse_disk_btree_internal_entries newp = Some (f', es') /\
    (slot <= length es)%nat /\ (pf = f' \/ pf = rc) /\ collapsed f es slot pf rc = NInner f' es'.
Proof.
  unfold detect_disk_btree_internal_collapse. intros Hd. apply bind_Some in Hd as ([rc oes] & Eo & Hd). destruct oes; [|done].
  destruct (negb _ || _); [done|]. apply bind_Some in Hd as (fes & En & Hd). destruct fes; [|done]. cbn [no_entries negb] in Hd.
  apply bind_Some in Hd as (nx & Enx & Hd). destruct (nx =? head) eqn:Eh; [|done]. apply Z.eqb_eq in Eh as ->. cbn [negb] in Hd.
  apply scan_Some in Hd as ([[pn oldp] newp] & Hin & Hd).
  destruct (parse_disk_btree_internal_entries oldp) as [[f es]|] eqn:Ep; [|done].
  destruct (parse_disk_btree_internal_entries newp) as [[f' es']|] eqn:Ep'; [|done].
  destruct (negb _) eqn:El; [done|]. apply negb_false_iff, Nat.eqb_eq in El. destruct (_ && _ && _) eqn:Eb.
  - rewrite !andb_true_iff in Eb. destruct Eb as ((E1 & E2) & E3). apply Z.eqb_eq in E1, E2. apply bool_decide_eq_true in E3.
    subst. injection Hd as <- <-.
    exists pn, oldp, newp, 0%nat, rc, rc, n, es', rc, es'. cbn [collapsed]. split_and!; try done; [lia|by right].
  - destruct (collapse_slot _ _ _ _ _ _ _ _) as [slot|] eqn:Es; [|done]. injection Hd as <- <-.
    apply collapse_slot_spec in Es as (Ef & i & -> & Hi & Hset); [|done..]. apply Z.eqb_eq in Ef as ->.
    exists pn, oldp, newp, (S i), f', rc, f', es, f', es'. cbn [collapsed]. rewrite Hset. split_and!; try done; [by left|].
    by destruct (f' =? 0).
Qed.

(** ** The pages after redo *)

(** The same bytes, the same node or the same metapage: what a reader of the page sees. *)
Definition same_content (p q : list Z) : Prop :=
  p = q \/ (exists nd, page_is p nd /\ page_is q nd) \/ exists m, meta_is p m /\ meta_is q m.

Definition restored (d : Disk) (rel n : Z) (new : list Z) : Prop :=
  exists p, page_on d (mkPageId rel n) = Some p /\ same_content p new.

Lemma holds_restored d rel n nd new : holds d rel n nd -> page_is new nd -> restored d rel n new.
Proof. intros (p & Hp & Hn) Hnew. exists p. split; [done|]. right. left. by exists nd. Qed.

Lemma restored_rewrote rel ns d d' n new : restored d rel n new -> rewrote rel ns d d' -> n ∉ ns -> restored d' rel n new.
Proof. intros (p & Hp & Hs) Hr Hn. exists p. split; [|done]. apply Hr; [|done]. by intros [_ ?]. Qed.

(** The pages a structural record writes. *)
Definition touched `{ExternalTypes} (r : WalRecord) : list Z :=
  match r with
  | DiskBtreeLeafSplit _ l r _ _ _ _ => [l; r]
  | DiskBtreeInternalSplit _ l r _ _ _ _ _ => [l; r]
  | DiskBtreeLeafRedistribute _ l r pn _ _ _ _ _ _ => [l; r; pn]
  | DiskBtreeInternalRedistribute _ l r pn _ _ _ _ _ _ _ => [l; r; pn]
  | DiskBtreeLeafMerge _ l r pn _ _ _ _ _ => [l; r; pn]
  | DiskBtreeInternalMerge _ l r pn _ _ _ _ _ => [l; r; pn]
  | DiskBtreeInternalCollapse _ pn _ _ _ rp _ => [pn; rp]
  | _ => []
  end.

Definition entries_of (nd : node) : list (Z * Z) := match nd with NLeaf es _ => es | NInner _ es => es end.

(** The entries of the node a page holds are in order. *)
Definition sorted_page (p : list Z) : Prop := forall nd, page_is p nd -> keys_sorted (entries_of nd).

(** The changed pages of a relation, each with its page on disk where there is one. *)
Record changes_of (d : Disk) (rel : Z) (pages : list (Z * list Z)) (prior : list Change) : Prop := {
  ch_prior : forall n old new, (n, old, new) ∈ prior ->
    page_on d (mkPageId rel n) = Some old /\ is_page old /\ sorted_page old /\ (n, new) ∈ pages;
  ch_pages : forall n new, (n, new) ∈ pages -> page_no n /\ is_page new /\ sorted_page new
}.

Section Structural.
Context `{ExternalTypes}.
Variables (d : Disk) (rel : Z) (pages : list (Z * list Z)) (prior : list Change).
Hypothesis Hch : changes_of d rel pages prior.

(** Redo of the record gives every page it writes the contents of the changed page. *)
Definition redo_ok (r : WalRecord) : Prop :=
  exists d', replay_index_record r d = (Ok tt, d') /\
    (forall n, n ∈ touched r -> exists new, (n, new) ∈ pages /\ restored d' rel n new) /\ rewrote rel (touched r) d d'.

(** An internal page that keeps its first child. *)
Definition keeps_first_child (n : Z) : Prop :=
  forall old new f es f' es', (n, old, new) ∈ prior -> parse_disk_btree_internal_entries old = Some (f, es) ->
    parse_disk_btree_internal_entries new = Some (f', es') -> f = f'.

(** A change of several pages recognised in the changed pages.  A page a merge frees links to
    the head of the free list; the left page of an internal split keeps its first child, which
    the record does not hold. *)
Inductive recognised (head : Z) : WalRecord -> Prop :=
| rec_leaf_split rn rp r : (rn, rp) ∈ pages -> detect_disk_btree_leaf_split rel rn rp prior = Some r -> recognised head r
| rec_internal_split rn rp r ln :
    (rn, rp) ∈ pages -> detect_disk_btree_internal_split rel rn rp prior = Some r ->
    touched r = [ln; rn] -> keeps_first_child ln -> recognised head r
| rec_leaf_redistribute rn old new r involved :
    (rn, old, new) ∈ prior -> detect_disk_btree_leaf_redistribute rel rn old new prior = Some (r, involved) -> recognised head r
| rec_internal_redistribute rn old new r involved :
    (rn, old, new) ∈ prior -> detect_disk_btree_internal_redistribute rel rn old new prior = Some (r, involved) -> recognised head r
| rec_leaf_merge rn old new r involved :
    (rn, old, new) ∈ prior -> detect_disk_btree_leaf_merge rel rn old new prior head = Some (r, involved) ->
    right_sibling_of new = Some head -> recognised head r
| rec_internal_merge rn old new r involved :
    (rn, old, new) ∈ prior -> detect_disk_btree_internal_merge rel rn old new prior head = Some (r, involved) ->
    right_sibling_of new = Some head -> recognised head r
| rec_collapse n old new r involved :
    (n, old, new) ∈ prior -> detect_disk_btree_internal_collapse rel n old new prior head = Some (r, involved) -> recognised head r.

Lemma prior_leaf n old new es es' :
  (n, old, new) ∈ prior -> parse_disk_btree_leaf_entries old = Some es -> parse_disk_btree_leaf_entries new = Some es' ->
  (n, new) ∈ pages /\ page_no n /\ holds d rel n (NLeaf es (field old PAGE_RIGHT_SIBLING_OFFSET 8)) /\
  page_is new (NLeaf es' (field new PAGE_RIGHT_SIBLING_OFFSET 8)).
Proof.
  intros Hin Eo En. destruct (ch_prior _ _ _ _ Hch _ _ _ Hin) as (Hp & Ho & _ & Hpg).
  destruct (ch_pages _ _ _ _ Hch _ _ Hpg) as (Hn & Hnew & _).
  split_and!; [done|done| |by apply parse_leaf_spec]. exists old. split; [done|by apply parse_leaf_spec].
Qed.

Lemma prior_inner n old new f es f' es' :
  (n, old, new) ∈ prior -> parse_disk_btree_internal_entries old = Some (f, es) -> parse_disk_btree_internal_entries new = Some (f', es') ->
  (n, new) ∈ pages /\ page_no n /\ holds d rel n (NInner f es) /\ page_is new (NInner f' es') /\ keys_sorted es.
Proof.
  intros Hin Eo En. destruct (ch_prior _ _ _ _ Hch _ _ _ Hin) as (Hp & Ho & Hs & Hpg).
  destruct (ch_pages _ _ _ _ Hch _ _ Hpg) as (Hn & Hnew & _).
  pose proof (parse_internal_spec _ _ _ Ho Eo) as Hpo.
  split_and!; [done|done| |by apply parse_internal_spec|exact (Hs _ Hpo)]. exists old. done.
Qed.

Lemma page_leaf_ok p es r : page_is p (NLeaf es r) -> entries_ok es /\ in_u64 r.
Proof. apply page_is_ok. Qed.

Lemma page_inner_ok p es f : page_is p (NInner f es) -> entries_ok es /\ in_u64 f.
Proof. apply page_is_ok. Qed.

Lemma set_key_u64 slot k es : entries_ok (set_key slot k es) -> (slot < length es)%nat -> in_u64 k.
Proof.
  intros [Hu _] Hs. destruct (lookup_lt_is_Some_2 es slot Hs) as [[a c] Hk]. rewrite Forall_lookup in Hu.
  apply (Hu slot (k, c)). unfold set_key. by rewrite list_lookup_alter_eq, Hk.
Qed.

(** From the nodes two or three pages hold to the pages. *)
Lemma restored_two d' a b nda ndb na nb :
  holds d' rel a nda -> holds d' rel b ndb -> page_is na nda -> page_is nb ndb -> (a, na) ∈ pages -> (b, nb) ∈ pages ->
  forall n, n ∈ [a; b] -> exists new, (n, new) ∈ pages /\ restored d' rel n new.
Proof.
  intros Ha Hb Pa Pb Ia Ib n Hn.
  apply elem_of_cons in Hn as [->|Hn]; [exists na|apply list_elem_of_singleton in Hn as ->; exists nb];
    (split; [done|by eapply holds_restored]).
Qed.

Lemma restored_three d' a b c nda ndb ndc na nb nc :
  holds d' rel a nda -> holds d' rel b ndb -> holds d' rel c ndc -> page_is na nda -> page_is nb ndb -> page_is nc ndc ->
  (a, na) ∈ pages -> (b, nb) ∈ pages -> (c, nc) ∈ pages ->
  forall n, n ∈ [a; b; c] -> exists new, (n, new) ∈ pages /\ restored d' rel n new.
Proof.
  intros Ha Hb Hc Pa Pb Pc Ia Ib Ic n Hn. apply elem_of_cons in Hn as [->|Hn]; [exists na; split; [done|by eapply holds_restored]|].
  by eapply (restored_two d' b c).
Qed.

Lemma leaf_split_redo rn rp r :
  (rn, rp) ∈ pages -> detect_disk_btree_leaf_split rel rn rp prior = Some r -> NoDup (touched r) -> redo_ok r.
Proof.
  intros Hrn (ln & old_l & new_l & sep & les & res & sib & es & Hin & -> & Er & Es & Eo & El & Esl)%leaf_split_inv Hnd.
  destruct (prior_leaf _ _ _ _ _ Hin Eo El) as (Hl & Hln & Hho & Hnew). destruct (ch_pages _ _ _ _ Hch _ _ Hrn) as (Hrno & Hrp & _).
  pose proof (parse_leaf_spec _ _ Hrp Er) as Hr. apply right_sibling_spec in Es, Esl. rewrite Es in Hr. rewrite Esl in Hnew.
  cbn [touched] in Hnd. apply NoDup_cons in Hnd as [Hne _]. rewrite list_elem_of_singleton in Hne.
  destruct (page_leaf_ok _ _ _ Hnew), (page_leaf_ok _ _ _ Hr).
  destruct (leaf_split_spec rel ln rn sib les res _ _ d Hho) as (d' & E & H1' & H2' & R); [done..|].
  exists d'. split_and!; [done| |done]. by eapply restored_two.
Qed.

Lemma internal_split_redo rn rp r ln0 :
  (rn, rp) ∈ pages -> detect_disk_btree_internal_split rel rn rp prior = Some r -> touched r = [ln0; rn] -> keeps_first_child ln0 ->
  NoDup (touched r) -> redo_ok r.
Proof.
  intros Hrn (ln & old_l & new_l & sep & lf & lf' & les & rf & res & es & Hin & -> & Er & Eo & El)%internal_split_inv Ht Hkept Hnd.
  cbn [touched] in Ht. injection Ht as <-. rewrite <- (Hkept _ _ _ _ _ _ Hin Eo El) in El. destruct (prior_inner _ _ _ _ _ _ _ Hin Eo El) as (Hl & Hln & Hho & Hnew & _).
  destruct (ch_pages _ _ _ _ Hch _ _ Hrn) as (Hrno & Hrp & _). pose proof (parse_internal_spec _ _ _ Hrp Er) as Hr.
  cbn [touched] in Hnd. apply NoDup_cons in Hnd as [Hne _]. rewrite list_elem_of_singleton in Hne.
  destruct (page_inner_ok _ _ _ Hnew), (page_inner_ok _ _ _ Hr).
  destruct (internal_split_spec rel ln rn lf rf les res _ _ d Hho) as (d' & E & H1' & H2' & R); [done..|].
  exists d'. split_and!; [done| |done]. by eapply restored_two.
Qed.

Lemma leaf_redistribute_redo rn old new r involved :
  (rn, old, new) ∈ prior -> detect_disk_btree_leaf_redistribute rel rn old new prior = Some (r, involved) -> NoDup (touched r) -> redo_ok r.
Proof.
  intros Hrn (pn & oldp & newp & ln & old_l & new_l & slot & pf & oes & nes & les & res & sib & ns & es1 & es2 & -> & _ & Hp & Hl & Ep & Ep' & Hslot & Hset &
    El & El' & Esl & Er & Er' & Es)%leaf_redistribute_inv Hnd.
  destruct (prior_leaf _ _ _ _ _ Hl El El') as (Il & Nl & Ol & Pl).
  destruct (prior_leaf _ _ _ _ _ Hrn Er Er') as (Ir & Nr & Or & Pr).
  destruct (prior_inner _ _ _ _ _ _ _ Hp Ep Ep') as (Ip & Np & Op & Pp & _). apply right_sibling_spec in Es, Esl.
  rewrite Es in Pr. rewrite Esl in Pl.
  destruct (page_leaf_ok _ _ _ Pl), (page_leaf_ok _ _ _ Pr). destruct (page_inner_ok _ _ _ Pp) as [Hnes Hpf].
  assert (Hns : in_u64 ns) by (rewrite <- Hset in Hnes; by apply (set_key_u64 slot ns oes)).
  destruct (leaf_redistribute_spec rel ln rn pn slot pf les res sib ns _ _ _ _ _ _ d Ol Or Op) as (d' & E & H1' & H2' & H3' & R); [done..|].
  rewrite Hset in H3'. exists d'. split_and!; [done| |done]. by eapply (restored_three d' ln rn pn).
Qed.

Lemma internal_redistribute_redo rn old new r involved :
  (rn, old, new) ∈ prior -> detect_disk_btree_internal_redistribute rel rn old new prior = Some (r, involved) -> NoDup (touched r) -> redo_ok r.
Proof.
  intros Hrn (pn & oldp & newp & ln & old_l & new_l & slot & pf & oes & nes & lf & les & rf & res & ns & f1 & es1 & f2 & es2 & -> & _ & Hp & Hl & Ep & Ep' &
    Hslot & Hset & El & El' & Er & Er')%internal_redistribute_inv Hnd.
  destruct (prior_inner _ _ _ _ _ _ _ Hl El El') as (Il & Nl & Ol & Pl & _).
  destruct (prior_inner _ _ _ _ _ _ _ Hrn Er Er') as (Ir & Nr & Or & Pr & _).
  destruct (prior_inner _ _ _ _ _ _ _ Hp Ep Ep') as (Ip & Np & Op & Pp & _).
  destruct (page_inner_ok _ _ _ Pl), (page_inner_ok _ _ _ Pr). destruct (page_inner_ok _ _ _ Pp) as [Hnes Hpf].
  assert (Hns : in_u64 ns) by (rewrite <- Hset in Hnes; by apply (set_key_u64 slot ns oes)).
  destruct (internal_redistribute_spec rel ln rn pn slot pf lf rf les res ns _ _ _ _ _ _ d Ol Or Op) as (d' & E & H1' & H2' & H3' & R); [done..|].
  rewrite Hset in H3'. exists d'. split_and!; [done| |done]. by eapply (restored_three d' ln rn pn).
Qed.

Lemma leaf_merge_redo head rn old new r involved :
  (rn, old, new) ∈ prior -> detect_disk_btree_leaf_merge rel rn old new prior head = Some (r, involved) ->
  right_sibling_of new = Some head -> NoDup (touched r) -> redo_ok r.
Proof.
  intros Hrn (pn & oldp & newp & ln & old_l & new_l & pf & s & l1 & l2 & les & sib & es1 & -> & _ & Hp & Hl & Ep & Ep' & El & El' & Esl & Er')%leaf_merge_inv Hhead Hnd.
  destruct (prior_leaf _ _ _ _ _ Hl El El') as (Il & Nl & Ol & Pl).
  destruct (prior_inner _ _ _ _ _ _ _ Hp Ep Ep') as (Ip & Np & Op & Pp & Hsort).
  destruct (ch_prior _ _ _ _ Hch _ _ _ Hrn) as (_ & _ & _ & Ir). destruct (ch_pages _ _ _ _ Hch _ _ Ir) as (Nr & Hnew & _).
  pose proof (parse_leaf_spec _ _ Hnew Er') as Pr. apply right_sibling_spec in Esl, Hhead. rewrite Hhead in Pr. rewrite Esl in Pl.
  destruct (page_leaf_ok _ _ _ Pl), (page_leaf_ok _ _ _ Pr), (page_inner_ok _ _ _ Pp). pose proof (remove_back _ _ _ Hsort) as Erm.
  destruct (leaf_merge_spec rel ln rn pn pf s les sib head _ _ _ _ (l1 ++ l2) d Ol Op) as (d' & E & H1' & H2' & H3' & R); [done..|].
  exists d'. split_and!; [done| |done]. by eapply (restored_three d' ln rn pn).
Qed.

Lemma internal_merge_redo head rn old new r involved :
  (rn, old, new) ∈ prior -> detect_disk_btree_internal_merge rel rn old new prior head = Some (r, involved) ->
  right_sibling_of new = Some head -> NoDup (touched r) -> redo_ok r.
Proof.
  intros Hrn (pn & oldp & newp & ln & old_l & new_l & pf & s & l1 & l2 & lf & les & es1 & -> & _ & Hp & Hl & Ep & Ep' & El & El' & Er')%internal_merge_inv Hhead Hnd.
  destruct (prior_inner _ _ _ _ _ _ _ Hl El El') as (Il & Nl & Ol & Pl & _).
  destruct (prior_inner _ _ _ _ _ _ _ Hp Ep Ep') as (Ip & Np & Op & Pp & Hsort).
  destruct (ch_prior _ _ _ _ Hch _ _ _ Hrn) as (_ & _ & _ & Ir). destruct (ch_pages _ _ _ _ Hch _ _ Ir) as (Nr & Hnew & _).
  pose proof (parse_leaf_spec _ _ Hnew Er') as Pr. apply right_sibling_spec in Hhead. rewrite Hhead in Pr.
  destruct (page_inner_ok _ _ _ Pl), (page_leaf_ok _ _ _ Pr), (page_inner_ok _ _ _ Pp). pose proof (remove_back _ _ _ Hsort) as Erm.
  destruct (internal_merge_spec rel ln rn pn pf s lf les head _ _ _ _ (l1 ++ l2) d Ol Op) as (d' & E & H1' & H2' & H3' & R); [done..|].
  exists d'. split_and!; [done| |done]. by eapply (restored_three d' ln rn pn).
Qed.

Lemma collapse_redo head n old new r involved :
  (n, old, new) ∈ prior -> detect_disk_btree_internal_collapse rel n old new prior head = Some (r, involved) -> NoDup (touched r) -> redo_ok r.
Proof.
  intros Hin (pn & oldp & newp & slot & pf & rc & f & es & f' & es' & Hp & -> & Eo & En & Enx & Ep & Ep' & Hslot & Hpf & Hc)%collapse_inv Hnd.
  destruct (ch_prior _ _ _ _ Hch _ _ _ Hin) as (_ & Ho & _ & In). destruct (ch_pages _ _ _ _ Hch _ _ In) as (Nn & Hnew & _).
  destruct (prior_inner _ _ _ _ _ _ _ Hp Ep Ep') as (Ip & Np & Op & Pp & _). pose proof (parse_leaf_spec _ _ Hnew En) as Pn.
  apply right_sibling_spec in Enx. rewrite Enx in Pn. destruct (page_inner_ok _ _ _ (parse_internal_spec _ _ _ Ho Eo)) as [_ Hrc].
  destruct (page_leaf_ok _ _ _ Pn), (page_inner_ok _ _ _ Pp). assert (in_u64 pf) by (by destruct Hpf as [->| ->]).
  cbn [touched] in Hnd. apply NoDup_cons in Hnd as [Hne _]. rewrite list_elem_of_singleton in Hne.
  destruct (internal_collapse_spec rel pn slot pf rc n head f es d Op) as (d' & E & H1' & H2' & R); [done..|]. rewrite Hc in H1'.
  exists d'. split_and!; [done| |done]. by eapply restored_two.
Qed.

Lemma recognised_redo head r : recognised head r -> NoDup (touched r) -> redo_ok r.
Proof.
  intros [] Hnd; [by eapply leaf_split_redo|by eapply internal_split_redo|by eapply leaf_redistribute_redo|
    by eapply internal_redistribute_redo|by eapply leaf_merge_redo|by eapply internal_merge_redo|
    by eapply collapse_redo].
Qed.

End Structural.

(** [C13] Redo of structural changes.  Let the changed pages and the pages on disk hold bytes, and
    the nodes their entries in order.  When a split, redistribution or merge of leaves or of
    internal pages, or a collapse, is recognised between them, replaying its record on the
    directory succeeds, leaves in each page of the record what a reader sees in the changed
    page, and changes no other page.  The pages of the record are different; a page that a
    merge frees links to the head of the free list; and the left page of an internal split
    keeps its first child, which is asked of no other page. *)
Theorem structural_change_redone `{ExternalTypes} d rel pages prior head r :
  changes_of d rel pages prior -> recognised rel pages prior head r -> NoDup (touched r) ->
  exists d', replay_index_record r d = (Ok tt, d') /\
    (forall n, n ∈ touched r -> exists new, (n, new) ∈ pages /\ restored d' rel n new) /\ rewrote rel (touched r) d d'.
Proof. intros Hch Hr Hnd. by eapply recognised_redo. Qed.
