(* ===== verification/LogChains.v ===== *)
(** * Root changes and chains of collapses

    Redo of the records that give up a level of the tree or a chain of pages with a single
    child, and the bounds of the loops that look for such chains. *)

From S2P Require Import Prelude.
From S2P Require Import Bytes.
From S2P Require Import PageBytes.
From S2P Require Import PoolPage.
From S2P Require Import BTreePage.
From S2P Require Import Disk.
From S2P Require Import FileStore.
From S2P Require Import WalTypes.
From S2P Require Import IndexRedo.
From S2P Require Import RedoNodes.
From S2P Require Import IndexLog.
From S2P Require Import LogRedo.

(** ** Root changes *)

Lemma insert_sorted_elem n l x : x ∈ insert_sorted n l <-> x = n \/ x ∈ l.
Proof.
  induction l as [|m l IH]; cbn [insert_sorted]; [by rewrite list_elem_of_singleton, elem_of_nil; intuition|].
  destruct (n <? m) eqn:E1; [by rewrite elem_of_cons|]. destruct (n =? m) eqn:E2.
  - apply Z.eqb_eq in E2 as ->. rewrite elem_of_cons. intuition.
  - rewrite !elem_of_cons, IH. intuition.
Qed.

Lemma insert_sorted_sorted n l : StronglySorted Z.lt l -> StronglySorted Z.lt (insert_sorted n l).
Proof.
  induction l as [|m l IH]; intros Hs; cbn [insert_sorted]; [by repeat constructor|]. apply StronglySorted_inv in Hs as Hs'.
  destruct Hs' as [Hl Hm].
  destruct (n <? m) eqn:E1.
  - apply Z.ltb_lt in E1. constructor; [done|]. constructor; [done|]. eapply Forall_impl; [exact Hm|]. intros y Hy. cbn. lia.
  - destruct (n =? m) eqn:E2; [done|]. apply Z.ltb_ge in E1. apply Z.eqb_neq in E2. constructor; [by apply IH|].
    rewrite Forall_forall in Hm |- *. intros y [->|Hy]%insert_sorted_elem; [lia|by apply Hm].
Qed.

Lemma link_free_fst next l : map fst (link_free next l) = l.
Proof. revert next. induction l as [|n l IH]; intros next; cbn; [done|]. by rewrite IH. Qed.

Lemma link_free_snd next l n x : (n, x) ∈ link_free next l -> x = next \/ x ∈ l.
Proof.
  revert next. induction l as [|m l IH]; intros next Hin; cbn in Hin; [by apply not_elem_of_nil in Hin|].
  apply elem_of_cons in Hin as [[= -> ->]|Hin]; [by left|]. right. apply IH in Hin as [->|Hin]; [by left|by right].
Qed.

Lemma lt_sorted_nodup l : StronglySorted Z.lt l -> NoDup l.
Proof.
  induction 1 as [|x l Hl IH Hx]; constructor; [|done]. intros Hin. rewrite Forall_forall in Hx. specialize (Hx x Hin). lia.
Qed.

(** The freed pages: different pages below the page count, each with a link. *)
Lemma reclaimed_spec removed count head :
  NoDup (map fst (compute_reclaimed_pages removed count head)) /\
  forall n x, (n, x) ∈ compute_reclaimed_pages removed count head -> n ∈ removed /\ (x = head \/ x ∈ removed).
Proof.
  unfold compute_reclaimed_pages. set (kept := filter _ removed). rewrite link_free_fst.
  assert (Hs : StronglySorted Z.lt (foldr insert_sorted [] kept) /\ forall x, x ∈ foldr insert_sorted [] kept -> x ∈ kept).
  { clearbody kept. induction kept as [|n l [IHs IHe]]; cbn [foldr]; [split; [constructor|done]|].
    split; [by apply insert_sorted_sorted|].
    intros x [->|Hx]%insert_sorted_elem; [by left|right; auto]. }
  destruct Hs as [Hs He]. assert (Hin : forall x, x ∈ foldr insert_sorted [] kept -> x ∈ removed).
  { intros x Hx%He. by apply list_elem_of_filter in Hx as [_ Hx]. }
  split.
  - by apply lt_sorted_nodup.
  - intros n x Hx. split; [apply Hin; rewrite <- (link_free_fst head); by apply (list_elem_of_fmap_2 fst _ (n, x))|].
    apply link_free_snd in Hx as [->|Hx]; [by left|right; auto].
Qed.

Section RootChanges.
Context `{ExternalTypes}.
Variables (d : Disk) (rel : Z) (pages : list (Z * list Z)) (prior : list Change).
Hypothesis Hch : changes_of d rel pages prior.

(** The record of a root that lost a level: the new root has its contents, the pages given back
    are empty and linked, nothing else changes. *)
Definition shrink_ok (r : WalRecord) (c : RootChange) (freed : list (Z * Z)) : Prop :=
  exists d' new, replay_index_record r d = (Ok tt, d') /\ (new_root c, new) ∈ pages /\ restored d' rel (new_root c) new /\
    (forall n next, (n, next) ∈ freed -> holds d' rel n (NLeaf [] next)) /\ rewrote rel (new_root c :: map fst freed) d d'.

(** The page numbers a reclaimed list is made of. *)
Lemma reclaimed_ok removed count head :
  Forall page_no removed -> in_u64 head ->
  Forall (fun f => page_no (fst f) /\ in_u64 (snd f)) (compute_reclaimed_pages removed count head).
Proof.
  intros Hr Hh. rewrite Forall_forall in Hr. rewrite Forall_forall. intros [n x] Hx.
  destruct (proj2 (reclaimed_spec removed count head) _ _ Hx) as [Hn Hx'].
  split; [by apply Hr|]. cbn [snd]. destruct Hx' as [->|Hx']; [done|]. apply Hr in Hx'.
  unfold page_no, FILE_PAGES, in_u64, u64_max in *. lia.
Qed.

(** The pages the old root and its right child give back. *)
Lemma shrink_freed old_root new_root rp count head :
  Forall page_no [old_root; new_root; rp] -> NoDup [old_root; new_root; rp] -> in_u64 head ->
  let freed := compute_reclaimed_pages [old_root; rp] count head in
  Forall (fun f => page_no (fst f) /\ in_u64 (snd f)) freed /\ NoDup (new_root :: map fst freed) /\
  forall n, n ∈ map fst freed -> n ∈ [old_root; new_root; rp].
Proof.
  intros Hno Hnd Hh freed. apply Forall_cons in Hno as [No Hno]. apply Forall_cons in Hno as [_ Hno].
  apply Forall_cons in Hno as [Nr _].
  destruct (reclaimed_spec [old_root; rp] count head) as [Hnd' Hel]. fold freed in Hnd', Hel.
  assert (Hsub : forall n, n ∈ map fst freed -> n = old_root \/ n = rp).
  { intros n ([a b] & -> & Hx)%list_elem_of_fmap. apply Hel in Hx as [Hx _]. cbn [fst].
    apply elem_of_cons in Hx as [?|?%list_elem_of_singleton]; auto. }
  split_and!.
  - apply reclaimed_ok; [|done]. constructor; [done|]. constructor; [done|constructor].
  - constructor; [|done]. apply NoDup_cons in Hnd as [Ha Hb]. apply NoDup_cons in Hb as [Hb _].
    intros [Hx|Hx]%Hsub; [apply Ha; rewrite <- Hx; by left|apply Hb; rewrite Hx; by left].
  - intros n [->| ->]%Hsub; [by left|by right; right; left].
Qed.

Lemma root_shrink_leaf_redo head r involved :
  detect_disk_btree_root_shrink_leaf rel d prior head = Some (r, involved) -> Forall page_no involved -> NoDup involved -> in_u64 head ->
  exists c freed, root_change prior = Some c /\ shrink_ok r c freed /\ forall n, n ∈ map fst freed -> n ∈ involved.
Proof.
  unfold detect_disk_btree_root_shrink_leaf. intros Hd Hno Hnd Hh. apply bind_Some in Hd as (c & Ec & Hd).
  apply bind_Some in Hd as (count & _ & Hd). destruct (_ || _); [done|].
  apply bind_Some in Hd as (orp & _ & Hd). apply bind_Some in Hd as ([f es] & _ & Hd). destruct es as [|[sep rp] [|]]; try done.
  destruct (negb _); [done|]. apply bind_Some in Hd as (ol & _ & Hd). apply bind_Some in Hd as (orr & _ & Hd).
  apply bind_Some in Hd as (ole & _ & Hd).
  apply bind_Some in Hd as (ore & _ & Hd). apply bind_Some in Hd as (ors & _ & Hd).
  apply bind_Some in Hd as ([[m oldn] newn] & Ef & Hd).
  apply bind_Some in Hd as (nes & En & Hd). apply bind_Some in Hd as (ls & _ & Hd). destruct (negb _); [done|].
  apply bind_Some in Hd as (ns & Ens & Hd). destruct (ns =? ors) eqn:Es; [|done]. apply Z.eqb_eq in Es as ->. cbn [negb] in Hd.
  destruct (negb _); [done|].
  injection Hd as <- <-. apply find_change_spec in Ef as [-> Hin]. destruct (ch_prior _ _ _ _ Hch _ _ _ Hin) as (_ & _ & _ & Ip).
  destruct (ch_pages _ _ _ _ Hch _ _ Ip) as (Np & Hnew & _). pose proof (parse_leaf_spec _ _ Hnew En) as Pn.
  apply right_sibling_spec in Ens. rewrite Ens in Pn.
  destruct (page_leaf_ok _ _ _ Pn). destruct (shrink_freed _ _ _ count head Hno Hnd Hh) as (Hf & Hnd' & Hsub).
  destruct (root_shrink_leaf_spec rel (new_root c) nes ors _ d Np ltac:(done) ltac:(done) Hf Hnd') as (d' & E & H1' & H2' & R).
  eexists c, _. split_and!; [done| |exact Hsub]. exists d', newn. split_and!; try done. by eapply holds_restored.
Qed.

Lemma root_shrink_internal_redo head r involved :
  detect_disk_btree_root_shrink_internal rel d prior head = Some (r, involved) -> Forall page_no involved -> NoDup involved -> in_u64 head ->
  exists c freed, root_change prior = Some c /\ shrink_ok r c freed /\ forall n, n ∈ map fst freed -> n ∈ involved.
Proof.
  unfold detect_disk_btree_root_shrink_internal. intros Hd Hno Hnd Hh. apply bind_Some in Hd as (c & Ec & Hd).
  apply bind_Some in Hd as (count & _ & Hd). destruct (_ || _); [done|].
  apply bind_Some in Hd as (orp & _ & Hd). apply bind_Some in Hd as ([f es] & _ & Hd). destruct es as [|[sep rp] [|]]; try done.
  destruct (negb _); [done|]. apply bind_Some in Hd as (ol & _ & Hd). apply bind_Some in Hd as (orr & _ & Hd).
  apply bind_Some in Hd as ([olf ole] & _ & Hd).
  apply bind_Some in Hd as ([orf ore] & _ & Hd). apply bind_Some in Hd as ([[m oldn] newn] & Ef & Hd).
  apply bind_Some in Hd as ([nf nes] & En & Hd).
  destruct (negb _); [done|]. destruct (negb _); [done|].
  injection Hd as <- <-. apply find_change_spec in Ef as [-> Hin]. destruct (ch_prior _ _ _ _ Hch _ _ _ Hin) as (_ & _ & _ & Ip).
  destruct (ch_pages _ _ _ _ Hch _ _ Ip) as (Np & Hnew & _). pose proof (parse_internal_spec _ _ _ Hnew En) as Pn.
  destruct (page_inner_ok _ _ _ Pn). destruct (shrink_freed _ _ _ count head Hno Hnd Hh) as (Hf & Hnd' & Hsub).
  destruct (root_shrink_internal_spec rel (new_root c) nf nes _ d Np ltac:(done) ltac:(done) Hf Hnd') as (d' & E & H1' & H2' & R).
  eexists c, _. split_and!; [done| |exact Hsub]. exists d', newn. split_and!; try done. by eapply holds_restored.
Qed.

End RootChanges.

(** ** Chains of single children *)

Section Follow.
Variables (next : Z -> option Z) (target : Z).

(** The cases of one round. *)
Lemma follow_inv fuel c r :
  follow next target (S fuel) c = r ->
  next c = None /\ r = Some None \/
  next c = Some target /\ r = Some (Some [c]) \/
  exists x, next c = Some x /\ x <> target /\ r = match follow next target fuel x with
    | Some (Some l) => Some (Some (c :: l)) | Some None => Some None | None => None end.
Proof.
  cbn [follow]. destruct (next c) as [x|]; [|auto]. destruct (Z.eqb_spec x target) as [->|Hx]; [auto|]. intros <-. eauto 10.
Qed.

(** A chain that is found: its first page, and the pages with a child. *)
Lemma follow_head fuel c l : follow next target fuel c = Some (Some l) -> exists l', l = c :: l'.
Proof.
  destruct fuel; [done|]. intros [[_ [=]]|[[_ [= ->]]|(x & _ & _ & E)]]%follow_inv; [by exists []|].
  destruct (follow _ _ _ _) as [[l'|]|]; simplify_eq. by exists l'.
Qed.

Lemma follow_next fuel : forall c l x, follow next target fuel c = Some (Some l) -> x ∈ l -> is_Some (next x).
Proof.
  induction fuel as [|fuel IH]; intros c l x; [done|]. intros [[_ [=]]|[[Ec [= ->]]|(y & Ey & _ & E)]]%follow_inv Hx.
  - apply list_elem_of_singleton in Hx as ->. by rewrite Ec.
  - destruct (follow next target fuel y) as [[l'|]|] eqn:El; simplify_eq. apply elem_of_cons in Hx as [->|Hx]; [by rewrite Ey|by eapply IH].
Qed.

(** ** When the loop returns *)

(** [n] rounds down the chain. *)
Fixpoint runs (n : nat) (c : Z) : option (list Z) :=
  match n with
  | O => Some []
  | S n => x ← next c; l ← runs n x; Some (c :: l)
  end.

Lemma endless_runs fuel : forall c, follow next target fuel c = None -> exists l, runs fuel c = Some l /\ length l = fuel.
Proof.
  induction fuel as [|fuel IH]; intros c; [intros _; by exists []|].
  intros [[_ [=]]|[[_ [=]]|(x & Ex & _ & E)]]%follow_inv.
  destruct (follow next target fuel x) as [[?|]|] eqn:El; [done..|]. destruct (IH x El) as (l & Hr & Hl).
  exists (c :: l). cbn [runs]. rewrite Ex. cbn. rewrite Hr. cbn. by rewrite Hl.
Qed.

Definition child_of (x y : Z) : Prop := next x = Some y.

Lemma runs_below n : forall c l, runs n c = Some l -> Forall (fun y => y = c \/ tc child_of c y) l.
Proof.
  induction n as [|n IH]; intros c l; cbn [runs]; [intros [= <-]; constructor|].
  intros (x & Ex & (l' & El & [= <-])%bind_Some)%bind_Some. constructor; [by left|]. eapply Forall_impl; [by eapply IH|].
  cbv beta. intros y [->|Hy]; right; [by apply tc_once|by eapply tc_l].
Qed.

Lemma runs_nodup n : (forall x, ~ tc child_of x x) -> forall c l, runs n c = Some l -> NoDup l.
Proof.
  intros Hac. induction n as [|n IH]; intros c l; cbn [runs]; [intros [= <-]; constructor|].
  intros (x & Ex & (l' & El & [= <-])%bind_Some)%bind_Some. constructor; [|by eapply IH]. intros Hin.
  pose proof (runs_below _ _ _ El) as Hb. rewrite Forall_forall in Hb. apply (Hac c).
  destruct (Hb c Hin) as [->|Hy]; [by apply tc_once|by eapply tc_l].
Qed.

Lemma runs_dom n : forall c l y, runs n c = Some l -> y ∈ l -> is_Some (next y).
Proof.
  induction n as [|n IH]; intros c l y; cbn [runs]; [intros [= <-] Hy; by apply elem_of_nil in Hy|].
  intros (x & Ex & (l' & El & [= <-])%bind_Some)%bind_Some [->|Hy]%elem_of_cons; [by rewrite Ex|by eapply IH].
Qed.

(** Without a cycle the loop returns; more rounds than pages with a child are never needed. *)
Lemma follow_returns (dom : list Z) c :
  (forall x, is_Some (next x) -> x ∈ dom) -> (forall x, ~ tc child_of x x) -> is_Some (follow next target (S (length dom)) c).
Proof.
  intros Hdom Hac. destruct (follow next target (S (length dom)) c) as [r|] eqn:E; [by exists r|].
  destruct (endless_runs _ _ E) as (l & Hr & Hl). pose proof (runs_nodup _ Hac _ _ Hr) as Hnd. exfalso.
  enough (length l <= length dom)%nat by lia. apply submseteq_length, NoDup_submseteq; [done|].
  intros x Hx. apply Hdom. by eapply runs_dom.
Qed.

(** Out of that many rounds means out of any number. *)
Lemma follow_mono fuel fuel' c r : follow next target fuel c = Some r -> (fuel <= fuel')%nat -> follow next target fuel' c = Some r.
Proof.
  revert fuel' c r. induction fuel as [|fuel IH]; intros fuel' c r; [done|]. intros Hf Hle. destruct fuel' as [|fuel']; [lia|].
  apply follow_inv in Hf as [[E Hr]|[[E Hr]|(x & E & Hx & Hr)]]; cbn [follow]; rewrite E.
  - done.
  - by rewrite Z.eqb_refl.
  - rewrite (proj2 (Z.eqb_neq _ _) Hx). destruct (follow next target fuel x) as [r'|] eqn:El; [|done].
    by rewrite (IH fuel' x r' El) by lia.
Qed.

(** The page after [n] rounds. *)
Fixpoint walk (n : nat) (c : Z) : option Z :=
  match n with O => Some c | S n => x ← next c; walk n x end.

Lemma runs_walk n : forall c l i x, runs n c = Some l -> l !! i = Some x -> walk i c = Some x.
Proof.
  induction n as [|n IH]; intros c l i x; cbn [runs]; [by intros [= <-]|].
  intros (y & Ey & (l' & El & [= <-])%bind_Some)%bind_Some. destruct i as [|i]; [done|]. intros Hi. cbn [walk]. rewrite Ey. cbn. by eapply IH.
Qed.

Lemma follow_walk m : forall c, follow next target m c = None ->
  exists x, walk m c = Some x /\ forall n, follow next target (m + n) c = None <-> follow next target n x = None.
Proof.
  induction m as [|m IH]; intros c; [intros _; by exists c|].
  intros [[_ [=]]|[[_ [=]]|(y & Ey & Hy & E)]]%follow_inv.
  destruct (follow next target m y) as [[?|]|] eqn:El; [done..|]. destruct (IH y El) as (x & Hx & Hn). exists x. cbn [walk].
  rewrite Ey. split; [done|]. intros n. rewrite <- Hn. cbn [Nat.add follow]. rewrite Ey, (proj2 (Z.eqb_neq _ _) Hy).
  by destruct (follow next target (m + n) y) as [[?|]|].
Qed.

(** Back at a page it has met, the loop never returns. *)
Lemma walk_cycle i j c x :
  (i < j)%nat -> walk i c = Some x -> walk j c = Some x -> follow next target j c = None -> forall fuel, follow next target fuel c = None.
Proof.
  intros Hij Hi Hj Hend fuel.
  assert (Hless : forall k, (k <= j)%nat -> follow next target k c = None).
  { intros k Hk. destruct (follow next target k c) eqn:E; [|done]. by rewrite (follow_mono _ _ _ _ E Hk) in Hend. }
  destruct (follow_walk i c (Hless i ltac:(lia))) as (x1 & E1 & H1). destruct (follow_walk j c Hend) as (x2 & E2 & H2).
  assert (x1 = x) as -> by congruence. assert (x2 = x) as -> by congruence.
  induction fuel as [fuel IH] using lt_wf_ind. destruct (le_lt_dec fuel j) as [|Hlt]; [by apply Hless|].
  replace fuel with (j + (fuel - j))%nat by lia. apply H2, H1, IH. lia.
Qed.

(** Out of that many rounds means out of any number. *)
Lemma follow_endless (dom : list Z) c fuel :
  (forall x, is_Some (next x) -> x ∈ dom) -> follow next target (S (length dom)) c = None -> follow next target fuel c = None.
Proof.
  intros Hdom Hend. destruct (follow next target fuel c) as [r|] eqn:E; [exfalso|done].
  destruct (endless_runs _ _ Hend) as (l & Hr & Hl).
  assert (Hno : forall i j x, (i < j)%nat -> l !! i = Some x -> l !! j = Some x -> False).
  { intros i j x Hij Hi Hj. pose proof (lookup_lt_Some _ _ _ Hj) as Hlt.
    enough (follow next target fuel c = None) by congruence.
    apply (walk_cycle i j c x Hij (runs_walk _ _ _ _ _ Hr Hi) (runs_walk _ _ _ _ _ Hr Hj)).
    destruct (follow next target j c) eqn:Ej; [|done]. rewrite (follow_mono _ _ _ _ Ej) in Hend; [done|lia]. }
  enough (length l <= length dom)%nat by lia. apply submseteq_length, NoDup_submseteq.
  - apply NoDup_alt. intros i j x Hi Hj. destruct (Nat.lt_trichotomy i j) as [?|[?|?]]; [by exfalso; eapply (Hno i j)|done|by exfalso; eapply (Hno j i)].
  - intros x Hx. apply Hdom. by eapply runs_dom.
Qed.
End Follow.

(** ** The two loops *)

Lemma removed_dom prior x : is_Some (removed_child prior x) -> x ∈ map (fun c : Change => fst (fst c)) prior.
Proof.
  intros [y Hy]. unfold removed_child in Hy. apply bind_Some in Hy as ([[m old] new] & Hc & _).
  apply find_change_spec in Hc as [-> Hin]. by apply (list_elem_of_fmap_2 (fun c : Change => fst (fst c)) _ (x, old, new)).
Qed.

Lemma single_dom rel d x : is_Some (single_child rel d x) -> x ∈ seqZ 0 (rel_pages d rel).
Proof.
  intros [y Hy]. unfold single_child in Hy. apply bind_Some in Hy as (p & Hp & _). apply elem_of_seqZ.
  unfold page_image, read_relation_page_image in Hp.
  unfold rel_pages, data_of. destruct (now (file d (DataFile rel))) as [c|]; [|done]. cbn [default from_option id].
  unfold checked_mul64 in Hp. destruct (_ && _) eqn:E1 in Hp; [|done]. cbn [ok_or] in Hp. destruct (u64_max <? _); [done|].
  destruct (Z.of_nat (length c) <? _) eqn:E2; [done|].
  apply andb_true_iff in E1 as [E1 _]. apply Z.leb_le in E1. apply Z.ltb_ge in E2. unfold PAGE_SIZE in *. split; [lia|].
  enough (x + 1 <= Z.of_nat (length c) / 8192) by lia. apply Z.div_le_lower_bound; lia.
Qed.

(** Their bounds are enough: without a result there is none with any bound. *)
Lemma removed_chain_endless prior final first fuel :
  removed_chain prior final first = None -> follow (removed_child prior) final fuel first = None.
Proof.
  unfold removed_chain. rewrite <- (length_map (fun c : Change => fst (fst c)) prior). apply follow_endless. apply removed_dom.
Qed.

Lemma collapsed_chain_endless rel d new_root old_root fuel :
  collapsed_chain rel d new_root old_root = None -> follow (single_child rel d) new_root fuel old_root = None.
Proof. unfold collapsed_chain. rewrite <- (length_seqZ 0 (rel_pages d rel)). apply follow_endless. apply single_dom. Qed.

(** No cycle of internal pages with one child each. *)
Definition no_single_child_cycle (d : Disk) (rel : Z) : Prop := forall n, ~ tc (child_of (single_child rel d)) n n.

Lemma collapsed_chain_returns rel d new_root old_root :
  no_single_child_cycle d rel -> is_Some (collapsed_chain rel d new_root old_root).
Proof.
  intros Hac. unfold collapsed_chain. rewrite <- (length_seqZ 0 (rel_pages d rel)). apply follow_returns; [apply single_dom|done].
Qed.

(** ** Chains of collapses *)

(** Each step removes a page whose parent the next step removes. *)
Inductive chain_of : list Z -> list Step -> Prop :=
| chain_end c : chain_of [c] []
| chain_step c p rest s steps :
    step_removed s = c -> step_parent s = p -> chain_of (p :: rest) steps -> chain_of (c :: p :: rest) (s :: steps).

Lemma chain_of_app l c steps s : chain_of (l ++ [c]) steps -> step_removed s = c -> chain_of (l ++ [c; step_parent s]) (steps ++ [s]).
Proof.
  revert steps. induction l as [|x l IH]; intros steps Hc Hs; cbn [app] in *.
  - inversion Hc; subst. cbn [app]. by constructor; [..|constructor].
  - destruct l as [|y l]; cbn [app] in *; inversion Hc; subst; cbn [app]; constructor; try done; by apply IH.
Qed.

Lemma chain_parents l steps s : chain_of l steps -> s ∈ steps -> step_parent s ∈ tail l.
Proof.
  intros Hc. induction Hc as [c|c p rest s' steps Hr Hp Hc IH]; intros Hs; [by apply not_elem_of_nil in Hs|]. cbn [tail].
  apply elem_of_cons in Hs as [->|Hs]; [rewrite Hp; by left|]. right. by apply IH.
Qed.

(** The steps of a chain stay in their order. *)
Lemma order_chain l steps : chain_of l steps -> NoDup l -> order_internal_collapse_steps steps = steps.
Proof.
  unfold order_internal_collapse_steps. intros Hc. induction Hc as [c|c p rest s steps Hr Hp Hc IH]; intros Hnd; [done|].
  apply NoDup_cons in Hnd as [Hni Hnd]. cbn [length order_steps].
  set (P := fun s0 : Step => _). replace (list_find P (s :: steps)) with (Some (0%nat, s)).
  - change (s :: order_steps (length steps) steps = s :: steps). by rewrite (IH Hnd).
  - symmetry. apply list_find_Some. split_and!; [done| |by lia].
    unfold P. apply Is_true_true, negb_true_iff. apply not_true_iff_false. intros (s' & Hs' & He)%existsb_exists.
    apply Z.eqb_eq in He.
    apply Hni. rewrite <- Hr, <- He. apply list_elem_of_In in Hs'. apply elem_of_cons in Hs' as [->|Hs']; [rewrite Hp; by left|].
    right. by apply (chain_parents (p :: rest) steps).
Qed.

Lemma redo_each_snoc {T} (f : T -> Redo unit) l x d : redo_each f (l ++ [x]) d = (_ ← redo_each f l; f x) d.
Proof.
  revert d. induction l as [|y l IH]; intros d; cbn [app redo_each]; unfold mbind, redo_bind in *.
  - unfold mret, redo_ret. by destruct (f x d) as [[[]|e] d1].
  - destruct (f y d) as [[[]|e] d1]; [|done]. apply IH.
Qed.

Section Chains.
Variables (rel : Z) (prior : list Change).

Definition replay_step : Step -> Redo unit :=
  fun '(parent_page, parent_slot, parent_first_child, replacement_child, removed_page, next_free_page) =>
    apply_disk_btree_internal_collapse rel parent_page parent_slot parent_first_child replacement_child removed_page next_free_page.

Lemma chain_steps_redo final rest : forall c nf steps nf' d,
  chain_steps prior final nf (zip rest (c :: rest)) = Some (steps, nf') -> NoDup (c :: rest) -> Forall page_no (c :: rest) ->
  in_u64 nf -> in_u64 final -> (forall p, p ∈ rest -> exists f, in_u64 f /\ holds d rel p (NInner f [])) ->
  chain_of (c :: rest) steps /\ in_u64 nf' /\
  exists d', redo_each replay_step steps d = (Ok tt, d') /\
    (forall l x, c :: rest = l ++ [x] -> forall y, y ∈ l -> exists nx, holds d' rel y (NLeaf [] nx)) /\ rewrote rel (c :: rest) d d'.
Proof.
  induction rest as [|p rest IH]; intros c nf steps nf' d Hs Hnd Hno Hnf Hfin Hh.
  { cbn in Hs. injection Hs as <- <-. split_and!; [constructor|done|]. exists d. split_and!; [done| |apply rewrote_refl].
    intros [|y l] x Hl z Hz; [by apply not_elem_of_nil in Hz|]. by destruct l. }
  cbn [zip zip_with chain_steps] in Hs. apply bind_Some in Hs as ([[m oldp] newp] & Hf & Hs).
  apply bind_Some in Hs as ([pf pes] & Hp & Hs).
  destruct (negb _ || _) eqn:Eb; [done|]. apply orb_false_iff in Eb as [_ Eb]. apply negb_false_iff, Z.eqb_eq in Eb as ->.
  apply bind_Some in Hs as ([steps1 nf1] & Hs & Heq). injection Heq as <- <-.
  apply NoDup_cons in Hnd as [Hc Hnd]. apply Forall_cons in Hno as [Nc Hno].
  assert (Np : page_no p) by (by apply Forall_cons in Hno as [? _]).
  destruct (Hh p ltac:(by left)) as (f & Hfu & Hhp).
  destruct (internal_collapse_spec rel p 0 c final c nf f [] d Hhp) as (d1 & E1 & H1 & H2 & R1);
    [done|done|by intros ->; apply Hc; left|cbn; lia|unfold page_no, FILE_PAGES, in_u64, u64_max in *; lia|done|done|].
  destruct (IH p c steps1 nf1 d1 Hs Hnd Hno) as (Hch1 & Hnf1 & d2 & E2 & H3 & R2); [unfold page_no, FILE_PAGES, in_u64, u64_max in *; lia|done| |].
  { intros q Hq. destruct (Hh q ltac:(by right)) as (g & Hg & Hhq). exists g. split; [done|].
    apply (holds_rewrote _ _ _ _ _ _ Hhq R1).
    apply NoDup_cons in Hnd as [Hp' _]. intros [->|Hx%list_elem_of_singleton]%elem_of_cons; [done|]. subst q. apply Hc. by right. }
  split_and!; [by constructor|done|]. exists d2. split_and!.
  - cbn [redo_each]. rewrite (redo_bind_ok _ _ _ _ _ E1). exact E2.
  - intros [|y l] x Hl z Hz; [by apply not_elem_of_nil in Hz|]. cbn [app] in Hl. injection Hl as <- Hl.
    apply elem_of_cons in Hz as [->|Hz]; [|by eapply H3].
    exists nf. by apply (holds_rewrote _ _ _ _ _ _ H2 R2).
  - eapply rewrote_mono; [exact (rewrote_trans _ _ _ _ _ _ R1 R2)|]. intros x. rewrite !elem_of_app, !elem_of_cons.
    rewrite elem_of_nil. tauto.
Qed.
End Chains.

Lemma zip_extra {A B} (l : list A) (k k' : list B) : length l = length k -> zip l (k ++ k') = zip l k.
Proof. revert k. induction l as [|x l IH]; intros [|y k] Hl; cbn in *; try done. rewrite IH; [done|lia]. Qed.

(** The windows from the last to the first. *)
Lemma reverse_windows (l : list Z) : forall x : Z, reverse (zip (x :: l) l) = zip (tail (reverse (x :: l))) (reverse (x :: l)).
Proof.
  induction l as [|y l IH]; intros x; [done|]. change (zip (x :: y :: l) (y :: l)) with ((x, y) :: zip (y :: l) l).
  rewrite reverse_cons, IH, (reverse_cons (y :: l) x). set (R := reverse (y :: l)).
  assert (HR : R = reverse l ++ [y]) by apply reverse_cons.
  assert (Ht : length (tail R) = length (reverse l)) by (rewrite HR; destruct (reverse l); cbn; [done|rewrite length_app; cbn; lia]).
  replace (tail (R ++ [x])) with (tail R ++ [x]) by (rewrite HR; by destruct (reverse l)).
  set (T := tail R) in *. clearbody T R. subst R. rewrite <- app_assoc, (zip_extra T (reverse l) [y] Ht). by rewrite zip_with_app.
Qed.

Lemma changed_child_spec old : forall new idx found slot a b,
  changed_child old new idx found = Some (slot, a, b) -> length old = length new ->
  match found with
  | Some f => f = (slot, a, b) /\ old = new
  | None => exists i, slot = S (idx + i) /\ (i < length old)%nat /\ set_child i b old = new /\ exists s, new !! i = Some (s, b)
  end.
Proof.
  induction old as [|[os oc] old IH]; intros [|[ns nc] new] idx found slot a b Hs Hl; cbn [changed_child length] in *; try done.
  { destruct found; [|done]. by injection Hs as ->. }
  destruct (os =? ns) eqn:Es; [|done]. apply Z.eqb_eq in Es as ->. cbn [negb] in Hs. destruct (oc =? nc) eqn:Ec; cbn [negb] in Hs.
  - apply Z.eqb_eq in Ec as ->. pose proof (IH _ _ _ _ _ _ Hs ltac:(lia)) as H0. destruct found as [f|].
    + destruct H0 as [-> ->]. done.
    + destruct H0 as (i & -> & Hi & H1 & H2). exists (S i). split_and!; [lia|lia| |done]. unfold set_child in *. cbn. by rewrite H1.
  - destruct found; [done|]. pose proof (IH _ _ _ _ _ _ Hs ltac:(lia)) as [Heq ->]. injection Heq as <- <- <-. exists 0%nat.
    split_and!; [lia|lia|done|]. by exists ns.
Qed.

Section ChainRecord.
Context `{ExternalTypes}.
Variables (d : Disk) (rel : Z) (pages : list (Z * list Z)) (prior : list Change).
Hypothesis Hch : changes_of d rel pages prior.

Lemma removed_child_holds x y : removed_child prior x = Some y -> page_no x /\ in_u64 y /\ holds d rel x (NInner y []).
Proof.
  unfold removed_child. intros ([[m old] new] & Hf & Hs)%bind_Some. apply bind_Some in Hs as ([c es] & Hp & Hs).
  destruct es; [|by destruct (_ =? _)].
  cbn [no_entries negb orb] in Hs. destruct (c =? u64_max); [done|]. apply bind_Some in Hs as (fes & _ & Hs).
  destruct (negb _); [done|]. injection Hs as ->.
  apply find_change_spec in Hf as [-> Hin]. destruct (ch_prior _ _ _ _ Hch _ _ _ Hin) as (Ho & Hp' & _ & Hpg).
  destruct (ch_pages _ _ _ _ Hch _ _ Hpg) as (Nx & _).
  pose proof (parse_internal_spec _ _ _ Hp' Hp) as Hn. destruct (page_inner_ok _ _ _ Hn). split_and!; [done|done|]. by exists old.
Qed.

(** The slot of the parent that changes, and what it holds then. *)
Lemma chain_parent_slot f es f' es' slot first final :
  length es = length es' ->
  (if f =? f' then changed_child es es' 0 None else Some (0%nat, f, f')) = Some (slot, first, final) -> (f <> f' -> es = es') ->
  in_u64 f' -> entries_ok es' -> (slot <= length es)%nat /\ in_u64 final /\ collapsed f es slot f' final = NInner f' es'.
Proof.
  intros Hl Hs Hkept Hf' [Hu _]. destruct (f =? f') eqn:Ef.
  - apply Z.eqb_eq in Ef as ->. apply changed_child_spec in Hs as (i & -> & Hi & Hset & s & Hs); [|done].
    cbn [Nat.add collapsed]. rewrite Hset.
    split_and!; [lia| |by destruct (f' =? 0)]. rewrite Forall_lookup in Hu. apply (Hu _ _ Hs).
  - apply Z.eqb_neq in Ef. injection Hs as <- <- <-. cbn [collapsed]. rewrite (Hkept Ef). split_and!; [lia|done|done].
Qed.

Lemma chain_redo n old new head r involved :
  (n, old, new) ∈ prior -> detect_disk_btree_internal_collapse_chain_from_parent rel n old new prior head = Some (Some (r, involved)) ->
  NoDup involved -> in_u64 head ->
  (forall f es f' es', parse_disk_btree_internal_entries old = Some (f, es) -> parse_disk_btree_internal_entries new = Some (f', es') -> f <> f' -> es = es') ->
  exists d', replay_index_record r d = (Ok tt, d') /\ restored d' rel n new /\
    (forall m, m ∈ tail involved -> exists nx, holds d' rel m (NLeaf [] nx)) /\ rewrote rel involved d d'.
Proof.
  intros Hin Hd Hnd Hhead Hkept. unfold detect_disk_btree_internal_collapse_chain_from_parent in Hd.
  destruct (collapsed_slot old new) as [[[[slot first] final] f']|] eqn:Esl; [|done].
  destruct (removed_chain prior final first) as [[removed|]|] eqn:Er; [|done..]. injection Hd as Hd. unfold chain_record in Hd.
  unfold collapsed_slot in Esl.
  apply bind_Some in Esl as ([f es] & Eo & Esl). apply bind_Some in Esl as ([f0 es'] & En & Esl).
  destruct (length es =? length es')%nat eqn:El; [|done]. apply Nat.eqb_eq in El. cbn [negb] in Esl.
  apply bind_Some in Esl as ([[slot0 first0] final0] & Es & Esl). injection Esl as -> -> -> ->.
  destruct removed as [|r0 [|r1 later]]; [done|done|]. apply bind_Some in Hd as ([steps nf] & Ec & Hd).
  destruct (u32_max <? _); [done|]. injection Hd as <- <-.
  destruct (prior_inner _ _ _ _ Hch _ _ _ _ _ _ _ Hin Eo En) as (Ipg & Nn & Hho & Hnew & _).
  destruct (page_inner_ok _ _ _ Hnew) as [Hes' Hf'].
  destruct (chain_parent_slot _ _ _ _ _ _ _ El Es (Hkept _ _ _ _ Eo En) Hf' Hes') as (Hslot & Hfin & Hcol).
  rewrite reverse_windows in Ec. apply NoDup_cons in Hnd as [Hnn Hnd]. set (removed := r0 :: r1 :: later) in *.
  assert (Hrm : forall x, x ∈ removed -> page_no x /\ exists g, in_u64 g /\ holds d rel x (NInner g [])).
  { intros x Hx. destruct (follow_next _ _ _ _ _ _ Er Hx) as [y Hy]. apply removed_child_holds in Hy as (? & ? & ?). eauto. }
  destruct (reverse removed) as [|c rest] eqn:Erev; [by apply (f_equal length) in Erev; rewrite length_reverse in Erev|].
  cbn [tail] in Ec.
  assert (Hlast : c :: rest = reverse (r1 :: later) ++ [r0]) by (rewrite <- Erev; apply reverse_cons).
  assert (Hmem : forall x, x ∈ c :: rest <-> x ∈ removed) by (intros x; rewrite <- Erev; apply elem_of_reverse).
  assert (Hnd' : NoDup (c :: rest)) by (rewrite <- Erev; by rewrite reverse_Permutation).
  destruct (chain_steps_redo rel prior final rest c head steps nf d Ec) as (Hco & Hnf & d1 & E1 & Hleaf & R1); [done| |done|done| |].
  { apply Forall_forall. intros x Hx. apply Hrm. by apply Hmem. }
  { intros p Hp. apply Hrm. apply Hmem. by right. }
  pose proof (holds_rewrote _ _ _ _ _ _ Hho R1 ltac:(by rewrite Hmem)) as Hho1.
  destruct (internal_collapse_spec rel n slot f' final r0 nf f es d1 Hho1 Nn) as (d2 & E2 & H1 & H2 & R2);
    [apply Hrm; by left|by intros ->; apply Hnn; left|done..|]. rewrite Hcol in H1. exists d2. split_and!.
  - cbn [replay_index_record]. rewrite Hlast in Hco.
    pose proof (chain_of_app _ _ _ (n, Z.of_nat slot, f', final, r0, nf) Hco eq_refl) as Hfull.
    unfold apply_disk_btree_internal_collapse_chain. rewrite (order_chain _ _ Hfull).
    2: { cbn [step_parent]. change (reverse (r1 :: later) ++ [r0; n]) with (reverse (r1 :: later) ++ [r0] ++ [n]).
         rewrite app_assoc, <- Hlast.
      apply NoDup_app. split_and!; [done| |by apply NoDup_singleton]. intros x Hx ->%list_elem_of_singleton. apply Hnn.
      by apply Hmem. }
    rewrite redo_each_snoc. fold (replay_step rel). rewrite (redo_bind_ok _ _ _ _ _ E1). exact E2.
  - by eapply holds_restored.
  - cbn [tail]. intros m Hm. apply elem_of_cons in Hm as [->|Hm]; [by exists nf|].
    destruct (Hleaf _ _ Hlast m) as [nx Hx]; [by apply elem_of_reverse|]. exists nx. apply (holds_rewrote _ _ _ _ _ _ Hx R2).
    intros [->|Hr0%list_elem_of_singleton]%elem_of_cons; [apply Hnn; by right|]. subst m. apply NoDup_cons in Hnd as [Hnd _]. done.
  - eapply rewrote_mono; [exact (rewrote_trans _ _ _ _ _ _ R1 R2)|]. intros x.
    rewrite elem_of_app, Hmem, !elem_of_cons, elem_of_nil.
    unfold removed. rewrite !elem_of_cons. tauto.
Qed.
End ChainRecord.
