(* ===== verification/LogBatch.v ===== *)
(** * The records of a commit, replayed

    A commit whose records each change one page: the batches, patches and node changes
    that [IndexLog] builds, and the pages they leave. *)

From S2P Require Import Prelude.
From S2P Require Import Bytes.
From S2P Require Import PageBytes.
From S2P Require Import PoolPage.
From S2P Require Import BTreePage.
From S2P Require Import Disk.
From S2P Require Import FileStore.
From S2P Require Import WalTypes.
From S2P Require Import IndexRedo.
From S2P Require Import RedoNodes.
From S2P Require Import IndexLog.
From S2P Require Import LogRedo.
From S2P Require Import LogChains.

(** ** Changes of one page *)

Lemma page_image_spec d rel n : page_no n -> read_relation_page_image d rel n = Ok (page_on d (mkPageId rel n)).
Proof.
  intros Hn. pose proof page_size_range as Hps. destruct (number_mul n PAGE_SIZE Hn Hps) as [E1 E2].
  pose proof ps_pos as [Hps1 Hps2].
  unfold read_relation_page_image, page_on. cbn [relation_id page_number]. unfold rel_pages, data_of.
  destruct (now (file d (DataFile rel))) as [c|]; cbn [default from_option id].
  2: { rewrite decide_False; [done|]. unfold page_no, FILE_PAGES in Hn. cbn [length]. change (Z.of_nat 0 / PAGE_SIZE) with 0. lia. }
  rewrite E1. cbn [ok_or]. apply Z.leb_le in E2. unfold page_no, FILE_PAGES in Hn.
  rewrite (proj2 (Z.ltb_ge u64_max _)) by (unfold u64_max, PAGE_SIZE; lia).
  assert (Hiff : n < Z.of_nat (length c) / PAGE_SIZE <-> n * PAGE_SIZE + PAGE_SIZE <= Z.of_nat (length c)).
  { pose proof (Z.mul_div_le (Z.of_nat (length c)) PAGE_SIZE ltac:(lia)) as Hm. split; intros Hx; [nia|].
    enough (n + 1 <= Z.of_nat (length c) / PAGE_SIZE) by lia. apply Z.div_le_lower_bound; lia. }
  case_decide as Hlt.
  - rewrite (proj2 (Z.ltb_ge _ _)) by (apply Hiff; lia). rewrite (proj2 (Z.ltb_ge _ _)) by done.
    rewrite slice_chunk by (unfold PAGE_SIZE; lia). done.
  - rewrite (proj2 (Z.ltb_lt _ _)); [done|]. destruct (Z.lt_ge_cases (Z.of_nat (length c)) (n * PAGE_SIZE + PAGE_SIZE)); [done|].
    exfalso. apply Hlt. split; [lia|]. by apply Hiff.
Qed.

(** The relation's pages on disk hold bytes and entries in order. *)
Definition good_pages (d : Disk) (rel : Z) : Prop :=
  forall n p, page_on d (mkPageId rel n) = Some p -> is_page p /\ sorted_page p.

Definition good_changes (pages : list (Z * list Z)) : Prop :=
  NoDup (map fst pages) /\ Forall (fun x => page_no (fst x) /\ is_page (snd x) /\ sorted_page (snd x)) pages.

Lemma collect_prior_spec d rel pages :
  Forall (fun x => page_no (fst x) /\ is_page (snd x) /\ sorted_page (snd x)) pages ->
  exists prior, collect_prior_pages d rel pages = Ok prior /\
    forall n old new, (n, old, new) ∈ prior -> page_on d (mkPageId rel n) = Some old /\ (n, new) ∈ pages.
Proof.
  induction pages as [|[n p] pages IH]; intros Hp; cbn [collect_prior_pages].
  { exists []. split; [done|]. intros ? ? ? Hin. by apply not_elem_of_nil in Hin. }
  apply Forall_cons in Hp as [[Hn _] Hp]. cbn [fst] in Hn. rewrite page_image_spec by done. destruct (IH Hp) as (prior & -> & H).
  eexists. split; [done|]. intros m old new Hin. destruct (page_on d (mkPageId rel n)) as [o|] eqn:Eo.
  - apply elem_of_cons in Hin as [[= -> -> ->]|Hin]; [split; [done|by left]|]. destruct (H _ _ _ Hin). split; [done|by right].
  - destruct (H _ _ _ Hin). split; [done|by right].
Qed.

Lemma collect_changes d rel pages :
  good_pages d rel -> good_changes pages -> exists prior, collect_prior_pages d rel pages = Ok prior /\ changes_of d rel pages prior.
Proof.
  intros Hd [_ Hp]. destruct (collect_prior_spec d rel pages Hp) as (prior & E & H). exists prior. split; [done|]. split.
  - intros n old new Hin. destruct (H _ _ _ Hin) as [Ho Hi]. destruct (Hd _ _ Ho). done.
  - intros n new Hin. rewrite Forall_forall in Hp. exact (Hp _ Hin).
Qed.

Section OnePage.
Context `{ExternalTypes}.
Variable rel : Z.

(** Where the page is [old], the program makes it [new] and touches no other page. *)
Definition page_op (old : option (list Z)) (n : Z) (new : list Z) (op : Redo unit) : Prop :=
  forall d, (forall p, old = Some p -> page_on d (mkPageId rel n) = Some p) ->
    exists d', op d = (Ok tt, d') /\ restored d' rel n new /\ rewrote rel [n] d d'.

Lemma leaf_insert_redo n old new oes nes r k v :
  page_no n -> page_is old (NLeaf oes r) -> page_is new (NLeaf nes r) -> keys_sorted nes -> one_more oes nes (k, v) ->
  page_op (Some old) n new (apply_disk_btree_leaf_insert rel n k v).
Proof.
  intros Hn Ho Hnew Hs (l1 & l2 & -> & ->) d Hp. destruct (page_leaf_ok _ _ _ Hnew) as [Hok _].
  destruct (insert_back _ _ _ _ Hs) as [Ei _].
  destruct (leaf_insert_spec rel n k v (l1 ++ l2) r d) as (d' & E & Hh & R); [exists old; auto|done|by rewrite Ei|].
  rewrite Ei in Hh. exists d'. split_and!; [done|by eapply holds_restored|done].
Qed.

Lemma leaf_delete_redo n old new oes nes r k v :
  page_no n -> page_is old (NLeaf oes r) -> page_is new (NLeaf nes r) -> keys_sorted oes -> one_more nes oes (k, v) ->
  page_op (Some old) n new (apply_disk_btree_leaf_delete rel n k v).
Proof.
  intros Hn Ho Hnew Hs (l1 & l2 & -> & ->) d Hp. destruct (page_leaf_ok _ _ _ Hnew) as [Hok _].
  pose proof (remove_back _ _ _ Hs) as Er.
  destruct (leaf_delete_spec rel n k v _ _ r d (ex_intro _ old (conj (Hp _ eq_refl) Ho)) Hn Er Hok) as (d' & E & Hh & R).
  exists d'. split_and!; [done|by eapply holds_restored|done].
Qed.

Lemma internal_insert_redo n old new oes nes f s c :
  page_no n -> page_is old (NInner f oes) -> page_is new (NInner f nes) -> keys_sorted nes -> one_more oes nes (s, c) ->
  page_op (Some old) n new (apply_disk_btree_internal_insert rel n s c).
Proof.
  intros Hn Ho Hnew Hs (l1 & l2 & -> & ->) d Hp. destruct (page_inner_ok _ _ _ Hnew) as [Hok _].
  destruct (insert_back _ _ _ _ Hs) as [_ Ei].
  destruct (internal_insert_spec rel n s c f (l1 ++ l2) d) as (d' & E & Hh & R); [exists old; auto|done|by rewrite Ei|].
  rewrite Ei in Hh. exists d'. split_and!; [done|by eapply holds_restored|done].
Qed.

Lemma internal_delete_redo n old new oes nes f s c :
  page_no n -> page_is old (NInner f oes) -> page_is new (NInner f nes) -> keys_sorted oes -> one_more nes oes (s, c) ->
  page_op (Some old) n new (apply_disk_btree_internal_delete rel n s c).
Proof.
  intros Hn Ho Hnew Hs (l1 & l2 & -> & ->) d Hp. destruct (page_inner_ok _ _ _ Hnew) as [Hok _].
  pose proof (remove_back _ _ _ Hs) as Er.
  destruct (internal_delete_spec rel n s c f _ _ d (ex_intro _ old (conj (Hp _ eq_refl) Ho)) Hn Er Hok) as (d' & E & Hh & R).
  exists d'. split_and!; [done|by eapply holds_restored|done].
Qed.

Lemma internal_change_redo n old new r :
  page_no n -> is_page old -> is_page new -> sorted_page old -> sorted_page new ->
  match detect_disk_btree_internal_insert rel n old new with Some r => Some r | None => detect_disk_btree_internal_delete rel n old new end = Some r ->
  page_op (Some old) n new (replay_index_record r).
Proof.
  intros Hn Ho Hnew Hso Hsn. destruct (detect_disk_btree_internal_insert rel n old new) as [r'|] eqn:Ei; intros Hr.
  - injection Hr as <-. unfold detect_disk_btree_internal_insert in Ei. opt_inv Ei. norm_bools. subst. injection Ei as <-.
    match goal with Hx : extract_single_insert _ _ = _ |- _ => apply extract_single_insert_spec in Hx as Hom end.
    repeat match goal with Hx : parse_disk_btree_internal_entries _ = _ |- _ => apply parse_internal_spec in Hx; [|done] end.
    eapply internal_insert_redo; try done.
    match goal with Hx : page_is new (NInner _ ?es) |- keys_sorted ?es => exact (Hsn _ Hx) end.
  - clear Ei. unfold detect_disk_btree_internal_delete in Hr. opt_inv Hr. norm_bools. subst. injection Hr as <-.
    match goal with Hx : extract_single_delete _ _ = _ |- _ => apply extract_single_delete_spec in Hx as Hom end.
    repeat match goal with Hx : parse_disk_btree_internal_entries _ = _ |- _ => apply parse_internal_spec in Hx; [|done] end.
    eapply internal_delete_redo; try done.
    match goal with Hx : page_is old (NInner _ ?es) |- keys_sorted ?es => exact (Hso _ Hx) end.
Qed.

(** [meta_is] of any page with the magic. *)
Lemma meta_fields p : is_page p -> slice p 0 8 = META_MAGIC ->
  meta_is p {| meta_root := field p META_ROOT_OFFSET 8; meta_height := field p META_HEIGHT_OFFSET 4;
               meta_count := field p META_PAGE_COUNT_OFFSET 8; meta_head := field p META_FREE_LIST_OFFSET 8 |}.
Proof. intros. by split_and!. Qed.

Lemma in_u32_field p off : is_page p -> 0 <= off -> off + 4 <= PAGE_SIZE -> in_u32 (field p off 4).
Proof. intros [Hl Hb] Ho Hs. pose proof (field_bound p off 4 Hl Hb Ho ltac:(lia) Hs). unfold in_u32, u32_max. lia. Qed.

Lemma meta_redo old new :
  is_page old -> is_page new -> slice old 0 8 = META_MAGIC -> slice new 0 8 = META_MAGIC ->
  page_op (Some old) 0 new (apply_disk_btree_meta_update rel (field new META_ROOT_OFFSET 8) (field new META_HEIGHT_OFFSET 4)
                              (field new META_PAGE_COUNT_OFFSET 8) (field new META_FREE_LIST_OFFSET 8)).
Proof.
  intros Ho Hn Hmo Hmn d Hp. pose proof (meta_fields new Hn Hmn) as Hm.
  destruct (meta_update_spec rel _ {| meta_root := field new META_ROOT_OFFSET 8; meta_height := field new META_HEIGHT_OFFSET 4;
      meta_count := field new META_PAGE_COUNT_OFFSET 8; meta_head := field new META_FREE_LIST_OFFSET 8 |} d
      (ex_intro _ old (conj (Hp _ eq_refl) (meta_fields old Ho Hmo)))) as (d' & E & (p & Hp' & Hm') & R).
  { split_and!; by first [apply in_u64_field|apply in_u32_field]. }
  exists d'. split_and!; [done| |done]. exists p. split; [done|]. right. right. by eexists.
Qed.

Lemma specialized_redo n old new r :
  page_no n -> is_page old -> is_page new -> sorted_page old -> sorted_page new ->
  build_specialized_disk_btree_record rel n old new = Some r -> page_op (Some old) n new (replay_index_record r).
Proof.
  intros Hn Ho Hnew Hso Hsn. unfold build_specialized_disk_btree_record. destruct (_ || _); [done|]. destruct (n =? 0) eqn:En.
  { apply Z.eqb_eq in En as ->. destruct (_ || _) eqn:Em; [done|]. apply orb_false_iff in Em as [Em1 Em2].
    apply negb_false_iff in Em1, Em2.
    apply bool_decide_eq_true in Em1, Em2. intros Hr. unfold read_disk_btree_u64, read_disk_btree_u32 in Hr. opt_inv Hr.
    repeat match goal with Hx : (if _ then _ else _) = Some _ |- _ => opt_inv Hx; injection Hx as <- end. injection Hr as <-.
    by apply meta_redo. }
  destruct (parse_disk_btree_leaf_entries old) as [oes|] eqn:Eo; [|by apply internal_change_redo].
  destruct (parse_disk_btree_leaf_entries new) as [nes|] eqn:Enw; [|by apply internal_change_redo].
  intros (os & Eos & (ns & Ens & Hr)%bind_Some)%bind_Some. destruct (os =? ns) eqn:Es; [|done]. apply Z.eqb_eq in Es as ->.
  cbn [negb] in Hr.
  apply parse_leaf_spec in Eo, Enw; [|done..]. apply right_sibling_spec in Eos, Ens. rewrite Eos in Eo. rewrite Ens in Enw.
  destruct (extract_single_insert oes nes) as [[k v]|] eqn:Ei.
  { injection Hr as <-. eapply leaf_insert_redo; [done|exact Eo|exact Enw|exact (Hsn _ Enw)|by apply extract_single_insert_spec]. }
  destruct (extract_single_delete oes nes) as [[k v]|] eqn:Ed; [|by apply internal_change_redo].
  injection Hr as <-. eapply leaf_delete_redo; [done|exact Eo|exact Enw|exact (Hso _ Eo)|by apply extract_single_delete_spec].
Qed.

Lemma page_op_any old n new op : page_op None n new op -> page_op old n new op.
Proof. intros Hop d _. by apply Hop. Qed.

Lemma patch_redo n old new segs :
  page_no n -> is_page new -> apply_segments old segs = Ok new -> page_op (Some old) n new (apply_disk_index_page_patch rel n segs).
Proof.
  intros Hn Hnew Ea d Hp. destruct (full_page_image_spec rel n new d Hnew Hn) as (d' & E & W). exists d'. split_and!.
  - unfold apply_disk_index_page_patch. rewrite (read_page_ok _ _ _ _ _ (Hp _ eq_refl) Hn). by rewrite (redo_try_ok _ _ _ _ Ea).
  - exists new. split; [exact (proj1 W)|by left].
  - by eapply wrote_rewrote.
Qed.

Lemma whole_redo n new : page_no n -> is_page new -> page_op None n new (apply_disk_index_full_page_image rel n new).
Proof.
  intros Hn Hnew d _. destruct (full_page_image_spec rel n new d Hnew Hn) as (d' & E & W). exists d'.
  split_and!; [done| |by eapply wrote_rewrote].
  exists new. split; [exact (proj1 W)|by left].
Qed.

Lemma root_grow_redo n new r :
  page_no n -> is_page new -> detect_disk_btree_root_grow rel n new = Some r -> page_op None n new (replay_index_record r).
Proof.
  intros Hn Hnew Hr d _. apply bind_Some in Hr as ([f es] & Ep & Hr). destruct es as [|[s c] [|]]; try done. injection Hr as <-.
  apply parse_internal_spec in Ep; [|done]. destruct (page_inner_ok _ _ _ Ep) as [[Hu _] Hf].
  apply Forall_cons in Hu as [[Hs Hc] _].
  destruct (root_grow_spec rel n f s c d) as (d' & E & Hh & R); [done..|]. exists d'.
  split_and!; [done|by eapply holds_restored|done].
Qed.

(** Records of one page. *)
Definition page_local (r : WalRecord) : bool :=
  match r with
  | DiskBtreeMetaUpdate _ _ _ _ _ | DiskBtreeLeafInsert _ _ _ _ | DiskBtreeLeafDelete _ _ _ _ | DiskBtreeInternalInsert _ _ _ _
  | DiskBtreeInternalDelete _ _ _ _ | DiskBtreeRootGrow _ _ _ _ _ | PageSetU64Batch _ _ | PagePatchBatch _ _ | FullPageImageBatch _ _ => true
  | _ => false
  end.

Definition replay_change (c : PageChange) : Redo unit :=
  match c with
  | Logged r => replay_index_record r
  | SetU64 (n, offset, value) => apply_disk_index_u64_update rel n offset value
  | Patched (n, segments) => apply_disk_index_page_patch rel n segments
  | Whole (n, page_data) => apply_disk_index_full_page_image rel n page_data
  | Unchanged => mret tt
  end.

Lemma split_or_whole_redo n new prior is_new old :
  page_no n -> is_page new -> (forall r, split_or_whole rel n new prior is_new = Logged r -> page_local r = true) ->
  page_op old n new (replay_change (split_or_whole rel n new prior is_new)).
Proof.
  intros Hn Hnew Hl. apply page_op_any. unfold split_or_whole in *.
  destruct (detect_disk_btree_leaf_split _ _ _ _) as [r|] eqn:E1.
  { exfalso. specialize (Hl r eq_refl). apply leaf_split_inv in E1 as (?&?&?&?&?&?&?&?&_&->&_). done. }
  destruct (detect_disk_btree_internal_split _ _ _ _) as [r|] eqn:E2.
  { exfalso. specialize (Hl r eq_refl). apply internal_split_inv in E2 as (?&?&?&?&?&?&?&?&?&?&_&->&_). done. }
  destruct is_new; [destruct (detect_disk_btree_root_grow _ _ _) as [r|] eqn:E3|]; cbn [replay_change].
  - by apply root_grow_redo.
  - by apply whole_redo.
  - by apply whole_redo.
Qed.

Lemma page_change_redo n new old prior :
  page_no n -> is_page new -> sorted_page new -> (forall p, old = Some p -> is_page p /\ sorted_page p) ->
  (forall r, page_change rel n new old prior = Logged r -> page_local r = true) ->
  page_op old n new (replay_change (page_change rel n new old prior)).
Proof.
  intros Hn Hnew Hsn Hold Hl. unfold page_change in *. destruct old as [old|]; [|by apply split_or_whole_redo].
  destruct (Hold old eq_refl) as [Ho Hso]. destruct (build_specialized_disk_btree_record rel n old new) as [r|] eqn:Es.
  { by apply specialized_redo. }
  destruct (build_compact_page_patch old new) as [segs|] eqn:Ep.
  - pose proof (compact_patch_apply _ _ _ (is_page_len _ Ho) Ep) as Ea.
    destruct (extract_compact_u64_update segs) as [[off v]|] eqn:Eu; cbn [replay_change].
    + apply compact_u64 in Eu as ->; [|eapply compact_patch_bytes; [apply Hnew|exact Ep]]. by apply patch_redo.
    + by apply patch_redo.
  - case_bool_decide as Eq; [|by apply split_or_whole_redo]. subst old. intros d Hp. exists d.
    split_and!; [done| |apply rewrote_refl].
    exists new. split; [by apply Hp|by left].
Qed.

(** Changes of different pages, one after another. *)
Lemma page_ops_redo {T} (num : T -> Z) (new : T -> list Z) (op : T -> Redo unit) (d0 : Disk) l : forall d,
  NoDup (map num l) -> (forall x, x ∈ l -> page_op (page_on d0 (mkPageId rel (num x))) (num x) (new x) (op x)) ->
  (forall x p, x ∈ l -> page_on d0 (mkPageId rel (num x)) = Some p -> page_on d (mkPageId rel (num x)) = Some p) ->
  exists d', redo_each op l d = (Ok tt, d') /\ (forall x, x ∈ l -> restored d' rel (num x) (new x)) /\ rewrote rel (map num l) d d'.
Proof.
  induction l as [|x l IH]; intros d Hnd Hop Hd; cbn [map] in *.
  { exists d. split_and!; [done| |apply rewrote_refl]. intros x Hx. by apply not_elem_of_nil in Hx. }
  apply NoDup_cons in Hnd as [Hx Hnd]. destruct (Hop x ltac:(by left) d) as (d1 & E1 & R1 & W1); [intros p; apply Hd; by left|].
  destruct (IH d1 Hnd) as (d2 & E2 & R2 & W2).
  { intros y Hy. apply Hop. by right. }
  { intros y p Hy Hp. apply W1; [|by apply Hd; [right|]]. cbn. intros [_ Hyx%list_elem_of_singleton]. apply Hx. rewrite <- Hyx.
    by apply list_elem_of_fmap_2. }
  exists d2. split_and!.
  - cbn [redo_each]. by rewrite (redo_bind_ok _ _ _ _ _ E1).
  - intros y Hy. apply elem_of_cons in Hy as [->|Hy]; [|by apply R2]. by eapply restored_rewrote.
  - by apply (rewrote_trans _ [num x] _ d d1).
Qed.

(** ** The order of replay *)

Lemma redo_each_app {T} (f : T -> Redo unit) l1 l2 d : redo_each f (l1 ++ l2) d = (_ ← redo_each f l1; redo_each f l2) d.
Proof.
  revert d. induction l1 as [|x l1 IH]; intros d; [done|]. cbn [app redo_each]. unfold mbind, redo_bind in *.
  destruct (f x d) as [[[]|e] d1]; [|done]. apply IH.
Qed.

Lemma redo_each_ext {T} (f g : T -> Redo unit) l d : (forall x d, x ∈ l -> f x d = g x d) -> redo_each f l d = redo_each g l d.
Proof.
  revert d. induction l as [|x l IH]; intros d Hfg; [done|]. cbn [redo_each]. unfold mbind, redo_bind. rewrite Hfg by (by left).
  destruct (g x d) as [[[]|e] d1]; [|done]. apply IH. intros y d2 Hy. apply Hfg. by right.
Qed.

Lemma redo_each_map {T U} (f : U -> Redo unit) (g : T -> U) l d : redo_each f (map g l) d = redo_each (fun x => f (g x)) l d.
Proof.
  revert d. induction l as [|x l IH]; intros d; [done|]. cbn [map redo_each]. unfold mbind, redo_bind.
  destruct (f (g x) d) as [[[]|e] d1]; [|done]. apply IH.
Qed.

Lemma redo_each_concat {T} (f : T -> Redo unit) ls d : redo_each (redo_each f) ls d = redo_each f (concat ls) d.
Proof.
  revert d. induction ls as [|l ls IH]; intros d; [done|]. cbn [concat]. rewrite redo_each_app. cbn [redo_each].
  unfold mbind, redo_bind.
  destruct (redo_each f l d) as [[[]|e] d1]; [|done]. apply IH.
Qed.

Lemma redo_each_app_cong {T U} (f : T -> Redo unit) (g : U -> Redo unit) l1 l2 m1 m2 :
  (forall d, redo_each f l1 d = redo_each g m1 d) -> (forall d, redo_each f l2 d = redo_each g m2 d) ->
  forall d, redo_each f (l1 ++ l2) d = redo_each g (m1 ++ m2) d.
Proof. intros H1 H2 d. rewrite !redo_each_app. unfold mbind, redo_bind. rewrite H1. destruct (redo_each g m1 d) as [[[]|e] d1]; [|done]. apply H2. Qed.

(** Nothing is lost or moved in the batches. *)
Lemma batches_concat {T} (size : T -> Z) items : forall current bytes, concat (batches size items current bytes) = current ++ items.
Proof.
  induction items as [|x items IH]; intros current bytes; cbn [batches].
  - destruct current; cbn [nonempty concat]; by rewrite ?app_nil_r.
  - destruct (_ && _); [cbn [concat]; by rewrite IH|]. by rewrite IH, <- app_assoc.
Qed.

Lemma batch_replay {T} (mk : list T -> WalRecord) (op : T -> Redo unit) (size : T -> Z) l d :
  (forall b d, replay_index_record (mk b) d = redo_each op b d) ->
  redo_each replay_index_record (map mk (batches size l [] 0)) d = redo_each op l d.
Proof.
  intros Hmk. rewrite redo_each_map. rewrite (redo_each_ext _ (redo_each op)) by auto. by rewrite redo_each_concat, batches_concat.
Qed.

Hypothesis Hrel : is_disk_index_relation_id rel = true.

(** The changes in the order of the records. *)
Definition in_order (cs : list PageChange) : list PageChange :=
  map Logged (logged cs) ++ map SetU64 (u64_updates cs) ++ map Patched (page_patches cs) ++ map Whole (full_pages cs).

Lemma replay_in_order cs : forall d,
  replay_index_records (logged cs ++ build_page_set_u64_batch_records rel (u64_updates cs) ++
    build_page_patch_batch_records rel (page_patches cs) ++ build_full_page_image_batch_records rel (full_pages cs)) d
  = redo_each replay_change (in_order cs) d.
Proof.
  unfold replay_index_records, in_order. repeat apply redo_each_app_cong; intros d; rewrite redo_each_map.
  - by apply redo_each_ext.
  - apply batch_replay. intros b d0. cbn [replay_index_record]. rewrite Hrel. apply redo_each_ext. by intros [[? ?] ?].
  - apply batch_replay. intros b d0. cbn [replay_index_record]. rewrite Hrel. apply redo_each_ext. by intros [? ?].
  - apply batch_replay. intros b d0. cbn [replay_index_record]. rewrite Hrel. apply redo_each_ext. by intros [? ?].
Qed.

Definition kind_no (c : PageChange) : nat :=
  match c with Logged _ => 0 | SetU64 _ => 1 | Patched _ => 2 | Whole _ => 3 | Unchanged => 4 end.

Section Order.
Context {T : Type} (chg : T -> PageChange).

Definition of_kind (k : nat) (l : list T) : list T := filter (fun x => kind_no (chg x) = k) l.

Lemma of_kind_map {B} (g : B -> PageChange) (sel : PageChange -> option B) k l :
  (forall c, kind_no c = k -> g <$> sel c = Some c) -> (forall c, kind_no c <> k -> sel c = None) ->
  map g (omap sel (map chg l)) = map chg (of_kind k l).
Proof.
  intros H1 H2. unfold of_kind. induction l as [|x l IH]; [done|]. rewrite filter_cons. cbn [map]. cbn. case_decide as Hk.
  - specialize (H1 _ Hk). destruct (sel (chg x)) as [b|]; [|done]. cbn in H1. injection H1 as H1. cbn [map]. by rewrite IH, H1.
  - rewrite (H2 _ Hk). exact IH.
Qed.

Lemma in_order_kinds l : in_order (map chg l) = map chg (of_kind 0 l ++ of_kind 1 l ++ of_kind 2 l ++ of_kind 3 l).
Proof.
  unfold in_order, logged, u64_updates, page_patches, full_pages. rewrite !map_app.
  by repeat (f_equal; [apply of_kind_map; by intros []|]); apply of_kind_map; intros [].
Qed.

Lemma of_kind_cons k x l : of_kind k (x :: l) = if decide (kind_no (chg x) = k) then x :: of_kind k l else of_kind k l.
Proof. unfold of_kind. by rewrite filter_cons. Qed.

Lemma kinds_perm l : of_kind 0 l ++ of_kind 1 l ++ of_kind 2 l ++ of_kind 3 l ++ of_kind 4 l ≡ₚ l.
Proof.
  induction l as [|x l IH]; [done|].
  transitivity (x :: (of_kind 0 l ++ of_kind 1 l ++ of_kind 2 l ++ of_kind 3 l ++ of_kind 4 l)); [|by rewrite IH].
  rewrite !of_kind_cons.
  destruct (chg x); cbn [kind_no]; repeat (first [rewrite decide_True by done|rewrite decide_False by done]); cbn [app];
    by rewrite <- ?Permutation_middle.
Qed.
End Order.

End OnePage.

(** ** Commits without structural records *)

Section Commit.
Context `{ExternalTypes}.
Variables (d : Disk) (rel : Z).
Hypothesis Hrel : is_disk_index_relation_id rel = true.

Lemma root_record_kind changed prior head r involved : root_record d rel changed prior head = Some (Some (r, involved)) -> page_local r = false.
Proof.
  unfold root_record. destruct (negb _); [done|].
  destruct (detect_disk_btree_root_shrink_leaf rel d prior head) as [[r1 i1]|] eqn:E1.
  { intros [= <- <-]. unfold detect_disk_btree_root_shrink_leaf in E1. opt_inv E1. by injection E1 as <- _. }
  destruct (detect_disk_btree_root_shrink_internal rel d prior head) as [[r2 i2]|] eqn:E2.
  { intros [= <- <-]. unfold detect_disk_btree_root_shrink_internal in E2. opt_inv E2. by injection E2 as <- _. }
  destruct (detect_disk_btree_root_promote_single_child rel d prior head) as [[r3 i3]|] eqn:E3.
  { intros [= <- <-]. unfold detect_disk_btree_root_promote_single_child in E3. opt_inv E3. by injection E3 as <- _. }
  unfold detect_disk_btree_root_promote_collapsed_chain. repeat case_match; try done. by intros [= <- _].
Qed.

Lemma collapse_chain_kind n old new prior head r involved :
  detect_disk_btree_internal_collapse_chain_from_parent rel n old new prior head = Some (Some (r, involved)) -> page_local r = false.
Proof.
  unfold detect_disk_btree_internal_collapse_chain_from_parent, chain_record. intros Hd.
  destruct (collapsed_slot old new) as [[[[slot fr] fin] f2]|]; [|done]. destruct (removed_chain prior fin fr) as [[rp|]|]; [|done..].
  injection Hd as Hd. destruct rp as [|? [|? ?]]; try done.
  apply bind_Some in Hd as ([steps nf] & _ & Hd). destruct (u32_max <? _); [done|]. by injection Hd as <- _.
Qed.

Lemma accept_Some changed (b : Batch) o r involved : accept changed b o = Some (r, involved) -> o = Some (r, involved).
Proof. unfold accept. intros Hd. opt_inv Hd. congruence. Qed.

(** The records are structural, and without records no page is consumed. *)
Definition structural_batch (b : Batch) : Prop :=
  Forall (fun r => page_local r = false) (records b) /\ (records b = [] -> consumed_pages b = []).

Lemma take_record_structural b r involved : structural_batch b -> page_local r = false -> structural_batch (take_record b (r, involved)).
Proof.
  intros [Hb _] Hr. split; [apply Forall_app; split; [done|by constructor]|]. cbn [take_record records fst snd].
  by destruct (records b).
Qed.

Lemma structural_step_structural changed prior head b c b' :
  structural_batch b -> structural_step rel changed prior head b c = Some b' -> structural_batch b'.
Proof.
  intros Hb. destruct c as [[n old] new]. unfold structural_step. destruct (mem _ _); [by intros [= <-]|].
  destruct (accept _ _ (detect_disk_btree_leaf_redistribute _ _ _ _ _)) as [[r involved]|] eqn:E.
  { intros [= <-]. apply accept_Some, leaf_redistribute_inv in E as (?&?&?&?&?&?&?&?&?&?&?&?&?&?&?&?&->&_). by apply take_record_structural. }
  destruct (accept _ _ (detect_disk_btree_leaf_merge _ _ _ _ _ _)) as [[r involved]|] eqn:E1.
  { intros [= <-]. apply accept_Some, leaf_merge_inv in E1 as (?&?&?&?&?&?&?&?&?&?&?&?&?&->&_). by apply take_record_structural. }
  destruct (accept _ _ (detect_disk_btree_internal_merge _ _ _ _ _ _)) as [[r involved]|] eqn:E2.
  { intros [= <-]. apply accept_Some, internal_merge_inv in E2 as (?&?&?&?&?&?&?&?&?&?&?&?&?&->&_). by apply take_record_structural. }
  intros (chain & Ec & Hs)%bind_Some. destruct (accept changed b chain) as [[r involved]|] eqn:E3.
  { injection Hs as <-. apply accept_Some in E3 as ->. apply collapse_chain_kind in Ec. by apply take_record_structural. }
  destruct (accept _ _ (detect_disk_btree_internal_collapse _ _ _ _ _ _)) as [[r involved]|].
  { injection Hs as <-. unfold take_collapse. by destruct r. }
  destruct (accept _ _ (detect_disk_btree_internal_redistribute _ _ _ _ _)) as [[r involved]|] eqn:E5; injection Hs as <-; [|done].
  apply accept_Some, internal_redistribute_inv in E5 as (?&?&?&?&?&?&?&?&?&?&?&?&?&?&?&?&?&?&?&->&_). by apply take_record_structural.
Qed.

Lemma close_chain_structural b : structural_batch b -> structural_batch (close_chain rel b).
Proof.
  intros [Hb Hc]. unfold close_chain. destruct (collapse_chain_steps b) as [|[[[[[? ?] ?] ?] ?] ?] [|? ?]]; [done|..].
  all: split; cbn [records consumed_pages]; [apply Forall_app; split; [done|by constructor]|by destruct (records b)].
Qed.

Lemma structural_steps_structural changed prior head l : forall b b',
  structural_batch b -> structural_steps rel changed prior head b l = Some b' -> structural_batch b'.
Proof.
  induction l as [|c l IH]; intros b b' Hb; cbn [structural_steps]; [by intros [= <-]|].
  intros (b1 & E & Hs)%bind_Some. eapply IH; [|exact Hs]. by eapply structural_step_structural.
Qed.

Lemma structural_records_structural pages prior b : structural_records d rel pages prior = Some b -> structural_batch b.
Proof.
  unfold structural_records. intros (root & Er & (b1 & Es & [= <-])%bind_Some)%bind_Some.
  apply close_chain_structural. eapply structural_steps_structural; [|exact Es].
  destruct root as [[r involved]|]; [|done]. apply root_record_kind in Er. split; [by constructor|done].
Qed.

(** *** The loops return *)

Lemma removed_single pages prior x y : changes_of d rel pages prior -> removed_child prior x = Some y -> single_child rel d x = Some y.
Proof.
  intros Hch. unfold removed_child, single_child. intros ([[m old] new] & Hf & Hs)%bind_Some.
  apply bind_Some in Hs as ([c es] & Hp & Hs). apply find_change_spec in Hf as [-> Hin].
  destruct (ch_prior _ _ _ _ Hch _ _ _ Hin) as (Ho & _ & _ & Hpg). destruct (ch_pages _ _ _ _ Hch _ _ Hpg) as (Hn & _).
  unfold page_image. rewrite page_image_spec, Ho by done. cbn [mbind option_bind]. rewrite Hp. cbn [mbind option_bind].
  destruct (negb _ || _); [done|]. apply bind_Some in Hs as (fes & _ & Hs). by destruct (negb _).
Qed.

Lemma removed_chain_returns pages prior final first :
  changes_of d rel pages prior -> no_single_child_cycle d rel -> is_Some (removed_chain prior final first).
Proof.
  intros Hch Hac. unfold removed_chain. rewrite <- (length_map (fun c : Change => fst (fst c)) prior).
  apply follow_returns; [apply removed_dom|]. intros x Hc. apply (Hac x). eapply tc_congruence with (f := fun z => z); [|exact Hc].
  intros a b. by apply (removed_single pages).
Qed.

Lemma structural_step_returns pages changed prior head b c :
  changes_of d rel pages prior -> no_single_child_cycle d rel -> is_Some (structural_step rel changed prior head b c).
Proof.
  intros Hch Hac. destruct c as [[n old] new]. unfold structural_step. destruct (mem _ _); [done|]. do 3 (destruct (accept _ _ _); [done|]).
  assert (Hc : is_Some (detect_disk_btree_internal_collapse_chain_from_parent rel n old new prior head)).
  { unfold detect_disk_btree_internal_collapse_chain_from_parent. destruct (collapsed_slot old new) as [[[[slot fr] fin] f]|]; [|done].
    destruct (removed_chain_returns pages prior fin fr Hch Hac) as [[rp|] ->]; done. }
  destruct Hc as [chain ->]. cbn [mbind option_bind]. by repeat case_match.
Qed.

Lemma structural_records_return pages prior :
  changes_of d rel pages prior -> no_single_child_cycle d rel -> is_Some (structural_records d rel pages prior).
Proof.
  intros Hch Hac. unfold structural_records.
  assert (Hr : is_Some (root_record d rel (map fst pages) prior (old_free_list_head d rel prior))).
  { unfold root_record. destruct (negb _); [done|]. do 3 (case_match; [done|]). unfold detect_disk_btree_root_promote_collapsed_chain.
    destruct (root_change prior) as [c|]; [|done]. destruct (new_page_count prior); [|done]. destruct (_ || _); [done|].
    destruct (collapsed_chain_returns rel d (new_root c) (old_root c) Hac) as [[l|] ->]; [|done]. by destruct (_ <? _)%nat. }
  destruct Hr as [root ->]. cbn [mbind option_bind]. generalize prior at 3 as l. set (start := match root with Some _ => _ | None => _ end).
  clearbody start. intros l. revert start. induction l as [|c l IH]; intros start; cbn [structural_steps]; [done|].
  destruct (structural_step_returns pages (map fst pages) prior (old_free_list_head d rel prior) start c Hch Hac) as [b ->]. apply IH.
Qed.

Lemma page_changes_all prior pages :
  Forall (fun x => page_no (fst x)) pages ->
  page_changes d rel [] prior pages =
    Ok (map (fun x => page_change rel (fst x) (snd x) (page_on d (mkPageId rel (fst x))) prior) pages).
Proof.
  induction pages as [|[n p] pages IH]; intros Hp; [done|]. apply Forall_cons in Hp as [Hn Hp]. cbn [page_changes map fst snd] in *.
  replace (mem n []) with false by done. by rewrite page_image_spec, IH.
Qed.

Lemma build_page_local pages rs :
  good_pages d rel -> good_changes pages -> build_disk_index_page_records d rel pages = Some (Ok rs) -> Forall (fun r => page_local r = true) rs ->
  exists prior cs, cs = map (fun x => page_change rel (fst x) (snd x) (page_on d (mkPageId rel (fst x))) prior) pages /\
    rs = logged cs ++ build_page_set_u64_batch_records rel (u64_updates cs) ++
         build_page_patch_batch_records rel (page_patches cs) ++ build_full_page_image_batch_records rel (full_pages cs) /\
    (forall r, Logged r ∈ cs -> page_local r = true).
Proof.
  intros Hd Hp Hb Hl. destruct (collect_changes d rel pages Hd Hp) as (prior & E & Hch).
  unfold build_disk_index_page_records in Hb. rewrite E in Hb.
  apply bind_Some in Hb as (b & Eb & Hb). destruct (structural_records_structural pages prior b Eb) as [Hs Hc]. injection Hb as Hb.
  assert (Hr : records b = []).
  { destruct (page_changes d rel (consumed_pages b) prior pages) as [cs|]; [|done]. injection Hb as <-.
    apply Forall_app in Hl as [Hl _].
    destruct (records b) as [|r rs']; [done|]. apply Forall_cons in Hl as [Hl _]. apply Forall_cons in Hs as [Hs _]. congruence. }
  rewrite (Hc Hr), page_changes_all, Hr in Hb by (eapply Forall_impl; [apply Hp|]; by intros x (? & _)).
  injection Hb as <-. exists prior. eexists. split_and!; [done|done|]. intros r Hin. rewrite Forall_forall in Hl. apply Hl.
  apply elem_of_app. left.
  unfold logged. apply list_elem_of_omap. by exists (Logged r).
Qed.

Lemma unchanged_noop {T} (chg : T -> PageChange) l d0 :
  (forall x, x ∈ l -> kind_no (chg x) = 4%nat) -> redo_each (fun x => replay_change rel (chg x)) l d0 = (Ok tt, d0).
Proof.
  induction l as [|x l IH]; intros Hl; [done|]. cbn [redo_each]. specialize (Hl x ltac:(by left)) as Hx. destruct (chg x); try done.
  cbn [replay_change]. erewrite redo_bind_ok by reflexivity. apply IH. intros y Hy. apply Hl. by right.
Qed.

Lemma page_local_redo pages rs :
  good_pages d rel -> good_changes pages -> build_disk_index_page_records d rel pages = Some (Ok rs) -> Forall (fun r => page_local r = true) rs ->
  exists d', replay_index_records rs d = (Ok tt, d') /\ (forall n new, (n, new) ∈ pages -> restored d' rel n new) /\
    rewrote rel (map fst pages) d d'.
Proof.
  intros Hd Hp Hb Hl. destruct (build_page_local pages rs Hd Hp Hb Hl) as (prior & cs & -> & -> & Hlog).
  set (chg := fun x : Z * list Z => page_change rel (fst x) (snd x) (page_on d (mkPageId rel (fst x))) prior) in *.
  rewrite replay_in_order by done. rewrite in_order_kinds, redo_each_map.
  pose proof (kinds_perm chg pages) as Hperm.
  set (l := of_kind chg 0 pages ++ of_kind chg 1 pages ++ of_kind chg 2 pages ++ of_kind chg 3 pages).
  set (u := of_kind chg 4 pages).
  assert (Hperm' : l ++ u ≡ₚ pages) by (unfold l, u; by rewrite <- !app_assoc).
  destruct Hp as [Hnd Hok]. rewrite Forall_forall in Hok.
  assert (Hop : forall x, x ∈ pages -> page_op rel (page_on d (mkPageId rel (fst x))) (fst x) (snd x) (replay_change rel (chg x))).
  { intros x Hx. destruct (Hok x Hx) as (? & ? & ?). apply page_change_redo; try done.
    - intros p Hpg. by apply (Hd (fst x)).
    - intros r Hr. apply Hlog. unfold chg in Hr. rewrite <- Hr. by apply (list_elem_of_fmap_2 chg). }
  destruct (page_ops_redo rel fst snd (fun x => replay_change rel (chg x)) d (l ++ u) d) as (d' & E & R & W).
  { by rewrite Hperm'. }
  { intros x Hx. apply Hop. by rewrite <- Hperm'. }
  { done. }
  exists d'. split_and!.
  - rewrite redo_each_app in E. unfold mbind, redo_bind in E. destruct (redo_each _ l d) as [[[]|e] d1]; [|done]. rewrite <- E.
    f_equal.
    symmetry. apply unchanged_noop. intros x Hx. by apply list_elem_of_filter in Hx as [Hx _].
  - intros n new Hin. apply (R (n, new)). by rewrite Hperm'.
  - eapply rewrote_mono; [exact W|]. intros n. by rewrite Hperm'.
Qed.

Lemma page_changes_ok prior pages consumed :
  Forall (fun x => page_no (fst x)) pages -> exists cs, page_changes d rel consumed prior pages = Ok cs.
Proof.
  induction pages as [|[n p] pages IH]; intros Hp; [by exists []|]. apply Forall_cons in Hp as [Hn Hp]. cbn [page_changes fst] in *.
  destruct (IH Hp) as [cs ->]. destruct (mem n consumed); [by exists cs|]. rewrite page_image_spec by done. by eexists.
Qed.

Lemma build_ok pages :
  good_pages d rel -> good_changes pages -> no_single_child_cycle d rel ->
  exists rs, build_disk_index_page_records d rel pages = Some (Ok rs).
Proof.
  intros Hd Hp Hac. destruct (collect_changes d rel pages Hd Hp) as (prior & E & Hch). unfold build_disk_index_page_records. rewrite E.
  destruct (structural_records_return pages prior Hch Hac) as [b ->]. cbn [mbind option_bind].
  destruct (page_changes_ok prior pages (consumed_pages b)) as [cs ->]; [|by eexists].
  eapply Forall_impl; [apply Hp|]. by intros x (? & _).
Qed.

End Commit.

(** [C12] Redo of a commit.  Take the changed pages of an index, different from each other, and
    the pages of its data file, all with the entries of their nodes in order, and no cycle
    among the internal pages of the file that have a single child (on one, which no tree has,
    the code may never return: [cyclic_root_never_returns]).  Building the log records then
    returns and succeeds.  When no record covers several pages, replaying the records on the
    directory succeeds, every changed page then holds what a reader sees in it (the same
    bytes, node or metapage), and no other page has changed: the node changes, the eight-byte
    updates, the patches and the whole pages are complete and do not disturb one another in
    the order in which they are logged. *)
Theorem page_records_redone `{ExternalTypes} d rel pages :
  is_disk_index_relation_id rel = true -> good_pages d rel -> good_changes pages -> no_single_child_cycle d rel ->
  exists rs, build_disk_index_page_records d rel pages = Some (Ok rs) /\
    (Forall (fun r => page_local r = true) rs ->
     exists d', replay_index_records rs d = (Ok tt, d') /\ (forall n new, (n, new) ∈ pages -> restored d' rel n new) /\
       rewrote rel (map fst pages) d d').
Proof.
  intros Hrel Hd Hp Hac. destruct (build_ok d rel pages Hd Hp Hac) as [rs E]. exists rs. split; [done|]. by apply page_local_redo.
Qed.
