(* ===== verification/LogExample.v ===== *)
(** * The log of index pages on examples

    An index of a few pages: the hypotheses of the theorems on redo hold for it, and what the
    records of several commits, or of one with a changed root, do to it. *)

From S2P Require Import Prelude.
From S2P Require Import Bytes.
From S2P Require Import PageBytes.
From S2P Require Import PoolPage.
From S2P Require Import BufferPool.
From S2P Require Import BTreePage.
From S2P Require Import Disk.
From S2P Require Import FileStore.
From S2P Require Import WalTypes.
From S2P Require Import WalExample.
From S2P Require Import IndexRedo.
From S2P Require Import RedoNodes.
From S2P Require Import IndexLog.
From S2P Require Import LogRedo.
From S2P Require Import LogChains.
From S2P Require Import LogBatch.

(** ** Deciding the hypotheses *)

Fixpoint sorted_entries (es : list (Z * Z)) : bool :=
  match es with
  | a :: ((b :: _) as rest) => (fst a <? fst b) && sorted_entries rest
  | _ => true
  end.

Lemma sorted_entriesb_spec es : sorted_entries es = true -> keys_sorted es.
Proof.
  intros H. apply Sorted_StronglySorted; [intros x y z; lia|].
  induction es as [|a [|b es] IH]; cbn [map]; [constructor|by repeat constructor|].
  cbn [sorted_entries] in H. apply andb_true_iff in H as [Ha H]. apply Z.ltb_lt in Ha. constructor; [by apply IH|by constructor].
Qed.

Lemma parse_entries_complete p es : forall i,
  is_page p -> 0 <= i -> i + count_of es <= PAGE_ENTRIES -> entries_at p i es -> parse_entries p (seqZ i (count_of es)) = Some es.
Proof.
  unfold count_of. induction es as [|[k v] es IH]; intros i Hp Hi Hl; [done|]. cbn [entries_at length] in *. intros (Hk & Hv & Hr).
  rewrite seqZ_cons by lia. cbn [parse_entries]. rewrite PAGE_ENTRIES_eq in *.
  replace (Z.pred (Z.of_nat (S (length es)))) with (Z.of_nat (length es)) by lia. pose proof (is_page_len p Hp) as Hlen.
  unfold page_len in Hlen.
  unfold read_disk_btree_u64, page_has. rewrite Hlen. rewrite !(proj2 (Z.leb_le _ _)) by (btree_consts; lia).
  cbn [mbind option_bind]. rewrite Hk, Hv.
  change (Z.succ i) with (i + 1). rewrite IH by (done || lia). done.
Qed.

Lemma parse_complete p nd :
  page_is p nd ->
  match nd with
  | NLeaf es _ => parse_disk_btree_leaf_entries p = Some es
  | NInner f es => parse_disk_btree_internal_entries p = Some (f, es)
  end.
Proof.
  intros Hp. pose proof (is_tree_page_of _ _ Hp) as Ht. pose proof (is_page_len _ (page_is_len _ _ Hp)) as Hl.
  unfold page_len in Hl.
  assert (Hc2 : (PAGE_COUNT_OFFSET + 2 <=? PAGE_SIZE) = true) by done.
  assert (Hf2 : (PAGE_FIRST_CHILD_OFFSET + 8 <=? PAGE_SIZE) = true) by done.
  destruct nd as [es r|f es]; destruct Hp as [(Hpg & _ & _ & Hc & He & Hok) [Hf _]]; cbn [kind_of kind_byte] in Ht; unfold read_count in Hc;
    pose proof (parse_entries_complete p es 0 Hpg ltac:(done) (proj2 Hok) He) as Hpe.
  - unfold parse_disk_btree_leaf_entries, read_disk_btree_count, page_has, mbind, option_bind.
    by rewrite Hl, Ht, Z.eqb_refl, Hc2, Hc, Hpe.
  - unfold parse_disk_btree_internal_entries, read_disk_btree_u64, read_disk_btree_count, page_has, mbind, option_bind.
    by rewrite Hl, Ht, Z.eqb_refl, Hc2, Hf2, Hc, Hpe, Hf.
Qed.

Definition sorted_pageb (p : list Z) : bool :=
  pageb p && sorted_entries (default [] (parse_disk_btree_leaf_entries p)) &&
  sorted_entries (default [] (snd <$> parse_disk_btree_internal_entries p)).

Lemma sorted_pageb_spec p : sorted_pageb p = true -> is_page p /\ sorted_page p.
Proof.
  unfold sorted_pageb. rewrite !andb_true_iff. intros [[H1 H2] H3]. split; [by apply pageb_spec|]. intros nd Hn.
  apply sorted_entriesb_spec.
  apply parse_complete in Hn. destruct nd; rewrite Hn in *; done.
Qed.

Definition good_pagesb (d : Disk) (rel : Z) : bool :=
  forallb (fun n => match page_on d (mkPageId rel n) with Some p => sorted_pageb p | None => true end) (seqZ 0 (rel_pages d rel)).

Lemma good_pagesb_spec d rel : good_pagesb d rel = true -> good_pages d rel.
Proof.
  unfold good_pagesb. rewrite forallb_forall. intros H n p Hp. apply sorted_pageb_spec. specialize (H n). rewrite Hp in H. apply H.
  apply list_elem_of_In, elem_of_seqZ. unfold page_on in Hp. case_decide; [|done]. cbn in *. lia.
Qed.

Definition good_changesb (pages : list (Z * list Z)) : bool :=
  bool_decide (NoDup (map fst pages)) && forallb (fun x => (0 <=? fst x) && (fst x <? FILE_PAGES) && sorted_pageb (snd x)) pages.

Lemma good_changesb_spec pages : good_changesb pages = true -> good_changes pages.
Proof.
  unfold good_changesb. rewrite andb_true_iff. intros [H1 H2]. apply bool_decide_eq_true in H1. split; [done|].
  rewrite forallb_forall in H2.
  apply Forall_forall. intros x Hx. specialize (H2 x ltac:(by apply list_elem_of_In)). rewrite !andb_true_iff in H2.
  destruct H2 as [[Ha Hb] Hs].
  apply Z.leb_le in Ha. apply Z.ltb_lt in Hb. destruct (sorted_pageb_spec _ Hs). done.
Qed.

(** The single children come later in the file than their parents. *)
Definition children_laterb (d : Disk) (rel : Z) : bool :=
  forallb (fun n => match single_child rel d n with Some c => n <? c | None => true end) (seqZ 0 (rel_pages d rel)).

Lemma children_laterb_spec d rel : children_laterb d rel = true -> no_single_child_cycle d rel.
Proof.
  unfold children_laterb. rewrite forallb_forall. intros H n Hc.
  enough (Hlt : forall x y, tc (child_of (single_child rel d)) x y -> x < y) by (specialize (Hlt _ _ Hc); lia).
  clear n Hc. assert (Hstep : forall x y, child_of (single_child rel d) x y -> x < y).
  { unfold child_of. intros x y E. specialize (H x ltac:(apply list_elem_of_In, single_dom; by eexists)). rewrite E in H. by apply Z.ltb_lt. }
  induction 1 as [x y E|x y z E _ IH]; [by apply Hstep|]. apply Hstep in E. lia.
Qed.

(** ** An index *)

Definition index_rel : Z := DISK_ORDERED_RELATION_PREFIX + 1.
Definition leaf_page (es : list (Z * Z)) (right : Z) : list Z := snd (write_leaf_entries es (snd (init_page Leaf right zero_page))).
Definition inner_page (f : Z) (es : list (Z * Z)) : list Z := snd (write_internal_entries f es (snd (init_page Internal NO_PAGE zero_page))).
Definition meta_page (root height count head : Z) : list Z :=
  put (put (put (put (snd (init_meta zero_page)) META_ROOT_OFFSET (le_bytes 8 root)) META_HEIGHT_OFFSET (le_bytes 4 height))
    META_PAGE_COUNT_OFFSET (le_bytes 8 count)) META_FREE_LIST_OFFSET (le_bytes 8 head).
Definition index_dir (pages : list (list Z)) : Disk := {[ DataFile index_rel := {| now := Some (concat pages); older := [] |} ]}.

(** The leaf entries, the internal entries and the right sibling read from a page. *)
Definition node_at (d : Disk) (n : Z) : option (option (list (Z * Z)) * option (Z * list (Z * Z)) * option Z) :=
  p ← page_on d (mkPageId index_rel n);
  Some (parse_disk_btree_leaf_entries p, parse_disk_btree_internal_entries p, right_sibling_of p).

(** *** One commit *)

Definition one_leaf : Disk := index_dir [meta_page 1 1 2 NO_PAGE; leaf_page [(5, 50)] NO_PAGE].
(** The root has a single child. *)
Definition single_child_root : Disk := index_dir [meta_page 1 2 3 NO_PAGE; inner_page 2 []; leaf_page [(5, 50)] NO_PAGE].
Definition one_commit : list (Z * list Z) :=
  [(0, meta_page 1 2 4 3); (2, leaf_page [(5, 50); (6, 60)] NO_PAGE); (3, leaf_page [] NO_PAGE)].

Definition records_of `{ExternalTypes} (d : Disk) (pages : list (Z * list Z)) : list WalRecord :=
  match build_disk_index_page_records d index_rel pages with Some (Ok rs) => rs | _ => [] end.

Lemma page_records_redone_witness :
  exists rs d', build_disk_index_page_records (H := example_types) single_child_root index_rel one_commit = Some (Ok rs) /\
    replay_index_records rs single_child_root = (Ok tt, d') /\ restored d' index_rel 2 (leaf_page [(5, 50); (6, 60)] NO_PAGE).
Proof.
  destruct (page_records_redone (H := example_types) single_child_root index_rel one_commit) as (rs & E & H).
  { by vm_compute. }
  { apply good_pagesb_spec. by vm_compute. }
  { apply good_changesb_spec. by vm_compute. }
  { apply children_laterb_spec. by vm_compute. }
  assert (Hl : forallb page_local (records_of (H := example_types) single_child_root one_commit) = true) by (by vm_compute).
  unfold records_of in Hl. rewrite E in Hl. destruct H as (d' & Er & Hr & _).
  { apply Forall_forall. intros r Hin. rewrite forallb_forall in Hl. apply Hl. by apply list_elem_of_In. }
  exists rs, d'. split; [exact E|]. split; [exact Er|]. apply Hr. right. left.
Defined.

(** *** A redistribution *)

(** An entry moves from the right internal page to the left one; the first child of the right
    page changes. *)
Definition two_inner : Disk :=
  index_dir [meta_page 1 3 9 NO_PAGE; inner_page 2 [(10, 3)]; inner_page 4 [(3, 5)]; inner_page 6 [(20, 7); (30, 8)]].
Definition moved : list (Z * list Z) := [(1, inner_page 2 [(20, 3)]); (2, inner_page 4 [(3, 5); (10, 6)]); (3, inner_page 7 [(30, 8)])].
Definition move_changes : list Change :=
  [(1, inner_page 2 [(10, 3)], inner_page 2 [(20, 3)]); (2, inner_page 4 [(3, 5)], inner_page 4 [(3, 5); (10, 6)]);
   (3, inner_page 6 [(20, 7); (30, 8)], inner_page 7 [(30, 8)])].
Definition move_record `{ExternalTypes} : WalRecord := DiskBtreeInternalRedistribute index_rel 2 3 1 0 2 4 7 [(3, 5); (10, 6)] [(30, 8)] 20.

Lemma move_detected `{ExternalTypes} :
  detect_disk_btree_internal_redistribute index_rel 3 (inner_page 6 [(20, 7); (30, 8)]) (inner_page 7 [(30, 8)]) move_changes = Some (move_record, [2; 3; 1]).
Proof. by vm_compute. Qed.

Lemma structural_change_redone_witness :
  exists d', replay_index_record (move_record (H := example_types)) two_inner = (Ok tt, d') /\ rewrote index_rel [2; 3; 1] two_inner d'.
Proof.
  destruct (collect_changes two_inner index_rel moved) as (prior & E & Hch).
  { apply good_pagesb_spec. by vm_compute. }
  { apply good_changesb_spec. by vm_compute. }
  assert (E' : collect_prior_pages two_inner index_rel moved = Ok move_changes) by (by vm_compute).
  rewrite E' in E. injection E as <-.
  destruct (structural_change_redone two_inner index_rel moved move_changes NO_PAGE (move_record (H := example_types)) Hch) as (d' & Er & _ & R).
  - apply (rec_internal_redistribute index_rel moved move_changes NO_PAGE 3 (inner_page 6 [(20, 7); (30, 8)]) (inner_page 7 [(30, 8)]) _ [2; 3; 1]).
    + right. right. left.
    + apply move_detected.
  - apply (bool_decide_unpack _). by vm_compute.
  - exists d'. split; [exact Er|exact R].
Defined.

Lemma compact_patch_roundtrip_witness :
  exists segs, build_compact_page_patch zero_page (put zero_page 100 [1; 2; 3]) = Some segs /\
    apply_segments zero_page segs = Ok (put zero_page 100 [1; 2; 3]).
Proof.
  assert (H := compact_patch_roundtrip zero_page (put zero_page 100 [1; 2; 3]) ltac:(by vm_compute) ltac:(by vm_compute)).
  replace (_ && _ && _) with true in H by (by vm_compute). destruct H as (segs & E & Ea & _). exists segs.
  split; [exact E|exact Ea].
Defined.

(** ** Several commits between two checkpoints

    The pages of the data file change at checkpoints only, so every commit is compared with the
    same pages. *)

Section Commits.
Context `{ExternalTypes}.

(** A key deleted, inserted again and deleted: the second commit logs nothing, the third logs
    the deletion again, and recovery fails at it. *)
Theorem second_delete_stops_recovery :
  let delete := records_of one_leaf [(1, leaf_page [] NO_PAGE)] in
  let insert := records_of one_leaf [(1, leaf_page [(5, 50)] NO_PAGE)] in
  delete = [DiskBtreeLeafDelete index_rel 1 5 50] /\ insert = [] /\
  fst (replay_index_records (delete ++ insert ++ delete) one_leaf) = Err internal.
Proof. by vm_compute. Qed.

(** A key deleted, then another inserted: the second commit is a patch against the page before
    the deletion, and what redo leaves has neither key. *)
Definition two_entries : Disk := index_dir [meta_page 1 1 2 NO_PAGE; leaf_page [(5, 50); (6, 60)] NO_PAGE].

Theorem second_commit_lost :
  let first := records_of two_entries [(1, leaf_page [(6, 60)] NO_PAGE)] in
  let second := records_of two_entries [(1, leaf_page [(6, 60); (7, 70)] NO_PAGE)] in
  node_at (snd (replay_index_records (first ++ second) two_entries)) 1 = Some (Some [(6, 60)], None, Some NO_PAGE).
Proof. by vm_compute. Qed.

(** The page written back before the crash, then redo: the entry is there twice. *)
Theorem redo_twice_duplicates :
  let insert := records_of one_leaf [(1, leaf_page [(5, 50); (6, 60)] NO_PAGE)] in
  let written_back := index_dir [meta_page 1 1 2 NO_PAGE; leaf_page [(5, 50); (6, 60)] NO_PAGE] in
  node_at (snd (replay_index_records insert written_back)) 1 = Some (Some [(5, 50); (6, 60); (6, 60)], None, Some NO_PAGE).
Proof. by vm_compute. Qed.

(** ** Pages that a record consumes without holding their contents *)

(** The root gives way to its only child, and the child changes in the same commit. *)
Theorem promoted_root_not_logged :
  let rs := records_of single_child_root [(0, meta_page 2 1 3 1); (1, leaf_page [] NO_PAGE); (2, leaf_page [(5, 50); (6, 60)] NO_PAGE)] in
  rs = [DiskBtreeRootPromoteSingleChild index_rel 2 1 NO_PAGE; DiskBtreeMetaUpdate index_rel 2 1 3 1] /\
  node_at (snd (replay_index_records rs single_child_root)) 2 = Some (Some [(5, 50)], None, Some NO_PAGE).
Proof. by vm_compute. Qed.

(** The first child of a parent gives way to a page two levels down, and an entry of the parent
    changes in the same commit. *)
Definition chain_below_parent : Disk :=
  index_dir [meta_page 1 4 7 NO_PAGE; inner_page 2 [(6, 5)]; inner_page 3 []; inner_page 4 []; leaf_page [(5, 50)] 5; leaf_page [(6, 60)] NO_PAGE].

Theorem collapsed_parent_not_logged :
  let rs := records_of chain_below_parent
    [(1, inner_page 4 [(7, 5)]); (2, leaf_page [] 3); (3, leaf_page [] NO_PAGE)] in
  node_at (snd (replay_index_records rs chain_below_parent)) 1 = Some (None, Some (4, [(6, 5)]), Some NO_PAGE).
Proof. by vm_compute. Qed.

(** Two leaves freed by one commit: redo links both to the old head of the free list. *)
Definition two_merges : Disk :=
  index_dir [meta_page 1 3 10 NO_PAGE; inner_page 2 [(20, 5)]; inner_page 3 [(6, 4); (8, 9)]; leaf_page [(5, 50)] 4; leaf_page [(6, 60)] 9;
             inner_page 6 [(21, 7); (23, 8)]; leaf_page [(20, 1)] 7; leaf_page [(21, 2)] 8; leaf_page [(23, 3)] NO_PAGE; leaf_page [(8, 80)] 6].

Theorem freed_pages_share_link :
  let rs := records_of two_merges
    [(0, meta_page 1 3 10 7); (2, inner_page 3 [(8, 9)]); (3, leaf_page [(5, 50); (6, 60)] 9); (4, leaf_page [] NO_PAGE);
     (5, inner_page 6 [(23, 8)]); (6, leaf_page [(20, 1); (21, 2)] 8); (7, leaf_page [] 4)] in
  let d := snd (replay_index_records rs two_merges) in
  node_at d 4 = Some (Some [], None, Some NO_PAGE) /\ node_at d 7 = Some (Some [], None, Some NO_PAGE).
Proof. by vm_compute. Qed.

(** ** The left page of an internal split

    The record of a split holds the first child of the old left page.  Where it changed, the
    record alone undoes the change, and the patch of the left page, logged after it, makes it
    again. *)
Definition one_inner : Disk := index_dir [meta_page 1 2 9 NO_PAGE; inner_page 4 [(3, 5); (10, 6); (20, 7)]].

Theorem split_keeps_old_first_child :
  let rs := records_of one_inner [(1, inner_page 8 [(3, 5)]); (2, inner_page 6 [(20, 7)])] in
  node_at (snd (replay_index_records (take 1 rs) one_inner)) 1 = Some (None, Some (4, [(3, 5)]), Some NO_PAGE) /\
  node_at (snd (replay_index_records rs one_inner)) 1 = Some (None, Some (8, [(3, 5)]), Some NO_PAGE).
Proof. by vm_compute. Qed.

(** ** A root that is its own child

    The loop from the old root to the new one has no bound: when the data file holds a cycle of
    internal pages with one child each, it does not end. *)
Definition cyclic_root : Disk := index_dir [meta_page 1 3 3 NO_PAGE; inner_page 1 []; leaf_page [(5, 50)] NO_PAGE].

Theorem cyclic_root_never_returns :
  build_disk_index_page_records cyclic_root index_rel [(0, meta_page 2 1 3 NO_PAGE)] = None /\
  forall rounds, follow (single_child index_rel cyclic_root) 2 rounds 1 = None.
Proof. split; [by vm_compute|]. intros rounds. apply collapsed_chain_endless. by vm_compute. Qed.

(** ** Checksums

    The index pool runs on a store that writes no checksums; redo does. *)

(** The directory after redo of an insertion into page 1, opened as recovery opens it. *)
Definition redone : Disk := snd (replay_index_records (records_of one_leaf [(1, leaf_page [(5, 50); (6, 60)] NO_PAGE)]) one_leaf).

Definition index_store (d : Disk) : option FilePageStore := match fst (with_max_open_files_bulk 8 d) with Ok s => Some s | Err _ => None end.

(** What a read of a page gives, after a page is written where one is given. *)
Definition read_after (d : Disk) (write : option (Z * list Z)) (n : Z) : option (Result IoError unit) :=
  s ← index_store d;
  let s := match write with Some (m, p) => snd (io_run (file_write_page (mkPageId index_rel m) p) s) | None => s end in
  Some (match fst (io_run (file_read_page (mkPageId index_rel n)) s) with Ok _ => Ok tt | Err e => Err e end).

(** After redo of page 1, page 0 has a zero checksum and is refused; page 1 can be read until the
    pool writes it again. *)
Theorem redone_pages_refused :
  read_after one_leaf None 0 = Some (Ok tt) /\ read_after redone None 0 = Some (Err InvalidData) /\
  read_after redone None 1 = Some (Ok tt) /\ read_after redone (Some (1, leaf_page [(5, 50)] NO_PAGE)) 1 = Some (Err InvalidData).
Proof. by vm_compute. Qed.

End Commits.
